(* ===== verification/_CoqProject ===== *)
-Q . S2P
Prelude.v
StdMap.v
RangeMap.v
AddressMap.v
ContainedRangeMap.v
Memory.v
StaticMap.v
MapSerializers.v
StaticRangeMap.v
CStr.v
StrMap.v
MemoryRegion.v
PostfixEvaluator.v
CfiFrameInfo.v
EvaluatorBounds.v
SymbolFile.v
BasicResolver.v
BasicInvariant.v
SymbolLoad.v
ResolverLookup.v
CodeModules.v
ResolverBase.v
ResolverTable.v
Symbolizer.v
Stackwalker.v
CpuFrame.v
StackwalkerAMD64.v
StackwalkerChain.v
StackwalkerARM.v
StackwalkerMIPS.v
StackwalkerX86.v
DumpContext.v
StackwalkerForCPU.v
MinidumpFile.v
MinidumpSystem.v
MinidumpModules.v
MinidumpContext.v
MinidumpThreads.v
MinidumpMemory.v
ProcMaps.v
MinidumpInfo.v
DumpModule.v
DumpWrite.v
DumpLoad.v
FastResolver.v
FastImage.v
FastRefines.v
FastLoad.v
FastConvert.v
ByteReader.v
CallFrameInfo.v
CfiActions.v
CfiInvariant.v
CfiToModule.v
CfiTable.v
DumpCfi.v
CfiUnwind.v
LineInfo.v
LineProgram.v
LineToModule.v
LineAssign.v
LineBounds.v
DwarfEnums.v
DieHandler.v
CompilationUnit.v
DwpReader.v
UnitTree.v
UnitRead.v
CuToModule.v
CuFunctions.v
DwarfFile.v
CuNames.v
DwarfLines.v
