(* ===== verification/Prelude.v ===== *)
(** * Breakpad: the symbol file and the stack walk

    BreakPader packages Google Breakpad for Android.  All the logic is Breakpad's C++
    under [breakpader-core/src/main/jni/breakpad/src/] (paths below start there); the
    Java and JNI code around it installs a handler.  Breakpad has three parts:
    - a *client*, which writes a minidump when the process crashes;
    - *dumpers*, which read debugging information into a [Module] (common/module.cc)
      and write it as a symbol file, a text of FILE, FUNC, line, PUBLIC and STACK
      records;
    - a *processor*, which reads a minidump and walks the stacks in it.  A [Minidump]
      finds the streams of the file by its directory; a [Stackwalker] (one class
      for each CPU) asks a [StackFrameSymbolizer] for the module and the symbols of a
      frame; that asks a [SourceLineResolverBase] for a loaded symbol file
      ([BasicSourceLineResolver::Module]); the STACK CFI rules found in it are run by a
      [PostfixEvaluator] over the [MemoryRegion] of the stack.
    This development models the processor from the containers up to the walk and the
    reader of minidumps, and of the dumpers the readers of DWARF (call frame information,
    line programs and compilation units) and the writer of symbol files.

    ** The files

    Containers and bytes:
    - Prelude.v: integers at their width, the type of outcomes, tactics.
    - StdMap.v, StrMap.v: [std::map] with integer and with string keys.
    - RangeMap.v, AddressMap.v, ContainedRangeMap.v: the three address maps
      (processor/range_map-inl.h, address_map-inl.h, contained_range_map-inl.h).
    - Memory.v, StaticMap.v, MapSerializers.v, StaticRangeMap.v: their serialized forms
      (processor/simple_serializer.h, map_serializers-inl.h, static_map-inl.h,
      static_range_map-inl.h and the like).
    - CStr.v: the C string functions the parsers call; processor/tokenize.cc.

    Evaluation:
    - MemoryRegion.v: the interface [MemoryRegion] and its implementations.
    - PostfixEvaluator.v, CfiFrameInfo.v, EvaluatorBounds.v: program strings, STACK CFI
      rules, and the walker over a register table (processor/postfix_evaluator-inl.h,
      cfi_frame_info.cc, cfi_frame_info-inl.h).

    Symbols:
    - SymbolFile.v: the records and their parsers.
    - BasicResolver.v, BasicInvariant.v, SymbolLoad.v, ResolverLookup.v: the resolver's
      module, its invariant, loading a file, looking an address up
      (processor/basic_source_line_resolver.cc).
    - ResolverBase.v, ResolverTable.v: the table of modules and its buffers
      (processor/source_line_resolver_base.cc).
    - DumpModule.v, DumpWrite.v, DumpLoad.v: the dumper's module, what it writes, and
      what the resolver makes of that (common/module.cc).
    - FastResolver.v, FastImage.v, FastRefines.v, FastLoad.v, FastConvert.v: the block a
      loaded module is serialized into, the resolver that answers from such a block in
      place, and the conversion of one resolver into the other
      (processor/module_serializer.cc, fast_source_line_resolver.cc).

    Debugging information:
    - ByteReader.v: numbers, LEB128 numbers and encoded pointers in a section
      (common/dwarf/bytereader.cc).
    - CallFrameInfo.v: the reader of .debug_frame and .eh_frame sections, and the
      interpreter of their instructions, for any handler (class [CallFrameInfo] of
      common/dwarf/dwarf2reader.cc).  CfiActions.v: the instructions and their encodings;
      CfiInvariant.v: what the interpreter keeps.
    - CfiToModule.v: the handler that makes STACK CFI records of an entry
      (common/dwarf_cfi_to_module.cc, [LoadDwarfCFI] of common/linux/dump_symbols.cc);
      CfiTable.v: the records are the table the instructions describe.
    - DumpCfi.v, CfiUnwind.v: the records through the symbol file, to the registers that
      the processor computes for a caller.
    - LineInfo.v: the interpreter of line number programs, for any handler (class
      [LineInfo] of common/dwarf/dwarf2reader.cc, line_state_machine.h); LineProgram.v:
      the programs and their encodings.
    - LineToModule.v: the handler that makes files and lines of a [Module] from them
      (common/dwarf_line_to_module.cc); LineBounds.v: what it makes from any bytes.
    - DwarfEnums.v, DieHandler.v: the dispatcher of a compilation unit's DIEs to their
      handlers (common/dwarf/dwarf2diehandler.cc).
    - CompilationUnit.v: the reader of a compilation unit, its abbreviations and DIEs, for
      any handler (class [CompilationUnit] of common/dwarf/dwarf2reader.cc); DwpReader.v:
      the rest of a unit in another file, and the index of .dwp files (class [DwpReader]);
      UnitTree.v, UnitRead.v: trees of DIEs and units and how they are laid out.
    - CuToModule.v: the handlers of functions, scopes and units
      (common/dwarf_cu_to_module.cc, language.cc); LineAssign.v: the assignment of lines
      to functions in it; CuFunctions.v, CuNames.v: the functions and names they give.
    - DwarfFile.v: the loop over the units of a file ([LoadDwarf] of
      common/linux/dump_symbols.cc).
    - DwarfLines.v: a unit through the symbol file, to the function, the file and the
      line that the processor finds for an address.

    Minidumps:
    - MinidumpFile.v: the header, the directory, the strings of a minidump, and the cache
      of its streams (class [Minidump] of processor/minidump.cc).
    - MinidumpSystem.v: what it says of the system, and the check of a context against it.
    - MinidumpModules.v: the list of modules, their names and identifying records.
    - MinidumpContext.v, MinidumpThreads.v: the contexts of all CPUs, the list of threads and
      the exception.  MinidumpMemory.v: the list of memory regions, and what is known of
      the memory.  ProcMaps.v: the mappings of a Linux process
      (processor/proc_maps_linux.cc).  MinidumpInfo.v: the other streams.

    Walking:
    - CodeModules.v, Symbolizer.v: code modules and the symbolizer
      (processor/basic_code_modules.cc, stack_frame_symbolizer.cc).
    - Stackwalker.v: the walk for any CPU; CpuFrame.v: what the frames and the walkers of
      the CPUs share (processor/stackwalker.cc, stack_frame_cpu.h).
    - StackwalkerAMD64.v, StackwalkerX86.v, StackwalkerARM.v (ARM and ARM64),
      StackwalkerMIPS.v, StackwalkerChain.v (PowerPC, SPARC and lists of addresses): the
      walkers (processor/stackwalker_*.cc).
    - DumpContext.v: the CPU context of a dump (processor/dump_context.cc).
    - StackwalkerForCPU.v: the walker for a context, and a walk on any CPU.

    A class is a record of its members; a method is a function of the object and its
    arguments to the result and the changed object, with the source's name.  What one
    component asks of another is a type class ([MemoryRegion] and [MemoryRegionLaws],
    [CodeModules], [SymbolModule], [SymbolSupplier], [CfiHandler], [LineInfoHandler],
    [Dwarf2Handler], [ReaderStore], [DIEHandler], [StreamObject], [CpuWalker] and
    [CpuWalkerLaws]),
    so that the clients are proved against any implementation.  Objects that are shared
    and changed through a pointer (the functions of the resolver, the files of the
    dumper's module) are in a heap and the pointers are positions in it.  A method that
    can fail, or meet behaviour the language leaves undefined, returns an [outcome].

    ** What is proved

    - The address maps: each operation against the set of the ranges stored, shrinking
      and nesting included; the serialized maps answer as the originals.
    - The evaluator: on the postfix form of an expression it computes the value of the
      expression, on programs their assignments, division by zero and the addresses out
      of the region included; what it computes fits the machine word; by rules that are
      expressions a caller gets the registers they give, and keeps the callee's others
      ([registers_recovered]).
    - Symbol files: printing a record and parsing it gives it back; loading a file of
      well-formed records is applying them in order; whatever the bytes of a file,
      loading ends in a module whose tables are well formed, with one exception, which
      is a defect of the source; the lookups find the innermost or nearest entry.
    - The dumper: the text it writes, the errors it reports and one it does not, and the
      round trip: what it wrote the processor looks up.
    - Call frame information: numbers and pointers are read back from their layout; an
      instruction in any of its encodings does what it stands for; whatever the bytes, the
      rules in force extend every state saved, so restoring one never trips an assertion
      of the reader; and the STACK CFI rules recorded for an entry give at each address
      the rules in force there ([cfi_table]).  Written, loaded and looked up the rules of
      an entry are the same ([dump_cfi]), and evaluated in a callee's registers they give
      what DWARF says of the row in force ([cfi_unwind]), from the bytes of the
      instructions to the value of the return address.
    - Line programs and units: any program laid out in bytes tells the handler the lines
      its rows stand for ([line_program]); the events of a tree of DIEs reach the handlers
      as a recursive visit would ([die_dispatch]); lines are cut to functions, overlapping
      ones included, without tripping an assertion or looping ([assign_lines_cut]);
      a unit laid out in its sections reports exactly its tree of DIEs ([compilation_unit]);
      from the index of a .dwp file the sections of a unit are those laid out in it
      ([dwp_sections]), and searches of its hash table end, or never do in a full table
      ([probe_ends]); a file of units is read as the visit of each in turn, and whatever they say the
      module stays one a client could have built ([load_dwarf]);
      functions get the names their scopes and declarations give ([unit_functions]).
      Written, loaded and looked up an address in a line and a function has its name, file
      and line number ([dwarf_lines]).
    - The fast resolver: what the basic one loads can be serialized, the block has the
      size announced, and over it every lookup has the same answer; so a converted
      resolver answers as the one it was made from.
    - Minidumps: a file laid out in either byte order is read unless it repeats a stream
      there may be one of, and each stream of its directory is then found
      ([minidump_read]); its modules have the names, the identifiers and the ranges laid
      out ([module_list_read]); a context of any CPU has the registers laid out
      ([context_read]); threads are found by their ids, memory by its addresses and its
      numbers are read back ([thread_list_read], [memory_list_read]), and each list is
      refused exactly when an id repeats, or a range is empty, overlaps or wraps; the text
      of any mappings is parsed to those mappings, in which each address is looked up
      ([proc_maps]).
    - The table of modules is a map from names to modules, and its buffers are neither
      leaked nor freed twice.
    - The walk: stack pointers grow, there is at most one frame more than the limit, and
      scanning stops at its own, for any CPU that meets the laws of [CpuWalkerLaws]
      ([stack_walk]); every walker meets them, so for any context of a dump the walk ends
      and climbs the stack ([cpu_walk]).  It is undefined only where symbolizing frames
      ([symbolizer_reaches]) leads to symbols of a module that cannot be read, or to rules
      or a program in them without a defined value: over symbols without those
      ([harmless]) it always has a result.  Of the
      ways to find a caller: frame pointers and scans on AMD64, frame data on x86, STACK
      CFI rules on ARM, the scan on MIPS.

    ** Bounds and fuel

    The host is little endian with 64-bit [long] and pointers; [int] is 32 bits and a
    narrowing conversion wraps.  A loop that is not structural takes fuel, and a theorem
    says that the fuel given is enough (the loops of a walk fail without fuel, which
    nothing else in a walk does, and are proved not to fail): [StoreRange] one more than the ranges stored and
    one, as each recursion passes a stored range; [load_loop] one more than the
    characters of the text, as each line takes one; [scan_loop] two more than the words
    scanned; the scan on MIPS and the search for a saved %ebp on x86 the size of the stack
    region in words and two, as each turn but the last reads another word; [walk_loop] one more
    than the limit on frames; the parsing loops one more than the characters;
    [instruction_loop] the bytes of the entry and [entries_loop] the bytes of the
    section, as each turn reads some; [lines_loop] the bytes of the section, as each opcode
    takes some, [abbrevs_loop] and [dies_loop] one more than those bytes, a search in a table of a
    .dwp file the bytes of its index, which has more than there are slots, [units_loop] the
    bytes of .debug_info; and the loop that assigns lines one more than the ends of the functions and
    lines, as each turn passes one; the search in a serialized tree one more than the bytes of the
    block, as each level takes some; the loop over serialized delta rules one more than
    the nodes.

    ** What is not modelled

    The clients (signal handlers, ptrace, system calls), the readers of stabs and of object
    files, microdumps, the heuristics of exploitability, the printing tools and the vendored code are left out: they are input and output
    around this core, or bound to an operating system.  A failed assertion, a call of [abort] and a read outside a section are
    undefined behaviour of the model.  Of minidump.cc
    only printing is left out.  Of a raw CPU context only the members the walkers
    use are, and the element of an array past its end is a member of its own.  Logging is
    left out everywhere, and what the library cannot read (the file system, the
    allocator, a symbol supplier) is a parameter. *)
From Stdlib Require Export ZArith Lia.
From stdpp Require Export base numbers strings option relations sets list.
#[global] Open Scope Z_scope.

(** ** Machine integers *)

(** [wrap w z]: the value of a [w]-bit unsigned integer computed as [z]. *)
Definition wrap (w z : Z) : Z := z mod 2 ^ w.

(** [swrap w z]: the two's complement reading of the low [w] bits of [z]. *)
Definition swrap (w z : Z) : Z := (z + 2 ^ (w - 1)) mod 2 ^ w - 2 ^ (w - 1).

Definition u8 := wrap 8.
Definition u16 := wrap 16.
Definition u32 := wrap 32.
Definition u64 := wrap 64.
Definition s32 := swrap 32.
Definition s64 := swrap 64.

(** A value that fits a [w]-bit unsigned integer. *)
Definition fits (w z : Z) : Prop := 0 <= z < 2 ^ w.

Create HintDb bp.

(** ** Outcomes

    What a function that reports failure in its return value does: succeed with
    a result, return failure, or run into behaviour that C++ leaves undefined (a
    null dereference, an access out of bounds, a division by zero). *)
Inductive outcome (A : Type) := Ok (a : A) | Fail | Undefined.
Arguments Ok {_} _.
Arguments Fail {_}.
Arguments Undefined {_}.

#[export] Instance outcome_ret : MRet outcome := λ A, Ok.
#[export] Instance outcome_bind : MBind outcome :=
  λ A B f x, match x with Ok a => f a | Fail => Fail | Undefined => Undefined end.

Lemma bind_Ok {A B} (f : A -> outcome B) a : Ok a ≫= f = f a.
Proof. reflexivity. Qed.

Definition of_option {A} (x : option A) : outcome A :=
  match x with Some a => Ok a | None => Fail end.

(** ** Automation *)

(** Turn boolean comparisons in hypotheses into propositions. *)
Ltac breflect :=
  repeat match goal with
  | H : (_ <? _) = true |- _ => apply Z.ltb_lt in H
  | H : (_ <? _) = false |- _ => apply Z.ltb_ge in H
  | H : (_ <=? _) = true |- _ => apply Z.leb_le in H
  | H : (_ <=? _) = false |- _ => apply Z.leb_gt in H
  | H : (_ =? _) = true |- _ => apply Z.eqb_eq in H
  | H : (_ =? _) = false |- _ => apply Z.eqb_neq in H
  | H : (_ <? _)%nat = true |- _ => apply Nat.ltb_lt in H
  | H : (_ <? _)%nat = false |- _ => apply Nat.ltb_ge in H
  | H : (_ <=? _)%nat = true |- _ => apply Nat.leb_le in H
  | H : (_ <=? _)%nat = false |- _ => apply Nat.leb_gt in H
  | H : (_ =? _)%nat = true |- _ => apply Nat.eqb_eq in H
  | H : (_ =? _)%nat = false |- _ => apply Nat.eqb_neq in H
  | H : (_ && _)%bool = true |- _ => apply andb_true_iff in H as [??]
  | H : (_ && _)%bool = false |- _ => apply andb_false_iff in H
  | H : (_ || _)%bool = true |- _ => apply orb_true_iff in H
  | H : (_ || _)%bool = false |- _ => apply orb_false_iff in H as [??]
  | H : negb _ = true |- _ => apply negb_true_iff in H
  | H : negb _ = false |- _ => apply negb_false_iff in H
  end.

(** Case analysis on the first conditional of the goal. *)
Ltac dif :=
  match goal with
  | |- context [if ?b then _ else _] =>
      lazymatch type of b with
      | bool => let E := fresh "E" in destruct b eqn:E; breflect
      end
  end.

(** Case analysis on the first conditional of a hypothesis. *)
Ltac dif_in H :=
  match type of H with
  | context [if ?b then _ else _] =>
      lazymatch type of b with
      | bool => let E := fresh "E" in destruct b eqn:E; breflect
      end
  end.

(** ** Lemmas on machine integers *)

Lemma pow2_pos w : 0 <= w -> 0 < 2 ^ w.
Proof. intros. apply Z.pow_pos_nonneg; lia. Qed.

Lemma wrap_range w z : 0 <= w -> 0 <= wrap w z < 2 ^ w.
Proof. intros. apply Z.mod_pos_bound, pow2_pos; lia. Qed.

Lemma wrap_small w z : fits w z -> wrap w z = z.
Proof. intros. apply Z.mod_small; auto. Qed.

Lemma wrap_wrap w z : wrap w (wrap w z) = wrap w z.
Proof. unfold wrap. destruct (Z.eq_dec (2 ^ w) 0) as [->|]; [now rewrite !Z.mod_0_r|]. now apply Z.mod_mod. Qed.

(** The sum of two [w]-bit values either fits or wraps exactly once. *)
Lemma wrap_add_cases w a b :
  0 <= w -> fits w a -> fits w b ->
  (wrap w (a + b) = a + b /\ a + b < 2 ^ w) \/ (wrap w (a + b) = a + b - 2 ^ w /\ 2 ^ w <= a + b).
Proof.
  unfold fits, wrap. intros Hw Ha Hb. destruct (Z_lt_ge_dec (a + b) (2 ^ w)).
  - left. split; [apply Z.mod_small; lia | lia].
  - right. split; [|lia]. symmetry. apply (Z.mod_unique _ _ 1); lia.
Qed.

(** The difference of two [w]-bit values either is exact or wraps exactly once. *)
Lemma wrap_sub_cases w a b :
  0 <= w -> fits w a -> fits w b ->
  (wrap w (a - b) = a - b /\ b <= a) \/ (wrap w (a - b) = a - b + 2 ^ w /\ a < b).
Proof.
  unfold fits, wrap. intros Hw Ha Hb. destruct (Z_le_gt_dec b a).
  - left. split; [apply Z.mod_small; lia | lia].
  - right. split; [|lia]. symmetry. apply (Z.mod_unique _ _ (-1)); lia.
Qed.

Lemma swrap_range w z : 0 < w -> - 2 ^ (w - 1) <= swrap w z < 2 ^ (w - 1).
Proof.
  intros. unfold swrap. pose proof (Z.mod_pos_bound (z + 2 ^ (w - 1)) (2 ^ w) ltac:(apply pow2_pos; lia)).
  replace (2 ^ w) with (2 ^ (w - 1) + 2 ^ (w - 1)) in *; [lia|].
  replace w with (Z.succ (w - 1)) at 3 by lia. rewrite Z.pow_succ_r by lia. lia.
Qed.

Lemma swrap_small w z : 0 < w -> - 2 ^ (w - 1) <= z < 2 ^ (w - 1) -> swrap w z = z.
Proof.
  intros. unfold swrap. rewrite Z.mod_small; [lia|].
  replace (2 ^ w) with (2 ^ (w - 1) + 2 ^ (w - 1)); [lia|].
  replace w with (Z.succ (w - 1)) at 3 by lia. rewrite Z.pow_succ_r by lia. lia.
Qed.

Lemma wrap_fits w z : 0 <= w -> fits w (wrap w z).
Proof. apply wrap_range. Qed.

#[export] Hint Resolve wrap_fits : bp.
#[export] Hint Resolve wrap_range wrap_small : bp.
