(* ===== verification/StdMap.v ===== *)
(** The [std::map] with integer keys that the processor's address maps are
    built on: a list of key/value pairs in strictly increasing key order.
    An iterator is a position in that list, [end()] is its length. *)
From stdpp Require Import sorting sets list.
From S2P Require Import Prelude.

Abbreviation smap V := (list (Z * V)).

Section operations.
Context {V : Type}.
Implicit Types (m : smap V) (k : Z) (v : V).

(** Position of the first key that is not less than [k]. *)
Fixpoint lower_bound m k : nat :=
  match m with
  | [] => 0
  | (k', _) :: m' => if k' <? k then S (lower_bound m' k) else 0
  end.

(** Position of the first key that is greater than [k]. *)
Fixpoint upper_bound m k : nat :=
  match m with
  | [] => 0
  | (k', _) :: m' => if k' <=? k then S (upper_bound m' k) else 0
  end.

(** [find]: the position of [k], or [end()]. *)
Definition find m k : nat :=
  let i := lower_bound m k in
  match m !! i with
  | Some (k', _) => if k' =? k then i else length m
  | None => length m
  end.

(** [insert] does nothing when the key is already present. *)
Definition insert m k v : smap V :=
  let i := lower_bound m k in
  match m !! i with
  | Some (k', _) => if k' =? k then m else take i m ++ (k, v) :: drop i m
  | None => m ++ [(k, v)]
  end.

(** [erase (i)] and [erase (i, j)]. *)
Definition erase m (i : nat) : smap V := take i m ++ drop (S i) m.
Definition erase_range m (i j : nat) : smap V := take i m ++ drop j m.

(** [m[k] = v]. *)
Definition assign m k v : smap V :=
  let i := lower_bound m k in
  match m !! i with
  | Some (k', _) => if k' =? k then take i m ++ (k, v) :: drop (S i) m
                    else take i m ++ (k, v) :: drop i m
  | None => m ++ [(k, v)]
  end.

(** The value stored under [k]. *)
Definition lookup_key m k : option V :=
  snd <$> (m !! find m k).

(** Keys in strictly increasing order: what every [std::map] maintains. *)
Definition sorted m : Prop := StronglySorted (λ a b, a.1 < b.1) m.
End operations.

Section lemmas.
Context {V : Type}.
Implicit Types (m : smap V) (k : Z) (v : V).

Lemma sorted_nil : sorted ([] : smap V).
Proof. constructor. Qed.

Lemma sorted_cons m k v :
  sorted ((k, v) :: m) <-> (forall k' v', (k', v') ∈ m -> k < k') /\ sorted m.
Proof.
  unfold sorted. split.
  - inversion 1 as [|?? Hs Hf]; subst. split; [|done]. intros k' v' Hin.
    rewrite Forall_forall in Hf. by apply (Hf (k', v')).
  - intros [Hf Hs]. constructor; [done|]. rewrite Forall_forall. intros [k' v'] ?. by eapply Hf.
Qed.

Lemma sorted_app m1 m2 :
  sorted (m1 ++ m2) <->
  sorted m1 /\ sorted m2 /\
  (forall k1 v1 k2 v2, (k1, v1) ∈ m1 -> (k2, v2) ∈ m2 -> k1 < k2).
Proof.
  induction m1 as [|[k v] m1 IH]; simpl.
  - split; [intros; split_and!; [constructor|done|] | tauto]. intros ????. set_solver.
  - rewrite !sorted_cons, IH. split.
    + intros (Hk & ? & ? & Hc). split_and!; try done.
      * intros k' v' ?. apply (Hk k' v'), elem_of_app; auto.
      * intros k1 v1 k2 v2 [[= -> ->]|?]%elem_of_cons ?; [apply (Hk k2 v2), elem_of_app; auto | eauto].
    + intros ([Hk ?] & ? & Hc). split_and!; try done.
      * intros k' v' [?|?]%elem_of_app; [eauto|]. eapply Hc; [left|done].
      * intros; eapply Hc; [right; eassumption|eassumption].
Qed.

(** Keys are unique. *)
Lemma sorted_functional m k v v' :
  sorted m -> (k, v) ∈ m -> (k, v') ∈ m -> v = v'.
Proof.
  induction m as [|[k0 v0] m IH]; [set_solver|]. rewrite sorted_cons. intros [Hlt Hs].
  intros [[= -> ->]|H1]%elem_of_cons [[=]|H2]%elem_of_cons; subst; auto.
  - apply Hlt in H2; lia.
  - apply Hlt in H1; lia.
Qed.

(** [lower_bound] cuts the map between the keys below [k] and the others. *)
Lemma lower_bound_split m k :
  sorted m ->
  (forall k' v', (k', v') ∈ take (lower_bound m k) m -> k' < k) /\
  (forall k' v', (k', v') ∈ drop (lower_bound m k) m -> k <= k').
Proof.
  induction m as [|[k0 v0] m IH]; intros Hs; simpl; [set_solver|].
  apply sorted_cons in Hs as [Hlt Hs]. destruct (k0 <? k) eqn:E; breflect; simpl.
  - destruct (IH Hs) as [H1 H2]. split; [|done].
    intros k' v' [[= -> ->]|?]%elem_of_cons; [lia|eauto].
  - split; [set_solver|]. intros k' v' [[= -> ->]|Hin]%elem_of_cons; [lia|].
    apply Hlt in Hin. lia.
Qed.

Lemma upper_bound_split m k :
  sorted m ->
  (forall k' v', (k', v') ∈ take (upper_bound m k) m -> k' <= k) /\
  (forall k' v', (k', v') ∈ drop (upper_bound m k) m -> k < k').
Proof.
  induction m as [|[k0 v0] m IH]; intros Hs; simpl; [set_solver|].
  apply sorted_cons in Hs as [Hlt Hs]. destruct (k0 <=? k) eqn:E; breflect; simpl.
  - destruct (IH Hs) as [H1 H2]. split; [|done].
    intros k' v' [[= -> ->]|?]%elem_of_cons; [lia|eauto].
  - split; [set_solver|]. intros k' v' [[= -> ->]|Hin]%elem_of_cons; [lia|].
    apply Hlt in Hin. lia.
Qed.

Lemma lower_bound_le m k : (lower_bound m k <= length m)%nat.
Proof. induction m as [|[??]]; simpl; [lia|]. dif; lia. Qed.

Lemma upper_bound_le m k : (upper_bound m k <= length m)%nat.
Proof. induction m as [|[??]]; simpl; [lia|]. dif; lia. Qed.

Lemma elem_of_take_drop i m x : x ∈ m <-> x ∈ take i m \/ x ∈ drop i m.
Proof. rewrite <- elem_of_app, take_drop. done. Qed.

(** [*lower_bound(k)] is the entry with the least key that is at least [k]. *)
Lemma lower_bound_Some m k k' v :
  sorted m -> m !! lower_bound m k = Some (k', v) ->
  k <= k' /\ (k', v) ∈ m /\ (forall k'' v'', (k'', v'') ∈ m -> k <= k'' -> k' <= k'').
Proof.
  intros Hs Hl. destruct (lower_bound_split m k Hs) as [H1 H2].
  pose proof (drop_S _ _ _ Hl) as Hd.
  assert (k <= k'). { apply (H2 k' v). rewrite Hd. left. }
  split_and!; [done|by eapply list_elem_of_lookup_2|].
  intros k'' v'' Hin Hle. apply (elem_of_take_drop (lower_bound m k)) in Hin as [Hin|Hin].
  { apply H1 in Hin. lia. }
  rewrite Hd in Hin. apply elem_of_cons in Hin as [[= -> ->]|Hin]; [lia|].
  rewrite <- (take_drop (lower_bound m k) m), Hd in Hs.
  apply sorted_app in Hs as (_ & [Hlt _]%sorted_cons & _). apply Hlt in Hin. lia.
Qed.

(** [lower_bound(k) == end()] exactly when every key is below [k]. *)
Lemma lower_bound_None m k :
  sorted m -> m !! lower_bound m k = None <-> (forall k' v', (k', v') ∈ m -> k' < k).
Proof.
  intros Hs. destruct (lower_bound_split m k Hs) as [H1 H2]. split.
  - intros Hn%lookup_ge_None k' v' Hin. apply (H1 k' v'). rewrite take_ge by lia. done.
  - intros Hall. destruct (m !! lower_bound m k) as [[k' v']|] eqn:E; [|done].
    apply lower_bound_Some in E as (? & Hin & _); [|done]. apply Hall in Hin. lia.
Qed.

Lemma lower_bound_eq m k k' v' :
  sorted m -> (k', v') ∈ m -> k <= k' ->
  (forall k'' v'', (k'', v'') ∈ m -> k <= k'' -> k' <= k'') ->
  m !! lower_bound m k = Some (k', v').
Proof.
  intros Hs Hin Hle Hmin. destruct (m !! lower_bound m k) as [[k1 v1]|] eqn:E.
  - apply lower_bound_Some in E as (? & Hin1 & Hmin1); [|done].
    assert (k1 = k') as -> by (apply Z.le_antisymm; eauto).
    by rewrite (sorted_functional m k' v1 v' Hs Hin1 Hin).
  - rewrite lower_bound_None in E by done. apply E in Hin. lia.
Qed.

(** The first of two lower bounds that differ designates a key below the second. *)
Lemma lower_bound_lt m k1 k2 :
  sorted m -> k1 <= k2 ->
  lower_bound m k1 <> lower_bound m k2 <-> exists k v, (k, v) ∈ m /\ k1 <= k < k2.
Proof.
  induction m as [|[k0 v0] m IH]; intros Hs Hle; simpl.
  { split; [done|]. intros (k & v & Hin & _). by apply not_elem_of_nil in Hin. }
  apply sorted_cons in Hs as [Hlt Hs].
  destruct (k0 <? k1) eqn:E1, (k0 <? k2) eqn:E2; breflect; try lia.
  - split.
    + intros Hne. destruct (proj1 (IH Hs Hle)) as (k & v & ? & ?); [lia|]. exists k, v. split; [by right | lia].
    + intros (k & v & [[= -> ->]|?]%elem_of_cons & ?); [lia|].
      pose proof (proj2 (IH Hs Hle) ltac:(eauto)). lia.
  - split; [|lia]. intros _. exists k0, v0. split; [left|lia].
  - split; [lia|]. intros (k & v & [[= -> ->]|Hin]%elem_of_cons & ?); [lia|].
    apply Hlt in Hin. lia.
Qed.

(** The entry before [upper_bound(k)] has the greatest key that is at most [k]. *)
Lemma upper_bound_pred m k :
  sorted m -> upper_bound m k <> 0%nat ->
  exists k' v, m !! pred (upper_bound m k) = Some (k', v) /\ k' <= k /\ (k', v) ∈ m /\
    (forall k'' v'', (k'', v'') ∈ m -> k'' <= k -> k'' <= k').
Proof.
  intros Hs Hne. destruct (upper_bound_split m k Hs) as [H1 H2].
  pose proof (upper_bound_le m k).
  destruct (lookup_lt_is_Some_2 m (pred (upper_bound m k)) ltac:(lia)) as [[k' v] Hl].
  exists k', v. split; [done|].
  assert (Hin: (k', v) ∈ take (upper_bound m k) m).
  { apply (list_elem_of_lookup_2 _ (pred (upper_bound m k))). rewrite lookup_take_lt by lia. done. }
  split_and!; [by eapply H1 | by eapply list_elem_of_lookup_2|].
  intros k'' v'' Hin'' Hle. apply (elem_of_take_drop (pred (upper_bound m k))) in Hin'' as [Hi|Hi].
  - rewrite <- (take_drop (pred (upper_bound m k)) m), (drop_S _ _ _ Hl) in Hs.
    apply sorted_app in Hs as (_ & _ & Hc). apply Z.lt_le_incl. eapply Hc; [done|left].
  - rewrite (drop_S _ _ _ Hl) in Hi. apply elem_of_cons in Hi as [[= -> ->]|Hi]; [lia|].
    replace (S (pred (upper_bound m k))) with (upper_bound m k) in Hi by lia.
    apply H2 in Hi. lia.
Qed.

Lemma upper_bound_0 m k :
  sorted m -> upper_bound m k = 0%nat <-> (forall k' v', (k', v') ∈ m -> k < k').
Proof.
  intros Hs. destruct (upper_bound_split m k Hs) as [H1 H2]. split.
  - intros E k' v' Hin. apply (H2 k' v'). by rewrite E, drop_0.
  - intros Hall. destruct (decide (upper_bound m k = 0%nat)) as [|Hn]; [done|].
    destruct (upper_bound_pred m k Hs Hn) as (k' & v & _ & ? & Hin & _). apply Hall in Hin. lia.
Qed.

(** ** Insertion and erasure *)

Lemma insert_fresh m k v :
  sorted m -> (forall v', (k, v') ∉ m) ->
  insert m k v = take (lower_bound m k) m ++ (k, v) :: drop (lower_bound m k) m.
Proof.
  intros Hs Hf. unfold insert. destruct (m !! lower_bound m k) as [[k' v']|] eqn:E.
  - dif; [|done]. subst. exfalso. eapply Hf. by eapply list_elem_of_lookup_2.
  - apply lookup_ge_None in E. by rewrite take_ge, drop_ge by lia.
Qed.

Lemma elem_of_insert m k v x :
  sorted m -> (forall v', (k, v') ∉ m) -> x ∈ insert m k v <-> x = (k, v) \/ x ∈ m.
Proof.
  intros Hs Hf. rewrite insert_fresh, elem_of_app, elem_of_cons by done.
  rewrite (elem_of_take_drop (lower_bound m k) m). tauto.
Qed.

Lemma insert_present m k v v' : sorted m -> (k, v') ∈ m -> insert m k v = m.
Proof.
  intros Hs Hin. unfold insert. rewrite (lower_bound_eq m k k v'); [|done..|by eauto].
  by rewrite Z.eqb_refl.
Qed.

Lemma sorted_insert m k v : sorted m -> sorted (insert m k v).
Proof.
  intros Hs. unfold insert. destruct (m !! lower_bound m k) as [[k' v']|] eqn:E.
  - dif; [done|].
    destruct (lower_bound_split m k Hs) as [H1 H2].
    pose proof (lower_bound_Some _ _ _ _ Hs E) as (Hle & Hin & Hmin).
    pose proof Hs as Hs'. rewrite <- (take_drop (lower_bound m k) m) in Hs'.
    apply sorted_app in Hs' as (Hs1 & Hs2 & Hc). apply sorted_app. split_and!; [done|..].
    + apply sorted_cons. split; [|done]. intros k1 v1 Hin1.
      assert (k' <= k1); [|lia]. eapply Hmin.
      * apply (elem_of_take_drop (lower_bound m k)). by right.
      * by eapply H2.
    + intros k1 v1 k2 v2 Hin1 [[= -> ->]|Hin2]%elem_of_cons; [by eapply H1 | by eapply Hc].
  - rewrite lower_bound_None in E by done. apply sorted_app. split_and!; [done| |].
    + apply sorted_cons. split; [set_solver|constructor].
    + intros k1 v1 k2 v2 Hin1 [= -> ->]%list_elem_of_singleton. by eapply E.
Qed.

Lemma length_insert_fresh m k v :
  sorted m -> (forall v', (k, v') ∉ m) -> length (insert m k v) = S (length m).
Proof.
  intros. rewrite insert_fresh by done.
  rewrite length_app. simpl. rewrite length_take, length_drop. pose proof (lower_bound_le m k). lia.
Qed.

Lemma sorted_erase_range m i j : (i <= j)%nat -> sorted m -> sorted (erase_range m i j).
Proof.
  intros Hij Hs. unfold erase_range. pose proof Hs as Hs'.
  rewrite <- (take_drop i m) in Hs. apply sorted_app in Hs as (? & ? & Hc).
  rewrite <- (take_drop j m) in Hs'. apply sorted_app in Hs' as (? & ? & ?).
  apply sorted_app. split_and!; [done|done|]. intros k1 v1 k2 v2 ? Hin. eapply Hc; [done|].
  replace j with (i + (j - i))%nat in Hin by lia. rewrite <- drop_drop in Hin.
  apply (elem_of_take_drop (j - i)). by right.
Qed.

Lemma erase_erase_range m i : erase m i = erase_range m i (S i).
Proof. done. Qed.

(** Erasing the entry at a position removes exactly that entry. *)
Lemma elem_of_erase m i k v x :
  sorted m -> m !! i = Some (k, v) -> x ∈ erase m i <-> x ∈ m /\ x.1 <> k.
Proof.
  intros Hs Hl. unfold erase. rewrite elem_of_app.
  rewrite <- (take_drop i m), (drop_S _ _ _ Hl) in Hs.
  rewrite (elem_of_take_drop i m), (drop_S _ _ _ Hl), elem_of_cons.
  apply sorted_app in Hs as (_ & [Hlt _]%sorted_cons & Hc).
  destruct x as [k1 v1]. simpl. split.
  - intros [Hin|Hin]; (split; [tauto|]).
    + pose proof (Hc k1 v1 k v Hin ltac:(left)). lia.
    + apply Hlt in Hin. lia.
  - intros [[?|[[= -> ->]|?]] ?]; [tauto|lia|tauto].
Qed.

(** ** Association view *)

Lemma lookup_key_Some m k v : sorted m -> lookup_key m k = Some v <-> (k, v) ∈ m.
Proof.
  intros Hs. unfold lookup_key, find. split.
  - destruct (m !! lower_bound m k) as [[k' v']|] eqn:E.
    + dif; subst.
      * rewrite E. intros [= ->]. by eapply list_elem_of_lookup_2.
      * rewrite lookup_ge_None_2 by lia. done.
    + rewrite lookup_ge_None_2 by lia. done.
  - intros Hin. pose proof (lower_bound_eq m k k v Hs Hin ltac:(lia) ltac:(eauto)) as E.
    rewrite E, Z.eqb_refl, E. done.
Qed.

Lemma lookup_key_None m k : sorted m -> lookup_key m k = None <-> forall v, (k, v) ∉ m.
Proof.
  intros Hs. destruct (lookup_key m k) as [v|] eqn:E.
  - rewrite lookup_key_Some in E by done. split; [done|]. intros H. by apply H in E.
  - split; [|done]. intros _ v Hin. rewrite <- lookup_key_Some in Hin by done. congruence.
Qed.

(** [find] differs from [end()] exactly when the key is present. *)
Lemma find_end m k : sorted m -> find m k = length m <-> forall v, (k, v) ∉ m.
Proof.
  intros Hs. rewrite <- lookup_key_None by done. unfold lookup_key.
  split.
  - intros ->. by rewrite lookup_ge_None_2 by lia.
  - intros Hn. unfold find in *. destruct (m !! lower_bound m k) as [[k' v']|] eqn:E; [|done].
    destruct (k' =? k); [by rewrite E in Hn | done].
Qed.

(** Two sorted maps with the same entries are equal. *)
Lemma sorted_ext m1 m2 :
  sorted m1 -> sorted m2 -> (forall x, x ∈ m1 <-> x ∈ m2) -> m1 = m2.
Proof.
  revert m2. induction m1 as [|[k1 v1] m1 IH]; intros [|[k2 v2] m2] Hs1 Hs2 Heq.
  - done.
  - exfalso. assert (H : (k2, v2) ∈ []) by (apply Heq; left). by apply not_elem_of_nil in H.
  - exfalso. assert (H : (k1, v1) ∈ []) by (apply Heq; left). by apply not_elem_of_nil in H.
  - apply sorted_cons in Hs1 as [H1 Hs1], Hs2 as [H2 Hs2].
    assert ((k1, v1) = (k2, v2)) as Hhd.
    { assert (Ha : (k1, v1) ∈ (k2, v2) :: m2) by (apply Heq; left).
      assert (Hb : (k2, v2) ∈ (k1, v1) :: m1) by (apply Heq; left).
      apply elem_of_cons in Ha as [?|Ha]; [done|].
      apply elem_of_cons in Hb as [?|Hb]; [done|].
      apply H2 in Ha. apply H1 in Hb. lia. }
    injection Hhd as -> ->. f_equal. apply IH; [done..|].
    intros [k v]. specialize (Heq (k, v)). rewrite !elem_of_cons in Heq. split; intros Hin.
    + destruct (proj1 Heq (or_intror Hin)) as [[= -> ->]|]; [|done]. apply H1 in Hin. lia.
    + destruct (proj2 Heq (or_intror Hin)) as [[= -> ->]|]; [|done]. apply H2 in Hin. lia.
Qed.
(** ** Assignment *)

Lemma assign_fresh m k v : sorted m -> (forall v', (k, v') ∉ m) -> assign m k v = insert m k v.
Proof.
  intros Hs Hf. unfold assign, insert. destruct (m !! lower_bound m k) as [[k' v']|] eqn:E; [|done].
  dif; [|done]. subst. exfalso. eapply Hf. by eapply list_elem_of_lookup_2.
Qed.

Lemma assign_spec m k v :
  sorted m -> sorted (assign m k v) /\ forall x, x ∈ assign m k v <-> x = (k, v) \/ (x ∈ m /\ x.1 <> k).
Proof.
  intros Hs. destruct (lookup_key m k) as [v'|] eqn:El.
  - apply lookup_key_Some in El; [|done].
    pose proof (lower_bound_eq m k k v' Hs El ltac:(lia) ltac:(eauto)) as E.
    unfold assign. rewrite E, Z.eqb_refl.
    assert (Her: forall x, x ∈ erase m (lower_bound m k) <-> x ∈ m /\ x.1 <> k)
      by (intros x; by eapply elem_of_erase).
    assert (Hk: sorted (take (lower_bound m k) m ++ (k, v) :: drop (S (lower_bound m k)) m)).
    { rewrite <- (take_drop (lower_bound m k) m), (drop_S _ _ _ E) in Hs.
      apply sorted_app in Hs as (Hs1 & [Hlt Hs2]%sorted_cons & Hc). apply sorted_app.
      split_and!; [done|by apply sorted_cons|]. intros k1 v1 k2 v2 Hin [[= -> ->]|Hin2]%elem_of_cons.
      - by eapply Hc; [|left].
      - eapply Hc; [done|]. right. eassumption. }
    split; [done|]. intros x. rewrite <- Her. unfold erase. rewrite !elem_of_app, elem_of_cons. tauto.
  - rewrite lookup_key_None in El by done. rewrite assign_fresh by done.
    split; [by apply sorted_insert|]. intros x. rewrite elem_of_insert by done. split; [|tauto].
    intros [->|Hin]; [tauto|]. right. split; [done|]. intros <-. destruct x as [k1 v1]. by apply El in Hin.
Qed.

Lemma sorted_assign m k v : sorted m -> sorted (assign m k v).
Proof. intros Hs. by apply assign_spec. Qed.

Lemma lookup_key_assign m k v k' :
  sorted m -> lookup_key (assign m k v) k' = if k' =? k then Some v else lookup_key m k'.
Proof.
  intros Hs. destruct (assign_spec m k v Hs) as [Hs' Hin]. dif.
  - subst. rewrite lookup_key_Some, Hin by done. by left.
  - destruct (lookup_key m k') as [v'|] eqn:El.
    + rewrite lookup_key_Some in * by done. rewrite Hin. by right.
    + rewrite lookup_key_None in * by done. intros v'. rewrite Hin. intros [[=]|[H _]]; [done|by apply El in H].
Qed.

Lemma lookup_key_insert m k v k' :
  sorted m ->
  lookup_key (insert m k v) k' =
  if k' =? k then match lookup_key m k with Some v' => Some v' | None => Some v end else lookup_key m k'.
Proof.
  intros Hs. destruct (lookup_key m k) as [v0|] eqn:El.
  - assert (E: insert m k v = m) by (eapply insert_present; [done|by apply lookup_key_Some]).
    rewrite E. dif; [by subst|done].
  - rewrite <- assign_fresh; [by apply lookup_key_assign|done|by apply lookup_key_None].
Qed.
End lemmas.

#[export] Hint Resolve sorted_nil sorted_insert sorted_assign : bp.
