(* ===== verification/RangeMap.v ===== *)
(** processor/range_map.h, range_map-inl.h: [RangeMap], the map from
    non-overlapping address ranges to entries, with the optional shrink-down
    policy for overlapping ranges.  Addresses are unsigned [w]-bit integers. *)
From stdpp Require Import sorting sets list.
From S2P Require Import Prelude StdMap.

Section range_map.
Context {E : Type} (w : Z).

(** [RangeMap::Range]: the high address is the key of the map. *)
Record Range := mkRange { rbase : Z; rdelta : Z; rentry : E }.

Record RangeMap := mkRangeMap { enable_shrink_down : bool; rmap : smap Range }.

(** The out-parameters of the retrieval functions. *)
Record Retrieved := mkRetrieved
  { ret_entry : E; ret_base : Z; ret_delta : Z; ret_size : Z }.

Definition RangeMap_new : RangeMap := mkRangeMap false [].

Definition SetEnableShrinkDown (m : RangeMap) (b : bool) : RangeMap := mkRangeMap b (rmap m).

Definition IsShrinkDownEnabled (m : RangeMap) : bool := enable_shrink_down m.

(** What the retrieval functions copy out of a map entry. *)
Definition copy_out (kv : Z * Range) : Retrieved :=
  let '(k, r) := kv in
  mkRetrieved (rentry r) (rbase r) (rdelta r) (wrap w (wrap w (k - rbase r) + 1)).

Definition RetrieveRange (m : RangeMap) (address : Z) : option Retrieved :=
  match rmap m !! lower_bound (rmap m) address with
  | None => None
  | Some (k, r) => if address <? rbase r then None else Some (copy_out (k, r))
  end.

Definition RetrieveNearestRange (m : RangeMap) (address : Z) : option Retrieved :=
  match RetrieveRange m address with
  | Some x => Some x
  | None =>
      let it := upper_bound (rmap m) address in
      if (it =? 0)%nat then None else copy_out <$> rmap m !! pred it
  end.

Definition GetCount (m : RangeMap) : Z := Z.of_nat (length (rmap m)).

(** [index] is a signed [int]; the walk from [begin()] makes [max 0 index]
    steps.  (On an empty map a negative index dereferences [end()]; that
    undefined access is [None] here.) *)
Definition RetrieveRangeAtIndex (m : RangeMap) (index : Z) : option Retrieved :=
  if GetCount m <=? index then None
  else copy_out <$> rmap m !! Z.to_nat index.

Definition Clear (m : RangeMap) : RangeMap := mkRangeMap (enable_shrink_down m) [].

(** [StoreRangeInternal] calls itself after shrinking one of the two
    overlapping ranges; [fuel] bounds the depth of these calls. *)
Fixpoint StoreRangeInternal (fuel : nat) (m : RangeMap) (base delta size : Z) (e : E)
  : option (bool * RangeMap) :=
  match fuel with
  | O => None
  | S fuel =>
      let high := wrap w (base + wrap w (size - 1)) in
      if (size <=? 0) || (high <? base) then Some (false, m)
      else
        let map_ := rmap m in
        let iterator_base := lower_bound map_ base in
        let iterator_high := lower_bound map_ high in
        if negb (iterator_base =? iterator_high)%nat then
          if enable_shrink_down m then
            match map_ !! iterator_base with
            | Some (first, _) =>
                let additional_delta := wrap w (wrap w (first - base) + 1) in
                StoreRangeInternal fuel m (wrap w (base + additional_delta))
                  (wrap w (delta + additional_delta)) (wrap w (size - additional_delta)) e
            | None => Some (false, m)
            end
          else Some (false, m)
        else
          let store := Some (true, mkRangeMap (enable_shrink_down m)
                                     (insert map_ high (mkRange base delta e))) in
          match map_ !! iterator_high with
          | Some (other_high, other) =>
              if rbase other <=? high then
                if enable_shrink_down m && (high <? other_high) then
                  let additional_delta := wrap w (wrap w (high - rbase other) + 1) in
                  match RetrieveRange m other_high with
                  | Some o =>
                      let map' := insert (erase map_ iterator_high) other_high
                                    (mkRange (wrap w (ret_base o + additional_delta))
                                             (wrap w (ret_delta o + additional_delta))
                                             (ret_entry o)) in
                      StoreRangeInternal fuel (mkRangeMap (enable_shrink_down m) map')
                        base delta size e
                  | None => Some (false, m)
                  end
                else Some (false, m)
              else store
          | None => store
          end
  end.

(** Enough fuel: every call but the last two passes a stored key. *)
Definition store_fuel (m : RangeMap) : nat := (length (rmap m) + 2)%nat.

Definition StoreRange (m : RangeMap) (base size : Z) (e : E) : bool * RangeMap :=
  match StoreRangeInternal (store_fuel m) m base 0 size e with
  | Some r => r
  | None => (false, m)
  end.

(** ** Invariant *)

(** The stored ranges are well formed and pairwise disjoint, in key order. *)
Record rm_ok (m : RangeMap) : Prop := {
  ok_sorted : sorted (rmap m);
  ok_range : forall h r, (h, r) ∈ rmap m ->
    0 <= rdelta r <= rbase r /\ rbase r <= h < 2 ^ w /\ h - rbase r < 2 ^ w - 1;
  ok_disjoint : forall h1 r1 h2 r2,
    (h1, r1) ∈ rmap m -> (h2, r2) ∈ rmap m -> h1 < h2 -> h1 < rbase r2
}.

(** Address [a] is covered by the stored range [r] with high address [h]. *)
Definition covers (h : Z) (r : Range) (a : Z) : Prop := rbase r <= a <= h.
End range_map.

Arguments RangeMap : clear implicits.
Arguments Range : clear implicits.
Arguments RangeMap_new {E}.

Section proofs.
Context {E : Type} (w : Z) (Hw : 0 < w).
Implicit Types (m : RangeMap E) (e : E).

Lemma rm_ok_new : rm_ok w (@RangeMap_new E).
Proof. constructor; simpl; [apply sorted_nil|..]; intros; exfalso; by eapply not_elem_of_nil. Qed.

Lemma rm_ok_flag m b : rm_ok w m -> rm_ok w (mkRangeMap b (rmap m)).
Proof. intros []; constructor; auto. Qed.

(** Two stored ranges that share an address are the same. *)
Lemma covers_unique m a h1 r1 h2 r2 :
  rm_ok w m -> (h1, r1) ∈ rmap m -> (h2, r2) ∈ rmap m ->
  covers h1 r1 a -> covers h2 r2 a -> h1 = h2 /\ r1 = r2.
Proof.
  unfold covers. intros [Hs Hr Hd] H1 H2 C1 C2.
  pose proof (Hd _ _ _ _ H1 H2). pose proof (Hd _ _ _ _ H2 H1).
  assert (h1 = h2) as -> by lia. split; [done|]. by eapply sorted_functional.
Qed.

(** [RetrieveRange] finds exactly the stored range that covers the address. *)
Lemma RetrieveRange_Some m a x :
  rm_ok w m ->
  RetrieveRange w m a = Some x <->
  exists h r, (h, r) ∈ rmap m /\ covers h r a /\ x = copy_out w (h, r).
Proof.
  unfold RetrieveRange, covers. intros Hok. pose proof Hok as [Hs Hr Hd]. split.
  - destruct (rmap m !! _) as [[k r]|] eqn:El; [|done].
    apply lower_bound_Some in El as (? & ? & _); [|done]. dif; [done|]. intros [= <-].
    exists k, r. split_and!; auto; lia.
  - intros (h & r & Hin & ? & ->).
    rewrite (lower_bound_eq _ _ h r); [|done|done|lia|].
    + dif; [lia|done].
    + intros k'' v'' Hin'' Hle. destruct (Z_lt_ge_dec k'' h) as [Hlt|]; [|lia].
      pose proof (Hd _ _ _ _ Hin'' Hin Hlt). lia.
Qed.

Lemma RetrieveRange_None m a :
  rm_ok w m -> RetrieveRange w m a = None <-> forall h r, (h, r) ∈ rmap m -> ~ covers h r a.
Proof.
  intros Hok. destruct (RetrieveRange w m a) as [x|] eqn:E1.
  - rewrite RetrieveRange_Some in E1 by done. destruct E1 as (h & r & ? & ? & _).
    split; [done|]. intros Hn. exfalso. by eapply Hn.
  - split; [|done]. intros _ h r Hin Hc.
    assert (RetrieveRange w m a = Some (copy_out w (h, r))); [|congruence].
    rewrite RetrieveRange_Some by done. eauto.
Qed.

(** Equal retrievals from equal sets of covering entries. *)
Lemma RetrieveRange_ext m1 m2 a :
  rm_ok w m1 -> rm_ok w m2 ->
  (forall h r, covers h r a -> (h, r) ∈ rmap m1 <-> (h, r) ∈ rmap m2) ->
  RetrieveRange w m1 a = RetrieveRange w m2 a.
Proof.
  intros Hok1 Hok2 Heq. destruct (RetrieveRange w m1 a) as [x|] eqn:E1; symmetry.
  - rewrite RetrieveRange_Some in E1 by done. destruct E1 as (h & r & Hin & Hc & ->).
    rewrite RetrieveRange_Some by done. exists h, r. split_and!; [by apply Heq|done..].
  - rewrite RetrieveRange_None in E1 by done. rewrite RetrieveRange_None by done.
    intros h r Hin Hc. apply (E1 h r); [by apply Heq|done].
Qed.

(** ** Storing *)

(** The high address computed by the code is exact unless the size is invalid. *)
Lemma high_exact base size :
  fits w base -> fits w size ->
  let high := wrap w (base + wrap w (size - 1)) in
  ((size <=? 0) || (high <? base) = false <-> 0 < size /\ base + size - 1 < 2 ^ w) /\
  (0 < size -> base + size - 1 < 2 ^ w -> high = base + size - 1).
Proof.
  intros Hb Hsz high. unfold fits in Hb, Hsz. pose proof (pow2_pos w ltac:(lia)).
  destruct (decide (size = 0)) as [->|].
  { split; [|lia]. simpl. split; [done|lia]. }
  assert (Hhigh: high = wrap w (base + (size - 1))).
  { unfold high. rewrite (wrap_small w (size - 1)); [done|unfold fits; lia]. }
  destruct (wrap_add_cases w base (size - 1)) as [[Ho ?]|[Ho ?]];
    [lia|unfold fits; lia|unfold fits; lia|..]; rewrite Hhigh, Ho; lia.
Qed.

(** Inserting a range disjoint from the stored ones keeps the invariant. *)
Lemma rm_ok_insert m b h r :
  rm_ok w m -> 0 <= rdelta r <= rbase r -> rbase r <= h < 2 ^ w -> h - rbase r < 2 ^ w - 1 ->
  (forall h' r', (h', r') ∈ rmap m -> h' < rbase r \/ h < rbase r') ->
  rm_ok w (mkRangeMap b (insert (rmap m) h r)).
Proof.
  intros [Hs Hr Hd] H1 H2 H3 Hdis.
  assert (Hf: forall v', (h, v') ∉ rmap m).
  { intros v' Hin. pose proof (Hr _ _ Hin). apply Hdis in Hin. lia. }
  constructor; simpl.
  - by apply sorted_insert.
  - intros h' r' Hin. rewrite elem_of_insert in Hin by done. destruct Hin as [[= -> ->]|?]; auto.
  - intros h1 r1 h2 r2 Hi1 Hi2 Hlt.
    rewrite elem_of_insert in Hi1, Hi2 by done.
    destruct Hi1 as [[= -> ->]|Hi1], Hi2 as [[= -> ->]|Hi2]; [lia|..|by eauto].
    + destruct (Hdis _ _ Hi2); [|lia]. pose proof (Hr _ _ Hi2). lia.
    + destruct (Hdis _ _ Hi1); [lia|]. pose proof (Hr _ _ Hi1). lia.
Qed.

Lemma rm_ok_erase m b i h r :
  rm_ok w m -> rmap m !! i = Some (h, r) -> rm_ok w (mkRangeMap b (erase (rmap m) i)).
Proof.
  intros [Hs Hr Hd] Hl. constructor; simpl.
  - apply sorted_erase_range; [lia|done].
  - intros ?? Hin. apply (elem_of_erase _ _ _ _ _ Hs Hl) in Hin as [? _]. auto.
  - intros ???? Hi1 Hi2. apply (elem_of_erase _ _ _ _ _ Hs Hl) in Hi1 as [? _], Hi2 as [? _]. eauto.
Qed.

(** The retrieval function after inserting a disjoint range. *)
Lemma RetrieveRange_insert m b h r a :
  rm_ok w m -> 0 <= rdelta r <= rbase r -> rbase r <= h < 2 ^ w -> h - rbase r < 2 ^ w - 1 ->
  (forall h' r', (h', r') ∈ rmap m -> h' < rbase r \/ h < rbase r') ->
  RetrieveRange w (mkRangeMap b (insert (rmap m) h r)) a =
  if (rbase r <=? a) && (a <=? h) then Some (copy_out w (h, r)) else RetrieveRange w m a.
Proof.
  intros Hok H1 H2 H3 Hdis. pose proof (rm_ok_insert m b h r Hok H1 H2 H3 Hdis) as Hok'.
  assert (Hf: forall v', (h, v') ∉ rmap m).
  { intros v' Hin. pose proof (ok_range w m Hok _ _ Hin). apply Hdis in Hin. lia. }
  pose proof (ok_sorted w m Hok) as Hs.
  destruct ((rbase r <=? a) && (a <=? h)) eqn:Ec; breflect.
  - rewrite RetrieveRange_Some by done. exists h, r. simpl. rewrite elem_of_insert by done.
    unfold covers. split_and!; auto; lia.
  - apply RetrieveRange_ext; [done..|]. unfold covers. simpl. intros h' r' Hc.
    rewrite elem_of_insert by done. split; [|tauto]. intros [[= -> ->]|?]; [|done].
    exfalso. destruct Ec; breflect; lia.
Qed.
End proofs.

Section store.
Context {E : Type} (w : Z) (Hw : 0 < w).
Implicit Types (m : RangeMap E) (e : E).

(** No stored range meets [base, high]. *)
Definition free m (base high : Z) : Prop :=
  forall h r, (h, r) ∈ rmap m -> h < base \/ high < rbase r.

(** No stored range ends in [base, high). *)
Definition no_end m (base high : Z) : Prop :=
  forall h r, (h, r) ∈ rmap m -> h < base \/ high <= h.

#[global] Instance free_dec m base high : Decision (free m base high).
Proof.
  refine (cast_if (decide (Forall (λ kv, kv.1 < base \/ high < rbase kv.2) (rmap m)))).
  - intros h r Hin. by apply (proj1 (Forall_forall _ _) f (h, r)).
  - intros Hf. apply n, Forall_forall. intros [h r] Hin. by apply Hf.
Defined.

(** When nothing ends in [base, high], at most one stored range is in the way. *)
Lemma free_or_covered m base high :
  rm_ok w m -> base <= high -> no_end m base high -> (forall r, (high, r) ∉ rmap m) ->
  free m base high \/ exists oh o, (oh, o) ∈ rmap m /\ rbase o <= high < oh.
Proof.
  intros Hok Hle Hne Hnk.
  destruct (rmap m !! lower_bound (rmap m) high) as [[oh o]|] eqn:El.
  - apply lower_bound_Some in El as (? & Hin & Hmin); [|by destruct Hok].
    assert (oh <> high) by (intros ->; by eapply Hnk).
    destruct (decide (rbase o <= high)); [right; exists oh, o; split; [done|lia]|].
    left. intros h r Hin'. destruct (Hne _ _ Hin') as [?|?]; [by left|right].
    pose proof (Hmin _ _ Hin' ltac:(lia)).
    destruct (decide (h = oh)) as [->|].
    + rewrite (sorted_functional _ _ _ _ (ok_sorted w m Hok) Hin' Hin). lia.
    + pose proof (ok_disjoint w m Hok _ _ _ _ Hin Hin' ltac:(lia)). lia.
  - left. rewrite lower_bound_None in El by (by destruct Hok). intros h r Hin.
    pose proof (El _ _ Hin). destruct (Hne _ _ Hin); lia.
Qed.

(** What a call with a valid size computes for [high]. *)
Lemma StoreRangeInternal_invalid n m base delta size e :
  fits w base -> fits w size -> ~ (0 < size /\ base + size - 1 < 2 ^ w) ->
  StoreRangeInternal w (S n) m base delta size e = Some (false, m).
Proof.
  intros Hb Hsz Hv. destruct (high_exact w Hw base size Hb Hsz) as [Hc _]. simpl.
  destruct ((size <=? 0) || _) eqn:Ec; [done|]. exfalso. by apply Hv, Hc.
Qed.

Lemma no_end_iterators m base high :
  rm_ok w m -> base <= high ->
  no_end m base high <-> lower_bound (rmap m) base = lower_bound (rmap m) high.
Proof.
  intros Hok Hle. pose proof (lower_bound_lt (rmap m) base high (ok_sorted w m Hok) Hle) as Hlt.
  split; intros Hn.
  - destruct (decide (lower_bound (rmap m) base = lower_bound (rmap m) high)) as [|Hne]; [done|].
    apply Hlt in Hne as (k & r & Hin & ?). apply Hn in Hin. lia.
  - intros h r Hin. destruct (decide (base <= h < high)); [|lia]. exfalso. apply Hlt; eauto.
Qed.

(** The branch that stores the range. *)
Lemma StoreRangeInternal_free n m base delta size e :
  rm_ok w m -> fits w base -> fits w size -> 0 < size -> base + size - 1 < 2 ^ w ->
  free m base (base + size - 1) ->
  StoreRangeInternal w (S n) m base delta size e =
  Some (true, mkRangeMap (enable_shrink_down m)
                (insert (rmap m) (base + size - 1) (mkRange base delta e))).
Proof.
  intros Hok Hb Hsz Hp Hv Hfree. destruct (high_exact w Hw base size Hb Hsz) as [Hc Hhigh].
  simpl. rewrite (proj2 Hc), (Hhigh Hp Hv) by done. clear Hc Hhigh.
  assert (Hne: no_end m base (base + size - 1)).
  { intros h r Hin. pose proof (ok_range w m Hok _ _ Hin). apply Hfree in Hin. lia. }
  apply no_end_iterators in Hne as ->; [|done|lia].
  rewrite Nat.eqb_refl. simpl. destruct (rmap m !! _) as [[oh o]|] eqn:El; [|done].
  apply lower_bound_Some in El as (? & Hin & _); [|by destruct Hok].
  pose proof (Hfree _ _ Hin). dif; [lia|done].
Qed.

(** Without shrinking, an overlap is an error and nothing changes. *)
Lemma StoreRangeInternal_overlap n m base delta size e :
  rm_ok w m -> enable_shrink_down m = false ->
  fits w base -> fits w size -> 0 < size -> base + size - 1 < 2 ^ w ->
  ~ free m base (base + size - 1) ->
  StoreRangeInternal w (S n) m base delta size e = Some (false, m).
Proof.
  intros Hok Hsd Hb Hsz Hp Hv Hov. destruct (high_exact w Hw base size Hb Hsz) as [Hc Hhigh].
  simpl. rewrite (proj2 Hc), (Hhigh Hp Hv), Hsd by done. clear Hc Hhigh.
  destruct (negb _) eqn:En; [done|]. breflect.
  assert (Hne: no_end m base (base + size - 1)) by (by apply no_end_iterators; [|lia|]).
  destruct (rmap m !! _) as [[oh o]|] eqn:El; simpl.
  - dif; [done|]. exfalso. apply Hov. intros h r Hin. pose proof (Hne _ _ Hin).
    apply lower_bound_Some in El as (? & Hino & Hmin); [|by destruct Hok].
    destruct (decide (h < base)); [lia|]. right.
    assert (oh <= h) by (eapply Hmin; [done|lia]).
    destruct (decide (oh = h)) as [->|].
    { rewrite (sorted_functional _ _ _ _ (ok_sorted w m Hok) Hin Hino). lia. }
    pose proof (ok_disjoint w m Hok _ _ _ _ Hino Hin ltac:(lia)). lia.
  - exfalso. apply Hov. intros h r Hin. rewrite lower_bound_None in El by (by destruct Hok).
    pose proof (El _ _ Hin). pose proof (Hne _ _ Hin). lia.
Qed.

(** Shrinking: a stored range with the same high address is never shrunk. *)
Lemma StoreRangeInternal_same_high n m base delta size e r :
  rm_ok w m -> fits w base -> fits w size -> 0 < size -> base + size - 1 < 2 ^ w ->
  no_end m base (base + size - 1) -> (base + size - 1, r) ∈ rmap m ->
  StoreRangeInternal w (S n) m base delta size e = Some (false, m).
Proof.
  intros Hok Hb Hsz Hp Hv Hne Hin. destruct (high_exact w Hw base size Hb Hsz) as [Hc Hhigh].
  simpl. rewrite (proj2 Hc), (Hhigh Hp Hv) by done. clear Hc Hhigh.
  apply no_end_iterators in Hne as ->; [|done|lia]. rewrite Nat.eqb_refl. simpl.
  rewrite (lower_bound_eq _ _ _ r (ok_sorted w m Hok) Hin) by (done || lia).
  pose proof (ok_range w m Hok _ _ Hin). dif; [|lia].
  by rewrite Z.ltb_irrefl, andb_false_r.
Qed.

(** Shrinking: the stored range that extends past the new one loses its low part. *)
Lemma StoreRangeInternal_shrink_other n m base delta size e oh o :
  rm_ok w m -> enable_shrink_down m = true ->
  fits w base -> fits w size -> 0 < size -> base + size - 1 < 2 ^ w ->
  no_end m base (base + size - 1) ->
  (oh, o) ∈ rmap m -> rbase o <= base + size - 1 < oh ->
  let high := base + size - 1 in
  let m' := mkRangeMap true (insert (erase (rmap m) (lower_bound (rmap m) high)) oh
              (mkRange (high + 1) (rdelta o + (high - rbase o + 1)) (rentry o))) in
  rmap m !! lower_bound (rmap m) high = Some (oh, o) /\
  StoreRangeInternal w (S n) m base delta size e = StoreRangeInternal w n m' base delta size e.
Proof.
  intros Hok Hsd Hb Hsz Hp Hv Hne Hin Ho high m'. subst high.
  assert (El: rmap m !! lower_bound (rmap m) (base + size - 1) = Some (oh, o)).
  { apply lower_bound_eq; [by destruct Hok|done|lia|]. intros k v Hkv Hle.
    destruct (decide (oh <= k)); [done|].
    pose proof (ok_disjoint w m Hok _ _ _ _ Hkv Hin ltac:(lia)). lia. }
  split; [done|].
  destruct (high_exact w Hw base size Hb Hsz) as [Hc Hhigh].
  simpl. rewrite (proj2 Hc), (Hhigh Hp Hv) by done. clear Hc Hhigh.
  apply no_end_iterators in Hne as ->; [|done|lia]. rewrite Nat.eqb_refl. simpl.
  rewrite El, Hsd. pose proof (ok_range w m Hok _ _ Hin) as Hro.
  rewrite (proj2 (Z.leb_le _ _)), (proj2 (Z.ltb_lt _ _)) by lia. simpl.
  assert (RetrieveRange w m oh = Some (copy_out w (oh, o))) as ->.
  { rewrite RetrieveRange_Some by done. exists oh, o. unfold covers. split_and!; [done|lia|lia|done]. }
  unfold m'. simpl. unfold fits in *.
  rewrite (wrap_small w (base + size - 1 - rbase o)) by (unfold fits; lia).
  rewrite (wrap_small w (base + size - 1 - rbase o + 1)) by (unfold fits; lia).
  rewrite !wrap_small by (unfold fits; lia).
  by replace (rbase o + (base + size - 1 - rbase o + 1)) with (base + size - 1 + 1) by lia.
Qed.

(** Shrinking: a stored range that ends inside the new one pushes its base up. *)
Lemma StoreRangeInternal_shrink_self n m base delta size e :
  rm_ok w m -> enable_shrink_down m = true ->
  fits w base -> fits w size -> 0 < size -> base + size - 1 < 2 ^ w -> 0 <= delta <= base ->
  ~ no_end m base (base + size - 1) ->
  exists k r, rmap m !! lower_bound (rmap m) base = Some (k, r) /\
    base <= k < base + size - 1 /\
    StoreRangeInternal w (S n) m base delta size e =
    StoreRangeInternal w n m (k + 1) (delta + (k + 1 - base)) (size - (k + 1 - base)) e.
Proof.
  intros Hok Hsd Hb Hsz Hp Hv Hdl Hne.
  destruct (high_exact w Hw base size Hb Hsz) as [Hc Hhigh].
  simpl. rewrite (proj2 Hc), (Hhigh Hp Hv) by done. clear Hc Hhigh.
  assert (Hlb: lower_bound (rmap m) base <> lower_bound (rmap m) (base + size - 1)).
  { intros Heq. apply Hne. by apply no_end_iterators; [|lia|]. }
  destruct (proj1 (lower_bound_lt _ base (base + size - 1) (ok_sorted w m Hok) ltac:(lia)) Hlb)
    as (k' & v & Hin' & ?).
  destruct (rmap m !! lower_bound (rmap m) base) as [[k r]|] eqn:El.
  2:{ exfalso. rewrite lower_bound_None in El by (by destruct Hok). apply El in Hin'. lia. }
  pose proof El as El'. apply lower_bound_Some in El' as (? & Hin & Hmin); [|by destruct Hok].
  assert (k <= k') by (eapply Hmin; [done|lia]).
  exists k, r. split_and!; [done|lia|lia|].
  rewrite (proj2 (Nat.eqb_neq _ _)) by done. simpl. rewrite Hsd. unfold fits in *.
  rewrite (wrap_small w (k - base)) by (unfold fits; lia).
  rewrite (wrap_small w (k - base + 1)) by (unfold fits; lia).
  rewrite !wrap_small by (unfold fits; lia).
  f_equal; lia.
Qed.
End store.

Section specification.
Context {E : Type} (w : Z) (Hw : 0 < w).
Implicit Types (m : RangeMap E) (e : E).

(** Where a new range [base, high] starts once the stored ranges that end
    inside it have pushed its base up. *)
Definition skip_base m (base high : Z) : Z :=
  foldr (λ kv b, if (base <=? kv.1) && (kv.1 <? high) then Z.max b (kv.1 + 1) else b) base (rmap m).

(** What remains, at address [a], of a stored range when a range with high
    address [high] that starts at or below [a] or overlaps it is put first. *)
Definition shrink_result (high a : Z) (x : Retrieved (E := E)) : option (Retrieved (E := E)) :=
  let top := ret_base x + ret_size x - 1 in
  if (ret_base x <=? high) && (high <? top) then
    if a <=? high then None
    else Some (mkRetrieved (ret_entry x) (high + 1)
                 (ret_delta x + (high + 1 - ret_base x)) (top - high))
  else Some x.

Lemma skip_base_spec m base high :
  rm_ok w m -> base <= high ->
  base <= skip_base m base high <= high /\
  (forall h r, (h, r) ∈ rmap m -> base <= h < high -> h < skip_base m base high) /\
  (skip_base m base high = base \/
   exists r, (skip_base m base high - 1, r) ∈ rmap m /\ base <= skip_base m base high - 1 < high).
Proof.
  intros _ Hle. unfold skip_base. induction (rmap m) as [|[k v] l IH]; simpl.
  - split_and!; [lia|lia| |by left]. intros h r Hin. by apply not_elem_of_nil in Hin.
  - destruct IH as (IH1 & IH2 & IH3). set (b := foldr _ _ l) in *.
    destruct ((base <=? k) && (k <? high)) eqn:Ec; breflect.
    + split_and!; [lia|lia| |].
      * intros h r [[= -> ->]|Hin]%elem_of_cons ?; [lia|]. specialize (IH2 _ _ Hin). lia.
      * right. destruct (Z.max_spec b (k + 1)) as [[? ->]|[? ->]].
        -- exists v. replace (k + 1 - 1) with k by lia. split; [left|lia].
        -- destruct IH3 as [->|(r & Hin & ?)]; [lia|]. exists r. split; [by right|done].
    + split_and!; [lia|lia| |].
      * intros h r [[= -> ->]|Hin]%elem_of_cons ?; [lia|]. by eapply IH2.
      * destruct IH3 as [|(r & Hin & ?)]; [by left|]. right. exists r. split; [by right|done].
Qed.

Lemma skip_base_unique m base high b :
  rm_ok w m -> base <= high -> base <= b ->
  (forall h r, (h, r) ∈ rmap m -> base <= h < high -> h < b) ->
  (b = base \/ exists r, (b - 1, r) ∈ rmap m /\ base <= b - 1 < high) ->
  skip_base m base high = b.
Proof.
  intros Hok Hle Hb H1 H2. destruct (skip_base_spec m base high Hok Hle) as (? & H3 & H4).
  apply Z.le_antisymm.
  - destruct H4 as [->|(r & Hin & ?)]; [done|]. specialize (H1 _ _ Hin). lia.
  - destruct H2 as [->|(r & Hin & ?)]; [lia|]. specialize (H3 _ _ Hin). lia.
Qed.

Lemma skip_base_no_end m base high :
  rm_ok w m -> base <= high -> no_end m base high -> skip_base m base high = base.
Proof.
  intros Hok Hle Hn. apply skip_base_unique; [done|done|lia| |by left].
  intros h r Hin ?. apply Hn in Hin. lia.
Qed.

(** Skipping the first stored range that ends inside does not change the result. *)
Lemma skip_base_step m base high k r :
  rm_ok w m -> rmap m !! lower_bound (rmap m) base = Some (k, r) -> base <= k < high ->
  skip_base m base high = skip_base m (k + 1) high.
Proof.
  intros Hok El Hk. destruct (skip_base_spec m (k + 1) high Hok ltac:(lia)) as (? & H1 & H2).
  apply lower_bound_Some in El as (_ & Hin & Hmin); [|by destruct Hok].
  apply skip_base_unique; [done|lia|lia| |].
  - intros h r' Hin' ?. assert (k <= h) by (eapply Hmin; [done|lia]).
    destruct (decide (h = k)) as [->|]; [lia|]. apply (H1 h r'); [done|lia].
  - right. destruct H2 as [->|(r' & ? & ?)].
    + exists r. replace (k + 1 - 1) with k by lia. split; [done|lia].
    + exists r'. split; [done|lia].
Qed.

(** The retrieved size is exact for the ranges of a well-formed map. *)
Lemma copy_out_exact m h r :
  rm_ok w m -> (h, r) ∈ rmap m ->
  copy_out w (h, r) = mkRetrieved (rentry r) (rbase r) (rdelta r) (h - rbase r + 1).
Proof.
  intros Hok Hin. pose proof (ok_range w m Hok _ _ Hin). simpl.
  rewrite (wrap_small w (h - rbase r)) by (unfold fits; lia).
  by rewrite wrap_small by (unfold fits; lia).
Qed.

(** Effect of a successful shrinking store on the retrieval function. *)
Definition shrink_lookup m (e : E) (b high delta : Z) (a : Z) : option (Retrieved (E := E)) :=
  if (b <=? a) && (a <=? high) then Some (mkRetrieved e b delta (high - b + 1))
  else x ← RetrieveRange w m a; shrink_result high a x.

(** The map after the other range lost its part below [high]. *)
Lemma rm_ok_shrink_other m high oh o :
  rm_ok w m -> (oh, o) ∈ rmap m -> rbase o <= high < oh ->
  rmap m !! lower_bound (rmap m) high = Some (oh, o) ->
  let o' := mkRange (high + 1) (rdelta o + (high - rbase o + 1)) (rentry o) in
  let m1 := mkRangeMap true (erase (rmap m) (lower_bound (rmap m) high)) in
  let m2 := mkRangeMap true (insert (rmap m1) oh o') in
  rm_ok w m2 /\ (forall h r, (h, r) ∈ rmap m2 <-> (h, r) = (oh, o') \/ ((h, r) ∈ rmap m /\ h <> oh)).
Proof.
  intros Hok Hin Ho El o' m1 m2. pose proof (ok_range w m Hok _ _ Hin) as Hro.
  pose proof (rm_ok_erase w m true _ _ _ Hok El : rm_ok w m1) as Hok1.
  assert (He: forall h r, (h, r) ∈ rmap m1 <-> (h, r) ∈ rmap m /\ h <> oh).
  { intros h r. unfold m1. simpl. by rewrite (elem_of_erase _ _ _ _ _ (ok_sorted w m Hok) El). }
  assert (Hdis: forall h' r', (h', r') ∈ rmap m1 -> h' < rbase o' \/ oh < rbase r').
  { intros h' r' [Hin' Hne]%He. simpl. destruct (decide (h' < oh)) as [Hlt|].
    - pose proof (ok_disjoint w m Hok _ _ _ _ Hin' Hin Hlt). lia.
    - pose proof (ok_disjoint w m Hok _ _ _ _ Hin Hin' ltac:(lia)). lia. }
  split.
  - apply (rm_ok_insert w Hw m1); simpl; [done|lia|lia|lia|done].
  - intros h r. unfold m2. simpl. rewrite elem_of_insert, <- He; [done|by destruct Hok1|].
    intros v [??]%He. done.
Qed.

Lemma RetrieveRange_shrink_other m high oh o m2 a :
  rm_ok w m -> rm_ok w m2 -> (oh, o) ∈ rmap m -> rbase o <= high < oh ->
  (forall h r, (h, r) ∈ rmap m2 <->
    (h, r) = (oh, mkRange (high + 1) (rdelta o + (high - rbase o + 1)) (rentry o)) \/
    ((h, r) ∈ rmap m /\ h <> oh)) ->
  RetrieveRange w m2 a = x ← RetrieveRange w m a; shrink_result high a x.
Proof.
  intros Hok Hok2 Hin Ho Hm2. pose proof (ok_range w m Hok _ _ Hin) as Hro.
  destruct (RetrieveRange w m a) as [x|] eqn:Er; simpl.
  - rewrite RetrieveRange_Some in Er by done. destruct Er as (h & r & Hinr & Hc & ->).
    unfold shrink_result. rewrite (copy_out_exact m) by done. simpl.
    replace (rbase r + (h - rbase r + 1) - 1) with h by lia.
    destruct (decide (h = oh)) as [->|Hne].
    + rewrite (sorted_functional _ _ _ _ (ok_sorted w m Hok) Hinr Hin) in *.
      rewrite (proj2 (andb_true_iff _ _)) by lia. dif.
      * rewrite RetrieveRange_None by done.
        intros h' r' [[= -> ->]|[Hin' Hne']]%Hm2 Hc'; unfold covers in *; simpl in *; [lia|].
        destruct (covers_unique w m a h' r' oh o Hok Hin' Hin) as [-> _]; unfold covers; lia.
      * rewrite RetrieveRange_Some by done.
        exists oh, (mkRange (high + 1) (rdelta o + (high - rbase o + 1)) (rentry o)).
        assert ((oh, mkRange (high + 1) (rdelta o + (high - rbase o + 1)) (rentry o)) ∈ rmap m2) as Hin2.
        { apply Hm2. by left. }
        split_and!; [done|unfold covers in *; simpl; lia|].
        rewrite (copy_out_exact m2) by done. simpl. f_equal; lia.
    + rewrite (proj2 (andb_false_iff _ _)).
      * rewrite RetrieveRange_Some by done. exists h, r. split_and!; [apply Hm2; by right|done|].
        by rewrite (copy_out_exact m).
      * destruct (decide (rbase r <= high < h)); [|lia]. exfalso.
        destruct (covers_unique w m high h r oh o Hok Hinr Hin); unfold covers; lia.
  - rewrite RetrieveRange_None in Er by done. rewrite RetrieveRange_None by done.
    intros h r [[= -> ->]|[Hin' ?]]%Hm2 Hc; [|by eapply Er].
    apply (Er oh o Hin). unfold covers in *. simpl in *. lia.
Qed.

(** The last step: nothing stored ends in [base, high). *)
Lemma StoreRangeInternal_shrink_last n m base delta size e :
  rm_ok w m -> enable_shrink_down m = true ->
  fits w base -> fits w size -> 0 < size -> base + size - 1 < 2 ^ w -> 0 <= delta <= base ->
  no_end m base (base + size - 1) -> (forall r, (base + size - 1, r) ∉ rmap m) ->
  exists m', StoreRangeInternal w (S (S n)) m base delta size e = Some (true, m') /\
    rm_ok w m' /\ enable_shrink_down m' = true /\
    (forall a, RetrieveRange w m' a = shrink_lookup m e base (base + size - 1) delta a).
Proof.
  intros Hok Hsd Hb Hsz Hp Hv Hdl Hne Hnk. set (high := base + size - 1) in *.
  assert (Hsize: high - base + 1 < 2 ^ w) by (unfold fits in *; lia).
  assert (Hco: copy_out w (high, mkRange base delta e) = mkRetrieved e base delta (high - base + 1)).
  { unfold fits in *. simpl. by rewrite !wrap_small by (unfold fits; rewrite ?wrap_small; unfold fits; lia). }
  destruct (free_or_covered w m base high Hok ltac:(lia) Hne Hnk) as [Hfree|(oh & o & Hin & Ho)].
  - eexists. split; [by apply StoreRangeInternal_free|].
    unfold fits in *. split_and!; [apply rm_ok_insert; simpl; auto; lia|done|].
    intros a. fold high. rewrite RetrieveRange_insert by (simpl; auto; lia). unfold shrink_lookup.
    simpl rbase. dif; [by rewrite Hco|].
    destruct (RetrieveRange w m a) as [x|] eqn:Er; [|done]. simpl.
    rewrite RetrieveRange_Some in Er by done. destruct Er as (h & r & Hin & Hc & ->).
    unfold shrink_result. rewrite (copy_out_exact m) by done. simpl.
    pose proof (Hfree _ _ Hin). pose proof (ok_range w m Hok _ _ Hin). rewrite (proj2 (andb_false_iff _ _)); [done|lia].
  - destruct (StoreRangeInternal_shrink_other w Hw (S n) m base delta size e oh o) as [El ->]; try done.
    fold high in El |- *. destruct (rm_ok_shrink_other m high oh o Hok Hin Ho El) as [Hok2 Hm2].
    set (m2 := mkRangeMap true (insert _ oh _)) in *.
    assert (Hfree: free m2 base high).
    { intros h r [[= -> ->]|[Hin' ?]]%Hm2; simpl; [lia|].
      destruct (Hne _ _ Hin'); [by left|right].
      assert (oh < h); [|by eapply Z.lt_trans; [|by eapply (ok_disjoint w m Hok oh o)]; lia].
      apply lower_bound_Some in El as (_ & _ & Hmin); [|by destruct Hok].
      pose proof (Hmin _ _ Hin' ltac:(done)). lia. }
    eexists. split; [by apply StoreRangeInternal_free|].
    unfold fits in *. split_and!; [apply rm_ok_insert; simpl; auto; lia|done|].
    intros a. fold high. rewrite RetrieveRange_insert by (simpl; auto; lia). unfold shrink_lookup.
    simpl rbase. dif; [by rewrite Hco|]. by apply (RetrieveRange_shrink_other m high oh o).
Qed.

(** Passing a stored key moves the position of the base. *)
Lemma lower_bound_pass m base k r :
  sorted (rmap m) -> rmap m !! lower_bound (rmap m) base = Some (k, r) ->
  (lower_bound (rmap m) base < lower_bound (rmap m) (k + 1))%nat.
Proof.
  intros Hs El. destruct (decide (lower_bound (rmap m) base < lower_bound (rmap m) (k + 1))%nat) as [|Hn]; [done|].
  exfalso. destruct (lower_bound_split (rmap m) (k + 1) Hs) as [_ H2].
  specialize (H2 k r). apply list_elem_of_lookup_2 in El as Hin.
  assert ((k, r) ∈ drop (lower_bound (rmap m) (k + 1)) (rmap m)) as Hd; [|apply H2 in Hd; lia].
  apply list_elem_of_lookup. exists (lower_bound (rmap m) base - lower_bound (rmap m) (k + 1))%nat.
  rewrite lookup_drop. rewrite <- El. f_equal. lia.
Qed.

Lemma StoreRangeInternal_shrink n : forall m base delta size e,
  rm_ok w m -> enable_shrink_down m = true ->
  fits w base -> fits w size -> 0 < size -> base + size - 1 < 2 ^ w -> 0 <= delta <= base ->
  (length (rmap m) - lower_bound (rmap m) base + 2 <= n)%nat ->
  let high := base + size - 1 in
  let b := skip_base m base high in
  ((exists r, (high, r) ∈ rmap m) /\ StoreRangeInternal w n m base delta size e = Some (false, m)) \/
  ((forall r, (high, r) ∉ rmap m) /\
   exists m', StoreRangeInternal w n m base delta size e = Some (true, m') /\
    rm_ok w m' /\ enable_shrink_down m' = true /\
    (forall a, RetrieveRange w m' a = shrink_lookup m e b high (delta + (b - base)) a)).
Proof.
  induction n as [|n IH]; intros m base delta size e Hok Hsd Hb Hsz Hp Hv Hdl Hfuel high b; [lia|].
  destruct (decide (lower_bound (rmap m) base = lower_bound (rmap m) high)) as [Heq|Hneq].
  - apply (proj2 (no_end_iterators w m base high Hok ltac:(lia))) in Heq.
    assert (b = base) as -> by (apply skip_base_no_end; [done|lia|done]).
    destruct (lookup_key (rmap m) high) as [r|] eqn:El.
    + left. rewrite lookup_key_Some in El by (by destruct Hok). split; [by eauto|].
      by apply (StoreRangeInternal_same_high w Hw n m base delta size e r).
    + right. rewrite lookup_key_None in El by (by destruct Hok). split; [done|].
      destruct n as [|n]; [lia|]. replace (delta + (base - base)) with delta by lia.
      by apply StoreRangeInternal_shrink_last.
  - assert (Hne: ~ no_end m base high).
    { intros Hne. apply Hneq. by apply (no_end_iterators w m base high Hok ltac:(lia)). }
    destruct (StoreRangeInternal_shrink_self w Hw n m base delta size e) as (k & r & El & Hk & ->); try done.
    unfold fits in *. pose proof (lower_bound_pass m base k r (ok_sorted w m Hok) El).
    pose proof (lower_bound_le (rmap m) (k + 1)).
    specialize (IH m (k + 1) (delta + (k + 1 - base)) (size - (k + 1 - base)) e Hok Hsd
      ltac:(lia) ltac:(lia) ltac:(lia) ltac:(lia) ltac:(lia) ltac:(lia)).
    cbv zeta in IH.
    replace (k + 1 + (size - (k + 1 - base)) - 1) with high in IH by (unfold high; lia).
    rewrite <- (skip_base_step m base high k r Hok El) in IH by (unfold high; lia). fold b in IH.
    by replace (delta + (k + 1 - base) + (b - (k + 1))) with (delta + (b - base)) in IH by lia.
Qed.

(** The fuel of [StoreRange] always suffices. *)
Lemma StoreRangeInternal_total m base size e :
  rm_ok w m -> fits w base -> fits w size ->
  exists r, StoreRangeInternal w (store_fuel m) m base 0 size e = Some r.
Proof.
  intros Hok Hb Hsz. unfold store_fuel.
  replace (length (rmap m) + 2)%nat with (S (length (rmap m) + 1)) by lia.
  destruct (decide (0 < size /\ base + size - 1 < 2 ^ w)) as [[Hp Hv]|Hv].
  2:{ rewrite StoreRangeInternal_invalid by done. eauto. }
  destruct (enable_shrink_down m) eqn:Hsd.
  - destruct (StoreRangeInternal_shrink (S (length (rmap m) + 1)) m base 0 size e)
      as [[_ ->]|[_ (m' & -> & _)]]; try done; eauto; unfold fits in *; lia.
  - destruct (decide (free m base (base + size - 1))).
    + rewrite StoreRangeInternal_free by done. eauto.
    + rewrite StoreRangeInternal_overlap by done. eauto.
Qed.

(** What [StoreRange] does when shrinking is disabled. *)
Lemma StoreRange_plain m base size e :
  rm_ok w m -> enable_shrink_down m = false -> fits w base -> fits w size ->
  StoreRange w m base size e =
  if decide (0 < size /\ base + size - 1 < 2 ^ w /\ free m base (base + size - 1)) then
    (true, mkRangeMap false (insert (rmap m) (base + size - 1) (mkRange base 0 e)))
  else (false, m).
Proof.
  intros Hok Hsd Hb Hsz. unfold StoreRange, store_fuel.
  replace (length (rmap m) + 2)%nat with (S (length (rmap m) + 1)) by lia.
  case_decide as Hd.
  - destruct Hd as (? & ? & ?). by rewrite StoreRangeInternal_free, Hsd.
  - destruct (decide (0 < size /\ base + size - 1 < 2 ^ w)) as [[? ?]|?].
    + rewrite StoreRangeInternal_overlap; tauto.
    + by rewrite StoreRangeInternal_invalid.
Qed.

(** What [StoreRange] does when shrinking is enabled. *)
Lemma StoreRange_shrinking m base size e :
  rm_ok w m -> enable_shrink_down m = true -> fits w base -> fits w size ->
  let high := base + size - 1 in
  let b := skip_base m base high in
  let '(ok, m') := StoreRange w m base size e in
  (ok = true <-> 0 < size /\ high < 2 ^ w /\ forall r, (high, r) ∉ rmap m) /\
  (ok = false -> m' = m) /\
  (ok = true -> rm_ok w m' /\ enable_shrink_down m' = true /\
    forall a, RetrieveRange w m' a = shrink_lookup m e b high (b - base) a).
Proof.
  intros Hok Hsd Hb Hsz high b. unfold StoreRange, store_fuel.
  destruct (decide (0 < size /\ base + size - 1 < 2 ^ w)) as [[Hp Hv]|Hv].
  - pose proof (StoreRangeInternal_shrink (length (rmap m) + 2) m base 0 size e Hok Hsd Hb Hsz Hp Hv
      ltac:(unfold fits in *; lia) ltac:(lia)) as Hcase. cbv zeta in Hcase.
    destruct Hcase as [[[r Hin] ->]|[Hnk (m' & -> & Hok' & Hsd' & Hl)]].
    + split_and!; try done. split; [done|]. intros (_ & _ & Hn). by destruct (Hn r).
    + by split_and!.
  - replace (length (rmap m) + 2)%nat with (S (length (rmap m) + 1)) by lia.
    rewrite StoreRangeInternal_invalid by done. split_and!; try done. split; [done|]. intros. lia.
Qed.

Lemma StoreRange_ok m base size e :
  rm_ok w m -> fits w base -> fits w size -> rm_ok w (StoreRange w m base size e).2.
Proof.
  intros Hok Hb Hsz. destruct (enable_shrink_down m) eqn:Hsd.
  - pose proof (StoreRange_shrinking m base size e Hok Hsd Hb Hsz) as H. cbv zeta in H.
    destruct (StoreRange w m base size e) as [[] m']; simpl; destruct H as (_ & Hf & Ht); [by apply Ht|].
    by rewrite Hf.
  - rewrite StoreRange_plain by done. case_decide as Hd; [|done]. simpl.
    destruct Hd as (? & ? & Hfree). unfold fits in *. apply rm_ok_insert; simpl; auto; lia.
Qed.
End specification.

(** ** The states a client can reach *)
Section reachability.
Context {E : Type} (w : Z).

(** One public mutating call on a [RangeMap]. *)
Inductive rm_step : RangeMap E -> RangeMap E -> Prop :=
| step_store m base size e :
    fits w base -> fits w size -> rm_step m (StoreRange w m base size e).2
| step_enable m b : rm_step m (SetEnableShrinkDown m b)
| step_clear m : rm_step m (Clear m).

Definition rm_reachable : RangeMap E -> Prop := rtc rm_step RangeMap_new.
End reachability.

Section reachable_lemmas.
Context {E : Type} (w : Z) (Hw : 0 < w).
Implicit Types (m : RangeMap E).

Lemma rm_step_ok m m' : rm_ok w m -> rm_step w m m' -> rm_ok w m'.
Proof.
  intros Hok Hs. destruct Hs.
  - by apply StoreRange_ok.
  - by apply rm_ok_flag.
  - apply (rm_ok_flag w (@RangeMap_new E)), rm_ok_new.
Qed.

Lemma rm_reachable_ok m : rm_reachable w m -> rm_ok w m.
Proof.
  unfold rm_reachable. intros Hr. pose proof (rm_ok_new (E := E) w) as Hok. revert Hok Hr.
  generalize (@RangeMap_new E). intros m0 Hok Hr. induction Hr as [|m1 m2 m3 Hs _ IH]; [done|].
  apply IH. by eapply rm_step_ok.
Qed.
End reachable_lemmas.

(** ** Properties *)
Section properties.
Context {E : Type} (w : Z) (Hw : 0 < w).
Implicit Types (m : RangeMap E) (e : E).

Lemma RetrieveNearestRange_spec m a :
  rm_ok w m ->
  match RetrieveNearestRange w m a with
  | Some x => exists h r, (h, r) ∈ rmap m /\ x = copy_out w (h, r) /\ rbase r <= a /\
      (a <= h \/ (forall h' r', (h', r') ∈ rmap m -> ~ covers h' r' a) /\
                 (forall h' r', (h', r') ∈ rmap m -> rbase r' <= a -> h' <= h))
  | None => forall h r, (h, r) ∈ rmap m -> a < rbase r
  end.
Proof.
  intros Hok. pose proof (ok_sorted w m Hok) as Hs.
  unfold RetrieveNearestRange. destruct (RetrieveRange w m a) as [x|] eqn:Er.
  { rewrite RetrieveRange_Some in Er by done. destruct Er as (h & r & Hin & Hc & ->).
    unfold covers in Hc. exists h, r. split_and!; auto; lia. }
  rewrite RetrieveRange_None in Er by done.
  assert (Hb: forall h r, (h, r) ∈ rmap m -> rbase r <= a -> h < a).
  { intros h r Hin ?. pose proof (Er _ _ Hin). unfold covers in *. lia. }
  destruct (decide (upper_bound (rmap m) a = 0%nat)) as [E0|Hn].
  - rewrite E0. simpl. rewrite upper_bound_0 in E0 by done. intros h r Hin.
    pose proof (E0 _ _ Hin). destruct (Z_lt_ge_dec a (rbase r)); [done|].
    pose proof (Hb _ _ Hin ltac:(lia)). lia.
  - rewrite (proj2 (Nat.eqb_neq _ _)) by done.
    destruct (upper_bound_pred _ _ Hs Hn) as (h & r & -> & Hle & Hin & Hmax). simpl.
    exists h, r. pose proof (ok_range w m Hok _ _ Hin). split_and!; [done|done|lia|].
    right. split; [done|]. intros h' r' Hin' ?. pose proof (Hb _ _ Hin' ltac:(lia)).
    apply (Hmax h' r'); [done|lia].
Qed.
(** C17: without shrinking, [StoreRange] accepts a range exactly when it is
    non-empty, does not pass the end of the address space and meets no stored
    range; a rejected call changes nothing, and after an accepted one the new
    range answers for its own addresses and every other answer is unchanged. *)
Theorem range_map_store m base size e :
  rm_reachable w m -> enable_shrink_down m = false -> fits w base -> fits w size ->
  let '(ok, m') := StoreRange w m base size e in
  (ok = true <-> 0 < size /\ base + size - 1 < 2 ^ w /\ free m base (base + size - 1)) /\
  (ok = false -> m' = m) /\
  (ok = true -> forall a, RetrieveRange w m' a =
     if (base <=? a) && (a <=? base + size - 1) then Some (mkRetrieved e base 0 size)
     else RetrieveRange w m a).
Proof.
  intros Hr Hsd Hb Hsz. pose proof (rm_reachable_ok w Hw m Hr) as Hok.
  rewrite StoreRange_plain by done. case_decide as Hd.
  - split_and!; try done. intros _ a. destruct Hd as (? & ? & Hf). unfold fits in *.
    rewrite RetrieveRange_insert by (simpl; auto; lia). simpl.
    by rewrite !wrap_small by (unfold fits; rewrite ?wrap_small by (unfold fits; lia); lia);
      replace (base + size - 1 - base + 1) with size by lia.
  - split_and!; try done.
Qed.

(** With shrinking, [StoreRange] accepts a valid range exactly when no
    stored range has the same high address.  The accepted range starts after
    the last stored range that ends inside it, the range that ends above it
    keeps only its part above, the deltas record both moves, and no other
    answer changes. *)
Lemma range_map_store_shrinking m base size e :
  rm_reachable w m -> enable_shrink_down m = true -> fits w base -> fits w size ->
  let high := base + size - 1 in
  let b := skip_base m base high in
  let '(ok, m') := StoreRange w m base size e in
  (ok = true <-> 0 < size /\ high < 2 ^ w /\ forall r, (high, r) ∉ rmap m) /\
  (ok = false -> m' = m) /\
  (ok = true -> base <= b <= high /\
     forall a, RetrieveRange w m' a =
       if (b <=? a) && (a <=? high) then Some (mkRetrieved e b (b - base) (high - b + 1))
       else x ← RetrieveRange w m a; shrink_result high a x).
Proof.
  intros Hr Hsd Hb Hsz high b. pose proof (rm_reachable_ok w Hw m Hr) as Hok.
  pose proof (StoreRange_shrinking w Hw m base size e Hok Hsd Hb Hsz) as Hs. cbv zeta in Hs.
  destruct (StoreRange w m base size e) as [ok m']. destruct Hs as (Hiff & Hf & Ht).
  split_and!; [done|done|]. intros Hk. destruct (Ht Hk) as (_ & _ & Hl). split; [|done].
  apply skip_base_spec with (w := w); [done|]. apply Hiff in Hk. unfold high. lia.
Qed.

(** In every state that calls of the public operations can reach, the
    stored ranges are well formed, in key order and pairwise disjoint, and the
    recursion of [StoreRangeInternal] ends within [store_fuel] calls. *)
Lemma range_map_reachable m :
  rm_reachable w m ->
  rm_ok w m /\
  (forall base size e, fits w base -> fits w size ->
     StoreRangeInternal w (store_fuel m) m base 0 size e = Some (StoreRange w m base size e)).
Proof.
  intros Hr. pose proof (rm_reachable_ok w Hw m Hr) as Hok. split; [done|].
  intros base size e Hb Hsz. unfold StoreRange.
  by destruct (StoreRangeInternal_total w Hw m base size e Hok Hb Hsz) as [r ->].
Qed.

(** [RetrieveNearestRange] answers with the range that covers the address
    and otherwise with the range whose high address is the greatest one not
    above it; it fails only when every stored range lies above the address. *)
Lemma range_map_nearest m a :
  rm_reachable w m ->
  match RetrieveNearestRange w m a with
  | Some x => exists h r, (h, r) ∈ rmap m /\ x = copy_out w (h, r) /\ rbase r <= a /\
      (a <= h \/ (forall h' r', (h', r') ∈ rmap m -> ~ covers h' r' a) /\
                 (forall h' r', (h', r') ∈ rmap m -> rbase r' <= a -> h' <= h))
  | None => forall h r, (h, r) ∈ rmap m -> a < rbase r
  end.
Proof. intros Hr. by apply RetrieveNearestRange_spec, (rm_reachable_ok w Hw). Qed.
End properties.

(** ** Witnesses *)

(** A reachable map: ranges [16, 31] and [64, 95]. *)
Definition demo_map (b : bool) : RangeMap nat :=
  (StoreRange 64 (StoreRange 64 (SetEnableShrinkDown RangeMap_new b) 16 16 1%nat).2 64 32 2%nat).2.

Lemma demo_map_reachable b : rm_reachable 64 (demo_map b).
Proof.
  unfold demo_map, rm_reachable.
  eapply rtc_l; [apply (step_enable 64 _ b)|].
  eapply rtc_l; [apply (step_store 64 _ 16 16 1%nat); done|].
  eapply rtc_l; [apply (step_store 64 _ 64 32 2%nat); done|]. apply rtc_refl.
Defined.

Lemma range_map_store_witness :
  let '(ok, m') := StoreRange 64 (demo_map false) 32 16 3%nat in
  ok = true /\ RetrieveRange 64 m' 40 = Some (mkRetrieved 3%nat 32 0 16) /\
  RetrieveRange 64 m' 70 = RetrieveRange 64 (demo_map false) 70.
Proof.
  pose proof (range_map_store 64 eq_refl (demo_map false) 32 16 3%nat
    (demo_map_reachable false) eq_refl ltac:(done) ltac:(done)) as H.
  assert (Hk: (StoreRange 64 (demo_map false) 32 16 3%nat).1 = true) by (vm_compute; reflexivity).
  destruct (StoreRange 64 (demo_map false) 32 16 3%nat) as [ok m']. simpl in Hk.
  destruct H as (_ & _ & H). specialize (H Hk). split; [exact Hk|]. by rewrite !H.
Defined.

Lemma range_map_store_shrinking_witness :
  let '(ok, m') := StoreRange 64 (demo_map true) 24 56 3%nat in
  ok = true /\ RetrieveRange 64 m' 40 = Some (mkRetrieved 3%nat 32 8 48) /\
  RetrieveRange 64 m' 85 = Some (mkRetrieved 2%nat 80 16 16).
Proof.
  pose proof (range_map_store_shrinking 64 eq_refl (demo_map true) 24 56 3%nat
    (demo_map_reachable true) eq_refl ltac:(done) ltac:(done)) as H. cbv zeta in H.
  assert (Hk: (StoreRange 64 (demo_map true) 24 56 3%nat).1 = true) by (vm_compute; reflexivity).
  destruct (StoreRange 64 (demo_map true) 24 56 3%nat) as [ok m']. simpl in Hk.
  destruct H as (_ & _ & H). destruct (H Hk) as [_ Hl]. split; [exact Hk|]. by rewrite !Hl.
Defined.

Lemma range_map_reachable_witness :
  rm_ok 64 (demo_map true) /\
  StoreRangeInternal 64 (store_fuel (demo_map true)) (demo_map true) 24 0 56 3%nat =
  Some (StoreRange 64 (demo_map true) 24 56 3%nat).
Proof.
  destruct (range_map_reachable 64 eq_refl (demo_map true) (demo_map_reachable true)) as [H1 H2].
  split; [exact H1 | apply H2; done].
Defined.

Lemma range_map_nearest_witness :
  RetrieveNearestRange 64 (demo_map false) 50 = Some (mkRetrieved 1%nat 16 0 16) /\
  exists h r, (h, r) ∈ rmap (demo_map false) /\ rbase r <= 50.
Proof.
  split; [vm_compute; reflexivity|].
  pose proof (range_map_nearest 64 eq_refl (demo_map false) 50 (demo_map_reachable false)) as H.
  destruct (RetrieveNearestRange 64 (demo_map false) 50) as [x|] eqn:Ex; [|vm_compute in Ex; discriminate].
  destruct H as (h & r & Hin & _ & Hle & _). exists h, r. by split.
Defined.
