(* ===== verification/AddressMap.v ===== *)
(** processor/address_map.h, address_map-inl.h: [AddressMap], which answers
    with the entry stored at the greatest address not above the query. *)
From stdpp Require Import sorting sets list.
From S2P Require Import Prelude StdMap.

Section address_map.
Context {E : Type}.

Record AddressMap := mkAddressMap { amap : smap E }.

Definition AddressMap_new : AddressMap := mkAddressMap [].

Definition Store (m : AddressMap) (address : Z) (e : E) : bool * AddressMap :=
  if negb (find (amap m) address =? length (amap m))%nat then (false, m)
  else (true, mkAddressMap (insert (amap m) address e)).

(** The entry and, as second component, [*entry_address]. *)
Definition Retrieve (m : AddressMap) (address : Z) : option (E * Z) :=
  let it := upper_bound (amap m) address in
  if (it =? 0)%nat then None
  else (λ kv, (kv.2, kv.1)) <$> amap m !! pred it.

Definition ClearAddresses (m : AddressMap) : AddressMap := mkAddressMap [].
End address_map.

Arguments AddressMap : clear implicits.

Section proofs.
Context {E : Type}.
Implicit Types (m : AddressMap E) (e : E).

(** [Retrieve] finds the greatest stored address that is at most the query. *)
Lemma Retrieve_Some m a e k :
  sorted (amap m) ->
  Retrieve m a = Some (e, k) <->
  (k, e) ∈ amap m /\ k <= a /\ forall k' e', (k', e') ∈ amap m -> k' <= a -> k' <= k.
Proof.
  intros Hs. unfold Retrieve. destruct (decide (upper_bound (amap m) a = 0%nat)) as [E0|Hn].
  - rewrite E0. simpl. split; [done|]. intros (Hin & Hle & _).
    rewrite upper_bound_0 in E0 by done. apply E0 in Hin. lia.
  - rewrite (proj2 (Nat.eqb_neq _ _)) by done.
    destruct (upper_bound_pred _ _ Hs Hn) as (k0 & e0 & -> & Hle & Hin & Hmax). simpl. split.
    + intros [= <- <-]. auto.
    + intros (Hin' & Hle' & Hmax'). assert (k0 = k) as -> by (apply Z.le_antisymm; eauto).
      by rewrite (sorted_functional _ _ _ _ Hs Hin Hin').
Qed.

Lemma Retrieve_None m a :
  sorted (amap m) -> Retrieve m a = None <-> forall k e, (k, e) ∈ amap m -> a < k.
Proof.
  intros Hs. unfold Retrieve. rewrite <- upper_bound_0 by done.
  destruct (decide (upper_bound (amap m) a = 0%nat)) as [E0|Hn].
  - by rewrite E0.
  - rewrite (proj2 (Nat.eqb_neq _ _)) by done.
    destruct (upper_bound_pred _ _ Hs Hn) as (k0 & e0 & -> & _). split; [done|lia].
Qed.

(** [Store] succeeds exactly on a fresh address. *)
Lemma Store_spec m a e :
  sorted (amap m) ->
  let '(ok, m') := Store m a e in
  sorted (amap m') /\
  (ok = true <-> forall e', (a, e') ∉ amap m) /\
  (ok = false -> m' = m) /\
  (ok = true -> forall x, x ∈ amap m' <-> x = (a, e) \/ x ∈ amap m).
Proof.
  intros Hs. unfold Store. destruct (negb _) eqn:En; breflect.
  - split_and!; try done. rewrite <- find_end by done. split; [done|lia].
  - rewrite find_end in En by done. simpl.
    split_and!; try done; [by apply sorted_insert|]. intros _ x. by apply elem_of_insert.
Qed.

(** After a successful [Store] the new entry answers for the addresses from
    its own up to the next stored one, and the other answers do not change. *)
Lemma Retrieve_Store m a e x :
  sorted (amap m) -> (Store m a e).1 = true ->
  Retrieve (Store m a e).2 x =
  match Retrieve m x with
  | Some (e', k) => if (a <=? x) && (k <? a) then Some (e, a) else Some (e', k)
  | None => if a <=? x then Some (e, a) else None
  end.
Proof.
  intros Hs Hok. pose proof (Store_spec m a e Hs) as Hst.
  destruct (Store m a e) as [ok m']. simpl in *. subst ok.
  destruct Hst as (Hs' & Hf & _ & Hin). specialize (Hin eq_refl). pose proof (proj1 Hf eq_refl) as Hfr.
  destruct (Retrieve m x) as [[e' k]|] eqn:Er.
  - apply (Retrieve_Some m x e' k Hs) in Er as (Hk & Hle & Hmax). dif; rewrite Retrieve_Some by done.
    + split_and!; [apply Hin; by left|lia|].
      intros k' e'' [[= -> ->]|Hi]%Hin ?; [lia|]. pose proof (Hmax _ _ Hi). lia.
    + split_and!; [apply Hin; by right|done|].
      intros k' e'' [[= -> ->]|Hi]%Hin ?; [|by eapply Hmax].
      destruct (decide (a = k)) as [->|]; [lia|]. destruct E0; breflect; lia.
  - rewrite Retrieve_None in Er by done. dif.
    + rewrite Retrieve_Some by done. split_and!; [apply Hin; by left|lia|].
      intros k' e'' [[= -> ->]|Hi]%Hin ?; [lia|]. pose proof (Er _ _ Hi). lia.
    + rewrite Retrieve_None by done. intros k' e'' [[= -> ->]|Hi]%Hin; [lia|by eapply Er].
Qed.
End proofs.

(** ** Sequences of stores *)
Section sequences.
Context {E : Type}.

(** The calls [Store(a, e)] for each pair of [l], in order, on an empty map. *)
Definition StoreAll (l : list (Z * E)) : AddressMap E :=
  foldl (λ m ae, (Store m ae.1 ae.2).2) AddressMap_new l.

(** The entry of the first pair of [l] with address [k]. *)
Fixpoint first_entry (l : list (Z * E)) (k : Z) : option E :=
  match l with
  | [] => None
  | (k', e) :: l' => if k' =? k then Some e else first_entry l' k
  end.

Lemma first_entry_snoc l k k' e :
  first_entry (l ++ [(k', e)]) k =
  match first_entry l k with Some x => Some x | None => if k' =? k then Some e else None end.
Proof. induction l as [|[k0 e0] l IH]; simpl; [done|]. by destruct (k0 =? k). Qed.

Lemma first_entry_None l k : first_entry l k = None <-> k ∉ l.*1.
Proof.
  induction l as [|[k0 e0] l IH]; simpl.
  - split; [intros _; apply not_elem_of_nil|done].
  - rewrite not_elem_of_cons. destruct (k0 =? k) eqn:Ek; breflect; [|rewrite IH]; naive_solver.
Qed.

(** The map holds, for each address, the first entry stored there. *)
Lemma StoreAll_entries l :
  sorted (amap (StoreAll l)) /\ forall k e, (k, e) ∈ amap (StoreAll l) <-> first_entry l k = Some e.
Proof.
  unfold StoreAll. induction l as [|[a e] l [Hs IH]] using rev_ind.
  { split; [apply sorted_nil|]. intros k e. simpl. split; [|done]. by intros ?%not_elem_of_nil. }
  rewrite foldl_snoc. simpl. set (m := foldl _ _ l) in *.
  pose proof (Store_spec m a e Hs) as Hst. destruct (Store m a e) as [ok m'].
  destruct Hst as (Hs' & Hiff & Hf & Ht). split; [done|]. intros k e1. simpl. rewrite first_entry_snoc.
  destruct ok.
  - rewrite Ht, IH by done. pose proof (proj1 Hiff eq_refl) as Hfr.
    destruct (first_entry l k) as [e2|] eqn:Ef.
    + assert (k <> a). { intros ->. apply (Hfr e2). by apply IH. } naive_solver.
    + destruct (a =? k) eqn:Ek; breflect; naive_solver.
  - rewrite Hf by done. rewrite IH.
    destruct (first_entry l k) as [e2|] eqn:Ef; [done|].
    destruct (a =? k) eqn:Ek; breflect; [|done]. subst a. split; [done|].
    intros [= <-]. exfalso. assert (false = true) as Hx; [|done]. apply Hiff. intros e' Hin.
    apply IH in Hin. congruence.
Qed.
End sequences.

(** After any sequence of [Store] calls, [Retrieve] answers with the
    greatest stored address not above the query and with the first entry that
    was stored there, and it fails only below every stored address. *)
Lemma address_map_retrieve {E : Type} (l : list (Z * E)) (a : Z) :
  match Retrieve (StoreAll l) a with
  | Some (e, k) => k <= a /\ first_entry l k = Some e /\ (forall k', k' ∈ l.*1 -> k' <= a -> k' <= k)
  | None => forall k', k' ∈ l.*1 -> a < k'
  end.
Proof.
  destruct (StoreAll_entries l) as [Hs Hin].
  assert (Hk: forall k', k' ∈ l.*1 -> exists e', (k', e') ∈ amap (StoreAll l)).
  { intros k' Hk'. destruct (first_entry l k') as [e'|] eqn:Ef; [exists e'; by apply Hin|].
    by apply first_entry_None in Ef. }
  destruct (Retrieve (StoreAll l) a) as [[e k]|] eqn:Er.
  - apply (Retrieve_Some _ _ _ _ Hs) in Er as (H1 & H2 & H3). apply Hin in H1.
    split_and!; [done|done|]. intros k' [e' ?]%Hk ?. by eapply H3.
  - rewrite Retrieve_None in Er by done. intros k' [e' ?]%Hk. by eapply Er.
Qed.
