(* ===== verification/ContainedRangeMap.v ===== *)
(** processor/contained_range_map.h, contained_range_map-inl.h:
    [ContainedRangeMap], a tree of nested address ranges in which a range may
    be stored inside, or around, the ranges already there. *)
From stdpp Require Import sorting sets list.
From S2P Require Import Prelude StdMap.

(** [l[i]->f()]: apply a storing method to the [i]-th child in place. *)
Section at_child.
Context {A : Type} (f : A -> bool * A).
Fixpoint at_child (l : smap A) (i : nat) : bool * smap A :=
  match l, i with
  | [], _ => (false, [])
  | (k, c) :: l', O => let '(ok, c') := f c in (ok, (k, c') :: l')
  | kc :: l', S i' => let '(ok, l'') := at_child l' i' in (ok, kc :: l'')
  end.
End at_child.

(** [iterator->second->g()], when the iterator designates a child. *)
Section of_child.
Context {A B : Type} (g : Z * A -> B).
Fixpoint of_child (l : smap A) (i : nat) : option B :=
  match l, i with
  | [], _ => None
  | kc :: _, O => Some (g kc)
  | _ :: l', S i' => of_child l' i'
  end.
End of_child.

Section contained_range_map.
Context {E : Type} (w : Z).

(** [base_], [entry_] and [map_]; [None] is the null [map_] of a leaf. *)
Inductive ContainedRangeMap :=
  mkCRM (base_ : Z) (entry_ : E) (map_ : option (smap ContainedRangeMap)).

Definition cbase (c : ContainedRangeMap) : Z := let 'mkCRM b _ _ := c in b.
Definition centry (c : ContainedRangeMap) : E := let 'mkCRM _ e _ := c in e.
Definition cmap (c : ContainedRangeMap) : option (smap ContainedRangeMap) :=
  let 'mkCRM _ _ m := c in m.

(** The root: [base_()], [entry_()] (a value-initialised entry), null map. *)
Definition ContainedRangeMap_new (entry0 : E) : ContainedRangeMap := mkCRM 0 entry0 None.

Fixpoint StoreContained (m : ContainedRangeMap) (base size : Z) (entry : E) {struct m}
  : bool * ContainedRangeMap :=
  let 'mkCRM b0 e0 map0 := m in
  let high := wrap w (wrap w (base + size) - 1) in
  if (size <=? 0) || (high <? base) then (false, m)
  else
    let map_ := match map0 with Some l => l | None => [] end in
    let iterator_base := lower_bound map_ base in
    let iterator_high := lower_bound map_ high in
    let iterator_end := length map_ in
    let child := map_ !! iterator_base in
    if (iterator_base =? iterator_high)%nat && negb (iterator_base =? iterator_end)%nat
       && (match child with Some (_, c) => cbase c <=? base | None => false end) then
      if match child with Some (k, c) => (cbase c =? base) && (k =? high) | None => false end
      then (false, mkCRM b0 e0 (Some map_))
      else
        let '(ok, map') := match map0 with
                           | Some l => at_child (λ c, StoreContained c base size entry) l iterator_base
                           | None => (false, [])
                           end in
        (ok, mkCRM b0 e0 (Some map'))
    else
      let contains_high :=
        match map_ !! iterator_high with Some (_, c) => cbase c <=? high | None => false end in
      if (match child with Some (_, c) => cbase c <? base | None => false end)
         || (contains_high && match map_ !! iterator_high with Some (k, _) => high <? k | None => false end)
      then (false, mkCRM b0 e0 (Some map_))
      else
        let iterator_high := if contains_high then S iterator_high else iterator_high in
        let child_map := if (iterator_base =? iterator_high)%nat then None
                         else Some (take (iterator_high - iterator_base) (drop iterator_base map_)) in
        let map' := if (iterator_base =? iterator_high)%nat then map_
                    else erase_range map_ iterator_base iterator_high in
        (true, mkCRM b0 e0 (Some (insert map' high (mkCRM base entry child_map)))).

Fixpoint RetrieveContained (m : ContainedRangeMap) (address : Z) {struct m} : option E :=
  match m with
  | mkCRM _ _ None => None
  | mkCRM _ _ (Some map_) =>
      let iterator := lower_bound map_ address in
      match of_child (λ '(_, c), if address <? cbase c then None
                                 else match RetrieveContained c address with
                                      | Some e => Some e
                                      | None => Some (centry c)
                                      end) map_ iterator with
      | Some r => r
      | None => None
      end
  end.

Definition ClearContained (m : ContainedRangeMap) : ContainedRangeMap :=
  mkCRM (cbase m) (centry m) None.

(** The children of a node, whatever the representation of "no child". *)
Definition kids (m : ContainedRangeMap) : smap ContainedRangeMap :=
  match cmap m with Some l => l | None => [] end.

(** All ranges stored below a node, as (base, high, entry). *)
Fixpoint ranges (c : ContainedRangeMap) : list (Z * Z * E) :=
  match c with
  | mkCRM _ _ None => []
  | mkCRM _ _ (Some l) => flat_map (λ '(k, c), (cbase c, k, centry c) :: ranges c) l
  end.

Definition forest_ranges (l : smap ContainedRangeMap) : list (Z * Z * E) :=
  flat_map (λ '(k, c), (cbase c, k, centry c) :: ranges c) l.

(** Children are in key order, disjoint, inside [lo, ph], none has the
    geometry (pb, ph) of the parent, and each child is well formed. *)
Inductive forest_ok (pb ph : Z) : Z -> smap ContainedRangeMap -> Prop :=
| forest_nil lo : forest_ok pb ph lo []
| forest_cons lo k c l :
    pb <= lo -> lo <= cbase c -> cbase c <= k -> k <= ph -> ~ (cbase c = pb /\ k = ph) ->
    forest_ok (cbase c) k (cbase c) (kids c) ->
    forest_ok pb ph (k + 1) l ->
    forest_ok pb ph lo ((k, c) :: l).

(** The root holds [w]-bit ranges and has no geometry of its own. *)
Definition crm_ok (m : ContainedRangeMap) : Prop := forest_ok (-1) (2 ^ w - 1) 0 (kids m).

(** [e] is the entry of the smallest of the ranges [L] that contains [a]. *)
Definition innermost (L : list (Z * Z * E)) (a : Z) (e : E) : Prop :=
  exists b h, (b, h, e) ∈ L /\ b <= a <= h /\
    forall b' h' e', (b', h', e') ∈ L -> b' <= a <= h' -> b' <= b /\ h <= h'.

(** A new range may join [L]: it is disjoint from, strictly inside or strictly
    around each stored range. *)
Definition nests (L : list (Z * Z * E)) (base high : Z) : Prop :=
  forall b h e, (b, h, e) ∈ L ->
    high < b \/ h < base \/
    (((base <= b /\ h <= high) \/ (b <= base /\ high <= h)) /\ ~ (b = base /\ h = high)).
End contained_range_map.

Arguments ContainedRangeMap : clear implicits.

Section proofs.
Context {E : Type} (w : Z) (Hw : 0 < w).
Implicit Types (l : smap (ContainedRangeMap E)) (c m : ContainedRangeMap E) (e : E).

Lemma forest_ranges_cons k c l :
  forest_ranges ((k, c) :: l) = (cbase c, k, centry c) :: ranges c ++ forest_ranges l.
Proof. done. Qed.

Lemma ranges_kids c : ranges c = forest_ranges (kids c).
Proof. by destruct c as [b e [l|]]. Qed.

Lemma forest_ok_bounds pb ph lo l b h e :
  forest_ok pb ph lo l -> (b, h, e) ∈ forest_ranges l -> lo <= b <= h /\ h <= ph /\ ~ (b = pb /\ h = ph).
Proof.
  intros Hok. revert b h e. induction Hok as [|pb ph lo k c l ?????? IHc ? IHl]; intros b h e Hin.
  { by apply not_elem_of_nil in Hin. }
  rewrite forest_ranges_cons, elem_of_cons, elem_of_app in Hin.
  destruct Hin as [[= -> -> ->]|[Hin|Hin]]; [lia| |].
  - rewrite ranges_kids in Hin. apply IHc in Hin. lia.
  - apply IHl in Hin. lia.
Qed.

Lemma forest_ok_lo pb ph lo lo' l :
  forest_ok pb ph lo l -> pb <= lo' <= lo -> forest_ok pb ph lo' l.
Proof. destruct 1; constructor; auto; lia. Qed.

Lemma forest_ok_inv pb ph lo k c l :
  forest_ok pb ph lo ((k, c) :: l) ->
  (pb <= lo /\ lo <= cbase c <= k /\ k <= ph /\ ~ (cbase c = pb /\ k = ph)) /\
  forest_ok (cbase c) k (cbase c) (kids c) /\ forest_ok pb ph (k + 1) l.
Proof. inversion 1; subst. split_and!; auto; lia. Qed.

Lemma forest_ok_head pb ph lo lo' l :
  forest_ok pb ph lo l -> pb <= lo' -> (forall k c, head l = Some (k, c) -> lo' <= cbase c) ->
  forest_ok pb ph lo' l.
Proof. intros Hok ? Hh. destruct Hok; constructor; auto; by eapply Hh. Qed.

Lemma forest_ok_sorted pb ph lo l :
  forest_ok pb ph lo l -> sorted l /\ forall k c, (k, c) ∈ l -> lo <= k.
Proof.
  induction 1 as [|pb ph lo k c l ?????? _ ? [Hs Hlo]].
  - split; [apply sorted_nil|]. intros k c Hin. by apply not_elem_of_nil in Hin.
  - split.
    + apply sorted_cons. split; [|done]. intros k' c' Hin. apply Hlo in Hin. lia.
    + intros k' c' [[= -> ->]|Hin]%elem_of_cons; [lia|]. apply Hlo in Hin. lia.
Qed.

(** ** Retrieval *)

Lemma RetrieveContained_cons b0 e0 k c l a :
  RetrieveContained (mkCRM b0 e0 (Some ((k, c) :: l))) a =
  if k <? a then RetrieveContained (mkCRM b0 e0 (Some l)) a
  else if a <? cbase c then None
       else match RetrieveContained c a with Some e => Some e | None => Some (centry c) end.
Proof. simpl. by destruct (k <? a). Qed.

Lemma RetrieveContained_kids c a :
  RetrieveContained c a = RetrieveContained (mkCRM (cbase c) (centry c) (Some (kids c))) a.
Proof. by destruct c as [b e [l|]]. Qed.

Lemma RetrieveContained_root b0 e0 b1 e1 l a :
  RetrieveContained (mkCRM b0 e0 (Some l)) a = RetrieveContained (mkCRM b1 e1 (Some l)) a.
Proof. done. Qed.

Lemma retrieve_forest pb ph lo l a b0 e0 :
  forest_ok pb ph lo l ->
  match RetrieveContained (mkCRM b0 e0 (Some l)) a with
  | Some e => innermost (forest_ranges l) a e
  | None => forall b h e, (b, h, e) ∈ forest_ranges l -> ~ (b <= a <= h)
  end.
Proof.
  intros Hok. induction Hok as [|pb ph lo k c l H0 H1 H2 H3 H4 Hc IHc Hl IHl].
  { intros b h e Hin. by apply not_elem_of_nil in Hin. }
  rewrite RetrieveContained_cons, forest_ranges_cons, ranges_kids.
  assert (Bc: forall b h e, (b, h, e) ∈ forest_ranges (kids c) -> cbase c <= b <= h /\ h <= k).
  { intros b h e Hin. pose proof (forest_ok_bounds _ _ _ _ _ _ _ Hc Hin). lia. }
  assert (Bl: forall b h e, (b, h, e) ∈ forest_ranges l -> k + 1 <= b <= h).
  { intros b h e Hin. pose proof (forest_ok_bounds _ _ _ _ _ _ _ Hl Hin). lia. }
  dif.
  - destruct (RetrieveContained (mkCRM b0 e0 (Some l)) a) as [e|].
    + destruct IHl as (b & h & Hin & Ha & Hmin). exists b, h. split_and!; [|lia..|].
      { apply elem_of_cons. right. apply elem_of_app. by right. }
      intros b' h' e' Hin' Ha'. rewrite elem_of_cons, elem_of_app in Hin'.
      destruct Hin' as [[= -> -> ->]|[Hin'|Hin']]; [lia| |by eapply Hmin].
      apply Bc in Hin'. lia.
    + intros b h e Hin Ha. rewrite elem_of_cons, elem_of_app in Hin.
      destruct Hin as [[= -> -> ->]|[Hin|Hin]]; [lia| |by eapply IHl].
      apply Bc in Hin. lia.
  - dif.
    + intros b h e Hin Ha. rewrite elem_of_cons, elem_of_app in Hin.
      destruct Hin as [[= -> -> ->]|[Hin|Hin]]; [lia|apply Bc in Hin; lia|apply Bl in Hin; lia].
    + rewrite RetrieveContained_kids, (RetrieveContained_root _ _ b0 e0).
      destruct (RetrieveContained (mkCRM b0 e0 (Some (kids c))) a) as [e|].
      * destruct IHc as (b & h & Hin & Ha & Hmin). exists b, h. split_and!; [|lia..|].
        { apply elem_of_cons. right. apply elem_of_app. by left. }
        apply Bc in Hin. intros b' h' e' Hin' Ha'. rewrite elem_of_cons, elem_of_app in Hin'.
        destruct Hin' as [[= -> -> ->]|[Hin'|Hin']]; [lia|by eapply Hmin|].
        apply Bl in Hin'. lia.
      * exists (cbase c), k. split_and!; [by left|lia..|].
        intros b' h' e' Hin' Ha'. rewrite elem_of_cons, elem_of_app in Hin'.
        destruct Hin' as [[= -> -> ->]|[Hin'|Hin']]; [lia|by edestruct IHc|].
        apply Bl in Hin'. lia.
Qed.
(** ** Storing *)

Lemma contained_high base size :
  fits w base -> fits w size ->
  ((size <=? 0) || (wrap w (wrap w (base + size) - 1) <? base) = false <->
     0 < size /\ base + size - 1 < 2 ^ w) /\
  (0 < size -> base + size - 1 < 2 ^ w -> wrap w (wrap w (base + size) - 1) = base + size - 1).
Proof.
  intros Hb Hsz.
  assert (Hh: wrap w (wrap w (base + size) - 1) = wrap w (base + (size - 1))).
  { unfold wrap. rewrite Zminus_mod_idemp_l. f_equal. lia. }
  rewrite Hh. unfold fits in *. destruct (decide (size = 0)) as [->|]; [lia|].
  destruct (wrap_add_cases w base (size - 1)) as [[Ho ?]|[Ho ?]];
    [lia|unfold fits; lia|unfold fits; lia|..]; rewrite Ho; lia.
Qed.

Lemma insert_skip {V} (x : smap V) k v k' v' :
  k < k' -> insert ((k, v) :: x) k' v' = (k, v) :: insert x k' v'.
Proof.
  intros Hk. unfold insert. simpl. rewrite (proj2 (Z.ltb_lt _ _)) by done. simpl.
  destruct (x !! lower_bound x k') as [[k1 v1]|]; [|done]. by destruct (k1 =? k').
Qed.

Lemma insert_front {V} (x : smap V) k v :
  (forall k' v', (k', v') ∈ x -> k < k') -> insert x k v = (k, v) :: x.
Proof.
  intros Hk. unfold insert. destruct x as [|[k1 v1] x]; [done|].
  pose proof (Hk k1 v1 ltac:(left)). simpl.
  rewrite (proj2 (Z.ltb_ge _ _)) by lia. simpl. rewrite (proj2 (Z.eqb_neq _ _)) by lia. done.
Qed.

(** Children that end below the new range are not looked at. *)
Lemma StoreContained_skip b0 e0 k c l base size e :
  fits w base -> fits w size -> 0 < size -> base + size - 1 < 2 ^ w -> k < base ->
  StoreContained w (mkCRM b0 e0 (Some ((k, c) :: l))) base size e =
  let r := StoreContained w (mkCRM b0 e0 (Some l)) base size e in
  (r.1, mkCRM b0 e0 (Some ((k, c) :: kids r.2))).
Proof.
  intros Hb Hsz Hp Hv Hk. destruct (contained_high base size Hb Hsz) as [Hc Hh].
  simpl. rewrite (proj2 Hc), (Hh Hp Hv) by done. clear Hc Hh.
  rewrite !(proj2 (Z.ltb_lt k _)) by lia. simpl.
  set (ib := lower_bound l base). set (ih := lower_bound l (base + size - 1)).
  destruct ((ib =? ih)%nat && negb (ib =? length l)%nat && _).
  { destruct (match l !! ib with Some _ => _ | None => _ end); [done|].
    destruct (at_child _ l ib) as [ok l'] eqn:Ea. done. }
  destruct (_ || _); [done|].
  destruct (match l !! ih with Some (_, c1) => cbase c1 <=? base + size - 1 | None => false end); simpl.
  - destruct (ib =? S ih)%nat; unfold erase_range; simpl; by rewrite insert_skip by lia.
  - destruct (ib =? ih)%nat; unfold erase_range; simpl; by rewrite insert_skip by lia.
Qed.
(** A null [map_] behaves as an empty one. *)
Lemma StoreContained_kids c base size e :
  fits w base -> fits w size -> 0 < size -> base + size - 1 < 2 ^ w ->
  StoreContained w c base size e =
  StoreContained w (mkCRM (cbase c) (centry c) (Some (kids c))) base size e.
Proof.
  intros Hb Hsz Hp Hv. destruct (contained_high base size Hb Hsz) as [Hc Hh].
  destruct c as [b0 e0 [l|]]; [done|]. simpl. by rewrite (proj2 Hc), (Hh Hp Hv).
Qed.

(** The first child contains the new range. *)
Lemma StoreContained_inside b0 e0 k c l base size e :
  fits w base -> fits w size -> 0 < size -> base + size - 1 < 2 ^ w ->
  cbase c <= base -> base + size - 1 <= k ->
  StoreContained w (mkCRM b0 e0 (Some ((k, c) :: l))) base size e =
  if (cbase c =? base) && (k =? base + size - 1) then (false, mkCRM b0 e0 (Some ((k, c) :: l)))
  else let r := StoreContained w c base size e in (r.1, mkCRM b0 e0 (Some ((k, r.2) :: l))).
Proof.
  intros Hb Hsz Hp Hv H1 H2. destruct (contained_high base size Hb Hsz) as [Hc Hh].
  simpl. rewrite (proj2 Hc), (Hh Hp Hv) by done. clear Hc Hh.
  rewrite !(proj2 (Z.ltb_ge k _)) by lia. simpl. rewrite (proj2 (Z.leb_le _ _)) by lia. simpl.
  dif; [done|]. by destruct (StoreContained w c base size e).
Qed.

(** How many leading children the new range takes over. *)
Definition cut l (high : Z) : nat :=
  let ih := lower_bound l high in
  match l !! ih with Some (_, c) => if cbase c <=? high then S ih else ih | None => ih end.

(** The child at the upper end of the new range sticks out of it. *)
Definition sticks_out l (high : Z) : bool :=
  match l !! lower_bound l high with
  | Some (k, c) => (cbase c <=? high) && (high <? k)
  | None => false
  end.

(** The first child does not contain the new range. *)
Lemma StoreContained_around b0 e0 l base size e :
  fits w base -> fits w size -> 0 < size -> base + size - 1 < 2 ^ w ->
  lower_bound l base = 0%nat ->
  (forall k c, head l = Some (k, c) -> ~ (cbase c <= base /\ base + size - 1 <= k)) ->
  StoreContained w (mkCRM b0 e0 (Some l)) base size e =
  if match head l with Some (_, c) => cbase c <? base | None => false end
     || sticks_out l (base + size - 1)
  then (false, mkCRM b0 e0 (Some l))
  else (true, mkCRM b0 e0 (Some (insert (drop (cut l (base + size - 1)) l) (base + size - 1)
          (mkCRM base e (if (0 =? cut l (base + size - 1))%nat then None
                         else Some (take (cut l (base + size - 1)) l)))))).
Proof.
  intros Hb Hsz Hp Hv Hlb Hni. destruct (contained_high base size Hb Hsz) as [Hc Hh].
  cbn [StoreContained]. rewrite (proj2 Hc), (Hh Hp Hv), Hlb by done. clear Hc Hh.
  unfold sticks_out, cut. set (high := base + size - 1) in *. set (ih := lower_bound l high).
  assert (Hf: (0 =? ih)%nat && negb (0 =? length l)%nat
     && match l !! 0%nat with Some (_, c) => cbase c <=? base | None => false end = false).
  { destruct l as [|[k c] l]; [by rewrite andb_false_r|]. specialize (Hni k c eq_refl). simpl in *.
    unfold ih. simpl. destruct (k <? high) eqn:Ek; breflect; [done|]. simpl.
    apply Z.leb_gt. lia. }
  rewrite Hf. clear Hf.
  replace (match l !! 0%nat with Some (_, c) => cbase c <? base | None => false end)
    with (match head l with Some (_, c) => cbase c <? base | None => false end) by (by destruct l).
  destruct (match head l with Some (_, c) => cbase c <? base | None => false end); [done|]. simpl.
  destruct (l !! ih) as [[k1 c1]|]; [destruct (cbase c1 <=? high); simpl|]; simpl.
  - destruct (high <? k1); [done|]. unfold erase_range. simpl. by rewrite drop_0.
  - destruct ih as [|ih]; simpl; [by rewrite drop_0|]. unfold erase_range. simpl. by rewrite drop_0.
  - destruct ih as [|ih]; simpl; [by rewrite drop_0|]. unfold erase_range. simpl. by rewrite drop_0.
Qed.
Lemma cut_cons k c l high :
  cut ((k, c) :: l) high =
  if k <? high then S (cut l high) else if cbase c <=? high then 1%nat else 0%nat.
Proof.
  unfold cut. simpl. destruct (k <? high); simpl; [|done].
  destruct (l !! lower_bound l high) as [[k1 c1]|]; [|done]. by destruct (cbase c1 <=? high).
Qed.

Lemma sticks_out_cons k c l high :
  sticks_out ((k, c) :: l) high =
  if k <? high then sticks_out l high else (cbase c <=? high) && (high <? k).
Proof. unfold sticks_out. simpl. by destruct (k <? high). Qed.

(** Cutting a forest at a range none of its members straddles. *)
Lemma forest_cut pb ph lo l base high :
  forest_ok pb ph lo l -> base <= lo -> pb <= base -> pb < high + 1 ->
  sticks_out l high = false ->
  (forall k c, (k, c) ∈ l -> ~ (cbase c = base /\ k = high)) ->
  forest_ok base high lo (take (cut l high) l) /\ forest_ok pb ph (high + 1) (drop (cut l high) l).
Proof.
  intros Hok. induction Hok as [|pb ph lo k c l ?????? _ Hl IHl]; intros Hb Hpb Hph Hs Hne.
  { split; constructor. }
  rewrite sticks_out_cons in Hs. rewrite cut_cons.
  pose proof (Hne k c ltac:(left)).
  assert (Hne': forall k c, (k, c) ∈ l -> ~ (cbase c = base /\ k = high)) by (intros; eapply Hne; by right).
  dif; [|dif].
  - destruct IHl as [Ht Hd]; [lia|done|done|done|done|]. simpl.
    split; [|done]. constructor; auto; lia.
  - assert (k = high) as -> by (destruct Hs; breflect; lia). simpl.
    rewrite drop_0, take_0. split; [constructor; [..|constructor]; auto; lia|done].
  - simpl. split; [constructor|]. constructor; auto; lia.
Qed.

(** A child that sticks out prevents the nesting. *)
Lemma sticks_out_nests pb ph lo l base high :
  forest_ok pb ph lo l -> base <= high -> sticks_out l high = true ->
  (forall k c, (k, c) ∈ l -> base <= k) ->
  (forall k c, head l = Some (k, c) -> ~ (cbase c <= base /\ high <= k)) ->
  base <= lo \/ (forall k c, head l = Some (k, c) -> base <= cbase c) ->
  ~ nests (forest_ranges l) base high.
Proof.
  intros Hok. induction Hok as [|pb ph lo k c l ???? Hnp ? _ Hl IHl]; intros Hbh Hs Hge Hni Hlo Hn.
  { done. }
  rewrite sticks_out_cons in Hs. rewrite forest_ranges_cons in Hn.
  pose proof (Hni k c eq_refl).
  assert (Hlo': base <= cbase c) by (destruct Hlo as [?|Hlo]; [lia|by eapply Hlo]).
  dif_in Hs.
  - apply IHl; [done|done| | |left; lia|].
    + intros. eapply Hge. by right.
    + intros k' c' Hhd [? ?]. inversion Hl; subst; simplify_eq/=. lia.
    + intros b h e Hin. apply (Hn b h e). apply elem_of_cons. right. apply elem_of_app. by right.
  - breflect. specialize (Hn (cbase c) k (centry c) ltac:(left)). lia.
Qed.

Lemma forest_ranges_app l1 l2 : forest_ranges (l1 ++ l2) = forest_ranges l1 ++ forest_ranges l2.
Proof. unfold forest_ranges. apply flat_map_app. Qed.

(** What a call leaves in a forest. *)
Definition store_result (pb ph lo : Z) l (base high : Z) e (b0 : Z) (e0 : E)
    (r : bool * ContainedRangeMap E) : Prop :=
  cbase r.2 = b0 /\ centry r.2 = e0 /\ forest_ok pb ph lo (kids r.2) /\
  (r.1 = true <-> nests (forest_ranges l) base high) /\
  (r.1 = true -> forest_ranges (kids r.2) ≡ₚ (base, high, e) :: forest_ranges l) /\
  (r.1 = false -> forest_ranges (kids r.2) = forest_ranges l).

(** The new range takes over the leading children that it contains. *)
Lemma store_around pb ph lo l base size e b0 e0 :
  forest_ok pb ph lo l -> fits w base -> fits w size -> 0 < size -> base + size - 1 < 2 ^ w ->
  pb <= base -> base + size - 1 <= ph -> ~ (base = pb /\ base + size - 1 = ph) -> lo <= base ->
  (forall k c, (k, c) ∈ l -> base <= k) ->
  (forall k c, head l = Some (k, c) -> ~ (cbase c <= base /\ base + size - 1 <= k)) ->
  pb <= lo ->
  store_result pb ph lo l base (base + size - 1) e b0 e0
    (StoreContained w (mkCRM b0 e0 (Some l)) base size e).
Proof.
  intros Hok Hb Hsz Hp Hv Hpb Hph Hnp Hlo Hge Hni Hpl.
  assert (Hlb: lower_bound l base = 0%nat).
  { destruct l as [|[k c] l]; [done|]. simpl. pose proof (Hge k c ltac:(left)).
    by rewrite (proj2 (Z.ltb_ge _ _)) by lia. }
  rewrite StoreContained_around by done. set (high := base + size - 1) in *.
  destruct (match head l with Some (_, c) => cbase c <? base | None => false end) eqn:Eh; simpl.
  { unfold store_result. simpl. split_and!; try done. split; [done|]. intros Hn. exfalso.
    destruct l as [|[k c] l]; [done|]. simpl in Eh. breflect.
    pose proof (Hge k c ltac:(left)). pose proof (Hni k c eq_refl).
    specialize (Hn (cbase c) k (centry c) ltac:(left)). lia. }
  assert (Hhd: forall k c, head l = Some (k, c) -> base <= cbase c).
  { intros k c Hl. rewrite Hl in Eh. breflect. lia. }
  destruct (sticks_out l high) eqn:Es.
  { unfold store_result. simpl. split_and!; try done. split; [done|]. intros Hn. exfalso.
    by eapply (sticks_out_nests pb ph lo l base high); try done; [lia|right]. }
  assert (Hok': forest_ok pb ph base l).
  { by eapply forest_ok_head. }
  destruct (forest_cut pb ph base l base high) as [Ht Hd]; try done; try lia.
  { intros k c Hin [Hcb Hk]. destruct l as [|[k0 c0] l]; [by apply not_elem_of_nil in Hin|].
    pose proof (Hni k0 c0 eq_refl). apply elem_of_cons in Hin as [[= -> ->]|Hin]; [lia|].
    apply forest_ok_inv in Hok' as (? & _ & Hl).
    assert (Hr: (cbase c, k, centry c) ∈ forest_ranges l).
    { unfold forest_ranges. apply list_elem_of_In, in_flat_map. exists (k, c).
      split; [by apply list_elem_of_In|]. simpl. by left. }
    pose proof (forest_ok_bounds _ _ _ _ _ _ _ Hl Hr). lia. }
  set (n := cut l high) in *.
  rewrite insert_front.
  2:{ intros k c Hin. apply (proj2 (forest_ok_sorted _ _ _ _ Hd)) in Hin. lia. }
  set (new := mkCRM base e _).
  assert (Hnew: kids new = take n l) by (unfold new; by destruct n).
  assert (Hsplit: forest_ranges l = forest_ranges (take n l) ++ forest_ranges (drop n l)).
  { by rewrite <- forest_ranges_app, take_drop. }
  unfold store_result. cbn [fst snd kids cmap cbase centry]. split_and!; try done.
  - constructor; fold high; rewrite ?Hnew; auto; simpl; lia.
  - split; [|done]. intros _ b h e' Hin. rewrite Hsplit in Hin. apply elem_of_app in Hin as [Hin|Hin].
    + pose proof (forest_ok_bounds _ _ _ _ _ _ _ Ht Hin). lia.
    + pose proof (forest_ok_bounds _ _ _ _ _ _ _ Hd Hin). lia.
  - intros _. rewrite forest_ranges_cons, ranges_kids, Hnew, Hsplit. done.
Qed.
(** ** The whole operation *)

Lemma store_forest pb ph lo l b0 e0 base size e :
  forest_ok pb ph lo l -> fits w base -> fits w size -> 0 < size -> base + size - 1 < 2 ^ w ->
  pb <= lo -> lo <= base -> base + size - 1 <= ph -> ~ (base = pb /\ base + size - 1 = ph) ->
  store_result pb ph lo l base (base + size - 1) e b0 e0
    (StoreContained w (mkCRM b0 e0 (Some l)) base size e).
Proof.
  intros Hok Hb Hsz Hp Hv. revert b0 e0. set (high := base + size - 1) in *.
  induction Hok as [pb ph lo|pb ph lo k c l ? H1 H2 H3 H4 Hc IHc Hl IHl]; intros b0 e0 Hpl Hlo Hph Hnp.
  { apply store_around; try done; [apply forest_nil|lia|].
    intros k c Hx. by apply not_elem_of_nil in Hx. }
  assert (Hok: forest_ok pb ph lo ((k, c) :: l)) by (by constructor).
  destruct (decide (k < base)) as [Hk|Hk].
  - (* the child ends below the new range *)
    rewrite StoreContained_skip by done. cbv zeta.
    destruct (IHl b0 e0) as (? & ? & Hf & Hiff & Ht & Hff); [lia|lia|done|done|].
    unfold store_result. cbn [fst snd kids cmap cbase centry]. split_and!; try done.
    + by constructor.
    + rewrite Hiff, forest_ranges_cons, ranges_kids. split; intros Hn b h e' Hin.
      * rewrite elem_of_cons, elem_of_app in Hin. destruct Hin as [[= -> -> ->]|[Hin|Hin]].
        -- lia.
        -- pose proof (forest_ok_bounds _ _ _ _ _ _ _ Hc Hin). lia.
        -- by eapply Hn.
      * eapply (Hn b h e'). rewrite elem_of_cons, elem_of_app. auto.
    + intros Hr. rewrite !forest_ranges_cons, Ht by done. solve_Permutation.
    + intros Hr. by rewrite !forest_ranges_cons, Hff.
  - destruct (decide (cbase c <= base /\ high <= k)) as [[Hi1 Hi2]|Hni].
    2:{ apply store_around; try done; try lia.
        - intros k' c' Hin. apply elem_of_cons in Hin as [[= -> ->]|Hin]; [lia|].
          apply (proj2 (forest_ok_sorted _ _ _ _ Hl)) in Hin. lia.
        - intros k' c' [= <- <-]. done. }
    (* the child contains the new range *)
    rewrite StoreContained_inside by done. fold high. dif.
    + unfold store_result. cbn [fst snd kids cmap cbase centry]. split_and!; try done.
      split; [done|]. intros Hn. specialize (Hn (cbase c) k (centry c) ltac:(left)). lia.
    + rewrite StoreContained_kids by done. cbv zeta.
      assert (~ (base = cbase c /\ high = k)) by (destruct E0; breflect; lia).
      destruct (IHc (cbase c) (centry c)) as (Hcb & Hce & Hf & Hiff & Ht & Hff); [lia|lia|lia|done|].
      unfold store_result. cbn [fst snd kids cmap cbase centry]. split_and!; try done.
      * constructor; rewrite ?Hcb; auto.
      * rewrite Hiff, forest_ranges_cons, ranges_kids. split; intros Hn b h e' Hin.
        -- rewrite elem_of_cons, elem_of_app in Hin. destruct Hin as [[= -> -> ->]|[Hin|Hin]].
           ++ lia.
           ++ by eapply Hn.
           ++ pose proof (forest_ok_bounds _ _ _ _ _ _ _ Hl Hin). lia.
        -- eapply (Hn b h e'). rewrite elem_of_cons, elem_of_app. auto.
      * intros Hr. rewrite !forest_ranges_cons, !ranges_kids, Hcb, Hce, Ht by done. solve_Permutation.
      * intros Hr. by rewrite !forest_ranges_cons, !ranges_kids, Hcb, Hce, Hff.
Qed.

Lemma crm_ok_new e0 : crm_ok w (ContainedRangeMap_new e0).
Proof. constructor. Qed.

Lemma StoreContained_invalid c base size e :
  fits w base -> fits w size -> ~ (0 < size /\ base + size - 1 < 2 ^ w) ->
  StoreContained w c base size e = (false, c).
Proof.
  intros Hb Hsz Hv. destruct (contained_high base size Hb Hsz) as [Hc _].
  destruct c as [b0 e0 om]. simpl. destruct (_ || _) eqn:Ec; [done|]. exfalso. by apply Hv, Hc.
Qed.

(** What [StoreRange] promises on a well-formed tree. *)
Lemma StoreContained_spec m base size e :
  crm_ok w m -> fits w base -> fits w size ->
  let '(ok, m') := StoreContained w m base size e in
  crm_ok w m' /\
  (ok = true <-> 0 < size /\ base + size - 1 < 2 ^ w /\ nests (ranges m) base (base + size - 1)) /\
  (ok = true -> ranges m' ≡ₚ (base, base + size - 1, e) :: ranges m) /\
  (ok = false -> ranges m' = ranges m).
Proof.
  intros Hok Hb Hsz. destruct (decide (0 < size /\ base + size - 1 < 2 ^ w)) as [[Hp Hv]|Hv].
  - rewrite StoreContained_kids by done.
    pose proof (store_forest (-1) (2 ^ w - 1) 0 (kids m) (cbase m) (centry m) base size e) as Hst.
    unfold fits in *. destruct Hst as (_ & _ & Hf & Hiff & Ht & Hff); try done; try lia.
    destruct (StoreContained w _ base size e) as [ok m']. cbn [fst snd] in *.
    rewrite !ranges_kids. split_and!; [done| |done|done]. rewrite Hiff. tauto.
  - rewrite StoreContained_invalid by done. split_and!; try done. split; [done|tauto].
Qed.

Lemma RetrieveContained_spec m a :
  crm_ok w m ->
  match RetrieveContained m a with
  | Some e => innermost (ranges m) a e
  | None => forall b h e, (b, h, e) ∈ ranges m -> ~ (b <= a <= h)
  end.
Proof.
  intros Hok. rewrite RetrieveContained_kids, ranges_kids. by eapply retrieve_forest.
Qed.
End proofs.

(** ** Properties *)
Section properties.
Context {E : Type} (w : Z) (Hw : 0 < w).
Implicit Types (m : ContainedRangeMap E) (e : E).

(** The trees that calls on a new root can build. *)
Inductive crm_step : ContainedRangeMap E -> ContainedRangeMap E -> Prop :=
| crm_step_store m base size e :
    fits w base -> fits w size -> crm_step m (StoreContained w m base size e).2
| crm_step_clear m : crm_step m (ClearContained m).

Definition crm_reachable m : Prop := exists e0, rtc crm_step (ContainedRangeMap_new e0) m.

Lemma crm_reachable_ok m : crm_reachable m -> crm_ok w m.
Proof.
  intros [e0 Hr]. pose proof (crm_ok_new w e0) as Hok. revert Hok Hr.
  generalize (ContainedRangeMap_new e0). intros m0 Hok Hr.
  induction Hr as [|m1 m2 m3 Hs _ IH]; [done|]. apply IH. destruct Hs as [m1 base size e Hb Hsz|m1].
  - pose proof (StoreContained_spec w Hw m1 base size e Hok Hb Hsz) as Hst.
    destruct (StoreContained w m1 base size e) as [ok m']. apply Hst.
  - constructor.
Qed.

(** C18: [StoreRange] on a reachable tree accepts a range exactly when it is
    non-empty, does not pass the end of the address space and is disjoint
    from, strictly inside or strictly around every stored range; it then adds
    exactly this range, wherever in the tree it goes and whichever children it
    takes over, and otherwise it loses nothing. *)
Theorem contained_range_map_store m base size e :
  crm_reachable m -> fits w base -> fits w size ->
  let '(ok, m') := StoreContained w m base size e in
  (ok = true <-> 0 < size /\ base + size - 1 < 2 ^ w /\ nests (ranges m) base (base + size - 1)) /\
  (ok = true -> ranges m' ≡ₚ (base, base + size - 1, e) :: ranges m) /\
  (ok = false -> ranges m' = ranges m).
Proof.
  intros Hr Hb Hsz. pose proof (StoreContained_spec w Hw m base size e (crm_reachable_ok m Hr) Hb Hsz) as H.
  destruct (StoreContained w m base size e) as [ok m']. tauto.
Qed.

(** [RetrieveRange] on a reachable tree answers with the entry of the
    smallest stored range that contains the address, and fails exactly when no
    stored range contains it. *)
Lemma contained_range_map_retrieve m a :
  crm_reachable m ->
  match RetrieveContained m a with
  | Some e => innermost (ranges m) a e
  | None => forall b h e, (b, h, e) ∈ ranges m -> ~ (b <= a <= h)
  end.
Proof. intros Hr. eapply RetrieveContained_spec. by apply crm_reachable_ok. Qed.
End properties.

(** [10, 29] with [12, 15] inside; the range [0, 99] is stored around both. *)
Definition demo_tree : ContainedRangeMap nat :=
  (StoreContained 64 (StoreContained 64 (ContainedRangeMap_new 0%nat) 10 20 1%nat).2 12 4 2%nat).2.

Lemma demo_tree_reachable : crm_reachable 64 demo_tree.
Proof.
  exists 0%nat. eapply rtc_l; [apply (crm_step_store 64 _ 10 20 1%nat); done|].
  eapply rtc_l; [apply (crm_step_store 64 _ 12 4 2%nat); done|]. apply rtc_refl.
Defined.

Lemma contained_range_map_store_witness :
  let '(ok, m') := StoreContained 64 demo_tree 0 100 3%nat in
  ok = true /\ ranges m' ≡ₚ [(0, 99, 3%nat); (10, 29, 1%nat); (12, 15, 2%nat)].
Proof.
  pose proof (contained_range_map_store 64 eq_refl demo_tree 0 100 3%nat demo_tree_reachable
    ltac:(done) ltac:(done)) as H.
  assert (Hk: (StoreContained 64 demo_tree 0 100 3%nat).1 = true) by (vm_compute; reflexivity).
  destruct (StoreContained 64 demo_tree 0 100 3%nat) as [ok m']. simpl in Hk.
  destruct H as (_ & H & _). split; [exact Hk | exact (H Hk)].
Defined.

Lemma contained_range_map_retrieve_witness :
  RetrieveContained demo_tree 13 = Some 2%nat /\ innermost (ranges demo_tree) 13 2%nat.
Proof.
  pose proof (contained_range_map_retrieve 64 eq_refl demo_tree 13 demo_tree_reachable) as H.
  split; [vm_compute; reflexivity|].
  replace (RetrieveContained demo_tree 13) with (Some 2%nat) in H by (vm_compute; reflexivity). exact H.
Defined.
