(* ===== verification/Memory.v ===== *)
(** Byte memory: a buffer as a list of bytes, little-endian reads and writes
    at an offset.  This is what the code's [reinterpret_cast] loads and stores
    are on the little-endian hosts the serialised symbol format is used on.
    A read past the end of the buffer, undefined in the code, yields zeros
    here; the theorems that use it establish that the bytes are there. *)
From stdpp Require Import list.
From S2P Require Import Prelude.

Definition byte_ok (b : Z) : Prop := fits 8 b.

(** The [n] low bytes of [z], least significant first. *)
Fixpoint le_bytes (n : nat) (z : Z) : list Z :=
  match n with
  | O => []
  | S n' => z mod 256 :: le_bytes n' (z / 256)
  end.

(** The value of a little-endian byte sequence. *)
Fixpoint le_val (bs : list Z) : Z :=
  match bs with
  | [] => 0
  | b :: bs' => b + 256 * le_val bs'
  end.

Definition slice (mem : list Z) (off : Z) (n : nat) : list Z :=
  take n (drop (Z.to_nat off) mem).

Definition read_le (mem : list Z) (off : Z) (n : nat) : Z := le_val (slice mem off n).
Definition read_u32 (mem : list Z) (off : Z) : Z := read_le mem off 4.
Definition read_s32 (mem : list Z) (off : Z) : Z := swrap 32 (read_le mem off 4).
Definition read_u64 (mem : list Z) (off : Z) : Z := read_le mem off 8.

(** Overwrite [bs] at [off]. *)
Definition write_bytes (mem : list Z) (off : Z) (bs : list Z) : list Z :=
  take (Z.to_nat off) mem ++ bs ++ drop (Z.to_nat off + length bs) mem.

(** [mem] holds the bytes [bs] at [off]. *)
Definition holds (mem : list Z) (off : Z) (bs : list Z) : Prop :=
  0 <= off /\ slice mem off (length bs) = bs.

Lemma length_le_bytes n z : length (le_bytes n z) = n.
Proof. revert z. induction n; simpl; auto. Qed.

Lemma le_val_bytes n z : le_val (le_bytes n z) = z mod 2 ^ (8 * Z.of_nat n).
Proof.
  revert z. induction n as [|n IH]; intros z; [by rewrite Z.mod_1_r|].
  cbn [le_bytes le_val]. rewrite IH.
  replace (8 * Z.of_nat (S n)) with (8 + 8 * Z.of_nat n) by lia.
  rewrite Z.pow_add_r by lia. change (2 ^ 8) with 256.
  rewrite Z.rem_mul_r; [lia|lia|]. apply pow2_pos. lia.
Qed.

Lemma le_val_fits n z : fits (8 * Z.of_nat n) z -> le_val (le_bytes n z) = z.
Proof. intros. rewrite le_val_bytes. by apply Z.mod_small. Qed.

Lemma le_bytes_ok n z : Forall byte_ok (le_bytes n z).
Proof.
  revert z. induction n as [|n IH]; intros z; simpl; constructor; [|done].
  unfold byte_ok, fits. change (2 ^ 8) with 256. apply Z.mod_pos_bound. lia.
Qed.

Lemma le_val_range bs : Forall byte_ok bs -> 0 <= le_val bs < 2 ^ (8 * Z.of_nat (length bs)).
Proof.
  induction 1 as [|b bs Hb _ IH]; [done|]. cbn [le_val length].
  replace (8 * Z.of_nat (S (length bs))) with (8 + 8 * Z.of_nat (length bs)) by lia.
  rewrite Z.pow_add_r by lia. unfold byte_ok, fits in Hb. change (2 ^ 8) with 256 in *. nia.
Qed.

Lemma length_slice mem off n :
  0 <= off -> off + Z.of_nat n <= Z.of_nat (length mem) -> length (slice mem off n) = n.
Proof. intros. unfold slice. rewrite length_take, length_drop. lia. Qed.

(** ** [holds] *)

Lemma holds_here a bs c : holds (a ++ bs ++ c) (Z.of_nat (length a)) bs.
Proof.
  split; [lia|]. unfold slice. rewrite Nat2Z.id, drop_app_length, take_app_length. done.
Qed.

Lemma holds_app mem off x y :
  holds mem off (x ++ y) <-> holds mem off x /\ holds mem (off + Z.of_nat (length x)) y.
Proof.
  unfold holds, slice. rewrite length_app. split.
  - intros [H0 H]. set (d := drop (Z.to_nat off) mem) in *.
    assert (Hx: take (length x) d = x).
    { apply (f_equal (take (length x))) in H. rewrite take_take, take_app_length in H.
      by replace (length x `min` (length x + length y))%nat with (length x) in H by lia. }
    split; [done|]. split; [lia|].
    replace (Z.to_nat (off + Z.of_nat (length x))) with (Z.to_nat off + length x)%nat by lia.
    rewrite <- drop_drop. fold d.
    apply (f_equal (drop (length x))) in H. rewrite drop_app_length in H.
    rewrite <- H at 2. rewrite skipn_firstn_comm. f_equal. lia.
  - intros [[H0 H1] [_ H2]]. split; [done|]. set (d := drop (Z.to_nat off) mem) in *.
    replace (Z.to_nat (off + Z.of_nat (length x))) with (Z.to_nat off + length x)%nat in H2 by lia.
    rewrite <- drop_drop in H2. fold d in H2.
    rewrite <- (take_drop (length x) d) at 1. rewrite H1. rewrite take_app.
    rewrite take_ge by lia. f_equal. by replace (length x + length y - length x)%nat with (length y) by lia.
Qed.

Lemma holds_read_wrap mem off n z : holds mem off (le_bytes n z) -> read_le mem off n = wrap (8 * Z.of_nat n) z.
Proof. intros [_ H]. unfold read_le. rewrite length_le_bytes in H. rewrite H. apply le_val_bytes. Qed.

Lemma holds_read mem off n z :
  holds mem off (le_bytes n z) -> fits (8 * Z.of_nat n) z -> read_le mem off n = z.
Proof.
  intros [_ H] Hf. unfold read_le. rewrite length_le_bytes in H. rewrite H. by apply le_val_fits.
Qed.

Lemma holds_lookup mem off bs i b :
  holds mem off bs -> bs !! i = Some b -> mem !! (Z.to_nat off + i)%nat = Some b.
Proof.
  unfold holds, slice. intros [H0 H] Hb. rewrite <- H in Hb.
  pose proof (lookup_lt_Some _ _ _ Hb) as Hlt. rewrite length_take in Hlt.
  rewrite lookup_take_lt in Hb by lia. by rewrite lookup_drop in Hb.
Qed.

(** Writing the bytes in place of a segment of the same length. *)
Lemma write_bytes_app a x c bs :
  length x = length bs -> write_bytes (a ++ x ++ c) (Z.of_nat (length a)) bs = a ++ bs ++ c.
Proof.
  intros Hl. unfold write_bytes. rewrite Nat2Z.id, take_app_length. f_equal. f_equal.
  rewrite <- Hl. rewrite <- drop_drop. by rewrite !drop_app_length.
Qed.

Lemma length_write_bytes mem off bs :
  0 <= off -> off + Z.of_nat (length bs) <= Z.of_nat (length mem) ->
  length (write_bytes mem off bs) = length mem.
Proof. intros. unfold write_bytes. rewrite !length_app, length_take, length_drop. lia. Qed.

Arguments le_bytes : simpl never.
Arguments le_val : simpl never.

(** ** Bit fields *)

(** Bits placed above [k] do not meet a value below [2 ^ k]. *)
Lemma lor_disjoint k a b : 0 <= k -> 0 <= a < 2 ^ k -> Z.lor a (b * 2 ^ k) = a + b * 2 ^ k.
Proof.
  intros Hk Ha. symmetry. apply Z.add_nocarry_lor. apply Z.bits_inj'. intros i Hi.
  rewrite Z.land_spec, Z.bits_0. destruct (Z_lt_ge_dec i k).
  - rewrite Z.mul_pow2_bits_low by lia. apply andb_false_r.
  - rewrite <- (Z.mod_small a (2 ^ k)) by lia. by rewrite Z.mod_pow2_bits_high by lia.
Qed.

(** Masking with [m] ones at bit [k] extracts a field in place. *)
Lemma land_field x k m :
  0 <= k -> 0 <= m -> Z.land x (Z.ones m * 2 ^ k) = (x / 2 ^ k) mod 2 ^ m * 2 ^ k.
Proof.
  intros Hk Hm. rewrite <- Z.land_ones by lia. rewrite <- Z.shiftr_div_pow2 by lia.
  rewrite <- !Z.shiftl_mul_pow2 by lia. rewrite Z.shiftl_land. apply Z.bits_inj'. intros i Hi.
  rewrite !Z.land_spec, !Z.shiftl_spec by lia. destruct (Z_lt_ge_dec i k).
  - rewrite (Z.testbit_neg_r (Z.ones m)) by lia. by rewrite !andb_false_r.
  - rewrite Z.shiftr_spec by lia. by replace (i - k + k) with i by lia.
Qed.

Lemma le_bytes_app a b v : le_bytes (a + b) v = le_bytes a v ++ le_bytes b (v / 2 ^ (8 * Z.of_nat a)).
Proof.
  revert v. induction a as [|a IH]; intros v.
  - simpl. by rewrite Z.div_1_r.
  - change (le_bytes (S a + b) v) with (v mod 256 :: le_bytes (a + b) (v / 256)).
    change (le_bytes (S a) v) with (v mod 256 :: le_bytes a (v / 256)). rewrite IH. cbn [app].
    do 3 f_equal. rewrite Z.div_div by (try lia; apply pow2_pos; lia).
    replace (8 * Z.of_nat (S a)) with (8 + 8 * Z.of_nat a) by lia. by rewrite Z.pow_add_r by lia.
Qed.

Lemma le_val_app a b : le_val (a ++ b) = le_val a + 2 ^ (8 * Z.of_nat (length a)) * le_val b.
Proof.
  induction a as [|x a IH]; [change (le_val []) with 0; simpl; lia|].
  change (le_val ((x :: a) ++ b)) with (x + 256 * le_val (a ++ b)).
  change (le_val (x :: a)) with (x + 256 * le_val a). rewrite IH. simpl length.
  replace (8 * Z.of_nat (S (length a))) with (8 + 8 * Z.of_nat (length a)) by lia.
  rewrite Z.pow_add_r by lia. change (2 ^ 8) with 256. lia.
Qed.

Lemma le_bytes_val bs : Forall byte_ok bs -> le_bytes (length bs) (le_val bs) = bs.
Proof.
  induction 1 as [|b bs Hb _ IH]; [done|]. simpl length.
  change (le_val (b :: bs)) with (b + 256 * le_val bs).
  change (le_bytes (S (length bs)) (b + 256 * le_val bs))
    with ((b + 256 * le_val bs) mod 256 :: le_bytes (length bs) ((b + 256 * le_val bs) / 256)).
  unfold byte_ok, fits in Hb. change (2 ^ 8) with 256 in Hb.
  replace (b + 256 * le_val bs) with (b + le_val bs * 256) by lia.
  rewrite Z.mod_add, Z.mod_small by lia. rewrite Z.div_add, Z.div_small by lia. rewrite Z.add_0_l, IH. done.
Qed.

Lemma slice_bytes_ok mem off n : Forall byte_ok mem -> Forall byte_ok (slice mem off n).
Proof. intros. by apply Forall_take, Forall_drop. Qed.

Lemma read_le_fits mem off n :
  Forall byte_ok mem -> 0 <= off -> off + Z.of_nat n <= Z.of_nat (length mem) ->
  fits (8 * Z.of_nat n) (read_le mem off n).
Proof.
  intros Hm Ho Hl. unfold read_le, fits.
  rewrite <- (length_slice mem off n Ho Hl) at 3. by apply le_val_range, slice_bytes_ok.
Qed.
