(* ===== verification/StaticMap.v ===== *)
(** processor/static_map.h, static_map-inl.h, static_map_iterator-inl.h:
    [StaticMap], the read-only map laid out in a block of bytes: a node count,
    the offsets of the values, the keys, the values.  A [Key] is [ksize] bytes
    and [dec] gives the key that a raw little-endian value stands for.
    Pointers are offsets into the buffer [mem]; a null pointer is [None]. *)
From stdpp Require Import sorting sets list.
From S2P Require Import Prelude StdMap Memory.

Section static_map.
Context (ksize : nat) (dec : Z -> Z) (mem : list Z).

(** [offsets_] and [keys_] are the addresses computed by the constructor. *)
Record StaticMap := mkStaticMap
  { raw_data_ : option Z; num_nodes_ : Z; offsets_ : Z; keys_ : Z }.

Definition StaticMap_default : StaticMap := mkStaticMap None 0 0 0.

(** [StaticMap(raw_data)]. *)
Definition StaticMap_at (raw : Z) : StaticMap :=
  let n := swrap 32 (read_u32 mem raw) in
  mkStaticMap (Some raw) n (raw + 4) (raw + (1 + n) * 4).

Definition empty (sm : StaticMap) : bool := num_nodes_ sm =? 0.
Definition size (sm : StaticMap) : Z := wrap 32 (num_nodes_ sm).

(** [offsets_[i]] and [keys_[i]]. *)
Definition offset_at (offsets i : Z) : Z := read_u32 mem (offsets + 4 * i).
Definition key_at (keys i : Z) : Z := dec (read_le mem (keys + Z.of_nat ksize * i) ksize).

(** [DefaultCompare]. *)
Definition compare_ (k1 k2 : Z) : Z := if k1 <? k2 then -1 else if k1 =? k2 then 0 else 1.

Definition GetKeyAtIndex (sm : StaticMap) (index : Z) : Z :=
  if (index <? 0) || (num_nodes_ sm <=? index) then 0 else key_at (keys_ sm) index.

(** ** Binary search: the three loops, as positions for [IteratorAtIndex] *)

Fixpoint find_loop (fuel : nat) (sm : StaticMap) (key begin end_ : Z) : option Z :=
  match fuel with
  | O => None
  | S fuel =>
      if begin <? end_ then
        let middle := begin + Z.quot (end_ - begin) 2 in
        let compare_result := compare_ key (GetKeyAtIndex sm middle) in
        if compare_result =? 0 then Some middle
        else if compare_result <? 0 then find_loop fuel sm key begin middle
        else find_loop fuel sm key (middle + 1) end_
      else Some (num_nodes_ sm)
  end.

Fixpoint lower_bound_loop (fuel : nat) (sm : StaticMap) (key begin end_ : Z) : option Z :=
  match fuel with
  | O => None
  | S fuel =>
      if begin <? end_ then
        let middle := begin + Z.quot (end_ - begin) 2 in
        let comp_result := compare_ key (GetKeyAtIndex sm middle) in
        if comp_result =? 0 then Some middle
        else if comp_result <? 0 then lower_bound_loop fuel sm key begin middle
        else lower_bound_loop fuel sm key (middle + 1) end_
      else Some begin
  end.

Fixpoint upper_bound_loop (fuel : nat) (sm : StaticMap) (key begin end_ : Z) : option Z :=
  match fuel with
  | O => None
  | S fuel =>
      if begin <? end_ then
        let middle := begin + Z.quot (end_ - begin) 2 in
        let compare_result := compare_ key (GetKeyAtIndex sm middle) in
        if compare_result =? 0 then Some (middle + 1)
        else if compare_result <? 0 then upper_bound_loop fuel sm key begin middle
        else upper_bound_loop fuel sm key (middle + 1) end_
      else Some begin
  end.

(** The interval shrinks at every turn. *)
Definition search_fuel (sm : StaticMap) : nat := S (Z.to_nat (num_nodes_ sm)).

Definition sm_find (sm : StaticMap) (k : Z) : option Z :=
  find_loop (search_fuel sm) sm k 0 (num_nodes_ sm).
Definition sm_lower_bound (sm : StaticMap) (k : Z) : option Z :=
  lower_bound_loop (search_fuel sm) sm k 0 (num_nodes_ sm).
Definition sm_upper_bound (sm : StaticMap) (k : Z) : option Z :=
  upper_bound_loop (search_fuel sm) sm k 0 (num_nodes_ sm).

(** The body of the loop of [ValidateInMemoryStructure]. *)
Definition node_increasing (sm : StaticMap) (node_index : Z) : bool :=
  if offset_at (offsets_ sm) node_index <=? offset_at (offsets_ sm) (node_index - 1) then false
  else if compare_ (GetKeyAtIndex sm node_index) (GetKeyAtIndex sm (node_index - 1)) <=? 0 then false
  else true.

Definition ValidateInMemoryStructure (sm : StaticMap) : bool :=
  match raw_data_ sm with
  | None => false
  | Some raw =>
      let num_nodes := read_s32 mem raw in
      if num_nodes <? 0 then false
      else
        let first_offset :=
          wrap 64 (4 * (num_nodes_ sm + 1) + Z.of_nat ksize * num_nodes_ sm) in
        let header_ok :=
          if negb (num_nodes_ sm =? 0) then
            if 4294967295 <? first_offset then false
            else offset_at (offsets_ sm) 0 =? wrap 32 first_offset
          else true in
        header_ok &&
        forallb (node_increasing sm) (map Z.of_nat (seq 1 (Z.to_nat (num_nodes_ sm) - 1)))
  end.

(** ** Iterators *)

Record StaticMapIterator := mkIterator
  { it_index : Z; it_base : option Z; it_num_nodes : Z; it_offsets : Z; it_keys : Z }.

Definition StaticMapIterator_default : StaticMapIterator := mkIterator (-1) None 0 0 0.

(** [StaticMapIterator(base, index)]. *)
Definition StaticMapIterator_at (base index : Z) : StaticMapIterator :=
  let n := read_s32 mem base in
  mkIterator index (Some base) n (base + 4) (base + (1 + n) * 4).

Definition IsValid (it : StaticMapIterator) : bool :=
  match it_base it with
  | None => false
  | Some _ => negb ((it_index it <? 0) || (it_num_nodes it <? it_index it))
  end.

Definition set_index (it : StaticMapIterator) (i : Z) : StaticMapIterator :=
  mkIterator i (it_base it) (it_num_nodes it) (it_offsets it) (it_keys it).

(** [++it] and [--it]. *)
Definition increment (it : StaticMapIterator) : StaticMapIterator :=
  if negb (IsValid it) then it
  else set_index it (if it_num_nodes it <? it_index it + 1 then it_num_nodes it else it_index it + 1).

Definition decrement (it : StaticMapIterator) : StaticMapIterator :=
  if negb (IsValid it) then it
  else set_index it (if it_index it - 1 <? 0 then 0 else it_index it - 1).

(** [it++] and [it--]: the value of the expression and the new iterator. *)
Definition post_increment (it : StaticMapIterator) : StaticMapIterator * StaticMapIterator :=
  (it, increment it).
Definition post_decrement (it : StaticMapIterator) : StaticMapIterator * StaticMapIterator :=
  (it, decrement it).

(** The addresses returned, [None] for [NULL]. *)
Definition GetKeyPtr (it : StaticMapIterator) : option Z :=
  if negb (IsValid it) then None else Some (it_keys it + Z.of_nat ksize * it_index it).

Definition GetValueRawPtr (it : StaticMapIterator) : option Z :=
  if negb (IsValid it) then None
  else b ← it_base it; Some (b + offset_at (it_offsets it) (it_index it)).

Definition GetKey (it : StaticMapIterator) : option Z :=
  p ← GetKeyPtr it; Some (dec (read_le mem p ksize)).

Definition iterator_eq (x y : StaticMapIterator) : bool :=
  bool_decide (it_base x = it_base y) && (it_index x =? it_index y).

(** [IteratorAtIndex]: an iterator into the raw data of the map. *)
Definition IteratorAtIndex (sm : StaticMap) (index : Z) : option StaticMapIterator :=
  raw ← raw_data_ sm; Some (StaticMapIterator_at raw index).
End static_map.

(** ** The map that the bytes of a [StaticMap] describe *)
Section view.
Context (ksize : nat) (dec : Z -> Z) (mem : list Z).

(** The keys with the addresses of their values. *)
Definition nodes (sm : StaticMap) : smap Z :=
  map (λ i, (key_at ksize dec mem (keys_ sm) (Z.of_nat i),
             default 0 (raw_data_ sm) + offset_at mem (offsets_ sm) (Z.of_nat i)))
      (seq 0 (Z.to_nat (num_nodes_ sm))).

(** A non-negative node count and strictly increasing keys. *)
Definition keys_sorted (sm : StaticMap) : Prop := 0 <= num_nodes_ sm /\ sorted (nodes sm).
End view.

Section proofs.
Context (ksize : nat) (dec : Z -> Z) (mem : list Z).
Implicit Types (sm : StaticMap).
Notation key sm i := (GetKeyAtIndex ksize dec mem sm i).

Lemma length_nodes sm : length (nodes ksize dec mem sm) = Z.to_nat (num_nodes_ sm).
Proof. unfold nodes. by rewrite length_map, length_seq. Qed.

Lemma nodes_lookup sm i :
  0 <= i < num_nodes_ sm ->
  nodes ksize dec mem sm !! Z.to_nat i =
  Some (key sm i, default 0 (raw_data_ sm) + offset_at mem (offsets_ sm) i).
Proof.
  intros Hi. unfold nodes. rewrite list_lookup_fmap, lookup_seq_lt by lia. simpl.
  rewrite !Z2Nat.id by lia. unfold GetKeyAtIndex.
  by rewrite (proj2 (Z.ltb_ge _ _)), (proj2 (Z.leb_gt _ _)) by lia.
Qed.

Lemma sorted_lookup {V} (m : smap V) i j ki vi kj vj :
  sorted m -> m !! i = Some (ki, vi) -> m !! j = Some (kj, vj) -> (i < j)%nat -> ki < kj.
Proof.
  intros Hs Hi Hj Hij. rewrite <- (take_drop (S i) m) in Hs. apply sorted_app in Hs as (_ & _ & Hc).
  eapply (Hc ki vi kj vj).
  - apply (list_elem_of_lookup_2 _ i). rewrite lookup_take_lt by lia. done.
  - apply (list_elem_of_lookup_2 _ (j - S i)). rewrite lookup_drop. rewrite <- Hj. f_equal. lia.
Qed.

Lemma keys_increasing sm i j :
  keys_sorted ksize dec mem sm -> 0 <= i < j -> j < num_nodes_ sm -> key sm i < key sm j.
Proof.
  intros [Hn Hs] Hi Hj.
  eapply (sorted_lookup _ (Z.to_nat i) (Z.to_nat j) _ _ _ _ Hs); [apply nodes_lookup; lia..|lia].
Qed.

(** A position that separates the smaller keys from the others is the lower
    bound of the described map. *)
Lemma lower_bound_position {V} (m : smap V) k (i : nat) :
  (i <= length m)%nat ->
  (forall j kj vj, (j < i)%nat -> m !! j = Some (kj, vj) -> kj < k) ->
  (forall j kj vj, (i <= j)%nat -> m !! j = Some (kj, vj) -> k <= kj) ->
  lower_bound m k = i.
Proof.
  revert i. induction m as [|[k0 v0] m IH]; intros i Hi H1 H2; simpl in *; [lia|].
  destruct i as [|i].
  - pose proof (H2 0%nat k0 v0 ltac:(lia) eq_refl). by rewrite (proj2 (Z.ltb_ge _ _)) by lia.
  - pose proof (H1 0%nat k0 v0 ltac:(lia) eq_refl). rewrite (proj2 (Z.ltb_lt _ _)) by lia.
    f_equal. apply IH; [lia|..].
    + intros j kj vj Hj Hl. by apply (H1 (S j) kj vj ltac:(lia)).
    + intros j kj vj Hj Hl. by apply (H2 (S j) kj vj ltac:(lia)).
Qed.

Lemma upper_bound_position {V} (m : smap V) k (i : nat) :
  (i <= length m)%nat ->
  (forall j kj vj, (j < i)%nat -> m !! j = Some (kj, vj) -> kj <= k) ->
  (forall j kj vj, (i <= j)%nat -> m !! j = Some (kj, vj) -> k < kj) ->
  upper_bound m k = i.
Proof.
  revert i. induction m as [|[k0 v0] m IH]; intros i Hi H1 H2; simpl in *; [lia|].
  destruct i as [|i].
  - pose proof (H2 0%nat k0 v0 ltac:(lia) eq_refl). by rewrite (proj2 (Z.leb_gt _ _)) by lia.
  - pose proof (H1 0%nat k0 v0 ltac:(lia) eq_refl). rewrite (proj2 (Z.leb_le _ _)) by lia.
    f_equal. apply IH; [lia|..].
    + intros j kj vj Hj Hl. by apply (H1 (S j) kj vj ltac:(lia)).
    + intros j kj vj Hj Hl. by apply (H2 (S j) kj vj ltac:(lia)).
Qed.

Lemma nodes_lookup_inv sm j kj vj :
  nodes ksize dec mem sm !! j = Some (kj, vj) -> 0 <= Z.of_nat j < num_nodes_ sm /\ kj = key sm (Z.of_nat j).
Proof.
  intros Hl. pose proof (lookup_lt_Some _ _ _ Hl) as Hlt. rewrite length_nodes in Hlt.
  split; [lia|]. rewrite <- (Nat2Z.id j), nodes_lookup in Hl by lia. by simplify_eq.
Qed.

Lemma key_le_mono sm i j :
  keys_sorted ksize dec mem sm -> 0 <= i <= j -> j < num_nodes_ sm -> key sm i <= key sm j.
Proof.
  intros Hs ? ?. destruct (decide (i = j)) as [->|]; [lia|].
  pose proof (keys_increasing sm i j Hs ltac:(lia) ltac:(lia)). lia.
Qed.

(** The comparison the three loops make. *)
Lemma compare_spec k1 k2 :
  (compare_ k1 k2 = 0 /\ k1 = k2) \/ (compare_ k1 k2 = -1 /\ k1 < k2) \/ (compare_ k1 k2 = 1 /\ k2 < k1).
Proof. unfold compare_. repeat dif; lia. Qed.

Lemma middle_bounds b e : b < e -> b <= b + Z.quot (e - b) 2 < e.
Proof. intros. rewrite Z.quot_div_nonneg by lia. pose proof (Z.div_lt (e - b) 2 ltac:(lia) ltac:(lia)).
  pose proof (Z.div_pos (e - b) 2 ltac:(lia) ltac:(lia)). lia. Qed.

(** The invariant of the loops: keys left of [begin] are smaller, keys from
    [end] on are greater. *)
Definition search_inv sm (k b e : Z) : Prop :=
  0 <= b <= e /\ e <= num_nodes_ sm /\
  (forall j, 0 <= j < b -> key sm j < k) /\ (forall j, e <= j < num_nodes_ sm -> k < key sm j).

Lemma search_inv_step sm k b e :
  keys_sorted ksize dec mem sm -> search_inv sm k b e -> b < e ->
  let mid := b + Z.quot (e - b) 2 in
  b <= mid < e /\
  (k < key sm mid -> search_inv sm k b mid) /\ (key sm mid < k -> search_inv sm k (mid + 1) e).
Proof.
  intros Hs (H1 & H2 & H3 & H4) Hlt mid. pose proof (middle_bounds b e Hlt) as H. change (b + Z.quot (e - b) 2) with mid in H.
  split; [done|]. split; intros Hk; unfold search_inv; split_and!; try lia; auto.
  - intros j Hj. pose proof (key_le_mono sm mid j Hs ltac:(lia) ltac:(lia)). lia.
  - intros j Hj. pose proof (key_le_mono sm j mid Hs ltac:(lia) ltac:(lia)). lia.
Qed.

(** What the loops return when the key is, or is not, in the map. *)
Lemma lower_bound_loop_spec sm k fuel : forall b e,
  keys_sorted ksize dec mem sm -> search_inv sm k b e -> (Z.to_nat (e - b) < fuel)%nat ->
  exists i, lower_bound_loop ksize dec mem fuel sm k b e = Some i /\ 0 <= i <= num_nodes_ sm /\
    (forall j, 0 <= j < i -> key sm j < k) /\ (forall j, i <= j < num_nodes_ sm -> k <= key sm j).
Proof.
  induction fuel as [|fuel IH]; intros b e Hs Hinv Hf; [lia|]. simpl.
  dif.
  - destruct (search_inv_step sm k b e Hs Hinv E) as (Hm & Hl & Hr).
    set (mid := b + Z.quot (e - b) 2) in *. destruct Hinv as (H1 & H2 & H3 & H4).
    destruct (compare_spec k (key sm mid)) as [[-> Hk]|[[-> Hk]|[-> Hk]]]; simpl.
    + exists mid. split_and!; [done|lia|lia| |].
      * intros j Hj. pose proof (keys_increasing sm j mid Hs ltac:(lia) ltac:(lia)). lia.
      * intros j Hj. pose proof (key_le_mono sm mid j Hs ltac:(lia) ltac:(lia)). lia.
    + apply IH; [done|by apply Hl|lia].
    + apply IH; [done|by apply Hr|lia].
  - destruct Hinv as (H1 & H2 & H3 & H4). assert (b = e) as -> by lia.
    exists e. split_and!; [done|lia|lia|done|]. intros j Hj. specialize (H4 j Hj). lia.
Qed.

Lemma upper_bound_loop_spec sm k fuel : forall b e,
  keys_sorted ksize dec mem sm -> search_inv sm k b e -> (Z.to_nat (e - b) < fuel)%nat ->
  exists i, upper_bound_loop ksize dec mem fuel sm k b e = Some i /\ 0 <= i <= num_nodes_ sm /\
    (forall j, 0 <= j < i -> key sm j <= k) /\ (forall j, i <= j < num_nodes_ sm -> k < key sm j).
Proof.
  induction fuel as [|fuel IH]; intros b e Hs Hinv Hf; [lia|]. simpl.
  dif.
  - destruct (search_inv_step sm k b e Hs Hinv E) as (Hm & Hl & Hr).
    set (mid := b + Z.quot (e - b) 2) in *. destruct Hinv as (H1 & H2 & H3 & H4).
    destruct (compare_spec k (key sm mid)) as [[-> Hk]|[[-> Hk]|[-> Hk]]]; simpl.
    + exists (mid + 1). split_and!; [done|lia|lia| |].
      * intros j Hj. pose proof (key_le_mono sm j mid Hs ltac:(lia) ltac:(lia)). lia.
      * intros j Hj. pose proof (keys_increasing sm mid j Hs ltac:(lia) ltac:(lia)). lia.
    + apply IH; [done|by apply Hl|lia].
    + apply IH; [done|by apply Hr|lia].
  - destruct Hinv as (H1 & H2 & H3 & H4). assert (b = e) as -> by lia.
    exists e. split_and!; [done|lia|lia| |done]. intros j Hj. specialize (H3 j Hj). lia.
Qed.

Lemma find_loop_spec sm k fuel : forall b e,
  keys_sorted ksize dec mem sm -> search_inv sm k b e -> (Z.to_nat (e - b) < fuel)%nat ->
  exists i, find_loop ksize dec mem fuel sm k b e = Some i /\
    ((0 <= i < num_nodes_ sm /\ key sm i = k) \/
     (i = num_nodes_ sm /\ forall j, 0 <= j < num_nodes_ sm -> key sm j <> k)).
Proof.
  induction fuel as [|fuel IH]; intros b e Hs Hinv Hf; [lia|]. simpl.
  dif.
  - destruct (search_inv_step sm k b e Hs Hinv E) as (Hm & Hl & Hr).
    set (mid := b + Z.quot (e - b) 2) in *. destruct Hinv as (H1 & H2 & H3 & H4).
    destruct (compare_spec k (key sm mid)) as [[-> Hk]|[[-> Hk]|[-> Hk]]]; simpl.
    + exists mid. split; [done|]. left. split; [lia|done].
    + apply IH; [done|by apply Hl|lia].
    + apply IH; [done|by apply Hr|lia].
  - destruct Hinv as (H1 & H2 & H3 & H4). assert (b = e) as -> by lia.
    exists (num_nodes_ sm). split; [done|]. right. split; [done|]. intros j Hj Hk.
    destruct (decide (j < e)); [pose proof (H3 j ltac:(lia))|pose proof (H4 j ltac:(lia))]; lia.
Qed.

Lemma search_inv_start sm k : 0 <= num_nodes_ sm -> search_inv sm k 0 (num_nodes_ sm).
Proof. intros. unfold search_inv. split_and!; lia. Qed.

(** The searches compute the iterators of the described [std::map]. *)
Lemma sm_lower_bound_map sm k :
  keys_sorted ksize dec mem sm ->
  sm_lower_bound ksize dec mem sm k = Some (Z.of_nat (lower_bound (nodes ksize dec mem sm) k)).
Proof.
  intros Hs. unfold sm_lower_bound, search_fuel.
  destruct (lower_bound_loop_spec sm k (S (Z.to_nat (num_nodes_ sm))) 0 (num_nodes_ sm) Hs)
    as (i & -> & Hi & H1 & H2); [apply search_inv_start, Hs|lia|].
  f_equal. rewrite (lower_bound_position _ _ (Z.to_nat i)); [lia|rewrite length_nodes; lia|..].
  - intros j kj vj Hj Hl. apply nodes_lookup_inv in Hl as [? ->]. apply H1. lia.
  - intros j kj vj Hj Hl. apply nodes_lookup_inv in Hl as [? ->]. apply H2. lia.
Qed.

Lemma sm_upper_bound_map sm k :
  keys_sorted ksize dec mem sm ->
  sm_upper_bound ksize dec mem sm k = Some (Z.of_nat (upper_bound (nodes ksize dec mem sm) k)).
Proof.
  intros Hs. unfold sm_upper_bound, search_fuel.
  destruct (upper_bound_loop_spec sm k (S (Z.to_nat (num_nodes_ sm))) 0 (num_nodes_ sm) Hs)
    as (i & -> & Hi & H1 & H2); [apply search_inv_start, Hs|lia|].
  f_equal. rewrite (upper_bound_position _ _ (Z.to_nat i)); [lia|rewrite length_nodes; lia|..].
  - intros j kj vj Hj Hl. apply nodes_lookup_inv in Hl as [? ->]. apply H1. lia.
  - intros j kj vj Hj Hl. apply nodes_lookup_inv in Hl as [? ->]. apply H2. lia.
Qed.

Lemma sm_find_map sm k :
  keys_sorted ksize dec mem sm ->
  sm_find ksize dec mem sm k = Some (Z.of_nat (find (nodes ksize dec mem sm) k)).
Proof.
  intros Hs. unfold sm_find, search_fuel.
  destruct (find_loop_spec sm k (S (Z.to_nat (num_nodes_ sm))) 0 (num_nodes_ sm) Hs)
    as (i & -> & Hi); [apply search_inv_start, Hs|lia|].
  f_equal. destruct Hi as [[Hi Hk]|[-> Hn]].
  - pose proof (nodes_lookup sm i Hi) as Hl. rewrite Hk in Hl.
    assert (Hlb: lower_bound (nodes ksize dec mem sm) k = Z.to_nat i).
    { apply lower_bound_position; [rewrite length_nodes; lia|..].
      - intros j kj vj Hj Hlj. subst k. by eapply (sorted_lookup _ j (Z.to_nat i)); [apply Hs|..].
      - intros j kj vj Hj Hlj. destruct (decide (j = Z.to_nat i)) as [->|].
        + rewrite Hl in Hlj. simplify_eq. lia.
        + apply Z.lt_le_incl. by eapply (sorted_lookup _ (Z.to_nat i) j); [apply Hs|..|lia]. }
    unfold find. rewrite Hlb, Hl, Z.eqb_refl. lia.
  - assert (find (nodes ksize dec mem sm) k = length (nodes ksize dec mem sm)) as ->.
    { apply find_end; [apply Hs|]. intros v Hin. apply list_elem_of_lookup in Hin as [j Hl].
      apply nodes_lookup_inv in Hl as [Hj Hk]. by apply (Hn (Z.of_nat j)). }
    rewrite length_nodes. destruct Hs. lia.
Qed.
End proofs.

Section validation.
Context (ksize : nat) (dec : Z -> Z) (mem : list Z).

Lemma sorted_adjacent {V} (m : smap V) :
  (forall i x y, m !! i = Some x -> m !! S i = Some y -> x.1 < y.1) -> sorted m.
Proof.
  intros H. apply Sorted_StronglySorted; [intros ???; lia|].
  induction m as [|x m IH]; constructor.
  - apply IH. intros i. apply (H (S i)).
  - destruct m as [|y m]; constructor. by apply (H 0%nat).
Qed.

Lemma node_increasing_true sm i :
  node_increasing ksize dec mem sm i = true <->
  offset_at mem (offsets_ sm) (i - 1) < offset_at mem (offsets_ sm) i /\
  GetKeyAtIndex ksize dec mem sm (i - 1) < GetKeyAtIndex ksize dec mem sm i.
Proof.
  unfold node_increasing.
  destruct (compare_spec (GetKeyAtIndex ksize dec mem sm i) (GetKeyAtIndex ksize dec mem sm (i - 1)))
    as [[-> ?]|[[-> ?]|[-> ?]]]; dif; simpl; split; intros; try done; lia.
Qed.

(** What a successful validation establishes. *)
Lemma ValidateInMemoryStructure_true raw :
  let sm := StaticMap_at mem raw in
  ValidateInMemoryStructure ksize dec mem sm = true <->
  0 <= num_nodes_ sm /\
  (num_nodes_ sm <> 0 ->
     wrap 64 (4 * (num_nodes_ sm + 1) + Z.of_nat ksize * num_nodes_ sm) <= 4294967295 /\
     offset_at mem (offsets_ sm) 0 =
       wrap 64 (4 * (num_nodes_ sm + 1) + Z.of_nat ksize * num_nodes_ sm)) /\
  (forall i, 1 <= i < num_nodes_ sm -> node_increasing ksize dec mem sm i = true).
Proof.
  intros sm. unfold ValidateInMemoryStructure. replace (raw_data_ sm) with (Some raw) by done.
  cbv beta iota zeta. assert (En: read_s32 mem raw = num_nodes_ sm) by done. rewrite En. clear En. set (n := num_nodes_ sm).
  set (fo := wrap 64 _). pose proof (wrap_range 64 (4 * (n + 1) + Z.of_nat ksize * n) ltac:(lia)) as Hfo.
  fold fo in Hfo. destruct (n <? 0) eqn:En; breflect; [split; [discriminate|intros [? _]; lia]|].
  assert (Hall: forallb (node_increasing ksize dec mem sm) (map Z.of_nat (seq 1 (Z.to_nat n - 1))) = true <->
    forall i, 1 <= i < n -> node_increasing ksize dec mem sm i = true).
  { rewrite forallb_forall. split; intros H i Hi.
    - apply H, in_map_iff. exists (Z.to_nat i). split; [lia|]. apply in_seq. lia.
    - apply in_map_iff in Hi as (j & <- & Hj%in_seq). apply H. lia. }
  rewrite andb_true_iff, Hall. destruct (decide (n = 0)) as [E0|E0].
  - rewrite E0. simpl. split; [intros [_ H]; split_and!; [lia|done|done]|intros (_ & _ & H); by split].
  - rewrite (proj2 (Z.eqb_neq _ _) E0). simpl. dif.
    + split; [by intros [? _]|]. intros (_ & H & _). specialize (H E0). lia.
    + rewrite (wrap_small 32 fo) by (unfold fits; lia). rewrite Z.eqb_eq. split.
      * intros [H1 H2]. split_and!; [lia| |done]. intros _. split; [lia|done].
      * intros (_ & H1 & H2). split; [|done]. by apply H1.
Qed.

Lemma validated_keys_sorted raw :
  ValidateInMemoryStructure ksize dec mem (StaticMap_at mem raw) = true ->
  keys_sorted ksize dec mem (StaticMap_at mem raw).
Proof.
  rewrite ValidateInMemoryStructure_true. intros (Hn & _ & Hinc). split; [done|].
  apply sorted_adjacent. intros i [ki vi] [kj vj] Hi Hj.
  apply nodes_lookup_inv in Hi as [? ->], Hj as [? ->]. simpl.
  specialize (Hinc (Z.of_nat (S i)) ltac:(lia)). apply node_increasing_true in Hinc as [_ Hk].
  by replace (Z.of_nat (S i) - 1) with (Z.of_nat i) in Hk by lia.
Qed.

(** On any block of bytes that [ValidateInMemoryStructure] accepts, the
    three binary searches terminate and compute the iterators that
    [std::map::find], [lower_bound] and [upper_bound] have on the map that the
    bytes describe, for every key. *)
Lemma static_map_validated_search raw k :
  ValidateInMemoryStructure ksize dec mem (StaticMap_at mem raw) = true ->
  let sm := StaticMap_at mem raw in
  let m := nodes ksize dec mem sm in
  sorted m /\
  sm_find ksize dec mem sm k = Some (Z.of_nat (find m k)) /\
  sm_lower_bound ksize dec mem sm k = Some (Z.of_nat (lower_bound m k)) /\
  sm_upper_bound ksize dec mem sm k = Some (Z.of_nat (upper_bound m k)).
Proof.
  intros Hv sm m. pose proof (validated_keys_sorted raw Hv) as Hs. split_and!.
  - apply Hs.
  - by apply sm_find_map.
  - by apply sm_lower_bound_map.
  - by apply sm_upper_bound_map.
Qed.
End validation.

(** Three nodes with keys 10, 20, 30 and one-byte values 7, 8, 9. *)
Definition demo_block : list Z :=
  le_bytes 4 3 ++ le_bytes 4 28 ++ le_bytes 4 29 ++ le_bytes 4 30 ++
  le_bytes 4 10 ++ le_bytes 4 20 ++ le_bytes 4 30 ++ [7; 8; 9].

Lemma static_map_validated_search_witness :
  sm_lower_bound 4 id demo_block (StaticMap_at demo_block 0) 15 = Some 1 /\
  sm_find 4 id demo_block (StaticMap_at demo_block 0) 15 = Some 3 /\
  sm_upper_bound 4 id demo_block (StaticMap_at demo_block 0) 20 = Some 2.
Proof.
  assert (Hv: ValidateInMemoryStructure 4 id demo_block (StaticMap_at demo_block 0) = true)
    by (vm_compute; reflexivity).
  destruct (static_map_validated_search 4 id demo_block 0 15 Hv) as (_ & H1 & H2 & _).
  destruct (static_map_validated_search 4 id demo_block 0 20 Hv) as (_ & _ & _ & H3).
  rewrite H1, H2, H3. vm_compute. auto.
Defined.
