(* ===== verification/MapSerializers.v ===== *)
(** processor/simple_serializer.h, map_serializers.h, map_serializers-inl.h:
    the serializers that lay a [std::map], [AddressMap], [RangeMap] or
    [ContainedRangeMap] out in the format that the static maps read. *)
From stdpp Require Import sorting sets list.
From S2P Require Import Prelude StdMap Memory RangeMap AddressMap ContainedRangeMap.

(** [SimpleSerializer<Type>]: the size of an item and the bytes that [Write]
    puts at its destination. *)
Class SimpleSerializer (V : Type) := { SizeOf : V -> Z; image : V -> list Z }.

(** An item whose bytes fill exactly the size announced for it. *)
Definition ser_ok {V} `{SimpleSerializer V} (v : V) : Prop := Z.of_nat (length (image v)) = SizeOf v.

(** [SimpleSerializer<Type>::Write]. *)
Definition simple_write {V} `{SimpleSerializer V} (item : V) (mem : list Z) (dest : Z) : list Z * Z :=
  (write_bytes mem dest (image item), dest + SizeOf item).

(** The default template: [sizeof(item)] bytes, for an [n]-byte integer. *)
Definition IntSerializer (n : nat) : SimpleSerializer Z :=
  {| SizeOf := λ _, Z.of_nat n; image := λ z, le_bytes n z |}.

(** [SimpleSerializer<uint32_t>::Write]. *)
Definition write_u32 (z : Z) (mem : list Z) (dest : Z) : list Z * Z :=
  simple_write (H := IntSerializer 4) (wrap 32 z) mem dest.

(** The traversal loop shared by the [Write] methods: store the node's offset
    and key in their arrays and its value at [dest]. *)
Section write_nodes.
Context {V : Type} (key_write : Z -> list Z -> Z -> list Z * Z)
        (value_write : V -> list Z -> Z -> list Z * Z) (start_address offsets : Z).
Fixpoint write_nodes (m : smap V) (index : Z) (mem : list Z) (key_address dest : Z) : list Z * Z :=
  match m with
  | [] => (mem, dest)
  | (k, v) :: m' =>
      let mem := write_bytes mem (offsets + 4 * index) (le_bytes 4 (wrap 32 (dest - start_address))) in
      let '(mem, key_address) := key_write k mem key_address in
      let '(mem, dest) := value_write v mem dest in
      write_nodes m' (index + 1) mem key_address dest
  end.
End write_nodes.

(** The header, the key array and the traversal. *)
Definition write_map {V} (ksize : nat) (key_write : Z -> list Z -> Z -> list Z * Z)
    (value_write : V -> list Z -> Z -> list Z * Z) (m : smap V) (mem : list Z) (dest : Z) : list Z * Z :=
  let start_address := dest in
  let '(mem, dest) := write_u32 (Z.of_nat (length m)) mem dest in
  let offsets := dest in
  let dest := dest + 4 * Z.of_nat (length m) in
  let key_address := dest in
  let dest := dest + Z.of_nat ksize * Z.of_nat (length m) in
  write_nodes key_write value_write start_address offsets m 0 mem key_address dest.

(** A [Write] method: nothing is written through a null [dest]. *)
Definition at_dest {V} (write : V -> list Z -> Z -> list Z * Z) (v : V) (mem : list Z) (dest : option Z)
  : list Z * option Z :=
  match dest with
  | None => (mem, None)
  | Some d => let '(mem, d) := write v mem d in (mem, Some d)
  end.

(** [Serialize]: [alloc] is the allocator, whose buffer has any contents.  The
    result is the buffer and [*size]; [None] stands for the null pointer. *)
Definition serialize {V} (size_of : V -> Z) (write : V -> list Z -> Z -> list Z * Z)
    (alloc : Z -> option (list Z)) (v : V) : option (list Z * Z) :=
  let size_to_alloc := wrap 32 (size_of v) in
  match alloc size_to_alloc with
  | None => None
  | Some buffer => Some ((write v buffer 0).1, size_to_alloc)
  end.

(** Sizes summed over the nodes of a map. *)
Section node_sizes.
Context {V : Type} (node_size : Z * V -> Z).
Fixpoint node_sizes (m : smap V) : Z :=
  match m with
  | [] => 0
  | kv :: m' => node_size kv + node_sizes m'
  end.
End node_sizes.

Definition header_size {V} (m : smap V) : Z := (1 + Z.of_nat (length m)) * 4.

Section serializers.
Context {V : Type} `{SimpleSerializer V} (ksize : nat).

Definition key_write (k : Z) (mem : list Z) (dest : Z) : list Z * Z :=
  simple_write (H := IntSerializer ksize) k mem dest.

(** [StdMapSerializer]. *)
Definition StdMap_SizeOf (m : smap V) : Z :=
  header_size m + node_sizes (λ kv, Z.of_nat ksize + SizeOf kv.2) m.

Definition StdMap_write (m : smap V) (mem : list Z) (dest : Z) : list Z * Z :=
  write_map ksize key_write simple_write m mem dest.

Definition StdMap_Write := at_dest StdMap_write.
Definition StdMap_Serialize := serialize StdMap_SizeOf StdMap_write.

(** [AddressMapSerializer]. *)
Definition AddressMap_SizeOf (m : AddressMap V) : Z := StdMap_SizeOf (amap m).
Definition AddressMap_Write (m : AddressMap V) := StdMap_Write (amap m).
Definition AddressMap_Serialize (alloc : Z -> option (list Z)) (m : AddressMap V) :=
  StdMap_Serialize alloc (amap m).

(** [RangeMapSerializer]: a node's value is the base followed by the entry. *)
Definition RangeMap_SizeOf (m : RangeMap V) : Z :=
  header_size (rmap m) +
  node_sizes (λ kv, Z.of_nat ksize + Z.of_nat ksize + SizeOf (rentry kv.2)) (rmap m).

Definition range_write (r : Range V) (mem : list Z) (dest : Z) : list Z * Z :=
  let '(mem, dest) := key_write (rbase r) mem dest in
  simple_write (rentry r) mem dest.

Definition RangeMap_write (m : RangeMap V) (mem : list Z) (dest : Z) : list Z * Z :=
  write_map ksize key_write range_write (rmap m) mem dest.

Definition RangeMap_Write := at_dest RangeMap_write.
Definition RangeMap_Serialize := serialize RangeMap_SizeOf RangeMap_write.

(** [ContainedRangeMapSerializer]: base, entry size, entry, then the children
    as a map whose values are written recursively. *)
Fixpoint ContainedRangeMap_SizeOf (m : ContainedRangeMap V) : Z :=
  let 'mkCRM b e om := m in
  let header := Z.of_nat ksize + SizeOf e + 4 in
  header + 4 +
  match om with
  | None => 0
  | Some l =>
      Z.of_nat (length l) * 4 +
      node_sizes (λ '(_, c), Z.of_nat ksize + ContainedRangeMap_SizeOf c) l
  end.

Fixpoint ContainedRangeMap_write (m : ContainedRangeMap V) (mem : list Z) (dest : Z) : list Z * Z :=
  let 'mkCRM b e om := m in
  let '(mem, dest) := key_write b mem dest in
  let '(mem, dest) := write_u32 (SizeOf e) mem dest in
  let '(mem, dest) := simple_write e mem dest in
  match om with
  | None => write_u32 0 mem dest
  | Some l =>
      let map_address := dest in
      let '(mem, dest) := write_u32 (Z.of_nat (length l)) mem dest in
      let offsets := dest in
      let dest := dest + 4 * Z.of_nat (length l) in
      let key_address := dest in
      let dest := dest + Z.of_nat ksize * Z.of_nat (length l) in
      write_nodes key_write ContainedRangeMap_write map_address offsets l 0 mem key_address dest
  end.

Definition ContainedRangeMap_Write := at_dest ContainedRangeMap_write.
Definition ContainedRangeMap_Serialize := serialize ContainedRangeMap_SizeOf ContainedRangeMap_write.
End serializers.

(** ** The byte layout *)
Section layout.
Context {V : Type} (ksize : nat) (img : V -> list Z).

Fixpoint offsets_image (off : Z) (m : smap V) : list Z :=
  match m with
  | [] => []
  | (_, v) :: m' => le_bytes 4 (wrap 32 off) ++ offsets_image (off + Z.of_nat (length (img v))) m'
  end.

Fixpoint keys_image (m : smap V) : list Z :=
  match m with
  | [] => []
  | (k, _) :: m' => le_bytes ksize k ++ keys_image m'
  end.

Fixpoint values_image (m : smap V) : list Z :=
  match m with
  | [] => []
  | (_, v) :: m' => img v ++ values_image m'
  end.

Definition values_start (m : smap V) : Z :=
  4 + 4 * Z.of_nat (length m) + Z.of_nat ksize * Z.of_nat (length m).

Definition map_image (m : smap V) : list Z :=
  le_bytes 4 (wrap 32 (Z.of_nat (length m))) ++ offsets_image (values_start m) m ++
  keys_image m ++ values_image m.

(** The offset of the [i]-th value from the start of the map. *)
Definition value_offset (m : smap V) (i : nat) : Z :=
  values_start m + Z.of_nat (length (values_image (take i m))).

Lemma length_offsets_image off m : length (offsets_image off m) = (4 * length m)%nat.
Proof.
  revert off. induction m as [|[k v] m IH]; intros off; simpl; [done|].
  rewrite IH. lia.
Qed.

Lemma length_keys_image m : length (keys_image m) = (ksize * length m)%nat.
Proof.
  induction m as [|[k v] m IH]; simpl; [lia|]. rewrite length_app, length_le_bytes, IH. lia.
Qed.

Lemma length_map_image m :
  Z.of_nat (length (map_image m)) = values_start m + Z.of_nat (length (values_image m)).
Proof.
  unfold map_image, values_start.
  rewrite !length_app, length_offsets_image, length_keys_image, length_le_bytes. lia.
Qed.

(** A writer that stores [img v] and returns the address after it. *)
Definition writes (value_write : V -> list Z -> Z -> list Z * Z) (v : V) : Prop :=
  forall a x c, length x = length (img v) ->
    value_write v (a ++ x ++ c) (Z.of_nat (length a)) =
    (a ++ img v ++ c, Z.of_nat (length a + length (img v))).

(** The traversal fills the three areas that the header reserved. *)
Lemma write_nodes_layout kw vw m : forall start a od o kd ks vd x c index mem ka dest,
  (forall k, k ∈ m.*1 -> forall a x c, length x = ksize ->
     kw k (a ++ x ++ c) (Z.of_nat (length a)) = (a ++ le_bytes ksize k ++ c, Z.of_nat (length a + ksize))) ->
  (forall v, v ∈ m.*2 -> writes vw v) ->
  length o = (4 * length m)%nat -> length ks = (ksize * length m)%nat ->
  length x = length (values_image m) ->
  mem = a ++ od ++ o ++ kd ++ ks ++ vd ++ x ++ c ->
  Z.of_nat (length od) = 4 * index ->
  ka = Z.of_nat (length (a ++ od ++ o ++ kd)) ->
  dest = Z.of_nat (length (a ++ od ++ o ++ kd ++ ks ++ vd)) ->
  write_nodes kw vw start (Z.of_nat (length a)) m index mem ka dest =
  (a ++ od ++ offsets_image (dest - start) m ++ kd ++ keys_image m ++ vd ++ values_image m ++ c,
   dest + Z.of_nat (length (values_image m))).
Proof.
  induction m as [|[k v] m IH]; intros start a od o kd ks vd x c index mem ka dest
    Hkw Hvw Ho Hks Hx Hmem Hi Hka Hd.
  - simpl in *. destruct o, ks, x; try done; [|simpl in Hks; lia]. subst mem. simpl. f_equal. lia.
  - cbn [write_nodes offsets_image keys_image values_image fst snd length fmap list_fmap] in *.
    rewrite length_app in Hx.
    (* split the three areas at the node *)
    rewrite <- (take_drop 4 o) in Hmem, Hka, Hd.
    rewrite <- (take_drop ksize ks) in Hmem, Hd.
    rewrite <- (take_drop (length (img v)) x) in Hmem.
    assert (L1: length (take 4 o) = 4%nat) by (rewrite length_take; lia).
    assert (L2: length (take ksize ks) = ksize) by (rewrite length_take; lia).
    assert (L3: length (take (length (img v)) x) = length (img v)) by (rewrite length_take; lia).
    set (o1 := take 4 o) in *. set (o2 := drop 4 o) in *.
    set (k1 := take ksize ks) in *. set (k2 := drop ksize ks) in *.
    set (x1 := take (length (img v)) x) in *. set (x2 := drop (length (img v)) x) in *.
    assert (M1: length o2 = (4 * length m)%nat) by (unfold o2; rewrite length_drop; lia).
    assert (M2: length k2 = (ksize * length m)%nat) by (unfold k2; rewrite length_drop; lia).
    assert (M3: length x2 = length (values_image m)) by (unfold x2; rewrite length_drop; lia).
    set (ob := le_bytes 4 (wrap 32 (dest - start))).
    assert (Hw1: write_bytes mem (Z.of_nat (length a) + 4 * index) ob =
                 (a ++ od ++ ob ++ o2 ++ kd) ++ k1 ++ (k2 ++ vd ++ x ++ c)).
    { rewrite Hmem. replace (Z.of_nat (length a) + 4 * index) with (Z.of_nat (length (a ++ od)))
        by (rewrite length_app; lia).
      replace (a ++ od ++ (o1 ++ o2) ++ kd ++ (k1 ++ k2) ++ vd ++ (x1 ++ x2) ++ c)
        with ((a ++ od) ++ o1 ++ (o2 ++ kd ++ (k1 ++ k2) ++ vd ++ (x1 ++ x2) ++ c)) by (by rewrite <- !app_assoc).
      rewrite write_bytes_app by (unfold ob; rewrite length_le_bytes; lia).
      unfold x1, x2. rewrite take_drop. by rewrite <- !app_assoc. }
    rewrite Hw1.
    replace ka with (Z.of_nat (length (a ++ od ++ ob ++ o2 ++ kd)))
      by (rewrite Hka; unfold ob; rewrite !length_app, length_le_bytes; lia).
    rewrite Hkw by (done || left).
    set (kb := le_bytes ksize k).
    replace ((a ++ od ++ ob ++ o2 ++ kd) ++ kb ++ k2 ++ vd ++ x ++ c)
      with ((a ++ od ++ ob ++ o2 ++ kd ++ kb ++ k2 ++ vd) ++ x1 ++ (x2 ++ c))
      by (rewrite <- (take_drop (length (img v)) x); fold x1 x2; by rewrite <- !app_assoc).
    replace dest with (Z.of_nat (length (a ++ od ++ ob ++ o2 ++ kd ++ kb ++ k2 ++ vd))) at 1
      by (rewrite Hd; unfold ob, kb; rewrite !length_app, !length_le_bytes; lia).
    rewrite (Hvw v) by (done || left).
    rewrite (IH start a (od ++ ob) o2 (kd ++ kb) k2 (vd ++ img v) x2 c (index + 1)); try done.
    + replace (Z.of_nat (length (a ++ od ++ ob ++ o2 ++ kd ++ kb ++ k2 ++ vd) + length (img v)))
        with (dest + Z.of_nat (length (img v)))
        by (rewrite Hd; unfold ob, kb; rewrite !length_app, !length_le_bytes; lia).
      replace (dest + Z.of_nat (length (img v)) - start) with (dest - start + Z.of_nat (length (img v))) by lia.
      f_equal; [by rewrite <- !app_assoc|]. rewrite length_app. lia.
    + intros k' Hk'. apply Hkw. by right.
    + intros v' Hv'. apply Hvw. by right.
    + by rewrite <- !app_assoc.
    + rewrite length_app. unfold ob. rewrite length_le_bytes. lia.
    + f_equal. unfold kb. rewrite !length_app, !length_le_bytes. lia.
    + rewrite !length_app. lia.
Qed.

Lemma key_write_layout k a x c :
  length x = ksize ->
  key_write ksize k (a ++ x ++ c) (Z.of_nat (length a)) =
  (a ++ le_bytes ksize k ++ c, Z.of_nat (length a + ksize)).
Proof.
  intros Hl. unfold key_write, simple_write. simpl. rewrite write_bytes_app by (by rewrite length_le_bytes).
  f_equal. lia.
Qed.

Lemma write_u32_layout z a x c :
  length x = 4%nat ->
  write_u32 z (a ++ x ++ c) (Z.of_nat (length a)) =
  (a ++ le_bytes 4 (wrap 32 z) ++ c, Z.of_nat (length a + 4)).
Proof.
  intros Hl. unfold write_u32, simple_write. simpl. rewrite write_bytes_app by (by rewrite length_le_bytes).
  f_equal. lia.
Qed.

(** The traversal after the count, as both [write_map] and the contained
    serializer run it. *)
Lemma write_nodes_map vw m a x c :
  (forall v, v ∈ m.*2 -> writes vw v) -> length x = length (map_image m) ->
  write_nodes (key_write ksize) vw (Z.of_nat (length a)) (Z.of_nat (length a + 4)) m 0
    (a ++ le_bytes 4 (wrap 32 (Z.of_nat (length m))) ++ drop 4 x ++ c)
    (Z.of_nat (length a + 4) + 4 * Z.of_nat (length m))
    (Z.of_nat (length a + 4) + 4 * Z.of_nat (length m) + Z.of_nat ksize * Z.of_nat (length m)) =
  (a ++ map_image m ++ c, Z.of_nat (length a + length (map_image m))).
Proof.
  intros Hvw Hx. pose proof (length_map_image m) as Hl. unfold values_start in Hl.
  set (n := length m) in *. set (hb := le_bytes 4 (wrap 32 (Z.of_nat n))).
  assert (Hhb: length hb = 4%nat) by apply length_le_bytes.
  set (y := drop 4 x). assert (Hy: length y = (length x - 4)%nat) by apply length_drop.
  set (o := take (4 * n) y). set (y1 := drop (4 * n) y).
  set (ks := take (ksize * n) y1). set (y2 := drop (ksize * n) y1).
  assert (Lo: length o = (4 * n)%nat) by (unfold o; rewrite length_take; lia).
  assert (Ly1: length y1 = (length y - 4 * n)%nat) by (unfold y1; apply length_drop).
  assert (Lk: length ks = (ksize * n)%nat) by (unfold ks; rewrite length_take; lia).
  assert (Ly2: length y2 = length (values_image m)) by (unfold y2; rewrite length_drop; lia).
  replace (Z.of_nat (length a + 4)) with (Z.of_nat (length (a ++ hb))) by (rewrite length_app; lia).
  rewrite (write_nodes_layout (key_write ksize) vw m (Z.of_nat (length a)) (a ++ hb) [] o [] ks [] y2 c 0);
    try done; try (simpl; rewrite ?app_nil_r, !length_app; lia).
  - replace (Z.of_nat (length (a ++ hb)) + 4 * Z.of_nat n + Z.of_nat ksize * Z.of_nat n - Z.of_nat (length a))
      with (values_start m) by (unfold values_start; fold n; rewrite length_app; lia).
    unfold map_image. fold n hb. simpl. f_equal; [by rewrite <- !app_assoc|].
    rewrite !length_app, length_offsets_image, length_keys_image. fold n. lia.
  - intros k _ a' x' c'. apply key_write_layout.
  - simpl. unfold ks, y2, o, y1. rewrite <- !app_assoc. do 2 f_equal.
    rewrite <- (take_drop (4 * n) y) at 1. rewrite <- !app_assoc. f_equal.
    rewrite <- (take_drop (ksize * n) (drop (4 * n) y)) at 1. by rewrite <- !app_assoc.
Qed.

(** What [write_map] writes. *)
Lemma write_map_layout vw m a x c :
  (forall v, v ∈ m.*2 -> writes vw v) -> length x = length (map_image m) ->
  write_map ksize (key_write ksize) vw m (a ++ x ++ c) (Z.of_nat (length a)) =
  (a ++ map_image m ++ c, Z.of_nat (length a + length (map_image m))).
Proof.
  intros Hvw Hx. pose proof (length_map_image m) as Hl. unfold values_start in Hl. unfold write_map.
  replace (a ++ x ++ c) with (a ++ take 4 x ++ (drop 4 x ++ c)) by (by rewrite (app_assoc (take 4 x)), take_drop).
  rewrite write_u32_layout by (rewrite length_take; lia).
  by apply write_nodes_map.
Qed.
End layout.

(** ** Images of the serialised maps, and their sizes *)
Section images.
Context {V : Type} `{SimpleSerializer V} (ksize : nat).

Definition range_image (r : Range V) : list Z := le_bytes ksize (rbase r) ++ image (rentry r).

Fixpoint contained_image (m : ContainedRangeMap V) : list Z :=
  let 'mkCRM b e om := m in
  le_bytes ksize b ++ le_bytes 4 (wrap 32 (SizeOf e)) ++ image e ++
  match om with
  | None => map_image ksize contained_image []
  | Some l =>
      le_bytes 4 (wrap 32 (Z.of_nat (length l))) ++
      offsets_image contained_image (4 + 4 * Z.of_nat (length l) + Z.of_nat ksize * Z.of_nat (length l)) l ++
      keys_image ksize l ++ values_image contained_image l
  end.

Lemma contained_image_eq b e om :
  contained_image (mkCRM b e om) =
  le_bytes ksize b ++ le_bytes 4 (wrap 32 (SizeOf e)) ++ image e ++
  map_image ksize contained_image (kids (mkCRM b e om)).
Proof. by destruct om. Qed.

Lemma simple_writes (v : V) : ser_ok v -> writes image simple_write v.
Proof.
  intros Hok a x c Hx. unfold simple_write. rewrite write_bytes_app by done.
  f_equal. unfold ser_ok in Hok. lia.
Qed.

Lemma range_writes (r : Range V) : ser_ok (rentry r) -> writes range_image (range_write ksize) r.
Proof.
  intros Hok a x c Hx. unfold range_image in *. rewrite length_app, length_le_bytes in Hx.
  unfold range_write. rewrite <- (take_drop ksize x), <- app_assoc.
  rewrite key_write_layout by (rewrite length_take; lia).
  replace (Z.of_nat (length a + ksize)) with (Z.of_nat (length (a ++ le_bytes ksize (rbase r))))
    by (rewrite length_app, length_le_bytes; lia).
  rewrite app_assoc. rewrite (simple_writes _ Hok) by (rewrite length_drop; lia).
  f_equal; [by rewrite <- !app_assoc|]. rewrite !length_app, !length_le_bytes. lia.
Qed.

(** Every entry of the tree, the one of the node itself included. *)
Fixpoint all_ser_ok (m : ContainedRangeMap V) : Prop :=
  let 'mkCRM _ e om := m in
  ser_ok e /\
  match om with
  | None => True
  | Some l => foldr (λ kc P, all_ser_ok kc.2 /\ P) True l
  end.

Lemma all_ser_ok_kids m : all_ser_ok m -> ser_ok (centry m) /\ forall k c, (k, c) ∈ kids m -> all_ser_ok c.
Proof.
  destruct m as [b e [l|]]; simpl; intros [He Hl]; (split; [done|]).
  - induction l as [|[k0 c0] l IH]; [intros ?? Hin; by apply not_elem_of_nil in Hin|].
    destruct Hl as [Hc Hl]. intros k c [[= -> ->]|Hin]%elem_of_cons; [done|by eapply IH].
  - intros k c Hin. by apply not_elem_of_nil in Hin.
Qed.

(** Induction on the tree: a property of a node follows from that of its children. *)
Lemma contained_ind (P : ContainedRangeMap V -> Prop) :
  (forall m, (forall k c, (k, c) ∈ kids m -> P c) -> P m) -> forall m, P m.
Proof.
  intros Hstep. fix IH 1. intros [b e [l|]]; apply Hstep.
  - simpl. induction l as [|[k0 c0] l IHl]; [intros ?? Hin; destruct (not_elem_of_nil _ Hin)|].
    intros k c Hin. apply elem_of_cons in Hin as [Heq|Hin]; [|by eapply IHl].
    injection Heq as _ ->. apply IH.
  - intros ?? Hin. destruct (not_elem_of_nil _ Hin).
Qed.

Lemma contained_writes m : all_ser_ok m -> writes contained_image (ContainedRangeMap_write ksize) m.
Proof.
  induction m as [m IH] using contained_ind. intros Hok a x c Hx.
  apply all_ser_ok_kids in Hok as Hok'. destruct Hok' as [He Hkids].
  destruct m as [b e om]. simpl centry in He. rewrite contained_image_eq in *.
  set (mi := map_image ksize contained_image (kids (mkCRM b e om))) in *.
  rewrite !length_app, !length_le_bytes in Hx. cbn [ContainedRangeMap_write].
  rewrite <- (take_drop ksize x), <- app_assoc. rewrite key_write_layout by (rewrite length_take; lia).
  set (x1 := drop ksize x). assert (L1: length x1 = (length x - ksize)%nat) by apply length_drop.
  set (a1 := a ++ le_bytes ksize b).
  replace (Z.of_nat (length a + ksize)) with (Z.of_nat (length a1)) by (unfold a1; rewrite length_app, length_le_bytes; lia).
  rewrite (app_assoc a). fold a1.
  rewrite <- (take_drop 4 x1), <- app_assoc. rewrite write_u32_layout by (rewrite length_take; lia).
  set (x2 := drop 4 x1). assert (L2: length x2 = (length x1 - 4)%nat) by apply length_drop.
  set (a2 := a1 ++ le_bytes 4 (wrap 32 (SizeOf e))).
  replace (Z.of_nat (length a1 + 4)) with (Z.of_nat (length a2)) by (unfold a2; rewrite length_app, length_le_bytes; lia).
  rewrite (app_assoc a1). fold a2.
  rewrite <- (take_drop (length (image e)) x2), <- app_assoc.
  rewrite (simple_writes e He) by (rewrite length_take; lia).
  set (x3 := drop (length (image e)) x2). assert (L3: length x3 = length mi) by (unfold x3; rewrite length_drop; lia).
  set (a3 := a2 ++ image e).
  replace (Z.of_nat (length a2 + length (image e))) with (Z.of_nat (length a3)) by (unfold a3; rewrite length_app; lia).
  rewrite (app_assoc a2). fold a3.
  assert (Hend: (a3 ++ mi ++ c, Z.of_nat (length a3 + length mi)) =
    (a ++ (le_bytes ksize b ++ le_bytes 4 (wrap 32 (SizeOf e)) ++ image e ++ mi) ++ c,
     Z.of_nat (length a + length (le_bytes ksize b ++ le_bytes 4 (wrap 32 (SizeOf e)) ++ image e ++ mi)))).
  { unfold a3, a2, a1. rewrite <- !app_assoc. f_equal. rewrite !length_app, !length_le_bytes. lia. }
  rewrite <- Hend. clear Hend.
  assert (Hvw: forall v, v ∈ (kids (mkCRM b e om)).*2 -> writes contained_image (ContainedRangeMap_write ksize) v).
  { intros v Hv. apply list_elem_of_fmap in Hv as ([k v'] & -> & Hin). simpl. eapply IH; [done|by eapply Hkids]. }
  destruct om as [l|]; [|by rewrite write_u32_layout by (rewrite L3; reflexivity)].
  rewrite <- (take_drop 4 x3), <- app_assoc.
  assert (4 <= length x3)%nat.
  { rewrite L3. unfold mi, map_image. rewrite length_app, length_le_bytes. lia. }
  rewrite write_u32_layout by (rewrite length_take; lia).
  apply (write_nodes_map ksize contained_image (ContainedRangeMap_write ksize) l a3 x3 c Hvw L3).
Qed.

(** ** The sizes announced are the sizes written *)
Lemma node_sizes_values {W} (img : W -> list Z) (sz : Z * W -> Z) (l : smap W) :
  (forall k v, (k, v) ∈ l -> sz (k, v) = Z.of_nat ksize + Z.of_nat (length (img v))) ->
  node_sizes sz l = Z.of_nat ksize * Z.of_nat (length l) + Z.of_nat (length (values_image img l)).
Proof.
  induction l as [|[k v] l IH]; intros Hsz; [simpl; lia|].
  cbn [node_sizes values_image length]. rewrite Hsz by left. rewrite IH.
  - rewrite length_app. lia.
  - intros ?? Hin. apply Hsz. by right.
Qed.

Lemma StdMap_size (m : smap V) :
  (forall k v, (k, v) ∈ m -> ser_ok v) ->
  StdMap_SizeOf ksize m = Z.of_nat (length (map_image ksize image m)).
Proof.
  intros Hok. unfold StdMap_SizeOf, header_size. rewrite length_map_image. unfold values_start.
  rewrite (node_sizes_values image); [lia|]. intros k v Hin. simpl. by rewrite (Hok _ _ Hin).
Qed.

Lemma RangeMap_size (m : RangeMap V) :
  (forall k r, (k, r) ∈ rmap m -> ser_ok (rentry r)) ->
  RangeMap_SizeOf ksize m = Z.of_nat (length (map_image ksize range_image (rmap m))).
Proof.
  intros Hok. unfold RangeMap_SizeOf, header_size. rewrite length_map_image. unfold values_start.
  rewrite (node_sizes_values range_image); [lia|]. intros k r Hin. simpl. unfold range_image.
  rewrite length_app, length_le_bytes, <- (Hok _ _ Hin). lia.
Qed.

Lemma Contained_size (m : ContainedRangeMap V) :
  all_ser_ok m -> ContainedRangeMap_SizeOf ksize m = Z.of_nat (length (contained_image m)).
Proof.
  induction m as [m IH] using contained_ind. intros Hok.
  apply all_ser_ok_kids in Hok as [He Hk]. destruct m as [b e om]. rewrite contained_image_eq.
  rewrite !length_app, !length_le_bytes, !Nat2Z.inj_add, length_map_image. unfold values_start, ser_ok in *.
  simpl centry in He. cbn [ContainedRangeMap_SizeOf]. destruct om as [l|]; unfold kids in *; cbn [cmap] in *; [|simpl; lia].
  rewrite (node_sizes_values contained_image); [lia|]. intros k c Hin. rewrite (IH k) by (done || by eapply Hk). lia.
Qed.
End images.
