(* ===== verification/StaticRangeMap.v ===== *)
(** processor/static_range_map-inl.h, static_address_map-inl.h,
    static_contained_range_map-inl.h: the read-only counterparts of [RangeMap],
    [AddressMap] and [ContainedRangeMap] over serialised data, and the proof
    that on the bytes the serializers write they answer as the originals. *)
From stdpp Require Import sorting sets list.
From S2P Require Import Prelude StdMap Memory RangeMap AddressMap ContainedRangeMap.
From S2P Require Import StaticMap MapSerializers.

Section static_range_maps.
Context (ksize : nat) (mem : list Z).
Notation w := (8 * Z.of_nat ksize).
Notation GetKey' := (GetKey ksize id mem).

(** [Range::base()] and [Range::entryptr()] of the range object at [p]. *)
Definition range_base (p : Z) : Z := read_le mem p ksize.
Definition entryptr (p : Z) : Z := p + Z.of_nat ksize.

(** The entry pointer with [*entry_base] and [*entry_size]. *)
Definition static_copy_out (it : StaticMapIterator) (range : Z) : option (Z * Z * Z) :=
  key ← GetKey' it;
  Some (entryptr range, range_base range, wrap w (wrap w (key - range_base range) + 1)).

Definition StaticRetrieveRange (map_ : StaticMap) (address : Z) : option (Z * Z * Z) :=
  i ← sm_lower_bound ksize id mem map_ address;
  iterator ← IteratorAtIndex mem map_ i;
  end_ ← IteratorAtIndex mem map_ (num_nodes_ map_);
  if iterator_eq iterator end_ then None
  else
    range ← GetValueRawPtr mem iterator;
    if address <? range_base range then None
    else static_copy_out iterator range.

Definition StaticRetrieveNearestRange (map_ : StaticMap) (address : Z) : option (Z * Z * Z) :=
  match StaticRetrieveRange map_ address with
  | Some r => Some r
  | None =>
      i ← sm_upper_bound ksize id mem map_ address;
      iterator ← IteratorAtIndex mem map_ i;
      begin ← IteratorAtIndex mem map_ 0;
      if iterator_eq iterator begin then None
      else
        let iterator := decrement iterator in
        range ← GetValueRawPtr mem iterator;
        static_copy_out iterator range
  end.

(** [GetCount]: [size()] is unsigned, the result is an [int]. *)
Definition StaticGetCount (map_ : StaticMap) : Z := swrap 32 (size map_).

Definition StaticRetrieveRangeAtIndex (map_ : StaticMap) (index : Z) : option (Z * Z * Z) :=
  if StaticGetCount map_ <=? index then None
  else
    iterator ← IteratorAtIndex mem map_ index;
    range ← GetValueRawPtr mem iterator;
    static_copy_out iterator range.

(** [StaticAddressMap::Retrieve]: the entry pointer and [*entry_address]. *)
Definition StaticRetrieve (map_ : StaticMap) (address : Z) : option (Z * Z) :=
  i ← sm_upper_bound ksize id mem map_ address;
  iterator ← IteratorAtIndex mem map_ i;
  begin ← IteratorAtIndex mem map_ 0;
  if iterator_eq iterator begin then None
  else
    let iterator := decrement iterator in
    entry ← GetValueRawPtr mem iterator;
    entry_address ← GetKey' iterator;
    Some (entry, entry_address).

(** [StaticContainedRangeMap(base)]. *)
Record StaticContainedRangeMap := mkStaticContained
  { scrm_base : Z; scrm_entry_size : Z; scrm_entry_ptr : option Z; scrm_map : StaticMap }.

Definition StaticContainedRangeMap_at (base : Z) : StaticContainedRangeMap :=
  let entry_size := read_u32 mem (base + Z.of_nat ksize) in
  let entry_ptr := base + Z.of_nat ksize + 4 in
  mkStaticContained (read_le mem base ksize) entry_size
    (if entry_size =? 0 then None else Some entry_ptr)
    (StaticMap_at mem (base + Z.of_nat ksize + 4 + entry_size)).

(** The result is the value left in [entry], itself a pointer that may be
    null; the outer [None] is the [false] return.  Each recursive call goes to
    a child stored further on in the buffer; [fuel] bounds the depth. *)
Fixpoint StaticRetrieveContained (fuel : nat) (m : StaticContainedRangeMap) (address : Z)
  : option (option Z) :=
  match fuel with
  | O => None
  | S fuel =>
      i ← sm_lower_bound ksize id mem (scrm_map m) address;
      iterator ← IteratorAtIndex mem (scrm_map m) i;
      end_ ← IteratorAtIndex mem (scrm_map m) (num_nodes_ (scrm_map m));
      if iterator_eq iterator end_ then None
      else
        memory_child ← GetValueRawPtr mem iterator;
        let child_map := StaticContainedRangeMap_at memory_child in
        if address <? scrm_base child_map then None
        else match StaticRetrieveContained fuel child_map address with
             | Some e => Some e
             | None => Some (scrm_entry_ptr child_map)
             end
  end.
End static_range_maps.

(** ** Serialised data as seen by a [StaticMap] *)
Section described.
Context {V : Type} (ksize : nat) (dec : Z -> Z) (img : V -> list Z) (mem : list Z).
Notation w := (8 * Z.of_nat ksize).

(** The static map over [mem] has the keys of [m], in order, and its value
    pointers point at the images of the values of [m]. *)
Record describes (sm : StaticMap) (base : Z) (m : smap V) : Prop := {
  de_at : sm = StaticMap_at mem base;
  de_num : num_nodes_ sm = Z.of_nat (length m);
  de_sorted : sorted m;
  de_nodes : forall i k v, m !! i = Some (k, v) ->
    exists p, nodes ksize dec mem sm !! i = Some (k, p) /\ holds mem p (img v)
}.

Lemma holds_offsets off0 p m i k v :
  holds mem p (offsets_image img off0 m) -> m !! i = Some (k, v) ->
  0 <= off0 -> off0 + Z.of_nat (length (values_image img m)) < 2 ^ 32 ->
  read_u32 mem (p + 4 * Z.of_nat i) = off0 + Z.of_nat (length (values_image img (take i m))).
Proof.
  revert off0 p i. induction m as [|[k0 v0] m IH]; intros off0 p i Hh Hl H0 Hb; [done|].
  cbn [offsets_image values_image] in *. rewrite length_app in Hb.
  apply holds_app in Hh as [Hh1 Hh2]. destruct i as [|i].
  - simpl. rewrite Z.add_0_r. unfold read_u32. rewrite (holds_read _ _ _ _ Hh1).
    + rewrite wrap_small by (unfold fits; lia). lia.
    + apply wrap_range. lia.
  - rewrite length_le_bytes in Hh2. simpl in Hl.
    replace (p + 4 * Z.of_nat (S i)) with (p + Z.of_nat 4 + 4 * Z.of_nat i) by lia.
    rewrite (IH (off0 + Z.of_nat (length (img v0)))) by (done || lia).
    cbn [take values_image]. rewrite length_app. lia.
Qed.

Lemma holds_keys p (m : smap V) i k v :
  holds mem p (keys_image ksize m) -> m !! i = Some (k, v) ->
  read_le mem (p + Z.of_nat ksize * Z.of_nat i) ksize = wrap w k.
Proof.
  revert p i. induction m as [|[k0 v0] m IH]; intros p i Hh Hl; [done|].
  cbn [keys_image] in Hh. apply holds_app in Hh as [Hh1 Hh2]. destruct i as [|i].
  - simpl in Hl. simplify_eq. rewrite Z.mul_0_r, Z.add_0_r. by apply holds_read_wrap.
  - rewrite length_le_bytes in Hh2. simpl in Hl.
    replace (p + Z.of_nat ksize * Z.of_nat (S i)) with (p + Z.of_nat ksize + Z.of_nat ksize * Z.of_nat i) by lia.
    by apply IH.
Qed.

Lemma holds_values p m i k v :
  holds mem p (values_image img m) -> m !! i = Some (k, v) ->
  holds mem (p + Z.of_nat (length (values_image img (take i m)))) (img v).
Proof.
  revert p i. induction m as [|[k0 v0] m IH]; intros p i Hh Hl; [done|].
  cbn [values_image] in Hh. apply holds_app in Hh as [Hh1 Hh2]. destruct i as [|i].
  - simpl in Hl. simplify_eq. by rewrite Z.add_0_r.
  - simpl in Hl. cbn [take values_image]. rewrite length_app, Nat2Z.inj_add, Z.add_assoc. by apply IH.
Qed.

(** The bytes that the serializers write describe the map they were given. *)
Lemma map_image_describes base m :
  holds mem base (map_image ksize img m) -> sorted m ->
  (forall k v, (k, v) ∈ m -> dec (wrap w k) = k) ->
  Z.of_nat (length m) < 2 ^ 31 -> Z.of_nat (length (map_image ksize img m)) < 2 ^ 32 ->
  describes (StaticMap_at mem base) base m.
Proof.
  intros Hh Hs Hk Hn Hlen. rewrite length_map_image in Hlen. unfold map_image in Hh.
  apply holds_app in Hh as [Hc Hh]. rewrite length_le_bytes in Hh.
  apply holds_app in Hh as [Ho Hh]. rewrite length_offsets_image in Hh.
  apply holds_app in Hh as [Hks Hv]. rewrite length_keys_image in Hv.
  assert (Hnum: num_nodes_ (StaticMap_at mem base) = Z.of_nat (length m)).
  { simpl. unfold read_u32. rewrite (holds_read _ _ _ _ Hc) by (apply wrap_range; lia).
    rewrite wrap_small by (unfold fits; lia). apply swrap_small; lia. }
  constructor; [done|done|done|]. intros i k v Hl. pose proof (lookup_lt_Some _ _ _ Hl) as Hi.
  assert (Hf: dec (wrap w k) = k) by (eapply Hk, list_elem_of_lookup_2, Hl).
  exists (base + (values_start ksize m + Z.of_nat (length (values_image img (take i m))))). split.
  - unfold nodes. rewrite Hnum, Nat2Z.id, list_lookup_fmap, lookup_seq_lt by done.
    assert (Hka: keys_ (StaticMap_at mem base) = base + (1 + Z.of_nat (length m)) * 4) by (by rewrite <- Hnum).
    rewrite Hka. unfold key_at, offset_at. cbn -[Z.add Z.mul]. f_equal. f_equal.
    + etransitivity; [|exact Hf]. f_equal. rewrite <- (holds_keys _ _ _ _ _ Hks Hl). f_equal. lia.
    + f_equal. rewrite <- (holds_offsets _ _ _ _ _ _ Ho Hl); [f_equal; lia|unfold values_start; lia|lia].
  - rewrite Z.add_assoc. apply (holds_values _ _ _ k); [|done].
    replace (base + values_start ksize m)
      with (base + Z.of_nat 4 + Z.of_nat (4 * length m) + Z.of_nat (ksize * length m)); [done|].
    unfold values_start. lia.
Qed.

Lemma lower_bound_keys {A B} (m1 : smap A) (m2 : smap B) k :
  m1.*1 = m2.*1 -> lower_bound m1 k = lower_bound m2 k /\ upper_bound m1 k = upper_bound m2 k.
Proof.
  revert m2. induction m1 as [|[k1 v1] m1 IH]; intros [|[k2 v2] m2] Heq; simplify_eq/=; [done|].
  destruct (IH m2) as [H1 H2]; [done|]. rewrite H1, H2. done.
Qed.

Lemma describes_keys sm base m : describes sm base m -> (nodes ksize dec mem sm).*1 = m.*1.
Proof.
  intros [_ Hn Hs Hnd]. apply list_eq. intros i. rewrite !list_lookup_fmap.
  destruct (m !! i) as [[k v]|] eqn:Hl.
  - destruct (Hnd i k v Hl) as (p & -> & _). done.
  - rewrite lookup_ge_None_2; [done|]. rewrite length_nodes, Hn. apply lookup_ge_None in Hl. lia.
Qed.

Lemma sorted_keys {A B} (m1 : smap A) (m2 : smap B) : m1.*1 = m2.*1 -> sorted m1 -> sorted m2.
Proof.
  intros Heq Hs. apply sorted_adjacent. intros i [k1 v1] [k2 v2] H1 H2.
  assert (Hk: forall j k v, m2 !! j = Some (k, v) -> exists v', m1 !! j = Some (k, v')).
  { intros j k v Hj. assert (m1.*1 !! j = Some k) as Hk by (rewrite Heq, list_lookup_fmap, Hj; done).
    rewrite list_lookup_fmap in Hk. destruct (m1 !! j) as [[k' v']|]; [|done]. simplify_eq/=. eauto. }
  apply Hk in H1 as [? H1], H2 as [? H2]. simpl. by eapply (sorted_lookup m1 i (S i)); [..|lia].
Qed.

Lemma describes_keys_sorted sm base m : describes sm base m -> keys_sorted ksize dec mem sm.
Proof.
  intros Hd. split; [destruct Hd; lia|]. eapply sorted_keys; [|apply Hd].
  symmetry. by eapply describes_keys.
Qed.

(** The searches return the iterators of the original map. *)
Lemma describes_lower_bound sm base m k :
  describes sm base m -> sm_lower_bound ksize dec mem sm k = Some (Z.of_nat (lower_bound m k)).
Proof.
  intros Hd. rewrite sm_lower_bound_map by (by eapply describes_keys_sorted).
  by rewrite (proj1 (lower_bound_keys _ m k (describes_keys _ _ _ Hd))).
Qed.

Lemma describes_upper_bound sm base m k :
  describes sm base m -> sm_upper_bound ksize dec mem sm k = Some (Z.of_nat (upper_bound m k)).
Proof.
  intros Hd. rewrite sm_upper_bound_map by (by eapply describes_keys_sorted).
  by rewrite (proj2 (lower_bound_keys _ m k (describes_keys _ _ _ Hd))).
Qed.

Lemma find_keys {A B} (m1 : smap A) (m2 : smap B) k : m1.*1 = m2.*1 -> find m1 k = find m2 k.
Proof.
  intros E. unfold find. rewrite (proj1 (lower_bound_keys m1 m2 k E)).
  assert (Hl: length m1 = length m2) by (rewrite <- (length_fmap fst m1), E; apply length_fmap).
  pose proof (f_equal (λ l, l !! lower_bound m2 k) E) as Hk. cbv beta in Hk. rewrite !list_lookup_fmap in Hk. rewrite Hl.
  destruct (m1 !! lower_bound m2 k) as [[k1 v1]|], (m2 !! lower_bound m2 k) as [[k2 v2]|]; cbn in Hk; by simplify_eq.
Qed.

Lemma describes_find sm base m k :
  describes sm base m -> sm_find ksize dec mem sm k = Some (Z.of_nat (find m k)).
Proof.
  intros Hd. rewrite sm_find_map by (by eapply describes_keys_sorted).
  by rewrite (find_keys _ m k (describes_keys _ _ _ Hd)).
Qed.

(** The iterator at position [i] of the static map. *)
Definition iter_at sm (base i : Z) : StaticMapIterator :=
  mkIterator i (Some base) (num_nodes_ sm) (offsets_ sm) (keys_ sm).

Lemma describes_iterator sm base m i :
  describes sm base m -> IteratorAtIndex mem sm i = Some (iter_at sm base i).
Proof. intros [-> _ _ _]. done. Qed.

(** A valid, dereferenceable iterator delivers the node. *)
Lemma describes_node sm base m i k v :
  describes sm base m -> m !! i = Some (k, v) ->
  exists p, GetValueRawPtr mem (iter_at sm base (Z.of_nat i)) = Some p /\
    GetKey ksize dec mem (iter_at sm base (Z.of_nat i)) = Some k /\ holds mem p (img v).
Proof.
  intros Hd Hl. pose proof (lookup_lt_Some _ _ _ Hl) as Hi. pose proof (de_num _ _ _ Hd) as Hn.
  destruct (de_nodes _ _ _ Hd i k v Hl) as (p & Hp & Hh). exists p.
  unfold GetValueRawPtr, GetKey, GetKeyPtr, IsValid, iter_at. simpl.
  rewrite (proj2 (Z.ltb_ge _ _)), (proj2 (Z.ltb_ge _ _)) by lia. simpl.
  unfold nodes in Hp. rewrite Hn, Nat2Z.id, list_lookup_fmap, lookup_seq_lt in Hp by done.
  simpl in Hp. rewrite (de_at _ _ _ Hd) in Hp |- *.
  cbn [StaticMap_at raw_data_ offsets_ keys_ from_option default id] in *.
  unfold key_at in Hp. injection Hp as <- <-. done.
Qed.

Lemma decrement_iter sm base m i :
  describes sm base m -> (0 < i <= length m)%nat ->
  decrement (iter_at sm base (Z.of_nat i)) = iter_at sm base (Z.of_nat (pred i)).
Proof.
  intros Hd Hi. pose proof (de_num _ _ _ Hd) as Hn. unfold decrement, IsValid, iter_at, set_index. simpl.
  rewrite (proj2 (Z.ltb_ge _ _)), (proj2 (Z.ltb_ge _ _)) by lia. simpl.
  rewrite (proj2 (Z.ltb_ge _ _)) by lia. f_equal. lia.
Qed.

Lemma iterator_eq_at sm base i j : iterator_eq (iter_at sm base i) (iter_at sm base j) = (i =? j).
Proof. unfold iterator_eq, iter_at. simpl. by rewrite bool_decide_true. Qed.
End described.

(** Unsigned keys. *)
Lemma map_image_describes_id {V} (ksize : nat) (img : V -> list Z) mem base (m : smap V) :
  holds mem base (map_image ksize img m) -> sorted m ->
  (forall k v, (k, v) ∈ m -> fits (8 * Z.of_nat ksize) k) ->
  Z.of_nat (length m) < 2 ^ 31 -> Z.of_nat (length (map_image ksize img m)) < 2 ^ 32 ->
  describes ksize id img mem (StaticMap_at mem base) base m.
Proof. intros Hh Hs Hk. apply map_image_describes; [done..|]. intros k v Hin. by eapply wrap_small, Hk. Qed.

Section readers.
Context {V : Type} `{SimpleSerializer V} (ksize : nat) (Hks : (0 < ksize)%nat) (mem : list Z).
Notation w := (8 * Z.of_nat ksize).

Lemma lower_bound_at {A} (m : smap A) k : (lower_bound m k =? length m)%nat = false -> exists kv, m !! lower_bound m k = Some kv.
Proof.
  intros Hne. breflect. pose proof (lower_bound_le m k). apply lookup_lt_is_Some_2. lia.
Qed.

(** A range object in memory. *)
Lemma range_at p r :
  fits w (rbase r) -> holds mem p (range_image ksize r) ->
  range_base ksize mem p = rbase r /\ holds mem (entryptr ksize p) (image (rentry r)).
Proof.
  intros Hf Hh. unfold range_image in Hh. apply holds_app in Hh as [H1 H2].
  rewrite length_le_bytes in H2. split; [|done]. by apply holds_read.
Qed.

Lemma static_copy_out_node sm base (m : RangeMap V) i k r p :
  rm_ok w m -> describes ksize id (range_image ksize) mem sm base (rmap m) ->
  rmap m !! i = Some (k, r) ->
  GetValueRawPtr mem (iter_at sm base (Z.of_nat i)) = Some p ->
  GetKey ksize id mem (iter_at sm base (Z.of_nat i)) = Some k ->
  holds mem p (range_image ksize r) ->
  range_base ksize mem p = rbase r /\
  static_copy_out ksize mem (iter_at sm base (Z.of_nat i)) p =
    Some (entryptr ksize p, ret_base (copy_out w (k, r)), ret_size (copy_out w (k, r))) /\
  holds mem (entryptr ksize p) (image (ret_entry (copy_out w (k, r)))).
Proof.
  intros Hok Hd Hl Hp Hk Hh.
  pose proof (ok_range w m Hok k r (list_elem_of_lookup_2 _ _ _ Hl)) as Hr.
  destruct (range_at p r ltac:(unfold fits; lia) Hh) as [Hb He].
  unfold static_copy_out. rewrite Hk. simpl. by rewrite Hb.
Qed.

(** The answer of a static reader agrees with that of the original map. *)
Definition agrees (x : option (Retrieved (E := V))) (y : option (Z * Z * Z)) : Prop :=
  match x with
  | Some x => exists p, y = Some (p, ret_base x, ret_size x) /\ holds mem p (image (ret_entry x))
  | None => y = None
  end.

Lemma StaticRetrieveRange_agrees sm base (m : RangeMap V) a :
  rm_ok w m -> describes ksize id (range_image ksize) mem sm base (rmap m) ->
  agrees (RetrieveRange w m a) (StaticRetrieveRange ksize mem sm a).
Proof.
  intros Hok Hd. unfold StaticRetrieveRange.
  rewrite (describes_lower_bound _ _ _ _ _ _ _ _ Hd). simpl.
  rewrite !(describes_iterator _ _ _ _ _ _ _ _ Hd). simpl.
  rewrite iterator_eq_at, (de_num _ _ _ _ _ _ _ Hd). unfold RetrieveRange.
  destruct (Z.of_nat (lower_bound (rmap m) a) =? Z.of_nat (length (rmap m))) eqn:Eq; breflect.
  { rewrite lookup_ge_None_2 by lia. done. }
  destruct (lower_bound_at (rmap m) a) as [[k r] Hl]; [apply Nat.eqb_neq; lia|].
  rewrite Hl. destruct (describes_node _ _ _ _ _ _ _ _ _ _ Hd Hl) as (p & Hp & Hk & Hh).
  rewrite Hp. simpl.
  destruct (static_copy_out_node sm base m _ k r p Hok Hd Hl Hp Hk Hh) as (Hb & Hc & He).
  rewrite Hb. destruct (a <? rbase r); [done|]. exists (entryptr ksize p). by rewrite Hc.
Qed.

Lemma StaticRetrieveNearestRange_agrees sm base (m : RangeMap V) a :
  rm_ok w m -> describes ksize id (range_image ksize) mem sm base (rmap m) ->
  agrees (RetrieveNearestRange w m a) (StaticRetrieveNearestRange ksize mem sm a).
Proof.
  intros Hok Hd. unfold StaticRetrieveNearestRange, RetrieveNearestRange.
  pose proof (StaticRetrieveRange_agrees sm base m a Hok Hd) as Hr.
  destruct (RetrieveRange w m a) as [x|].
  { destruct Hr as (p & -> & Hh). by exists p. }
  simpl in Hr. rewrite Hr, (describes_upper_bound _ _ _ _ _ _ _ _ Hd). simpl.
  rewrite !(describes_iterator _ _ _ _ _ _ _ _ Hd). simpl. rewrite iterator_eq_at.
  pose proof (upper_bound_le (rmap m) a).
  destruct (Z.of_nat (upper_bound (rmap m) a) =? 0) eqn:Eq; breflect.
  { by rewrite (proj2 (Nat.eqb_eq _ _)) by lia. }
  rewrite (proj2 (Nat.eqb_neq _ _)) by lia.
  rewrite (decrement_iter _ _ _ _ _ _ _ _ Hd) by lia.
  destruct (lookup_lt_is_Some_2 (rmap m) (pred (upper_bound (rmap m) a))) as [[k r] Hl]; [lia|].
  rewrite Hl. destruct (describes_node _ _ _ _ _ _ _ _ _ _ Hd Hl) as (p & Hp & Hk & Hh). rewrite Hp.
  destruct (static_copy_out_node sm base m _ k r p Hok Hd Hl Hp Hk Hh) as (Hb & Hc & He).
  simpl. exists (entryptr ksize p). by rewrite Hc.
Qed.

Lemma StaticRetrieveRangeAtIndex_agrees sm base (m : RangeMap V) i :
  rm_ok w m -> describes ksize id (range_image ksize) mem sm base (rmap m) ->
  Z.of_nat (length (rmap m)) < 2 ^ 31 -> 0 <= i ->
  agrees (RetrieveRangeAtIndex w m i) (StaticRetrieveRangeAtIndex ksize mem sm i).
Proof.
  intros Hok Hd Hn Hi. unfold StaticRetrieveRangeAtIndex, RetrieveRangeAtIndex, StaticGetCount, GetCount, size.
  rewrite (de_num _ _ _ _ _ _ _ Hd), (wrap_small 32), swrap_small by (unfold fits; lia).
  dif; [done|]. rewrite (describes_iterator _ _ _ _ _ _ _ _ Hd). simpl.
  destruct (lookup_lt_is_Some_2 (rmap m) (Z.to_nat i)) as [[k r] Hl]; [lia|].
  rewrite Hl. rewrite <- (Z2Nat.id i) by lia.
  destruct (describes_node _ _ _ _ _ _ _ _ _ _ Hd Hl) as (p & Hp & Hk & Hh). rewrite Hp.
  destruct (static_copy_out_node sm base m _ k r p Hok Hd Hl Hp Hk Hh) as (Hb & Hc & He).
  simpl. exists (entryptr ksize p). by rewrite Hc.
Qed.

Lemma StaticRetrieve_agrees sm base (m : AddressMap V) a :
  describes ksize id image mem sm base (amap m) ->
  match Retrieve m a with
  | Some (e, k) => exists p, StaticRetrieve ksize mem sm a = Some (p, k) /\ holds mem p (image e)
  | None => StaticRetrieve ksize mem sm a = None
  end.
Proof.
  intros Hd. unfold StaticRetrieve, Retrieve.
  rewrite (describes_upper_bound _ _ _ _ _ _ _ _ Hd). simpl.
  rewrite !(describes_iterator _ _ _ _ _ _ _ _ Hd). simpl. rewrite iterator_eq_at.
  pose proof (upper_bound_le (amap m) a).
  destruct (Z.of_nat (upper_bound (amap m) a) =? 0) eqn:Eq; breflect.
  { by rewrite (proj2 (Nat.eqb_eq _ _)) by lia. }
  rewrite (proj2 (Nat.eqb_neq _ _)) by lia.
  rewrite (decrement_iter _ _ _ _ _ _ _ _ Hd) by lia.
  destruct (lookup_lt_is_Some_2 (amap m) (pred (upper_bound (amap m) a))) as [[k e] Hl]; [lia|].
  rewrite Hl. destruct (describes_node _ _ _ _ _ _ _ _ _ _ Hd Hl) as (p & Hp & Hk & Hh).
  simpl. rewrite Hp. simpl. rewrite Hk. simpl. by exists p.
Qed.

(** ** Contained range maps *)

(** The depth of the tree below a node. *)
Fixpoint height (m : ContainedRangeMap V) : nat :=
  let 'mkCRM _ _ om := m in
  match om with
  | None => 0
  | Some l => S (foldr (λ kc h, Nat.max (height kc.2) h) 0%nat l)
  end.

(** Every map of the tree fits the format: key order, keys and bases of
    [ksize] bytes, counts and sizes below the limits. *)
Inductive fits_format : ContainedRangeMap V -> Prop :=
| fits_node m :
    sorted (kids m) -> fits w (cbase m) -> Z.of_nat (length (kids m)) < 2 ^ 31 ->
    Z.of_nat (length (map_image ksize (contained_image ksize) (kids m))) < 2 ^ 32 ->
    fits 32 (SizeOf (centry m)) -> ser_ok (centry m) ->
    (forall k c, (k, c) ∈ kids m -> fits w k /\ fits_format c) ->
    fits_format m.

Lemma height_kids m k c : (k, c) ∈ kids m -> (height c < height m)%nat.
Proof.
  destruct m as [b e [l|]]; simpl; [|by intros ?%not_elem_of_nil].
  intros Hin. apply Nat.lt_succ_r. induction l as [|[k0 c0] l IH]; [by apply not_elem_of_nil in Hin|].
  simpl. apply elem_of_cons in Hin as [[= -> ->]|Hin]; [lia|]. specialize (IH Hin). lia.
Qed.

(** The node that the constructor reads back from its image. *)
Lemma StaticContained_at_image p m :
  fits_format m -> holds mem p (contained_image ksize m) ->
  let n := StaticContainedRangeMap_at ksize mem p in
  scrm_base n = cbase m /\
  (match scrm_entry_ptr n with
   | Some q => holds mem q (image (centry m))
   | None => image (centry m) = []
   end) /\
  exists base, describes ksize id (contained_image ksize) mem (scrm_map n) base (kids m).
Proof.
  intros Hf Hh. inversion Hf as [m' Hs Hb Hn Hlen Hse Hok Hk]; subst m'.
  destruct m as [b e om]. rewrite contained_image_eq in Hh. simpl cbase in *. simpl centry in *.
  apply holds_app in Hh as [H1 Hh]. rewrite length_le_bytes in Hh.
  apply holds_app in Hh as [H2 Hh]. rewrite length_le_bytes in Hh.
  apply holds_app in Hh as [H3 H4].
  assert (Hsz: read_u32 mem (p + Z.of_nat ksize) = SizeOf e).
  { unfold read_u32. rewrite wrap_small in H2 by done. by apply holds_read. }
  unfold StaticContainedRangeMap_at. cbn [scrm_base scrm_entry_ptr scrm_map]. rewrite Hsz.
  split; [by apply holds_read|]. split.
  - destruct (SizeOf e =? 0) eqn:Ez; breflect; [|done]. apply length_zero_iff_nil. unfold ser_ok in Hok. lia.
  - eexists. apply map_image_describes_id; try done.
    + unfold ser_ok in Hok. rewrite <- Hok. done.
    + intros k v Hin. by apply (Hk k v).
Qed.

Lemma StaticRetrieveContained_agrees fuel : forall m n base a,
  fits_format m -> describes ksize id (contained_image ksize) mem (scrm_map n) base (kids m) ->
  (height m < fuel)%nat ->
  match RetrieveContained m a with
  | Some e => match StaticRetrieveContained ksize mem fuel n a with
              | Some (Some q) => holds mem q (image e)
              | Some None => image e = []
              | None => False
              end
  | None => StaticRetrieveContained ksize mem fuel n a = None
  end.
Proof.
  induction fuel as [|fuel IH]; intros m n base a Hf Hd Hfuel; [lia|].
  inversion Hf as [m' Hs Hb Hn Hlen Hse Hok Hk]; subst m'. cbn [StaticRetrieveContained].
  rewrite (describes_lower_bound _ _ _ _ _ _ _ _ Hd). cbn [mbind option_bind].
  rewrite !(describes_iterator _ _ _ _ _ _ _ _ Hd). cbn [mbind option_bind].
  rewrite iterator_eq_at, (de_num _ _ _ _ _ _ _ Hd).
  assert (Hret: RetrieveContained m a =
    match kids m !! lower_bound (kids m) a with
    | Some (_, c) => if a <? cbase c then None
                     else match RetrieveContained c a with Some e => Some e | None => Some (centry c) end
    | None => None
    end).
  { rewrite RetrieveContained_kids. clear. generalize (cbase m) (centry m). induction (kids m) as [|[k c] l IHl]; intros b e; [done|].
    rewrite RetrieveContained_cons. cbn [lower_bound]. destruct (k <? a); [apply (IHl b e)|done]. }
  rewrite Hret. clear Hret.
  destruct (Z.of_nat (lower_bound (kids m) a) =? Z.of_nat (length (kids m))) eqn:Eq; breflect.
  { by rewrite lookup_ge_None_2 by lia. }
  destruct (lower_bound_at (kids m) a) as [[k c] Hl]; [apply Nat.eqb_neq; lia|].
  rewrite Hl. destruct (describes_node _ _ _ _ _ _ _ _ _ _ Hd Hl) as (p & Hp & _ & Hh).
  rewrite Hp. cbn [mbind option_bind]. cbv zeta. apply list_elem_of_lookup_2 in Hl as Hin. destruct (Hk _ _ Hin) as [_ Hfc].
  destruct (StaticContained_at_image p c Hfc Hh) as (Hcb & Hce & base' & Hd').
  rewrite Hcb. destruct (a <? cbase c); [done|].
  assert (Hh': (height c < fuel)%nat) by (pose proof (height_kids m k c Hin); lia).
  pose proof (IH c _ base' a Hfc Hd' Hh') as Hrec.
  destruct (RetrieveContained c a) as [e|].
  - by destruct (StaticRetrieveContained ksize mem fuel _ a) as [[q|]|].
  - by rewrite Hrec.
Qed.
End readers.

(** The allocator returns a buffer of the size asked for, with any contents. *)
Definition alloc_ok (alloc : Z -> option (list Z)) : Prop :=
  forall n, 0 <= n -> exists buffer, alloc n = Some buffer /\ Z.of_nat (length buffer) = n.

Lemma serialize_image {W} (size_of : W -> Z) write (img : W -> list Z) alloc v :
  alloc_ok alloc -> writes img write v -> Z.of_nat (length (img v)) = size_of v -> size_of v < 2 ^ 32 ->
  serialize size_of write alloc v = Some (img v, size_of v).
Proof.
  intros Ha Hw Hsz Hlt. unfold serialize. rewrite wrap_small by (unfold fits; lia).
  destruct (Ha (size_of v) ltac:(lia)) as (buffer & -> & Hl).
  pose proof (Hw [] buffer [] ltac:(lia)) as Hb. rewrite app_nil_r in Hb.
  change (Z.of_nat (length (@nil Z))) with 0 in Hb. cbn [app] in Hb. rewrite Hb. simpl. by rewrite app_nil_r.
Qed.

Lemma holds_whole bs : holds bs 0 bs.
Proof. pose proof (holds_here [] bs []) as Hh. simpl in Hh. by rewrite app_nil_r in Hh. Qed.

Section whole.
Context {V : Type} `{SimpleSerializer V} (ksize : nat).
Notation w := (8 * Z.of_nat ksize).

Lemma nodes_of_size {A} (img : A -> list Z) (m : smap A) :
  Z.of_nat (length (map_image ksize img m)) < 2 ^ 32 -> Z.of_nat (length m) < 2 ^ 31.
Proof. rewrite length_map_image. unfold values_start. lia. Qed.

(** The sizes of the parts of a tree are bounded by the size of the whole. *)
Lemma tree_fits_format (m : ContainedRangeMap V) pb ph lo :
  forest_ok pb ph lo (kids m) -> 0 <= lo -> ph < 2 ^ w -> fits w (cbase m) -> all_ser_ok m ->
  Z.of_nat (length (contained_image ksize m)) < 2 ^ 32 -> fits_format ksize m.
Proof.
  revert pb ph lo. induction m as [m IH] using contained_ind.
  intros pb ph lo Hf Hlo Hph Hb Hser Hlen. apply all_ser_ok_kids in Hser as [He Hk].
  assert (Hlen': Z.of_nat (length (map_image ksize (contained_image ksize) (kids m))) +
                 SizeOf (centry m) < 2 ^ 32).
  { destruct m as [b e om]. rewrite contained_image_eq, !length_app in Hlen. unfold ser_ok in He.
    simpl centry in *. lia. }
  assert (0 <= SizeOf (centry m)) by (unfold ser_ok in He; lia).
  assert (Hel: forall k c, (k, c) ∈ kids m ->
    lo <= cbase c <= k /\ k <= ph /\ forest_ok (cbase c) k (cbase c) (kids c) /\
    (length (contained_image ksize c) <= length (values_image (contained_image ksize) (kids m)))%nat).
  { clear - Hf. induction Hf as [|pb ph lo k0 c0 l ????? Hc _ _ IHl]; [by intros ?? ?%not_elem_of_nil|].
    intros k c [[= -> ->]|Hin]%elem_of_cons; cbn [values_image]; rewrite length_app.
    - split_and!; auto; lia.
    - destruct (IHl _ _ Hin) as (? & ? & ? & ?). split_and!; auto; lia. }
  rewrite length_map_image in Hlen'. unfold values_start in Hlen'.
  apply fits_node.
  - by eapply forest_ok_sorted.
  - exact Hb.
  - lia.
  - rewrite length_map_image. unfold values_start. lia.
  - unfold fits. lia.
  - exact He.
  - intros k c Hin. destruct (Hel k c Hin) as (? & ? & Hfc & ?). split; [unfold fits; lia|].
    eapply (IH k c Hin (cbase c) k (cbase c) Hfc); [lia|lia|unfold fits; lia|by eapply Hk|lia].
Qed.
End whole.

(** ** Properties *)
Section properties.
Context {V : Type} `{SimpleSerializer V} (ksize : nat) (Hks : (0 < ksize)%nat).
Context (alloc : Z -> option (list Z)) (Halloc : alloc_ok alloc).
Notation w := (8 * Z.of_nat ksize).

(** C19: a reachable [RangeMap] whose entries serialise to the size announced
    for them and whose total size fits the format is serialised into a buffer
    of exactly [SizeOf] bytes, and over that buffer the three retrieval
    functions of [StaticRangeMap] give, for every address, the base and size
    that [RangeMap] gives and a pointer to the bytes of the same entry. *)
Theorem range_map_serialized (m : RangeMap V) :
  rm_reachable w m -> (forall k r, (k, r) ∈ rmap m -> ser_ok (rentry r)) ->
  RangeMap_SizeOf ksize m < 2 ^ 32 ->
  exists buf, RangeMap_Serialize ksize alloc m = Some (buf, RangeMap_SizeOf ksize m) /\
    Z.of_nat (length buf) = RangeMap_SizeOf ksize m /\
    let sm := StaticMap_at buf 0 in
    (forall a, agrees buf (RetrieveRange w m a) (StaticRetrieveRange ksize buf sm a)) /\
    (forall a, agrees buf (RetrieveNearestRange w m a) (StaticRetrieveNearestRange ksize buf sm a)) /\
    (forall i, 0 <= i -> agrees buf (RetrieveRangeAtIndex w m i) (StaticRetrieveRangeAtIndex ksize buf sm i)).
Proof.
  intros Hr Hser Hlt. assert (Hok: rm_ok w m) by (apply rm_reachable_ok; [lia|done]).
  pose proof (RangeMap_size ksize m Hser) as Hsz.
  set (buf := map_image ksize (range_image ksize) (rmap m)) in *.
  assert (Hlen: Z.of_nat (length buf) < 2 ^ 32) by lia.
  exists buf. split.
  { apply (serialize_image (RangeMap_SizeOf ksize) (RangeMap_write ksize)
      (λ m, map_image ksize (range_image ksize) (rmap m))); try done.
    intros a x c Hx. apply write_map_layout; [|done]. intros r Hin.
    apply list_elem_of_fmap in Hin as ([k r'] & -> & Hin). simpl. by eapply range_writes, Hser. }
  split; [done|]. pose proof (nodes_of_size ksize (range_image ksize) (rmap m) Hlen) as Hn.
  assert (Hd: describes ksize id (range_image ksize) buf (StaticMap_at buf 0) 0 (rmap m)).
  { apply map_image_describes_id; [apply holds_whole|apply Hok| |done|exact Hlen].
    intros k r Hin. pose proof (ok_range w m Hok _ _ Hin). unfold fits. lia. }
  cbv zeta. split_and!.
  - intros a. by eapply StaticRetrieveRange_agrees.
  - intros a. by eapply StaticRetrieveNearestRange_agrees.
  - intros i Hi. by eapply StaticRetrieveRangeAtIndex_agrees.
Qed.

(** the same for [AddressMap] after any sequence of stores at [ksize]-byte
    addresses: [StaticAddressMap::Retrieve] over the serialised bytes finds the
    same address and the bytes of the same entry. *)
Lemma address_map_serialized (l : list (Z * V)) :
  (forall a e, (a, e) ∈ l -> fits w a /\ ser_ok e) ->
  let m := StoreAll l in
  AddressMap_SizeOf ksize m < 2 ^ 32 ->
  exists buf, AddressMap_Serialize ksize alloc m = Some (buf, AddressMap_SizeOf ksize m) /\
    Z.of_nat (length buf) = AddressMap_SizeOf ksize m /\
    forall a, match Retrieve m a with
              | Some (e, k) => exists p, StaticRetrieve ksize buf (StaticMap_at buf 0) a = Some (p, k) /\
                                         holds buf p (image e)
              | None => StaticRetrieve ksize buf (StaticMap_at buf 0) a = None
              end.
Proof.
  intros Hl m Hlt. destruct (StoreAll_entries l) as [Hs Hin]. fold m in Hs, Hin.
  assert (Hel: forall k e, (k, e) ∈ amap m -> fits w k /\ ser_ok e).
  { intros k e Hke. apply (Hl k e). apply Hin in Hke. clear - Hke.
    induction l as [|[k0 e0] l IH]; simpl in Hke; [done|].
    destruct (k0 =? k) eqn:Ek; breflect; [|right; by apply IH]. simplify_eq. left. }
  assert (Hser: forall k e, (k, e) ∈ amap m -> ser_ok e) by (intros; by eapply Hel).
  pose proof (StdMap_size ksize (amap m) Hser) as Hsz. unfold AddressMap_SizeOf in *.
  set (buf := map_image ksize image (amap m)) in *.
  assert (Hlen: Z.of_nat (length buf) < 2 ^ 32) by lia. exists buf. split.
  { apply (serialize_image (StdMap_SizeOf ksize) (StdMap_write ksize) (map_image ksize image)); try done.
    intros a x c Hx. apply write_map_layout; [|done]. intros e He.
    apply list_elem_of_fmap in He as ([k e'] & -> & He). simpl. by eapply simple_writes, Hser. }
  split; [done|]. intros a. eapply StaticRetrieve_agrees; [exact Hks|].
  apply map_image_describes_id; [apply holds_whole|done| |by eapply nodes_of_size|exact Hlen].
  intros k e Hke. by eapply Hel.
Qed.

(** A reachable [ContainedRangeMap] whose entries serialise to the size
    announced and whose total size fits the format is serialised into exactly
    [SizeOf] bytes, and over them [StaticContainedRangeMap::RetrieveRange]
    terminates, fails on the same addresses, and otherwise points at the bytes
    of the entry that [ContainedRangeMap::RetrieveRange] returns (a null
    pointer stands for an entry without bytes). *)
Lemma contained_range_map_serialized (m : ContainedRangeMap V) :
  crm_reachable w m -> fits w (cbase m) -> all_ser_ok m ->
  ContainedRangeMap_SizeOf ksize m < 2 ^ 32 ->
  exists buf, ContainedRangeMap_Serialize ksize alloc m = Some (buf, ContainedRangeMap_SizeOf ksize m) /\
    Z.of_nat (length buf) = ContainedRangeMap_SizeOf ksize m /\
    forall fuel a, (height m < fuel)%nat ->
      match RetrieveContained m a with
      | Some e =>
          match StaticRetrieveContained ksize buf fuel (StaticContainedRangeMap_at ksize buf 0) a with
          | Some (Some q) => holds buf q (image e)
          | Some None => image e = []
          | None => False
          end
      | None => StaticRetrieveContained ksize buf fuel (StaticContainedRangeMap_at ksize buf 0) a = None
      end.
Proof.
  intros Hr Hb Hser Hlt. assert (Hok: crm_ok w m) by (apply crm_reachable_ok; [lia|done]).
  pose proof (Contained_size ksize m Hser) as Hsz.
  set (buf := contained_image ksize m) in *. exists buf. split.
  { apply (serialize_image (ContainedRangeMap_SizeOf ksize) (ContainedRangeMap_write ksize)
      (contained_image ksize)); try done. by apply contained_writes. }
  split; [done|]. intros fuel a Hfuel.
  assert (Hf: fits_format ksize m).
  { eapply tree_fits_format; [exact Hok|done|lia|done|done|].
    change (Z.of_nat (length buf) < 2 ^ 32). lia. }
  destruct (StaticContained_at_image ksize Hks buf 0 m Hf (holds_whole buf)) as (_ & _ & base & Hd).
  by eapply StaticRetrieveContained_agrees.
Qed.
End properties.

(** ** Witnesses: two-byte addresses, one-byte entries *)

#[local] Instance byte_serializer : SimpleSerializer Z := IntSerializer 1.

Definition demo_alloc (n : Z) : option (list Z) := Some (repeat 170 (Z.to_nat n)).

Lemma demo_alloc_ok : alloc_ok demo_alloc.
Proof. intros n Hn. eexists. split; [reflexivity|]. rewrite repeat_length. lia. Qed.

Definition demo_ranges : RangeMap Z :=
  (StoreRange 16 (StoreRange 16 RangeMap_new 100 50 7).2 300 10 9).2.

Lemma demo_ranges_reachable : rm_reachable 16 demo_ranges.
Proof.
  unfold demo_ranges, rm_reachable.
  eapply rtc_l; [apply (step_store 16 _ 100 50 7); done|].
  eapply rtc_l; [apply (step_store 16 _ 300 10 9); done|]. apply rtc_refl.
Defined.

Lemma byte_ser_ok (e : Z) : ser_ok e.
Proof. reflexivity. Qed.

Lemma range_map_serialized_witness :
  exists buf, RangeMap_Serialize 2 demo_alloc demo_ranges = Some (buf, 22) /\
    agrees buf (Some (mkRetrieved 9 300 0 10)) (StaticRetrieveRange 2 buf (StaticMap_at buf 0) 305).
Proof.
  destruct (range_map_serialized 2 ltac:(lia) demo_alloc demo_alloc_ok demo_ranges
    demo_ranges_reachable (λ _ r _, byte_ser_ok (rentry r)) ltac:(vm_compute; reflexivity))
    as (buf & H1 & _ & H2 & _).
  exists buf. split; [exact H1|].
  replace (Some (mkRetrieved 9 300 0 10)) with (RetrieveRange (8 * Z.of_nat 2) demo_ranges 305)
    by (vm_compute; reflexivity). apply H2.
Defined.

Lemma address_map_serialized_witness :
  exists buf p, AddressMap_Serialize 2 demo_alloc (StoreAll [(10, 1); (20, 2)]) = Some (buf, 18) /\
    StaticRetrieve 2 buf (StaticMap_at buf 0) 15 = Some (p, 10) /\ holds buf p [1].
Proof.
  destruct (address_map_serialized 2 ltac:(lia) demo_alloc demo_alloc_ok [(10, 1); (20, 2)])
    as (buf & H1 & _ & H2).
  { intros a e Hin. split; [|apply byte_ser_ok].
    apply elem_of_cons in Hin as [[= -> _]|[= -> _]%list_elem_of_singleton]; done. }
  { vm_compute. reflexivity. }
  specialize (H2 15).
  replace (Retrieve (StoreAll [(10, 1); (20, 2)]) 15) with (Some (1, 10)) in H2 by (vm_compute; reflexivity).
  destruct H2 as (p & Hp & Hh). exists buf, p. split; [exact H1|]. split; [exact Hp|exact Hh].
Defined.

(** [100, 149] with [120, 129] inside. *)
Definition demo_contained : ContainedRangeMap Z :=
  (StoreContained 16 (StoreContained 16 (ContainedRangeMap_new 0) 100 50 7).2 120 10 9).2.

Lemma demo_contained_reachable : crm_reachable 16 demo_contained.
Proof.
  exists 0. eapply rtc_l; [apply (crm_step_store 16 _ 100 50 7); done|].
  eapply rtc_l; [apply (crm_step_store 16 _ 120 10 9); done|]. apply rtc_refl.
Defined.

Lemma contained_range_map_serialized_witness :
  exists buf q, ContainedRangeMap_Serialize 2 demo_alloc demo_contained = Some (buf, 45) /\
    StaticRetrieveContained 2 buf 5 (StaticContainedRangeMap_at 2 buf 0) 125 = Some (Some q) /\
    holds buf q [9].
Proof.
  destruct (contained_range_map_serialized 2 ltac:(lia) demo_alloc demo_alloc_ok demo_contained
    demo_contained_reachable) as (buf & H1 & _ & H2).
  { vm_compute. done. }
  { repeat split; apply byte_ser_ok. }
  { vm_compute. reflexivity. }
  specialize (H2 5%nat 125 ltac:(vm_compute; lia)).
  replace (RetrieveContained demo_contained 125) with (Some 9) in H2 by (vm_compute; reflexivity).
  destruct (StaticRetrieveContained 2 buf 5 _ 125) as [[q|]|] eqn:Er; [|done|done].
  exists buf, q. split; [exact H1|]. split; [exact Er|exact H2].
Defined.
