(* ===== verification/CStr.v ===== *)
(** C strings: character classes, [strtok_r], the [strto*] conversions and
    the stream formatting and extraction of unsigned integers, as the symbol
    file parsers use them; processor/tokenize.cc; processor/pathname_stripper.cc.
    A C string is the list of its characters, its terminator left out; a C++
    [std::string] is a list of characters that may contain NULs. *)
From Stdlib Require Import Ascii.
From stdpp Require Import strings list.
From S2P Require Import Prelude.

Abbreviation cstring := (list ascii).

(** A literal of the source. *)
Definition lit (s : string) : cstring := String.list_ascii_of_string s.

Definition code (c : ascii) : Z := Z.of_N (N_of_ascii c).
Definition chr (z : Z) : ascii := ascii_of_N (Z.to_N z).
Definition NUL : ascii := chr 0.
Definition SP : ascii := chr 32.
Definition CRLF : cstring := [chr 13; chr 10].

(** basic_source_line_resolver.cc, [kWhitespace]. *)
Definition kWhitespace : cstring := SP :: CRLF.

(** [strcmp(...) == 0], [std::string::operator==]. *)
Definition str_eqb (a b : cstring) : bool := bool_decide (a = b).

(** [strchr(cs, c) != NULL] for a character that is not the terminator. *)
Definition in_set (cs : cstring) (c : ascii) : bool := existsb (Ascii.eqb c) cs.

(** The characters before the first NUL: what the C functions see. *)
Fixpoint c_str (s : cstring) : cstring :=
  match s with
  | [] => []
  | c :: s' => if code c =? 0 then [] else c :: c_str s'
  end.

(** The longest prefix whose characters satisfy [p], and the rest. *)
Fixpoint span (p : ascii -> bool) (s : cstring) : cstring * cstring :=
  match s with
  | [] => ([], [])
  | c :: s' => if p c then let '(a, b) := span p s' in (c :: a, b) else ([], s)
  end.

(** [strncmp(s, prefix, strlen(prefix)) == 0]. *)
Fixpoint starts_with (prefix s : cstring) : bool :=
  match prefix, s with
  | [], _ => true
  | _, [] => false
  | p :: prefix', c :: s' => Ascii.eqb p c && starts_with prefix' s'
  end.

(** [strtok_r]: skip delimiters, take the token, step over the delimiter that
    ends it.  The second component is [*save_ptr]. *)
Definition strtok_r (s delim : cstring) : option cstring * cstring :=
  let '(_, s) := span (in_set delim) s in
  match s with
  | [] => (None, [])
  | _ => let '(token, rest) := span (λ c, negb (in_set delim c)) s in (Some token, tail rest)
  end.

(** ** Number conversions *)

Definition isspace (c : ascii) : bool := (code c =? 32) || ((9 <=? code c) && (code c <=? 13)).

Definition digit_val (base : Z) (c : ascii) : option Z :=
  let z := code c in
  let d := if (48 <=? z) && (z <=? 57) then z - 48
           else if (97 <=? z) && (z <=? 122) then z - 87
           else if (65 <=? z) && (z <=? 90) then z - 55
           else 36 in
  if d <? base then Some d else None.

Definition starts_digit (base : Z) (s : cstring) : bool :=
  match s with
  | [] => false
  | c :: _ => match digit_val base c with Some _ => true | None => false end
  end.

(** The value of the leading digits, from an accumulated value, and the rest. *)
Fixpoint scan_digits (base acc : Z) (s : cstring) : Z * cstring :=
  match s with
  | [] => (acc, [])
  | c :: s' =>
      match digit_val base c with
      | Some d => scan_digits base (acc * base + d) s'
      | None => (acc, s)
      end
  end.

Definition scan_sign (s : cstring) : bool * cstring :=
  match s with
  | [] => (false, [])
  | c :: s' => if code c =? 45 then (true, s') else if code c =? 43 then (false, s') else (false, s)
  end.

(** The optional [0x] of base 16, taken only when a digit follows it. *)
Definition skip_0x (base : Z) (s : cstring) : cstring :=
  match s with
  | z :: x :: s' =>
      if (base =? 16) && (code z =? 48) && ((code x =? 120) || (code x =? 88)) && starts_digit 16 s'
      then s' else s
  | _ => s
  end.

(** The subject sequence of [strtol] and its relatives: sign, magnitude and
    the text after it, or [None] when there is no conversion. *)
Definition strto (s : cstring) (base : Z) : option (bool * Z * cstring) :=
  let '(_, s) := span isspace s in
  let '(neg, s) := scan_sign s in
  let s := skip_0x base s in
  if starts_digit base s
  then let '(mag, rest) := scan_digits base 0 s in Some (neg, mag, rest)
  else None.

(** [strtoull], and [strtoul] where [unsigned long] has 64 bits: the value and [*endptr]. *)
Definition strtoull (s : cstring) (base : Z) : Z * cstring :=
  match strto s base with
  | None => (0, s)
  | Some (neg, mag, rest) =>
      (if 2 ^ 64 <=? mag then 2 ^ 64 - 1 else if neg then wrap 64 (- mag) else mag, rest)
  end.

(** [strtol], [long] having 64 bits. *)
Definition strtol (s : cstring) (base : Z) : Z * cstring :=
  match strto s base with
  | None => (0, s)
  | Some (neg, mag, rest) =>
      (if neg then (if 2 ^ 63 <? mag then - 2 ^ 63 else - mag)
       else (if 2 ^ 63 <=? mag then 2 ^ 63 - 1 else mag), rest)
  end.

(** [stream >> value] for a [w]-bit unsigned [value] in decimal: the value
    and the rest of the stream, or [None] when the stream fails. *)
Definition extract_unsigned (w : Z) (s : cstring) : option (Z * cstring) :=
  let '(_, s) := span isspace s in
  let '(neg, s) := scan_sign s in
  if starts_digit 10 s then
    let '(mag, rest) := scan_digits 10 0 s in
    if 2 ^ w <=? mag then None else Some (if neg then wrap w (- mag) else mag, rest)
  else None.

(** [stream << value]: the digits of a non-negative number. *)
Definition digit_char (d : Z) : ascii := chr (if d <? 10 then 48 + d else 87 + d).

Fixpoint print_loop (fuel : nat) (base z : Z) (acc : cstring) : cstring :=
  match fuel with
  | O => acc
  | S fuel =>
      let acc := digit_char (z mod base) :: acc in
      if z / base =? 0 then acc else print_loop fuel base (z / base) acc
  end.

Definition print_num (base z : Z) : cstring := print_loop (S (Z.to_nat (Z.log2 z))) base z [].

(** [stream << value] in decimal and after [std::hex]. *)
Definition print_dec := print_num 10.
Definition print_hex := print_num 16.

Definition print_int (z : Z) : cstring := if z <? 0 then chr 45 :: print_dec (- z) else print_dec z.

(** Words with one space between them. *)
Fixpoint join (ts : list cstring) : cstring :=
  match ts with
  | [] => []
  | [t] => t
  | t :: ts' => t ++ SP :: join ts'
  end.

(** ** processor/tokenize.cc *)

(** The loop of [Tokenize]: the remaining count, the strtok state and the tokens. *)
Fixpoint tokenize_loop (separators : cstring) (remaining : nat) (token : option cstring)
    (save : cstring) (tokens : list cstring) : Z * cstring * list cstring :=
  match token with
  | None => (Z.of_nat remaining, save, tokens)
  | Some t =>
      match remaining with
      | O => (-1, save, tokens)
      | S O => (0, save, tokens)
      | S r =>
          let tokens := tokens ++ [t] in
          let '(token, save) := if (1 <? r)%nat then strtok_r save separators else (token, save) in
          tokenize_loop separators r token save tokens
      end
  end.

(** [Tokenize]: the tokens, or [None] when there are not [max_tokens] of them.
    ([tokens] itself is not read by the callers after a failure.) *)
Definition Tokenize (line separators : cstring) (max_tokens : nat) : option (list cstring) :=
  let '(token, save) := strtok_r line separators in
  let '(remaining, save, tokens) := tokenize_loop separators max_tokens token save [] in
  let tokens :=
    if remaining =? 0 then
      match (strtok_r save CRLF).1 with
      | Some t => tokens ++ [t]
      | None => tokens
      end
    else tokens in
  if (length tokens =? max_tokens)%nat then Some tokens else None.

(** [StringToVector]: the characters and a terminator. *)
Definition StringToVector (str : cstring) : list ascii := str ++ [NUL].

(** ** processor/pathname_stripper.cc *)

(** [path.rfind(c)]: the position of the last [c]. *)
Fixpoint rfind (c : ascii) (path : cstring) : option nat :=
  match path with
  | [] => None
  | x :: path' =>
      match rfind c path' with
      | Some i => Some (S i)
      | None => if Ascii.eqb x c then Some O else None
      end
  end.

(** [PathnameStripper::File]. *)
Definition File (path : cstring) : cstring :=
  let slash := rfind (chr 47) path in
  let backslash := rfind (chr 92) path in
  let file_start :=
    match slash, backslash with
    | Some s, None => S s
    | Some s, Some b => if (b <? s)%nat then S s else S b
    | None, Some b => S b
    | None, None => O
    end in
  drop file_start path.

(** ** Lemmas *)

Lemma code_range c : 0 <= code c < 256.
Proof. unfold code. pose proof (N_ascii_bounded c). lia. Qed.

Lemma code_chr z : 0 <= z < 256 -> code (chr z) = z.
Proof. intros. unfold code, chr. rewrite N_ascii_embedding by lia. lia. Qed.

Lemma chr_code c : chr (code c) = c.
Proof. unfold code, chr. rewrite N2Z.id. apply ascii_N_embedding. Qed.

Lemma code_inj c d : code c = code d -> c = d.
Proof. intros E. by rewrite <- (chr_code c), E, chr_code. Qed.

Lemma in_set_spec cs c : in_set cs c = true <-> c ∈ cs.
Proof.
  unfold in_set. rewrite existsb_exists. split.
  - intros (x & Hx & ->%Ascii.eqb_eq). by apply list_elem_of_In.
  - intros Hc%list_elem_of_In. exists c. split; [done|]. apply Ascii.eqb_refl.
Qed.

Lemma in_set_false cs c : in_set cs c = false <-> c ∉ cs.
Proof. rewrite <- in_set_spec. by destruct (in_set cs c). Qed.

Lemma str_eqb_spec a b : str_eqb a b = true <-> a = b.
Proof. apply bool_decide_eq_true. Qed.

Lemma str_eqb_refl a : str_eqb a a = true.
Proof. by apply str_eqb_spec. Qed.

(** The characters of [s] all satisfy [p]; the first of [s], if any, fails it. *)
Definition all (p : ascii -> bool) (s : cstring) : Prop := Forall (λ c, p c = true) s.
Definition stops (p : ascii -> bool) (s : cstring) : Prop :=
  match s with [] => True | c :: _ => p c = false end.

Lemma all_forallb p s : forallb p s = true -> all p s.
Proof. intros H. apply Forall_forall. intros c Hc. rewrite forallb_forall in H. by apply H, list_elem_of_In. Qed.

Lemma span_spec p s a b : span p s = (a, b) -> s = a ++ b /\ all p a /\ stops p b.
Proof.
  revert a b. induction s as [|c s IH]; intros a b; simpl.
  - intros [= <- <-]. split_and!; [done|constructor|done].
  - destruct (p c) eqn:E.
    + destruct (span p s) as [a' b'] eqn:Es. intros [= <- <-].
      destruct (IH a' b' eq_refl) as (-> & ? & ?). split_and!; [done|by constructor|done].
    + intros [= <- <-]. split_and!; [done|constructor|done].
Qed.

Lemma span_app p a b : all p a -> stops p b -> span p (a ++ b) = (a, b).
Proof.
  induction 1 as [|c a Hc _ IH]; intros Hs; simpl.
  - destruct b as [|c b]; [done|]. simpl in *. by rewrite Hs.
  - rewrite Hc. by rewrite IH.
Qed.

Lemma c_str_app s t : (forall c, c ∈ s -> c <> NUL) -> c_str (s ++ NUL :: t) = s.
Proof.
  induction s as [|c s IH]; intros Hs; [done|]. simpl.
  destruct (code c =? 0) eqn:E; breflect.
  - exfalso. apply (Hs c); [left|]. by apply code_inj.
  - rewrite IH; [done|]. intros ??. apply Hs. by right.
Qed.

(** *** [strtok_r] *)

(** The token and what is left, for a line that starts with delimiters [gap]. *)
Lemma strtok_token delim gap t rest :
  all (in_set delim) gap -> t <> [] -> all (λ c, negb (in_set delim c)) t ->
  stops (λ c, negb (in_set delim c)) rest ->
  strtok_r (gap ++ t ++ rest) delim = (Some t, tail rest).
Proof.
  intros Hg Hne Ht Hr. unfold strtok_r. rewrite span_app; [|done|].
  - destruct t as [|c t]; [done|]. cbn [app]. rewrite app_comm_cons. by rewrite span_app.
  - destruct t as [|c t]; [done|]. simpl. inversion Ht as [|? ? Hc]; subst. by apply negb_true_iff.
Qed.

Lemma strtok_token_here delim t rest :
  t <> [] -> all (λ c, negb (in_set delim c)) t -> stops (λ c, negb (in_set delim c)) rest ->
  strtok_r (t ++ rest) delim = (Some t, tail rest).
Proof. intros. apply (strtok_token delim [] t rest); [constructor|done..]. Qed.

Lemma strtok_Some s delim t save :
  strtok_r s delim = (Some t, save) ->
  exists gap rest, s = gap ++ t ++ rest /\ all (in_set delim) gap /\ t <> [] /\
    all (λ c, negb (in_set delim c)) t /\ stops (λ c, negb (in_set delim c)) rest /\ save = tail rest.
Proof.
  unfold strtok_r. destruct (span (in_set delim) s) as [gap s'] eqn:Es.
  apply span_spec in Es as (-> & Hg & Hs). destruct s' as [|c s']; [done|].
  destruct (span _ (c :: s')) as [tok rest] eqn:Et. intros [= <- <-].
  pose proof (span_spec _ _ _ _ Et) as (-> & Ht & Hr). exists gap, rest. split_and!; try done.
  intros ->. simpl in Hs, Et. rewrite Hs in Et. simpl in Et. by destruct (span _ s').
Qed.

Lemma strtok_None s delim save : strtok_r s delim = (None, save) -> all (in_set delim) s /\ save = [].
Proof.
  unfold strtok_r. destruct (span (in_set delim) s) as [gap s'] eqn:Es.
  apply span_spec in Es as (-> & Hg & Hs). destruct s' as [|c s'].
  - intros [= <-]. by rewrite app_nil_r.
  - by destruct (span _ (c :: s')).
Qed.

(** *** [Tokenize] *)

(** The fields of a line, as [Tokenize] cuts them when it is asked for at least two. *)
Fixpoint fields (seps : cstring) (n : nat) (line : cstring) : option (list cstring) :=
  match n with
  | O => None
  | S O => (λ t, [t]) <$> (strtok_r line CRLF).1
  | S n' => match strtok_r line seps with
            | (Some t, save) => cons t <$> fields seps n' save
            | (None, _) => None
            end
  end.

Lemma fields_SS seps n line :
  fields seps (S (S n)) line =
  match strtok_r line seps with
  | (Some t, save) => cons t <$> fields seps (S n) save
  | (None, _) => None
  end.
Proof. done. Qed.

Lemma fields_length seps n line ts : fields seps n line = Some ts -> length ts = n.
Proof.
  revert line ts. induction n as [|[|n] IH]; intros line ts; [done|..].
  - simpl. destruct (strtok_r line CRLF).1; [|done]. by intros [= <-].
  - rewrite fields_SS. destruct (strtok_r line seps) as [[t|] save]; [|done].
    destruct (fields seps (S n) save) as [ts'|] eqn:E; [|done]. intros [= <-]. simpl. f_equal. eauto.
Qed.

Definition tokenize_end (r : Z * cstring * list cstring) : list cstring :=
  let '(remaining, save, tokens) := r in
  if remaining =? 0 then
    match (strtok_r save CRLF).1 with Some t => tokens ++ [t] | None => tokens end
  else tokens.

Lemma tokenize_loop_SSS seps n t save acc :
  tokenize_loop seps (S (S (S n))) (Some t) save acc =
  let '(token, save) := strtok_r save seps in
  tokenize_loop seps (S (S n)) token save (acc ++ [t]).
Proof. done. Qed.

Lemma tokenize_loop_fields seps n : forall line acc,
  let '(token, save) := strtok_r line seps in
  match fields seps (S (S n)) line with
  | Some ts => tokenize_end (tokenize_loop seps (S (S n)) token save acc) = acc ++ ts
  | None => (length (tokenize_end (tokenize_loop seps (S (S n)) token save acc)) < length acc + S (S n))%nat
  end.
Proof.
  induction n as [|n IH]; intros line acc; rewrite fields_SS.
  - destruct (strtok_r line seps) as [[t|] save] eqn:E; cbn [tokenize_loop]; [|simpl; lia].
    cbn [Nat.ltb Nat.leb tokenize_end Z.eqb fields].
    destruct (strtok_r save CRLF).1 as [l|] eqn:E'; cbn.
    + by rewrite <- app_assoc.
    + rewrite length_app. simpl. lia.
  - destruct (strtok_r line seps) as [[t|] save] eqn:E; [|simpl; lia].
    specialize (IH save (acc ++ [t])). rewrite tokenize_loop_SSS.
    destruct (strtok_r save seps) as [token' save'] eqn:E'.
    destruct (fields seps (S (S n)) save) as [ts|]; cbn [fmap option_fmap option_map].
    + rewrite <- (app_assoc acc [t] ts) in IH. exact IH.
    + rewrite length_app in IH. change (length [t]) with 1%nat in IH. lia.
Qed.

Lemma Tokenize_fields seps n line : (2 <= n)%nat -> Tokenize line seps n = fields seps n line.
Proof.
  intros Hn. destruct n as [|[|n]]; [lia..|]. unfold Tokenize.
  pose proof (tokenize_loop_fields seps n line []) as H.
  destruct (strtok_r line seps) as [token save] eqn:E.
  destruct (tokenize_loop seps (S (S n)) token save []) as [[remaining save'] tokens] eqn:El.
  cbn [tokenize_end] in H. destruct (fields seps (S (S n)) line) as [ts|] eqn:Ef.
  - rewrite H. simpl app. rewrite (fields_length _ _ _ _ Ef). by rewrite Nat.eqb_refl.
  - simpl length in H. destruct (length _ =? S (S n))%nat eqn:En; [|done]. breflect. simpl in *. lia.
Qed.

(** One field and what follows it. *)
Lemma fields_cons seps n t d rest :
  t <> [] -> all (λ c, negb (in_set seps c)) t -> in_set seps d = true ->
  fields seps (S (S n)) (t ++ d :: rest) = cons t <$> fields seps (S n) rest.
Proof.
  intros Hne Ht Hd. rewrite fields_SS.
  rewrite strtok_token_here; [done..|]. simpl. by rewrite Hd.
Qed.

(** The last field extends to the end of the line. *)
Lemma fields_last seps t :
  t <> [] -> all (λ c, negb (in_set CRLF c)) t -> fields seps 1 t = Some [t].
Proof.
  intros Hne Ht. cbn [fields]. rewrite <- (app_nil_r t) at 1.
  by rewrite strtok_token_here.
Qed.

(** A word and the rest of a line, as records are written. *)
Definition is_field (t : cstring) : Prop := t <> [] /\ all (λ c, negb (in_set kWhitespace c)) t.
Definition is_text (t : cstring) : Prop := t <> [] /\ all (λ c, negb (in_set CRLF c)) t.

Lemma is_field_text t : is_field t -> is_text t.
Proof.
  intros [Hne Ht]. split; [done|]. eapply Forall_impl; [exact Ht|]. intros c Hc%negb_true_iff.
  apply negb_true_iff, in_set_false. apply in_set_false in Hc. intros Hin. apply Hc. by right.
Qed.

(** Words with one space between them are the fields of the line they make. *)
Lemma fields_join ts t :
  Forall is_field ts -> is_text t ->
  fields kWhitespace (S (length ts)) (join (ts ++ [t])) = Some (ts ++ [t]).
Proof.
  intros Hts [Hne Ht]. induction Hts as [|x ts [Hx1 Hx2] _ IH]; [by apply fields_last|].
  replace (join ((x :: ts) ++ [t])) with (x ++ SP :: join (ts ++ [t])) by (by destruct ts).
  cbn [length]. rewrite fields_cons by done. by rewrite IH.
Qed.

Lemma Tokenize_join n ts t :
  ts <> [] -> n = S (length ts) -> Forall is_field ts -> is_text t ->
  Tokenize (join (ts ++ [t])) kWhitespace n = Some (ts ++ [t]).
Proof.
  intros Hne -> Hts Ht. rewrite Tokenize_fields by (destruct ts; [done|simpl; lia]). by apply fields_join.
Qed.

(** *** Numbers *)

Lemma digit_val_char d base : 0 <= d < base -> base <= 36 -> digit_val base (digit_char d) = Some d.
Proof.
  intros. unfold digit_val, digit_char.
  destruct (d <? 10) eqn:E; breflect; rewrite code_chr by lia.
  - destruct ((48 <=? 48 + d) && (48 + d <=? 57)) eqn:E1; [|breflect; lia].
    replace (48 + d - 48) with d by lia. by destruct (d <? base) eqn:?; [|breflect; lia].
  - destruct ((48 <=? 87 + d) && (87 + d <=? 57)) eqn:E1; [breflect; lia|].
    destruct ((97 <=? 87 + d) && (87 + d <=? 122)) eqn:E2; [|breflect; lia].
    replace (87 + d - 87) with d by lia. by destruct (d <? base) eqn:?; [|breflect; lia].
Qed.

Definition is_digit (base : Z) (c : ascii) : bool :=
  match digit_val base c with Some _ => true | None => false end.

Lemma starts_digit_stops base s : stops (is_digit base) s <-> starts_digit base s = false.
Proof. destruct s; simpl; [done|]. unfold is_digit. done. Qed.

(** The value of a sequence of digits after [acc]. *)
Fixpoint digits_val (base acc : Z) (s : cstring) : Z :=
  match s with
  | [] => acc
  | c :: s' => match digit_val base c with
               | Some d => digits_val base (acc * base + d) s'
               | None => acc
               end
  end.

Lemma digit_val_range base c d : digit_val base c = Some d -> 0 <= d.
Proof.
  unfold digit_val. set (x := if (48 <=? code c) && _ then _ else _).
  destruct (x <? base); [|done]. intros [= <-]. unfold x. repeat dif; lia.
Qed.

Lemma scan_digits_nonneg base s : forall acc, 0 <= base -> 0 <= acc -> 0 <= (scan_digits base acc s).1.
Proof.
  induction s as [|c s IH]; intros acc Hb Ha; simpl; [done|].
  destruct (digit_val base c) as [d|] eqn:E; [|done]. apply digit_val_range in E.
  apply IH; [done|]. nia.
Qed.

Lemma scan_digits_app base s t : forall acc,
  all (is_digit base) s -> stops (is_digit base) t ->
  scan_digits base acc (s ++ t) = (digits_val base acc s, t).
Proof.
  induction s as [|c s IH]; intros acc Hs Ht.
  - destruct t as [|c t]; [done|]. unfold stops, is_digit in Ht. simpl. by destruct (digit_val base c).
  - inversion Hs as [|? ? Hc Hs']; subst. unfold is_digit in Hc. simpl.
    destruct (digit_val base c); [|done]. by apply IH.
Qed.

Lemma digits_val_app base s t : forall acc,
  all (is_digit base) s -> digits_val base acc (s ++ t) = digits_val base (digits_val base acc s) t.
Proof.
  induction s as [|c s IH]; intros acc Hs; [done|].
  inversion Hs as [|? ? Hc Hs']; subst. unfold is_digit in Hc. simpl.
  destruct (digit_val base c); [|done]. by apply IH.
Qed.

(** Printing yields digits whose value is the number. *)
Lemma print_loop_digits base fuel : forall z acc,
  2 <= base <= 36 -> 0 <= z < base ^ Z.of_nat fuel -> 0 < Z.of_nat fuel ->
  exists ds, print_loop fuel base z acc = ds ++ acc /\ ds <> [] /\ all (is_digit base) ds /\
    digits_val base 0 ds = z.
Proof.
  induction fuel as [|fuel IH]; intros z acc Hb Hz Hf; [lia|].
  cbn [print_loop]. pose proof (Z.mod_pos_bound z base ltac:(lia)) as Hm.
  pose proof (digit_val_char (z mod base) base Hm ltac:(lia)) as Hd.
  assert (Hdig: all (is_digit base) [digit_char (z mod base)]).
  { constructor; [|constructor]. unfold is_digit. by rewrite Hd. }
  destruct (z / base =? 0) eqn:E; breflect.
  - exists [digit_char (z mod base)]. split_and!; [done|done|done|]. simpl. rewrite Hd.
    pose proof (Z.div_mod z base). lia.
  - assert (0 < z / base) by (pose proof (Z.div_pos z base); lia).
    rewrite Nat2Z.inj_succ, Z.pow_succ_r in Hz by lia.
    assert (Hlt: z / base < base ^ Z.of_nat fuel) by (apply Z.div_lt_upper_bound; lia).
    destruct fuel as [|fuel]; [simpl in Hlt; lia|].
    destruct (IH (z / base) (digit_char (z mod base) :: acc)) as (ds & -> & Hne & Hall & Hval); [lia..|].
    exists (ds ++ [digit_char (z mod base)]). split_and!.
    + by rewrite <- app_assoc.
    + by destruct ds.
    + by apply Forall_app.
    + rewrite digits_val_app by done. rewrite Hval. simpl. rewrite Hd.
      pose proof (Z.div_mod z base). lia.
Qed.

Lemma print_num_digits base z :
  2 <= base <= 36 -> 0 <= z ->
  print_num base z <> [] /\ all (is_digit base) (print_num base z) /\ digits_val base 0 (print_num base z) = z.
Proof.
  intros Hb Hz. unfold print_num.
  destruct (print_loop_digits base (S (Z.to_nat (Z.log2 z))) z [] Hb) as (ds & E & H); [|lia|].
  - split; [done|]. rewrite Nat2Z.inj_succ, Z2Nat.id by apply Z.log2_nonneg.
    destruct (decide (z = 0)) as [->|]; [apply Z.pow_pos_nonneg; simpl; lia|].
    pose proof (Z.log2_spec z ltac:(lia)) as [_ Hl]. eapply Z.lt_le_trans; [exact Hl|].
    apply Z.pow_le_mono_l. lia.
  - rewrite E, app_nil_r. done.
Qed.

(** Digits are printed in lower case. *)
Definition lower_digit (c : ascii) : bool :=
  ((48 <=? code c) && (code c <=? 57)) || ((97 <=? code c) && (code c <=? 102)).

Lemma print_num_lower base z : 2 <= base <= 16 -> 0 <= z -> all lower_digit (print_num base z).
Proof.
  intros Hb. unfold print_num. generalize (S (Z.to_nat (Z.log2 z))) as fuel. intros fuel.
  assert (Hacc: all lower_digit []) by constructor. revert z Hacc. generalize (@nil ascii) as acc.
  induction fuel as [|fuel IH]; intros acc z Hacc Hz; [done|]. cbn [print_loop].
  pose proof (Z.mod_pos_bound z base ltac:(lia)) as Hm.
  assert (Hd: lower_digit (digit_char (z mod base)) = true).
  { unfold lower_digit, digit_char. destruct (z mod base <? 10) eqn:E; breflect; rewrite code_chr by lia;
      apply orb_true_iff; [left|right]; apply andb_true_iff; split; apply Z.leb_le; lia. }
  dif; [by constructor|]. apply IH; [by constructor|]. apply Z.div_pos; lia.
Qed.

Lemma is_digit_code base c :
  base <= 16 -> is_digit base c = true ->
  48 <= code c <= 57 \/ 97 <= code c <= 102 \/ 65 <= code c <= 70.
Proof.
  unfold is_digit, digit_val. intros Hb.
  destruct ((48 <=? code c) && (code c <=? 57)) eqn:E1; breflect; [lia|].
  destruct ((97 <=? code c) && (code c <=? 122)) eqn:E2; breflect.
  { destruct (code c - 87 <? base) eqn:E3; [|done]. breflect. lia. }
  destruct ((65 <=? code c) && (code c <=? 90)) eqn:E4; breflect.
  { destruct (code c - 55 <? base) eqn:E3; [|done]. breflect. lia. }
  destruct (36 <? base) eqn:E3; [breflect; lia|done].
Qed.

(** What precedes the digits is absent from a printed number. *)
Lemma digits_plain base s :
  base <= 16 -> s <> [] -> all (is_digit base) s ->
  span isspace s = ([], s) /\ scan_sign s = (false, s) /\ skip_0x base s = s /\ starts_digit base s = true.
Proof.
  intros Hb Hne Hall. destruct s as [|c s]; [done|].
  inversion Hall as [|? ? Hc Hs]; subst. pose proof (is_digit_code base c Hb Hc) as Hcode.
  split_and!.
  - simpl. unfold isspace.
    destruct ((code c =? 32) || _) eqn:E; [|done]. breflect. destruct E; breflect; lia.
  - simpl. destruct (code c =? 45) eqn:E1; [breflect; lia|].
    destruct (code c =? 43) eqn:E2; [breflect; lia|done].
  - destruct s as [|x s]; [done|]. inversion Hs as [|? ? Hx _]; subst.
    pose proof (is_digit_code base x Hb Hx). simpl.
    destruct ((code x =? 120) || (code x =? 88)) eqn:E; [breflect; destruct E; breflect; lia|].
    by rewrite !andb_false_r.
  - simpl. by destruct (digit_val base c) eqn:E; unfold is_digit in Hc; rewrite E in Hc.
Qed.

Lemma strto_print base z :
  2 <= base <= 16 -> 0 <= z -> strto (print_num base z) base = Some (false, z, []).
Proof.
  intros Hb Hz. destruct (print_num_digits base z ltac:(lia) Hz) as (Hne & Hall & Hv).
  destruct (digits_plain base _ ltac:(lia) Hne Hall) as (E1 & E2 & E3 & E4).
  unfold strto. rewrite E1, E2, E3, E4. rewrite <- (app_nil_r (print_num base z)).
  rewrite scan_digits_app by done. by rewrite Hv.
Qed.

Lemma strtoull_print base z : 2 <= base <= 16 -> fits 64 z -> strtoull (print_num base z) base = (z, []).
Proof.
  intros Hb [Hz Hlt]. unfold strtoull. rewrite strto_print by lia.
  destruct (2 ^ 64 <=? z) eqn:E; [breflect; lia|done].
Qed.

Lemma strtol_print base z : 2 <= base <= 16 -> 0 <= z < 2 ^ 63 -> strtol (print_num base z) base = (z, []).
Proof.
  intros Hb [Hz Hlt]. unfold strtol. rewrite strto_print by lia.
  destruct (2 ^ 63 <=? z) eqn:E; [breflect; lia|done].
Qed.

Lemma extract_unsigned_print w z : fits w z -> extract_unsigned w (print_dec z) = Some (z, []).
Proof.
  intros [Hz Hlt]. destruct (print_num_digits 10 z ltac:(lia) Hz) as (Hne & Hall & Hv).
  destruct (digits_plain 10 _ ltac:(lia) Hne Hall) as (E1 & E2 & E3 & E4).
  unfold extract_unsigned, print_dec. rewrite E1, E2, E4. rewrite <- (app_nil_r (print_num 10 z)).
  rewrite scan_digits_app by done. rewrite Hv. destruct (2 ^ w <=? z) eqn:E; [breflect; lia|done].
Qed.

(** A printed number is a token. *)
Lemma print_num_token base z seps :
  2 <= base <= 16 -> 0 <= z -> (forall c, c ∈ seps -> is_digit 16 c = false) ->
  print_num base z <> [] /\ all (λ c, negb (in_set seps c)) (print_num base z).
Proof.
  intros Hb Hz Hs. destruct (print_num_digits base z ltac:(lia) Hz) as (Hne & Hall & _).
  split; [done|]. eapply Forall_impl; [exact Hall|]. intros c Hc. simpl.
  apply negb_true_iff, in_set_false. intros Hin%Hs.
  unfold is_digit, digit_val in Hc, Hin. revert Hc Hin.
  set (d := if (48 <=? code c) && (code c <=? 57) then _ else _).
  destruct (d <? base) eqn:E1; [|done]. destruct (d <? 16) eqn:E2; [done|]. breflect. lia.
Qed.

Lemma kWhitespace_no_digit c : c ∈ kWhitespace -> is_digit 16 c = false.
Proof. intros Hc. repeat (apply elem_of_cons in Hc as [->|Hc]; [reflexivity|]). by apply not_elem_of_nil in Hc. Qed.

Lemma print_num_field base z : 2 <= base <= 16 -> 0 <= z -> is_field (print_num base z).
Proof. intros. apply print_num_token; [done..|exact kWhitespace_no_digit]. Qed.

(** ** What [Tokenize] computes *)

(** [tokens_of seps n line ts]: [line] is cut into the [n] tokens [ts].  All but
    the last are maximal runs of non-separators; the last, after the one
    separator that ends the token before it, runs to the end of the line. *)
Inductive tokens_of (seps : cstring) : nat -> cstring -> list cstring -> Prop :=
| tokens_last gap t rest :
    all (in_set CRLF) gap -> t <> [] -> all (λ c, negb (in_set CRLF c)) t ->
    stops (λ c, negb (in_set CRLF c)) rest ->
    tokens_of seps 1 (gap ++ t ++ rest) [t]
| tokens_more n gap t d rest ts :
    all (in_set seps) gap -> t <> [] -> all (λ c, negb (in_set seps c)) t -> in_set seps d = true ->
    tokens_of seps n rest ts -> tokens_of seps (S n) (gap ++ t ++ d :: rest) (t :: ts).

Lemma tokens_of_nonempty seps n line ts : tokens_of seps n line ts -> line <> [] /\ (1 <= n)%nat.
Proof.
  destruct 1 as [gap t rest _ Hne|n gap t d rest ts _ Hne]; (split; [|lia]);
    intros [_ [E _]%app_eq_nil]%app_eq_nil; done.
Qed.

Lemma fields_tokens_of seps n : forall line ts,
  fields seps (S n) line = Some ts <-> tokens_of seps (S n) line ts.
Proof.
  induction n as [|n IH]; intros line ts.
  - cbn [fields]. split.
    + destruct (strtok_r line CRLF) as [[t|] save] eqn:E; [|done]. intros [= <-].
      apply strtok_Some in E as (gap & rest & -> & ? & ? & ? & ? & _). by constructor.
    + inversion 1 as [gap t rest|m gap t d rest ts' ? ? ? ? Ht]; subst.
      * by rewrite strtok_token.
      * apply tokens_of_nonempty in Ht as [_ Ht]. lia.
  - rewrite fields_SS. split.
    + destruct (strtok_r line seps) as [[t|] save] eqn:E; [|done].
      apply strtok_Some in E as (gap & rest & -> & ? & ? & ? & Hr & ->).
      destruct (fields seps (S n) (tail rest)) as [ts'|] eqn:Ef; [|done]. intros [= <-].
      apply IH in Ef. destruct rest as [|d rest]; simpl in *.
      * by apply tokens_of_nonempty in Ef as [? _].
      * constructor; [done..| |done]. by apply negb_false_iff.
    + inversion 1 as [|m gap t d rest ts' ? ? ? Hd Ht]; subst.
      rewrite strtok_token; [|done..|simpl; by rewrite Hd].
      simpl tail. apply IH in Ht. by rewrite Ht.
Qed.

(** [Tokenize], asked for at least two tokens, succeeds exactly when the line
    can be cut into that many tokens -- all but the last free of separators, the
    last one running to the end of the line -- and returns those. *)
Lemma tokenize_iff (line seps : cstring) (max_tokens : nat) (ts : list cstring) :
  (2 <= max_tokens)%nat ->
  Tokenize line seps max_tokens = Some ts <-> tokens_of seps max_tokens line ts.
Proof.
  intros Hn. rewrite Tokenize_fields by done.
  destruct max_tokens as [|n]; [lia|]. apply fields_tokens_of.
Qed.

Lemma tokenize_iff_witness :
  (2 <= 3)%nat /\ tokens_of kWhitespace 3 (lit "1000  5 two words") [lit "1000"; lit "5"; lit "two words"].
Proof.
  split; [lia|]. apply (tokenize_iff _ _ 3); [lia|]. vm_compute. reflexivity.
Defined.

(** ** [PathnameStripper::File] *)

Definition is_sep (c : ascii) : bool := Ascii.eqb c (chr 47) || Ascii.eqb c (chr 92).

Lemma rfind_None c path : rfind c path = None -> c ∉ path.
Proof.
  induction path as [|x path IH]; simpl; [intros _; apply not_elem_of_nil|].
  destruct (rfind c path); [done|]. destruct (Ascii.eqb x c) eqn:E; [done|]. intros _.
  apply Ascii.eqb_neq in E. rewrite elem_of_cons. intros [->|?]; [done|]. by apply IH.
Qed.

(** The position of the last [c]: nothing after it is [c]. *)
Lemma rfind_Some c path i :
  rfind c path = Some i -> path !! i = Some c /\ c ∉ drop (S i) path.
Proof.
  revert i. induction path as [|x path IH]; intros i; simpl; [done|].
  destruct (rfind c path) as [k|] eqn:Er.
  - intros [= <-]. by apply IH.
  - destruct (Ascii.eqb x c) eqn:E; [|done]. intros [= <-]. apply Ascii.eqb_eq in E as ->.
    split; [done|]. rewrite drop_0. by apply rfind_None.
Qed.

Lemma drop_not_elem (i j : nat) (c : ascii) (path : cstring) :
  (i <= j)%nat -> c ∉ drop i path -> c ∉ drop j path.
Proof.
  intros Hij Hn Hin. apply Hn. replace j with (i + (j - i))%nat in Hin by lia.
  rewrite <- drop_drop in Hin. rewrite <- (take_drop (j - i) (drop i path)). apply elem_of_app. by right.
Qed.

(** [PathnameStripper::File] returns the last component: the path is some
    prefix followed by it, it holds neither slash nor backslash, and the prefix
    is empty or ends with one of them. *)
Lemma pathname_file (path : cstring) :
  exists dir, path = dir ++ File path /\
    (forall c, c ∈ File path -> is_sep c = false) /\
    (dir = [] \/ exists dir' c, dir = dir' ++ [c] /\ is_sep c = true).
Proof.
  assert (Hsep: forall c, is_sep c = true <-> c = chr 47 \/ c = chr 92).
  { intros c. unfold is_sep. rewrite orb_true_iff, !Ascii.eqb_eq. done. }
  set (n := match rfind (chr 47) path, rfind (chr 92) path with
            | Some s, None => S s | Some s, Some b => if (b <? s)%nat then S s else S b
            | None, Some b => S b | None, None => O end).
  assert (HF: File path = drop n path) by done.
  assert (Hno: chr 47 ∉ drop n path /\ chr 92 ∉ drop n path).
  { unfold n. destruct (rfind (chr 47) path) as [s|] eqn:Es, (rfind (chr 92) path) as [b|] eqn:Eb;
      repeat match goal with
      | H : rfind _ _ = Some _ |- _ => apply rfind_Some in H as [_ H]
      | H : rfind _ _ = None |- _ => apply rfind_None in H; rewrite <- (drop_0 path) in H
      end; try dif; split; eapply drop_not_elem; try eassumption; lia. }
  exists (take n path). rewrite HF. split_and!.
  - by rewrite take_drop.
  - intros c Hc. apply not_true_iff_false. intros [->| ->]%Hsep; tauto.
  - assert (Hn: n = O \/ exists i c, n = S i /\ path !! i = Some c /\ is_sep c = true).
    { unfold n. destruct (rfind (chr 47) path) as [s|] eqn:Es, (rfind (chr 92) path) as [b|] eqn:Eb;
        repeat match goal with H : rfind _ _ = Some _ |- _ => apply rfind_Some in H as [H _] end;
        try dif; eauto; right; eexists _, _; (split; [reflexivity|]); (split; [eassumption|]);
        apply Hsep; auto. }
    destruct Hn as [->|(i & c & -> & Hl & Hc)]; [by left|]. right.
    exists (take i path), c. split; [|done]. by apply take_S_r.
Qed.
