(* ===== verification/StrMap.v ===== *)
(** The [std::map] with string keys: a list of key/value pairs in strictly
    increasing order of the keys' bytes. *)
From Stdlib Require Import Ascii.
From stdpp Require Import strings sorting list.
From S2P Require Import Prelude CStr.

(** [std::string::operator<], and [strcmp(...) < 0] on C strings: the order of
    the unsigned bytes. *)
Fixpoint str_ltb (a b : cstring) : bool :=
  match a, b with
  | [], [] => false
  | [], _ :: _ => true
  | _ :: _, [] => false
  | x :: a', y :: b' => (code x <? code y) || ((code x =? code y) && str_ltb a' b')
  end.

Abbreviation strmap V := (list (cstring * V)).

Section operations.
Context {V : Type}.
Implicit Types (m : strmap V).

(** [m[k] = v]. *)
Fixpoint str_assign m (k : cstring) (v : V) : strmap V :=
  match m with
  | [] => [(k, v)]
  | (k', v') :: m' =>
      if str_ltb k' k then (k', v') :: str_assign m' k v
      else if str_eqb k' k then (k, v) :: m'
      else (k, v) :: m
  end.

(** [find]: the value, when the key is present. *)
Fixpoint str_find m (k : cstring) : option V :=
  match m with
  | [] => None
  | (k', v') :: m' => if str_eqb k' k then Some v' else str_find m' k
  end.

(** [insert] keeps the value already present. *)
Definition str_insert m (k : cstring) (v : V) : strmap V :=
  match str_find m k with Some _ => m | None => str_assign m k v end.

(** [erase] by key. *)
Fixpoint str_erase m (k : cstring) : strmap V :=
  match m with
  | [] => []
  | (k', v') :: m' => if str_eqb k' k then m' else (k', v') :: str_erase m' k
  end.

Definition str_sorted m : Prop := StronglySorted (λ a b, str_ltb a.1 b.1 = true) m.
End operations.

Lemma str_ltb_irrefl a : str_ltb a a = false.
Proof. induction a as [|x a IH]; simpl; [done|]. by rewrite Z.ltb_irrefl, Z.eqb_refl. Qed.

Lemma str_ltb_trans a b c : str_ltb a b = true -> str_ltb b c = true -> str_ltb a c = true.
Proof.
  revert b c. induction a as [|x a IH]; intros [|y b] [|z c]; simpl; try done.
  intros H1 H2. apply orb_true_iff. apply orb_true_iff in H1, H2.
  destruct H1 as [H1|[H1 H1']%andb_true_iff], H2 as [H2|[H2 H2']%andb_true_iff]; breflect.
  - left. apply Z.ltb_lt. lia.
  - left. apply Z.ltb_lt. lia.
  - left. apply Z.ltb_lt. lia.
  - right. apply andb_true_iff. split; [apply Z.eqb_eq; lia|by eapply IH].
Qed.

Lemma str_trichotomy a b : str_ltb a b = true \/ a = b \/ str_ltb b a = true.
Proof.
  revert b. induction a as [|x a IH]; intros [|y b]; simpl; auto.
  destruct (Z.lt_trichotomy (code x) (code y)) as [Hlt|[Heq|Hlt]].
  - left. apply orb_true_iff. left. by apply Z.ltb_lt.
  - rewrite Heq, Z.ltb_irrefl, Z.eqb_refl. apply code_inj in Heq as ->. simpl.
    destruct (IH b) as [?|[-> |?]]; auto.
  - right. right. apply orb_true_iff. left. by apply Z.ltb_lt.
Qed.

Lemma str_ltb_neq a b : str_ltb a b = true -> a <> b.
Proof. intros Hl ->. by rewrite str_ltb_irrefl in Hl. Qed.

Lemma str_eqb_neq a b : a <> b -> str_eqb a b = false.
Proof. intros. by apply bool_decide_eq_false. Qed.

Section lemmas.
Context {V : Type}.
Implicit Types (m : strmap V).

Lemma str_sorted_cons k v m :
  str_sorted ((k, v) :: m) <-> (forall k' v', (k', v') ∈ m -> str_ltb k k' = true) /\ str_sorted m.
Proof.
  unfold str_sorted. split.
  - inversion 1 as [|?? Hs Hf]; subst. split; [|done]. intros k' v' Hin.
    rewrite Forall_forall in Hf. by apply (Hf (k', v')).
  - intros [Hf Hs]. constructor; [done|]. rewrite Forall_forall. intros [k' v'] ?. by eapply Hf.
Qed.

Lemma str_find_assign m k v k' :
  str_sorted m -> str_find (str_assign m k v) k' = if str_eqb k k' then Some v else str_find m k'.
Proof.
  induction m as [|[k0 v0] m IH]; intros Hs; simpl; [by destruct (str_eqb k k')|].
  apply str_sorted_cons in Hs as [Hlt Hs]. destruct (str_ltb k0 k) eqn:E1.
  - simpl. rewrite IH by done. destruct (str_eqb k0 k') eqn:E2; [|done].
    apply str_eqb_spec in E2 as <-. rewrite str_eqb_neq; [done|]. intros ->. by rewrite str_ltb_irrefl in E1.
  - destruct (str_eqb k0 k) eqn:E2; simpl.
    + apply str_eqb_spec in E2 as <-. by destruct (str_eqb k0 k').
    + by destruct (str_eqb k k').
Qed.

Lemma str_assign_keys m k v k' v' :
  (k', v') ∈ str_assign m k v -> k' = k \/ exists v'', (k', v'') ∈ m.
Proof.
  induction m as [|[k0 v0] m IH]; simpl.
  - intros [= -> ->]%list_elem_of_singleton. by left.
  - repeat dif.
    + intros [[= -> ->]|Hin]%elem_of_cons; [right; eexists; left|].
      destruct (IH Hin) as [->|[v'' ?]]; [by left|]. right. eexists. by right.
    + intros [[= -> ->]|Hin]%elem_of_cons; [by left|]. right. eexists. by right.
    + intros [[= -> ->]|Hin]%elem_of_cons; [by left|]. right. by eexists.
Qed.

Lemma str_sorted_assign m k v : str_sorted m -> str_sorted (str_assign m k v).
Proof.
  induction m as [|[k0 v0] m IH]; intros Hs; simpl; [constructor; constructor|].
  apply str_sorted_cons in Hs as Hs'. destruct Hs' as [Hlt Hs']. destruct (str_ltb k0 k) eqn:E1.
  - apply str_sorted_cons. split; [|by apply IH].
    intros k' v' [->|[v'' Hin]]%str_assign_keys; [done|by eapply Hlt].
  - destruct (str_eqb k0 k) eqn:E2.
    + apply str_eqb_spec in E2 as ->. by apply str_sorted_cons.
    + destruct (str_trichotomy k0 k) as [?|[->|Hk]]; [congruence|by rewrite str_eqb_refl in E2|].
      apply str_sorted_cons. split; [|done].
      intros k' v' [[= -> ->]|Hin]%elem_of_cons; [done|]. eapply str_ltb_trans; [done|by eapply Hlt].
Qed.

(** Appending a key above all others. *)
Lemma str_assign_last m k v :
  (forall k' v', (k', v') ∈ m -> str_ltb k' k = true) -> str_assign m k v = m ++ [(k, v)].
Proof.
  induction m as [|[k0 v0] m IH]; intros Hlt; simpl; [done|].
  rewrite (Hlt k0 v0) by left. rewrite IH; [done|]. intros ?? Hin. eapply Hlt. by right.
Qed.

Lemma str_find_Some m k v : str_sorted m -> str_find m k = Some v <-> (k, v) ∈ m.
Proof.
  induction m as [|[k0 v0] m IH]; intros Hs; simpl; [split; [done|by intros ?%not_elem_of_nil]|].
  apply str_sorted_cons in Hs as [Hlt Hs]. destruct (str_eqb k0 k) eqn:E.
  - apply str_eqb_spec in E as ->. split.
    + intros [= ->]. left.
    + intros [[= ->]|Hin]%elem_of_cons; [done|]. apply Hlt in Hin. by rewrite str_ltb_irrefl in Hin.
  - rewrite IH by done. rewrite elem_of_cons. split; [by right|].
    intros [[= -> ->]|?]; [by rewrite str_eqb_refl in E|done].
Qed.

Lemma str_sorted_insert m k v : str_sorted m -> str_sorted (str_insert m k v).
Proof. intros. unfold str_insert. destruct (str_find m k); [done|by apply str_sorted_assign]. Qed.

Lemma str_find_insert m k v k' :
  str_sorted m ->
  str_find (str_insert m k v) k' =
  match str_find m k' with Some v' => Some v' | None => if str_eqb k k' then Some v else None end.
Proof.
  intros Hs. unfold str_insert. destruct (str_find m k) as [v0|] eqn:E.
  - destruct (str_find m k') eqn:E'; [done|]. destruct (str_eqb k k') eqn:E2; [|done].
    apply str_eqb_spec in E2 as ->. congruence.
  - rewrite str_find_assign by done. destruct (str_eqb k k') eqn:E2.
    + apply str_eqb_spec in E2 as ->. by rewrite E.
    + by destruct (str_find m k').
Qed.

Lemma str_erase_elem m k k' v' :
  str_sorted m -> (k', v') ∈ str_erase m k <-> (k', v') ∈ m /\ k' <> k.
Proof.
  induction m as [|[k0 v0] m IH]; intros Hs; simpl; [split; [by intros ?%not_elem_of_nil|by intros [?%not_elem_of_nil _]]|].
  apply str_sorted_cons in Hs as [Hlt Hs]. destruct (str_eqb k0 k) eqn:E.
  - apply str_eqb_spec in E as ->. rewrite elem_of_cons. split.
    + intros Hin. split; [by right|]. apply Hlt in Hin. intros ->. by rewrite str_ltb_irrefl in Hin.
    + intros [[[= -> ->]|?] Hne]; [done|done].
  - rewrite !elem_of_cons, IH by done. split; [|tauto].
    intros [[= -> ->]|[? ?]]; [|tauto]. split; [by left|]. intros ->. by rewrite str_eqb_refl in E.
Qed.

Lemma str_erase_absent m k : str_find m k = None -> str_erase m k = m.
Proof.
  induction m as [|[k0 v0] m IH]; simpl; [done|]. destruct (str_eqb k0 k); [done|]. intros Hn. by rewrite IH.
Qed.

Lemma str_sorted_erase m k : str_sorted m -> str_sorted (str_erase m k).
Proof.
  induction m as [|[k0 v0] m IH]; intros Hs; simpl; [done|].
  pose proof Hs as [Hlt Hs']%str_sorted_cons. destruct (str_eqb k0 k); [done|].
  apply str_sorted_cons. split; [|by apply IH].
  intros k' v' Hin. apply str_erase_elem in Hin as [Hin _]; [|done]. by eapply Hlt.
Qed.

Lemma str_find_erase m k k' :
  str_sorted m -> str_find (str_erase m k) k' = if str_eqb k k' then None else str_find m k'.
Proof.
  intros Hs. destruct (str_find (str_erase m k) k') as [v|] eqn:E.
  - rewrite str_find_Some in E by (by apply str_sorted_erase).
    rewrite str_erase_elem in E by done. destruct E as [Hin Hne]. rewrite str_eqb_neq by done.
    symmetry. by apply str_find_Some.
  - destruct (str_eqb k k') eqn:E2; [done|]. destruct (str_find m k') as [v|] eqn:E'; [|done].
    rewrite str_find_Some in E' by done.
    assert (Hin: (k', v) ∈ str_erase m k).
    { rewrite str_erase_elem by done. split; [done|]. intros ->. by rewrite str_eqb_refl in E2. }
    rewrite <- str_find_Some in Hin by (by apply str_sorted_erase). congruence.
Qed.
End lemmas.
