(* ===== verification/MemoryRegion.v ===== *)
(** google_breakpad/processor/memory_region.h: the [MemoryRegion] interface and
    its two implementations, [MinidumpMemoryRegion] (processor/minidump.cc, with
    the stream access and the byte swapping it is built on) and
    [MicrodumpMemoryRegion] (processor/microdump.cc). *)
From stdpp Require Import list.
From S2P Require Import Prelude Memory.

(** [GetMemoryAtAddress n r a] reads an [n]-byte unsigned value. *)
Class MemoryRegion (R : Type) := {
  GetBase : R -> Z;
  GetSize : R -> Z;
  GetMemoryAtAddress : nat -> R -> Z -> outcome Z
}.

(** The widths the code reads. *)
Definition sizes_ok (n : nat) : Prop := (n = 1 \/ n = 2 \/ n = 4 \/ n = 8)%nat.

(** What the interface promises: a value read has the width asked for, and it
    lies within the region. *)
Class MemoryRegionLaws (R : Type) `{MemoryRegion R} (valid : R -> Prop) := {
  read_width : forall n r a v, sizes_ok n -> fits 64 a -> valid r ->
    GetMemoryAtAddress n r a = Ok v -> fits (8 * Z.of_nat n) v;
  read_bounds : forall n r a v, sizes_ok n -> fits 64 a -> valid r ->
    GetMemoryAtAddress n r a = Ok v -> GetBase r <= a /\ a + Z.of_nat n <= GetBase r + GetSize r
}.

(** ** Byte swapping *)

Definition Swap16 (value : Z) : Z :=
  wrap 16 (Z.lor (Z.shiftr value 8) (wrap 32 (Z.shiftl value 8))).

Definition Swap32 (value : Z) : Z :=
  Z.lor (Z.lor (Z.lor (Z.shiftr value 24)
                      (Z.land (Z.shiftr value 8) 0x0000ff00))
               (Z.land (wrap 32 (Z.shiftl value 8)) 0x00ff0000))
        (wrap 32 (Z.shiftl value 24)).

(** The two halves of the 64-bit value, swapped and exchanged.  On a
    little-endian host [value32[0]] is the low half. *)
Definition Swap64 (value : Z) : Z :=
  let v0 := Swap32 (wrap 32 value) in
  let v1 := Swap32 (Z.shiftr value 32) in
  v1 + 2 ^ 32 * v0.

(** The overload of [Swap] for an [n]-byte quantity. *)
Definition Swap (n : nat) (value : Z) : Z :=
  match n with
  | 2%nat => Swap16 value
  | 4%nat => Swap32 value
  | 8%nat => Swap64 value
  | _ => value
  end.

(** [uint128_struct], with its fields in memory order. *)
Record uint128_struct := mk128 { high : Z; low : Z }.

Definition Normalize128 (value : uint128_struct) (is_big_endian : bool) : uint128_struct :=
  if negb is_big_endian then mk128 (low value) (high value) else value.

Definition Swap128 (value : uint128_struct) : uint128_struct :=
  mk128 (Swap64 (high value)) (Swap64 (low value)).

Record MDLocationDescriptor := mkLoc { data_size : Z; rva : Z }.
Record MDMemoryDescriptor := mkMemDesc { start_of_memory_range : Z; memory : MDLocationDescriptor }.

Definition Swap_location (d : MDLocationDescriptor) : MDLocationDescriptor :=
  mkLoc (Swap 4 (data_size d)) (Swap 4 (rva d)).
Definition Swap_memory_descriptor (d : MDMemoryDescriptor) : MDMemoryDescriptor :=
  mkMemDesc (Swap 8 (start_of_memory_range d)) (Swap_location (memory d)).

(** ** The minidump stream *)

(** The [istream] the minidump is read from: its bytes, its position, and
    whether it is still [good()].  A short read leaves it failed, and seeking
    does not clear that. *)
Record istream := mkStream { sbytes : list Z; spos : Z; sgood : bool }.

(** [Minidump], as far as memory regions use it. *)
Record Minidump := mkMinidump { stream_ : option istream; swap_ : bool }.

Definition SeekSet (m : Minidump) (offset : Z) : bool * Minidump :=
  match stream_ m with
  | None => (false, m)
  | Some s =>
      let s := if sgood s then mkStream (sbytes s) offset true else s in
      (sgood s, mkMinidump (Some s) (swap_ m))
  end.

(** [ReadBytes]: the bytes read, or [None] after a short read. *)
Definition ReadBytes (m : Minidump) (count : Z) : option (list Z) * Minidump :=
  match stream_ m with
  | None => (None, m)
  | Some s =>
      let read := if sgood s then slice (sbytes s) (spos s) (Z.to_nat count) else [] in
      let bytes_read := Z.of_nat (length read) in
      let good := sgood s && (bytes_read =? count) in
      let m := mkMinidump (Some (mkStream (sbytes s) (spos s + bytes_read) good)) (swap_ m) in
      (if negb (bytes_read =? count) then None else Some read, m)
  end.

(** ** [MinidumpMemoryRegion] *)

Record MinidumpMemoryRegion := mkRegion
  { valid_ : bool; descriptor_ : option MDMemoryDescriptor; memory_ : option (list Z) }.

Definition MinidumpMemoryRegion_new : MinidumpMemoryRegion := mkRegion false None None.

(** [max_bytes_]: 64MB. *)
Definition max_bytes_ : Z := 64 * 1024 * 1024.

Definition SetDescriptor (r : MinidumpMemoryRegion) (descriptor : option MDMemoryDescriptor)
  : MinidumpMemoryRegion :=
  let valid := match descriptor with
               | None => false
               | Some d => data_size (memory d) <=? wrap 64 (2 ^ 64 - 1 - start_of_memory_range d)
               end in
  mkRegion valid descriptor (memory_ r).

(** [GetMemory]: the cached bytes, or else read and cache them. *)
Definition GetMemory (r : MinidumpMemoryRegion) (m : Minidump)
  : option (list Z) * MinidumpMemoryRegion * Minidump :=
  match valid_ r, descriptor_ r with
  | true, Some d =>
      match memory_ r with
      | Some mem => (Some mem, r, m)
      | None =>
          if data_size (memory d) =? 0 then (None, r, m)
          else
            let '(ok, m) := SeekSet m (rva (memory d)) in
            if negb ok then (None, r, m)
            else if max_bytes_ <? data_size (memory d) then (None, r, m)
            else
              match ReadBytes m (data_size (memory d)) with
              | (None, m) => (None, r, m)
              | (Some mem, m) => (Some mem, mkRegion (valid_ r) (descriptor_ r) (Some mem), m)
              end
      end
  | _, _ => (None, r, m)
  end.

Definition MinidumpMemoryRegion_GetBase (r : MinidumpMemoryRegion) : Z :=
  match valid_ r, descriptor_ r with
  | true, Some d => start_of_memory_range d
  | _, _ => wrap 64 (-1)
  end.

Definition MinidumpMemoryRegion_GetSize (r : MinidumpMemoryRegion) : Z :=
  match valid_ r, descriptor_ r with
  | true, Some d => data_size (memory d)
  | _, _ => 0
  end.

Definition FreeMemory (r : MinidumpMemoryRegion) : MinidumpMemoryRegion :=
  mkRegion (valid_ r) (descriptor_ r) None.

(** [GetMemoryAtAddressInternal<T>] with [sizeof(T) = n]. *)
Definition GetMemoryAtAddressInternal (n : nat) (r : MinidumpMemoryRegion) (m : Minidump) (address : Z)
  : outcome Z * MinidumpMemoryRegion * Minidump :=
  match valid_ r, descriptor_ r with
  | true, Some d =>
      let sizeof := Z.of_nat n in
      let start := start_of_memory_range d in
      if (address <? start) || (2 ^ 64 - 1 - address <? sizeof) ||
         (wrap 64 (start + data_size (memory d)) <? wrap 64 (address + sizeof))
      then (Fail, r, m)
      else
        match GetMemory r m with
        | (None, r, m) => (Fail, r, m)
        | (Some mem, r, m) =>
            let off := wrap 64 (address - start) in
            if off + sizeof <=? Z.of_nat (length mem) then
              let value := read_le mem off n in
              (Ok (if swap_ m then Swap n value else value), r, m)
            else (Undefined, r, m)
        end
  | _, _ => (Fail, r, m)
  end.

(** The interface, for a region together with its minidump. *)
#[export] Instance MinidumpMemoryRegion_region : MemoryRegion (MinidumpMemoryRegion * Minidump) := {|
  GetBase := λ rm, MinidumpMemoryRegion_GetBase rm.1;
  GetSize := λ rm, MinidumpMemoryRegion_GetSize rm.1;
  GetMemoryAtAddress := λ n rm address, (GetMemoryAtAddressInternal n rm.1 rm.2 address).1.1
|}.

(** ** [MicrodumpMemoryRegion] *)

Record MicrodumpMemoryRegion := mkMicro { base_address_ : Z; contents_ : list Z }.

Definition MicrodumpMemoryRegion_new : MicrodumpMemoryRegion := mkMicro 0 [].
Definition MicrodumpMemoryRegion_Init (base_address : Z) (contents : list Z) : MicrodumpMemoryRegion :=
  mkMicro base_address contents.

(** The loop of [GetMemoryLittleEndian], from byte [i] - 1 down to byte 0.  An
    access past the end of [contents_] is undefined. *)
Fixpoint little_endian_loop (w : Z) (contents : list Z) (start : Z) (i : nat) (v : Z) : outcome Z :=
  match i with
  | O => Ok v
  | S i =>
      match contents !! Z.to_nat (wrap 64 (start + Z.of_nat i)) with
      | Some c => little_endian_loop w contents start i (wrap w (Z.lor (Z.shiftl v 8) (wrap 8 c)))
      | None => Undefined
      end
  end.

Definition GetMemoryLittleEndian (n : nat) (r : MicrodumpMemoryRegion) (address : Z) : outcome Z :=
  if (address <? base_address_ r) ||
     (Z.of_nat (length (contents_ r)) <?
      wrap 64 (wrap 64 (address - base_address_ r) + Z.of_nat n))
  then Fail
  else little_endian_loop (8 * Z.of_nat n) (contents_ r) (wrap 64 (address - base_address_ r)) n 0.

#[export] Instance MicrodumpMemoryRegion_region : MemoryRegion MicrodumpMemoryRegion := {|
  GetBase := base_address_;
  GetSize := λ r, wrap 32 (Z.of_nat (length (contents_ r)));
  GetMemoryAtAddress := GetMemoryLittleEndian
|}.

(** ** Byte swapping reverses the bytes *)

Lemma Swap16_val v : fits 16 v -> Swap16 v = le_val (rev (le_bytes 2 v)).
Proof.
  unfold fits. intros Hv. change (2 ^ 16) with 65536 in Hv. unfold Swap16.
  rewrite Z.shiftr_div_pow2, Z.shiftl_mul_pow2 by lia. change (2 ^ 8) with 256.
  rewrite (wrap_small 32) by (unfold fits; change (2 ^ 32) with 4294967296; lia).
  change 256 with (2 ^ 8) at 2. rewrite lor_disjoint by (pose proof (Z.div_pos v 256); pose proof (Z.div_lt_upper_bound v 256 256); lia).
  change (rev (le_bytes 2 v)) with [(v / 256) mod 256; v mod 256].
  change (le_val [(v / 256) mod 256; v mod 256]) with ((v / 256) mod 256 + 256 * (v mod 256 + 256 * 0)).
  change (2 ^ 8) with 256. unfold wrap. change (2 ^ 16) with 65536.
  pose proof (Z.div_mod v 256 ltac:(lia)) as E. pose proof (Z.mod_pos_bound v 256 ltac:(lia)).
  set (q := v / 256) in *. set (r := v mod 256) in *. clearbody q r.
  rewrite (Z.mod_small q) by lia. symmetry. apply (Z.mod_unique _ _ q); lia.
Qed.

Lemma Swap32_val v : fits 32 v -> Swap32 v = le_val (rev (le_bytes 4 v)).
Proof.
  unfold fits. intros Hv. change (2 ^ 32) with 4294967296 in Hv. unfold Swap32, wrap.
  change 0x0000ff00 with (Z.ones 8 * 2 ^ 8). change 0x00ff0000 with (Z.ones 8 * 2 ^ 16).
  rewrite !Z.shiftr_div_pow2, !Z.shiftl_mul_pow2 by lia. rewrite !land_field by lia.
  set (b0 := v mod 256). set (b1 := v / 256 mod 256).
  set (b2 := v / 256 / 256 mod 256). set (b3 := v / 256 / 256 / 256 mod 256).
  assert (E: v = b0 + 256 * b1 + 65536 * b2 + 16777216 * b3 /\ 0 <= b0 < 256 /\ 0 <= b1 < 256 /\
             0 <= b2 < 256 /\ 0 <= b3 < 256).
  { pose proof (Z.div_mod v 256 ltac:(lia)). pose proof (Z.div_mod (v / 256) 256 ltac:(lia)).
    pose proof (Z.div_mod (v / 256 / 256) 256 ltac:(lia)).
    pose proof (Z.div_mod (v / 256 / 256 / 256) 256 ltac:(lia)).
    assert (v / 256 / 256 / 256 / 256 = 0).
    { rewrite !Z.div_div by lia. apply Z.div_small. lia. }
    pose proof (Z.mod_pos_bound v 256 ltac:(lia)). pose proof (Z.mod_pos_bound (v / 256) 256 ltac:(lia)).
    pose proof (Z.mod_pos_bound (v / 256 / 256) 256 ltac:(lia)).
    pose proof (Z.mod_pos_bound (v / 256 / 256 / 256) 256 ltac:(lia)).
    unfold b0, b1, b2, b3. split_and!; lia. }
  destruct E as (E & R0 & R1 & R2 & R3).
  change (rev (le_bytes 4 v)) with [b3; b2; b1; b0].
  change (le_val [b3; b2; b1; b0]) with (b3 + 256 * (b2 + 256 * (b1 + 256 * (b0 + 256 * 0)))).
  assert (T2: (v / 2 ^ 8 / 2 ^ 8) mod 2 ^ 8 = b2) by reflexivity.
  clearbody b0 b1 b2 b3.
  assert (T3: v / 2 ^ 24 = b3).
  { change (2 ^ 24) with 16777216. symmetry. apply (Z.div_unique _ _ _ (b0 + 256 * b1 + 65536 * b2)); lia. }
  assert (T1: ((v * 2 ^ 8) mod 2 ^ 32 / 2 ^ 16) mod 2 ^ 8 = b1).
  { change (2 ^ 8) with 256. change (2 ^ 32) with 4294967296. change (2 ^ 16) with 65536.
    rewrite <- (Z.mod_unique (v * 256) 4294967296 b3 (256 * b0 + 65536 * b1 + 16777216 * b2)) by lia.
    rewrite <- (Z.div_unique (256 * b0 + 65536 * b1 + 16777216 * b2) 65536 (b1 + 256 * b2) (256 * b0)) by lia.
    symmetry. apply (Z.mod_unique _ _ b2); lia. }
  assert (T0: (v * 2 ^ 24) mod 2 ^ 32 = b0 * 2 ^ 24).
  { change (2 ^ 24) with 16777216. change (2 ^ 32) with 4294967296. symmetry.
    apply (Z.mod_unique _ _ (b1 + 256 * b2 + 65536 * b3)); lia. }
  rewrite T3, T2, T1, T0.
  change (2 ^ 8) with 256. change 256 with (2 ^ 8) at 1.
  rewrite (lor_disjoint 8) by (change (2 ^ 8) with 256; lia).
  rewrite (lor_disjoint 16) by (change (2 ^ 8) with 256; change (2 ^ 16) with 65536; lia).
  rewrite (lor_disjoint 24) by (change (2 ^ 8) with 256; change (2 ^ 16) with 65536; change (2 ^ 24) with 16777216; lia).
  change (2 ^ 8) with 256; change (2 ^ 16) with 65536; change (2 ^ 24) with 16777216. lia.
Qed.

Lemma Swap64_val v : fits 64 v -> Swap64 v = le_val (rev (le_bytes 8 v)).
Proof.
  unfold fits. intros Hv. unfold Swap64. rewrite Z.shiftr_div_pow2 by lia.
  assert (fits 32 (v / 2 ^ 32)).
  { split; [apply Z.div_pos; lia|]. apply Z.div_lt_upper_bound; [lia|]. rewrite <- Z.pow_add_r by lia. lia. }
  rewrite !Swap32_val by auto with bp lia.
  change 8%nat with (4 + 4)%nat. rewrite le_bytes_app, rev_app_distr, le_val_app.
  rewrite length_rev, length_le_bytes. change (8 * Z.of_nat 4) with 32.
  do 4 f_equal. unfold wrap.
  rewrite <- (le_bytes_val (le_bytes 4 v)) at 1 by apply le_bytes_ok.
  rewrite le_val_bytes, length_le_bytes. done.
Qed.

Lemma Swap_val n v :
  (n = 1 \/ n = 2 \/ n = 4 \/ n = 8)%nat -> fits (8 * Z.of_nat n) v ->
  Swap n v = le_val (rev (le_bytes n v)).
Proof.
  intros [->|[->|[->| ->]]] Hv; cbn [Swap].
  - change (rev (le_bytes 1 v)) with (le_bytes 1 v). by rewrite le_val_fits.
  - by apply Swap16_val.
  - by apply Swap32_val.
  - by apply Swap64_val.
Qed.

(** ** [MinidumpMemoryRegion] *)

(** A region set up by [SetDescriptor] on a 64-bit start and 32-bit size and
    position, whose cache, if any, holds the region's bytes. *)
Record region_ok (r : MinidumpMemoryRegion) (m : Minidump) : Prop := {
  ro_desc : valid_ r = true -> exists d, descriptor_ r = Some d /\
    fits 64 (start_of_memory_range d) /\ fits 32 (data_size (memory d)) /\
    start_of_memory_range d + data_size (memory d) < 2 ^ 64;
  ro_cache : forall mem d, memory_ r = Some mem -> descriptor_ r = Some d ->
    Forall byte_ok mem /\ Z.of_nat (length mem) = data_size (memory d);
  ro_stream : forall s, stream_ m = Some s -> Forall byte_ok (sbytes s)
}.

Lemma region_ok_SetDescriptor d m :
  fits 64 (start_of_memory_range d) -> fits 32 (data_size (memory d)) ->
  (forall s, stream_ m = Some s -> Forall byte_ok (sbytes s)) ->
  region_ok (SetDescriptor MinidumpMemoryRegion_new (Some d)) m.
Proof.
  intros Hs Hd Hm. constructor; [|done..]. unfold SetDescriptor. cbn [valid_ descriptor_]. intros Hv.
  exists d. split_and!; try done. breflect. unfold fits in *.
  rewrite wrap_small in Hv by (unfold fits; lia). lia.
Qed.

Lemma SeekSet_bytes m o ok m' :
  SeekSet m o = (ok, m') -> swap_ m' = swap_ m /\
  forall s', stream_ m' = Some s' -> exists s, stream_ m = Some s /\ sbytes s' = sbytes s.
Proof.
  unfold SeekSet. destruct (stream_ m) as [s|] eqn:Es; intros [= <- <-]; simpl; (split; [done|]).
  - intros s' [= <-]. exists s. split; [done|]. by destruct (sgood s).
  - rewrite Es. done.
Qed.

Lemma ReadBytes_bytes m c o m' :
  ReadBytes m c = (o, m') -> swap_ m' = swap_ m /\
  (forall s', stream_ m' = Some s' -> exists s, stream_ m = Some s /\ sbytes s' = sbytes s) /\
  (forall mem, o = Some mem -> Z.of_nat (length mem) = c /\
     ((forall s, stream_ m = Some s -> Forall byte_ok (sbytes s)) -> Forall byte_ok mem)).
Proof.
  unfold ReadBytes. destruct (stream_ m) as [s|] eqn:Es; intros [= <- <-]; simpl; (split; [done|split]).
  - intros s' [= <-]. eauto.
  - intros mem Hm. destruct (negb _) eqn:E; [done|]. breflect. injection Hm as <-. split; [done|].
    intros Hb. specialize (Hb s eq_refl). destruct (sgood s); [by apply slice_bytes_ok|constructor].
  - rewrite Es. done.
  - done.
Qed.

(** A successful [GetMemory] yields the region's bytes and caches them. *)
Lemma GetMemory_ok r m o r' m' :
  region_ok r m -> GetMemory r m = (o, r', m') ->
  region_ok r' m' /\ swap_ m' = swap_ m /\ valid_ r' = valid_ r /\ descriptor_ r' = descriptor_ r /\
  forall mem, o = Some mem -> memory_ r' = Some mem /\ GetMemory r' m' = (Some mem, r', m') /\
    Forall byte_ok mem /\ exists d, descriptor_ r = Some d /\ Z.of_nat (length mem) = data_size (memory d).
Proof.
  intros Hok. pose proof Hok as [Hd Hc Hs]. unfold GetMemory.
  destruct (valid_ r) eqn:Ev; [|by intros [= <- <- <-]].
  pose proof (Hd eq_refl) as Hd'. destruct (Hd eq_refl) as (d & Ed & _). rewrite Ed in Hd'. rewrite Ed.
  destruct (memory_ r) as [mem|] eqn:Em.
  { intros [= <- <- <-]. split_and!; try done. intros mem' [= <-]. rewrite Ev, Ed, Em.
    pose proof (Hc mem d eq_refl Ed) as [? ?]. split_and!; try done. eauto. }
  destruct (data_size (memory d) =? 0); [by intros [= <- <- <-]|].
  destruct (SeekSet m (rva (memory d))) as [ok m1] eqn:E1.
  apply SeekSet_bytes in E1 as [Esw1 Hb1].
  assert (Hs1: forall s, stream_ m1 = Some s -> Forall byte_ok (sbytes s)).
  { intros s (s0 & Es0 & ->)%Hb1. by apply Hs. }
  assert (Hok1: region_ok r m1) by (constructor; [rewrite Ev; eauto | by rewrite Em | done]).
  destruct ok; [|by intros [= <- <- <-]]. cbn [negb].
  destruct (max_bytes_ <? _); [by intros [= <- <- <-]|].
  destruct (ReadBytes m1 (data_size (memory d))) as [o2 m2] eqn:E2.
  apply ReadBytes_bytes in E2 as (Esw2 & Hb2 & Hmem).
  assert (Hs2: forall s, stream_ m2 = Some s -> Forall byte_ok (sbytes s)).
  { intros s (s0 & Es0 & ->)%Hb2. by apply Hs1. }
  destruct o2 as [mem|]; intros [= <- <- <-].
  - destruct (Hmem mem eq_refl) as [Hl Hby]. split_and!; [|congruence|done..|].
    + constructor; cbn; [intros _; rewrite ?Ed; exact Hd'| |done].
      intros ? d0 [= <-] Hd0. assert (d0 = d) as -> by congruence. auto.
    + intros mem' [= <-]. cbn. rewrite ?Ev, ?Ed. split_and!; eauto.
  - split_and!; try done; [|congruence]. constructor; [rewrite Ev; eauto|by rewrite Em|done].
Qed.

(** The value of [bs] in the byte order of the minidump. *)
Definition ordered_val (swap : bool) (bs : list Z) : Z := le_val (if swap then rev bs else bs).

Definition in_region (r : MinidumpMemoryRegion) (a : Z) (n : nat) : Prop :=
  valid_ r = true /\ exists d, descriptor_ r = Some d /\ start_of_memory_range d <= a /\
    a + Z.of_nat n <= start_of_memory_range d + data_size (memory d).

Lemma GetMemoryAtAddressInternal_eq n r m a d :
  region_ok r m -> fits 64 a -> (n = 1 \/ n = 2 \/ n = 4 \/ n = 8)%nat ->
  valid_ r = true -> descriptor_ r = Some d ->
  GetMemoryAtAddressInternal n r m a =
  if (a <? start_of_memory_range d) ||
     (start_of_memory_range d + data_size (memory d) <? a + Z.of_nat n) then (Fail, r, m)
  else
    match GetMemory r m with
    | (None, r', m') => (Fail, r', m')
    | (Some mem, r', m') =>
        (Ok (ordered_val (swap_ m) (slice mem (a - start_of_memory_range d) n)), r', m')
    end.
Proof.
  intros Hok Ha Hn Ev Ed. pose proof Hok as [Hd _ _].
  destruct (Hd Ev) as (d' & Ed' & Hs & Hz & Hlt). rewrite Ed in Ed'. injection Ed' as <-.
  unfold GetMemoryAtAddressInternal. rewrite Ev, Ed. unfold fits in *.
  rewrite (wrap_small 64 (_ + data_size _)) by (unfold fits; lia).
  destruct (a <? start_of_memory_range d) eqn:E1; [done|]. breflect.
  destruct (2 ^ 64 - 1 - a <? Z.of_nat n) eqn:E2; breflect; cbn [orb].
  { destruct (_ <? a + Z.of_nat n) eqn:E3; [done|]. breflect. lia. }
  rewrite wrap_small by (unfold fits; lia).
  destruct (_ <? a + Z.of_nat n) eqn:E3; [done|]. breflect.
  destruct (GetMemory r m) as [[o r'] m'] eqn:Eg.
  destruct (GetMemory_ok _ _ _ _ _ Hok Eg) as (_ & Hsw & _ & _ & Hmem).
  destruct o as [mem|]; [|done]. destruct (Hmem mem eq_refl) as (_ & _ & Hb & d' & Ed' & Hl).
  rewrite Ed in Ed'. injection Ed' as <-. rewrite wrap_small by (unfold fits; lia). rewrite Hsw.
  destruct (_ <=? Z.of_nat (length mem)) eqn:E4; [|breflect; lia]. breflect.
  do 3 f_equal. unfold ordered_val. destruct (swap_ m); [|done].
  rewrite Swap_val by (done || (apply read_le_fits; (done || lia))). f_equal. f_equal. unfold read_le.
  rewrite <- (length_slice mem (a - start_of_memory_range d) n) at 1 by lia.
  by apply le_bytes_val, slice_bytes_ok.
Qed.

Lemma ordered_val_fits swap bs n :
  Forall byte_ok bs -> length bs = n -> fits (8 * Z.of_nat n) (ordered_val swap bs).
Proof.
  intros Hb <-. unfold ordered_val. destruct swap; [|by apply le_val_range].
  rewrite <- length_rev. apply le_val_range. rewrite rev_alt. by apply Forall_reverse.
Qed.

(** C27: a read through a minidump memory region never leaves the region: it
    succeeds exactly when the bytes lie in the region and the region can be read
    from the file (or was read before); the value is made of those bytes in the
    minidump's byte order; and once the region has been read it stays cached, so
    that later reads see the same bytes whatever becomes of the stream. *)
Theorem minidump_memory_read (n : nat) (r : MinidumpMemoryRegion) (m : Minidump) (a : Z) :
  sizes_ok n -> region_ok r m -> fits 64 a ->
  let '(o, r', m') := GetMemoryAtAddressInternal n r m a in
  o <> Undefined /\ region_ok r' m' /\
  ((exists v, o = Ok v) <-> in_region r a n /\ exists mem, (GetMemory r m).1.1 = Some mem) /\
  (forall v, o = Ok v -> exists d mem, descriptor_ r = Some d /\ GetMemory r' m' = (Some mem, r', m') /\
     Z.of_nat (length mem) = data_size (memory d) /\
     v = ordered_val (swap_ m) (slice mem (a - start_of_memory_range d) n)).
Proof.
  intros Hn Hok Ha. destruct (valid_ r) eqn:Ev.
  2: { unfold GetMemoryAtAddressInternal. rewrite Ev. split_and!; try done.
       split; [by intros [? ?]|]. unfold in_region. rewrite Ev. by intros [[? _] _]. }
  destruct (ro_desc _ _ Hok Ev) as (d & Ed & _).
  rewrite (GetMemoryAtAddressInternal_eq n r m a d) by done.
  destruct (_ || _) eqn:E.
  - split_and!; try done. split; [by intros [? ?]|].
    intros [(_ & d' & Ed' & ? & ?) _]. rewrite Ed in Ed'. injection Ed' as <-.
    breflect. destruct E; breflect; lia.
  - destruct (GetMemory r m) as [[o r'] m'] eqn:Eg.
    destruct (GetMemory_ok _ _ _ _ _ Hok Eg) as (Hok' & Hsw & _ & _ & Hmem). breflect.
    destruct o as [mem|]; (split_and!; [done|done|split|]).
    + intros _. split; [|by eexists]. split; [done|]. exists d. done.
    + intros _. by eexists.
    + intros v [= <-]. destruct (Hmem mem eq_refl) as (_ & ? & _ & d' & Ed' & ?).
      rewrite Ed in Ed'. injection Ed' as <-. by exists d, mem.
    + by intros [? ?].
    + by intros [_ [? ?]].
    + done.
Qed.

Lemma minidump_memory_read_witness :
  let d := mkMemDesc 0x1000 (mkLoc 8 2) in
  let m := mkMinidump (Some (mkStream [0; 0; 1; 2; 3; 4; 5; 6; 7; 8] 0 true)) true in
  let r := SetDescriptor MinidumpMemoryRegion_new (Some d) in
  sizes_ok 4 /\ region_ok r m /\
  (GetMemoryAtAddressInternal 4 r m 0x1002).1.1 = Ok 0x03040506 /\
  (GetMemoryAtAddressInternal 4 r m 0x1002).1.1 <> Undefined.
Proof.
  intros d m r.
  assert (Hok: region_ok r m).
  { apply region_ok_SetDescriptor; [unfold fits; simpl; lia..|]. intros s [= <-].
    repeat (constructor; [unfold byte_ok, fits; simpl; lia|]). constructor. }
  assert (Hn: sizes_ok 4) by (unfold sizes_ok; lia).
  assert (Ha: fits 64 0x1002) by (unfold fits; lia).
  pose proof (minidump_memory_read 4 r m 0x1002 Hn Hok Ha) as H.
  destruct (GetMemoryAtAddressInternal 4 r m 0x1002) as [[o r'] m'] eqn:E.
  destruct H as (H & _). split_and!; [done|done| |done].
  vm_compute in E. by injection E as <- _ _.
Defined.

(** ** [MicrodumpMemoryRegion] *)

Lemma slice_snoc mem off n b :
  0 <= off -> mem !! (Z.to_nat off + n)%nat = Some b -> slice mem off (S n) = slice mem off n ++ [b].
Proof.
  intros Ho Hb. unfold slice. apply take_S_r. by rewrite lookup_drop.
Qed.

Lemma little_endian_loop_eq n contents start i : forall v,
  Forall byte_ok contents -> 0 <= start -> start + Z.of_nat n <= Z.of_nat (length contents) < 2 ^ 63 ->
  (i <= n)%nat -> fits (8 * Z.of_nat (n - i)) v ->
  little_endian_loop (8 * Z.of_nat n) contents start i v =
  Ok (le_val (slice contents start i) + 2 ^ (8 * Z.of_nat i) * v).
Proof.
  induction i as [|i IH]; intros v Hc Hs Hl Hi Hv.
  - cbn [little_endian_loop]. change (le_val (slice contents start 0)) with 0. f_equal. lia.
  - cbn [little_endian_loop]. rewrite wrap_small by (unfold fits; lia).
    destruct (lookup_lt_is_Some_2 contents (Z.to_nat (start + Z.of_nat i)) ltac:(lia)) as [c Ec].
    rewrite Ec. assert (Hcb: byte_ok c) by (by eapply Forall_lookup_1).
    rewrite (wrap_small 8 c) by done. unfold byte_ok, fits in Hcb.
    rewrite Z.shiftl_mul_pow2, Z.lor_comm, lor_disjoint by lia.
    replace (n - S i)%nat with (n - i - 1)%nat in Hv by lia.
    assert (Hv': fits (8 * Z.of_nat (n - i)) (c + v * 2 ^ 8)).
    { unfold fits in *. replace (8 * Z.of_nat (n - i)) with (8 * Z.of_nat (n - i - 1) + 8) by lia.
      rewrite Z.pow_add_r by lia. nia. }
    rewrite wrap_small.
    2: { unfold fits in *. split; [lia|]. eapply Z.lt_le_trans; [apply Hv'|]. apply Z.pow_le_mono_r; lia. }
    rewrite IH by (done || lia).
    rewrite (slice_snoc contents start i c); [|done|].
    2: { rewrite <- Ec. f_equal. lia. }
    rewrite le_val_app. change (le_val [c]) with (c + 256 * 0).
    assert (Hl': length (slice contents start i) = i) by (apply length_slice; lia). rewrite Hl'.
    replace (8 * Z.of_nat (S i)) with (8 * Z.of_nat i + 8) by lia.
    rewrite Z.pow_add_r by lia. f_equal. lia.
Qed.

(** Reading from the very end of the address space. *)
Lemma little_endian_loop_oob w contents start i : forall v,
  fits 64 start -> Z.of_nat (length contents) < 2 ^ 63 -> (i <= 8)%nat ->
  2 ^ 63 <= start -> (0 < i)%nat -> little_endian_loop w contents start i v = Undefined.
Proof.
  unfold fits. induction i as [|i IH]; intros v Hs Hl Hi Hb Hp; [lia|]. cbn [little_endian_loop].
  destruct (decide (i = 0)%nat) as [->|Hne].
  - rewrite wrap_small by (unfold fits; lia).
    destruct (contents !! _) eqn:E; [|done]. apply lookup_lt_Some in E. lia.
  - destruct (contents !! _); [|done]. apply IH; lia.
Qed.

Lemma GetMemoryLittleEndian_eq (n : nat) (r : MicrodumpMemoryRegion) (a : Z) :
  sizes_ok n -> Forall byte_ok (contents_ r) -> Z.of_nat (length (contents_ r)) < 2 ^ 63 ->
  fits 64 (base_address_ r) -> fits 64 a ->
  GetMemoryLittleEndian n r a =
  let size := Z.of_nat (length (contents_ r)) in
  let off := a - base_address_ r in
  if off <? 0 then Fail
  else if off + Z.of_nat n <? 2 ^ 64 then
    if off + Z.of_nat n <=? size then Ok (le_val (slice (contents_ r) off n)) else Fail
  else if off + Z.of_nat n - 2 ^ 64 <=? size then Undefined else Fail.
Proof.
  intros Hn Hc Hl Hb Ha. assert (0 < Z.of_nat n <= 8) by (unfold sizes_ok in Hn; lia).
  unfold GetMemoryLittleEndian. unfold fits in *. cbv zeta.
  destruct (a <? base_address_ r) eqn:E1; breflect; cbn [orb].
  { destruct (a - base_address_ r <? 0) eqn:E2; [done|breflect; lia]. }
  destruct (a - base_address_ r <? 0) eqn:E2; [breflect; lia|].
  rewrite (wrap_small 64 (a - base_address_ r)) by (unfold fits; lia).
  set (off := a - base_address_ r) in *. assert (0 <= off < 2 ^ 64) by lia.
  destruct (off + Z.of_nat n <? 2 ^ 64) eqn:E3; breflect.
  - rewrite wrap_small by (unfold fits; lia).
    destruct (off + Z.of_nat n <=? _) eqn:E4, (_ <? off + Z.of_nat n) eqn:E5; breflect; try lia; try done.
    rewrite little_endian_loop_eq; [f_equal; lia|done|lia..|].
    rewrite Nat.sub_diag. unfold fits. simpl. lia.
  - destruct (wrap_add_cases 64 off (Z.of_nat n)) as [[_ ?]|[-> _]]; [lia|unfold fits; lia..|].
    destruct (_ <? off + Z.of_nat n - 2 ^ 64) eqn:E4, (off + Z.of_nat n - 2 ^ 64 <=? _) eqn:E5; breflect; try lia; try done.
    apply little_endian_loop_oob; unfold fits; lia.
Qed.

(** A read through a microdump region whose end does not wrap around the
    64-bit address space returns the little-endian value of bytes inside the
    region and fails outside it.  A read that does wrap -- which needs an
    address less than the width away from the region's base plus 2^64 -- passes
    the bounds check whenever the wrapped sum is at most the region's size, and
    then accesses the contents out of bounds. *)
Lemma microdump_memory_read (n : nat) (r : MicrodumpMemoryRegion) (a : Z) :
  sizes_ok n -> Forall byte_ok (contents_ r) -> Z.of_nat (length (contents_ r)) < 2 ^ 63 ->
  fits 64 (base_address_ r) -> fits 64 a ->
  GetMemoryLittleEndian n r a =
  let size := Z.of_nat (length (contents_ r)) in
  let off := a - base_address_ r in
  if off <? 0 then Fail
  else if off + Z.of_nat n <? 2 ^ 64 then
    if off + Z.of_nat n <=? size then Ok (le_val (slice (contents_ r) off n)) else Fail
  else if off + Z.of_nat n - 2 ^ 64 <=? size then Undefined else Fail.
Proof. apply GetMemoryLittleEndian_eq. Qed.

Lemma microdump_memory_read_witness :
  GetMemoryLittleEndian 4 (MicrodumpMemoryRegion_Init 0x1000 [1; 2; 3; 4; 5]) 0x1001 = Ok 0x05040302 /\
  GetMemoryLittleEndian 8 MicrodumpMemoryRegion_new (2 ^ 64 - 8) = Undefined.
Proof.
  split.
  - rewrite microdump_memory_read; [reflexivity|unfold sizes_ok; lia| |simpl; lia|unfold fits; simpl; lia|unfold fits; lia].
    repeat (constructor; [unfold byte_ok, fits; simpl; lia|]). constructor.
  - rewrite microdump_memory_read; [reflexivity|unfold sizes_ok; lia|constructor|simpl; lia|unfold fits; simpl; lia|unfold fits; lia].
Defined.

(** ** Both implementations keep the interface's promises *)

#[export] Instance minidump_region_laws :
  MemoryRegionLaws (MinidumpMemoryRegion * Minidump)
    (λ rm, region_ok rm.1 rm.2 /\ valid_ rm.1 = true).
Proof.
  assert (Hgen: forall n rm a v, sizes_ok n -> fits 64 a -> region_ok rm.1 rm.2 -> valid_ rm.1 = true ->
    (GetMemoryAtAddressInternal n rm.1 rm.2 a).1.1 = Ok v ->
    fits (8 * Z.of_nat n) v /\ MinidumpMemoryRegion_GetBase rm.1 <= a /\
    a + Z.of_nat n <= MinidumpMemoryRegion_GetBase rm.1 + MinidumpMemoryRegion_GetSize rm.1).
  { intros n [r m] a v Hn Ha Hok Hv. simpl in *. destruct (ro_desc _ _ Hok Hv) as (d & Ed & _).
    unfold MinidumpMemoryRegion_GetBase, MinidumpMemoryRegion_GetSize. rewrite Hv, Ed.
    rewrite (GetMemoryAtAddressInternal_eq n r m a d) by done.
    destruct (_ || _) eqn:E; [done|]. breflect.
    destruct (GetMemory r m) as [[[mem|] r'] m'] eqn:Eg; [|done]. simpl. intros [= <-].
    destruct (GetMemory_ok _ _ _ _ _ Hok Eg) as (_ & _ & _ & _ & Hmem).
    destruct (Hmem mem eq_refl) as (_ & _ & Hb & d' & Ed' & Hl). rewrite Ed in Ed'. injection Ed' as <-.
    split; [|lia]. apply ordered_val_fits; [by apply slice_bytes_ok|]. apply length_slice; lia. }
  split; intros n rm a v Hn Ha [Hok Hv] Hr; by eapply Hgen.
Qed.

Definition micro_ok (r : MicrodumpMemoryRegion) : Prop :=
  Forall byte_ok (contents_ r) /\ fits 32 (Z.of_nat (length (contents_ r))) /\ fits 64 (base_address_ r).

#[export] Instance microdump_region_laws : MemoryRegionLaws MicrodumpMemoryRegion micro_ok.
Proof.
  assert (Hgen: forall n r a v, sizes_ok n -> fits 64 a ->
    Forall byte_ok (contents_ r) -> fits 32 (Z.of_nat (length (contents_ r))) -> fits 64 (base_address_ r) ->
    GetMemoryLittleEndian n r a = Ok v ->
    fits (8 * Z.of_nat n) v /\ base_address_ r <= a /\ a + Z.of_nat n <= base_address_ r + Z.of_nat (length (contents_ r))).
  { intros n r a v Hn Ha Hc Hl Hb. assert (0 < Z.of_nat n <= 8) by (unfold sizes_ok in Hn; lia).
    rewrite GetMemoryLittleEndian_eq by (done || unfold fits in *; lia). cbv zeta.
    repeat dif; try done. intros [= <-]. split; [|lia]. apply read_le_fits; [done|lia..]. }
  split; intros n r a v Hn Ha (Hc & Hl & Hb) Hr;
    destruct (Hgen n r a v Hn Ha Hc Hl Hb Hr) as (? & ? & ?); [done|].
  simpl. rewrite wrap_small by done. done.
Qed.
