(* ===== verification/PostfixEvaluator.v ===== *)
(** processor/postfix_evaluator.h, postfix_evaluator-inl.h: [PostfixEvaluator],
    the stack machine that runs the "program strings" of Windows frame data and
    the rules of STACK CFI records.  [ValueType] is an unsigned [w]-bit integer. *)
From Stdlib Require Import Ascii.
From stdpp Require Import strings list gmap.
From S2P Require Import Prelude CStr Memory MemoryRegion.

(** [stream >> token], repeated: the maximal runs of non-space characters.
    [cur] holds the characters of the current run, last one first. *)
Fixpoint words_from (cur : cstring) (s : cstring) : list cstring :=
  match s with
  | [] => match cur with [] => [] | _ => [rev cur] end
  | c :: s' =>
      if isspace c
      then match cur with [] => words_from [] s' | _ => rev cur :: words_from [] s' end
      else words_from (c :: cur) s'
  end.

Definition words (s : cstring) : list cstring := words_from [] s.

Section evaluator.
Context {R : Type} `{MemoryRegion R} (w : Z).

Abbreviation DictionaryType := (gmap cstring Z).
Abbreviation DictionaryValidityType := (gmap cstring bool).

(** The evaluator, and the [assigned] map of the call in progress.  [None] is a
    null pointer. *)
Record PostfixEvaluator := mkEval {
  dictionary_ : option DictionaryType;
  region_ : option R;
  stack_ : list cstring;            (* the back of the vector is the head *)
  assigned_ : option DictionaryValidityType
}.

Definition PostfixEvaluator_new (dictionary : option DictionaryType) (memory : option R) : PostfixEvaluator :=
  mkEval dictionary memory [] None.

Definition set_dictionary (e : PostfixEvaluator) (d : option DictionaryType) : PostfixEvaluator :=
  mkEval d (region_ e) (stack_ e) (assigned_ e).

Definition set_stack (e : PostfixEvaluator) (s : list cstring) : PostfixEvaluator :=
  mkEval (dictionary_ e) (region_ e) s (assigned_ e).

Definition set_assigned (e : PostfixEvaluator) (a : option DictionaryValidityType) : PostfixEvaluator :=
  mkEval (dictionary_ e) (region_ e) (stack_ e) a.

(** A method: an outcome and the evaluator it leaves. *)
Definition M (A : Type) := PostfixEvaluator -> outcome A * PostfixEvaluator.

Definition ret {A} (a : A) : M A := λ e, (Ok a, e).
Definition bind {A B} (m : M A) (f : A -> M B) : M B := λ e,
  match m e with
  | (Ok a, e) => f a e
  | (Fail, e) => (Fail, e)
  | (Undefined, e) => (Undefined, e)
  end.
Definition lift {A} (x : outcome A) : M A := λ e, (x, e).
#[local] Notation "'let!' x := m 'in' k" := (bind m (λ x, k)) (at level 200, x pattern, right associativity).

Inductive PopResult := POP_RESULT_FAIL | POP_RESULT_VALUE (value : Z) | POP_RESULT_IDENTIFIER (identifier : cstring).

(** A token read as a literal: its sign and its magnitude. *)
Definition parse_literal (token : cstring) : option (bool * Z) :=
  let '(negative, s) :=
    match token with
    | c :: s => if code c =? 45 then (true, s) else (false, token)
    | [] => (false, token)
    end in
  match extract_unsigned w s with
  | Some (literal, []) => Some (negative, literal)
  | _ => None
  end.

(** [PopValueOrIdentifier]; [has_value] tells whether [value] is not null. *)
Definition PopValueOrIdentifier (has_value : bool) : M PopResult := λ e,
  match stack_ e with
  | [] => (Ok POP_RESULT_FAIL, e)
  | token :: rest =>
      let e := set_stack e rest in
      match parse_literal token with
      | Some (negative, literal) =>
          if negative && negb has_value then (Undefined, e)   (* *value = -*value *)
          else (Ok (POP_RESULT_VALUE (if negative then wrap w (- literal) else literal)), e)
      | None => (Ok (POP_RESULT_IDENTIFIER token), e)
      end
  end.

Definition PopValue : M Z :=
  let! r := PopValueOrIdentifier true in
  match r with
  | POP_RESULT_FAIL => lift Fail
  | POP_RESULT_VALUE literal => ret literal
  | POP_RESULT_IDENTIFIER token => λ e,
      match dictionary_ e with
      | None => (Undefined, e)
      | Some d => (of_option (d !! token), e)
      end
  end.

(** [value2] is popped first. *)
Definition PopValues : M (Z * Z) :=
  let! value2 := PopValue in let! value1 := PopValue in ret (value1, value2).

Definition PushValue (value : Z) : M unit := λ e,
  (Ok tt, set_stack e (print_dec value :: stack_ e)).

Inductive BinaryOperation :=
| BINARY_OP_NONE | BINARY_OP_ADD | BINARY_OP_SUBTRACT | BINARY_OP_MULTIPLY
| BINARY_OP_DIVIDE_QUOTIENT | BINARY_OP_DIVIDE_MODULUS | BINARY_OP_ALIGN.

Definition binary_operation (token : cstring) : BinaryOperation :=
  if str_eqb token (lit "+") then BINARY_OP_ADD
  else if str_eqb token (lit "-") then BINARY_OP_SUBTRACT
  else if str_eqb token (lit "*") then BINARY_OP_MULTIPLY
  else if str_eqb token (lit "/") then BINARY_OP_DIVIDE_QUOTIENT
  else if str_eqb token (lit "%") then BINARY_OP_DIVIDE_MODULUS
  else if str_eqb token (lit "@") then BINARY_OP_ALIGN
  else BINARY_OP_NONE.

(** The operation on [ValueType]; a zero divisor is undefined. *)
Definition apply_binary (op : BinaryOperation) (operand1 operand2 : Z) : outcome Z :=
  match op with
  | BINARY_OP_ADD => Ok (wrap w (operand1 + operand2))
  | BINARY_OP_SUBTRACT => Ok (wrap w (operand1 - operand2))
  | BINARY_OP_MULTIPLY => Ok (wrap w (operand1 * operand2))
  | BINARY_OP_DIVIDE_QUOTIENT => if operand2 =? 0 then Undefined else Ok (operand1 / operand2)
  | BINARY_OP_DIVIDE_MODULUS => if operand2 =? 0 then Undefined else Ok (operand1 mod operand2)
  | BINARY_OP_ALIGN => Ok (Z.land operand1 (Z.lxor (wrap w (-1)) (wrap w (operand2 - 1))))
  | BINARY_OP_NONE => Fail
  end.

(** [sizeof(ValueType)]. *)
Definition value_bytes : nat := Z.to_nat (w / 8).

Definition EvaluateToken (token : cstring) : M unit :=
  match binary_operation token with
  | BINARY_OP_NONE =>
      if str_eqb token (lit "^") then λ e,
        match region_ e with
        | None => (Fail, e)
        | Some memory =>
            (let! address := PopValue in
             let! value := lift (GetMemoryAtAddress value_bytes memory address) in
             PushValue value) e
        end
      else if str_eqb token (lit "=") then
        let! value := PopValue in
        let! r := PopValueOrIdentifier false in
        match r with
        | POP_RESULT_IDENTIFIER identifier => λ e,
            if starts_with (lit "$") identifier then
              match dictionary_ e with
              | None => (Undefined, e)
              | Some d =>
                  (Ok tt, mkEval (Some (<[identifier := value]> d)) (region_ e) (stack_ e)
                                 (<[identifier := true]> <$> assigned_ e))
              end
            else (Fail, e)
        | _ => lift Fail
        end
      else λ e, (Ok tt, set_stack e (token :: stack_ e))
  | operation =>
      let! (operand1, operand2) := PopValues in
      let! result := lift (apply_binary operation operand1 operand2) in
      PushValue result
  end.

(** The body of the loop of [EvaluateInternal]: an assignment operator may be
    glued to the token after it. *)
Definition evaluate_one (token : cstring) : M unit :=
  match token with
  | c :: _ :: _ =>
      if code c =? 61
      then let! _ := EvaluateToken (lit "=") in EvaluateToken (tail token)
      else EvaluateToken token
  | _ => EvaluateToken token
  end.

Fixpoint evaluate_tokens (tokens : list cstring) : M unit :=
  match tokens with
  | [] => ret tt
  | token :: tokens => let! _ := evaluate_one token in evaluate_tokens tokens
  end.

Definition EvaluateInternal (expression : cstring) : M unit := evaluate_tokens (words expression).

(** [AutoStackClearer]: the stack is cleared on every way out. *)
Definition clearing {A} (m : M A) : M A := λ e,
  let '(r, e) := m e in (r, set_stack e []).

(** [Evaluate]: the evaluator afterwards holds the updated [assigned]. *)
Definition Evaluate (expression : cstring) (assigned : option DictionaryValidityType) : M unit := λ e,
  clearing (let! _ := EvaluateInternal expression in λ e,
    match stack_ e with [] => (Ok tt, e) | _ => (Fail, e) end) (set_assigned e assigned).

Definition EvaluateForValue (expression : cstring) : M Z := λ e,
  clearing (let! _ := EvaluateInternal expression in λ e,
    if (length (stack_ e) =? 1)%nat then PopValue e else (Fail, e)) (set_assigned e None).
End evaluator.

Arguments PostfixEvaluator : clear implicits.
Arguments PostfixEvaluator_new {R}.

(** ** The arithmetic expressions that programs denote *)

(** An expression over dictionary entries. *)
Inductive expr :=
| Lit (v : Z)                     (* a literal *)
| NegLit (v : Z)                  (* a literal with a minus sign *)
| Var (name : cstring)
| Bin (op : BinaryOperation) (e1 e2 : expr)
| Deref (e : expr).

Definition op_token (op : BinaryOperation) : cstring :=
  match op with
  | BINARY_OP_ADD => lit "+" | BINARY_OP_SUBTRACT => lit "-" | BINARY_OP_MULTIPLY => lit "*"
  | BINARY_OP_DIVIDE_QUOTIENT => lit "/" | BINARY_OP_DIVIDE_MODULUS => lit "%"
  | BINARY_OP_ALIGN => lit "@" | BINARY_OP_NONE => []
  end.

(** Its postfix form. *)
Fixpoint compile (e : expr) : list cstring :=
  match e with
  | Lit v => [print_dec v]
  | NegLit v => [chr 45 :: print_dec v]
  | Var n => [n]
  | Bin op e1 e2 => compile e1 ++ compile e2 ++ [op_token op]
  | Deref e => compile e ++ [lit "^"]
  end.

(** A non-empty word. *)
Definition is_word (t : cstring) : bool :=
  match t with [] => false | _ => forallb (λ c, negb (isspace c)) t end.

(** A word that is neither a literal nor an operator, and that does not look
    like a glued assignment. *)
Definition is_name (w : Z) (n : cstring) : bool :=
  is_word n &&
  match parse_literal w n with Some _ => false | None => true end &&
  match binary_operation n with BINARY_OP_NONE => true | _ => false end &&
  negb (str_eqb n (lit "^")) && negb (starts_with (lit "=") n).


Section semantics.
Context {R : Type} `{MemoryRegion R} (w : Z) (d : gmap cstring Z) (r : option R).

Fixpoint wf_expr (e : expr) : Prop :=
  match e with
  | Lit v | NegLit v => fits w v
  | Var n => is_name w n = true
  | Bin op e1 e2 => op <> BINARY_OP_NONE /\ wf_expr e1 /\ wf_expr e2
  | Deref e => wf_expr e
  end.

(** An operand on the stack: a value, or a variable that is looked up only when
    an operator takes it. *)
Inductive operand := Val (v : Z) | Name (n : cstring).

Definition resolve (x : operand) : outcome Z :=
  match x with Val v => Ok v | Name n => of_option (d !! n) end.

Fixpoint denote (e : expr) : outcome operand :=
  match e with
  | Lit v => Ok (Val v)
  | NegLit v => Ok (Val (wrap w (- v)))
  | Var n => Ok (Name n)
  | Bin op e1 e2 =>
      x ← denote e1; y ← denote e2;
      v2 ← resolve y; v1 ← resolve x;
      v ← apply_binary w op v1 v2;
      mret (Val v)
  | Deref e =>
      match r with
      | None => x ← denote e; Fail
      | Some memory =>
          x ← denote e; a ← resolve x;
          v ← GetMemoryAtAddress (value_bytes w) memory a;
          mret (Val v)
      end
  end.

(** The value of an expression. *)
Definition value_of (e : expr) : outcome Z := x ← denote e; resolve x.
End semantics.

(** ** Words *)

Lemma words_from_word cur t s :
  forallb (λ c, negb (isspace c)) t = true -> words_from cur (t ++ s) = words_from (rev t ++ cur) s.
Proof.
  revert cur. induction t as [|c t IH]; intros cur Ht; [done|].
  simpl in Ht. apply andb_true_iff in Ht as [Hc Ht]. apply negb_true_iff in Hc.
  simpl. rewrite Hc. rewrite IH by done. by rewrite <- app_assoc.
Qed.

Lemma is_word_inv t : is_word t = true -> t <> [] /\ forallb (λ c, negb (isspace c)) t = true.
Proof. by destruct t. Qed.

Lemma words_join ts : Forall (λ t, is_word t = true) ts -> words (join ts) = ts.
Proof.
  induction ts as [|t ts IH]; intros Hts; [done|].
  inversion Hts as [|? ? Ht Hts']; subst. apply is_word_inv in Ht as [Hne Hsp].
  assert (Hr: exists c cs, rev t = c :: cs).
  { destruct (rev t) as [|c cs] eqn:E; [|eauto]. apply (f_equal (@rev ascii)) in E.
    rewrite rev_involutive in E. done. }
  destruct Hr as (c & cs & Er). assert (Et: rev (c :: cs) = t) by (rewrite <- Er; apply rev_involutive).
  destruct ts as [|t' ts].
  - cbn [join]. unfold words. rewrite <- (app_nil_r t) at 1. rewrite words_from_word by done.
    rewrite app_nil_r, Er. cbn [words_from]. by rewrite Et.
  - change (join (t :: t' :: ts)) with (t ++ SP :: join (t' :: ts)). unfold words.
    rewrite words_from_word by done. rewrite app_nil_r, Er.
    change (words_from (c :: cs) (SP :: join (t' :: ts))) with (rev (c :: cs) :: words_from [] (join (t' :: ts))).
    rewrite Et. f_equal. by apply IH.
Qed.

Lemma digits_word base s : base <= 16 -> s <> [] -> all (is_digit base) s -> is_word s = true.
Proof.
  intros Hb Hne Hall. destruct s as [|c s]; [done|]. change (is_word (c :: s)) with (forallb (λ c, negb (isspace c)) (c :: s)).
  apply forallb_forall. intros x Hx%list_elem_of_In. apply negb_true_iff.
  unfold all in Hall. rewrite Forall_forall in Hall. apply Hall, is_digit_code in Hx; [|done].
  unfold isspace. destruct (_ || _) eqn:E; [|done]. breflect. destruct E; breflect; lia.
Qed.

Lemma print_dec_word v : 0 <= v -> is_word (print_dec v) = true.
Proof.
  intros Hv. destruct (print_num_digits 10 v ltac:(lia) Hv) as (Hne & Hall & _). by eapply (digits_word 10).
Qed.

(** A printed number does not start with an operator character. *)
Lemma print_dec_head v : 0 <= v -> exists c s, print_dec v = c :: s /\ 48 <= code c <= 57.
Proof.
  intros Hv. destruct (print_num_digits 10 v ltac:(lia) Hv) as (Hne & Hall & _). unfold print_dec.
  destruct (print_num 10 v) as [|c s]; [done|]. exists c, s. split; [done|].
  inversion Hall as [|? ? Hc _]; subst. revert Hc. unfold is_digit, digit_val.
  destruct ((48 <=? code c) && (code c <=? 57)) eqn:E1; breflect; [lia|].
  destruct ((97 <=? code c) && (code c <=? 122)) eqn:E2; breflect.
  { destruct (code c - 87 <? 10) eqn:E3; [|done]. breflect. lia. }
  destruct ((65 <=? code c) && (code c <=? 90)) eqn:E4; breflect; [|done].
  destruct (code c - 55 <? 10) eqn:E3; [breflect; lia|done].
Qed.

Lemma parse_literal_print w v : fits w v -> parse_literal w (print_dec v) = Some (false, v).
Proof.
  intros Hv. destruct (print_dec_head v ltac:(unfold fits in Hv; lia)) as (c & s & E & Hc).
  unfold parse_literal. rewrite E. destruct (code c =? 45) eqn:E1; [breflect; lia|].
  rewrite <- E. by rewrite extract_unsigned_print.
Qed.

Lemma parse_literal_neg w v : fits w v -> parse_literal w (chr 45 :: print_dec v) = Some (true, v).
Proof.
  intros Hv. unfold parse_literal. rewrite code_chr by lia. simpl. by rewrite extract_unsigned_print.
Qed.

(** A token that is pushed as it is. *)
Definition plain (t : cstring) : Prop :=
  binary_operation t = BINARY_OP_NONE /\ str_eqb t (lit "^") = false /\ starts_with (lit "=") t = false.

Lemma str_eqb_cons c s x l : c <> x \/ s <> l -> str_eqb (c :: s) (x :: l) = false.
Proof. intros Hne. apply bool_decide_eq_false. intros [= -> ->]. tauto. Qed.

Lemma plain_head c s :
  (forall x, x ∈ lit "+-*/%@^" -> c <> x \/ s <> []) -> code c <> 61 -> plain (c :: s).
Proof.
  intros Hx He. unfold plain, binary_operation, lit in *.
  cbn [String.list_ascii_of_string] in *.
  repeat (rewrite str_eqb_cons by (apply Hx; set_solver)). split_and!; [done..|].
  cbn [starts_with]. destruct (Ascii.eqb _ c) eqn:E; [|done]. apply Ascii.eqb_eq in E as <-. done.
Qed.

Lemma plain_print v : 0 <= v -> plain (print_dec v).
Proof.
  intros Hv. destruct (print_dec_head v Hv) as (c & s & -> & Hc). apply plain_head; [|lia].
  intros x Hx. left. intros ->. unfold lit in Hx. cbn [String.list_ascii_of_string] in Hx.
  repeat (apply elem_of_cons in Hx as [->|Hx];
    [exfalso; vm_compute in Hc; destruct Hc as [H1 H2]; first [by apply H1 | by apply H2]|]). by apply not_elem_of_nil in Hx.
Qed.

Lemma plain_neg v : 0 <= v -> plain (chr 45 :: print_dec v).
Proof.
  intros Hv. destruct (print_dec_head v Hv) as (c & s & E & _). apply plain_head; [|by vm_compute].
  intros x _. right. by rewrite E.
Qed.

Section evaluation.
Context {R : Type} `{MemoryRegionLaws R valid} (w : Z) (Hw : w = 32 \/ w = 64).
Implicit Types (ev : PostfixEvaluator R).

Lemma apply_binary_fits op a b v : fits w a -> fits w b -> apply_binary w op a b = Ok v -> fits w v.
Proof.
  unfold fits. intros Ha Hb. assert (0 <= w) by lia.
  destruct op; simpl; try (by intros [= <-]; apply wrap_range); try done.
  - destruct (b =? 0) eqn:E; [done|]. breflect. intros [= <-]. split; [apply Z.div_pos; lia|].
    eapply Z.le_lt_trans; [|apply Ha]. apply Z.div_le_upper_bound; [lia|]. nia.
  - destruct (b =? 0) eqn:E; [done|]. breflect. intros [= <-].
    pose proof (Z.mod_pos_bound a b ltac:(lia)). pose proof (Z.mod_le a b ltac:(lia) ltac:(lia)). lia.
  - intros [= <-]. rewrite <- (Z.mod_small a (2 ^ w)) by lia. rewrite <- Z.land_ones by lia.
    rewrite <- Z.land_assoc, (Z.land_comm (Z.ones w)), Z.land_assoc, Z.land_ones by lia.
    apply Z.mod_pos_bound, pow2_pos. lia.
Qed.

Lemma binary_op_token op : op <> BINARY_OP_NONE -> binary_operation (op_token op) = op.
Proof. by destruct op. Qed.

Lemma plain_name n : is_name w n = true -> plain n.
Proof.
  unfold is_name, plain. intros Hn. breflect. split_and!; [|done|done]. by destruct (binary_operation n).
Qed.

Lemma EvaluateToken_plain t ev :
  plain t -> EvaluateToken w t ev = (Ok tt, set_stack ev (t :: stack_ ev)).
Proof.
  intros (Hb & Hc & He). unfold EvaluateToken. rewrite Hb, Hc.
  destruct (str_eqb t (lit "=")) eqn:E; [|done]. apply str_eqb_spec in E as ->. done.
Qed.

Lemma evaluate_tokens_cons t ts ev :
  evaluate_tokens w (t :: ts) ev =
  match evaluate_one w t ev with
  | (Ok _, ev') => evaluate_tokens w ts ev'
  | (Fail, ev') => (Fail, ev')
  | (Undefined, ev') => (Undefined, ev')
  end.
Proof. done. Qed.

Lemma evaluate_one_plain t ev : plain t -> evaluate_one w t ev = EvaluateToken w t ev.
Proof.
  intros (_ & _ & He). unfold evaluate_one. destruct t as [|c [|c' t]]; try done.
  destruct (code c =? 61) eqn:E; [|done]. breflect.
  change 61 with (code "="%char) in E. apply code_inj in E as ->. vm_compute in He. done.
Qed.

Lemma evaluate_tokens_plain t ts ev :
  plain t -> evaluate_tokens w (t :: ts) ev = evaluate_tokens w ts (set_stack ev (t :: stack_ ev)).
Proof. intros Hp. by rewrite evaluate_tokens_cons, evaluate_one_plain, EvaluateToken_plain. Qed.

(** The operator tokens consist of one character. *)
Lemma evaluate_tokens_op t ts ev :
  length t = 1%nat ->
  evaluate_tokens w (t :: ts) ev =
  match EvaluateToken w t ev with
  | (Ok _, ev') => evaluate_tokens w ts ev'
  | (Fail, ev') => (Fail, ev')
  | (Undefined, ev') => (Undefined, ev')
  end.
Proof. by destruct t as [|c [|c' t]]. Qed.

(** What an operand looks like on the stack. *)
Definition entry_tok (x : operand) (t : cstring) : Prop :=
  match x with
  | Val v => fits w v /\ exists neg m, parse_literal w t = Some (neg, m) /\ v = if neg then wrap w (- m) else m
  | Name n => t = n /\ parse_literal w n = None
  end.

Lemma entry_tok_print v : fits w v -> entry_tok (Val v) (print_dec v).
Proof. intros. split; [done|]. exists false, v. by rewrite parse_literal_print. Qed.

Context (d : gmap cstring Z) (Hd : forall n v, d !! n = Some v -> fits w v).

Lemma PopValue_entry ev x t s :
  entry_tok x t -> stack_ ev = t :: s -> dictionary_ ev = Some d ->
  PopValue w ev = (resolve d x, set_stack ev s).
Proof.
  intros Hx Hs Hdict. unfold PopValue, PopValueOrIdentifier, bind. rewrite Hs.
  destruct x as [v|n]; simpl in Hx.
  - destruct Hx as (_ & neg & m & -> & ->). cbn [negb]. by rewrite andb_false_r.
  - destruct Hx as [-> ->]. cbn. by rewrite Hdict.
Qed.

Lemma resolve_fits x t v : entry_tok x t -> resolve d x = Ok v -> fits w v.
Proof.
  destruct x as [v'|n]; simpl.
  - by intros [? _] [= <-].
  - intros _. destruct (d !! n) eqn:E; [|done]. intros [= <-]. eauto.
Qed.

(** An evaluation that ends in [o] with a value on the stack, or stops; in any
    case only the stack has changed. *)
Definition result_of {A} (ev : PostfixEvaluator R) (k : Z -> outcome A * PostfixEvaluator R) (o : outcome Z)
    (res : outcome A * PostfixEvaluator R) : Prop :=
  match o with
  | Ok v => fits w v /\ res = k v
  | Fail => exists st, res = (Fail, set_stack ev st)
  | Undefined => exists st, res = (Undefined, set_stack ev st)
  end.

Definition operands_value (op : BinaryOperation) (x y : operand) : outcome Z :=
  v2 ← resolve d y; v1 ← resolve d x; apply_binary w op v1 v2.

Lemma EvaluateToken_bin op ev x y t1 t2 s :
  op <> BINARY_OP_NONE -> entry_tok x t1 -> entry_tok y t2 ->
  stack_ ev = t2 :: t1 :: s -> dictionary_ ev = Some d ->
  result_of ev (λ v, (Ok tt, set_stack ev (print_dec v :: s))) (operands_value op x y)
    (EvaluateToken w (op_token op) ev).
Proof.
  intros Hop Hx Hy Hs Hdict.
  assert (E: EvaluateToken w (op_token op) ev =
             bind (PopValues w) (λ '(a, b), bind (lift (apply_binary w op a b)) PushValue) ev) by (by destruct op).
  rewrite E. clear E. unfold bind at 1, PopValues. unfold bind at 1.
  rewrite (PopValue_entry ev y t2 (t1 :: s)) by done. unfold operands_value.
  destruct (resolve d y) as [v2| |] eqn:Ey; cbn [mbind outcome_bind result_of]; [|by eexists..].
  unfold bind at 1. rewrite (PopValue_entry _ x t1 s) by done.
  destruct (resolve d x) as [v1| |] eqn:Ex; cbn [mbind outcome_bind result_of]; [|by eexists..].
  unfold ret, bind, lift. destruct (apply_binary w op v1 v2) as [v| |] eqn:Ea; cbn [result_of]; [|by eexists..].
  split; [|done]. eapply apply_binary_fits; [| |exact Ea].
  - by apply (resolve_fits x t1).
  - by apply (resolve_fits y t2).
Qed.

Context (r : option R) (Hr : forall m, r = Some m -> valid m).

Lemma value_bytes_ok : sizes_ok (value_bytes w) /\ 8 * Z.of_nat (value_bytes w) = w.
Proof. unfold sizes_ok, value_bytes. destruct Hw as [-> | ->]; (split; [|reflexivity]); [do 2 right; left|do 3 right]; reflexivity. Qed.

Lemma EvaluateToken_deref ev x t s :
  entry_tok x t -> stack_ ev = t :: s -> dictionary_ ev = Some d -> region_ ev = r ->
  result_of ev (λ v, (Ok tt, set_stack ev (print_dec v :: s)))
    (match r with None => Fail | Some m => a ← resolve d x; GetMemoryAtAddress (value_bytes w) m a end)
    (EvaluateToken w (lit "^") ev).
Proof.
  intros Hx Hs Hdict Hreg. unfold EvaluateToken.
  change (binary_operation (lit "^")) with BINARY_OP_NONE. rewrite str_eqb_refl, Hreg.
  destruct r as [m|]; [|by exists (stack_ ev); destruct ev].
  unfold bind at 1. rewrite (PopValue_entry ev x t s) by done.
  destruct (resolve d x) as [a| |] eqn:Ea; cbn [mbind outcome_bind result_of]; [|by eexists..].
  unfold bind, lift. destruct (GetMemoryAtAddress _ m a) as [v| |] eqn:Ev; cbn [result_of]; [|by eexists..].
  split; [|done]. destruct value_bytes_ok as [Hn <-].
  eapply (read_width (value_bytes w) m a); [done| |by apply Hr|done].
  pose proof (resolve_fits x t a Hx Ea) as Hf. unfold fits in *. split; [lia|].
  eapply Z.lt_le_trans; [apply Hf|]. apply Z.pow_le_mono_r; lia.
Qed.

Definition runs (ev : PostfixEvaluator R) (ts : list cstring) (o : outcome operand)
    (res : outcome unit * PostfixEvaluator R) : Prop :=
  match o with
  | Ok x => exists t, entry_tok x t /\ res = evaluate_tokens w ts (set_stack ev (t :: stack_ ev))
  | Fail => exists st, res = (Fail, set_stack ev st)
  | Undefined => exists st, res = (Undefined, set_stack ev st)
  end.

Lemma set_stack_set ev s1 s2 : set_stack (set_stack ev s1) s2 = set_stack ev s2.
Proof. done. Qed.

Lemma runs_op t ts ev s o :
  length t = 1%nat ->
  result_of ev (λ v, (Ok tt, set_stack ev (print_dec v :: s))) o (EvaluateToken w t ev) ->
  runs (set_stack ev s) ts (v ← o; mret (Val v)) (evaluate_tokens w (t :: ts) ev).
Proof.
  intros Hl Hres. rewrite evaluate_tokens_op by done.
  destruct o as [v| |]; cbn [result_of mbind outcome_bind runs mret outcome_ret] in *.
  - destruct Hres as [Hv ->]. exists (print_dec v). split; [by apply entry_tok_print|done].
  - destruct Hres as [st ->]. by exists st.
  - destruct Hres as [st ->]. by exists st.
Qed.

(** Running the postfix form of an expression. *)
Lemma compile_runs e : wf_expr w e -> forall ev ts,
  dictionary_ ev = Some d -> region_ ev = r ->
  runs ev ts (denote w d r e) (evaluate_tokens w (compile e ++ ts) ev).
Proof.
  induction e as [v|v|n|op e1 IH1 e2 IH2|e IH]; intros Hwf ev ts Hdict Hreg.
  - cbn [compile app denote runs]. exists (print_dec v). split; [by apply entry_tok_print|].
    apply evaluate_tokens_plain, plain_print. apply Hwf.
  - cbn [compile app denote runs]. exists (chr 45 :: print_dec v). split.
    + split; [apply wrap_fits; lia|]. exists true, v. by rewrite parse_literal_neg.
    + apply evaluate_tokens_plain, plain_neg. apply Hwf.
  - cbn [compile app denote runs]. exists n. split.
    + split; [done|]. unfold wf_expr, is_name in Hwf. breflect. by destruct (parse_literal w n).
    + by apply evaluate_tokens_plain, plain_name.
  - destruct Hwf as (Hop & Hwf1 & Hwf2). cbn [compile denote].
    rewrite <- !app_assoc. specialize (IH1 Hwf1 ev (compile e2 ++ [op_token op] ++ ts) Hdict Hreg).
    destruct (denote w d r e1) as [x| |]; cbn [mbind outcome_bind]; [|exact IH1..].
    destruct IH1 as (t1 & Hx & ->). set (ev1 := set_stack ev (t1 :: stack_ ev)).
    specialize (IH2 Hwf2 ev1 ([op_token op] ++ ts) Hdict Hreg).
    destruct (denote w d r e2) as [y| |]; cbn [mbind outcome_bind]; [|exact IH2..].
    destruct IH2 as (t2 & Hy & ->). cbn [app].
    pose proof (runs_op (op_token op) ts (set_stack ev1 (t2 :: stack_ ev1)) (stack_ ev) (operands_value op x y)) as Hop'.
    assert (Hlen: length (op_token op) = 1%nat) by (by destruct op).
    specialize (Hop' Hlen (EvaluateToken_bin op (set_stack ev1 (t2 :: stack_ ev1)) x y t1 t2 (stack_ ev) Hop Hx Hy eq_refl Hdict)).
    unfold operands_value in Hop'. rewrite set_stack_set in Hop'. unfold ev1 in *. rewrite set_stack_set in Hop'.
    replace (set_stack ev (stack_ ev)) with ev in Hop' by (by destruct ev).
    destruct (resolve d y) as [v2| |]; cbn [mbind outcome_bind] in *; [|exact Hop'..].
    destruct (resolve d x) as [v1| |]; cbn [mbind outcome_bind] in *; exact Hop'.
  - cbn [compile denote]. rewrite <- app_assoc. specialize (IH Hwf ev ([lit "^"] ++ ts) Hdict Hreg).
    destruct (denote w d r e) as [x| |] eqn:Ex.
    2: { destruct r; exact IH. }
    2: { destruct r; exact IH. }
    destruct IH as (t & Hx & ->). cbn [app].
    pose proof (runs_op (lit "^") ts (set_stack ev (t :: stack_ ev)) (stack_ ev) _ eq_refl
                  (EvaluateToken_deref (set_stack ev (t :: stack_ ev)) x t (stack_ ev) Hx eq_refl Hdict Hreg)) as Hop'.
    rewrite set_stack_set in Hop'. replace (set_stack ev (stack_ ev)) with ev in Hop' by (by destruct ev).
    destruct r as [m|]; cbn [mbind outcome_bind] in *; [|exact Hop'].
    destruct (resolve d x) as [a| |]; cbn [mbind outcome_bind] in *; exact Hop'.
Qed.

Lemma compile_words e : wf_expr w e -> Forall (λ t, is_word t = true) (compile e).
Proof.
  induction e as [v|v|n|op e1 IH1 e2 IH2|e IH]; cbn [compile wf_expr].
  - intros [Hv _]. constructor; [|constructor]. by apply print_dec_word.
  - intros [Hv _]. constructor; [|constructor]. pose proof (print_dec_word v Hv) as Hp.
    apply is_word_inv in Hp as [_ Hp]. by unfold is_word.
  - intros Hn. constructor; [|constructor]. unfold is_name in Hn. by breflect.
  - intros (Hop & ? & ?). rewrite !Forall_app. split_and!; [by apply IH1|by apply IH2|].
    constructor; [|constructor]. by destruct op.
  - intros ?. rewrite Forall_app. split; [by apply IH|]. by repeat constructor.
Qed.

Lemma compile_nonempty e : compile e <> [].
Proof.
  destruct e; cbn [compile]; try done.
  - intros [_ [_ E]%app_eq_nil]%app_eq_nil. done.
  - intros [_ E]%app_eq_nil. done.
Qed.
End evaluation.

(** ** Programs: sequences of assignments *)

(** [$name expression =], as tokens. *)
Definition statement_tokens (s : cstring * expr) : list cstring := s.1 :: compile s.2 ++ [lit "="].
Definition program (ss : list (cstring * expr)) : list cstring := concat (statement_tokens <$> ss).

(** A variable that may be assigned to. *)
Definition wf_statement (w : Z) (s : cstring * expr) : Prop :=
  is_name w s.1 = true /\ starts_with (lit "$") s.1 = true /\ wf_expr w s.2.

Fixpoint exec {R} `{MemoryRegion R} (w : Z) (r : option R) (ss : list (cstring * expr)) (d : gmap cstring Z)
  : outcome (gmap cstring Z) :=
  match ss with
  | [] => Ok d
  | (n, e) :: ss => v ← value_of w d r e; exec w r ss (<[n := v]> d)
  end.

(** Some assignment operators written against the token that follows them. *)
Inductive glued : list cstring -> list cstring -> Prop :=
| glued_nil : glued [] []
| glued_cons t ts ts' : glued ts ts' -> glued (t :: ts) (t :: ts')
| glued_assign t ts ts' :
    plain t -> t <> [] -> glued ts ts' -> glued (lit "=" :: t :: ts) ((lit "=" ++ t) :: ts').

Section programs.
Context {R : Type} `{MemoryRegionLaws R valid} (w : Z) (Hw : w = 32 \/ w = 64).
Implicit Types (ev : PostfixEvaluator R).

Lemma evaluate_tokens_glued ts ts' : glued ts ts' -> forall ev, evaluate_tokens w ts' ev = evaluate_tokens w ts ev.
Proof.
  induction 1 as [|t ts ts' _ IH|t ts ts' Hp Hne _ IH]; intros ev; [done|..].
  - rewrite !evaluate_tokens_cons. destruct (evaluate_one w t ev) as [[[]| |] ev']; done.
  - rewrite (evaluate_tokens_op w (lit "=") (t :: ts)), evaluate_tokens_cons by done.
    assert (E: evaluate_one w (lit "=" ++ t) ev =
               bind (EvaluateToken w (lit "=")) (λ _, EvaluateToken w t) ev) by (by destruct t).
    rewrite E. unfold bind. destruct (EvaluateToken w (lit "=") ev) as [[[]| |] ev']; [|done..].
    rewrite evaluate_tokens_cons, evaluate_one_plain by done.
    destruct (EvaluateToken w t ev') as [[[]| |] ev'']; done.
Qed.

Lemma EvaluateToken_assign d ev x t n s :
  entry_tok w x t -> is_name w n = true -> starts_with (lit "$") n = true ->
  stack_ ev = t :: n :: s -> dictionary_ ev = Some d ->
  EvaluateToken w (lit "=") ev =
  match resolve d x with
  | Ok v => (Ok tt, mkEval (Some (<[n := v]> d)) (region_ ev) s (<[n := true]> <$> assigned_ ev))
  | Fail => (Fail, set_stack ev (n :: s))
  | Undefined => (Undefined, set_stack ev (n :: s))
  end.
Proof.
  intros Hx Hn Hdollar Hs Hdict. unfold EvaluateToken.
  change (binary_operation (lit "=")) with BINARY_OP_NONE.
  change (str_eqb (lit "=") (lit "^")) with false. rewrite str_eqb_refl. cbn iota.
  unfold bind at 1. rewrite (PopValue_entry w d ev x t (n :: s)) by done.
  destruct (resolve d x) as [v| |]; [|done..].
  unfold bind, PopValueOrIdentifier. cbn [stack_ set_stack].
  unfold is_name in Hn. breflect. destruct (parse_literal w n) as [[? ?]|]; [done|].
  rewrite Hdollar. cbn [dictionary_ set_stack]. by rewrite Hdict.
Qed.

Definition dict_ok (d : gmap cstring Z) : Prop := forall n v, d !! n = Some v -> fits w v.

Lemma dict_ok_insert d n v : dict_ok d -> fits w v -> dict_ok (<[n := v]> d).
Proof.
  intros Hd Hv n' v'. destruct (decide (n = n')) as [->|Hne].
  - rewrite lookup_insert_eq. by intros [= <-].
  - rewrite lookup_insert_ne by done. apply Hd.
Qed.

Context (r : option R) (Hr : forall m, r = Some m -> valid m).

Lemma value_of_Ok d e x t : denote w d r e = Ok x -> entry_tok w x t -> value_of w d r e = resolve d x.
Proof. intros E _. unfold value_of. by rewrite E. Qed.

(** What a run leaves behind, given what the program means. *)
Definition program_result (ev : PostfixEvaluator R) (ss : list (cstring * expr)) (o : outcome (gmap cstring Z))
    (k : PostfixEvaluator R -> outcome unit * PostfixEvaluator R) (res : outcome unit * PostfixEvaluator R) : Prop :=
  match o with
  | Ok d' => res = k (mkEval (Some d') r (stack_ ev) (foldl (λ a n, <[n := true]> <$> a) (assigned_ ev) ss.*1))
  | Fail => res.1 = Fail
  | Undefined => res.1 = Undefined
  end.

Lemma program_runs ss : forall d ev ts,
  Forall (wf_statement w) ss -> dict_ok d -> dictionary_ ev = Some d -> region_ ev = r ->
  program_result ev ss (exec w r ss d) (evaluate_tokens w ts) (evaluate_tokens w (program ss ++ ts) ev).
Proof.
  induction ss as [|[n e] ss IH]; intros d ev ts Hwf Hd Hdict Hreg.
  - cbn. destruct ev; simpl in *. by subst.
  - inversion Hwf as [|? ? (Hn & Hdol & He) Hwf']; subst. cbn [fst snd] in *.
    change (program ((n, e) :: ss)) with ((n :: compile e ++ [lit "="]) ++ program ss).
    cbn [app]. rewrite <- !app_assoc. cbn [app].
    rewrite evaluate_tokens_plain by (by eapply plain_name).
    pose proof (compile_runs w Hw d Hd r Hr e He (set_stack ev (n :: stack_ ev))
                  (lit "=" :: (program ss ++ ts)) Hdict Hreg) as Hrun.
    cbn [exec]. unfold value_of.
    destruct (denote w d r e) as [x| |]; cbn [runs mbind outcome_bind] in *.
    2: { destruct Hrun as [st ->]. done. }
    2: { destruct Hrun as [st ->]. done. }
    destruct Hrun as (t & Hx & ->). rewrite evaluate_tokens_op by done.
    rewrite (EvaluateToken_assign d _ x t n (stack_ ev)) by done.
    destruct (resolve d x) as [v| |] eqn:Ev; cbn [mbind outcome_bind] in *; [|done..].
    pose proof (resolve_fits w d Hd x t v Hx Ev) as Hv.
    by apply (IH (<[n := v]> d) (mkEval (Some (<[n := v]> d)) (region_ ev) (stack_ ev)
              (<[n := true]> <$> assigned_ ev)) ts Hwf' (dict_ok_insert d n v Hd Hv) eq_refl).
Qed.

Lemma program_words ss : Forall (wf_statement w) ss -> Forall (λ t, is_word t = true) (program ss).
Proof.
  induction 1 as [|[n e] ss (Hn & _ & He) _ IH]; [constructor|].
  change (program ((n, e) :: ss)) with ((n :: compile e ++ [lit "="]) ++ program ss).
  rewrite Forall_app. split; [|done]. constructor; [unfold is_name in Hn; simpl in *; by breflect|].
  rewrite Forall_app. split; [by eapply compile_words|]. by repeat constructor.
Qed.

Lemma glued_words ts ts' :
  glued ts ts' -> Forall (λ t, is_word t = true) ts -> Forall (λ t, is_word t = true) ts'.
Proof.
  induction 1 as [|t ts ts' _ IH|t ts ts' _ _ _ IH]; intros Hf; [done|..];
    inversion Hf as [|? ? Ht Hf']; subst.
  - constructor; auto.
  - inversion Hf' as [|? ? Ht' Hf'']; subst. constructor; [|auto].
    apply is_word_inv in Ht' as [_ Ht']. done.
Qed.
End programs.

(** ** Properties *)

Lemma EvaluateForValue_expr {R} `{MemoryRegionLaws R valid} w d r e ev :
  (w = 32 \/ w = 64) -> dict_ok w d -> (forall m, r = Some m -> valid m) -> wf_expr w e ->
  dictionary_ ev = Some d -> region_ ev = r -> stack_ ev = [] ->
  EvaluateForValue w (join (compile e)) ev = (value_of w d r e, set_assigned ev None).
Proof.
  intros Hw Hd Hr He Hdict Hreg Hst. unfold EvaluateForValue, clearing, bind, EvaluateInternal.
  rewrite words_join by (by eapply compile_words).
  pose proof (compile_runs w Hw d Hd r Hr e He (set_assigned ev None) [] Hdict Hreg) as Hrun.
  rewrite app_nil_r in Hrun. unfold value_of.
  assert (Hclear: forall st, set_stack (set_stack (set_assigned ev None) st) [] = set_assigned ev None).
  { intros st. unfold set_stack, set_assigned. simpl. by rewrite <- Hst. }
  destruct (denote w d r e) as [x| |]; cbn [runs mbind outcome_bind] in *.
  2: { destruct Hrun as [st ->]. by rewrite Hclear. }
  2: { destruct Hrun as [st ->]. by rewrite Hclear. }
  destruct Hrun as (t & Hx & ->). cbn [evaluate_tokens ret]. unfold ret.
  cbn [stack_ set_stack set_assigned]. rewrite Hst. cbn [length Nat.eqb].
  rewrite (PopValue_entry w d _ x t []) by done. destruct ev; simpl in *. by subst.
Qed.

(** C11: evaluating the postfix form of an arithmetic expression yields exactly the
    expression's value: wrap-around arithmetic, alignment, dictionary lookups (done
    when an operator takes the operand), dereferences of the memory region -- or the
    failure, or the undefined behaviour, that evaluating it meets -- and leaves an
    empty stack and an unchanged dictionary. *)
Theorem evaluate_for_value {R} `{MemoryRegionLaws R valid} (w : Z) (d : gmap cstring Z)
    (r : option R) (e : expr) (ev : PostfixEvaluator R) :
  (w = 32 \/ w = 64) -> dict_ok w d -> (forall m, r = Some m -> valid m) -> wf_expr w e ->
  dictionary_ ev = Some d -> region_ ev = r -> stack_ ev = [] ->
  EvaluateForValue w (join (compile e)) ev = (value_of w d r e, set_assigned ev None).
Proof. apply EvaluateForValue_expr. Qed.

Definition example_region : MicrodumpMemoryRegion :=
  MicrodumpMemoryRegion_Init 0x1000 [1; 0; 0; 0; 0x78; 0x56; 0x34; 0x12].

Lemma example_region_valid m :
  Some example_region = Some m ->
  micro_ok m.
Proof.
  intros [= <-]. split_and!; [|unfold fits; simpl; lia..].
  repeat (constructor; [unfold byte_ok, fits; simpl; lia|]). constructor.
Qed.

Lemma evaluate_for_value_witness :
  let d := <[lit "$esp" := 0x1000]> ∅ in
  join (compile (Deref (Bin BINARY_OP_ADD (Var (lit "$esp")) (Lit 4)))) = lit "$esp 4 + ^" /\
  EvaluateForValue 32 (lit "$esp 4 + ^") (PostfixEvaluator_new (Some d) (Some example_region)) =
  (Ok 0x12345678, PostfixEvaluator_new (Some d) (Some example_region)).
Proof.
  intros d. split; [vm_compute; reflexivity|].
  assert (Hd: dict_ok 32 d).
  { apply dict_ok_insert; [|unfold fits; lia]. intros n v. by rewrite lookup_empty. }
  pose proof (evaluate_for_value 32 d (Some example_region)
                (Deref (Bin BINARY_OP_ADD (Var (lit "$esp")) (Lit 4)))
                (PostfixEvaluator_new (Some d) (Some example_region)) ltac:(lia) Hd example_region_valid) as Hev.
  assert (Hwf: wf_expr 32 (Deref (Bin BINARY_OP_ADD (Var (lit "$esp")) (Lit 4)))).
  { cbn [wf_expr]. split_and!; [done|vm_compute; reflexivity|unfold fits; lia]. }
  specialize (Hev Hwf eq_refl eq_refl eq_refl).
  assert (E: join (compile (Deref (Bin BINARY_OP_ADD (Var (lit "$esp")) (Lit 4)))) = lit "$esp 4 + ^")
    by (vm_compute; reflexivity).
  rewrite E in Hev. etransitivity; [exact Hev|]. vm_compute. reflexivity.
Defined.

Lemma Evaluate_program {R} `{MemoryRegionLaws R valid} (w : Z) (d : gmap cstring Z) (r : option R)
    (ss : list (cstring * expr)) (ts : list cstring) (assigned : option (gmap cstring bool))
    (ev : PostfixEvaluator R) :
  (w = 32 \/ w = 64) -> dict_ok w d -> (forall m, r = Some m -> valid m) ->
  Forall (wf_statement w) ss -> glued (program ss) ts ->
  dictionary_ ev = Some d -> region_ ev = r -> stack_ ev = [] ->
  match exec w r ss d with
  | Ok d' => Evaluate w (join ts) assigned ev =
      (Ok tt, mkEval (Some d') r [] (foldl (λ a n, <[n := true]> <$> a) assigned ss.*1))
  | Fail => (Evaluate w (join ts) assigned ev).1 = Fail /\ stack_ (Evaluate w (join ts) assigned ev).2 = []
  | Undefined => (Evaluate w (join ts) assigned ev).1 = Undefined
  end.
Proof.
  intros Hw Hd Hr Hss Hg Hdict Hreg Hst. unfold Evaluate, clearing, bind, EvaluateInternal.
  rewrite words_join by (eapply glued_words; [exact Hg|by eapply program_words]).
  rewrite (evaluate_tokens_glued w _ _ Hg).
  pose proof (program_runs w Hw r Hr ss d (set_assigned ev assigned) [] Hss Hd Hdict Hreg) as Hrun.
  rewrite app_nil_r in Hrun. unfold program_result in Hrun.
  destruct (exec w r ss d) as [d'| |].
  - rewrite Hrun. cbn [evaluate_tokens]. unfold ret. cbn. by rewrite Hst.
  - by destruct (evaluate_tokens w (program ss) _) as [[?| |] ev']; simpl in *.
  - by destruct (evaluate_tokens w (program ss) _) as [[?| |] ev']; simpl in *.
Qed.

(** [Evaluate] runs a program string -- assignments [$name expression =], some of
    the [=] possibly glued to the token that follows -- as the sequence of its
    assignments: each expression is evaluated in the dictionary left by the ones
    before it, the variable set to its value and reported in [assigned]; the stack
    ends empty.  When an expression fails, so does [Evaluate]. *)
Lemma evaluate_program {R} `{MemoryRegionLaws R valid} (w : Z) (d : gmap cstring Z) (r : option R)
    (ss : list (cstring * expr)) (ts : list cstring) (assigned : option (gmap cstring bool))
    (ev : PostfixEvaluator R) :
  (w = 32 \/ w = 64) -> dict_ok w d -> (forall m, r = Some m -> valid m) ->
  Forall (wf_statement w) ss -> glued (program ss) ts ->
  dictionary_ ev = Some d -> region_ ev = r -> stack_ ev = [] ->
  match exec w r ss d with
  | Ok d' => Evaluate w (join ts) assigned ev =
      (Ok tt, mkEval (Some d') r [] (foldl (λ a n, <[n := true]> <$> a) assigned ss.*1))
  | Fail => (Evaluate w (join ts) assigned ev).1 = Fail /\ stack_ (Evaluate w (join ts) assigned ev).2 = []
  | Undefined => (Evaluate w (join ts) assigned ev).1 = Undefined
  end.
Proof. apply Evaluate_program. Qed.

(** The program string of a frame with a saved base pointer, as in
    windows_frame_info.h and postfix_evaluator-inl.h. *)
Lemma evaluate_program_witness :
  let d := <[lit "$ebp" := 0x1000]> ∅ in
  let ev := PostfixEvaluator_new (Some d) (Some example_region) in
  (Evaluate 32 (lit "$T0 $ebp =$eip $T0 4 + ^ =") (Some ∅) ev).1 = Ok tt /\
  dictionary_ (Evaluate 32 (lit "$T0 $ebp =$eip $T0 4 + ^ =") (Some ∅) ev).2 =
    Some (<[lit "$eip" := 0x12345678]> (<[lit "$T0" := 0x1000]> d)).
Proof.
  intros d ev.
  set (ss := [(lit "$T0", Var (lit "$ebp"));
              (lit "$eip", Deref (Bin BINARY_OP_ADD (Var (lit "$T0")) (Lit 4)))]).
  assert (Hd: dict_ok 32 d).
  { apply dict_ok_insert; [|unfold fits; lia]. intros n v. by rewrite lookup_empty. }
  assert (Hss: Forall (wf_statement 32) ss).
  { constructor; [split_and!; vm_compute; reflexivity|]. constructor; [|constructor].
    unfold wf_statement. cbn [fst snd wf_expr].
    split_and!; [vm_compute; reflexivity|vm_compute; reflexivity|done|vm_compute; reflexivity|].
    unfold fits. lia. }
  assert (Hg: glued (program ss) [lit "$T0"; lit "$ebp"; lit "=$eip"; lit "$T0"; lit "4"; lit "+"; lit "^"; lit "="]).
  { change (program ss) with [lit "$T0"; lit "$ebp"; lit "="; lit "$eip"; lit "$T0"; lit "4"; lit "+"; lit "^"; lit "="].
    do 2 apply glued_cons. change (lit "=$eip") with (lit "=" ++ lit "$eip").
    apply glued_assign; [split_and!; vm_compute; reflexivity|done|].
    repeat apply glued_cons. apply glued_nil. }
  pose proof (evaluate_program 32 d (Some example_region) ss _ (Some ∅) ev ltac:(lia) Hd
                example_region_valid Hss Hg eq_refl eq_refl eq_refl) as Hev.
  set (s := join _) in Hev. assert (Es: s = lit "$T0 $ebp =$eip $T0 4 + ^ =") by (vm_compute; reflexivity).
  rewrite Es in Hev. clear s Es. vm_compute exec in Hev.
  split; [by rewrite Hev|]. rewrite Hev. vm_compute. reflexivity.
Defined.

(** Two inputs drive the evaluator into undefined behaviour instead of the
    failure its interface promises: dividing by zero, and assigning to a negative
    literal, where the literal's value is negated through the null [value] pointer. *)
Lemma evaluate_undefined {R} `{MemoryRegion R} (w : Z) (d : gmap cstring Z) (r : option R) (a v : Z) :
  (w = 32 \/ w = 64) -> fits w a -> fits w v ->
  let ev := PostfixEvaluator_new (Some d) r in
  (EvaluateForValue w (join [print_dec a; lit "0"; lit "/"]) ev).1 = Undefined /\
  (Evaluate w (join [chr 45 :: print_dec a; print_dec v; lit "="]) None ev).1 = Undefined.
Proof.
  intros Hw Ha Hv ev. assert (fits w 0) by (unfold fits; destruct Hw as [-> | ->]; lia).
  assert (Wa: is_word (print_dec a) = true) by (apply print_dec_word; apply Ha).
  assert (Wv: is_word (print_dec v) = true) by (apply print_dec_word; apply Hv).
  assert (Pa: plain (print_dec a)) by (apply plain_print; apply Ha).
  assert (Pv: plain (print_dec v)) by (apply plain_print; apply Hv).
  assert (Pn: plain (chr 45 :: print_dec a)) by (apply plain_neg; apply Ha).
  assert (P0: plain (print_dec 0)) by (apply plain_print; lia).
  assert (Wn: is_word (chr 45 :: print_dec a) = true) by (by apply is_word_inv in Wa as [_ Wa]).
  split; unfold EvaluateForValue, Evaluate, clearing, bind, EvaluateInternal;
    rewrite words_join by (repeat (apply Forall_cons; split; [done|]); apply Forall_nil; done); change (lit "0") with (print_dec 0);
    rewrite !evaluate_tokens_plain by done;
    rewrite evaluate_tokens_op by done; unfold EvaluateToken.
  - cbn [stack_ set_stack set_assigned ev PostfixEvaluator_new].
    change (binary_operation (lit "/")) with BINARY_OP_DIVIDE_QUOTIENT. cbn iota.
    unfold bind, PopValues. unfold bind, PopValue, bind, PopValueOrIdentifier, lift, ret.
    cbn [stack_ set_stack set_assigned negb]. rewrite !parse_literal_print by done.
    cbn [stack_ set_stack andb]. rewrite parse_literal_print by done. reflexivity.
  - cbn [stack_ set_stack set_assigned ev PostfixEvaluator_new].
    change (binary_operation (lit "=")) with BINARY_OP_NONE.
    change (str_eqb (lit "=") (lit "^")) with false. rewrite str_eqb_refl. cbn iota.
    unfold bind, PopValue, bind, PopValueOrIdentifier, lift, ret.
    cbn [stack_ set_stack set_assigned negb]. rewrite (parse_literal_print w v Hv).
    cbn [stack_ set_stack andb]. rewrite (parse_literal_neg w a Ha). reflexivity.
Qed.

Lemma evaluate_undefined_witness :
  (EvaluateForValue 32 (lit "1 0 /") (PostfixEvaluator_new (Some ∅) (Some example_region))).1 = Undefined.
Proof.
  pose proof (evaluate_undefined 32 ∅ (Some example_region) 1 3 ltac:(lia) ltac:(unfold fits; lia) ltac:(unfold fits; lia))
    as [Hev _].
  set (s := join _) in Hev. assert (Es: s = lit "1 0 /") by (vm_compute; reflexivity). by rewrite Es in Hev.
Defined.
