(* ===== verification/CfiFrameInfo.v ===== *)
(** processor/cfi_frame_info.h, cfi_frame_info.cc, cfi_frame_info-inl.h: the
    register recovery rules of STACK CFI records -- [CFIFrameInfo], the parser
    of rule sets, and [SimpleCFIWalker], which applies the rules to a context. *)
From Stdlib Require Import Ascii.
From stdpp Require Import strings list gmap functions.
From S2P Require Import Prelude CStr StrMap Memory MemoryRegion PostfixEvaluator.

(** ** [CFIFrameInfo] *)

Record CFIFrameInfo := mkCFI
  { cfa_rule_ : cstring; ra_rule_ : cstring; register_rules_ : strmap cstring }.

Definition CFIFrameInfo_new : CFIFrameInfo := mkCFI [] [] [].

Definition SetCFARule (i : CFIFrameInfo) (expression : cstring) : CFIFrameInfo :=
  mkCFI expression (ra_rule_ i) (register_rules_ i).
Definition SetRARule (i : CFIFrameInfo) (expression : cstring) : CFIFrameInfo :=
  mkCFI (cfa_rule_ i) expression (register_rules_ i).
Definition SetRegisterRule (i : CFIFrameInfo) (register_name expression : cstring) : CFIFrameInfo :=
  mkCFI (cfa_rule_ i) (ra_rule_ i) (str_assign (register_rules_ i) register_name expression).

Section find_caller_regs.
Context {R : Type} `{MemoryRegion R} (w : Z).
Abbreviation RegisterValueMap := (gmap cstring Z).

(** Evaluate a rule with [working] as the dictionary. *)
Definition eval_rule (memory : R) (working : RegisterValueMap) (rule : cstring) : outcome Z :=
  (EvaluateForValue w rule (PostfixEvaluator_new (Some working) (Some memory))).1.

(** The loop over [register_rules_]. *)
Fixpoint eval_register_rules (memory : R) (working : RegisterValueMap) (rules : strmap cstring)
    (caller_registers : RegisterValueMap) : outcome RegisterValueMap :=
  match rules with
  | [] => Ok caller_registers
  | (name, rule) :: rules =>
      value ← eval_rule memory working rule;
      eval_register_rules memory working rules (<[name := value]> caller_registers)
  end.

Definition FindCallerRegs (i : CFIFrameInfo) (registers : RegisterValueMap) (memory : R)
  : outcome RegisterValueMap :=
  match cfa_rule_ i, ra_rule_ i with
  | [], _ | _, [] => Fail
  | cfa_rule, ra_rule =>
      cfa ← eval_rule memory registers cfa_rule;
      let working := <[lit ".cfa" := cfa]> registers in
      ra ← eval_rule memory working ra_rule;
      caller_registers ← eval_register_rules memory working (register_rules_ i) ∅;
      mret (<[lit ".cfa" := cfa]> (<[lit ".ra" := ra]> caller_registers))
  end.
End find_caller_regs.

(** [Serialize]: a space separates what is already there from the next rule. *)
Definition append_rule (stream name rule : cstring) : cstring :=
  (match stream with [] => [] | _ => stream ++ [SP] end) ++ name ++ lit ": " ++ rule.

Definition Serialize (i : CFIFrameInfo) : cstring :=
  let stream := match cfa_rule_ i with [] => [] | r => lit ".cfa: " ++ r end in
  let stream := match ra_rule_ i with [] => stream | r => append_rule stream (lit ".ra") r end in
  foldl (λ stream nr, append_rule stream nr.1 nr.2) stream (register_rules_ i).

(** ** [CFIRuleParser] *)

(** [CFIRuleParser::Handler]. *)
Class Handler (H : Type) := {
  CFARule : cstring -> H -> H;
  RARule : cstring -> H -> H;
  RegisterRule : cstring -> cstring -> H -> H
}.

(** [CFIFrameInfoParseHandler]. *)
#[export] Instance CFIFrameInfoParseHandler : Handler CFIFrameInfo := {|
  CFARule := λ expression i, SetCFARule i expression;
  RARule := λ expression i, SetRARule i expression;
  RegisterRule := λ name expression i, SetRegisterRule i name expression
|}.

Section parser.
Context {H : Type} `{Handler H}.

Definition token_breaks : cstring := [SP; chr 9; chr 13; chr 10].

(** [Report], on the parser's [name_] and [expression_]. *)
Definition Report (name_ expression_ : cstring) (h : H) : bool * H :=
  match name_, expression_ with
  | [], _ | _, [] => (false, h)
  | name, expression =>
      (true, if str_eqb name (lit ".cfa") then CFARule expression h
             else if str_eqb name (lit ".ra") then RARule expression h
             else RegisterRule name expression h)
  end.

(** [token[token_len - 1] == ':']. *)
Definition ends_colon (token : cstring) : bool :=
  match last token with Some c => Ascii.eqb c ":"%char | None => false end.

(** The loop of [Parse]; every turn takes a token off the rule set. *)
Fixpoint parse_loop (fuel : nat) (token : option cstring) (cursor name_ expression_ : cstring) (h : H)
  : option (bool * H) :=
  match fuel with
  | O => None
  | S fuel =>
      match token with
      | None => Some (Report name_ expression_ h)
      | Some token =>
          let '(next, cursor') := strtok_r cursor token_breaks in
          if ends_colon token then
            if (length token <? 2)%nat then Some (false, h)
            else
              let '(ok, h) := match name_, expression_ with
                              | [], [] => (true, h)
                              | _, _ => Report name_ expression_ h
                              end in
              if negb ok then Some (false, h)
              else parse_loop fuel next cursor' (removelast token) [] h
          else
            let expression_ := match expression_ with [] => [] | _ => expression_ ++ [SP] end in
            parse_loop fuel next cursor' name_ (expression_ ++ token) h
      end
  end.

(** [Parse]; a token has at least one character, so as many turns as there are
    characters, and one more, are enough. *)
Definition Parse (rule_set : cstring) (h : H) : bool * H :=
  let working_copy := c_str (rule_set ++ [NUL]) in
  let '(token, cursor) := strtok_r working_copy token_breaks in
  match parse_loop (S (length working_copy)) token cursor [] [] h with
  | Some r => r
  | None => (false, h)
  end.
End parser.

(** ** [SimpleCFIWalker] *)

(** A raw context, by its members. *)
Abbreviation RawContext Member := (Member -> Z).

Section walker.
Context {R : Type} `{MemoryRegion R} {Member : Type} `{EqDecision Member} (w : Z).

Record RegisterSet := mkRegister {
  reg_name : cstring;
  alternate_name : option cstring;
  callee_saves : bool;
  validity_flag : Z;
  context_member : Member
}.

(** Populate the callee's dictionary. *)
Fixpoint callee_registers (register_map : list RegisterSet) (callee_context : RawContext Member)
    (callee_validity : Z) (regs : gmap cstring Z) : gmap cstring Z :=
  match register_map with
  | [] => regs
  | r :: register_map =>
      let regs := if negb (Z.land callee_validity (validity_flag r) =? 0)
                  then <[reg_name r := callee_context (context_member r)]> regs else regs in
      callee_registers register_map callee_context callee_validity regs
  end.

(** The caller's value of a register: under its name, under its alternate name,
    or the callee's own for a callee-saves register that is valid there. *)
Definition caller_value (callee_context : RawContext Member) (callee_validity : Z)
    (caller_registers : gmap cstring Z) (r : RegisterSet) : option Z :=
  match caller_registers !! reg_name r with
  | Some v => Some v
  | None =>
      match (match alternate_name r with Some a => caller_registers !! a | None => None end) with
      | Some v => Some v
      | None =>
          if callee_saves r && negb (Z.land callee_validity (validity_flag r) =? 0)
          then Some (callee_context (context_member r))
          else None
      end
  end.

Fixpoint populate_caller (register_map : list RegisterSet) (callee_context : RawContext Member)
    (callee_validity : Z) (caller_registers : gmap cstring Z) (context : RawContext Member) (validity : Z)
  : RawContext Member * Z :=
  match register_map with
  | [] => (context, validity)
  | r :: register_map =>
      let '(context, validity) :=
        match caller_value callee_context callee_validity caller_registers r with
        | Some v => (<[context_member r := v]> context, Z.lor validity (validity_flag r))
        | None => (context, validity)
        end in
      populate_caller register_map callee_context callee_validity caller_registers context validity
  end.

(** [memset(caller_context, 0xda, sizeof)]: every byte of a [w]-bit member. *)
Definition memset_da : RawContext Member := λ _, le_val (replicate (Z.to_nat (w / 8)) 0xda).

Definition FindCallerRegisters (register_map : list RegisterSet) (memory : R) (cfi_frame_info : CFIFrameInfo)
    (callee_context : RawContext Member) (callee_validity : Z) : outcome (RawContext Member * Z) :=
  let callee := callee_registers register_map callee_context callee_validity ∅ in
  caller_registers ← FindCallerRegs w cfi_frame_info callee memory;
  mret (populate_caller register_map callee_context callee_validity caller_registers memset_da 0).
End walker.

Arguments RegisterSet : clear implicits.

(** ** The rules of a set *)

(** The parser on the tokens of a rule set. *)
Section rules.
Context {H : Type} `{Handler H}.

Fixpoint parse_tokens (tokens : list cstring) (name_ expression_ : cstring) (h : H) : bool * H :=
  match tokens with
  | [] => Report name_ expression_ h
  | token :: tokens =>
      if ends_colon token then
        if (length token <? 2)%nat then (false, h)
        else
          let '(ok, h) := match name_, expression_ with
                          | [], [] => (true, h)
                          | _, _ => Report name_ expression_ h
                          end in
          if negb ok then (false, h) else parse_tokens tokens (removelast token) [] h
      else
        let expression_ := match expression_ with [] => [] | _ => expression_ ++ [SP] end in
        parse_tokens tokens name_ (expression_ ++ token) h
  end.

(** The handler call a complete rule makes. *)
Definition report1 (h : H) (rule : cstring * cstring) : H :=
  if str_eqb rule.1 (lit ".cfa") then CFARule rule.2 h
  else if str_eqb rule.1 (lit ".ra") then RARule rule.2 h
  else RegisterRule rule.1 rule.2 h.
End rules.

Definition rule_char (c : ascii) : bool := negb (in_set (NUL :: token_breaks) c).

(** A token of a rule set: not empty, no white space. *)
Definition rule_word (t : cstring) : Prop := t <> [] /\ all rule_char t.

(** An expression: words, none of which ends with a colon, separated by spaces. *)
Definition is_rule (r : cstring) : Prop :=
  exists ws, ws <> [] /\ Forall (λ t, rule_word t /\ ends_colon t = false) ws /\ r = join ws.

(** The text of a sequence of rules. *)
Definition rule_text (rules : list (cstring * cstring)) : cstring :=
  foldl (λ s nr, append_rule s nr.1 nr.2) [] rules.

Lemma rule_word_breaks t : rule_word t -> all (λ c, negb (in_set token_breaks c)) t.
Proof.
  intros [_ Ht]. eapply Forall_impl; [exact Ht|]. intros c Hc. unfold rule_char in Hc. simpl in *.
  destruct (Ascii.eqb c NUL); simpl in *; [done|]. exact Hc.
Qed.

Lemma strtok_join t ts :
  rule_word t -> strtok_r (join (t :: ts)) token_breaks = (Some t, join ts).
Proof.
  intros Ht. pose proof (rule_word_breaks t Ht) as Hb. destruct Ht as [Hne _].
  destruct ts as [|t' ts].
  - change (join [t]) with t. rewrite <- (app_nil_r t) at 1. by rewrite strtok_token_here.
  - change (join (t :: t' :: ts)) with (t ++ SP :: join (t' :: ts)). by rewrite strtok_token_here.
Qed.

Lemma join_length ts : Forall rule_word ts -> (length ts <= length (join ts))%nat.
Proof.
  induction 1 as [|t ts [Hne _] _ IH]; [done|]. destruct t as [|c t]; [done|].
  destruct ts as [|t' ts]; [simpl; lia|].
  change (join ((c :: t) :: t' :: ts)) with ((c :: t) ++ SP :: join (t' :: ts)).
  rewrite length_app. simpl length in *. lia.
Qed.

Lemma join_app a b : a <> [] -> b <> [] -> join (a ++ b) = join a ++ SP :: join b.
Proof.
  intros Ha Hb. induction a as [|t a IH]; [done|]. destruct a as [|t' a].
  - by destruct b.
  - change (join (t :: t' :: a)) with (t ++ SP :: join (t' :: a)).
    change (join ((t :: t' :: a) ++ b)) with (t ++ SP :: join ((t' :: a) ++ b)).
    rewrite IH by done. by rewrite <- app_assoc.
Qed.

Lemma join_chars p ts : p SP = true -> Forall (all p) ts -> all p (join ts).
Proof.
  intros Hsp. induction 1 as [|t ts Ht _ IH]; [constructor|]. destruct ts as [|t' ts]; [done|].
  change (join (t :: t' :: ts)) with (t ++ SP :: join (t' :: ts)). apply Forall_app. split; [done|].
  by constructor.
Qed.

Lemma c_str_plain s : all (λ c, negb (Ascii.eqb c NUL)) s -> c_str (s ++ [NUL]) = s.
Proof.
  intros Hs. apply c_str_app. intros c Hc ->. unfold all in Hs. rewrite Forall_forall in Hs.
  apply Hs in Hc. by rewrite Ascii.eqb_refl in Hc.
Qed.

Lemma rule_words_plain ts : Forall rule_word ts -> all (λ c, negb (Ascii.eqb c NUL)) (join ts).
Proof.
  intros Hts. apply join_chars; [done|]. eapply Forall_impl; [exact Hts|]. intros t [_ Ht].
  eapply Forall_impl; [exact Ht|]. intros c Hc. unfold rule_char in Hc. simpl in *.
  by destruct (Ascii.eqb c NUL).
Qed.

Section parse.
Context {H : Type} `{Handler H}.
Implicit Types h : H.

Lemma parse_loop_join ts : forall fuel name_ expression_ h,
  Forall rule_word ts -> (length ts < fuel)%nat ->
  let '(token, cursor) := strtok_r (join ts) token_breaks in
  parse_loop fuel token cursor name_ expression_ h = Some (parse_tokens ts name_ expression_ h).
Proof.
  induction ts as [|t ts IH]; intros fuel name_ expression_ h Hts Hf.
  - destruct fuel as [|fuel]; [lia|]. done.
  - destruct fuel as [|fuel]; [simpl in Hf; lia|]. inversion Hts as [|? ? Ht Hts']; subst.
    rewrite strtok_join by done. simpl length in Hf.
    cbn [parse_loop parse_tokens].
    assert (IH': forall n e h', let '(token, cursor) := strtok_r (join ts) token_breaks in
      parse_loop fuel token cursor n e h' = Some (parse_tokens ts n e h')).
    { intros n e h'. apply IH; [done|lia]. }
    destruct (strtok_r (join ts) token_breaks) as [next cursor'].
    destruct (ends_colon t); [|apply IH'].
    destruct (length t <? 2)%nat; [done|].
    destruct (match name_, expression_ with [], [] => _ | _, _ => _ end) as [ok h'].
    destruct ok; [|done]. apply IH'.
Qed.

Lemma Parse_join ts h : Forall rule_word ts -> Parse (join ts) h = parse_tokens ts [] [] h.
Proof.
  intros Hts. unfold Parse. rewrite c_str_plain by (by apply rule_words_plain).
  pose proof (parse_loop_join ts (S (length (join ts))) [] [] h Hts) as Hp.
  specialize (Hp ltac:(pose proof (join_length ts Hts); lia)).
  destruct (strtok_r (join ts) token_breaks) as [token cursor]. by rewrite Hp.
Qed.

(** The words of an expression accumulate in [expression_]. *)
Lemma parse_tokens_words ws : forall rest n e h,
  Forall (λ t, rule_word t /\ ends_colon t = false) ws ->
  parse_tokens (ws ++ rest) n e h =
  parse_tokens rest n (match ws, e with [], _ => e | _, [] => join ws | _, _ => e ++ SP :: join ws end) h.
Proof.
  induction ws as [|t ws IH]; intros rest n e h Hws; [by destruct e|].
  inversion Hws as [|? ? [[Hne _] Hc] Hws']; subst. cbn [app parse_tokens]. rewrite Hc, IH by done. f_equal.
  destruct t as [|c t]; [done|]. destruct ws as [|t' ws].
  - destruct e as [|c' e]; [done|]. change (join [c :: t]) with (c :: t). by rewrite <- app_assoc.
  - change (join ((c :: t) :: t' :: ws)) with ((c :: t) ++ SP :: join (t' :: ws)).
    destruct e as [|c' e]; [done|].
    cbn [app]. rewrite <- !app_assoc. done.
Qed.

Definition rule_tokens (rules : list (cstring * list cstring)) : list cstring :=
  concat ((λ nr, (nr.1 ++ lit ":") :: nr.2) <$> rules).

Definition group_ok (nr : cstring * list cstring) : Prop :=
  rule_word nr.1 /\ nr.2 <> [] /\ Forall (λ t, rule_word t /\ ends_colon t = false) nr.2.

Lemma ends_colon_name n : ends_colon (n ++ lit ":") = true.
Proof. unfold ends_colon. change (lit ":") with [":"%char]. rewrite last_snoc. done. Qed.

Lemma join_nonempty ws : ws <> [] -> Forall (λ t, rule_word t /\ ends_colon t = false) ws -> join ws <> [].
Proof.
  intros Hne Hws. destruct Hws as [|t ws [[Ht _] _] _]; [done|]. destruct t as [|c t]; [done|].
  by destruct ws.
Qed.

(** A complete pending rule and the rules that follow it are all reported. *)
Lemma parse_tokens_groups gs : forall n e h,
  Forall group_ok gs -> n <> [] -> e <> [] ->
  parse_tokens (rule_tokens gs) n e h =
  (true, foldl report1 h ((n, e) :: ((λ nr, (nr.1, join nr.2)) <$> gs))).
Proof.
  induction gs as [|[n' ws] gs IH]; intros n e h Hgs Hn He.
  - cbn [rule_tokens concat fmap list_fmap parse_tokens foldl]. unfold Report. by destruct n, e.
  - inversion Hgs as [|? ? (Hnw & Hws & Hw) Hgs']; subst. cbn [fst snd] in *.
    change (rule_tokens ((n', ws) :: gs)) with ((n' ++ lit ":") :: (ws ++ rule_tokens gs)).
    cbn [parse_tokens]. rewrite ends_colon_name.
    destruct (length (n' ++ lit ":") <? 2)%nat eqn:El.
    { breflect. rewrite length_app in El. destruct Hnw as [Hne _]. destruct n'; [done|]. simpl in El. lia. }
    assert (E: (match n, e with [], [] => (true, h) | _, _ => Report n e h end) = (true, report1 h (n, e))).
    { unfold Report. by destruct n, e. }
    rewrite E. cbn [negb]. change (lit ":") with [":"%char]. rewrite removelast_last.
    rewrite parse_tokens_words by done.
    replace (match ws with [] => [] | _ => join ws end) with (join ws) by (by destruct ws).
    rewrite IH; [done|done|by destruct Hnw|by apply join_nonempty].
Qed.

Lemma Parse_groups gs h :
  Forall group_ok gs -> gs <> [] ->
  Parse (join (rule_tokens gs)) h = (true, foldl report1 h ((λ nr, (nr.1, join nr.2)) <$> gs)).
Proof.
  intros Hgs Hne. rewrite Parse_join.
  - destruct gs as [|[n ws] gs]; [done|]. inversion Hgs as [|? ? (Hnw & Hws & Hw) Hgs']; subst. cbn [fst snd] in *.
    change (rule_tokens ((n, ws) :: gs)) with ((n ++ lit ":") :: (ws ++ rule_tokens gs)).
    cbn [parse_tokens]. rewrite ends_colon_name.
    destruct (length (n ++ lit ":") <? 2)%nat eqn:El.
    { breflect. rewrite length_app in El. destruct Hnw as [Hn' _]. destruct n; [done|]. simpl in El. lia. }
    cbn [negb]. change (lit ":") with [":"%char]. rewrite removelast_last.
    rewrite parse_tokens_words by done.
    replace (match ws with [] => [] | _ => join ws end) with (join ws) by (by destruct ws).
    by rewrite parse_tokens_groups; [|done|destruct Hnw|by apply join_nonempty].
  - clear Hne. induction Hgs as [|[n ws] gs ([Hn Hc] & Hws & Hw) _ IH]; [constructor|].
    change (rule_tokens ((n, ws) :: gs)) with ((n ++ lit ":") :: (ws ++ rule_tokens gs)). cbn [fst snd] in *.
    constructor.
    + split; [by destruct n|]. apply Forall_app. split; [done|]. by repeat constructor.
    + apply Forall_app. split; [|done]. eapply Forall_impl; [exact Hw|]. by intros t [? _].
Qed.
End parse.

(** The text of rules with their expressions given by words. *)
Lemma rule_text_join gs :
  Forall group_ok gs -> rule_text ((λ nr, (nr.1, join nr.2)) <$> gs) = join (rule_tokens gs).
Proof.
  unfold rule_text. intros Hgs. induction gs as [|[n ws] gs IH] using rev_ind; [done|].
  apply Forall_app in Hgs as [Hgs Hg]. inversion Hg as [|? ? (Hnw & Hws & Hw) _]; subst. cbn [fst snd] in *.
  rewrite fmap_app, foldl_app, IH by done. cbn [fmap list_fmap foldl fst snd].
  assert (E: n ++ lit ": " ++ join ws = join ((n ++ lit ":") :: ws)).
  { destruct ws as [|w ws]; [done|].
    change (join ((n ++ lit ":") :: w :: ws)) with ((n ++ lit ":") ++ SP :: join (w :: ws)). by rewrite <- app_assoc. }
  assert (Et: rule_tokens (gs ++ [(n, ws)]) = rule_tokens gs ++ (n ++ lit ":") :: ws).
  { unfold rule_tokens. rewrite fmap_app, concat_app. cbn [fmap list_fmap concat fst snd]. by rewrite app_nil_r. }
  unfold append_rule. rewrite E, Et. destruct gs as [|[n0 ws0] gs].
  - cbn [rule_tokens fmap list_fmap concat app join]. done.
  - rewrite join_app by done. set (j := join (rule_tokens ((n0, ws0) :: gs))).
    assert (j <> []).
    { unfold j. cbn [rule_tokens fmap list_fmap concat app join fst snd].
      inversion Hgs as [|? ? ([Hn0 _] & _) _]; subst. cbn [fst] in Hn0. destruct n0 as [|c n0]; [done|].
      by destruct (ws0 ++ _). }
    destruct j as [|c j]; [done|]. by rewrite <- app_assoc.
Qed.

(** Every rule set parses in the turns allotted to it. *)
Lemma strtok_length s delim t save : strtok_r s delim = (Some t, save) -> (length save < length s)%nat.
Proof.
  intros (gap & rest & -> & _ & Hne & _ & _ & ->)%strtok_Some. rewrite !length_app.
  destruct t; [done|]. destruct rest; simpl; lia.
Qed.

Lemma parse_loop_total {H} `{Handler H} fuel : forall cursor n e (h : H) token,
  (length cursor + match token with Some _ => 1 | None => 0 end < fuel)%nat ->
  parse_loop fuel token cursor n e h <> None.
Proof.
  induction fuel as [|fuel IH]; intros cursor n e h token Hf; [lia|]. cbn [parse_loop].
  destruct token as [token|]; [|done].
  destruct (strtok_r cursor token_breaks) as [next cursor'] eqn:E.
  assert (Hlen: (length cursor' + match next with Some _ => 1 | None => 0 end < fuel)%nat).
  { destruct next as [t|]; [apply strtok_length in E; lia|]. apply strtok_None in E as [_ ->]. simpl. lia. }
  destruct (ends_colon token); [|by apply IH]. destruct (length token <? 2)%nat; [done|].
  destruct (match n, e with [], [] => _ | _, _ => _ end) as [[|] h']; [|done]. by apply IH.
Qed.

(** [CFIRuleParser::Parse] terminates on every rule set: the loop is never cut
    short by the number of turns the model allots to it. *)
Lemma cfi_parse_total {H} `{Handler H} (rule_set : cstring) (h : H) :
  let working_copy := c_str (rule_set ++ [NUL]) in
  let '(token, cursor) := strtok_r working_copy token_breaks in
  exists r, parse_loop (S (length working_copy)) token cursor [] [] h = Some r.
Proof.
  intros working_copy. destruct (strtok_r working_copy token_breaks) as [token cursor] eqn:E.
  destruct (parse_loop _ _ _ _ _ _) as [r|] eqn:Er; [by exists r|]. exfalso.
  eapply parse_loop_total; [|exact Er].
  destruct token as [t|]; [apply strtok_length in E; lia|]. apply strtok_None in E as [_ ->]. simpl. lia.
Qed.

(** A well-formed rule name. *)
Definition rule_ok (nr : cstring * cstring) : Prop := rule_word nr.1 /\ is_rule nr.2.

Lemma rules_groups rules :
  Forall rule_ok rules -> exists gs, Forall group_ok gs /\ rules = (λ nr, (nr.1, join nr.2)) <$> gs.
Proof.
  induction 1 as [|[n r] rules [Hn (ws & Hne & Hws & Hr)] _ (gs & Hgs & ->)]; [by exists []|].
  simpl in *. subst r. exists ((n, ws) :: gs). split; [|done]. by constructor.
Qed.

(** Parsing the text of a sequence of rules reports every one of them to the
    handler, in order, under its own name, with its expression. *)
Lemma cfi_parse_rules {H} `{Handler H} (rules : list (cstring * cstring)) (h : H) :
  Forall rule_ok rules -> rules <> [] -> Parse (rule_text rules) h = (true, foldl report1 h rules).
Proof.
  intros Hr Hne. destruct (rules_groups rules Hr) as (gs & Hgs & ->).
  rewrite rule_text_join by done. apply Parse_groups; [done|]. intros ->. done.
Qed.

Lemma rule_word_lit s : forallb rule_char s = true -> s <> [] -> rule_word s.
Proof.
  intros Hs Hne. split; [done|]. unfold all. rewrite Forall_forall. intros c Hc%list_elem_of_In.
  by apply (proj1 (forallb_forall _ _) Hs).
Qed.

Ltac solve_rule ws :=
  exists ws; split_and!;
  [ done
  | repeat (apply Forall_cons; split; [split; [apply rule_word_lit; [vm_compute; reflexivity|done]|vm_compute; reflexivity]|]); by apply Forall_nil
  | vm_compute; reflexivity ].

Lemma cfi_parse_rules_witness :
  let rules := [(lit ".cfa", lit "$esp 4 +"); (lit "$eip", lit ".cfa 4 - ^")] in
  rule_text rules = lit ".cfa: $esp 4 + $eip: .cfa 4 - ^" /\
  Parse (lit ".cfa: $esp 4 + $eip: .cfa 4 - ^") CFIFrameInfo_new =
    (true, mkCFI (lit "$esp 4 +") [] [(lit "$eip", lit ".cfa 4 - ^")]).
Proof.
  intros rules. split; [vm_compute; reflexivity|].
  assert (Hr: Forall rule_ok rules).
  { constructor; [|constructor; [|constructor]].
    - split; [apply rule_word_lit; [vm_compute; reflexivity|done]|]. solve_rule [lit "$esp"; lit "4"; lit "+"].
    - split; [apply rule_word_lit; [vm_compute; reflexivity|done]|]. solve_rule [lit ".cfa"; lit "4"; lit "-"; lit "^"]. }
  pose proof (cfi_parse_rules rules CFIFrameInfo_new Hr ltac:(done)) as Hp.
  assert (E: rule_text rules = lit ".cfa: $esp 4 + $eip: .cfa 4 - ^") by (vm_compute; reflexivity).
  rewrite E in Hp. etransitivity; [exact Hp|]. vm_compute. reflexivity.
Defined.

(** ** [Serialize] and [Parse] *)

(** Rules that can be written out: each one absent or a proper expression, proper
    register names, and at least one rule. *)
Record cfi_ok (i : CFIFrameInfo) : Prop := {
  co_cfa : cfa_rule_ i = [] \/ is_rule (cfa_rule_ i);
  co_ra : ra_rule_ i = [] \/ is_rule (ra_rule_ i);
  co_rules : forall n r, (n, r) ∈ register_rules_ i ->
    rule_word n /\ n <> lit ".cfa" /\ n <> lit ".ra" /\ is_rule r;
  co_sorted : str_sorted (register_rules_ i);
  co_some : cfa_rule_ i <> [] \/ ra_rule_ i <> [] \/ register_rules_ i <> []
}.

Definition all_rules (i : CFIFrameInfo) : list (cstring * cstring) :=
  match cfa_rule_ i with [] => [] | r => [(lit ".cfa", r)] end ++
  match ra_rule_ i with [] => [] | r => [(lit ".ra", r)] end ++ register_rules_ i.

Lemma Serialize_text i : Serialize i = rule_text (all_rules i).
Proof.
  unfold Serialize, all_rules, rule_text. rewrite !foldl_app. f_equal.
  by destruct (cfa_rule_ i), (ra_rule_ i).
Qed.

Lemma report_registers rules : forall c r pre,
  str_sorted (pre ++ rules) ->
  (forall n e, (n, e) ∈ rules -> n <> lit ".cfa" /\ n <> lit ".ra") ->
  foldl report1 (mkCFI c r pre) rules = mkCFI c r (pre ++ rules).
Proof.
  induction rules as [|[n e] rules IH]; intros c r pre Hs Hn; [by rewrite app_nil_r|].
  cbn [foldl]. unfold report1 at 2. cbn [fst snd].
  destruct (Hn n e ltac:(left)) as [H1 H2]. rewrite !str_eqb_neq by done.
  cbn [RegisterRule CFIFrameInfoParseHandler]. unfold SetRegisterRule. cbn.
  rewrite str_assign_last.
  - rewrite IH; [by rewrite <- app_assoc|by rewrite <- app_assoc|]. intros ???. eapply Hn. by right.
  - intros k' v' Hin. unfold str_sorted in Hs. clear -Hs Hin.
    induction pre as [|[k0 v0] pre IH]; [by apply not_elem_of_nil in Hin|].
    inversion Hs as [|? ? Hs' Hf]; subst. apply elem_of_cons in Hin as [[= -> ->]|Hin]; [|by apply IH].
    rewrite Forall_forall in Hf. apply (Hf (n, e)). apply elem_of_app. right. left.
Qed.

(** C20: a set of rules survives being written out and parsed: parsing the serialised
    form of a [CFIFrameInfo] into an empty one succeeds and rebuilds it. *)
Theorem cfi_serialize_parse (i : CFIFrameInfo) :
  cfi_ok i -> Parse (Serialize i) CFIFrameInfo_new = (true, i).
Proof.
  intros [Hcfa Hra Hr Hs Hsome]. rewrite Serialize_text.
  assert (Hok: Forall rule_ok (all_rules i)).
  { unfold all_rules. rewrite !Forall_app. split_and!.
    - destruct (cfa_rule_ i) as [|c s] eqn:E; [constructor|]. destruct Hcfa as [|Hcfa]; [done|].
      constructor; [|constructor]. split; [|done]. by apply rule_word_lit.
    - destruct (ra_rule_ i) as [|c s] eqn:E; [constructor|]. destruct Hra as [|Hra]; [done|].
      constructor; [|constructor]. split; [|done]. by apply rule_word_lit.
    - rewrite Forall_forall. intros [n r] Hin. apply Hr in Hin as (? & _ & _ & ?). done. }
  destruct (rules_groups _ Hok) as (gs & Hgs & E). rewrite E, rule_text_join by done.
  rewrite Parse_groups; [|done|].
  - rewrite <- E. unfold all_rules. rewrite !foldl_app. f_equal.
    assert (E1: foldl report1 (foldl report1 CFIFrameInfo_new (match cfa_rule_ i with [] => [] | r => [(lit ".cfa", r)] end))
                 (match ra_rule_ i with [] => [] | r => [(lit ".ra", r)] end) = mkCFI (cfa_rule_ i) (ra_rule_ i) []).
    { by destruct (cfa_rule_ i), (ra_rule_ i). }
    rewrite E1. rewrite report_registers; [by destruct i|done|].
    intros n e Hin. apply Hr in Hin as (_ & ? & ? & _). done.
  - intros ->. unfold all_rules in E. destruct (cfa_rule_ i), (ra_rule_ i), (register_rules_ i); try done.
    destruct Hsome as [?|[?|?]]; done.
Qed.

Lemma cfi_serialize_parse_witness :
  let i := mkCFI (lit "$esp 4 +") (lit ".cfa 4 - ^") [(lit "$ebp", lit ".cfa 8 - ^"); (lit "$ebx", lit "$ebx")] in
  Serialize i = lit ".cfa: $esp 4 + .ra: .cfa 4 - ^ $ebp: .cfa 8 - ^ $ebx: $ebx" /\
  Parse (Serialize i) CFIFrameInfo_new = (true, i).
Proof.
  intros i. split; [vm_compute; reflexivity|]. apply cfi_serialize_parse. constructor.
  - right. solve_rule [lit "$esp"; lit "4"; lit "+"].
  - right. solve_rule [lit ".cfa"; lit "4"; lit "-"; lit "^"].
  - intros n r Hin. cbn [register_rules_ i] in Hin.
    apply elem_of_cons in Hin as [[= -> ->]|Hin]; [|apply elem_of_cons in Hin as [[= -> ->]|Hin]; [|by apply not_elem_of_nil in Hin]].
    + split_and!; [apply rule_word_lit; [vm_compute; reflexivity|done]|done|done|].
      solve_rule [lit ".cfa"; lit "8"; lit "-"; lit "^"].
    + split_and!; [apply rule_word_lit; [vm_compute; reflexivity|done]|done|done|]. solve_rule [lit "$ebx"].
  - cbn. repeat (apply str_sorted_cons; split; [|]); try constructor.
    intros k' v' [[= -> ->]|Hin]%elem_of_cons; [vm_compute; reflexivity|by apply not_elem_of_nil in Hin].
    intros k' v' Hin. by apply not_elem_of_nil in Hin.
  - left. done.
Defined.

(** ** Recovering the caller's registers *)

Section recovery.
Context {R : Type} `{MemoryRegion R} (w : Z).

Lemma eval_register_rules_spec memory working rules : forall acc regs,
  str_sorted rules -> eval_register_rules w memory working rules acc = Ok regs ->
  forall n, match str_find rules n with
            | Some rule => exists v, eval_rule w memory working rule = Ok v /\ regs !! n = Some v
            | None => regs !! n = acc !! n
            end.
Proof.
  induction rules as [|[n0 r0] rules IH]; intros acc regs Hs E n; [by injection E as <-|].
  apply str_sorted_cons in Hs as [Hlt Hs]. cbn [eval_register_rules] in E.
  destruct (eval_rule w memory working r0) as [v| |] eqn:Ev; [|done..].
  specialize (IH _ _ Hs E n). cbn [str_find]. destruct (str_eqb n0 n) eqn:En.
  - apply str_eqb_spec in En as ->. destruct (str_find rules n) as [rule|] eqn:Ef.
    + apply str_find_Some in Ef; [|done]. apply Hlt in Ef. by rewrite str_ltb_irrefl in Ef.
    + exists v. split; [done|]. by rewrite IH, lookup_insert_eq.
  - destruct (str_find rules n); [done|]. rewrite IH, lookup_insert_ne; [done|].
    intros ->. by rewrite str_eqb_refl in En.
Qed.

(** [FindCallerRegs] succeeds only with both a CFA and a return address rule;
    it then yields exactly the CFA, the return address, and a value for each
    register that has a rule -- every rule after the CFA's evaluated in the
    callee's registers together with the CFA. *)
Lemma cfi_find_caller_regs (i : CFIFrameInfo) (registers : gmap cstring Z) (memory : R) (caller : gmap cstring Z) :
  str_sorted (register_rules_ i) ->
  FindCallerRegs w i registers memory = Ok caller ->
  exists cfa ra,
    cfa_rule_ i <> [] /\ ra_rule_ i <> [] /\
    eval_rule w memory registers (cfa_rule_ i) = Ok cfa /\
    let working := <[lit ".cfa" := cfa]> registers in
    eval_rule w memory working (ra_rule_ i) = Ok ra /\
    caller !! lit ".cfa" = Some cfa /\ caller !! lit ".ra" = Some ra /\
    forall n, n <> lit ".cfa" -> n <> lit ".ra" ->
      match str_find (register_rules_ i) n with
      | Some rule => exists v, eval_rule w memory working rule = Ok v /\ caller !! n = Some v
      | None => caller !! n = None
      end.
Proof.
  intros Hs. unfold FindCallerRegs.
  destruct (cfa_rule_ i) as [|c1 s1] eqn:E1; [done|]. destruct (ra_rule_ i) as [|c2 s2] eqn:E2; [done|].
  destruct (eval_rule w memory registers (c1 :: s1)) as [cfa| |] eqn:Ecfa; cbn [mbind outcome_bind]; [|done..].
  destruct (eval_rule w memory _ (c2 :: s2)) as [ra| |] eqn:Era; cbn [mbind outcome_bind]; [|done..].
  destruct (eval_register_rules w memory _ _ ∅) as [regs| |] eqn:Er; cbn [mbind outcome_bind]; [|done..].
  intros [= <-]. exists cfa, ra. split_and!; try done.
  - by rewrite lookup_insert_eq.
  - rewrite lookup_insert_ne by done. by rewrite lookup_insert_eq.
  - intros n H1 H2. pose proof (eval_register_rules_spec _ _ _ _ _ Hs Er n) as Hn.
    rewrite !lookup_insert_ne by done. destruct (str_find _ n); [done|]. by rewrite Hn, lookup_empty.
Qed.
End recovery.

Lemma cfi_find_caller_regs_witness :
  let i := mkCFI (lit "$esp 8 +") (lit ".cfa 4 - ^") [(lit "$ebp", lit "$ebp")] in
  let regs := <[lit "$esp" := 0x1000]> (<[lit "$ebp" := 7]> ∅) in
  exists caller, FindCallerRegs 32 i regs example_region = Ok caller /\
    caller !! lit ".cfa" = Some 0x1008 /\ caller !! lit ".ra" = Some 0x12345678 /\
    caller !! lit "$ebp" = Some 7.
Proof.
  intros i regs.
  assert (Hok: match FindCallerRegs 32 i regs example_region with Ok _ => true | _ => false end = true)
    by (vm_compute; reflexivity).
  destruct (FindCallerRegs 32 i regs example_region) as [caller| |] eqn:E; [|discriminate Hok..]. clear Hok.
  assert (Hs: str_sorted (register_rules_ i)).
  { clear. unfold i, register_rules_. apply str_sorted_cons. split; [|constructor].
    intros ?? Hin. apply not_elem_of_nil in Hin. done. }
  destruct (cfi_find_caller_regs 32 i regs example_region caller Hs E)
    as (cfa & ra & _ & _ & Hcfa & Hra & H1 & H2 & H3).
  exists caller. vm_compute in Hcfa. injection Hcfa as <-. vm_compute in Hra. injection Hra as <-.
  split_and!; [done|done|done|]. specialize (H3 (lit "$ebp") ltac:(done) ltac:(done)).
  cbn [register_rules_ i str_find] in H3. rewrite str_eqb_refl in H3. destruct H3 as (v & Hv & ->).
  vm_compute in Hv. by injection Hv as <-.
Defined.

(** ** [SimpleCFIWalker] *)

(** A register table: every register has a name, a member and a validity bit of its own. *)
Record map_ok {Member} (register_map : list (RegisterSet Member)) : Prop := {
  mo_names : NoDup (reg_name <$> register_map);
  mo_members : NoDup (context_member <$> register_map);
  mo_flags : NoDup (validity_flag <$> register_map);
  mo_bits : forall r, r ∈ register_map -> exists k, 0 <= k /\ validity_flag r = 2 ^ k
}.

(** Bit [k] of a validity mask. *)
Lemma land_pow2 v k : 0 <= k -> (Z.land v (2 ^ k) =? 0) = negb (Z.testbit v k).
Proof.
  intros Hk. destruct (Z.testbit v k) eqn:E; simpl.
  - apply Z.eqb_neq. intros H0. assert (Hb: Z.testbit (Z.land v (2 ^ k)) k = true).
    { by rewrite Z.land_spec, E, Z.pow2_bits_true. }
    by rewrite H0, Z.bits_0 in Hb.
  - apply Z.eqb_eq. apply Z.bits_inj'. intros i Hi. rewrite Z.land_spec, Z.bits_0.
    destruct (decide (i = k)) as [->|Hne]; [by rewrite E|]. rewrite Z.pow2_bits_false by done. apply andb_false_r.
Qed.

Lemma pow2_inj a b : 0 <= a -> 0 <= b -> 2 ^ a = 2 ^ b -> a = b.
Proof. intros Ha Hb E. apply (Z.pow_inj_r 2); lia. Qed.

Section walker_proofs.
Context {R : Type} `{MemoryRegion R} {Member : Type} `{EqDecision Member} (w : Z).
Implicit Types (m : list (RegisterSet Member)) (r : RegisterSet Member) (ctx : RawContext Member).

Lemma callee_registers_other m ctx val : forall acc n,
  n ∉ reg_name <$> m -> callee_registers m ctx val acc !! n = acc !! n.
Proof.
  induction m as [|r m IH]; intros acc n Hn; [done|]. cbn [callee_registers fmap list_fmap] in *.
  apply not_elem_of_cons in Hn as [Hne Hn]. rewrite IH by done.
  destruct (negb _); [by rewrite lookup_insert_ne|done].
Qed.

Lemma callee_registers_lookup m ctx val : forall acc r,
  NoDup (reg_name <$> m) -> r ∈ m -> (forall r', r' ∈ m -> acc !! reg_name r' = None) ->
  callee_registers m ctx val acc !! reg_name r =
  if negb (Z.land val (validity_flag r) =? 0) then Some (ctx (context_member r)) else None.
Proof.
  induction m as [|r0 m IH]; intros acc r Hnd Hin Hacc; [by apply not_elem_of_nil in Hin|].
  cbn [fmap list_fmap] in Hnd. apply NoDup_cons in Hnd as [Hni Hnd].
  apply elem_of_cons in Hin as [->|Hin]; cbn [callee_registers].
  - rewrite callee_registers_other by done. destruct (negb _).
    + by rewrite lookup_insert_eq.
    + apply Hacc. left.
  - apply IH; [done..|]. intros r' Hr'. destruct (negb _); [|apply Hacc; by right].
    rewrite lookup_insert_ne; [apply Hacc; by right|]. intros E. apply Hni. rewrite E.
    apply list_elem_of_fmap. by exists r'.
Qed.

Lemma populate_other m ctx val regs : forall c v mem,
  mem ∉ context_member <$> m -> (populate_caller m ctx val regs c v).1 mem = c mem.
Proof.
  induction m as [|r m IH]; intros c v mem Hn; [done|]. cbn [populate_caller fmap list_fmap] in *.
  apply not_elem_of_cons in Hn as [Hne Hn].
  destruct (caller_value ctx val regs r); rewrite IH by done; [by rewrite fn_lookup_insert_ne|done].
Qed.

Lemma populate_bit_other m ctx val regs : forall c v k,
  0 <= k -> (forall r, r ∈ m -> exists j, 0 <= j /\ validity_flag r = 2 ^ j /\ j <> k) ->
  Z.testbit (populate_caller m ctx val regs c v).2 k = Z.testbit v k.
Proof.
  induction m as [|r m IH]; intros c v k Hk Hm; [done|]. cbn [populate_caller].
  destruct (Hm r ltac:(left)) as (j & Hj & Ej & Hne).
  destruct (caller_value ctx val regs r); rewrite IH; try done; try (intros ??; apply Hm; by right).
  rewrite Z.lor_spec, Ej, Z.pow2_bits_false by lia. apply orb_false_r.
Qed.

Lemma populate_lookup m ctx val regs : forall c v r k,
  NoDup (context_member <$> m) -> NoDup (validity_flag <$> m) ->
  (forall r, r ∈ m -> exists k, 0 <= k /\ validity_flag r = 2 ^ k) ->
  r ∈ m -> 0 <= k -> validity_flag r = 2 ^ k -> Z.testbit v k = false ->
  let res := populate_caller m ctx val regs c v in
  match caller_value ctx val regs r with
  | Some x => res.1 (context_member r) = x /\ Z.testbit res.2 k = true
  | None => res.1 (context_member r) = c (context_member r) /\ Z.testbit res.2 k = false
  end.
Proof.
  induction m as [|r0 m IH]; intros c v r k Hnd1 Hnd2 Hbits Hin Hk Hr Hv; [by apply not_elem_of_nil in Hin|].
  cbn [fmap list_fmap] in *. apply NoDup_cons in Hnd1 as [Hni1 Hnd1]. apply NoDup_cons in Hnd2 as [Hni2 Hnd2].
  assert (Hother: forall r', r' ∈ m -> validity_flag r0 <> validity_flag r').
  { intros r' Hr' E. apply Hni2. rewrite E. apply list_elem_of_fmap. by exists r'. }
  apply elem_of_cons in Hin as [->|Hin]; cbn [populate_caller].
  - assert (Hrest: forall r, r ∈ m -> exists j, 0 <= j /\ validity_flag r = 2 ^ j /\ j <> k).
    { intros r' Hr'. destruct (Hbits r' ltac:(by right)) as (j & Hj & Ej). exists j. split_and!; [done..|].
      intros ->. apply (Hother r' Hr'). congruence. }
    destruct (caller_value ctx val regs r0) as [x|].
    + rewrite populate_other by done. rewrite populate_bit_other by done.
      rewrite fn_lookup_insert. split; [done|]. rewrite Z.lor_spec, Hr, Z.pow2_bits_true by done. apply orb_true_r.
    + rewrite populate_other by done. by rewrite populate_bit_other.
  - assert (Hne: context_member r0 <> context_member r).
    { intros E. apply Hni1. rewrite E. apply list_elem_of_fmap. by exists r. }
    destruct (Hbits r0 ltac:(left)) as (j & Hj & Ej).
    assert (j <> k) by (intros ->; apply (Hother r Hin); congruence).
    destruct (caller_value ctx val regs r0) as [x|].
    + specialize (IH (<[context_member r0 := x]> c) (Z.lor v (validity_flag r0)) r k Hnd1 Hnd2).
      cbv zeta in IH. rewrite fn_lookup_insert_ne in IH by done. apply IH; try done.
      * intros ??. apply Hbits. by right.
      * rewrite Z.lor_spec, Hv, Ej, Z.pow2_bits_false by lia. done.
    + apply IH; try done. intros ??. apply Hbits. by right.
Qed.

Lemma FindCallerRegisters_spec m (memory : R) (info : CFIFrameInfo) ctx val ctx' val' :
  map_ok m -> FindCallerRegisters w m memory info ctx val = Ok (ctx', val') ->
  exists caller, FindCallerRegs w info (callee_registers m ctx val ∅) memory = Ok caller /\
    forall r, r ∈ m ->
      match caller_value ctx val caller r with
      | Some v => ctx' (context_member r) = v /\ Z.land val' (validity_flag r) <> 0
      | None => ctx' (context_member r) = memset_da w (context_member r) /\ Z.land val' (validity_flag r) = 0
      end.
Proof.
  intros [Hn Hm Hf Hb]. unfold FindCallerRegisters.
  destruct (FindCallerRegs w info _ memory) as [caller| |] eqn:E; cbn [mbind outcome_bind]; [|done..].
  intros [= Hpop]. exists caller. split; [done|].
  intros r Hr. destruct (Hb r Hr) as (k & Hk & Ek).
  pose proof (populate_lookup m ctx val caller (memset_da w) 0 r k Hm Hf Hb Hr Hk Ek (Z.testbit_0_l k)) as Hp.
  cbv zeta in Hp. rewrite Hpop in Hp. cbn [fst snd] in Hp. rewrite Ek.
  pose proof (land_pow2 val' k Hk) as Hl.
  destruct (caller_value ctx val caller r); destruct Hp as [Hp1 Hp2]; (split; [done|]);
    rewrite Hp2 in Hl; simpl in Hl; breflect; done.
Qed.

(** When [FindCallerRegisters] succeeds, the rules were evaluated in a dictionary
    of exactly the callee's valid registers, and each register of the table is valid
    in the caller precisely when a rule gives it a value by name or by alternate
    name, or it is callee-saves and valid in the callee -- with that value; every
    other register is left invalid, with the filler contents. *)
Lemma simple_cfi_walker m (memory : R) (info : CFIFrameInfo) ctx val ctx' val' :
  map_ok m -> FindCallerRegisters w m memory info ctx val = Ok (ctx', val') ->
  exists regs caller,
    (forall r, r ∈ m -> regs !! reg_name r =
       if negb (Z.land val (validity_flag r) =? 0) then Some (ctx (context_member r)) else None) /\
    FindCallerRegs w info regs memory = Ok caller /\
    forall r, r ∈ m ->
      match caller_value ctx val caller r with
      | Some v => ctx' (context_member r) = v /\ Z.land val' (validity_flag r) <> 0
      | None => ctx' (context_member r) = memset_da w (context_member r) /\ Z.land val' (validity_flag r) = 0
      end.
Proof.
  intros Hok E. destruct (FindCallerRegisters_spec _ _ _ _ _ _ _ Hok E) as (caller & Ec & Hr).
  exists (callee_registers m ctx val ∅), caller. split_and!; [|done..].
  intros r Hin. destruct Hok as [Hn _ _ _]. apply callee_registers_lookup; [done..|]. intros ??. apply lookup_empty.
Qed.
End walker_proofs.

Definition example_map : list (RegisterSet bool) :=
  [mkRegister (lit "$eip") (Some (lit ".ra")) false 1 true; mkRegister (lit "$ebp") None true 2 false].

Lemma example_map_ok : map_ok example_map.
Proof.
  constructor.
  - apply (bool_decide_eq_true_1 (NoDup (reg_name <$> example_map))). vm_compute. reflexivity.
  - apply (bool_decide_eq_true_1 (NoDup (context_member <$> example_map))). vm_compute. reflexivity.
  - apply (bool_decide_eq_true_1 (NoDup (validity_flag <$> example_map))). vm_compute. reflexivity.
  - intros r Hr. unfold example_map in Hr.
    apply elem_of_cons in Hr as [->|Hr]; [exists 0; split; [lia|reflexivity]|].
    apply elem_of_cons in Hr as [->|Hr]; [exists 1; split; [lia|reflexivity]|].
    apply not_elem_of_nil in Hr. done.
Qed.

Lemma simple_cfi_walker_witness :
  let info := mkCFI (lit "$ebp 8 +") (lit ".cfa 4 - ^") [] in
  let ctx := (λ b : bool, if b then 7 else 0x1000) in
  exists ctx' val', FindCallerRegisters 32 example_map example_region info ctx 3 = Ok (ctx', val') /\
  exists regs caller, FindCallerRegs 32 info regs example_region = Ok caller /\
    match caller_value ctx 3 caller (mkRegister (lit "$ebp") None true 2 false) with
    | Some v => ctx' false = v /\ Z.land val' 2 <> 0
    | None => ctx' false = memset_da 32 false /\ Z.land val' 2 = 0
    end.
Proof.
  intros info ctx.
  assert (Hok: match FindCallerRegisters 32 example_map example_region info ctx 3 with Ok _ => true | _ => false end = true)
    by (vm_compute; reflexivity).
  destruct (FindCallerRegisters 32 example_map example_region info ctx 3) as [[ctx' val']| |] eqn:E; [|discriminate Hok..].
  clear Hok. exists ctx', val'. split; [done|].
  destruct (simple_cfi_walker 32 example_map example_region info ctx 3 ctx' val' example_map_ok E)
    as (regs & caller & _ & Hcaller & Hr).
  exists regs, caller. split; [done|].
  apply (Hr (mkRegister (lit "$ebp") None true 2 false)). unfold example_map. right. left.
Defined.
