(* ===== verification/EvaluatorBounds.v ===== *)
(** What PostfixEvaluator.v and CfiFrameInfo.v compute together.  Whatever the text of an
    expression, what its evaluation yields, and the registers that STACK CFI rules recover,
    fit the machine word; and from rules that are expressions the registers of a caller are
    recovered by their values. *)
From Stdlib Require Import Ascii.
From stdpp Require Import strings list gmap functions.
From S2P Require Import Prelude CStr StrMap Memory MemoryRegion PostfixEvaluator CfiFrameInfo.

Section bounds.
Context {R : Type} `{MemoryRegionLaws R valid} (w : Z) (Hw : w = 32 \/ w = 64).
Implicit Types (ev : PostfixEvaluator R).

(** A dictionary of words, and a memory region that is valid. *)
Record eval_ok ev : Prop := {
  eo_dict d : dictionary_ ev = Some d -> dict_ok w d;
  eo_region m : region_ ev = Some m -> valid m
}.

(** A method that keeps the evaluator so, and whose results satisfy [P]. *)
Definition keeps {A} (m : M A) (P : A -> Prop) : Prop :=
  forall ev, eval_ok ev -> eval_ok (m ev).2 /\ forall a, (m ev).1 = Ok a -> P a.

Lemma keeps_ret {A} (a : A) (P : A -> Prop) : P a -> keeps (ret a) P.
Proof. intros HP ev Hev. split; [done|]. by intros ? [= <-]. Qed.

Lemma keeps_lift {A} (x : outcome A) (P : A -> Prop) : (forall a, x = Ok a -> P a) -> keeps (lift x) P.
Proof. by intros HP ev Hev. Qed.

Lemma keeps_bind {A B} (m : M A) (f : A -> M B) P Q :
  keeps m P -> (forall a, P a -> keeps (f a) Q) -> keeps (bind m f) Q.
Proof.
  intros Hm Hf ev Hev. destruct (Hm ev Hev) as [Hev' HP]. unfold bind.
  destruct (m ev) as [[a| |] ev']; simpl in *; [|by split..]. apply (Hf a); auto.
Qed.

Lemma eval_ok_stack ev s : eval_ok ev -> eval_ok (set_stack ev s).
Proof. by intros []; constructor. Qed.

Lemma eval_ok_assigned ev a : eval_ok ev -> eval_ok (set_assigned ev a).
Proof. by intros []; constructor. Qed.

Lemma parse_literal_fits t neg v : parse_literal w t = Some (neg, v) -> fits w v.
Proof.
  unfold parse_literal. destruct (match t with [] => _ | c :: s => _ end) as [n s]. unfold extract_unsigned.
  destruct (span isspace s) as [_ s1]. destruct (scan_sign s1) as [ng s2]. destruct (starts_digit 10 s2); [|done].
  destruct (scan_digits 10 0 s2) as [mag rest] eqn:Es. destruct (2 ^ w <=? mag) eqn:El; [done|]. breflect.
  destruct rest; [|done]. intros [= _ <-]. destruct ng; [apply wrap_fits; lia|]. split; [|done].
  pose proof (scan_digits_nonneg 10 s2 0 ltac:(lia) ltac:(lia)) as Hm. by rewrite Es in Hm.
Qed.

Definition pop_fits (r : PopResult) : Prop := forall v, r = POP_RESULT_VALUE v -> fits w v.

Lemma keeps_pop has_value : keeps (PopValueOrIdentifier w has_value) pop_fits.
Proof.
  intros ev Hev. unfold PopValueOrIdentifier. destruct (stack_ ev) as [|t rest]; [split; [done|by intros a [= <-]]|].
  destruct (parse_literal w t) as [[neg v]|] eqn:El.
  - destruct (neg && negb has_value); (split; [by apply eval_ok_stack|]); [done|]. intros a [= <-] v' [= <-].
    destruct neg; [apply wrap_fits; lia|by apply parse_literal_fits in El].
  - split; [by apply eval_ok_stack|]. by intros a [= <-].
Qed.

Lemma keeps_PopValue : keeps (PopValue w) (fits w).
Proof.
  apply (keeps_bind _ _ _ _ (keeps_pop true)). intros [|v|t] Hp.
  - by apply keeps_lift.
  - apply keeps_ret. by apply Hp.
  - intros ev Hev. destruct (dictionary_ ev) as [d|] eqn:Ed; (split; [done|]); [|done].
    intros a Ha. destruct (d !! t) as [v|] eqn:Et; [|done]. injection Ha as <-. by apply (eo_dict _ Hev _ Ed t).
Qed.

Lemma keeps_PushValue v : keeps (PushValue v) (λ _, True).
Proof. intros ev Hev. split; [by apply eval_ok_stack|done]. Qed.

Lemma keeps_EvaluateToken t : keeps (EvaluateToken w t) (λ _, True).
Proof.
  assert (Hbin: forall op, keeps (bind (PopValues w) (λ '(a, b), bind (lift (apply_binary w op a b)) PushValue)) (λ _, True)).
  { intros op. apply (keeps_bind _ _ (λ '(a, b), fits w a /\ fits w b)).
    - apply (keeps_bind _ _ _ _ keeps_PopValue). intros b Hb. apply (keeps_bind _ _ _ _ keeps_PopValue). intros a Ha.
      by apply keeps_ret.
    - intros [a b] [Ha Hb]. apply (keeps_bind _ _ (fits w)); [|intros; apply keeps_PushValue].
      apply keeps_lift. intros v. by apply apply_binary_fits. }
  unfold EvaluateToken. destruct (binary_operation t); try apply Hbin. destruct (str_eqb t (lit "^")).
  - intros ev Hev. destruct (region_ ev) as [m|]; [|by split].
    apply (keeps_bind _ _ _ _ keeps_PopValue); [|done]. intros a _.
    apply (keeps_bind _ _ (λ _, True)); [by apply keeps_lift|]. intros v _. apply keeps_PushValue.
  - destruct (str_eqb t (lit "=")); [|intros ev Hev; split; [by apply eval_ok_stack|done]].
    apply (keeps_bind _ _ _ _ keeps_PopValue). intros v Hv. apply (keeps_bind _ _ _ _ (keeps_pop false)).
    intros [| |t'] _; [by apply keeps_lift..|]. intros ev Hev. destruct (starts_with _ t'); [|by split].
    destruct (dictionary_ ev) as [d|] eqn:Ed; [|by split]. split; [|done]. constructor; simpl.
    + intros d' [= <-]. apply dict_ok_insert; [|done]. by apply (eo_dict _ Hev).
    + apply (eo_region _ Hev).
Qed.

Lemma keeps_tokens ts : keeps (evaluate_tokens w ts) (λ _, True).
Proof.
  induction ts as [|t ts IH]; [by apply keeps_ret|]. apply (keeps_bind _ _ (λ _, True)); [|done].
  unfold evaluate_one. destruct t as [|c [|c' t]]; try apply keeps_EvaluateToken.
  destruct (code c =? 61); [|apply keeps_EvaluateToken].
  apply (keeps_bind _ _ (λ _, True)); intros; apply keeps_EvaluateToken.
Qed.

Lemma EvaluateForValue_fits text ev v : eval_ok ev -> (EvaluateForValue w text ev).1 = Ok v -> fits w v.
Proof.
  intros Hev. unfold EvaluateForValue, clearing. set (m := bind _ _).
  assert (Hm: keeps m (fits w)).
  { apply (keeps_bind _ _ _ _ (keeps_tokens _)). intros _ _ ev' Hev'.
    destruct (length (stack_ ev') =? 1)%nat; [by apply keeps_PopValue|by split]. }
  destruct (Hm (set_assigned ev None) (eval_ok_assigned _ _ Hev)) as [_ HP].
  destruct (m (set_assigned ev None)) as [o ev']. apply HP.
Qed.

(** The dictionary of [Evaluate] stays one of words, whether it succeeds or not. *)
Lemma Evaluate_fits text assigned ev : eval_ok ev -> eval_ok (Evaluate w text assigned ev).2.
Proof.
  intros Hev. unfold Evaluate, clearing. set (m := bind _ _).
  assert (Hm: keeps m (λ _, True)).
  { apply (keeps_bind _ _ _ _ (keeps_tokens _)). intros _ _ ev' Hev'. by destruct (stack_ ev'). }
  destruct (Hm (set_assigned ev assigned) (eval_ok_assigned _ _ Hev)) as [He _].
  destruct (m (set_assigned ev assigned)) as [o ev']. by apply eval_ok_stack.
Qed.

Lemma eval_rule_fits (memory : R) working rule v :
  valid memory -> dict_ok w working -> eval_rule w memory working rule = Ok v -> fits w v.
Proof. intros Hm Hd. apply EvaluateForValue_fits. constructor; simpl; by intros ? [= <-]. Qed.

Lemma eval_register_rules_fits (memory : R) working rules : forall caller caller',
  valid memory -> dict_ok w working -> dict_ok w caller ->
  eval_register_rules w memory working rules caller = Ok caller' -> dict_ok w caller'.
Proof.
  induction rules as [|[n r] rules IH]; intros caller caller' Hm Hd Hc; cbn [eval_register_rules]; [by intros [= <-]|].
  destruct (eval_rule w memory working r) as [v| |] eqn:E; try done. rewrite bind_Ok. apply IH; [done..|].
  apply dict_ok_insert; [done|]. apply (eval_rule_fits memory working r v Hm Hd E).
Qed.

Lemma FindCallerRegs_fits (memory : R) info regs caller :
  valid memory -> dict_ok w regs -> FindCallerRegs w info regs memory = Ok caller -> dict_ok w caller.
Proof.
  intros Hm Hd. unfold FindCallerRegs. destruct (cfa_rule_ info), (ra_rule_ info); try done.
  destruct (eval_rule w memory regs _) as [cfa| |] eqn:Ec; try done. rewrite bind_Ok.
  pose proof (eval_rule_fits _ _ _ _ Hm Hd Ec) as Hcfa. cbv zeta.
  pose proof (dict_ok_insert w regs (lit ".cfa") cfa Hd Hcfa) as Hd'.
  destruct (eval_rule w memory (<[_ := cfa]> regs) _) as [ra| |] eqn:Er; try done. rewrite bind_Ok.
  pose proof (eval_rule_fits _ _ _ _ Hm Hd' Er) as Hra.
  destruct (eval_register_rules _ _ _ _ _) as [c| |] eqn:Eg; try done. rewrite bind_Ok. intros [= <-].
  apply dict_ok_insert; [apply dict_ok_insert|done]; [|done].
  eapply eval_register_rules_fits; [done|done| |exact Eg]. intros ? ?. by rewrite lookup_empty.
Qed.

Lemma memset_da_fits {Member} (r : Member) : fits w (memset_da w r).
Proof. destruct Hw as [-> | ->]; unfold fits; by vm_compute. Qed.

Context {Member : Type} `{EqDecision Member}.

Lemma callee_registers_fits (m : list (RegisterSet Member)) ctx val : forall regs,
  (forall r, fits w (ctx r)) -> dict_ok w regs -> dict_ok w (callee_registers m ctx val regs).
Proof.
  induction m as [|r m IH]; intros regs Hc Hr; [done|]. cbn [callee_registers]. apply IH; [done|].
  dif; [|done]. by apply dict_ok_insert.
Qed.

Lemma populate_fits (m : list (RegisterSet Member)) ctx val caller : forall c v,
  (forall r, fits w (ctx r)) -> dict_ok w caller -> (forall r, fits w (c r)) ->
  forall r, fits w ((populate_caller m ctx val caller c v).1 r).
Proof.
  induction m as [|r0 m IH]; intros c v Hctx Hd Hc r; [done|]. cbn [populate_caller].
  destruct (caller_value ctx val caller r0) as [x|] eqn:E; [|by apply IH]. apply IH; [done..|].
  intros r'. destruct (decide (context_member r0 = r')) as [<-|Hne];
    [rewrite fn_lookup_insert|by rewrite fn_lookup_insert_ne]. revert E. unfold caller_value.
  destruct (caller !! reg_name r0) as [y|] eqn:Ey; [intros [= <-]; eauto|].
  destruct (alternate_name r0) as [a|]; [destruct (caller !! a) as [y|] eqn:Ea; [intros [= <-]; eauto|]|];
    (destruct (_ && _); [by intros [= <-]|done]).
Qed.

Lemma FindCallerRegisters_fits (m : list (RegisterSet Member)) (memory : R) info ctx val ctx' val' :
  valid memory -> (forall r, fits w (ctx r)) ->
  FindCallerRegisters w m memory info ctx val = Ok (ctx', val') -> forall r, fits w (ctx' r).
Proof.
  intros Hm Hc. unfold FindCallerRegisters. set (regs := callee_registers m ctx val ∅).
  assert (Hr: dict_ok w regs) by (apply callee_registers_fits; [done|]; intros ? ?; by rewrite lookup_empty).
  destruct (FindCallerRegs w info regs memory) as [caller| |] eqn:E; try done. rewrite bind_Ok.
  pose proof (FindCallerRegs_fits _ _ _ _ Hm Hr E) as Hcaller. intros [= Hp] r.
  pose proof (populate_fits m ctx val caller (memset_da w) 0 Hc Hcaller memset_da_fits r) as Hf. by rewrite Hp in Hf.
Qed.
End bounds.

(** ** Register recovery by expressions *)

Section recovered.
Context {R : Type} `{MemoryRegionLaws R valid} (w : Z) (Hw : w = 32 \/ w = 64) (memory : R) (Hmem : valid memory).

(** The record of a call frame: the rules are the postfix forms of expressions. *)
Definition expression_rules (cfa ra : expr) (rules : list (cstring * expr)) : CFIFrameInfo :=
  mkCFI (join (compile cfa)) (join (compile ra)) ((λ '(name, e), (name, join (compile e))) <$> rules).

(** The names are distinct, and not those of the two special rules. *)
Record rules_wf (cfa ra : expr) (rules : list (cstring * expr)) : Prop := {
  rw_wf : Forall (wf_expr w) (cfa :: ra :: rules.*2);
  rw_names : NoDup rules.*1;
  rw_special : lit ".cfa" ∉ rules.*1 /\ lit ".ra" ∉ rules.*1
}.

Lemma compile_text e : wf_expr w e -> join (compile e) <> [].
Proof.
  intros He E. pose proof (words_join _ (compile_words w e He)) as Hws. rewrite E in Hws.
  assert (Hne: compile e <> []); [|by rewrite <- Hws in Hne].
  destruct e as [| | |op e1 e2|e]; cbn [compile]; try done; [intros [_ [_ [=]]%app_nil]%app_nil|by intros [_ [=]]%app_nil].
Qed.

Lemma eval_rule_expr d e : dict_ok w d -> wf_expr w e -> eval_rule w memory d (join (compile e)) = value_of w d (Some memory) e.
Proof.
  intros Hd He. unfold eval_rule.
  by rewrite (EvaluateForValue_expr (valid := valid) w d (Some memory) e) by (done || by intros ? [= <-]).
Qed.

(** What the loop over the rules leaves. *)
Lemma register_rules_expr d rules : forall caller,
  dict_ok w d -> Forall (wf_expr w) rules.*2 -> NoDup rules.*1 ->
  match eval_register_rules w memory d ((λ '(name, e), (name, join (compile e))) <$> rules) caller with
  | Ok caller' =>
      (forall name e, (name, e) ∈ rules -> exists v, value_of w d (Some memory) e = Ok v /\ caller' !! name = Some v) /\
      forall name, name ∉ rules.*1 -> caller' !! name = caller !! name
  | Fail => exists e, e ∈ rules.*2 /\ value_of w d (Some memory) e = Fail
  | Undefined => exists e, e ∈ rules.*2 /\ value_of w d (Some memory) e = Undefined
  end.
Proof.
  induction rules as [|[n e] rules IH]; intros caller Hd Hwf Hnd.
  { cbn. split; [by intros ? ? ?%not_elem_of_nil|done]. }
  cbn [fmap list_fmap eval_register_rules fst snd] in *. apply Forall_cons in Hwf as [He Hwf]. apply NoDup_cons in Hnd as [Hn Hnd].
  rewrite eval_rule_expr by done. destruct (value_of w d (Some memory) e) as [v| |] eqn:Ev; cbn [mbind outcome_bind];
    [|exists e; split; [left|done]..].
  specialize (IH (<[n := v]> caller) Hd Hwf Hnd). destruct (eval_register_rules _ _ _ _ _) as [caller'| |];
    [|destruct IH as (e' & Hin & E); exists e'; split; [by right|done]..].
  destruct IH as [Hin Hout]. split.
  - intros n' e' [[= -> ->]|Hin']%elem_of_cons; [|by apply Hin]. exists v. split; [done|]. by rewrite Hout, lookup_insert_eq.
  - intros n' [Hne Hnin]%not_elem_of_cons. by rewrite Hout, lookup_insert_ne.
Qed.

(** The value that the rules give for a name, [cfa_value] and [ra_value] being those of the
    special rules. *)
Definition rule_gives (d : gmap cstring Z) (rules : list (cstring * expr)) (cfa_value ra_value : Z) (name : cstring) (v : Z) : Prop :=
  (name = lit ".cfa" /\ v = cfa_value) \/ (name = lit ".ra" /\ v = ra_value) \/
  exists e, (name, e) ∈ rules /\ value_of w (<[lit ".cfa" := cfa_value]> d) (Some memory) e = Ok v.

Lemma value_fits d e : dict_ok w d -> wf_expr w e -> forall v, value_of w d (Some memory) e = Ok v -> fits w v.
Proof.
  intros Hd He v E. rewrite <- (eval_rule_expr d e Hd He) in E. eapply (eval_rule_fits w Hw); [exact Hmem|exact Hd|exact E].
Qed.

Lemma given_lookup (d : gmap cstring Z) (rules : list (cstring * expr)) (cv rv : Z) (caller : gmap cstring Z) :
  NoDup rules.*1 -> lit ".cfa" ∉ rules.*1 -> lit ".ra" ∉ rules.*1 ->
  (forall name e, (name, e) ∈ rules -> exists v, value_of w (<[lit ".cfa" := cv]> d) (Some memory) e = Ok v /\ caller !! name = Some v) ->
  (forall name, name ∉ rules.*1 -> caller !! name = (∅ : gmap cstring Z) !! name) ->
  forall name v, (<[lit ".cfa" := cv]> (<[lit ".ra" := rv]> caller)) !! name = Some v <-> rule_gives d rules cv rv name v.
Proof.
  intros Hnd Hn1 Hn2 Hin Hout name v. unfold rule_gives. set (d' := <[_ := cv]> d) in *.
  assert (Hname: forall e, (name, e) ∈ rules -> name ∈ rules.*1) by (intros e He; apply list_elem_of_fmap; by exists (name, e)).
  destruct (decide (name = lit ".cfa")) as [->|H1].
  { rewrite lookup_insert_eq. split; [intros [= <-]; by left|]. intros [[_ ->]|[[? _]|(e & He & _)]]; [done|done|by apply Hname in He]. }
  rewrite lookup_insert_ne by done. destruct (decide (name = lit ".ra")) as [->|H2].
  { rewrite lookup_insert_eq. split; [intros [= <-]; by right; left|]. intros [[? _]|[[_ ->]|(e & He & _)]]; [done|done|by apply Hname in He]. }
  rewrite lookup_insert_ne by done. split.
  - intros E. right. right. destruct (decide (name ∈ rules.*1)) as [Hi|Hi]; [|by rewrite Hout, lookup_empty in E].
    apply list_elem_of_fmap in Hi as ([n e] & -> & He). destruct (Hin _ _ He) as (v' & Ev & E'). cbn [fst] in *. exists e. split; [done|].
    rewrite Ev. congruence.
  - intros [[? _]|[[? _]|(e & He & Ev)]]; [done..|]. destruct (Hin _ _ He) as (v' & Ev' & E'). rewrite E'. congruence.
Qed.

(** [FindCallerRegs] over such rules: the return address and the registers are computed with
    the canonical frame address that was computed first. *)
Lemma find_caller_regs_expr d cfa ra rules :
  dict_ok w d -> rules_wf cfa ra rules ->
  match FindCallerRegs w (expression_rules cfa ra rules) d memory with
  | Ok caller => exists cfa_value ra_value, value_of w d (Some memory) cfa = Ok cfa_value /\
      value_of w (<[lit ".cfa" := cfa_value]> d) (Some memory) ra = Ok ra_value /\
      forall name v, caller !! name = Some v <-> rule_gives d rules cfa_value ra_value name v
  | Fail => value_of w d (Some memory) cfa = Fail \/
      exists cfa_value e, value_of w d (Some memory) cfa = Ok cfa_value /\ e ∈ ra :: rules.*2 /\
        value_of w (<[lit ".cfa" := cfa_value]> d) (Some memory) e = Fail
  | Undefined => value_of w d (Some memory) cfa = Undefined \/
      exists cfa_value e, value_of w d (Some memory) cfa = Ok cfa_value /\ e ∈ ra :: rules.*2 /\
        value_of w (<[lit ".cfa" := cfa_value]> d) (Some memory) e = Undefined
  end.
Proof.
  intros Hd [Hall Hnd [Hn1 Hn2]]. apply Forall_cons in Hall as [Hcfa Hall]. apply Forall_cons in Hall as [Hra Hwf].
  unfold FindCallerRegs, expression_rules. cbn [cfa_rule_ ra_rule_ register_rules_].
  pose proof (compile_text cfa Hcfa) as Tc. pose proof (compile_text ra Hra) as Tr.
  destruct (join (compile cfa)) as [|c1 t1] eqn:E1; [done|]. destruct (join (compile ra)) as [|c2 t2] eqn:E2; [done|].
  rewrite <- E1, <- E2, eval_rule_expr by done. clear E1 E2 Tc Tr c1 t1 c2 t2.
  pose proof (value_fits d cfa Hd Hcfa) as Hcv. destruct (value_of w d (Some memory) cfa) as [cv| |]; cbn [mbind outcome_bind]; [|by left..].
  specialize (Hcv cv eq_refl). set (d' := <[lit ".cfa" := cv]> d). assert (Hd': dict_ok w d') by by apply dict_ok_insert.
  rewrite eval_rule_expr by done. destruct (value_of w d' (Some memory) ra) as [rv| |] eqn:Er; cbn [mbind outcome_bind];
    [|right; exists cv, ra; by split_and!; [|left|]..].
  pose proof (register_rules_expr d' rules ∅ Hd' Hwf Hnd) as Hr.
  destruct (eval_register_rules _ _ _ _ _) as [caller| |]; cbn [mbind outcome_bind];
    [|right; destruct Hr as (e & Hin & E); exists cv, e; by split_and!; [|right|]..].
  destruct Hr as [Hin Hout]. exists cv, rv. split; [done|]. split; [done|]. by apply given_lookup.
Qed.

Context {Member : Type} `{EqDecision Member}.

(** The callee's value of a register that is valid there. *)
Definition callee_value (ctx : RawContext Member) (val : Z) (r : RegisterSet Member) : option Z :=
  if negb (Z.land val (validity_flag r) =? 0) then Some (ctx (context_member r)) else None.

(** What the caller has in a register: what the rules give for its name, else what they give
    for its other name, else the callee's value if that is kept across calls. *)
Inductive caller_has (gives : cstring -> Z -> Prop) (ctx : RawContext Member) (val : Z) (r : RegisterSet Member) : Z -> Prop :=
| has_rule v : gives (reg_name r) v -> caller_has gives ctx val r v
| has_other_rule a v : (forall v, ~ gives (reg_name r) v) -> alternate_name r = Some a -> gives a v -> caller_has gives ctx val r v
| has_kept v : (forall v, ~ gives (reg_name r) v) -> (forall a v, alternate_name r = Some a -> ~ gives a v) ->
    callee_saves r = true -> callee_value ctx val r = Some v -> caller_has gives ctx val r v.

Lemma caller_value_has (gives : cstring -> Z -> Prop) (ctx : RawContext Member) (val : Z) (caller : gmap cstring Z) (r : RegisterSet Member) :
  (forall name v, caller !! name = Some v <-> gives name v) ->
  forall v, caller_value ctx val caller r = Some v <-> caller_has gives ctx val r v.
Proof.
  intros Hg v. unfold caller_value.
  destruct (caller !! reg_name r) as [x|] eqn:Ex.
  { split; [intros [= <-]; constructor; by apply Hg|]. apply Hg in Ex. intros [v' Hv|? ? Hn|? Hn]; [|by apply Hn in Ex..].
    apply Hg in Hv, Ex. congruence. }
  assert (Hn: forall v, ~ gives (reg_name r) v) by (intros v' Hv; apply Hg in Hv; congruence).
  destruct (match alternate_name r with Some a => caller !! a | None => None end) as [x|] eqn:Ea.
  { destruct (alternate_name r) as [a|] eqn:Er; [|done]. apply Hg in Ea. split; [intros [= <-]; by eapply has_other_rule|].
    intros [v' Hv|a' v' _ E Hv|? _ Ha]; [by apply Hn in Hv| |by apply (Ha a x) in Ea].
    rewrite Er in E. injection E as <-. apply Hg in Hv, Ea. congruence. }
  assert (Ha: forall a v, alternate_name r = Some a -> ~ gives a v).
  { intros a v' Er Hv. rewrite Er in Ea. apply Hg in Hv. congruence. }
  destruct (callee_saves r) eqn:Es; cbn [andb].
  - unfold callee_value in *. split.
    + intros E. apply has_kept; try done.
    + intros [v' Hv|a' v' _ E Hv|? _ _ _ E]; [by apply Hn in Hv|by apply (Ha a' v') in E|exact E].
  - split; [done|]. intros [v' Hv|a' v' _ E Hv|? _ _ E' _]; [by apply Hn in Hv|by apply (Ha a' v') in E|congruence].
Qed.

End recovered.

(** The frame address is the sum of a register, the return address a word of the stack; the
    other register keeps its value. *)
Definition demo_rules : expr * expr * list (cstring * expr) :=
  (Bin BINARY_OP_ADD (Var (lit "$ebp")) (Lit 8), Deref (Bin BINARY_OP_SUBTRACT (Var (lit ".cfa")) (Lit 4)), []).

