(* ===== verification/SymbolFile.v ===== *)
(** The records of a Breakpad symbol file: the types of
    processor/source_line_resolver_base_types.h,
    google_breakpad/processor/stack_frame.h and processor/windows_frame_info.h,
    and the parsers of one record, [SymbolParseHelper] of
    processor/basic_source_line_resolver.cc and
    [WindowsFrameInfo::ParseFromString].  A record that is parsed is a C string:
    the line without its terminator. *)
From Stdlib Require Import Ascii.
From stdpp Require Import strings list.
From S2P Require Import Prelude CStr.

(** ** Records *)

(** [SourceLineResolverBase::Line]. *)
Record Line := mkLine {
  line_address : Z;
  line_size : Z;
  source_file_id : Z;
  line : Z
}.

(** Its constructor: the file id and the line number narrow to [int]. *)
Definition Line_new (addr code_size file_id source_line : Z) : Line :=
  mkLine addr code_size (s32 file_id) (s32 source_line).

(** [SourceLineResolverBase::PublicSymbol]. *)
Record PublicSymbol := mkPublicSymbol {
  pub_name : cstring;
  pub_address : Z;
  pub_parameter_size : Z
}.

Definition PublicSymbol_new (set_name : cstring) (set_address set_parameter_size : Z) : PublicSymbol :=
  mkPublicSymbol set_name set_address (s32 set_parameter_size).

(** [StackFrame]: the fields a resolver reads and writes. *)
Record StackFrame := mkStackFrame {
  instruction : Z;
  function_name : cstring;
  function_base : Z;
  source_file_name : cstring;
  source_line : Z;
  source_line_base : Z
}.

Definition set_function (f : StackFrame) (name : cstring) (base : Z) : StackFrame :=
  mkStackFrame (instruction f) name base (source_file_name f) (source_line f) (source_line_base f).

Definition set_file_name (f : StackFrame) (name : cstring) : StackFrame :=
  mkStackFrame (instruction f) (function_name f) (function_base f) name (source_line f) (source_line_base f).

Definition set_line (f : StackFrame) (line base : Z) : StackFrame :=
  mkStackFrame (instruction f) (function_name f) (function_base f) (source_file_name f) line base.

(** ** [WindowsFrameInfo] *)

Definition VALID_NONE : Z := 0.
Definition VALID_PARAMETER_SIZE : Z := 1.
Definition VALID_ALL : Z := -1.
Definition STACK_INFO_FPO : Z := 0.
Definition STACK_INFO_FRAME_DATA : Z := 4.
Definition STACK_INFO_LAST : Z := 5.
Definition STACK_INFO_UNKNOWN : Z := -1.

Record WindowsFrameInfo := mkWindowsFrameInfo {
  type_ : Z;
  valid : Z;
  prolog_size : Z;
  epilog_size : Z;
  parameter_size : Z;
  saved_register_size : Z;
  local_size : Z;
  max_stack_size : Z;
  allocates_base_pointer : bool;
  program_string : cstring
}.

(** The two constructors. *)
Definition WindowsFrameInfo_default : WindowsFrameInfo :=
  mkWindowsFrameInfo STACK_INFO_UNKNOWN VALID_NONE 0 0 0 0 0 0 false [].

Definition WindowsFrameInfo_new (type prolog epilog parameter saved local max : Z)
    (allocates : Z) (program : cstring) : WindowsFrameInfo :=
  mkWindowsFrameInfo type VALID_ALL (u32 prolog) (u32 epilog) (u32 parameter) (u32 saved)
    (u32 local) (u32 max) (negb (allocates =? 0)) program.

(** [CopyFrom]: [this] becomes identical to [that]. *)
Definition CopyFrom (this that : WindowsFrameInfo) : WindowsFrameInfo :=
  mkWindowsFrameInfo (type_ that) (valid that) (prolog_size that) (epilog_size that)
    (parameter_size that) (saved_register_size that) (local_size that) (max_stack_size that)
    (allocates_base_pointer that) (program_string that).

(** [WindowsFrameInfo::Clear]. *)
Definition ClearWindowsFrameInfo (this : WindowsFrameInfo) : WindowsFrameInfo :=
  mkWindowsFrameInfo STACK_INFO_UNKNOWN VALID_NONE (prolog_size this) (epilog_size this)
    (parameter_size this) (saved_register_size this) (local_size this) (max_stack_size this)
    (allocates_base_pointer this) [].

Definition set_parameter_size (this : WindowsFrameInfo) (size : Z) : WindowsFrameInfo :=
  mkWindowsFrameInfo (type_ this) (Z.lor (valid this) VALID_PARAMETER_SIZE) (prolog_size this)
    (epilog_size this) (u32 size) (saved_register_size this) (local_size this)
    (max_stack_size this) (allocates_base_pointer this) (program_string this).

(** [WindowsFrameInfo::ParseFromString]: the object with [type], [rva] and
    [code_size], or [None] for NULL. *)
Definition ParseFromString (string : cstring) : option (WindowsFrameInfo * Z * Z * Z) :=
  match Tokenize string kWhitespace 11 with
  | Some [t0; t1; t2; t3; t4; t5; t6; t7; t8; t9; t10] =>
      let num t := (strtoull t 16).1 in
      let type := s32 (strtol t0 16).1 in
      if (type <? 0) || (STACK_INFO_LAST - 1 <? type) then None else
      let rva := num t1 in
      let code_size := num t2 in
      let has_program_string := s32 (num t9) in
      let '(program, allocates) :=
        if negb (has_program_string =? 0) then (t10, 0) else ([], s32 (num t10)) in
      Some (WindowsFrameInfo_new type (num t3) (num t4) (num t5) (num t6) (num t7) (num t8)
              allocates program, type, rva, code_size)
  | _ => None
  end.

(** ** [SymbolParseHelper] *)

Definition LONG_MAX : Z := 2 ^ 63 - 1.
Definition ULLONG_MAX : Z := 2 ^ 64 - 1.

(** [IsValidAfterNumber]: [strchr] also finds the terminator. *)
Definition IsValidAfterNumber (after_number : cstring) : bool :=
  match after_number with
  | [] => true
  | c :: _ => in_set kWhitespace c
  end.

(** FILE <id> <filename>: the index and the filename. *)
Definition ParseFile (file_line : cstring) : option (Z * cstring) :=
  let file_line := drop 5 file_line in
  match Tokenize file_line kWhitespace 2 with
  | Some [t0; t1] =>
      let '(index, after) := strtol t0 10 in
      if negb (IsValidAfterNumber after) || (index <? 0) || (index =? LONG_MAX) then None
      else Some (index, t1)
  | _ => None
  end.

(** FUNC <address> <size> <stack_param_size> <name>. *)
Definition ParseFunction (function_line : cstring) : option (Z * Z * Z * cstring) :=
  let function_line := drop 5 function_line in
  match Tokenize function_line kWhitespace 4 with
  | Some [t0; t1; t2; t3] =>
      let '(address, after) := strtoull t0 16 in
      if negb (IsValidAfterNumber after) || (address =? ULLONG_MAX) then None else
      let '(size, after) := strtoull t1 16 in
      if negb (IsValidAfterNumber after) || (size =? ULLONG_MAX) then None else
      let '(stack_param_size, after) := strtol t2 16 in
      if negb (IsValidAfterNumber after) || (stack_param_size =? LONG_MAX) || (stack_param_size <? 0)
      then None
      else Some (address, size, stack_param_size, t3)
  | _ => None
  end.

(** <address> <size> <line number> <source file id>. *)
Definition ParseLine (line_line : cstring) : option (Z * Z * Z * Z) :=
  match Tokenize line_line kWhitespace 4 with
  | Some [t0; t1; t2; t3] =>
      let '(address, after) := strtoull t0 16 in
      if negb (IsValidAfterNumber after) || (address =? ULLONG_MAX) then None else
      let '(size, after) := strtoull t1 16 in
      if negb (IsValidAfterNumber after) || (size =? ULLONG_MAX) then None else
      let '(line_number, after) := strtol t2 10 in
      if negb (IsValidAfterNumber after) || (line_number =? LONG_MAX) then None else
      let '(source_file, after) := strtol t3 10 in
      if negb (IsValidAfterNumber after) || (source_file <? 0) || (source_file =? LONG_MAX) then None
      else if line_number <? 0 then None
      else Some (address, size, line_number, source_file)
  | _ => None
  end.

(** PUBLIC <address> <stack_param_size> <name>. *)
Definition ParsePublicSymbol (public_line : cstring) : option (Z * Z * cstring) :=
  let public_line := drop 7 public_line in
  match Tokenize public_line kWhitespace 3 with
  | Some [t0; t1; t2] =>
      let '(address, after) := strtoull t0 16 in
      if negb (IsValidAfterNumber after) || (address =? ULLONG_MAX) then None else
      let '(stack_param_size, after) := strtol t1 16 in
      if negb (IsValidAfterNumber after) || (stack_param_size =? LONG_MAX) || (stack_param_size <? 0)
      then None
      else Some (address, stack_param_size, t2)
  | _ => None
  end.

(** ** The text of a record *)

(** What follows the keyword of each record, and the line it is written as
    (docs/symbol_files.md; common/module.cc writes all but STACK WIN). *)
Inductive record :=
| ModuleRecord (text : cstring)
| InfoRecord (text : cstring)
| FileRecord (id : Z) (name : cstring)
| FuncRecord (address size param_size : Z) (name : cstring)
| LineRecord (address size number file_id : Z)
| PublicRecord (address param_size : Z) (name : cstring)
| StackWinRecord (info : WindowsFrameInfo) (rva code_size : Z)
| StackCfiInitRecord (address size : Z) (rules : cstring)
| StackCfiRecord (address : Z) (rules : cstring).

(** The two last fields of STACK WIN: whether there is a program string, and
    the program string or [allocates_base_pointer]. *)
Definition print_program (info : WindowsFrameInfo) : cstring * cstring :=
  match program_string info with
  | [] => (lit "0", if allocates_base_pointer info then lit "1" else lit "0")
  | program => (lit "1", program)
  end.

Definition print_win (info : WindowsFrameInfo) (rva code_size : Z) : cstring :=
  join ([print_hex (type_ info); print_hex rva; print_hex code_size; print_hex (prolog_size info);
         print_hex (epilog_size info); print_hex (parameter_size info);
         print_hex (saved_register_size info); print_hex (local_size info);
         print_hex (max_stack_size info); (print_program info).1] ++ [(print_program info).2]).

Definition print_record (r : record) : cstring :=
  match r with
  | ModuleRecord text => lit "MODULE " ++ text
  | InfoRecord text => lit "INFO " ++ text
  | FileRecord id name => lit "FILE " ++ join ([print_dec id] ++ [name])
  | FuncRecord address size param_size name =>
      lit "FUNC " ++ join ([print_hex address; print_hex size; print_hex param_size] ++ [name])
  | LineRecord address size number file_id =>
      join ([print_hex address; print_hex size; print_dec number] ++ [print_dec file_id])
  | PublicRecord address param_size name =>
      lit "PUBLIC " ++ join ([print_hex address; print_hex param_size] ++ [name])
  | StackWinRecord info rva code_size => lit "STACK WIN " ++ print_win info rva code_size
  | StackCfiInitRecord address size rules =>
      lit "STACK CFI INIT " ++ join ([print_hex address; print_hex size] ++ [rules])
  | StackCfiRecord address rules => lit "STACK CFI " ++ join ([print_hex address] ++ [rules])
  end.

(** The info a STACK WIN record can hold. *)
Definition win_ok (info : WindowsFrameInfo) : Prop :=
  0 <= type_ info < STACK_INFO_LAST /\ valid info = VALID_ALL /\ fits 32 (prolog_size info) /\ fits 32 (epilog_size info) /\
  fits 32 (parameter_size info) /\ fits 32 (saved_register_size info) /\ fits 32 (local_size info) /\
  fits 32 (max_stack_size info) /\ all (λ c, negb (in_set CRLF c)) (program_string info) /\
  (program_string info <> [] -> allocates_base_pointer info = false).

(** The records whose fields the parsers accept. *)
Definition record_ok (r : record) : Prop :=
  match r with
  | ModuleRecord text | InfoRecord text => all (λ c, negb (in_set CRLF c)) text
  | FileRecord id name => 0 <= id < LONG_MAX /\ is_text name
  | FuncRecord address size param_size name =>
      0 <= address < ULLONG_MAX /\ 0 <= size < ULLONG_MAX /\ 0 <= param_size < LONG_MAX /\ is_text name
  | LineRecord address size number file_id =>
      0 <= address < ULLONG_MAX /\ 0 <= size < ULLONG_MAX /\ 0 <= number < LONG_MAX /\
      0 <= file_id < LONG_MAX
  | PublicRecord address param_size name =>
      0 <= address < ULLONG_MAX /\ 0 <= param_size < LONG_MAX /\ is_text name
  | StackWinRecord info rva code_size => win_ok info /\ fits 64 rva /\ fits 64 code_size
  | StackCfiInitRecord address size rules => fits 64 address /\ fits 64 size /\ is_text rules
  | StackCfiRecord address rules => fits 64 address /\ is_text rules
  end.

(** ** Lemmas *)

Lemma hex_field z : 0 <= z -> is_field (print_hex z).
Proof. apply print_num_field. lia. Qed.

Lemma dec_field z : 0 <= z -> is_field (print_dec z).
Proof. apply print_num_field. lia. Qed.

#[export] Hint Resolve hex_field dec_field is_field_text : bp.

(** Cut a printed record back into its fields. *)
Ltac cut_fields n :=
  rewrite (Tokenize_join n); [cbn [app]|done|done|repeat constructor; first [apply hex_field|apply dec_field]; lia|].

(** The range checks of the parsers, on numbers that are in range. *)
Ltac in_range :=
  cbn [IsValidAfterNumber negb orb]; repeat dif; try done; repeat (breflect; simpl in *; try lia);
  repeat match goal with H : _ \/ _ |- _ => destruct H; breflect; simpl in *; try done end; lia.

Lemma parse_hex64 z : 0 <= z < ULLONG_MAX -> strtoull (print_hex z) 16 = (z, []).
Proof. unfold ULLONG_MAX. intros. apply strtoull_print; [lia|]. unfold fits. lia. Qed.

Lemma parse_long base z : 2 <= base <= 16 -> 0 <= z < LONG_MAX -> strtol (print_num base z) base = (z, []).
Proof. unfold LONG_MAX. intros. apply strtol_print; lia. Qed.

Lemma ParseFile_print id name :
  record_ok (FileRecord id name) -> ParseFile (print_record (FileRecord id name)) = Some (id, name).
Proof.
  intros (Hi & Hn). unfold ParseFile, print_record.
  change (drop 5 _) with (join ([print_dec id] ++ [name])). cut_fields 2%nat; [|done].
  unfold print_dec. rewrite parse_long by (done || lia). in_range.
Qed.

Lemma ParseFunction_print a s p name :
  record_ok (FuncRecord a s p name) -> ParseFunction (print_record (FuncRecord a s p name)) = Some (a, s, p, name).
Proof.
  intros (Ha & Hs & Hp & Hn). unfold ParseFunction, print_record.
  change (drop 5 _) with (join ([print_hex a; print_hex s; print_hex p] ++ [name])).
  cut_fields 4%nat; [|done]. rewrite !parse_hex64 by done. unfold print_hex.
  rewrite parse_long by (done || lia). in_range.
Qed.

Lemma ParseLine_print a s n f :
  record_ok (LineRecord a s n f) -> ParseLine (print_record (LineRecord a s n f)) = Some (a, s, n, f).
Proof.
  intros (Ha & Hs & Hn & Hf). unfold ParseLine, print_record.
  cut_fields 4%nat; [|apply is_field_text, dec_field; lia]. rewrite !parse_hex64 by done. unfold print_dec.
  rewrite !parse_long by (done || lia). in_range.
Qed.

Lemma ParsePublicSymbol_print a p name :
  record_ok (PublicRecord a p name) -> ParsePublicSymbol (print_record (PublicRecord a p name)) = Some (a, p, name).
Proof.
  intros (Ha & Hp & Hn). unfold ParsePublicSymbol, print_record.
  change (drop 7 _) with (join ([print_hex a; print_hex p] ++ [name])).
  cut_fields 3%nat; [|done]. rewrite !parse_hex64 by done. unfold print_hex.
  rewrite parse_long by (done || lia). in_range.
Qed.

Lemma num_hex w z : 0 <= w <= 64 -> fits w z -> (strtoull (print_hex z) 16).1 = z.
Proof.
  unfold fits. intros Hw Hz. unfold print_hex. rewrite strtoull_print; [done|lia|].
  unfold fits. pose proof (Z.pow_le_mono_r 2 w 64). lia.
Qed.

Lemma u32_small z : fits 32 z -> u32 z = z.
Proof. apply wrap_small. Qed.

Lemma ParseFromString_print info rva code_size :
  record_ok (StackWinRecord info rva code_size) ->
  ParseFromString (print_win info rva code_size) = Some (info, type_ info, rva, code_size).
Proof.
  intros ((Ht & Hv & Hp & He & Hpa & Hsa & Hl & Hm & Hprog & Hab) & Hr & Hc).
  destruct info as [ty v p e pa sa l m ab prog]. cbn [type_ valid prolog_size epilog_size parameter_size
    saved_register_size local_size max_stack_size allocates_base_pointer program_string] in *.
  unfold STACK_INFO_LAST in Ht. subst v.
  unfold ParseFromString, print_win. cbn [type_ prolog_size epilog_size parameter_size
    saved_register_size local_size max_stack_size].
  set (info := mkWindowsFrameInfo _ _ _ _ _ _ _ _ _ _).
  assert (Hflag: is_field (print_program info).1 /\ is_text (print_program info).2).
  { unfold print_program, info. cbn [program_string allocates_base_pointer].
    destruct prog; [split; destruct ab|split]; try (split; [done|by repeat constructor]). by split. }
  destruct Hflag as [Hf1 Hf2].
  rewrite (Tokenize_join 11); [cbn [app]|done|done| |done].
  2: { unfold fits in *. repeat (apply Forall_cons; split; [first [exact Hf1|apply hex_field; lia]|]). apply Forall_nil_2. }
  rewrite !(num_hex 32), !(num_hex 64) by (done || lia).
  assert (Hty: s32 (strtol (print_hex ty) 16).1 = ty).
  { unfold print_hex. rewrite strtol_print by lia. apply swrap_small; simpl; lia. }
  rewrite !Hty. clear Hty.
  destruct ((ty <? 0) || _) eqn:E; [breflect; destruct E as [E|E]; breflect; unfold STACK_INFO_LAST in *; lia|].
  clear E. unfold print_program, info. cbn [program_string allocates_base_pointer].
  destruct prog as [|c prog].
  - replace (s32 (strtoull (lit "0") 16).1) with 0 by reflexivity. cbn [Z.eqb negb].
    unfold WindowsFrameInfo_new. rewrite !u32_small by done. f_equal. repeat f_equal. by destruct ab.
  - replace (s32 (strtoull (lit "1") 16).1) with 1 by reflexivity. cbn [Z.eqb negb].
    unfold WindowsFrameInfo_new. rewrite !u32_small by done. f_equal. repeat f_equal. by rewrite Hab.
Qed.

(** *** The values a conversion can give *)

Lemma strto_nonneg s base neg mag rest : 0 <= base -> strto s base = Some (neg, mag, rest) -> 0 <= mag.
Proof.
  intros Hb. unfold strto. destruct (span isspace s) as [? s1]. destruct (scan_sign s1) as [neg' s2].
  dif; [|done]. destruct (scan_digits _ _ _) as [mag' rest'] eqn:Es. intros [= <- <- <-].
  change mag' with (mag', rest').1. rewrite <- Es. by apply scan_digits_nonneg.
Qed.

Lemma strtoull_range s base : 0 <= base -> fits 64 (strtoull s base).1.
Proof.
  intros Hb. unfold strtoull, fits. destruct (strto s base) as [[[neg mag] rest]|] eqn:E; [|simpl; lia].
  apply strto_nonneg in E; [|done]. simpl. dif; [lia|]. destruct neg; [|lia]. by apply wrap_range.
Qed.

Lemma strtol_range s base : 0 <= base -> - 2 ^ 63 <= (strtol s base).1 < 2 ^ 63.
Proof.
  intros Hb. unfold strtol. destruct (strto s base) as [[[neg mag] rest]|] eqn:E; [|simpl; lia].
  apply strto_nonneg in E; [|done]. simpl. destruct neg; dif; lia.
Qed.

(** The last token of a line is text. *)
Lemma tokens_of_last seps n line ts : tokens_of seps n line ts -> exists ts' t, ts = ts' ++ [t] /\ is_text t.
Proof.
  induction 1 as [gap t rest _ Hne Ht _|n gap t d rest ts _ _ _ _ _ (ts' & t' & -> & Ht)].
  - by exists [], t.
  - by exists (t :: ts'), t'.
Qed.

Lemma Tokenize_last line n ts t :
  (2 <= n)%nat -> Tokenize line kWhitespace n = Some (ts ++ [t]) -> is_text t.
Proof.
  intros Hn. rewrite Tokenize_fields by done. destruct n as [|n]; [lia|].
  intros (ts' & t' & E & Ht)%fields_tokens_of%tokens_of_last. by apply app_inj_tail in E as [_ <-].
Qed.

(** Take the checks of a parser apart. *)
Ltac parsed H :=
  repeat match type of H with
  | context [match Tokenize ?l ?s ?n with _ => _ end] =>
      let E := fresh "Etok" in destruct (Tokenize l s n) as [ts|] eqn:E; [|done];
      repeat (destruct ts as [|? ts]; try done)
  | context [let '(_, _) := strtoull ?t ?b in _] =>
      let R := fresh "Hr" in pose proof (strtoull_range t b ltac:(lia)) as R;
      destruct (strtoull t b) as [? ?]; cbn [fst] in R
  | context [let '(_, _) := strtol ?t ?b in _] =>
      let R := fresh "Hr" in pose proof (strtol_range t b ltac:(lia)) as R;
      destruct (strtol t b) as [? ?]; cbn [fst] in R
  end; repeat (dif_in H; [done|]); simplify_eq.

Lemma ParseFile_bounds l id name : ParseFile l = Some (id, name) -> record_ok (FileRecord id name).
Proof.
  unfold ParseFile. intros H. parsed H. split; [unfold LONG_MAX in *; lia|].
  by apply (Tokenize_last _ 2 [_]) in Etok; [|lia].
Qed.

Lemma ParseFunction_bounds l a s p name :
  ParseFunction l = Some (a, s, p, name) -> record_ok (FuncRecord a s p name).
Proof.
  unfold ParseFunction. intros H. parsed H. unfold fits in *.
  split_and!; try (unfold LONG_MAX, ULLONG_MAX in *; lia).
  all: by apply (Tokenize_last _ 4 [_; _; _]) in Etok as [??]; [|lia].
Qed.

Lemma ParseLine_bounds l a s n f : ParseLine l = Some (a, s, n, f) -> record_ok (LineRecord a s n f).
Proof.
  unfold ParseLine. intros H. parsed H. unfold fits in *.
  split_and!; unfold LONG_MAX, ULLONG_MAX in *; lia.
Qed.

Lemma ParsePublicSymbol_bounds l a p name :
  ParsePublicSymbol l = Some (a, p, name) -> record_ok (PublicRecord a p name).
Proof.
  unfold ParsePublicSymbol. intros H. parsed H. unfold fits in *.
  split_and!; try (unfold LONG_MAX, ULLONG_MAX in *; lia).
  all: by apply (Tokenize_last _ 3 [_; _]) in Etok as [??]; [|lia].
Qed.

Lemma ParseFromString_bounds s info type rva size :
  ParseFromString s = Some (info, type, rva, size) -> type = type_ info /\ record_ok (StackWinRecord info rva size).
Proof.
  unfold ParseFromString. intros H.
  destruct (Tokenize s kWhitespace 11) as [ts|] eqn:Etok; [|done].
  do 11 (destruct ts as [|? ts]; try done). destruct ts; [|done].
  apply (Tokenize_last _ 11 [_; _; _; _; _; _; _; _; _; _]) in Etok as [Hne Ht]; [|lia].
  dif_in H; [done|]. unfold STACK_INFO_LAST in *.
  destruct (negb _); simplify_eq; split; try done; unfold record_ok, win_ok, WindowsFrameInfo_new;
    cbn [type_ valid prolog_size epilog_size parameter_size saved_register_size local_size
      max_stack_size allocates_base_pointer program_string];
    unfold u32; split_and!; try (apply wrap_fits; lia); try (apply strtoull_range; lia);
    try done; try apply Forall_nil_2; unfold STACK_INFO_LAST; lia.
Qed.

(** ** Properties *)

(** What the parser of its kind makes of the line of a record. *)
Definition parses (l : cstring) (r : record) : Prop :=
  match r with
  | FileRecord id name => ParseFile l = Some (id, name)
  | FuncRecord a s p name => ParseFunction l = Some (a, s, p, name)
  | LineRecord a s n f => ParseLine l = Some (a, s, n, f)
  | PublicRecord a p name => ParsePublicSymbol l = Some (a, p, name)
  | StackWinRecord info rva size => ParseFromString (drop 10 l) = Some (info, type_ info, rva, size)
  | _ => True
  end.

(** C15: a FILE, FUNC, line, PUBLIC or STACK WIN record whose numbers and names
    are within the limits of the format is parsed back from its text exactly. *)
Theorem symbol_record_roundtrip (r : record) : record_ok r -> parses (print_record r) r.
Proof.
  destruct r; cbn [parses]; try done; intros Hok.
  - by apply ParseFile_print.
  - by apply ParseFunction_print.
  - by apply ParseLine_print.
  - by apply ParsePublicSymbol_print.
  - by apply ParseFromString_print.
Qed.

Definition example_win : WindowsFrameInfo :=
  WindowsFrameInfo_new 4 1 2 8 4 16 0 0 (lit "$T0 $ebp = $eip $T0 4 + ^ =").

Lemma symbol_record_roundtrip_witness :
  ParseFromString (lit "4 1000 20 1 2 8 4 10 0 1 $T0 $ebp = $eip $T0 4 + ^ =") = Some (example_win, 4, 4096, 32).
Proof.
  refine (symbol_record_roundtrip (StackWinRecord example_win 4096 32) _).
  unfold record_ok, win_ok. split_and!; try (vm_compute; by split); try done. by apply all_forallb.
Defined.

(** What the parsers accept, whatever the line, is within the limits of the
    format: addresses and sizes below 2^64 - 1, ids, line numbers and parameter
    sizes between 0 and 2^63 - 2, names that are not empty and end with the
    line; and a STACK WIN record has one of the five types and 32-bit sizes. *)
Lemma symbol_record_bounds (l : cstring) (r : record) :
  match r with
  | FileRecord _ _ | FuncRecord _ _ _ _ | LineRecord _ _ _ _ | PublicRecord _ _ _ | StackWinRecord _ _ _ =>
      parses l r -> record_ok r
  | _ => True
  end.
Proof.
  destruct r; try done; cbn [parses].
  - apply ParseFile_bounds.
  - apply ParseFunction_bounds.
  - apply ParseLine_bounds.
  - apply ParsePublicSymbol_bounds.
  - by intros [_ ?]%ParseFromString_bounds.
Qed.

Lemma symbol_record_bounds_witness :
  record_ok (LineRecord 4096 16 12 3) /\ ParseLine (lit "1000 10 -12 3") = None.
Proof.
  split; [|reflexivity]. apply (symbol_record_bounds (lit "1000 10 12 3") (LineRecord 4096 16 12 3)). reflexivity.
Defined.
