(* ===== verification/BasicResolver.v ===== *)
(** processor/basic_source_line_resolver.cc, basic_source_line_resolver_types.h:
    [BasicSourceLineResolver::Module], the in-memory form of a symbol file: how
    it is filled from the text and how addresses are looked up in it.
    The [Function] objects are shared between [functions_] and the line being
    read ([cur_func->lines] changes after the pointer was stored), so they live
    in a heap and the map holds pointers. *)
From Stdlib Require Import Ascii.
From stdpp Require Import strings list.
From S2P Require Import Prelude StdMap RangeMap AddressMap ContainedRangeMap CStr StrMap MemoryRegion PostfixEvaluator CfiFrameInfo SymbolFile.

Definition kMaxErrorsPrinted : Z := 5.
Definition kMaxErrorsBeforeBailing : Z := 100.

(** [BasicSourceLineResolver::Function]. *)
Record Func := mkFunc {
  func_name : cstring;
  func_address : Z;
  func_size : Z;
  func_parameter_size : Z;
  lines : RangeMap Line
}.

Definition Func_new (function_name : cstring) (function_address code_size set_parameter_size : Z) : Func :=
  mkFunc function_name function_address code_size (s32 set_parameter_size) RangeMap_new.

Definition set_lines (f : Func) (l : RangeMap Line) : Func :=
  mkFunc (func_name f) (func_address f) (func_size f) (func_parameter_size f) l.

(** A pointer to a [Function]. *)
Abbreviation func_ptr := nat.

(** [BasicSourceLineResolver::Module]. *)
Record BasicModule := mkModule {
  name_ : cstring;
  files_ : smap cstring;
  functions_ : RangeMap func_ptr;
  public_symbols_ : AddressMap PublicSymbol;
  is_corrupt_ : bool;
  windows_frame_info_ : list (ContainedRangeMap (option WindowsFrameInfo));
  cfi_initial_rules_ : RangeMap cstring;
  cfi_delta_rules_ : smap cstring;
  func_heap : list Func
}.

Definition BasicModule_new (name : cstring) : BasicModule :=
  mkModule name [] RangeMap_new AddressMap_new false
    (replicate (Z.to_nat STACK_INFO_LAST) (ContainedRangeMap_new None)) RangeMap_new [] [].

Definition set_files m x := mkModule (name_ m) x (functions_ m) (public_symbols_ m) (is_corrupt_ m)
  (windows_frame_info_ m) (cfi_initial_rules_ m) (cfi_delta_rules_ m) (func_heap m).
Definition set_functions m x h := mkModule (name_ m) (files_ m) x (public_symbols_ m) (is_corrupt_ m)
  (windows_frame_info_ m) (cfi_initial_rules_ m) (cfi_delta_rules_ m) h.
Definition set_publics m x := mkModule (name_ m) (files_ m) (functions_ m) x (is_corrupt_ m)
  (windows_frame_info_ m) (cfi_initial_rules_ m) (cfi_delta_rules_ m) (func_heap m).
Definition set_corrupt m x := mkModule (name_ m) (files_ m) (functions_ m) (public_symbols_ m) x
  (windows_frame_info_ m) (cfi_initial_rules_ m) (cfi_delta_rules_ m) (func_heap m).
Definition set_windows m x := mkModule (name_ m) (files_ m) (functions_ m) (public_symbols_ m) (is_corrupt_ m)
  x (cfi_initial_rules_ m) (cfi_delta_rules_ m) (func_heap m).
Definition set_cfi m x y := mkModule (name_ m) (files_ m) (functions_ m) (public_symbols_ m) (is_corrupt_ m)
  (windows_frame_info_ m) x y (func_heap m).

(** ** Records *)

(** [LogParseError]: the count after it, and whether the message is printed. *)
Definition LogParseError (num_errors : Z) : Z * bool :=
  let num_errors := num_errors + 1 in (num_errors, num_errors <=? kMaxErrorsPrinted).

(** The methods [ParseFile], [ParseFunction], [ParseLine] and
    [ParsePublicSymbol] of the module.  [files_] has [int] keys, and [insert]
    keeps an entry that is already there. *)
Definition Module_ParseFile (m : BasicModule) (file_line : cstring) : bool * BasicModule :=
  match ParseFile file_line with
  | Some (index, filename) => (true, set_files m (insert (files_ m) (s32 index) filename))
  | None => (false, m)
  end.

Definition Module_ParseFunction (function_line : cstring) : option Func :=
  match ParseFunction function_line with
  | Some (address, size, stack_param_size, name) => Some (Func_new name address size stack_param_size)
  | None => None
  end.

Definition Module_ParseLine (line_line : cstring) : option Line :=
  match ParseLine line_line with
  | Some (address, size, line_number, source_file) => Some (Line_new address size source_file line_number)
  | None => None
  end.

Definition Module_ParsePublicSymbol (m : BasicModule) (public_line : cstring) : bool * BasicModule :=
  match ParsePublicSymbol public_line with
  | Some (address, stack_param_size, name) =>
      if address =? 0 then (true, m)
      else let '(ok, p) := Store (public_symbols_ m) address (PublicSymbol_new name address stack_param_size) in
           (ok, set_publics m p)
  | None => (false, m)
  end.

(** [ParseCFIFrameInfo]. *)
Definition ParseCFIFrameInfo (m : BasicModule) (stack_info_line : cstring) : bool * BasicModule :=
  match strtok_r stack_info_line kWhitespace with
  | (None, _) => (false, m)
  | (Some init_or_address, cursor) =>
      if str_eqb init_or_address (lit "INIT") then
        match strtok_r cursor kWhitespace with
        | (None, _) => (false, m)
        | (Some address_field, cursor) =>
            match strtok_r cursor kWhitespace with
            | (None, _) => (false, m)
            | (Some size_field, cursor) =>
                match strtok_r cursor CRLF with
                | (None, _) => (false, m)
                | (Some initial_rules, _) =>
                    let address := (strtoull address_field 16).1 in
                    let size := (strtoull size_field 16).1 in
                    (true, set_cfi m (StoreRange 64 (cfi_initial_rules_ m) address size initial_rules).2
                             (cfi_delta_rules_ m))
                end
            end
        end
      else
        match strtok_r cursor CRLF with
        | (None, _) => (false, m)
        | (Some delta_rules, _) =>
            let address := (strtoull init_or_address 16).1 in
            (true, set_cfi m (cfi_initial_rules_ m) (assign (cfi_delta_rules_ m) address delta_rules))
        end
  end.

(** The STACK WIN branch of [ParseStackInfo]. *)
Definition ParseStackWin (m : BasicModule) (stack_info_line : cstring) : bool * BasicModule :=
  match ParseFromString stack_info_line with
  | None => (false, m)
  | Some (stack_frame_info, type, rva, code_size) =>
      match windows_frame_info_ m !! Z.to_nat type with
      | Some c =>
          (true, set_windows m (<[Z.to_nat type := (StoreContained 64 c rva code_size (Some stack_frame_info)).2]>
                                  (windows_frame_info_ m)))
      | None => (true, m)
      end
  end.

(** The text up to and including the first token: what is left of a string in
    which [strtok_r] has overwritten the delimiter after that token. *)
Definition first_token_only (s delim : cstring) : cstring :=
  let '(gap, s') := span (in_set delim) s in
  let '(token, _) := span (λ c, negb (in_set delim c)) s' in
  gap ++ token.

(** [ParseStackInfo].  The character after the platform word is overwritten and
    stepped over; when the line ends with that word, that is the terminator, and
    what is parsed is the memory after the line: [after], the text that follows
    the line in the buffer, or [None] when the line ends the buffer.  In that case
    parsing STACK CFI cuts that text short, so the text still to be read is
    returned too. *)
Definition ParseStackInfo (m : BasicModule) (stack_info_line : cstring) (after : option cstring)
    (save : cstring) : outcome (bool * BasicModule * cstring) :=
  let '(_, platform_on) := span (Ascii.eqb SP) (drop 6 stack_info_line) in
  let '(platform, rest) := span (λ c, negb (in_set kWhitespace c)) platform_on in
  let '(text, cut) := match rest with
                      | _ :: text => (Some text, save)
                      | [] => (after, first_token_only save kWhitespace)
                      end in
  if str_eqb platform (lit "WIN") then
    match text with
    | None => Undefined
    | Some text => let '(ok, m) := ParseStackWin m text in Ok (ok, m, save)
    end
  else if str_eqb platform (lit "CFI") then
    match text with
    | None => Undefined
    | Some text => let '(ok, m) := ParseCFIFrameInfo m text in Ok (ok, m, cut)
    end
  else Ok (false, m, save).

(** ** [LoadMapFromMemory] *)

(** Store the function just read; [cur_func] points to it in any case. *)
Definition add_function (m : BasicModule) (f : Func) : BasicModule * option func_ptr :=
  let p := length (func_heap m) in
  (set_functions m (StoreRange 64 (functions_ m) (func_address f) (func_size f) p).2 (func_heap m ++ [f]), Some p).

(** [cur_func->lines.StoreRange(...)]. *)
Definition add_line (m : BasicModule) (cur_func : func_ptr) (l : Line) : BasicModule :=
  set_functions m (functions_ m)
    (alter (λ f, set_lines f (StoreRange 64 (lines f) (line_address l) (line_size l) l).2) cur_func (func_heap m)).

(** What one record leaves: the module, [cur_func], whether an error was
    logged, and the text still to be read. *)
Definition parse_record (m : BasicModule) (cur_func : option func_ptr) (buffer : cstring)
    (after : option cstring) (save : cstring) : outcome (BasicModule * option func_ptr * bool * cstring) :=
  if starts_with (lit "FILE ") buffer then
    let '(ok, m) := Module_ParseFile m buffer in Ok (m, cur_func, negb ok, save)
  else if starts_with (lit "STACK ") buffer then
    '(ok, m, save) ← ParseStackInfo m buffer after save; Ok (m, cur_func, negb ok, save)
  else if starts_with (lit "FUNC ") buffer then
    match Module_ParseFunction buffer with
    | None => Ok (m, None, true, save)
    | Some f => let '(m, cur_func) := add_function m f in Ok (m, cur_func, false, save)
    end
  else if starts_with (lit "PUBLIC ") buffer then
    let '(ok, m) := Module_ParsePublicSymbol m buffer in Ok (m, None, negb ok, save)
  else if starts_with (lit "MODULE ") buffer then Ok (m, cur_func, false, save)
  else if starts_with (lit "INFO ") buffer then Ok (m, cur_func, false, save)
  else
    match cur_func with
    | None => Ok (m, cur_func, true, save)
    | Some p =>
        match Module_ParseLine buffer with
        | None => Ok (m, cur_func, true, save)
        | Some l => Ok (add_line m p l, cur_func, false, save)
        end
    end.

(** [strtok_r] with the delimiter that ends the token kept on the rest. *)
Definition next_token (s delim : cstring) : option (cstring * cstring) :=
  let '(_, s) := span (in_set delim) s in
  match s with
  | [] => None
  | _ => Some (span (λ c, negb (in_set delim c)) s)
  end.

(** The loop over the lines of the buffer, with the errors counted so far.
    [pad] is the memory after the terminator of the text. *)
Fixpoint load_loop (fuel : nat) (pad : option cstring) (m : BasicModule) (cur_func : option func_ptr)
    (num_errors : Z) (save : cstring) : outcome (BasicModule * Z) :=
  match fuel with
  | O => Ok (m, num_errors)
  | S fuel =>
      match next_token save CRLF with
      | None => Ok (m, num_errors)
      | Some (buffer, rest) =>
          let after := match rest with [] => pad | _ :: text => Some text end in
          '(m, cur_func, error, save) ← parse_record m cur_func buffer after (tail rest);
          let num_errors := if error : bool then (LogParseError num_errors).1 else num_errors in
          if kMaxErrorsBeforeBailing <? num_errors then Ok (m, num_errors)
          else load_loop fuel pad m cur_func num_errors save
      end
  end.

(** The loop that steps [last_null_terminator] back over NULs. *)
Fixpoint skip_nulls (memory_buffer : cstring) (last_null_terminator : nat) : nat :=
  match last_null_terminator with
  | O => O
  | S i => match memory_buffer !! i with
           | Some c => if code c =? 0 then skip_nulls memory_buffer i else S i
           | None => S i
           end
  end.

(** [LoadMapFromMemory], on the characters of the buffer. *)
Definition LoadMapFromMemory (m : BasicModule) (memory_buffer : cstring) : outcome (bool * BasicModule) :=
  let memory_buffer_size := length memory_buffer in
  if (memory_buffer_size =? 0)%nat then Ok (true, m) else
  let last_null_terminator := pred memory_buffer_size in
  let memory_buffer := <[last_null_terminator := NUL]> memory_buffer in
  let pad_start := last_null_terminator in
  let last_null_terminator := skip_nulls memory_buffer last_null_terminator in
  let pad := if (last_null_terminator <? pad_start)%nat then Some [] else None in
  let text := take last_null_terminator memory_buffer in
  let has_null_terminator_in_the_middle := existsb (λ c, code c =? 0) text in
  let text := (λ c, if code c =? 0 then chr 95 else c) <$> text in
  let num_errors := if has_null_terminator_in_the_middle then (LogParseError 0).1 else 0 in
  '(m, num_errors) ← load_loop (S (length text)) pad m None num_errors text;
  Ok (true, set_corrupt m (0 <? num_errors)).

(** ** Lookups *)

(** [address >= function_base && address - function_base < function_size]. *)
Definition in_function (address base size : Z) : bool :=
  (base <=? address) && (wrap 64 (address - base) <? size).

(** [LookupAddress], for a frame in a module loaded at [module_base]. *)
Definition LookupAddress (m : BasicModule) (module_base : Z) (frame : StackFrame) : outcome StackFrame :=
  let address := wrap 64 (instruction frame - module_base) in
  let nearest := RetrieveNearestRange 64 (functions_ m) address in
  match nearest with
  | Some x =>
      match func_heap m !! ret_entry x with
      | None => Undefined
      | Some func =>
          if in_function address (ret_base x) (ret_size x) then
            let frame := set_function frame (func_name func) (wrap 64 (module_base + ret_base x)) in
            match RetrieveRange 64 (lines func) address with
            | Some y =>
                let frame := match lookup_key (files_ m) (source_file_id (ret_entry y)) with
                             | Some name => set_file_name frame name
                             | None => frame
                             end in
                Ok (set_line frame (line (ret_entry y)) (wrap 64 (module_base + ret_base y)))
            | None => Ok frame
            end
          else
            match Retrieve (public_symbols_ m) address with
            | Some (public_symbol, public_address) =>
                if ret_base x <? public_address
                then Ok (set_function frame (pub_name public_symbol) (wrap 64 (module_base + public_address)))
                else Ok frame
            | None => Ok frame
            end
      end
  | None =>
      match Retrieve (public_symbols_ m) address with
      | Some (public_symbol, public_address) =>
          Ok (set_function frame (pub_name public_symbol) (wrap 64 (module_base + public_address)))
      | None => Ok frame
      end
  end.

(** [FindWindowsFrameInfo]; [Ok None] is NULL. *)
Definition retrieve_windows (m : BasicModule) (type address : Z) : option (option WindowsFrameInfo) :=
  match windows_frame_info_ m !! Z.to_nat type with
  | Some c => RetrieveContained c address
  | None => None
  end.

Definition FindWindowsFrameInfo (m : BasicModule) (module_base : Z) (frame : StackFrame)
  : outcome (option WindowsFrameInfo) :=
  let address := wrap 64 (instruction frame - module_base) in
  let result := WindowsFrameInfo_default in
  let frame_info := match retrieve_windows m STACK_INFO_FRAME_DATA address with
                    | Some fi => Some fi
                    | None => retrieve_windows m STACK_INFO_FPO address
                    end in
  match frame_info with
  | Some (Some fi) => Ok (Some (CopyFrom result fi))
  | Some None => Undefined
  | None =>
      match RetrieveNearestRange 64 (functions_ m) address with
      | Some x =>
          match func_heap m !! ret_entry x with
          | None => Undefined
          | Some function =>
              if in_function address (ret_base x) (ret_size x)
              then Ok (Some (set_parameter_size result (func_parameter_size function)))
              else Ok None
          end
      | None => Ok None
      end
  end.

(** [ParseCFIRuleSet], source_line_resolver_base.cc. *)
Definition ParseCFIRuleSet (rule_set : cstring) (frame_info : CFIFrameInfo) : bool * CFIFrameInfo :=
  Parse rule_set frame_info.

(** The loop over the delta rules. *)
Fixpoint apply_deltas (address : Z) (deltas : smap cstring) (rules : CFIFrameInfo) : CFIFrameInfo :=
  match deltas with
  | [] => rules
  | (first, delta) :: deltas =>
      if first <=? address then apply_deltas address deltas (ParseCFIRuleSet delta rules).2 else rules
  end.

(** [FindCFIFrameInfo]; [None] is NULL. *)
Definition FindCFIFrameInfo (m : BasicModule) (module_base : Z) (frame : StackFrame) : option CFIFrameInfo :=
  let address := wrap 64 (instruction frame - module_base) in
  match RetrieveRange 64 (cfi_initial_rules_ m) address with
  | None => None
  | Some x =>
      let '(ok, rules) := ParseCFIRuleSet (ret_entry x) CFIFrameInfo_new in
      if negb ok then None
      else Some (apply_deltas address
                   (drop (lower_bound (cfi_delta_rules_ m) (ret_base x)) (cfi_delta_rules_ m)) rules)
  end.
