(* ===== verification/BasicInvariant.v ===== *)
(** The invariant of the tables of [BasicSourceLineResolver::Module]
    (BasicResolver.v), which every record keeps. *)
From Stdlib Require Import Ascii.
From stdpp Require Import strings list.
From S2P Require Import Prelude StdMap RangeMap AddressMap ContainedRangeMap CStr StrMap MemoryRegion PostfixEvaluator CfiFrameInfo SymbolFile BasicResolver.

(** ** The invariant *)

(** A range entry holds an item with this address and size. *)
Definition spans (h : Z) {E} (r : Range E) (address size : Z) : Prop :=
  address = rbase r /\ size = h - rbase r + 1.

Definition lines_ok (l : RangeMap Line) : Prop :=
  rm_ok 64 l /\ enable_shrink_down l = false /\
  forall h r, (h, r) ∈ rmap l -> spans h r (line_address (rentry r)) (line_size (rentry r)).

Definition windows_ok (i : nat) (c : ContainedRangeMap (option WindowsFrameInfo)) : Prop :=
  crm_ok 64 c /\
  forall b h e, (b, h, e) ∈ ranges c -> exists fi, e = Some fi /\ type_ fi = Z.of_nat i /\ win_ok fi.

Record module_ok (m : BasicModule) : Prop := {
  mo_files : sorted (files_ m);
  mo_functions : rm_ok 64 (functions_ m);
  mo_shrink : enable_shrink_down (functions_ m) = false;
  mo_pointers : forall h r, (h, r) ∈ rmap (functions_ m) ->
    exists f, func_heap m !! rentry r = Some f /\ spans h r (func_address f) (func_size f);
  mo_lines : forall p f, func_heap m !! p = Some f -> lines_ok (lines f);
  mo_publics : sorted (amap (public_symbols_ m));
  mo_public : forall k p, (k, p) ∈ amap (public_symbols_ m) -> pub_address p = k /\ k <> 0;
  mo_windows : length (windows_frame_info_ m) = 5%nat;
  mo_window : forall i c, windows_frame_info_ m !! i = Some c -> windows_ok i c;
  mo_cfi : rm_ok 64 (cfi_initial_rules_ m);
  mo_cfi_shrink : enable_shrink_down (cfi_initial_rules_ m) = false;
  mo_deltas : sorted (cfi_delta_rules_ m)
}.

Lemma module_ok_new name : module_ok (BasicModule_new name).
Proof.
  constructor; simpl; try done; try apply rm_ok_new; try (by constructor); try (by intros ?? ?%not_elem_of_nil).
  intros i c Hc. change (replicate 5 (ContainedRangeMap_new (E := option WindowsFrameInfo) None) !! i = Some c) in Hc.
  apply lookup_replicate in Hc as [-> _].
  split; [apply crm_ok_new|]. by intros ??? ?%not_elem_of_nil.
Qed.

(** [StoreRange] without shrinking keeps what it has and adds at most the new range. *)
Lemma StoreRange_elem {E} (m : RangeMap E) base size e h r :
  rm_ok 64 m -> enable_shrink_down m = false -> fits 64 base -> fits 64 size ->
  (h, r) ∈ rmap (StoreRange 64 m base size e).2 ->
  (h, r) ∈ rmap m \/ (h = base + size - 1 /\ r = mkRange base 0 e).
Proof.
  intros Hok Hsd Hb Hs. rewrite StoreRange_plain by (done || lia). case_decide as Hd; [|by left].
  simpl. destruct Hd as (Hp & Hw & Hfree). intros Hin.
  destruct (lookup_key (rmap m) (base + size - 1)) as [v|] eqn:El.
  - apply lookup_key_Some in El; [|by apply (ok_sorted 64)].
    rewrite (insert_present _ _ _ v) in Hin by (done || by apply (ok_sorted 64)). by left.
  - rewrite lookup_key_None in El by (by apply (ok_sorted 64)).
    apply elem_of_insert in Hin as [[= -> ->]|Hin]; [by right|by left|by apply (ok_sorted 64)|done].
Qed.

Lemma StoreRange_shrink {E} (m : RangeMap E) base size e :
  rm_ok 64 m -> enable_shrink_down m = false -> fits 64 base -> fits 64 size ->
  enable_shrink_down (StoreRange 64 m base size e).2 = false.
Proof. intros. rewrite StoreRange_plain by (done || lia). by case_decide. Qed.

(** ** Every record keeps the invariant *)

Lemma files_ok m i n : module_ok m -> module_ok (set_files m (insert (files_ m) i n)).
Proof. intros []. constructor; simpl; auto with bp. Qed.

Lemma add_function_ok m f :
  module_ok m -> fits 64 (func_address f) -> fits 64 (func_size f) -> lines f = RangeMap_new ->
  module_ok (add_function m f).1.
Proof.
  intros [] Ha Hs Hl. constructor; simpl; try done.
  - by apply StoreRange_ok; [lia|..].
  - by apply StoreRange_shrink.
  - intros h r Hin. apply StoreRange_elem in Hin as [Hin|[-> ->]]; try done.
    + destruct (mo_pointers0 h r Hin) as (g & Hg & ?). exists g. split; [|done].
      by apply lookup_app_l_Some.
    + exists f. split; [|by unfold spans; simpl; lia]. simpl. by apply list_lookup_middle.
  - intros p g. rewrite lookup_app. destruct (func_heap m !! p) as [g'|] eqn:Eg.
    + intros [= <-]. by apply (mo_lines0 p).
    + intros Hg%list_lookup_singleton_Some. destruct Hg as [_ <-]. rewrite Hl.
      split_and!; [apply rm_ok_new|done|]. by intros ?? ?%not_elem_of_nil.
Qed.

Lemma add_line_ok m p l :
  module_ok m -> fits 64 (line_address l) -> fits 64 (line_size l) -> module_ok (add_line m p l).
Proof.
  intros [] Ha Hs. constructor; simpl; try done.
  - intros h r Hin. destruct (mo_pointers0 h r Hin) as (g & Hg & ?).
    destruct (decide (rentry r = p)) as [<-|Hne].
    + rewrite list_lookup_alter_eq, Hg. simpl. by eexists.
    + rewrite list_lookup_alter_ne by done. eauto.
  - intros q f. destruct (decide (q = p)) as [->|Hne].
    + rewrite list_lookup_alter_eq. destruct (func_heap m !! p) as [g|] eqn:Eg; [|done].
      intros [= <-]. destruct (mo_lines0 p g Eg) as (Hok & Hsd & Hsp). split_and!; simpl.
      * by apply StoreRange_ok; [lia|..].
      * by apply StoreRange_shrink.
      * intros h r Hin. apply StoreRange_elem in Hin as [Hin|[-> ->]]; try done; [by apply Hsp|].
        unfold spans. simpl. lia.
    + rewrite list_lookup_alter_ne by done. apply mo_lines0.
Qed.

Lemma publics_ok m a p :
  module_ok m -> a <> 0 -> pub_address p = a ->
  module_ok (set_publics m (Store (public_symbols_ m) a p).2).
Proof.
  intros [] Ha Hp. pose proof (Store_spec (public_symbols_ m) a p mo_publics0) as Hst.
  destruct (Store (public_symbols_ m) a p) as [ok m'] eqn:E. destruct Hst as (Hs & _ & Hf & Ht).
  constructor; simpl; try done.
  intros k q Hin. destruct ok; [|rewrite (Hf eq_refl) in Hin; auto].
  apply (Ht eq_refl) in Hin as [[= -> ->]|Hin]; auto.
Qed.

Lemma ParseCFIFrameInfo_ok m s : module_ok m -> module_ok (ParseCFIFrameInfo m s).2.
Proof.
  intros Hm. pose proof Hm as []. unfold ParseCFIFrameInfo.
  destruct (strtok_r s kWhitespace) as [[t|] c]; [|done]. dif.
  - destruct (strtok_r c kWhitespace) as [[a|] c1]; [|done].
    destruct (strtok_r c1 kWhitespace) as [[sz|] c2]; [|done].
    destruct (strtok_r c2 CRLF) as [[r|] c3]; [|done]. constructor; simpl; try done.
    + apply StoreRange_ok; [lia|done|apply strtoull_range; lia..].
    + apply StoreRange_shrink; [done..|apply strtoull_range; lia|apply strtoull_range; lia].
  - destruct (strtok_r c CRLF) as [[r|] c3]; [|done]. constructor; simpl; auto with bp.
Qed.

Lemma ParseStackWin_ok m s : module_ok m -> module_ok (ParseStackWin m s).2.
Proof.
  intros Hm. pose proof Hm as []. unfold ParseStackWin.
  destruct (ParseFromString s) as [[[[fi type] rva] size]|] eqn:Ep; [|done].
  apply ParseFromString_bounds in Ep as (-> & Hwin & Hr & Hs).
  destruct (windows_frame_info_ m !! Z.to_nat (type_ fi)) as [c|] eqn:Ec; [|done].
  destruct (mo_window0 _ _ Ec) as [Hc Hty]. constructor; simpl; try done.
  - by rewrite length_insert.
  - intros i c'. rewrite list_lookup_insert. case_decide as Hd; [|apply mo_window0].
    intros [= <-]. destruct Hd as [<- _].
    pose proof (StoreContained_spec 64 ltac:(lia) c rva size (Some fi) Hc Hr Hs) as Hst.
    destruct (StoreContained 64 c rva size (Some fi)) as [ok c'']. destruct Hst as (Hok & _ & Ht & Hf).
    split; [done|]. simpl. intros b h e Hin.
    destruct ok; [rewrite (Ht eq_refl) in Hin|rewrite (Hf eq_refl) in Hin; eauto].
    apply elem_of_cons in Hin as [[= -> -> ->]|Hin]; [|eauto].
    exists fi. split_and!; [done| |done]. destruct Hwin as [? _]. lia.
Qed.

Lemma ParseStackInfo_ok m l after save ok m' save' :
  module_ok m -> ParseStackInfo m l after save = Ok (ok, m', save') -> module_ok m'.
Proof.
  intros Hm. unfold ParseStackInfo. destruct (span _ (drop 6 l)) as [gap on].
  destruct (span _ on) as [platform rest].
  pose proof (λ s, ParseStackWin_ok m s Hm) as Hw. pose proof (λ s, ParseCFIFrameInfo_ok m s Hm) as Hc.
  destruct rest as [|c text]; [destruct after as [text|]|]; repeat dif; try done;
    try (by intros [= <- <- <-]); try specialize (Hw text); try specialize (Hc text);
    destruct (ParseStackWin m text), (ParseCFIFrameInfo m text); by intros [= <- <- <-].
Qed.

Lemma parse_record_ok m cur l after save m' cur' e save' :
  module_ok m -> parse_record m cur l after save = Ok (m', cur', e, save') -> module_ok m'.
Proof.
  intros Hm. unfold parse_record. dif.
  { unfold Module_ParseFile. destruct (ParseFile l) as [[i n]|]; intros [= <- <- <- <-]; [|done]. by apply files_ok. }
  dif.
  { destruct (ParseStackInfo m l after save) as [[[ok m1] s1]| |] eqn:Es; try done.
    intros [= <- <- <- <-]. by eapply ParseStackInfo_ok. }
  dif.
  { unfold Module_ParseFunction. destruct (ParseFunction l) as [[[[a s] p] n]|] eqn:Ep; [|by intros [= <- <- <- <-]].
    apply ParseFunction_bounds in Ep as (Ha & Hs & Hp & Hn). unfold ULLONG_MAX in *.
    pose proof (add_function_ok m (Func_new n a s p) Hm) as Haf. cbn [func_address func_size lines Func_new] in Haf.
    destruct (add_function m (Func_new n a s p)) as [m1 c1]. intros [= <- <- <- <-].
    apply Haf; unfold fits; try done; lia. }
  dif.
  { unfold Module_ParsePublicSymbol. destruct (ParsePublicSymbol l) as [[[a p] n]|]; [|by intros [= <- <- <- <-]].
    dif; [by intros [= <- <- <- <-]|].
    pose proof (publics_ok m a (PublicSymbol_new n a p) Hm E3 eq_refl) as Hpo.
    destruct (Store _ _ _) as [ok q]. by intros [= <- <- <- <-]. }
  dif; [by intros [= <- <- <- <-]|]. dif; [by intros [= <- <- <- <-]|].
  destruct cur as [p|]; [|by intros [= <- <- <- <-]]. unfold Module_ParseLine.
  destruct (ParseLine l) as [[[[a s] n] f]|] eqn:Ep; [|by intros [= <- <- <- <-]].
  apply ParseLine_bounds in Ep as (Ha & Hs & _). unfold ULLONG_MAX in *.
  intros [= <- <- <- <-]. apply add_line_ok; unfold fits; simpl; try done; lia.
Qed.

Lemma load_loop_ok fuel pad : forall m cur errs save m' errs',
  module_ok m -> load_loop fuel pad m cur errs save = Ok (m', errs') -> module_ok m'.
Proof.
  induction fuel as [|fuel IH]; intros m cur errs save m' errs' Hm; cbn [load_loop]; [by intros [= <- <-]|].
  destruct (next_token save CRLF) as [[l rest]|]; [|by intros [= <- <-]].
  destruct (parse_record _ _ _ _ _) as [[[[m1 cur1] e] save1]| |] eqn:Ep; try done.
  apply parse_record_ok in Ep; [|done]. cbn [mbind outcome_bind]. dif; [by intros [= <- <-]|]. by apply IH.
Qed.
