(* ===== verification/SymbolLoad.v ===== *)
(** What [LoadMapFromMemory] (BasicResolver.v) makes of a buffer: the records of
    a well-formed file applied in order, a well-formed module from any buffer,
    and the effect of a STACK record cut short. *)
From Stdlib Require Import Ascii.
From stdpp Require Import strings list.
From S2P Require Import Prelude StdMap RangeMap AddressMap ContainedRangeMap CStr StrMap MemoryRegion PostfixEvaluator CfiFrameInfo SymbolFile BasicResolver BasicInvariant.

(** ** Loading a file of well-formed records *)

(** What one record does to the module and to the current function, and
    whether it is an error. *)
Definition apply_record (m : BasicModule) (cur_func : option func_ptr) (r : record)
  : BasicModule * option func_ptr * bool :=
  match r with
  | ModuleRecord _ | InfoRecord _ => (m, cur_func, false)
  | FileRecord id name => (set_files m (insert (files_ m) (s32 id) name), cur_func, false)
  | FuncRecord address size param_size name =>
      (add_function m (Func_new name address size param_size), false)
  | LineRecord address size number file_id =>
      match cur_func with
      | Some p => (add_line m p (Line_new address size file_id number), cur_func, false)
      | None => (m, None, true)
      end
  | PublicRecord address param_size name =>
      if address =? 0 then (m, None, false)
      else let '(ok, p) := Store (public_symbols_ m) address (PublicSymbol_new name address param_size) in
           (set_publics m p, None, negb ok)
  | StackWinRecord info rva code_size =>
      (match windows_frame_info_ m !! Z.to_nat (type_ info) with
       | Some c => set_windows m (<[Z.to_nat (type_ info) := (StoreContained 64 c rva code_size (Some info)).2]>
                                    (windows_frame_info_ m))
       | None => m
       end, cur_func, false)
  | StackCfiInitRecord address size rules =>
      (set_cfi m (StoreRange 64 (cfi_initial_rules_ m) address size rules).2 (cfi_delta_rules_ m), cur_func, false)
  | StackCfiRecord address rules =>
      (set_cfi m (cfi_initial_rules_ m) (assign (cfi_delta_rules_ m) address rules), cur_func, false)
  end.

(** A sequence of records: the module and the number of errors; reading stops
    at the error that exceeds the limit. *)
Fixpoint apply_records (m : BasicModule) (cur_func : option func_ptr) (errors : Z) (rs : list record)
  : BasicModule * Z :=
  match rs with
  | [] => (m, errors)
  | r :: rs =>
      let '(m, cur_func, error) := apply_record m cur_func r in
      let errors := if error then errors + 1 else errors in
      if kMaxErrorsBeforeBailing <? errors then (m, errors) else apply_records m cur_func errors rs
  end.

(** Lines, each ended by a line feed. *)
Definition LF : ascii := chr 10.
Definition render (ls : list cstring) : cstring := concat ((λ l, l ++ [LF]) <$> ls).

Definition no_nul (s : cstring) : Prop := all (λ c, negb (code c =? 0)) s.

(** *** Where a printed record goes *)

Lemma starts_with_lower p s rest :
  match p with [] => False | c :: _ => lower_digit c = false end ->
  s <> [] -> all lower_digit s -> starts_with p (s ++ rest) = false.
Proof.
  destruct p as [|c p]; [done|]. intros Hc Hne Hs. destruct s as [|d s]; [done|].
  inversion Hs as [|? ? Hd _]; subst. simpl. destruct (Ascii.eqb c d) eqn:E; [|done].
  apply Ascii.eqb_eq in E as ->. congruence.
Qed.

Lemma strtok_field t d rest :
  is_field t -> in_set kWhitespace d = true -> strtok_r (t ++ d :: rest) kWhitespace = (Some t, rest).
Proof. intros [Hne Ht] Hd. rewrite strtok_token_here; [done..|]. cbn [stops]. by rewrite Hd. Qed.

Lemma strtok_text t : is_text t -> (strtok_r t CRLF).1 = Some t.
Proof. intros [Hne Ht]. rewrite <- (app_nil_r t) at 1. by rewrite strtok_token_here. Qed.

Lemma hex_not_INIT a : 0 <= a -> str_eqb (print_hex a) (lit "INIT") = false.
Proof.
  intros Ha. destruct (str_eqb _ _) eqn:E; [|done]. apply str_eqb_spec in E.
  pose proof (print_num_lower 16 a ltac:(lia) Ha) as Hl. fold (print_hex a) in Hl. rewrite E in Hl.
  by inversion Hl.
Qed.

Lemma ParseCFIFrameInfo_init m a s rules :
  fits 64 a -> fits 64 s -> is_text rules ->
  ParseCFIFrameInfo m (lit "INIT " ++ join ([print_hex a; print_hex s] ++ [rules])) =
  (true, set_cfi m (StoreRange 64 (cfi_initial_rules_ m) a s rules).2 (cfi_delta_rules_ m)).
Proof.
  intros Ha Hs Hr. unfold fits in *. unfold ParseCFIFrameInfo.
  change (lit "INIT " ++ join ([print_hex a; print_hex s] ++ [rules]))
    with (lit "INIT" ++ SP :: (print_hex a ++ SP :: (print_hex s ++ SP :: rules))).
  rewrite strtok_field; [|split; [done|by apply all_forallb]|done]. rewrite str_eqb_refl.
  rewrite strtok_field by (done || (apply hex_field; lia)).
  rewrite strtok_field by (done || (apply hex_field; lia)).
  pose proof (strtok_text rules Hr) as E. destruct (strtok_r rules CRLF) as [o c]. cbn [fst] in E. subst o.
  unfold print_hex. by rewrite !strtoull_print by (done || lia).
Qed.

Lemma ParseCFIFrameInfo_delta m a rules :
  fits 64 a -> is_text rules ->
  ParseCFIFrameInfo m (join ([print_hex a] ++ [rules])) =
  (true, set_cfi m (cfi_initial_rules_ m) (assign (cfi_delta_rules_ m) a rules)).
Proof.
  intros Ha Hr. unfold fits in *. unfold ParseCFIFrameInfo.
  change (join ([print_hex a] ++ [rules])) with (print_hex a ++ SP :: rules).
  rewrite strtok_field by (done || (apply hex_field; lia)). rewrite hex_not_INIT by lia.
  pose proof (strtok_text rules Hr) as E. destruct (strtok_r rules CRLF) as [o c]. cbn [fst] in E. subst o.
  unfold print_hex. by rewrite strtoull_print by (done || lia).
Qed.

Lemma ParseStackInfo_win m text after save :
  ParseStackInfo m (lit "STACK WIN " ++ text) after save =
  let '(ok, m) := ParseStackWin m text in Ok (ok, m, save).
Proof. done. Qed.

Lemma ParseStackInfo_cfi m text after save :
  ParseStackInfo m (lit "STACK CFI " ++ text) after save =
  let '(ok, m) := ParseCFIFrameInfo m text in Ok (ok, m, save).
Proof. done. Qed.

Lemma parse_record_print m cur r after save :
  record_ok r ->
  parse_record m cur (print_record r) after save =
  let '(m, cur, error) := apply_record m cur r in Ok (m, cur, error, save).
Proof.
  intros Hok. destruct r as [t|t|i n|a s p n|a s n f|a p n|info rva size|a s rules|a rules].
  - done.
  - done.
  - change (parse_record m cur (print_record (FileRecord i n)) after save)
      with (let '(ok, m) := Module_ParseFile m (print_record (FileRecord i n)) in Ok (m, cur, negb ok, save)).
    unfold Module_ParseFile. by rewrite ParseFile_print.
  - change (parse_record m cur (print_record (FuncRecord a s p n)) after save)
      with (match Module_ParseFunction (print_record (FuncRecord a s p n)) with
            | None => Ok (m, None, true, save)
            | Some f => let '(m, cur_func) := add_function m f in Ok (m, cur_func, false, save)
            end).
    unfold Module_ParseFunction. by rewrite ParseFunction_print.
  - assert (Hnot: forall pre, match pre with [] => False | c :: _ => lower_digit c = false end ->
      starts_with pre (print_record (LineRecord a s n f)) = false).
    { intros pre Hp. destruct Hok as (Ha & _). unfold print_record.
      change (join ([print_hex a; print_hex s; print_dec n] ++ [print_dec f]))
        with (print_hex a ++ SP :: join ([print_hex s; print_dec n] ++ [print_dec f])).
      apply starts_with_lower; [done| |apply print_num_lower; lia]. apply hex_field. lia. }
    unfold parse_record. rewrite !Hnot by done. unfold Module_ParseLine.
    rewrite ParseLine_print by done. cbn [apply_record]. by destruct cur.
  - change (parse_record m cur (print_record (PublicRecord a p n)) after save)
      with (let '(ok, m) := Module_ParsePublicSymbol m (print_record (PublicRecord a p n)) in
            Ok (m, @None func_ptr, negb ok, save)).
    unfold Module_ParsePublicSymbol. rewrite ParsePublicSymbol_print by done. cbn [apply_record].
    dif; [done|]. by destruct (Store _ _ _).
  - change (parse_record m cur (print_record (StackWinRecord info rva size)) after save)
      with ('(ok, m, save) ← ParseStackInfo m (lit "STACK WIN " ++ print_win info rva size) after save;
            Ok (m, cur, negb ok, save)).
    rewrite ParseStackInfo_win. unfold ParseStackWin. rewrite ParseFromString_print by done.
    cbn [apply_record]. by destruct (_ !! _).
  - destruct Hok as (Ha & Hs & Hr).
    change (parse_record m cur (print_record (StackCfiInitRecord a s rules)) after save)
      with ('(ok, m, save) ← ParseStackInfo m (lit "STACK CFI " ++ (lit "INIT " ++ join ([print_hex a; print_hex s] ++ [rules]))) after save;
            Ok (m, cur, negb ok, save)).
    rewrite ParseStackInfo_cfi, ParseCFIFrameInfo_init by done. done.
  - destruct Hok as (Ha & Hr).
    change (parse_record m cur (print_record (StackCfiRecord a rules)) after save)
      with ('(ok, m, save) ← ParseStackInfo m (lit "STACK CFI " ++ join ([print_hex a] ++ [rules])) after save;
            Ok (m, cur, negb ok, save)).
    rewrite ParseStackInfo_cfi, ParseCFIFrameInfo_delta by done. done.
Qed.

(** *** The loop over the lines *)

Lemma next_token_line l more : is_text l -> next_token (l ++ LF :: more) CRLF = Some (l, LF :: more).
Proof.
  intros [Hne Hl]. unfold next_token. destruct l as [|c l]; [done|].
  inversion Hl as [|? ? Hc _]; subst. cbn [app span]. rewrite (proj1 (negb_true_iff _) Hc).
  change (c :: l ++ LF :: more) with ((c :: l) ++ LF :: more). by rewrite span_app.
Qed.

Lemma is_text_app a b : is_text a -> all (λ c, negb (in_set CRLF c)) b -> is_text (a ++ b).
Proof. intros [Hne Ha] Hb. split; [by destruct a|]. by apply Forall_app. Qed.

Lemma is_text_join ts t : Forall is_field ts -> is_text t -> is_text (join (ts ++ [t])).
Proof.
  intros Hts Ht. split.
  - destruct Ht as [Ht _]. destruct ts as [|x [|y ts]]; [done|..]; inversion Hts as [|? ? [Hx _]]; subst;
      by destruct x.
  - apply join_chars; [done|]. apply Forall_app. split; [|constructor; [apply Ht|constructor]].
    eapply Forall_impl; [exact Hts|]. intros x Hx. by apply is_field_text.
Qed.

Ltac all_fields := repeat (apply Forall_cons; split; [first [apply hex_field|apply dec_field]; lia|]); apply Forall_nil_2.

Lemma print_record_text r : record_ok r -> is_text (print_record r).
Proof.
  intros Hok.
  assert (Hk: forall k t, forallb (λ c, negb (in_set CRLF c)) k = true -> k <> [] ->
    all (λ c, negb (in_set CRLF c)) t -> is_text (k ++ t)).
  { intros k t Hk Hne Ht. apply is_text_app; [|done]. split; [done|]. by apply all_forallb. }
  destruct r as [t|t|i n|a s p n|a s n f|a p n|info rva size|a s rules|a rules];
    cbn [record_ok] in Hok; unfold fits in Hok; try (apply Hk; [done|done|]).
  - done.
  - done.
  - destruct Hok as (? & ?). apply is_text_join; [all_fields|done].
  - destruct Hok as (? & ? & ? & ?). apply is_text_join; [all_fields|done].
  - destruct Hok as (? & ? & ? & ?). apply is_text_join; [all_fields|]. apply is_field_text, dec_field. lia.
  - destruct Hok as (? & ? & ?). apply is_text_join; [all_fields|done].
  - destruct Hok as ((? & _ & ? & ? & ? & ? & ? & ? & Hprog & _) & ? & ?). unfold fits, STACK_INFO_LAST in *.
    assert (Hflag: is_field (print_program info).1 /\ is_text (print_program info).2).
    { unfold print_program. destruct (program_string info).
      - split; [by split; [|apply all_forallb]|]. by destruct (allocates_base_pointer info); split; try apply all_forallb.
      - split; [by split; [|apply all_forallb]|by split]. }
    apply is_text_join; [|by destruct Hflag]. destruct Hflag as [Hf _].
    repeat (apply Forall_cons; split; [first [exact Hf|apply hex_field; lia]|]). apply Forall_nil_2.
  - destruct Hok as (? & ? & ?). apply is_text_join; [all_fields|done].
  - destruct Hok as (? & ?). apply is_text_join; [all_fields|done].
Qed.

Lemma render_cons l ls : render (l :: ls) = l ++ LF :: render ls.
Proof. unfold render. cbn [fmap list_fmap concat]. by rewrite <- app_assoc. Qed.

Lemma load_loop_records rs : forall fuel pad m cur errs,
  Forall record_ok rs -> (length rs < fuel)%nat ->
  load_loop fuel pad m cur errs (render (print_record <$> rs)) = Ok (apply_records m cur errs rs).
Proof.
  induction rs as [|r rs IH]; intros fuel pad m cur errs Hrs Hf.
  - destruct fuel; [simpl in Hf; lia|done].
  - inversion Hrs as [|? ? Hr Hrs']; subst. destruct fuel as [|fuel]; [simpl in Hf; lia|].
    cbn [fmap list_fmap]. rewrite render_cons. cbn [load_loop apply_records].
    rewrite next_token_line by (by apply print_record_text). cbn [tail].
    rewrite parse_record_print by done. destruct (apply_record m cur r) as [[m1 cur1] e].
    cbn [mbind outcome_bind LogParseError fst]. dif; [done|]. apply IH; [done|]. simpl in Hf. lia.
Qed.

Lemma skip_nulls_text text pad : no_nul text -> skip_nulls (text ++ pad) (length text) = length text.
Proof.
  intros Ht. destruct text as [|c text _] using rev_ind; [done|].
  rewrite length_app, Nat.add_1_r. cbn [skip_nulls].
  rewrite <- app_assoc. cbn [app]. rewrite list_lookup_middle by done.
  apply Forall_app in Ht as [_ Hc]. inversion Hc as [|? ? Hc' _]; subst.
  by rewrite (proj1 (negb_true_iff _) Hc').
Qed.

(** Loading a text that ends with one terminator and holds no other. *)
Lemma LoadMapFromMemory_text m text :
  no_nul text ->
  LoadMapFromMemory m (text ++ [NUL]) =
  ('(m, errs) ← load_loop (S (length text)) None m None 0 text; Ok (true, set_corrupt m (0 <? errs))).
Proof.
  intros Ht. unfold LoadMapFromMemory. rewrite length_app, Nat.add_1_r. cbn [Nat.eqb Nat.pred].
  rewrite insert_app_r_alt by lia. rewrite Nat.sub_diag. change (<[0%nat:=NUL]> [NUL]) with [NUL].
  rewrite skip_nulls_text by done. rewrite Nat.ltb_irrefl. rewrite take_app_length.
  assert (Hex: existsb (λ c, code c =? 0) text = false).
  { apply not_true_iff_false. rewrite existsb_exists. intros (c & Hin & Hc).
    unfold no_nul, all in Ht. rewrite Forall_forall in Ht. apply list_elem_of_In, Ht in Hin. by rewrite Hc in Hin. }
  rewrite Hex.
  assert (Hmap: ((λ c, if code c =? 0 then chr 95 else c) <$> text) = text).
  { clear Hex. induction Ht as [|c text Hc _ IH]; [done|]. cbn [fmap list_fmap]. rewrite IH.
    by rewrite (proj1 (negb_true_iff _) Hc). }
  by rewrite Hmap.
Qed.

Lemma no_nul_render ls : Forall no_nul ls -> no_nul (render ls).
Proof.
  induction 1 as [|l ls Hl _ IH]; [constructor|]. rewrite render_cons.
  apply Forall_app. split; [done|]. by constructor.
Qed.

Lemma render_length ls : (length ls <= length (render ls))%nat.
Proof.
  induction ls as [|l ls IH]; [done|]. rewrite render_cons, length_app. simpl. lia.
Qed.

Lemma LoadMapFromMemory_records (name : cstring) (rs : list record) :
  Forall record_ok rs -> Forall (λ r, no_nul (print_record r)) rs ->
  LoadMapFromMemory (BasicModule_new name) (render (print_record <$> rs) ++ [NUL]) =
  let '(m, errors) := apply_records (BasicModule_new name) None 0 rs in
  Ok (true, set_corrupt m (0 <? errors)).
Proof.
  intros Hrs Hnn. rewrite LoadMapFromMemory_text by (by apply no_nul_render, Forall_fmap).
  rewrite load_loop_records; [by destruct (apply_records _ _ _ _)|done|].
  pose proof (render_length (print_record <$> rs)) as Hl. rewrite length_fmap in Hl. lia.
Qed.

(** C5: loading the text of a sequence of well-formed records, ended by one
    terminator, gives exactly what applying the records in order gives; the
    load succeeds, and the module is corrupt iff some record was an error (a
    line without a function, or a second PUBLIC at an address). *)
Theorem symbol_file_load (name : cstring) (rs : list record) :
  Forall record_ok rs -> Forall (λ r, no_nul (print_record r)) rs ->
  LoadMapFromMemory (BasicModule_new name) (render (print_record <$> rs) ++ [NUL]) =
  let '(m, errors) := apply_records (BasicModule_new name) None 0 rs in
  Ok (true, set_corrupt m (0 <? errors)).
Proof. apply LoadMapFromMemory_records. Qed.

Definition example_records : list record :=
  [ModuleRecord (lit "Linux x86 ABCD a.out"); FileRecord 7 (lit "src/a b.c");
   FuncRecord 0x1000 0x20 8 (lit "main(int, char**)"); LineRecord 0x1000 0x10 12 7; LineRecord 0x1010 0x10 13 7;
   PublicRecord 0x2000 0 (lit "_start"); StackCfiInitRecord 0x1000 0x20 (lit ".cfa: $esp 4 + .ra: .cfa 4 - ^");
   StackCfiRecord 0x1001 (lit ".cfa: $esp 8 +")].

Lemma symbol_file_load_witness :
  match LoadMapFromMemory (BasicModule_new (lit "a.out")) (render (print_record <$> example_records) ++ [NUL]) with
  | Ok (ok, m) => ok && negb (is_corrupt_ m)
  | _ => false
  end = true.
Proof.
  rewrite (symbol_file_load (lit "a.out") example_records); [vm_compute; reflexivity|..].
  - repeat (apply Forall_cons; split; [|]); try apply Forall_nil_2;
      cbn [record_ok]; unfold fits, LONG_MAX, ULLONG_MAX, is_text;
      try split_and!; try done; try lia; by apply all_forallb.
  - repeat (apply Forall_cons; split; [by apply all_forallb|]). apply Forall_nil_2.
Defined.

(** ** Loading any buffer *)

(** A STACK WIN or STACK CFI record with nothing after the platform word. *)
Definition bare_stack (l : cstring) : Prop :=
  exists gap platform, l = lit "STACK " ++ gap ++ platform /\ all (Ascii.eqb SP) gap /\
    (platform = lit "WIN" \/ platform = lit "CFI").

(** The text a buffer holds: up to its trailing NULs, inner NULs replaced. *)
Definition symbol_text (memory_buffer : cstring) : cstring :=
  let last := pred (length memory_buffer) in
  let memory_buffer := <[last := NUL]> memory_buffer in
  (λ c, if code c =? 0 then chr 95 else c) <$> take (skip_nulls memory_buffer last) memory_buffer.

Lemma starts_with_app p s : starts_with p s = true -> s = p ++ drop (length p) s.
Proof.
  revert s. induction p as [|c p IH]; intros s; [done|]. destruct s as [|d s]; [done|]. simpl.
  intros [->%Ascii.eqb_eq Hs]%andb_true_iff. f_equal. by apply IH.
Qed.

Lemma ParseStackInfo_cases m l after save :
  match ParseStackInfo m l after save with
  | Ok (_, _, save') => save' = save \/ save' = first_token_only save kWhitespace
  | Fail => False
  | Undefined => after = None /\ (starts_with (lit "STACK ") l = true -> bare_stack l)
  end.
Proof.
  unfold ParseStackInfo. destruct (span _ (drop 6 l)) as [gap on] eqn:Eg.
  destruct (span _ on) as [platform rest] eqn:Ep.
  apply span_spec in Eg as (Hl & Hgap & _), Ep as (-> & _ & _).
  assert (Hbare: rest = [] -> platform = lit "WIN" \/ platform = lit "CFI" ->
    starts_with (lit "STACK ") l = true -> bare_stack l).
  { intros -> Hp Hs%starts_with_app. exists gap, platform. split_and!; [|done|done].
    rewrite Hs. change (length (lit "STACK ")) with 6%nat. by rewrite Hl, app_nil_r. }
  destruct rest as [|c text]; [destruct after as [text|]|]; repeat dif;
    try (destruct (ParseStackWin m text)); try (destruct (ParseCFIFrameInfo m text)); auto;
    (split; [done|]; apply Hbare; [done|]); [left|right]; by apply str_eqb_spec.
Qed.

Lemma parse_record_cases m cur l after save :
  match parse_record m cur l after save with
  | Ok (_, _, _, save') => save' = save \/ save' = first_token_only save kWhitespace
  | Fail => False
  | Undefined => after = None /\ bare_stack l
  end.
Proof.
  unfold parse_record. dif.
  { destruct (Module_ParseFile m l). by left. }
  dif.
  { pose proof (ParseStackInfo_cases m l after save) as H.
    destruct (ParseStackInfo m l after save) as [[[ok m'] s']| |]; cbn [mbind outcome_bind]; [done|done|].
    destruct H. auto. }
  dif.
  { destruct (Module_ParseFunction l) as [f|]; [|by left]. destruct (add_function m f). by left. }
  dif.
  { destruct (Module_ParsePublicSymbol m l). by left. }
  repeat (dif; [by left|]). destruct cur; [|by left]. destruct (Module_ParseLine l); by left.
Qed.

Lemma first_token_only_spec s delim :
  exists gap token rest, s = gap ++ token ++ rest /\ first_token_only s delim = gap ++ token /\
    all (in_set delim) gap /\ all (λ c, negb (in_set delim c)) token.
Proof.
  unfold first_token_only. destruct (span _ s) as [gap s'] eqn:Eg. destruct (span _ s') as [token rest] eqn:Et.
  apply span_spec in Eg as (-> & Hg & _), Et as (-> & Ht & _). by exists gap, token, rest.
Qed.

Lemma next_token_spec s delim l rest :
  next_token s delim = Some (l, rest) ->
  exists gap, s = gap ++ l ++ rest /\ (length rest < length s)%nat.
Proof.
  unfold next_token. destruct (span _ s) as [gap s'] eqn:Eg. destruct s' as [|c s']; [done|].
  intros [= Ht]. apply span_spec in Eg as (-> & _ & Hc). simpl in Hc.
  destruct (in_set delim c) eqn:E; [done|]. cbn [negb] in Ht.
  destruct (span _ s') as [a b] eqn:Es. injection Ht as <- <-. apply span_spec in Es as (-> & _ & _).
  exists gap. split; [done|]. rewrite length_app. simpl. rewrite length_app. lia.
Qed.

Lemma next_save_length delim save l rest (save' : cstring) :
  next_token save delim = Some (l, rest) ->
  save' = tail rest \/ save' = first_token_only (tail rest) kWhitespace -> (length save' < length save)%nat.
Proof.
  intros (gap & _ & Hlt)%next_token_spec Hs.
  assert (length (tail rest) <= length rest)%nat by (destruct rest; simpl; lia).
  destruct Hs as [->| ->]; [lia|].
  destruct (first_token_only_spec (tail rest) kWhitespace) as (g & t & r & E & -> & _).
  apply (f_equal length) in E. rewrite !length_app in *. lia.
Qed.

(** The loop ends: more fuel than there are characters changes nothing. *)
Lemma load_loop_enough n : forall k pad m cur errs save,
  (length save < n)%nat -> load_loop (k + n) pad m cur errs save = load_loop n pad m cur errs save.
Proof.
  induction n as [|n IH]; intros k pad m cur errs save Hn; [lia|].
  rewrite Nat.add_succ_r. cbn [load_loop]. destruct (next_token save CRLF) as [[l rest]|] eqn:En; [|done].
  set (after := match rest with [] => pad | _ :: text => Some text end).
  pose proof (parse_record_cases m cur l after (tail rest)) as Hc.
  destruct (parse_record m cur l after (tail rest)) as [[[[m1 cur1] e] s1]| |]; [|done|done].
  cbn [mbind outcome_bind]. dif; [done|]. apply IH.
  pose proof (next_save_length _ _ _ _ s1 En Hc). lia.
Qed.

(** No text of one token, white space before it, ends with a bare STACK record. *)
Lemma bare_not_token pre l gap token :
  pre ++ l = gap ++ token -> all (in_set kWhitespace) gap ->
  all (λ c, negb (in_set kWhitespace c)) token -> bare_stack l -> False.
Proof.
  intros E Hg Ht (sp & platform & -> & _).
  change (pre ++ lit "STACK " ++ sp ++ platform = gap ++ token) with
    (pre ++ chr 83 :: (lit "TACK" ++ SP :: sp ++ platform) = gap ++ token) in E.
  assert (Hin: SP ∈ token).
  { destruct (decide (length gap <= length pre)%nat) as [Hle|Hgt].
    - apply (f_equal (drop (length gap))) in E. rewrite drop_app_length, drop_app_le in E by done.
      rewrite <- E. rewrite !elem_of_app, elem_of_cons, elem_of_app, elem_of_cons. tauto.
    - apply (f_equal (lookup (length pre))) in E. rewrite list_lookup_middle in E by done.
      rewrite lookup_app_l in E by lia. symmetry in E. apply list_elem_of_lookup_2 in E.
      unfold all in Hg. rewrite Forall_forall in Hg. by apply Hg in E. }
  unfold all in Ht. rewrite Forall_forall in Ht. by apply Ht in Hin.
Qed.

Lemma load_loop_outcome fuel : forall pad m cur errs save,
  match load_loop fuel pad m cur errs save with
  | Ok _ => True
  | Fail => False
  | Undefined => pad = None /\ exists pre l, save = pre ++ l /\ bare_stack l
  end.
Proof.
  induction fuel as [|fuel IH]; intros pad m cur errs save; [done|]. cbn [load_loop].
  destruct (next_token save CRLF) as [[l rest]|] eqn:En; [|done].
  apply next_token_spec in En as (gap & -> & _).
  set (after := match rest with [] => pad | _ :: text => Some text end).
  pose proof (parse_record_cases m cur l after (tail rest)) as Hc.
  destruct (parse_record m cur l after (tail rest)) as [[[[m1 cur1] e] s1]| |]; [|done|].
  - cbn [mbind outcome_bind]. dif; [done|].
    match goal with |- match load_loop _ _ _ _ ?er _ with _ => _ end => specialize (IH pad m1 cur1 er s1) end.
    destruct (load_loop _ _ _ _ _ _) as [?| |]; [done|done|]. destruct IH as (Hpad & pre & l' & Hs & Hb).
    split; [done|]. destruct Hc as [-> | ->].
    + destruct rest as [|c rest]; simpl in Hs.
      * exfalso. symmetry in Hs. apply app_eq_nil in Hs as [_ ->]. by destruct Hb as (? & ? & ? & _).
      * exists (gap ++ l ++ c :: pre), l'. split; [|done]. rewrite Hs. by rewrite <- !app_assoc.
    + destruct (first_token_only_spec (tail rest) kWhitespace) as (g & t & r & _ & Et & Hg & Ht).
      exfalso. rewrite Et in Hs. by apply (bare_not_token pre l' g t).
  - cbn [mbind outcome_bind]. destruct Hc as [Ha Hb]. destruct rest; [|done]. split; [done|].
    exists gap, l. by rewrite app_nil_r.
Qed.

Lemma LoadMapFromMemory_loop m b :
  b <> [] -> exists pad errs,
    LoadMapFromMemory m b =
    ('(m, errs) ← load_loop (S (length (symbol_text b))) pad m None errs (symbol_text b);
     Ok (true, set_corrupt m (0 <? errs))).
Proof. intros Hb. unfold LoadMapFromMemory. destruct b; [done|]. by eexists _, _. Qed.

Lemma module_ok_corrupt m c : module_ok m -> module_ok (set_corrupt m c).
Proof. by intros []. Qed.

Lemma LoadMapFromMemory_outcome name memory_buffer :
  match LoadMapFromMemory (BasicModule_new name) memory_buffer with
  | Ok (ok, m) => ok = true /\ module_ok m
  | Fail => False
  | Undefined => exists pre l, symbol_text memory_buffer = pre ++ l /\ bare_stack l
  end.
Proof.
  destruct (decide (memory_buffer = [])) as [->|Hne]; [split; [done|]; apply module_ok_new|].
  destruct (LoadMapFromMemory_loop (BasicModule_new name) memory_buffer Hne) as (pad & errs & ->).
  pose proof (load_loop_outcome (S (length (symbol_text memory_buffer))) pad (BasicModule_new name) None errs
                (symbol_text memory_buffer)) as Hc.
  destruct (load_loop _ _ _ _ _ _) as [[m errs']| |] eqn:El; cbn [mbind outcome_bind]; [|done|by destruct Hc].
  split; [done|]. apply module_ok_corrupt. eapply load_loop_ok; [apply module_ok_new|exact El].
Qed.

(** C3: whatever the buffer, loading it ends, reports success, and leaves a module
    in which every table is well formed: the ranges of functions, of the lines of
    each function and of the CFI rules are disjoint and hold the items with these
    addresses, every function pointer is valid, each STACK WIN record is in the
    tree of its type.  The one exception is a text that ends with a STACK WIN or
    STACK CFI record that has nothing after the platform word, for which the
    parser can step past the end of the buffer. *)
Theorem load_map_from_memory (name memory_buffer : cstring) :
  match LoadMapFromMemory (BasicModule_new name) memory_buffer with
  | Ok (ok, m) => ok = true /\ module_ok m
  | Fail => False
  | Undefined => exists pre l, symbol_text memory_buffer = pre ++ l /\ bare_stack l
  end.
Proof.
  apply LoadMapFromMemory_outcome.
Qed.

(** The loop over the lines of a symbol file ends: with more turns than there
    are characters left, the result does not depend on their number. *)
Lemma load_loop_terminates fuel fuel' pad m cur errs (save : cstring) :
  (length save < fuel)%nat -> (length save < fuel')%nat ->
  load_loop fuel pad m cur errs save = load_loop fuel' pad m cur errs save.
Proof.
  intros H1 H2. replace fuel with ((fuel - S (length save)) + S (length save))%nat by lia.
  replace fuel' with ((fuel' - S (length save)) + S (length save))%nat by lia.
  by rewrite !load_loop_enough by lia.
Qed.

Lemma load_loop_terminates_witness :
  let text := lit "FUNC 1000 10 0 f" ++ [LF] in
  load_loop 20 None (BasicModule_new []) None 0 text = load_loop 40 None (BasicModule_new []) None 0 text.
Proof. apply load_loop_terminates; vm_compute; lia. Defined.

(** ** The bare STACK CFI record *)

(** After the record STACK CFI with nothing behind the platform word, the next
    line is read as its address and rules, cut at the end of its first word, and
    everything after that word is lost: the rest of the file has no effect. *)
Lemma bare_stack_cfi (m : BasicModule) (t rules post post' : cstring) :
  is_field t -> str_eqb t (lit "INIT") = false -> is_text rules ->
  no_nul (t ++ SP :: rules) -> no_nul post -> no_nul post' ->
  let file post := lit "STACK CFI" ++ LF :: t ++ SP :: rules ++ LF :: post ++ [NUL] in
  LoadMapFromMemory m (file post) = LoadMapFromMemory m (file post').
Proof.
  intros Ht Hni Hr Hn Hp Hp' file.
  assert (Hload: forall p, no_nul p -> LoadMapFromMemory m (file p) =
    let m' := set_cfi m (cfi_initial_rules_ m) (assign (cfi_delta_rules_ m) (strtoull t 16).1 rules) in
    '(m, errs) ← load_loop (S (length t)) None m' None 0 t; Ok (true, set_corrupt m (0 <? errs))).
  { intros p Hpn. unfold file.
    replace (lit "STACK CFI" ++ LF :: t ++ SP :: rules ++ LF :: p ++ [NUL])
      with ((lit "STACK CFI" ++ LF :: t ++ SP :: rules ++ LF :: p) ++ [NUL]) by (by rewrite <- !app_assoc; simpl; rewrite <- !app_assoc; simpl; rewrite <- !app_assoc).
    set (save := t ++ SP :: rules ++ LF :: p).
    assert (Hnn: no_nul (lit "STACK CFI" ++ LF :: save)).
    { apply Forall_app. split; [by apply all_forallb|]. constructor; [done|]. unfold save.
      change (no_nul (t ++ SP :: rules ++ LF :: p)). rewrite app_comm_cons, app_assoc. apply Forall_app. split; [done|].
      by constructor. }
    rewrite LoadMapFromMemory_text by done. cbn [load_loop].
    rewrite next_token_line by (split; [done|by apply all_forallb]). cbn [tail].
    change (parse_record m None (lit "STACK CFI") (Some save) save)
      with ('(ok, m, s) ← (let '(ok, m) := ParseCFIFrameInfo m save in Ok (ok, m, first_token_only save kWhitespace));
            Ok (m, @None func_ptr, negb ok, s)).
    assert (Hparse: ParseCFIFrameInfo m save =
      (true, set_cfi m (cfi_initial_rules_ m) (assign (cfi_delta_rules_ m) (strtoull t 16).1 rules))).
    { unfold ParseCFIFrameInfo, save. rewrite strtok_field by done. rewrite Hni.
      destruct Hr as [Hne Hr]. by rewrite strtok_token_here. }
    assert (Hcut: first_token_only save kWhitespace = t).
    { unfold first_token_only, save. destruct Ht as [Hne Ht].
      pose proof (span_app (in_set kWhitespace) [] (t ++ SP :: rules ++ LF :: p)) as Hs. cbn [app] in Hs. rewrite Hs.
      - by rewrite span_app.
      - constructor.
      - destruct t as [|c t]; [done|]. inversion Ht as [|? ? Hc _]; subst. by apply negb_true_iff. }
    rewrite Hparse, Hcut. cbn [mbind outcome_bind negb LogParseError]. cbv zeta.
    change (kMaxErrorsBeforeBailing <? 0) with false. cbn iota.
    assert (Hlen: (S (length t) <= length (lit "STACK CFI" ++ LF :: save))%nat).
    { unfold save. rewrite length_app. simpl. rewrite length_app. lia. }
    replace (length (lit "STACK CFI" ++ LF :: save))
      with ((length (lit "STACK CFI" ++ LF :: save) - S (length t)) + S (length t))%nat by lia.
    by rewrite load_loop_enough by lia. }
  by rewrite (Hload post Hp), (Hload post' Hp').
Qed.

Lemma bare_stack_cfi_witness :
  let file post := lit "STACK CFI" ++ LF :: lit "FUNC" ++ SP :: lit "1000 10 0 f" ++ LF :: post ++ [NUL] in
  LoadMapFromMemory (BasicModule_new []) (file (lit "FUNC 2000 10 0 g" ++ [LF])) =
  LoadMapFromMemory (BasicModule_new []) (file []).
Proof.
  apply (bare_stack_cfi (BasicModule_new []) (lit "FUNC") (lit "1000 10 0 f")); try done;
    try (split; [done|]); try (by apply all_forallb); by constructor.
Defined.
