(* ===== verification/ResolverLookup.v ===== *)
(** What the lookups of [BasicSourceLineResolver::Module] (BasicResolver.v) find
    in a well-formed module. *)
From Stdlib Require Import Ascii.
From stdpp Require Import strings list.
From S2P Require Import Prelude StdMap RangeMap AddressMap ContainedRangeMap CStr StrMap MemoryRegion PostfixEvaluator CfiFrameInfo SymbolFile BasicResolver BasicInvariant SymbolLoad.

(** ** Lookups *)

(** The FUNC range [h], [r] covers address [a] and belongs to [f]. *)
Definition function_at (m : BasicModule) (a h : Z) (r : Range func_ptr) (f : Func) : Prop :=
  (h, r) ∈ rmap (functions_ m) /\ covers h r a /\ func_heap m !! rentry r = Some f.

(** [p] is the last PUBLIC symbol up to [a], and no function starts between it and [a]. *)
Definition public_at (m : BasicModule) (a k : Z) (p : PublicSymbol) : Prop :=
  (k, p) ∈ amap (public_symbols_ m) /\ k <= a /\
  (forall k' p', (k', p') ∈ amap (public_symbols_ m) -> k' <= a -> k' <= k) /\
  (forall h r, (h, r) ∈ rmap (functions_ m) -> rbase r <= a -> rbase r < k).

(** What [RetrieveNearestRange] gives on the functions. *)
Lemma nearest_function m a :
  module_ok m -> fits 64 a ->
  match RetrieveNearestRange 64 (functions_ m) a with
  | Some x => exists h r f, (h, r) ∈ rmap (functions_ m) /\ func_heap m !! ret_entry x = Some f /\
      rbase r <= a /\ ret_base x = rbase r /\ rentry r = ret_entry x /\ func_address f = rbase r /\
      in_function a (ret_base x) (ret_size x) = (a <=? h) /\
      (h < a -> (forall h' r' f', ~ function_at m a h' r' f') /\
                (forall h' r', (h', r') ∈ rmap (functions_ m) -> rbase r' <= a -> rbase r' <= rbase r))
  | None => forall h r, (h, r) ∈ rmap (functions_ m) -> a < rbase r
  end.
Proof.
  intros [] Hfit. pose proof (RetrieveNearestRange_spec 64 ltac:(lia) (functions_ m) a mo_functions) as Hn.
  destruct (RetrieveNearestRange _ _ _) as [x|]; [|done].
  destruct Hn as (h & r & Hin & -> & Hle & Hcase).
  destruct (mo_pointers h r Hin) as (f & Hf & Ha & _). exists h, r, f.
  pose proof (ok_range 64 _ mo_functions h r Hin) as (Hd & Hb & Hsz).
  cbn [copy_out ret_base ret_size ret_entry].
  assert (Hsize: wrap 64 (wrap 64 (h - rbase r) + 1) = h - rbase r + 1).
  { rewrite (wrap_small 64 (h - rbase r)) by (unfold fits; lia). apply wrap_small. unfold fits. lia. }
  split_and!; try done.
  - rewrite Hsize. unfold in_function. rewrite (proj2 (Z.leb_le _ _)) by done. cbn [andb].
    destruct (a <=? h) eqn:E; breflect.
    + rewrite wrap_small by (unfold fits; lia). apply Z.ltb_lt. lia.
    + apply Z.ltb_ge. unfold fits in *. rewrite wrap_small by (unfold fits; lia). lia.
  - intros Hlt. destruct Hcase as [|[Hnone Hmax]]; [lia|]. split.
    + intros h' r' f' (Hin' & Hc & _). by eapply Hnone.
    + intros h' r' Hin' Hle'. pose proof (Hmax _ _ Hin' Hle') as Hhh.
      destruct (decide (h' = h)) as [->|Hne].
      * rewrite (sorted_functional _ _ _ _ (ok_sorted 64 _ mo_functions) Hin' Hin). done.
      * pose proof (ok_disjoint 64 _ mo_functions h' r' h r Hin' Hin ltac:(lia)).
        pose proof (ok_range 64 _ mo_functions h' r' Hin'). lia.
Qed.

Lemma function_at_unique m a h r f h' r' f' :
  module_ok m -> function_at m a h r f -> function_at m a h' r' f' -> h' = h /\ r' = r /\ f' = f.
Proof.
  intros [] (Hin & Hc & Hf) (Hin' & Hc' & Hf').
  destruct (covers_unique 64 (functions_ m) a h r h' r') as [-> ->]; try done. split_and!; congruence.
Qed.

(** [lim] is the greatest start of a function up to [a]. *)
Definition last_start (m : BasicModule) (a : Z) (lim : option Z) : Prop :=
  match lim with
  | None => forall h r, (h, r) ∈ rmap (functions_ m) -> a < rbase r
  | Some b => (exists h r, (h, r) ∈ rmap (functions_ m) /\ rbase r = b /\ b <= a) /\
              forall h r, (h, r) ∈ rmap (functions_ m) -> rbase r <= a -> rbase r <= b
  end.

(** The PUBLIC symbol the lookup takes. *)
Definition take_public (m : BasicModule) (a : Z) (lim : option Z) : option (PublicSymbol * Z) :=
  match Retrieve (public_symbols_ m) a with
  | Some (p, k) => if match lim with None => true | Some b => b <? k end then Some (p, k) else None
  | None => None
  end.

Lemma take_public_spec m a lim k p :
  module_ok m -> last_start m a lim -> public_at m a k p <-> take_public m a lim = Some (p, k).
Proof.
  intros [] Hlim. unfold public_at, take_public. split.
  - intros (Hin & Hle & Hmax & Hno). rewrite (proj2 (Retrieve_Some (public_symbols_ m) a p k mo_publics)) by done.
    destruct lim as [b|]; [|done]. destruct Hlim as [(h & r & Hr & <- & Hb) _].
    by rewrite (proj2 (Z.ltb_lt _ _)) by eauto.
  - destruct (Retrieve (public_symbols_ m) a) as [[p' k']|] eqn:Er; [|done].
    rewrite Retrieve_Some in Er by done. destruct lim as [b|]; simpl in Hlim.
    + destruct (b <? k') eqn:E; [|done]. breflect. intros [= <- <-]. destruct Hlim as [_ Hlim].
      destruct Er as (? & ? & ?). split_and!; try done. intros h r Hr Hle. pose proof (Hlim _ _ Hr Hle). lia.
    + intros [= <- <-]. destruct Er as (? & ? & ?). split_and!; try done.
      intros h r Hr Hle. pose proof (Hlim _ _ Hr). lia.
Qed.

(** The PUBLIC half of [LookupAddress]. *)
Definition with_public (module_base : Z) (frame : StackFrame) (p : option (PublicSymbol * Z)) : StackFrame :=
  match p with
  | Some (p, k) => set_function frame (pub_name p) (wrap 64 (module_base + k))
  | None => frame
  end.

(** Its other half. *)
Definition with_function (m : BasicModule) (module_base a : Z) (frame : StackFrame) (f : Func) : StackFrame :=
  let frame := set_function frame (func_name f) (wrap 64 (module_base + func_address f)) in
  match RetrieveRange 64 (lines f) a with
  | Some y =>
      let frame := match lookup_key (files_ m) (source_file_id (ret_entry y)) with
                   | Some name => set_file_name frame name
                   | None => frame
                   end in
      set_line frame (line (ret_entry y)) (wrap 64 (module_base + ret_base y))
  | None => frame
  end.

Lemma LookupAddress_cases m module_base frame :
  module_ok m ->
  let a := wrap 64 (instruction frame - module_base) in
  (exists h r f, function_at m a h r f /\
     LookupAddress m module_base frame = Ok (with_function m module_base a frame f)) \/
  ((forall h r f, ~ function_at m a h r f) /\ exists lim, last_start m a lim /\
     LookupAddress m module_base frame = Ok (with_public module_base frame (take_public m a lim))).
Proof.
  intros Hm a. assert (Hfit: fits 64 a) by (apply wrap_fits; lia).
  pose proof (nearest_function m a Hm Hfit) as Hn. unfold LookupAddress. fold a.
  destruct (RetrieveNearestRange 64 (functions_ m) a) as [x|].
  - destruct Hn as (h & r & f & Hin & Hf & Hle & Hb & He & Ha & Hfn & Hout). rewrite Hf, Hfn.
    destruct (a <=? h) eqn:E; breflect.
    + left. exists h, r, f. split; [split_and!; [done|by split|by rewrite He]|].
      unfold with_function. rewrite Ha, Hb. by destruct (RetrieveRange 64 (lines f) a).
    + right. destruct (Hout ltac:(lia)) as [Hno Hmax]. split; [done|]. exists (Some (rbase r)). split.
      * split; [by exists h, r|]. intros h' r' Hin' Hle'. by apply (Hmax h' r').
      * unfold take_public. rewrite Hb. destruct (Retrieve (public_symbols_ m) a) as [[p k]|]; [|done]. by dif.
  - right. split.
    + intros h r f (Hin & [Hc _] & _). apply Hn in Hin. lia.
    + exists None. split; [done|]. unfold take_public. by destruct (Retrieve (public_symbols_ m) a) as [[p k]|].
Qed.

(** C7: [LookupAddress] on a well-formed module.  A function that covers the
    address gives the frame its name and base, and the line of it that covers the
    address the line, its base and -- when the file is known -- its name.  Without
    such a function the last PUBLIC symbol up to the address gives the name and base,
    unless a function starts in between; the source fields stay as they were. *)
Theorem lookup_address (m : BasicModule) (module_base : Z) (frame : StackFrame) :
  module_ok m ->
  let a := wrap 64 (instruction frame - module_base) in
  exists frame', LookupAddress m module_base frame = Ok frame' /\ instruction frame' = instruction frame /\
    (forall h r f, function_at m a h r f ->
      function_name frame' = func_name f /\ function_base frame' = wrap 64 (module_base + func_address f) /\
      match RetrieveRange 64 (lines f) a with
      | Some y =>
          exists lh lr, (lh, lr) ∈ rmap (lines f) /\ covers lh lr a /\
          source_line frame' = line (rentry lr) /\
          source_line_base frame' = wrap 64 (module_base + line_address (rentry lr)) /\
          source_file_name frame' = default (source_file_name frame) (lookup_key (files_ m) (source_file_id (rentry lr)))
      | None =>
          (forall lh lr, (lh, lr) ∈ rmap (lines f) -> ~ covers lh lr a) /\
          source_line frame' = source_line frame /\ source_line_base frame' = source_line_base frame /\
          source_file_name frame' = source_file_name frame
      end) /\
    ((forall h r f, ~ function_at m a h r f) ->
      source_line frame' = source_line frame /\ source_line_base frame' = source_line_base frame /\
      source_file_name frame' = source_file_name frame /\
      (forall k p, public_at m a k p ->
        function_name frame' = pub_name p /\ function_base frame' = wrap 64 (module_base + pub_address p)) /\
      ((forall k p, ~ public_at m a k p) ->
        function_name frame' = function_name frame /\ function_base frame' = function_base frame)).
Proof.
  intros Hm a. destruct (LookupAddress_cases m module_base frame Hm) as [(h & r & f & Hat & E)|(Hno & lim & Hlim & E)];
    fold a in Hat || fold a in Hno, Hlim, E; rewrite E; eexists; (split; [reflexivity|]).
  - fold a. unfold with_function. split_and!.
    + destruct (RetrieveRange _ _ _) as [y|]; [|done]. by destruct (lookup_key _ _).
    + intros h' r' f' Hat'. destruct (function_at_unique m a h r f h' r' f' Hm Hat Hat') as (-> & -> & ->).
      destruct Hat as (_ & _ & Hf). destruct (mo_lines m Hm _ _ Hf) as (Hok & _ & Hsp).
      destruct (RetrieveRange 64 (lines f) a) as [y|] eqn:Ey.
      * rewrite RetrieveRange_Some in Ey by (done || lia). destruct Ey as (lh & lr & Hin & Hc & ->).
        destruct (Hsp _ _ Hin) as [Hla _]. cbn [copy_out ret_entry ret_base].
        split_and!; [by destruct (lookup_key _ _)..|]. exists lh, lr. rewrite Hla.
        by destruct (lookup_key _ _).
      * rewrite RetrieveRange_None in Ey by (done || lia). by split_and!.
    + intros Hno. by apply Hno in Hat.
  - unfold with_public. split_and!.
    + by destruct (take_public m a lim) as [[p k]|].
    + intros h r f Hat. by apply Hno in Hat.
    + intros _. destruct (take_public m a lim) as [[p k]|] eqn:Et.
      * pose proof (proj2 (take_public_spec m a lim k p Hm Hlim) Et) as Hp.
        split_and!; try done.
        -- intros k' p' Hp'%(take_public_spec m a lim k' p' Hm Hlim). rewrite Et in Hp'. injection Hp' as <- <-.
           destruct Hp as (Hin & _). by destruct (mo_public m Hm _ _ Hin) as [-> _].
        -- intros Hn. by apply Hn in Hp.
      * split_and!; try done. intros k p Hp%(take_public_spec m a lim k p Hm Hlim). by rewrite Et in Hp.
Qed.

Lemma FindWindowsFrameInfo_spec (m : BasicModule) (module_base : Z) (frame : StackFrame) :
  module_ok m ->
  let a := wrap 64 (instruction frame - module_base) in
  exists frame_data fpo result,
    windows_frame_info_ m !! 4%nat = Some frame_data /\ windows_frame_info_ m !! 0%nat = Some fpo /\
    FindWindowsFrameInfo m module_base frame = Ok result /\
    ((exists fi, innermost (ranges frame_data) a (Some fi) /\ type_ fi = STACK_INFO_FRAME_DATA /\ result = Some fi) \/
     (forall b h e, (b, h, e) ∈ ranges frame_data -> ~ b <= a <= h) /\
     ((exists fi, innermost (ranges fpo) a (Some fi) /\ type_ fi = STACK_INFO_FPO /\ result = Some fi) \/
      (forall b h e, (b, h, e) ∈ ranges fpo -> ~ b <= a <= h) /\
      ((exists h r f fi, function_at m a h r f /\ result = Some fi /\ valid fi = VALID_PARAMETER_SIZE /\
          parameter_size fi = u32 (func_parameter_size f)) \/
       (forall h r f, ~ function_at m a h r f) /\ result = None))).
Proof.
  intros Hm a. pose proof Hm as [].
  assert (Hget: forall i, (i < 5)%nat -> exists c, windows_frame_info_ m !! i = Some c /\ windows_ok i c /\
    ((exists fi, RetrieveContained c a = Some (Some fi) /\ innermost (ranges c) a (Some fi) /\ type_ fi = Z.of_nat i) \/
     RetrieveContained c a = None /\ forall b h e, (b, h, e) ∈ ranges c -> ~ b <= a <= h)).
  { intros i Hi. rewrite <- mo_windows in Hi. apply lookup_lt_is_Some in Hi as [c Hc]. exists c.
    destruct (mo_window i c Hc) as [Hok Hty]. split_and!; [done|by split|].
    pose proof (RetrieveContained_spec 64 c a Hok) as Hr. destruct (RetrieveContained c a) as [e|]; [left|by right].
    pose proof Hr as (b & h & Hin & _). destruct (Hty _ _ _ Hin) as (fi & -> & ? & _). by exists fi. }
  destruct (Hget 4%nat ltac:(lia)) as (fd & Hfd & _ & Hfdc), (Hget 0%nat ltac:(lia)) as (fpo & Hfpo & _ & Hfpoc).
  clear Hget. exists fd, fpo. unfold FindWindowsFrameInfo. fold a.
  unfold retrieve_windows, STACK_INFO_FRAME_DATA, STACK_INFO_FPO.
  change (Z.to_nat 4) with 4%nat. change (Z.to_nat 0) with 0%nat. rewrite Hfd, Hfpo.
  destruct Hfdc as [(fi & -> & Hin & Hty)|[-> Hno]].
  { exists (Some fi). split_and!; [done..|by destruct fi|]. left. by exists fi. }
  destruct Hfpoc as [(fi & -> & Hin & Hty)|[-> Hno0]].
  { exists (Some fi). split_and!; [done..|by destruct fi|]. right. split; [done|]. left. by exists fi. }
  pose proof (nearest_function m a Hm ltac:(apply wrap_fits; lia)) as Hn.
  destruct (RetrieveNearestRange 64 (functions_ m) a) as [x|].
  - destruct Hn as (h & r & f & Hin & Hf & Hle & Hb & He & Ha & Hfn & Hout). rewrite Hf, Hfn.
    destruct (a <=? h) eqn:E; breflect; eexists; split_and!; try done.
    + right. split; [done|]. right. split; [done|]. left. exists h, r, f. eexists.
      split; [split_and!; [done|by split|by rewrite He]|]. by split_and!.
    + right. split; [done|]. right. split; [done|]. right. destruct (Hout ltac:(lia)). by split.
  - exists None. split_and!; try done. right. split; [done|]. right. split; [done|]. right. split; [|done].
    intros h r f (Hin & [Hc _] & _). apply Hn in Hin. lia.
Qed.

Lemma FindWindowsFrameInfo_defined m module_base frame :
  module_ok m -> exists result, FindWindowsFrameInfo m module_base frame = Ok result.
Proof. intros Hm. destruct (FindWindowsFrameInfo_spec m module_base frame Hm) as (_ & _ & r & _ & _ & E & _). by exists r. Qed.

(** [FindWindowsFrameInfo] on a well-formed module: the innermost STACK WIN
    record of frame data that covers the address; else the innermost FPO record;
    else, inside a function, an info of which only the parameter size is valid,
    that of the function; else nothing. *)
Lemma find_windows_frame_info (m : BasicModule) (module_base : Z) (frame : StackFrame) :
  module_ok m ->
  let a := wrap 64 (instruction frame - module_base) in
  exists frame_data fpo result,
    windows_frame_info_ m !! 4%nat = Some frame_data /\ windows_frame_info_ m !! 0%nat = Some fpo /\
    FindWindowsFrameInfo m module_base frame = Ok result /\
    ((exists fi, innermost (ranges frame_data) a (Some fi) /\ type_ fi = STACK_INFO_FRAME_DATA /\ result = Some fi) \/
     (forall b h e, (b, h, e) ∈ ranges frame_data -> ~ b <= a <= h) /\
     ((exists fi, innermost (ranges fpo) a (Some fi) /\ type_ fi = STACK_INFO_FPO /\ result = Some fi) \/
      (forall b h e, (b, h, e) ∈ ranges fpo -> ~ b <= a <= h) /\
      ((exists h r f fi, function_at m a h r f /\ result = Some fi /\ valid fi = VALID_PARAMETER_SIZE /\
          parameter_size fi = u32 (func_parameter_size f)) \/
       (forall h r f, ~ function_at m a h r f) /\ result = None))).
Proof. apply FindWindowsFrameInfo_spec. Qed.

(** The delta rules for an address in an INIT range that starts at [base]. *)
Definition deltas_between (m : BasicModule) (base a : Z) : smap cstring :=
  filter (λ kv, base <= kv.1 <= a) (cfi_delta_rules_ m).

Definition apply_delta (i : CFIFrameInfo) (kv : Z * cstring) : CFIFrameInfo := (ParseCFIRuleSet kv.2 i).2.

Lemma apply_deltas_filter a l : forall i,
  sorted l -> apply_deltas a l i = foldl apply_delta i (filter (λ kv, kv.1 <= a) l).
Proof.
  induction l as [|[k d] l IH]; intros i Hs; [done|]. apply sorted_cons in Hs as [Hlt Hs]. cbn [apply_deltas].
  destruct (k <=? a) eqn:E; breflect.
  - rewrite filter_cons_True by done. cbn [foldl]. by rewrite IH.
  - rewrite filter_cons_False by (simpl; lia).
    assert (Hf: filter (λ kv : Z * cstring, kv.1 <= a) l = []); [|by rewrite Hf].
    clear IH. induction l as [|[k1 d1] l IHl]; [done|]. rewrite filter_cons_False.
    + apply sorted_cons in Hs as [_ Hs]. apply IHl; [|done]. intros k' v' Hin. apply (Hlt k' v'). by right.
    + simpl. specialize (Hlt k1 d1 ltac:(left)). lia.
Qed.

Lemma filter_lower_bound (l : smap cstring) base a :
  sorted l -> filter (λ kv, kv.1 <= a) (drop (lower_bound l base) l) = filter (λ kv, base <= kv.1 <= a) l.
Proof.
  intros Hs. destruct (lower_bound_split l base Hs) as [H1 H2].
  rewrite <- (take_drop (lower_bound l base) l) at 3. rewrite filter_app.
  assert (Ht: forall t : smap cstring, (forall k v, (k, v) ∈ t -> k < base) -> filter (λ kv : Z * cstring, base <= kv.1 <= a) t = []).
  { induction t as [|[k v] t IH]; intros Hk; [done|]. rewrite filter_cons_False.
    - apply IH. intros k' v' Hin. apply (Hk k' v'). by right.
    - simpl. specialize (Hk k v ltac:(left)). lia. }
  rewrite (Ht (take _ _) H1). cbn [app].
  revert H2. generalize (drop (lower_bound l base) l) as t. clear. induction t as [|[k v] t IH]; intros Hk; [done|].
  assert (base <= k) by (apply (Hk k v); left). rewrite !filter_cons. cbn [fst].
  rewrite IH by (intros k' v' Hin; apply (Hk k' v'); by right).
  repeat case_decide; done || lia.
Qed.

(** [FindCFIFrameInfo] on a well-formed module: no STACK CFI INIT range covers
    the address, or its rules do not parse, and there is none; else it is what the
    INIT rules give, updated by the delta rules from the start of the range up to
    the address, in address order. *)
Lemma find_cfi_frame_info (m : BasicModule) (module_base : Z) (frame : StackFrame) :
  module_ok m ->
  let a := wrap 64 (instruction frame - module_base) in
  match FindCFIFrameInfo m module_base frame with
  | Some i =>
      exists h r i0, (h, r) ∈ rmap (cfi_initial_rules_ m) /\ covers h r a /\
        Parse (rentry r) CFIFrameInfo_new = (true, i0) /\
        i = foldl apply_delta i0 (deltas_between m (rbase r) a)
  | None =>
      forall h r, (h, r) ∈ rmap (cfi_initial_rules_ m) -> covers h r a ->
        (Parse (rentry r) CFIFrameInfo_new).1 = false
  end.
Proof.
  intros [] a. unfold FindCFIFrameInfo. fold a.
  destruct (RetrieveRange 64 (cfi_initial_rules_ m) a) as [x|] eqn:Ex.
  - rewrite RetrieveRange_Some in Ex by (done || lia). destruct Ex as (h & r & Hin & Hc & ->).
    cbn [copy_out ret_entry ret_base]. unfold ParseCFIRuleSet.
    destruct (Parse (rentry r) CFIFrameInfo_new) as [[] i0] eqn:Ep; cbn [negb].
    + exists h, r, i0. split_and!; [done..|]. unfold deltas_between.
      pose proof (sorted_erase_range (cfi_delta_rules_ m) 0 (lower_bound (cfi_delta_rules_ m) (rbase r))
                    ltac:(lia) mo_deltas) as Hs. cbn [erase_range take app] in Hs.
      rewrite apply_deltas_filter by done. by rewrite filter_lower_bound.
    + intros h' r' Hin' Hc'. destruct (covers_unique 64 (cfi_initial_rules_ m) a h r h' r') as [-> ->]; try done.
      by rewrite Ep.
  - rewrite RetrieveRange_None in Ex by (done || lia). intros h r Hin Hc. by apply Ex in Hc.
Qed.

(** ** Witnesses for the lookups *)

Definition example_text : cstring :=
  render (print_record <$> (example_records ++ [StackWinRecord example_win 0x1004 8])) ++ [NUL].

Definition example_module : BasicModule :=
  match LoadMapFromMemory (BasicModule_new (lit "a.out")) example_text with
  | Ok (_, m) => m
  | _ => BasicModule_new (lit "a.out")
  end.

Lemma example_module_ok : module_ok example_module.
Proof.
  unfold example_module. pose proof (LoadMapFromMemory_outcome (lit "a.out") example_text) as H.
  destruct (LoadMapFromMemory _ _) as [[ok m]| |]; [apply H|apply module_ok_new..].
Qed.

(** A frame of a module loaded at 0x400000. *)
Definition example_frame (instruction : Z) : StackFrame := mkStackFrame instruction [] 0 [] 0 0.

Lemma lookup_address_witness :
  exists frame', LookupAddress example_module 0x400000 (example_frame 0x401012) = Ok frame' /\
    function_name frame' = lit "main(int, char**)" /\ source_line frame' = 13 /\
    source_file_name frame' = lit "src/a b.c" /\ source_line_base frame' = 0x401010.
Proof.
  destruct (lookup_address example_module 0x400000 (example_frame 0x401012) example_module_ok) as (f & E & _).
  exists f. split; [exact E|]. vm_compute in E. injection E as <-. by vm_compute.
Defined.

Lemma find_windows_frame_info_witness :
  FindWindowsFrameInfo example_module 0x400000 (example_frame 0x401006) = Ok (Some example_win).
Proof.
  destruct (find_windows_frame_info example_module 0x400000 (example_frame 0x401006) example_module_ok)
    as (fd & fpo & result & _ & _ & E & _).
  rewrite E. vm_compute in E. injection E as <-. by vm_compute.
Defined.

Lemma find_cfi_frame_info_witness :
  exists h r i0, (h, r) ∈ rmap (cfi_initial_rules_ example_module) /\ covers h r 0x1002 /\
    Parse (rentry r) CFIFrameInfo_new = (true, i0) /\
    mkCFI (lit "$esp 8 +") (lit ".cfa 4 - ^") [] = foldl apply_delta i0 (deltas_between example_module (rbase r) 0x1002).
Proof.
  assert (E: FindCFIFrameInfo example_module 0x400000 (example_frame 0x401002) =
             Some (mkCFI (lit "$esp 8 +") (lit ".cfa 4 - ^") [])) by (vm_compute; reflexivity).
  pose proof (find_cfi_frame_info example_module 0x400000 (example_frame 0x401002) example_module_ok) as H.
  rewrite E in H. exact H.
Defined.
