(* ===== verification/CodeModules.v ===== *)
(** google_breakpad/processor/code_module.h, code_modules.h: the modules of a
    process and the interface of a collection of them;
    processor/basic_code_module.h, basic_code_modules.cc: [BasicCodeModules],
    which copies any collection into a [RangeMap]. *)
From Stdlib Require Import Ascii.
From stdpp Require Import strings list.
From S2P Require Import Prelude StdMap RangeMap CStr.

(** [BasicCodeModule].  Modules are passed around by pointer and are not changed
    once they are in a collection; here they are values, and two modules are the
    same when all their fields agree. *)
Record CodeModule := mkCodeModule {
  base_address : Z;
  module_size : Z;
  shrink_down_delta : Z;
  code_file : cstring;
  code_identifier : cstring;
  debug_file : cstring;
  debug_identifier : cstring;
  version : cstring;
  is_unloaded : bool
}.

#[export] Instance code_module_eq_dec : EqDecision CodeModule.
Proof. solve_decision. Defined.

(** The two constructors; [Copy] is the first. *)
Definition CodeModule_Copy (that : CodeModule) : CodeModule :=
  mkCodeModule (base_address that) (module_size that) (shrink_down_delta that) (code_file that)
    (code_identifier that) (debug_file that) (debug_identifier that) (version that) (is_unloaded that).

Definition BasicCodeModule_new (base size : Z) (file identifier dfile didentifier vers : cstring) (unloaded : bool)
  : CodeModule := mkCodeModule base size 0 file identifier dfile didentifier vers unloaded.

Definition SetShrinkDownDelta (m : CodeModule) (delta : Z) : CodeModule :=
  mkCodeModule (base_address m) (module_size m) delta (code_file m) (code_identifier m) (debug_file m)
    (debug_identifier m) (version m) (is_unloaded m).

(** [CodeModules]. *)
Class CodeModules (C : Type) := {
  module_count : C -> Z;
  GetModuleForAddress : C -> Z -> option CodeModule;
  GetMainModule : C -> option CodeModule;
  GetModuleAtSequence : C -> Z -> option CodeModule;
  GetModuleAtIndex : C -> Z -> option CodeModule;
  IsModuleShrinkEnabled : C -> bool
}.

(** ** [BasicCodeModules] *)

Record BasicCodeModules := mkBasicCodeModules {
  main_address_ : Z;
  map_ : RangeMap CodeModule;
  shrunk_range_modules_ : list CodeModule
}.

Definition BasicCodeModules_empty : BasicCodeModules := mkBasicCodeModules 0 RangeMap_new [].

Definition basic_GetModuleForAddress (c : BasicCodeModules) (address : Z) : option CodeModule :=
  ret_entry <$> RetrieveRange 64 (map_ c) address.

(** The sequence number is an [unsigned int], the index of the map an [int]. *)
Definition basic_GetModuleAtSequence (c : BasicCodeModules) (sequence : Z) : option CodeModule :=
  ret_entry <$> RetrieveRangeAtIndex 64 (map_ c) (s32 sequence).

#[export] Instance basic_code_modules : CodeModules BasicCodeModules := {|
  module_count := λ c, u32 (GetCount (map_ c));
  GetModuleForAddress := basic_GetModuleForAddress;
  GetMainModule := λ c, basic_GetModuleForAddress c (main_address_ c);
  GetModuleAtSequence := basic_GetModuleAtSequence;
  GetModuleAtIndex := basic_GetModuleAtSequence;
  IsModuleShrinkEnabled := λ c, IsShrinkDownEnabled (map_ c)
|}.

Section copy.
Context {C : Type} `{CodeModules C}.

(** The loop that stores the modules; an index without a module is a null
    dereference. *)
Fixpoint store_modules (that : C) (indices : list Z) (map : RangeMap CodeModule) : outcome (RangeMap CodeModule) :=
  match indices with
  | [] => Ok map
  | i :: indices =>
      match GetModuleAtIndex that i with
      | None => Undefined
      | Some m => let module := CodeModule_Copy m in
                  store_modules that indices (StoreRange 64 map (base_address module) (module_size module) module).2
      end
  end.

(** The loop that reports the modules whose range was shrunk. *)
Fixpoint report_shrunk (that : C) (indices : list Z) (map : RangeMap CodeModule) (shrunk : list CodeModule)
  : outcome (list CodeModule) :=
  match indices with
  | [] => Ok shrunk
  | i :: indices =>
      match GetModuleAtIndex that i with
      | None => Undefined
      | Some m =>
          let module := CodeModule_Copy m in
          let shrunk :=
            match RetrieveRange 64 map (wrap 64 (wrap 64 (base_address module + module_size module) - 1)) with
            | Some x => if 0 <? ret_delta x
                        then shrunk ++ [SetShrinkDownDelta (CodeModule_Copy (ret_entry x)) (ret_delta x)]
                        else shrunk
            | None => shrunk
            end in
          report_shrunk that indices map shrunk
      end
  end.

Definition module_indices (that : C) : list Z := Z.of_nat <$> seq 0 (Z.to_nat (module_count that)).

(** [BasicCodeModules::BasicCodeModules(that)]; also [Copy]. *)
Definition BasicCodeModules_new (that : C) : outcome BasicCodeModules :=
  let map := SetEnableShrinkDown RangeMap_new (IsModuleShrinkEnabled that) in
  let main_address := match GetMainModule that with Some m => base_address m | None => 0 end in
  map ← store_modules that (module_indices that) map;
  shrunk ← report_shrunk that (module_indices that) map [];
  Ok (mkBasicCodeModules main_address map shrunk).
End copy.

(** ** Copying without shrinking *)

Definition holds_address (m : CodeModule) (a : Z) : Prop := base_address m <= a < base_address m + module_size m.

(** A module whose range is not empty and ends inside the address space. *)
Definition module_range_ok (m : CodeModule) : Prop :=
  0 <= base_address m /\ 0 < module_size m < 2 ^ 64 - 1 /\ base_address m + module_size m <= 2 ^ 64.

Definition modules_disjoint (ms : list CodeModule) : Prop :=
  forall i j m m', ms !! i = Some m -> ms !! j = Some m' -> i <> j -> forall a, holds_address m a -> ~ holds_address m' a.

(** The map holds modules under their own ranges. *)
Definition modules_map_ok (map : RangeMap CodeModule) : Prop :=
  rm_ok 64 map /\ enable_shrink_down map = false /\
  forall h r, (h, r) ∈ rmap map -> rdelta r = 0 /\ base_address (rentry r) = rbase r /\
    module_size (rentry r) = h - rbase r + 1.

Lemma modules_map_new : modules_map_ok (SetEnableShrinkDown RangeMap_new false).
Proof. split_and!; [by apply rm_ok_flag, rm_ok_new|done|]. by intros ?? ?%not_elem_of_nil. Qed.

Lemma CodeModule_Copy_id m : CodeModule_Copy m = m.
Proof. by destruct m. Qed.

(** Storing one module: it joins the map exactly when no stored range meets it. *)
Lemma store_module map m :
  modules_map_ok map -> module_range_ok m ->
  let map' := (StoreRange 64 map (base_address m) (module_size m) m).2 in
  modules_map_ok map' /\
  (forall h r, (h, r) ∈ rmap map -> (h, r) ∈ rmap map') /\
  (forall h r, (h, r) ∈ rmap map' -> (h, r) ∈ rmap map \/ rentry r = m) /\
  ((forall h r, (h, r) ∈ rmap map -> forall a, holds_address m a -> ~ covers h r a) ->
   exists h r, (h, r) ∈ rmap map' /\ rentry r = m).
Proof.
  intros (Hok & Hsd & Hent) (Hb & Hs & Hend).
  assert (Hf: fits 64 (base_address m) /\ fits 64 (module_size m)) by (unfold fits; lia). destruct Hf as [Hfb Hfs].
  pose proof (StoreRange_ok 64 ltac:(lia) map (base_address m) (module_size m) m Hok Hfb Hfs) as Hok'.
  rewrite StoreRange_plain in * by (done || lia). case_decide as Hd.
  - destruct Hd as (_ & _ & Hfree). cbn [snd] in *. set (h := base_address m + module_size m - 1) in *.
    assert (Hnk: forall v, (h, v) ∉ rmap map).
    { intros v Hin. specialize (Hfree _ _ Hin). pose proof (ok_range 64 _ Hok _ _ Hin). unfold h in *. lia. }
    assert (Hel: forall k r, (k, r) ∈ insert (rmap map) h (mkRange (base_address m) 0 m) <->
                             (k, r) = (h, mkRange (base_address m) 0 m) \/ (k, r) ∈ rmap map).
    { intros k r. apply elem_of_insert; [by apply (ok_sorted 64)|done]. }
    cbn [rmap]. split_and!.
    + split_and!; [done|done|]. cbn [rmap]. intros k r [[= -> ->]|Hin]%Hel; [|by apply Hent].
      cbn. unfold h. lia.
    + intros k r Hin. apply Hel. by right.
    + intros k r [[= -> ->]|Hin]%Hel; [by right|by left].
    + intros _. exists h, (mkRange (base_address m) 0 m). split; [apply Hel; by left|done].
  - cbn [snd] in *. split_and!; [by split_and!|done|by left|]. intros Hno. exfalso. apply Hd.
    split_and!; [lia|lia|]. intros h r Hin. specialize (Hno h r Hin).
    pose proof (ok_range 64 _ Hok _ _ Hin). unfold covers, holds_address in Hno.
    destruct (decide (h < base_address m)); [by left|]. right.
    destruct (decide (base_address m + module_size m - 1 < rbase r)); [done|]. exfalso.
    apply (Hno (Z.max (base_address m) (rbase r))); lia.
Qed.

Section copy_proofs.
Context {C : Type} `{CodeModules C}.
Implicit Types (that : C) (ms : list CodeModule).

(** The modules at these indices. *)
Definition modules_at that (indices : list Z) ms : Prop :=
  Forall2 (λ i m, GetModuleAtIndex that i = Some m) indices ms.

Lemma store_modules_spec that indices ms : forall map,
  modules_at that indices ms -> Forall module_range_ok ms -> modules_map_ok map ->
  exists map', store_modules that indices map = Ok map' /\ modules_map_ok map' /\
    (forall h r, (h, r) ∈ rmap map -> (h, r) ∈ rmap map') /\
    (forall h r, (h, r) ∈ rmap map' -> (h, r) ∈ rmap map \/ rentry r ∈ ms) /\
    ((forall h r m a, (h, r) ∈ rmap map -> m ∈ ms -> holds_address m a -> ~ covers h r a) -> modules_disjoint ms ->
     forall m, m ∈ ms -> exists h r, (h, r) ∈ rmap map' /\ rentry r = m).
Proof.
  intros map Hat. revert map. induction Hat as [|i m indices ms Hi _ IH]; intros map Hms Hmap.
  - exists map. split_and!; auto; [by apply Hmap..|]. by intros _ _ m ?%not_elem_of_nil.
  - inversion Hms as [|? ? Hm Hms']; subst. cbn [store_modules]. rewrite Hi, CodeModule_Copy_id.
    destruct (store_module map m Hmap Hm) as (Hmap1 & Hold & Hnew & Hin1).
    destruct (IH _ Hms' Hmap1) as (map' & E & Hmap' & Hold' & Hnew' & Hin').
    exists map'. split_and!; try apply Hmap'; try done.
    + intros h r Hin. by apply Hold', Hold.
    + intros h r [Hin|Hin]%Hnew'; [|right; by right].
      destruct (Hnew _ _ Hin) as [?| ->]; [by left|right; by left].
    + intros Hfree Hdis x Hx.
      assert (Hmm: exists h r, (h, r) ∈ rmap (StoreRange 64 map (base_address m) (module_size m) m).2 /\ rentry r = m).
      { apply Hin1. intros h r Hin a Ha. eapply Hfree; [done|by left|done]. }
      destruct Hmm as (hm & rm & Hinm & Hem).
      apply elem_of_cons in Hx as [->|Hx]; [exists hm, rm; auto|].
      apply Hin'; [| |done].
      * intros h r y a Hin Hy Ha Hc. destruct (Hnew _ _ Hin) as [Hold1|Heq].
        -- by eapply (Hfree h r y a Hold1); [right|..].
        -- apply list_elem_of_lookup in Hy as [j Hj].
           apply (Hdis O (S j) m y eq_refl Hj ltac:(done) a); [|done].
           destruct Hmap1 as (Hrm & _ & Hent). destruct (Hent _ _ Hin) as (_ & Hb & Hs).
           rewrite Heq in Hb, Hs. unfold covers, holds_address in *. lia.
      * intros i1 i2 m1 m2 H1 H2 Hne. apply (Hdis (S i1) (S i2)); [done|done|congruence].
Qed.

Lemma report_shrunk_none that indices ms map shrunk :
  modules_at that indices ms -> modules_map_ok map -> report_shrunk that indices map shrunk = Ok shrunk.
Proof.
  intros Hat (Hok & _ & Hent). induction Hat as [|i m indices ms Hi _ IH]; [done|].
  cbn [report_shrunk]. rewrite Hi. destruct (RetrieveRange 64 map _) as [x|] eqn:Ex; [|done].
  rewrite RetrieveRange_Some in Ex by done. destruct Ex as (h & r & Hin & _ & ->).
  destruct (Hent _ _ Hin) as (Hd & _). cbn [copy_out ret_delta ret_entry]. by rewrite Hd.
Qed.

(** Copying a collection of modules whose ranges may not be shrunk: the copy
    finds at an address only a module of the collection that holds it, and when
    the modules are disjoint every module is found at each of its addresses. *)
Lemma code_modules_copy that ms :
  IsModuleShrinkEnabled that = false -> modules_at that (module_indices that) ms -> Forall module_range_ok ms ->
  exists c, BasicCodeModules_new that = Ok c /\ shrunk_range_modules_ c = [] /\ IsModuleShrinkEnabled c = false /\
    (forall a m, GetModuleForAddress c a = Some m -> m ∈ ms /\ holds_address m a) /\
    (modules_disjoint ms -> forall a m, m ∈ ms -> holds_address m a -> GetModuleForAddress c a = Some m).
Proof.
  intros Hsd Hat Hms. unfold BasicCodeModules_new. rewrite Hsd.
  destruct (store_modules_spec that _ ms _ Hat Hms modules_map_new) as (map & E & Hmap & _ & Hnew & Hin).
  rewrite E, bind_Ok. cbv beta. rewrite (report_shrunk_none that _ ms map []) by done. rewrite bind_Ok.
  eexists. split; [reflexivity|]. destruct Hmap as (Hok & Hsd' & Hent).
  cbn [shrunk_range_modules_ IsModuleShrinkEnabled GetModuleForAddress basic_code_modules map_]. split_and!; try done.
  - intros a m. unfold basic_GetModuleForAddress. cbn [map_].
    destruct (RetrieveRange 64 map a) as [x|] eqn:Ex; [|done]. intros [= <-].
    rewrite RetrieveRange_Some in Ex by done. destruct Ex as (h & r & Hr & Hc & ->).
    cbn [copy_out ret_entry]. destruct (Hent _ _ Hr) as (_ & Hb & Hs).
    destruct (Hnew _ _ Hr) as [?%not_elem_of_nil|?]; [done|]. split; [done|].
    unfold covers, holds_address in *. lia.
  - intros Hdis a m Hm Ha. destruct (Hin ltac:(by intros ???? ?%not_elem_of_nil) Hdis m Hm) as (h & r & Hr & Hrm).
    unfold basic_GetModuleForAddress. cbn [map_]. rewrite (proj2 (RetrieveRange_Some 64 map a (copy_out 64 (h, r)) Hok)).
    + cbn. by rewrite Hrm.
    + exists h, r. split_and!; [done| |done]. destruct (Hent _ _ Hr) as (_ & Hb & Hs). rewrite Hrm in Hb, Hs.
      unfold covers, holds_address in *. lia.
Qed.
End copy_proofs.

(** Two modules side by side. *)
Definition demo_module_at (base : Z) (file : cstring) : CodeModule :=
  BasicCodeModule_new base 0x1000 file [] file [] [] false.

Definition demo_modules : BasicCodeModules :=
  mkBasicCodeModules 0x400000
    (StoreRange 64 (StoreRange 64 RangeMap_new 0x400000 0x1000 (demo_module_at 0x400000 (lit "a.out"))).2
       0x7000 0x1000 (demo_module_at 0x7000 (lit "libc.so"))).2 [].

Lemma code_modules_copy_witness :
  exists c, BasicCodeModules_new demo_modules = Ok c /\
    GetModuleForAddress c 0x400fff = Some (demo_module_at 0x400000 (lit "a.out")).
Proof.
  destruct (code_modules_copy demo_modules [demo_module_at 0x7000 (lit "libc.so"); demo_module_at 0x400000 (lit "a.out")])
    as (c & E & _ & _ & _ & Hin).
  - reflexivity.
  - repeat (constructor; [vm_compute; reflexivity|]). constructor.
  - repeat (apply Forall_cons; split; [unfold module_range_ok; simpl; lia|]). apply Forall_nil_2.
  - exists c. split; [exact E|]. apply Hin; [|by right; left|split; simpl; lia].
    intros [|[|i]] [|[|j]] m m' Hi Hj Hne a; try done; injection Hi as <-; injection Hj as <-;
      unfold holds_address; simpl; lia.
Defined.
