(* ===== verification/ResolverBase.v ===== *)
(** processor/source_line_resolver_base.cc: [SourceLineResolverBase], the table
    of loaded modules and of the buffers their symbols were read into, for any
    kind of module; processor/module_factory.h. *)
From Stdlib Require Import Ascii.
From stdpp Require Import strings list gmap.
From S2P Require Import Prelude StdMap RangeMap CStr CodeModules StrMap CfiFrameInfo SymbolFile BasicResolver BasicInvariant SymbolLoad ResolverLookup.

(** ** The interface of a module *)

(** [SourceLineResolverBase::Module], with the factory that creates it and the
    resolver's choice whether the buffer must outlive the load. *)
Class SymbolModule (M : Type) := {
  CreateModule : cstring -> M;
  LoadMap : M -> cstring -> outcome (bool * M);
  IsCorrupt : M -> bool;
  ModuleLookupAddress : M -> Z -> StackFrame -> outcome StackFrame;
  ModuleFindWindowsFrameInfo : M -> Z -> StackFrame -> outcome (option WindowsFrameInfo);
  ModuleFindCFIFrameInfo : M -> Z -> StackFrame -> outcome (option CFIFrameInfo);
  ShouldDeleteMemoryBufferAfterLoadModule : bool
}.

(** What the resolver relies on: loading does not report plain failure, a
    failed load is of a corrupt module, and lookups in a loaded module succeed. *)
Class SymbolModuleLaws (M : Type) `{SymbolModule M} (loaded : M -> Prop) := {
  load_loaded name buffer :
    match LoadMap (CreateModule name) buffer with
    | Ok (ok, m) => loaded m /\ (ok = false -> IsCorrupt m = true)
    | Fail => False
    | Undefined => True
    end;
  lookup_defined m base frame : loaded m -> exists frame', ModuleLookupAddress m base frame = Ok frame';
  windows_defined m base frame : loaded m -> exists r, ModuleFindWindowsFrameInfo m base frame = Ok r;
  cfi_defined m base frame : loaded m -> exists r, ModuleFindCFIFrameInfo m base frame = Ok r
}.

(** [BasicModuleFactory] and [BasicSourceLineResolver]. *)
#[export] Instance BasicModuleFactory : SymbolModule BasicModule := {|
  CreateModule := BasicModule_new;
  LoadMap := LoadMapFromMemory;
  IsCorrupt := is_corrupt_;
  ModuleLookupAddress := LookupAddress;
  ModuleFindWindowsFrameInfo := FindWindowsFrameInfo;
  ModuleFindCFIFrameInfo := λ m base frame, Ok (FindCFIFrameInfo m base frame);
  ShouldDeleteMemoryBufferAfterLoadModule := true
|}.

(** ** The resolver *)

(** The file system behind [stat], [fopen] and [fread]: the size, whether the
    file opens, and its contents. *)
Record FileSystem := mkFileSystem {
  st_size : cstring -> option Z;
  opens : cstring -> bool;
  contents : cstring -> cstring
}.

Section resolver.
Context {M : Type} `{SymbolModule M}.

(** The members, and the buffers allocated with [new char[]].  [CompareString]
    compares names up to their first NUL. *)
Record Resolver := mkResolver {
  modules_ : strmap M;
  corrupt_modules_ : strmap unit;
  memory_buffers_ : strmap nat;
  live : gset nat;
  fresh_buffer : nat
}.

Definition Resolver_new : Resolver := mkResolver [] [] [] ∅ 0.

Definition module_key (module : CodeModule) : cstring := c_str (code_file module).

(** [new char[...]] and [delete []]. *)
Definition alloc (s : Resolver) : nat * Resolver :=
  (fresh_buffer s, mkResolver (modules_ s) (corrupt_modules_ s) (memory_buffers_ s)
                     ({[fresh_buffer s]} ∪ live s) (S (fresh_buffer s))).

Definition free (p : nat) (s : Resolver) : outcome Resolver :=
  if decide (p ∈ live s)
  then Ok (mkResolver (modules_ s) (corrupt_modules_ s) (memory_buffers_ s) (live s ∖ {[p]}) (fresh_buffer s))
  else Undefined.

Definition set_modules (s : Resolver) m c : Resolver := mkResolver m c (memory_buffers_ s) (live s) (fresh_buffer s).
Definition set_buffers (s : Resolver) b : Resolver :=
  mkResolver (modules_ s) (corrupt_modules_ s) b (live s) (fresh_buffer s).

(** [ReadSymbolFile]: the buffer and its contents, or [None]. *)
Definition ReadSymbolFile (fs : FileSystem) (map_file : cstring) (s : Resolver)
  : outcome (option (nat * cstring) * Resolver) :=
  match st_size fs map_file with
  | None => Ok (None, s)
  | Some file_size =>
      let '(symbol_data, s) := alloc s in
      if negb (opens fs map_file) then s ← free symbol_data s; Ok (None, s)
      else
        let read := take (Z.to_nat file_size) (contents fs map_file) in
        let items_read := s32 (Z.of_nat (length read)) in
        if negb (items_read =? file_size) then s ← free symbol_data s; Ok (None, s)
        else Ok (Some (symbol_data, read ++ [NUL]), s)
  end.

(** [LoadModuleUsingMemoryBuffer]; [None] is the NULL module.  A module that
    fails to load and is not corrupt fails the assertion. *)
Definition LoadModuleUsingMemoryBuffer (module : option CodeModule) (memory_buffer : cstring) (s : Resolver)
  : outcome (bool * Resolver) :=
  match module with
  | None => Ok (false, s)
  | Some module =>
      match str_find (modules_ s) (module_key module) with
      | Some _ => Ok (false, s)
      | None =>
          '(ok, basic_module) ← LoadMap (CreateModule (code_file module)) memory_buffer;
          if negb ok && negb (IsCorrupt basic_module) then Undefined
          else
            Ok (true, set_modules s (str_insert (modules_ s) (module_key module) basic_module)
                        (if IsCorrupt basic_module then str_insert (corrupt_modules_ s) (module_key module) ()
                         else corrupt_modules_ s))
      end
  end.

(** What [LoadModule] and [LoadModuleUsingMapBuffer] do with the buffer they own. *)
Definition keep_or_free (module : CodeModule) (p : nat) (load_result : bool) (s : Resolver) : outcome (bool * Resolver) :=
  if load_result && negb ShouldDeleteMemoryBufferAfterLoadModule
  then Ok (load_result, set_buffers s (str_insert (memory_buffers_ s) (module_key module) p))
  else s ← free p s; Ok (load_result, s).

Definition LoadModule (fs : FileSystem) (module : option CodeModule) (map_file : cstring) (s : Resolver)
  : outcome (bool * Resolver) :=
  match module with
  | None => Ok (false, s)
  | Some module =>
      match str_find (modules_ s) (module_key module) with
      | Some _ => Ok (false, s)
      | None =>
          '(r, s) ← ReadSymbolFile fs map_file s;
          match r with
          | None => Ok (false, s)
          | Some (p, memory_buffer) =>
              '(load_result, s) ← LoadModuleUsingMemoryBuffer (Some module) memory_buffer s;
              keep_or_free module p load_result s
          end
      end
  end.

Definition LoadModuleUsingMapBuffer (module : option CodeModule) (map_buffer : cstring) (s : Resolver)
  : outcome (bool * Resolver) :=
  match module with
  | None => Ok (false, s)
  | Some module =>
      match str_find (modules_ s) (module_key module) with
      | Some _ => Ok (false, s)
      | None =>
          let '(p, s) := alloc s in
          '(load_result, s) ← LoadModuleUsingMemoryBuffer (Some module) (map_buffer ++ [NUL]) s;
          keep_or_free module p load_result s
      end
  end.

Definition UnloadModule (code_module : option CodeModule) (s : Resolver) : outcome Resolver :=
  match code_module with
  | None => Ok s
  | Some code_module =>
      let key := module_key code_module in
      let s := match str_find (modules_ s) key with
               | Some _ => set_modules s (str_erase (modules_ s) key) (str_erase (corrupt_modules_ s) key)
               | None => s
               end in
      if ShouldDeleteMemoryBufferAfterLoadModule then Ok s
      else
        match str_find (memory_buffers_ s) key with
        | Some p => s ← free p s; Ok (set_buffers s (str_erase (memory_buffers_ s) key))
        | None => Ok s
        end
  end.

Definition HasModule (module : option CodeModule) (s : Resolver) : bool :=
  match module with
  | None => false
  | Some module => match str_find (modules_ s) (module_key module) with Some _ => true | None => false end
  end.

Definition IsModuleCorrupt (module : option CodeModule) (s : Resolver) : bool :=
  match module with
  | None => false
  | Some module => match str_find (corrupt_modules_ s) (module_key module) with Some _ => true | None => false end
  end.

(** The lookups: [module] is [frame->module]. *)
Definition FillSourceLineInfo (module : option CodeModule) (frame : StackFrame) (s : Resolver) : outcome StackFrame :=
  match module with
  | None => Ok frame
  | Some module => match str_find (modules_ s) (module_key module) with
                   | Some m => ModuleLookupAddress m (base_address module) frame
                   | None => Ok frame
                   end
  end.

Definition ResolverFindWindowsFrameInfo (module : option CodeModule) (frame : StackFrame) (s : Resolver)
  : outcome (option WindowsFrameInfo) :=
  match module with
  | None => Ok None
  | Some module => match str_find (modules_ s) (module_key module) with
                   | Some m => ModuleFindWindowsFrameInfo m (base_address module) frame
                   | None => Ok None
                   end
  end.

Definition ResolverFindCFIFrameInfo (module : option CodeModule) (frame : StackFrame) (s : Resolver)
  : outcome (option CFIFrameInfo) :=
  match module with
  | None => Ok None
  | Some module => match str_find (modules_ s) (module_key module) with
                   | Some m => ModuleFindCFIFrameInfo m (base_address module) frame
                   | None => Ok None
                   end
  end.

(** The destructor: the buffers are deleted in key order. *)
Fixpoint delete_buffers (buffers : strmap nat) (s : Resolver) : outcome Resolver :=
  match buffers with
  | [] => Ok s
  | (_, p) :: buffers => s ← free p s; delete_buffers buffers s
  end.

Definition destroy (s : Resolver) : outcome Resolver := delete_buffers (memory_buffers_ s) (set_modules s [] []).

(** ** The abstract resolver: a table from names to modules *)

Inductive call :=
| CallLoadModule (fs : FileSystem) (module : option CodeModule) (map_file : cstring)
| CallLoadMapBuffer (module : option CodeModule) (map_buffer : cstring)
| CallLoadMemoryBuffer (module : option CodeModule) (memory_buffer : cstring)
| CallUnload (module : option CodeModule).

Definition run_call (c : call) (s : Resolver) : outcome (bool * Resolver) :=
  match c with
  | CallLoadModule fs module map_file => LoadModule fs module map_file s
  | CallLoadMapBuffer module map_buffer => LoadModuleUsingMapBuffer module map_buffer s
  | CallLoadMemoryBuffer module memory_buffer => LoadModuleUsingMemoryBuffer module memory_buffer s
  | CallUnload module => s ← UnloadModule module s; Ok (true, s)
  end.

Definition Table := cstring -> option M.

Definition table_set (t : Table) (k : cstring) (o : option M) : Table := λ k', if str_eqb k k' then o else t k'.

(** A symbol file is read completely or not at all. *)
Definition file_text (fs : FileSystem) (map_file : cstring) : option cstring :=
  match st_size fs map_file with
  | Some size =>
      let read := take (Z.to_nat size) (contents fs map_file) in
      if opens fs map_file && (s32 (Z.of_nat (length read)) =? size) then Some read else None
  | None => None
  end.

Definition table_load (t : Table) (module : option CodeModule) (text : option cstring) : outcome (bool * Table) :=
  match module, text with
  | Some module, Some text =>
      match t (module_key module) with
      | Some _ => Ok (false, t)
      | None =>
          '(ok, m) ← LoadMap (CreateModule (code_file module)) text;
          if negb ok && negb (IsCorrupt m) then Undefined
          else Ok (true, table_set t (module_key module) (Some m))
      end
  | _, _ => Ok (false, t)
  end.

Definition table_call (c : call) (t : Table) : outcome (bool * Table) :=
  match c with
  | CallLoadModule fs module map_file => table_load t module ((λ text, text ++ [NUL]) <$> file_text fs map_file)
  | CallLoadMapBuffer module map_buffer => table_load t module (Some (map_buffer ++ [NUL]))
  | CallLoadMemoryBuffer module memory_buffer => table_load t module (Some memory_buffer)
  | CallUnload (Some module) => Ok (true, table_set t (module_key module) None)
  | CallUnload None => Ok (true, t)
  end.

(** The table a resolver implements. *)
Definition table (s : Resolver) : Table := str_find (modules_ s).

(** A resolver that a client can have made. *)
Inductive resolver_reachable : Resolver -> Prop :=
| reach_new : resolver_reachable Resolver_new
| reach_call s c r s' : resolver_reachable s -> run_call c s = Ok (r, s') -> resolver_reachable s'.
End resolver.

Arguments Resolver : clear implicits.
Arguments Table : clear implicits.
