(* ===== verification/ResolverTable.v ===== *)
(** [SourceLineResolverBase] (ResolverBase.v) implements a table from names to
    modules, and neither leaks nor frees twice the buffers it allocates. *)
From Stdlib Require Import Ascii.
From stdpp Require Import strings list gmap.
From S2P Require Import Prelude StdMap RangeMap CStr CodeModules StrMap CfiFrameInfo SymbolFile BasicResolver BasicInvariant SymbolLoad ResolverLookup ResolverBase.

(** ** The invariant *)
Section invariant.
Context {M : Type} `{SymbolModule M} (loaded : M -> Prop) `{!SymbolModuleLaws M loaded}.
Implicit Types (s : Resolver M) (k : cstring).

(** [own]: a buffer that is allocated and not yet in [memory_buffers_]. *)
Record resolver_inv (own : option nat) s : Prop := {
  ro_modules : str_sorted (modules_ s);
  ro_loaded : forall k m, str_find (modules_ s) k = Some m -> loaded m;
  ro_corrupt_sorted : str_sorted (corrupt_modules_ s);
  ro_corrupt : forall k, is_Some (str_find (corrupt_modules_ s) k) <->
    exists m, str_find (modules_ s) k = Some m /\ IsCorrupt m = true;
  ro_buffers : str_sorted (memory_buffers_ s);
  ro_owned : forall k p, str_find (memory_buffers_ s) k = Some p -> is_Some (str_find (modules_ s) k);
  ro_live : forall p, p ∈ live s <-> own = Some p \/ exists k, str_find (memory_buffers_ s) k = Some p;
  ro_distinct : forall k k' p, str_find (memory_buffers_ s) k = Some p -> str_find (memory_buffers_ s) k' = Some p -> k = k';
  ro_own : forall p k, own = Some p -> str_find (memory_buffers_ s) k <> Some p;
  ro_fresh : forall p, p ∈ live s -> (p < fresh_buffer s)%nat;
  ro_delete : ShouldDeleteMemoryBufferAfterLoadModule = true -> memory_buffers_ s = []
}.

Lemma inv_new : resolver_inv None Resolver_new.
Proof.
  constructor; simpl; try done; try (by constructor); try set_solver.
Qed.

Lemma inv_alloc s : resolver_inv None s -> resolver_inv (Some (alloc s).1) (alloc s).2.
Proof.
  intros []. constructor; simpl; try done.
  - intros p. rewrite elem_of_union, elem_of_singleton, ro_live0. split; [|naive_solver].
    intros [->|[?|?]]; [by left|done|by right].
  - intros p k [= <-] Hk. assert (Hin: fresh_buffer s ∈ live s) by (apply ro_live0; eauto).
    apply ro_fresh0 in Hin. lia.
  - intros p [->%elem_of_singleton|Hin%ro_fresh0]%elem_of_union; lia.
Qed.

Lemma inv_free s p :
  resolver_inv (Some p) s -> exists s', free p s = Ok s' /\ resolver_inv None s' /\ modules_ s' = modules_ s.
Proof.
  intros []. unfold free. rewrite decide_True by (apply ro_live0; by left). eexists. split; [done|].
  split; [|done]. constructor; simpl; try done.
  - intros q. rewrite elem_of_difference, elem_of_singleton, ro_live0. split.
    + intros [[[= ->]|?] Hne]; [done|by right].
    + intros [?|[k Hk]]; [done|]. split; [by right; exists k|]. intros ->. by eapply ro_own0.
  - intros q [Hin _]%elem_of_difference. by apply ro_fresh0.
Qed.

Lemma inv_keep s p k :
  resolver_inv (Some p) s -> is_Some (str_find (modules_ s) k) -> str_find (memory_buffers_ s) k = None ->
  ShouldDeleteMemoryBufferAfterLoadModule = false ->
  resolver_inv None (set_buffers s (str_insert (memory_buffers_ s) k p)).
Proof.
  intros [] Hm Hn Hdel.
  assert (Hf: forall k', str_find (str_insert (memory_buffers_ s) k p) k' =
                         if str_eqb k k' then Some p else str_find (memory_buffers_ s) k').
  { intros k'. rewrite str_find_insert by done. destruct (str_eqb k k') eqn:E.
    - apply str_eqb_spec in E as <-. by rewrite Hn.
    - by destruct (str_find (memory_buffers_ s) k'). }
  constructor; simpl; try done; try (by rewrite Hdel).
  - by apply str_sorted_insert.
  - intros k' q. rewrite Hf. destruct (str_eqb k k') eqn:E; [|by apply ro_owned0].
    apply str_eqb_spec in E as <-. done.
  - intros q. rewrite ro_live0. split.
    + intros [[= <-]|[k' Hk']]; right.
      * exists k. by rewrite Hf, str_eqb_refl.
      * exists k'. rewrite Hf. destruct (str_eqb k k') eqn:E; [|done].
        apply str_eqb_spec in E as <-. congruence.
    + intros [?|[k' Hk']]; [done|]. rewrite Hf in Hk'. destruct (str_eqb k k').
      * injection Hk' as ->. by left.
      * right. by exists k'.
  - intros k1 k2 q. rewrite !Hf. destruct (str_eqb k k1) eqn:E1, (str_eqb k k2) eqn:E2; intros H1 H2.
    + apply str_eqb_spec in E1 as <-, E2 as <-. done.
    + injection H1 as ->. by apply (ro_own0 q k2) in H2.
    + injection H2 as ->. by apply (ro_own0 q k1) in H1.
    + by eapply ro_distinct0.
Qed.

(** ** The operations *)

Lemma load_memory_spec own s module b :
  resolver_inv own s ->
  match LoadModuleUsingMemoryBuffer (Some module) b s, table_load (table s) (Some module) (Some b) with
  | Ok (r, s'), Ok (r', t') =>
      r = r' /\ (forall k, table s' k = t' k) /\ resolver_inv own s' /\ memory_buffers_ s' = memory_buffers_ s /\
      is_Some (str_find (modules_ s') (module_key module)) /\
      (r = false -> is_Some (str_find (modules_ s) (module_key module)))
  | Undefined, Undefined => True
  | _, _ => False
  end.
Proof.
  intros Hinv. pose proof Hinv as []. unfold LoadModuleUsingMemoryBuffer, table_load, table.
  destruct (str_find (modules_ s) (module_key module)) as [m0|] eqn:Ef; [by split_and!|].
  pose proof (load_loaded (code_file module) b) as Hl.
  destruct (LoadMap _ b) as [[ok m]| |]; cbn [mbind outcome_bind]; [|done..].
  destruct Hl as [Hm Hc]. destruct (negb ok && negb (IsCorrupt m)) eqn:Ea.
  { breflect. by rewrite Hc in * by done. }
  assert (Hf: forall k, str_find (str_insert (modules_ s) (module_key module) m) k =
                        if str_eqb (module_key module) k then Some m else str_find (modules_ s) k).
  { intros k. rewrite str_find_insert by done. destruct (str_eqb _ k) eqn:E.
    - apply str_eqb_spec in E as <-. by rewrite Ef.
    - by destruct (str_find (modules_ s) k). }
  split_and!; try done; cbn [set_modules modules_ memory_buffers_]; [|by rewrite Hf, str_eqb_refl].
  constructor; simpl; try done.
  - by apply str_sorted_insert.
  - intros k m'. rewrite Hf. destruct (str_eqb _ k); [by intros [= <-]|by apply ro_loaded0].
  - destruct (IsCorrupt m); [by apply str_sorted_insert|done].
  - intros k. rewrite Hf. destruct (IsCorrupt m) eqn:Ec.
    + rewrite str_find_insert by done. destruct (str_eqb (module_key module) k) eqn:E.
      * split; [by exists m|]. intros _. by destruct (str_find (corrupt_modules_ s) k).
      * rewrite <- ro_corrupt0. by destruct (str_find (corrupt_modules_ s) k).
    + rewrite ro_corrupt0. destruct (str_eqb (module_key module) k) eqn:E; [|done].
      apply str_eqb_spec in E as <-. rewrite Ef. naive_solver congruence.
  - intros k p Hk. rewrite Hf. destruct (str_eqb _ k); [done|]. by eapply ro_owned0.
Qed.

Lemma keep_or_free_spec s module p r :
  resolver_inv (Some p) s -> is_Some (str_find (modules_ s) (module_key module)) ->
  str_find (memory_buffers_ s) (module_key module) = None ->
  exists s', keep_or_free module p r s = Ok (r, s') /\ resolver_inv None s' /\ modules_ s' = modules_ s /\
    (r = true -> ShouldDeleteMemoryBufferAfterLoadModule = false ->
     exists p', str_find (memory_buffers_ s') (module_key module) = Some p' /\ p' ∈ live s').
Proof.
  intros Hinv Hm Hb. unfold keep_or_free. destruct (r && negb _) eqn:E; breflect.
  - subst. eexists. split; [done|]. pose proof (inv_keep s p (module_key module) Hinv Hm Hb ltac:(done)) as Hk.
    split_and!; [done..|]. intros _ _. exists p.
    assert (Hp: str_find (str_insert (memory_buffers_ s) (module_key module) p) (module_key module) = Some p).
    { rewrite str_find_insert by apply Hinv. by rewrite Hb, str_eqb_refl. }
    split; [done|]. apply (ro_live _ _ Hk). right. by exists (module_key module).
  - destruct (inv_free s p Hinv) as (s' & -> & Hs' & Hms). eexists. split; [done|]. split_and!; [done..|].
    intros -> Hd. destruct E; [done|]. breflect. congruence.
Qed.

(** What loading from a buffer the resolver allocates does. *)
Lemma load_owned_spec s module b :
  resolver_inv None s -> str_find (modules_ s) (module_key module) = None ->
  match ('(r, s1) ← LoadModuleUsingMemoryBuffer (Some module) b (alloc s).2; keep_or_free module (alloc s).1 r s1),
        table_load (table s) (Some module) (Some b) with
  | Ok (r, s'), Ok (r', t') => r = r' /\ (forall k, table s' k = t' k) /\ resolver_inv None s' /\
      (r = true -> ShouldDeleteMemoryBufferAfterLoadModule = false ->
       exists p', str_find (memory_buffers_ s') (module_key module) = Some p' /\ p' ∈ live s')
  | Undefined, Undefined => True
  | _, _ => False
  end.
Proof.
  intros Hinv Hnone. pose proof (load_memory_spec _ _ module b (inv_alloc s Hinv)) as Hl.
  change (table (alloc s).2) with (table s) in Hl. set (p := (alloc s).1) in *.
  assert (Hnb: str_find (memory_buffers_ s) (module_key module) = None).
  { destruct (str_find (memory_buffers_ s) _) as [q|] eqn:E; [|done].
    apply (ro_owned _ _ Hinv) in E as [? E]. congruence. }
  destruct (LoadModuleUsingMemoryBuffer _ _ _) as [[r s1]| |], (table_load _ _ _) as [[r' t']| |]; try done.
  destruct Hl as (-> & Ht & Hinv1 & Hb & Hm & _). cbn [mbind outcome_bind].
  destruct (keep_or_free_spec s1 module p r' Hinv1 Hm) as (s2 & -> & Hinv2 & Hms & Hk).
  { rewrite Hb. exact Hnb. }
  split_and!; try done. intros k. rewrite <- Ht. unfold table. by rewrite Hms.
Qed.

(** The state after a module and its buffer are gone. *)
Lemma inv_erase s key :
  resolver_inv None s ->
  resolver_inv None
    (mkResolver (str_erase (modules_ s) key) (str_erase (corrupt_modules_ s) key) (str_erase (memory_buffers_ s) key)
       (match str_find (memory_buffers_ s) key with Some p => live s ∖ {[p]} | None => live s end) (fresh_buffer s)).
Proof.
  intros [].
  pose proof (λ k, str_find_erase (modules_ s) key k ro_modules0) as Hm.
  pose proof (λ k, str_find_erase (corrupt_modules_ s) key k ro_corrupt_sorted0) as Hc.
  pose proof (λ k, str_find_erase (memory_buffers_ s) key k ro_buffers0) as Hb.
  constructor; simpl; try done; try (by apply str_sorted_erase).
  - intros k m. rewrite Hm. dif; [done|]. apply ro_loaded0.
  - intros k. rewrite Hm, Hc. dif; [split; [by intros [? ?]|by intros (? & ? & _)]|]. apply ro_corrupt0.
  - intros k p. rewrite Hb, Hm. dif; [done|]. apply ro_owned0.
  - intros p. split.
    + intros Hp. right. assert (Hl: p ∈ live s) by (destruct (str_find (memory_buffers_ s) key); set_solver).
      apply ro_live0 in Hl as [?|[k Hk]]; [done|]. exists k. rewrite Hb. dif; [|done].
      apply str_eqb_spec in E as ->. rewrite Hk in Hp. set_solver.
    + intros [?|[k Hk]]; [done|]. rewrite Hb in Hk. dif_in Hk; [done|].
      assert (Hl: p ∈ live s) by (apply ro_live0; eauto).
      destruct (str_find (memory_buffers_ s) key) as [q|] eqn:Eq; [|done].
      apply elem_of_difference. split; [done|]. intros ->%elem_of_singleton.
      rewrite (ro_distinct0 _ _ _ Hk Eq), str_eqb_refl in E. done.
  - intros k k' p. rewrite !Hb. dif; [done|]. dif; [done|]. apply ro_distinct0.
  - intros p Hp. apply ro_fresh0. destruct (str_find (memory_buffers_ s) key); set_solver.
  - intros Hd. by rewrite (ro_delete0 Hd).
Qed.

Lemma unload_spec s module :
  resolver_inv None s ->
  exists s', UnloadModule (Some module) s = Ok s' /\ resolver_inv None s' /\
    (forall k, table s' k = table_set (table s) (module_key module) None k).
Proof.
  intros Hinv. unfold UnloadModule. set (key := module_key module).
  pose proof (inv_erase s key Hinv) as He. pose proof Hinv as [].
  assert (Ht: forall k, str_find (str_erase (modules_ s) key) k = table_set (table s) key None k).
  { intros k. rewrite str_find_erase by done. unfold table_set, table. by destruct (str_eqb key k). }
  destruct (str_find (modules_ s) key) as [m|] eqn:Em.
  - destruct (str_find (memory_buffers_ s) key) as [p|] eqn:Ep.
    + destruct ShouldDeleteMemoryBufferAfterLoadModule eqn:Ed; [by rewrite (ro_delete0 eq_refl) in Ep|].
      cbn [set_modules memory_buffers_]. rewrite Ep. unfold free. cbn [live set_modules].
      rewrite decide_True by (apply ro_live0; eauto). cbn [mbind outcome_bind]. by eexists.
    + rewrite (str_erase_absent _ _ Ep) in He.
      assert (Hs1: resolver_inv None (set_modules s (str_erase (modules_ s) key) (str_erase (corrupt_modules_ s) key)))
        by exact He.
      exists (set_modules s (str_erase (modules_ s) key) (str_erase (corrupt_modules_ s) key)).
      split_and!; [|done|done]. destruct ShouldDeleteMemoryBufferAfterLoadModule; [done|].
      cbn [set_modules memory_buffers_]. by rewrite Ep.
  - assert (Ep: str_find (memory_buffers_ s) key = None).
    { destruct (str_find (memory_buffers_ s) key) as [p|] eqn:Ep; [|done]. apply ro_owned0 in Ep as [? ?]. congruence. }
    exists s. split_and!; [destruct ShouldDeleteMemoryBufferAfterLoadModule; [done|by rewrite Ep]|done|].
    intros k. rewrite <- Ht. by rewrite str_erase_absent.
Qed.

Lemma ReadSymbolFile_spec fs f s :
  resolver_inv None s ->
  match file_text fs f with
  | Some text => ReadSymbolFile fs f s = Ok (Some ((alloc s).1, text ++ [NUL]), (alloc s).2)
  | None => exists s', ReadSymbolFile fs f s = Ok (None, s') /\ resolver_inv None s' /\ modules_ s' = modules_ s
  end.
Proof.
  intros Hinv. unfold file_text, ReadSymbolFile. destruct (st_size fs f) as [size|]; [|by exists s].
  pose proof (inv_alloc s Hinv) as Ha. pose proof (inv_free _ _ Ha) as (s' & Hf & Hi & Hm).
  cbn [alloc fst snd] in *. unfold alloc. destruct (opens fs f); cbn [negb andb].
  - destruct (s32 _ =? size); cbn [negb]; [done|]. rewrite Hf. exists s'. by split_and!.
  - rewrite Hf. exists s'. by split_and!.
Qed.

(** Every call is a step of the table, and keeps the invariant. *)
Lemma run_call_spec c s :
  resolver_inv None s ->
  match run_call c s, table_call c (table s) with
  | Ok (r, s'), Ok (r', t') => r = r' /\ (forall k, table s' k = t' k) /\ resolver_inv None s'
  | Undefined, Undefined => True
  | _, _ => False
  end.
Proof.
  intros Hinv. destruct c as [fs [module|] f|[module|] b|[module|] b|[module|]]; cbn [run_call table_call LoadModule
    LoadModuleUsingMapBuffer]; try (by cbn; split_and!).
  - destruct (str_find (modules_ s) (module_key module)) as [m|] eqn:Em.
    { unfold table_load, table. destruct (file_text fs f); cbn [fmap option_fmap option_map]; [rewrite Em|]; by split_and!. }
    pose proof (ReadSymbolFile_spec fs f s Hinv) as Hr. destruct (file_text fs f) as [text|].
    + rewrite Hr, bind_Ok. cbv beta iota. cbn [fmap option_fmap option_map].
      pose proof (load_owned_spec s module (text ++ [NUL]) Hinv Em) as Hl.
      destruct (_ ← _; _) as [[r s']| |], (table_load (table s) (Some module) (Some (text ++ [NUL]))) as [[r' t']| |]; try done.
      destruct Hl as (? & ? & ? & _). by split_and!.
    + destruct Hr as (s' & -> & Hi & Hms). cbn. split_and!; try done. intros k. unfold table. by rewrite Hms.
  - destruct (str_find (modules_ s) (module_key module)) as [m|] eqn:Em.
    { unfold table_load, table. rewrite Em. by split_and!. }
    pose proof (load_owned_spec s module (b ++ [NUL]) Hinv Em) as Hl. unfold alloc in *. cbn [fst snd] in Hl.
    destruct (_ ← _; _) as [[r s']| |], (table_load (table s) (Some module) (Some (b ++ [NUL]))) as [[r' t']| |]; try done.
    destruct Hl as (? & ? & ? & _). by split_and!.
  - pose proof (load_memory_spec None s module b Hinv) as Hl.
    destruct (LoadModuleUsingMemoryBuffer _ _ _) as [[r s']| |], (table_load (table s) (Some module) (Some b)) as [[r' t']| |]; try done.
    destruct Hl as (? & ? & ? & _). by split_and!.
  - destruct (unload_spec s module Hinv) as (s' & -> & Hi & Ht). by split_and!.
Qed.

Lemma reachable_inv s : resolver_reachable s -> resolver_inv None s.
Proof.
  induction 1 as [|s c r s' _ IH E]; [apply inv_new|].
  pose proof (run_call_spec c s IH) as Hc. rewrite E in Hc.
  destruct (table_call c (table s)) as [[r' t']| |]; [|done..]. by destruct Hc as (_ & _ & ?).
Qed.

(** The lookups are defined. *)
Lemma fill_defined s module frame :
  resolver_reachable s -> exists frame', FillSourceLineInfo module frame s = Ok frame'.
Proof.
  intros Hr. pose proof (ro_loaded _ _ (reachable_inv s Hr)) as Hl. unfold FillSourceLineInfo.
  destruct module as [md|]; [|by eexists]. destruct (str_find (modules_ s) (module_key md)) as [m|] eqn:Em; [|by eexists].
  apply Hl in Em. by apply (lookup_defined (loaded := loaded)).
Qed.

Lemma cfi_info_defined s module frame :
  resolver_reachable s -> exists info, ResolverFindCFIFrameInfo module frame s = Ok info.
Proof.
  intros Hr. pose proof (ro_loaded _ _ (reachable_inv s Hr)) as Hl. unfold ResolverFindCFIFrameInfo.
  destruct module as [md|]; [|by eexists]. destruct (str_find (modules_ s) (module_key md)) as [m|] eqn:Em; [|by eexists].
  apply Hl in Em. by apply (cfi_defined (loaded := loaded)).
Qed.

Lemma windows_info_defined s module frame :
  resolver_reachable s -> exists info, ResolverFindWindowsFrameInfo module frame s = Ok info.
Proof.
  intros Hr. pose proof (ro_loaded _ _ (reachable_inv s Hr)) as Hl. unfold ResolverFindWindowsFrameInfo.
  destruct module as [md|]; [|by eexists]. destruct (str_find (modules_ s) (module_key md)) as [m|] eqn:Em; [|by eexists].
  apply Hl in Em. by apply (windows_defined (loaded := loaded)).
Qed.

(** Loading from a buffer of the client's. *)
Lemma load_memory_reachable s module b :
  resolver_reachable s ->
  match LoadModuleUsingMemoryBuffer (Some module) b s with
  | Ok (r, s') => resolver_reachable s' /\ (r = true -> HasModule (Some module) s' = true)
  | Fail => False
  | Undefined => exists name data, LoadMap (CreateModule name) data = Undefined
  end.
Proof.
  intros Hr. pose proof (load_memory_spec None s module b (reachable_inv s Hr)) as Hl.
  destruct (LoadModuleUsingMemoryBuffer (Some module) b s) as [[r s']| |] eqn:E.
  - split; [by eapply (reach_call s (CallLoadMemoryBuffer (Some module) b))|]. intros _.
    destruct (table_load (table s) (Some module) (Some b)) as [[r' t']| |]; [|done..].
    destruct Hl as (_ & _ & _ & _ & [m Hm] & _). unfold HasModule. by rewrite Hm.
  - by destruct (table_load (table s) (Some module) (Some b)) as [[r' t']| |].
  - unfold LoadModuleUsingMemoryBuffer in E. destruct (str_find (modules_ s) (module_key module)); [done|].
    pose proof (load_loaded (loaded := loaded) (code_file module) b) as Hll.
    destruct (LoadMap (CreateModule (code_file module)) b) as [[ok m]| |] eqn:El; [|done|by eexists _, _].
    rewrite bind_Ok in E. destruct Hll as [_ Hc]. destruct ok, (IsCorrupt m); try done. by specialize (Hc eq_refl).
Qed.

(** Deleting all buffers of a well-formed resolver frees each exactly once. *)
Lemma delete_buffers_spec l : forall s,
  NoDup l.*2 -> (forall p, p ∈ live s <-> p ∈ l.*2) -> exists s', delete_buffers l s = Ok s' /\ live s' = ∅.
Proof.
  induction l as [|[k p] l IH]; intros s Hnd Hl.
  - exists s. split; [done|]. apply leibniz_equiv, set_equiv. intros p. rewrite Hl. set_solver.
  - cbn [delete_buffers]. unfold free. rewrite decide_True by (apply Hl; left). cbn [mbind outcome_bind].
    cbn [fmap list_fmap] in Hnd. apply NoDup_cons in Hnd as [Hp Hnd]. apply IH; [done|].
    intros q. cbn [live]. rewrite elem_of_difference, Hl, elem_of_singleton. cbn [fmap list_fmap snd].
    rewrite elem_of_cons. split; [tauto|]. intros Hq. split; [by right|]. by intros ->.
Qed.

Lemma buffers_NoDup (l : strmap nat) :
  str_sorted l -> (forall k k' p, str_find l k = Some p -> str_find l k' = Some p -> k = k') -> NoDup l.*2.
Proof.
  intros Hs Hd. assert (Hd': forall k k' p, (k, p) ∈ l -> (k', p) ∈ l -> k = k').
  { intros k k' p H1 H2. apply (Hd k k' p); by apply str_find_Some. }
  clear Hd. induction l as [|[k p] l IH]; [constructor|]. apply str_sorted_cons in Hs as [Hlt Hs].
  cbn [fmap list_fmap]. apply NoDup_cons. split.
  - intros ([k' p'] & E & Hin)%list_elem_of_fmap. simpl in E. subst p'. pose proof (Hlt _ _ Hin) as Hk.
    rewrite (Hd' k k' p) in Hk by (left || by right). by rewrite str_ltb_irrefl in Hk.
  - apply IH; [done|]. intros k1 k2 q H1 H2. apply (Hd' k1 k2 q); by right.
Qed.
End invariant.

(** [BasicSourceLineResolver] keeps the promises of the interface. *)
#[export] Instance basic_module_laws : SymbolModuleLaws BasicModule module_ok.
Proof.
  constructor.
  - intros name buffer. pose proof (LoadMapFromMemory_outcome name buffer) as H.
    cbn [LoadMap CreateModule IsCorrupt BasicModuleFactory].
    destruct (LoadMapFromMemory _ _) as [[ok m]| |]; [|done..]. by destruct H as [-> ?].
  - intros m base frame Hm. destruct (LookupAddress_cases m base frame Hm) as [(h & r & f & _ & E)|(_ & lim & _ & E)];
      eexists; exact E.
  - intros m base frame Hm. destruct (FindWindowsFrameInfo_defined m base frame Hm) as [r E]. by exists r.
  - intros m base frame _. by eexists.
Qed.

(** ** Properties *)
Section properties.
Context {M : Type} `{SymbolModule M} (loaded : M -> Prop) `{!SymbolModuleLaws M loaded}.
Implicit Types (s : Resolver M).

(** C8: a resolver behaves as a table from names to modules, whatever the kind of
    module: each load or unload of a reachable resolver gives the answer and the
    table the abstract call gives; a name is loaded at most once, a load that fails
    changes nothing, and [HasModule] and [IsModuleCorrupt] read the table. *)
Theorem resolver_table (c : call) s :
  resolver_reachable s ->
  (forall module, HasModule (Some module) s = bool_decide (is_Some (table s (module_key module)))) /\
  (forall module, IsModuleCorrupt (Some module) s =
     match table s (module_key module) with Some m => IsCorrupt m | None => false end) /\
  match run_call c s, table_call c (table s) with
  | Ok (r, s'), Ok (r', t') => r = r' /\ (forall k, table s' k = t' k) /\ resolver_reachable s'
  | Undefined, Undefined => True
  | _, _ => False
  end.
Proof.
  intros Hr. pose proof (reachable_inv loaded s Hr) as Hinv. split_and!.
  - intros module. unfold HasModule, table. by destruct (str_find _ _).
  - intros module. unfold IsModuleCorrupt, table.
    pose proof (ro_corrupt _ _ _ Hinv (module_key module)) as Hc.
    destruct (str_find (corrupt_modules_ s) _) as [u|].
    + destruct (proj1 Hc ltac:(by eexists)) as (m & -> & ->). done.
    + destruct (str_find (modules_ s) _) as [m|] eqn:Em; [|done]. destruct (IsCorrupt m) eqn:Ec; [|done].
      destruct (proj2 Hc ltac:(by exists m)) as [? ?]. done.
  - pose proof (run_call_spec loaded c s Hinv) as Hs.
    destruct (run_call c s) as [[r s']| |] eqn:Er; destruct (table_call c (table s)) as [[r' t']| |]; try done.
    destruct Hs as (-> & Ht & _). split_and!; [done|done|]. by eapply reach_call.
Qed.

(** the buffers of a resolver: after any sequence of calls the live ones are
    exactly those in [memory_buffers_], each under the name of a loaded module and
    under one name only; none are kept when the resolver does not need them; and
    the destructor frees every one, each once. *)
Lemma resolver_buffers s :
  resolver_reachable s ->
  (forall p, p ∈ live s <-> exists k, str_find (memory_buffers_ s) k = Some p) /\
  (forall k p, str_find (memory_buffers_ s) k = Some p -> is_Some (table s k)) /\
  (forall k k' p, str_find (memory_buffers_ s) k = Some p -> str_find (memory_buffers_ s) k' = Some p -> k = k') /\
  (ShouldDeleteMemoryBufferAfterLoadModule = true -> live s = ∅) /\
  exists s', destroy s = Ok s' /\ live s' = ∅.
Proof.
  intros Hr. pose proof (reachable_inv loaded s Hr) as [].
  assert (Hl: forall p, p ∈ live s <-> exists k, str_find (memory_buffers_ s) k = Some p).
  { intros p. rewrite ro_live0. naive_solver. }
  split_and!; try done.
  - intros Hd. apply leibniz_equiv, set_equiv. intros p. rewrite Hl, (ro_delete0 Hd). set_solver.
  - unfold destroy. apply (delete_buffers_spec loaded); cbn [live set_modules]; [by apply buffers_NoDup|].
    intros p. rewrite Hl. split.
    + intros [k Hk%str_find_Some]; [|done]. apply list_elem_of_fmap. by exists (k, p).
    + intros ([k q] & E & Hin)%list_elem_of_fmap. simpl in E. subst q. exists k. by apply str_find_Some.
Qed.

(** A module that a resolver of the keeping kind has loaded from a file or from
    a map buffer finds its buffer alive: loading it puts the buffer under its name. *)
Lemma resolver_keeps_buffer s fs (module : CodeModule) (text : cstring) (from_file : bool) r s' :
  resolver_reachable s -> ShouldDeleteMemoryBufferAfterLoadModule = false ->
  (if from_file then LoadModule fs (Some module) text s else LoadModuleUsingMapBuffer (Some module) text s) = Ok (r, s') ->
  r = true -> exists p, str_find (memory_buffers_ s') (module_key module) = Some p /\ p ∈ live s'.
Proof.
  intros Hr Hd E ->. pose proof (reachable_inv loaded s Hr) as Hinv.
  destruct (str_find (modules_ s) (module_key module)) as [m|] eqn:Em.
  { unfold LoadModule, LoadModuleUsingMapBuffer in E. rewrite Em in E. by destruct from_file. }
  assert (Hown: forall b, ('(r, s1) ← LoadModuleUsingMemoryBuffer (Some module) b (alloc s).2;
      keep_or_free module (alloc s).1 r s1) = Ok (true, s') ->
    exists p, str_find (memory_buffers_ s') (module_key module) = Some p /\ p ∈ live s').
  { intros b Eb. pose proof (load_owned_spec loaded s module b Hinv Em) as Hl. rewrite Eb in Hl.
    destruct (table_load (table s) (Some module) (Some b)) as [[r' t']| |]; [|done..].
    destruct Hl as (_ & _ & _ & Hl). by apply Hl. }
  destruct from_file.
  - unfold LoadModule in E. rewrite Em in E. pose proof (ReadSymbolFile_spec loaded fs text s Hinv) as Hf.
    destruct (file_text fs text) as [t|].
    + rewrite Hf, bind_Ok in E. by apply Hown in E.
    + destruct Hf as (s1 & Hf & _). rewrite Hf in E. done.
  - unfold LoadModuleUsingMapBuffer in E. rewrite Em in E. by apply Hown in E.
Qed.

(** The lookups of a reachable resolver are always defined, for any frame: in a
    loaded module they are the module's, otherwise they leave the frame as it is or
    find nothing. *)
Lemma resolver_lookups s (module : option CodeModule) (frame : StackFrame) :
  resolver_reachable s ->
  exists frame' w c, FillSourceLineInfo module frame s = Ok frame' /\
    ResolverFindWindowsFrameInfo module frame s = Ok w /\ ResolverFindCFIFrameInfo module frame s = Ok c /\
    match module with
    | Some md => match table s (module_key md) with
                 | Some m => ModuleLookupAddress m (base_address md) frame = Ok frame'
                 | None => frame' = frame /\ w = None /\ c = None
                 end
    | None => frame' = frame /\ w = None /\ c = None
    end.
Proof.
  intros Hr. pose proof (reachable_inv loaded s Hr) as [].
  unfold FillSourceLineInfo, ResolverFindWindowsFrameInfo, ResolverFindCFIFrameInfo, table.
  destruct module as [md|]; [|by eexists _, _, _].
  destruct (str_find (modules_ s) (module_key md)) as [m|] eqn:Em; [|by eexists _, _, _].
  apply ro_loaded0 in Em. destruct (lookup_defined (loaded := loaded) m (base_address md) frame Em) as [f' E1],
    (windows_defined (loaded := loaded) m (base_address md) frame Em) as [w E2], (cfi_defined (loaded := loaded) m (base_address md) frame Em) as [c E3].
  by exists f', w, c.
Qed.
End properties.

(** ** Witnesses *)

Definition demo_module : CodeModule := demo_module_at 0x400000 (lit "a.out").
Definition demo_symbols : cstring := lit "FUNC 800 20 0 main" ++ [LF].

(** The basic resolver with one module loaded. *)
Definition demo_resolver : Resolver BasicModule :=
  match LoadModuleUsingMapBuffer (Some demo_module) demo_symbols Resolver_new with
  | Ok (_, s) => s
  | _ => Resolver_new
  end.

Lemma demo_resolver_reachable : resolver_reachable demo_resolver.
Proof.
  apply (reach_call Resolver_new (CallLoadMapBuffer (Some demo_module) demo_symbols) true); [constructor|].
  by vm_compute.
Qed.

Lemma resolver_table_witness :
  HasModule (Some demo_module) demo_resolver = bool_decide (is_Some (table demo_resolver (lit "a.out"))) /\
  match run_call (CallUnload (Some demo_module)) demo_resolver,
        table_call (CallUnload (Some demo_module)) (table demo_resolver) with
  | Ok (r, s'), Ok (r', t') => r = r' /\ (forall k, table s' k = t' k) /\ resolver_reachable s'
  | Undefined, Undefined => True
  | _, _ => False
  end.
Proof.
  destruct (resolver_table module_ok (CallUnload (Some demo_module)) demo_resolver demo_resolver_reachable) as (H1 & _ & H2).
  split; [exact (H1 demo_module)|exact H2].
Defined.

Lemma resolver_buffers_witness : live demo_resolver = ∅ /\ exists s', destroy demo_resolver = Ok s' /\ live s' = ∅.
Proof.
  destruct (resolver_buffers module_ok demo_resolver demo_resolver_reachable) as (_ & _ & _ & Hd & Hs).
  split; [by apply Hd|exact Hs].
Defined.

Lemma resolver_lookups_witness :
  exists frame', FillSourceLineInfo (Some demo_module) (example_frame 0x400802) demo_resolver = Ok frame' /\
    function_name frame' = lit "main".
Proof.
  destruct (resolver_lookups module_ok demo_resolver (Some demo_module) (example_frame 0x400802) demo_resolver_reachable)
    as (f & _ & _ & E & _). exists f. split; [exact E|]. vm_compute in E. injection E as <-. by vm_compute.
Defined.

(** The same modules in a resolver that keeps its buffers. *)
Definition KeepingFactory : SymbolModule BasicModule := {|
  CreateModule := BasicModule_new;
  LoadMap := LoadMapFromMemory;
  IsCorrupt := is_corrupt_;
  ModuleLookupAddress := LookupAddress;
  ModuleFindWindowsFrameInfo := FindWindowsFrameInfo;
  ModuleFindCFIFrameInfo := λ m base frame, Ok (FindCFIFrameInfo m base frame);
  ShouldDeleteMemoryBufferAfterLoadModule := false
|}.

Lemma keeping_laws : @SymbolModuleLaws BasicModule KeepingFactory module_ok.
Proof.
  destruct basic_module_laws as [H1 H2 H3 H4]. constructor; [exact H1|exact H2|exact H3|exact H4].
Qed.

Lemma resolver_keeps_buffer_witness :
  exists s' p, @LoadModuleUsingMapBuffer BasicModule KeepingFactory (Some demo_module) demo_symbols Resolver_new = Ok (true, s') /\
    str_find (memory_buffers_ s') (lit "a.out") = Some p /\ p ∈ live s'.
Proof.
  destruct (@LoadModuleUsingMapBuffer BasicModule KeepingFactory (Some demo_module) demo_symbols Resolver_new)
    as [[r s']| |] eqn:E; [|by vm_compute in E..].
  assert (Hr: r = true) by (vm_compute in E; congruence). subst r.
  destruct (@resolver_keeps_buffer BasicModule KeepingFactory module_ok keeping_laws Resolver_new
              (mkFileSystem (λ _, None) (λ _, false) (λ f, f)) demo_module demo_symbols false true s'
              (@reach_new _ KeepingFactory) eq_refl E eq_refl) as (p & Hp & Hl).
  by exists s', p.
Defined.
