(* ===== verification/Symbolizer.v ===== *)
(** processor/stack_frame_symbolizer.cc: [StackFrameSymbolizer], which finds the
    module of a frame, fetches its symbols from a supplier when they are needed
    first, and asks the resolver (ResolverBase.v) for the source line;
    google_breakpad/processor/symbol_supplier.h: the interface of the supplier. *)
From Stdlib Require Import Ascii.
From stdpp Require Import strings list gmap.
From S2P Require Import Prelude StdMap RangeMap CStr StrMap CodeModules CfiFrameInfo SymbolFile BasicResolver BasicInvariant SymbolLoad ResolverLookup ResolverBase ResolverTable.

(** ** [SymbolSupplier] *)

(** [SymbolResult], with the symbol data when they are found. *)
Inductive SymbolResult := NOT_FOUND | FOUND (symbol_data : cstring) | INTERRUPT.

(** A supplier may keep state of its own. *)
Class SymbolSupplier (S : Type) := {
  GetCStringSymbolData : CodeModule -> S -> SymbolResult * S;
  FreeSymbolData : CodeModule -> S -> S
}.

(** ** [StackFrame] with its module and trust *)

Inductive FrameTrust :=
| FRAME_TRUST_NONE | FRAME_TRUST_SCAN | FRAME_TRUST_CFI_SCAN | FRAME_TRUST_FP
| FRAME_TRUST_CFI | FRAME_TRUST_PREWALKED | FRAME_TRUST_CONTEXT.

Record Frame := mkFrame { sframe : StackFrame; frame_module : option CodeModule; trust : FrameTrust }.

(** The constructor, with an instruction address. *)
Definition Frame_new (instruction : Z) : Frame :=
  mkFrame (mkStackFrame instruction [] 0 [] 0 0) None FRAME_TRUST_NONE.

Definition set_sframe (f : Frame) (s : StackFrame) : Frame := mkFrame s (frame_module f) (trust f).
Definition set_frame_module (f : Frame) (m : option CodeModule) : Frame := mkFrame (sframe f) m (trust f).

(** ** [StackFrameSymbolizer] *)

Inductive SymbolizerResult := kNoError | kError | kInterrupt | kWarningCorruptSymbols.

Section symbolizer.
Context {M : Type} `{SymbolModule M} {S : Type} `{SymbolSupplier S} {C : Type} `{CodeModules C}.

Record Symbolizer := mkSymbolizer {
  supplier_ : option S;
  resolver_ : option (Resolver M);
  no_symbol_modules_ : strmap unit
}.

Definition Symbolizer_new (supplier : option S) (resolver : option (Resolver M)) : Symbolizer :=
  mkSymbolizer supplier resolver [].

Definition Reset (s : Symbolizer) : Symbolizer := mkSymbolizer (supplier_ s) (resolver_ s) [].

Definition HasImplementation (s : Symbolizer) : bool :=
  match resolver_ s, supplier_ s with Some _, Some _ => true | _, _ => false end.

Definition no_symbols (s : Symbolizer) (module : CodeModule) : Symbolizer :=
  mkSymbolizer (supplier_ s) (resolver_ s) (str_insert (no_symbol_modules_ s) (code_file module) ()).

(** The module at the frame's instruction, loaded or else unloaded. *)
Definition frame_module_at (modules unloaded_modules : option C) (address : Z) : option CodeModule :=
  let module := match modules with Some ms => GetModuleForAddress ms address | None => None end in
  match module with
  | Some m => Some m
  | None => match unloaded_modules with Some ms => GetModuleForAddress ms address | None => None end
  end.

(** Fill in the source line of a frame whose module the resolver has. *)
Definition resolve_frame (resolver : Resolver M) (module : CodeModule) (frame : Frame)
  : outcome (SymbolizerResult * Frame) :=
  filled ← FillSourceLineInfo (Some module) (sframe frame) resolver;
  Ok (if IsModuleCorrupt (Some module) resolver then kWarningCorruptSymbols else kNoError, set_sframe frame filled).

(** [FillSourceLineInfo]. *)
Definition SymbolizeFrame (modules unloaded_modules : option C) (frame : Frame) (s : Symbolizer)
  : outcome (SymbolizerResult * Frame * Symbolizer) :=
  match frame_module_at modules unloaded_modules (instruction (sframe frame)) with
  | None => Ok (kError, frame, s)
  | Some module =>
      let frame := set_frame_module frame (Some module) in
      match resolver_ s with
      | None => Ok (kError, frame, s)
      | Some resolver =>
          match str_find (no_symbol_modules_ s) (code_file module) with
          | Some _ => Ok (kError, frame, s)
          | None =>
              if HasModule (Some module) resolver then
                '(result, frame) ← resolve_frame resolver module frame; Ok (result, frame, s)
              else
                match supplier_ s with
                | None => Ok (kError, frame, s)
                | Some supplier =>
                    let '(symbol_result, supplier) := GetCStringSymbolData module supplier in
                    match symbol_result with
                    | FOUND symbol_data =>
                        '(load_success, resolver) ← LoadModuleUsingMemoryBuffer (Some module) symbol_data resolver;
                        let supplier := if ShouldDeleteMemoryBufferAfterLoadModule
                                        then FreeSymbolData module supplier else supplier in
                        let s := mkSymbolizer (Some supplier) (Some resolver) (no_symbol_modules_ s) in
                        if load_success : bool then
                          '(result, frame) ← resolve_frame resolver module frame; Ok (result, frame, s)
                        else Ok (kError, frame, no_symbols s module)
                    | NOT_FOUND =>
                        Ok (kError, frame, no_symbols (mkSymbolizer (Some supplier) (Some resolver) (no_symbol_modules_ s)) module)
                    | INTERRUPT =>
                        Ok (kInterrupt, frame, mkSymbolizer (Some supplier) (Some resolver) (no_symbol_modules_ s))
                    end
                end
          end
      end
  end.

Definition SymbolizerFindWindowsFrameInfo (frame : Frame) (s : Symbolizer) : outcome (option WindowsFrameInfo) :=
  match resolver_ s with
  | Some resolver => ResolverFindWindowsFrameInfo (frame_module frame) (sframe frame) resolver
  | None => Ok None
  end.

Definition SymbolizerFindCFIFrameInfo (frame : Frame) (s : Symbolizer) : outcome (option CFIFrameInfo) :=
  match resolver_ s with
  | Some resolver => ResolverFindCFIFrameInfo (frame_module frame) (sframe frame) resolver
  | None => Ok None
  end.
End symbolizer.

Arguments Symbolizer : clear implicits.

(** ** Properties *)
Section properties.
Context {M : Type} `{SymbolModule M} (loaded : M -> Prop) `{!SymbolModuleLaws M loaded}.
Context {S : Type} `{SymbolSupplier S} {C : Type} `{CodeModules C}.
Implicit Types (s : Symbolizer M S) (modules unloaded : option C).

(** The resolver is one a client can have made. *)
Definition symbolizer_ok s : Prop := forall r, resolver_ s = Some r -> resolver_reachable r.

Definition is_warning (r : SymbolizerResult) : bool := match r with kWarningCorruptSymbols => true | _ => false end.
Definition is_resolved (r : SymbolizerResult) : bool :=
  match r with kNoError | kWarningCorruptSymbols => true | _ => false end.

(** The frame's source fields come from the module of the frame in the resolver. *)
Definition resolved_by (r : Resolver M) (m : CodeModule) (frame frame' : Frame) (result : SymbolizerResult) : Prop :=
  HasModule (Some m) r = true /\ IsModuleCorrupt (Some m) r = is_warning result /\
  FillSourceLineInfo (Some m) (sframe frame) r = Ok (sframe frame').

Lemma resolve_frame_spec r m frame :
  resolver_reachable r -> HasModule (Some m) r = true ->
  exists result frame', resolve_frame r m frame = Ok (result, frame') /\ is_resolved result = true /\
    frame_module frame' = frame_module frame /\ trust frame' = trust frame /\ resolved_by r m frame frame' result.
Proof.
  intros Hr Hm. unfold resolve_frame. destruct (fill_defined loaded r (Some m) (sframe frame) Hr) as [f E].
  rewrite E, bind_Ok. eexists _, _. split; [reflexivity|].
  destruct (IsModuleCorrupt (Some m) r) eqn:Ec; split_and!; try done; by split_and!.
Qed.

Lemma symbolize_frame_spec modules unloaded (frame : Frame) s :
  symbolizer_ok s ->
  match SymbolizeFrame modules unloaded frame s with
  | Ok (result, frame', s') =>
      let found := frame_module_at modules unloaded (instruction (sframe frame)) in
      symbolizer_ok s' /\ trust frame' = trust frame /\
      frame_module frame' = match found with Some m => Some m | None => frame_module frame end /\
      (if is_resolved result
       then exists m r, found = Some m /\ resolver_ s' = Some r /\ resolved_by r m frame frame' result
       else sframe frame' = sframe frame) /\
      (forall m, found = Some m -> is_Some (str_find (no_symbol_modules_ s) (code_file m)) -> result = kError /\ s' = s)
  | Fail => False
  | Undefined => exists name data, LoadMap (CreateModule name) data = Undefined
  end.
Proof.
  intros Hs. unfold SymbolizeFrame. set (found := frame_module_at _ _ _).
  destruct found as [m|]; [|by split_and!].
  destruct (resolver_ s) as [r|] eqn:Er; [|split_and!; try done].
  pose proof (Hs r Er) as Hr. set (frame1 := set_frame_module frame (Some m)).
  destruct (str_find (no_symbol_modules_ s) (code_file m)) as [u|] eqn:En; [by split_and!|].
  assert (Hno: forall m', Some m = Some m' -> is_Some (str_find (no_symbol_modules_ s) (code_file m')) ->
    forall P : Prop, P) by (intros m' [= <-]; rewrite En; by intros [? ?]).
  destruct (HasModule (Some m) r) eqn:Hm.
  { destruct (resolve_frame_spec r m frame1 Hr Hm) as (res & f' & E & Hres & Hfm & Hft & Hby).
    rewrite E, bind_Ok. cbv beta iota zeta. rewrite Hres. split_and!; try done; [by exists m, r|].
    intros m' ? ?. by eapply Hno. }
  destruct (supplier_ s) as [sup|]; [|split_and!; try done; intros m' ? ?; by eapply Hno].
  destruct (GetCStringSymbolData m sup) as [[|data|] sup'].
  - split_and!; try done; [by intros r' [= <-]|]. intros m' ? ?; by eapply Hno.
  - pose proof (load_memory_reachable loaded r m data Hr) as Hl.
    destruct (LoadModuleUsingMemoryBuffer (Some m) data r) as [[ok r']| |]; [|done|exact Hl].
    rewrite bind_Ok. cbv beta iota zeta. destruct Hl as [Hr' Hok]. destruct ok.
    + destruct (resolve_frame_spec r' m frame1 Hr' (Hok eq_refl)) as (res & f' & E & Hres & Hfm & Hft & Hby).
      rewrite E, bind_Ok. cbv beta iota zeta. rewrite Hres.
      split_and!; try done; [by intros r1 [= <-]|by exists m, r'|]. intros m' ? ?; by eapply Hno.
    + split_and!; try done; [by intros r1 [= <-]|]. intros m' ? ?; by eapply Hno.
  - split_and!; try done; [by intros r' [= <-]|]. intros m' ? ?; by eapply Hno.
Qed.

(** [FillSourceLineInfo] of the symbolizer.  The frame gets the module at its
    instruction.  Success or the corrupt-symbols warning means that the resolver now
    has that module, uncorrupted or corrupt, and that the source fields are what it
    gives; an error or an interruption leaves the source fields as they were.  Once a
    module is known to have no symbols the supplier is not asked again. *)
Lemma symbolizer_fill modules unloaded (frame : Frame) s :
  symbolizer_ok s ->
  match SymbolizeFrame modules unloaded frame s with
  | Ok (result, frame', s') =>
      let found := frame_module_at modules unloaded (instruction (sframe frame)) in
      symbolizer_ok s' /\ trust frame' = trust frame /\
      frame_module frame' = match found with Some m => Some m | None => frame_module frame end /\
      (if is_resolved result
       then exists m r, found = Some m /\ resolver_ s' = Some r /\ resolved_by r m frame frame' result
       else sframe frame' = sframe frame) /\
      (forall m, found = Some m -> is_Some (str_find (no_symbol_modules_ s) (code_file m)) -> result = kError /\ s' = s)
  | Fail => False
  | Undefined => exists name data, LoadMap (CreateModule name) data = Undefined
  end.
Proof. apply symbolize_frame_spec. Qed.

(** The symbolizers that symbolizing frames of a process leads to. *)
Inductive symbolizer_reaches modules unloaded s : Symbolizer M S -> Prop :=
| reaches_start : symbolizer_reaches modules unloaded s s
| reaches_frame s1 frame result frame' s2 :
    symbolizer_reaches modules unloaded s s1 -> SymbolizeFrame modules unloaded frame s1 = Ok (result, frame', s2) ->
    symbolizer_reaches modules unloaded s s2.

Lemma symbolizer_reaches_ok modules unloaded s s' : symbolizer_reaches modules unloaded s s' -> symbolizer_ok s -> symbolizer_ok s'.
Proof.
  induction 1 as [|s1 frame result frame' s2 _ IH E]; [done|]. intros Hs.
  pose proof (symbolize_frame_spec modules unloaded frame s1 (IH Hs)) as Hf. rewrite E in Hf. apply Hf.
Qed.

(** The supplier has symbols for a module of the process that cannot be loaded: they
    are text whose reading is undefined. *)
Definition undefined_supply modules unloaded s : Prop :=
  exists address module supplier data supplier', frame_module_at modules unloaded address = Some module /\
    supplier_ s = Some supplier /\ GetCStringSymbolData module supplier = (FOUND data, supplier') /\
    LoadMap (CreateModule (code_file module)) data = Undefined.

Lemma resolve_frame_defined r m frame : resolver_reachable r -> resolve_frame r m frame <> Undefined.
Proof.
  intros Hr. unfold resolve_frame. by destruct (fill_defined loaded r (Some m) (sframe frame) Hr) as [f ->].
Qed.

(** Nothing else makes symbolizing undefined. *)
Lemma symbolize_undefined modules unloaded frame s :
  symbolizer_ok s -> SymbolizeFrame modules unloaded frame s = Undefined -> undefined_supply modules unloaded s.
Proof.
  intros Hs. unfold SymbolizeFrame. destruct (frame_module_at _ _ _) as [m|] eqn:Em; [|done].
  destruct (resolver_ s) as [r|] eqn:Er; [|done]. pose proof (Hs r Er) as Hr.
  destruct (str_find (no_symbol_modules_ s) (code_file m)); [done|].
  assert (Hres: forall r' f (s' : Symbolizer M S), resolver_reachable r' ->
    ('(result, f) ← resolve_frame r' m f; Ok (result, f, s')) <> Undefined).
  { intros r' f s' Hr'. pose proof (resolve_frame_defined r' m f Hr'). by destruct (resolve_frame r' m f) as [[? ?]| |]. }
  destruct (HasModule (Some m) r); [by intros ?%Hres|]. destruct (supplier_ s) as [sup|] eqn:Es; [|done].
  destruct (GetCStringSymbolData m sup) as [[|data|] sup'] eqn:Eg; [done| |done].
  pose proof (load_memory_reachable loaded r m data Hr) as Hl. intros Hu. exists (instruction (sframe frame)), m, sup, data, sup'. split_and!; try done.
  pose proof (load_loaded (code_file m) data) as Hld.
  destruct (LoadMap (CreateModule (code_file m)) data) as [[ok m']| |] eqn:El; [|done..].
  exfalso. destruct Hld as [_ Hcorrupt].
  destruct (LoadModuleUsingMemoryBuffer (Some m) data r) as [[b r']| |] eqn:Eb; [|done|].
  - rewrite bind_Ok in Hu. cbv beta iota zeta in Hu. destruct Hl as [Hr' _]. destruct b; [by apply Hres in Hu|done].
  - revert Eb. unfold LoadModuleUsingMemoryBuffer. destruct (str_find _ _); [done|]. rewrite El, bind_Ok.
    destruct ok; [done|]. by rewrite Hcorrupt.
Qed.

(** The modules of the resolver. *)
Definition resolver_modules s (P : M -> Prop) : Prop :=
  forall r k m, resolver_ s = Some r -> str_find (modules_ r) k = Some m -> P m.

(** What the supplier has for the modules of a process, loaded, has [P]. *)
Definition supplies (P : M -> Prop) : Prop :=
  forall module (supplier : S) data supplier', GetCStringSymbolData module supplier = (FOUND data, supplier') ->
    exists ok m, LoadMap (CreateModule (code_file module)) data = Ok (ok, m) /\ P m.

Lemma load_modules (P : M -> Prop) r module data ok r' :
  resolver_reachable r -> (forall k m, str_find (modules_ r) k = Some m -> P m) ->
  (exists ok m, LoadMap (CreateModule (code_file module)) data = Ok (ok, m) /\ P m) ->
  LoadModuleUsingMemoryBuffer (Some module) data r = Ok (ok, r') -> forall k m, str_find (modules_ r') k = Some m -> P m.
Proof.
  intros Hr Hall (b & m & El & Hm). unfold LoadModuleUsingMemoryBuffer. destruct (str_find (modules_ r) (module_key module)) eqn:Ef;
    [by intros [= <- <-]|]. rewrite El, bind_Ok. cbv beta iota. destruct (_ && _); [done|]. intros [= <- <-] k m'. cbn [set_modules modules_].
  rewrite str_find_insert by apply (reachable_inv loaded r Hr). destruct (str_find (modules_ r) k) eqn:Ek; [|dif; [by intros [= <-]|done]].
  intros [= <-]. by eapply Hall.
Qed.

Lemma symbolize_modules (P : M -> Prop) modules unloaded frame s result frame' s' :
  symbolizer_ok s -> supplies P -> resolver_modules s P -> SymbolizeFrame modules unloaded frame s = Ok (result, frame', s') ->
  resolver_modules s' P.
Proof.
  intros Hs Hsup Hall. unfold SymbolizeFrame. destruct (frame_module_at _ _ _) as [m|]; [|by intros [= <- <- <-]].
  destruct (resolver_ s) as [r|] eqn:Er; [|by intros [= <- <- <-]]. pose proof (Hs r Er) as Hr.
  assert (Hr0: forall s1, resolver_ s1 = Some r -> resolver_modules s1 P) by (intros s1 E r1 k m1 E1; rewrite E in E1; injection E1 as <-; by eapply Hall).
  destruct (str_find (no_symbol_modules_ s) (code_file m)); [by intros [= <- <- <-]|].
  assert (Hres: forall r1 f s1, ('(result, f) ← resolve_frame r1 m f; Ok (result, f, s1)) = Ok (result, frame', s') -> s' = s1).
  { intros r1 f s1. destruct (resolve_frame r1 m f) as [[? ?]| |]; [|done..]. rewrite bind_Ok. by intros [= _ _ <-]. }
  destruct (HasModule (Some m) r); [by intros ->%Hres|]. destruct (supplier_ s) as [sup|]; [|by intros [= <- <- <-]].
  destruct (GetCStringSymbolData m sup) as [[|data|] sup'] eqn:Eg; [by intros [= <- <- <-]; apply Hr0| |by intros [= <- <- <-]; apply Hr0].
  destruct (LoadModuleUsingMemoryBuffer (Some m) data r) as [[b r']| |] eqn:Eb; [|done..]. rewrite bind_Ok. cbv beta iota zeta.
  pose proof (load_modules P r m data b r' Hr ltac:(intros k m1; by apply Hall) (Hsup _ _ _ _ Eg) Eb) as Hall'.
  destruct b; [intros ->%Hres|intros [= <- <- <-]]; intros r1 k m1 [= <-]; apply Hall'.
Qed.

Lemma reaches_modules (P : M -> Prop) modules unloaded s s' :
  symbolizer_reaches modules unloaded s s' -> symbolizer_ok s -> supplies P -> resolver_modules s P -> resolver_modules s' P.
Proof.
  induction 1 as [|s1 frame result frame' s2 Hr IH E]; [done|]. intros Hs Hsup Hall.
  eapply symbolize_modules; [|exact Hsup|by apply IH|exact E]. by eapply symbolizer_reaches_ok.
Qed.

(** What is kept of a symbolizer while frames are symbolized, [blame] being what an
    undefined step shows. *)
Record symbols_kept modules unloaded (Inv : Symbolizer M S -> Prop) (blame : Prop) : Prop := {
  sk_ok s : Inv s -> symbolizer_ok s;
  sk_step frame s result frame' s' : Inv s -> SymbolizeFrame modules unloaded frame s = Ok (result, frame', s') -> Inv s';
  sk_load s : Inv s -> undefined_supply modules unloaded s -> blame
}.

Lemma symbolize_kept modules unloaded Inv blame (frame : Frame) s :
  symbols_kept modules unloaded Inv blame -> Inv s ->
  match SymbolizeFrame modules unloaded frame s with
  | Ok (_, frame', s') => Inv s' /\
      frame_module frame' = match frame_module_at modules unloaded (instruction (sframe frame)) with Some m => Some m | None => frame_module frame end
  | Fail => False
  | Undefined => blame
  end.
Proof.
  intros Hk Hs. pose proof (symbolize_frame_spec modules unloaded frame s (sk_ok _ _ _ _ Hk s Hs)) as Hf.
  destruct (SymbolizeFrame modules unloaded frame s) as [[[result frame'] s']| |] eqn:E; [|done|].
  - split; [by eapply sk_step|apply Hf].
  - eapply sk_load; [done|exact Hs|]. eapply symbolize_undefined; [by eapply sk_ok|done].
Qed.

(** Being a symbolizer that a client can have made is kept. *)
Lemma symbols_kept_ok modules unloaded :
  symbols_kept modules unloaded symbolizer_ok (exists name data, LoadMap (CreateModule (M := M) name) data = Undefined).
Proof.
  constructor; [done| |].
  - intros frame s result frame' s' Hs E. pose proof (symbolize_frame_spec modules unloaded frame s Hs) as Hf. rewrite E in Hf. apply Hf.
  - intros s _ (_ & m & _ & data & _ & _ & _ & _ & E). by exists (code_file m), data.
Qed.
End properties.

(** ** Witness *)

(** A supplier that has the symbols of every module, and counts the requests. *)
#[export] Instance demo_supplier : SymbolSupplier nat := {|
  GetCStringSymbolData := λ _ n, (FOUND (demo_symbols ++ [NUL]), Datatypes.S n);
  FreeSymbolData := λ _ n, n
|}.

Definition demo_symbolizer : Symbolizer BasicModule nat := Symbolizer_new (Some O) (Some Resolver_new).

Lemma demo_symbolizer_ok : symbolizer_ok demo_symbolizer.
Proof. intros r [= <-]. constructor. Qed.

Lemma symbolizer_fill_witness :
  exists frame' s', SymbolizeFrame (Some demo_modules) None (Frame_new 0x400ffe) demo_symbolizer = Ok (kNoError, frame', s') /\
    symbolizer_ok s' /\ frame_module frame' = Some (demo_module_at 0x400000 (lit "a.out")).
Proof.
  pose proof (symbolizer_fill module_ok (Some demo_modules) None (Frame_new 0x400ffe) demo_symbolizer demo_symbolizer_ok) as Hf.
  destruct (SymbolizeFrame (Some demo_modules) None (Frame_new 0x400ffe) demo_symbolizer) as [[[res f'] s']| |] eqn:E;
    [|done|by vm_compute in E].
  assert (Hres: res = kNoError) by (vm_compute in E; congruence). subst res.
  destruct Hf as (Hs & _ & Hm & _). exists f', s'. split_and!; [done|exact Hs|]. rewrite Hm. by vm_compute.
Defined.
