(* ===== verification/Stackwalker.v ===== *)
(** processor/stackwalker.cc, google_breakpad/processor/stackwalker.h: the stack
    walk for any CPU, its termination rules and the scan for return addresses. *)
From Stdlib Require Import Ascii.
From stdpp Require Import strings list gmap.
From S2P Require Import Prelude StdMap RangeMap CStr StrMap Memory MemoryRegion CodeModules CfiFrameInfo SymbolFile BasicResolver BasicInvariant SymbolLoad ResolverLookup ResolverBase ResolverTable Symbolizer.

Definition kRASearchWords : Z := 40.

(** The limits, which clients can set. *)
Record WalkLimits := mkWalkLimits { max_frames_ : Z; max_frames_set_ : bool; max_frames_scanned_ : Z }.

Definition default_limits : WalkLimits := mkWalkLimits (Z.shiftl 1 20) false (Z.shiftl 1 14).
Definition set_max_frames (l : WalkLimits) (max_frames : Z) : WalkLimits :=
  mkWalkLimits max_frames true (max_frames_scanned_ l).
Definition set_max_frames_scanned (l : WalkLimits) (n : Z) : WalkLimits :=
  mkWalkLimits (max_frames_ l) (max_frames_set_ l) n.

(** [InsertSpecialAttentionModule]: a module is listed once. *)
Definition InsertSpecialAttentionModule (symbolizer_result : SymbolizerResult) (module : option CodeModule)
    (modules : list CodeModule) : outcome (list CodeModule) :=
  match module with
  | None => Ok modules
  | Some module =>
      match symbolizer_result with
      | kError | kWarningCorruptSymbols =>
          Ok (if bool_decide (module ∈ modules) then modules else modules ++ [module])
      | _ => Undefined
      end
  end.

(** [TerminateWalk]. *)
Definition TerminateWalk (caller_ip caller_sp callee_sp : Z) (first_unwind : bool) : bool :=
  if caller_ip <? Z.shiftl 1 12 then true
  else if (if first_unwind then caller_sp <? callee_sp else caller_sp <=? callee_sp) then true
  else false.

(** The trust levels that count against [max_frames_scanned_]. *)
Definition is_dubious (t : FrameTrust) : bool :=
  match t with FRAME_TRUST_NONE | FRAME_TRUST_SCAN | FRAME_TRUST_CFI_SCAN => true | _ => false end.

Section walk.
Context {M : Type} `{SymbolModule M} {S : Type} `{SymbolSupplier S} {C : Type} `{CodeModules C}.
Context {R : Type} `{MemoryRegion R}.
Abbreviation Symb := (Symbolizer M S).

(** [Stackwalker]: the members of the base class but the symbolizer, whose state
    the calls thread. *)
Record Stackwalker := mkStackwalker {
  os_short : cstring;
  memory_ : option R;
  modules_list : option C;
  unloaded_modules_ : option C
}.

(** [InstructionAddressSeemsValid]. *)
Definition InstructionAddressSeemsValid (w : Stackwalker) (address : Z) (s : Symb) : outcome (bool * Symb) :=
  '(symbolizer_result, frame, s) ← SymbolizeFrame (modules_list w) (unloaded_modules_ w) (Frame_new address) s;
  match frame_module frame with
  | None => Ok (false, s)
  | Some _ =>
      if negb (HasImplementation s) then Ok (true, s)
      else match symbolizer_result with
           | kNoError | kWarningCorruptSymbols =>
               Ok (negb (bool_decide (function_name (sframe frame) = [])), s)
           | _ => Ok (true, s)
           end
  end.

(** [ScanForReturnAddress(location_start, ..., searchwords)] for an [n]-byte
    instruction type: the location and the value found.  The loop runs while
    [location] is at most [location_end], which is computed in 64 bits; [location]
    has the width of the type.  [Fail] is a loop that outlives its fuel, which
    [scan_for_return_address] excludes. *)
Fixpoint scan_loop (n fuel : nat) (w : Stackwalker) (memory : R) (location_end location : Z) (s : Symb)
  : outcome (option (Z * Z) * Symb) :=
  match fuel with
  | O => Fail
  | Datatypes.S fuel =>
      if location <=? location_end then
        match GetMemoryAtAddress n memory location with
        | Undefined => Undefined
        | Fail => Ok (None, s)
        | Ok ip =>
            let next := scan_loop n fuel w memory location_end (wrap (8 * Z.of_nat n) (location + Z.of_nat n)) in
            match modules_list w with
            | None => next s
            | Some ms =>
                match GetModuleForAddress ms ip with
                | None => next s
                | Some _ =>
                    '(seems_valid, s) ← InstructionAddressSeemsValid w ip s;
                    if seems_valid : bool then Ok (Some (location, ip), s) else next s
                end
            end
        end
      else Ok (None, s)
  end.

Definition ScanForReturnAddressWords (n : nat) (w : Stackwalker) (memory : R) (location_start searchwords : Z) (s : Symb)
  : outcome (option (Z * Z) * Symb) :=
  scan_loop n (Z.to_nat searchwords + 3) w memory
    (wrap 64 (location_start + searchwords * Z.of_nat n)) location_start s.

Definition ScanForReturnAddress (n : nat) (w : Stackwalker) (memory : R) (location_start : Z) (is_context_frame : bool)
    (s : Symb) : outcome (option (Z * Z) * Symb) :=
  let search_words := if is_context_frame then kRASearchWords * 4 else kRASearchWords in
  ScanForReturnAddressWords n w memory location_start search_words s.
End walk.

Arguments Stackwalker : clear implicits.

(** ** The walk *)

(** What a CPU's stack walker provides: its frames extend [StackFrame].
    [GetCallerFrame] may write to the frames of the call stack, which it reaches by
    pointers: it returns the caller and the frames it leaves. *)
Class CpuWalker (W F St : Type) := {
  GetContextFrame : W -> option F;
  GetCallerFrame : W -> list F -> bool -> St -> outcome (option F * list F * St);
  base_frame : F -> Frame;
  set_base_frame : F -> Frame -> F
}.

(** For a walker that leaves the frames as they are. *)
Definition leave {F St} (frames : list F) (r : outcome (option F * St)) : outcome (option F * list F * St) :=
  '(f, st) ← r; Ok (f, frames, st).

Section walk_loop.
Context {M : Type} `{SymbolModule M} {S : Type} `{SymbolSupplier S} {C : Type} `{CodeModules C}.
Context {W F : Type} `{!CpuWalker W F (Symbolizer M S)}.

(** The result of [Walk]: whether it completed, the call stack, the modules
    without symbols and with corrupt symbols, and the symbolizer. *)
Record WalkResult := mkWalkResult {
  completed : bool;
  frames_ : list F;
  modules_without_symbols : list CodeModule;
  modules_with_corrupt_symbols : list CodeModule;
  walk_symbolizer : Symbolizer M S
}.

(** One turn of the loop of [Walk], up to the push of the frame: [None] when the
    walk is interrupted. *)
Definition visit_frame (modules unloaded : option C) (f : F) (without corrupt : list CodeModule) (s : Symbolizer M S)
  : outcome (option F * list CodeModule * list CodeModule * Symbolizer M S) :=
  '(symbolizer_result, frame, s) ← SymbolizeFrame modules unloaded (base_frame f) s;
  let f := set_base_frame f frame in
  match symbolizer_result with
  | kInterrupt => Ok (None, without, corrupt, s)
  | kError =>
      without ← InsertSpecialAttentionModule symbolizer_result (frame_module frame) without;
      Ok (Some f, without, corrupt, s)
  | kWarningCorruptSymbols =>
      corrupt ← InsertSpecialAttentionModule symbolizer_result (frame_module frame) corrupt;
      Ok (Some f, without, corrupt, s)
  | kNoError => Ok (Some f, without, corrupt, s)
  end.

(** The loop of [Walk]; [Fail] is a loop that outlives its fuel, which [Walk_outcome]
    excludes. *)
Fixpoint walk_loop (fuel : nat) (limits : WalkLimits) (w : W) (modules unloaded : option C) (frame : option F)
    (stack : list F) (scanned_frames : Z) (without corrupt : list CodeModule) (s : Symbolizer M S)
  : outcome WalkResult :=
  match frame with
  | None => Ok (mkWalkResult true stack without corrupt s)
  | Some f =>
      match fuel with
      | O => Fail
      | Datatypes.S fuel =>
          '(visited, without, corrupt, s) ← visit_frame modules unloaded f without corrupt s;
          match visited with
          | None => Ok (mkWalkResult false stack without corrupt s)
          | Some f =>
              let scanned_frames := if is_dubious (trust (base_frame f)) then scanned_frames + 1 else scanned_frames in
              let stack := stack ++ [f] in
              if max_frames_ limits <? Z.of_nat (length stack) then Ok (mkWalkResult true stack without corrupt s)
              else
                let stack_scan_allowed := scanned_frames <? max_frames_scanned_ limits in
                '(frame, stack, s) ← GetCallerFrame w stack stack_scan_allowed s;
                walk_loop fuel limits w modules unloaded frame stack scanned_frames without corrupt s
          end
      end
  end.

(** [Walk].  The stack is cleared first; the lists of modules are the caller's. *)
Definition Walk (limits : WalkLimits) (w : W) (modules unloaded : option C) (without corrupt : list CodeModule)
    (s : Symbolizer M S) : outcome WalkResult :=
  walk_loop (Z.to_nat (max_frames_ limits) + 1) limits w modules unloaded (GetContextFrame w) [] 0 without corrupt s.
End walk_loop.

Arguments WalkResult : clear implicits.

(** ** What a walk promises *)

(** Two versions of a frame that the walk cannot tell apart. *)
Definition same_frame {F} (base : F -> Frame) (sp ip : F -> Z) (f g : F) : Prop :=
  base g = base f /\ sp g = sp f /\ ip g = ip f.

(** What the walk relies on of a CPU's walker, [sp] and [ip] being the stack and
    the instruction pointer of its frames: neither symbolizing a frame nor looking
    for a caller changes them, the context frame is not a guess, a caller passes
    [TerminateWalk], and none is found by scanning when scanning is not allowed. *)
Class CpuWalkerLaws (W F St : Type) `{!CpuWalker W F St} (sp ip : F -> Z) := {
  set_base_sp f b : sp (set_base_frame f b) = sp f;
  set_base_ip f b : ip (set_base_frame f b) = ip f;
  set_base_get f b : base_frame (set_base_frame f b) = b;
  context_trusted w f : GetContextFrame w = Some f -> is_dubious (trust (base_frame f)) = false;
  frames_kept w stack scan st o stack' st' :
    GetCallerFrame w stack scan st = Ok (o, stack', st') -> Forall2 (same_frame base_frame sp ip) stack stack';
  caller_checked w stack f scan st f' stack' st' :
    GetCallerFrame w (stack ++ [f]) scan st = Ok (Some f', stack', st') ->
    TerminateWalk (ip f') (sp f') (sp f) (length stack =? 0)%nat = false;
  caller_scanned w stack st f' stack' st' :
    GetCallerFrame w stack false st = Ok (Some f', stack', st') -> is_dubious (trust (base_frame f')) = false
}.

Lemma leave_Ok {F St} (frames : list F) (r : outcome (option F * St)) o frames' st :
  leave frames r = Ok (o, frames', st) <-> r = Ok (o, st) /\ frames' = frames.
Proof.
  unfold leave. destruct r as [[o' st']| |]; [|by split; [|intros []]..]. rewrite bind_Ok.
  split; [by intros [= <- <- <-]|by intros [[= <- <-] ->]].
Qed.

Lemma same_frames_refl {F} (base : F -> Frame) (sp ip : F -> Z) frames : Forall2 (same_frame base sp ip) frames frames.
Proof. by apply Forall_Forall2_diag, Forall_true. Qed.

Lemma TerminateWalk_false caller_ip caller_sp callee_sp first :
  TerminateWalk caller_ip caller_sp callee_sp first = false ->
  4096 <= caller_ip /\ callee_sp <= caller_sp /\ (first = false -> callee_sp < caller_sp).
Proof.
  unfold TerminateWalk. change (Z.shiftl 1 12) with 4096. destruct first; repeat dif; try done; intros _; lia.
Qed.

Lemma InsertSpecialAttentionModule_NoDup r m l l' :
  InsertSpecialAttentionModule r m l = Ok l' -> NoDup l -> NoDup l'.
Proof.
  unfold InsertSpecialAttentionModule. destruct m as [m|]; [|by intros [= <-]].
  destruct r; try done; intros [= <-] Hl; (case_bool_decide; [done|]); apply NoDup_app; split_and!; try done;
    try apply NoDup_singleton; intros x Hx ->%list_elem_of_singleton; done.
Qed.

Section walk_proofs.
Context {M : Type} `{SymbolModule M} {S : Type} `{SymbolSupplier S} {C : Type} `{CodeModules C}.
Implicit Types (s : Symbolizer M S).

(** Symbolizing changes neither the trust nor the instruction of a frame's caller. *)
Lemma SymbolizeFrame_trust (modules unloaded : option C) frame s result frame' s' :
  SymbolizeFrame modules unloaded frame s = Ok (result, frame', s') -> trust frame' = trust frame.
Proof.
  unfold SymbolizeFrame, resolve_frame.
  destruct (frame_module_at modules unloaded _) as [m|]; [|by intros [= <- <- <-]].
  destruct (resolver_ s) as [r|]; [|by intros [= <- <- <-]].
  destruct (str_find (no_symbol_modules_ s) _); [by intros [= <- <- <-]|].
  assert (Hres: forall r s1, ('(result, f) ← (filled ← FillSourceLineInfo (Some m) (sframe (set_frame_module frame (Some m))) r;
      Ok (if IsModuleCorrupt (Some m) r then kWarningCorruptSymbols else kNoError, set_sframe (set_frame_module frame (Some m)) filled));
      Ok (result, f, s1)) = Ok (result, frame', s') -> trust frame' = trust frame).
  { intros r' s1. destruct (FillSourceLineInfo _ _ r') as [f| |]; cbn [mbind outcome_bind]; [|done..]. by intros [= <- <- <-]. }
  destruct (HasModule (Some m) r); [apply Hres|].
  destruct (supplier_ s) as [sup|]; [|by intros [= <- <- <-]].
  destruct (GetCStringSymbolData m sup) as [[|data|] sup']; [by intros [= <- <- <-]| |by intros [= <- <- <-]].
  destruct (LoadModuleUsingMemoryBuffer _ _ _) as [[[] r']| |]; [|by intros [= <- <- <-]|done..].
  rewrite bind_Ok. cbv beta iota zeta. apply Hres.
Qed.

Context {W F : Type} `{!CpuWalker W F (Symbolizer M S)} (sp ip : F -> Z) `{!CpuWalkerLaws W F (Symbolizer M S) sp ip}.

(** The stack pointers of consecutive frames grow -- strictly, but for the first
    step -- and the callers' instruction pointers are not in the first page. *)
Definition climbing (frames : list F) : Prop :=
  forall i f f', frames !! i = Some f -> frames !! Datatypes.S i = Some f' ->
    sp f <= sp f' /\ (i <> O -> sp f < sp f') /\ 4096 <= ip f'.

Definition dubious_count (frames : list F) : Z :=
  Z.of_nat (length (filter (λ f, is_dubious (trust (base_frame f)) = true) frames)).

Lemma climbing_snoc frames f f' :
  climbing frames -> last frames = Some f -> TerminateWalk (ip f') (sp f') (sp f) (length frames =? 1)%nat = false ->
  climbing (frames ++ [f']).
Proof.
  intros Hc Hl Ht i g g' Hg Hg'. apply TerminateWalk_false in Ht as (Hip & Hsp & Hstrict).
  apply last_Some in Hl as [pre ->]. rewrite length_app in Hstrict. cbn [length] in Hstrict.
  destruct (decide (Datatypes.S i < length (pre ++ [f]))%nat) as [Hlt|Hge].
  - rewrite lookup_app_l in Hg, Hg' by lia. by apply Hc.
  - pose proof (lookup_lt_Some _ _ _ Hg') as Hb. rewrite length_app in Hge. rewrite !length_app in Hb. cbn [length] in Hb, Hge.
    assert (i = length pre) as -> by lia.
    rewrite lookup_app_l in Hg by (rewrite length_app; simpl; lia). rewrite list_lookup_middle in Hg by done.
    rewrite lookup_app_r in Hg' by (rewrite length_app; simpl; lia).
    rewrite length_app in Hg'. cbn [length] in Hg'.
    replace (Datatypes.S (length pre) - (length pre + 1))%nat with O in Hg' by lia. cbn in Hg'.
    injection Hg as <-. injection Hg' as <-. split; [done|split; [|done]]. intros Hne. apply Hstrict, Nat.eqb_neq. lia.
Qed.

Lemma dubious_count_snoc frames f :
  dubious_count (frames ++ [f]) = dubious_count frames + (if is_dubious (trust (base_frame f)) then 1 else 0).
Proof.
  unfold dubious_count. rewrite filter_app, length_app. destruct (is_dubious _) eqn:E.
  - rewrite filter_cons_True by done. simpl. lia.
  - rewrite filter_cons_False by (by rewrite E). simpl. lia.
Qed.

Lemma visit_frame_spec (modules unloaded : option C) f without corrupt s v without' corrupt' s' :
  visit_frame modules unloaded f without corrupt s = Ok (v, without', corrupt', s') ->
  (NoDup without -> NoDup without') /\ (NoDup corrupt -> NoDup corrupt') /\
  forall f', v = Some f' -> sp f' = sp f /\ ip f' = ip f /\ trust (base_frame f') = trust (base_frame f).
Proof.
  unfold visit_frame. destruct (SymbolizeFrame _ _ _ _) as [[[res fr] s1]| |] eqn:Es; try done.
  apply SymbolizeFrame_trust in Es. rewrite bind_Ok. cbv beta iota zeta.
  assert (Hv: forall f' : F, Some (set_base_frame f fr) = Some f' ->
    sp f' = sp f /\ ip f' = ip f /\ trust (base_frame f') = trust (base_frame f)).
  { intros f' [= <-]. rewrite set_base_get. by rewrite set_base_sp, set_base_ip. }
  destruct res.
  - intros [= <- <- <- <-]. by split_and!.
  - destruct (InsertSpecialAttentionModule _ _ without) as [l| |] eqn:Ei; try done. rewrite bind_Ok.
    intros [= <- <- <- <-]. split_and!; [by eapply InsertSpecialAttentionModule_NoDup|done|done].
  - intros [= <- <- <- <-]. by split_and!.
  - destruct (InsertSpecialAttentionModule _ _ corrupt) as [l| |] eqn:Ei; try done. rewrite bind_Ok.
    intros [= <- <- <- <-]. split_and!; [done|by eapply InsertSpecialAttentionModule_NoDup|done].
Qed.

(** What the walk promises of the call stack does not depend on the version of the frames. *)
Lemma climbing_same frames frames' : Forall2 (same_frame base_frame sp ip) frames frames' -> climbing frames -> climbing frames'.
Proof.
  intros Hs Hc i g g' Hg Hg'. destruct (Forall2_lookup_r _ _ _ _ _ Hs Hg) as (f & Hf & _ & -> & _).
  destruct (Forall2_lookup_r _ _ _ _ _ Hs Hg') as (f' & Hf' & _ & -> & ->). by apply Hc.
Qed.

Lemma dubious_count_same frames frames' :
  Forall2 (same_frame base_frame sp ip) frames frames' -> dubious_count frames' = dubious_count frames.
Proof.
  unfold dubious_count. induction 1 as [|f g fs gs [Hb _] _ IH]; [done|]. rewrite !filter_cons, Hb.
  case_decide; cbn [length]; lia.
Qed.

Lemma last_same frames frames' g :
  Forall2 (same_frame base_frame sp ip) frames frames' -> last frames' = Some g ->
  exists f, last frames = Some f /\ same_frame base_frame sp ip f g.
Proof.
  intros Hs Hl. apply last_Some in Hl as [pre ->]. apply Forall2_app_inv_r in Hs as (fs & fs' & _ & Hs & ->).
  apply Forall2_cons_inv_r in Hs as (f & rest & Hf & Hs & ->). apply Forall2_nil_inv_r in Hs as ->.
  exists f. by rewrite last_snoc.
Qed.

(** The next frame may join the stack. *)
Definition may_follow (limits : WalkLimits) (frames : list F) (f : F) : Prop :=
  (forall l, last frames = Some l -> TerminateWalk (ip f) (sp f) (sp l) (length frames =? 1)%nat = false) /\
  (is_dubious (trust (base_frame f)) = true -> dubious_count frames < max_frames_scanned_ limits).

Lemma walk_loop_spec limits w (modules unloaded : option C) fuel : forall frame stack without corrupt s r,
  climbing stack -> (dubious_count stack <= Z.max 0 (max_frames_scanned_ limits)) ->
  Z.of_nat (length stack) <= max_frames_ limits ->
  (forall f, frame = Some f -> may_follow limits stack f) ->
  walk_loop fuel limits w modules unloaded frame stack (dubious_count stack) without corrupt s = Ok r ->
  climbing (frames_ r) /\ dubious_count (frames_ r) <= Z.max 0 (max_frames_scanned_ limits) /\
  Z.of_nat (length (frames_ r)) <= max_frames_ limits + 1 /\
  (NoDup without -> NoDup (modules_without_symbols r)) /\ (NoDup corrupt -> NoDup (modules_with_corrupt_symbols r)).
Proof.
  induction fuel as [|fuel IH]; intros frame stack without corrupt s r Hc Hd Hlen Hf.
  { destruct frame; cbn [walk_loop]; [done|]. intros [= <-]. split_and!; simpl; auto; lia. }
  cbn [walk_loop]. destruct frame as [f|]; [|intros [= <-]; split_and!; simpl; auto; lia].
  destruct (visit_frame _ _ _ _ _ _) as [[[[v wo] co] s1]| |] eqn:Ev; try done.
  apply visit_frame_spec in Ev as (Hwo & Hco & Hv). rewrite bind_Ok. cbv beta iota.
  destruct v as [f'|]; [|intros [= <-]; split_and!; simpl; auto; lia].
  destruct (Hv f' eq_refl) as (Hsp & Hip & Htr). destruct (Hf f eq_refl) as [Hlast Hdub].
  assert (Hc': climbing (stack ++ [f'])).
  { destruct (last stack) as [l|] eqn:El; [apply (climbing_snoc _ l); [done..|rewrite Hsp, Hip; by apply Hlast]|].
    apply last_None in El as ->. intros [|i] g g' _ Hg'; [done|]. by destruct i. }
  pose proof (dubious_count_snoc stack f') as Hcount. rewrite Htr in Hcount. cbv zeta. rewrite Htr.
  assert (Hd': dubious_count (stack ++ [f']) <= Z.max 0 (max_frames_scanned_ limits)).
  { rewrite Hcount. destruct (is_dubious _); [specialize (Hdub eq_refl)|]; lia. }
  replace (if is_dubious (trust (base_frame f)) then dubious_count stack + 1 else dubious_count stack)
    with (dubious_count (stack ++ [f'])) by (rewrite Hcount; destruct (is_dubious _); lia).
  assert (Hl: length (stack ++ [f']) = Datatypes.S (length stack)) by (rewrite length_app; simpl; lia).
  destruct (max_frames_ limits <? Z.of_nat (length (stack ++ [f']))) eqn:E; breflect.
  { intros [= <-]. cbn [frames_ modules_without_symbols modules_with_corrupt_symbols].
    rewrite Hl. split_and!; auto. lia. }
  destruct (GetCallerFrame w (stack ++ [f']) _ s1) as [[[next stack'] s2]| |] eqn:Eg; try done. rewrite bind_Ok. cbv beta iota.
  pose proof (frames_kept _ _ _ _ _ _ _ Eg) as Hk. pose proof (Forall2_length _ _ _ Hk) as Hlk.
  rewrite <- (dubious_count_same _ _ Hk).
  intros Hwalk. apply IH in Hwalk; [|by eapply climbing_same|by rewrite (dubious_count_same _ _ Hk)|lia|].
  { destruct Hwalk as (? & ? & ? & ? & ?). split_and!; auto. }
  intros f2 ->. split.
  - intros l Hl'. destruct (last_same _ _ _ Hk Hl') as (l0 & Hl0 & _ & -> & _). rewrite last_snoc in Hl0. injection Hl0 as <-.
    apply caller_checked in Eg. rewrite <- Hlk, Hl. destruct stack; exact Eg.
  - rewrite (dubious_count_same _ _ Hk). intros Hdub2. destruct (dubious_count (stack ++ [f']) <? max_frames_scanned_ limits) eqn:Ea; breflect; [done|].
    apply caller_scanned in Eg. congruence.
Qed.
Lemma Walk_spec limits w (modules unloaded : option C) without corrupt s r :
  0 <= max_frames_ limits ->
  Walk limits w modules unloaded without corrupt s = Ok r ->
  climbing (frames_ r) /\
  Z.of_nat (length (frames_ r)) <= max_frames_ limits + 1 /\
  dubious_count (frames_ r) <= Z.max 0 (max_frames_scanned_ limits) /\
  (NoDup without -> NoDup (modules_without_symbols r)) /\ (NoDup corrupt -> NoDup (modules_with_corrupt_symbols r)).
Proof.
  intros Hm Hw. unfold Walk in Hw. change 0 with (dubious_count []) in Hw.
  apply walk_loop_spec in Hw; [tauto|by intros ? ? ? ?|unfold dubious_count; simpl; lia|done|].
  intros f Hf. split; [done|]. intros Hd. apply context_trusted in Hf. congruence.
Qed.

(** The first frame keeps its stack pointer. *)
Lemma walk_loop_head limits w (modules unloaded : option C) fuel : forall frame f rest scanned without corrupt s r,
  walk_loop fuel limits w modules unloaded frame (f :: rest) scanned without corrupt s = Ok r ->
  exists g, head (frames_ r) = Some g /\ sp g = sp f.
Proof.
  induction fuel as [|fuel IH]; intros frame f rest scanned without corrupt s r; cbn [walk_loop];
    (destruct frame as [f0|]; [|intros [= <-]; by exists f]); [done|].
  destruct (visit_frame _ _ _ _ _ _) as [[[[v wo] co] s1]| |]; try done. rewrite bind_Ok. cbv beta iota.
  destruct v as [f'|]; [|intros [= <-]; by exists f]. cbv zeta. destruct (max_frames_ limits <? _); [intros [= <-]; by exists f|].
  destruct (GetCallerFrame w _ _ s1) as [[[next stack'] s2]| |] eqn:Eg; try done. rewrite bind_Ok. cbv beta iota.
  pose proof (frames_kept _ _ _ _ _ _ _ Eg) as Hk. cbn [app] in Hk.
  apply Forall2_cons_inv_l in Hk as (g & rest' & (_ & Hsp & _) & _ & ->). intros Hw.
  destruct (IH _ _ _ _ _ _ _ _ Hw) as (g' & Hg' & E). exists g'. split; [done|]. congruence.
Qed.

(** A walk that completes lists at least the context frame. *)
Lemma Walk_head limits w (modules unloaded : option C) without corrupt s r f :
  0 <= max_frames_ limits -> GetContextFrame w = Some f -> Walk limits w modules unloaded without corrupt s = Ok r ->
  (completed r = true -> frames_ r <> []) /\ forall g, head (frames_ r) = Some g -> sp g = sp f.
Proof.
  intros Hm Hf. unfold Walk. rewrite Hf. replace (Z.to_nat (max_frames_ limits) + 1)%nat with (Datatypes.S (Z.to_nat (max_frames_ limits))) by lia.
  cbn [walk_loop]. destruct (visit_frame _ _ _ _ _ _) as [[[[v wo] co] s1]| |] eqn:Ev; try done.
  apply visit_frame_spec in Ev as (_ & _ & Hv). rewrite bind_Ok. cbv beta iota.
  destruct v as [f'|]; [|intros [= <-]; done]. destruct (Hv f' eq_refl) as (Hsp & _ & _). cbv zeta. cbn [app].
  destruct (max_frames_ limits <? _); [intros [= <-]; split; [done|]; intros g [= <-]; done|].
  destruct (GetCallerFrame w _ _ s1) as [[[next stack'] s2]| |] eqn:Eg; try done. rewrite bind_Ok. cbv beta iota.
  pose proof (frames_kept _ _ _ _ _ _ _ Eg) as Hk. apply Forall2_cons_inv_l in Hk as (g & rest' & (_ & Hsp' & _) & _ & ->).
  intros Hw. destruct (walk_loop_head _ _ _ _ _ _ _ _ _ _ _ _ _ Hw) as (g' & Hg' & E).
  split; [by intros _ En; rewrite En in Hg'|]. intros g2 Hg2. rewrite Hg' in Hg2. injection Hg2 as <-. congruence.
Qed.
End walk_proofs.

(** ** Properties *)
Section properties.
Context {M : Type} `{SymbolModule M} {S : Type} `{SymbolSupplier S} {C : Type} `{CodeModules C}.
Context {W F : Type} `{!CpuWalker W F (Symbolizer M S)}.
Implicit Types (s : Symbolizer M S).

(** C4: the call stack of a walk, on any CPU that keeps the promises of the
    interface: from each frame to the next the stack pointer grows -- strictly, but
    for the first step -- and the instruction pointer is outside the first page;
    there are at most [max_frames_] + 1 frames, at most [max_frames_scanned_] of them
    doubtful; and a module is listed once. *)
Theorem stack_walk (sp ip : F -> Z) `{!CpuWalkerLaws W F (Symbolizer M S) sp ip}
    limits w (modules unloaded : option C) without corrupt s r :
  0 <= max_frames_ limits ->
  Walk limits w modules unloaded without corrupt s = Ok r ->
  climbing sp ip (frames_ r) /\
  Z.of_nat (length (frames_ r)) <= max_frames_ limits + 1 /\
  dubious_count (frames_ r) <= Z.max 0 (max_frames_scanned_ limits) /\
  (NoDup without -> NoDup (modules_without_symbols r)) /\ (NoDup corrupt -> NoDup (modules_with_corrupt_symbols r)).
Proof. by apply Walk_spec. Qed.

End properties.

(** ** The end of a walk *)
Section completion.
Context {M : Type} `{SymbolModule M} (loaded : M -> Prop) `{!SymbolModuleLaws M loaded}.
Context {S : Type} `{SymbolSupplier S} {C : Type} `{CodeModules C}.
Context (modules unloaded : option C) (Inv : Symbolizer M S -> Prop) (blame : Prop) (Hkept : symbols_kept modules unloaded Inv blame).
Implicit Types (s : Symbolizer M S).

Lemma visit_frame_outcome {W F} `{!CpuWalker W F (Symbolizer M S)} (f : F) without corrupt s :
  Inv s ->
  match visit_frame modules unloaded f without corrupt s with
  | Ok (v, _, _, s') => Inv s' /\ forall f', v = Some f' -> exists b, f' = set_base_frame f b
  | Fail => False
  | Undefined => blame
  end.
Proof.
  intros Hs. unfold visit_frame.
  pose proof (symbolize_kept loaded modules unloaded Inv blame (base_frame f) s Hkept Hs) as Hf.
  destruct (SymbolizeFrame _ _ _ _) as [[[res fr] s1]| |]; [|done|exact Hf].
  rewrite bind_Ok. cbv beta iota zeta. destruct Hf as [Hs1 _].
  assert (Hfr: forall f', Some (set_base_frame f fr) = Some f' -> exists b, f' = set_base_frame f b)
    by (intros f' [= <-]; by eexists).
  unfold InsertSpecialAttentionModule. destruct res, (frame_module fr); rewrite ?bind_Ok; by split.
Qed.

(** A walk is defined when finding a caller is: the limit on the number of frames
    bounds the turns of the loop.  [frame_ok] is what the CPU's walker needs of the
    frames, [Inv] what is kept of the symbolizer and [blame] what an undefined step shows. *)
Context {W F : Type} `{!CpuWalker W F (Symbolizer M S)} (frame_ok : F -> Prop) (w : W).

Definition callers_found : Prop := forall stack scan s, stack <> [] -> Forall frame_ok stack -> Inv s ->
  match GetCallerFrame w stack scan s with
  | Ok (f, stack', s') => Inv s' /\ Forall frame_ok stack' /\ length stack' = length stack /\
      forall f', f = Some f' -> frame_ok f'
  | Fail => False
  | Undefined => blame
  end.

Lemma walk_loop_outcome limits fuel : forall frame stack scanned without corrupt s,
  (forall f b, frame_ok f -> frame_ok (set_base_frame f b)) -> callers_found ->
  max_frames_ limits < Z.of_nat (length stack + fuel) -> (length stack + fuel <> 0)%nat ->
  (frame = None \/ Z.of_nat (length stack) <= max_frames_ limits) ->
  Forall frame_ok stack -> (forall f, frame = Some f -> frame_ok f) -> Inv s ->
  match walk_loop fuel limits w modules unloaded frame stack scanned without corrupt s with
  | Ok r => Inv (walk_symbolizer r) /\ Forall frame_ok (frames_ r)
  | Fail => False
  | Undefined => blame
  end.
Proof.
  induction fuel as [|fuel IH]; intros frame stack scanned without corrupt s Hset Hg Hfuel Hne Hl Hst Hf Hs.
  { destruct frame; cbn [walk_loop]; [|done]. destruct Hl; [done|]. lia. }
  cbn [walk_loop]. destruct frame as [f|]; [|done].
  pose proof (visit_frame_outcome f without corrupt s Hs) as Hv.
  destruct (visit_frame _ _ _ _ _ _) as [[[[v wo] co] s1]| |]; [|done|exact Hv].
  rewrite bind_Ok. cbv beta iota. destruct Hv as [Hs1 Hv]. destruct v as [f'|]; [|done]. cbv zeta.
  destruct (Hv f' eq_refl) as [b ->]. set (f' := set_base_frame f b).
  assert (Hst': Forall frame_ok (stack ++ [f'])) by (apply Forall_app_2; [done|]; constructor; [by apply Hset, Hf|done]).
  assert (Hlen: length (stack ++ [f']) = Datatypes.S (length stack)) by (rewrite length_app; simpl; lia).
  destruct (max_frames_ limits <? _) eqn:El; [done|]. breflect.
  match goal with |- context [GetCallerFrame w ?st ?sc ?s] => pose proof (Hg st sc s ltac:(by destruct stack) Hst' Hs1) as Hc;
    destruct (GetCallerFrame w st sc s) as [[[next stack'] s2]| |]; [|done|exact Hc] end.
  destruct Hc as (Hs2 & Hst2 & Hl2 & Hc). rewrite bind_Ok. cbv beta iota.
  apply IH; try done; [lia|lia|right; lia].
Qed.

Lemma Walk_outcome limits without corrupt s :
  (forall f b, frame_ok f -> frame_ok (set_base_frame f b)) -> callers_found ->
  0 <= max_frames_ limits -> (forall f, GetContextFrame w = Some f -> frame_ok f) -> Inv s ->
  match Walk limits w modules unloaded without corrupt s with
  | Ok r => Inv (walk_symbolizer r) /\ Forall frame_ok (frames_ r)
  | Fail => False
  | Undefined => blame
  end.
Proof. intros. apply walk_loop_outcome; try done; simpl; [lia|lia|right; lia]. Qed.
End completion.

Section scan_property.
Context {M : Type} `{SymbolModule M} (loaded : M -> Prop) `{!SymbolModuleLaws M loaded}.
Context {S : Type} `{SymbolSupplier S} {C : Type} `{CodeModules C}.
Context {R : Type} `{MemoryRegion R} (valid : R -> Prop) `{!MemoryRegionLaws R valid}.
Implicit Types (s : Symbolizer M S) (w : Stackwalker C R).
Context (Inv : Symbolizer M S -> Prop) (blame : Prop).
Abbreviation kept w := (symbols_kept (modules_list w) (unloaded_modules_ w) Inv blame).

Lemma seems_valid_spec w a s :
  kept w -> Inv s ->
  match InstructionAddressSeemsValid w a s with
  | Ok (b, s') => Inv s' /\
      (b = true -> is_Some (frame_module_at (modules_list w) (unloaded_modules_ w) a))
  | Fail => False
  | Undefined => blame
  end.
Proof.
  intros Hk Hs. unfold InstructionAddressSeemsValid.
  pose proof (symbolize_kept loaded (modules_list w) (unloaded_modules_ w) Inv blame (Frame_new a) s Hk Hs) as Hf.
  destruct (SymbolizeFrame _ _ _ _) as [[[res f] s']| |]; [|done|exact Hf].
  rewrite bind_Ok. cbv beta iota. destruct Hf as [Hs' Hm]. cbn [frame_module Frame_new sframe instruction] in Hm.
  destruct (frame_module_at _ _ a) as [m|]; rewrite Hm; [|by split].
  destruct (negb (HasImplementation s')); [by split|]. destruct res; by split.
Qed.

(** The width of an instruction address. *)
Definition address_size (n : nat) : Prop := n = 4%nat \/ n = 8%nat.

(** A region too small to hold both ends of the address space, whose reads are
    defined. *)
Record readable (n : nat) memory : Prop := {
  rd_valid : valid memory;
  rd_size : GetSize memory < 2 ^ (8 * Z.of_nat n - 1);
  rd_defined a : fits (8 * Z.of_nat n) a -> GetMemoryAtAddress n memory a <> Undefined
}.

Lemma read_fits n memory a v : address_size n -> readable n memory -> fits (8 * Z.of_nat n) a ->
  GetMemoryAtAddress n memory a = Ok v -> fits (8 * Z.of_nat n) v.
Proof.
  intros Hn Hm Ha. apply (read_width n); [unfold sizes_ok; destruct Hn; lia| |apply Hm].
  unfold fits in *. destruct Hn as [-> | ->]; [|done]. change (2 ^ (8 * Z.of_nat 4)) with (2 ^ 32) in *. lia.
Qed.

(** Two reads succeed only within the region's size of each other. *)
Lemma reads_close n memory a b u v : address_size n -> readable n memory ->
  fits (8 * Z.of_nat n) a -> fits (8 * Z.of_nat n) b ->
  GetMemoryAtAddress n memory a = Ok u -> GetMemoryAtAddress n memory b = Ok v ->
  a + Z.of_nat n <= b + 2 ^ (8 * Z.of_nat n - 1).
Proof.
  intros Hn Hm Ha Hb Hu Hv. assert (Hs: sizes_ok n) by (unfold sizes_ok; destruct Hn; lia).
  assert (H64: forall x, fits (8 * Z.of_nat n) x -> fits 64 x).
  { unfold fits. intros x Hx. destruct Hn as [-> | ->]; [|done]. change (2 ^ (8 * Z.of_nat 4)) with (2 ^ 32) in *. lia. }
  destruct (read_bounds n memory a u Hs (H64 _ Ha) (rd_valid _ _ Hm) Hu) as [_ ?].
  destruct (read_bounds n memory b v Hs (H64 _ Hb) (rd_valid _ _ Hm) Hv) as [? _].
  pose proof (rd_size _ _ Hm). lia.
Qed.

(** What a scan of [words] + 1 words from [start] gives, from the [k]-th word on. *)
Definition scan_result (n : nat) w memory (start words k : Z) (r : outcome (option (Z * Z) * Symbolizer M S)) : Prop :=
  match r with
  | Ok (Some (location, ip), s') => Inv s' /\ start + words * Z.of_nat n < 2 ^ 64 /\
      exists j, k <= j <= words /\ location = start + Z.of_nat n * j /\ fits (8 * Z.of_nat n) location /\
        GetMemoryAtAddress n memory location = Ok ip /\
        exists ms, modules_list w = Some ms /\ is_Some (GetModuleForAddress ms ip)
  | Ok (None, s') => Inv s'
  | Fail => False
  | Undefined => blame
  end.

Lemma scan_loop_spec n w memory start words fuel : forall k s,
  kept w -> address_size n -> Inv s -> readable n memory ->
  fits (8 * Z.of_nat n) start -> 0 <= words <= 1000 -> start + words * Z.of_nat n < 2 ^ 64 -> 0 <= k ->
  (1 <= k -> fits (8 * Z.of_nat n) (start + Z.of_nat n * (k - 1)) /\
             exists v, GetMemoryAtAddress n memory (start + Z.of_nat n * (k - 1)) = Ok v) ->
  k <= words + 1 -> words + 3 <= k + Z.of_nat fuel ->
  scan_result n w memory start words k
    (scan_loop n fuel w memory (start + words * Z.of_nat n) (wrap (8 * Z.of_nat n) (start + Z.of_nat n * k)) s).
Proof.
  induction fuel as [|fuel IH]; intros k s Hkept Hn Hs Hm Hst Hw Hend Hk Hprev Hkw Hfuel; [lia|].
  assert (Hbig: Z.of_nat n * 1002 < 2 ^ (8 * Z.of_nat n - 1) /\
    2 ^ (8 * Z.of_nat n) = 2 * 2 ^ (8 * Z.of_nat n - 1) /\ 0 < Z.of_nat n) by (by destruct Hn as [-> | ->]).
  destruct Hbig as (Hbig & Hhalf & Hn0).
  cbn [scan_loop]. destruct (decide (start + Z.of_nat n * k < 2 ^ (8 * Z.of_nat n))) as [Hin|Hout].
  2: { (* the address wrapped around *)
    unfold fits in Hst. assert (k <> 0) by (intros ->; lia).
    destruct (Hprev ltac:(lia)) as [Hfp [v0 Ev0]].
    assert (Hprod: Z.of_nat n * k <= Z.of_nat n * 1001) by nia.
    assert (Ewrap: wrap (8 * Z.of_nat n) (start + Z.of_nat n * k) = start + Z.of_nat n * k - 2 ^ (8 * Z.of_nat n)).
    { unfold wrap. symmetry. apply (Z.mod_unique _ _ 1); lia. }
    assert (Hf: fits (8 * Z.of_nat n) (start + Z.of_nat n * k - 2 ^ (8 * Z.of_nat n))) by (unfold fits; lia).
    rewrite Ewrap. dif; [|done].
    destruct (GetMemoryAtAddress n memory (start + Z.of_nat n * k - _)) as [v| |] eqn:Er;
      [|done|by apply (rd_defined _ _ Hm) in Er].
    exfalso. pose proof (reads_close n memory _ _ _ _ Hn Hm Hfp Hf Ev0 Er). lia. }
  assert (Hf: fits (8 * Z.of_nat n) (start + Z.of_nat n * k)) by (unfold fits in *; nia).
  rewrite wrap_small by done. dif; [|done].
  assert (k <= words) by nia.
  destruct (GetMemoryAtAddress n memory (start + Z.of_nat n * k)) as [ip| |] eqn:Er; [|done|by apply (rd_defined _ _ Hm) in Er].
  replace (start + Z.of_nat n * k + Z.of_nat n) with (start + Z.of_nat n * (k + 1)) by lia.
  assert (Hnext: forall s1, Inv s1 -> scan_result n w memory start words k
    (scan_loop n fuel w memory (start + words * Z.of_nat n) (wrap (8 * Z.of_nat n) (start + Z.of_nat n * (k + 1))) s1)).
  { intros s1 Hs1. specialize (IH (k + 1) s1 Hkept Hn Hs1 Hm Hst Hw Hend ltac:(lia)).
    replace (start + Z.of_nat n * (k + 1 - 1)) with (start + Z.of_nat n * k) in IH by lia.
    specialize (IH ltac:(intros _; split; [done|by exists ip]) ltac:(lia) ltac:(lia)). unfold scan_result in *.
    destruct (scan_loop _ _ _ _ _ _ _) as [[[[l ip']|] s']| |]; try done.
    destruct IH as (? & ? & j & ? & ?). split; [done|]. split; [done|]. exists j. split; [lia|done]. }
  pose proof (seems_valid_spec w ip s Hkept Hs) as Hsv.
  destruct (modules_list w) as [ms|] eqn:Ems; [|by apply Hnext].
  destruct (GetModuleForAddress ms ip) as [m|] eqn:Em; [|by apply Hnext].
  destruct (InstructionAddressSeemsValid w ip s) as [[b s1]| |]; [|done|exact Hsv].
  rewrite bind_Ok. cbv beta iota. destruct Hsv as [Hs1 _]. destruct b; [|by apply Hnext].
  split; [done|]. split; [done|]. exists k. split; [lia|]. split; [done|]. split; [done|]. split; [done|]. exists ms. by rewrite Em.
Qed.

(** The words looked at. *)
Definition search_words (is_context_frame : bool) : Z := if is_context_frame then kRASearchWords * 4 else kRASearchWords.

Lemma ScanForReturnAddressWords_spec n w memory (location_start words : Z) s :
  kept w -> address_size n -> Inv s -> readable n memory -> fits (8 * Z.of_nat n) location_start -> 0 < words <= 1000 ->
  scan_result n w memory location_start words 0 (ScanForReturnAddressWords n w memory location_start words s).
Proof.
  intros Hk Hn Hs Hm Hst Hw. unfold ScanForReturnAddressWords.
  assert (Hn8: 0 < Z.of_nat n <= 8) by (destruct Hn; lia).
  destruct (decide (location_start + words * Z.of_nat n < 2 ^ 64)) as [Hend|Hend].
  - pose proof (scan_loop_spec n w memory location_start words (Z.to_nat words + 3) 0 s Hk Hn Hs Hm Hst
      ltac:(lia) Hend ltac:(lia) ltac:(lia) ltac:(lia) ltac:(lia)) as Hl.
    rewrite Z.mul_0_r, Z.add_0_r, (wrap_small _ location_start) in Hl by done.
    rewrite wrap_small; [done|]. unfold fits in *. nia.
  - assert (Hst64: location_start < 2 ^ 64).
    { unfold fits in Hst. destruct Hn as [-> | ->]; [change (2 ^ (8 * Z.of_nat 4)) with (2 ^ 32) in Hst; lia|].
      change (2 ^ (8 * Z.of_nat 8)) with (2 ^ 64) in Hst. lia. }
    assert (Ewrap: wrap 64 (location_start + words * Z.of_nat n) = location_start + words * Z.of_nat n - 2 ^ 64).
    { unfold wrap. symmetry. apply (Z.mod_unique _ _ 1); nia. }
    rewrite Ewrap. replace (Z.to_nat words + 3)%nat with (Datatypes.S (Z.to_nat words + 2)) by lia.
    cbn [scan_loop]. dif; [nia|done].
Qed.

Lemma ScanForReturnAddress_spec n w memory (location_start : Z) (is_context_frame : bool) s :
  kept w -> address_size n -> Inv s -> readable n memory -> fits (8 * Z.of_nat n) location_start ->
  scan_result n w memory location_start (search_words is_context_frame) 0
    (ScanForReturnAddress n w memory location_start is_context_frame s).
Proof.
  intros. apply ScanForReturnAddressWords_spec; try done. unfold search_words, kRASearchWords. destruct is_context_frame; lia.
Qed.
End scan_property.

Section scan_result.
Context {M : Type} `{SymbolModule M} (loaded : M -> Prop) `{!SymbolModuleLaws M loaded}.
Context {S : Type} `{SymbolSupplier S} {C : Type} `{CodeModules C}.
Context {R : Type} `{MemoryRegion R} (valid : R -> Prop) `{!MemoryRegionLaws R valid}.
Implicit Types (s : Symbolizer M S) (w : Stackwalker C R).

(** C23: [ScanForReturnAddress] ends, and what it finds is the value of one of the
    words from the start address on, which lies in a loaded module.  It looks at
    [kRASearchWords] + 1 words at most, and at four times as many + 1 for the context
    frame; when the end of that range passes the end of the 64-bit address space it
    finds nothing. *)
Theorem scan_for_return_address n w memory (location_start : Z) (is_context_frame : bool) s :
  address_size n -> symbolizer_ok s -> readable valid n memory -> fits (8 * Z.of_nat n) location_start ->
  let words := search_words is_context_frame in
  match ScanForReturnAddress n w memory location_start is_context_frame s with
  | Ok (Some (location, ip), s') => symbolizer_ok s' /\ location_start + words * Z.of_nat n < 2 ^ 64 /\
      exists j, 0 <= j <= words /\ location = location_start + Z.of_nat n * j /\ fits (8 * Z.of_nat n) location /\
        GetMemoryAtAddress n memory location = Ok ip /\
        exists ms, modules_list w = Some ms /\ is_Some (GetModuleForAddress ms ip)
  | Ok (None, s') => symbolizer_ok s'
  | Fail => False
  | Undefined => exists name data, LoadMap (CreateModule name) data = Undefined
  end.
Proof. intros. eapply (ScanForReturnAddress_spec loaded valid symbolizer_ok); try done. apply (symbols_kept_ok loaded). Qed.
End scan_result.

(** ** Witness *)

(** A stack of eight words. *)
Definition demo_stack : MicrodumpMemoryRegion :=
  MicrodumpMemoryRegion_Init 0x7fff0000
    (le_bytes 8 0 ++ le_bytes 8 0 ++ le_bytes 8 0x7fff0030 ++ le_bytes 8 0x400815 ++
     le_bytes 8 0 ++ le_bytes 8 0x400818 ++ le_bytes 8 0 ++ le_bytes 8 0).

Definition demo_stackwalker : Stackwalker BasicCodeModules MicrodumpMemoryRegion :=
  mkStackwalker (lit "linux") (Some demo_stack) (Some demo_modules) None.

Lemma demo_stack_valid : micro_ok demo_stack.
Proof.
  split; [|split; unfold fits; by vm_compute].
  apply (Forall_impl (λ b, ((0 <=? b) && (b <? 256)) = true)); [|intros b Hb; breflect; unfold byte_ok, fits; lia].
  apply Forall_forall. intros b Hb.
  assert (Hall: forallb (λ b, (0 <=? b) && (b <? 256)) (contents_ demo_stack) = true) by (by vm_compute).
  rewrite forallb_forall in Hall. apply Hall. by apply list_elem_of_In.
Qed.

(** Its reads are defined: it lies far from the end of the address space. *)
Lemma demo_stack_readable : readable micro_ok 8 demo_stack.
Proof.
  split; [exact demo_stack_valid|done|]. intros a Ha. change (8 * Z.of_nat 8) with 64 in Ha.
  destruct demo_stack_valid as (Hc & Hl & Hb). cbn [GetMemoryAtAddress MicrodumpMemoryRegion_region].
  rewrite GetMemoryLittleEndian_eq; [|unfold sizes_ok; lia|done|unfold fits in Hl; lia|done|done]. cbv zeta.
  change (base_address_ demo_stack) with 0x7fff0000. change (Z.of_nat (length (contents_ demo_stack))) with 64.
  unfold fits in Ha. change (Z.of_nat 8) with 8. repeat dif; try done; lia.
Qed.

Lemma scan_for_return_address_witness :
  exists s', ScanForReturnAddress 8 demo_stackwalker demo_stack 0x7fff0020 false demo_symbolizer =
      Ok (Some (0x7fff0028, 0x400818), s') /\ symbolizer_ok s' /\
    exists j, 0 <= j <= kRASearchWords /\ 0x7fff0028 = 0x7fff0020 + 8 * j.
Proof.
  pose proof (scan_for_return_address module_ok micro_ok 8 demo_stackwalker demo_stack 0x7fff0020 false demo_symbolizer
    (or_intror eq_refl) demo_symbolizer_ok demo_stack_readable ltac:(unfold fits; lia)) as Hs. cbv zeta in Hs.
  set (x := ScanForReturnAddress _ _ _ _ _ _) in *.
  assert (Hx: match x with Ok (o, _) => o | _ => None end = Some (0x7fff0028, 0x400818)) by (vm_compute; reflexivity).
  destruct x as [[o s']| |]; [|done..]. subst o. exists s'. destruct Hs as (Hs' & _ & j & Hj & Ej & _).
  split_and!; [done|done|]. by exists j.
Defined.
