(* ===== verification/CpuFrame.v ===== *)
(** google_breakpad/processor/stack_frame_cpu.h: the stack frames of the CPUs, and
    what the stack walkers of the CPUs have in common. *)
From Stdlib Require Import Ascii.
From stdpp Require Import strings list gmap functions.
From S2P Require Import Prelude StdMap RangeMap CStr StrMap Memory MemoryRegion PostfixEvaluator CfiFrameInfo EvaluatorBounds CodeModules SymbolFile BasicResolver BasicInvariant SymbolLoad ResolverLookup ResolverBase ResolverTable Symbolizer Stackwalker.

(** ** Frames *)

(** [StackFrameAMD64], [StackFrameARM] and the others: a [StackFrame], the raw
    context by the members the walkers use, and the mask of the members that are
    known. *)
Record CpuFrame (reg : Type) := mkCpuFrame {
  cpu_base : Frame;
  context : RawContext reg;
  context_validity : Z
}.
Arguments mkCpuFrame {_}.
Arguments cpu_base {_}.
Arguments context {_}.
Arguments context_validity {_}.

Section frames.
Context {reg : Type}.

Definition with_context (f : CpuFrame reg) (c : RawContext reg) : CpuFrame reg :=
  mkCpuFrame (cpu_base f) c (context_validity f).

(** A new frame with this trust, context and validity. *)
Definition new_frame (t : FrameTrust) (c : RawContext reg) (validity : Z) : CpuFrame reg :=
  mkCpuFrame (mkFrame (sframe (Frame_new 0)) None t) c validity.

(** [frame->instruction = i], in a frame that is not symbolized yet. *)
Definition with_instruction (f : CpuFrame reg) (i : Z) : CpuFrame reg :=
  mkCpuFrame (mkFrame (mkStackFrame i [] 0 [] 0 0) None (trust (cpu_base f))) (context f) (context_validity f).

(** The frame that [GetContextFrame] makes of a context; [ip] is the member with
    the instruction pointer. *)
Definition context_frame (ip : reg) (validity : Z) (c : option (RawContext reg)) : option (CpuFrame reg) :=
  (λ c, with_instruction (new_frame FRAME_TRUST_CONTEXT c validity) (c ip)) <$> c.
End frames.

(** The constructors of the walkers of 32-bit CPUs drop a memory region that does
    not lie in the first 4 GB. *)
Definition limit_memory {C R} `{MemoryRegion R} (w : Stackwalker C R) : Stackwalker C R :=
  match memory_ w with
  | Some memory =>
      if 0xffffffff <? wrap 64 (wrap 64 (GetBase memory + GetSize memory) - 1)
      then mkStackwalker (os_short w) None (modules_list w) (unloaded_modules_ w) else w
  | None => w
  end.

(** A read of [n] bytes through the memory region that continues on success, and
    is NULL on failure. *)
Definition read_or_null (n : nat) {R A} `{MemoryRegion R} (memory : R) (address : Z) (k : Z -> outcome (option A))
  : outcome (option A) :=
  match GetMemoryAtAddress n memory address with
  | Ok v => k v
  | Fail => Ok None
  | Undefined => Undefined
  end.

(** The walker of a CPU, from its two methods; they leave the frames of the call
    stack as they are. *)
Definition cpu_walker_of {W reg St} (get_context : W -> option (CpuFrame reg))
    (get_caller : W -> list (CpuFrame reg) -> bool -> St -> outcome (option (CpuFrame reg) * St))
  : CpuWalker W (CpuFrame reg) St := {|
  GetContextFrame := get_context;
  GetCallerFrame := λ w frames scan st, leave frames (get_caller w frames scan st);
  base_frame := cpu_base;
  set_base_frame := λ f b, mkCpuFrame b (context f) (context_validity f)
|}.

(** The laws of such a walker, for the members [sp] and [ip]. *)
Lemma cpu_walker_of_laws {W reg St} (get_context : W -> option (CpuFrame reg))
    (get_caller : W -> list (CpuFrame reg) -> bool -> St -> outcome (option (CpuFrame reg) * St)) (sp ip : RawContext reg -> Z) :
  (forall w f, get_context w = Some f -> is_dubious (trust (cpu_base f)) = false) ->
  (forall w frames f scan st f' st', last frames = Some f -> get_caller w frames scan st = Ok (Some f', st') ->
     TerminateWalk (ip (context f')) (sp (context f')) (sp (context f)) (length frames =? 1)%nat = false) ->
  (forall w frames st f' st', get_caller w frames false st = Ok (Some f', st') -> is_dubious (trust (cpu_base f')) = false) ->
  @CpuWalkerLaws W (CpuFrame reg) St (cpu_walker_of get_context get_caller) (λ f, sp (context f)) (λ f, ip (context f)).
Proof.
  intros Hc Hcheck Hscan. constructor; try done.
  - intros w stack scan st o stack' st' [_ ->]%leave_Ok. apply same_frames_refl.
  - intros w stack f scan st f' stack' st' [E _]%leave_Ok. specialize (Hcheck w (stack ++ [f]) f scan st f' st').
    rewrite last_snoc in Hcheck. specialize (Hcheck eq_refl E). by destruct stack as [|? [|]].
  - intros w stack st f' stack' st' [E _]%leave_Ok. by eapply Hscan.
Qed.

(** [FindCallerRegs] always recovers the CFA and the return address. *)
Lemma FindCallerRegs_essentials {R} `{MemoryRegion R} w info regs (memory : R) caller :
  FindCallerRegs w info regs memory = Ok caller -> is_Some (caller !! lit ".cfa") /\ is_Some (caller !! lit ".ra").
Proof.
  unfold FindCallerRegs. destruct (cfa_rule_ info), (ra_rule_ info); try done.
  destruct (eval_rule w memory regs _) as [cfa| |]; try done. rewrite bind_Ok. cbv zeta.
  destruct (eval_rule w memory (<[_ := cfa]> regs) _) as [ra| |]; try done. rewrite bind_Ok.
  destruct (eval_register_rules _ _ _ _ _) as [c| |]; try done. rewrite bind_Ok. intros [= <-].
  rewrite lookup_insert_eq. split; [by eexists|]. rewrite lookup_insert_ne by done. rewrite lookup_insert_eq. by eexists.
Qed.

(** ** Results that are not failures *)

(** [r] gives a value with [P], or is undefined for a reason that [blame] allows. *)
Definition sound {A} (blame : Prop) (P : A -> Prop) (r : outcome A) : Prop :=
  match r with Ok a => P a | Fail => False | Undefined => blame end.

Lemma sound_bind {A B} blame (P : A -> Prop) (Q : B -> Prop) (r : outcome A) (k : A -> outcome B) :
  sound blame P r -> (forall a, P a -> sound blame Q (k a)) -> sound blame Q (r ≫= k).
Proof. destruct r as [a| |]; [|done..]. intros Ha Hk. by apply Hk. Qed.

Lemma sound_weaken {A} (b b' : Prop) (P P' : A -> Prop) r :
  (b -> b') -> (forall a, P a -> P' a) -> sound b P r -> sound b' P' r.
Proof. destruct r; simpl; auto. Qed.

Section words.
Context {reg : Type} `{EqDecision reg}.

(** The registers of a frame are [w]-bit words. *)
Definition context_words (w : Z) (f : CpuFrame reg) : Prop := forall r, fits w (context f r).

Lemma insert_words (w : Z) (c : RawContext reg) r v :
  (forall r, fits w (c r)) -> fits w v -> forall r', fits w ((<[r := v]> c : RawContext reg) r').
Proof.
  intros Hc Hv r'. destruct (decide (r = r')) as [->|]; [by rewrite fn_lookup_insert|by rewrite fn_lookup_insert_ne].
Qed.

(** A caller whose registers are words. *)
Definition caller_words (w : Z) (o : option (CpuFrame reg)) : Prop := forall g, o = Some g -> context_words w g.
End words.

(** The registers of a frame that is made of another's. *)
Ltac words :=
  unfold context_words; cbn [context new_frame with_instruction with_context];
  repeat match goal with |- forall r, fits _ ((<[_ := _]> _) r) => apply insert_words end;
  try done; try (apply wrap_fits; lia).

Section sound_reads.
Context {R : Type} `{MemoryRegion R} (valid : R -> Prop) `{!MemoryRegionLaws R valid}.

(** A region of less than 2 GB whose reads are defined at any address. *)
Record all_readable (memory : R) : Prop := {
  ar_valid : valid memory;
  ar_size : GetSize memory < 2 ^ 31;
  ar_defined n a : address_size n -> fits 64 a -> GetMemoryAtAddress n memory a <> Undefined
}.

Lemma fits_address n a : address_size n -> fits (8 * Z.of_nat n) a -> fits 64 a.
Proof. unfold fits. intros [-> | ->]; [|done]. change (8 * Z.of_nat 4) with 32. lia. Qed.

Lemma all_readable_readable n memory : address_size n -> all_readable memory -> readable valid n memory.
Proof.
  intros Hn [Hv Hs Hd]. split; [done| |].
  - destruct Hn as [-> | ->]; [exact Hs|]. change (8 * Z.of_nat 8 - 1) with 63. lia.
  - intros a Ha. apply Hd; [done|]. by eapply fits_address.
Qed.

(** Reading a word and going on. *)
Lemma sound_read {A} n (memory : R) blame (P : option A -> Prop) a (k : Z -> outcome (option A)) :
  address_size n -> readable valid n memory -> fits (8 * Z.of_nat n) a -> P None ->
  (forall v, fits (8 * Z.of_nat n) v -> GetMemoryAtAddress n memory a = Ok v -> sound blame P (k v)) ->
  sound blame P (read_or_null n memory a k).
Proof.
  intros Hn Hm Ha HN Hk. unfold read_or_null. destruct (GetMemoryAtAddress n memory a) as [v| |] eqn:E; [|exact HN|].
  - apply Hk; [|done]. by eapply (read_fits valid).
  - by apply (rd_defined _ _ _ Hm) in E.
Qed.
End sound_reads.

Lemma read_or_null_Some {A R} `{MemoryRegion R} n (memory : R) a (k : Z -> outcome (option A)) x :
  read_or_null n memory a k = Ok (Some x) <-> exists v, GetMemoryAtAddress n memory a = Ok v /\ k v = Ok (Some x).
Proof.
  unfold read_or_null. destruct (GetMemoryAtAddress n memory a) as [v| |].
  - split; [by exists v|]. by intros (? & [= <-] & ?).
  - split; [done|]. by intros (? & ? & _).
  - split; [done|]. by intros (? & ? & _).
Qed.

Section sound_steps.
Context {M : Type} `{SymbolModule M} (loaded : M -> Prop) `{!SymbolModuleLaws M loaded}.
Context {S : Type} `{SymbolSupplier S} {C : Type} `{CodeModules C}.
Context {R : Type} `{MemoryRegion R} (valid : R -> Prop) `{!MemoryRegionLaws R valid}.
Implicit Types (s : Symbolizer M S) (w : Stackwalker C R).

(** What is kept of the symbolizer ([Inv]), and what an undefined step shows ([blame]). *)
Context (Inv : Symbolizer M S -> Prop) (blame : Prop).
Abbreviation kept w := (symbols_kept (modules_list w) (unloaded_modules_ w) Inv blame).

(** Undefined rules that the symbolizer gives are to blame. *)
Definition rules_blamed (width : Z) (memory : option R) : Prop :=
  forall s frame info m regs, Inv s -> SymbolizerFindCFIFrameInfo frame s = Ok (Some info) -> memory = Some m ->
    FindCallerRegs width info regs m = Undefined -> blame.

(** What a walker with words of [width] bits needs of them. *)
Record kept_by (width : Z) w : Prop := {
  kb_symbols : symbols_kept (modules_list w) (unloaded_modules_ w) Inv blame;
  kb_rules : rules_blamed width (memory_ w)
}.

(** Scanning and going on. *)
Lemma sound_scan_words {A} n w (memory : R) start words s (P : A -> Prop) (k : option (Z * Z) * Symbolizer M S -> outcome A) :
  kept w -> address_size n -> Inv s -> readable valid n memory -> fits (8 * Z.of_nat n) start -> 0 < words <= 1000 ->
  (forall s', Inv s' -> sound blame P (k (None, s'))) ->
  (forall j ip s', Inv s' -> 0 <= j <= words -> fits (8 * Z.of_nat n) (start + Z.of_nat n * j) ->
     fits (8 * Z.of_nat n) ip -> GetMemoryAtAddress n memory (start + Z.of_nat n * j) = Ok ip ->
     sound blame P (k (Some (start + Z.of_nat n * j, ip), s'))) ->
  sound blame P (ScanForReturnAddressWords n w memory start words s ≫= k).
Proof.
  intros Hk Hn Hs Hm Hst Hw HN HS.
  pose proof (ScanForReturnAddressWords_spec loaded valid Inv blame n w memory start words s Hk Hn Hs Hm Hst Hw) as Hsc.
  destruct (ScanForReturnAddressWords _ _ _ _ _ _) as [[[[l ip]|] s']| |]; [|by apply HN|done|exact Hsc].
  destruct Hsc as (Hs' & _ & j & Hj & -> & Hl & Hip & _). rewrite bind_Ok. apply HS; try done. by eapply (read_fits valid).
Qed.

Lemma sound_scan {A} n w (memory : R) start ctx s (P : A -> Prop) (k : option (Z * Z) * Symbolizer M S -> outcome A) :
  kept w -> address_size n -> Inv s -> readable valid n memory -> fits (8 * Z.of_nat n) start ->
  (forall s', Inv s' -> sound blame P (k (None, s'))) ->
  (forall j ip s', Inv s' -> 0 <= j -> fits (8 * Z.of_nat n) (start + Z.of_nat n * j) ->
     fits (8 * Z.of_nat n) ip -> GetMemoryAtAddress n memory (start + Z.of_nat n * j) = Ok ip ->
     sound blame P (k (Some (start + Z.of_nat n * j, ip), s'))) ->
  sound blame P (ScanForReturnAddress n w memory start ctx s ≫= k).
Proof.
  intros. apply sound_scan_words; try done; [unfold kRASearchWords; destruct ctx; lia|]. intros. by auto with lia.
Qed.

(** The CFI record of a frame. *)
Lemma sound_cfi_info (frame : Frame) s :
  symbolizer_ok s -> sound blame (λ o, SymbolizerFindCFIFrameInfo frame s = Ok o) (SymbolizerFindCFIFrameInfo frame s).
Proof.
  intros Hs. unfold SymbolizerFindCFIFrameInfo. destruct (resolver_ s) as [r|] eqn:Er; [|done].
  destruct (cfi_info_defined loaded r (frame_module frame) (sframe frame)) as [i ->]; [by apply Hs|done].
Qed.

Lemma sound_windows_info (frame : Frame) s :
  symbolizer_ok s -> sound blame (λ o, SymbolizerFindWindowsFrameInfo frame s = Ok o) (SymbolizerFindWindowsFrameInfo frame s).
Proof.
  intros Hs. unfold SymbolizerFindWindowsFrameInfo. destruct (resolver_ s) as [r|] eqn:Er; [|done].
  destruct (windows_info_defined loaded r (frame_module frame) (sframe frame)) as [i ->]; [by apply Hs|done].
Qed.

(** Registers found by [SimpleCFIWalker]. *)
Lemma registers_words {Member} `{EqDecision Member} width (register_map : list (RegisterSet Member)) (memory : R) info ctx val :
  width = 32 \/ width = 64 -> valid memory -> (forall r, fits width (ctx r)) ->
  match FindCallerRegisters width register_map memory info ctx val with
  | Ok (c, _) => forall r, fits width (c r)
  | Fail => True
  | Undefined => exists regs, FindCallerRegs width info regs memory = Undefined
  end.
Proof.
  intros Hw Hm Hc. destruct (FindCallerRegisters _ _ _ _ _ _) as [[c v]| |] eqn:E; [|done|].
  - by eapply FindCallerRegisters_fits.
  - revert E. unfold FindCallerRegisters. destruct (FindCallerRegs _ _ _ _) eqn:E; try done. by eexists.
Qed.

(** The walkers whose frames are [CpuFrame]s. *)
Context {W reg : Type} (get_context : W -> option (CpuFrame reg)).
Context (get_caller : W -> list (CpuFrame reg) -> bool -> Symbolizer M S -> outcome (option (CpuFrame reg) * Symbolizer M S)).

(** A result of [GetCallerFrame]. *)
Definition found_ok (ok : CpuFrame reg -> Prop) (r : option (CpuFrame reg) * Symbolizer M S) : Prop :=
  Inv r.2 /\ forall g, r.1 = Some g -> ok g.

Lemma callers_found_of (ok : CpuFrame reg -> Prop) (w : W) :
  (forall frames f scan s, last frames = Some f -> ok f -> Inv s -> sound blame (found_ok ok) (get_caller w frames scan s)) ->
  @callers_found M S Inv blame W (CpuFrame reg) (cpu_walker_of get_context get_caller) ok w.
Proof.
  intros Hg frames scan s Hne Hok Hs. cbn [GetCallerFrame cpu_walker_of].
  destruct (last frames) as [f|] eqn:El; [|by apply last_None in El].
  assert (Hf: ok f). { apply last_Some in El as [pre ->]. apply Forall_app in Hok as [_ Hok]. by inversion Hok. }
  specialize (Hg frames f scan s El Hf Hs). destruct (get_caller w frames scan s) as [[o s']| |]; [|done..].
  cbn [leave mbind outcome_bind]. destruct Hg as [Hs' Hg]. by split_and!.
Qed.
End sound_steps.

(** ** A stack of 32-bit words for the witnesses *)

(** Reads of a microdump region that does not begin at the first words of the address
    space are defined. *)
Lemma microdump_readable (r : MicrodumpMemoryRegion) :
  micro_ok r -> 8 <= base_address_ r -> Z.of_nat (length (contents_ r)) < 2 ^ 31 -> all_readable micro_ok r.
Proof.
  intros Hr Hb Hl. split; [done| |].
  { cbn [GetSize MicrodumpMemoryRegion_region]. rewrite wrap_small; [done|unfold fits; lia]. }
  intros n a Hn Ha. destruct Hr as (Hc & Hl' & Hb').
  cbn [GetMemoryAtAddress MicrodumpMemoryRegion_region].
  rewrite GetMemoryLittleEndian_eq; [|unfold sizes_ok; destruct Hn; lia|done|unfold fits in Hl'; lia|done|done]. cbv zeta.
  assert (Z.of_nat n <= 8) by (destruct Hn; lia). unfold fits in *. repeat dif; try done; lia.
Qed.

Definition demo_stack32 : MicrodumpMemoryRegion :=
  MicrodumpMemoryRegion_Init 0x7fff0000
    (le_bytes 4 0 ++ le_bytes 4 0x7fff0018 ++ le_bytes 4 0x400815 ++ le_bytes 4 0x7fff0020 ++
     le_bytes 4 0x400815 ++ le_bytes 4 0 ++ le_bytes 4 0 ++ le_bytes 4 0x400818 ++
     le_bytes 4 0 ++ le_bytes 4 0 ++ le_bytes 4 0 ++ le_bytes 4 0).

Lemma demo_stack32_readable : all_readable micro_ok demo_stack32.
Proof.
  apply microdump_readable; [|by vm_compute|by vm_compute]. split; [|split; unfold fits; by vm_compute].
  apply (Forall_impl (λ b, ((0 <=? b) && (b <? 256)) = true)); [|intros b Hb; breflect; unfold byte_ok, fits; lia].
  apply Forall_forall. intros b Hb.
  assert (Hall: forallb (λ b, (0 <=? b) && (b <? 256)) (contents_ demo_stack32) = true) by (by vm_compute).
  rewrite forallb_forall in Hall. apply Hall. by apply list_elem_of_In.
Qed.

Definition demo_walker32 : Stackwalker BasicCodeModules MicrodumpMemoryRegion :=
  mkStackwalker (lit "linux") (Some demo_stack32) (Some demo_modules) None.
