(* ===== verification/StackwalkerAMD64.v ===== *)
(** processor/stackwalker_amd64.cc, google_breakpad/processor/stack_frame_cpu.h:
    the stack walker for AMD64, an implementation of the walker of Stackwalker.v. *)
From Stdlib Require Import Ascii.
From stdpp Require Import strings list gmap functions.
From S2P Require Import Prelude StdMap RangeMap CStr StrMap MemoryRegion PostfixEvaluator CfiFrameInfo EvaluatorBounds CodeModules SymbolFile BasicResolver BasicInvariant SymbolLoad ResolverLookup ResolverBase ResolverTable Symbolizer Stackwalker CpuFrame.

(** ** [StackFrameAMD64] *)

(** The members of [MDRawContextAMD64] the walker uses. *)
Inductive amd64_reg :=
| rax | rdx | rcx | rbx | rsi | rdi | rbp | rsp | r8 | r9 | r10 | r11 | r12 | r13 | r14 | r15 | rip.

#[export] Instance amd64_reg_eq_dec : EqDecision amd64_reg.
Proof. solve_decision. Defined.

Definition CONTEXT_VALID_RAX : Z := Z.shiftl 1 0.
Definition CONTEXT_VALID_RDX : Z := Z.shiftl 1 1.
Definition CONTEXT_VALID_RCX : Z := Z.shiftl 1 2.
Definition CONTEXT_VALID_RBX : Z := Z.shiftl 1 3.
Definition CONTEXT_VALID_RSI : Z := Z.shiftl 1 4.
Definition CONTEXT_VALID_RDI : Z := Z.shiftl 1 5.
Definition CONTEXT_VALID_RBP : Z := Z.shiftl 1 6.
Definition CONTEXT_VALID_RSP : Z := Z.shiftl 1 7.
Definition CONTEXT_VALID_R8 : Z := Z.shiftl 1 8.
Definition CONTEXT_VALID_R9 : Z := Z.shiftl 1 9.
Definition CONTEXT_VALID_R10 : Z := Z.shiftl 1 10.
Definition CONTEXT_VALID_R11 : Z := Z.shiftl 1 11.
Definition CONTEXT_VALID_R12 : Z := Z.shiftl 1 12.
Definition CONTEXT_VALID_R13 : Z := Z.shiftl 1 13.
Definition CONTEXT_VALID_R14 : Z := Z.shiftl 1 14.
Definition CONTEXT_VALID_R15 : Z := Z.shiftl 1 15.
Definition CONTEXT_VALID_RIP : Z := Z.shiftl 1 16.
Definition CONTEXT_VALID_ALL : Z := -1.

Abbreviation amd64_context := (RawContext amd64_reg).

Abbreviation StackFrameAMD64 := (CpuFrame amd64_reg).

(** It asserts that the instruction pointer is valid. *)
Definition ReturnAddress (f : StackFrameAMD64) : outcome Z :=
  if Z.land (context_validity f) CONTEXT_VALID_RIP =? 0 then Undefined else Ok (context f rip).

(** [cfi_register_map_]. *)
Definition cfi_register_map_ : list (RegisterSet amd64_reg) :=
  [mkRegister (lit "$rax") None false CONTEXT_VALID_RAX rax;
   mkRegister (lit "$rdx") None false CONTEXT_VALID_RDX rdx;
   mkRegister (lit "$rcx") None false CONTEXT_VALID_RCX rcx;
   mkRegister (lit "$rbx") None true CONTEXT_VALID_RBX rbx;
   mkRegister (lit "$rsi") None false CONTEXT_VALID_RSI rsi;
   mkRegister (lit "$rdi") None false CONTEXT_VALID_RDI rdi;
   mkRegister (lit "$rbp") None true CONTEXT_VALID_RBP rbp;
   mkRegister (lit "$rsp") (Some (lit ".cfa")) false CONTEXT_VALID_RSP rsp;
   mkRegister (lit "$r8") None false CONTEXT_VALID_R8 r8;
   mkRegister (lit "$r9") None false CONTEXT_VALID_R9 r9;
   mkRegister (lit "$r10") None false CONTEXT_VALID_R10 r10;
   mkRegister (lit "$r11") None false CONTEXT_VALID_R11 r11;
   mkRegister (lit "$r12") None true CONTEXT_VALID_R12 r12;
   mkRegister (lit "$r13") None true CONTEXT_VALID_R13 r13;
   mkRegister (lit "$r14") None true CONTEXT_VALID_R14 r14;
   mkRegister (lit "$r15") None true CONTEXT_VALID_R15 r15;
   mkRegister (lit "$rip") (Some (lit ".ra")) false CONTEXT_VALID_RIP rip].

Definition is_non_canonical (ptr : Z) : bool := (0x7FFFFFFFFFFF <? ptr) && (ptr <? 0xFFFF800000000000).

Section amd64.
Context {M : Type} `{SymbolModule M} {S : Type} `{SymbolSupplier S} {C : Type} `{CodeModules C}.
Context {R : Type} `{MemoryRegion R}.

(** [StackwalkerAMD64]: the base class and the context. *)
Record StackwalkerAMD64 := mkStackwalkerAMD64 {
  amd64_walker : Stackwalker C R;
  context_ : option amd64_context
}.

Definition amd64_GetContextFrame (w : StackwalkerAMD64) : option StackFrameAMD64 :=
  context_frame rip CONTEXT_VALID_ALL (context_ w).

Definition GetCallerByCFIFrameInfo (memory : R) (last_frame : StackFrameAMD64) (cfi_frame_info : CFIFrameInfo)
  : outcome (option StackFrameAMD64) :=
  match FindCallerRegisters 64 cfi_register_map_ memory cfi_frame_info (context last_frame) (context_validity last_frame) with
  | Undefined => Undefined
  | Fail => Ok None
  | Ok (c, validity) =>
      let essentials := Z.lor CONTEXT_VALID_RIP CONTEXT_VALID_RSP in
      if negb (Z.land validity essentials =? essentials) then Ok None
      else Ok (Some (new_frame FRAME_TRUST_CFI c validity))
  end.

Definition GetCallerByFramePointerRecovery (memory : R) (last_frame : StackFrameAMD64) : outcome (option StackFrameAMD64) :=
  let last_rbp := context last_frame rbp in
  if negb (last_rbp mod 8 =? 0) then Ok None else
  read_or_null 8 memory (wrap 64 (last_rbp + 8)) (λ caller_rip,
  read_or_null 8 memory last_rbp (λ caller_rbp,
    let caller_rsp := wrap 64 (last_rbp + 16) in
    if is_non_canonical caller_rip then Ok None
    else if (caller_rsp <=? last_rbp) || (caller_rbp <? caller_rsp) then Ok None
    else
      read_or_null 8 memory caller_rbp (λ _,
        Ok (Some (new_frame FRAME_TRUST_FP
                    (<[rbp := caller_rbp]> (<[rsp := caller_rsp]> (<[rip := caller_rip]> (context last_frame))))
                    (Z.lor (Z.lor CONTEXT_VALID_RIP CONTEXT_VALID_RSP) CONTEXT_VALID_RBP)))))).

(** The last part of [GetCallerByStackScan]: a plausible [rbp] for the caller. *)
Definition scan_rbp (memory : R) (last_frame : StackFrameAMD64) (caller_rip_address : Z) : outcome (option Z) :=
  if Z.land (context_validity last_frame) CONTEXT_VALID_RBP =? 0 then Ok None
  else if wrap 64 (caller_rip_address - 8) =? context last_frame rbp then
    match GetMemoryAtAddress 8 memory (context last_frame rbp) with
    | Ok caller_rbp => Ok (if caller_rip_address <? caller_rbp then Some caller_rbp else None)
    | Fail => Ok None
    | Undefined => Undefined
    end
  else if wrap 64 (caller_rip_address + 8) <=? context last_frame rbp then Ok (Some (context last_frame rbp))
  else Ok None.

Definition GetCallerByStackScan (w : StackwalkerAMD64) (memory : R) (frames : list StackFrameAMD64)
    (last_frame : StackFrameAMD64) (s : Symbolizer M S) : outcome (option StackFrameAMD64 * Symbolizer M S) :=
  let last_rsp := context last_frame rsp in
  '(found, s) ← ScanForReturnAddress 8 (amd64_walker w) memory last_rsp (length frames =? 1)%nat s;
  match found with
  | None => Ok (None, s)
  | Some (caller_rip_address, caller_rip) =>
      let c := <[rsp := wrap 64 (caller_rip_address + 8)]> (<[rip := caller_rip]> (context last_frame)) in
      let validity := Z.lor CONTEXT_VALID_RIP CONTEXT_VALID_RSP in
      plausible ← scan_rbp memory last_frame caller_rip_address;
      Ok (Some match plausible with
               | Some v => new_frame FRAME_TRUST_SCAN (<[rbp := v]> c) (Z.lor validity CONTEXT_VALID_RBP)
               | None => new_frame FRAME_TRUST_SCAN c validity
               end, s)
  end.

(** [GetCallerFrame], [frames] being the call stack so far. *)
Definition amd64_GetCallerFrame (w : StackwalkerAMD64) (frames : list StackFrameAMD64) (stack_scan_allowed : bool)
    (s : Symbolizer M S) : outcome (option StackFrameAMD64 * Symbolizer M S) :=
  match memory_ (amd64_walker w), last frames with
  | None, _ => Ok (None, s)
  | Some _, None => Undefined
  | Some memory, Some last_frame =>
      cfi_frame_info ← SymbolizerFindCFIFrameInfo (cpu_base last_frame) s;
      new_frame ← match cfi_frame_info with
                  | Some info => GetCallerByCFIFrameInfo memory last_frame info
                  | None => Ok None
                  end;
      new_frame ← match new_frame with
                  | Some f => Ok (Some f)
                  | None => GetCallerByFramePointerRecovery memory last_frame
                  end;
      '(new_frame, s) ← match new_frame with
                        | Some f => Ok (Some f, s)
                        | None => if stack_scan_allowed then GetCallerByStackScan w memory frames last_frame s
                                  else Ok (None, s)
                        end;
      match new_frame with
      | None => Ok (None, s)
      | Some new_frame =>
          let c := context new_frame in
          let c := if str_eqb (os_short (amd64_walker w)) (lit "nacl")
                   then <[rbp := u32 (c rbp)]> (<[rsp := u32 (c rsp)]> (<[rip := u32 (c rip)]> c)) else c in
          let new_frame := with_context new_frame c in
          if TerminateWalk (c rip) (c rsp) (context last_frame rsp) (length frames =? 1)%nat then Ok (None, s)
          else
            Ok (Some (mkCpuFrame
                        (mkFrame (mkStackFrame (wrap 64 (c rip - 1)) [] 0 [] 0 0) None (trust (cpu_base new_frame)))
                        c (context_validity new_frame)), s)
      end
  end.

#[export] Instance amd64_cpu_walker : CpuWalker StackwalkerAMD64 StackFrameAMD64 (Symbolizer M S) :=
  cpu_walker_of amd64_GetContextFrame amd64_GetCallerFrame.
End amd64.

Arguments StackwalkerAMD64 : clear implicits.

(** ** Properties *)

Lemma cfi_register_map_ok : map_ok cfi_register_map_.
Proof.
  constructor.
  - apply (bool_decide_eq_true_1 (NoDup (reg_name <$> cfi_register_map_))). by vm_compute.
  - apply (bool_decide_eq_true_1 (NoDup (context_member <$> cfi_register_map_))). by vm_compute.
  - apply (bool_decide_eq_true_1 (NoDup (validity_flag <$> cfi_register_map_))). by vm_compute.
  - intros r Hr. unfold cfi_register_map_ in Hr.
    repeat (apply elem_of_cons in Hr as [->|Hr]; [eexists; split; [|simpl; unfold CONTEXT_VALID_RAX,
      CONTEXT_VALID_RDX, CONTEXT_VALID_RCX, CONTEXT_VALID_RBX, CONTEXT_VALID_RSI, CONTEXT_VALID_RDI, CONTEXT_VALID_RBP,
      CONTEXT_VALID_RSP, CONTEXT_VALID_R8, CONTEXT_VALID_R9, CONTEXT_VALID_R10, CONTEXT_VALID_R11, CONTEXT_VALID_R12,
      CONTEXT_VALID_R13, CONTEXT_VALID_R14, CONTEXT_VALID_R15, CONTEXT_VALID_RIP; rewrite Z.shiftl_1_l; reflexivity]; lia|]).
    by apply not_elem_of_nil in Hr.
Qed.

Lemma land_lor_eqb a p q : 0 <= p -> 0 <= q ->
  Z.land a (2 ^ p) <> 0 -> Z.land a (2 ^ q) <> 0 -> Z.land a (Z.lor (2 ^ p) (2 ^ q)) = Z.lor (2 ^ p) (2 ^ q).
Proof.
  intros Hp Hq Ha Hb. assert (Hbit: forall k, 0 <= k -> Z.land a (2 ^ k) <> 0 -> Z.testbit a k = true).
  { intros k Hk Hne. destruct (Z.testbit a k) eqn:E; [done|]. exfalso. apply Hne, Z.bits_inj'. intros i Hi.
    rewrite Z.land_spec, Z.pow2_bits_eqb, Z.bits_0 by done. destruct (Z.eqb_spec k i) as [<-|]; [by rewrite E|apply andb_false_r]. }
  apply Z.bits_inj'. intros i Hi. rewrite Z.land_spec, Z.lor_spec, !Z.pow2_bits_eqb by done.
  destruct (Z.eqb_spec p i) as [->|], (Z.eqb_spec q i) as [->|]; rewrite ?andb_false_r, ?andb_true_r; auto.
Qed.

Section amd64_proofs.
Context {M : Type} `{SymbolModule M} {S : Type} `{SymbolSupplier S} {C : Type} `{CodeModules C}.
Context {R : Type} `{MemoryRegion R}.

(** ** Recovery by STACK CFI rules *)

Lemma caller_by_cfi_spec (memory : R) (f : StackFrameAMD64) (info : CFIFrameInfo) :
  let regs := callee_registers cfi_register_map_ (context f) (context_validity f) ∅ in
  match FindCallerRegs 64 info regs memory with
  | Ok caller => exists f', GetCallerByCFIFrameInfo memory f info = Ok (Some f') /\
      trust (cpu_base f') = FRAME_TRUST_CFI /\
      forall r, r ∈ cfi_register_map_ ->
        match caller_value (context f) (context_validity f) caller r with
        | Some v => context f' (context_member r) = v /\ Z.land (context_validity f') (validity_flag r) <> 0
        | None => Z.land (context_validity f') (validity_flag r) = 0
        end
  | Fail => GetCallerByCFIFrameInfo memory f info = Ok None
  | Undefined => GetCallerByCFIFrameInfo memory f info = Undefined
  end.
Proof.
  intros regs. unfold GetCallerByCFIFrameInfo.
  destruct (FindCallerRegisters 64 cfi_register_map_ memory info (context f) (context_validity f)) as [[c v]| |] eqn:E.
  - destruct (FindCallerRegisters_spec 64 _ _ _ _ _ _ _ cfi_register_map_ok E) as (caller & Ec & Hr).
    fold regs in Ec. rewrite Ec. destruct (FindCallerRegs_essentials _ _ _ _ _ Ec) as [[cfa Hcfa] [ra Hra]].
    assert (Hval: forall r, r ∈ cfi_register_map_ -> match alternate_name r with Some a => is_Some (caller !! a) | None => False end ->
      Z.land v (validity_flag r) <> 0).
    { intros r Hin Halt. specialize (Hr r Hin). unfold caller_value in Hr. destruct (caller !! reg_name r); [apply Hr|].
      destruct (alternate_name r) as [a|]; [|done]. destruct Halt as [x Hx]. rewrite Hx in Hr. apply Hr. }
    assert (Hess: Z.land v (Z.lor CONTEXT_VALID_RIP CONTEXT_VALID_RSP) = Z.lor CONTEXT_VALID_RIP CONTEXT_VALID_RSP).
    { apply (land_lor_eqb v 16 7); [lia..| |].
      - apply (Hval (mkRegister (lit "$rip") (Some (lit ".ra")) false CONTEXT_VALID_RIP rip)); [|by eexists].
        unfold cfi_register_map_. repeat (apply elem_of_cons; first [left; reflexivity|right]).
      - apply (Hval (mkRegister (lit "$rsp") (Some (lit ".cfa")) false CONTEXT_VALID_RSP rsp)); [|by eexists].
        unfold cfi_register_map_. repeat (apply elem_of_cons; first [left; reflexivity|right]). }
    rewrite Hess, Z.eqb_refl. cbn [negb]. eexists. split; [reflexivity|]. split; [done|]. cbn [context context_validity new_frame].
    intros r Hin. specialize (Hr r Hin). destruct (caller_value _ _ _ r); [done|apply Hr].
  - revert E. unfold FindCallerRegisters. fold regs. by destruct (FindCallerRegs 64 info regs memory).
  - revert E. unfold FindCallerRegisters. fold regs. by destruct (FindCallerRegs 64 info regs memory).
Qed.

(** What [GetCallerByCFIFrameInfo] gives. *)
Lemma cfi_trust (memory : R) f info f' :
  GetCallerByCFIFrameInfo memory f info = Ok (Some f') -> trust (cpu_base f') = FRAME_TRUST_CFI.
Proof.
  intros E. pose proof (caller_by_cfi_spec memory f info) as Hc. cbv zeta in Hc. rewrite E in Hc.
  destruct (FindCallerRegs _ _ _ _); [|done..]. destruct Hc as (? & [= ->] & ? & _). done.
Qed.

(** ** Recovery by the frame pointer *)

(** The conditions under which the frame pointer of [f] leads to a caller with
    these registers. *)
Definition frame_pointer_caller (memory : R) (f : StackFrameAMD64) (caller_rip caller_rbp : Z) : Prop :=
  let last_rbp := context f rbp in
  last_rbp mod 8 = 0 /\
  GetMemoryAtAddress 8 memory (wrap 64 (last_rbp + 8)) = Ok caller_rip /\
  GetMemoryAtAddress 8 memory last_rbp = Ok caller_rbp /\
  ~ (0x7FFFFFFFFFFF < caller_rip < 0xFFFF800000000000) /\
  last_rbp < wrap 64 (last_rbp + 16) <= caller_rbp /\
  exists v, GetMemoryAtAddress 8 memory caller_rbp = Ok v.

Definition frame_pointer_frame (f : StackFrameAMD64) (caller_rip caller_rbp : Z) : StackFrameAMD64 :=
  new_frame FRAME_TRUST_FP
    (<[rbp := caller_rbp]> (<[rsp := wrap 64 (context f rbp + 16)]> (<[rip := caller_rip]> (context f))))
    (Z.lor (Z.lor CONTEXT_VALID_RIP CONTEXT_VALID_RSP) CONTEXT_VALID_RBP).

Lemma caller_by_frame_pointer_spec (memory : R) f f' :
  GetCallerByFramePointerRecovery memory f = Ok (Some f') <->
  exists caller_rip caller_rbp, frame_pointer_caller memory f caller_rip caller_rbp /\
    f' = frame_pointer_frame f caller_rip caller_rbp.
Proof.
  unfold GetCallerByFramePointerRecovery, frame_pointer_caller, is_non_canonical. split.
  - dif; [done|]. intros (rip' & Hrip & (rbp' & Hrbp & Hk)%read_or_null_Some)%read_or_null_Some. cbv zeta in Hk.
    destruct (_ && _) eqn:Ec; [done|]. destruct (_ || _) eqn:Ea; [done|]. breflect.
    apply read_or_null_Some in Hk as (v & Hv & [= <-]). exists rip', rbp'. split; [|done].
    split; [done|]. split; [done|]. split; [done|]. split; [destruct Ec; breflect; lia|]. split; [lia|by exists v].
  - intros (rip' & rbp' & (Hm & Hrip & Hrbp & Hc & Ha & v & Hv) & ->). rewrite Hm. cbn [Z.eqb negb].
    apply read_or_null_Some. exists rip'. split; [done|]. apply read_or_null_Some. exists rbp'. split; [done|].
    cbv zeta. replace ((_ <? rip') && _) with false; [|symmetry; apply andb_false_iff; destruct (Z.ltb_spec 0x7FFFFFFFFFFF rip'); [right; apply Z.ltb_ge; lia|by left]].
    replace (_ || _) with false; [|symmetry; apply orb_false_iff; split; [apply Z.leb_gt; lia|apply Z.ltb_ge; lia]].
    apply read_or_null_Some. by exists v.
Qed.

(** ** Recovery by scanning *)

(** The caller whose return address [ip] was found at [location]: the frame
    pointer, when it is said to be valid, is the callee's, which lies above the
    return address, or what the callee saved right below the return address. *)
Definition scanned_frame (memory : R) (f : StackFrameAMD64) (location ip : Z) (f' : StackFrameAMD64) : Prop :=
  trust (cpu_base f') = FRAME_TRUST_SCAN /\ context f' rip = ip /\ context f' rsp = wrap 64 (location + 8) /\
  (forall r, r ∉ [rip; rsp; rbp] -> context f' r = context f r) /\
  (if Z.land (context_validity f') CONTEXT_VALID_RBP =? 0 then context f' rbp = context f rbp
   else Z.land (context_validity f) CONTEXT_VALID_RBP <> 0 /\
     ((context f' rbp = context f rbp /\ wrap 64 (location + 8) <= context f rbp) \/
      (wrap 64 (location - 8) = context f rbp /\ GetMemoryAtAddress 8 memory (context f rbp) = Ok (context f' rbp) /\
       location < context f' rbp))).

Lemma scan_rbp_frame (memory : R) f location ip plausible :
  scan_rbp memory f location = Ok plausible ->
  let c := <[rsp := wrap 64 (location + 8)]> (<[rip := ip]> (context f)) in
  let validity := Z.lor CONTEXT_VALID_RIP CONTEXT_VALID_RSP in
  scanned_frame memory f location ip
    match plausible with
    | Some v => new_frame FRAME_TRUST_SCAN (<[rbp := v]> c) (Z.lor validity CONTEXT_VALID_RBP)
    | None => new_frame FRAME_TRUST_SCAN c validity
    end.
Proof.
  intros E c validity. assert (Hc: forall r, r ∉ [rip; rsp; rbp] -> c r = context f r /\ rbp <> r).
  { intros r Hr. rewrite !not_elem_of_cons in Hr. destruct Hr as (? & ? & ? & _). unfold c. by rewrite !fn_lookup_insert_ne. }
  assert (Hbp: Z.land (Z.lor validity CONTEXT_VALID_RBP) CONTEXT_VALID_RBP =? 0 = false) by done.
  unfold scan_rbp in E. destruct plausible as [v|]; unfold scanned_frame; cbn [context context_validity new_frame cpu_base trust].
  - split; [done|]. split; [done|]. split; [done|].
    split; [intros r Hr; destruct (Hc r Hr) as [<- ?]; by rewrite fn_lookup_insert_ne|].
    rewrite Hbp. destruct (Z.land (context_validity f) _ =? 0) eqn:Ev; [done|]. breflect. split; [done|].
    rewrite fn_lookup_insert. destruct (wrap 64 (location - 8) =? context f rbp) eqn:El; breflect.
    + destruct (GetMemoryAtAddress 8 memory (context f rbp)) as [v'| |]; try done. destruct (location <? v') eqn:Ea; [|done].
      injection E as <-. breflect. right. by split_and!.
    + destruct (_ <=? context f rbp) eqn:Ea; [|done]. injection E as <-. breflect. left. by split.
  - split; [done|]. split; [done|]. split; [done|]. split; [intros r Hr; by apply Hc|done].
Qed.

Lemma caller_by_scan_Some w (memory : R) frames f (s s' : Symbolizer M S) f' :
  GetCallerByStackScan (C := C) w memory frames f s = Ok (Some f', s') ->
  exists location ip,
    ScanForReturnAddress 8 (amd64_walker w) memory (context f rsp) (length frames =? 1)%nat s = Ok (Some (location, ip), s') /\
    scanned_frame memory f location ip f'.
Proof.
  unfold GetCallerByStackScan. destruct (ScanForReturnAddress _ _ _ _ _ _) as [[[[location ip]|] s1]| |]; try done.
  rewrite bind_Ok. cbv beta iota zeta. destruct (scan_rbp memory f location) as [o| |] eqn:E; try done.
  rewrite bind_Ok. intros [= <- <-]. exists location, ip. split; [done|]. by apply scan_rbp_frame.
Qed.

(** ** [GetCallerFrame] *)

(** The rules are tried first, then the frame pointer, then a scan if allowed. *)
Definition no_cfi_caller (memory : R) (f : StackFrameAMD64) (s : Symbolizer M S) : Prop :=
  SymbolizerFindCFIFrameInfo (cpu_base f) s = Ok None \/
  exists info, SymbolizerFindCFIFrameInfo (cpu_base f) s = Ok (Some info) /\ GetCallerByCFIFrameInfo memory f info = Ok None.

Inductive found_by (w : StackwalkerAMD64 C R) (memory : R) (frames : list StackFrameAMD64) (f : StackFrameAMD64)
    (scan : bool) (s : Symbolizer M S) : StackFrameAMD64 -> Symbolizer M S -> Prop :=
| by_cfi info g :
    SymbolizerFindCFIFrameInfo (cpu_base f) s = Ok (Some info) ->
    GetCallerByCFIFrameInfo memory f info = Ok (Some g) -> found_by w memory frames f scan s g s
| by_frame_pointer g :
    no_cfi_caller memory f s -> GetCallerByFramePointerRecovery memory f = Ok (Some g) ->
    found_by w memory frames f scan s g s
| by_scan g s' :
    no_cfi_caller memory f s -> GetCallerByFramePointerRecovery memory f = Ok None -> scan = true ->
    GetCallerByStackScan w memory frames f s = Ok (Some g, s') -> found_by w memory frames f scan s g s'.

Lemma found_by_trust w memory frames f scan s g s' :
  found_by w memory frames f scan s g s' ->
  match trust (cpu_base g) with
  | FRAME_TRUST_CFI | FRAME_TRUST_FP => True | FRAME_TRUST_SCAN => scan = true | _ => False end.
Proof.
  intros [info g' _ Hg|g' _ Hg|g' s1 _ _ Hs Hg].
  - apply cfi_trust in Hg. by rewrite Hg.
  - apply caller_by_frame_pointer_spec in Hg as (? & ? & _ & ->). done.
  - apply caller_by_scan_Some in Hg as (? & ? & _ & Ht & _). by rewrite Ht.
Qed.

(** The Native Client sandbox. *)
Definition sandboxed (w : StackwalkerAMD64 C R) (c : amd64_context) : amd64_context :=
  if str_eqb (os_short (amd64_walker w)) (lit "nacl")
  then <[rbp := u32 (c rbp)]> (<[rsp := u32 (c rsp)]> (<[rip := u32 (c rip)]> c)) else c.

(** The frame for a caller that was found. *)
Definition caller_frame (w : StackwalkerAMD64 C R) (g : StackFrameAMD64) : StackFrameAMD64 :=
  let c := sandboxed w (context g) in
  mkCpuFrame (mkFrame (mkStackFrame (wrap 64 (c rip - 1)) [] 0 [] 0 0) None (trust (cpu_base g))) c (context_validity g).

Lemma get_caller_frame_spec (w : StackwalkerAMD64 C R) frames scan (s s' : Symbolizer M S) f' :
  amd64_GetCallerFrame w frames scan s = Ok (Some f', s') <->
  exists memory f g, memory_ (amd64_walker w) = Some memory /\ last frames = Some f /\
    found_by w memory frames f scan s g s' /\ f' = caller_frame w g /\
    TerminateWalk (context f' rip) (context f' rsp) (context f rsp) (length frames =? 1)%nat = false.
Proof.
  unfold amd64_GetCallerFrame. destruct (memory_ (amd64_walker w)) as [memory|]; [|by split; [|intros (?&?&?&?&_)]].
  destruct (last frames) as [f|]; [|by split; [|intros (?&?&?&_&?&_)]].
  assert (Hend: forall g s2, (let c := sandboxed w (context g) in
      if TerminateWalk (c rip) (c rsp) (context f rsp) (length frames =? 1)%nat then Ok (None, s2)
      else Ok (Some (caller_frame w g), s2)) = Ok (Some f', s') <->
    s' = s2 /\ f' = caller_frame w g /\
    TerminateWalk (context f' rip) (context f' rsp) (context f rsp) (length frames =? 1)%nat = false).
  { intros g s2. cbv zeta. destruct (TerminateWalk _ _ _ _) eqn:Et; split; try done.
    - intros (_ & -> & Hf). cbn [caller_frame context] in Hf. congruence.
    - by intros [= <- <-].
    - by intros (-> & -> & _). }
  split.
  - destruct (SymbolizerFindCFIFrameInfo (cpu_base f) s) as [info| |] eqn:Ei; try done. rewrite bind_Ok.
    destruct (match info with Some i => _ | None => Ok None end) as [nf| |] eqn:Ecfi; try done. rewrite bind_Ok.
    destruct (match nf with Some f0 => Ok (Some f0) | None => GetCallerByFramePointerRecovery memory f end) as [nf1| |] eqn:Efp; try done.
    rewrite bind_Ok. destruct (match nf1 with Some f0 => Ok (Some f0, s) | None => _ end) as [[nf2 s2]| |] eqn:Esc; try done.
    rewrite bind_Ok. cbv beta iota. destruct nf2 as [g|]; [|done]. intros Hg. apply Hend in Hg as (-> & Hf' & Ht).
    exists memory, f, g. split; [done|]. split; [done|]. split; [|done].
    destruct nf1 as [g1|]; [injection Esc as <- <-; destruct nf as [g0|]|].
    + injection Efp as <-. destruct info as [i|]; [|done]. by apply (by_cfi _ _ _ _ _ _ i).
    + apply by_frame_pointer; [|done]. destruct info as [i|]; [right; by exists i|by left].
    + destruct nf as [g0|]; [done|]. destruct scan; [|done].
      apply by_scan; try done. destruct info as [i|]; [right; by exists i|by left].
  - intros (m & f0 & g & [= <-] & [= <-] & Hg & Hf).
    assert (Hno: no_cfi_caller memory f s -> exists info, SymbolizerFindCFIFrameInfo (cpu_base f) s = Ok info /\
      match info with Some i => GetCallerByCFIFrameInfo memory f i | None => Ok None end = Ok None).
    { intros [E|(i & E & E')]; [by exists None|by exists (Some i)]. }
    destruct Hg as [info g Ei Eg|g Hc Eg|g s2 Hc Ep -> Eg].
    + rewrite Ei, bind_Ok, Eg, !bind_Ok. by apply Hend.
    + destruct (Hno Hc) as (info & -> & E). rewrite bind_Ok, E, bind_Ok, Eg, !bind_Ok. by apply Hend.
    + destruct (Hno Hc) as (info & -> & E). rewrite bind_Ok, E, bind_Ok, Ep, bind_Ok, Eg, bind_Ok. by apply Hend.
Qed.

(** The AMD64 walker keeps the promises of Stackwalker.v. *)
#[export] Instance amd64_walker_laws :
  CpuWalkerLaws (StackwalkerAMD64 C R) StackFrameAMD64 (Symbolizer M S) (λ f, context f rsp) (λ f, context f rip).
Proof.
  apply (cpu_walker_of_laws _ _ (λ c, c rsp) (λ c, c rip)).
  - intros w f (c & _ & ->)%fmap_Some. done.
  - intros w frames f scan st f' st' Hl (? & g & ? & _ & Hl' & _ & _ & Ht)%get_caller_frame_spec.
    rewrite Hl in Hl'. by injection Hl' as <-.
  - intros w frames st f' st' (? & ? & g & _ & _ & Hf%found_by_trust & -> & _)%get_caller_frame_spec.
    cbn. by destruct (trust (cpu_base g)).
Qed.
End amd64_proofs.

(** ** The end of a walk *)

Section amd64_walks.
Context {M : Type} `{SymbolModule M} (loaded : M -> Prop) `{!SymbolModuleLaws M loaded}.
Context {S : Type} `{SymbolSupplier S} {C : Type} `{CodeModules C}.
Context {R : Type} `{MemoryRegion R} (valid : R -> Prop) `{!MemoryRegionLaws R valid}.

Context (Inv : Symbolizer M S -> Prop) (blame : Prop).

Lemma caller_by_cfi_words (memory : R) f info :
  readable valid 8 memory -> context_words 64 f -> (forall regs, FindCallerRegs 64 info regs memory = Undefined -> blame) ->
  sound blame (caller_words 64) (GetCallerByCFIFrameInfo memory f info).
Proof.
  intros Hm Hf Hu. unfold GetCallerByCFIFrameInfo.
  pose proof (registers_words valid 64 cfi_register_map_ memory info (context f) (context_validity f) ltac:(by right) ltac:(apply Hm) Hf) as Hr.
  destruct (FindCallerRegisters _ _ _ _ _ _) as [[c v]| |]; [|done|by destruct Hr as [regs ?%Hu]].
  destruct (negb _); [done|]. intros ? [= <-]. exact Hr.
Qed.

Lemma caller_by_frame_pointer_words (memory : R) f :
  readable valid 8 memory -> context_words 64 f -> sound blame (caller_words 64) (GetCallerByFramePointerRecovery memory f).
Proof.
  intros Hm Hf. unfold GetCallerByFramePointerRecovery. dif; [done|].
  apply (sound_read valid); [by right|done|by apply wrap_fits|done|]. intros ip Hip _.
  apply (sound_read valid); [by right|done|apply Hf|done|]. intros bp Hbp _. cbv zeta. repeat (dif; [done|]).
  apply (sound_read valid); [by right|done|exact Hbp|done|]. intros v _ _ g [= <-]. words.
Qed.

Lemma scan_rbp_words (memory : R) f location :
  readable valid 8 memory -> context_words 64 f ->
  sound blame (λ o, forall v, o = Some v -> fits 64 v) (scan_rbp memory f location).
Proof.
  intros Hm Hf. unfold scan_rbp. repeat dif; try done.
  - destruct (GetMemoryAtAddress 8 memory (context f rbp)) as [v| |] eqn:Ev; [|done|by apply (rd_defined _ _ _ Hm) in Ev].
    intros v'. destruct (location <? v); [|done]. intros [= <-]. by apply (read_fits valid 8) in Ev; [|by right|..].
  - intros v [= <-]. apply Hf.
Qed.

Lemma caller_by_scan_words (w : StackwalkerAMD64 C R) memory frames f (s : Symbolizer M S) :
  symbols_kept (modules_list (amd64_walker w)) (unloaded_modules_ (amd64_walker w)) Inv blame ->
  readable valid 8 memory -> context_words 64 f -> Inv s ->
  sound blame (found_ok Inv (context_words 64)) (GetCallerByStackScan w memory frames f s).
Proof.
  intros Hk Hm Hf Hs. unfold GetCallerByStackScan.
  apply (sound_scan loaded valid Inv); [done|by right|done|done|apply Hf|by split|].
  intros j ip s' Hs' Hj Hloc Hip _. cbv zeta.
  eapply sound_bind; [by apply scan_rbp_words|]. intros o Ho. split; [done|]. intros g [= <-].
  destruct o as [v|]; words. by apply Ho.
Qed.

Lemma get_caller_sound (w : StackwalkerAMD64 C R) frames f scan (s : Symbolizer M S) :
  kept_by Inv blame 64 (amd64_walker w) -> (forall memory, memory_ (amd64_walker w) = Some memory -> readable valid 8 memory) ->
  last frames = Some f -> context_words 64 f -> Inv s ->
  sound blame (found_ok Inv (context_words 64)) (amd64_GetCallerFrame w frames scan s).
Proof.
  intros [Hk Hru] Hmem Hl Hf Hs. unfold amd64_GetCallerFrame. rewrite Hl.
  destruct (memory_ (amd64_walker w)) as [memory|] eqn:Em; [|by split]. specialize (Hmem memory eq_refl).
  eapply sound_bind; [by apply (sound_cfi_info loaded), (sk_ok _ _ _ _ Hk)|]. intros info Hinfo.
  eapply (sound_bind _ (caller_words 64)); [destruct info as [i|]; [apply caller_by_cfi_words; try done; intros regs; by eapply Hru|done]|]. intros nf Hnf.
  eapply (sound_bind _ (caller_words 64)); [destruct nf as [g|]; [exact Hnf|by apply caller_by_frame_pointer_words]|].
  intros nf1 Hnf1. eapply (sound_bind _ (found_ok Inv (context_words 64))).
  { destruct nf1 as [g|]; [by split|]. destruct scan; [by apply caller_by_scan_words|by split]. }
  intros [nf2 s2] [Hs2 Hg]. cbn [fst snd] in *. destruct nf2 as [g|]; [|by split]. cbv zeta.
  dif; [by split|]. split; [done|]. intros f' [= <-]. cbn [context with_context].
  specialize (Hg g eq_refl). destruct (str_eqb _ _); [|exact Hg].
  assert (Hu: forall z, fits 64 (u32 z)) by (intros z; pose proof (wrap_fits 32 z ltac:(lia)); unfold u32, fits in *; lia).
  words.
Qed.

End amd64_walks.

Section amd64_callers.
Context {M : Type} `{SymbolModule M} {S : Type} `{SymbolSupplier S} {C : Type} `{CodeModules C} {R : Type} `{MemoryRegion R}.

(** C26: [GetCallerFrame] finds a caller exactly when the STACK CFI rules of the frame
    give one, or else its frame pointer, or else, if that is allowed, a scan of the
    stack, and [TerminateWalk] lets it pass; its registers are the ones found, cut to
    32 bits in the Native Client sandbox, and its instruction address is one less than
    its return address. *)
Theorem amd64_get_caller (w : StackwalkerAMD64 C R) frames scan (s s' : Symbolizer M S) f' :
  amd64_GetCallerFrame w frames scan s = Ok (Some f', s') <->
  exists memory f g, memory_ (amd64_walker w) = Some memory /\ last frames = Some f /\
    found_by w memory frames f scan s g s' /\ f' = caller_frame w g /\
    TerminateWalk (context f' rip) (context f' rsp) (context f rsp) (length frames =? 1)%nat = false.
Proof. apply get_caller_frame_spec. Qed.
End amd64_callers.

(** Recovery by STACK CFI rules: when the rules evaluate, the caller is always
    found, since they always give the stack pointer and the return address; each
    register is valid exactly when the rules give it a value or it is callee-saves
    and valid in the callee, and has that value.  Otherwise there is no caller. *)
Lemma amd64_cfi_caller {R} `{MemoryRegion R} (memory : R) (f : StackFrameAMD64) (info : CFIFrameInfo) :
  let regs := callee_registers cfi_register_map_ (context f) (context_validity f) ∅ in
  match FindCallerRegs 64 info regs memory with
  | Ok caller => exists f', GetCallerByCFIFrameInfo memory f info = Ok (Some f') /\
      trust (cpu_base f') = FRAME_TRUST_CFI /\
      forall r, r ∈ cfi_register_map_ ->
        match caller_value (context f) (context_validity f) caller r with
        | Some v => context f' (context_member r) = v /\ Z.land (context_validity f') (validity_flag r) <> 0
        | None => Z.land (context_validity f') (validity_flag r) = 0
        end
  | Fail => GetCallerByCFIFrameInfo memory f info = Ok None
  | Undefined => GetCallerByCFIFrameInfo memory f info = Undefined
  end.
Proof. apply caller_by_cfi_spec. Qed.

(** Recovery by the frame pointer finds a caller exactly when %rbp is aligned, the
    saved %rbp and the return address above it can be read, that address is canonical,
    and the saved %rbp is not below the caller's %rsp and points into the stack. *)
Lemma amd64_frame_pointer {R} `{MemoryRegion R} (memory : R) f f' :
  GetCallerByFramePointerRecovery memory f = Ok (Some f') <->
  exists caller_rip caller_rbp, frame_pointer_caller memory f caller_rip caller_rbp /\
    f' = frame_pointer_frame f caller_rip caller_rbp.
Proof. apply caller_by_frame_pointer_spec. Qed.

(** ** Witnesses *)

Definition demo_context : amd64_context :=
  λ r, match r with rip => 0x400810 | rsp => 0x7fff0000 | rbp => 0x7fff0010 | _ => 0 end.

Definition demo_amd64 : StackwalkerAMD64 BasicCodeModules MicrodumpMemoryRegion :=
  mkStackwalkerAMD64 demo_stackwalker (Some demo_context).

Definition demo_walk : outcome (WalkResult BasicModule nat StackFrameAMD64) :=
  Walk (set_max_frames default_limits 10) demo_amd64 (Some demo_modules) None [] [] demo_symbolizer.

(** The context, a frame found by the frame pointer and one found by a scan. *)
Lemma demo_walk_frames :
  match demo_walk with
  | Ok r => (λ f, (trust (cpu_base f), context f rip, context f rsp, function_name (sframe (cpu_base f)))) <$> frames_ r
  | _ => []
  end =
  [(FRAME_TRUST_CONTEXT, 0x400810, 0x7fff0000, lit "main"); (FRAME_TRUST_FP, 0x400815, 0x7fff0020, lit "main");
   (FRAME_TRUST_SCAN, 0x400818, 0x7fff0030, lit "main")].
Proof. vm_compute. reflexivity. Qed.

(** The limit on the frames is tested after a frame has joined the stack: with a limit of
    1 the walk completes with two. *)
Lemma max_frames_exceeded :
  match Walk (set_max_frames default_limits 1) demo_amd64 (Some demo_modules) None [] [] demo_symbolizer with
  | Ok r => completed r = true /\ length (frames_ r) = 2%nat
  | _ => False
  end.
Proof. by vm_compute. Qed.

Lemma stack_walk_witness :
  exists r, demo_walk = Ok r /\ climbing (λ f, context f rsp) (λ f, context f rip) (frames_ r) /\
    length (frames_ r) = 3%nat /\ dubious_count (frames_ r) <= 2 ^ 14.
Proof.
  pose proof demo_walk_frames as Hd. destruct demo_walk as [r| |] eqn:E; [|discriminate Hd..].
  destruct (stack_walk (λ f, context f rsp) (λ f, context f rip) (set_max_frames default_limits 10) demo_amd64
    (Some demo_modules) None [] [] demo_symbolizer r ltac:(simpl; lia) E) as (Hc & _ & Hn & _).
  exists r. split_and!; [done|exact Hc| |exact Hn]. apply (f_equal length) in Hd. by rewrite length_fmap in Hd.
Defined.
