(* ===== verification/StackwalkerChain.v ===== *)
(** processor/stackwalker_ppc.cc, stackwalker_ppc64.cc, stackwalker_sparc.cc,
    stackwalker_address_list.cc: the stack walkers that need no symbols, since the
    frames are chained on the stack or are given. *)
From Stdlib Require Import Ascii.
From stdpp Require Import strings list gmap functions.
From S2P Require Import Prelude StdMap RangeMap CStr StrMap Memory MemoryRegion CodeModules CfiFrameInfo SymbolFile BasicResolver BasicInvariant SymbolLoad ResolverLookup ResolverBase ResolverTable Symbolizer Stackwalker CpuFrame.

(** ** PowerPC *)

(** The members of [MDRawContextPPC] and [MDRawContextPPC64] the walkers use. *)
Inductive ppc_reg := srr0 | gpr1.

#[export] Instance ppc_reg_eq_dec : EqDecision ppc_reg.
Proof. solve_decision. Defined.

Module PPC.
Definition CONTEXT_VALID_SRR0 : Z := Z.shiftl 1 0.
Definition CONTEXT_VALID_GPR1 : Z := Z.shiftl 1 1.
Definition CONTEXT_VALID_ALL : Z := -1.
End PPC.

Section ppc.
Context {M : Type} `{SymbolModule M} {S : Type} `{SymbolSupplier S} {C : Type} `{CodeModules C}.
Context {R : Type} `{MemoryRegion R}.

Record StackwalkerPPC := mkStackwalkerPPC { ppc_walker : Stackwalker C R; ppc_context_ : option (RawContext ppc_reg) }.

Definition StackwalkerPPC_new (w : Stackwalker C R) (c : option (RawContext ppc_reg)) : StackwalkerPPC :=
  mkStackwalkerPPC (limit_memory w) c.

Definition StackwalkerPPC64_new (w : Stackwalker C R) (c : option (RawContext ppc_reg)) : StackwalkerPPC :=
  mkStackwalkerPPC w c.

Definition ppc_GetContextFrame (w : StackwalkerPPC) : option (CpuFrame ppc_reg) :=
  context_frame srr0 PPC.CONTEXT_VALID_ALL (ppc_context_ w).

(** [GetCallerFrame] for [n]-byte words, with the return address saved at
    [saved](%r1) of the caller and calls of [size] bytes. *)
Definition ppc_caller (n : nat) (saved size : Z) (memory : R) (last_frame : CpuFrame ppc_reg) (first : bool)
  : outcome (option (CpuFrame ppc_reg)) :=
  let w := 8 * Z.of_nat n in
  read_or_null n memory (context last_frame gpr1) (λ stack_pointer,
    if stack_pointer <=? context last_frame gpr1 then Ok None
    else read_or_null n memory (wrap w (stack_pointer + saved)) (λ instruction,
      if instruction <=? 1 then Ok None
      else
        let frame := new_frame FRAME_TRUST_FP (<[gpr1 := stack_pointer]> (<[srr0 := instruction]> (context last_frame)))
                       (Z.lor PPC.CONTEXT_VALID_SRR0 PPC.CONTEXT_VALID_GPR1) in
        if TerminateWalk instruction stack_pointer (context last_frame gpr1) first then Ok None
        else Ok (Some (with_instruction frame (wrap w (context frame srr0 - size)))))).

Definition ppc_GetCallerFrame (n : nat) (saved size : Z) (w : StackwalkerPPC) (frames : list (CpuFrame ppc_reg))
    (stack_scan_allowed : bool) (s : Symbolizer M S) : outcome (option (CpuFrame ppc_reg) * Symbolizer M S) :=
  match memory_ (ppc_walker w), last frames with
  | None, _ => Ok (None, s)
  | Some _, None => Undefined
  | Some memory, Some last_frame =>
      frame ← ppc_caller n saved size memory last_frame (length frames =? 1)%nat; Ok (frame, s)
  end.

(** [StackwalkerPPC] and [StackwalkerPPC64]. *)
Definition ppc_cpu_walker : CpuWalker StackwalkerPPC (CpuFrame ppc_reg) (Symbolizer M S) :=
  cpu_walker_of ppc_GetContextFrame (ppc_GetCallerFrame 4 8 4).
Definition ppc64_cpu_walker : CpuWalker StackwalkerPPC (CpuFrame ppc_reg) (Symbolizer M S) :=
  cpu_walker_of ppc_GetContextFrame (ppc_GetCallerFrame 8 16 8).
End ppc.

Arguments StackwalkerPPC : clear implicits.

(** ** SPARC *)

(** The members of [MDRawContextSPARC] the walker uses: %sp, %fp and the program counter. *)
Inductive sparc_reg := g_r14 | g_r30 | sparc_pc.

#[export] Instance sparc_reg_eq_dec : EqDecision sparc_reg.
Proof. solve_decision. Defined.

Module SPARC.
Definition CONTEXT_VALID_PC : Z := Z.shiftl 1 0.
Definition CONTEXT_VALID_SP : Z := Z.shiftl 1 1.
Definition CONTEXT_VALID_FP : Z := Z.shiftl 1 2.
Definition CONTEXT_VALID_ALL : Z := -1.
End SPARC.

Section sparc.
Context {M : Type} `{SymbolModule M} {S : Type} `{SymbolSupplier S} {C : Type} `{CodeModules C}.
Context {R : Type} `{MemoryRegion R}.

Record StackwalkerSPARC := mkStackwalkerSPARC { sparc_walker : Stackwalker C R; sparc_context_ : option (RawContext sparc_reg) }.

Definition sparc_GetContextFrame (w : StackwalkerSPARC) : option (CpuFrame sparc_reg) :=
  context_frame sparc_pc SPARC.CONTEXT_VALID_ALL (sparc_context_ w).

(** The stack pointer has 64 bits, the words on the stack have 32. *)
Definition sparc_caller (memory : R) (last_frame : CpuFrame sparc_reg) (first : bool) : outcome (option (CpuFrame sparc_reg)) :=
  let stack_pointer := context last_frame g_r30 in
  if stack_pointer <=? context last_frame g_r14 then Ok None
  else read_or_null 4 memory (wrap 64 (stack_pointer + 60)) (λ instruction,
    if instruction <=? 1 then Ok None
    else read_or_null 4 memory (wrap 64 (stack_pointer + 56)) (λ stack_base,
      if stack_base <=? 1 then Ok None
      else if TerminateWalk instruction stack_pointer (context last_frame g_r14) first then Ok None
      else
        let c := <[sparc_pc := wrap 32 (instruction + 8)]>
                   (<[g_r30 := stack_base]> (<[g_r14 := stack_pointer]> (context last_frame))) in
        let validity := Z.lor (Z.lor SPARC.CONTEXT_VALID_PC SPARC.CONTEXT_VALID_SP) SPARC.CONTEXT_VALID_FP in
        Ok (Some (with_instruction (new_frame FRAME_TRUST_FP c validity) instruction)))).

Definition sparc_GetCallerFrame (w : StackwalkerSPARC) (frames : list (CpuFrame sparc_reg)) (stack_scan_allowed : bool)
    (s : Symbolizer M S) : outcome (option (CpuFrame sparc_reg) * Symbolizer M S) :=
  match memory_ (sparc_walker w), last frames with
  | None, _ => Ok (None, s)
  | Some _, None => Undefined
  | Some memory, Some last_frame => frame ← sparc_caller memory last_frame (length frames =? 1)%nat; Ok (frame, s)
  end.

Definition sparc_cpu_walker : CpuWalker StackwalkerSPARC (CpuFrame sparc_reg) (Symbolizer M S) :=
  cpu_walker_of sparc_GetContextFrame sparc_GetCallerFrame.
End sparc.

Arguments StackwalkerSPARC : clear implicits.

(** ** A list of addresses *)

Section address_list.
Context {M : Type} `{SymbolModule M} {S : Type} `{SymbolSupplier S}.

(** [frames_] with its [frame_count_]; the modules are those of the walk. *)
Record StackwalkerAddressList := mkStackwalkerAddressList { addresses_ : list Z }.

Definition prewalked (instruction : Z) : Frame := mkFrame (mkStackFrame instruction [] 0 [] 0 0) None FRAME_TRUST_PREWALKED.

Definition address_list_GetContextFrame (w : StackwalkerAddressList) : option Frame :=
  match addresses_ w with [] => None | a :: _ => Some (prewalked a) end.

Definition address_list_GetCallerFrame (w : StackwalkerAddressList) (frames : list Frame) (stack_scan_allowed : bool)
    (s : Symbolizer M S) : outcome (option Frame * list Frame * Symbolizer M S) :=
  leave frames (Ok (prewalked <$> addresses_ w !! length frames, s)).

Definition address_list_cpu_walker : CpuWalker StackwalkerAddressList Frame (Symbolizer M S) := {|
  GetContextFrame := address_list_GetContextFrame;
  GetCallerFrame := address_list_GetCallerFrame;
  base_frame := id;
  set_base_frame := λ _ b, b
|}.
End address_list.

(** ** PowerPC: the caller *)

Lemma ppc_caller_spec {R} `{MemoryRegion R} n saved size (memory : R) f first g :
  ppc_caller n saved size memory f first = Ok (Some g) <->
  exists sp' ip', GetMemoryAtAddress n memory (context f gpr1) = Ok sp' /\
    GetMemoryAtAddress n memory (wrap (8 * Z.of_nat n) (sp' + saved)) = Ok ip' /\
    context f gpr1 < sp' /\ 1 < ip' /\ TerminateWalk ip' sp' (context f gpr1) first = false /\
    g = with_instruction (new_frame FRAME_TRUST_FP (<[gpr1 := sp']> (<[srr0 := ip']> (context f)))
          (Z.lor PPC.CONTEXT_VALID_SRR0 PPC.CONTEXT_VALID_GPR1)) (wrap (8 * Z.of_nat n) (ip' - size)).
Proof.
  unfold ppc_caller. split.
  - intros (sp' & Hsp & Hk)%read_or_null_Some. dif_in Hk; [done|]. apply read_or_null_Some in Hk as (ip' & Hip & Hk).
    dif_in Hk; [done|]. cbv zeta in Hk. destruct (TerminateWalk _ _ _ _) eqn:Et; [done|]. injection Hk as <-.
    exists sp', ip'. split_and!; try done; lia.
  - intros (sp' & ip' & Hsp & Hip & Hlt & H1 & Ht & ->). apply read_or_null_Some. exists sp'. split; [done|].
    rewrite (proj2 (Z.leb_gt _ _)) by done. apply read_or_null_Some. exists ip'. split; [done|].
    rewrite (proj2 (Z.leb_gt _ _)) by done. cbv zeta. by rewrite Ht.
Qed.

Section chain_proofs.
Context {M : Type} `{SymbolModule M} (loaded : M -> Prop) `{!SymbolModuleLaws M loaded}.
Context {S : Type} `{SymbolSupplier S} {C : Type} `{CodeModules C}.
Context {R : Type} `{MemoryRegion R} (valid : R -> Prop) `{!MemoryRegionLaws R valid}.
Implicit Types (s : Symbolizer M S).

Lemma ppc_get_caller_Some n saved size (w : StackwalkerPPC C R) frames f scan s g s' :
  last frames = Some f -> ppc_GetCallerFrame n saved size w frames scan s = Ok (Some g, s') ->
  exists memory, memory_ (ppc_walker w) = Some memory /\ s' = s /\
    ppc_caller n saved size memory f (length frames =? 1)%nat = Ok (Some g).
Proof.
  intros Hl. unfold ppc_GetCallerFrame. rewrite Hl. destruct (memory_ (ppc_walker w)) as [memory|]; [|done].
  destruct (ppc_caller _ _ _ _ _ _) as [o| |] eqn:E; try done. rewrite bind_Ok. intros [= -> <-]. by exists memory.
Qed.

Lemma ppc_laws n saved size : @CpuWalkerLaws (StackwalkerPPC C R) (CpuFrame ppc_reg) (Symbolizer M S)
  (cpu_walker_of ppc_GetContextFrame (ppc_GetCallerFrame n saved size)) (λ f, context f gpr1) (λ f, context f srr0).
Proof.
  apply (cpu_walker_of_laws _ _ (λ c, c gpr1) (λ c, c srr0)).
  - by intros w f (c & _ & ->)%fmap_Some.
  - intros w frames f scan st g st' Hl Hg. destruct (ppc_get_caller_Some _ _ _ _ _ _ _ _ _ _ Hl Hg) as (m & _ & _ & Hc).
    apply ppc_caller_spec in Hc as (sp' & ip' & _ & _ & _ & _ & Ht & ->). exact Ht.
  - intros w frames st g st' Hg. destruct (last frames) as [f|] eqn:El.
    + destruct (ppc_get_caller_Some _ _ _ _ _ _ _ _ _ _ El Hg) as (m & _ & _ & Hc).
      by apply ppc_caller_spec in Hc as (sp' & ip' & _ & _ & _ & _ & _ & ->).
    + revert Hg. unfold ppc_GetCallerFrame. rewrite El. by destruct (memory_ (ppc_walker w)).
Qed.

#[export] Instance ppc_walker_laws : @CpuWalkerLaws (StackwalkerPPC C R) (CpuFrame ppc_reg) (Symbolizer M S) ppc_cpu_walker
  (λ f, context f gpr1) (λ f, context f srr0) := ppc_laws 4 8 4.
#[export] Instance ppc64_walker_laws : @CpuWalkerLaws (StackwalkerPPC C R) (CpuFrame ppc_reg) (Symbolizer M S) ppc64_cpu_walker
  (λ f, context f gpr1) (λ f, context f srr0) := ppc_laws 8 16 8.

Lemma ppc_sound n saved size (Inv : Symbolizer M S -> Prop) (w : StackwalkerPPC C R) blame frames f scan s :
  address_size n -> (forall memory, memory_ (ppc_walker w) = Some memory -> readable valid n memory) ->
  last frames = Some f -> context_words (8 * Z.of_nat n) f -> Inv s ->
  sound blame (found_ok Inv (context_words (8 * Z.of_nat n))) (ppc_GetCallerFrame n saved size w frames scan s).
Proof.
  intros Hn Hmem Hl Hf Hs. unfold ppc_GetCallerFrame. rewrite Hl.
  destruct (memory_ (ppc_walker w)) as [memory|]; [|by split]. specialize (Hmem memory eq_refl).
  eapply (sound_bind _ (caller_words (8 * Z.of_nat n))); [|intros o Ho; by split].
  apply (sound_read valid); [done|done|apply Hf|done|]. intros sp' Hsp _. dif; [done|].
  apply (sound_read valid); [done|done|apply wrap_fits; destruct Hn; lia|done|]. intros ip' Hip _. dif; [done|].
  cbv zeta. dif; [done|]. intros g [= <-]. words.
Qed.

(** ** SPARC *)

Lemma sparc_caller_spec (memory : R) f first g :
  sparc_caller memory f first = Ok (Some g) <->
  let sp' := context f g_r30 in
  exists ip' fp', GetMemoryAtAddress 4 memory (wrap 64 (sp' + 60)) = Ok ip' /\
    GetMemoryAtAddress 4 memory (wrap 64 (sp' + 56)) = Ok fp' /\
    context f g_r14 < sp' /\ 1 < ip' /\ 1 < fp' /\ TerminateWalk ip' sp' (context f g_r14) first = false /\
    g = with_instruction (new_frame FRAME_TRUST_FP
          (<[sparc_pc := wrap 32 (ip' + 8)]> (<[g_r30 := fp']> (<[g_r14 := sp']> (context f))))
          (Z.lor (Z.lor SPARC.CONTEXT_VALID_PC SPARC.CONTEXT_VALID_SP) SPARC.CONTEXT_VALID_FP)) ip'.
Proof.
  unfold sparc_caller. cbv zeta. split.
  - dif; [done|]. intros (ip' & Hip & Hk)%read_or_null_Some. dif_in Hk; [done|].
    apply read_or_null_Some in Hk as (fp' & Hfp & Hk). dif_in Hk; [done|].
    destruct (TerminateWalk _ _ _ _) eqn:Et; [done|]. injection Hk as <-. exists ip', fp'. split_and!; try done; lia.
  - intros (ip' & fp' & Hip & Hfp & Hlt & Hi1 & Hf1 & Ht & ->). rewrite (proj2 (Z.leb_gt _ _)) by done.
    apply read_or_null_Some. exists ip'. split; [done|]. rewrite (proj2 (Z.leb_gt _ _)) by done.
    apply read_or_null_Some. exists fp'. split; [done|]. rewrite (proj2 (Z.leb_gt _ _)) by done. by rewrite Ht.
Qed.

Lemma sparc_get_caller_Some (w : StackwalkerSPARC C R) frames scan s g s' :
  sparc_GetCallerFrame w frames scan s = Ok (Some g, s') ->
  exists memory f, memory_ (sparc_walker w) = Some memory /\ last frames = Some f /\ s' = s /\
    sparc_caller memory f (length frames =? 1)%nat = Ok (Some g).
Proof.
  unfold sparc_GetCallerFrame. destruct (memory_ (sparc_walker w)) as [memory|]; [|done].
  destruct (last frames) as [f|]; [|done].
  destruct (sparc_caller _ _ _) as [o| |] eqn:E; try done. rewrite bind_Ok. intros [= -> <-]. by exists memory, f.
Qed.

(** The address that [TerminateWalk] sees is that of the call, not the program
    counter of the frame: the laws speak of the stack pointers only. *)
#[export] Instance sparc_walker_laws : @CpuWalkerLaws (StackwalkerSPARC C R) (CpuFrame sparc_reg) (Symbolizer M S)
  sparc_cpu_walker (λ f, context f g_r14) (λ _, 4096).
Proof.
  apply (cpu_walker_of_laws _ _ (λ c, c g_r14) (λ _, 4096)).
  - by intros w f (c & _ & ->)%fmap_Some.
  - intros w frames f scan st g st' Hl (m & f0 & _ & Hl' & _ & Hc)%sparc_get_caller_Some.
    rewrite Hl in Hl'. injection Hl' as <-. apply sparc_caller_spec in Hc as (ip' & fp' & _ & _ & _ & _ & _ & Ht & ->).
    revert Ht. unfold TerminateWalk. change (Z.shiftl 1 12) with 4096. destruct (ip' <? 4096); done.
  - intros w frames st g st' (m & f & _ & _ & _ & Hc)%sparc_get_caller_Some.
    by apply sparc_caller_spec in Hc as (ip' & fp' & _ & _ & _ & _ & _ & _ & ->).
Qed.

Lemma sparc_sound (Inv : Symbolizer M S -> Prop) (w : StackwalkerSPARC C R) blame frames f scan s :
  (forall memory, memory_ (sparc_walker w) = Some memory ->
     valid memory /\ forall a, fits 64 a -> GetMemoryAtAddress 4 memory a <> Undefined) ->
  last frames = Some f -> context_words 64 f -> Inv s ->
  sound blame (found_ok Inv (context_words 64)) (sparc_GetCallerFrame w frames scan s).
Proof.
  intros Hmem Hl Hf Hs. unfold sparc_GetCallerFrame. rewrite Hl.
  destruct (memory_ (sparc_walker w)) as [memory|]; [|by split]. destruct (Hmem memory eq_refl) as [Hv Hd].
  assert (Hrd: forall a (k : Z -> outcome (option (CpuFrame sparc_reg))), fits 64 a ->
    (forall v, fits 32 v -> sound blame (caller_words 64) (k v)) -> sound blame (caller_words 64) (read_or_null 4 memory a k)).
  { intros a k Ha Hk. unfold read_or_null. destruct (GetMemoryAtAddress 4 memory a) as [v| |] eqn:E; [|done|by apply Hd in E].
    apply Hk. eapply (read_width 4); [right; right; by left|exact Ha|exact Hv|exact E]. }
  assert (H64: forall v, fits 32 v -> fits 64 v) by (unfold fits; lia).
  eapply (sound_bind _ (caller_words 64)); [|intros o Ho; by split].
  unfold sparc_caller. cbv zeta. dif; [done|]. apply Hrd; [by apply wrap_fits|]. intros ip' Hip. dif; [done|].
  apply Hrd; [by apply wrap_fits|]. intros fp' Hfp. dif; [done|]. dif; [done|]. intros g [= <-]. words.
  - by apply H64.
  - by apply H64, wrap_fits.
Qed.
End chain_proofs.

(** ** A list of addresses: the walk returns it *)
Section address_list_proofs.
Context {M : Type} `{SymbolModule M} {S : Type} `{SymbolSupplier S} {C : Type} `{CodeModules C}.
Local Existing Instance address_list_cpu_walker.
Implicit Types (s : Symbolizer M S).

Lemma visit_prewalked (modules unloaded : option C) (f : Frame) without corrupt s v without' corrupt' s' :
  visit_frame (W := StackwalkerAddressList) modules unloaded f without corrupt s = Ok (v, without', corrupt', s') ->
  forall f', v = Some f' -> trust f' = trust f.
Proof.
  unfold visit_frame. cbn [base_frame set_base_frame address_list_cpu_walker id].
  destruct (SymbolizeFrame modules unloaded f s) as [[[res fr] s1]| |] eqn:Es; try done. rewrite bind_Ok.
  apply SymbolizeFrame_trust in Es. cbv beta iota zeta.
  destruct res; try (intros [= <- <- <- <-]; by intros ? [= <-]); try (by intros [= <- _ _ _]).
  - destruct (InsertSpecialAttentionModule _ _ without); try done. rewrite bind_Ok. intros [= <- <- <- <-]. by intros ? [= <-].
  - destruct (InsertSpecialAttentionModule _ _ corrupt); try done. rewrite bind_Ok. intros [= <- <- <- <-]. by intros ? [= <-].
Qed.

Lemma address_list_loop limits w (modules unloaded : option C) fuel : forall stack scanned without corrupt s r,
  0 <= max_frames_ limits -> Z.of_nat (length stack) <= max_frames_ limits ->
  Forall (λ f, trust f = FRAME_TRUST_PREWALKED) stack ->
  walk_loop fuel limits w modules unloaded (prewalked <$> addresses_ w !! length stack) stack scanned without corrupt s = Ok r ->
  Forall (λ f, trust f = FRAME_TRUST_PREWALKED) (frames_ r) /\
  (completed r = true -> (length stack <= length (addresses_ w))%nat ->
   Z.of_nat (length (frames_ r)) = Z.min (Z.of_nat (length (addresses_ w))) (max_frames_ limits + 1)).
Proof.
  induction fuel as [|fuel IH]; intros stack scanned without corrupt s r Hmax Hlen Hst; cbn [walk_loop].
  { destruct (addresses_ w !! length stack) as [a|] eqn:Ea; cbn [fmap option_fmap option_map]; [done|].
    intros [= <-]. split; [done|]. intros _ Hle. apply lookup_ge_None in Ea. cbn [frames_]. lia. }
  destruct (addresses_ w !! length stack) as [a|] eqn:Ea; cbn [fmap option_fmap option_map].
  2: { intros [= <-]. split; [done|]. intros _ Hle. apply lookup_ge_None in Ea. cbn [frames_]. lia. }
  apply lookup_lt_Some in Ea. destruct (visit_frame _ _ _ _ _ _) as [[[[v wo] co] s1]| |] eqn:Ev; try done.
  rewrite bind_Ok. cbv beta iota. destruct v as [f'|]; [|intros [= <-]; by split].
  pose proof (visit_prewalked _ _ _ _ _ _ _ _ _ _ Ev f' eq_refl) as Ht. cbn [trust prewalked] in Ht. cbv zeta.
  assert (Hst': Forall (λ f, trust f = FRAME_TRUST_PREWALKED) (stack ++ [f'])) by (apply Forall_app_2; [done|by constructor]).
  assert (Hl: length (stack ++ [f']) = Datatypes.S (length stack)) by (rewrite length_app; simpl; lia).
  destruct (max_frames_ limits <? Z.of_nat (length (stack ++ [f']))) eqn:E; breflect.
  { intros [= <-]. split; [done|]. intros _ _. cbn [frames_]. rewrite Hl. lia. }
  cbn [GetCallerFrame address_list_cpu_walker]. unfold address_list_GetCallerFrame, leave. rewrite !bind_Ok. cbv beta iota.
  rewrite Hl in *. intros Hwalk. rewrite <- Hl in Hwalk. apply IH in Hwalk; [|done|lia|done].
  split; [apply Hwalk|]. intros Hc _. apply Hwalk; [done|lia].
Qed.

(** A walk that is not interrupted has one trusted frame for each address, up to
    the limit on frames. *)
Lemma address_list_walk limits w (modules unloaded : option C) without corrupt s r :
  0 <= max_frames_ limits -> Walk limits w modules unloaded without corrupt s = Ok r ->
  Forall (λ f, trust f = FRAME_TRUST_PREWALKED) (frames_ r) /\
  (completed r = true -> Z.of_nat (length (frames_ r)) = Z.min (Z.of_nat (length (addresses_ w))) (max_frames_ limits + 1)).
Proof.
  intros Hmax Hw. unfold Walk in Hw.
  assert (Hc: GetContextFrame (F := Frame) (St := Symbolizer M S) w = prewalked <$> addresses_ w !! length ([] : list Frame))
    by (cbn; unfold address_list_GetContextFrame; by destruct (addresses_ w)).
  rewrite Hc in Hw. apply address_list_loop in Hw; [|done|done|done]. split; [apply Hw|]. intros Hd. apply Hw; [done|]. cbn. lia.
Qed.
End address_list_proofs.
