(* ===== verification/StackwalkerARM.v ===== *)
(** processor/stackwalker_arm.cc, stackwalker_arm64.cc: the stack walkers for ARM
    and ARM64.  The two classes have the same three ways to find a caller; what
    differs is in [ArmCpu]. *)
From Stdlib Require Import Ascii.
From stdpp Require Import strings list gmap functions.
From S2P Require Import Prelude StdMap RangeMap CStr StrMap Memory MemoryRegion PostfixEvaluator CfiFrameInfo EvaluatorBounds CodeModules SymbolFile BasicResolver BasicInvariant SymbolLoad ResolverLookup ResolverBase ResolverTable Symbolizer Stackwalker CpuFrame.

(** A context is its array [iregs].  The walker for ARM indexes it past its end, by
    26 names for 16 registers: the words there are those of the members that
    follow, [cpsr] (16) and [float_save]. *)
Abbreviation StackFrameARM := (CpuFrame nat).

(** [RegisterValidFlag]. *)
Definition RegisterValidFlag (n : nat) : Z := Z.shiftl 1 (Z.of_nat n).

(** A CPU: the bytes of a word, the names of the registers and which are
    callee-saves, the indices of those with a role, the size of a call
    instruction, and the mask with every register. *)
Record ArmCpu := mkArmCpu {
  word_bytes : nat;
  register_names : list cstring;
  is_callee_saves : nat -> bool;
  REG_SP : nat;
  REG_LR : nat;
  REG_PC : nat;
  call_size : Z;
  VALID_ALL : Z
}.

Definition arm_cpu : ArmCpu := mkArmCpu 4
  [lit "r0"; lit "r1"; lit "r2"; lit "r3"; lit "r4"; lit "r5"; lit "r6"; lit "r7"; lit "r8"; lit "r9"; lit "r10"; lit "r11";
   lit "r12"; lit "sp"; lit "lr"; lit "pc"; lit "f0"; lit "f1"; lit "f2"; lit "f3"; lit "f4"; lit "f5"; lit "f6"; lit "f7";
   lit "fps"; lit "cpsr"]
  (λ i, (4 <=? i)%nat && (i <=? 11)%nat) 13 14 15 2 (-1).

Definition arm64_cpu : ArmCpu := mkArmCpu 8
  [lit "x0"; lit "x1"; lit "x2"; lit "x3"; lit "x4"; lit "x5"; lit "x6"; lit "x7"; lit "x8"; lit "x9"; lit "x10"; lit "x11";
   lit "x12"; lit "x13"; lit "x14"; lit "x15"; lit "x16"; lit "x17"; lit "x18"; lit "x19"; lit "x20"; lit "x21"; lit "x22";
   lit "x23"; lit "x24"; lit "x25"; lit "x26"; lit "x27"; lit "x28"; lit "x29"; lit "x30"; lit "sp"; lit "pc"]
  (λ i, (19 <=? i)%nat && (i <=? 29)%nat) 31 30 32 4 (2 ^ 64 - 1).

(** The indices of the frame pointers. *)
Definition MD_CONTEXT_ARM_REG_IOS_FP : Z := 7.
Definition MD_CONTEXT_ARM64_REG_FP : nat := 29.

(** The names as a register map: no register has an alternate name. *)
Definition arm_registers (cpu : ArmCpu) : list (RegisterSet nat) :=
  imap (λ i name, mkRegister name None (is_callee_saves cpu i) (RegisterValidFlag i) i) (register_names cpu).

Definition word_bits (cpu : ArmCpu) : Z := 8 * Z.of_nat (word_bytes cpu).

Section arm.
Context {M : Type} `{SymbolModule M} {S : Type} `{SymbolSupplier S} {C : Type} `{CodeModules C}.
Context {R : Type} `{MemoryRegion R} (cpu : ArmCpu).
Notation sp := (REG_SP cpu).
Notation lr := (REG_LR cpu).
Notation pc := (REG_PC cpu).

(** [StackwalkerARM] and [StackwalkerARM64], which has no [fp_register_]. *)
Record StackwalkerARM := mkStackwalkerARM {
  arm_walker : Stackwalker C R;
  arm_context_ : option (RawContext nat);
  fp_register_ : Z;
  context_frame_validity_ : Z
}.

Definition StackwalkerARM_new (w : Stackwalker C R) (c : option (RawContext nat)) (fp_register : Z) : StackwalkerARM :=
  mkStackwalkerARM w c fp_register (VALID_ALL cpu).

Definition SetContextFrameValidity (w : StackwalkerARM) (valid : Z) : StackwalkerARM :=
  mkStackwalkerARM (arm_walker w) (arm_context_ w) (fp_register_ w) valid.

Definition arm_GetContextFrame (w : StackwalkerARM) : option StackFrameARM :=
  context_frame pc (context_frame_validity_ w) (arm_context_ w).

(** What the rules do not give explicitly: the program counter from [.ra] -- with a
    frame pointer register, that is the caller's link register, and the program
    counter is the callee's -- and the stack pointer from [.cfa]. *)
Definition recover_pc (fp_register : Z) (last_frame : StackFrameARM) (caller_registers : gmap cstring Z) (f : StackFrameARM)
  : StackFrameARM :=
  if negb (Z.land (context_validity f) (RegisterValidFlag pc) =? 0) then f
  else match caller_registers !! lit ".ra" with
       | None => f
       | Some ra =>
           if fp_register =? -1
           then mkCpuFrame (cpu_base f) (<[pc := ra]> (context f)) (Z.lor (context_validity f) (RegisterValidFlag pc))
           else mkCpuFrame (cpu_base f) (<[pc := context last_frame lr]> (<[lr := ra]> (context f)))
                  (Z.lor (Z.lor (context_validity f) (RegisterValidFlag pc)) (RegisterValidFlag lr))
       end.

Definition recover_sp (caller_registers : gmap cstring Z) (f : StackFrameARM) : StackFrameARM :=
  if negb (Z.land (context_validity f) (RegisterValidFlag sp) =? 0) then f
  else match caller_registers !! lit ".cfa" with
       | None => f
       | Some cfa => mkCpuFrame (cpu_base f) (<[sp := cfa]> (context f)) (Z.lor (context_validity f) (RegisterValidFlag sp))
       end.

Definition arm_GetCallerByCFIFrameInfo (fp_register : Z) (memory : R) (last_frame : StackFrameARM) (cfi_frame_info : CFIFrameInfo)
  : outcome (option StackFrameARM) :=
  let regs := callee_registers (arm_registers cpu) (context last_frame) (context_validity last_frame) ∅ in
  match FindCallerRegs (word_bits cpu) cfi_frame_info regs memory with
  | Undefined => Undefined
  | Fail => Ok None
  | Ok caller_registers =>
      let '(c, validity) := populate_caller (arm_registers cpu) (context last_frame) (context_validity last_frame)
                              caller_registers (λ _, 0) 0 in
      let frame := recover_pc fp_register last_frame caller_registers (new_frame FRAME_TRUST_CFI c validity) in
      let frame := recover_sp caller_registers frame in
      let essentials := Z.lor (RegisterValidFlag sp) (RegisterValidFlag pc) in
      if negb (Z.land (context_validity frame) essentials =? essentials) then Ok None else Ok (Some frame)
  end.

Definition arm_GetCallerByStackScan (w : StackwalkerARM) (memory : R) (last_frame : StackFrameARM) (is_context_frame : bool)
    (s : Symbolizer M S) : outcome (option StackFrameARM * Symbolizer M S) :=
  let n := word_bytes cpu in
  '(found, s) ← ScanForReturnAddress n (arm_walker w) memory (context last_frame sp) is_context_frame s;
  Ok (match found with
      | None => None
      | Some (caller_sp, caller_pc) =>
          Some (new_frame FRAME_TRUST_SCAN
                  (<[sp := wrap (word_bits cpu) (caller_sp + Z.of_nat n)]> (<[pc := caller_pc]> (context last_frame)))
                  (Z.lor (RegisterValidFlag pc) (RegisterValidFlag sp)))
      end, s).

(** The frame that the frame pointer register [fp] leads to. *)
Definition frame_pointer_caller (fp : nat) (last_frame : StackFrameARM) (caller_fp caller_lr caller_sp : Z) : StackFrameARM :=
  new_frame FRAME_TRUST_FP
    (<[lr := caller_lr]> (<[pc := context last_frame lr]> (<[sp := caller_sp]> (<[fp := caller_fp]> (context last_frame)))))
    (Z.lor (Z.lor (Z.lor (RegisterValidFlag pc) (RegisterValidFlag lr)) (RegisterValidFlag fp)) (RegisterValidFlag sp)).

Definition arm_GetCallerByFramePointer (fp : nat) (memory : R) (last_frame : StackFrameARM) : outcome (option StackFrameARM) :=
  let n := word_bytes cpu in
  let last_fp := context last_frame fp in
  if last_fp =? 0 then Ok (Some (frame_pointer_caller fp last_frame 0 0 (context last_frame sp)))
  else
    read_or_null n memory last_fp (λ caller_fp,
    read_or_null n memory (wrap (word_bits cpu) (last_fp + Z.of_nat n)) (λ caller_lr,
      Ok (Some (frame_pointer_caller fp last_frame caller_fp caller_lr (wrap (word_bits cpu) (last_fp + 2 * Z.of_nat n)))))).

(** [GetCallerFrame]; [by_frame_pointer] is how it uses the frame pointer, if at all. *)
Definition arm_caller (cfi_fp_register : Z) (by_frame_pointer : R -> StackFrameARM -> outcome (option StackFrameARM))
    (w : StackwalkerARM) (frames : list StackFrameARM) (stack_scan_allowed : bool) (s : Symbolizer M S)
  : outcome (option StackFrameARM * Symbolizer M S) :=
  match memory_ (arm_walker w), last frames with
  | None, _ => Ok (None, s)
  | Some _, None => Undefined
  | Some memory, Some last_frame =>
      cfi_frame_info ← SymbolizerFindCFIFrameInfo (cpu_base last_frame) s;
      frame ← match cfi_frame_info with
              | Some info => arm_GetCallerByCFIFrameInfo cfi_fp_register memory last_frame info
              | None => Ok None
              end;
      frame ← match frame with
              | Some f => Ok (Some f)
              | None => by_frame_pointer memory last_frame
              end;
      '(frame, s) ← match frame with
                    | Some f => Ok (Some f, s)
                    | None => if stack_scan_allowed
                              then arm_GetCallerByStackScan w memory last_frame (length frames =? 1)%nat s
                              else Ok (None, s)
                    end;
      match frame with
      | None => Ok (None, s)
      | Some frame =>
          if TerminateWalk (context frame pc) (context frame sp) (context last_frame sp) (length frames =? 1)%nat
          then Ok (None, s)
          else Ok (Some (with_instruction frame (wrap (word_bits cpu) (context frame pc - call_size cpu))), s)
      end
  end.
End arm.

Arguments StackwalkerARM : clear implicits.

Section walkers.
Context {M : Type} `{SymbolModule M} {S : Type} `{SymbolSupplier S} {C : Type} `{CodeModules C}.
Context {R : Type} `{MemoryRegion R}.

(** ARM uses the frame pointer if a register is configured and valid. *)
Definition arm_frame_pointer (fp_register : Z) (memory : R) (last_frame : StackFrameARM) : outcome (option StackFrameARM) :=
  if fp_register <? 0 then Ok None
  else if Z.land (context_validity last_frame) (RegisterValidFlag (Z.to_nat fp_register)) =? 0 then Ok None
  else arm_GetCallerByFramePointer arm_cpu (Z.to_nat fp_register) memory last_frame.

Definition arm_GetCallerFrame (w : StackwalkerARM C R) : list StackFrameARM -> bool -> Symbolizer M S ->
    outcome (option StackFrameARM * Symbolizer M S) :=
  arm_caller arm_cpu (fp_register_ w) (arm_frame_pointer (fp_register_ w)) w.

Definition arm64_GetCallerFrame (w : StackwalkerARM C R) : list StackFrameARM -> bool -> Symbolizer M S ->
    outcome (option StackFrameARM * Symbolizer M S) :=
  arm_caller arm64_cpu (-1) (arm_GetCallerByFramePointer arm64_cpu MD_CONTEXT_ARM64_REG_FP) w.

Definition arm_cpu_walker : CpuWalker (StackwalkerARM C R) StackFrameARM (Symbolizer M S) :=
  cpu_walker_of (arm_GetContextFrame arm_cpu) arm_GetCallerFrame.
Definition arm64_cpu_walker : CpuWalker (StackwalkerARM C R) StackFrameARM (Symbolizer M S) :=
  cpu_walker_of (arm_GetContextFrame arm64_cpu) arm64_GetCallerFrame.
End walkers.

(** ** What the two CPUs have in common *)

Record arm_cpu_ok (cpu : ArmCpu) : Prop := {
  ao_size : address_size (word_bytes cpu);
  ao_width : word_bits cpu = 32 \/ word_bits cpu = 64;
  ao_map : map_ok (arm_registers cpu);
  ao_sp : mkRegister (lit "sp") None (is_callee_saves cpu (REG_SP cpu)) (RegisterValidFlag (REG_SP cpu)) (REG_SP cpu) ∈ arm_registers cpu;
  ao_pc : mkRegister (lit "pc") None (is_callee_saves cpu (REG_PC cpu)) (RegisterValidFlag (REG_PC cpu)) (REG_PC cpu) ∈ arm_registers cpu;
  ao_saved : is_callee_saves cpu (REG_SP cpu) = false /\ is_callee_saves cpu (REG_PC cpu) = false;
  ao_distinct : REG_SP cpu <> REG_PC cpu /\ REG_SP cpu <> REG_LR cpu /\ REG_LR cpu <> REG_PC cpu
}.

Lemma RegisterValidFlag_pow n : RegisterValidFlag n = 2 ^ Z.of_nat n.
Proof. unfold RegisterValidFlag. apply Z.shiftl_1_l. Qed.

Lemma arm_map_ok cpu : NoDup (register_names cpu) -> map_ok (arm_registers cpu).
Proof.
  intros Hn. unfold arm_registers.
  assert (Hin: forall (l : list cstring) (g : nat -> nat) r,
    r ∈ imap (λ i name, mkRegister name None (is_callee_saves cpu (g i)) (RegisterValidFlag (g i)) (g i)) l ->
    exists i, reg_name r ∈ l /\ r = mkRegister (reg_name r) None (is_callee_saves cpu (g i)) (RegisterValidFlag (g i)) (g i)).
  { intros l g r Hr. apply elem_of_lookup_imap_1 in Hr as (i & x & -> & Hi). exists i. split; [|done]. by eapply list_elem_of_lookup_2. }
  assert (Hmem: context_member <$> imap (λ i name, mkRegister name None (is_callee_saves cpu i) (RegisterValidFlag i) i) (register_names cpu)
    = seq 0 (length (register_names cpu))).
  { rewrite fmap_imap. apply list_eq. intros i. rewrite list_lookup_imap. unfold compose. cbn [context_member].
    destruct (register_names cpu !! i) as [x|] eqn:E; cbn [fmap option_fmap option_map].
    - apply lookup_lt_Some in E. by rewrite lookup_seq_lt.
    - apply lookup_ge_None in E. symmetry. by apply lookup_seq_ge. }
  constructor.
  - rewrite fmap_imap. unfold compose. cbn [reg_name]. replace (imap (λ _ (x : cstring), x) (register_names cpu)) with (register_names cpu); [done|].
    apply list_eq. intros i. rewrite list_lookup_imap. by destruct (register_names cpu !! i).
  - rewrite Hmem. apply NoDup_seq.
  - assert (Hf: validity_flag <$> imap (λ i name, mkRegister name None (is_callee_saves cpu i) (RegisterValidFlag i) i) (register_names cpu)
      = RegisterValidFlag <$> seq 0 (length (register_names cpu))).
    { rewrite <- Hmem, <- list_fmap_compose, !fmap_imap. done. }
    rewrite Hf. apply NoDup_fmap_2_strong; [|apply NoDup_seq]. intros x y _ _. rewrite !RegisterValidFlag_pow.
    intros E. apply Z.pow_inj_r in E; lia.
  - intros r Hr. destruct (Hin _ id r Hr) as (i & _ & ->). exists (Z.of_nat i). cbn [validity_flag].
    rewrite RegisterValidFlag_pow. split; [lia|done].
Qed.

Lemma arm_ok : arm_cpu_ok arm_cpu.
Proof.
  constructor; [by left|by left|apply arm_map_ok; apply (bool_decide_eq_true_1 (NoDup (register_names arm_cpu))); by vm_compute| | |done|done].
  - apply (list_elem_of_lookup_2 _ 13). reflexivity.
  - apply (list_elem_of_lookup_2 _ 15). reflexivity.
Qed.

Lemma arm64_ok : arm_cpu_ok arm64_cpu.
Proof.
  constructor; [by right|by right|apply arm_map_ok; apply (bool_decide_eq_true_1 (NoDup (register_names arm64_cpu))); by vm_compute| | |done|done].
  - apply (list_elem_of_lookup_2 _ 31). reflexivity.
  - apply (list_elem_of_lookup_2 _ 32). reflexivity.
Qed.

(** Bits of a mask. *)
Lemma flag_testbit v i : negb (Z.land v (RegisterValidFlag i) =? 0) = Z.testbit v (Z.of_nat i).
Proof. rewrite RegisterValidFlag_pow, land_pow2 by lia. apply negb_involutive. Qed.

Lemma testbit_flag v i j : Z.testbit (Z.lor v (RegisterValidFlag i)) (Z.of_nat j) = Z.testbit v (Z.of_nat j) || bool_decide (i = j).
Proof.
  rewrite Z.lor_spec, RegisterValidFlag_pow, Z.pow2_bits_eqb by lia. f_equal.
  destruct (Z.eqb_spec (Z.of_nat i) (Z.of_nat j)); case_bool_decide; try done; lia.
Qed.

Lemma essentials_eq v i j :
  (Z.land v (Z.lor (RegisterValidFlag i) (RegisterValidFlag j)) =? Z.lor (RegisterValidFlag i) (RegisterValidFlag j)) =
  Z.testbit v (Z.of_nat i) && Z.testbit v (Z.of_nat j).
Proof.
  apply eq_true_iff_eq. rewrite Z.eqb_eq, andb_true_iff. rewrite !RegisterValidFlag_pow. split.
  - intros E. assert (Hb: forall k, Z.testbit (Z.lor (2 ^ Z.of_nat i) (2 ^ Z.of_nat j)) k = true -> Z.testbit v k = true).
    { intros k Hk. rewrite <- E in Hk. rewrite Z.land_spec in Hk. by apply andb_true_iff in Hk as [? _]. }
    split; apply Hb; rewrite Z.lor_spec, !Z.pow2_bits_eqb by lia; rewrite Z.eqb_refl; [done|apply orb_true_r].
  - intros [Hi Hj]. apply Z.bits_inj'. intros k Hk. rewrite Z.land_spec, Z.lor_spec, !Z.pow2_bits_eqb by lia.
    destruct (Z.eqb_spec (Z.of_nat i) k) as [Ei|], (Z.eqb_spec (Z.of_nat j) k) as [Ej|];
      cbn [orb]; rewrite ?andb_false_r, ?andb_true_r; congruence.
Qed.

Section arm_proofs.
Context {M : Type} `{SymbolModule M} (loaded : M -> Prop) `{!SymbolModuleLaws M loaded}.
Context {S : Type} `{SymbolSupplier S} {C : Type} `{CodeModules C}.
Context {R : Type} `{MemoryRegion R} (valid : R -> Prop) `{!MemoryRegionLaws R valid}.
Context (cpu : ArmCpu) (Hcpu : arm_cpu_ok cpu).
Implicit Types (s : Symbolizer M S) (f g : StackFrameARM).
Notation sp := (REG_SP cpu).
Notation lr := (REG_LR cpu).
Notation pc := (REG_PC cpu).

(** ** Recovery by STACK CFI rules *)

(** The registers without a role. *)
Definition plain_register (i : nat) : Prop := (i < length (register_names cpu))%nat /\ i <> sp /\ i <> lr /\ i <> pc.

(** Register [i] of the caller is known, with this value, or not known. *)
Definition known (f : StackFrameARM) (i : nat) (o : option Z) : Prop :=
  match o with
  | Some v => context f i = v /\ Z.testbit (context_validity f) (Z.of_nat i) = true
  | None => Z.testbit (context_validity f) (Z.of_nat i) = false
  end.

Lemma populate_known (last caller : StackFrameARM) caller_registers i name :
  register_names cpu !! i = Some name ->
  let res := populate_caller (arm_registers cpu) (context last) (context_validity last) caller_registers (λ _, 0) 0 in
  known (mkCpuFrame (cpu_base caller) res.1 res.2) i
    (caller_value (context last) (context_validity last) caller_registers
       (mkRegister name None (is_callee_saves cpu i) (RegisterValidFlag i) i)).
Proof.
  intros Hi res. destruct (ao_map cpu Hcpu) as [Hn Hm Hf Hb].
  assert (Hin: mkRegister name None (is_callee_saves cpu i) (RegisterValidFlag i) i ∈ arm_registers cpu).
  { apply (list_elem_of_lookup_2 _ i). unfold arm_registers. by rewrite list_lookup_imap, Hi. }
  pose proof (populate_lookup (arm_registers cpu) (context last) (context_validity last) caller_registers (λ _, 0) 0 _
    (Z.of_nat i) Hm Hf Hb Hin ltac:(lia) (RegisterValidFlag_pow i) (Z.testbit_0_l _)) as Hp. cbv zeta in Hp.
  fold res in Hp. unfold known. cbn [context context_validity context_member] in *.
  destruct (caller_value _ _ _ _); [done|apply Hp].
Qed.

Lemma recover_pc_known fp_register last caller_registers f ra :
  caller_registers !! lit ".ra" = Some ra ->
  let f' := recover_pc cpu fp_register last caller_registers f in
  cpu_base f' = cpu_base f /\
  (forall i o, i <> pc -> i <> lr \/ fp_register = -1 -> known f i o -> known f' i o) /\
  (forall v, known f pc (Some v) -> known f' pc (Some v)) /\
  (known f pc None -> known f' pc (Some (if fp_register =? -1 then ra else context last lr))).
Proof.
  intros Hra. unfold recover_pc. rewrite flag_testbit, Hra. cbv zeta.
  destruct (Z.testbit (context_validity f) (Z.of_nat pc)) eqn:Eb.
  { split; [done|]. split; [done|]. split; [done|]. intros Hn. cbn [known] in Hn. congruence. }
  destruct (ao_distinct cpu Hcpu) as (_ & _ & Hlp).
  assert (Hset: forall x : Z, (<[pc := x]> (<[lr := ra]> (context f)) : RawContext nat) pc = x) by (intros; apply fn_lookup_insert).
  destruct (fp_register =? -1) eqn:Ef; breflect; cbn [cpu_base]; (split; [done|]); (split; [|split]).
  - intros i [v|] Hip _; cbn [known context context_validity]; rewrite testbit_flag, bool_decide_eq_false_2 by done; rewrite orb_false_r; [|done].
    by rewrite fn_lookup_insert_ne by done.
  - intros v [_ Hb]. congruence.
  - intros _. cbn [known context context_validity]. rewrite testbit_flag, bool_decide_eq_true_2, orb_true_r by done.
    by rewrite fn_lookup_insert.
  - intros i o Hip [Hil|]; [|done]. destruct o as [v|]; cbn [known context context_validity];
      rewrite !testbit_flag, !bool_decide_eq_false_2 by done; rewrite !orb_false_r; [|done].
    by rewrite !fn_lookup_insert_ne by done.
  - intros v [_ Hb]. congruence.
  - intros _. cbn [known context context_validity]. rewrite !testbit_flag, (bool_decide_eq_true_2 (pc = pc)), orb_true_r by done.
    by rewrite fn_lookup_insert.
Qed.

Lemma recover_sp_known caller_registers f cfa :
  caller_registers !! lit ".cfa" = Some cfa ->
  let f' := recover_sp cpu caller_registers f in
  cpu_base f' = cpu_base f /\ (forall i o, i <> sp -> known f i o -> known f' i o) /\
  (forall v, known f sp (Some v) -> known f' sp (Some v)) /\ (known f sp None -> known f' sp (Some cfa)).
Proof.
  intros Hcfa. unfold recover_sp. rewrite flag_testbit, Hcfa. cbv zeta.
  destruct (Z.testbit (context_validity f) (Z.of_nat sp)) eqn:Eb.
  { split; [done|]. split; [done|]. split; [done|]. intros Hn. cbn [known] in Hn. congruence. }
  cbn [cpu_base]; split; [done|]; split; [|split].
  - intros i [v|] Hip; cbn [known context context_validity]; rewrite testbit_flag, bool_decide_eq_false_2 by done; rewrite orb_false_r; [|done].
    by rewrite fn_lookup_insert_ne by done.
  - intros v [_ Hb]. congruence.
  - intros _. cbn [known context context_validity]. rewrite testbit_flag, bool_decide_eq_true_2, orb_true_r by done.
    by rewrite fn_lookup_insert.
Qed.

Lemma arm_cfi_spec fp_register (memory : R) (last : StackFrameARM) (info : CFIFrameInfo) :
  let regs := callee_registers (arm_registers cpu) (context last) (context_validity last) ∅ in
  match FindCallerRegs (word_bits cpu) info regs memory with
  | Ok caller => exists f', arm_GetCallerByCFIFrameInfo cpu fp_register memory last info = Ok (Some f') /\
      trust (cpu_base f') = FRAME_TRUST_CFI /\
      known f' sp (match caller !! lit "sp" with Some v => Some v | None => caller !! lit ".cfa" end) /\
      known f' pc (match caller !! lit "pc" with
                   | Some v => Some v
                   | None => if fp_register =? -1 then caller !! lit ".ra" else Some (context last lr)
                   end) /\
      forall i name, register_names cpu !! i = Some name -> i <> sp -> i <> pc -> i <> lr \/ fp_register = -1 ->
        known f' i (caller_value (context last) (context_validity last) caller
                      (mkRegister name None (is_callee_saves cpu i) (RegisterValidFlag i) i))
  | Fail => arm_GetCallerByCFIFrameInfo cpu fp_register memory last info = Ok None
  | Undefined => arm_GetCallerByCFIFrameInfo cpu fp_register memory last info = Undefined
  end.
Proof.
  intros regs. unfold arm_GetCallerByCFIFrameInfo. fold regs.
  destruct (FindCallerRegs (word_bits cpu) info regs memory) as [caller| |] eqn:E; [|done..].
  destruct (FindCallerRegs_essentials _ _ _ _ _ E) as [[cfa Hcfa] [ra Hra]].
  destruct (populate_caller _ _ _ _ _ _) as [c v] eqn:Ep.
  set (f0 := new_frame FRAME_TRUST_CFI c v).
  assert (H0k: forall i name, register_names cpu !! i = Some name -> known f0 i (caller_value (context last) (context_validity last) caller
    (mkRegister name None (is_callee_saves cpu i) (RegisterValidFlag i) i))).
  { intros i name Hi. pose proof (populate_known last f0 caller i name Hi) as Hk. cbv zeta in Hk. by rewrite Ep in Hk. }
  assert (Hrole: forall i name, is_callee_saves cpu i = false ->
    mkRegister name None (is_callee_saves cpu i) (RegisterValidFlag i) i ∈ arm_registers cpu -> known f0 i (caller !! name)).
  { intros i name Hs Hin. unfold arm_registers in Hin. apply elem_of_lookup_imap_1 in Hin as (j & x & Ej & Hj).
    injection Ej as -> _ _ ->. specialize (H0k j x Hj). unfold caller_value in H0k. cbn [reg_name alternate_name callee_saves] in H0k.
    rewrite Hs in H0k. cbn [andb] in H0k. by destruct (caller !! x). }
  destruct (ao_saved cpu Hcpu) as [Hss Hsp]. destruct (ao_distinct cpu Hcpu) as (Hd1 & Hd2 & Hd3).
  pose proof (Hrole sp _ Hss (ao_sp cpu Hcpu)) as Hksp. pose proof (Hrole pc _ Hsp (ao_pc cpu Hcpu)) as Hkpc.
  destruct (recover_pc_known fp_register last caller f0 ra Hra) as (Hb1 & Ho1 & Hv1 & Hn1).
  set (f1 := recover_pc cpu fp_register last caller f0) in *.
  destruct (recover_sp_known caller f1 cfa Hcfa) as (Hb2 & Ho2 & Hv2 & Hn2). set (f2 := recover_sp cpu caller f1) in *.
  assert (Hsp2: known f2 sp (match caller !! lit "sp" with Some x => Some x | None => caller !! lit ".cfa" end)).
  { destruct (caller !! lit "sp") as [x|]; [apply Hv2|rewrite Hcfa; apply Hn2]; apply Ho1; auto. }
  assert (Hpc2: known f2 pc (match caller !! lit "pc" with Some x => Some x
    | None => if fp_register =? -1 then caller !! lit ".ra" else Some (context last lr) end)).
  { apply Ho2; [done|]. destruct (caller !! lit "pc") as [x|]; [by apply Hv1|]. rewrite Hra. specialize (Hn1 Hkpc).
    by destruct (fp_register =? -1). }
  assert (Hbits: Z.testbit (context_validity f2) (Z.of_nat sp) = true /\ Z.testbit (context_validity f2) (Z.of_nat pc) = true).
  { split; [destruct (caller !! lit "sp"); [|rewrite Hcfa in Hsp2]; apply Hsp2|].
    destruct (caller !! lit "pc"); [apply Hpc2|]. destruct (fp_register =? -1); [rewrite Hra in Hpc2|]; apply Hpc2. }
  rewrite essentials_eq. destruct Hbits as [-> ->]. cbn [andb negb]. exists f2. split; [done|].
  split; [by rewrite Hb2, Hb1|]. split; [done|]. split; [done|]. intros i name Hi Hisp Hipc Hilr. apply Ho2; [done|]. apply Ho1; auto.
Qed.

(** ** [GetCallerFrame] *)

(** The rules are tried first, then the frame pointer, then a scan if allowed. *)
Definition arm_no_cfi (fp_register : Z) (memory : R) (f : StackFrameARM) s : Prop :=
  SymbolizerFindCFIFrameInfo (cpu_base f) s = Ok None \/
  exists info, SymbolizerFindCFIFrameInfo (cpu_base f) s = Ok (Some info) /\
    arm_GetCallerByCFIFrameInfo cpu fp_register memory f info = Ok None.

Inductive arm_found_by (fp_register : Z) (by_fp : R -> StackFrameARM -> outcome (option StackFrameARM)) (w : StackwalkerARM C R)
    (memory : R) (f : StackFrameARM) (first scan : bool) s : StackFrameARM -> Symbolizer M S -> Prop :=
| arm_by_cfi info g :
    SymbolizerFindCFIFrameInfo (cpu_base f) s = Ok (Some info) ->
    arm_GetCallerByCFIFrameInfo cpu fp_register memory f info = Ok (Some g) -> arm_found_by fp_register by_fp w memory f first scan s g s
| arm_by_frame_pointer g :
    arm_no_cfi fp_register memory f s -> by_fp memory f = Ok (Some g) -> arm_found_by fp_register by_fp w memory f first scan s g s
| arm_by_scan g s' :
    arm_no_cfi fp_register memory f s -> by_fp memory f = Ok None -> scan = true ->
    arm_GetCallerByStackScan cpu w memory f first s = Ok (Some g, s') -> arm_found_by fp_register by_fp w memory f first scan s g s'.

(** The frame for a caller that was found. *)
Definition arm_frame (g : StackFrameARM) : StackFrameARM :=
  with_instruction g (wrap (word_bits cpu) (context g pc - call_size cpu)).

Lemma arm_caller_spec fp_register by_fp (w : StackwalkerARM C R) frames scan s s' f' :
  arm_caller cpu fp_register by_fp w frames scan s = Ok (Some f', s') <->
  exists memory f g, memory_ (arm_walker w) = Some memory /\ last frames = Some f /\
    arm_found_by fp_register by_fp w memory f (length frames =? 1)%nat scan s g s' /\ f' = arm_frame g /\
    TerminateWalk (context g pc) (context g sp) (context f sp) (length frames =? 1)%nat = false.
Proof.
  unfold arm_caller. destruct (memory_ (arm_walker w)) as [memory|]; [|by split; [|intros (?&?&?&?&_)]].
  destruct (last frames) as [f|]; [|by split; [|intros (?&?&?&_&?&_)]]. set (first := (length frames =? 1)%nat).
  assert (Hend: forall g s2, (if TerminateWalk (context g pc) (context g sp) (context f sp) first then Ok (None, s2)
      else Ok (Some (with_instruction g (wrap (word_bits cpu) (context g pc - call_size cpu))), s2)) = Ok (Some f', s') <->
    s' = s2 /\ f' = arm_frame g /\ TerminateWalk (context g pc) (context g sp) (context f sp) first = false).
  { intros g s2. destruct (TerminateWalk _ _ _ _) eqn:Et; split; try done.
    - by intros (_ & _ & ?).
    - by intros [= <- <-].
    - by intros (-> & -> & _). }
  split.
  - destruct (SymbolizerFindCFIFrameInfo (cpu_base f) s) as [info| |] eqn:Ei; try done. rewrite bind_Ok.
    destruct (match info with Some i => _ | None => Ok None end) as [nf| |] eqn:Ecfi; try done. rewrite bind_Ok.
    destruct (match nf with Some f0 => Ok (Some f0) | None => by_fp memory f end) as [nf1| |] eqn:Efp; try done.
    rewrite bind_Ok. destruct (match nf1 with Some f0 => Ok (Some f0, s) | None => _ end) as [[nf2 s2]| |] eqn:Esc; try done.
    rewrite bind_Ok. cbv beta iota. destruct nf2 as [g|]; [|done]. intros Hg. apply Hend in Hg as (-> & Hf' & Ht).
    exists memory, f, g. split; [done|]. split; [done|]. split; [|done].
    destruct nf1 as [g1|]; [injection Esc as <- <-; destruct nf as [g0|]|].
    + injection Efp as <-. destruct info as [i|]; [|done]. by apply (arm_by_cfi _ _ _ _ _ _ _ _ i).
    + apply arm_by_frame_pointer; [|done]. destruct info as [i|]; [right; by exists i|by left].
    + destruct nf as [g0|]; [done|]. destruct scan; [|done].
      apply arm_by_scan; try done. destruct info as [i|]; [right; by exists i|by left].
  - intros (m & f0 & g & [= <-] & [= <-] & Hg & Hf).
    assert (Hno: arm_no_cfi fp_register memory f s -> exists info, SymbolizerFindCFIFrameInfo (cpu_base f) s = Ok info /\
      match info with Some i => arm_GetCallerByCFIFrameInfo cpu fp_register memory f i | None => Ok None end = Ok None).
    { intros [E|(i & E & E')]; [by exists None|by exists (Some i)]. }
    destruct Hg as [info g Ei Eg|g Hc Eg|g s2 Hc Ep -> Eg].
    + rewrite Ei, bind_Ok, Eg, !bind_Ok. by apply Hend.
    + destruct (Hno Hc) as (info & -> & E). rewrite bind_Ok, E, bind_Ok, Eg, !bind_Ok. by apply Hend.
    + destruct (Hno Hc) as (info & -> & E). rewrite bind_Ok, E, bind_Ok, Ep, bind_Ok, Eg, bind_Ok. by apply Hend.
Qed.

Lemma arm_found_trust fp_register by_fp w memory f first scan s g s' :
  (forall f g, by_fp memory f = Ok (Some g) -> trust (cpu_base g) = FRAME_TRUST_FP) ->
  arm_found_by fp_register by_fp w memory f first scan s g s' ->
  match trust (cpu_base g) with FRAME_TRUST_CFI | FRAME_TRUST_FP => True | FRAME_TRUST_SCAN => scan = true | _ => False end.
Proof.
  intros Hfp [info g' _ Hg|g' _ Hg|g' s1 _ _ Hs Hg].
  - pose proof (arm_cfi_spec fp_register memory f info) as Hc. cbv zeta in Hc. rewrite Hg in Hc.
    destruct (FindCallerRegs _ _ _ _); [|done..]. destruct Hc as (? & [= ->] & -> & _). done.
  - by rewrite (Hfp _ _ Hg).
  - revert Hg. unfold arm_GetCallerByStackScan.
    destruct (ScanForReturnAddress _ _ _ _ _ _) as [[[[l ip]|] s2]| |]; try done. rewrite bind_Ok. intros [= <- _]. done.
Qed.

Lemma arm_fp_trust fp (memory : R) f g :
  arm_GetCallerByFramePointer cpu fp memory f = Ok (Some g) -> trust (cpu_base g) = FRAME_TRUST_FP.
Proof.
  unfold arm_GetCallerByFramePointer. cbv zeta. dif; [by intros [= <-]|].
  intros (v & _ & (v' & _ & [= <-])%read_or_null_Some)%read_or_null_Some. done.
Qed.

Lemma arm_laws fp_register by_fp :
  (forall (w : StackwalkerARM C R) memory f g, by_fp w memory f = Ok (Some g) -> trust (cpu_base g) = FRAME_TRUST_FP) ->
  @CpuWalkerLaws (StackwalkerARM C R) StackFrameARM (Symbolizer M S)
    (cpu_walker_of (arm_GetContextFrame cpu) (λ w, arm_caller cpu (fp_register w) (by_fp w) w))
    (λ f, context f sp) (λ f, context f pc).
Proof.
  intros Hfp. apply (cpu_walker_of_laws _ _ (λ c, c sp) (λ c, c pc)).
  - by intros w f (c & _ & ->)%fmap_Some.
  - intros w frames f scan st g st' Hl (m & f0 & g0 & _ & Hl' & _ & -> & Ht)%arm_caller_spec.
    rewrite Hl in Hl'. injection Hl' as <-. exact Ht.
  - intros w frames st g st' (m & f & g0 & _ & _ & Hg & -> & _)%arm_caller_spec.
    apply arm_found_trust in Hg; [|by apply Hfp]. cbn. by destruct (trust (cpu_base g0)).
Qed.

(** ** The end of a walk *)

Context (Inv : Symbolizer M S -> Prop) (blame : Prop).

Lemma arm_cfi_words fp_register (memory : R) f info :
  valid memory -> context_words (word_bits cpu) f -> (forall regs, FindCallerRegs (word_bits cpu) info regs memory = Undefined -> blame) ->
  sound blame (caller_words (word_bits cpu)) (arm_GetCallerByCFIFrameInfo cpu fp_register memory f info).
Proof.
  intros Hm Hf Hu. pose proof (ao_width cpu Hcpu) as Hwd. unfold arm_GetCallerByCFIFrameInfo.
  set (regs := callee_registers _ _ _ _).
  destruct (FindCallerRegs (word_bits cpu) info regs memory) as [caller| |] eqn:E; [|done|by apply (Hu regs)].
  assert (Hd: dict_ok (word_bits cpu) caller).
  { eapply FindCallerRegs_fits; [exact Hwd|exact Hm| |exact E]. apply callee_registers_fits; [exact Hf|].
    intros ? ?. by rewrite lookup_empty. }
  assert (Hc: forall r, fits (word_bits cpu) ((populate_caller (arm_registers cpu) (context f) (context_validity f) caller (λ _, 0) 0).1 r)).
  { apply populate_fits; try done. intros r. unfold fits. destruct Hwd as [-> | ->]; lia. }
  destruct (populate_caller _ _ _ _ _ _) as [c v]. cbn [fst] in Hc. cbv zeta. dif; [done|]. intros g [= <-].
  unfold recover_sp, recover_pc. cbn [context_validity new_frame].
  repeat match goal with |- context [if ?b then _ else _] => destruct b
    | |- context [match caller !! ?k with _ => _ end] => destruct (caller !! k) eqn:? end; words; try (by eapply Hd); try apply Hf.
Qed.

Lemma arm_fp_words fp (memory : R) f :
  readable valid (word_bytes cpu) memory -> context_words (word_bits cpu) f ->
  sound blame (caller_words (word_bits cpu)) (arm_GetCallerByFramePointer cpu fp memory f).
Proof.
  intros Hm Hf. pose proof (ao_size cpu Hcpu) as Hsz. assert (Hw: 0 <= word_bits cpu) by (destruct (ao_width cpu Hcpu) as [-> | ->]; lia).
  assert (H0w: fits (word_bits cpu) 0) by (unfold fits; destruct (ao_width cpu Hcpu) as [-> | ->]; lia).
  unfold arm_GetCallerByFramePointer. cbv zeta. dif.
  { intros g [= <-]. unfold frame_pointer_caller. words; apply Hf. }
  apply (sound_read valid); [done|done|apply Hf|done|]. intros fp' Hfp _.
  apply (sound_read valid); [done|done|by apply wrap_fits|done|]. intros lr' Hlr _ g [= <-]. unfold frame_pointer_caller. words.
Qed.

Lemma arm_scan_words w (memory : R) f first s :
  symbols_kept (modules_list (arm_walker w)) (unloaded_modules_ (arm_walker w)) Inv blame ->
  readable valid (word_bytes cpu) memory -> context_words (word_bits cpu) f -> Inv s ->
  sound blame (found_ok Inv (context_words (word_bits cpu))) (arm_GetCallerByStackScan cpu w memory f first s).
Proof.
  intros Hk Hm Hf Hs. pose proof (ao_size cpu Hcpu) as Hsz. assert (Hw: 0 <= word_bits cpu) by (destruct (ao_width cpu Hcpu) as [-> | ->]; lia).
  unfold arm_GetCallerByStackScan. cbv zeta.
  apply (sound_scan loaded valid Inv); [done|done|done|done|apply Hf|by split|].
  intros j ip s' Hs' Hj Hloc Hip _. split; [done|]. intros g [= <-]. words.
Qed.

Lemma arm_sound fp_register by_fp (w : StackwalkerARM C R) frames f scan s :
  kept_by Inv blame (word_bits cpu) (arm_walker w) ->
  (forall memory, memory_ (arm_walker w) = Some memory -> readable valid (word_bytes cpu) memory) ->
  (forall memory f, readable valid (word_bytes cpu) memory -> context_words (word_bits cpu) f ->
     sound blame (caller_words (word_bits cpu)) (by_fp memory f)) ->
  last frames = Some f -> context_words (word_bits cpu) f -> Inv s ->
  sound blame (found_ok Inv (context_words (word_bits cpu))) (arm_caller cpu fp_register by_fp w frames scan s).
Proof.
  intros [Hk Hru] Hmem Hby Hl Hf Hs. unfold arm_caller. rewrite Hl.
  destruct (memory_ (arm_walker w)) as [memory|] eqn:Em; [|by split]. specialize (Hmem memory eq_refl).
  eapply sound_bind; [by apply (sound_cfi_info loaded), (sk_ok _ _ _ _ Hk)|]. intros info Hinfo.
  eapply (sound_bind _ (caller_words (word_bits cpu))); [destruct info as [i|]; [apply arm_cfi_words; [apply Hmem|done|intros regs; by eapply Hru]|done]|]. intros nf Hnf.
  eapply (sound_bind _ (caller_words (word_bits cpu))); [destruct nf as [g|]; [exact Hnf|by apply Hby]|].
  intros nf1 Hnf1. eapply (sound_bind _ (found_ok Inv (context_words (word_bits cpu)))).
  { destruct nf1 as [g|]; [by split|]. destruct scan; [by apply arm_scan_words|by split]. }
  intros [nf2 s2] [Hs2 Hg]. cbn [fst snd] in *. destruct nf2 as [g|]; [|by split].
  dif; [by split|]. split; [done|]. intros f' [= <-]. by apply (Hg g eq_refl).
Qed.
End arm_proofs.

Section arm_instances.
Context {M : Type} `{SymbolModule M} {S : Type} `{SymbolSupplier S} {C : Type} `{CodeModules C}.
Context {R : Type} `{MemoryRegion R}.

#[export] Instance arm_walker_laws : @CpuWalkerLaws (StackwalkerARM C R) StackFrameARM (Symbolizer M S) arm_cpu_walker
  (λ f, context f (REG_SP arm_cpu)) (λ f, context f (REG_PC arm_cpu)).
Proof.
  apply (arm_laws arm_cpu arm_ok fp_register_ (λ w, arm_frame_pointer (fp_register_ w))).
  intros w memory f g. unfold arm_frame_pointer. repeat (dif; [done|]). apply arm_fp_trust.
Qed.

#[export] Instance arm64_walker_laws : @CpuWalkerLaws (StackwalkerARM C R) StackFrameARM (Symbolizer M S) arm64_cpu_walker
  (λ f, context f (REG_SP arm64_cpu)) (λ f, context f (REG_PC arm64_cpu)).
Proof.
  apply (arm_laws arm64_cpu arm64_ok (λ _, -1) (λ _, arm_GetCallerByFramePointer arm64_cpu MD_CONTEXT_ARM64_REG_FP)).
  intros w memory f g. apply arm_fp_trust.
Qed.
End arm_instances.

(** Recovery by STACK CFI rules on ARM and ARM64: when the rules evaluate, a caller is
    found.  Its stack pointer is what they give for "sp", or else the canonical frame
    address; its program counter is what they give for "pc", or else the return address
    -- but if a frame pointer register is configured, the callee's link register.  Any
    other register is known exactly when the rules give it, or it is callee-saves and
    valid in the callee; with a frame pointer register, not the link register. *)
Lemma arm_cfi_caller {R} `{MemoryRegion R} (is_arm64 : bool) fp_register (memory : R) (last : StackFrameARM) (info : CFIFrameInfo) :
  let cpu := if is_arm64 then arm64_cpu else arm_cpu in
  let regs := callee_registers (arm_registers cpu) (context last) (context_validity last) ∅ in
  match FindCallerRegs (word_bits cpu) info regs memory with
  | Ok caller => exists f', arm_GetCallerByCFIFrameInfo cpu fp_register memory last info = Ok (Some f') /\
      trust (cpu_base f') = FRAME_TRUST_CFI /\
      known f' (REG_SP cpu) (match caller !! lit "sp" with Some v => Some v | None => caller !! lit ".cfa" end) /\
      known f' (REG_PC cpu) (match caller !! lit "pc" with
                             | Some v => Some v
                             | None => if fp_register =? -1 then caller !! lit ".ra" else Some (context last (REG_LR cpu))
                             end) /\
      forall i name, register_names cpu !! i = Some name -> i <> REG_SP cpu -> i <> REG_PC cpu ->
        i <> REG_LR cpu \/ fp_register = -1 ->
        known f' i (caller_value (context last) (context_validity last) caller
                      (mkRegister name None (is_callee_saves cpu i) (RegisterValidFlag i) i))
  | Fail => arm_GetCallerByCFIFrameInfo cpu fp_register memory last info = Ok None
  | Undefined => arm_GetCallerByCFIFrameInfo cpu fp_register memory last info = Undefined
  end.
Proof. destruct is_arm64; [apply (arm_cfi_spec arm64_cpu arm64_ok)|apply (arm_cfi_spec arm_cpu arm_ok)]. Qed.
