(* ===== verification/StackwalkerMIPS.v ===== *)
(** processor/stackwalker_mips.cc: the stack walker for MIPS, of 32 and of 64 bits. *)
From Stdlib Require Import Ascii.
From stdpp Require Import strings list gmap functions.
From S2P Require Import Prelude StdMap RangeMap CStr StrMap Memory MemoryRegion PostfixEvaluator CfiFrameInfo EvaluatorBounds CodeModules SymbolFile BasicResolver BasicInvariant SymbolLoad ResolverLookup ResolverBase ResolverTable Symbolizer Stackwalker CpuFrame.

(** The members of [MDRawContextMIPS] the walker uses, besides [context_flags]. *)
Inductive mips_reg := iregs (n : nat) | epc.

#[export] Instance mips_reg_eq_dec : EqDecision mips_reg.
Proof. solve_decision. Defined.

Abbreviation StackFrameMIPS := (CpuFrame mips_reg).

Definition MD_CONTEXT_MIPS : Z := 0x00040000.
Definition MD_CONTEXT_MIPS64 : Z := 0x00080000.

Module MIPS.
Definition REG_S0 : nat := 16.
Definition REG_S7 : nat := 23.
Definition REG_GP : nat := 28.
Definition REG_SP : nat := 29.
Definition REG_FP : nat := 30.
Definition REG_RA : nat := 31.
Definition INDEX_PC : nat := 34.
Definition CONTEXT_VALID_NONE : Z := 0.
Definition CONTEXT_VALID_SP : Z := Z.shiftl 1 9.
Definition CONTEXT_VALID_FP : Z := Z.shiftl 1 10.
Definition CONTEXT_VALID_RA : Z := Z.shiftl 1 11.
Definition CONTEXT_VALID_PC : Z := Z.shiftl 1 12.
Definition CONTEXT_VALID_ALL : Z := Z.lnot CONTEXT_VALID_NONE.

(** [RegisterValidFlag]. *)
Definition RegisterValidFlag (n : nat) : Z :=
  if (REG_S0 <=? n)%nat && (n <=? REG_S7)%nat then Z.shiftl 1 (Z.of_nat n - Z.of_nat REG_S0)
  else if (REG_GP <=? n)%nat && (n <=? REG_RA)%nat then Z.shiftl 1 (Z.of_nat n - Z.of_nat REG_GP + 8)
  else if (n =? INDEX_PC)%nat then Z.shiftl 1 12
  else CONTEXT_VALID_NONE.

Definition kRegisterNames : list cstring :=
  [lit "$zero"; lit "$at"; lit "$v0"; lit "$v1"; lit "$a0"; lit "$a1"; lit "$a2"; lit "$a3"; lit "$to"; lit "$t1";
   lit "$t2"; lit "$t3"; lit "$t4"; lit "$t5"; lit "$t6"; lit "$t7"; lit "$s0"; lit "$s1"; lit "$s2"; lit "$s3";
   lit "$s4"; lit "$s5"; lit "$s6"; lit "$s7"; lit "$t8"; lit "$t9"; lit "$k0"; lit "$k1"; lit "$gp"; lit "$sp";
   lit "$fp"; lit "$ra"].

(** The callee-saves registers, for words of [n] bytes: with 64 bits, $gp is one. *)
Definition is_callee_saves (n : nat) (i : nat) : bool :=
  ((REG_S0 <=? i)%nat && (i <=? REG_S7)%nat) ||
  ((if (n =? 4)%nat then (REG_GP <? i)%nat else (REG_GP <=? i)%nat) && (i <? REG_RA)%nat).

(** The names as a register map. *)
Definition registers (n : nat) : list (RegisterSet mips_reg) :=
  imap (λ i name, mkRegister name None (is_callee_saves n i) (RegisterValidFlag i) (iregs i)) kRegisterNames.

Definition kMaxFrameStackSize : Z := 1024.
Definition kMinArgsOnStack : Z := 4.
End MIPS.

(** Every register of a frame, cut to words of [n] bytes. *)
Definition mips_callee_registers (n : nat) (c : RawContext mips_reg) : gmap cstring Z :=
  foldl (λ regs r, <[reg_name r := wrap (8 * Z.of_nat n) (c (context_member r))]> regs) ∅ (MIPS.registers n).

Section mips.
Context {M : Type} `{SymbolModule M} {S : Type} `{SymbolSupplier S} {C : Type} `{CodeModules C}.
Context {R : Type} `{MemoryRegion R}.

(** [mips_context_]: the flags of the context and its registers. *)
Record StackwalkerMIPS := mkStackwalkerMIPS { mips_walker : Stackwalker C R; mips_context_ : option (Z * RawContext mips_reg) }.

(** The constructor, which drops a memory region that ends beyond [limit].  It reads
    the flags of the context whenever there is memory. *)
Definition StackwalkerMIPS_new (w : Stackwalker C R) (c : option (Z * RawContext mips_reg)) : outcome StackwalkerMIPS :=
  match memory_ w, c with
  | None, _ => Ok (mkStackwalkerMIPS w c)
  | Some _, None => Undefined
  | Some memory, Some (context_flags, _) =>
      let limit := if negb (Z.land context_flags MD_CONTEXT_MIPS64 =? 0) then 0xffffffffffffffff else 0xffffffff in
      if wrap 64 (limit - GetBase memory) <? wrap 32 (GetSize memory - 1)
      then Ok (mkStackwalkerMIPS (mkStackwalker (os_short w) None (modules_list w) (unloaded_modules_ w)) c)
      else Ok (mkStackwalkerMIPS w c)
  end.

Definition mips_GetContextFrame (w : StackwalkerMIPS) : option StackFrameMIPS :=
  context_frame epc MIPS.CONTEXT_VALID_ALL (snd <$> mips_context_ w).

(** The bytes of a word, by the flags of the context. *)
Definition mips_bytes (context_flags : Z) : nat := if negb (Z.land context_flags MD_CONTEXT_MIPS =? 0) then 4 else 8.

(** The dictionary of the caller, completed with $sp, $ra and $pc. *)
Definition mips_complete (w pc_size : Z) (caller_registers : gmap cstring Z) : gmap cstring Z :=
  let caller_registers := match caller_registers !! lit ".cfa" with
                          | Some cfa => <[lit "$sp" := cfa]> caller_registers
                          | None => caller_registers
                          end in
  let '(caller_registers, pc) := match caller_registers !! lit ".ra" with
                                 | Some ra => (<[lit "$ra" := ra]> caller_registers, wrap w (ra - 2 * pc_size))
                                 | None => (caller_registers, 0)
                                 end in
  <[lit "$pc" := pc]> caller_registers.

(** [GetCallerByCFIFrameInfo] for words of [n] bytes. *)
Definition mips_GetCallerByCFIFrameInfo (n : nat) (memory : R) (last_frame : StackFrameMIPS) (cfi_frame_info : CFIFrameInfo)
  : outcome (option StackFrameMIPS) :=
  let w := 8 * Z.of_nat n in
  match FindCallerRegs w cfi_frame_info (mips_callee_registers n (context last_frame)) memory with
  | Undefined => Undefined
  | Fail => Ok None
  | Ok caller_registers =>
      let caller_registers := mips_complete w (Z.of_nat n) caller_registers in
      let '(c, validity) := populate_caller (MIPS.registers n) (context last_frame) (context_validity last_frame)
                              caller_registers (λ _, 0) 0 in
      let pc := default 0 (caller_registers !! lit "$pc") in
      let ra := default 0 (caller_registers !! lit "$ra") in
      let frame := new_frame FRAME_TRUST_CFI (<[iregs MIPS.REG_RA := ra]> (<[epc := pc]> c))
                     (Z.lor (Z.lor validity MIPS.CONTEXT_VALID_PC) MIPS.CONTEXT_VALID_RA) in
      Ok (Some (with_instruction frame pc))
  end.

(** The loop of [GetCallerByStackScan]: scan for a return address, read the word
    before it as the frame pointer, and go on with the next word unless the frame
    pointer is near.  It gives [caller_sp], [caller_pc], [caller_fp] and [count];
    [Fail] is a loop that outlives its fuel, which [mips_scan_loop_sound] excludes. *)
Fixpoint mips_scan_loop (n fuel : nat) (w : Stackwalker C R) (memory : R) (last_sp count : Z) (s : Symbolizer M S)
  : outcome (option (Z * Z * Z * Z) * Symbolizer M S) :=
  match fuel with
  | O => Fail
  | Datatypes.S fuel =>
      let bits := 8 * Z.of_nat n in
      '(found, s) ← ScanForReturnAddressWords n w memory last_sp count s;
      match found with
      | None => Ok (None, s)
      | Some (caller_sp, caller_pc) =>
          match GetMemoryAtAddress n memory (wrap 64 (caller_sp - Z.of_nat n)) with
          | Undefined => Undefined
          | Fail => Ok (None, s)
          | Ok caller_fp =>
              let count := s32 (count - wrap bits (caller_sp - last_sp) / Z.of_nat n) in
              let last_sp := wrap bits (caller_sp + Z.of_nat n) in
              if (MIPS.kMaxFrameStackSize <=? wrap bits (caller_fp - caller_sp)) && (0 <? count)
              then mips_scan_loop n fuel w memory last_sp count s
              else Ok (Some (caller_sp, caller_pc, caller_fp, count), s)
          end
      end
  end.

(** Every turn but the last reads a word above the one of the turn before. *)
Definition mips_scan_fuel (n : nat) (memory : R) : nat := (Z.to_nat (GetSize memory / Z.of_nat n) + 2)%nat.

Definition mips_GetCallerByStackScan (n : nat) (w : Stackwalker C R) (memory : R) (frames : list StackFrameMIPS)
    (last_frame : StackFrameMIPS) (s : Symbolizer M S) : outcome (option StackFrameMIPS * Symbolizer M S) :=
  let bits := 8 * Z.of_nat n in
  let last_sp := wrap bits (context last_frame (iregs MIPS.REG_SP)) in
  let count := MIPS.kMaxFrameStackSize / Z.of_nat n in
  let '(last_sp, count) := if (n =? 4)%nat && (1 <? length frames)%nat
    then (wrap bits (last_sp + MIPS.kMinArgsOnStack * Z.of_nat n), count - MIPS.kMinArgsOnStack) else (last_sp, count) in
  '(found, s) ← mips_scan_loop n (mips_scan_fuel n memory) w memory last_sp count s;
  match found with
  | None => Ok (None, s)
  | Some (caller_sp, caller_pc, caller_fp, count) =>
      if count =? 0 then Ok (None, s)
      else
        let caller_sp := wrap bits (caller_sp + Z.of_nat n) in
        let caller_pc := wrap bits (caller_pc - 2 * Z.of_nat n) in
        let c := <[iregs MIPS.REG_RA := wrap 64 (caller_pc + 2 * Z.of_nat n)]>
                   (<[iregs MIPS.REG_FP := caller_fp]> (<[iregs MIPS.REG_SP := caller_sp]>
                   (<[epc := caller_pc]> (context last_frame)))) in
        let validity := Z.lor (Z.lor (Z.lor MIPS.CONTEXT_VALID_PC MIPS.CONTEXT_VALID_SP) MIPS.CONTEXT_VALID_FP) MIPS.CONTEXT_VALID_RA in
        Ok (Some (with_instruction (new_frame FRAME_TRUST_SCAN c validity) caller_pc), s)
  end.

Definition mips_GetCallerFrame (w : StackwalkerMIPS) (frames : list StackFrameMIPS) (stack_scan_allowed : bool)
    (s : Symbolizer M S) : outcome (option StackFrameMIPS * Symbolizer M S) :=
  match memory_ (mips_walker w), last frames with
  | None, _ => Ok (None, s)
  | Some _, None => Undefined
  | Some memory, Some last_frame =>
      cfi_frame_info ← SymbolizerFindCFIFrameInfo (cpu_base last_frame) s;
      new_frame ← match cfi_frame_info, mips_context_ w with
                  | None, _ => Ok None
                  | Some _, None => Undefined
                  | Some info, Some (context_flags, _) =>
                      mips_GetCallerByCFIFrameInfo (mips_bytes context_flags) memory last_frame info
                  end;
      '(new_frame, s) ← match new_frame, mips_context_ w with
                        | Some f, _ => Ok (Some f, s)
                        | None, c =>
                            if stack_scan_allowed : bool then
                              match c with
                              | None => Undefined
                              | Some (context_flags, _) =>
                                  mips_GetCallerByStackScan (mips_bytes context_flags) (mips_walker w) memory frames last_frame s
                              end
                            else Ok (None, s)
                        end;
      match new_frame with
      | None => Ok (None, s)
      | Some new_frame =>
          if TerminateWalk (context new_frame epc) (context new_frame (iregs MIPS.REG_SP))
               (context last_frame (iregs MIPS.REG_SP)) (length frames =? 1)%nat
          then Ok (None, s)
          else Ok (Some new_frame, s)
      end
  end.

Definition mips_cpu_walker : CpuWalker StackwalkerMIPS StackFrameMIPS (Symbolizer M S) :=
  cpu_walker_of mips_GetContextFrame mips_GetCallerFrame.
End mips.

Arguments StackwalkerMIPS : clear implicits.

(** ** Recovery by STACK CFI rules *)

Lemma mips_complete_lookup w size caller cfa ra name :
  caller !! lit ".cfa" = Some cfa -> caller !! lit ".ra" = Some ra ->
  mips_complete w size caller !! name =
    if bool_decide (name = lit "$pc") then Some (wrap w (ra - 2 * size))
    else if bool_decide (name = lit "$ra") then Some ra
    else if bool_decide (name = lit "$sp") then Some cfa else caller !! name.
Proof.
  intros Hcfa Hra. unfold mips_complete. rewrite Hcfa. rewrite lookup_insert_ne by done. rewrite Hra. cbv beta iota zeta.
  repeat case_bool_decide; subst; rewrite ?lookup_insert_eq; try done; rewrite !lookup_insert_ne by done; rewrite ?lookup_insert_eq; done.
Qed.

(** The value of a register of the caller, without regard to the validity mask. *)
Lemma populate_context {Member} `{EqDecision Member} (m : list (RegisterSet Member)) ctx val caller : forall c v r,
  NoDup (context_member <$> m) -> r ∈ m ->
  (populate_caller m ctx val caller c v).1 (context_member r) = default (c (context_member r)) (caller_value ctx val caller r).
Proof.
  induction m as [|r0 m IH]; intros c v r Hnd Hin; [by apply not_elem_of_nil in Hin|].
  rewrite fmap_cons in Hnd. apply NoDup_cons in Hnd as [Hni Hnd]. cbn [populate_caller]. apply elem_of_cons in Hin as [->|Hin].
  - destruct (caller_value ctx val caller r0) as [x|]; (rewrite populate_other; [|done]); [by rewrite fn_lookup_insert|done].
  - assert (Hne: context_member r0 <> context_member r). { intros E. apply Hni. rewrite E. apply list_elem_of_fmap. by exists r. }
    destruct (caller_value ctx val caller r0) as [x|]; rewrite IH by done; [by rewrite fn_lookup_insert_ne|done].
Qed.

Lemma mips_members n : context_member <$> MIPS.registers n = iregs <$> seq 0 32.
Proof. reflexivity. Qed.

Lemma mips_members_NoDup n : NoDup (context_member <$> MIPS.registers n).
Proof. rewrite mips_members. apply NoDup_fmap_2; [by intros ?? [=]|apply NoDup_seq]. Qed.

(** The register [i] of [n]-byte words by its name. *)
Definition mips_register (n i : nat) (name : cstring) : RegisterSet mips_reg :=
  mkRegister name None (MIPS.is_callee_saves n i) (MIPS.RegisterValidFlag i) (iregs i).

Lemma mips_cfi_spec {R} `{MemoryRegion R} n (memory : R) (last : StackFrameMIPS) (info : CFIFrameInfo) :
  let w := 8 * Z.of_nat n in
  match FindCallerRegs w info (mips_callee_registers n (context last)) memory with
  | Ok caller => exists f' cfa ra, mips_GetCallerByCFIFrameInfo n memory last info = Ok (Some f') /\
      caller !! lit ".cfa" = Some cfa /\ caller !! lit ".ra" = Some ra /\ trust (cpu_base f') = FRAME_TRUST_CFI /\
      context f' epc = wrap w (ra - 2 * Z.of_nat n) /\ instruction (sframe (cpu_base f')) = context f' epc /\
      context f' (iregs MIPS.REG_SP) = cfa /\ context f' (iregs MIPS.REG_RA) = ra /\
      forall i name, MIPS.kRegisterNames !! i = Some name -> i <> MIPS.REG_SP -> i <> MIPS.REG_RA ->
        context f' (iregs i) = default 0 (caller_value (context last) (context_validity last) caller (mips_register n i name))
  | Fail => mips_GetCallerByCFIFrameInfo n memory last info = Ok None
  | Undefined => mips_GetCallerByCFIFrameInfo n memory last info = Undefined
  end.
Proof.
  intros w. unfold mips_GetCallerByCFIFrameInfo. fold w.
  destruct (FindCallerRegs w info _ memory) as [caller| |] eqn:E; [|done..].
  destruct (FindCallerRegs_essentials _ _ _ _ _ E) as [[cfa Hcfa] [ra Hra]].
  set (full := mips_complete w (Z.of_nat n) caller).
  assert (Hfull: forall name, full !! name = _) by (intros name; exact (mips_complete_lookup w (Z.of_nat n) caller cfa ra name Hcfa Hra)).
  pose proof (populate_context (MIPS.registers n) (context last) (context_validity last) full (λ _, 0) 0) as Hpop.
  destruct (populate_caller _ _ _ _ _ _) as [c v]. cbn [fst] in Hpop. eexists _, cfa, ra. split; [reflexivity|].
  cbn [context new_frame with_instruction cpu_base trust sframe instruction].
  assert (Hreg: forall i name, MIPS.kRegisterNames !! i = Some name ->
    c (iregs i) = default 0 (caller_value (context last) (context_validity last) full (mips_register n i name))).
  { intros i name Hi. apply (Hpop (mips_register n i name)); [apply mips_members_NoDup|].
    apply (list_elem_of_lookup_2 _ i). unfold MIPS.registers. by rewrite list_lookup_imap, Hi. }
  split; [done|]. split; [done|]. split; [done|].
  split; [rewrite fn_lookup_insert_ne, fn_lookup_insert by done; by rewrite Hfull|].
  split; [rewrite fn_lookup_insert_ne, fn_lookup_insert by done; done|].
  split; [rewrite !fn_lookup_insert_ne by done; rewrite (Hreg MIPS.REG_SP (lit "$sp")) by done;
          unfold caller_value; cbn [reg_name mips_register]; by rewrite Hfull|].
  split; [rewrite fn_lookup_insert; by rewrite Hfull|].
  intros i name Hi Hsp Hrai. rewrite !fn_lookup_insert_ne by congruence. rewrite (Hreg i name Hi).
  unfold caller_value. cbn [reg_name mips_register alternate_name callee_saves]. rewrite Hfull.
  assert (Hdist: name <> lit "$pc" /\ name <> lit "$ra" /\ name <> lit "$sp").
  { apply lookup_lt_Some in Hi as Hlt. change (length MIPS.kRegisterNames) with 32%nat in Hlt. unfold MIPS.REG_SP, MIPS.REG_RA in *.
    do 32 (destruct i as [|i]; [injection Hi as <-; done|]). lia. }
  destruct Hdist as (? & ? & ?). by rewrite !bool_decide_eq_false_2.
Qed.

(** ** Finding a caller *)

Section mips_proofs.
Context {M : Type} `{SymbolModule M} (loaded : M -> Prop) `{!SymbolModuleLaws M loaded}.
Context {S : Type} `{SymbolSupplier S} {C : Type} `{CodeModules C}.
Context {R : Type} `{MemoryRegion R} (valid : R -> Prop) `{!MemoryRegionLaws R valid}.
Implicit Types (s : Symbolizer M S) (f g : StackFrameMIPS).

(** ** The scan *)

(** What the loop finds: a word at or above [last_sp], with the word before it as the
    frame pointer. *)
Definition mips_words_at (n : nat) (memory : R) (last_sp caller_sp caller_pc caller_fp : Z) : Prop :=
  let bits := 8 * Z.of_nat n in
  (fits bits caller_sp /\ fits bits caller_pc /\ fits bits caller_fp) /\ last_sp <= caller_sp /\
  GetMemoryAtAddress n memory caller_sp = Ok caller_pc /\
  GetMemoryAtAddress n memory (wrap 64 (caller_sp - Z.of_nat n)) = Ok caller_fp.

(** The frame pointer is less than 1 KB above the stack pointer. *)
Definition mips_near (n : nat) (caller_sp caller_fp : Z) : Prop :=
  wrap (8 * Z.of_nat n) (caller_fp - caller_sp) < MIPS.kMaxFrameStackSize.

(** It is near, unless the limit on the words is used up. *)
Definition mips_scanned (n : nat) (memory : R) (last_sp : Z) (found : Z * Z * Z * Z) : Prop :=
  let '(caller_sp, caller_pc, caller_fp, count) := found in
  mips_words_at n memory last_sp caller_sp caller_pc caller_fp /\
  0 <= count <= 256 /\ (count <> 0 -> mips_near n caller_sp caller_fp).

(** The bytes of the region that the loop may still read. *)
Definition mips_left (memory : R) (last_sp : Z) : Z := GetBase memory + GetSize memory - Z.max last_sp (GetBase memory).

(** The address has wrapped around: the region is at the end of the address space. *)
Definition mips_wrapped (n : nat) (memory : R) (last_sp : Z) : Prop :=
  last_sp <= Z.of_nat n /\ exists a v, fits (8 * Z.of_nat n) a /\ 2 ^ (8 * Z.of_nat n) - Z.of_nat n <= a /\
    GetMemoryAtAddress n memory a = Ok v.

Section mips_scans.
Context (Inv : Symbolizer M S -> Prop) (blame : Prop).

Lemma mips_scan_loop_sound n w (memory : R) fuel : forall last_sp count s,
  symbols_kept (modules_list w) (unloaded_modules_ w) Inv blame -> address_size n -> all_readable valid memory -> Inv s -> fits (8 * Z.of_nat n) last_sp -> 0 < count <= 256 ->
  mips_left memory last_sp < Z.of_nat n * Z.of_nat fuel \/ mips_wrapped n memory last_sp -> (0 < fuel)%nat ->
  sound blame (λ r, Inv r.2 /\ forall found, r.1 = Some found ->
      mips_scanned n memory last_sp found /\ ~ mips_wrapped n memory last_sp)
    (mips_scan_loop n fuel w memory last_sp count s).
Proof.
  induction fuel as [|fuel IH]; intros last_sp count s Hk Hn Hm Hs Hsp Hc Hfuel Hpos; [lia|]. clear Hpos.
  pose proof (all_readable_readable valid n memory Hn Hm) as Hr.
  assert (Hn8: Z.of_nat n = 4 \/ Z.of_nat n = 8) by (destruct Hn as [-> | ->]; lia).
  cbn [mips_scan_loop]. apply (sound_scan_words loaded valid Inv); try done; [lia|].
  intros j ip s' Hs' Hj Hl Hip Hread. set (l := last_sp + Z.of_nat n * j) in *.
  assert (H64: fits 64 (wrap 64 (l - Z.of_nat n))) by (apply wrap_fits; lia).
  destruct (GetMemoryAtAddress n memory (wrap 64 _)) as [fp| |] eqn:Efp; [|by split|by apply (ar_defined _ _ Hm n) in Efp].
  assert (Hfp: fits (8 * Z.of_nat n) fp).
  { apply (read_width n memory _ fp) in Efp; [done|unfold sizes_ok; destruct Hn; lia|done|apply Hm]. }
  assert (Hsub: wrap (8 * Z.of_nat n) (l - last_sp) / Z.of_nat n = j).
  { replace (l - last_sp) with (j * Z.of_nat n) by (unfold l; lia). rewrite wrap_small; [apply Z.div_mul; lia|].
    unfold fits in *. destruct Hn8 as [-> | ->]; lia. }
  assert (Hcount: s32 (count - j) = count - j) by (unfold s32; apply swrap_small; lia).
  assert (Hnw: ~ mips_wrapped n memory last_sp).
  { intros (Hlow & a & v & Hend & Ha & Hv). pose proof (reads_close valid n memory _ l v ip Hn Hr Hend Hl Hv Hread) as Hcl.
    unfold l in Hcl. destruct Hn8 as [E|E]; rewrite E in *; lia. }
  cbv zeta. rewrite Hsub, Hcount.
  destruct ((MIPS.kMaxFrameStackSize <=? _) && (0 <? count - j)) eqn:Ego.
  - apply andb_true_iff in Ego as [_ Hpos]. breflect. destruct Hfuel as [Hfuel|]; [|done].
    assert (Hbounds: GetBase memory <= l /\ l + Z.of_nat n <= GetBase memory + GetSize memory).
    { apply (read_bounds n memory l ip); [unfold sizes_ok; destruct Hn; lia|by eapply fits_address|apply Hm|done]. }
    assert (Hleft: 0 <= GetBase memory + GetSize memory - (l + Z.of_nat n) < Z.of_nat n * Z.of_nat fuel).
    { revert Hfuel. unfold mips_left. destruct Hn8 as [E|E]; rewrite E in *; unfold l in *; lia. }
    assert (Hnext: wrap (8 * Z.of_nat n) (l + Z.of_nat n) = l + Z.of_nat n \/
      mips_wrapped n memory (wrap (8 * Z.of_nat n) (l + Z.of_nat n))).
    { destruct (decide (l + Z.of_nat n < 2 ^ (8 * Z.of_nat n))) as [Hlt|Hge];
        [left; apply wrap_small; unfold fits in *; lia|].
      right. pose proof (wrap_add_cases (8 * Z.of_nat n) l (Z.of_nat n) ltac:(lia) Hl ltac:(unfold fits; destruct Hn8 as [-> | ->]; lia)) as Hw.
      unfold fits in Hl. split; [lia|]. exists l, ip. split_and!; try done; lia. }
    eapply sound_weaken; [done| |apply (IH (wrap (8 * Z.of_nat n) (l + Z.of_nat n))); try done]; [|apply wrap_fits; lia|lia| |nia].
    + intros [o s2] [Hs2 Ho]. split; [done|]. intros found E. specialize (Ho _ E) as [Ho Hnw']. split; [|done].
      destruct Hnext as [Hnext|]; [|done]. rewrite Hnext in Ho.
      destruct found as [[[a b] c] d]. destruct Ho as [(? & ? & ?) ?]. split; [|done]. split; [done|]. split; [lia|done].
    + destruct Hnext as [-> |]; [left|by right]. unfold mips_left. lia.
  - split; [done|]. intros found [= <-]. split; [|done]. split; [|split; [lia|]].
    { split; [done|]. split; [unfold l; lia|done]. }
    unfold mips_near.
    intros Hne. apply andb_false_iff in Ego as [Ego|Ego]; breflect; lia.
Qed.

(** The frame a scan leads to. *)
Definition mips_scan_frame (n : nat) (last : StackFrameMIPS) (caller_sp caller_pc caller_fp : Z) (g : StackFrameMIPS) : Prop :=
  let bits := 8 * Z.of_nat n in
  trust (cpu_base g) = FRAME_TRUST_SCAN /\
  context g epc = wrap bits (caller_pc - 2 * Z.of_nat n) /\ instruction (sframe (cpu_base g)) = context g epc /\
  context g (iregs MIPS.REG_SP) = wrap bits (caller_sp + Z.of_nat n) /\ context g (iregs MIPS.REG_FP) = caller_fp /\
  context g (iregs MIPS.REG_RA) = wrap 64 (context g epc + 2 * Z.of_nat n) /\
  forall i, i <> MIPS.REG_SP -> i <> MIPS.REG_FP -> i <> MIPS.REG_RA -> context g (iregs i) = context last (iregs i).

(** Where a scan starts: past the arguments of a callee that is not the first frame. *)
Definition mips_scan_start (n : nat) (frames : list StackFrameMIPS) (last : StackFrameMIPS) : Z :=
  let bits := 8 * Z.of_nat n in
  let last_sp := wrap bits (context last (iregs MIPS.REG_SP)) in
  if (n =? 4)%nat && (1 <? length frames)%nat then wrap bits (last_sp + 16) else last_sp.

Lemma mips_scan_sound n w (memory : R) frames last s :
  symbols_kept (modules_list w) (unloaded_modules_ w) Inv blame -> address_size n -> all_readable valid memory -> Inv s ->
  sound blame (λ r, Inv r.2 /\ forall g, r.1 = Some g ->
      exists caller_sp caller_pc caller_fp,
        mips_words_at n memory (mips_scan_start n frames last) caller_sp caller_pc caller_fp /\ mips_near n caller_sp caller_fp /\
        mips_scan_frame n last caller_sp caller_pc caller_fp g)
    (mips_GetCallerByStackScan n w memory frames last s).
Proof.
  intros Hk Hn Hm Hs. unfold mips_GetCallerByStackScan. cbv zeta.
  assert (Hn8: Z.of_nat n = 4 \/ Z.of_nat n = 8) by (destruct Hn as [-> | ->]; lia).
  set (start := if (n =? 4)%nat && (1 <? length frames)%nat then _ else _).
  assert (Hstart: start.1 = mips_scan_start n frames last /\ 0 < start.2 <= 256).
  { unfold start, mips_scan_start, MIPS.kMinArgsOnStack, MIPS.kMaxFrameStackSize.
    destruct Hn as [-> | ->]; [destruct (1 <? length frames)%nat|]; (split; [reflexivity|by vm_compute]). }
  destruct start as [last_sp count]. cbn [fst snd] in Hstart. destruct Hstart as [-> Hc].
  eapply sound_bind; [apply mips_scan_loop_sound; try done|].
  - unfold mips_scan_start. destruct (_ && _); apply wrap_fits; lia.
  - left. unfold mips_left, mips_scan_fuel. pose proof (Z.div_mod (GetSize memory) (Z.of_nat n) ltac:(lia)).
    pose proof (Z.mod_pos_bound (GetSize memory) (Z.of_nat n) ltac:(lia)). destruct Hn8 as [E|E]; rewrite E in *; lia.
  - unfold mips_scan_fuel. lia.
  - intros [[[[[sp' pc'] fp'] cnt]|] s'] [Hs' Hf]; cbn [fst snd] in *; [|by split]. dif; [by split|].
    destruct (Hf _ eq_refl) as [Hsc _]. split; [done|]. intros g [= <-]. destruct Hsc as (Hw & _ & Hnear). exists sp', pc', fp'.
    split; [done|]. split; [by apply Hnear|]. unfold mips_scan_frame. cbn [context new_frame with_instruction cpu_base trust sframe instruction].
      split; [done|]. split; [rewrite !fn_lookup_insert_ne by done; by rewrite fn_lookup_insert|].
      split; [rewrite !fn_lookup_insert_ne by done; by rewrite fn_lookup_insert|].
      split; [rewrite !fn_lookup_insert_ne by done; by rewrite fn_lookup_insert|].
      split; [rewrite !fn_lookup_insert_ne by done; by rewrite fn_lookup_insert|].
      split; [rewrite fn_lookup_insert; rewrite !fn_lookup_insert_ne by done; by rewrite fn_lookup_insert|].
      intros i ? ? ?. by rewrite !fn_lookup_insert_ne by congruence.
Qed.
End mips_scans.

(** ** [GetCallerFrame] *)

(** Rules are tried first, then a scan if allowed. *)
Definition mips_no_cfi (n : nat) (memory : R) (f : StackFrameMIPS) s : Prop :=
  SymbolizerFindCFIFrameInfo (cpu_base f) s = Ok None \/
  exists info, SymbolizerFindCFIFrameInfo (cpu_base f) s = Ok (Some info) /\ mips_GetCallerByCFIFrameInfo n memory f info = Ok None.

Inductive mips_found_by (n : nat) (w : StackwalkerMIPS C R) (memory : R) frames f (scan : bool) s :
    StackFrameMIPS -> Symbolizer M S -> Prop :=
| mips_by_cfi info g :
    SymbolizerFindCFIFrameInfo (cpu_base f) s = Ok (Some info) -> mips_GetCallerByCFIFrameInfo n memory f info = Ok (Some g) ->
    mips_found_by n w memory frames f scan s g s
| mips_by_scan g s' :
    mips_no_cfi n memory f s -> scan = true -> mips_GetCallerByStackScan n (mips_walker w) memory frames f s = Ok (Some g, s') ->
    mips_found_by n w memory frames f scan s g s'.

Lemma mips_get_caller_spec (w : StackwalkerMIPS C R) flags c frames scan s s' g :
  mips_context_ w = Some (flags, c) ->
  mips_GetCallerFrame w frames scan s = Ok (Some g, s') <->
  exists memory f, memory_ (mips_walker w) = Some memory /\ last frames = Some f /\
    mips_found_by (mips_bytes flags) w memory frames f scan s g s' /\
    TerminateWalk (context g epc) (context g (iregs MIPS.REG_SP)) (context f (iregs MIPS.REG_SP)) (length frames =? 1)%nat = false.
Proof.
  intros Hctx. unfold mips_GetCallerFrame. rewrite Hctx. set (n := mips_bytes flags).
  destruct (memory_ (mips_walker w)) as [memory|]; [|by split; [|intros (?&?&?&_)]].
  destruct (last frames) as [f|]; [|by split; [|intros (?&?&_&?&_)]]. set (first := (length frames =? 1)%nat).
  assert (Hend: forall g0 s2, (if TerminateWalk (context g0 epc) (context g0 (iregs MIPS.REG_SP)) (context f (iregs MIPS.REG_SP)) first
      then Ok (None, s2) else Ok (Some g0, s2)) = Ok (Some g, s') <->
    s' = s2 /\ g = g0 /\ TerminateWalk (context g epc) (context g (iregs MIPS.REG_SP)) (context f (iregs MIPS.REG_SP)) first = false).
  { intros g0 s2. destruct (TerminateWalk _ _ _ _) eqn:Et; split; try done.
    - intros (_ & -> & ?). congruence.
    - by intros [= <- <-].
    - by intros (-> & -> & _). }
  split.
  - destruct (SymbolizerFindCFIFrameInfo (cpu_base f) s) as [info| |] eqn:Ei; try done. rewrite bind_Ok.
    destruct (match info with Some i => _ | None => Ok None end) as [nf| |] eqn:Ecfi; try done. rewrite bind_Ok.
    destruct (match nf with Some f0 => Ok (Some f0, s) | None => _ end) as [[nf2 s2]| |] eqn:Esc; try done.
    rewrite bind_Ok. cbv beta iota. destruct nf2 as [g0|]; [|done]. intros Hg. apply Hend in Hg as (-> & -> & Ht).
    exists memory, f. split; [done|]. split; [done|]. split; [|done].
    destruct nf as [g1|]; [injection Esc as <- <-|].
    + destruct info as [i|]; [|done]. by apply (mips_by_cfi _ _ _ _ _ _ _ i).
    + destruct scan; [|done]. apply mips_by_scan; try done. destruct info as [i|]; [right; by exists i|by left].
  - intros (m & f0 & [= <-] & [= <-] & Hg & Hf). destruct Hg as [info g Ei Eg|g s2 Hc -> Eg].
    + rewrite Ei, bind_Ok, Eg, !bind_Ok. by apply Hend.
    + destruct Hc as [->|(i & -> & Ei)]; rewrite bind_Ok; [|rewrite Ei]; rewrite bind_Ok, Eg, bind_Ok; by apply Hend.
Qed.

Lemma mips_get_caller_no_context (w : StackwalkerMIPS C R) frames scan s s' g :
  mips_context_ w = None -> mips_GetCallerFrame w frames scan s = Ok (Some g, s') -> False.
Proof.
  intros Hctx. unfold mips_GetCallerFrame. rewrite Hctx. destruct (memory_ (mips_walker w)), (last frames) as [f|]; try done.
  destruct (SymbolizerFindCFIFrameInfo _ s) as [[]| |]; try done. rewrite !bind_Ok. by destruct scan.
Qed.

Lemma mips_found_trust n w memory frames f scan s g s' :
  mips_found_by n w memory frames f scan s g s' ->
  match trust (cpu_base g) with FRAME_TRUST_CFI => True | FRAME_TRUST_SCAN => scan = true | _ => False end.
Proof.
  intros [info g' _ Hg|g' s1 _ Hs Hg].
  - pose proof (mips_cfi_spec n memory f info) as Hc. cbv zeta in Hc. rewrite Hg in Hc.
    destruct (FindCallerRegs _ _ _ _); [|done..]. destruct Hc as (? & ? & ? & [= ->] & _ & _ & -> & _). done.
  - revert Hg. unfold mips_GetCallerByStackScan. cbv zeta. destruct (if (n =? 4)%nat && _ then _ else _) as [sp' cnt'].
    destruct (mips_scan_loop _ _ _ _ _ _ _) as [[[[[[? ?] ?] ?]|] s2]| |]; try done. rewrite bind_Ok. dif; [done|].
    intros [= <- _]. done.
Qed.

#[export] Instance mips_walker_laws : @CpuWalkerLaws (StackwalkerMIPS C R) StackFrameMIPS (Symbolizer M S) mips_cpu_walker
  (λ f, context f (iregs MIPS.REG_SP)) (λ f, context f epc).
Proof.
  apply (cpu_walker_of_laws _ _ (λ c, c (iregs MIPS.REG_SP)) (λ c, c epc)).
  - by intros w f (c & _ & ->)%fmap_Some.
  - intros w frames f scan st g st' Hl Hg. destruct (mips_context_ w) as [[flags c]|] eqn:Ec; [|by apply mips_get_caller_no_context in Hg].
    destruct (proj1 (mips_get_caller_spec _ _ _ _ _ _ _ _ Ec) Hg) as (m & f0 & _ & Hl' & _ & Ht). rewrite Hl in Hl'. by injection Hl' as <-.
  - intros w frames st g st' Hg. destruct (mips_context_ w) as [[flags c]|] eqn:Ec; [|by apply mips_get_caller_no_context in Hg].
    destruct (proj1 (mips_get_caller_spec _ _ _ _ _ _ _ _ Ec) Hg) as (m & f & _ & _ & Ht%mips_found_trust & _).
    by destruct (trust (cpu_base g)).
Qed.

(** ** The end of a walk *)

Context (Inv : Symbolizer M S -> Prop) (blame : Prop).

Lemma mips_callee_fits n c : dict_ok (8 * Z.of_nat n) (mips_callee_registers n c).
Proof.
  unfold mips_callee_registers. generalize (MIPS.registers n) as m. intros m.
  assert (Hg: forall regs, dict_ok (8 * Z.of_nat n) regs ->
    dict_ok (8 * Z.of_nat n) (foldl (λ regs r, <[reg_name r := wrap (8 * Z.of_nat n) (c (context_member r))]> regs) regs m)).
  { induction m as [|r m IH]; intros regs Hr; [done|]. apply IH. apply dict_ok_insert; [done|]. apply wrap_fits. lia. }
  apply Hg. intros ? ?. by rewrite lookup_empty.
Qed.

Lemma mips_cfi_words n (memory : R) f info :
  address_size n -> valid memory -> context_words 64 f -> (forall regs, FindCallerRegs (8 * Z.of_nat n) info regs memory = Undefined -> blame) ->
  sound blame (caller_words 64) (mips_GetCallerByCFIFrameInfo n memory f info).
Proof.
  intros Hn Hm Hf Hu. unfold mips_GetCallerByCFIFrameInfo.
  destruct (FindCallerRegs _ info _ memory) as [caller| |] eqn:E; [|done|by eapply Hu].
  destruct (FindCallerRegs_essentials _ _ _ _ _ E) as [[cfa Hcfa] [ra Hra]].
  assert (Hd: dict_ok (8 * Z.of_nat n) caller).
  { eapply FindCallerRegs_fits; [|exact Hm|apply mips_callee_fits|exact E]. destruct Hn as [-> | ->]; [by left|by right]. }
  assert (Hfull: dict_ok 64 (mips_complete (8 * Z.of_nat n) (Z.of_nat n) caller)).
  { intros name v. rewrite (mips_complete_lookup _ _ _ cfa ra name Hcfa Hra).
    repeat case_bool_decide; intros Hv; [injection Hv as <-|..]; apply (fits_address n); try done; [apply wrap_fits; lia|..];
      [injection Hv as <-|injection Hv as <-|]; by eapply Hd. }
  assert (H064: fits 64 0) by (unfold fits; lia).
  assert (Hdef: forall name, fits 64 (default 0 (mips_complete (8 * Z.of_nat n) (Z.of_nat n) caller !! name))).
  { intros name. destruct (_ !! name) as [v|] eqn:Ev; [by eapply Hfull|done]. }
  cbv zeta. pose proof (populate_fits 64 (MIPS.registers n) (context f) (context_validity f) (mips_complete (8 * Z.of_nat n) (Z.of_nat n) caller)
    (λ _, 0) 0 Hf Hfull ltac:(done)) as Hc.
  destruct (populate_caller _ _ _ _ _ _) as [c v]. cbn [fst] in Hc. intros g [= <-]. words.
Qed.

Lemma mips_scan_words n (memory : R) f g start sp' pc' fp' :
  address_size n -> context_words 64 f -> mips_words_at n memory start sp' pc' fp' -> mips_scan_frame n f sp' pc' fp' g -> context_words 64 g.
Proof.
  intros Hn Hf ((Hsp & Hpc & Hfp) & _) (_ & He & _ & Hs & Hp & Hr & Ho). assert (Hw: 0 <= 8 * Z.of_nat n) by lia.
  assert (Hword: forall v, fits 64 (wrap (8 * Z.of_nat n) v)) by (intros v; by apply (fits_address n), wrap_fits).
  intros [i|]; [|rewrite He; apply Hword].
  destruct (decide (i = MIPS.REG_SP)) as [->|]; [rewrite Hs; apply Hword|].
  destruct (decide (i = MIPS.REG_FP)) as [->|]; [rewrite Hp; by apply (fits_address n)|].
  destruct (decide (i = MIPS.REG_RA)) as [->|]; [rewrite Hr; apply wrap_fits; lia|]. rewrite Ho by done. apply Hf.
Qed.

Lemma mips_bytes_size flags : address_size (mips_bytes flags).
Proof. unfold mips_bytes. destruct (negb _); [by left|by right]. Qed.

Lemma mips_sound (w : StackwalkerMIPS C R) frames f scan s :
  symbols_kept (modules_list (mips_walker w)) (unloaded_modules_ (mips_walker w)) Inv blame ->
  (forall n, address_size n -> rules_blamed Inv blame (8 * Z.of_nat n) (memory_ (mips_walker w))) ->
  (forall memory, memory_ (mips_walker w) = Some memory -> all_readable valid memory /\ mips_context_ w <> None) ->
  last frames = Some f -> context_words 64 f -> Inv s ->
  sound blame (found_ok Inv (context_words 64)) (mips_GetCallerFrame w frames scan s).
Proof.
  intros Hk Hru Hmem Hl Hf Hs. unfold mips_GetCallerFrame. rewrite Hl.
  destruct (memory_ (mips_walker w)) as [memory|] eqn:Em; [|by split]. destruct (Hmem memory eq_refl) as [Hm Hc].
  destruct (mips_context_ w) as [[flags c]|]; [|done]. pose proof (mips_bytes_size flags) as Hn.
  eapply sound_bind; [by apply (sound_cfi_info loaded), (sk_ok _ _ _ _ Hk)|]. intros info Hinfo.
  eapply (sound_bind _ (caller_words 64)); [destruct info as [i|]; [apply mips_cfi_words; [done|apply Hm|done|intros regs; by eapply Hru]|done]|]. intros nf Hnf.
  eapply (sound_bind _ (found_ok Inv (context_words 64))).
  { destruct nf as [g|]; [by split|]. destruct scan; [|by split].
    eapply sound_weaken; [done| |by apply (mips_scan_sound Inv _ _ (mips_walker w))].
    intros [o s2] [Hs2 Hg]. split; [done|]. intros g Eg. destruct (Hg g Eg) as (sp' & pc' & fp' & Hw & _ & Hfr).
    by eapply mips_scan_words. }
  intros [nf2 s2] [Hs2 Hg]. cbn [fst snd] in *. destruct nf2 as [g|]; [|by split].
  dif; [by split|]. split; [done|]. intros f' [= <-]. by apply Hg.
Qed.

(** The constructor leaves memory only to a walker that has a context. *)
Lemma mips_new_sound (w : Stackwalker C R) c w' :
  StackwalkerMIPS_new w c = Ok w' ->
  mips_context_ w' = c /\ (memory_ (mips_walker w') = None \/ (mips_walker w' = w /\ c <> None)).
Proof.
  unfold StackwalkerMIPS_new. destruct (memory_ w) eqn:Em; [destruct c as [[flags c]|]; [|done]; cbv zeta; dif|];
    intros [= <-]; (split; [done|]); [by left|by right|by left].
Qed.
End mips_proofs.

(** ** The scan *)

(** [GetCallerByStackScan] for 32- and 64-bit words ends, over any memory and symbols.
    The caller it finds has its return address in a word at or above where the scan
    starts -- past four words of arguments if the callee is not the first frame and words
    have 32 bits; the word below is its frame pointer, less than 1 KB above that word;
    its stack pointer is the word above, its program counter two words before the
    return address, and the other registers are the callee's. *)
Lemma mips_stack_scan {M S C R : Type} `{SymbolModule M} `{SymbolSupplier S} `{CodeModules C} `{MemoryRegion R}
    (loaded : M -> Prop) `{!SymbolModuleLaws M loaded} (valid : R -> Prop) `{!MemoryRegionLaws R valid}
    n (w : Stackwalker C R) (memory : R) frames (last : StackFrameMIPS) (s : Symbolizer M S) :
  address_size n -> all_readable valid memory -> symbolizer_ok s ->
  match mips_GetCallerByStackScan n w memory frames last s with
  | Ok (Some g, s') => symbolizer_ok s' /\ exists caller_sp caller_pc caller_fp,
      mips_words_at n memory (mips_scan_start n frames last) caller_sp caller_pc caller_fp /\ mips_near n caller_sp caller_fp /\
      mips_scan_frame n last caller_sp caller_pc caller_fp g
  | Ok (None, s') => symbolizer_ok s'
  | Fail => False
  | Undefined => exists name data, LoadMap (CreateModule name) data = Undefined
  end.
Proof.
  intros Hn Hm Hs. pose proof (mips_scan_sound loaded valid symbolizer_ok _ n w memory frames last s (symbols_kept_ok loaded _ _) Hn Hm Hs) as Hsc.
  destruct (mips_GetCallerByStackScan _ _ _ _ _ _) as [[[g|] s']| |]; [|apply Hsc|done|done].
  destruct Hsc as [Hs' Hg]. split; [done|]. by apply Hg.
Qed.

(** From the first frame, over words of 32 bits. *)
Definition demo_mips_frame : StackFrameMIPS :=
  new_frame FRAME_TRUST_CONTEXT (λ r, if decide (r = iregs MIPS.REG_SP) then 0x7fff0000 else 0) MIPS.CONTEXT_VALID_ALL.

Lemma mips_stack_scan_witness :
  exists g s', mips_GetCallerByStackScan 4 demo_walker32 demo_stack32 [demo_mips_frame] demo_mips_frame demo_symbolizer = Ok (Some g, s') /\
    context g epc = 0x40080d /\ context g (iregs MIPS.REG_SP) = 0x7fff000c /\ context g (iregs MIPS.REG_FP) = 0x7fff0018 /\
    mips_near 4 0x7fff0008 0x7fff0018.
Proof.
  pose proof (mips_stack_scan module_ok micro_ok 4 demo_walker32 demo_stack32 [demo_mips_frame] demo_mips_frame demo_symbolizer
    ltac:(by left) demo_stack32_readable demo_symbolizer_ok) as Hs.
  set (x := mips_GetCallerByStackScan _ _ _ _ _ _) in *.
  assert (Hx: match x with Ok (Some g, _) => (context g epc, context g (iregs MIPS.REG_SP), context g (iregs MIPS.REG_FP)) | _ => (0, 0, 0) end =
    (0x40080d, 0x7fff000c, 0x7fff0018)) by (vm_compute; reflexivity).
  destruct x as [[[g|] s']| |]; [|discriminate Hx..]. injection Hx as E1 E2 E3. exists g, s'.
  destruct Hs as (_ & sp & pc & fp & ((Hsp & _) & _) & Hnear & (_ & _ & _ & Es & Ef & _)).
  split; [done|]. split; [done|]. split; [done|]. split; [done|].
  rewrite E2 in Es. rewrite E3 in Ef. subst fp. assert (sp = 0x7fff0008) as <-; [|done].
  change (8 * Z.of_nat 4) with 32 in *. change (Z.of_nat 4) with 4 in Es.
  pose proof (wrap_add_cases 32 sp 4 ltac:(lia) Hsp ltac:(unfold fits; lia)) as Hw. unfold fits in Hsp. lia.
Defined.
