(* ===== verification/StackwalkerX86.v ===== *)
(** processor/stackwalker_x86.cc: the stack walker for x86, with the recovery of
    callers by STACK WIN records. *)
From Stdlib Require Import Ascii.
From stdpp Require Import strings list gmap functions.
From S2P Require Import Prelude StdMap RangeMap CStr StrMap Memory MemoryRegion PostfixEvaluator CfiFrameInfo EvaluatorBounds CodeModules SymbolFile BasicResolver BasicInvariant SymbolLoad ResolverLookup ResolverBase ResolverTable Symbolizer Stackwalker CpuFrame.

(** The members of [MDRawContextX86] the walker uses. *)
Inductive x86_reg := eip | esp | ebp | eax | ebx | ecx | edx | esi | edi.

#[export] Instance x86_reg_eq_dec : EqDecision x86_reg.
Proof. solve_decision. Defined.

Module X86.
Definition CONTEXT_VALID_EIP : Z := Z.shiftl 1 0.
Definition CONTEXT_VALID_ESP : Z := Z.shiftl 1 1.
Definition CONTEXT_VALID_EBP : Z := Z.shiftl 1 2.
Definition CONTEXT_VALID_EAX : Z := Z.shiftl 1 3.
Definition CONTEXT_VALID_EBX : Z := Z.shiftl 1 4.
Definition CONTEXT_VALID_ECX : Z := Z.shiftl 1 5.
Definition CONTEXT_VALID_EDX : Z := Z.shiftl 1 6.
Definition CONTEXT_VALID_ESI : Z := Z.shiftl 1 7.
Definition CONTEXT_VALID_EDI : Z := Z.shiftl 1 8.
Definition CONTEXT_VALID_ALL : Z := -1.

Definition kMaxReasonableGapBetweenFrames : Z := 128 * 1024.

Definition cfi_register_map_ : list (RegisterSet x86_reg) :=
  [mkRegister (lit "$eip") (Some (lit ".ra")) false CONTEXT_VALID_EIP eip;
   mkRegister (lit "$esp") (Some (lit ".cfa")) false CONTEXT_VALID_ESP esp;
   mkRegister (lit "$ebp") None true CONTEXT_VALID_EBP ebp;
   mkRegister (lit "$eax") None false CONTEXT_VALID_EAX eax;
   mkRegister (lit "$ebx") None true CONTEXT_VALID_EBX ebx;
   mkRegister (lit "$ecx") None false CONTEXT_VALID_ECX ecx;
   mkRegister (lit "$edx") None false CONTEXT_VALID_EDX edx;
   mkRegister (lit "$esi") None true CONTEXT_VALID_ESI esi;
   mkRegister (lit "$edi") None true CONTEXT_VALID_EDI edi].
End X86.

(** [StackFrameX86]: it remembers the records that were found for it. *)
Record StackFrameX86 := mkStackFrameX86 {
  x86_frame : CpuFrame x86_reg;
  windows_frame_info : option WindowsFrameInfo;
  cfi_frame_info : option CFIFrameInfo
}.

Definition StackFrameX86_new (f : CpuFrame x86_reg) : StackFrameX86 := mkStackFrameX86 f None None.
Definition set_windows_frame_info (f : StackFrameX86) (info : WindowsFrameInfo) : StackFrameX86 :=
  mkStackFrameX86 (x86_frame f) (Some info) (cfi_frame_info f).
Definition set_cfi_frame_info (f : StackFrameX86) (info : CFIFrameInfo) : StackFrameX86 :=
  mkStackFrameX86 (x86_frame f) (windows_frame_info f) (Some info).

(** [ReturnAddress]: the value of [eip], which must be valid. *)
Definition x86_ReturnAddress (f : StackFrameX86) : outcome Z :=
  if Z.land (context_validity (x86_frame f)) X86.CONTEXT_VALID_EIP =? 0 then Undefined else Ok (context (x86_frame f) eip).

(** Storing through [frames.back()]. *)
Definition set_back (frames : list StackFrameX86) (f : StackFrameX86) : list StackFrameX86 :=
  <[(length frames - 1)%nat := f]> frames.

(** [dictionary[name]]. *)
Definition at_name (d : gmap cstring Z) (name : cstring) : Z := default 0 (d !! name).

(** The frame of a caller with these registers. *)
Definition x86_caller (t : FrameTrust) (last : CpuFrame x86_reg) (caller_eip caller_esp caller_ebp : Z) : CpuFrame x86_reg :=
  new_frame t (<[ebp := caller_ebp]> (<[esp := caller_esp]> (<[eip := caller_eip]> (context last))))
    (Z.lor (Z.lor X86.CONTEXT_VALID_EIP X86.CONTEXT_VALID_ESP) X86.CONTEXT_VALID_EBP).

(** The size of the arguments of the function the last frame called, if its record
    tells it. *)
Definition callee_parameter_size (frames : list StackFrameX86) : Z :=
  if (2 <=? length frames)%nat then
    match frames !! (length frames - 2)%nat with
    | Some last_frame_callee =>
        match windows_frame_info last_frame_callee with
        | Some info => if negb (Z.land (valid info) VALID_PARAMETER_SIZE =? 0) then u32 (parameter_size info) else 0
        | None => 0
        end
    | None => 0
    end
  else 0.

(** What the program string of [info] finds in the dictionary. *)
Definition windows_dictionary (last : CpuFrame x86_reg) (info : WindowsFrameInfo) (callee_params : Z) : gmap cstring Z :=
  let dictionary := <[lit "$esp" := context last esp]> (<[lit "$ebp" := context last ebp]> ∅) in
  let dictionary := if negb (Z.land (context_validity last) X86.CONTEXT_VALID_EBX =? 0)
                    then <[lit "$ebx" := context last ebx]> dictionary else dictionary in
  <[lit ".cbLocals" := u32 (local_size info)]> (<[lit ".cbSavedRegs" := u32 (saved_register_size info)]>
    (<[lit ".cbCalleeParams" := callee_params]> dictionary)).

Definition program_dictionary (last : CpuFrame x86_reg) (info : WindowsFrameInfo) (callee_params raSearchStart : Z) : gmap cstring Z :=
  <[lit ".raSearch" := raSearchStart]> (<[lit ".raSearchStart" := raSearchStart]>
    (<[lit ".cbParams" := u32 (parameter_size info)]> (windows_dictionary last info callee_params))).

(** The program string to use, and whether it leaves %ebp to be recovered. *)
Definition windows_program (last : CpuFrame x86_reg) (info : WindowsFrameInfo) : cstring * bool :=
  match program_string info with
  | [] =>
      if allocates_base_pointer info
      then (lit "$eip .raSearchStart ^ = $ebp $esp .cbCalleeParams + .cbSavedRegs + 8 - ^ = $esp .raSearchStart 4 + =", true)
      else (lit "$eip .raSearchStart ^ = $esp .raSearchStart 4 + =" ++
            (if negb (Z.land (context_validity last) X86.CONTEXT_VALID_EBX =? 0) then lit " $ebx $ebx =" else []), false)
  | text => (text, true)
  end.

Section x86.
Context {M : Type} `{SymbolModule M} {S : Type} `{SymbolSupplier S} {C : Type} `{CodeModules C}.
Context {R : Type} `{MemoryRegion R}.

Record StackwalkerX86 := mkStackwalkerX86 { x86_walker : Stackwalker C R; x86_context_ : option (RawContext x86_reg) }.

(** The constructor: memory must lie in the first 4 GB. *)
Definition StackwalkerX86_new (w : Stackwalker C R) (c : option (RawContext x86_reg)) : StackwalkerX86 :=
  mkStackwalkerX86 (limit_memory w) c.

Definition x86_GetContextFrame (w : StackwalkerX86) : option StackFrameX86 :=
  StackFrameX86_new <$> context_frame eip X86.CONTEXT_VALID_ALL (x86_context_ w).

(** The scan that adjusts [raSearchStart] to a return address up to three words
    above it; in a system call with frame pointer omission, whose word is the
    current instruction, once more from the next word. *)
Definition adjust_raSearchStart (w : StackwalkerX86) (memory : R) (last : CpuFrame x86_reg) (info : WindowsFrameInfo)
    (raSearchStart : Z) (s : Symbolizer M S) : outcome (Z * Symbolizer M S) :=
  '(found, s) ← ScanForReturnAddressWords 4 (x86_walker w) memory raSearchStart 3 s;
  match found with
  | None => Ok (raSearchStart, s)
  | Some (location, value) =>
      let is_context := match trust (cpu_base last) with FRAME_TRUST_CONTEXT => true | _ => false end in
      if is_context && (type_ info =? STACK_INFO_FPO) && (raSearchStart =? location) && (value =? context last eip) then
        let raSearchStart := u32 (location + 4) in
        '(found, s) ← ScanForReturnAddressWords 4 (x86_walker w) memory raSearchStart 3 s;
        Ok (match found with Some (location, _) => location | None => raSearchStart end, s)
      else Ok (location, s)
  end.

(** The scan for a pointer into the stack, from the top of the saved registers down;
    [Fail] is a loop that outlives its fuel, which [search_ebp_sound] excludes. *)
Fixpoint search_ebp (fuel : nat) (memory : R) (location location_end : Z) : outcome (option Z) :=
  match fuel with
  | O => Fail
  | Datatypes.S fuel =>
      if location_end <=? location then
        match GetMemoryAtAddress 4 memory location with
        | Undefined => Undefined
        | Fail => Ok None
        | Ok candidate =>
            match GetMemoryAtAddress 4 memory candidate with
            | Undefined => Undefined
            | Ok _ => Ok (Some candidate)
            | Fail => search_ebp fuel memory (u32 (location - 4)) location_end
            end
        end
      else Ok None
  end.

(** Every turn but the last reads a word below the one of the turn before. *)
Definition search_fuel (memory : R) : nat := (Z.to_nat (GetSize memory / 4) + 2)%nat.

(** The recovery of %ebp. *)
Definition recover_ebp (memory : R) (last : CpuFrame x86_reg) (info : WindowsFrameInfo) (callee_params raSearchStart offset : Z)
    (t : FrameTrust) (dictionary : gmap cstring Z) : outcome (gmap cstring Z) :=
  let value := at_name dictionary (lit "$ebp") in
  let has_skipped_frames :=
    match t with FRAME_TRUST_CFI => false | _ => value <=? u32 (raSearchStart + offset) end in
  readable ← (if has_skipped_frames : bool then Ok false
              else match GetMemoryAtAddress 4 memory value with Ok _ => Ok true | Fail => Ok false | Undefined => Undefined end);
  if readable : bool then Ok dictionary
  else
    let fp_search_bytes := s32 (u32 (u32 (saved_register_size info) + offset)) in
    let location_end := u32 (context last esp + callee_params) in
    found ← search_ebp (search_fuel memory) memory (u32 (location_end + fp_search_bytes)) location_end;
    Ok (match found with Some v => <[lit "$ebp" := v]> dictionary | None => dictionary end).

(** What program evaluation leaves: the dictionary, the variables it assigned and
    whether it gave %eip and %esp. *)
Definition run_program (memory : R) (program : cstring) (dictionary : gmap cstring Z)
  : outcome (gmap cstring Z * gmap cstring bool * bool) :=
  let '(r, e) := Evaluate 32 program (Some ∅) (PostfixEvaluator_new (Some dictionary) (Some memory)) in
  let assigned := default ∅ (assigned_ e) in
  let set name := match assigned !! lit name with Some _ => true | None => false end in
  match r with
  | Undefined => Undefined
  | Ok _ => Ok (default ∅ (dictionary_ e), assigned, set "$eip" && set "$esp")
  | Fail => Ok (default ∅ (dictionary_ e), assigned, false)
  end.

(** When the program did not give %eip and %esp, a scan may. *)
Definition scan_instead (w : StackwalkerX86) (memory : R) (last : CpuFrame x86_reg) (is_context_frame stack_scan_allowed : bool)
    (dictionary : gmap cstring Z) (s : Symbolizer M S) : outcome (option (gmap cstring Z) * Symbolizer M S) :=
  if stack_scan_allowed then
    '(found, s) ← ScanForReturnAddress 4 (x86_walker w) memory (context last esp) is_context_frame s;
    Ok (match found with
        | Some (location, value) => Some (<[lit "$esp" := u32 (location + 4)]> (<[lit "$eip" := value]> dictionary))
        | None => None
        end, s)
  else Ok (None, s).

(** A scan for a better return address when %eip is in no module: the dictionary, the
    trust and the distance of the scan. *)
Definition scan_better (w : StackwalkerX86) (memory : R) (is_context_frame stack_scan_allowed : bool) (dictionary : gmap cstring Z)
    (t : FrameTrust) (s : Symbolizer M S) : outcome (gmap cstring Z * FrameTrust * Z * Symbolizer M S) :=
  let outside := match modules_list (x86_walker w) with
                 | Some ms => match GetModuleForAddress ms (at_name dictionary (lit "$eip")) with Some _ => false | None => true end
                 | None => false
                 end in
  if outside && stack_scan_allowed then
    let location_start := u32 (at_name dictionary (lit ".raSearchStart") + 4) in
    '(found, s) ← ScanForReturnAddress 4 (x86_walker w) memory location_start is_context_frame s;
    Ok (match found with
        | Some (location, value) =>
            (<[lit "$esp" := u32 (location + 4)]> (<[lit "$eip" := value]> dictionary), FRAME_TRUST_CFI_SCAN,
             s32 (u32 (location - location_start)), s)
        | None => (dictionary, t, 0, s)
        end)
  else Ok (dictionary, t, 0, s).

(** A callee-saves register that the program assigned. *)
Definition restore_register (assigned : gmap cstring bool) (dictionary : gmap cstring Z) (name : cstring) (r : x86_reg) (flag : Z)
    (f : CpuFrame x86_reg) : CpuFrame x86_reg :=
  match assigned !! name with
  | Some _ => mkCpuFrame (cpu_base f) (<[r := at_name dictionary name]> (context f)) (Z.lor (context_validity f) flag)
  | None => f
  end.

(** The new frame. *)
Definition program_frame (t : FrameTrust) (last : CpuFrame x86_reg) (assigned : gmap cstring bool) (dictionary : gmap cstring Z)
  : CpuFrame x86_reg :=
  let f := x86_caller t last (at_name dictionary (lit "$eip")) (at_name dictionary (lit "$esp")) (at_name dictionary (lit "$ebp")) in
  let f := restore_register assigned dictionary (lit "$ebx") ebx X86.CONTEXT_VALID_EBX f in
  let f := restore_register assigned dictionary (lit "$esi") esi X86.CONTEXT_VALID_ESI f in
  restore_register assigned dictionary (lit "$edi") edi X86.CONTEXT_VALID_EDI f.

(** The caller, from the dictionary that a program or a scan left. *)
Definition caller_by_dictionary (w : StackwalkerX86) (memory : R) (is_context_frame : bool) (last : CpuFrame x86_reg)
    (info : WindowsFrameInfo) (callee_params raSearchStart : Z) (recovers stack_scan_allowed : bool)
    (assigned : gmap cstring bool) (dictionary : gmap cstring Z) (t : FrameTrust) (s : Symbolizer M S)
  : outcome (option (CpuFrame x86_reg) * Symbolizer M S) :=
  if (at_name dictionary (lit "$eip") =? 0) && (at_name dictionary (lit "$ebp") =? 0)
  then Ok (Some (program_frame t last assigned dictionary), s)
  else
    '(dictionary, t, offset, s) ← scan_better w memory is_context_frame stack_scan_allowed dictionary t s;
    dictionary ← (if recovers then recover_ebp memory last info callee_params raSearchStart offset t dictionary
                  else Ok dictionary);
    Ok (Some (program_frame t last assigned dictionary), s).

(** Where the return address is expected: above the arguments of the callee, the
    locals and the saved registers; above %ebp if the program aligns addresses. *)
Definition raSearchStart_of (last : CpuFrame x86_reg) (info : WindowsFrameInfo) (callee_params : Z) : Z :=
  u32 (context last esp + callee_params + local_size info + saved_register_size info).

Definition aligned_raSearchStart (last : CpuFrame x86_reg) (program : cstring) (raSearchStart : Z) : Z :=
  if negb (Z.land X86.CONTEXT_VALID_EBP (context_validity last) =? 0) && existsb (λ c, code c =? 64) program
  then u32 (context last ebp + 4) else raSearchStart.

(** The caller when there is a full record. *)
Definition caller_by_program (w : StackwalkerX86) (memory : R) (frames : list StackFrameX86) (last : CpuFrame x86_reg)
    (info : WindowsFrameInfo) (stack_scan_allowed : bool) (s : Symbolizer M S)
  : outcome (option (CpuFrame x86_reg) * Symbolizer M S) :=
  let callee_params := callee_parameter_size frames in
  let is_context_frame := (length frames =? 1)%nat in
  '(raSearchStart, s) ← adjust_raSearchStart w memory last info (raSearchStart_of last info callee_params) s;
  let program := (windows_program last info).1 in
  let recovers := (windows_program last info).2 in
  let raSearchStart := aligned_raSearchStart last program raSearchStart in
  '(dictionary, assigned, evaluated) ← run_program memory program (program_dictionary last info callee_params raSearchStart);
  if evaluated : bool then
    caller_by_dictionary w memory is_context_frame last info callee_params raSearchStart recovers stack_scan_allowed
      assigned dictionary FRAME_TRUST_CFI s
  else
    '(scanned, s) ← scan_instead w memory last is_context_frame stack_scan_allowed dictionary s;
    match scanned with
    | None => Ok (None, s)
    | Some dictionary =>
        caller_by_dictionary w memory is_context_frame last info callee_params raSearchStart recovers stack_scan_allowed
          assigned dictionary FRAME_TRUST_SCAN s
    end.

(** [GetCallerByWindowsFrameInfo]: the caller, and the last frame, in which the record is stored. *)
Definition x86_GetCallerByWindowsFrameInfo (w : StackwalkerX86) (memory : R) (frames : list StackFrameX86)
    (last_frame : StackFrameX86) (info : WindowsFrameInfo) (stack_scan_allowed : bool) (s : Symbolizer M S)
  : outcome (option (CpuFrame x86_reg) * StackFrameX86 * Symbolizer M S) :=
  let last_frame := set_windows_frame_info last_frame info in
  if negb (valid info =? VALID_ALL) then Ok (None, last_frame, s)
  else
    '(f, s) ← caller_by_program w memory frames (x86_frame last_frame) info stack_scan_allowed s;
    Ok (f, last_frame, s).

Definition x86_GetCallerByCFIFrameInfo (memory : R) (last_frame : StackFrameX86) (info : CFIFrameInfo)
  : outcome (option (CpuFrame x86_reg) * StackFrameX86) :=
  let last_frame := set_cfi_frame_info last_frame info in
  let last := x86_frame last_frame in
  match FindCallerRegisters 32 X86.cfi_register_map_ memory info (context last) (context_validity last) with
  | Undefined => Undefined
  | Fail => Ok (None, last_frame)
  | Ok (c, validity) =>
      let essentials := Z.lor (Z.lor X86.CONTEXT_VALID_EIP X86.CONTEXT_VALID_ESP) X86.CONTEXT_VALID_EBP in
      if negb (Z.land validity essentials =? essentials) then Ok (None, last_frame)
      else Ok (Some (new_frame FRAME_TRUST_CFI c validity), last_frame)
  end.

(** The frame pointer of a caller found by scanning: the word below its return address
    when that continues the chain, or else the present one. *)
Definition restore_ebp_chain (memory : R) (last : CpuFrame x86_reg) (caller_esp : Z) : outcome Z :=
  let restored_ebp_chain := u32 (caller_esp - 8) in
  match GetMemoryAtAddress 4 memory restored_ebp_chain with
  | Undefined => Undefined
  | Fail => Ok (context last ebp)
  | Ok caller_ebp =>
      Ok (if (caller_ebp <=? restored_ebp_chain) || (X86.kMaxReasonableGapBetweenFrames <? u32 (caller_ebp - restored_ebp_chain))
          then context last ebp else caller_ebp)
  end.

Definition x86_GetCallerByEBPAtBase (w : StackwalkerX86) (memory : R) (frames : list StackFrameX86) (last : CpuFrame x86_reg)
    (stack_scan_allowed : bool) (s : Symbolizer M S) : outcome (option (CpuFrame x86_reg) * Symbolizer M S) :=
  let last_esp := context last esp in
  let last_ebp := context last ebp in
  chained ← read_or_null 4 memory (u32 (last_ebp + 4)) (λ caller_eip,
            read_or_null 4 memory last_ebp (λ caller_ebp, Ok (Some (caller_eip, caller_ebp))));
  match chained with
  | Some (caller_eip, caller_ebp) => Ok (Some (x86_caller FRAME_TRUST_FP last caller_eip (u32 (last_ebp + 8)) caller_ebp), s)
  | None =>
      if stack_scan_allowed : bool then
        '(found, s) ← ScanForReturnAddress 4 (x86_walker w) memory last_esp (length frames =? 1)%nat s;
        match found with
        | None => Ok (None, s)
        | Some (location, caller_eip) =>
            let caller_esp := u32 (location + 4) in
            caller_ebp ← restore_ebp_chain memory last caller_esp;
            Ok (Some (x86_caller FRAME_TRUST_SCAN last caller_eip caller_esp caller_ebp), s)
        end
      else Ok (None, s)
  end.

Definition x86_GetCallerFrame (w : StackwalkerX86) (frames : list StackFrameX86) (stack_scan_allowed : bool)
    (s : Symbolizer M S) : outcome (option StackFrameX86 * list StackFrameX86 * Symbolizer M S) :=
  match memory_ (x86_walker w), last frames with
  | None, _ => Ok (None, frames, s)
  | Some _, None => Undefined
  | Some memory, Some last_frame =>
      windows ← SymbolizerFindWindowsFrameInfo (cpu_base (x86_frame last_frame)) s;
      '(new_frame, last_frame, s) ←
        match windows with
        | Some info => x86_GetCallerByWindowsFrameInfo w memory frames last_frame info stack_scan_allowed s
        | None => Ok (None, last_frame, s)
        end;
      '(new_frame, last_frame) ←
        match new_frame with
        | Some f => Ok (Some f, last_frame)
        | None =>
            cfi ← SymbolizerFindCFIFrameInfo (cpu_base (x86_frame last_frame)) s;
            match cfi with
            | Some info => x86_GetCallerByCFIFrameInfo memory last_frame info
            | None => Ok (None, last_frame)
            end
        end;
      '(new_frame, s) ←
        match new_frame with
        | Some f => Ok (Some f, s)
        | None => x86_GetCallerByEBPAtBase w memory frames (x86_frame last_frame) stack_scan_allowed s
        end;
      let stored := set_back frames last_frame in
      match new_frame with
      | None => Ok (None, stored, s)
      | Some f =>
          if TerminateWalk (context f eip) (context f esp) (context (x86_frame last_frame) esp) (length frames =? 1)%nat
          then Ok (None, stored, s)
          else Ok (Some (StackFrameX86_new (with_instruction f (u32 (context f eip - 1)))), stored, s)
      end
  end.

Definition x86_cpu_walker : CpuWalker StackwalkerX86 StackFrameX86 (Symbolizer M S) := {|
  GetContextFrame := x86_GetContextFrame;
  GetCallerFrame := x86_GetCallerFrame;
  base_frame := λ f, cpu_base (x86_frame f);
  set_base_frame := λ f b, mkStackFrameX86 (mkCpuFrame b (context (x86_frame f)) (context_validity (x86_frame f)))
                             (windows_frame_info f) (cfi_frame_info f)
|}.
End x86.

Arguments StackwalkerX86 : clear implicits.

(** ** The trust of a caller *)

Section x86_proofs.
Context {M : Type} `{SymbolModule M} (loaded : M -> Prop) `{!SymbolModuleLaws M loaded}.
Context {S : Type} `{SymbolSupplier S} {C : Type} `{CodeModules C}.
Context {R : Type} `{MemoryRegion R} (valid : R -> Prop) `{!MemoryRegionLaws R valid}.
Implicit Types (s : Symbolizer M S) (last : CpuFrame x86_reg).

(** A scan has been allowed when the frame is a result of one. *)
Definition x86_trusted (scan : bool) (f : CpuFrame x86_reg) : Prop :=
  match trust (cpu_base f) with
  | FRAME_TRUST_CFI | FRAME_TRUST_FP => True
  | FRAME_TRUST_SCAN | FRAME_TRUST_CFI_SCAN => scan = true
  | _ => False
  end.

Lemma restore_register_trust assigned d name r flag f : cpu_base (restore_register assigned d name r flag f) = cpu_base f.
Proof. unfold restore_register. by destruct (assigned !! name). Qed.

Lemma program_frame_trust t last assigned d : trust (cpu_base (program_frame t last assigned d)) = t.
Proof. unfold program_frame. by rewrite !restore_register_trust. Qed.

Lemma caller_by_dictionary_trust (w : StackwalkerX86 C R) memory ctx last info params start recovers scan assigned d t s f s' :
  (t = FRAME_TRUST_SCAN -> scan = true) -> t = FRAME_TRUST_SCAN \/ t = FRAME_TRUST_CFI ->
  caller_by_dictionary w memory ctx last info params start recovers scan assigned d t s = Ok (Some f, s') ->
  x86_trusted scan f.
Proof.
  intros Hscan Ht. unfold caller_by_dictionary.
  assert (Hf: forall d t, (t = FRAME_TRUST_SCAN \/ t = FRAME_TRUST_CFI_SCAN -> scan = true) ->
    t = FRAME_TRUST_SCAN \/ t = FRAME_TRUST_CFI_SCAN \/ t = FRAME_TRUST_CFI -> x86_trusted scan (program_frame t last assigned d)).
  { intros d0 t0 Hs Ht0. unfold x86_trusted. rewrite program_frame_trust. destruct Ht0 as [-> |[-> | ->]]; auto. }
  dif; [intros [= <- <-]; apply Hf; [|tauto]; intros [|Et]; [auto|destruct Ht; congruence]|].
  assert (Hb: forall d1 t1 off s1, scan_better w memory ctx scan d t s = Ok (d1, t1, off, s1) ->
    t1 = t \/ (t1 = FRAME_TRUST_CFI_SCAN /\ scan = true)).
  { intros d1 t1 off s1. unfold scan_better. cbv zeta. destruct (_ && scan) eqn:Eo; [|intros [= <- <- <- <-]; by left]. apply andb_true_iff in Eo as [_ ->].
    destruct (ScanForReturnAddress _ _ _ _ _ _) as [[[[l v]|] s2]| |]; try done; rewrite bind_Ok; intros [= <- <- <- <-]; auto. }
  destruct (scan_better _ _ _ _ _ _ _) as [[[[d1 t1] off] s1]| |]; try done. rewrite bind_Ok. specialize (Hb _ _ _ _ eq_refl).
  destruct (if recovers then _ else Ok d1) as [d2| |]; try done. rewrite bind_Ok. intros [= <- <-].
  apply Hf; destruct Hb as [-> |[-> ?]]; auto; [|tauto]. intros [|Et]; [auto|destruct Ht; congruence].
Qed.

Lemma caller_by_program_trust (w : StackwalkerX86 C R) memory frames last info scan s f s' :
  caller_by_program w memory frames last info scan s = Ok (Some f, s') -> x86_trusted scan f.
Proof.
  unfold caller_by_program. destruct (adjust_raSearchStart _ _ _ _ _ _) as [[start s1]| |]; try done. rewrite bind_Ok. cbv beta iota zeta.
  destruct (run_program _ _ _) as [[[d assigned] ok]| |]; try done. rewrite bind_Ok. cbv beta iota zeta. destruct ok.
  - apply caller_by_dictionary_trust; auto. done.
  - destruct (scan_instead _ _ _ _ _ _ _) as [[[d1|] s2]| |] eqn:Es; try done. rewrite bind_Ok. cbv beta iota zeta.
    apply caller_by_dictionary_trust; auto. intros _. revert Es. unfold scan_instead. by destruct scan.
Qed.

Lemma caller_by_ebp_trust (w : StackwalkerX86 C R) memory frames last scan s f s' :
  x86_GetCallerByEBPAtBase w memory frames last scan s = Ok (Some f, s') -> x86_trusted scan f.
Proof.
  unfold x86_GetCallerByEBPAtBase. cbv zeta. destruct (read_or_null _ _ _ _) as [[[e b]|]| |]; try done; rewrite bind_Ok.
  - by intros [= <- _].
  - destruct scan; [|done]. destruct (ScanForReturnAddress _ _ _ _ _ _) as [[[[l v]|] s2]| |]; try done. rewrite bind_Ok.
    cbv beta iota zeta. destruct (restore_ebp_chain _ _ _); try done. rewrite bind_Ok. by intros [= <- _].
Qed.

Lemma caller_by_cfi_x86 (memory : R) last_frame info o f' :
  x86_GetCallerByCFIFrameInfo memory last_frame info = Ok (o, f') ->
  f' = set_cfi_frame_info last_frame info /\ forall f, o = Some f -> trust (cpu_base f) = FRAME_TRUST_CFI.
Proof.
  unfold x86_GetCallerByCFIFrameInfo. cbv zeta. destruct (FindCallerRegisters _ _ _ _ _ _) as [[c v]| |]; [|by intros [= <- <-]|done].
  dif; intros [= <- <-]; (split; [done|]); [done|]. by intros f [= <-].
Qed.

(** ** [GetCallerFrame] *)

(** No caller by STACK WIN records; the symbolizer after the attempt. *)
Inductive no_windows_caller (w : StackwalkerX86 C R) memory frames (f : StackFrameX86) scan s : StackFrameX86 -> Symbolizer M S -> Prop :=
| no_windows_info :
    SymbolizerFindWindowsFrameInfo (cpu_base (x86_frame f)) s = Ok None -> no_windows_caller w memory frames f scan s f s
| windows_info_fails info f' s' :
    SymbolizerFindWindowsFrameInfo (cpu_base (x86_frame f)) s = Ok (Some info) ->
    x86_GetCallerByWindowsFrameInfo w memory frames f info scan s = Ok (None, f', s') -> no_windows_caller w memory frames f scan s f' s'.

Inductive no_cfi_caller_x86 (memory : R) (f : StackFrameX86) s : StackFrameX86 -> Prop :=
| no_cfi_info : SymbolizerFindCFIFrameInfo (cpu_base (x86_frame f)) s = Ok None -> no_cfi_caller_x86 memory f s f
| cfi_info_fails info f' :
    SymbolizerFindCFIFrameInfo (cpu_base (x86_frame f)) s = Ok (Some info) ->
    x86_GetCallerByCFIFrameInfo memory f info = Ok (None, f') -> no_cfi_caller_x86 memory f s f'.

(** How a caller is found: the last frame, with the records stored in it, and the symbolizer. *)
Inductive x86_found_by (w : StackwalkerX86 C R) memory frames (f : StackFrameX86) scan s :
    CpuFrame x86_reg -> StackFrameX86 -> Symbolizer M S -> Prop :=
| x86_by_windows info g f' s' :
    SymbolizerFindWindowsFrameInfo (cpu_base (x86_frame f)) s = Ok (Some info) ->
    x86_GetCallerByWindowsFrameInfo w memory frames f info scan s = Ok (Some g, f', s') -> x86_found_by w memory frames f scan s g f' s'
| x86_by_cfi info g f1 f' s1 :
    no_windows_caller w memory frames f scan s f1 s1 -> SymbolizerFindCFIFrameInfo (cpu_base (x86_frame f1)) s1 = Ok (Some info) ->
    x86_GetCallerByCFIFrameInfo memory f1 info = Ok (Some g, f') -> x86_found_by w memory frames f scan s g f' s1
| x86_by_ebp g f1 f' s1 s' :
    no_windows_caller w memory frames f scan s f1 s1 -> no_cfi_caller_x86 memory f1 s1 f' ->
    x86_GetCallerByEBPAtBase w memory frames (x86_frame f') scan s1 = Ok (Some g, s') -> x86_found_by w memory frames f scan s g f' s'.

Lemma windows_frame (w : StackwalkerX86 C R) memory frames f info scan s o f' s' :
  x86_GetCallerByWindowsFrameInfo w memory frames f info scan s = Ok (o, f', s') -> f' = set_windows_frame_info f info.
Proof.
  unfold x86_GetCallerByWindowsFrameInfo. cbv zeta. dif; [by intros [= <- <- <-]|].
  destruct (caller_by_program _ _ _ _ _ _ _) as [[o1 s1]| |]; try done. rewrite bind_Ok. by intros [= <- <- <-].
Qed.

Lemma x86_found_frame w memory frames f scan s g f' s' :
  x86_found_by w memory frames f scan s g f' s' -> x86_frame f' = x86_frame f /\ x86_trusted scan g.
Proof.
  assert (Hnw: forall f1 s1, no_windows_caller w memory frames f scan s f1 s1 -> x86_frame f1 = x86_frame f).
  { intros f1 s1 [_|info f2 s2 _ Hf]; [done|]. apply windows_frame in Hf as ->. done. }
  intros [info g1 f1 s1 _ Hf|info g1 f1 f2 s1 Hn _ Hf|g1 f1 f2 s1 s2 Hn Hc Hf].
  - pose proof (windows_frame _ _ _ _ _ _ _ _ _ _ Hf) as ->. split; [done|]. revert Hf. unfold x86_GetCallerByWindowsFrameInfo.
    cbv zeta. dif; [done|]. destruct (caller_by_program _ _ _ _ _ _ _) as [[o s3]| |] eqn:Ep; try done. rewrite bind_Ok.
    intros [= -> _]. by eapply caller_by_program_trust.
  - apply caller_by_cfi_x86 in Hf as [-> Ht]. split; [by apply Hnw in Hn|]. unfold x86_trusted. by rewrite (Ht g1).
  - apply caller_by_ebp_trust in Hf. split; [|done]. apply Hnw in Hn. destruct Hc as [_|i f3 _ Hc]; [done|].
    by apply caller_by_cfi_x86 in Hc as [-> _].
Qed.

(** The frame for a caller that was found. *)
Definition x86_result (g : CpuFrame x86_reg) : StackFrameX86 := StackFrameX86_new (with_instruction g (u32 (context g eip - 1))).

Lemma x86_get_caller_spec (w : StackwalkerX86 C R) frames scan s s' r frames' :
  x86_GetCallerFrame w frames scan s = Ok (Some r, frames', s') <->
  exists memory f f' g, memory_ (x86_walker w) = Some memory /\ last frames = Some f /\
    x86_found_by w memory frames f scan s g f' s' /\ frames' = set_back frames f' /\ r = x86_result g /\
    TerminateWalk (context g eip) (context g esp) (context (x86_frame f) esp) (length frames =? 1)%nat = false.
Proof.
  unfold x86_GetCallerFrame. destruct (memory_ (x86_walker w)) as [memory|]; [|by split; [|intros (?&?&?&?&?&_)]].
  destruct (last frames) as [f|]; [|by split; [|intros (?&?&?&?&_&?&_)]].
  set (first := (length frames =? 1)%nat).
  assert (Hend: forall g f1 s1, (if TerminateWalk (context g eip) (context g esp) (context (x86_frame f1) esp) first
      then Ok (None, set_back frames f1, s1) else Ok (Some (x86_result g), set_back frames f1, s1)) = Ok (Some r, frames', s') <->
    s' = s1 /\ frames' = set_back frames f1 /\ r = x86_result g /\
    TerminateWalk (context g eip) (context g esp) (context (x86_frame f1) esp) first = false).
  { intros g f1 s1. destruct (TerminateWalk _ _ _ _) eqn:Et; split; try done.
    - by intros (_ & _ & _ & ?).
    - by intros [= <- <- <-].
    - by intros (-> & -> & -> & _). }
  split.
  - destruct (SymbolizerFindWindowsFrameInfo _ s) as [win| |] eqn:Ew; try done. rewrite bind_Ok.
    destruct (match win with Some i => _ | None => Ok (None, f, s) end) as [[[nf f1] s1]| |] eqn:Ewin; try done. rewrite bind_Ok. cbv beta iota.
    assert (Hno: nf = None -> no_windows_caller w memory frames f scan s f1 s1).
    { intros ->. destruct win as [i|]; [by apply (windows_info_fails _ _ _ _ _ _ i)|]. injection Ewin as <- <-. by constructor. }
    destruct (match nf with Some f0 => Ok (Some f0, f1) | None => _ end) as [[nf1 f2]| |] eqn:Ecfi; try done. rewrite bind_Ok. cbv beta iota.
    destruct (match nf1 with Some f0 => Ok (Some f0, s1) | None => _ end) as [[nf2 s2]| |] eqn:Eebp; try done. rewrite bind_Ok. cbv beta iota zeta.
    destruct nf2 as [g|]; [|done]. intros Hg. apply Hend in Hg as (-> & -> & -> & Ht).
    assert (Hf: x86_found_by w memory frames f scan s g f2 s2).
    { destruct nf1 as [g1|]; [injection Eebp as -> ->; destruct nf as [g0|]|].
      - injection Ecfi as -> ->. destruct win as [i|]; [|done]. by apply (x86_by_windows _ _ _ _ _ _ i).
      - specialize (Hno eq_refl). destruct (SymbolizerFindCFIFrameInfo _ s2) as [[i|]| |] eqn:Ei; try done. rewrite bind_Ok in Ecfi.
        by apply (x86_by_cfi _ _ _ _ _ _ i _ f1).
      - destruct nf as [g0|]; [done|]. specialize (Hno eq_refl). apply (x86_by_ebp _ _ _ _ _ _ _ f1 _ s1); [done| |done].
        destruct (SymbolizerFindCFIFrameInfo _ s1) as [[i|]| |] eqn:Ei; try done; rewrite bind_Ok in Ecfi.
        + by apply (cfi_info_fails _ _ _ i).
        + injection Ecfi as <-. by constructor. }
    exists memory, f, f2, g. destruct (x86_found_frame _ _ _ _ _ _ _ _ _ Hf) as [<- _]. by split_and!.
  - intros (m & f0 & f2 & g & [= <-] & [= <-] & Hg & Hfr & Hr & Ht).
    destruct (x86_found_frame _ _ _ _ _ _ _ _ _ Hg) as [Hx _]. rewrite <- Hx in Ht.
    assert (Hw: forall f1 s1, no_windows_caller w memory frames f scan s f1 s1 -> exists win,
      SymbolizerFindWindowsFrameInfo (cpu_base (x86_frame f)) s = Ok win /\
      match win with Some i => x86_GetCallerByWindowsFrameInfo w memory frames f i scan s | None => Ok (None, f, s) end = Ok (None, f1, s1)).
    { intros f1 s1 [Hi|i f3 s3 Hi Hf]; [by exists None|by exists (Some i)]. }
    destruct Hg as [i g f2 s2 Hi Hf|i g f1 f2 s1 Hn Hi Hf|g f1 f2 s1 s2 Hn Hc Hf].
    + rewrite Hi, bind_Ok, Hf, !bind_Ok. by apply Hend.
    + destruct (Hw _ _ Hn) as (win & -> & E). rewrite bind_Ok, E, bind_Ok. cbv beta iota. rewrite Hi, bind_Ok, Hf, !bind_Ok. by apply Hend.
    + destruct (Hw _ _ Hn) as (win & -> & E). rewrite bind_Ok, E, bind_Ok. cbv beta iota.
      destruct Hc as [Hi|i f3 Hi Hcf]; rewrite Hi, bind_Ok; [|rewrite Hcf]; rewrite bind_Ok, Hf, bind_Ok; by apply Hend.
Qed.

(** The frames it leaves: the last one may have new records. *)
Lemma x86_frames_left (w : StackwalkerX86 C R) frames scan s o frames' s' :
  x86_GetCallerFrame w frames scan s = Ok (o, frames', s') ->
  frames' = frames \/ exists f f', last frames = Some f /\ x86_frame f' = x86_frame f /\ frames' = set_back frames f'.
Proof.
  unfold x86_GetCallerFrame. destruct (memory_ (x86_walker w)) as [memory|]; [|intros [= <- <- <-]; by left].
  destruct (last frames) as [f|]; [|done].
  destruct (SymbolizerFindWindowsFrameInfo _ s) as [win| |]; try done. rewrite bind_Ok.
  destruct (match win with Some i => _ | None => Ok (None, f, s) end) as [[[nf f1] s1]| |] eqn:Ewin; try done. rewrite bind_Ok. cbv beta iota.
  assert (H1f: x86_frame f1 = x86_frame f).
  { destruct win as [i|]; [by apply windows_frame in Ewin as ->|by injection Ewin as _ <- _]. }
  destruct (match nf with Some f0 => Ok (Some f0, f1) | None => _ end) as [[nf1 f2]| |] eqn:Ecfi; try done. rewrite bind_Ok. cbv beta iota.
  assert (H2f: x86_frame f2 = x86_frame f1).
  { destruct nf; [by injection Ecfi as _ <-|]. destruct (SymbolizerFindCFIFrameInfo _ s1) as [[i|]| |]; try done; rewrite bind_Ok in Ecfi.
    - by apply caller_by_cfi_x86 in Ecfi as [-> _].
    - by injection Ecfi as _ <-. }
  destruct (match nf1 with Some f0 => Ok (Some f0, s1) | None => _ end) as [[nf2 s2]| |]; try done. rewrite bind_Ok. cbv beta iota zeta.
  intros Hend. right. exists f, f2. split; [done|]. split; [congruence|].
  destruct nf2 as [g|]; [destruct (TerminateWalk _ _ _ _)|]; by injection Hend as _ <- _.
Qed.

Lemma set_back_snoc frames f g : set_back (frames ++ [f]) g = frames ++ [g].
Proof.
  unfold set_back. rewrite length_app. cbn [length]. replace (length frames + 1 - 1)%nat with (length frames + 0)%nat by lia.
  by rewrite insert_app_r.
Qed.

#[export] Instance x86_walker_laws : @CpuWalkerLaws (StackwalkerX86 C R) StackFrameX86 (Symbolizer M S) x86_cpu_walker
  (λ f, context (x86_frame f) esp) (λ f, context (x86_frame f) eip).
Proof.
  constructor; try done.
  - intros w f (f0 & (c & _ & ->)%fmap_Some & ->)%fmap_Some. done.
  - intros w frames scan st o frames' st' [-> |(f & f' & Hl & Hf & ->)]%x86_frames_left; [apply same_frames_refl|].
    apply last_Some in Hl as [pre ->]. rewrite set_back_snoc. apply Forall2_app; [apply same_frames_refl|].
    constructor; [|done]. unfold same_frame. cbn [base_frame x86_cpu_walker]. by rewrite Hf.
  - intros w stack f scan st g frames' st' (m & f0 & f1 & g0 & _ & Hl & _ & _ & -> & Ht)%x86_get_caller_spec.
    rewrite last_snoc in Hl. injection Hl as <-. cbn. by destruct stack as [|? [|]].
  - intros w stack st g frames' st' (m & f0 & f1 & g0 & _ & _ & Hf & _ & -> & _)%x86_get_caller_spec.
    apply x86_found_frame in Hf as [_ Ht]. unfold x86_trusted in Ht. cbn. by destruct (trust (cpu_base g0)).
Qed.

(** ** The end of a walk *)

(** What is kept of the symbolizer, and what an undefined step shows. *)
Context (Inv : Symbolizer M S -> Prop) (blame : Prop).

(** Undefined runs of the programs that the symbolizer gives are to blame. *)
Definition programs_blamed (memory : option R) : Prop :=
  forall s frame info last m d, Inv s -> SymbolizerFindWindowsFrameInfo frame s = Ok (Some info) -> SymbolFile.valid info = VALID_ALL -> memory = Some m ->
    (Evaluate 32 (windows_program last info).1 (Some ∅) (PostfixEvaluator_new (Some d) (Some m))).1 = Undefined -> blame.

Abbreviation kept w := (symbols_kept (modules_list (x86_walker w)) (unloaded_modules_ (x86_walker w)) Inv blame).

(** Reads of words: they are defined, and give words. *)
Lemma read32 (memory : R) a : all_readable valid memory -> fits 32 a ->
  match GetMemoryAtAddress 4 memory a with Ok v => fits 32 v | Fail => True | Undefined => False end.
Proof.
  intros Hm Ha. destruct (GetMemoryAtAddress 4 memory a) as [v| |] eqn:E; [|done|].
  - apply (read_fits valid 4 memory a v); [by left|apply all_readable_readable; [by left|done]|done|done].
  - apply (ar_defined _ _ Hm 4) in E; [done|by left|unfold fits in *; lia].
Qed.

Lemma search_ebp_sound (memory : R) location_end fuel : forall location,
  all_readable valid memory -> fits 32 location ->
  Z.min (location + 4) (GetBase memory + GetSize memory) - GetBase memory < 4 * Z.of_nat fuel \/
    (2 ^ 32 - 4 <= location /\ exists a v, 0 <= a < 4 /\ GetMemoryAtAddress 4 memory a = Ok v) ->
  (0 < fuel)%nat ->
  sound False (λ o, forall v, o = Some v -> fits 32 v) (search_ebp fuel memory location location_end).
Proof.
  induction fuel as [|fuel IH]; intros location Hm Hloc Hfuel Hpos; [lia|]. clear Hpos. cbn [search_ebp]. dif; [|done].
  pose proof (read32 memory location Hm Hloc) as Hr. destruct (GetMemoryAtAddress 4 memory location) as [v| |] eqn:Ev; [|done|done].
  pose proof (read32 memory v Hm Hr) as Hr2. destruct (GetMemoryAtAddress 4 memory v) as [v2| |]; [by intros ? [= <-]| |done].
  assert (Hrd: readable valid 4 memory) by (by apply all_readable_readable; [left|]).
  destruct Hfuel as [Hfuel|(Hend & a & x & Ha & Hx)].
  2: { pose proof (reads_close valid 4 memory location a v x) as Hcl. change (8 * Z.of_nat 4) with 32 in Hcl.
       specialize (Hcl ltac:(by left) Hrd Hloc ltac:(unfold fits; lia) Ev Hx). lia. }
  assert (Hb: GetBase memory <= location /\ location + Z.of_nat 4 <= GetBase memory + GetSize memory).
  { apply (read_bounds 4 memory location v); [unfold sizes_ok; lia|unfold fits in *; lia|apply Hm|done]. }
  apply IH; [done|apply wrap_fits; lia| |lia]. unfold fits in Hloc. destruct (decide (4 <= location)) as [Hge|Hlt].
  - left. unfold u32. rewrite wrap_small by (unfold fits; lia). lia.
  - right. pose proof (wrap_sub_cases 32 location 4 ltac:(lia) ltac:(unfold fits; lia) ltac:(unfold fits; lia)) as Hw. unfold u32.
    split; [lia|]. exists location, v. split; [lia|done].
Qed.

Lemma recover_ebp_sound (memory : R) last info params start offset t d :
  all_readable valid memory -> dict_ok 32 d -> sound False (dict_ok 32) (recover_ebp memory last info params start offset t d).
Proof.
  intros Hm Hd. unfold recover_ebp. cbv zeta.
  assert (Hat: fits 32 (at_name d (lit "$ebp"))).
  { unfold at_name. destruct (d !! lit "$ebp") as [v|] eqn:E; [by eapply Hd|unfold fits; simpl; lia]. }
  apply (sound_bind _ (λ _, True)).
  { pose proof (read32 memory _ Hm Hat) as Hr. destruct (match t with FRAME_TRUST_CFI => false | _ => _ end); [done|].
    by destruct (GetMemoryAtAddress 4 memory _). }
  intros readable _. destruct readable; [done|]. eapply sound_bind.
  { apply search_ebp_sound; [done|apply wrap_fits; lia| |unfold search_fuel; lia]. left. unfold search_fuel.
    pose proof (Z.div_mod (GetSize memory) 4 ltac:(lia)). pose proof (Z.mod_pos_bound (GetSize memory) 4 ltac:(lia)). lia. }
  intros o Ho. destruct o as [v|]; [|done]. apply dict_ok_insert; auto.
Qed.

Lemma run_program_sound (memory : R) program d :
  valid memory -> dict_ok 32 d ->
  (forall d, (Evaluate 32 program (Some ∅) (PostfixEvaluator_new (Some d) (Some memory))).1 = Undefined -> blame) ->
  sound blame (λ r, dict_ok 32 r.1.1) (run_program memory program d).
Proof.
  intros Hm Hd Hu. unfold run_program.
  assert (He: eval_ok (valid := valid) 32 (PostfixEvaluator_new (Some d) (Some memory))) by (constructor; simpl; by intros ? [= <-]).
  pose proof (Evaluate_fits 32 ltac:(by left) program (Some ∅) _ He) as Hev.
  destruct (Evaluate 32 program (Some ∅) (PostfixEvaluator_new (Some d) (Some memory))) as [r e] eqn:E. cbn [snd] in Hev.
  assert (Hdict: dict_ok 32 (default ∅ (dictionary_ e))).
  { destruct (dictionary_ e) as [d'|] eqn:Ed; [by apply (eo_dict _ _ Hev)|]. intros ? ? Hx. cbn in Hx. by rewrite lookup_empty in Hx. }
  destruct r; [done|done|]. apply (Hu d). by rewrite E.
Qed.

Lemma program_dictionary_ok last info params start :
  context_words 32 last -> fits 32 params -> fits 32 start -> dict_ok 32 (program_dictionary last info params start).
Proof.
  intros Hl Hp Hs. unfold program_dictionary, windows_dictionary.
  repeat (apply dict_ok_insert; [|solve [done | apply wrap_fits; lia]]).
  assert (Hd: dict_ok 32 (<[lit "$esp" := context last esp]> (<[lit "$ebp" := context last ebp]> ∅))).
  { apply dict_ok_insert; [apply dict_ok_insert|]; [|apply Hl..]. intros ? ?. by rewrite lookup_empty. }
  destruct (negb _); [apply dict_ok_insert; [done|apply Hl]|done].
Qed.

Lemma callee_parameter_size_fits frames : fits 32 (callee_parameter_size frames).
Proof.
  assert (H032: fits 32 0) by (unfold fits; lia). unfold callee_parameter_size. destruct (2 <=? length frames)%nat; [|done].
  destruct (frames !! _) as [f|]; [|done]. destruct (windows_frame_info f) as [i|]; [|done].
  destruct (negb _); [apply wrap_fits; lia|done].
Qed.

Lemma at_name_fits d name : dict_ok 32 d -> fits 32 (at_name d name).
Proof. intros Hd. unfold at_name. destruct (d !! name) as [v|] eqn:E; [by eapply Hd|unfold fits; simpl; lia]. Qed.

Lemma program_frame_words t last assigned d : context_words 32 last -> dict_ok 32 d -> context_words 32 (program_frame t last assigned d).
Proof.
  intros Hl Hd. assert (Hr: forall name r flag f, context_words 32 f -> context_words 32 (restore_register assigned d name r flag f)).
  { intros name r flag f Hf. unfold restore_register. destruct (assigned !! name); [|done]. words. by apply at_name_fits. }
  unfold program_frame. repeat apply Hr. unfold x86_caller. words; by apply at_name_fits.
Qed.

(** Scanning and going on, for words of 4 bytes. *)
Lemma sound_scan32 {A} (w : StackwalkerX86 C R) (memory : R) start ctx s (P : A -> Prop) k :
  kept w -> all_readable valid memory -> Inv s -> fits 32 start ->
  (forall s', Inv s' -> sound blame P (k (None, s'))) ->
  (forall l ip s', Inv s' -> fits 32 l -> fits 32 ip -> sound blame P (k (Some (l, ip), s'))) ->
  sound blame P (ScanForReturnAddress 4 (x86_walker w) memory start ctx s ≫= k).
Proof.
  intros Hk Hm Hs Hst HN HS. apply (sound_scan loaded valid Inv); try done; [by left|by apply all_readable_readable; [left|]|].
  intros j ip s' Hs' _ Hl Hip _. by apply HS.
Qed.

Lemma adjust_sound (w : StackwalkerX86 C R) (memory : R) last info start s :
  kept w -> all_readable valid memory -> Inv s -> fits 32 start ->
  sound blame (λ r, fits 32 r.1 /\ Inv r.2) (adjust_raSearchStart w memory last info start s).
Proof.
  intros Hk Hm Hs Hst. assert (Hrd: readable valid 4 memory) by (by apply all_readable_readable; [left|]).
  unfold adjust_raSearchStart. apply (sound_scan_words loaded valid Inv); try done; [by left|].
  intros j ip s' Hs' _ Hl Hip _. cbv zeta. destruct (_ && _); [|done].
  assert (H4: fits 32 (u32 (start + Z.of_nat 4 * j + 4))) by (apply wrap_fits; lia).
  apply (sound_scan_words loaded valid Inv); try done; by left.
Qed.

Lemma scan_better_sound (w : StackwalkerX86 C R) (memory : R) ctx scan d t s :
  kept w -> all_readable valid memory -> Inv s -> dict_ok 32 d ->
  sound blame (λ r, dict_ok 32 r.1.1.1 /\ Inv r.2) (scan_better w memory ctx scan d t s).
Proof.
  intros Hk Hm Hs Hd. unfold scan_better. cbv zeta. destruct (_ && scan); [|done].
  apply sound_scan32; try done; [apply wrap_fits; lia|]. intros l ip s' Hs' Hl Hip. split; [|done].
  apply dict_ok_insert; [by apply dict_ok_insert|apply wrap_fits; lia].
Qed.

(** A caller that was found, or none. *)
Abbreviation found_words := (λ r, Inv r.2 /\ caller_words 32 r.1).

Lemma caller_by_dictionary_sound (w : StackwalkerX86 C R) (memory : R) ctx last info params start recovers scan assigned d t s :
  kept w -> all_readable valid memory -> Inv s -> context_words 32 last -> dict_ok 32 d ->
  sound blame found_words
    (caller_by_dictionary w memory ctx last info params start recovers scan assigned d t s).
Proof.
  intros Hk Hm Hs Hl Hd. unfold caller_by_dictionary.
  assert (Hend: forall d t s, dict_ok 32 d -> Inv s ->
    sound blame found_words (Ok (Some (program_frame t last assigned d), s))).
  { intros d' t' s' Hd' Hs'. split; [done|]. intros g [= <-]. by apply program_frame_words. }
  destruct (_ && _); [by apply Hend|]. eapply sound_bind; [by apply scan_better_sound|].
  intros [[[d1 t1] off] s1] [Hd1 Hs1]. cbn [fst snd] in *. eapply (sound_bind _ (dict_ok 32)).
  { destruct recovers; [|done]. eapply sound_weaken; [|..|by apply recover_ebp_sound]; done. }
  intros d2 Hd2. by apply Hend.
Qed.

Lemma caller_by_program_sound (w : StackwalkerX86 C R) (memory : R) frames last info scan s :
  kept w -> all_readable valid memory -> Inv s -> context_words 32 last ->
  (forall d, (Evaluate 32 (windows_program last info).1 (Some ∅) (PostfixEvaluator_new (Some d) (Some memory))).1 = Undefined -> blame) ->
  sound blame found_words (caller_by_program w memory frames last info scan s).
Proof.
  intros Hk Hm Hs Hl Hu. unfold caller_by_program. cbv zeta.
  eapply sound_bind; [apply adjust_sound; [done|done|done|apply wrap_fits; lia]|]. intros [start s1] [Hst Hs1]. cbn [fst snd] in *.
  set (start' := aligned_raSearchStart _ _ _).
  assert (Hst': fits 32 start') by (unfold start', aligned_raSearchStart; destruct (_ && _); [apply wrap_fits; lia|done]).
  eapply sound_bind; [apply run_program_sound; [apply Hm|by apply program_dictionary_ok, Hst'; [|apply callee_parameter_size_fits]|exact Hu]|].
  intros [[d assigned] ok] Hd. cbn [fst snd] in *. destruct ok; [by apply caller_by_dictionary_sound|].
  unfold scan_instead. destruct scan; [|by split].
  eapply (sound_bind _ (λ r, Inv r.2 /\ forall d, r.1 = Some d -> dict_ok 32 d)).
  { apply sound_scan32; try done. intros l ip s' Hs' Hlo Hip. split; [done|]. intros d' [= <-].
    apply dict_ok_insert; [by apply dict_ok_insert|apply wrap_fits; lia]. }
  intros [[d1|] s2] [Hs2 Hd1]; cbn [fst snd] in *; [|by split]. apply caller_by_dictionary_sound; auto.
Qed.

Lemma caller_by_ebp_sound (w : StackwalkerX86 C R) (memory : R) frames last scan s :
  kept w -> all_readable valid memory -> Inv s -> context_words 32 last ->
  sound blame found_words (x86_GetCallerByEBPAtBase w memory frames last scan s).
Proof.
  intros Hk Hm Hs Hl. assert (Hrd: readable valid 4 memory) by (by apply all_readable_readable; [left|]).
  unfold x86_GetCallerByEBPAtBase. cbv zeta.
  eapply (sound_bind _ (λ o, forall e b, o = Some (e, b) -> fits 32 e /\ fits 32 b)).
  { apply (sound_read valid); [by left|done|apply wrap_fits; lia|done|]. intros e He _.
    apply (sound_read valid); [by left|done|apply Hl|done|]. intros b Hb _ ? ? [= <- <-]. done. }
  intros [[e b]|] Heb.
  - destruct (Heb _ _ eq_refl). split; [done|]. intros g [= <-]. unfold x86_caller. words.
  - destruct scan; [|by split]. apply sound_scan32; try done. intros l ip s' Hs' Hlo Hip. cbv zeta.
    eapply (sound_bind _ (fits 32)).
    { unfold restore_ebp_chain. pose proof (read32 memory (u32 (u32 (l + 4) - 8)) Hm ltac:(apply wrap_fits; lia)) as Hr.
      destruct (GetMemoryAtAddress 4 memory _); [|apply Hl|done]. simpl. by destruct (_ || _). }
    intros v Hv. split; [done|]. intros g [= <-]. unfold x86_caller. words.
Qed.

Lemma x86_sound (w : StackwalkerX86 C R) :
  kept_by Inv blame 32 (x86_walker w) -> programs_blamed (memory_ (x86_walker w)) ->
  (forall memory, memory_ (x86_walker w) = Some memory -> all_readable valid memory) ->
  @callers_found M S Inv blame (StackwalkerX86 C R) StackFrameX86 x86_cpu_walker (λ f, context_words 32 (x86_frame f)) w.
Proof.
  intros [Hk Hru] Hpr Hmem frames scan s Hne Hok Hs. cbn [GetCallerFrame x86_cpu_walker].
  assert (Hs3: sound blame (λ r, Inv r.2 /\ Forall (λ f, context_words 32 (x86_frame f)) r.1.2 /\
    length r.1.2 = length frames /\ forall f, r.1.1 = Some f -> context_words 32 (x86_frame f)) (x86_GetCallerFrame w frames scan s)).
  2: { destruct (x86_GetCallerFrame w frames scan s) as [[[o frames'] s']| |]; [destruct Hs3 as (? & ? & ? & ?); by split_and!|done|exact Hs3]. }
  unfold x86_GetCallerFrame. destruct (memory_ (x86_walker w)) as [memory|] eqn:Em; [|by split_and!]. specialize (Hmem memory eq_refl).
  destruct (last frames) as [f|] eqn:El; [|by apply last_None in El].
  assert (Hf: context_words 32 (x86_frame f)). { apply last_Some in El as [pre ->]. apply Forall_app in Hok as [_ Hok]. by inversion Hok. }
  eapply sound_bind; [by apply (sound_windows_info loaded), (sk_ok _ _ _ _ Hk)|]. intros win Hwin.
  eapply (sound_bind _ (λ r, Inv r.2 /\ caller_words 32 r.1.1 /\ x86_frame r.1.2 = x86_frame f)).
  { destruct win as [info|]; [|by split_and!]. unfold x86_GetCallerByWindowsFrameInfo. cbv zeta. destruct (negb _) eqn:Ev; [by split_and!|]. breflect.
    eapply sound_bind; [apply caller_by_program_sound; try done; intros d; by eapply Hpr|]. intros [o s1] [Hs1 Ho]. by split_and!. }
  intros [[nf f1] s1] (Hs1 & Hnf & Hf1). cbn [fst snd] in *.
  eapply (sound_bind _ (λ r, caller_words 32 r.1 /\ x86_frame r.2 = x86_frame f)).
  { destruct nf as [g|]; [by split|]. eapply sound_bind; [by apply (sound_cfi_info loaded), (sk_ok _ _ _ _ Hk)|]. intros [info|] Hinfo; [|by split].
    unfold x86_GetCallerByCFIFrameInfo. cbv zeta. cbn [x86_frame set_cfi_frame_info]. rewrite Hf1.
    pose proof (registers_words valid 32 X86.cfi_register_map_ memory info (context (x86_frame f)) (context_validity (x86_frame f))
      ltac:(by left) (ar_valid _ _ Hmem) Hf) as Hr.
    destruct (FindCallerRegisters _ _ _ _ _ _) as [[c v]| |]; [|by split|destruct Hr as [regs Hr]; by eapply Hru].
    destruct (negb _); [by split|]. split; [|done]. by intros g [= <-]. }
  intros [nf1 f2] [Hnf1 Hf2]. cbn [fst snd] in *. eapply (sound_bind _ found_words).
  { destruct nf1 as [g|]; [by split|]. apply caller_by_ebp_sound; [done|done|done|]. by rewrite Hf2. }
  intros [nf2 s2] [Hs2 Hg]. cbn [fst snd] in *. cbv zeta.
  assert (Hst: Forall (λ f, context_words 32 (x86_frame f)) (set_back frames f2) /\ length (set_back frames f2) = length frames).
  { unfold set_back. split; [|apply length_insert]. apply Forall_insert; [done|]. by rewrite Hf2. }
  destruct Hst as [Hst1 Hst2]. destruct nf2 as [g|]; [|by split_and!]. destruct (TerminateWalk _ _ _ _); [by split_and!|].
  split; [done|]. split; [done|]. split; [done|]. intros f' Hf'. cbn [fst] in Hf'. injection Hf' as <-. exact (Hg g eq_refl).
Qed.
End x86_proofs.

(** ** The programs of records without a program string *)

Lemma glued_refl ts : glued ts ts.
Proof. induction ts; by constructor. Qed.

(** The assignments that they denote: the return address is the word at [.raSearchStart],
    the stack pointer is the word above; a function that uses %ebp for its own purposes
    has saved it at the top of its saved registers, another keeps it. *)
Definition builtin_statements (last : CpuFrame x86_reg) (info : WindowsFrameInfo) : list (cstring * expr) :=
  let saved := Bin BINARY_OP_ADD (Bin BINARY_OP_ADD (Var (lit "$esp")) (Var (lit ".cbCalleeParams"))) (Var (lit ".cbSavedRegs")) in
  let ebx_valid := negb (Z.land (context_validity last) X86.CONTEXT_VALID_EBX =? 0) in
  [(lit "$eip", Deref (Var (lit ".raSearchStart")))] ++
  (if allocates_base_pointer info then [(lit "$ebp", Deref (Bin BINARY_OP_SUBTRACT saved (Lit 8)))] else []) ++
  [(lit "$esp", Bin BINARY_OP_ADD (Var (lit ".raSearchStart")) (Lit 4))] ++
  (if negb (allocates_base_pointer info) && ebx_valid then [(lit "$ebx", Var (lit "$ebx"))] else []).

Lemma builtin_text last info :
  program_string info = [] -> (windows_program last info).1 = join (program (builtin_statements last info)).
Proof.
  intros Hp. unfold windows_program, builtin_statements. rewrite Hp. destruct (allocates_base_pointer info); [by vm_compute|].
  destruct (negb _); by vm_compute.
Qed.

Lemma builtin_wf last info : Forall (wf_statement 32) (builtin_statements last info).
Proof.
  unfold builtin_statements. assert (H8: fits 32 8 /\ fits 32 4) by (unfold fits; lia). destruct H8 as [H8 H4].
  assert (Hs: forall n e, is_name 32 n = true -> starts_with (lit "$") n = true -> wf_expr 32 e -> wf_statement 32 (n, e)) by done.
  repeat (apply Forall_app_2; [|]).
  - constructor; [|done]. by apply Hs.
  - destruct (allocates_base_pointer info); [|done]. constructor; [|done]. by apply Hs.
  - constructor; [|done]. by apply Hs.
  - destruct (_ && _); [|done]. constructor; [|done]. by apply Hs.
Qed.

Section builtin.
Context {R : Type} `{MemoryRegion R} (valid : R -> Prop) `{!MemoryRegionLaws R valid}.

Lemma run_program_exec (memory : R) ss d :
  valid memory -> dict_ok 32 d -> Forall (wf_statement 32) ss ->
  match exec 32 (Some memory) ss d with
  | Ok d' =>
      let assigned := foldl (λ a n, <[n := true]> a) (∅ : gmap cstring bool) ss.*1 in
      run_program memory (join (program ss)) d =
        Ok (d', assigned, match assigned !! lit "$eip" with Some _ => true | None => false end &&
                          match assigned !! lit "$esp" with Some _ => true | None => false end)
  | Fail => exists d' assigned, run_program memory (join (program ss)) d = Ok (d', assigned, false)
  | Undefined => run_program memory (join (program ss)) d = Undefined
  end.
Proof.
  intros Hm Hd Hss. unfold run_program.
  pose proof (Evaluate_program 32 d (Some memory) ss (program ss) (Some ∅) (PostfixEvaluator_new (Some d) (Some memory))
    ltac:(by left) Hd ltac:(by intros m [= <-]) Hss (glued_refl _) eq_refl eq_refl eq_refl) as He.
  assert (Hfold: forall (a : gmap cstring bool) ns,
    foldl (λ a n, <[n := true]> <$> a) (Some a) ns = Some (foldl (λ (a : gmap cstring bool) n, <[n := true]> a) a ns)).
  { intros a ns. revert a. induction ns as [|n ns IH]; intros a; [done|]. cbn [foldl]. exact (IH _). }
  destruct (exec 32 (Some memory) ss d) as [d'| |].
  - rewrite He. cbn [assigned_ dictionary_ default]. by rewrite Hfold.
  - destruct He as [He _]. destruct (Evaluate 32 _ _ _) as [r e]. cbn [fst] in He. subst r. by eexists _, _.
  - destruct (Evaluate 32 _ _ _) as [r e]. cbn [fst] in He. by subst r.
Qed.

(** The value of an expression, from those of its parts. *)
Lemma value_var (r : option R) d x v : d !! x = Some v -> value_of 32 d r (Var x) = Ok v.
Proof. intros E. unfold value_of. cbn. by rewrite E. Qed.

Lemma value_lit (r : option R) d v : value_of 32 d r (Lit v) = Ok v.
Proof. done. Qed.

Lemma value_bin (r : option R) d op e1 e2 v1 v2 v :
  value_of 32 d r e1 = Ok v1 -> value_of 32 d r e2 = Ok v2 -> apply_binary 32 op v1 v2 = Ok v -> value_of 32 d r (Bin op e1 e2) = Ok v.
Proof.
  unfold value_of. cbn [denote]. destruct (denote 32 d r e1) as [x| |]; try done. destruct (denote 32 d r e2) as [y| |]; try done.
  rewrite !bind_Ok. intros E1 E2 E. rewrite E2, bind_Ok, E1, bind_Ok, E. done.
Qed.

Lemma value_deref (memory : R) d e a v :
  value_of 32 d (Some memory) e = Ok a -> GetMemoryAtAddress 4 memory a = Ok v -> value_of 32 d (Some memory) (Deref e) = Ok v.
Proof.
  unfold value_of. cbn [denote]. destruct (denote 32 d (Some memory) e) as [x| |]; try done. rewrite !bind_Ok. intros -> E.
  rewrite bind_Ok. change (value_bytes 32) with 4%nat. by rewrite E.
Qed.

Lemma exec_cons (r : option R) n e ss d v :
  value_of 32 d r e = Ok v -> exec 32 r ((n, e) :: ss) d = exec 32 r ss (<[n := v]> d).
Proof. intros E. cbn [exec]. by rewrite E. Qed.

(** Looking a name up below assignments to others. *)
Ltac dict_lookup := repeat (rewrite lookup_insert_ne by done); first [apply lookup_insert_eq | done].

Lemma program_dictionary_lookup last info params start :
  let d := program_dictionary last info params start in
  d !! lit ".raSearchStart" = Some start /\ d !! lit "$esp" = Some (context last esp) /\
  d !! lit "$ebp" = Some (context last ebp) /\ d !! lit ".cbCalleeParams" = Some params /\
  d !! lit ".cbSavedRegs" = Some (u32 (saved_register_size info)) /\
  (negb (Z.land (context_validity last) X86.CONTEXT_VALID_EBX =? 0) = true -> d !! lit "$ebx" = Some (context last ebx)).
Proof.
  cbv zeta. unfold program_dictionary, windows_dictionary.
  destruct (negb (Z.land (context_validity last) X86.CONTEXT_VALID_EBX =? 0)); do 5 (split; [dict_lookup|]); intros ?; [dict_lookup|done].
Qed.

(** The words that the built-in program reads. *)
Definition builtin_reads (memory : R) (last : CpuFrame x86_reg) (info : WindowsFrameInfo) (params start caller_eip caller_ebp : Z) : Prop :=
  GetMemoryAtAddress 4 memory start = Ok caller_eip /\
  if allocates_base_pointer info
  then GetMemoryAtAddress 4 memory (u32 (u32 (u32 (context last esp + params) + u32 (saved_register_size info)) - 8)) = Ok caller_ebp
  else caller_ebp = context last ebp.

Lemma builtin_program_spec (memory : R) last info params start caller_eip caller_ebp :
  valid memory -> context_words 32 last -> fits 32 params -> fits 32 start -> program_string info = [] ->
  builtin_reads memory last info params start caller_eip caller_ebp ->
  exists d assigned,
    run_program memory (windows_program last info).1 (program_dictionary last info params start) = Ok (d, assigned, true) /\
    at_name d (lit "$eip") = caller_eip /\ at_name d (lit "$esp") = u32 (start + 4) /\ at_name d (lit "$ebp") = caller_ebp /\
    assigned !! lit "$esi" = None /\ assigned !! lit "$edi" = None /\
    if negb (allocates_base_pointer info) && negb (Z.land (context_validity last) X86.CONTEXT_VALID_EBX =? 0)
    then assigned !! lit "$ebx" = Some true /\ at_name d (lit "$ebx") = context last ebx else assigned !! lit "$ebx" = None.
Proof.
  intros Hm Hl Hp Hs Htext [Hip Hbp]. rewrite builtin_text by done.
  pose proof (program_dictionary_ok last info params start Hl Hp Hs) as Hd.
  destruct (program_dictionary_lookup last info params start) as (L1 & L2 & L3 & L4 & L5 & L6).
  set (d := program_dictionary last info params start) in *.
  pose proof (run_program_exec memory (builtin_statements last info) d Hm Hd (builtin_wf last info)) as Hrun.
  unfold builtin_statements in *. set (ebx_valid := negb (Z.land (context_validity last) X86.CONTEXT_VALID_EBX =? 0)) in *.
  assert (Hip': value_of 32 d (Some memory) (Deref (Var (lit ".raSearchStart"))) = Ok caller_eip) by (by eapply value_deref; [apply value_var|]).
  assert (Hsp': forall dd, dd !! lit ".raSearchStart" = Some start ->
    value_of 32 dd (Some memory) (Bin BINARY_OP_ADD (Var (lit ".raSearchStart")) (Lit 4)) = Ok (u32 (start + 4))).
  { intros dd E. eapply value_bin; [by apply value_var|apply value_lit|done]. }
  destruct (allocates_base_pointer info); [|destruct ebx_valid eqn:Eb]; cbn [negb andb app] in *.
  - assert (Hbp': value_of 32 (<[lit "$eip" := caller_eip]> d) (Some memory)
      (Deref (Bin BINARY_OP_SUBTRACT (Bin BINARY_OP_ADD (Bin BINARY_OP_ADD (Var (lit "$esp")) (Var (lit ".cbCalleeParams")))
        (Var (lit ".cbSavedRegs"))) (Lit 8))) = Ok caller_ebp).
    { eapply value_deref; [|exact Hbp]. eapply value_bin; [eapply value_bin; [eapply value_bin|..]|apply value_lit|]; try done;
        apply value_var; dict_lookup. }
    rewrite (exec_cons _ _ _ _ _ _ Hip'), (exec_cons _ _ _ _ _ _ Hbp'), (exec_cons _ _ _ _ _ (u32 (start + 4))) in Hrun by (apply Hsp'; dict_lookup).
    cbn [exec] in Hrun. cbv zeta in Hrun. eexists _, _. split; [exact Hrun|]. unfold at_name.
    split; [by rewrite !lookup_insert_ne, lookup_insert_eq by done|]. split; [by rewrite lookup_insert_eq|].
    split; [by rewrite lookup_insert_ne, lookup_insert_eq by done|]. by vm_compute.
  - rewrite (exec_cons _ _ _ _ _ _ Hip'), (exec_cons _ _ _ _ _ (u32 (start + 4))) in Hrun by (apply Hsp'; dict_lookup).
    rewrite (exec_cons _ _ _ _ _ (context last ebx)) in Hrun by (apply value_var; repeat (rewrite lookup_insert_ne by done); by apply L6).
    cbn [exec] in Hrun. cbv zeta in Hrun. eexists _, _. split; [exact Hrun|]. unfold at_name.
    split; [by rewrite !lookup_insert_ne, lookup_insert_eq by done|]. split; [by rewrite lookup_insert_ne, lookup_insert_eq by done|].
    split; [by rewrite !lookup_insert_ne, L3 by done|]. split; [by vm_compute|]. split; [by vm_compute|]. split; [by vm_compute|].
    by rewrite lookup_insert_eq.
  - rewrite (exec_cons _ _ _ _ _ _ Hip'), (exec_cons _ _ _ _ _ (u32 (start + 4))) in Hrun by (apply Hsp'; dict_lookup).
    cbn [exec] in Hrun. cbv zeta in Hrun. eexists _, _. split; [exact Hrun|]. unfold at_name.
    split; [by rewrite !lookup_insert_ne, lookup_insert_eq by done|]. split; [by rewrite lookup_insert_eq|].
    split; [by rewrite !lookup_insert_ne, L3 by done|]. by vm_compute.
Qed.
End builtin.

(** ** A record without a program string *)

Section frame_data.
Context {M : Type} `{SymbolModule M} {S : Type} `{SymbolSupplier S} {C : Type} `{CodeModules C}.
Context {R : Type} `{MemoryRegion R} (valid : R -> Prop) `{!MemoryRegionLaws R valid}.
Implicit Types (s : Symbolizer M S).

(** The return address is in a module, if there are modules to look at. *)
Definition in_modules (w : StackwalkerX86 C R) (address : Z) : Prop :=
  match modules_list (x86_walker w) with Some ms => is_Some (GetModuleForAddress ms address) | None => True end.

(** The frame of the caller: the other registers are those of the callee. *)
Definition frame_data_caller (last : CpuFrame x86_reg) (info : WindowsFrameInfo) (caller_eip caller_esp caller_ebp : Z)
    (g : CpuFrame x86_reg) : Prop :=
  trust (cpu_base g) = FRAME_TRUST_CFI /\ context g eip = caller_eip /\ context g esp = caller_esp /\ context g ebp = caller_ebp /\
  (forall r, r <> eip -> r <> esp -> r <> ebp -> context g r = context last r) /\
  context_validity g = Z.lor (Z.lor (Z.lor X86.CONTEXT_VALID_EIP X86.CONTEXT_VALID_ESP) X86.CONTEXT_VALID_EBP)
    (if negb (allocates_base_pointer info) && negb (Z.land (context_validity last) X86.CONTEXT_VALID_EBX =? 0)
     then X86.CONTEXT_VALID_EBX else 0).

Lemma no_alignment last info start : program_string info = [] -> aligned_raSearchStart last (windows_program last info).1 start = start.
Proof.
  intros Hp. unfold aligned_raSearchStart, windows_program. rewrite Hp.
  replace (existsb _ _) with false; [by rewrite andb_false_r|].
  destruct (allocates_base_pointer info); [by vm_compute|]. destruct (negb (Z.land (context_validity last) _ =? 0)); by vm_compute.
Qed.

Lemma frame_data_spec (w : StackwalkerX86 C R) (memory : R) frames f info scan s s1 start caller_eip caller_ebp :
  let last := x86_frame f in
  let params := callee_parameter_size frames in
  valid memory -> context_words 32 last -> SymbolFile.valid info = VALID_ALL -> program_string info = [] ->
  adjust_raSearchStart w memory last info (raSearchStart_of last info params) s = Ok (start, s1) -> fits 32 start ->
  builtin_reads memory last info params start caller_eip caller_ebp -> in_modules w caller_eip ->
  (allocates_base_pointer info = true -> exists v, GetMemoryAtAddress 4 memory caller_ebp = Ok v) ->
  exists g, x86_GetCallerByWindowsFrameInfo w memory frames f info scan s = Ok (Some g, set_windows_frame_info f info, s1) /\
    frame_data_caller last info caller_eip (u32 (start + 4)) caller_ebp g.
Proof.
  intros last params Hm Hl Hv Hp Hadj Hst Hreads Hin Hbp. unfold x86_GetCallerByWindowsFrameInfo. cbv zeta.
  rewrite Hv, Z.eqb_refl. cbn [negb].
  unfold caller_by_program. cbv zeta. change (x86_frame (set_windows_frame_info f info)) with last. fold params.
  rewrite Hadj, bind_Ok. cbv beta iota zeta. rewrite no_alignment by done.
  destruct (builtin_program_spec valid memory last info params start caller_eip caller_ebp Hm Hl
    (callee_parameter_size_fits frames) Hst Hp Hreads) as (d & assigned & -> & He & Hs & Hb & Hsi & Hdi & Hbx).
  rewrite bind_Ok. cbv beta iota zeta.
  set (g := program_frame FRAME_TRUST_CFI last assigned d).
  assert (Hdict: caller_by_dictionary w memory (length frames =? 1)%nat last info params start (windows_program last info).2 scan
    assigned d FRAME_TRUST_CFI s1 = Ok (Some g, s1)).
  { unfold caller_by_dictionary. dif; [reflexivity|]. unfold scan_better. cbv zeta. rewrite He.
    assert (Hout: match modules_list (x86_walker w) with
      | Some ms => match GetModuleForAddress ms caller_eip with Some _ => false | None => true end | None => false end = false).
    { unfold in_modules in Hin. destruct (modules_list (x86_walker w)); [|done]. by destruct Hin as [? ->]. }
    rewrite Hout. cbn [andb]. rewrite bind_Ok. cbv beta iota.
    assert (Hrec: (if (windows_program last info).2 then recover_ebp memory last info params start 0 FRAME_TRUST_CFI d else Ok d) = Ok d).
    { unfold windows_program. rewrite Hp. destruct (allocates_base_pointer info); [|done]. cbn [snd]. unfold recover_ebp. cbv zeta.
      rewrite Hb. destruct (Hbp eq_refl) as [v ->]. done. }
    by rewrite Hrec, bind_Ok. }
  rewrite Hdict, bind_Ok. exists g. split; [done|]. unfold frame_data_caller.
  assert (Hgt: trust (cpu_base g) = FRAME_TRUST_CFI) by apply program_frame_trust.
  split; [done|]. unfold g, program_frame, restore_register. rewrite Hsi, Hdi. unfold x86_caller.
  destruct (negb (allocates_base_pointer info) && _).
  - destruct Hbx as [-> Hbx]. cbn [context new_frame context_validity]. rewrite Hbx.
    split; [by rewrite !fn_lookup_insert_ne, fn_lookup_insert by done|]. split; [by rewrite !fn_lookup_insert_ne, fn_lookup_insert by done|].
    split; [by rewrite fn_lookup_insert_ne, fn_lookup_insert by done|]. split; [|done]. intros r Hr1 Hr2 Hr3.
    destruct (decide (r = ebx)) as [->|]; [by rewrite fn_lookup_insert|]. by rewrite !fn_lookup_insert_ne by congruence.
  - rewrite Hbx. cbn [context new_frame context_validity].
    split; [by rewrite !fn_lookup_insert_ne, fn_lookup_insert by done|]. split; [by rewrite !fn_lookup_insert_ne, fn_lookup_insert by done|].
    split; [by rewrite fn_lookup_insert|]. split; [|by rewrite Z.lor_0_r]. intros r Hr1 Hr2 Hr3. by rewrite !fn_lookup_insert_ne by congruence.
Qed.
End frame_data.

(** Recovery of a caller by a full STACK WIN record without a program string.  When the
    words it needs can be read and the return address is in a module, the caller is:
    the return address is the word at the start of the search, the stack pointer is the
    word above; a function that uses %ebp for its own purposes has saved the caller's at
    the top of its saved registers, any other has kept it, and %ebx with it; the
    remaining registers are the callee's.  The record is stored in the callee's frame. *)
Lemma x86_frame_data {M S C R : Type} `{SymbolModule M} `{SymbolSupplier S} `{CodeModules C} `{MemoryRegion R}
    (valid : R -> Prop) `{!MemoryRegionLaws R valid}
    (w : StackwalkerX86 C R) (memory : R) frames f info scan (s s1 : Symbolizer M S) start caller_eip caller_ebp :
  let last := x86_frame f in
  let params := callee_parameter_size frames in
  valid memory -> context_words 32 last -> SymbolFile.valid info = VALID_ALL -> program_string info = [] ->
  adjust_raSearchStart w memory last info (raSearchStart_of last info params) s = Ok (start, s1) -> fits 32 start ->
  builtin_reads memory last info params start caller_eip caller_ebp -> in_modules w caller_eip ->
  (allocates_base_pointer info = true -> exists v, GetMemoryAtAddress 4 memory caller_ebp = Ok v) ->
  exists g, x86_GetCallerByWindowsFrameInfo w memory frames f info scan s = Ok (Some g, set_windows_frame_info f info, s1) /\
    frame_data_caller last info caller_eip (u32 (start + 4)) caller_ebp g.
Proof. exact (frame_data_spec valid w memory frames f info scan s s1 start caller_eip caller_ebp). Qed.

(** ** Witness *)

Definition demo_x86 : StackwalkerX86 BasicCodeModules MicrodumpMemoryRegion := mkStackwalkerX86 demo_walker32 None.

Definition demo_x86_frame : StackFrameX86 :=
  StackFrameX86_new (new_frame FRAME_TRUST_CONTEXT (λ r, if decide (r = esp) then 0x7fff0000 else 0) X86.CONTEXT_VALID_ALL).

(** A function with four bytes of locals and twelve of saved registers. *)
Definition demo_frame_data : WindowsFrameInfo := WindowsFrameInfo_new STACK_INFO_FRAME_DATA 0 0 0 12 4 0 1 [].

Lemma x86_frame_data_witness :
  exists g s1, x86_GetCallerByWindowsFrameInfo demo_x86 demo_stack32 [demo_x86_frame] demo_x86_frame demo_frame_data false demo_symbolizer =
      Ok (Some g, set_windows_frame_info demo_x86_frame demo_frame_data, s1) /\
    frame_data_caller (x86_frame demo_x86_frame) demo_frame_data 0x400815 0x7fff0014 0x7fff0018 g.
Proof.
  set (x := adjust_raSearchStart demo_x86 demo_stack32 (x86_frame demo_x86_frame) demo_frame_data
    (raSearchStart_of (x86_frame demo_x86_frame) demo_frame_data (callee_parameter_size [demo_x86_frame])) demo_symbolizer).
  assert (Hx: match x with Ok (a, _) => a | _ => 0 end = 0x7fff0010) by (vm_compute; reflexivity).
  destruct x as [[start s1]| |] eqn:Ex; [|discriminate Hx..]. subst start.
  destruct (x86_frame_data micro_ok demo_x86 demo_stack32 [demo_x86_frame] demo_x86_frame demo_frame_data false demo_symbolizer s1
    0x7fff0010 0x400815 0x7fff0018) as (g & Eg & Hg).
  - apply demo_stack32_readable.
  - intros r. unfold fits. cbn. destruct (decide _); lia.
  - reflexivity.
  - reflexivity.
  - exact Ex.
  - unfold fits. lia.
  - split; vm_compute; reflexivity.
  - unfold in_modules. cbn. assert (Hm: match GetModuleForAddress demo_modules 0x400815 with Some _ => true | None => false end = true)
      by (vm_compute; reflexivity). by destruct (GetModuleForAddress demo_modules 0x400815).
  - intros _. exists 0. vm_compute. reflexivity.
  - exists g, s1. by split.
Defined.
