(* ===== verification/DumpContext.v ===== *)
(** processor/dump_context.cc, processor/dump_object.cc: the CPU context of a dump. *)
From Stdlib Require Import Ascii.
From stdpp Require Import strings list gmap functions.
From S2P Require Import Prelude MemoryRegion CfiFrameInfo CpuFrame StackwalkerAMD64 StackwalkerChain StackwalkerARM StackwalkerMIPS StackwalkerX86.

(** The CPU types of [context_flags]. *)
Definition MD_CONTEXT_CPU_MASK : Z := 0xffffff00.
Definition MD_CONTEXT_X86 : Z := 0x00010000.
Definition MD_CONTEXT_AMD64 : Z := 0x00100000.
Definition MD_CONTEXT_PPC64 : Z := 0x01000000.
Definition MD_CONTEXT_SPARC : Z := 0x10000000.
Definition MD_CONTEXT_PPC : Z := 0x20000000.
Definition MD_CONTEXT_ARM : Z := 0x40000000.
Definition MD_CONTEXT_ARM64 : Z := 0x80000000.

(** The union of pointers: null, or a pointer that was stored through the member for
    a CPU, with the members of the context that the walkers use. *)
Inductive raw_context :=
| raw_null
| raw_x86 (c : RawContext x86_reg)
| raw_ppc (c : RawContext ppc_reg)
| raw_ppc64 (c : RawContext ppc_reg)
| raw_amd64 (c : RawContext amd64_reg)
| raw_sparc (c : RawContext sparc_reg)
| raw_arm (c : RawContext nat)
| raw_arm64 (c : RawContext nat)
| raw_mips (c : Z * RawContext mips_reg).

(** [DumpContext], with [valid_] of its base class [DumpObject]. *)
Record DumpContext := mkDumpContext { valid_ : bool; context_flags_ : Z; raw_context_ : raw_context }.

Definition DumpContext_new : DumpContext := mkDumpContext false 0 raw_null.

Definition GetContextCPU (d : DumpContext) : Z := if valid_ d then Z.land (context_flags_ d) MD_CONTEXT_CPU_MASK else 0.
Definition GetContextFlags (d : DumpContext) : Z := context_flags_ d.

(** Reading a member of the union: null is the same for all; reading another member
    than the one stored is undefined. *)
Definition read_member {A} (member : raw_context -> option A) (r : raw_context) : outcome (option A) :=
  match r with
  | raw_null => Ok None
  | _ => match member r with Some c => Ok (Some c) | None => Undefined end
  end.

Definition member_x86 (r : raw_context) := match r with raw_x86 c => Some c | _ => None end.
Definition member_ppc (r : raw_context) := match r with raw_ppc c => Some c | _ => None end.
Definition member_ppc64 (r : raw_context) := match r with raw_ppc64 c => Some c | _ => None end.
Definition member_amd64 (r : raw_context) := match r with raw_amd64 c => Some c | _ => None end.
Definition member_sparc (r : raw_context) := match r with raw_sparc c => Some c | _ => None end.
Definition member_arm (r : raw_context) := match r with raw_arm c => Some c | _ => None end.
Definition member_arm64 (r : raw_context) := match r with raw_arm64 c => Some c | _ => None end.
Definition member_mips (r : raw_context) := match r with raw_mips c => Some c | _ => None end.

Definition GetContextX86 (d : DumpContext) : outcome (option (RawContext x86_reg)) :=
  if negb (GetContextCPU d =? MD_CONTEXT_X86) then Ok None else read_member member_x86 (raw_context_ d).
Definition GetContextPPC (d : DumpContext) : outcome (option (RawContext ppc_reg)) :=
  if negb (GetContextCPU d =? MD_CONTEXT_PPC) then Ok None else read_member member_ppc (raw_context_ d).
Definition GetContextPPC64 (d : DumpContext) : outcome (option (RawContext ppc_reg)) :=
  if negb (GetContextCPU d =? MD_CONTEXT_PPC64) then Ok None else read_member member_ppc64 (raw_context_ d).
Definition GetContextAMD64 (d : DumpContext) : outcome (option (RawContext amd64_reg)) :=
  if negb (GetContextCPU d =? MD_CONTEXT_AMD64) then Ok None else read_member member_amd64 (raw_context_ d).
Definition GetContextSPARC (d : DumpContext) : outcome (option (RawContext sparc_reg)) :=
  if negb (GetContextCPU d =? MD_CONTEXT_SPARC) then Ok None else read_member member_sparc (raw_context_ d).
Definition GetContextARM (d : DumpContext) : outcome (option (RawContext nat)) :=
  if negb (GetContextCPU d =? MD_CONTEXT_ARM) then Ok None else read_member member_arm (raw_context_ d).
Definition GetContextARM64 (d : DumpContext) : outcome (option (RawContext nat)) :=
  if negb (GetContextCPU d =? MD_CONTEXT_ARM64) then Ok None else read_member member_arm64 (raw_context_ d).
Definition GetContextMIPS (d : DumpContext) : outcome (option (Z * RawContext mips_reg)) :=
  if negb (GetContextCPU d =? MD_CONTEXT_MIPS) && negb (GetContextCPU d =? MD_CONTEXT_MIPS64) then Ok None
  else read_member member_mips (raw_context_ d).

(** [GetContext...()->member]. *)
Definition member_of {A} (c : outcome (option A)) (f : A -> Z) : outcome Z :=
  p ← c; match p with Some c => Ok (f c) | None => Undefined end.

(** The two convenience methods: [Fail] when they return false. *)
Definition GetInstructionPointer (d : DumpContext) : outcome Z :=
  if negb (valid_ d) then Fail
  else
    let cpu := GetContextCPU d in
    if cpu =? MD_CONTEXT_AMD64 then member_of (GetContextAMD64 d) (λ c, c rip)
    else if cpu =? MD_CONTEXT_ARM then member_of (GetContextARM d) (λ c, c (REG_PC arm_cpu))
    else if cpu =? MD_CONTEXT_ARM64 then member_of (GetContextARM64 d) (λ c, c (REG_PC arm64_cpu))
    else if cpu =? MD_CONTEXT_PPC then member_of (GetContextPPC d) (λ c, c srr0)
    else if cpu =? MD_CONTEXT_PPC64 then member_of (GetContextPPC64 d) (λ c, c srr0)
    else if cpu =? MD_CONTEXT_SPARC then member_of (GetContextSPARC d) (λ c, c sparc_pc)
    else if cpu =? MD_CONTEXT_X86 then member_of (GetContextX86 d) (λ c, c eip)
    else if (cpu =? MD_CONTEXT_MIPS) || (cpu =? MD_CONTEXT_MIPS64) then member_of (GetContextMIPS d) (λ c, c.2 epc)
    else Fail.

Definition GetStackPointer (d : DumpContext) : outcome Z :=
  if negb (valid_ d) then Fail
  else
    let cpu := GetContextCPU d in
    if cpu =? MD_CONTEXT_AMD64 then member_of (GetContextAMD64 d) (λ c, c rsp)
    else if cpu =? MD_CONTEXT_ARM then member_of (GetContextARM d) (λ c, c (REG_SP arm_cpu))
    else if cpu =? MD_CONTEXT_ARM64 then member_of (GetContextARM64 d) (λ c, c (REG_SP arm64_cpu))
    else if cpu =? MD_CONTEXT_PPC then member_of (GetContextPPC d) (λ c, c gpr1)
    else if cpu =? MD_CONTEXT_PPC64 then member_of (GetContextPPC64 d) (λ c, c gpr1)
    else if cpu =? MD_CONTEXT_SPARC then member_of (GetContextSPARC d) (λ c, c g_r14)
    else if cpu =? MD_CONTEXT_X86 then member_of (GetContextX86 d) (λ c, c esp)
    else if (cpu =? MD_CONTEXT_MIPS) || (cpu =? MD_CONTEXT_MIPS64) then member_of (GetContextMIPS d) (λ c, c.2 (iregs MIPS.REG_SP))
    else Fail.

(** The setters. *)
Definition SetContextFlags (d : DumpContext) (context_flags : Z) : DumpContext := mkDumpContext (valid_ d) context_flags (raw_context_ d).
Definition set_raw_context (d : DumpContext) (r : raw_context) : DumpContext := mkDumpContext (valid_ d) (context_flags_ d) r.
Definition SetContextX86 (d : DumpContext) (c : option (RawContext x86_reg)) : DumpContext := set_raw_context d (from_option raw_x86 raw_null c).
Definition SetContextPPC (d : DumpContext) (c : option (RawContext ppc_reg)) : DumpContext := set_raw_context d (from_option raw_ppc raw_null c).
Definition SetContextPPC64 (d : DumpContext) (c : option (RawContext ppc_reg)) : DumpContext := set_raw_context d (from_option raw_ppc64 raw_null c).
Definition SetContextAMD64 (d : DumpContext) (c : option (RawContext amd64_reg)) : DumpContext := set_raw_context d (from_option raw_amd64 raw_null c).
Definition SetContextSPARC (d : DumpContext) (c : option (RawContext sparc_reg)) : DumpContext := set_raw_context d (from_option raw_sparc raw_null c).
Definition SetContextARM (d : DumpContext) (c : option (RawContext nat)) : DumpContext := set_raw_context d (from_option raw_arm raw_null c).
Definition SetContextARM64 (d : DumpContext) (c : option (RawContext nat)) : DumpContext := set_raw_context d (from_option raw_arm64 raw_null c).
Definition SetContextMIPS (d : DumpContext) (c : option (Z * RawContext mips_reg)) : DumpContext := set_raw_context d (from_option raw_mips raw_null c).

(** [delete] of a member, which must be the one that was stored. *)
Definition delete_member {A} (member : raw_context -> option A) (r : raw_context) : outcome unit :=
  _ ← read_member member r; Ok ().

(** [FreeContext]: it leaves [valid_] as it is. *)
Definition FreeContext (d : DumpContext) : outcome DumpContext :=
  let cpu := GetContextCPU d in
  let r := raw_context_ d in
  _ ← (if cpu =? MD_CONTEXT_X86 then delete_member member_x86 r
       else if cpu =? MD_CONTEXT_PPC then delete_member member_ppc r
       else if cpu =? MD_CONTEXT_PPC64 then delete_member member_ppc64 r
       else if cpu =? MD_CONTEXT_AMD64 then delete_member member_amd64 r
       else if cpu =? MD_CONTEXT_SPARC then delete_member member_sparc r
       else if cpu =? MD_CONTEXT_ARM then delete_member member_arm r
       else if cpu =? MD_CONTEXT_ARM64 then delete_member member_arm64 r
       else if (cpu =? MD_CONTEXT_MIPS) || (cpu =? MD_CONTEXT_MIPS64) then delete_member member_mips r
       else Ok ());
  Ok (mkDumpContext (valid_ d) 0 raw_null).

(** ** Contexts as the readers of dumps leave them *)

(** The CPU that [context_flags_] name is the one whose context was stored. *)
Definition raw_matches (cpu : Z) (r : raw_context) : Prop :=
  match r with
  | raw_null => False
  | raw_x86 _ => cpu = MD_CONTEXT_X86
  | raw_ppc _ => cpu = MD_CONTEXT_PPC
  | raw_ppc64 _ => cpu = MD_CONTEXT_PPC64
  | raw_amd64 _ => cpu = MD_CONTEXT_AMD64
  | raw_sparc _ => cpu = MD_CONTEXT_SPARC
  | raw_arm _ => cpu = MD_CONTEXT_ARM
  | raw_arm64 _ => cpu = MD_CONTEXT_ARM64
  | raw_mips _ => cpu = MD_CONTEXT_MIPS \/ cpu = MD_CONTEXT_MIPS64
  end.

Definition context_present (d : DumpContext) : Prop := valid_ d = true /\ raw_matches (GetContextCPU d) (raw_context_ d).

(** Its members are words of the CPU. *)
Definition raw_words (r : raw_context) : Prop :=
  match r with
  | raw_null => True
  | raw_x86 c => forall r, fits 32 (c r)
  | raw_ppc c => forall r, fits 32 (c r)
  | raw_ppc64 c => forall r, fits 64 (c r)
  | raw_amd64 c => forall r, fits 64 (c r)
  | raw_sparc c => forall r, fits 64 (c r)
  | raw_arm c => forall r, fits 32 (c r)
  | raw_arm64 c => forall r, fits 64 (c r)
  | raw_mips c => forall r, fits 64 (c.2 r)
  end.

(** The instruction and the stack pointer of a context. *)
Definition raw_ip (r : raw_context) : Z :=
  match r with
  | raw_null => 0
  | raw_x86 c => c eip | raw_ppc c | raw_ppc64 c => c srr0 | raw_amd64 c => c rip | raw_sparc c => c sparc_pc
  | raw_arm c => c (REG_PC arm_cpu) | raw_arm64 c => c (REG_PC arm64_cpu) | raw_mips c => c.2 epc
  end.

Definition raw_sp (r : raw_context) : Z :=
  match r with
  | raw_null => 0
  | raw_x86 c => c esp | raw_ppc c | raw_ppc64 c => c gpr1 | raw_amd64 c => c rsp | raw_sparc c => c g_r14
  | raw_arm c => c (REG_SP arm_cpu) | raw_arm64 c => c (REG_SP arm64_cpu) | raw_mips c => c.2 (iregs MIPS.REG_SP)
  end.

Lemma pointers_of_context d :
  context_present d -> GetInstructionPointer d = Ok (raw_ip (raw_context_ d)) /\ GetStackPointer d = Ok (raw_sp (raw_context_ d)).
Proof.
  intros [Hv Hm]. unfold GetInstructionPointer, GetStackPointer, GetContextX86, GetContextPPC, GetContextPPC64, GetContextAMD64,
    GetContextSPARC, GetContextARM, GetContextARM64, GetContextMIPS. rewrite Hv.
  destruct (raw_context_ d); cbn in Hm; [done|..|destruct Hm as [Hm|Hm]]; try rewrite Hm; done.
Qed.

(** Freeing a context that is present, or one already freed, is defined. *)
Lemma free_context d : context_present d \/ raw_context_ d = raw_null -> FreeContext d = Ok (mkDumpContext (valid_ d) 0 raw_null).
Proof.
  unfold FreeContext. intros [[Hv Hm] | ->].
  - destruct (raw_context_ d); cbn in Hm; [done|..|destruct Hm as [Hm|Hm]]; try rewrite Hm; done.
  - cbv zeta. repeat (match goal with |- context [if ?b then _ else _] => destruct b end); done.
Qed.
