(* ===== verification/StackwalkerForCPU.v ===== *)
(** processor/stackwalker.cc: [StackwalkerForCPU], which picks the stack walker for the
    CPU of a dump, and what is known of a walk whatever the CPU. *)
From Stdlib Require Import Ascii.
From stdpp Require Import strings list gmap functions.
From S2P Require Import Prelude StdMap RangeMap CStr StrMap Memory MemoryRegion PostfixEvaluator CfiFrameInfo CodeModules SymbolFile BasicResolver BasicInvariant SymbolLoad ResolverLookup ResolverBase ResolverTable Symbolizer Stackwalker CpuFrame StackwalkerAMD64 StackwalkerChain StackwalkerARM StackwalkerMIPS StackwalkerX86 DumpContext.

(** A frame of the call stack by its dynamic type. *)
Inductive StackFrameCPU :=
| FrameX86 (f : StackFrameX86)
| FramePPC (f : CpuFrame ppc_reg)
| FramePPC64 (f : CpuFrame ppc_reg)
| FrameAMD64 (f : StackFrameAMD64)
| FrameSPARC (f : CpuFrame sparc_reg)
| FrameMIPS (f : StackFrameMIPS)
| FrameARM (f : StackFrameARM)
| FrameARM64 (f : StackFrameARM).

(** Its [StackFrame], and its stack pointer. *)
Definition frame_base (f : StackFrameCPU) : Frame :=
  match f with
  | FrameX86 f => cpu_base (x86_frame f) | FramePPC f => cpu_base f | FramePPC64 f => cpu_base f | FrameAMD64 f => cpu_base f
  | FrameSPARC f => cpu_base f | FrameMIPS f => cpu_base f | FrameARM f => cpu_base f | FrameARM64 f => cpu_base f
  end.

Definition frame_sp (f : StackFrameCPU) : Z :=
  match f with
  | FrameX86 f => context (x86_frame f) esp
  | FramePPC f | FramePPC64 f => context f gpr1
  | FrameAMD64 f => context f rsp
  | FrameSPARC f => context f g_r14
  | FrameMIPS f => context f (iregs MIPS.REG_SP)
  | FrameARM f => context f (REG_SP arm_cpu)
  | FrameARM64 f => context f (REG_SP arm64_cpu)
  end.

Section for_cpu.
Context {M : Type} `{SymbolModule M} {S : Type} `{SymbolSupplier S} {C : Type} `{CodeModules C}.
Context {R : Type} `{MemoryRegion R}.

(** A [Stackwalker] by its dynamic type. *)
Inductive CpuStackwalker :=
| X86Walker (w : StackwalkerX86 C R)
| PPCWalker (w : StackwalkerPPC C R)
| PPC64Walker (w : StackwalkerPPC C R)
| AMD64Walker (w : StackwalkerAMD64 C R)
| SPARCWalker (w : StackwalkerSPARC C R)
| MIPSWalker (w : StackwalkerMIPS C R)
| ARMWalker (w : StackwalkerARM C R)
| ARM64Walker (w : StackwalkerARM C R).

(** [StackwalkerForCPU]: [Ok None] is NULL.  The unloaded modules are set in every
    walker it makes. *)
Definition StackwalkerForCPU (os : cstring) (context : option DumpContext) (memory : option R)
    (modules unloaded_modules : option C) : outcome (option CpuStackwalker) :=
  match context with
  | None => Ok None
  | Some context =>
      let base := mkStackwalker os memory modules unloaded_modules in
      let cpu := GetContextCPU context in
      if cpu =? MD_CONTEXT_X86 then c ← GetContextX86 context; Ok (Some (X86Walker (StackwalkerX86_new base c)))
      else if cpu =? MD_CONTEXT_PPC then c ← GetContextPPC context; Ok (Some (PPCWalker (StackwalkerPPC_new base c)))
      else if cpu =? MD_CONTEXT_PPC64 then c ← GetContextPPC64 context; Ok (Some (PPC64Walker (StackwalkerPPC64_new base c)))
      else if cpu =? MD_CONTEXT_AMD64 then c ← GetContextAMD64 context; Ok (Some (AMD64Walker (mkStackwalkerAMD64 base c)))
      else if cpu =? MD_CONTEXT_SPARC then c ← GetContextSPARC context; Ok (Some (SPARCWalker (mkStackwalkerSPARC base c)))
      else if (cpu =? MD_CONTEXT_MIPS) || (cpu =? MD_CONTEXT_MIPS64) then
        c ← GetContextMIPS context; w ← StackwalkerMIPS_new base c; Ok (Some (MIPSWalker w))
      else if cpu =? MD_CONTEXT_ARM then
        let fp_register := if str_eqb os (lit "ios") then MD_CONTEXT_ARM_REG_IOS_FP else -1 in
        c ← GetContextARM context; Ok (Some (ARMWalker (StackwalkerARM_new arm_cpu base c fp_register)))
      else if cpu =? MD_CONTEXT_ARM64 then
        c ← GetContextARM64 context; Ok (Some (ARM64Walker (StackwalkerARM_new arm64_cpu base c (-1))))
      else Ok None
  end.

(** The result of a walk, its frames by their dynamic type. *)
Definition seen_as {F} (as_frame : F -> StackFrameCPU) (r : outcome (WalkResult M S F)) : outcome (WalkResult M S StackFrameCPU) :=
  r ← r;
  Ok (mkWalkResult (completed r) (as_frame <$> frames_ r) (modules_without_symbols r) (modules_with_corrupt_symbols r) (walk_symbolizer r)).

(** [Walk] of the walker for a CPU, on its own modules. *)
Definition walk_with {W F} (walker : CpuWalker W F (Symbolizer M S)) (as_frame : F -> StackFrameCPU) (limits : WalkLimits)
    (base : Stackwalker C R) (w : W) (without corrupt : list CodeModule) (s : Symbolizer M S)
  : outcome (WalkResult M S StackFrameCPU) :=
  seen_as as_frame (@Walk M _ S _ C _ W F walker limits w (modules_list base) (unloaded_modules_ base) without corrupt s).

Definition CpuWalk (limits : WalkLimits) (w : CpuStackwalker) (without corrupt : list CodeModule) (s : Symbolizer M S)
  : outcome (WalkResult M S StackFrameCPU) :=
  match w with
  | X86Walker w => walk_with x86_cpu_walker FrameX86 limits (x86_walker w) w without corrupt s
  | PPCWalker w => walk_with ppc_cpu_walker FramePPC limits (ppc_walker w) w without corrupt s
  | PPC64Walker w => walk_with ppc64_cpu_walker FramePPC64 limits (ppc_walker w) w without corrupt s
  | AMD64Walker w => walk_with amd64_cpu_walker FrameAMD64 limits (amd64_walker w) w without corrupt s
  | SPARCWalker w => walk_with sparc_cpu_walker FrameSPARC limits (sparc_walker w) w without corrupt s
  | MIPSWalker w => walk_with mips_cpu_walker FrameMIPS limits (mips_walker w) w without corrupt s
  | ARMWalker w => walk_with arm_cpu_walker FrameARM limits (arm_walker w) w without corrupt s
  | ARM64Walker w => walk_with arm64_cpu_walker FrameARM64 limits (arm_walker w) w without corrupt s
  end.
End for_cpu.

Arguments CpuStackwalker : clear implicits.

(** ** A walk on any CPU *)

(** The stack pointers grow -- strictly, but for the first step. *)
Definition growing (frames : list StackFrameCPU) : Prop :=
  forall i f f', frames !! i = Some f -> frames !! Datatypes.S i = Some f' ->
    frame_sp f <= frame_sp f' /\ (i <> O -> frame_sp f < frame_sp f').

Definition doubtful (frames : list StackFrameCPU) : Z :=
  Z.of_nat (length (filter (λ f, is_dubious (trust (frame_base f)) = true) frames)).

Section any_cpu.
Context {M : Type} `{SymbolModule M} (loaded : M -> Prop) `{!SymbolModuleLaws M loaded}.
Context {S : Type} `{SymbolSupplier S} {C : Type} `{CodeModules C}.
Context {R : Type} `{MemoryRegion R} (valid : R -> Prop) `{!MemoryRegionLaws R valid}.
Implicit Types (s : Symbolizer M S).

(** The STACK CFI rules, or the program of a complete STACK WIN record, that the symbolizer
    finds for a frame have no defined value over the memory. *)
Definition undefined_rules s (frame : Frame) (memory : R) : Prop :=
  exists info width regs, SymbolizerFindCFIFrameInfo frame s = Ok (Some info) /\ (width = 32 \/ width = 64) /\
    FindCallerRegs width info regs memory = Undefined.

Definition undefined_program s (frame : Frame) (memory : R) : Prop :=
  exists info last d, SymbolizerFindWindowsFrameInfo frame s = Ok (Some info) /\ SymbolFile.valid info = SymbolFile.VALID_ALL /\
    (Evaluate 32 (windows_program last info).1 (Some ∅) (PostfixEvaluator_new (Some d) (Some memory))).1 = Undefined.

(** What shows in an undefined walk from [s]: it leads to a symbolizer whose supplier has
    undefined symbols of a module of the process, or that finds undefined rules or an
    undefined program. *)
Definition cpu_undefined (modules unloaded : option C) s (memory : option R) : Prop :=
  exists s', symbolizer_reaches modules unloaded s s' /\
    (undefined_supply modules unloaded s' \/
     exists frame m, memory = Some m /\ (undefined_rules s' frame m \/ undefined_program s' frame m)).

(** Symbols that are always defined: what the supplier has loads to modules with [P], whose
    rules and programs have values. *)
Record harmless (P : M -> Prop) (memory : option R) : Prop := {
  hl_supplies : supplies (S := S) P;
  hl_rules m base frame info width regs region : P m -> ModuleFindCFIFrameInfo m base frame = Ok (Some info) ->
    width = 32 \/ width = 64 -> memory = Some region -> FindCallerRegs width info regs region <> Undefined;
  hl_programs m base frame info last d region : P m -> ModuleFindWindowsFrameInfo m base frame = Ok (Some info) ->
    SymbolFile.valid info = SymbolFile.VALID_ALL -> memory = Some region ->
    (Evaluate 32 (windows_program last info).1 (Some ∅) (PostfixEvaluator_new (Some d) (Some region))).1 <> Undefined
}.

Lemma harmless_defined (P : M -> Prop) (modules unloaded : option C) s memory :
  symbolizer_ok s -> harmless P memory -> resolver_modules s P -> ~ cpu_undefined modules unloaded s memory.
Proof.
  intros Hs [Hsup Hrules Hprog] Hall (s' & Hr & Hu).
  pose proof (reaches_modules loaded P modules unloaded s s' Hr Hs Hsup Hall) as Hall'.
  destruct Hu as [(_ & m & sup & data & sup' & _ & _ & Eg & El)|(frame & region & Em & Hu)].
  { destruct (Hsup _ _ _ _ Eg) as (ok & m' & El' & _). congruence. }
  destruct Hu as [(info & width & regs & Ef & Ew & Eu)|(info & last & d & Ef & Ev & Eu)]; revert Ef.
  - unfold SymbolizerFindCFIFrameInfo, ResolverFindCFIFrameInfo. destruct (resolver_ s') as [r|] eqn:Er; [|done].
    destruct (frame_module frame) as [module|]; [|done]. destruct (str_find _ _) as [m|] eqn:Ek; [|done].
    intros Ef. exact (Hrules m _ _ _ width regs region (Hall' r _ m Er Ek) Ef Ew Em Eu).
  - unfold SymbolizerFindWindowsFrameInfo, ResolverFindWindowsFrameInfo. destruct (resolver_ s') as [r|] eqn:Er; [|done].
    destruct (frame_module frame) as [module|]; [|done]. destruct (str_find _ _) as [m|] eqn:Ek; [|done].
    intros Ef. exact (Hprog m _ _ _ last d region (Hall' r _ m Er Ek) Ef Ev Em Eu).
Qed.

(** What a walk from a stack pointer gives. *)
Record walked (limits : WalkLimits) (sp : Z) (r : WalkResult M S StackFrameCPU) : Prop := {
  wk_symbolizer : symbolizer_ok (walk_symbolizer r);
  wk_growing : growing (frames_ r);
  wk_length : Z.of_nat (length (frames_ r)) <= max_frames_ limits + 1;
  wk_doubtful : doubtful (frames_ r) <= Z.max 0 (max_frames_scanned_ limits);
  wk_completed : completed r = true -> frames_ r <> [];
  wk_first f : head (frames_ r) = Some f -> frame_sp f = sp
}.

Lemma growing_of_climbing {F} (as_frame : F -> StackFrameCPU) (sp ip : F -> Z) frames :
  (forall f, frame_sp (as_frame f) = sp f) -> climbing sp ip frames -> growing (as_frame <$> frames).
Proof.
  intros Hsp Hc i f f' Hf Hf'. apply list_lookup_fmap_Some in Hf as (g & -> & Hg). apply list_lookup_fmap_Some in Hf' as (g' & -> & Hg').
  rewrite !Hsp. destruct (Hc i g g' Hg Hg') as (? & ? & _). by split.
Qed.

Lemma doubtful_fmap {W F} `{!CpuWalker W F (Symbolizer M S)} (as_frame : F -> StackFrameCPU) (frames : list F) :
  (forall f, frame_base (as_frame f) = base_frame f) -> doubtful (as_frame <$> frames) = dubious_count frames.
Proof.
  intros Hb. unfold doubtful, dubious_count. induction frames as [|f frames IH]; [done|].
  rewrite fmap_cons, !filter_cons, Hb. case_decide; cbn [length]; lia.
Qed.

Lemma walk_with_spec {W F} (walker : CpuWalker W F (Symbolizer M S)) (as_frame : F -> StackFrameCPU) (sp ip : F -> Z)
    `{!CpuWalkerLaws W F (Symbolizer M S) sp ip} limits (base : Stackwalker C R) w without corrupt s Inv blame frame_ok f :
  (forall f, frame_sp (as_frame f) = sp f) -> (forall f, frame_base (as_frame f) = base_frame f) ->
  (forall f b, frame_ok f -> frame_ok (set_base_frame f b)) ->
  symbols_kept (modules_list base) (unloaded_modules_ base) Inv blame -> callers_found Inv blame frame_ok w ->
  0 <= max_frames_ limits -> GetContextFrame w = Some f -> frame_ok f -> Inv s ->
  sound blame (walked limits (sp f)) (walk_with walker as_frame limits base w without corrupt s).
Proof.
  intros Hsp Hb Hset Hk Hcallers Hm Hf Hok Hs. unfold walk_with, seen_as.
  pose proof (Walk_outcome loaded (modules_list base) (unloaded_modules_ base) Inv blame Hk frame_ok w limits without corrupt s
    Hset Hcallers Hm ltac:(intros f' E; rewrite Hf in E; by injection E as <-) Hs) as Hout.
  destruct (Walk _ _ _ _ _ _ _) as [r| |] eqn:Ew; [|done|exact Hout]. rewrite bind_Ok. destruct Hout as [Hs' _]. apply (sk_ok _ _ _ _ Hk) in Hs'.
  destruct (Walk_spec sp ip _ _ _ _ _ _ _ _ Hm Ew) as (Hc & Hl & Hd & _).
  destruct (Walk_head sp ip _ _ _ _ _ _ _ _ _ Hm Hf Ew) as [Hcomp Hhead].
  constructor; cbn [walk_symbolizer frames_ completed]; [done|by eapply growing_of_climbing|by rewrite length_fmap| | |].
  - by rewrite (doubtful_fmap as_frame) by done.
  - intros E En. apply fmap_nil_inv in En. by apply (Hcomp E).
  - intros g Hg. destruct (frames_ r) as [|f0 rest]; [done|]. injection Hg as <-. rewrite Hsp. by apply Hhead.
Qed.

(** The memory of a walker is the memory it was given, or none. *)
Definition memory_of (given : option R) (held : option R) : Prop := held = given \/ held = None.

Lemma limit_memory_of (base : Stackwalker C R) : memory_of (memory_ base) (memory_ (limit_memory base)).
Proof.
  unfold memory_of, limit_memory. destruct (memory_ base) as [m|] eqn:E; [|by left]. destruct (_ <? _); [by right|by left].
Qed.

Lemma memory_of_readable (P : R -> Prop) given held :
  memory_of given held -> (forall m, given = Some m -> P m) -> forall m, held = Some m -> P m.
Proof. intros [-> | ->]; [done|]. by intros _ m. Qed.

Lemma limit_memory_modules (base : Stackwalker C R) :
  modules_list (limit_memory base) = modules_list base /\ unloaded_modules_ (limit_memory base) = unloaded_modules_ base.
Proof. unfold limit_memory. destruct (memory_ base); [|done]. by destruct (_ <? _). Qed.

Context (limits : WalkLimits) (Hlimits : 0 <= max_frames_ limits) (s : Symbolizer M S) (Hs : symbolizer_ok s).
Context (os : cstring) (memory : option R) (Hmemory : forall m, memory = Some m -> all_readable valid m).
Context (modules unloaded : option C) (without corrupt : list CodeModule).
Abbreviation base := (mkStackwalker os memory modules unloaded).
Abbreviation Inv := (symbolizer_reaches modules unloaded s).
Abbreviation blame := (cpu_undefined modules unloaded s memory).

Lemma walk_symbols_kept : symbols_kept modules unloaded Inv blame.
Proof.
  constructor.
  - intros s' Hr. by apply (symbolizer_reaches_ok loaded modules unloaded s).
  - intros frame s1 result frame' s2 Hr E. by eapply reaches_frame.
  - intros s' Hr Hu. exists s'. split; [done|by left].
Qed.

Lemma walk_lists_kept (w : Stackwalker C R) :
  modules_list w = modules -> unloaded_modules_ w = unloaded -> symbols_kept (modules_list w) (unloaded_modules_ w) Inv blame.
Proof. intros -> ->. apply walk_symbols_kept. Qed.

Lemma walk_rules_blamed width held : width = 32 \/ width = 64 -> memory_of memory held -> rules_blamed Inv blame width held.
Proof.
  intros Hw [-> | ->]; [|done]. intros s' frame info m regs Hr Ei Em Eu. exists s'. split; [done|]. right. exists frame, m. split; [done|].
  left. by exists info, width, regs.
Qed.

Lemma walk_programs_blamed held : memory_of memory held -> programs_blamed Inv blame held.
Proof.
  intros [-> | ->]; [|done]. intros s' frame info last m d Hr Ei Ev Em Eu. exists s'. split; [done|]. right. exists frame, m. split; [done|].
  right. by exists info, last, d.
Qed.

Lemma walk_kept_by width (w : Stackwalker C R) : width = 32 \/ width = 64 -> memory_of memory (memory_ w) ->
  modules_list w = modules -> unloaded_modules_ w = unloaded -> kept_by Inv blame width w.
Proof. intros Hw Hm E1 E2. split; [by apply walk_lists_kept|by apply walk_rules_blamed]. Qed.

Lemma held_readable n held : memory_of memory held -> address_size n -> forall m, held = Some m -> readable valid n m.
Proof. intros Hm Hn m E. apply all_readable_readable; [done|]. by eapply memory_of_readable. Qed.

Lemma x86_walk c : (forall r, fits 32 (c r)) ->
  sound blame (walked limits (c esp)) (CpuWalk limits (X86Walker (StackwalkerX86_new base (Some c))) without corrupt s).
Proof.
  intros Hc. pose proof (limit_memory_of base) as Hm. cbn [CpuWalk].
  apply (walk_with_spec x86_cpu_walker FrameX86 (λ f, context (x86_frame f) esp) (λ f, context (x86_frame f) eip) _ _ _ _ _ _ Inv blame
    (λ f, context_words 32 (x86_frame f)) (StackFrameX86_new (with_instruction (new_frame FRAME_TRUST_CONTEXT c X86.CONTEXT_VALID_ALL) (c eip))));
    try done; [| |by constructor].
  - apply walk_lists_kept; apply limit_memory_modules.
  - apply (x86_sound loaded valid Inv blame); [|by apply walk_programs_blamed|by eapply memory_of_readable].
    apply walk_kept_by; [by left|done|apply limit_memory_modules..].
Qed.

Lemma amd64_any_walk c : (forall r, fits 64 (c r)) ->
  sound blame (walked limits (c rsp)) (CpuWalk limits (AMD64Walker (mkStackwalkerAMD64 base (Some c))) without corrupt s).
Proof.
  intros Hc. assert (Hm: memory_of memory (memory_ base)) by by left. cbn [CpuWalk].
  apply (walk_with_spec amd64_cpu_walker FrameAMD64 (λ f, context f rsp) (λ f, context f rip) _ _ _ _ _ _ Inv blame (context_words 64)
    (with_instruction (new_frame FRAME_TRUST_CONTEXT c CONTEXT_VALID_ALL) (c rip))); try done; [apply walk_symbols_kept| |by constructor].
  apply callers_found_of. intros frames f scan s' Hl Hf Hs'. eapply (get_caller_sound loaded valid Inv blame); try done.
  - apply walk_kept_by; [by right|done..].
  - apply held_readable; [done|by right].
Qed.

Lemma ppc_walk c : (forall r, fits 32 (c r)) ->
  sound blame (walked limits (c gpr1)) (CpuWalk limits (PPCWalker (StackwalkerPPC_new base (Some c))) without corrupt s).
Proof.
  intros Hc. pose proof (limit_memory_of base) as Hm. cbn [CpuWalk].
  apply (walk_with_spec ppc_cpu_walker FramePPC (λ f, context f gpr1) (λ f, context f srr0) _ _ _ _ _ _ Inv blame (context_words 32)
    (with_instruction (new_frame FRAME_TRUST_CONTEXT c PPC.CONTEXT_VALID_ALL) (c srr0))); try done; [| |by constructor].
  { apply walk_lists_kept; apply limit_memory_modules. }
  apply callers_found_of. intros frames f scan s' Hl Hf Hs'. eapply (ppc_sound valid 4); try done; [by left|].
  apply held_readable; [done|by left].
Qed.

Lemma ppc64_walk c : (forall r, fits 64 (c r)) ->
  sound blame (walked limits (c gpr1)) (CpuWalk limits (PPC64Walker (StackwalkerPPC64_new base (Some c))) without corrupt s).
Proof.
  intros Hc. assert (Hm: memory_of memory (memory_ base)) by by left. cbn [CpuWalk].
  apply (walk_with_spec ppc64_cpu_walker FramePPC64 (λ f, context f gpr1) (λ f, context f srr0) _ _ _ _ _ _ Inv blame (context_words 64)
    (with_instruction (new_frame FRAME_TRUST_CONTEXT c PPC.CONTEXT_VALID_ALL) (c srr0))); try done; [apply walk_symbols_kept| |by constructor].
  apply callers_found_of. intros frames f scan s' Hl Hf Hs'. eapply (ppc_sound valid 8); try done; [by right|].
  apply held_readable; [done|by right].
Qed.

Lemma sparc_walk c : (forall r, fits 64 (c r)) ->
  sound blame (walked limits (c g_r14)) (CpuWalk limits (SPARCWalker (mkStackwalkerSPARC base (Some c))) without corrupt s).
Proof.
  intros Hc. cbn [CpuWalk].
  apply (walk_with_spec sparc_cpu_walker FrameSPARC (λ f, context f g_r14) (λ _, 4096) _ _ _ _ _ _ Inv blame (context_words 64)
    (with_instruction (new_frame FRAME_TRUST_CONTEXT c SPARC.CONTEXT_VALID_ALL) (c sparc_pc))); try done; [apply walk_symbols_kept| |by constructor].
  apply callers_found_of. intros frames f scan s' Hl Hf Hs'. eapply (sparc_sound valid); try done.
  intros m Em. destruct (Hmemory m Em) as [Hv _ Hd]. split; [done|]. intros a. apply Hd. by left.
Qed.

Lemma mips_walk flags c : (forall r, fits 64 (c r)) ->
  exists w, StackwalkerMIPS_new base (Some (flags, c)) = Ok w /\
  sound blame (walked limits (c (iregs MIPS.REG_SP))) (CpuWalk limits (MIPSWalker w) without corrupt s).
Proof.
  intros Hc. assert (Hw: exists w, StackwalkerMIPS_new base (Some (flags, c)) = Ok w).
  { unfold StackwalkerMIPS_new. destruct (memory_ base); [cbv zeta; destruct (_ <? _)|]; by eexists. }
  destruct Hw as [w Hw]. exists w. split; [done|]. destruct (mips_new_sound _ _ _ Hw) as [Ec Hheld].
  assert (Hlists: modules_list (mips_walker w) = modules /\ unloaded_modules_ (mips_walker w) = unloaded).
  { revert Hw. unfold StackwalkerMIPS_new. destruct (memory_ base); [cbv zeta; destruct (_ <? _)|]; by intros [= <-]. }
  assert (Hm: memory_of memory (memory_ (mips_walker w))) by (destruct Hheld as [?|[-> _]]; [by right|by left]). cbn [CpuWalk].
  assert (Hctx: @GetContextFrame _ _ _ mips_cpu_walker w =
    Some (with_instruction (new_frame FRAME_TRUST_CONTEXT c MIPS.CONTEXT_VALID_ALL) (c epc))).
  { cbn. unfold mips_GetContextFrame. by rewrite Ec. }
  apply (walk_with_spec mips_cpu_walker FrameMIPS (λ f, context f (iregs MIPS.REG_SP)) (λ f, context f epc) _ _ _ _ _ _ Inv blame (context_words 64)
    (with_instruction (new_frame FRAME_TRUST_CONTEXT c MIPS.CONTEXT_VALID_ALL) (c epc))); try done; [| |by constructor].
  { by apply walk_lists_kept; apply Hlists. }
  apply callers_found_of. intros frames f scan s' Hl Hf Hs'. eapply (mips_sound loaded valid Inv blame); try done.
  - by apply walk_lists_kept; apply Hlists.
  - intros n Hn. apply walk_rules_blamed; [destruct Hn as [-> | ->]; [by left|by right]|done].
  - intros m Em. split; [by eapply memory_of_readable|by rewrite Ec].
Qed.

Lemma arm_any_walk c fp : (forall r, fits 32 (c r)) ->
  sound blame (walked limits (c (REG_SP arm_cpu)))
    (CpuWalk limits (ARMWalker (StackwalkerARM_new arm_cpu base (Some c) fp)) without corrupt s).
Proof.
  intros Hc. assert (Hm: memory_of memory (memory_ base)) by by left. cbn [CpuWalk].
  apply (walk_with_spec arm_cpu_walker FrameARM (λ f, context f (REG_SP arm_cpu)) (λ f, context f (REG_PC arm_cpu)) _ _ _ _ _ _ Inv blame (context_words 32)
    (with_instruction (new_frame FRAME_TRUST_CONTEXT c (VALID_ALL arm_cpu)) (c (REG_PC arm_cpu)))); try done; [apply walk_symbols_kept| |by constructor].
  apply callers_found_of. intros frames f scan s' Hl Hf Hs'.
  eapply (arm_sound loaded valid arm_cpu arm_ok Inv blame); try done.
  - apply walk_kept_by; [by left|done..].
  - apply held_readable; [done|by left].
  - intros m g Hr Hg. unfold arm_frame_pointer. repeat (dif; [done|]). by apply (arm_fp_words valid arm_cpu arm_ok).
Qed.

Lemma arm64_any_walk c : (forall r, fits 64 (c r)) ->
  sound blame (walked limits (c (REG_SP arm64_cpu)))
    (CpuWalk limits (ARM64Walker (StackwalkerARM_new arm64_cpu base (Some c) (-1))) without corrupt s).
Proof.
  intros Hc. assert (Hm: memory_of memory (memory_ base)) by by left. cbn [CpuWalk].
  apply (walk_with_spec arm64_cpu_walker FrameARM64 (λ f, context f (REG_SP arm64_cpu)) (λ f, context f (REG_PC arm64_cpu)) _ _ _ _ _ _ Inv blame (context_words 64)
    (with_instruction (new_frame FRAME_TRUST_CONTEXT c (VALID_ALL arm64_cpu)) (c (REG_PC arm64_cpu)))); try done; [apply walk_symbols_kept| |by constructor].
  apply callers_found_of. intros frames f scan s' Hl Hf Hs'.
  eapply (arm_sound loaded valid arm64_cpu arm64_ok Inv blame); try done.
  - apply walk_kept_by; [by right|done..].
  - apply held_readable; [done|by right].
  - intros m g Hr Hg. by apply (arm_fp_words valid arm64_cpu arm64_ok).
Qed.
End any_cpu.

(** A walk over harmless symbols is defined. *)
Lemma sound_harmless {M S C R A : Type} `{SymbolModule M} `{SymbolSupplier S} `{CodeModules C} `{MemoryRegion R}
    (loaded : M -> Prop) `{!SymbolModuleLaws M loaded} (P : M -> Prop) (modules unloaded : option C) (s : Symbolizer M S)
    (memory : option R) (Q : A -> Prop) (x : outcome A) :
  sound (cpu_undefined modules unloaded s memory) Q x -> symbolizer_ok s ->
  harmless (S := S) P memory -> resolver_modules s P -> exists a, x = Ok a /\ Q a.
Proof.
  intros Hx Hs Hp Hall. destruct x as [a| |]; [by exists a|done|].
  by apply (harmless_defined loaded P modules unloaded s memory) in Hx.
Qed.

(** The walker of a context that is present, and its walk. *)
Lemma cpu_walk_sound {M S C R : Type} `{SymbolModule M} `{SymbolSupplier S} `{CodeModules C} `{MemoryRegion R}
    (loaded : M -> Prop) `{!SymbolModuleLaws M loaded} (valid : R -> Prop) `{!MemoryRegionLaws R valid}
    limits os (d : DumpContext) (memory : option R) (modules unloaded : option C) without corrupt (s : Symbolizer M S) :
  0 <= max_frames_ limits -> context_present d -> raw_words (raw_context_ d) ->
  (forall m, memory = Some m -> all_readable valid m) -> symbolizer_ok s ->
  exists w sp, StackwalkerForCPU os (Some d) memory modules unloaded = Ok (Some w) /\ GetStackPointer d = Ok sp /\
    sound (cpu_undefined modules unloaded s memory) (walked limits sp) (CpuWalk limits w without corrupt s).
Proof.
  intros Hl Hd Hw Hm Hs. destruct (pointers_of_context d Hd) as [_ Hsp]. rewrite Hsp. destruct Hd as [Hv Hd].
  unfold StackwalkerForCPU, GetContextX86, GetContextPPC, GetContextPPC64, GetContextAMD64, GetContextSPARC, GetContextARM,
    GetContextARM64, GetContextMIPS. cbv zeta.
  destruct (raw_context_ d) as [|c|c|c|c|c|c|c|[flags c]]; cbn [raw_matches raw_words raw_sp] in *; [done|..].
  - rewrite Hd. eexists _, _. split; [reflexivity|]. split; [done|]. by apply (x86_walk loaded valid).
  - rewrite Hd. eexists _, _. split; [reflexivity|]. split; [done|]. by apply (ppc_walk loaded valid).
  - rewrite Hd. eexists _, _. split; [reflexivity|]. split; [done|]. by apply (ppc64_walk loaded valid).
  - rewrite Hd. eexists _, _. split; [reflexivity|]. split; [done|]. by apply (amd64_any_walk loaded valid).
  - rewrite Hd. eexists _, _. split; [reflexivity|]. split; [done|]. by apply (sparc_walk loaded valid).
  - rewrite Hd. eexists _, _. split; [reflexivity|]. split; [done|]. by apply (arm_any_walk loaded valid).
  - rewrite Hd. eexists _, _. split; [reflexivity|]. split; [done|]. by apply (arm64_any_walk loaded valid).
  - destruct (mips_walk loaded valid limits Hl s Hs os memory Hm modules unloaded without corrupt flags c Hw) as (w & Ew & Hwalk).
    assert (E: read_member member_mips (raw_mips (flags, c)) ≫= (λ c0, w0 ← StackwalkerMIPS_new (mkStackwalker os memory modules unloaded) c0;
      Ok (Some (MIPSWalker w0))) = Ok (Some (MIPSWalker w))) by (cbn [read_member member_mips]; by rewrite bind_Ok, Ew).
    exists (MIPSWalker w), (c (iregs MIPS.REG_SP)).
    split; [destruct Hd as [-> | ->]; exact E|]. by split.
Qed.


(** ** Witness *)

Definition demo_x86_context : RawContext x86_reg :=
  λ r, match r with eip => 0x400810 | esp => 0x7fff0000 | ebp => 0x7fff0004 | _ => 0 end.

Definition demo_dump_context : DumpContext := mkDumpContext true (MD_CONTEXT_X86 + 0x7) (raw_x86 demo_x86_context).

(** Modules without rules and without complete STACK WIN records are harmless; the
    demonstration symbols are such. *)
Definition frameless (m : BasicModule) : Prop :=
  forall base frame, ModuleFindCFIFrameInfo m base frame = Ok None /\
    forall info, ModuleFindWindowsFrameInfo m base frame = Ok (Some info) -> SymbolFile.valid info <> SymbolFile.VALID_ALL.

Lemma windows_incomplete (m : BasicModule) base frame info :
  (forall ty address, retrieve_windows m ty address = None) ->
  ModuleFindWindowsFrameInfo m base frame = Ok (Some info) -> SymbolFile.valid info <> SymbolFile.VALID_ALL.
Proof.
  intros Hr. cbn [ModuleFindWindowsFrameInfo BasicModuleFactory]. unfold FindWindowsFrameInfo. rewrite !Hr.
  destruct (RetrieveNearestRange _ _ _) as [x|]; [|done]. destruct (func_heap m !! _) as [function|]; [|done].
  destruct (in_function _ _ _); [|done]. by intros [= <-].
Qed.

Lemma demo_harmless : harmless (S := nat) frameless (Some demo_stack32).
Proof.
  constructor.
  - intros module supplier data supplier' [= <- <-]. eexists _, _. split; [vm_compute; reflexivity|]. intros base frame.
    split; [reflexivity|]. intros info. apply windows_incomplete. intros ty address.
    unfold retrieve_windows. cbn [windows_frame_info_]. by destruct (Z.to_nat ty) as [|[|[|[|[|?]]]]].
  - intros m base frame info width regs region Hm E. by rewrite (proj1 (Hm base frame)) in E.
  - intros m base frame info last d region Hm E. intros Ev. by apply (proj2 (Hm base frame)) in E.
Qed.

