(* ===== verification/MinidumpFile.v ===== *)
(** google_breakpad/processor/minidump.h, google_breakpad/common/minidump_format.h,
    processor/minidump.cc: the class [Minidump], which finds the streams of a minidump and
    reads the strings in it; UTF-16.
    The stream and the swapping of bytes are those of MemoryRegion.v.  A method changes the
    dump and returns true, with what it has in its output arguments, or false ([None]). *)
From Stdlib Require Import Ascii.
From stdpp Require Import list.
From S2P Require Import Prelude StdMap CStr StrMap Memory MemoryRegion.

(** ** UTF-16 *)

(** The bytes of a code point in UTF-8 as [UTF16ToUTF8] appends them; [None] past 21 bits. *)
Definition append_unichar (unichar : Z) : option (list Z) :=
  let low n := Z.lor 0x80 (Z.land (Z.shiftr unichar n) 0x3f) in
  if unichar <? 0x80 then Some [unichar]
  else if unichar <? 0x800 then Some [Z.lor 0xc0 (Z.shiftr unichar 6); low 0]
  else if unichar <? 0x10000 then Some [Z.lor 0xe0 (Z.shiftr unichar 12); low 6; low 0]
  else if unichar <? 0x200000 then Some [Z.lor 0xf0 (Z.shiftr unichar 18); low 12; low 6; low 0]
  else None.

Definition chars (bytes : list Z) : cstring := chr <$> bytes.

(** The word after a high surrogate is taken as it is, not swapped. *)
Fixpoint UTF16ToUTF8 (words : list Z) (swap : bool) : option cstring :=
  match words with
  | [] => Some []
  | in_word :: words =>
      let in_word := if swap then Swap 2 in_word else in_word in
      if (0xdc00 <=? in_word) && (in_word <=? 0xdcff) then None
      else if (0xd800 <=? in_word) && (in_word <=? 0xdbff) then
        let unichar := u32 (Z.shiftl (in_word - 0xd7c0) 10) in
        match words with
        | [] => None
        | in_word :: words =>
            if (in_word <? 0xdc00) || (0xdcff <? in_word) then None
            else
              bytes ← append_unichar (Z.lor unichar (Z.land in_word 0x03ff));
              rest ← UTF16ToUTF8 words swap;
              Some (chars bytes ++ rest)
        end
      else
        bytes ← append_unichar in_word;
        rest ← UTF16ToUTF8 words swap;
        Some (chars bytes ++ rest)
  end.

(** [UTF16codeunits]. *)
Fixpoint UTF16codeunits (string : list Z) (maxlen : nat) : nat :=
  match maxlen, string with
  | S maxlen, word :: string => if word =? 0 then O else S (UTF16codeunits string maxlen)
  | _, _ => O
  end.

(** A string that cannot be converted leaves the result as it was. *)
Definition ConvertUTF16BufferToUTF8String (utf16_data : list Z) (max_length_in_bytes : Z) (utf8_result : cstring) (swap : bool) : cstring :=
  let word_length := UTF16codeunits utf16_data (Z.to_nat (max_length_in_bytes / 2)) in
  if (0 <? word_length)%nat then default utf8_result (UTF16ToUTF8 (take word_length utf16_data) swap) else [].

(** ** Raw structures *)

(** A member of [n] bytes, swapped when the dump is. *)
Definition member (swap : bool) (raw : list Z) (offset : Z) (n : nat) : Z :=
  let v := read_le raw offset n in if swap then Swap n v else v.

Record MDRawHeader := mkRawHeader {
  signature : Z;
  header_version : Z;
  stream_count : Z;
  stream_directory_rva : Z;
  checksum : Z;
  time_date_stamp : Z;
  flags : Z
}.

Definition MDRawHeader_read (swap : bool) (raw : list Z) : MDRawHeader :=
  mkRawHeader (member swap raw 0 4) (member swap raw 4 4) (member swap raw 8 4) (member swap raw 12 4) (member swap raw 16 4) (member swap raw 20 4)
    (member swap raw 24 8).

Definition MD_HEADER_SIGNATURE := 0x504d444d.
Definition MD_HEADER_VERSION := 0x0000a793.

Definition location_read (swap : bool) (raw : list Z) (offset : Z) : MDLocationDescriptor :=
  mkLoc (member swap raw offset 4) (member swap raw (offset + 4) 4).

Definition memory_descriptor_read (swap : bool) (raw : list Z) (offset : Z) : MDMemoryDescriptor :=
  mkMemDesc (member swap raw offset 8) (location_read swap raw (offset + 8)).

Record MDRawDirectory := mkRawDirectory { stream_type : Z; location : MDLocationDescriptor }.

Definition MDRawDirectory_read (swap : bool) (raw : list Z) (offset : Z) : MDRawDirectory :=
  mkRawDirectory (member swap raw offset 4) (location_read swap raw (offset + 4)).

Definition MD_THREAD_LIST_STREAM := 3.
Definition MD_MODULE_LIST_STREAM := 4.
Definition MD_MEMORY_LIST_STREAM := 5.
Definition MD_EXCEPTION_STREAM := 6.
Definition MD_SYSTEM_INFO_STREAM := 7.
Definition MD_UNLOADED_MODULE_LIST_STREAM := 14.
Definition MD_MISC_INFO_STREAM := 15.
Definition MD_MEMORY_INFO_LIST_STREAM := 16.
Definition MD_BREAKPAD_INFO_STREAM := 0x47670001.
Definition MD_ASSERTION_INFO_STREAM := 0x47670002.
Definition MD_LINUX_MAPS := 0x47670009.
Definition MD_CRASHPAD_INFO_STREAM := 0x43500001.

(** ** [Minidump] *)

Section dump.
Context {O : Type}.

(** [MinidumpStreamInfo]: [O] are the objects made from streams. *)
Record StreamInfo := mkStreamInfo { stream_index : Z; info_stream : option O }.

(** [Minidump]: [path_contents] is what is in the file at [path_], if it can be opened. *)
Record DumpFile := mkDumpFile {
  dump : Minidump;
  header_ : MDRawHeader;
  directory_ : option (list MDRawDirectory);
  stream_map_ : smap StreamInfo;
  path_contents : option (list Z);
  dump_valid_ : bool
}.

Definition header_new : MDRawHeader := mkRawHeader 0 0 0 0 0 0 0.

(** The two constructors. *)
Definition Minidump_new (contents : option (list Z)) : DumpFile :=
  mkDumpFile (mkMinidump None false) header_new None [] contents false.
Definition Minidump_of_stream (stream : istream) : DumpFile :=
  mkDumpFile (mkMinidump (Some stream) false) header_new None [] None false.

Definition with_dump m f := mkDumpFile m (header_ f) (directory_ f) (stream_map_ f) (path_contents f) (dump_valid_ f).
Definition with_raw_header h f := mkDumpFile (dump f) h (directory_ f) (stream_map_ f) (path_contents f) (dump_valid_ f).
Definition with_directory d f := mkDumpFile (dump f) (header_ f) d (stream_map_ f) (path_contents f) (dump_valid_ f).
Definition with_stream_map s f := mkDumpFile (dump f) (header_ f) (directory_ f) s (path_contents f) (dump_valid_ f).
Definition with_valid v f := mkDumpFile (dump f) (header_ f) (directory_ f) (stream_map_ f) (path_contents f) v.
Definition with_swap b f := with_dump (mkMinidump (stream_ (dump f)) b) f.

Definition reading (A : Type) : Type := DumpFile -> option A * DumpFile.

Definition done_with {A} (a : A) : reading A := λ f, (Some a, f).
Definition failed {A} : reading A := λ f, (None, f).
Definition after {A B} (m : reading A) (k : A -> reading B) : reading B :=
  λ f, let '(r, f) := m f in match r with Some a => k a f | None => (None, f) end.
Definition changing (g : DumpFile -> DumpFile) : reading () := λ f, (Some (), g f).
Definition asking {A} (g : DumpFile -> A) : reading A := λ f, (Some (g f), f).
(** The result, of failure, too. *)
Definition attempt {A} (m : reading A) : reading (option A) := λ f, let '(r, f) := m f in (Some r, f).
End dump.
Arguments StreamInfo _ : clear implicits.
Arguments DumpFile _ : clear implicits.
Arguments reading _ _ : clear implicits.

Declare Scope reading_scope.
Delimit Scope reading_scope with reading.
Notation "'let!' x := m 'in' k" := (after m (λ x, k)) (at level 200, x pattern, right associativity) : reading_scope.
Notation "m ;;; k" := (after m (λ _, k)) (at level 100, right associativity) : reading_scope.
Open Scope reading_scope.

Section methods.
Context {O : Type}.
Implicit Types (f : DumpFile O).

Definition requires (b : bool) : reading O () := if b then done_with () else failed.

Definition read_bytes (count : Z) : reading O (list Z) := λ f, let '(r, m) := ReadBytes (dump f) count in (r, with_dump m f).
Definition seek_set (offset : Z) : reading O () := λ f, let '(ok, m) := SeekSet (dump f) offset in (if ok then Some () else None, with_dump m f).

(** [swap()]. *)
Definition get_swap f : bool := if dump_valid_ f then swap_ (dump f) else false.

(** A number of [n] bytes, swapped when [swap_] is set. *)
Definition stream_number (n : nat) : reading O Z :=
  let! raw := read_bytes (Z.of_nat n) in let! swap := asking (λ f, swap_ (dump f)) in done_with (member swap raw 0 n).

(** [Open]: a stream that could not be opened stays, and is not [good]. *)
Definition Open : reading O () := λ f,
  match stream_ (dump f) with
  | Some _ => seek_set 0 f
  | None =>
      let stream := match path_contents f with Some contents => mkStream contents 0 true | None => mkStream [] 0 false end in
      (if sgood stream then Some () else None, with_dump (mkMinidump (Some stream) (swap_ (dump f))) f)
  end.

Definition max_streams_ := 128.
Definition max_string_length_ := 1024.

(** The streams of which a dump may have one. *)
Definition single_stream (stream_type : Z) : bool :=
  existsb (Z.eqb stream_type)
    [MD_THREAD_LIST_STREAM; MD_MODULE_LIST_STREAM; MD_MEMORY_LIST_STREAM; MD_EXCEPTION_STREAM; MD_SYSTEM_INFO_STREAM; MD_MISC_INFO_STREAM;
     MD_BREAKPAD_INFO_STREAM; MD_CRASHPAD_INFO_STREAM].

(** [stream_index] of the entry of a type, which is made if there is none. *)
Definition set_stream_index (stream_type index : Z) (map : smap (StreamInfo O)) : smap (StreamInfo O) :=
  assign map stream_type (mkStreamInfo index (info ← lookup_key map stream_type; info_stream info)).

(** The loop over the directory. *)
Fixpoint index_streams (index : Z) (directory : list MDRawDirectory) : reading O () :=
  match directory with
  | [] => done_with ()
  | entry :: directory =>
      let! map := asking stream_map_ in
      requires (negb (single_stream (stream_type entry) && match lookup_key map (stream_type entry) with Some _ => true | None => false end)) ;;;
      changing (with_stream_map (set_stream_index (stream_type entry) index map)) ;;;
      index_streams (index + 1) directory
  end.

Definition read_directory (swap : bool) (raw : list Z) (count : Z) : list MDRawDirectory :=
  (λ i, MDRawDirectory_read swap raw (12 * Z.of_nat i)) <$> seq 0 (Z.to_nat count).

Definition Minidump_Read : reading O () :=
  changing (λ f, with_valid false (with_stream_map [] (with_directory None f))) ;;;
  Open ;;;
  let! raw := read_bytes 32 in
  changing (with_raw_header (MDRawHeader_read false raw)) ;;;
  let read_signature := signature (MDRawHeader_read false raw) in
  requires ((read_signature =? MD_HEADER_SIGNATURE) || (Swap 4 read_signature =? MD_HEADER_SIGNATURE)) ;;;
  let swap := negb (read_signature =? MD_HEADER_SIGNATURE) in
  let header := MDRawHeader_read swap raw in
  changing (λ f, with_raw_header header (with_swap swap f)) ;;;
  requires (Z.land (header_version header) 0x0000ffff =? MD_HEADER_VERSION) ;;;
  seek_set (stream_directory_rva header) ;;;
  requires (stream_count header <=? max_streams_) ;;;
  (if stream_count header =? 0 then done_with ()
   else
     let! raw := read_bytes (12 * stream_count header) in
     let directory := read_directory swap raw (stream_count header) in
     index_streams 0 directory ;;;
     changing (with_directory (Some directory))) ;;;
  changing (with_valid true).

Definition GetDirectoryEntryAtIndex (index : Z) f : option MDRawDirectory :=
  if negb (dump_valid_ f) then None
  else if stream_count (header_ f) <=? index then None
  else directory ← directory_ f; directory !! Z.to_nat index.

(** The position in the file is set to the stream's and its length returned.  [None] in the
    directory, or an index out of it, would be undefined; the index is checked. *)
Definition SeekToStreamType (type : Z) : reading O Z :=
  let! f := asking id in
  requires (dump_valid_ f) ;;;
  match lookup_key (stream_map_ f) type with
  | None => failed
  | Some info =>
      requires (stream_index info <? stream_count (header_ f)) ;;;
      match directory_ f ≫= λ directory, directory !! Z.to_nat (stream_index info) with
      | None => failed
      | Some entry => seek_set (rva (location entry)) ;;; done_with (data_size (location entry))
      end
  end.

(** [GetStream<T>]: an object is made of a stream once. *)
Definition GetStream {T} (kStreamType : Z) (to_object : T -> O) (of_object : O -> option T) (Read : Z -> reading O T) : reading O T :=
  let! f := asking id in
  requires (dump_valid_ f) ;;;
  match lookup_key (stream_map_ f) kStreamType with
  | None => failed
  | Some info =>
      match info_stream info with
      | Some o => match of_object o with Some stream => done_with stream | None => failed end
      | None =>
          let! stream_length := SeekToStreamType kStreamType in
          let! stream := Read stream_length in
          changing (λ f, with_stream_map (assign (stream_map_ f) kStreamType (mkStreamInfo (stream_index info) (Some (to_object stream)))) f) ;;;
          done_with stream
      end
  end.

(** ** Strings *)

Definition words_of (raw : list Z) (count : Z) : list Z := (λ i, read_le raw (2 * Z.of_nat i) 2) <$> seq 0 (Z.to_nat count).

Definition ReadString (offset : Z) : reading O cstring :=
  let! valid := asking dump_valid_ in
  requires valid ;;;
  seek_set offset ;;;
  let! bytes := stream_number 4 in
  requires (bytes mod 2 =? 0) ;;;
  let utf16_words := bytes / 2 in
  requires (utf16_words <=? max_string_length_) ;;;
  let! raw := (if utf16_words =? 0 then done_with [] else read_bytes bytes) in
  let! swap := asking (λ f, swap_ (dump f)) in
  match UTF16ToUTF8 (words_of raw utf16_words) swap with Some str => done_with str | None => failed end.

Definition ReadUTF8String (offset : Z) : reading O cstring :=
  let! valid := asking dump_valid_ in
  requires valid ;;;
  seek_set offset ;;;
  let! bytes := stream_number 4 in
  requires (bytes <=? max_string_length_) ;;;
  let! raw := read_bytes bytes in
  done_with (chars raw).

Fixpoint read_strings (rvas : list Z) : reading O (list cstring) :=
  match rvas with
  | [] => done_with []
  | rva :: rvas => let! entry := ReadUTF8String rva in let! string_list := read_strings rvas in done_with (entry :: string_list)
  end.

Definition ReadStringList (offset : Z) : reading O (list cstring) :=
  seek_set offset ;;;
  let! count := stream_number 4 in
  let! raw := read_bytes (4 * count) in
  let! swap := asking get_swap in
  read_strings ((λ i, member swap raw (4 * Z.of_nat i) 4) <$> seq 0 (Z.to_nat count)).

(** [MDRawSimpleStringDictionaryEntry]: the positions of a key and a value.  The first value of
    a key is kept. *)
Fixpoint read_dictionary (entries : list (Z * Z)) (simple_string_dictionary : strmap cstring) : reading O (strmap cstring) :=
  match entries with
  | [] => done_with simple_string_dictionary
  | (key, value) :: entries =>
      let! key := ReadUTF8String key in
      let! value := ReadUTF8String value in
      read_dictionary entries (str_insert simple_string_dictionary key value)
  end.

Definition ReadSimpleStringDictionary (offset : Z) : reading O (strmap cstring) :=
  seek_set offset ;;;
  let! raw_count := read_bytes 4 in
  let! swap := asking get_swap in
  let count := member swap raw_count 0 4 in
  let! raw := read_bytes (8 * count) in
  read_dictionary ((λ i, (member swap raw (8 * Z.of_nat i) 4, member swap raw (8 * Z.of_nat i + 4) 4)) <$> seq 0 (Z.to_nat count)) [].
End methods.

(** ** What the conversion does to UTF-16 *)

(** The bytes of a code point in UTF-8 and its words in UTF-16. *)
Definition utf8 (c : Z) : list Z :=
  if c <? 0x80 then [c]
  else if c <? 0x800 then [0xc0 + c / 64; 0x80 + c mod 64]
  else if c <? 0x10000 then [0xe0 + c / 4096; 0x80 + c / 64 mod 64; 0x80 + c mod 64]
  else [0xf0 + c / 262144; 0x80 + c / 4096 mod 64; 0x80 + c / 64 mod 64; 0x80 + c mod 64].

Definition utf16 (c : Z) : list Z :=
  if c <? 0x10000 then [c] else [0xd800 + (c - 0x10000) / 1024; 0xdc00 + (c - 0x10000) mod 1024].

Definition scalar (c : Z) : Prop := 0 <= c < 0xd800 \/ 0xe000 <= c < 0x110000.

(** A word as it is read on a host of the other byte order. *)
Definition stored (swap : bool) (word : Z) : Z := if swap then word mod 256 * 256 + word / 256 else word.

(** The character that the conversion takes a character for: one past 16 bits has its second
    word compared with 0xdc00 to 0xdcff, as it is stored. *)
Definition seen (swap : bool) (c : Z) : option Z :=
  if c <? 0x10000 then Some c
  else
    let low := stored swap (0xdc00 + (c - 0x10000) mod 1024) in
    if (0xdc00 <=? low) && (low <=? 0xdcff) then Some (c - (c - 0x10000) mod 1024 + (low - 0xdc00)) else None.

Lemma lor_high a b k : 0 <= k -> 0 <= b < 2 ^ k -> Z.lor (a * 2 ^ k) b = a * 2 ^ k + b.
Proof.
  intros Hk Hb. pose proof (Z.add_lor_land (a * 2 ^ k) b) as E.
  assert (Z.land (a * 2 ^ k) b = 0) as E0; [|lia]. destruct (Z.eq_dec b 0) as [->|Hne]; [apply Z.land_0_r|]. apply Z.bits_inj_0. intros i. rewrite Z.land_spec.
  destruct (Z_lt_ge_dec i k).
  - destruct (Z_lt_ge_dec i 0); [by rewrite !Z.testbit_neg_r by lia|]. by rewrite Z.mul_pow2_bits_low by lia.
  - rewrite (Z.bits_above_log2 b i); [apply andb_false_r|lia|]. apply Z.log2_lt_pow2; [lia|].
    apply Z.lt_le_trans with (2 ^ k); [lia|]. apply Z.pow_le_mono_r; lia.
Qed.

Lemma low_bits c n : 0 <= n -> Z.lor 0x80 (Z.land (Z.shiftr c n) 0x3f) = 0x80 + c / 2 ^ n mod 64.
Proof.
  intros Hn. rewrite Z.shiftr_div_pow2 by done. change 0x3f with (Z.ones 6). rewrite Z.land_ones by lia.
  apply (lor_high 2 _ 6); [lia|]. apply Z.mod_pos_bound. lia.
Qed.

Lemma append_unichar_utf8 c : 0 <= c < 0x200000 -> append_unichar c = Some (utf8 c).
Proof.
  intros Hc. unfold append_unichar, utf8. rewrite !low_bits by lia. change (2 ^ 0) with 1. rewrite Z.div_1_r, !Z.shiftr_div_pow2 by lia.
  change (2 ^ 6) with 64. change (2 ^ 12) with 4096. change (2 ^ 18) with 262144. repeat dif.
  - done.
  - rewrite (lor_high 6 _ 5); [done|lia|]. change (2 ^ 5) with 32. split; [apply Z.div_pos; lia|apply Z.div_lt_upper_bound; lia].
  - rewrite (lor_high 14 _ 4); [done|lia|]. change (2 ^ 4) with 16. split; [apply Z.div_pos; lia|apply Z.div_lt_upper_bound; lia].
  - rewrite (lor_high 30 _ 3); [done|lia|]. change (2 ^ 3) with 8. split; [apply Z.div_pos; lia|apply Z.div_lt_upper_bound; lia].
  - lia.
Qed.

Lemma Swap_stored w : fits 16 w -> Swap 2 (stored true w) = w.
Proof.
  unfold fits. change (2 ^ 16) with 65536. intros Hw. cbn [stored].
  pose proof (Z.mod_pos_bound w 256 ltac:(lia)). pose proof (Z.div_pos w 256 ltac:(lia) ltac:(lia)). pose proof (Z.div_lt_upper_bound w 256 256 ltac:(lia) ltac:(lia)).
  rewrite Swap_val by (try unfold fits; change (2 ^ (8 * Z.of_nat 2)) with 65536; auto; lia).
  cbv [le_bytes rev app le_val]. assert ((w mod 256 * 256 + w / 256) mod 256 = w / 256) as ->.
  { rewrite Z.add_comm, Z_mod_plus_full. apply Z.mod_small. lia. }
  assert ((w mod 256 * 256 + w / 256) / 256 = w mod 256) as ->. { rewrite Z.div_add_l by lia. rewrite (Z.div_small (w / 256)) by lia. lia. }
  rewrite (Z.mod_small (w mod 256)) by lia. pose proof (Z.div_mod w 256 ltac:(lia)). lia.
Qed.

Lemma swapped_stored (swap : bool) w : fits 16 w -> (if swap then Swap 2 (stored swap w) else stored swap w) = w.
Proof. intros Hw. destruct swap; [by apply Swap_stored|done]. Qed.

Lemma utf16_conversion (swap : bool) (cs : list Z) :
  Forall scalar cs ->
  UTF16ToUTF8 (concat ((λ c, stored swap <$> utf16 c) <$> cs)) swap = (λ l, chars (concat (utf8 <$> l))) <$> mapM (seen swap) cs /\
  Forall (λ c, seen swap c = Some c <-> c < 0x10000 \/ (if swap then (c - 0x10000) mod 1024 = 0xdc else (c - 0x10000) mod 1024 < 0x100)) cs.
Proof.
  intros Hcs. split.
  - induction Hcs as [|c cs Hc _ IH]; [done|]. cbn [fmap list_fmap concat mapM]. destruct (c <? 0x10000) eqn:E.
    + assert (utf16 c = [c]) as -> by (unfold utf16; by rewrite E). assert (seen swap c = Some c) as -> by (unfold seen; by rewrite E). breflect.
      cbn [fmap list_fmap app UTF16ToUTF8]. assert (Hw: fits 16 c) by (unfold scalar in Hc; unfold fits; lia). rewrite swapped_stored by done.
      assert ((0xdc00 <=? c) && (c <=? 0xdcff) = false) as ->. { unfold scalar in Hc. apply andb_false_iff. rewrite !Z.leb_gt. lia. }
      assert ((0xd800 <=? c) && (c <=? 0xdbff) = false) as ->. { unfold scalar in Hc. apply andb_false_iff. rewrite !Z.leb_gt. lia. }
      rewrite append_unichar_utf8 by (unfold scalar in Hc; lia). cbn [mbind option_bind]. rewrite IH. destruct (mapM (seen swap) cs); [|done]. cbn. unfold chars. by rewrite fmap_app.
    + assert (utf16 c = [0xd800 + (c - 0x10000) / 1024; 0xdc00 + (c - 0x10000) mod 1024]) as -> by (unfold utf16; by rewrite E).
      assert (Es: seen swap c = let low := stored swap (0xdc00 + (c - 0x10000) mod 1024) in
        if (0xdc00 <=? low) && (low <=? 0xdcff) then Some (c - (c - 0x10000) mod 1024 + (low - 0xdc00)) else None) by (unfold seen; by rewrite E).
      cbv zeta in Es. breflect. set (v := c - 0x10000) in *. assert (Hv: 0 <= v < 2 ^ 20) by (unfold scalar in Hc; change (2 ^ 20) with 0x100000; lia). change (2 ^ 20) with 0x100000 in Hv.
      pose proof (Z.mod_pos_bound v 1024 ltac:(lia)) as Hm. pose proof (Z.div_pos v 1024 ltac:(lia) ltac:(lia)) as Hd.
      pose proof (Z.div_lt_upper_bound v 1024 1024 ltac:(lia) ltac:(lia)) as Hd'. pose proof (Z.div_mod v 1024 ltac:(lia)) as Ev.
      cbn [fmap list_fmap app UTF16ToUTF8]. rewrite swapped_stored by (unfold fits; change (2 ^ 16) with 65536; lia).
      assert ((0xdc00 <=? 0xd800 + v / 1024) = false) as -> by lia. assert ((0xd800 <=? 0xd800 + v / 1024) && (0xd800 + v / 1024 <=? 0xdbff) = true) as -> by lia.
      cbn [andb]. set (low := stored swap (0xdc00 + v mod 1024)) in *. rewrite Es. clear Es.
      destruct ((0xdc00 <=? low) && (low <=? 0xdcff)) eqn:El; rewrite ?andb_true_iff, ?andb_false_iff in El.
      * destruct El as [El1 El2]. breflect. assert ((low <? 0xdc00) || (0xdcff <? low) = false) as -> by (apply orb_false_iff; rewrite !Z.ltb_ge; lia).
        change 0x03ff with (Z.ones 10). rewrite Z.land_ones by lia. unfold u32. rewrite Z.shiftl_mul_pow2 by lia. change (2 ^ 10) with 1024.
        rewrite wrap_small by (unfold fits; change (2 ^ 32) with 4294967296; lia). rewrite (lor_high _ _ 10) by (change (2 ^ 10) with 1024; try apply Z.mod_pos_bound; lia).
        change (2 ^ 10) with 1024. assert (low mod 1024 = low - 0xdc00) as ->.
        { replace low with (low - 0xdc00 + 55 * 1024) at 1 by lia. rewrite Z_mod_plus_full. apply Z.mod_small. lia. }
        replace ((0xd800 + v / 1024 - 0xd7c0) * 1024 + (low - 0xdc00)) with (c - v mod 1024 + (low - 0xdc00)) by lia.
        rewrite append_unichar_utf8 by lia. cbn [mbind option_bind]. rewrite IH. destruct (mapM (seen swap) cs); [|done]. cbn. unfold chars. by rewrite fmap_app.
      * assert ((low <? 0xdc00) || (0xdcff <? low) = true) as -> by (apply orb_true_iff; rewrite !Z.ltb_lt; rewrite !Z.leb_gt in El; lia). done.
  - eapply Forall_impl; [exact Hcs|]. intros c Hc. unfold seen. destruct (c <? 0x10000) eqn:E; breflect; [by split; [left|]|].
    set (v := (c - 0x10000) mod 1024). pose proof (Z.mod_pos_bound (c - 0x10000) 1024 ltac:(lia)) as Hm. fold v in Hm.
    destruct swap; cbn [stored].
    + set (w := 0xdc00 + v). pose proof (Z.mod_pos_bound w 256 ltac:(lia)) as Hw. pose proof (Z.div_mod w 256 ltac:(lia)) as Ew.
      destruct (_ && _) eqn:El; rewrite ?andb_true_iff, ?andb_false_iff in El; rewrite ?Z.leb_le, ?Z.leb_gt in El.
      * split; [intros [= Ec]; right; lia|]. intros [?|Ev]; [lia|]. f_equal. lia.
      * split; [done|]. intros [?|Ev]; lia.
    + destruct (_ && _) eqn:El; rewrite ?andb_true_iff, ?andb_false_iff in El; rewrite ?Z.leb_le, ?Z.leb_gt in El.
      * split; [intros _; right; lia|]. intros _. f_equal. lia.
      * split; [done|]. lia.
Qed.

(** converting well-formed UTF-16 of either byte order gives the UTF-8 of the characters the
    code takes its characters for, [seen], and fails if it takes one for none.  Those of 16
    bits are taken for themselves; of the others only those whose second word is at most
    0xdcff, in a dump of the host's byte order, and in one of the other order only those
    whose second word is 0xdcdc. *)
Lemma utf16_to_utf8 (swap : bool) (cs : list Z) :
  Forall scalar cs ->
  UTF16ToUTF8 (concat ((λ c, stored swap <$> utf16 c) <$> cs)) swap = (λ l, chars (concat (utf8 <$> l))) <$> mapM (seen swap) cs /\
  Forall (λ c, seen swap c = Some c <-> c < 0x10000 \/ (if swap then (c - 0x10000) mod 1024 = 0xdc else (c - 0x10000) mod 1024 < 0x100)) cs.
Proof. apply utf16_conversion. Qed.

Lemma utf16_to_utf8_witness :
  UTF16ToUTF8 [0x41; 0x20ac; 0xd800; 0xdc48] false = Some (chars [0x41; 0xe2; 0x82; 0xac; 0xf0; 0x90; 0x81; 0x88]) /\
  UTF16ToUTF8 (concat ((λ c, stored false <$> utf16 c) <$> [0x1f600])) false = None.
Proof.
  split.
  - rewrite (proj1 (utf16_to_utf8 false [0x41; 0x20ac; 0x10048] ltac:(repeat constructor; unfold scalar; lia)) :
      UTF16ToUTF8 [0x41; 0x20ac; 0xd800; 0xdc48] false = _). reflexivity.
  - rewrite (proj1 (utf16_to_utf8 false [0x1f600] ltac:(repeat constructor; unfold scalar; lia))). reflexivity.
Defined.

(** ** What is laid out in the file *)

(** A number of [n] bytes in the byte order of the dump. *)
Definition order (swap : bool) (n : nat) (v : Z) : list Z := if swap then rev (le_bytes n v) else le_bytes n v.

Lemma length_order swap n v : length (order swap n v) = n.
Proof. destruct swap; cbn [order]; rewrite ?length_rev; apply length_le_bytes. Qed.

Lemma member_read swap n raw offset v :
  sizes_ok n -> fits (8 * Z.of_nat n) v -> holds raw offset (order swap n v) -> member swap raw offset n = v.
Proof.
  intros Hn Hv [_ H]. unfold member, read_le. rewrite length_order in H. rewrite H. destruct swap; cbn [order].
  - assert (Hok: Forall byte_ok (rev (le_bytes n v))) by (apply Forall_rev, le_bytes_ok).
    rewrite Swap_val; [|done|].
    + replace n with (length (rev (le_bytes n v))) at 1 by (by rewrite length_rev, length_le_bytes).
      rewrite le_bytes_val by done. rewrite rev_involutive. by apply le_val_fits.
    + pose proof (le_val_range _ Hok) as Hr. by rewrite length_rev, length_le_bytes in Hr.
  - by apply le_val_fits.
Qed.

Section reads.
Context {O : Type} (contents : list Z) (swap : bool).
Implicit Types (f : DumpFile O).

(** The dump with its stream at a position. *)
Definition at_position (p : Z) f : DumpFile O := with_dump (mkMinidump (Some (mkStream contents p true)) swap) f.

Lemma after_some {A B} (m : reading O A) (k : A -> reading O B) a f f' : m f = (Some a, f') -> after m k f = k a f'.
Proof. unfold after. by intros ->. Qed.

Lemma after_none {A B} (m : reading O A) (k : A -> reading O B) f f' : m f = (None, f') -> after m k f = (None, f').
Proof. unfold after. by intros ->. Qed.

Lemma requires_true (b : bool) f : b = true -> requires b f = (Some (), f).
Proof. by intros ->. Qed.

Lemma seek_set_at p q f : seek_set q (at_position p f) = (Some (), at_position q f).
Proof. done. Qed.

Lemma read_bytes_at p bs f :
  holds contents p bs -> read_bytes (Z.of_nat (length bs)) (at_position p f) = (Some bs, at_position (p + Z.of_nat (length bs)) f).
Proof.
  intros [Hp H]. unfold read_bytes, ReadBytes, at_position. cbn [dump with_dump stream_ sgood sbytes spos swap_]. rewrite Nat2Z.id, H, Z.eqb_refl. done.
Qed.

(** A read that the rest of the file is too short for. *)
Lemma read_bytes_short p count f :
  0 <= p -> Z.of_nat (length contents) < p + count -> 0 < count -> (read_bytes count (at_position p f)).1 = None.
Proof.
  intros Hp Hs Hc. unfold read_bytes, ReadBytes, at_position. cbn [dump with_dump stream_ sgood sbytes spos swap_ fst].
  assert (Z.of_nat (length (slice contents p (Z.to_nat count))) =? count = false) as ->; [|done].
  apply Z.eqb_neq. unfold slice. rewrite length_take, length_drop. lia.
Qed.

Lemma stream_number_at n p v f :
  sizes_ok n -> fits (8 * Z.of_nat n) v -> holds contents p (order swap n v) ->
  stream_number n (at_position p f) = (Some v, at_position (p + Z.of_nat n) f).
Proof.
  intros Hn Hv H. unfold stream_number. pose proof (read_bytes_at p _ f H) as Hr. rewrite length_order in Hr. rewrite (after_some _ _ _ _ _ Hr).
  unfold after, asking, done_with, at_position. cbn [dump with_dump swap_]. rewrite (member_read _ _ _ 0 v Hn Hv); [done|].
  split; [lia|]. unfold slice. cbn. rewrite drop_0. by apply take_ge.
Qed.
End reads.

(** After a short read the stream stays as it is: nothing else is read. *)
Lemma read_failure {O} (f f' : DumpFile O) count count' offset :
  read_bytes count f = (None, f') -> 0 < count' ->
  (read_bytes count' f').1 = None /\ (seek_set offset f').1 = None.
Proof.
  unfold read_bytes, ReadBytes, seek_set, SeekSet. destruct (stream_ (dump f)) as [s|] eqn:Es.
  - destruct (_ =? count) eqn:Ec; cbn [negb]; [done|]. intros [= <-] Hc. cbn [dump with_dump stream_ sgood fst]. rewrite andb_false_r. cbn [sgood]. split; [|done].
    cbn [length]. change (Z.of_nat 0) with 0. by rewrite (proj2 (Z.eqb_neq 0 count')) by lia.
  - intros [= <-] _. cbn [dump with_dump]. by rewrite Es.
Qed.

(** ** The header and the directory *)

Definition header_bytes (swap : bool) (h : MDRawHeader) : list Z :=
  order swap 4 (signature h) ++ order swap 4 (header_version h) ++ order swap 4 (stream_count h) ++ order swap 4 (stream_directory_rva h) ++
  order swap 4 (checksum h) ++ order swap 4 (time_date_stamp h) ++ order swap 8 (flags h).

Definition header_fits (h : MDRawHeader) : Prop :=
  fits 32 (signature h) /\ fits 32 (header_version h) /\ fits 32 (stream_count h) /\ fits 32 (stream_directory_rva h) /\
  fits 32 (checksum h) /\ fits 32 (time_date_stamp h) /\ fits 64 (flags h).

Definition location_bytes (swap : bool) (l : MDLocationDescriptor) : list Z := order swap 4 (data_size l) ++ order swap 4 (rva l).
Definition location_fits (l : MDLocationDescriptor) : Prop := fits 32 (data_size l) /\ fits 32 (rva l).

Definition entry_bytes (swap : bool) (e : MDRawDirectory) : list Z := order swap 4 (stream_type e) ++ location_bytes swap (location e).
Definition entry_fits (e : MDRawDirectory) : Prop := fits 32 (stream_type e) /\ location_fits (location e).

(** The streams that there may be one of occur once. *)
Definition singles (directory : list MDRawDirectory) : list Z := filter (λ t, single_stream t = true) (stream_type <$> directory).

(** The place of the last stream of a type. *)
Fixpoint last_at (type : Z) (directory : list MDRawDirectory) : option nat :=
  match directory with
  | [] => None
  | e :: directory => match last_at type directory with Some i => Some (S i) | None => if stream_type e =? type then Some O else None end
  end.

(** A minidump in the byte order of the host, or the other. *)
Record dump_laid_out (contents : list Z) (swap : bool) (h : MDRawHeader) (directory : list MDRawDirectory) : Prop := {
  dl_header : holds contents 0 (header_bytes swap h) /\ header_fits h;
  dl_signature : signature h = MD_HEADER_SIGNATURE /\ header_version h mod 2 ^ 16 = MD_HEADER_VERSION;
  dl_count : stream_count h = Z.of_nat (length directory) /\ stream_count h <= max_streams_;
  dl_directory : holds contents (stream_directory_rva h) (concat (entry_bytes swap <$> directory)) /\ Forall entry_fits directory
}.

Lemma order_inj_signature swap v : fits 32 v ->
  read_le (order swap 4 v) 0 4 = if swap then Swap 4 v else v.
Proof.
  intros Hv. unfold read_le, slice. cbn [Z.to_nat]. rewrite drop_0, take_ge by (rewrite length_order; lia).
  destruct swap; cbn [order]; [|by apply le_val_fits]. symmetry. apply Swap_val; [by unfold sizes_ok; auto|done].
Qed.

Lemma raw_header_read swap raw h : holds raw 0 (header_bytes swap h) -> header_fits h -> MDRawHeader_read swap raw = h.
Proof.
  intros H (H1 & H2 & H3 & H4 & H5 & H6 & H7). unfold header_bytes in H. rewrite !holds_app, !length_order in H.
  destruct H as (? & ? & ? & ? & ? & ? & ?). unfold MDRawHeader_read. destruct h. cbn in *.
  f_equal; (apply member_read; [unfold sizes_ok; auto|done|done]).
Qed.

Lemma length_header_bytes swap h : length (header_bytes swap h) = 32%nat.
Proof. unfold header_bytes. by rewrite !length_app, !length_order. Qed.

Lemma location_read_bytes swap raw p l : holds raw p (location_bytes swap l) -> location_fits l -> location_read swap raw p = l.
Proof.
  intros H [H1 H2]. unfold location_bytes in H. rewrite holds_app, length_order in H. destruct H as [Ha Hb]. unfold location_read. destruct l. cbn in *.
  f_equal; (apply member_read; [unfold sizes_ok; auto|done|done]).
Qed.

Lemma length_location_bytes swap l : length (location_bytes swap l) = 8%nat.
Proof. unfold location_bytes. by rewrite length_app, !length_order. Qed.

(** Structures of a fixed size, one after the other. *)
Lemma read_array {A} (size : nat) (bytes : A -> list Z) (read : list Z -> Z -> A) (ok : A -> Prop) (l : list A) raw p :
  (forall a, length (bytes a) = size) -> (forall raw p a, ok a -> holds raw p (bytes a) -> read raw p = a) ->
  Forall ok l -> holds raw p (concat (bytes <$> l)) ->
  ((λ i, read raw (p + Z.of_nat size * Z.of_nat i)) <$> seq 0 (length l)) = l.
Proof.
  intros Hs Hr Hl. revert p. induction Hl as [|a l Ha _ IH]; intros p H; [done|]. cbn [length seq fmap list_fmap concat] in *.
  apply holds_app in H as [H1 H2]. rewrite Hs in H2. f_equal; [rewrite Z.mul_0_r, Z.add_0_r; by apply Hr|].
  rewrite <- (IH _ H2) at 2. rewrite <- fmap_S_seq, <- list_fmap_compose. apply list_fmap_ext. intros i x _. cbn. f_equal. lia.
Qed.

Lemma length_concat_const {A B} (size : nat) (f : A -> list B) (l : list A) : (forall a, length (f a) = size) -> length (concat (f <$> l)) = (size * length l)%nat.
Proof. intros Hs. induction l as [|a l IH]; [cbn; lia|]. cbn [fmap list_fmap concat length] in *. rewrite length_app, IH, Hs. lia. Qed.

Lemma entry_read swap raw p e : entry_fits e -> holds raw p (entry_bytes swap e) -> MDRawDirectory_read swap raw p = e.
Proof.
  intros [H1 H2] H. unfold entry_bytes in H. rewrite holds_app, length_order in H. destruct H as [Ha Hb]. unfold MDRawDirectory_read. destruct e. cbn in *.
  f_equal; [apply member_read; [unfold sizes_ok; auto|done|done]|by apply location_read_bytes].
Qed.

Lemma length_entry_bytes swap e : length (entry_bytes swap e) = 12%nat.
Proof. unfold entry_bytes. by rewrite length_app, length_order, length_location_bytes. Qed.

Lemma bytes_ok_of bs : forallb (λ b, (0 <=? b) && (b <? 256)) bs = true -> Forall byte_ok bs.
Proof.
  intros Hall. rewrite forallb_forall in Hall. apply Forall_forall. intros b Hb. apply list_elem_of_In in Hb. apply Hall, andb_true_iff in Hb as [?%Z.leb_le ?%Z.ltb_lt].
  unfold byte_ok, fits. change (2 ^ 8) with 256. lia.
Qed.

Lemma holds_self bs : holds bs 0 bs.
Proof. pose proof (holds_here [] bs []) as H. by rewrite app_nil_l, app_nil_r in H. Qed.

Lemma read_directory_bytes swap directory :
  Forall entry_fits directory -> read_directory swap (concat (entry_bytes swap <$> directory)) (Z.of_nat (length directory)) = directory.
Proof.
  intros Hd. unfold read_directory. rewrite Nat2Z.id.
  exact (read_array 12 (entry_bytes swap) (MDRawDirectory_read swap) entry_fits directory _ 0 (length_entry_bytes swap)
    (λ raw p e He H, entry_read swap raw p e He H) Hd (holds_self _)).
Qed.

(** ** The index of the streams *)

Section index.
Context {O : Type}.
Implicit Types (map : smap (StreamInfo O)) (f : DumpFile O).

Fixpoint map_of (index : Z) (directory : list MDRawDirectory) map : smap (StreamInfo O) :=
  match directory with
  | [] => map
  | entry :: directory => map_of (index + 1) directory (set_stream_index (stream_type entry) index map)
  end.

(** A map without objects. *)
Definition fresh map : Prop := sorted map /\ forall t info, lookup_key map t = Some info -> info_stream info = None.

Lemma lookup_set map t index t' : fresh map ->
  lookup_key (set_stream_index t index map) t' = if t' =? t then Some (mkStreamInfo index None) else lookup_key map t'.
Proof.
  intros [Hs Hf]. unfold set_stream_index. rewrite lookup_key_assign by done. destruct (t' =? t); [|done]. f_equal. f_equal.
  destruct (lookup_key map t) as [info|] eqn:E; [|done]. cbn. by eapply Hf.
Qed.

Lemma fresh_set map t index : fresh map -> fresh (set_stream_index t index map).
Proof.
  intros Hf. split; [apply sorted_assign, Hf|]. intros t' info. rewrite lookup_set by done. destruct (t' =? t); [by intros [= <-]|by apply Hf].
Qed.

Lemma lookup_map_of directory : forall index map t, fresh map ->
  lookup_key (map_of index directory map) t =
  match last_at t directory with Some i => Some (mkStreamInfo (index + Z.of_nat i) None) | None => lookup_key map t end.
Proof.
  induction directory as [|e directory IH]; intros index map t Hf; [done|]. cbn [map_of last_at]. rewrite IH by (by apply fresh_set).
  destruct (last_at t directory) as [i|]; [do 2 f_equal; lia|]. rewrite lookup_set, (Z.eqb_sym t) by done. destruct (stream_type e =? t); [|done].
  do 2 f_equal. lia.
Qed.

Lemma index_streams_holds directory : forall index f,
  fresh (stream_map_ f) ->
  let once := NoDup (singles directory) /\ Forall (λ t, lookup_key (stream_map_ f) t = None) (singles directory) in
  (once -> index_streams index directory f = (Some (), with_stream_map (map_of index directory (stream_map_ f)) f)) /\
  (~ once -> (index_streams index directory f).1 = None).
Proof.
  induction directory as [|e directory IH]; intros index f Hf once; subst once; [split; [by destruct f|intros Hno; destruct Hno; by split; constructor]|].
  cbn [index_streams map_of]. unfold after, asking, requires, changing, done_with, failed. cbn beta iota.
  set (t := stream_type e) in *.
  assert (Es: singles (e :: directory) = if single_stream t then t :: singles directory else singles directory).
  { unfold singles. cbn [fmap list_fmap]. rewrite filter_cons. fold t. by destruct (single_stream t). }
  rewrite Es. clear Es. pose proof (IH (index + 1) (with_stream_map (set_stream_index t index (stream_map_ f)) f) (fresh_set _ t index Hf)) as IH'.
  cbn [stream_map_ with_stream_map] in IH'. cbv zeta in IH'. destruct IH' as [IH1 IH2].
  assert (Hl: forall l, Forall (λ t', lookup_key (set_stream_index t index (stream_map_ f)) t' = None) l <->
    t ∉ l /\ Forall (λ t', lookup_key (stream_map_ f) t' = None) l).
  { intros l. rewrite !Forall_forall. split.
    - intros Hall. split; [intros Hin; specialize (Hall _ Hin); by rewrite lookup_set, Z.eqb_refl in Hall|].
      intros x Hx. specialize (Hall _ Hx). rewrite lookup_set in Hall by done. by destruct (x =? t).
    - intros [Hn Hall] x Hx. rewrite lookup_set by done. destruct (x =? t) eqn:E; [|by apply Hall]. breflect. by subst x. }
  destruct (single_stream t) eqn:Et; cbn [andb].
  - rewrite NoDup_cons, Forall_cons. destruct (lookup_key (stream_map_ f) t) as [info|] eqn:El; cbn [negb].
    + split; [by intros [_ [? _]]|done].
    + split.
      * intros [[Hn Hnd] [_ Hall]]. apply IH1. split; [done|]. by apply Hl.
      * intros Hno. apply IH2. intros [Hnd [Hn Hall]%Hl]. by apply Hno.
  - cbn [negb]. assert (Hn: t ∉ singles directory). { unfold singles. rewrite list_elem_of_filter. rewrite Et. by intros [? _]. } split.
    + intros [Hnd Hall]. apply IH1. split; [done|]. by apply Hl.
    + intros Hno. apply IH2. intros [Hnd [_ Hall]%Hl]. by apply Hno.
Qed.
End index.

(** ** Reading a dump *)

Section read_dump.
Context {O : Type} (contents : list Z) (swap : bool) (h : MDRawHeader) (directory : list MDRawDirectory).
Context (Hl : dump_laid_out contents swap h directory).

(** The dump when it has been read, with its stream at a position. *)
Definition read_dump (p : Z) : DumpFile O :=
  mkDumpFile (mkMinidump (Some (mkStream contents p true)) swap) h (match directory with [] => None | _ => Some directory end)
    (map_of 0 directory []) (Some contents) true.

Lemma fresh_nil : fresh ([] : smap (StreamInfo O)).
Proof. split; [apply sorted_nil|done]. Qed.

(** The signature is the host's own, or its swapped form. *)
Lemma raw_signature : let raw := header_bytes swap h in
  (signature (MDRawHeader_read false raw) =? MD_HEADER_SIGNATURE) || (Swap 4 (signature (MDRawHeader_read false raw)) =? MD_HEADER_SIGNATURE) = true /\
  negb (signature (MDRawHeader_read false raw) =? MD_HEADER_SIGNATURE) = swap.
Proof.
  intros raw. assert (signature (MDRawHeader_read false raw) = if swap then Swap 4 MD_HEADER_SIGNATURE else MD_HEADER_SIGNATURE) as ->.
  { destruct (dl_signature _ _ _ _ Hl) as [Es _]. rewrite <- Es. rewrite <- (order_inj_signature swap (signature h)); [|apply (dl_header _ _ _ _ Hl)].
    unfold MDRawHeader_read, member. cbn [signature]. unfold read_le, slice, raw, header_bytes. change (Z.to_nat 0) with 0%nat. rewrite !drop_0.
    rewrite (take_app_le (order swap 4 (signature h))) by (rewrite length_order; lia). done. }
  destruct swap; vm_compute; by split.
Qed.

(** Up to the directory, which it is left to index. *)
Lemma Read_up_to_directory :
  let rest : reading O () :=
    (if stream_count h =? 0 then done_with ()
     else
       let! raw := read_bytes (12 * stream_count h) in
       let directory := read_directory swap raw (stream_count h) in
       index_streams 0 directory ;;; changing (with_directory (Some directory))) ;;;
    changing (with_valid true) in
  Minidump_Read (Minidump_new (Some contents)) =
  rest (mkDumpFile (mkMinidump (Some (mkStream contents (stream_directory_rva h) true)) swap) h None [] (Some contents) false).
Proof.
  intros rest. destruct (dl_header _ _ _ _ Hl) as [Hh Hf]. destruct (dl_count _ _ _ _ Hl) as [_ Hc]. destruct (dl_signature _ _ _ _ Hl) as [_ Hv].
  destruct raw_signature as [Hs1 Hs2].
  unfold Minidump_Read. unfold after at 1, changing at 1. cbn beta iota. unfold after at 1, Open at 1. cbn [stream_ dump with_valid with_stream_map with_directory Minidump_new path_contents sgood swap_].
  cbn beta iota. set (f0 := with_dump _ _). change f0 with (at_position contents false 0 f0).
  pose proof (read_bytes_at contents false 0 (header_bytes swap h) f0 Hh) as Hr. rewrite length_header_bytes in Hr.
  rewrite (after_some _ _ _ _ _ Hr). unfold after at 1, changing at 1. cbn beta iota. cbv zeta.
  rewrite (after_some _ _ _ _ _ (requires_true _ _ Hs1)), Hs2. rewrite (raw_header_read swap _ h (holds_self _) Hf).
  unfold after at 1, changing at 1. cbn beta iota.
  assert (Z.land (header_version h) 0x0000ffff =? MD_HEADER_VERSION = true) as Hver.
  { change 0x0000ffff with (Z.ones 16). rewrite Z.land_ones, Hv by lia. done. }
  rewrite (after_some _ _ _ _ _ (requires_true _ _ Hver)).
  set (f1 := with_raw_header h _). change f1 with (at_position contents swap 32 f1). rewrite (after_some _ _ _ _ _ (seek_set_at _ _ _ _ _)).
  rewrite (after_some _ _ _ _ _ (requires_true _ _ (proj2 (Z.leb_le _ _) Hc))). done.
Qed.

Lemma Minidump_Read_holds :
  (NoDup (singles directory) ->
   Minidump_Read (Minidump_new (Some contents)) = (Some (), read_dump (stream_directory_rva h + 12 * Z.of_nat (length directory)))) /\
  (~ NoDup (singles directory) -> (Minidump_Read (O := O) (Minidump_new (Some contents))).1 = None).
Proof.
  destruct (dl_count _ _ _ _ Hl) as [Ec Hc]. destruct (dl_directory _ _ _ _ Hl) as [Hd Hf].
  rewrite Read_up_to_directory. cbv zeta. set (f := mkDumpFile _ _ _ _ _ _). destruct (stream_count h =? 0) eqn:E0; breflect.
  - assert (directory = []) as Ed by (destruct directory; [done|cbn in Ec; lia]). unfold read_dump. rewrite Ed. cbn [length].
    replace (stream_directory_rva h + 12 * Z.of_nat 0) with (stream_directory_rva h) by lia. split; [done|]. intros []; constructor.
  - change f with (at_position contents swap (stream_directory_rva h) f).
    pose proof (read_bytes_at contents swap _ _ f Hd) as Hr. rewrite (length_concat_const 12 _ _ (length_entry_bytes swap)) in Hr.
    replace (Z.of_nat (12 * length directory)) with (12 * Z.of_nat (length directory)) in Hr by lia. rewrite <- Ec in Hr.
    assert (Er: read_directory swap (concat (entry_bytes swap <$> directory)) (stream_count h) = directory) by (rewrite Ec; by apply read_directory_bytes).
    unfold after at 1 4. rewrite !(after_some _ _ _ _ _ Hr), Er.
    pose proof (index_streams_holds directory 0 (at_position contents swap (stream_directory_rva h + 12 * stream_count h) f) fresh_nil) as [H1 H2].
    cbn [stream_map_ at_position with_dump f] in H1, H2. split.
    + intros Hnd. unfold after at 1. rewrite H1; [|split; [done|]; by apply Forall_forall]. cbn. unfold read_dump.
      assert (match directory with [] => None | _ :: _ => Some directory end = Some directory) as -> by (destruct directory; [cbn in Ec; lia|done]). rewrite <- Ec. done.
    + intros Hno. specialize (H2 ltac:(by intros [? _])). unfold after. revert H2. destruct (index_streams _ _ _) as [r f']. cbn [fst]. by intros ->.
Qed.

Lemma SeekToStreamType_holds p t :
  match last_at t directory ≫= λ i, directory !! i with
  | Some e => SeekToStreamType t (read_dump p) = (Some (data_size (location e)), read_dump (rva (location e)))
  | None => SeekToStreamType t (read_dump p) = (None, read_dump p)
  end.
Proof.
  unfold SeekToStreamType, after, asking, requires, done_with, failed, id. cbn [dump_valid_ read_dump stream_map_]. rewrite (lookup_map_of directory 0 [] t fresh_nil). destruct (dl_count _ _ _ _ Hl) as [Ec _].
  assert (Hb: forall i, last_at t directory = Some i -> (i < length directory)%nat).
  { clear. induction directory as [|e l IH]; cbn; intros i Hi; [done|]. destruct (last_at t l) as [j|]; [|destruct (_ =? _)]; simplify_eq; [|lia].
    specialize (IH _ eq_refl). lia. }
  destruct (last_at t directory) as [i|] eqn:Ei; cbn [mbind option_bind]; [|done]. specialize (Hb _ eq_refl).
  destruct (lookup_lt_is_Some_2 directory i Hb) as [e He]. rewrite He. cbn [stream_index header_ read_dump directory_]. rewrite Z.add_0_l.
  rewrite Ec, (proj2 (Z.ltb_lt _ _)) by lia. rewrite Nat2Z.id.
  assert (match directory with [] => None | _ :: _ => Some directory end = Some directory) as -> by (by destruct directory). cbn [mbind option_bind]. rewrite He. done.
Qed.
End read_dump.

(** C25: reading a minidump laid out in the byte order of the host or in the other succeeds unless
    it has two of the streams that there may be one of, finds out its byte order, and then
    finds every stream: seeking a type goes to the last stream of the type in the directory
    and gives its length, or fails when there is none. *)
Theorem minidump_read {O : Type} (contents : list Z) (swap : bool) (h : MDRawHeader) (directory : list MDRawDirectory) :
  dump_laid_out contents swap h directory ->
  (~ NoDup (singles directory) -> (Minidump_Read (O := O) (Minidump_new (Some contents))).1 = None) /\
  (NoDup (singles directory) -> exists f : DumpFile O,
     Minidump_Read (Minidump_new (Some contents)) = (Some (), f) /\ get_swap f = swap /\ header_ f = h /\
     (forall i, GetDirectoryEntryAtIndex (Z.of_nat i) f = directory !! i) /\
     forall t, match last_at t directory ≫= λ i, directory !! i with
       | Some e => exists f', SeekToStreamType t f = (Some (data_size (location e)), f') /\
           dump f' = mkMinidump (Some (mkStream contents (rva (location e)) true)) swap
       | None => SeekToStreamType t f = (None, f)
       end).
Proof.
  intros Hl. destruct (Minidump_Read_holds (O := O) contents swap h directory Hl) as [H1 H2]. split; [done|]. intros Hnd. eexists. split; [by apply H1|].
  split_and!; [done|done| |].
  - intros i. unfold GetDirectoryEntryAtIndex. cbn [dump_valid_ read_dump negb header_ directory_]. destruct (dl_count _ _ _ _ Hl) as [-> _].
    destruct (_ <=? _) eqn:E; breflect; [symmetry; apply lookup_ge_None_2; lia|]. rewrite Nat2Z.id. by destruct directory.
  - intros t. pose proof (SeekToStreamType_holds (O := O) contents swap h directory Hl (stream_directory_rva h + 12 * Z.of_nat (length directory)) t) as Hs.
    destruct (last_at t directory ≫= _) as [e|]; [|done]. eexists. split; [exact Hs|done].
Qed.

Definition demo_header : MDRawHeader := mkRawHeader MD_HEADER_SIGNATURE 0x1234a793 3 32 0 0x5f000000 2.
Definition demo_directory : list MDRawDirectory :=
  [mkRawDirectory MD_LINUX_MAPS (mkLoc 4 68); mkRawDirectory MD_SYSTEM_INFO_STREAM (mkLoc 56 72); mkRawDirectory MD_LINUX_MAPS (mkLoc 8 128)].
Definition demo_minidump (swap : bool) : list Z := header_bytes swap demo_header ++ concat (entry_bytes swap <$> demo_directory).

Lemma demo_dump_laid_out swap : dump_laid_out (demo_minidump swap) swap demo_header demo_directory.
Proof.
  split.
  - split; [destruct swap; (split; [done|reflexivity])|]. unfold header_fits, fits. cbn. unfold MD_HEADER_SIGNATURE. lia.
  - split; reflexivity.
  - split; [reflexivity|]. unfold max_streams_. cbn. lia.
  - split; [destruct swap; (split; [done|reflexivity])|].
    repeat constructor; unfold fits; cbn; unfold MD_LINUX_MAPS, MD_SYSTEM_INFO_STREAM; lia.
Qed.

Lemma demo_once : NoDup (singles demo_directory).
Proof. change (singles demo_directory) with [MD_SYSTEM_INFO_STREAM]. apply NoDup_singleton. Qed.

Lemma minidump_read_witness :
  exists f : DumpFile (), Minidump_Read (Minidump_new (Some (demo_minidump true))) = (Some (), f) /\ get_swap f = true /\
    (exists f', SeekToStreamType MD_LINUX_MAPS f = (Some 8, f') /\ dump f' = mkMinidump (Some (mkStream (demo_minidump true) 128 true)) true) /\
    SeekToStreamType MD_EXCEPTION_STREAM f = (None, f).
Proof.
  destruct (proj2 (minidump_read (O := ()) (demo_minidump true) true demo_header demo_directory (demo_dump_laid_out true)) demo_once) as (f & Hr & Hs & _ & _ & Ht).
  exists f. split; [exact Hr|]. split; [exact Hs|]. split; [exact (Ht MD_LINUX_MAPS)|exact (Ht MD_EXCEPTION_STREAM)].
Defined.
