(* ===== verification/MinidumpSystem.v ===== *)
(** processor/minidump.cc, google_breakpad/common/minidump_format.h: [MinidumpSystemInfo], and
    what a minidump asks of it: whether it is Android's, and the CPU of its contexts. *)
From Stdlib Require Import Ascii.
From stdpp Require Import list.
From S2P Require Import Prelude StdMap CStr Memory MemoryRegion StackwalkerMIPS DumpContext MinidumpFile.

(** ** Data *)

Record MDRawSystemInfo := mkSystemInfo {
  processor_architecture : Z;
  processor_level : Z;
  processor_revision : Z;
  number_of_processors : Z;
  product_type : Z;
  major_version : Z;
  minor_version : Z;
  build_number : Z;
  platform_id : Z;
  csd_version_rva : Z;
  suite_mask : Z;
  reserved2 : Z;
  cpu : list Z
}.

Definition MD_CPU_ARCHITECTURE_X86 := 0.
Definition MD_CPU_ARCHITECTURE_MIPS := 1.
Definition MD_CPU_ARCHITECTURE_ALPHA := 2.
Definition MD_CPU_ARCHITECTURE_PPC := 3.
Definition MD_CPU_ARCHITECTURE_SHX := 4.
Definition MD_CPU_ARCHITECTURE_ARM := 5.
Definition MD_CPU_ARCHITECTURE_IA64 := 6.
Definition MD_CPU_ARCHITECTURE_AMD64 := 9.
Definition MD_CPU_ARCHITECTURE_X86_WIN64 := 10.
Definition MD_CPU_ARCHITECTURE_SPARC := 0x8001.
Definition MD_CPU_ARCHITECTURE_PPC64 := 0x8002.
Definition MD_CPU_ARCHITECTURE_ARM64 := 0x8003.
Definition MD_CPU_ARCHITECTURE_MIPS64 := 0x8004.

Definition MD_OS_WIN32_WINDOWS := 1.
Definition MD_OS_WIN32_NT := 2.
Definition MD_OS_MAC_OS_X := 0x8101.
Definition MD_OS_IOS := 0x8102.
Definition MD_OS_LINUX := 0x8201.
Definition MD_OS_SOLARIS := 0x8202.
Definition MD_OS_ANDROID := 0x8203.
Definition MD_OS_PS3 := 0x8204.
Definition MD_OS_NACL := 0x8205.

(** The bytes of a member after it has been swapped. *)
Definition swap_at (raw : list Z) (offset : Z) (n : nat) : list Z := le_bytes n (Swap n (read_le raw offset n)).

Definition is_x86 (architecture : Z) : bool := (architecture =? MD_CPU_ARCHITECTURE_X86) || (architecture =? MD_CPU_ARCHITECTURE_X86_WIN64).

(** [MDCPUInformation], a union of 24 bytes: six numbers of 32 bits for x86, else two of 64. *)
Definition cpu_read (swap : bool) (architecture : Z) (raw : list Z) (offset : Z) : list Z :=
  if swap then
    if is_x86 architecture then concat ((λ i, swap_at raw (offset + 4 * Z.of_nat i) 4) <$> seq 0 6)
    else concat ((λ i, swap_at raw (offset + 8 * Z.of_nat i) 8) <$> seq 0 2) ++ slice raw (offset + 16) 8
  else slice raw offset 24.

Definition vendor_id (cpu : list Z) (i : Z) : Z := read_le cpu (4 * i) 4.
Definition arm_cpuid (cpu : list Z) : Z := read_le cpu 0 4.
Definition arm_elf_hwcaps (cpu : list Z) : Z := read_le cpu 4 4.

Definition MDRawSystemInfo_read (swap : bool) (raw : list Z) : MDRawSystemInfo :=
  let architecture := member swap raw 0 2 in
  mkSystemInfo architecture (member swap raw 2 2) (member swap raw 4 2) (member swap raw 6 1) (member swap raw 7 1) (member swap raw 8 4)
    (member swap raw 12 4) (member swap raw 16 4) (member swap raw 20 4) (member swap raw 24 4) (member swap raw 28 2) (member false raw 30 2)
    (cpu_read swap architecture raw 32).

(** [valid_] once it has been read; the strings are kept when they have been asked for. *)
Record MinidumpSystemInfo := mkMinidumpSystemInfo {
  system_info_ : MDRawSystemInfo;
  csd_version_ : option cstring;
  cpu_vendor_ : option cstring
}.

(** ** Operations *)

Definition GetOS (s : MinidumpSystemInfo) : cstring :=
  let os := platform_id (system_info_ s) in
  if (os =? MD_OS_WIN32_NT) || (os =? MD_OS_WIN32_WINDOWS) then lit "windows"
  else if os =? MD_OS_MAC_OS_X then lit "mac"
  else if os =? MD_OS_IOS then lit "ios"
  else if os =? MD_OS_LINUX then lit "linux"
  else if os =? MD_OS_SOLARIS then lit "solaris"
  else if os =? MD_OS_ANDROID then lit "android"
  else if os =? MD_OS_PS3 then lit "ps3"
  else if os =? MD_OS_NACL then lit "nacl"
  else [].

Definition GetCPU (s : MinidumpSystemInfo) : cstring :=
  let architecture := processor_architecture (system_info_ s) in
  if is_x86 architecture then lit "x86"
  else if architecture =? MD_CPU_ARCHITECTURE_AMD64 then lit "x86-64"
  else if architecture =? MD_CPU_ARCHITECTURE_PPC then lit "ppc"
  else if architecture =? MD_CPU_ARCHITECTURE_PPC64 then lit "ppc64"
  else if architecture =? MD_CPU_ARCHITECTURE_SPARC then lit "sparc"
  else if architecture =? MD_CPU_ARCHITECTURE_ARM then lit "arm"
  else if architecture =? MD_CPU_ARCHITECTURE_ARM64 then lit "arm64"
  else [].

(** The characters of the identifier, up to a zero. *)
Definition cpu_vendor_string (cpu : list Z) : cstring :=
  c_str (concat ((λ i, (λ n, chr (Z.land (Z.shiftr (vendor_id cpu i) n) 0xff)) <$> [0; 8; 16; 24]) <$> [0; 1; 2])).

Definition GetCPUVendor (s : MinidumpSystemInfo) : option cstring * MinidumpSystemInfo :=
  match cpu_vendor_ s with
  | None =>
      if is_x86 (processor_architecture (system_info_ s)) then
        let vendor := Some (cpu_vendor_string (cpu (system_info_ s))) in
        (vendor, mkMinidumpSystemInfo (system_info_ s) (csd_version_ s) vendor)
      else (None, s)
  | vendor => (vendor, s)
  end.

(** The objects of a class among those made from streams. *)
Class StreamObject (T O : Type) := {
  to_object : T -> O;
  of_object : O -> option T;
  of_to_object : forall t, of_object (to_object t) = Some t
}.

Section system.
Context {O : Type} `{StreamObject MinidumpSystemInfo O}.
Implicit Types (f : DumpFile O).

Definition SystemInfo_Read (expected_size : Z) : reading O MinidumpSystemInfo :=
  requires (expected_size =? 56) ;;;
  let! raw := read_bytes 56 in
  let! swap := asking get_swap in
  done_with (mkMinidumpSystemInfo (MDRawSystemInfo_read swap raw) None None).

Definition GetCSDVersion (s : MinidumpSystemInfo) : reading O (option cstring * MinidumpSystemInfo) :=
  match csd_version_ s with
  | None =>
      let! version := attempt (ReadString (csd_version_rva (system_info_ s))) in
      done_with (version, mkMinidumpSystemInfo (system_info_ s) version (cpu_vendor_ s))
  | version => done_with (version, s)
  end.

Definition GetSystemInfo : reading O MinidumpSystemInfo := GetStream MD_SYSTEM_INFO_STREAM to_object of_object SystemInfo_Read.

(** [Tell]: -1 when the stream has failed. *)
Definition Tell f : Z :=
  match dump_valid_ f, stream_ (dump f) with
  | true, Some s => if sgood s then spos s else -1
  | _, _ => -1
  end.

Definition IsAndroid : reading O bool :=
  let! saved_position := asking Tell in
  if saved_position =? -1 then done_with false
  else
    let! system_info := attempt GetSystemInfo in
    let! sought := attempt (seek_set saved_position) in
    done_with (match sought, system_info with Some _, Some s => platform_id (system_info_ s) =? MD_OS_ANDROID | _, _ => false end).

(** The flag of the contexts of a processor. *)
Definition context_cpu_flag (architecture : Z) : Z :=
  if architecture =? MD_CPU_ARCHITECTURE_X86 then MD_CONTEXT_X86
  else if architecture =? MD_CPU_ARCHITECTURE_MIPS then MD_CONTEXT_MIPS
  else if architecture =? MD_CPU_ARCHITECTURE_MIPS64 then MD_CONTEXT_MIPS64
  else if architecture =? MD_CPU_ARCHITECTURE_ALPHA then 0x00020000
  else if architecture =? MD_CPU_ARCHITECTURE_PPC then MD_CONTEXT_PPC
  else if architecture =? MD_CPU_ARCHITECTURE_PPC64 then MD_CONTEXT_PPC64
  else if architecture =? MD_CPU_ARCHITECTURE_SHX then 0x000000c0
  else if architecture =? MD_CPU_ARCHITECTURE_ARM then MD_CONTEXT_ARM
  else if architecture =? MD_CPU_ARCHITECTURE_ARM64 then MD_CONTEXT_ARM64
  else if architecture =? MD_CPU_ARCHITECTURE_IA64 then 0x00080000
  else if architecture =? MD_CPU_ARCHITECTURE_AMD64 then MD_CONTEXT_AMD64
  else if architecture =? MD_CPU_ARCHITECTURE_SPARC then MD_CONTEXT_SPARC
  else 0.

(** The flags, and whether the stream is where it was. *)
Definition GetContextCPUFlagsFromSystemInfo : reading O (Z * bool) :=
  let! saved_position := asking Tell in
  if saved_position =? -1 then done_with (0, true)
  else
    let! system_info := attempt GetSystemInfo in
    let flags := match system_info with Some s => context_cpu_flag (processor_architecture (system_info_ s)) | None => 0 end in
    let! sought := attempt (seek_set saved_position) in
    done_with (flags, match sought with Some _ => true | None => false end).

(** The processors whose dumps have contexts of a type. *)
Definition cpu_matches (context_cpu_type architecture : Z) : bool :=
  if context_cpu_type =? MD_CONTEXT_X86 then is_x86 architecture || (architecture =? MD_CPU_ARCHITECTURE_AMD64)
  else if context_cpu_type =? MD_CONTEXT_PPC then architecture =? MD_CPU_ARCHITECTURE_PPC
  else if context_cpu_type =? MD_CONTEXT_PPC64 then architecture =? MD_CPU_ARCHITECTURE_PPC64
  else if context_cpu_type =? MD_CONTEXT_AMD64 then architecture =? MD_CPU_ARCHITECTURE_AMD64
  else if context_cpu_type =? MD_CONTEXT_SPARC then architecture =? MD_CPU_ARCHITECTURE_SPARC
  else if context_cpu_type =? MD_CONTEXT_ARM then architecture =? MD_CPU_ARCHITECTURE_ARM
  else if context_cpu_type =? MD_CONTEXT_ARM64 then architecture =? MD_CPU_ARCHITECTURE_ARM64
  else if context_cpu_type =? MD_CONTEXT_MIPS then architecture =? MD_CPU_ARCHITECTURE_MIPS
  else if context_cpu_type =? MD_CONTEXT_MIPS64 then architecture =? MD_CPU_ARCHITECTURE_MIPS64
  else false.

(** [MinidumpContext::CheckAgainstSystemInfo]. *)
Definition CheckAgainstSystemInfo (context_cpu_type : Z) : reading O bool :=
  let! system_info := attempt GetSystemInfo in
  done_with (match system_info with Some s => cpu_matches context_cpu_type (processor_architecture (system_info_ s)) | None => true end).
End system.

(** In a dump of the other byte order the two members for ARM are swapped as one number, which
    exchanges them. *)
Lemma arm_members_exchanged cpuid elf_hwcaps rest :
  fits 32 cpuid -> fits 32 elf_hwcaps -> length rest = 16%nat ->
  let cpu := cpu_read true MD_CPU_ARCHITECTURE_ARM (order true 4 cpuid ++ order true 4 elf_hwcaps ++ rest) 0 in
  arm_cpuid cpu = elf_hwcaps /\ arm_elf_hwcaps cpu = cpuid.
Proof.
  intros Hc He Hr cpu.
  assert (Hr8: read_le (order true 4 cpuid ++ order true 4 elf_hwcaps ++ rest) 0 8 = le_val (rev (le_bytes 4 elf_hwcaps ++ le_bytes 4 cpuid))).
  { unfold read_le, slice. change (Z.to_nat 0) with 0%nat. rewrite drop_0, app_assoc, take_app_le, take_ge by (rewrite length_app, !length_order; lia).
    by rewrite rev_app_distr. }
  set (bs := le_bytes 4 elf_hwcaps ++ le_bytes 4 cpuid) in *.
  assert (Hok: Forall byte_ok (rev bs)) by (apply Forall_rev, Forall_app; split; apply le_bytes_ok).
  assert (Hlen: length (rev bs) = 8%nat) by (unfold bs; rewrite length_rev, length_app, !length_le_bytes; done).
  assert (Hs: swap_at (order true 4 cpuid ++ order true 4 elf_hwcaps ++ rest) 0 8 = bs).
  { unfold swap_at. rewrite Hr8. rewrite Swap_val; [|unfold sizes_ok; auto|pose proof (le_val_range _ Hok) as H; by rewrite Hlen in H].
    rewrite <- Hlen at 2. rewrite le_bytes_val, rev_involutive by done. replace 8%nat with (length bs) by (by rewrite length_rev in Hlen).
    apply le_bytes_val. apply Forall_app. split; apply le_bytes_ok. }
  assert (Hcpu: exists rest', cpu = bs ++ rest').
  { unfold cpu, cpu_read. change (is_x86 MD_CPU_ARCHITECTURE_ARM) with false. cbn [seq fmap list_fmap concat]. change (0 + 8 * Z.of_nat 0) with 0.
    rewrite Hs, <- !app_assoc. eexists. reflexivity. }
  destruct Hcpu as [rest' ->]. unfold bs. rewrite <- app_assoc. pose proof (holds_here [] (le_bytes 4 elf_hwcaps) (le_bytes 4 cpuid ++ rest')) as H1.
  pose proof (holds_here (le_bytes 4 elf_hwcaps) (le_bytes 4 cpuid) rest') as H2. rewrite length_le_bytes in H2.
  split; [exact (holds_read _ _ _ _ H1 He)|exact (holds_read _ _ _ _ H2 Hc)].
Qed.
