(* ===== verification/MinidumpModules.v ===== *)
(** processor/minidump.cc: [MinidumpModule] and [MinidumpModuleList], the modules of a minidump
    with the records that identify their symbols.
    A failed assertion is undefined. *)
From Stdlib Require Import Ascii.
From stdpp Require Import list.
From S2P Require Import Prelude StdMap CStr Memory RangeMap MemoryRegion MinidumpFile MinidumpSystem CodeModules.

(** ** Data *)

Record MDVSFixedFileInfo := mkFixedFileInfo {
  vs_signature : Z;
  struct_version : Z;
  file_version_hi : Z;
  file_version_lo : Z;
  product_version_hi : Z;
  product_version_lo : Z;
  file_flags_mask : Z;
  file_flags : Z;
  file_os : Z;
  file_type : Z;
  file_subtype : Z;
  file_date_hi : Z;
  file_date_lo : Z
}.

(** Without its reserved members. *)
Record MDRawModule := mkRawModule {
  base_of_image : Z;
  size_of_image : Z;
  module_checksum : Z;
  module_time_date_stamp : Z;
  module_name_rva : Z;
  version_info : MDVSFixedFileInfo;
  cv_record : MDLocationDescriptor;
  misc_record : MDLocationDescriptor
}.

Definition MD_MODULE_SIZE := 108.
Definition MD_VSFIXEDFILEINFO_SIGNATURE := 0xfeef04bd.
Definition MD_VSFIXEDFILEINFO_VERSION := 0x00010000.

Definition version_info_read (swap : bool) (raw : list Z) (p : Z) : MDVSFixedFileInfo :=
  mkFixedFileInfo (member swap raw p 4) (member swap raw (p + 4) 4) (member swap raw (p + 8) 4) (member swap raw (p + 12) 4) (member swap raw (p + 16) 4)
    (member swap raw (p + 20) 4) (member swap raw (p + 24) 4) (member swap raw (p + 28) 4) (member swap raw (p + 32) 4) (member swap raw (p + 36) 4)
    (member swap raw (p + 40) 4) (member swap raw (p + 44) 4) (member swap raw (p + 48) 4).

Definition MDRawModule_read (swap : bool) (raw : list Z) : MDRawModule :=
  mkRawModule (member swap raw 0 8) (member swap raw 8 4) (member swap raw 12 4) (member swap raw 16 4) (member swap raw 20 4)
    (version_info_read swap raw 24) (location_read swap raw 76) (location_read swap raw 84).

Definition MD_CVINFOPDB70_SIGNATURE := 0x53445352.
Definition MD_CVINFOPDB20_SIGNATURE := 0x3031424e.
Definition MD_CVINFOELF_SIGNATURE := 0x4270454c.
Definition MD_CVINFOUNKNOWN_SIGNATURE := 0xffffffff.
Definition MDCVInfoPDB70_minsize := 24.
Definition MDCVInfoPDB20_minsize := 16.
Definition MDCVInfoELF_minsize := 4.
Definition MDImageDebugMisc_minsize := 12.

Record MinidumpModule := mkModule {
  module_valid_ : bool;
  has_debug_info_ : bool;
  module_ : MDRawModule;
  name_ : option cstring;
  cv_record_ : option (list Z);
  cv_record_signature_ : Z;
  misc_record_ : option (list Z);
  mm_valid_ : bool
}.

Implicit Types (m : MinidumpModule).

(** A module that has been read. *)
Definition module_of (raw : MDRawModule) : MinidumpModule := mkModule true false raw None None MD_CVINFOUNKNOWN_SIGNATURE None false.
Definition set_name name m :=
  mkModule (module_valid_ m) (has_debug_info_ m) (module_ m) name (cv_record_ m) (cv_record_signature_ m) (misc_record_ m) (mm_valid_ m).
Definition set_valid m :=
  mkModule (module_valid_ m) (has_debug_info_ m) (module_ m) (name_ m) (cv_record_ m) (cv_record_signature_ m) (misc_record_ m) true.
Definition set_has_debug_info m :=
  mkModule (module_valid_ m) true (module_ m) (name_ m) (cv_record_ m) (cv_record_signature_ m) (misc_record_ m) (mm_valid_ m).
Definition set_cv_record record signature m :=
  mkModule (module_valid_ m) (has_debug_info_ m) (module_ m) (name_ m) (Some record) signature (misc_record_ m) (mm_valid_ m).
Definition set_misc_record record m :=
  mkModule (module_valid_ m) (has_debug_info_ m) (module_ m) (name_ m) (cv_record_ m) (cv_record_signature_ m) (Some record) (mm_valid_ m).

Definition mm_base_address m : Z := if mm_valid_ m then base_of_image (module_ m) else wrap 64 (-1).
Definition mm_size m : Z := if mm_valid_ m then size_of_image (module_ m) else 0.

(** ** The records *)

(** A CodeView record of a size, and its signature: the known ones are checked, and their
    numbers swapped; that of an ELF file is left as it is. *)
Definition check_cv_record (swap : bool) (record : list Z) (size : Z) : option (list Z * Z) :=
  let signature := if 4 <? size then member swap record 0 4 else MD_CVINFOUNKNOWN_SIGNATURE in
  let terminated := match record !! Z.to_nat (size - 1) with Some c => c =? 0 | None => false end in
  if signature =? MD_CVINFOPDB70_SIGNATURE then
    if size <? MDCVInfoPDB70_minsize + 1 then None
    else
      let record := if swap then swap_at record 0 4 ++ swap_at record 4 4 ++ swap_at record 8 2 ++ swap_at record 10 2 ++ slice record 12 8 ++
                                 swap_at record 20 4 ++ drop 24 record
                    else record in
      if terminated then Some (record, signature) else None
  else if signature =? MD_CVINFOPDB20_SIGNATURE then
    if size <? MDCVInfoPDB20_minsize + 1 then None
    else
      let record := if swap then swap_at record 0 4 ++ swap_at record 4 4 ++ swap_at record 8 4 ++ swap_at record 12 4 ++ drop 16 record else record in
      if terminated then Some (record, signature) else None
  else if signature =? MD_CVINFOELF_SIGNATURE then
    if size <? MDCVInfoELF_minsize then None else Some (record, signature)
  else Some (record, signature).

(** A miscellaneous record: its type and its length are swapped, and its data when it is in
    UTF-16, word by word; the length must be that of the record. *)
Definition check_misc_record (swap : bool) (record : list Z) (size : Z) : option (list Z) :=
  let unicode := negb (read_le record 8 1 =? 0) in
  let words := Z.to_nat ((size - MDImageDebugMisc_minsize) / 2) in
  let data := if unicode then concat ((λ i, swap_at record (12 + 2 * Z.of_nat i) 2) <$> seq 0 words) ++ drop (12 + 2 * words) record
              else drop 12 record in
  let record := if swap then swap_at record 0 4 ++ swap_at record 4 4 ++ slice record 8 4 ++ data else record in
  if read_le record 4 4 =? size then Some record else None.

Definition max_cv_bytes_ := 32768.
Definition max_misc_bytes_ := 32768.
Definition max_modules_ := 2048.

Section module.
Context {O : Type} `{StreamObject MinidumpSystemInfo O}.

(** [Read]: the module, whose size must not be 0 nor pass the end of the address space. *)
Definition Module_Read : reading O MinidumpModule :=
  let! raw := read_bytes MD_MODULE_SIZE in
  let! swap := asking get_swap in
  let module := MDRawModule_read swap raw in
  requires (negb ((size_of_image module =? 0) || (2 ^ 64 - 1 - base_of_image module <? size_of_image module))) ;;;
  done_with (module_of module).

(** [GetCVRecord], of which the module with its record is the result. *)
Definition GetCVRecord m : reading O MinidumpModule :=
  requires (module_valid_ m) ;;;
  match cv_record_ m with
  | Some _ => done_with m
  | None =>
      let size := data_size (cv_record (module_ m)) in
      requires (negb (size =? 0)) ;;;
      seek_set (rva (cv_record (module_ m))) ;;;
      requires (size <=? max_cv_bytes_) ;;;
      let! record := read_bytes size in
      let! swap := asking get_swap in
      match check_cv_record swap record size with Some (record, signature) => done_with (set_cv_record record signature m) | None => failed end
  end.

Definition GetMiscRecord m : reading O MinidumpModule :=
  requires (module_valid_ m) ;;;
  match misc_record_ m with
  | Some _ => done_with m
  | None =>
      let size := data_size (misc_record (module_ m)) in
      requires (negb (size =? 0)) ;;;
      requires (MDImageDebugMisc_minsize <=? size) ;;;
      seek_set (rva (misc_record (module_ m))) ;;;
      requires (size <=? max_misc_bytes_) ;;;
      let! record := read_bytes size in
      let! swap := asking get_swap in
      match check_misc_record swap record size with Some record => done_with (set_misc_record record m) | None => failed end
  end.

(** The result, and the module as it is even when that is false. *)
Definition ReadAuxiliaryData m : reading O (bool * MinidumpModule) :=
  if negb (module_valid_ m) then done_with (false, m)
  else
    let! name := attempt (ReadString (module_name_rva (module_ m))) in
    match name with
    | None => done_with (false, set_name None m)
    | Some _ =>
        let m := set_valid (set_name name m) in
        let! with_cv := (if data_size (cv_record (module_ m)) =? 0 then done_with (Some m) else attempt (GetCVRecord m)) in
        match with_cv with
        | None => done_with (false, m)
        | Some m =>
            let! with_misc := (if data_size (misc_record (module_ m)) =? 0 then done_with (Some m) else attempt (GetMiscRecord m)) in
            match with_misc with None => done_with (false, m) | Some m => done_with (true, set_has_debug_info m) end
        end
    end.
End module.

(** ** What a module says of itself *)

(** [%0<width>X] and [%0<width>x]. *)
Definition upper (c : ascii) : ascii := if (97 <=? code c) && (code c <=? 122) then chr (code c - 32) else c.
Definition padded (width : nat) (digits : cstring) : cstring := replicate (width - length digits) (chr 48) ++ digits.
Definition print_HEX (width : nat) (n : Z) : cstring := padded width (upper <$> print_hex n).

Definition mm_code_file m : cstring := if mm_valid_ m then default [] (name_ m) else [].

(** A record whose first number is compared with a signature by an assertion. *)
Definition asserting (record : list Z) (signature : Z) {A} (a : A) : outcome A := if read_le record 0 4 =? signature then Ok a else Undefined.

(** Characters up to a zero. *)
Definition text_at (record : list Z) (p : nat) : cstring := c_str (chars (drop p record)).

Definition build_id (record : list Z) : list Z := drop 4 record.

Definition platform_code_identifier (os : Z) m : outcome cstring :=
  if (os =? MD_OS_WIN32_NT) || (os =? MD_OS_WIN32_WINDOWS) then
    Ok (print_HEX 8 (module_time_date_stamp (module_ m)) ++ print_hex (size_of_image (module_ m)))
  else
    let elf := match cv_record_ m with
               | Some record => if ((os =? MD_OS_ANDROID) || (os =? MD_OS_LINUX)) && (cv_record_signature_ m =? MD_CVINFOELF_SIGNATURE) then Some record else None
               | None => None
               end in
    match elf with
    | Some record => asserting record MD_CVINFOELF_SIGNATURE (concat ((λ byte, padded 2 (print_hex byte)) <$> build_id record))
    | None =>
        if existsb (Z.eqb os) [MD_OS_ANDROID; MD_OS_LINUX; MD_OS_MAC_OS_X; MD_OS_IOS; MD_OS_SOLARIS; MD_OS_NACL; MD_OS_PS3] then Ok (lit "id")
        else Ok []
    end.

Definition mm_code_identifier {O} `{StreamObject MinidumpSystemInfo O} m : reading O (outcome cstring) :=
  if negb (mm_valid_ m) then done_with (Ok [])
  else if negb (has_debug_info_ m) then done_with (Ok [])
  else
    let! system_info := attempt GetSystemInfo in
    done_with (match system_info with Some s => platform_code_identifier (platform_id (system_info_ s)) m | None => Ok [] end).

(** The file of a miscellaneous record. *)
Definition misc_file (record : list Z) (size : Z) : cstring :=
  let bytes := size - MDImageDebugMisc_minsize in
  if read_le record 8 1 =? 0 then chars (slice record 12 (Z.to_nat bytes))
  else if bytes mod 2 =? 0 then default [] (UTF16ToUTF8 (words_of (drop 12 record) (bytes / 2)) false) else [].

Definition mm_debug_file m : outcome cstring :=
  if negb (mm_valid_ m) then Ok []
  else if negb (has_debug_info_ m) then Ok []
  else
    file ← match cv_record_ m with
           | Some record =>
               if cv_record_signature_ m =? MD_CVINFOPDB70_SIGNATURE then asserting record MD_CVINFOPDB70_SIGNATURE (text_at record 24)
               else if cv_record_signature_ m =? MD_CVINFOPDB20_SIGNATURE then asserting record MD_CVINFOPDB20_SIGNATURE (text_at record 16)
               else if cv_record_signature_ m =? MD_CVINFOELF_SIGNATURE then asserting record MD_CVINFOELF_SIGNATURE (default [] (name_ m))
               else Ok []
           | None => Ok []
           end;
    match file, misc_record_ m with
    | [], Some record => Ok (misc_file record (data_size (misc_record (module_ m))))
    | _, _ => Ok file
    end.

(** The members of a GUID in memory. *)
Definition guid_and_age_to_debug_id (guid : list Z) (age : Z) : cstring :=
  print_HEX 8 (read_le guid 0 4) ++ print_HEX 4 (read_le guid 4 2) ++ print_HEX 4 (read_le guid 6 2) ++
  concat ((λ i, print_HEX 2 (read_le guid (8 + Z.of_nat i) 1)) <$> seq 0 8) ++ print_hex age.

Definition mm_debug_identifier m : outcome cstring :=
  if negb (mm_valid_ m) then Ok []
  else if negb (has_debug_info_ m) then Ok []
  else
    match cv_record_ m with
    | Some record =>
        if cv_record_signature_ m =? MD_CVINFOPDB70_SIGNATURE then
          asserting record MD_CVINFOPDB70_SIGNATURE (guid_and_age_to_debug_id (slice record 4 16) (read_le record 20 4))
        else if cv_record_signature_ m =? MD_CVINFOPDB20_SIGNATURE then
          asserting record MD_CVINFOPDB20_SIGNATURE (print_HEX 8 (read_le record 8 4) ++ print_hex (read_le record 12 4))
        else if cv_record_signature_ m =? MD_CVINFOELF_SIGNATURE then
          asserting record MD_CVINFOELF_SIGNATURE
            (guid_and_age_to_debug_id (take 16 (build_id record) ++ replicate (16 - length (build_id record)) 0) 0)
        else Ok []
    | None => Ok []
    end.

Definition mm_version m : cstring :=
  let v := version_info (module_ m) in
  if negb (mm_valid_ m) then []
  else if (vs_signature v =? MD_VSFIXEDFILEINFO_SIGNATURE) && negb (Z.land (struct_version v) MD_VSFIXEDFILEINFO_VERSION =? 0) then
    print_dec (Z.shiftr (file_version_hi v) 16) ++ lit "." ++ print_dec (Z.land (file_version_hi v) 0xffff) ++ lit "." ++
    print_dec (Z.shiftr (file_version_lo v) 16) ++ lit "." ++ print_dec (Z.land (file_version_lo v) 0xffff)
  else [].

(** [Copy]: the [BasicCodeModule] made of it. *)
Definition mm_Copy {O} `{StreamObject MinidumpSystemInfo O} m : reading O (outcome CodeModule) :=
  let! code_identifier := mm_code_identifier m in
  done_with
    (code_identifier ← code_identifier;
     debug_file ← mm_debug_file m;
     debug_identifier ← mm_debug_identifier m;
     Ok (mkCodeModule (mm_base_address m) (mm_size m) 0 (mm_code_file m) code_identifier debug_file debug_identifier (mm_version m) false)).

(** ** The list *)

Record MinidumpModuleList := mkModuleList {
  range_map_ : RangeMap Z;
  modules_ : list MinidumpModule
}.

Section list.
Context {O : Type} `{StreamObject MinidumpSystemInfo O}.

(** The count of a list of structures of [item_size] bytes, and the stream after it: four bytes
    of padding may follow. *)
Definition read_count (item_size expected_size : Z) : reading O Z :=
  requires (4 <=? expected_size) ;;;
  let! raw := read_bytes 4 in
  let! swap := asking get_swap in
  let count := member swap raw 0 4 in
  requires (count <=? (2 ^ 32 - 1) / item_size) ;;;
  (if expected_size =? 4 + count * item_size then done_with ()
   else requires (expected_size =? 4 + 4 + count * item_size) ;;; let! useless := read_bytes 4 in done_with ()) ;;;
  done_with count.

Fixpoint read_modules (n : nat) : reading O (list MinidumpModule) :=
  match n with
  | 0%nat => done_with []
  | S n => let! m := Module_Read in let! ms := read_modules n in done_with (m :: ms)
  end.

Definition kDevAshmem : cstring := lit "/dev/ashmem/".

(** Where a module is stored: when its range is taken, from the end of the module before it on;
    shared memory that is mapped again is not stored. *)
Definition place_module (map : RangeMap Z) (index base size last_end_address : Z) (code_file : cstring) : option (RangeMap Z * Z) :=
  let '(stored, map') := StoreRange 64 map base size index in
  if stored then Some (map', u64 (base + size))
  else if starts_with kDevAshmem code_file then Some (map', u64 (base + size))
  else if base <? last_end_address then
    let size := u64 (size - (last_end_address - base)) in
    let base := last_end_address in
    let '(stored, map') := StoreRange 64 map' base size index in
    if stored then Some (map', u64 (base + size)) else None
  else None.

Fixpoint place_modules (index : Z) (ms : list MinidumpModule) (last_end_address : Z) (map : RangeMap Z) :
    reading O (list MinidumpModule * RangeMap Z) :=
  match ms with
  | [] => done_with ([], map)
  | m :: ms =>
      let! (ok, m) := ReadAuxiliaryData m in
      requires (ok || mm_valid_ m) ;;;
      requires (negb (mm_base_address m =? wrap 64 (-1))) ;;;
      match place_module map index (mm_base_address m) (mm_size m) last_end_address (mm_code_file m) with
      | None => failed
      | Some (map, last_end_address) => let! (ms, map) := place_modules (index + 1) ms last_end_address map in done_with (m :: ms, map)
      end
  end.

(** The constructor asks whether the dump is Android's, where ranges are shrunk. *)
Definition ModuleList_Read (expected_size : Z) : reading O MinidumpModuleList :=
  let! android := IsAndroid in
  let map := SetEnableShrinkDown RangeMap_new android in
  let! module_count := read_count MD_MODULE_SIZE expected_size in
  requires (module_count <=? max_modules_) ;;;
  let! ms := read_modules (Z.to_nat module_count) in
  let! (ms, map) := place_modules 0 ms 0 map in
  done_with (mkModuleList map ms).

Definition GetModuleList `{StreamObject MinidumpModuleList O} : reading O MinidumpModuleList :=
  GetStream MD_MODULE_LIST_STREAM to_object of_object ModuleList_Read.
End list.

Definition ml_GetModuleAtIndex (l : MinidumpModuleList) (index : Z) : option MinidumpModule :=
  if Z.of_nat (length (modules_ l)) <=? index then None else modules_ l !! Z.to_nat index.

Definition ml_GetModuleForAddress (l : MinidumpModuleList) (address : Z) : option MinidumpModule :=
  x ← RetrieveRange 64 (range_map_ l) address; ml_GetModuleAtIndex l (ret_entry x).

Definition ml_GetMainModule (l : MinidumpModuleList) : option MinidumpModule := ml_GetModuleAtIndex l 0.

Definition ml_GetModuleAtSequence (l : MinidumpModuleList) (sequence : Z) : option MinidumpModule :=
  if Z.of_nat (length (modules_ l)) <=? sequence then None
  else x ← RetrieveRangeAtIndex 64 (range_map_ l) (s32 sequence); ml_GetModuleAtIndex l (ret_entry x).

Definition ml_IsModuleShrinkEnabled (l : MinidumpModuleList) : bool := IsShrinkDownEnabled (range_map_ l).

(** ** Modules laid out in a dump *)

Definition version_info_bytes (swap : bool) (v : MDVSFixedFileInfo) : list Z :=
  order swap 4 (vs_signature v) ++ order swap 4 (struct_version v) ++ order swap 4 (file_version_hi v) ++ order swap 4 (file_version_lo v) ++
  order swap 4 (product_version_hi v) ++ order swap 4 (product_version_lo v) ++ order swap 4 (file_flags_mask v) ++ order swap 4 (file_flags v) ++
  order swap 4 (file_os v) ++ order swap 4 (file_type v) ++ order swap 4 (file_subtype v) ++ order swap 4 (file_date_hi v) ++ order swap 4 (file_date_lo v).

Definition version_info_fits (v : MDVSFixedFileInfo) : Prop :=
  Forall (fits 32) [vs_signature v; struct_version v; file_version_hi v; file_version_lo v; product_version_hi v; product_version_lo v; file_flags_mask v;
    file_flags v; file_os v; file_type v; file_subtype v; file_date_hi v; file_date_lo v].

Definition raw_module_bytes (swap : bool) (m : MDRawModule) : list Z :=
  order swap 8 (base_of_image m) ++ order swap 4 (size_of_image m) ++ order swap 4 (module_checksum m) ++ order swap 4 (module_time_date_stamp m) ++
  order swap 4 (module_name_rva m) ++ version_info_bytes swap (version_info m) ++ location_bytes swap (cv_record m) ++ location_bytes swap (misc_record m).

Definition raw_module_fits (m : MDRawModule) : Prop :=
  fits 64 (base_of_image m) /\ fits 32 (size_of_image m) /\ fits 32 (module_checksum m) /\ fits 32 (module_time_date_stamp m) /\
  fits 32 (module_name_rva m) /\ version_info_fits (version_info m) /\ location_fits (cv_record m) /\ location_fits (misc_record m).

(** A module of a list: its structure, the reserved bytes after it, the characters of its name
    and the bytes of its CodeView record, if it has one. *)
Record ListedModule := mkListed { lm_raw : MDRawModule; lm_reserved : list Z; lm_name : list Z; lm_cv : list Z }.

Definition listed_bytes (swap : bool) (m : ListedModule) : list Z := raw_module_bytes swap (lm_raw m) ++ lm_reserved m.

Definition string_bytes (swap : bool) (cs : list Z) : list Z :=
  order swap 4 (2 * Z.of_nat (length (concat (utf16 <$> cs)))) ++ concat (order swap 2 <$> concat (utf16 <$> cs)).

Definition string_ok (swap : bool) (cs : list Z) : Prop :=
  Forall (λ c, scalar c /\ seen swap c = Some c) cs /\ Z.of_nat (length (concat (utf16 <$> cs))) <= max_string_length_.

Record listed_ok (contents : list Z) (swap : bool) (m : ListedModule) : Prop := {
  lo_raw : raw_module_fits (lm_raw m) /\ length (lm_reserved m) = 16%nat;
  lo_range : size_of_image (lm_raw m) <> 0 /\ base_of_image (lm_raw m) + size_of_image (lm_raw m) < 2 ^ 64;
  lo_name : string_ok swap (lm_name m) /\ holds contents (module_name_rva (lm_raw m)) (string_bytes swap (lm_name m));
  lo_cv : data_size (cv_record (lm_raw m)) = Z.of_nat (length (lm_cv m)) /\ data_size (cv_record (lm_raw m)) <= max_cv_bytes_ /\
    (lm_cv m <> [] -> holds contents (rva (cv_record (lm_raw m))) (lm_cv m) /\ check_cv_record swap (lm_cv m) (Z.of_nat (length (lm_cv m))) <> None);
  lo_misc : data_size (misc_record (lm_raw m)) = 0
}.

(** The module that is read. *)
Definition listed_module (swap : bool) (m : ListedModule) : MinidumpModule :=
  let cv := match lm_cv m with [] => None | _ => check_cv_record swap (lm_cv m) (Z.of_nat (length (lm_cv m))) end in
  mkModule true true (lm_raw m) (Some (chars (concat (utf8 <$> lm_name m)))) (fst <$> cv) (match cv with Some x => x.2 | None => MD_CVINFOUNKNOWN_SIGNATURE end)
    None true.

(** ** Reading them *)

Lemma version_info_read_bytes swap raw p v : holds raw p (version_info_bytes swap v) -> version_info_fits v -> version_info_read swap raw p = v.
Proof.
  intros H Hf. unfold version_info_bytes in H. rewrite !holds_app, !length_order in H. change (Z.of_nat 4) with 4 in H. rewrite <- !Z.add_assoc in H.
  cbn [Z.add Pos.add Pos.succ] in H. unfold version_info_fits in Hf. rewrite !Forall_cons in Hf. unfold version_info_read. destruct v. cbn in *.
  destruct_and!. f_equal; (apply member_read; [unfold sizes_ok; auto|done|done]).
Qed.

Lemma length_version_info_bytes swap v : length (version_info_bytes swap v) = 52%nat.
Proof. unfold version_info_bytes. by rewrite !length_app, !length_order. Qed.

Lemma raw_module_read swap raw (m : MDRawModule) : holds raw 0 (raw_module_bytes swap m) -> raw_module_fits m -> MDRawModule_read swap raw = m.
Proof.
  intros H (H1 & H2 & H3 & H4 & H5 & H6 & H7 & H8). unfold raw_module_bytes in H.
  rewrite !holds_app, !length_order, length_version_info_bytes, length_location_bytes in H.
  destruct H as (? & ? & ? & ? & ? & ? & ? & ?). unfold MDRawModule_read. destruct m. cbn in *.
  f_equal; first [apply member_read; [unfold sizes_ok; by auto|done|done]|by apply version_info_read_bytes|by apply location_read_bytes].
Qed.

Lemma length_listed_bytes swap (m : ListedModule) : length (lm_reserved m) = 16%nat -> length (listed_bytes swap m) = 108%nat.
Proof.
  intros Hr. unfold listed_bytes, raw_module_bytes. by rewrite !length_app, !length_order, length_version_info_bytes, !length_location_bytes, Hr.
Qed.

Section reading.
Context {O : Type} `{StreamObject MinidumpSystemInfo O} (contents : list Z) (swap : bool).
Implicit Types (f : DumpFile O).

Lemma get_swap_at p f : dump_valid_ f = true -> get_swap (at_position contents swap p f) = swap.
Proof. unfold get_swap, at_position. cbn. by intros ->. Qed.

Lemma Module_Read_at p f (m : ListedModule) :
  dump_valid_ f = true -> listed_ok contents swap m -> holds contents p (listed_bytes swap m) ->
  Module_Read (at_position contents swap p f) = (Some (module_of (lm_raw m)), at_position contents swap (p + MD_MODULE_SIZE) f).
Proof.
  intros Hv Hm H'. destruct (lo_raw _ _ _ Hm) as [Hf Hr]. destruct (lo_range _ _ _ Hm) as [Hs He]. unfold Module_Read.
  pose proof (read_bytes_at contents swap p _ f H') as E. rewrite (length_listed_bytes _ _ Hr) in E. rewrite (after_some _ _ _ _ _ E).
  unfold after at 1, asking. cbv zeta. rewrite get_swap_at by done. pose proof (holds_self (listed_bytes swap m)) as Hself. unfold listed_bytes in Hself at 2. apply holds_app in Hself as [Hself _].
  rewrite (raw_module_read swap _ (lm_raw m) Hself Hf).
  destruct Hf as (Hb & Hsz & _). unfold fits in Hb, Hsz.
  assert ((size_of_image (lm_raw m) =? 0) || (2 ^ 64 - 1 - base_of_image (lm_raw m) <? size_of_image (lm_raw m)) = false) as ->.
  { apply orb_false_iff. rewrite Z.eqb_neq, Z.ltb_ge. lia. }
  done.
Qed.

Lemma read_modules_at (ms : list ListedModule) : forall p f,
  dump_valid_ f = true -> Forall (listed_ok contents swap) ms -> holds contents p (concat (listed_bytes swap <$> ms)) ->
  read_modules (length ms) (at_position contents swap p f) =
  (Some ((λ m : ListedModule, module_of (lm_raw m)) <$> ms), at_position contents swap (p + MD_MODULE_SIZE * Z.of_nat (length ms)) f).
Proof.
  induction ms as [|m ms IH]; intros p f Hv Hms Hb.
  - cbn [length read_modules fmap list_fmap]. replace (p + MD_MODULE_SIZE * Z.of_nat 0) with p by lia. done.
  - apply Forall_cons in Hms as [Hm Hms]. cbn [fmap list_fmap concat] in Hb. apply holds_app in Hb as [Hb1 Hb2].
    rewrite length_listed_bytes in Hb2 by apply (lo_raw _ _ _ Hm). cbn [length read_modules].
    rewrite (after_some _ _ _ _ _ (Module_Read_at p f m Hv Hm Hb1)). change (Z.of_nat 108) with MD_MODULE_SIZE in Hb2.
    rewrite (after_some _ _ _ _ _ (IH _ f Hv Hms Hb2)). unfold done_with. cbn [fmap list_fmap]. do 2 f_equal. lia.
Qed.

(** The words of a string. *)
Lemma read_word raw p w : fits 16 w -> holds raw p (order swap 2 w) -> read_le raw p 2 = stored swap w.
Proof.
  intros Hfit [_ Hh]. unfold read_le. rewrite length_order in Hh. rewrite Hh. destruct swap; cbn [order stored].
  - unfold fits in Hfit. change (2 ^ 16) with 65536 in Hfit. cbv [le_bytes rev app le_val].
    rewrite (Z.mod_small (w / 256)) by (split; [apply Z.div_pos|apply Z.div_lt_upper_bound]; lia). lia.
  - by apply le_val_fits.
Qed.

Lemma read_words ws : forall k p raw, Forall (fits 16) ws -> p = 2 * Z.of_nat k -> holds raw p (concat (order swap 2 <$> ws)) ->
  ((λ i, read_le raw (2 * Z.of_nat i) 2) <$> seq k (length ws)) = stored swap <$> ws.
Proof.
  induction ws as [|w ws IH]; intros k p raw Hl -> Hh; [done|]. apply Forall_cons in Hl as [Hwf Hl]. cbn [fmap list_fmap concat length seq] in *.
  apply holds_app in Hh as [Hh1 Hh2]. rewrite length_order in Hh2. f_equal; [by apply read_word|]. apply (IH (S k) (2 * Z.of_nat (S k))); [done|done|].
  replace (2 * Z.of_nat (S k)) with (2 * Z.of_nat k + Z.of_nat 2) by lia. done.
Qed.

Lemma words_of_bytes ws : Forall (fits 16) ws -> words_of (concat (order swap 2 <$> ws)) (Z.of_nat (length ws)) = stored swap <$> ws.
Proof. intros Hw. unfold words_of. rewrite Nat2Z.id. by apply (read_words ws 0 0 _ Hw eq_refl), holds_self. Qed.

Lemma utf16_words c : scalar c -> Forall (fits 16) (utf16 c).
Proof.
  unfold scalar, utf16, fits. change (2 ^ 16) with 65536. intros Hc. destruct (c <? 0x10000) eqn:E; breflect; repeat constructor; try lia.
  all: pose proof (Z.mod_pos_bound (c - 0x10000) 1024 ltac:(lia)); pose proof (Z.div_pos (c - 0x10000) 1024 ltac:(lia) ltac:(lia));
    pose proof (Z.div_lt_upper_bound (c - 0x10000) 1024 1024 ltac:(lia) ltac:(lia)); lia.
Qed.

Lemma ReadString_at p q f cs :
  dump_valid_ f = true -> string_ok swap cs -> holds contents q (string_bytes swap cs) ->
  exists p', ReadString q (at_position contents swap p f) = (Some (chars (concat (utf8 <$> cs))), at_position contents swap p' f).
Proof.
  intros Hv [Hcs Hlen] Hb. set (ws := concat (utf16 <$> cs)) in *. unfold string_bytes in Hb. fold ws in Hb. apply holds_app in Hb as [Hb1 Hb2]. rewrite length_order in Hb2.
  assert (Hws: Forall (fits 16) ws).
  { unfold ws. apply Forall_concat, Forall_fmap. eapply Forall_impl; [exact Hcs|]. intros c [Hc _]. by apply utf16_words. }
  assert (Hconv: UTF16ToUTF8 (stored swap <$> ws) swap = Some (chars (concat (utf8 <$> cs)))).
  { destruct (utf16_conversion swap cs) as [E _]; [eapply Forall_impl; [exact Hcs|]; by intros c [? _]|].
    assert ((stored swap <$> ws) = concat ((λ c, stored swap <$> utf16 c) <$> cs)) as ->.
    { unfold ws. clear. induction cs as [|c cs IH]; [done|]. cbn [fmap list_fmap concat]. by rewrite fmap_app, IH. }
    rewrite E. assert (mapM (seen swap) cs = Some cs) as ->; [|done].
    clear -Hcs. induction Hcs as [|c cs [_ Hc] _ IH]; [done|]. cbn [mapM]. by rewrite Hc, IH. }
  unfold max_string_length_ in Hlen. unfold ReadString. unfold after at 1, asking. cbn [at_position with_dump dump_valid_]. rewrite Hv.
  rewrite (after_some _ _ _ _ _ (requires_true true _ eq_refl)). rewrite (after_some _ _ _ _ _ (seek_set_at contents swap p q f)).
  assert (Hfit: fits (8 * Z.of_nat 4) (2 * Z.of_nat (length ws))) by (unfold fits; change (2 ^ (8 * Z.of_nat 4)) with 4294967296; lia).
  rewrite (after_some _ _ _ _ _ (stream_number_at contents swap 4 q _ f ltac:(unfold sizes_ok; auto) Hfit Hb1)).
  assert (Heven: 2 * Z.of_nat (length ws) mod 2 =? 0 = true) by (rewrite Z.mul_comm, Z_mod_mult; done).
  rewrite (after_some _ _ _ _ _ (requires_true _ _ Heven)). assert (2 * Z.of_nat (length ws) / 2 = Z.of_nat (length ws)) as Ehalf by (rewrite Z.mul_comm; by apply Z.div_mul).
  cbv zeta. rewrite Ehalf. rewrite (after_some _ _ _ _ _ (requires_true _ _ (proj2 (Z.leb_le _ _) Hlen))).
  destruct (Z.of_nat (length ws) =? 0) eqn:E0; breflect.
  - assert (ws = []) as Enil by (by apply nil_length_inv; lia). exists (q + 4). unfold after at 1, done_with. unfold after, asking. cbn [at_position with_dump dump swap_].
    rewrite E0. rewrite Enil in Hconv. cbn [fmap list_fmap UTF16ToUTF8] in Hconv. injection Hconv as <-. done.
  - pose proof (read_bytes_at contents swap _ _ f Hb2) as Hr. rewrite (length_concat_const 2 _ _ (length_order swap 2)) in Hr.
    replace (Z.of_nat (2 * length ws)) with (2 * Z.of_nat (length ws)) in Hr by lia. eexists. rewrite (after_some _ _ _ _ _ Hr).
    unfold after, asking. cbn [at_position with_dump dump swap_]. rewrite (words_of_bytes ws Hws), Hconv. done.
Qed.
End reading.

(** A module's own data: its name and its CodeView record. *)
Section auxiliary.
Context {O : Type} `{StreamObject MinidumpSystemInfo O} (contents : list Z) (swap : bool).
Implicit Types (f : DumpFile O).

Lemma attempt_some {A} (r : reading O A) a f f' : r f = (Some a, f') -> attempt r f = (Some (Some a), f').
Proof. unfold attempt. by intros ->. Qed.

Lemma GetCVRecord_at p f (m : ListedModule) (m0 : MinidumpModule) :
  dump_valid_ f = true -> listed_ok contents swap m -> lm_cv m <> [] ->
  module_valid_ m0 = true -> module_ m0 = lm_raw m -> cv_record_ m0 = None ->
  exists record signature p', check_cv_record swap (lm_cv m) (Z.of_nat (length (lm_cv m))) = Some (record, signature) /\
    GetCVRecord m0 (at_position contents swap p f) = (Some (set_cv_record record signature m0), at_position contents swap p' f).
Proof.
  intros Hv Hm Hne Hmv Hraw Hcv. destruct (lo_cv _ _ _ Hm) as (Hsz & Hmax & Hc). destruct (Hc Hne) as [Hb Hok].
  destruct (check_cv_record _ _ _) as [[record signature]|] eqn:Ec; [|done]. exists record, signature.
  assert (Hpos: data_size (cv_record (lm_raw m)) <> 0) by (rewrite Hsz; destruct (lm_cv m); [done|cbn; lia]).
  unfold GetCVRecord. rewrite Hmv, Hcv, Hraw. rewrite (after_some _ _ _ _ _ (requires_true true _ eq_refl)).
  cbv zeta. rewrite (after_some _ _ _ _ _ (requires_true _ _ (f_equal negb (proj2 (Z.eqb_neq _ _) Hpos)))).
  rewrite (after_some _ _ _ _ _ (seek_set_at contents swap p _ f)). rewrite (after_some _ _ _ _ _ (requires_true _ _ (proj2 (Z.leb_le _ _) Hmax))).
  pose proof (read_bytes_at contents swap _ _ f Hb) as Hr. rewrite <- Hsz in Hr. rewrite (after_some _ _ _ _ _ Hr).
  unfold after, asking. rewrite get_swap_at, Hsz, Ec by done. by eexists.
Qed.

Lemma ReadAuxiliaryData_at p f (m : ListedModule) :
  dump_valid_ f = true -> listed_ok contents swap m ->
  exists p', ReadAuxiliaryData (module_of (lm_raw m)) (at_position contents swap p f) =
    (Some (true, listed_module swap m), at_position contents swap p' f).
Proof.
  intros Hv Hm. destruct (lo_name _ _ _ Hm) as [Hn Hnb]. destruct (lo_cv _ _ _ Hm) as (Hsz & _).
  destruct (ReadString_at contents swap p _ f _ Hv Hn Hnb) as [p1 E1]. unfold ReadAuxiliaryData. cbn [module_valid_ module_of negb module_].
  rewrite (after_some _ _ _ _ _ (attempt_some _ _ _ _ E1)). cbv zeta. unfold listed_module.
  set (m0 := set_valid (set_name _ _)). change (module_ m0) with (lm_raw m).
  destruct (lm_cv m) as [|c cv] eqn:Ecv.
  - rewrite Hsz. cbn [length Z.of_nat Z.eqb]. change (Z.of_nat 0 =? 0) with true. cbn beta iota. rewrite (after_some (done_with (Some m0)) _ (Some m0) _ _ eq_refl).
    change (module_ m0) with (lm_raw m). rewrite (lo_misc _ _ _ Hm). by exists p1.
  - destruct (GetCVRecord_at p1 f m m0 Hv Hm ltac:(by rewrite Ecv) eq_refl eq_refl eq_refl) as (record & signature & p2 & Ec & E2).
    rewrite Ecv in Ec. rewrite Ec. rewrite Hsz. cbn [length]. rewrite (proj2 (Z.eqb_neq _ 0)) by lia. rewrite (after_some _ _ _ _ _ (attempt_some _ _ _ _ E2)).
    change (module_ (set_cv_record record signature m0)) with (lm_raw m). rewrite (lo_misc _ _ _ Hm). by exists p2.
Qed.

(** What a map of modules has when those from an index on have been placed. *)
Definition listed_high (m : ListedModule) : Z := base_of_image (lm_raw m) + size_of_image (lm_raw m) - 1.
Definition listed_range (index : Z) (m : ListedModule) : Range Z := mkRange (base_of_image (lm_raw m)) 0 index.

Definition listed_free (ms : list ListedModule) (map : RangeMap Z) : Prop :=
  Forall (λ m : ListedModule, free map (base_of_image (lm_raw m)) (listed_high m)) ms.

Definition in_listed (m : ListedModule) (a : Z) : Prop := base_of_image (lm_raw m) <= a <= listed_high m.

Definition listed_disjoint (ms : list ListedModule) : Prop :=
  forall i j (m m' : ListedModule), ms !! i = Some m -> ms !! j = Some m' -> i <> j ->
    listed_high m < base_of_image (lm_raw m') \/ listed_high m' < base_of_image (lm_raw m).

Lemma listed_fits (m : ListedModule) : listed_ok contents swap m ->
  0 <= base_of_image (lm_raw m) /\ 0 < size_of_image (lm_raw m) < 2 ^ 32 /\ base_of_image (lm_raw m) + size_of_image (lm_raw m) < 2 ^ 64.
Proof. intros Hm. destruct (lo_range _ _ _ Hm). destruct (lo_raw _ _ _ Hm) as [(Hb & Hs & _) _]. unfold fits in *. lia. Qed.

Lemma place_module_free map index (m : ListedModule) last name :
  rm_ok 64 map -> enable_shrink_down map = false -> listed_ok contents swap m ->
  free map (base_of_image (lm_raw m)) (listed_high m) ->
  place_module map index (base_of_image (lm_raw m)) (size_of_image (lm_raw m)) last name =
    Some (mkRangeMap false (StdMap.insert (rmap map) (listed_high m) (listed_range index m)), base_of_image (lm_raw m) + size_of_image (lm_raw m)).
Proof.
  intros Hok Hsd Hm Hfree. destruct (listed_fits m Hm) as (Hb & Hs & He). unfold place_module.
  rewrite StoreRange_plain by (first [done|unfold fits; change (2 ^ 32) with 4294967296 in Hs; change (2 ^ 64) with 18446744073709551616 in *; lia]).
  rewrite decide_True by (unfold listed_high in Hfree; split_and!; [lia|lia|done]).
  unfold u64. rewrite wrap_small by (unfold fits; lia). done.
Qed.

Definition placed (map' map : RangeMap Z) (index : Z) (ms : list ListedModule) : Prop :=
  rm_ok 64 map' /\ enable_shrink_down map' = false /\
  forall h r, (h, r) ∈ rmap map' <->
    (h, r) ∈ rmap map \/ exists i (m : ListedModule), ms !! i = Some m /\ (h, r) = (listed_high m, listed_range (index + Z.of_nat i) m).

Lemma place_modules_at ms : forall index last map p f,
  dump_valid_ f = true -> Forall (listed_ok contents swap) ms -> listed_disjoint ms ->
  rm_ok 64 map -> enable_shrink_down map = false -> listed_free ms map ->
  exists map' p', place_modules index ((λ m : ListedModule, module_of (lm_raw m)) <$> ms) last map (at_position contents swap p f) =
    (Some (listed_module swap <$> ms, map'), at_position contents swap p' f) /\ placed map' map index ms.
Proof.
  induction ms as [|m ms IH]; intros index last map p f Hv Hms Hd Hok Hsd Hfree.
  { exists map, p. split; [done|]. split_and!; [done..|]. intros h r. split; [by left|]. by intros [?|(i & m & Hi & _)]. }
  apply Forall_cons in Hms as [Hm Hms]. apply Forall_cons in Hfree as [Hf Hfree].
  destruct (ReadAuxiliaryData_at p f m Hv Hm) as [p1 E1]. destruct (listed_fits m Hm) as (Hb & Hs & He).
  change (2 ^ 32) with 4294967296 in Hs. change (2 ^ 64) with 18446744073709551616 in He.
  cbn [fmap list_fmap place_modules]. rewrite (after_some _ _ _ _ _ E1). rewrite (after_some _ _ _ _ _ (requires_true _ _ eq_refl)).
  change (mm_base_address (listed_module swap m)) with (base_of_image (lm_raw m)). change (mm_size (listed_module swap m)) with (size_of_image (lm_raw m)).
  assert (Hbase: negb (base_of_image (lm_raw m) =? wrap 64 (-1)) = true).
  { change (wrap 64 (-1)) with 18446744073709551615. rewrite (proj2 (Z.eqb_neq _ _)) by lia. done. }
  rewrite (after_some _ _ _ _ _ (requires_true _ _ Hbase)).
  rewrite (place_module_free map index m last _ Hok Hsd Hm Hf). set (map1 := mkRangeMap false _).
  assert (Hok1: rm_ok 64 map1).
  { apply rm_ok_insert; unfold listed_range, listed_high; cbn [rbase rdelta]; change (2 ^ 64) with 18446744073709551616; [lia|done|lia..|exact Hf]. }
  assert (Hnk: forall v, (listed_high m, v) ∉ rmap map).
  { intros v Hin. pose proof (ok_range 64 _ Hok _ _ Hin). destruct (Hf _ _ Hin); unfold listed_high in *; lia. }
  assert (Hel: forall h r, (h, r) ∈ rmap map1 <-> (h, r) = (listed_high m, listed_range index m) \/ (h, r) ∈ rmap map).
  { intros h r. cbn [rmap map1]. apply elem_of_insert; [by apply (ok_sorted 64)|done]. }
  assert (Hd1: listed_disjoint ms) by (intros i j m1 m2 Hi Hj Hij; apply (Hd (S i) (S j)); auto).
  assert (Hfree1: listed_free ms map1).
  { apply Forall_lookup. intros i m' Hi h r [[= -> ->]|Hin]%Hel; [|by apply (proj1 (Forall_lookup _ _) Hfree i m' Hi)].
    cbn [rbase listed_range]. specialize (Hd 0%nat (S i) m m' eq_refl Hi ltac:(done)). lia. }
  destruct (IH (index + 1) (base_of_image (lm_raw m) + size_of_image (lm_raw m)) map1 p1 f Hv Hms Hd1 Hok1 eq_refl Hfree1) as (map' & p' & E & Hok' & Hsd' & Hp).
  exists map', p'. rewrite (after_some _ _ _ _ _ E). split; [done|]. split_and!; [done..|]. intros h r. rewrite Hp, Hel. split.
  - intros [[Heq|?]|(i & m' & Hi & Heq)]; [right; exists 0%nat, m|by left|right; exists (S i), m']; (split; [done|]).
    + replace (index + Z.of_nat 0) with index by lia. done.
    + replace (index + Z.of_nat (S i)) with (index + 1 + Z.of_nat i) by lia. done.
  - intros [?|([|i] & m' & Hi & Heq)]; [left; by right|left; left|right; exists i, m'; split; [done|]].
    + injection Hi as <-. replace (index + Z.of_nat 0) with index in Heq by lia. done.
    + replace (index + Z.of_nat (S i)) with (index + 1 + Z.of_nat i) in Heq by lia. done.
Qed.
End auxiliary.

(** The count, with or without padding after it. *)
Lemma read_count_at {O} (contents : list Z) (swap : bool) (item_size n : Z) (padding : list Z) p (f : DumpFile O) :
  dump_valid_ f = true -> fits 32 n -> 0 < item_size -> n <= (2 ^ 32 - 1) / item_size -> padding = [] \/ length padding = 4%nat ->
  holds contents p (order swap 4 n ++ padding) ->
  read_count item_size (4 + Z.of_nat (length padding) + n * item_size) (at_position contents swap p f) =
  (Some n, at_position contents swap (p + 4 + Z.of_nat (length padding)) f).
Proof.
  intros Hv Hn Hi Hle Hpad Hb. apply holds_app in Hb as [Hb1 Hb2]. rewrite length_order in Hb2. unfold read_count, fits in *.
  assert (0 <= n * item_size) by nia.
  assert (H4: 4 <=? 4 + Z.of_nat (length padding) + n * item_size = true) by (apply Z.leb_le; lia). rewrite (after_some _ _ _ _ _ (requires_true _ _ H4)).
  pose proof (read_bytes_at contents swap p _ f Hb1) as Hr. rewrite length_order in Hr. change (Z.of_nat 4) with 4 in *. rewrite (after_some _ _ _ _ _ Hr).
  unfold after at 1, asking. cbv zeta. rewrite get_swap_at by done.
  rewrite (member_read swap 4 _ 0 n); [|by unfold sizes_ok; auto|done|apply holds_self].
  rewrite (after_some _ _ _ _ _ (requires_true _ _ (proj2 (Z.leb_le _ _) Hle))).
  destruct Hpad as [->|Hp].
  - cbn [length]. change (Z.of_nat 0) with 0. rewrite !Z.add_0_r, Z.eqb_refl. done.
  - rewrite Hp. change (Z.of_nat 4) with 4. rewrite (proj2 (Z.eqb_neq _ (4 + n * item_size))) by lia. unfold after at 1. unfold after at 1. rewrite Z.eqb_refl. cbn [requires done_with].
    pose proof (read_bytes_at contents swap _ _ f Hb2) as Hr2. rewrite Hp in Hr2. change (Z.of_nat 4) with 4 in Hr2. rewrite (after_some _ _ _ _ _ Hr2). done.
Qed.


Definition demo_listed (base name_rva cv_rva : Z) (name cv : list Z) : ListedModule :=
  mkListed (mkRawModule base 0x1000 0 0 name_rva (mkFixedFileInfo 0 0 0 0 0 0 0 0 0 0 0 0 0) (mkLoc (Z.of_nat (length cv)) cv_rva) (mkLoc 0 0)) (replicate 16 0) name cv.

Definition demo_listed_modules : list ListedModule :=
  [demo_listed 0x4000 224 230 [0x41] [0x4c; 0x45; 0x70; 0x42; 0xab; 0xcd]; demo_listed 0x5000 236 0 [0x20ac] []].

Definition demo_module_dump : list Z :=
  ((order false 4 2 ++ [0; 0; 0; 0]) ++ concat (listed_bytes false <$> demo_listed_modules)) ++ string_bytes false [0x41] ++
  [0x4c; 0x45; 0x70; 0x42; 0xab; 0xcd] ++ string_bytes false [0x20ac].

#[local] Instance system_info_object : StreamObject MinidumpSystemInfo MinidumpSystemInfo := {| to_object t := t; of_object := Some; of_to_object t := eq_refl |}.

Definition demo_module_file : DumpFile MinidumpSystemInfo := with_valid true (Minidump_new (Some demo_module_dump)).

Lemma demo_listed_ok : Forall (listed_ok demo_module_dump false) demo_listed_modules.
Proof.
  repeat constructor; try (vm_compute; by intuition congruence); cbn; unfold fits, scalar; try lia.
Qed.

Lemma demo_listed_disjoint : listed_disjoint demo_listed_modules.
Proof. intros [|[|i]] [|[|j]] m m' Hi Hj Hij; cbn in Hi, Hj; simplify_eq; vm_compute; first [by left|by right]. Qed.

