(* ===== verification/MinidumpContext.v ===== *)
(** processor/minidump.cc, google_breakpad/common/minidump_cpu_*.h: [MinidumpContext], which reads
    the registers of a thread from a minidump.
    The structure of a CPU is a list of its members, which says how each is swapped; a context
    has the registers that the walkers use (DumpContext.v). *)
From stdpp Require Import list.
From S2P Require Import Prelude StdMap Memory MemoryRegion CfiFrameInfo CpuFrame StackwalkerAMD64 StackwalkerChain StackwalkerARM StackwalkerMIPS StackwalkerX86 DumpContext MinidumpFile MinidumpSystem.

(** ** Structures *)

(** A member: a number, which is swapped; bytes that are left as they are; two numbers of 64
    bits, which may be normalized, always or when they are swapped. *)
Inductive raw_member :=
| number (width : nat)
| kept (length : nat)
| quad
| quad_normalized (is_big_endian always : bool).

Definition member_size (m : raw_member) : nat := match m with number n | kept n => n | _ => 16 end.
Definition structure_size (layout : list raw_member) : nat := sum_list_with member_size layout.

Definition quad_at (raw : list Z) (offset : Z) : uint128_struct := mk128 (read_le raw offset 8) (read_le raw (offset + 8) 8).
Definition quad_bytes (q : uint128_struct) : list Z := le_bytes 8 (high q) ++ le_bytes 8 (low q).

(** A member as it is after the structure has been read. *)
Definition swap_member (swap : bool) (m : raw_member) (raw : list Z) (offset : Z) : list Z :=
  match m with
  | number n => if swap then swap_at raw offset n else slice raw offset n
  | kept n => slice raw offset n
  | quad => if swap then quad_bytes (Swap128 (quad_at raw offset)) else slice raw offset 16
  | quad_normalized is_big_endian always =>
      let q := quad_at raw offset in
      let q := if swap || always then Normalize128 q is_big_endian else q in
      quad_bytes (if swap then Swap128 q else q)
  end.

Fixpoint swap_struct (swap : bool) (layout : list raw_member) (raw : list Z) (offset : Z) : list Z :=
  match layout with
  | [] => []
  | m :: layout => swap_member swap m raw offset ++ swap_struct swap layout raw (offset + Z.of_nat (member_size m))
  end.

(** The members after [context_flags]; all of them for AMD64, whose flags are not the first
    member and whose [gs] is not swapped. *)
Definition MDRawContextX86 : list raw_member :=
  replicate 6 (number 4) ++ replicate 7 (number 4) ++ [kept 80; number 4] ++ replicate 16 (number 4) ++ [kept 512].

Definition MDRawContextAMD64 : list raw_member :=
  replicate 6 (number 8) ++ [kept 4; number 4] ++ replicate 4 (number 2) ++ [kept 2; number 2; number 4] ++ replicate 6 (number 8) ++ replicate 17 (number 8) ++
  [kept 512] ++ replicate 26 (quad_normalized false true) ++ replicate 6 (number 8).

Definition MDRawContextPPC : list raw_member :=
  [number 4; number 4] ++ replicate 32 (number 4) ++ replicate 6 (number 4) ++ replicate 32 (number 8) ++ [kept 4; number 4] ++
  replicate 32 (quad_normalized true true) ++ [quad; kept 16; number 4; kept 28].

Definition MDRawContextPPC64 : list raw_member :=
  [number 8; number 8] ++ replicate 32 (number 8) ++ replicate 5 (number 8) ++ replicate 32 (number 8) ++ [kept 4; number 4] ++
  replicate 32 (quad_normalized true false) ++ [quad; kept 16; number 4; kept 28].

Definition MDRawContextSPARC : list raw_member :=
  [kept 4] ++ replicate 32 (number 8) ++ replicate 6 (number 8) ++ replicate 32 (number 8) ++ [number 8; number 8].

Definition MDRawContextARM : list raw_member :=
  replicate 16 (number 4) ++ [number 4; number 8] ++ replicate 32 (number 8) ++ replicate 8 (number 4).

Definition MDRawContextARM64 : list raw_member :=
  replicate 33 (number 8) ++ [number 4; number 4; number 4] ++ replicate 32 (quad_normalized false false).

Definition MDRawContextMIPS : list raw_member :=
  [kept 4] ++ replicate 32 (number 8) ++ [number 8; number 8] ++ replicate 3 (number 4) ++ replicate 3 (number 4) ++
  [number 4; kept 4; number 8; number 8; number 4; number 4] ++ replicate 32 (number 8) ++ [number 4; number 4].

Definition sizeof (flags_size : nat) (layout : list raw_member) : Z := Z.of_nat (flags_size + structure_size layout).
Definition sizeof_x86 : Z := Eval vm_compute in sizeof 4 MDRawContextX86.
Definition sizeof_ppc : Z := Eval vm_compute in sizeof 4 MDRawContextPPC.
Definition sizeof_ppc64 : Z := Eval vm_compute in sizeof 8 MDRawContextPPC64.
Definition sizeof_amd64 : Z := Eval vm_compute in sizeof 0 MDRawContextAMD64.
Definition sizeof_sparc : Z := Eval vm_compute in sizeof 4 MDRawContextSPARC.
Definition sizeof_arm : Z := Eval vm_compute in sizeof 4 MDRawContextARM.
Definition sizeof_arm64 : Z := Eval vm_compute in sizeof 8 MDRawContextARM64.
Definition sizeof_mips : Z := Eval vm_compute in sizeof 4 MDRawContextMIPS.

(** Where the registers are. *)
Definition x86_offset (r : x86_reg) : Z :=
  match r with edi => 156 | esi => 160 | ebx => 164 | edx => 168 | ecx => 172 | eax => 176 | ebp => 180 | eip => 184 | esp => 196 end.
Definition amd64_offset (r : amd64_reg) : Z :=
  match r with
  | rax => 120 | rcx => 128 | rdx => 136 | rbx => 144 | rsp => 152 | rbp => 160 | rsi => 168 | rdi => 176 | r8 => 184 | r9 => 192 | r10 => 200
  | r11 => 208 | r12 => 216 | r13 => 224 | r14 => 232 | r15 => 240 | rip => 248
  end.
Definition ppc_offset (r : ppc_reg) : Z := match r with srr0 => 4 | gpr1 => 16 end.
Definition ppc64_offset (r : ppc_reg) : Z := match r with srr0 => 8 | gpr1 => 32 end.
Definition sparc_offset (r : sparc_reg) : Z := match r with g_r14 => 120 | g_r30 => 248 | sparc_pc => 272 end.
Definition arm_offset (n : nat) : Z := 4 + 4 * Z.of_nat n.
Definition arm64_offset (n : nat) : Z := 8 + 8 * Z.of_nat n.
Definition mips_offset (r : mips_reg) : Z := match r with iregs n => 8 + 8 * Z.of_nat n | epc => 312 end.

(** The registers in a structure. *)
Definition context_registers {R} (offset : R -> Z) (width : nat) (raw : list Z) : RawContext R := λ r, read_le raw (offset r) width.

Definition IsContextSizeUnique (context_size : Z) : bool :=
  (length (filter (λ size : Z, (context_size =? size)%Z = true)
    [sizeof_x86; sizeof_ppc; sizeof_ppc64; sizeof_amd64; sizeof_sparc; sizeof_arm; sizeof_arm64; sizeof_mips]) =? 1)%nat.

Definition MD_CONTEXT_ARM_OLD : Z := 0x00000040.

(** ** Reading *)

Section context.
Context {O : Type} `{StreamObject MinidumpSystemInfo O}.

(** The type of CPU, of the system if the flags have none. *)
Definition cpu_type_of (cpu_type : Z) : reading O Z :=
  if cpu_type =? 0 then
    let! (cpu_type, same_position) := GetContextCPUFlagsFromSystemInfo in
    requires same_position ;;;
    done_with cpu_type
  else done_with cpu_type.

(** The flags that have been read, and the rest of a structure. *)
Definition read_after_flags (layout : list raw_member) (flags_size : nat) (flags cpu_type : Z) : reading O (list Z) :=
  let! raw := read_bytes (Z.of_nat (structure_size layout)) in
  let! matches := CheckAgainstSystemInfo cpu_type in
  requires matches ;;;
  let! swap := asking get_swap in
  done_with (le_bytes flags_size flags ++ swap_struct swap layout raw 0).

Definition read_amd64 : reading O DumpContext :=
  let! raw := read_bytes sizeof_amd64 in
  let! swap := asking get_swap in
  let flags := member swap raw 48 4 in
  let! cpu_type := cpu_type_of (Z.land flags MD_CONTEXT_CPU_MASK) in
  let flags := Z.lor flags (if Z.land flags MD_CONTEXT_CPU_MASK =? 0 then cpu_type else 0) in
  requires (cpu_type =? MD_CONTEXT_AMD64) ;;;
  let! matches := CheckAgainstSystemInfo cpu_type in
  requires matches ;;;
  done_with (mkDumpContext true flags (raw_amd64 (context_registers amd64_offset 8 (swap_struct swap MDRawContextAMD64 raw 0)))).

(** PowerPC64 and ARM64, whose flags have 64 bits.  The flags of the system's CPU, or-ed to
    flags that have none, are lost when those that were read are stored after it. *)
Definition read_wide (layout : list raw_member) (cpu : Z) (make : list Z -> raw_context) : reading O DumpContext :=
  let! raw := read_bytes 8 in
  let! swap := asking get_swap in
  let flags := member swap raw 0 8 in
  let! cpu_type := cpu_type_of (Z.land flags MD_CONTEXT_CPU_MASK) in
  requires (cpu_type =? cpu) ;;;
  let! structure := read_after_flags layout 8 flags cpu_type in
  requires (u32 flags =? flags) ;;;
  done_with (mkDumpContext true (u32 flags) (make structure)).

(** The other CPUs: what the structure has to be for a type. *)
Definition other_structure (cpu_type flags : Z) : option (list raw_member * Z * (list Z -> raw_context)) :=
  if cpu_type =? MD_CONTEXT_X86 then Some (MDRawContextX86, sizeof_x86, λ raw, raw_x86 (context_registers x86_offset 4 raw))
  else if cpu_type =? MD_CONTEXT_PPC then Some (MDRawContextPPC, sizeof_ppc, λ raw, raw_ppc (context_registers ppc_offset 4 raw))
  else if cpu_type =? MD_CONTEXT_SPARC then Some (MDRawContextSPARC, sizeof_sparc, λ raw, raw_sparc (context_registers sparc_offset 8 raw))
  else if cpu_type =? MD_CONTEXT_ARM then Some (MDRawContextARM, sizeof_arm, λ raw, raw_arm (context_registers arm_offset 4 raw))
  else if (cpu_type =? MD_CONTEXT_MIPS) || (cpu_type =? MD_CONTEXT_MIPS64) then
    Some (MDRawContextMIPS, sizeof_mips, λ raw, raw_mips (flags, context_registers mips_offset 8 raw))
  else None.

(** The old flag of ARM, which is that of another part of a context now. *)
Definition renumber_arm (flags : Z) : Z :=
  if (Z.land flags MD_CONTEXT_CPU_MASK =? 0) && negb (Z.land flags MD_CONTEXT_ARM_OLD =? 0)
  then Z.ldiff (Z.lor flags MD_CONTEXT_ARM) MD_CONTEXT_ARM_OLD else flags.

Definition read_other (expected_size : Z) : reading O DumpContext :=
  let! raw := read_bytes 4 in
  let! swap := asking get_swap in
  let flags := renumber_arm (member swap raw 0 4) in
  let! cpu_type := cpu_type_of (Z.land flags MD_CONTEXT_CPU_MASK) in
  let flags := Z.lor flags cpu_type in
  match other_structure cpu_type flags with
  | None => failed
  | Some (layout, size, make) =>
      requires (expected_size =? size) ;;;
      let! structure := read_after_flags layout 4 flags cpu_type in
      done_with (mkDumpContext true flags (make structure))
  end.

(** [Read], of a new context; one that cannot be read is not used. *)
Definition Context_Read (expected_size : Z) : reading O DumpContext :=
  requires (IsContextSizeUnique sizeof_amd64 && IsContextSizeUnique sizeof_ppc64 && IsContextSizeUnique sizeof_arm64) ;;;
  if expected_size =? sizeof_amd64 then read_amd64
  else if expected_size =? sizeof_ppc64 then read_wide MDRawContextPPC64 MD_CONTEXT_PPC64 (λ raw, raw_ppc64 (context_registers ppc64_offset 8 raw))
  else if expected_size =? sizeof_arm64 then read_wide MDRawContextARM64 MD_CONTEXT_ARM64 (λ raw, raw_arm64 (context_registers arm64_offset 8 raw))
  else read_other expected_size.
End context.

(** ** A member of a structure that has been read *)

Fixpoint member_at (layout : list raw_member) (offset : nat) : option raw_member :=
  match layout with
  | [] => None
  | m :: layout => if (offset =? 0)%nat then Some m else if (member_size m <=? offset)%nat then member_at layout (offset - member_size m) else None
  end.

Lemma length_quad_bytes q : length (quad_bytes q) = 16%nat.
Proof. unfold quad_bytes. by rewrite length_app, !length_le_bytes. Qed.

Lemma length_swap_member swap m raw offset :
  0 <= offset -> offset + Z.of_nat (member_size m) <= Z.of_nat (length raw) -> length (swap_member swap m raw offset) = member_size m.
Proof.
  intros H0 H. destruct m; cbn [swap_member member_size] in *; [destruct swap|..].
  - apply length_le_bytes.
  - by apply length_slice.
  - by apply length_slice.
  - destruct swap; [apply length_quad_bytes|by apply length_slice].
  - apply length_quad_bytes.
Qed.

Lemma member_fits swap raw offset n :
  sizes_ok n -> Forall byte_ok raw -> 0 <= offset -> offset + Z.of_nat n <= Z.of_nat (length raw) -> fits (8 * Z.of_nat n) (member swap raw offset n).
Proof.
  intros Hn Hok H0 H. unfold member. pose proof (read_le_fits raw offset n Hok H0 H) as Hf. destruct swap; [|done].
  rewrite Swap_val by done. pose proof (le_val_range (rev (le_bytes n (read_le raw offset n))) ltac:(apply Forall_rev, le_bytes_ok)) as Hr.
  by rewrite length_rev, length_le_bytes in Hr.
Qed.

Lemma swapped_number swap n raw offset rest :
  sizes_ok n -> Forall byte_ok raw -> 0 <= offset -> offset + Z.of_nat n <= Z.of_nat (length raw) ->
  read_le (swap_member swap (number n) raw offset ++ rest) 0 n = member swap raw offset n.
Proof.
  intros Hn Hok H0 H. pose proof (length_swap_member swap (number n) raw offset H0 H) as Hl. cbn [member_size] in Hl.
  unfold read_le at 1, slice. rewrite drop_0, take_app_le, take_ge by lia. cbn [swap_member]. unfold member. destruct swap; [|done].
  unfold swap_at. pose proof (member_fits true raw offset n Hn Hok H0 H) as Hf. unfold member in Hf. by apply le_val_fits.
Qed.

Lemma read_le_app a b offset n : Z.of_nat (length a) <= offset -> read_le (a ++ b) offset n = read_le b (offset - Z.of_nat (length a)) n.
Proof. intros H. unfold read_le, slice. rewrite drop_app_ge by lia. do 3 f_equal. lia. Qed.

Lemma member_of_struct swap layout raw : forall base offset n,
  Forall byte_ok raw -> 0 <= base -> base + Z.of_nat (structure_size layout) <= Z.of_nat (length raw) ->
  member_at layout offset = Some (number n) -> sizes_ok n ->
  read_le (swap_struct swap layout raw base) (Z.of_nat offset) n = member swap raw (base + Z.of_nat offset) n.
Proof.
  induction layout as [|m layout IH]; intros base offset n Hok H0 H Hm Hn; [done|]. cbn [swap_struct member_at] in *.
  assert (Hsize: structure_size (m :: layout) = (member_size m + structure_size layout)%nat) by done. rewrite Hsize in H.
  destruct (offset =? 0)%nat eqn:E0.
  - apply Nat.eqb_eq in E0 as ->. injection Hm as ->. cbn [member_size] in H. rewrite Z.add_0_r. apply swapped_number; auto; lia.
  - destruct (member_size m <=? offset)%nat eqn:E1; [|done]. apply Nat.leb_le in E1. pose proof (length_swap_member swap m raw base H0 ltac:(lia)) as Hl.
    rewrite read_le_app by lia. rewrite Hl. rewrite <- Nat2Z.inj_sub by done. rewrite IH; auto; [|lia..]. f_equal. lia.
Qed.

Lemma swap_struct_app swap l1 l2 raw : forall offset, swap_struct swap (l1 ++ l2) raw offset = swap_struct swap l1 raw offset ++ swap_struct swap l2 raw (offset + Z.of_nat (structure_size l1)).
Proof.
  induction l1 as [|m l1 IH]; intros offset; [cbn; by rewrite Z.add_0_r|]. cbn [app swap_struct]. rewrite IH, <- app_assoc. do 3 f_equal.
  assert (Hsize: structure_size (m :: l1) = (member_size m + structure_size l1)%nat) by done. lia.
Qed.

Lemma member_at_bound layout : forall offset m, member_at layout offset = Some m -> (offset + member_size m <= structure_size layout)%nat.
Proof.
  induction layout as [|m' layout IH]; intros offset m; [done|]. cbn [member_at]. assert (Hsize: structure_size (m' :: layout) = (member_size m' + structure_size layout)%nat) by done.
  rewrite Hsize. destruct (offset =? 0)%nat eqn:E0; [intros [= ->]; apply Nat.eqb_eq in E0; lia|]. destruct (member_size m' <=? offset)%nat eqn:E1; [|done].
  intros H. apply IH in H. apply Nat.leb_le in E1. lia.
Qed.

Lemma length_swap_struct swap layout raw : forall offset, 0 <= offset -> offset + Z.of_nat (structure_size layout) <= Z.of_nat (length raw) ->
  length (swap_struct swap layout raw offset) = structure_size layout.
Proof.
  induction layout as [|m layout IH]; intros offset H0 H; [done|]. assert (Hsize: structure_size (m :: layout) = (member_size m + structure_size layout)%nat) by done.
  rewrite Hsize in *. cbn [swap_struct]. rewrite length_app, length_swap_member, IH; lia.
Qed.

(** ** Contexts laid out in a dump *)

Definition context_size (r : raw_context) : Z :=
  match r with
  | raw_null => 0
  | raw_x86 _ => sizeof_x86 | raw_ppc _ => sizeof_ppc | raw_ppc64 _ => sizeof_ppc64 | raw_amd64 _ => sizeof_amd64
  | raw_sparc _ => sizeof_sparc | raw_arm _ => sizeof_arm | raw_arm64 _ => sizeof_arm64 | raw_mips _ => sizeof_mips
  end.

Definition flags_at (r : raw_context) : Z := match r with raw_amd64 _ => 48 | _ => 0 end.
Definition flags_width (r : raw_context) : nat := match r with raw_ppc64 _ | raw_arm64 _ => 8 | _ => 4 end.

(** The registers there are. *)
Definition mips_member (r : mips_reg) : Prop := match r with iregs n => (n < 32)%nat | epc => True end.
Definition any_register {R} (r : R) : Prop := True.

Section laid_out.
Context (contents : list Z) (swap : bool) (p : Z).

Definition registers_at {R} (valid : R -> Prop) (offset : R -> Z) (width : nat) (c : RawContext R) : Prop :=
  forall r, valid r -> fits (8 * Z.of_nat width) (c r) /\ holds contents (p + offset r) (order swap width (c r)).

Definition registers_laid_out (r : raw_context) : Prop :=
  match r with
  | raw_null => False
  | raw_x86 c => registers_at any_register x86_offset 4 c
  | raw_ppc c => registers_at any_register ppc_offset 4 c
  | raw_ppc64 c => registers_at any_register ppc64_offset 8 c
  | raw_amd64 c => registers_at any_register amd64_offset 8 c
  | raw_sparc c => registers_at any_register sparc_offset 8 c
  | raw_arm c => registers_at (λ n, (n < 16)%nat) arm_offset 4 c
  | raw_arm64 c => registers_at (λ n, (n < 33)%nat) arm64_offset 8 c
  | raw_mips c => registers_at mips_member mips_offset 8 c.2
  end.

Record context_laid_out (flags : Z) (r : raw_context) : Prop := {
  cl_bytes : Forall byte_ok contents;
  cl_flags : fits 32 flags /\ raw_matches (Z.land flags MD_CONTEXT_CPU_MASK) r /\ holds contents (p + flags_at r) (order swap (flags_width r) flags);
  cl_size : 0 <= p /\ p + context_size r <= Z.of_nat (length contents);
  cl_registers : registers_laid_out r
}.
End laid_out.

(** Contexts of a CPU with the same registers. *)
Definition agree {R} (valid : R -> Prop) (c c' : RawContext R) : Prop := forall r, valid r -> c r = c' r.

Definition same_registers (r r' : raw_context) : Prop :=
  match r, r' with
  | raw_x86 c, raw_x86 c' => agree any_register c c'
  | raw_ppc c, raw_ppc c' | raw_ppc64 c, raw_ppc64 c' => agree any_register c c'
  | raw_amd64 c, raw_amd64 c' => agree any_register c c'
  | raw_sparc c, raw_sparc c' => agree any_register c c'
  | raw_arm c, raw_arm c' => agree (λ n, (n < 16)%nat) c c'
  | raw_arm64 c, raw_arm64 c' => agree (λ n, (n < 33)%nat) c c'
  | raw_mips c, raw_mips c' => agree mips_member c.2 c'.2
  | _, _ => False
  end.

(** ** Reading them *)

Lemma holds_slice contents p n offset bs :
  0 <= p -> 0 <= offset -> offset + Z.of_nat (length bs) <= Z.of_nat n -> holds contents (p + offset) bs -> holds (slice contents p n) offset bs.
Proof.
  intros Hp Ho Hn [_ H]. split; [done|]. rewrite <- H at 2. unfold slice. rewrite skipn_firstn_comm, take_take, drop_drop.
  f_equal; [lia|]. f_equal. lia.
Qed.

(** Registers that are numbers of a structure. *)
Definition places {R} (layout : list raw_member) (flags_size : nat) (valid : R -> Prop) (offset : R -> Z) (width : nat) : Prop :=
  forall r, valid r -> exists o, offset r = Z.of_nat flags_size + Z.of_nat o /\ member_at layout o = Some (number width) /\ (o + width <= structure_size layout)%nat.

Lemma registers_read {R} contents swap p layout flags_size (valid : R -> Prop) offset width flag_bytes c :
  places layout flags_size valid offset width -> sizes_ok width -> length flag_bytes = flags_size -> Forall byte_ok contents ->
  0 <= p -> p + sizeof flags_size layout <= Z.of_nat (length contents) -> registers_at contents swap p valid offset width c ->
  agree valid c (context_registers offset width (flag_bytes ++ swap_struct swap layout (slice contents (p + Z.of_nat flags_size) (structure_size layout)) 0)).
Proof.
  intros Hpl Hw Hl Hok Hp Hs Hr r Hv. destruct (Hpl r Hv) as (o & Ho & Hm & Hb). destruct (Hr r Hv) as [Hf Hh]. unfold context_registers, sizeof in *.
  set (raw := slice _ _ _). assert (Hlen: length raw = structure_size layout) by (apply length_slice; lia).
  rewrite Ho, read_le_app, Hl by lia. replace (Z.of_nat flags_size + Z.of_nat o - Z.of_nat flags_size) with (Z.of_nat o) by lia.
  rewrite member_of_struct by (first [done|lia|by apply slice_bytes_ok]). rewrite Z.add_0_l. symmetry. apply member_read; [done..|].
  apply holds_slice; [lia|lia|rewrite length_order; lia|]. by rewrite <- Z.add_assoc, <- Ho.
Qed.

Lemma x86_places : places MDRawContextX86 4 any_register x86_offset 4.
Proof. intros r _. exists (Z.to_nat (x86_offset r - 4)). destruct r; (split_and!; [reflexivity|reflexivity|vm_compute; lia]). Qed.
Lemma amd64_places : places MDRawContextAMD64 0 any_register amd64_offset 8.
Proof. intros r _. exists (Z.to_nat (amd64_offset r)). destruct r; (split_and!; [reflexivity|reflexivity|vm_compute; lia]). Qed.
Lemma ppc_places : places MDRawContextPPC 4 any_register ppc_offset 4.
Proof. intros r _. exists (Z.to_nat (ppc_offset r - 4)). destruct r; (split_and!; [reflexivity|reflexivity|vm_compute; lia]). Qed.
Lemma ppc64_places : places MDRawContextPPC64 8 any_register ppc64_offset 8.
Proof. intros r _. exists (Z.to_nat (ppc64_offset r - 8)). destruct r; (split_and!; [reflexivity|reflexivity|vm_compute; lia]). Qed.
Lemma sparc_places : places MDRawContextSPARC 4 any_register sparc_offset 8.
Proof. intros r _. exists (Z.to_nat (sparc_offset r - 4)). destruct r; (split_and!; [reflexivity|reflexivity|vm_compute; lia]). Qed.
Lemma arm_places : places MDRawContextARM 4 (λ n, (n < 16)%nat) arm_offset 4.
Proof.
  intros n Hn. exists (4 * n)%nat. split_and!; [unfold arm_offset; lia| |change (structure_size MDRawContextARM) with 364%nat; lia].
  do 16 (destruct n as [|n]; [reflexivity|]). lia.
Qed.
Lemma arm64_places : places MDRawContextARM64 8 (λ n, (n < 33)%nat) arm64_offset 8.
Proof.
  intros n Hn. exists (8 * n)%nat. split_and!; [unfold arm64_offset; lia| |change (structure_size MDRawContextARM64) with 788%nat; lia].
  do 33 (destruct n as [|n]; [reflexivity|]). lia.
Qed.
Lemma mips_places : places MDRawContextMIPS 4 mips_member mips_offset 8.
Proof.
  intros [n|] Hn; [|exists 308%nat; split_and!; [reflexivity|reflexivity|vm_compute; lia]]. cbn in Hn.
  exists (4 + 8 * n)%nat. split_and!; [unfold mips_offset; lia| |change (structure_size MDRawContextMIPS) with 596%nat; lia].
  do 32 (destruct n as [|n]; [reflexivity|]). lia.
Qed.

Section reads.
Context {O : Type} `{StreamObject MinidumpSystemInfo O} (contents : list Z) (swap : bool).
Implicit Types (f : DumpFile O).

Lemma read_available p n f :
  0 <= p -> p + n <= Z.of_nat (length contents) -> 0 <= n ->
  read_bytes n (at_position contents swap p f) = (Some (slice contents p (Z.to_nat n)), at_position contents swap (p + n) f).
Proof.
  intros Hp Hn H0. assert (Hl: length (slice contents p (Z.to_nat n)) = Z.to_nat n) by (apply length_slice; lia).
  pose proof (read_bytes_at contents swap p (slice contents p (Z.to_nat n)) f) as Hr. rewrite Hl, Z2Nat.id in Hr by done. apply Hr.
  split; [done|]. by rewrite Hl.
Qed.

Lemma context_swap_at p f : dump_valid_ f = true -> get_swap (at_position contents swap p f) = swap.
Proof. unfold get_swap, at_position. cbn. by intros ->. Qed.

Lemma read_flags_at p width flags f :
  sizes_ok width -> fits (8 * Z.of_nat width) flags -> holds contents p (order swap width flags) ->
  exists raw, read_bytes (Z.of_nat width) (at_position contents swap p f) = (Some raw, at_position contents swap (p + Z.of_nat width) f) /\
    member swap raw 0 width = flags.
Proof.
  intros Hw Hf Hh. exists (order swap width flags). pose proof (read_bytes_at contents swap p _ f Hh) as Hr. rewrite length_order in Hr. split; [done|].
  apply member_read; [done..|]. split; [done|]. unfold slice. by rewrite drop_0, take_ge.
Qed.

Lemma cpu_type_given cpu_type f : cpu_type <> 0 -> cpu_type_of cpu_type f = (Some cpu_type, f).
Proof. intros Hn. unfold cpu_type_of. by rewrite (proj2 (Z.eqb_neq _ _) Hn). Qed.

Section structure.
Context (p q : Z) (f f' : DumpFile O) (flags cpu : Z) (layout : list raw_member) (flags_size : nat).
Context (Hvalid : dump_valid_ f' = true) (Hp : 0 <= p) (Hsize : p + sizeof flags_size layout <= Z.of_nat (length contents)).
Context (Hsystem : CheckAgainstSystemInfo cpu (at_position contents swap (p + sizeof flags_size layout) f) = (Some true, at_position contents swap q f')).

Lemma read_after_flags_at :
  read_after_flags layout flags_size flags cpu (at_position contents swap (p + Z.of_nat flags_size) f) =
  (Some (le_bytes flags_size flags ++ swap_struct swap layout (slice contents (p + Z.of_nat flags_size) (structure_size layout)) 0), at_position contents swap q f').
Proof.
  unfold read_after_flags, sizeof in *.
  assert (Hr := read_available (p + Z.of_nat flags_size) (Z.of_nat (structure_size layout)) f ltac:(lia) ltac:(lia) ltac:(lia)). rewrite Nat2Z.id in Hr.
  rewrite (after_some _ _ _ _ _ Hr). replace (p + Z.of_nat flags_size + Z.of_nat (structure_size layout)) with (p + Z.of_nat (flags_size + structure_size layout)) by lia.
  rewrite (after_some _ _ _ _ _ Hsystem). rewrite (after_some _ _ _ _ _ (requires_true true _ eq_refl)). unfold after, asking, done_with. by rewrite context_swap_at.
Qed.

Context (Hflags : fits 32 flags) (Hcpu : Z.land flags MD_CONTEXT_CPU_MASK = cpu) (Hnonzero : cpu <> 0) (Hswap : dump_valid_ f = true).

Lemma read_wide_at make :
  flags_size = 8%nat -> holds contents p (order swap 8 flags) ->
  read_wide layout cpu make (at_position contents swap p f) =
  (Some (mkDumpContext true flags (make (le_bytes 8 flags ++ swap_struct swap layout (slice contents (p + 8) (structure_size layout)) 0))), at_position contents swap q f').
Proof.
  intros Hw Hh. unfold read_wide.
  assert (Hf64: fits (8 * Z.of_nat 8) flags) by (unfold fits in *; change (2 ^ 32) with 4294967296 in *; change (2 ^ (8 * Z.of_nat 8)) with 18446744073709551616; lia).
  destruct (read_flags_at p 8 flags f ltac:(unfold sizes_ok; auto) Hf64 Hh) as (raw & Hr & Hm). change (Z.of_nat 8) with 8 in Hr.
  rewrite (after_some _ _ _ _ _ Hr). unfold after at 1, asking. rewrite context_swap_at, Hm, Hcpu by done. cbv zeta.
  rewrite (after_some _ _ _ _ _ (cpu_type_given cpu _ Hnonzero)). rewrite (after_some _ _ _ _ _ (requires_true _ _ (Z.eqb_refl cpu))).
  pose proof read_after_flags_at as Hs. rewrite Hw in Hs. change (Z.of_nat 8) with 8 in Hs. rewrite (after_some _ _ _ _ _ Hs).
  assert (Hu: u32 flags = flags) by (by apply wrap_small). rewrite Hu. rewrite (after_some _ _ _ _ _ (requires_true _ _ (Z.eqb_refl flags))). done.
Qed.

Lemma read_other_at make :
  flags_size = 4%nat -> holds contents p (order swap 4 flags) ->
  other_structure cpu flags = Some (layout, sizeof flags_size layout, make) ->
  read_other (sizeof flags_size layout) (at_position contents swap p f) =
  (Some (mkDumpContext true flags (make (le_bytes 4 flags ++ swap_struct swap layout (slice contents (p + 4) (structure_size layout)) 0))), at_position contents swap q f').
Proof.
  intros Hw Hh Hmake. unfold read_other.
  destruct (read_flags_at p 4 flags f ltac:(unfold sizes_ok; auto) Hflags Hh) as (raw & Hr & Hm). change (Z.of_nat 4) with 4 in Hr.
  rewrite (after_some _ _ _ _ _ Hr). unfold after at 1, asking. rewrite context_swap_at, Hm by done. cbv zeta.
  assert (Hrn: renumber_arm flags = flags) by (unfold renumber_arm; by rewrite Hcpu, (proj2 (Z.eqb_neq _ _) Hnonzero)). rewrite Hrn, Hcpu.
  rewrite (after_some _ _ _ _ _ (cpu_type_given cpu _ Hnonzero)).
  assert (Hlor: Z.lor flags cpu = flags).
  { rewrite <- Hcpu. apply Z.bits_inj'. intros i _. rewrite Z.lor_spec, Z.land_spec. by destruct (Z.testbit flags i). }
  rewrite Hlor, Hmake. rewrite (after_some _ _ _ _ _ (requires_true _ _ (Z.eqb_refl _))).
  pose proof read_after_flags_at as Hs. rewrite Hw in Hs. change (Z.of_nat 4) with 4 in Hs. rewrite (after_some _ _ _ _ _ Hs). done.
Qed.

Lemma read_amd64_at :
  flags_size = 0%nat -> layout = MDRawContextAMD64 -> cpu = MD_CONTEXT_AMD64 -> holds contents (p + 48) (order swap 4 flags) ->
  read_amd64 (at_position contents swap p f) =
  (Some (mkDumpContext true flags (raw_amd64 (context_registers amd64_offset 8 (swap_struct swap layout (slice contents p (structure_size layout)) 0)))), at_position contents swap q f').
Proof.
  intros Hw Hlay Hamd Hh. unfold read_amd64. rewrite Hw, Hlay in *. rewrite Hamd in *.
  assert (Hr := read_available p sizeof_amd64 f Hp Hsize ltac:(done)). rewrite (after_some _ _ _ _ _ Hr). unfold after at 1, asking.
  rewrite context_swap_at by done. cbv zeta.
  assert (Hm: member swap (slice contents p (Z.to_nat sizeof_amd64)) 48 4 = flags).
  { apply member_read; [by unfold sizes_ok; auto|done|]. apply holds_slice; [done|done|rewrite length_order; vm_compute; discriminate|done]. }
  rewrite Hm, Hcpu. rewrite (after_some _ _ _ _ _ (cpu_type_given _ _ Hnonzero)). rewrite (proj2 (Z.eqb_neq MD_CONTEXT_AMD64 0)) by done. rewrite Z.lor_0_r.
  rewrite (after_some _ _ _ _ _ (requires_true _ _ (Z.eqb_refl MD_CONTEXT_AMD64))). change sizeof_amd64 with (sizeof 0 MDRawContextAMD64).
  rewrite (after_some _ _ _ _ _ Hsystem). rewrite (after_some _ _ _ _ _ (requires_true true _ eq_refl)). done.
Qed.
End structure.

Lemma Context_Read_holds p q f f' flags r :
  context_laid_out contents swap p flags r -> dump_valid_ f = true -> dump_valid_ f' = true ->
  CheckAgainstSystemInfo (Z.land flags MD_CONTEXT_CPU_MASK) (at_position contents swap (p + context_size r) f) = (Some true, at_position contents swap q f') ->
  exists r', Context_Read (context_size r) (at_position contents swap p f) = (Some (mkDumpContext true flags r'), at_position contents swap q f') /\
    raw_matches (Z.land flags MD_CONTEXT_CPU_MASK) r' /\ same_registers r r'.
Proof.
  intros [Hok (Hf & Hm & Hh) [Hp Hs] Hr] Hv Hv' Hsys. unfold Context_Read. rewrite (after_some _ _ _ _ _ (requires_true _ _ eq_refl)).
  set (cpu := Z.land flags MD_CONTEXT_CPU_MASK) in *.
  assert (Hcpu: Z.land flags MD_CONTEXT_CPU_MASK = cpu) by done. clearbody cpu.
  assert (Hnz: cpu <> 0) by (destruct r; cbn in Hm; [done|..|destruct Hm as [Hm|Hm]]; rewrite Hm; done).
  destruct r as [|c|c|c|c|c|c|c|[mips_flags c]]; cbn [context_size flags_at flags_width registers_laid_out raw_matches] in *; rewrite ?Z.add_0_r in Hh.
  - done.
  - eexists. split; [apply (read_other_at p q f f' flags cpu MDRawContextX86 4); [done..|by rewrite Hm]|]. split; [done|].
    by apply (registers_read contents swap p MDRawContextX86 4 _ _ 4 (le_bytes 4 flags) _ x86_places); [unfold sizes_ok; auto|..].
  - eexists. split; [apply (read_other_at p q f f' flags cpu MDRawContextPPC 4); [done..|by rewrite Hm]|]. split; [done|].
    by apply (registers_read contents swap p MDRawContextPPC 4 _ _ 4 (le_bytes 4 flags) _ ppc_places); [unfold sizes_ok; auto|..].
  - rewrite Hm in *. eexists. split; [apply (read_wide_at p q f f' flags MD_CONTEXT_PPC64 MDRawContextPPC64 8 Hv' Hp Hs Hsys Hf Hcpu Hnz Hv (λ raw, raw_ppc64 (context_registers ppc64_offset 8 raw)) eq_refl Hh)|]. split; [done|].
    by apply (registers_read contents swap p MDRawContextPPC64 8 _ _ 8 (le_bytes 8 flags) _ ppc64_places); [unfold sizes_ok; auto|..].
  - eexists. split; [by apply (read_amd64_at p q f f' flags cpu MDRawContextAMD64 0)|]. split; [done|].
    pose proof (registers_read contents swap p MDRawContextAMD64 0 _ _ 8 [] c amd64_places ltac:(unfold sizes_ok; auto) eq_refl Hok Hp Hs Hr) as Ha.
    change (Z.of_nat 0) with 0 in Ha. by rewrite Z.add_0_r in Ha.
  - eexists. split; [apply (read_other_at p q f f' flags cpu MDRawContextSPARC 4); [done..|by rewrite Hm]|]. split; [done|].
    by apply (registers_read contents swap p MDRawContextSPARC 4 _ _ 8 (le_bytes 4 flags) _ sparc_places); [unfold sizes_ok; auto|..].
  - eexists. split; [apply (read_other_at p q f f' flags cpu MDRawContextARM 4); [done..|by rewrite Hm]|]. split; [done|].
    by apply (registers_read contents swap p MDRawContextARM 4 _ _ 4 (le_bytes 4 flags) _ arm_places); [unfold sizes_ok; auto|..].
  - rewrite Hm in *. eexists. split; [apply (read_wide_at p q f f' flags MD_CONTEXT_ARM64 MDRawContextARM64 8 Hv' Hp Hs Hsys Hf Hcpu Hnz Hv (λ raw, raw_arm64 (context_registers arm64_offset 8 raw)) eq_refl Hh)|]. split; [done|].
    by apply (registers_read contents swap p MDRawContextARM64 8 _ _ 8 (le_bytes 8 flags) _ arm64_places); [unfold sizes_ok; auto|..].
  - eexists. split; [apply (read_other_at p q f f' flags cpu MDRawContextMIPS 4); [done..|destruct Hm as [Hm|Hm]; by rewrite Hm]|]. split; [done|].
    by apply (registers_read contents swap p MDRawContextMIPS 4 _ _ 8 (le_bytes 4 flags) _ mips_places); [unfold sizes_ok; auto|..].
Qed.
End reads.

(** C22: a context of any CPU that is laid out in a dump of either byte order, in agreement with the
    system information, is read: the context is present, its flags are those laid out, and so
    is every register that the walker of the CPU uses. *)
Theorem context_read {O} `{StreamObject MinidumpSystemInfo O} (contents : list Z) (swap : bool) p q (f f' : DumpFile O) flags r :
  context_laid_out contents swap p flags r -> dump_valid_ f = true -> dump_valid_ f' = true ->
  CheckAgainstSystemInfo (Z.land flags MD_CONTEXT_CPU_MASK) (at_position contents swap (p + context_size r) f) = (Some true, at_position contents swap q f') ->
  exists d, Context_Read (context_size r) (at_position contents swap p f) = (Some d, at_position contents swap q f') /\
    context_present d /\ GetContextFlags d = flags /\ same_registers r (raw_context_ d).
Proof.
  intros Hl Hv Hv' Hs. destruct (Context_Read_holds contents swap p q f f' flags r Hl Hv Hv' Hs) as (r' & E & Hm & Hr). eexists. split; [exact E|].
  split; [by split|]. by split.
Qed.

Definition demo_registers : RawContext nat := λ n, if (n =? 15)%nat then 0x40001234 else if (n =? 13)%nat then 0x7fff0000 else Z.of_nat n.

Definition demo_context_dump (swap : bool) : list Z :=
  order swap 4 (Z.lor MD_CONTEXT_ARM 6) ++ concat ((λ n, order swap 4 (demo_registers n)) <$> seq 0 16) ++ replicate 300 0.

#[local] Instance context_system_object : StreamObject MinidumpSystemInfo MinidumpSystemInfo := {| to_object t := t; of_object := Some; of_to_object t := eq_refl |}.

Lemma demo_context_laid_out : context_laid_out (demo_context_dump true) true 0 (Z.lor MD_CONTEXT_ARM 6) (raw_arm demo_registers).
Proof.
  split.
  - by apply bytes_ok_of.
  - split_and!; [vm_compute; split; [discriminate|done]|reflexivity|split; [done|reflexivity]].
  - vm_compute. split; discriminate.
  - intros n Hn. do 16 (destruct n as [|n]; [split; [vm_compute; split; [discriminate|done]|split; [done|reflexivity]]|]). lia.
Qed.

Lemma context_read_witness :
  exists d, (Context_Read sizeof_arm (with_valid true (with_swap true (Minidump_of_stream (mkStream (demo_context_dump true) 0 true))))).1 = Some d /\
    GetInstructionPointer d = Ok 0x40001234.
Proof.
  pose (f := with_valid true (with_swap true (Minidump_of_stream (O := MinidumpSystemInfo) (mkStream (demo_context_dump true) 0 true)))).
  destruct (context_read (demo_context_dump true) true 0 sizeof_arm f f (Z.lor MD_CONTEXT_ARM 6) (raw_arm demo_registers) demo_context_laid_out eq_refl eq_refl eq_refl)
    as (d & E & Hp & _ & Hr).
  exists d. split; [exact (f_equal fst E)|]. rewrite (proj1 (pointers_of_context d Hp)). destruct (raw_context_ d) as [| | | | | |c| |]; try contradiction.
  f_equal. symmetry. exact (Hr 15%nat (le_n 16)).
Defined.

(** The flags of a context of 64-bit flags that names no CPU stay without one, although it is
    read as one of the system's CPU: such a context has no registers for its users. *)
Lemma wide_flags_lost {O} `{StreamObject MinidumpSystemInfo O} layout cpu make raw (f f1 f2 : DumpFile O) d :
  read_bytes 8 f = (Some raw, f1) -> Z.land (member (get_swap f1) raw 0 8) MD_CONTEXT_CPU_MASK = 0 ->
  read_wide layout cpu make f = (Some d, f2) -> GetContextCPU d = 0.
Proof.
  intros Hr Hz. unfold read_wide. rewrite (after_some _ _ _ _ _ Hr). unfold after at 1, asking. cbv zeta. set (flags := member _ _ _ _) in *.
  unfold after, requires. destruct (cpu_type_of _ _) as [[cpu_type|] f3]; [|done]. destruct (cpu_type =? cpu); [|done]. cbn beta iota delta [done_with].
  destruct (read_after_flags _ _ _ _ _) as [[s|] f4]; [|done]. destruct (u32 flags =? flags) eqn:E; [|done]. cbn. intros [= <- _].
  breflect. unfold GetContextCPU. cbn [valid_ context_flags_]. by rewrite E.
Qed.
