(* ===== verification/MinidumpThreads.v ===== *)
(** processor/minidump.cc: [MinidumpThread] and [MinidumpThreadList], the threads of a minidump with
    their stacks and contexts; [MinidumpException]. *)
From stdpp Require Import list.
From S2P Require Import Prelude StdMap Memory MemoryRegion CfiFrameInfo DumpContext MinidumpFile MinidumpSystem MinidumpModules MinidumpContext.

(** ** Data *)

Record MDRawThread := mkRawThread {
  thread_id : Z;
  suspend_count : Z;
  priority_class : Z;
  priority : Z;
  teb : Z;
  stack : MDMemoryDescriptor;
  thread_context : MDLocationDescriptor
}.

Definition MDRawThread_read (swap : bool) (raw : list Z) : MDRawThread :=
  mkRawThread (member swap raw 0 4) (member swap raw 4 4) (member swap raw 8 4) (member swap raw 12 4) (member swap raw 16 8)
    (memory_descriptor_read swap raw 24) (location_read swap raw 40).

(** [valid_] once it has been read. *)
Record MinidumpThread := mkThread {
  thread_ : MDRawThread;
  thread_memory_ : option MinidumpMemoryRegion;
  thread_context_ : option DumpContext
}.

(** The threads by their numbers are positions in [threads_]; a number that has been asked for
    is a key, of a null pointer if no thread has it. *)
Record MinidumpThreadList := mkThreadList {
  id_to_thread_map_ : smap (option Z);
  threads_ : list MinidumpThread
}.

Record MDRawException := mkRawException {
  exception_thread_id : Z;
  exception_code : Z;
  exception_flags : Z;
  exception_record : Z;
  exception_address : Z;
  number_parameters : Z;
  exception_information : list Z;
  exception_context : MDLocationDescriptor
}.

Definition MD_EXCEPTION_MAXIMUM_PARAMETERS : nat := 15.

Definition MDRawException_read (swap : bool) (raw : list Z) : MDRawException :=
  mkRawException (member swap raw 0 4) (member swap raw 8 4) (member swap raw 12 4) (member swap raw 16 8) (member swap raw 24 8) (member swap raw 32 4)
    ((λ i, member swap raw (40 + 8 * Z.of_nat i) 8) <$> seq 0 MD_EXCEPTION_MAXIMUM_PARAMETERS) (location_read swap raw 160).

Record MinidumpException := mkException {
  exception_ : MDRawException;
  exception_context_ : option DumpContext
}.

(** ** Operations *)

(** The stack of a thread, which may be missing. *)
Definition stack_region (stack : MDMemoryDescriptor) : option MinidumpMemoryRegion :=
  if (rva (memory stack) =? 0) || (data_size (memory stack) =? 0) || (2 ^ 64 - 1 - start_of_memory_range stack <? data_size (memory stack)) then None
  else Some (SetDescriptor MinidumpMemoryRegion_new (Some stack)).

Definition thread_of (raw : MDRawThread) : MinidumpThread := mkThread raw (stack_region (stack raw)) None.

Definition max_threads_ := 4096.

(** [id_to_thread_map_[thread_id]], which makes a key of the number. *)
Definition thread_index (map : smap (option Z)) (id : Z) : option Z * smap (option Z) :=
  match lookup_key map id with Some i => (i, map) | None => (None, assign map id None) end.

Definition GetThreadAtIndex (l : MinidumpThreadList) (index : Z) : option MinidumpThread :=
  if Z.of_nat (length (threads_ l)) <=? index then None else threads_ l !! Z.to_nat index.

Definition GetThreadByID (l : MinidumpThreadList) (id : Z) : option MinidumpThread * MinidumpThreadList :=
  let '(i, map) := thread_index (id_to_thread_map_ l) id in (i ≫= λ i, threads_ l !! Z.to_nat i, mkThreadList map (threads_ l)).

Section threads.
Context {O : Type} `{StreamObject MinidumpSystemInfo O}.

Definition Thread_Read : reading O MinidumpThread :=
  let! raw := read_bytes 48 in
  let! swap := asking get_swap in
  done_with (thread_of (MDRawThread_read swap raw)).

(** The context at a place. *)
Definition read_context (location : MDLocationDescriptor) : reading O DumpContext := seek_set (rva location) ;;; Context_Read (data_size location).

(** [GetContext], and the thread with it. *)
Definition Thread_GetContext (t : MinidumpThread) : reading O (DumpContext * MinidumpThread) :=
  match thread_context_ t with
  | Some c => done_with (c, t)
  | None => let! c := read_context (thread_context (thread_ t)) in done_with (c, mkThread (thread_ t) (thread_memory_ t) (Some c))
  end.

Fixpoint read_threads (n : nat) (index : Z) (map : smap (option Z)) : reading O (list MinidumpThread * smap (option Z)) :=
  match n with
  | 0%nat => done_with ([], map)
  | S n =>
      let! t := Thread_Read in
      let id := thread_id (thread_ t) in
      let '(found, map) := thread_index map id in
      requires match found with Some _ => false | None => true end ;;;
      let! (ts, map) := read_threads n (index + 1) (assign map id (Some index)) in
      done_with (t :: ts, map)
  end.

Definition ThreadList_Read (expected_size : Z) : reading O MinidumpThreadList :=
  let! thread_count := read_count 48 expected_size in
  requires (thread_count <=? max_threads_) ;;;
  let! (ts, map) := read_threads (Z.to_nat thread_count) 0 [] in
  done_with (mkThreadList map ts).

Definition GetThreadList `{StreamObject MinidumpThreadList O} : reading O MinidumpThreadList :=
  GetStream MD_THREAD_LIST_STREAM to_object of_object ThreadList_Read.

Definition Exception_Read (expected_size : Z) : reading O MinidumpException :=
  requires (expected_size =? 168) ;;;
  let! raw := read_bytes 168 in
  let! swap := asking get_swap in
  done_with (mkException (MDRawException_read swap raw) None).

Definition Exception_GetContext (e : MinidumpException) : reading O (DumpContext * MinidumpException) :=
  match exception_context_ e with
  | Some c => done_with (c, e)
  | None => let! c := read_context (exception_context (exception_ e)) in done_with (c, mkException (exception_ e) (Some c))
  end.

Definition GetException `{StreamObject MinidumpException O} : reading O MinidumpException :=
  GetStream MD_EXCEPTION_STREAM to_object of_object Exception_Read.
End threads.

(** ** Threads laid out in a dump *)

Definition memory_descriptor_bytes (swap : bool) (d : MDMemoryDescriptor) : list Z :=
  order swap 8 (start_of_memory_range d) ++ location_bytes swap (memory d).
Definition memory_descriptor_fits (d : MDMemoryDescriptor) : Prop := fits 64 (start_of_memory_range d) /\ location_fits (memory d).

Definition thread_bytes (swap : bool) (t : MDRawThread) : list Z :=
  order swap 4 (thread_id t) ++ order swap 4 (suspend_count t) ++ order swap 4 (priority_class t) ++ order swap 4 (priority t) ++ order swap 8 (teb t) ++
  memory_descriptor_bytes swap (stack t) ++ location_bytes swap (thread_context t).

Definition thread_fits (t : MDRawThread) : Prop :=
  fits 32 (thread_id t) /\ fits 32 (suspend_count t) /\ fits 32 (priority_class t) /\ fits 32 (priority t) /\ fits 64 (teb t) /\
  memory_descriptor_fits (stack t) /\ location_fits (thread_context t).

Lemma length_memory_descriptor_bytes swap d : length (memory_descriptor_bytes swap d) = 16%nat.
Proof. unfold memory_descriptor_bytes. by rewrite length_app, length_order, length_location_bytes. Qed.

Lemma memory_descriptor_read_bytes swap raw p d :
  holds raw p (memory_descriptor_bytes swap d) -> memory_descriptor_fits d -> memory_descriptor_read swap raw p = d.
Proof.
  intros H [Hf Hl]. unfold memory_descriptor_bytes in H. rewrite holds_app, length_order in H. destruct H as [H1 H2]. unfold memory_descriptor_read. destruct d. cbn in *.
  f_equal; [by apply member_read; [unfold sizes_ok; auto|done|done]|by apply location_read_bytes].
Qed.

Lemma thread_read_bytes swap raw t : holds raw 0 (thread_bytes swap t) -> thread_fits t -> MDRawThread_read swap raw = t.
Proof.
  intros H (H1 & H2 & H3 & H4 & H5 & H6 & H7). unfold thread_bytes in H.
  rewrite !holds_app, !length_order, length_memory_descriptor_bytes in H. destruct H as (? & ? & ? & ? & ? & ? & ?). unfold MDRawThread_read. destruct t. cbn in *.
  f_equal; first [apply member_read; [unfold sizes_ok; by auto|done|done]|by apply memory_descriptor_read_bytes|by apply location_read_bytes].
Qed.

Lemma length_thread_bytes swap t : length (thread_bytes swap t) = 48%nat.
Proof. unfold thread_bytes. by rewrite !length_app, !length_order, length_memory_descriptor_bytes, length_location_bytes. Qed.

(** ** Reading them *)

Section reading.
Context {O : Type} `{StreamObject MinidumpSystemInfo O} (contents : list Z) (swap : bool).
Implicit Types (f : DumpFile O) (map : smap (option Z)) (t : MDRawThread) (ts : list MDRawThread).

Lemma Thread_Read_at p f t :
  dump_valid_ f = true -> thread_fits t -> holds contents p (thread_bytes swap t) ->
  Thread_Read (at_position contents swap p f) = (Some (thread_of t), at_position contents swap (p + 48) f).
Proof.
  intros Hv Ht Hb. unfold Thread_Read. pose proof (read_bytes_at contents swap p _ f Hb) as E. rewrite length_thread_bytes in E. change (Z.of_nat 48) with 48 in E.
  rewrite (after_some _ _ _ _ _ E). unfold after, asking. rewrite get_swap_at by done. by rewrite (thread_read_bytes swap _ t (holds_self _) Ht).
Qed.

Definition without_null map : Prop := forall id, lookup_key map id <> Some None.

Lemma thread_index_new map id : without_null map -> thread_index map id = match lookup_key map id with Some i => (i, map) | None => (None, assign map id None) end.
Proof. done. Qed.

Lemma lookup_known map id index id' : sorted map -> lookup_key (assign (assign map id None) id (Some index)) id' = if id' =? id then Some (Some index) else lookup_key map id'.
Proof. intros Hs. rewrite lookup_key_assign by (by apply sorted_assign). destruct (id' =? id) eqn:E; [done|]. by rewrite lookup_key_assign, E. Qed.

Lemma read_threads_at ts : forall index map p f,
  dump_valid_ f = true -> Forall thread_fits ts -> holds contents p (concat (thread_bytes swap <$> ts)) -> sorted map -> without_null map ->
  let once := NoDup (thread_id <$> ts) /\ Forall (λ id, lookup_key map id = None) (thread_id <$> ts) in
  (once -> exists map', read_threads (length ts) index map (at_position contents swap p f) =
      (Some (thread_of <$> ts, map'), at_position contents swap (p + 48 * Z.of_nat (length ts)) f) /\
    sorted map' /\ (forall i t, ts !! i = Some t -> lookup_key map' (thread_id t) = Some (Some (index + Z.of_nat i))) /\
    forall id, id ∉ thread_id <$> ts -> lookup_key map' id = lookup_key map id) /\
  (~ once -> (read_threads (length ts) index map (at_position contents swap p f)).1 = None).
Proof.
  induction ts as [|t ts IH]; intros index map p f Hv Hts Hb Hs Hn once; subst once.
  { split; [|intros Hno; destruct Hno; by split; constructor]. intros _. exists map. replace (p + 48 * Z.of_nat (length [])) with p by (cbn; lia). by split_and!. }
  apply Forall_cons in Hts as [Ht Hts]. cbn [fmap list_fmap concat] in Hb. apply holds_app in Hb as [Hb1 Hb2]. rewrite length_thread_bytes in Hb2.
  cbn [length read_threads fmap list_fmap]. rewrite (after_some _ _ _ _ _ (Thread_Read_at p f t Hv Ht Hb1)). cbn [thread_of thread_]. cbv zeta. rewrite NoDup_cons, Forall_cons.
  unfold thread_index. destruct (lookup_key map (thread_id t)) as [[i|]|] eqn:El.
  - split; [by intros (_ & Hno & _)|]. done.
  - by destruct (Hn (thread_id t)).
  - rewrite (after_some _ _ _ _ _ (requires_true true _ eq_refl)). set (map1 := assign (assign map (thread_id t) None) (thread_id t) (Some index)).
    assert (Hs1: sorted map1) by (by apply sorted_assign, sorted_assign).
    assert (Hl1: forall id, lookup_key map1 id = if id =? thread_id t then Some (Some index) else lookup_key map id) by (intros id; by apply lookup_known).
    assert (Hn1: without_null map1) by (intros id; rewrite Hl1; destruct (id =? thread_id t); [done|apply Hn]).
    assert (Hf1: forall l, Forall (λ id, lookup_key map1 id = None) l <-> thread_id t ∉ l /\ Forall (λ id, lookup_key map id = None) l).
    { intros l. rewrite !Forall_forall. split.
      - intros Hall. split; [intros Hin; specialize (Hall _ Hin); by rewrite Hl1, Z.eqb_refl in Hall|].
        intros x Hx. specialize (Hall x Hx). rewrite Hl1 in Hall. by destruct (x =? thread_id t).
      - intros [Hnin Hall] x Hx. rewrite Hl1. destruct (x =? thread_id t) eqn:E; [|by apply Hall]. breflect. by subst x. }
    destruct (IH (index + 1) map1 (p + 48) f Hv Hts Hb2 Hs1 Hn1) as [IH1 IH2]. split.
    + intros [[Hnin Hnd] [_ Hall]]. destruct IH1 as (map' & E & Hs' & Hk & Ho); [split; [done|by apply Hf1]|]. exists map'.
      rewrite (after_some _ _ _ _ _ E). unfold done_with. split_and!; [do 2 f_equal; lia|done| |].
      * intros [|i] t' Hi; [injection Hi as <-; rewrite Ho, Hl1, Z.eqb_refl by done; do 2 f_equal; lia|]. rewrite (Hk i t' Hi). do 2 f_equal. lia.
      * intros id Hid. apply not_elem_of_cons in Hid as [Hne Hid]. rewrite Ho, Hl1 by done. by rewrite (proj2 (Z.eqb_neq _ _) Hne).
    + intros Hno. assert (Hnone := IH2 ltac:(intros [Hnd [Hnin Hall]%Hf1]; apply Hno; split_and!; auto)).
      unfold after. revert Hnone. destruct (read_threads _ _ _ _) as [r f']. cbn [fst]. by intros ->.
Qed.

Lemma read_context_at x q f f' flags r location :
  context_laid_out contents swap (rva location) flags r -> data_size location = context_size r -> dump_valid_ f = true -> dump_valid_ f' = true ->
  CheckAgainstSystemInfo (Z.land flags MD_CONTEXT_CPU_MASK) (at_position contents swap (rva location + context_size r) f) = (Some true, at_position contents swap q f') ->
  exists d, read_context location (at_position contents swap x f) = (Some d, at_position contents swap q f') /\
    context_present d /\ GetContextFlags d = flags /\ same_registers r (raw_context_ d).
Proof.
  intros Hl Hd Hv Hv' Hc. destruct (Context_Read_holds contents swap _ q f f' flags r Hl Hv Hv' Hc) as (r' & E & Hm & Hr). eexists. unfold read_context.
  rewrite (after_some _ _ _ _ _ (seek_set_at contents swap x _ f)), Hd. split; [exact E|]. split; [by split|done].
Qed.
End reading.


Definition demo_thread (id : Z) : MDRawThread := mkRawThread id 0 0 0 0 (mkMemDesc 0x7fff0000 (mkLoc 16 200)) (mkLoc sizeof_arm 300).

Definition demo_thread_dump : list Z := (order true 4 2 ++ []) ++ concat (thread_bytes true <$> [demo_thread 7; demo_thread 9]).

#[local] Instance thread_system_object : StreamObject MinidumpSystemInfo MinidumpSystemInfo := {| to_object t := t; of_object := Some; of_to_object t := eq_refl |}.

Definition demo_thread_file : DumpFile MinidumpSystemInfo := with_valid true (with_swap true (Minidump_of_stream (mkStream demo_thread_dump 0 true))).

Lemma demo_threads_fit : Forall thread_fits [demo_thread 7; demo_thread 9].
Proof. repeat constructor; unfold fits; cbn; unfold sizeof_arm; lia. Qed.

