(* ===== verification/MinidumpMemory.v ===== *)
(** processor/minidump.cc: [MinidumpMemoryList], the memory of a minidump by its addresses, and
    [MinidumpMemoryInfoList], what is known of the regions of the address space. *)
From stdpp Require Import list.
From S2P Require Import Prelude StdMap Memory RangeMap MemoryRegion MinidumpFile MinidumpSystem MinidumpModules MinidumpContext MinidumpThreads.

(** ** The memory *)

Record MinidumpMemoryList := mkMemoryList {
  memory_range_map_ : RangeMap Z;
  regions_ : list MinidumpMemoryRegion
}.

Definition max_regions_ := 4096.

(** Ranges that are stored under their positions; the first that is not ends the loop. *)
Fixpoint store_ranges (index : Z) (ranges : list (Z * Z)) (map : RangeMap Z) : option (RangeMap Z) :=
  match ranges with
  | [] => Some map
  | (base, size) :: ranges =>
      if (size =? 0) || (2 ^ 64 - 1 - base <? size) then None
      else let '(stored, map) := StoreRange 64 map base size index in if stored then store_ranges (index + 1) ranges map else None
  end.

Definition descriptor_range (d : MDMemoryDescriptor) : Z * Z := (start_of_memory_range d, data_size (memory d)).

Section memory.
Context {O : Type}.

Definition MemoryList_Read (expected_size : Z) : reading O MinidumpMemoryList :=
  let! region_count := read_count 16 expected_size in
  requires (region_count <=? max_regions_) ;;;
  let! raw := (if region_count =? 0 then done_with [] else read_bytes (16 * region_count)) in
  let! swap := asking get_swap in
  let descriptors := (λ i, memory_descriptor_read swap raw (16 * Z.of_nat i)) <$> seq 0 (Z.to_nat region_count) in
  match store_ranges 0 (descriptor_range <$> descriptors) RangeMap_new with
  | Some map => done_with (mkMemoryList map ((λ d, SetDescriptor MinidumpMemoryRegion_new (Some d)) <$> descriptors))
  | None => failed
  end.

Definition GetMemoryList `{StreamObject MinidumpMemoryList O} : reading O MinidumpMemoryList :=
  GetStream MD_MEMORY_LIST_STREAM to_object of_object MemoryList_Read.
End memory.

Definition GetMemoryRegionAtIndex (l : MinidumpMemoryList) (index : Z) : option MinidumpMemoryRegion :=
  if Z.of_nat (length (regions_ l)) <=? index then None else regions_ l !! Z.to_nat index.

Definition GetMemoryRegionForAddress (l : MinidumpMemoryList) (address : Z) : option MinidumpMemoryRegion :=
  x ← RetrieveRange 64 (memory_range_map_ l) address; GetMemoryRegionAtIndex l (ret_entry x).

(** ** What is known of the memory *)

Record MDRawMemoryInfo := mkRawMemoryInfo {
  info_base_address : Z;
  allocation_base : Z;
  allocation_protection : Z;
  region_size : Z;
  info_state : Z;
  protection : Z;
  info_type : Z
}.

Definition MDRawMemoryInfo_read (swap : bool) (raw : list Z) : MDRawMemoryInfo :=
  mkRawMemoryInfo (member swap raw 0 8) (member swap raw 8 8) (member swap raw 16 4) (member swap raw 24 8) (member swap raw 32 4) (member swap raw 36 4)
    (member swap raw 40 4).

Definition MD_MEMORY_PROTECT_READWRITE := 0x04.
Definition MD_MEMORY_PROTECT_WRITECOPY := 0x08.
Definition MD_MEMORY_PROTECT_EXECUTE := 0x10.
Definition MD_MEMORY_PROTECT_EXECUTE_READ := 0x20.
Definition MD_MEMORY_PROTECT_EXECUTE_READWRITE := 0x40.
Definition MD_MEMORY_PROTECT_EXECUTE_WRITECOPY := 0x80.
Definition MD_MEMORY_PROTECTION_ACCESS_MASK := 0xff.

Definition IsExecutable (info : MDRawMemoryInfo) : bool :=
  let protection := Z.land (protection info) MD_MEMORY_PROTECTION_ACCESS_MASK in
  (protection =? MD_MEMORY_PROTECT_EXECUTE) || (protection =? MD_MEMORY_PROTECT_EXECUTE_READ) || (protection =? MD_MEMORY_PROTECT_EXECUTE_READWRITE).

Definition IsWritable (info : MDRawMemoryInfo) : bool :=
  let protection := Z.land (protection info) MD_MEMORY_PROTECTION_ACCESS_MASK in
  (protection =? MD_MEMORY_PROTECT_READWRITE) || (protection =? MD_MEMORY_PROTECT_WRITECOPY) || (protection =? MD_MEMORY_PROTECT_EXECUTE_READWRITE) ||
  (protection =? MD_MEMORY_PROTECT_EXECUTE_WRITECOPY).

Record MinidumpMemoryInfoList := mkMemoryInfoList {
  info_range_map_ : RangeMap Z;
  infos_ : list MDRawMemoryInfo
}.

Section info.
Context {O : Type}.

Definition MemoryInfo_Read : reading O MDRawMemoryInfo :=
  let! raw := read_bytes 48 in
  let! swap := asking get_swap in
  let info := MDRawMemoryInfo_read swap raw in
  requires (negb ((region_size info =? 0) || (2 ^ 64 - 1 - info_base_address info <? region_size info))) ;;;
  done_with info.

Fixpoint read_infos (n : nat) (index : Z) (map : RangeMap Z) : reading O (list MDRawMemoryInfo * RangeMap Z) :=
  match n with
  | 0%nat => done_with ([], map)
  | S n =>
      let! info := MemoryInfo_Read in
      let '(stored, map) := StoreRange 64 map (info_base_address info) (region_size info) index in
      requires stored ;;;
      let! (infos, map) := read_infos n (index + 1) map in
      done_with (info :: infos, map)
  end.

Definition MemoryInfoList_Read (expected_size : Z) : reading O MinidumpMemoryInfoList :=
  requires (16 <=? expected_size) ;;;
  let! raw := read_bytes 16 in
  let! swap := asking get_swap in
  let number_of_entries := member swap raw 8 8 in
  requires (member swap raw 0 4 =? 16) ;;;
  requires (member swap raw 4 4 =? 48) ;;;
  requires (number_of_entries <=? (2 ^ 32 - 1) / 48) ;;;
  requires (expected_size =? 16 + number_of_entries * 48) ;;;
  requires (u32 number_of_entries =? number_of_entries) ;;;
  let! (infos, map) := read_infos (Z.to_nat number_of_entries) 0 RangeMap_new in
  done_with (mkMemoryInfoList map infos).

Definition GetMemoryInfoList `{StreamObject MinidumpMemoryInfoList O} : reading O MinidumpMemoryInfoList :=
  GetStream MD_MEMORY_INFO_LIST_STREAM to_object of_object MemoryInfoList_Read.
End info.

Definition GetMemoryInfoAtIndex (l : MinidumpMemoryInfoList) (index : Z) : option MDRawMemoryInfo :=
  if Z.of_nat (length (infos_ l)) <=? index then None else infos_ l !! Z.to_nat index.

Definition GetMemoryInfoForAddress (l : MinidumpMemoryInfoList) (address : Z) : option MDRawMemoryInfo :=
  x ← RetrieveRange 64 (info_range_map_ l) address; GetMemoryInfoAtIndex l (ret_entry x).

(** ** Ranges that are all stored *)

Definition range_high (r : Z * Z) : Z := r.1 + r.2 - 1.
Definition range_ok (r : Z * Z) : Prop := 0 <= r.1 /\ 0 < r.2 /\ r.1 + r.2 < 2 ^ 64.
#[export] Instance range_ok_dec r : Decision (range_ok r).
Proof. unfold range_ok. apply _. Defined.

Definition range_fits (r : Z * Z) : Prop := fits 64 r.1 /\ fits 64 r.2.
Definition range_apart (r r' : Z * Z) : Prop := range_high r < r'.1 \/ range_high r' < r.1.

(** Ranges that are not empty, end in the address space and do not meet. *)
Fixpoint ranges_separate (ranges : list (Z * Z)) : Prop :=
  match ranges with [] => True | r :: ranges => range_ok r /\ Forall (range_apart r) ranges /\ ranges_separate ranges end.

Definition range_free (map : RangeMap Z) (r : Z * Z) : Prop := free map r.1 (range_high r).
#[export] Instance range_free_dec map r : Decision (range_free map r).
Proof. unfold range_free. apply _. Defined.

Lemma store_range_ok map index r :
  rm_ok 64 map -> enable_shrink_down map = false -> range_fits r -> range_ok r ->
  StoreRange 64 map r.1 r.2 index =
  if decide (range_free map r) then (true, mkRangeMap false (StdMap.insert (rmap map) (range_high r) (mkRange r.1 0 index))) else (false, map).
Proof.
  intros Hok Hsd [Hb Hs] Hr. unfold range_ok in Hr. rewrite StoreRange_plain by done. unfold range_free, range_high. change (2 ^ 64) with 18446744073709551616 in *.
  destruct (decide (free map r.1 _)); [rewrite decide_True by (split_and!; [lia|lia|done]); done|rewrite decide_False by tauto; done].
Qed.

Lemma store_ranges_cons index r ranges map :
  rm_ok 64 map -> enable_shrink_down map = false -> range_fits r ->
  let map1 := mkRangeMap false (StdMap.insert (rmap map) (range_high r) (mkRange r.1 0 index)) in
  (range_ok r /\ range_free map r ->
   store_ranges index (r :: ranges) map = store_ranges (index + 1) ranges map1 /\ rm_ok 64 map1 /\
   forall h v, (h, v) ∈ rmap map1 <-> (h, v) = (range_high r, mkRange r.1 0 index) \/ (h, v) ∈ rmap map) /\
  (~ (range_ok r /\ range_free map r) -> store_ranges index (r :: ranges) map = None).
Proof.
  intros Hok Hsd Hfit map1. assert (Hcheck: ((r.2 =? 0) || (2 ^ 64 - 1 - r.1 <? r.2)) = false <-> range_ok r).
  { unfold range_ok, range_fits, fits in *. rewrite orb_false_iff, Z.eqb_neq, Z.ltb_ge. lia. }
  cbn [store_ranges]. destruct r as [base size]. cbn [fst snd] in *. split.
  - intros [Hr Hf]. rewrite (proj2 Hcheck Hr). pose proof (store_range_ok map index (base, size) Hok Hsd Hfit Hr) as Es. cbn [fst snd] in Es.
    rewrite Es, decide_True by done. assert (Hr': range_ok (base, size)) by done. unfold range_ok in Hr'. cbn in Hr'.
    assert (Hnk: forall v, (range_high (base, size), v) ∉ rmap map).
    { intros v Hin. pose proof (ok_range 64 _ Hok _ _ Hin). destruct (Hf _ _ Hin); unfold range_high in *; cbn in *; lia. }
    split; [done|]. split.
    + apply rm_ok_insert; unfold range_high; cbn [rbase rdelta fst snd]; change (2 ^ 64) with 18446744073709551616 in *; [lia|done|lia..|exact Hf].
    + intros h v. cbn [rmap map1]. apply elem_of_insert; [by apply (ok_sorted 64)|done].
  - intros Hno. destruct (_ || _) eqn:E; [done|]. pose proof (proj1 Hcheck eq_refl) as Hr.
    pose proof (store_range_ok map index (base, size) Hok Hsd Hfit Hr) as Es. cbn [fst snd] in Es. rewrite Es, decide_False; [done|]. tauto.
Qed.

Definition ranges_placed (map' map : RangeMap Z) (index : Z) (ranges : list (Z * Z)) : Prop :=
  rm_ok 64 map' /\ enable_shrink_down map' = false /\
  forall h v, (h, v) ∈ rmap map' <-> (h, v) ∈ rmap map \/ exists i r, ranges !! i = Some r /\ (h, v) = (range_high r, mkRange r.1 0 (index + Z.of_nat i)).

Lemma store_ranges_spec ranges : forall index map,
  rm_ok 64 map -> enable_shrink_down map = false -> Forall range_fits ranges ->
  (ranges_separate ranges /\ Forall (range_free map) ranges -> exists map', store_ranges index ranges map = Some map' /\ ranges_placed map' map index ranges) /\
  (~ (ranges_separate ranges /\ Forall (range_free map) ranges) -> store_ranges index ranges map = None).
Proof.
  induction ranges as [|r ranges IH]; intros index map Hok Hsd Hfits.
  { split; [|intros []; by split]. intros _. exists map. split; [done|]. split_and!; [done..|]. intros h v. split; [by left|]. by intros [?|(i & r & Hi & _)]. }
  apply Forall_cons in Hfits as [Hfit Hfits]. destruct (store_ranges_cons index r ranges map Hok Hsd Hfit) as [H1 H2].
  set (map1 := mkRangeMap false (StdMap.insert (rmap map) (range_high r) (mkRange r.1 0 index))) in *.
  assert (Hfree1: range_ok r /\ range_free map r -> Forall (range_free map1) ranges <-> Forall (range_apart r) ranges /\ Forall (range_free map) ranges).
  { intros Hr. destruct (H1 Hr) as (_ & _ & Hel). rewrite <- Forall_and, !Forall_forall. split; intros Hall x Hx; specialize (Hall x Hx).
    - split; [|intros h v Hin; apply Hall, Hel; by right]. specialize (Hall _ _ (proj2 (Hel _ _) (or_introl eq_refl))). cbn in Hall. unfold range_apart. tauto.
    - intros h v [[= -> ->]|Hin]%Hel; [|by apply Hall]. destruct Hall as [Ha _]. cbn. unfold range_apart in Ha. tauto. }
  destruct (decide (range_ok r /\ range_free map r)) as [Hr|Hr].
  - destruct (H1 Hr) as (Es & Hok1 & Hel). rewrite Es. destruct (IH (index + 1) map1 Hok1 eq_refl Hfits) as [IH1 IH2]. cbn [ranges_separate]. rewrite Forall_cons. split.
    + intros [(_ & Hap & Hsep) [_ Hfr]]. destruct IH1 as (map' & E & Hok' & Hsd' & Hin); [split; [done|by apply Hfree1; auto]|].
      exists map'. split; [done|]. split_and!; [done..|]. intros h v. rewrite Hin, Hel. split.
      * intros [[Heq|?]|(i & r' & Hi & Heq)]; [right; exists 0%nat, r|by left|right; exists (S i), r']; (split; [done|]).
        -- replace (index + Z.of_nat 0) with index by lia. done.
        -- replace (index + Z.of_nat (S i)) with (index + 1 + Z.of_nat i) by lia. done.
      * intros [?|([|i] & r' & Hi & Heq)]; [left; by right|left; left|right; exists i, r'; split; [done|]].
        -- injection Hi as <-. replace (index + Z.of_nat 0) with index in Heq by lia. done.
        -- replace (index + Z.of_nat (S i)) with (index + 1 + Z.of_nat i) in Heq by lia. done.
    + intros Hno. apply IH2. intros [Hsep Hfr]. apply Hno. apply Hfree1 in Hfr as [Hap Hfr]; auto. destruct Hr. by split_and!.
  - split; [intros [(? & _) [? _]%Forall_cons]; by destruct Hr|]. intros _. by apply H2.
Qed.

(** What is found at an address: the ranges that hold it. *)
Lemma ranges_placed_lookup map' ranges a k :
  ranges_placed map' RangeMap_new 0 ranges ->
  (exists x, RetrieveRange 64 map' a = Some x /\ ret_entry x = k) <-> exists i r, ranges !! i = Some r /\ k = Z.of_nat i /\ r.1 <= a <= range_high r.
Proof.
  intros (Hok & _ & Hin). split.
  - intros (x & Hx & <-). apply RetrieveRange_Some in Hx as (h & v & Hi & Hc & ->); [|done]. apply Hin in Hi as [Hi%not_elem_of_nil|(i & r & Hi & Heq)]; [done|].
    injection Heq as -> ->. exists i, r. split_and!; [done|cbn; lia|exact (proj1 Hc)|exact (proj2 Hc)].
  - intros (i & r & Hi & -> & Ha). exists (copy_out 64 (range_high r, mkRange r.1 0 (Z.of_nat i))). split; [|done].
    apply RetrieveRange_Some; [done|]. exists (range_high r), (mkRange r.1 0 (Z.of_nat i)). split_and!; [apply Hin; right; by exists i, r|exact Ha|done].
Qed.

(** Memory that is read through a region is what is laid out for it. *)
Lemma read_region contents swap x d n a v :
  Forall byte_ok contents -> memory_descriptor_fits d -> range_ok (descriptor_range d) ->
  data_size (memory d) <= max_bytes_ -> rva (memory d) + data_size (memory d) <= Z.of_nat (length contents) ->
  sizes_ok n -> start_of_memory_range d <= a -> a + Z.of_nat n <= start_of_memory_range d + data_size (memory d) ->
  fits (8 * Z.of_nat n) v -> holds contents (rva (memory d) + (a - start_of_memory_range d)) (order swap n v) ->
  (GetMemoryAtAddressInternal n (SetDescriptor MinidumpMemoryRegion_new (Some d)) (mkMinidump (Some (mkStream contents x true)) swap) a).1.1 = Ok v.
Proof.
  intros Hok [Hfs [Hfd Hfr]] (Hb & Hs & He) Hmax Hlen Hn Ha1 Ha2 Hv Hh. cbn [descriptor_range fst snd] in *.
  set (region := SetDescriptor _ _). set (m := mkMinidump _ _).
  assert (Hreg: region_ok region m) by (apply region_ok_SetDescriptor; [done..|]; intros s [= <-]; exact Hok).
  assert (Hvalid: MemoryRegion.valid_ region = true).
  { unfold region, SetDescriptor. cbn. apply Z.leb_le. unfold fits in *. change (2 ^ 64) with 18446744073709551616 in *. rewrite wrap_small by (unfold fits; change (2 ^ 64) with 18446744073709551616; lia). lia. }
  rewrite (GetMemoryAtAddressInternal_eq n region m a d Hreg) by (first [done|unfold fits in *; change (2 ^ 64) with 18446744073709551616 in *; change (2 ^ 32) with 4294967296 in *; lia]).
  rewrite (proj2 (Z.ltb_ge a _)), (proj2 (Z.ltb_ge _ (a + _))) by lia. cbn [orb].
  unfold GetMemory. rewrite Hvalid. cbn [region SetDescriptor descriptor_ memory_ MinidumpMemoryRegion_new]. rewrite (proj2 (Z.eqb_neq _ 0)) by lia.
  unfold m at 1, SeekSet. cbn [stream_ sgood negb swap_ sbytes]. rewrite (proj2 (Z.ltb_ge max_bytes_ _)) by done. unfold ReadBytes. cbn [stream_ sgood sbytes spos swap_ andb].
  assert (Hl: Z.of_nat (length (slice contents (rva (memory d)) (Z.to_nat (data_size (memory d))))) = data_size (memory d)) by (unfold fits in *; rewrite length_slice by lia; lia).
  rewrite Hl, Z.eqb_refl. cbn [negb fst snd]. f_equal. cbn [m swap_]. unfold ordered_val.
  assert (Hslice: slice (slice contents (rva (memory d)) (Z.to_nat (data_size (memory d)))) (a - start_of_memory_range d) n = order swap n v).
  { unfold fits in *. destruct (holds_slice contents (rva (memory d)) (Z.to_nat (data_size (memory d))) (a - start_of_memory_range d) (order swap n v)) as [_ E];
      [lia|lia|rewrite length_order; lia|done|]. by rewrite length_order in E. }
  rewrite Hslice. destruct swap; cbn [order]; rewrite ?rev_involutive; by apply le_val_fits.
Qed.

Definition listed_region (d : MDMemoryDescriptor) : MinidumpMemoryRegion := SetDescriptor MinidumpMemoryRegion_new (Some d).

(** Reading the list is storing its ranges. *)
Lemma MemoryList_Read_at {O} contents swap p (f : DumpFile O) ds padding :
  dump_valid_ f = true -> Forall memory_descriptor_fits ds -> Z.of_nat (length ds) <= max_regions_ -> padding = [] \/ length padding = 4%nat ->
  holds contents p ((order swap 4 (Z.of_nat (length ds)) ++ padding) ++ concat (memory_descriptor_bytes swap <$> ds)) ->
  let size := 4 + Z.of_nat (length padding) + Z.of_nat (length ds) * 16 in
  MemoryList_Read size (at_position contents swap p f) =
  ((λ map, mkMemoryList map (listed_region <$> ds)) <$> store_ranges 0 (descriptor_range <$> ds) RangeMap_new, at_position contents swap (p + size) f).
Proof.
  intros Hv Hds Hmax Hpad Hb size. apply holds_app in Hb as [Hb1 Hb2]. rewrite length_app, length_order in Hb2. unfold max_regions_ in Hmax.
  assert (Hn: fits 32 (Z.of_nat (length ds))) by (unfold fits; change (2 ^ 32) with 4294967296; lia).
  assert (Hdiv: Z.of_nat (length ds) <= (2 ^ 32 - 1) / 16) by (change ((2 ^ 32 - 1) / 16) with 268435455; lia).
  pose proof (read_count_at contents swap 16 _ padding p f Hv Hn ltac:(done) Hdiv Hpad Hb1) as Ec. fold size in Ec.
  replace (p + Z.of_nat (4 + length padding)) with (p + 4 + Z.of_nat (length padding)) in Hb2 by lia.
  unfold MemoryList_Read. rewrite (after_some _ _ _ _ _ Ec), (after_some _ _ _ _ _ (requires_true (_ <=? max_regions_) _ (proj2 (Z.leb_le _ _) Hmax))).
  set (bytes := concat _) in Hb2. assert (Hlen: Z.of_nat (length bytes) = 16 * Z.of_nat (length ds)).
  { unfold bytes. rewrite (length_concat_const 16 _ _ (length_memory_descriptor_bytes swap)). lia. }
  assert (Hraw: (if Z.of_nat (length ds) =? 0 then done_with [] else read_bytes (16 * Z.of_nat (length ds))) (at_position contents swap (p + 4 + Z.of_nat (length padding)) f) =
    (Some bytes, at_position contents swap (p + size) f)).
  { destruct (Z.of_nat (length ds) =? 0) eqn:E0; breflect.
    - assert (ds = []) as Ed by (by apply nil_length_inv; lia). unfold bytes, size. rewrite Ed. cbn [length fmap list_fmap concat]. unfold done_with. do 2 f_equal. lia.
    - pose proof (read_bytes_at contents swap _ bytes f Hb2) as Hr. rewrite Hlen in Hr. rewrite Hr. do 2 f_equal. unfold size. lia. }
  rewrite (after_some _ _ _ _ _ Hraw). unfold after, asking. rewrite get_swap_at by done. rewrite Nat2Z.id. cbv zeta.
  assert (Ha: ((λ i, memory_descriptor_read swap bytes (16 * Z.of_nat i)) <$> seq 0 (length ds)) = ds).
  { exact (read_array 16 (memory_descriptor_bytes swap) (memory_descriptor_read swap) memory_descriptor_fits ds bytes 0 (length_memory_descriptor_bytes swap)
      (λ raw p d Hd Hh, memory_descriptor_read_bytes swap raw p d Hh Hd) Hds (holds_self bytes)). }
  rewrite Ha. by destruct (store_ranges _ _ _).
Qed.

Lemma separate_ok ranges : ranges_separate ranges -> Forall range_ok ranges.
Proof. induction ranges as [|r ranges IH]; cbn; [done|]. intros (? & _ & ?). constructor; auto. Qed.

(** C30: the list of memory laid out in a dump, with or without the padding after its count, is read
    just when its ranges are not empty, end in the address space and do not overlap; the
    region for an address is then the one whose range holds it, and a number of memory that is
    laid out in the byte order of the dump is what is read at its address. *)
Theorem memory_list_read {O} (contents : list Z) (swap : bool) p (f : DumpFile O) (ds : list MDMemoryDescriptor) (padding : list Z) :
  dump_valid_ f = true -> Forall memory_descriptor_fits ds -> Z.of_nat (length ds) <= max_regions_ -> padding = [] \/ length padding = 4%nat ->
  holds contents p ((order swap 4 (Z.of_nat (length ds)) ++ padding) ++ concat (memory_descriptor_bytes swap <$> ds)) ->
  let size := 4 + Z.of_nat (length padding) + Z.of_nat (length ds) * 16 in
  (~ ranges_separate (descriptor_range <$> ds) -> (MemoryList_Read size (at_position contents swap p f)).1 = None) /\
  (ranges_separate (descriptor_range <$> ds) -> exists l,
    MemoryList_Read size (at_position contents swap p f) = (Some l, at_position contents swap (p + size) f) /\
    (forall i, GetMemoryRegionAtIndex l (Z.of_nat i) = listed_region <$> ds !! i) /\
    (forall a region, GetMemoryRegionForAddress l a = Some region <->
      exists d, d ∈ ds /\ start_of_memory_range d <= a < start_of_memory_range d + data_size (memory d) /\ region = listed_region d) /\
    forall d n a v x, d ∈ ds -> Forall byte_ok contents -> data_size (memory d) <= max_bytes_ ->
      rva (memory d) + data_size (memory d) <= Z.of_nat (length contents) -> sizes_ok n -> start_of_memory_range d <= a ->
      a + Z.of_nat n <= start_of_memory_range d + data_size (memory d) -> fits (8 * Z.of_nat n) v ->
      holds contents (rva (memory d) + (a - start_of_memory_range d)) (order swap n v) ->
      (GetMemoryAtAddressInternal n (listed_region d) (mkMinidump (Some (mkStream contents x true)) swap) a).1.1 = Ok v).
Proof.
  intros Hv Hds Hmax Hpad Hb size. pose proof (MemoryList_Read_at contents swap p f ds padding Hv Hds Hmax Hpad Hb) as E. cbv zeta in E. fold size in E. rewrite E. clear E.
  assert (Hfits: Forall range_fits (descriptor_range <$> ds)).
  { apply Forall_fmap. eapply Forall_impl; [exact Hds|]. intros d [Hs [Hd _]]. split; [done|]. cbn. unfold fits in *. change (2 ^ 32) with 4294967296 in Hd. change (2 ^ 64) with 18446744073709551616. lia. }
  destruct (store_ranges_spec (descriptor_range <$> ds) 0 RangeMap_new (rm_ok_new 64) eq_refl Hfits) as [H1 H2].
  assert (Hfree: Forall (range_free RangeMap_new) (descriptor_range <$> ds)) by (apply Forall_true; intros r h v Hin%not_elem_of_nil; done).
  split; [intros Hno; by rewrite H2 by tauto|]. intros Hsep. destruct (H1 (conj Hsep Hfree)) as (map & -> & Hp). eexists. split; [done|].
  assert (Hidx: forall i, GetMemoryRegionAtIndex (mkMemoryList map (listed_region <$> ds)) (Z.of_nat i) = listed_region <$> ds !! i).
  { intros i. unfold GetMemoryRegionAtIndex. cbn [regions_]. rewrite length_fmap, Nat2Z.id, list_lookup_fmap. destruct (_ <=? _) eqn:E; [|done]. breflect.
    by rewrite lookup_ge_None_2 by lia. }
  split; [exact Hidx|]. split.
  - intros a region. unfold GetMemoryRegionForAddress. cbn [memory_range_map_]. split.
    + destruct (RetrieveRange 64 map a) as [x|] eqn:Ex; cbn [mbind option_bind]; [|done].
      destruct (proj1 (ranges_placed_lookup map _ a (ret_entry x) Hp) ltac:(by exists x)) as (i & r & Hi & -> & Hr). rewrite Hidx.
      rewrite list_lookup_fmap in Hi. destruct (ds !! i) as [d|] eqn:Ed; [|done]. injection Hi as <-. intros [= <-]. exists d.
      unfold range_high, descriptor_range in Hr. cbn in Hr. split; [by eapply list_elem_of_lookup_2|]. split; [lia|done].
    + intros (d & Hd & Hr & ->). apply list_elem_of_lookup in Hd as [i Hi].
      destruct (proj2 (ranges_placed_lookup map _ a (Z.of_nat i) Hp)) as (x & -> & Hx).
      { exists i, (descriptor_range d). rewrite list_lookup_fmap, Hi. unfold range_high, descriptor_range. cbn. split_and!; [done|done|lia|lia]. }
      cbn [mbind option_bind]. by rewrite Hx, Hidx, Hi.
  - intros d n a v x Hd Hok Hmx Hl Hsz Ha1 Ha2 Hfv Hh. apply read_region; try done.
    + by apply (proj1 (Forall_forall _ _) Hds).
    + pose proof (separate_ok _ Hsep) as Hall. rewrite Forall_fmap in Hall. by apply (proj1 (Forall_forall _ _) Hall).
Qed.

(** The regions that are known of are read in the same way, one by one. *)
Definition memory_info_bytes (swap : bool) (i : MDRawMemoryInfo) : list Z :=
  order swap 8 (info_base_address i) ++ order swap 8 (allocation_base i) ++ order swap 4 (allocation_protection i) ++ replicate 4 0 ++ order swap 8 (region_size i) ++
  order swap 4 (info_state i) ++ order swap 4 (protection i) ++ order swap 4 (info_type i) ++ replicate 4 0.

Definition memory_info_fits (i : MDRawMemoryInfo) : Prop :=
  fits 64 (info_base_address i) /\ fits 64 (allocation_base i) /\ fits 32 (allocation_protection i) /\ fits 64 (region_size i) /\ fits 32 (info_state i) /\
  fits 32 (protection i) /\ fits 32 (info_type i).

Definition info_range (i : MDRawMemoryInfo) : Z * Z := (info_base_address i, region_size i).

Lemma length_memory_info_bytes swap i : length (memory_info_bytes swap i) = 48%nat.
Proof. unfold memory_info_bytes. by rewrite !length_app, !length_order. Qed.

Lemma memory_info_read_bytes swap raw i : holds raw 0 (memory_info_bytes swap i) -> memory_info_fits i -> MDRawMemoryInfo_read swap raw = i.
Proof.
  intros H (H1 & H2 & H3 & H4 & H5 & H6 & H7). unfold memory_info_bytes in H. rewrite !holds_app, !length_order in H.
  destruct H as (? & ? & ? & _ & ? & ? & ? & ? & _). unfold MDRawMemoryInfo_read. destruct i. cbn in *. f_equal; (apply member_read; [unfold sizes_ok; by auto|done|done]).
Qed.

Lemma read_infos_at {O} contents swap infos : forall index map p (f : DumpFile O),
  dump_valid_ f = true -> Forall memory_info_fits infos -> holds contents p (concat (memory_info_bytes swap <$> infos)) ->
  match store_ranges index (info_range <$> infos) map with
  | Some map' => read_infos (length infos) index map (at_position contents swap p f) = (Some (infos, map'), at_position contents swap (p + 48 * Z.of_nat (length infos)) f)
  | None => (read_infos (length infos) index map (at_position contents swap p f)).1 = None
  end.
Proof.
  induction infos as [|i infos IH]; intros index map p f Hv Hfits Hb.
  { cbn. unfold done_with. do 2 f_equal. lia. }
  apply Forall_cons in Hfits as [Hfit Hfits]. cbn [fmap list_fmap concat] in Hb. apply holds_app in Hb as [Hb1 Hb2]. rewrite length_memory_info_bytes in Hb2. change (Z.of_nat 48) with 48 in Hb2.
  pose proof (read_bytes_at contents swap p _ f Hb1) as Hr. rewrite length_memory_info_bytes in Hr. change (Z.of_nat 48) with 48 in Hr.
  assert (Hm: MemoryInfo_Read (at_position contents swap p f) =
    (if (region_size i =? 0) || (2 ^ 64 - 1 - info_base_address i <? region_size i) then None else Some i, at_position contents swap (p + 48) f)).
  { unfold MemoryInfo_Read. rewrite (after_some _ _ _ _ _ Hr). unfold after at 1, asking. rewrite get_swap_at by done. cbv zeta.
    rewrite (memory_info_read_bytes swap _ i (holds_self _) Hfit). by destruct (_ || _). }
  cbn [length read_infos fmap list_fmap store_ranges info_range]. fold info_range. destruct (_ || _); [by rewrite (after_none _ _ _ _ Hm)|].
  rewrite (after_some _ _ _ _ _ Hm). destruct (StoreRange 64 map _ _ index) as [stored map1]. destruct stored; [|done].
  rewrite (after_some _ _ _ _ _ (requires_true true _ eq_refl)). specialize (IH (index + 1) map1 (p + 48) f Hv Hfits Hb2). destruct (store_ranges _ _ _) as [map'|].
  - rewrite (after_some _ _ _ _ _ IH). unfold done_with. do 2 f_equal. lia.
  - unfold after. revert IH. destruct (read_infos _ _ _ _) as [r f']. cbn [fst]. by intros ->.
Qed.

Definition demo_descriptors : list MDMemoryDescriptor := [mkMemDesc 0x7000 (mkLoc 8 36); mkMemDesc 0x1000 (mkLoc 4 44)].

Definition demo_memory_dump : list Z :=
  ((order true 4 2 ++ []) ++ concat (memory_descriptor_bytes true <$> demo_descriptors)) ++ order true 8 0x1122334455667788 ++ order true 4 0xfee1dead.

Definition demo_memory_file : DumpFile () := with_valid true (with_swap true (Minidump_of_stream (mkStream demo_memory_dump 0 true))).

Lemma demo_descriptors_fit : Forall memory_descriptor_fits demo_descriptors.
Proof. repeat constructor; unfold fits; cbn; lia. Qed.

Lemma memory_list_read_witness :
  exists l region, (MemoryList_Read 36 demo_memory_file).1 = Some l /\ GetMemoryRegionForAddress l 0x7004 = Some region /\
    (GetMemoryAtAddressInternal 4 region (mkMinidump (Some (mkStream demo_memory_dump 0 true)) true) 0x7004).1.1 = Ok 0x55667788.
Proof.
  destruct (memory_list_read demo_memory_dump true 0 demo_memory_file demo_descriptors [] eq_refl demo_descriptors_fit ltac:(vm_compute; discriminate)
    (or_introl eq_refl) ltac:(split; [done|vm_compute; reflexivity])) as [_ H].
  destruct H as (l & E & _ & Ha & Hr); [cbn; unfold range_ok, range_apart, range_high; cbn; repeat constructor; lia|].
  exists l, (listed_region (mkMemDesc 0x7000 (mkLoc 8 36))). split; [exact (f_equal fst E)|]. split.
  - apply Ha. exists (mkMemDesc 0x7000 (mkLoc 8 36)). split; [apply list_elem_of_here|]. split; [cbn; lia|reflexivity].
  - apply (Hr (mkMemDesc 0x7000 (mkLoc 8 36)) 4%nat 0x7004 0x55667788 0); [apply list_elem_of_here| |vm_compute; discriminate|vm_compute; discriminate|unfold sizes_ok; auto|cbn; lia|cbn; lia|
      unfold fits; cbn; lia|split; [cbn; lia|reflexivity]].
    by apply bytes_ok_of.
Defined.
