(* ===== verification/ProcMaps.v ===== *)
(** processor/proc_maps_linux.cc: the mappings of a process, parsed from the text of /proc/<pid>/maps,
    and [MinidumpLinuxMapsList] of processor/minidump.cc, which has them in a minidump. *)
From Stdlib Require Import Ascii.
From stdpp Require Import list.
From S2P Require Import Prelude StdMap CStr Memory MemoryRegion MinidumpFile MinidumpModules.

(** ** Data *)

Record MappedMemoryRegion := mkMapped {
  start : Z;
  end_ : Z;
  offset : Z;
  permissions : Z;
  major_device : Z;
  minor_device : Z;
  inode : Z;
  path : cstring;
  line : cstring
}.

Definition READ := 1.
Definition WRITE := 2.
Definition EXECUTE := 4.
Definition PRIVATE := 8.

(** ** Parsing *)

(** The lines, which all end in a line feed or a carriage return; empty ones are left out.
    [l] is what has been read of a line. *)
Fixpoint split_lines (l input : cstring) : option (list cstring) :=
  match input with
  | [] => match l with [] => Some [] | _ => None end
  | c :: input =>
      if negb ((code c =? 10) || (code c =? 13)) then split_lines (l ++ [c]) input
      else match l with [] => split_lines [] input | _ => lines ← split_lines [] input; Some (l :: lines) end
  end.

(** The directives of [sscanf]: a number of [w] bits, a character of the format, white space. *)
Definition scan_number (w base : Z) (s : cstring) : option (Z * cstring) :=
  match strto s base with Some (_, _, rest) => Some (wrap w (strtoull s base).1, rest) | None => None end.
Definition scan_signed (s : cstring) : option (Z * cstring) :=
  match strto s 10 with Some (_, _, rest) => Some (wrap 64 (strtol s 10).1, rest) | None => None end.
Definition scan_char (c : ascii) (s : cstring) : option cstring := match s with c' :: s => if Ascii.eqb c c' then Some s else None | [] => None end.
Definition scan_space (s : cstring) : cstring := (span isspace s).2.

(** A flag, its other characters and its bit. *)
Definition permission (c set : ascii) (clear : list ascii) (bit : Z) : option Z :=
  if Ascii.eqb c set then Some bit else if existsb (Ascii.eqb c) clear then Some 0 else None.

Definition parse_permissions (p : cstring) : option Z :=
  match p with
  | [r; w; x; s] =>
      read ← permission r (chr 114) [chr 45] READ;
      write ← permission w (chr 119) [chr 45] WRITE;
      execute ← permission x (chr 120) [chr 45] EXECUTE;
      private ← permission s (chr 112) [chr 115; chr 83] PRIVATE;
      Some (Z.lor (Z.lor (Z.lor read write) execute) private)
  | _ => None
  end.

(** A line, up to a NUL in it.  With less than four characters for the permissions the numbers
    after them are missing, too. *)
Definition parse_line (l : cstring) : option MappedMemoryRegion :=
  let line := c_str l in
  '(start, s) ← scan_number 64 16 line;
  s ← scan_char (chr 45) s;
  '(end_, s) ← scan_number 64 16 s;
  let s := scan_space s in
  let perms := take 4 s in
  '(offset, s) ← scan_number 64 16 (scan_space (drop 4 s));
  '(major, s) ← scan_number 8 16 (scan_space s);
  s ← scan_char (chr 58) s;
  '(minor, s) ← scan_number 8 16 s;
  '(inode, s) ← scan_signed (scan_space s);
  permissions ← parse_permissions perms;
  Some (mkMapped start end_ offset permissions major minor inode (scan_space s) line).

(** The result, when all lines have been parsed. *)
Definition ParseProcMaps (input : cstring) : option (list MappedMemoryRegion) := lines ← split_lines [] input; mapM parse_line lines.

(** ** [MinidumpLinuxMapsList] *)

Section maps.
Context {O : Type}.

(** [Read]: the stream is looked for again. *)
Definition LinuxMapsList_Read (expected_size : Z) : reading O (list MappedMemoryRegion) :=
  let! length := SeekToStreamType MD_LINUX_MAPS in
  requires (expected_size =? length) ;;;
  let! mapping_bytes := read_bytes length in
  match ParseProcMaps (chars mapping_bytes) with Some regions => done_with regions | None => failed end.

Definition GetLinuxMapsList `{MinidumpSystem.StreamObject (list MappedMemoryRegion) O} : reading O (list MappedMemoryRegion) :=
  GetStream MD_LINUX_MAPS MinidumpSystem.to_object MinidumpSystem.of_object LinuxMapsList_Read.
End maps.

(** [GetSize] and the test of [GetLinuxMapsForAddress], in 64 bits. *)
Definition maps_GetSize (m : MappedMemoryRegion) : Z := wrap 64 (end_ m - start m).

Definition encloses (m : MappedMemoryRegion) (address : Z) : bool := (start m <=? address) && (address <? wrap 64 (start m + maps_GetSize m)).

Definition GetLinuxMapsForAddress (maps : list MappedMemoryRegion) (address : Z) : option MappedMemoryRegion :=
  snd <$> list_find (λ m, encloses m address = true) maps.

Definition GetLinuxMapsAtIndex (maps : list MappedMemoryRegion) (index : Z) : option MappedMemoryRegion :=
  if Z.of_nat (length maps) <=? index then None else maps !! Z.to_nat index.

(** ** The text of mappings *)

Definition permission_chars (p : Z) : cstring :=
  [if Z.testbit p 0 then chr 114 else chr 45; if Z.testbit p 1 then chr 119 else chr 45; if Z.testbit p 2 then chr 120 else chr 45;
   if Z.testbit p 3 then chr 112 else chr 115].

(** The line of a mapping, with [gap] spaces before its path. *)
Definition maps_line (m : MappedMemoryRegion) (gap : nat) : cstring :=
  padded 8 (print_hex (start m)) ++ [chr 45] ++ padded 8 (print_hex (end_ m)) ++ [SP] ++ permission_chars (permissions m) ++ [SP] ++
  padded 8 (print_hex (offset m)) ++ [SP] ++ padded 2 (print_hex (major_device m)) ++ [chr 58] ++ padded 2 (print_hex (minor_device m)) ++ [SP] ++
  print_dec (inode m) ++ replicate gap SP ++ path m.

(** A path: text of one line that does not start with white space, and is set off. *)
Definition path_ok (m : MappedMemoryRegion) (gap : nat) : Prop :=
  all (λ c, negb ((code c =? 0) || (code c =? 10) || (code c =? 13))) (path m) /\ stops isspace (path m) /\ (path m <> [] -> gap <> 0%nat).

(** Numbers as wide as the kernel has them: a device has 12 bits of the major and 20 of the
    minor number. *)
Definition maps_ok (m : MappedMemoryRegion) (gap : nat) : Prop :=
  fits 64 (start m) /\ fits 64 (end_ m) /\ fits 64 (offset m) /\ fits 4 (permissions m) /\ fits 12 (major_device m) /\ fits 20 (minor_device m) /\ fits 63 (inode m) /\
  path_ok m gap /\ line m = maps_line m gap.

(** The mapping as it is read: of the numbers of the device the low bytes are left. *)
Definition as_read (m : MappedMemoryRegion) : MappedMemoryRegion :=
  mkMapped (start m) (end_ m) (offset m) (permissions m) (wrap 8 (major_device m)) (wrap 8 (minor_device m)) (inode m) (path m) (line m).

(** The address lies in the mapping. *)
Definition lies_in (address : Z) (m : MappedMemoryRegion) : Prop := start m <= address < end_ m.

(** [o] is the first mapping that holds the address, if one does. *)
Definition first_holding (maps : list MappedMemoryRegion) (address : Z) (o : option MappedMemoryRegion) : Prop :=
  match o with
  | Some m => exists i, maps !! i = Some m /\ lies_in address m /\ forall j m', (j < i)%nat -> maps !! j = Some m' -> ~ lies_in address m'
  | None => Forall (λ m, ~ lies_in address m) maps
  end.

(** ** Scanning what has been printed *)

Definition no_x (t : cstring) : Prop := match t with c :: _ => code c <> 120 /\ code c <> 88 | [] => True end.

Lemma strto_digits base s t :
  base <= 16 -> s <> [] -> all (is_digit base) s -> stops (is_digit base) t -> no_x t -> strto (s ++ t) base = Some (false, digits_val base 0 s, t).
Proof.
  intros Hb Hne Hall Ht Hx. destruct (digits_plain base s Hb Hne Hall) as (E1 & E2 & E3 & E4). destruct s as [|c s]; [done|].
  unfold strto. assert (span isspace ((c :: s) ++ t) = ([], (c :: s) ++ t)) as ->.
  { cbn [app span] in *. destruct (isspace c); [|done]. by destruct (span isspace s). }
  assert (scan_sign ((c :: s) ++ t) = (false, (c :: s) ++ t)) as ->.
  { cbn [app scan_sign] in *. destruct (code c =? 45); [done|]. destruct (code c =? 43); [|done]. injection E2 as E2. apply (f_equal length) in E2. cbn in E2. lia. }
  assert (skip_0x base ((c :: s) ++ t) = (c :: s) ++ t) as ->.
  { destruct s as [|x s].
    - destruct t as [|x t]; [done|]. cbn. destruct Hx as [H1 H2]. rewrite (proj2 (Z.eqb_neq _ _) H1), (proj2 (Z.eqb_neq _ _) H2). by rewrite !andb_false_r.
    - inversion Hall as [|? ? _ Hs]; subst. inversion Hs as [|? ? Hxd _]; subst. pose proof (is_digit_code base x Hb Hxd). cbn.
      rewrite (proj2 (Z.eqb_neq (code x) 120)), (proj2 (Z.eqb_neq (code x) 88)) by lia. by rewrite !andb_false_r. }
  assert (starts_digit base ((c :: s) ++ t) = true) as -> by done. by rewrite scan_digits_app.
Qed.

Lemma padded_digits width z : 0 <= z -> padded width (print_hex z) <> [] /\ all (is_digit 16) (padded width (print_hex z)) /\ digits_val 16 0 (padded width (print_hex z)) = z.
Proof.
  intros Hz. destruct (print_num_digits 16 z ltac:(lia) Hz) as (Hne & Hall & Hv). unfold padded, print_hex. set (k := (width - _)%nat). split_and!.
  - intros [_ ?]%app_nil. done.
  - apply Forall_app. split; [|done]. apply Forall_replicate. reflexivity.
  - rewrite <- Hv at 2. clearbody k. induction k as [|k IH]; [done|]. exact IH.
Qed.

Lemma scan_padded w width z t : fits 64 z -> stops (is_digit 16) t -> no_x t -> scan_number w 16 (padded width (print_hex z) ++ t) = Some (wrap w z, t).
Proof.
  intros Hz Ht Hx. destruct (padded_digits width z ltac:(unfold fits in Hz; lia)) as (Hne & Hall & Hv). unfold scan_number, strtoull.
  rewrite (strto_digits 16 _ t ltac:(lia) Hne Hall Ht Hx), Hv. cbn [fst].
  unfold fits in Hz. by rewrite (proj2 (Z.leb_gt (2 ^ 64) z)) by lia.
Qed.

Lemma scan_inode z t : fits 63 z -> stops (is_digit 10) t -> no_x t -> scan_signed (print_dec z ++ t) = Some (z, t).
Proof.
  intros Hz Ht Hx. destruct (print_num_digits 10 z ltac:(lia) ltac:(unfold fits in Hz; lia)) as (Hne & Hall & Hv). unfold scan_signed, strtol, print_dec.
  rewrite (strto_digits 10 _ t ltac:(lia) Hne Hall Ht Hx), Hv. cbn [fst]. unfold fits in Hz. change (2 ^ 63) with 9223372036854775808 in *.
  rewrite (proj2 (Z.leb_gt _ z)) by lia. rewrite wrap_small; [done|]. unfold fits. change (2 ^ 64) with 18446744073709551616. lia.
Qed.

Lemma scan_space_gap k t : stops isspace t -> scan_space (replicate k SP ++ t) = t.
Proof. intros Ht. unfold scan_space. rewrite (span_app isspace); [done|by apply Forall_replicate|done]. Qed.

Lemma permissions_parsed p : fits 4 p -> parse_permissions (permission_chars p) = Some p.
Proof.
  intros Hp. assert (Hc: p ∈ Z.of_nat <$> seq 0 16).
  { apply list_elem_of_fmap. exists (Z.to_nat p). unfold fits in Hp. change (2 ^ 4) with 16 in Hp. rewrite elem_of_seq. lia. }
  cbn in Hc. rewrite !elem_of_cons, elem_of_nil in Hc. repeat (destruct Hc as [->|Hc]; [reflexivity|]). done.
Qed.

Lemma c_str_of_plain s : all (λ c, negb (code c =? 0)) s -> c_str s = s.
Proof. induction 1 as [|c s Hc _ IH]; [done|]. cbn. destruct (code c =? 0); [done|]. by rewrite IH. Qed.

(** Characters of lines. *)
Definition plain_char (c : ascii) : bool := negb ((code c =? 0) || (code c =? 10) || (code c =? 13)).

Lemma digit_plain base c : base <= 16 -> is_digit base c = true -> plain_char c = true.
Proof. intros Hb Hd. pose proof (is_digit_code base c Hb Hd). unfold plain_char. rewrite !(proj2 (Z.eqb_neq _ _)) by lia. done. Qed.

Lemma maps_line_plain m gap : maps_ok m gap -> all plain_char (maps_line m gap).
Proof.
  intros (H1 & H2 & H3 & H4 & H5 & H6 & H7 & (Hp & _) & _). unfold maps_line, all.
  assert (Hpad: forall k z w, fits w z -> Forall (λ c, plain_char c = true) (padded k (print_hex z))).
  { intros k z w Hz. destruct (padded_digits k z ltac:(unfold fits in Hz; lia)) as (_ & Hall & _). eapply Forall_impl; [exact Hall|]. intros c Hc. by apply (digit_plain 16). }
  destruct (print_num_digits 10 (inode m) ltac:(lia) ltac:(unfold fits in H7; lia)) as (_ & Hd & _).
  rewrite !Forall_app. split_and!; [by eapply Hpad|by constructor|by eapply Hpad|by constructor| |by constructor|by eapply Hpad|by constructor|by eapply Hpad|
    by constructor|by eapply Hpad|by constructor| |by apply Forall_replicate|exact Hp].
  - unfold permission_chars. repeat constructor; by destruct (Z.testbit _ _).
  - eapply Forall_impl; [exact Hd|]. intros c Hc. by apply (digit_plain 10).
Qed.

Lemma parse_maps_line m gap : maps_ok m gap -> parse_line (maps_line m gap) = Some (as_read m).
Proof.
  intros Hm. pose proof (maps_line_plain m gap Hm) as Hpl. destruct Hm as (H1 & H2 & H3 & H4 & H5 & H6 & H7 & (Hp & Hsp & Hgap) & Hline). unfold parse_line.
  assert (c_str (maps_line m gap) = maps_line m gap) as ->.
  { apply c_str_of_plain. eapply Forall_impl; [exact Hpl|]. intros c Hc. unfold plain_char in Hc. by destruct (code c =? 0). }
  cbv zeta. let u := eval unfold maps_line in (maps_line m gap) in change (scan_number 64 16 (maps_line m gap)) with (scan_number 64 16 u).
  cbn [app]. rewrite scan_padded by (first [done|unfold fits in *; lia]). cbn [mbind option_bind scan_char]. rewrite (proj2 (Ascii.eqb_eq _ _) eq_refl).
  cbn [mbind option_bind]. rewrite scan_padded by (first [done|unfold fits in *; lia]). cbn [mbind option_bind].
  assert (Hs: forall t, stops isspace t -> scan_space (SP :: t) = t) by (intros t Ht; exact (scan_space_gap 1 t Ht)).
  assert (Hpad: forall k z w t, fits w z -> stops isspace (padded k (print_hex z) ++ t)).
  { intros k z w t Hz. destruct (padded_digits k z ltac:(unfold fits in Hz; lia)) as (Hne & Hall & _). destruct (padded k (print_hex z)) as [|c s]; [done|].
    apply Forall_cons in Hall as [Hc _]. pose proof (is_digit_code 16 c ltac:(lia) Hc). cbn. unfold isspace. rewrite (proj2 (Z.eqb_neq _ _)) by lia.
    rewrite (proj2 (Z.leb_gt _ 13)) by lia. by rewrite andb_false_r. }
  assert (Hst: stops isspace (permission_chars (permissions m) ++ [SP])) by (unfold permission_chars; by destruct (Z.testbit _ 0)).
  rewrite Hs by (unfold permission_chars; by destruct (Z.testbit _ 0)). set (rest := SP :: _ ++ _).
  change (drop 4 (permission_chars (permissions m) ++ rest)) with rest. change (take 4 (permission_chars (permissions m) ++ rest)) with (permission_chars (permissions m)).
  unfold rest. rewrite Hs by (by eapply Hpad). rewrite scan_padded by (first [done|unfold fits in *; lia]). cbn [mbind option_bind]. rewrite Hs by (by eapply Hpad).
  rewrite scan_padded by (first [done|unfold fits in *; lia]). cbn [mbind option_bind scan_char]. rewrite (proj2 (Ascii.eqb_eq _ _) eq_refl). cbn [mbind option_bind].
  rewrite scan_padded by (first [done|unfold fits in *; lia]). cbn [mbind option_bind].
  destruct (print_num_digits 10 (inode m) ltac:(lia) ltac:(unfold fits in H7; lia)) as (Hne & Hd & _).
  rewrite Hs.
  2: { unfold print_dec. destruct (print_num 10 (inode m)) as [|c s]; [done|]. apply Forall_cons in Hd as [Hc _]. pose proof (is_digit_code 10 c ltac:(lia) Hc). cbn. unfold isspace.
       rewrite (proj2 (Z.eqb_neq _ _)) by lia. rewrite (proj2 (Z.leb_gt _ 13)) by lia. by rewrite andb_false_r. }
  assert (Htail: stops (is_digit 10) (replicate gap SP ++ path m) /\ no_x (replicate gap SP ++ path m)).
  { destruct gap as [|gap]; [|done]. destruct (path m) as [|c s]; [done|]. by destruct (Hgap ltac:(done)). }
  rewrite scan_inode by (done || apply Htail). cbn [mbind option_bind]. rewrite permissions_parsed by done. cbn [mbind option_bind].
  rewrite scan_space_gap by done. rewrite <- Hline. by rewrite (wrap_small 64 (start m)), (wrap_small 64 (end_ m)), (wrap_small 64 (offset m)) by done.
Qed.

Lemma split_line l t input : all plain_char t -> split_lines l (t ++ input) = split_lines (l ++ t) input.
Proof.
  intros Ht. revert l. induction Ht as [|c t Hc _ IH]; intros l; [by rewrite app_nil_r|]. cbn [app split_lines]. unfold plain_char in Hc.
  assert ((code c =? 10) || (code c =? 13) = false) as -> by (by destruct (code c =? 0), (code c =? 10), (code c =? 13)). cbn [negb]. rewrite IH. by rewrite <- app_assoc.
Qed.

(** The test of [GetLinuxMapsForAddress] does not wrap. *)
Lemma encloses_holds m address : fits 64 (start m) -> fits 64 (end_ m) -> encloses m address = true <-> lies_in address m.
Proof.
  intros Hs He. assert (E: wrap 64 (start m + maps_GetSize m) = end_ m).
  { unfold maps_GetSize, wrap. rewrite Z.add_mod_idemp_r by done. replace (start m + (end_ m - start m)) with (end_ m) by lia. by apply Z.mod_small. }
  unfold encloses, lies_in. rewrite E, andb_true_iff, Z.leb_le, Z.ltb_lt. done.
Qed.

Lemma maps_lookup maps address :
  Forall (λ m, fits 64 (start m) /\ fits 64 (end_ m)) maps -> first_holding maps address (GetLinuxMapsForAddress maps address).
Proof.
  intros Hm. unfold GetLinuxMapsForAddress. destruct (list_find _ maps) as [[i m]|] eqn:E; cbn [fmap option_fmap option_map snd first_holding].
  - apply list_find_Some in E as (Hi & He & Hbefore). exists i. split; [done|].
    assert (Hok: forall j m', maps !! j = Some m' -> fits 64 (start m') /\ fits 64 (end_ m')) by (intros j m' Hj; by eapply (Forall_lookup_1 _ _ _ _ Hm Hj)).
    destruct (Hok _ _ Hi). split; [by apply encloses_holds|]. intros j m' Hj Hm' Hh. destruct (Hok _ _ Hm').
    apply (Hbefore j m'); [done|done|]. by apply encloses_holds.
  - apply list_find_None in E. apply Forall_forall. intros m Hin Hh. rewrite Forall_forall in E, Hm.
    destruct (Hm m Hin). by apply (E m Hin), encloses_holds.
Qed.

(** The text of mappings. *)
Definition maps_text (maps : list (MappedMemoryRegion * nat)) : cstring := concat ((λ mg, maps_line mg.1 mg.2 ++ [chr 10]) <$> maps).

Lemma maps_text_parsed (maps : list (MappedMemoryRegion * nat)) :
  Forall (λ mg, maps_ok mg.1 mg.2) maps -> ParseProcMaps (maps_text maps) = Some ((λ mg, as_read mg.1) <$> maps).
Proof.
  intros Hmaps. unfold ParseProcMaps, maps_text.
  assert (Hs: split_lines [] (concat ((λ mg, maps_line mg.1 mg.2 ++ [chr 10]) <$> maps)) = Some ((λ mg, maps_line mg.1 mg.2) <$> maps)).
  { induction Hmaps as [|[m gap] maps Hm _ IH]; [done|]. cbn [fmap list_fmap concat fst snd] in *. rewrite <- app_assoc, split_line by (by apply maps_line_plain).
    cbn [app split_lines]. change (code (chr 10) =? 10) with true. cbn [orb negb]. assert (Hne: maps_line m gap <> []).
    { unfold maps_line. destruct (padded_digits 8 (start m)) as (Hne & _); [destruct Hm as [Hm _]; unfold fits in Hm; lia|]. by destruct (padded 8 _). }
    destruct (maps_line m gap) as [|c l] eqn:El; [done|]. rewrite IH. done. }
  rewrite Hs. cbn [mbind option_bind]. clear Hs. induction Hmaps as [|[m gap] maps Hm _ IH]; [done|]. cbn [fmap list_fmap mapM fst snd].
  rewrite parse_maps_line by done. cbn [mbind option_bind]. by rewrite IH.
Qed.

(** C39: the mappings of a process, printed as the kernel prints them, are parsed back,
    whatever their number, permissions and paths -- but for the numbers of their devices, of
    which the low bytes are left; and of the mappings that have been parsed,
    [GetLinuxMapsForAddress] gives for any address the first that holds it, or none when
    none does. *)
Theorem proc_maps (maps : list (MappedMemoryRegion * nat)) :
  Forall (λ mg, maps_ok mg.1 mg.2) maps ->
  exists regions, ParseProcMaps (maps_text maps) = Some regions /\ regions = (λ mg, as_read mg.1) <$> maps /\
    forall address, first_holding regions address (GetLinuxMapsForAddress regions address).
Proof.
  intros Hmaps. exists ((λ mg, as_read mg.1) <$> maps). split; [by apply maps_text_parsed|]. split; [done|]. intros address.
  apply maps_lookup, Forall_fmap. eapply Forall_impl; [exact Hmaps|]. intros mg (Hs & He & _). by split.
Qed.

Definition demo_map_line : cstring := lit "00400000-0040b000 r-xp 00001000 fd:01 4194333                            /bin/cat".
Definition demo_map_line2 : cstring := lit "7ffd00000000-7ffd00021000 rw-p 00000000 103:200 0".

Definition demo_mapping : MappedMemoryRegion := mkMapped 0x400000 0x40b000 0x1000 (Z.lor (Z.lor READ EXECUTE) PRIVATE) 0xfd 1 4194333 (lit "/bin/cat") demo_map_line.
Definition demo_mapping2 : MappedMemoryRegion := mkMapped 0x7ffd00000000 0x7ffd00021000 0 (Z.lor (Z.lor READ WRITE) PRIVATE) 0x103 0x200 0 [] demo_map_line2.

(** A device with the numbers 259:512 is read as 3:0. *)
Lemma proc_maps_witness :
  exists m, ParseProcMaps (demo_map_line ++ [chr 10] ++ demo_map_line2 ++ [chr 10]) = Some [demo_mapping; m] /\
    (major_device m, minor_device m) = (3, 0) /\ first_holding [demo_mapping; m] 0x7ffd00000010 (Some m).
Proof.
  destruct (proc_maps [(demo_mapping, 28%nat); (demo_mapping2, 0%nat)]) as (regions & Hp & -> & Hf).
  { unfold demo_mapping, demo_mapping2. repeat constructor; try (vm_compute; congruence); cbn; unfold fits; try lia; try reflexivity; try done. }
  exists (as_read demo_mapping2). split; [exact Hp|]. split; [reflexivity|]. exact (Hf 0x7ffd00000010).
Defined.
