(* ===== verification/MinidumpInfo.v ===== *)
(** processor/minidump.cc: the other streams of a minidump: [MinidumpAssertion],
    [MinidumpUnloadedModuleList], [MinidumpMiscInfo], [MinidumpBreakpadInfo] and
    [MinidumpCrashpadInfo]. *)
From stdpp Require Import list.
From S2P Require Import Prelude StdMap CStr StrMap Memory RangeMap MemoryRegion CodeModules MinidumpFile MinidumpSystem MinidumpModules MinidumpContext.

(** ** An assertion *)

(** Its strings as the constructor makes them and [Read] sets them; its line and its type. *)
Record MinidumpAssertion := mkAssertion {
  expression_ : cstring;
  function_ : cstring;
  file_ : cstring;
  assertion_line : Z;
  assertion_type : Z
}.

(** A string of a structure: its words as they are in the host's memory. *)
Definition structure_string (raw : list Z) (offset : Z) (bytes : Z) (swap : bool) : cstring :=
  ConvertUTF16BufferToUTF8String (words_of (slice raw offset (Z.to_nat bytes)) (bytes / 2)) bytes [] swap.

(** ** Unloaded modules *)

Record MDRawUnloadedModule := mkRawUnloaded {
  unloaded_base : Z;
  unloaded_size : Z;
  unloaded_checksum : Z;
  unloaded_time : Z;
  unloaded_name_rva : Z
}.

Definition MDRawUnloadedModule_read (swap : bool) (raw : list Z) : MDRawUnloadedModule :=
  mkRawUnloaded (member swap raw 0 8) (member swap raw 8 4) (member swap raw 12 4) (member swap raw 16 4) (member swap raw 20 4).

(** Valid once its name has been read. *)
Record MinidumpUnloadedModule := mkUnloaded { unloaded_module_ : MDRawUnloadedModule; unloaded_name_ : option cstring }.

Definition unloaded_valid (m : MinidumpUnloadedModule) : bool := match unloaded_name_ m with Some _ => true | None => false end.
Definition unloaded_base_address (m : MinidumpUnloadedModule) : Z := if unloaded_valid m then unloaded_base (unloaded_module_ m) else 0.
Definition unloaded_module_size (m : MinidumpUnloadedModule) : Z := if unloaded_valid m then unloaded_size (unloaded_module_ m) else 0.
Definition unloaded_code_file (m : MinidumpUnloadedModule) : cstring := default [] (unloaded_name_ m).

Definition unloaded_platform_identifier (os : Z) (m : MinidumpUnloadedModule) : cstring :=
  if (os =? MD_OS_WIN32_NT) || (os =? MD_OS_WIN32_WINDOWS) then
    print_HEX 8 (unloaded_time (unloaded_module_ m)) ++ print_hex (unloaded_size (unloaded_module_ m))
  else if existsb (Z.eqb os) [MD_OS_ANDROID; MD_OS_LINUX; MD_OS_MAC_OS_X; MD_OS_IOS; MD_OS_SOLARIS; MD_OS_NACL; MD_OS_PS3] then lit "id"
  else [].

Record MinidumpUnloadedModuleList := mkUnloadedList { unloaded_range_map_ : RangeMap Z; unloaded_modules_ : list MinidumpUnloadedModule }.

Definition max_unloaded_modules_ := 2048.

(** Modules under their positions; a range that is not stored is passed over. *)
Fixpoint store_unloaded (index : Z) (ms : list MinidumpUnloadedModule) (map : RangeMap Z) : RangeMap Z :=
  match ms with
  | [] => map
  | m :: ms => store_unloaded (index + 1) ms (StoreRange 64 map (unloaded_base_address m) (unloaded_module_size m) index).2
  end.

Section unloaded.
Context {O : Type} `{StreamObject MinidumpSystemInfo O}.

Definition Assertion_Read (expected_size : Z) : reading O MinidumpAssertion :=
  requires (expected_size =? 776) ;;;
  let! raw := read_bytes 776 in
  let! swap := asking get_swap in
  done_with (mkAssertion (structure_string raw 0 256 swap) (structure_string raw 256 256 swap) (structure_string raw 512 256 swap)
    (member swap raw 768 4) (member swap raw 772 4)).

(** Bytes that are passed over; their number has 32 bits. *)
Definition skip_bytes (count : Z) : reading O () :=
  if count =? 0 then done_with ()
  else let! position := asking Tell in seek_set (position + count).

Definition UnloadedModule_Read (expected_size : Z) : reading O MinidumpUnloadedModule :=
  requires (24 <=? expected_size) ;;;
  let! raw := read_bytes 24 in
  skip_bytes (expected_size - 24) ;;;
  let! swap := asking get_swap in
  let module := MDRawUnloadedModule_read swap raw in
  requires (negb ((unloaded_size module =? 0) || (2 ^ 64 - 1 - unloaded_base module <? unloaded_size module))) ;;;
  done_with (mkUnloaded module None).

Definition UnloadedModule_ReadAuxiliaryData (m : MinidumpUnloadedModule) : reading O MinidumpUnloadedModule :=
  let! name := ReadString (unloaded_name_rva (unloaded_module_ m)) in
  done_with (mkUnloaded (unloaded_module_ m) (Some name)).

Definition unloaded_code_identifier (m : MinidumpUnloadedModule) : reading O cstring :=
  if negb (unloaded_valid m) then done_with []
  else
    let! system_info := attempt GetSystemInfo in
    done_with (match system_info with Some s => unloaded_platform_identifier (platform_id (system_info_ s)) m | None => [] end).

Definition UnloadedModule_Copy (m : MinidumpUnloadedModule) : reading O CodeModule :=
  let! code_identifier := unloaded_code_identifier m in
  done_with (mkCodeModule (unloaded_base_address m) (unloaded_module_size m) 0 (unloaded_code_file m) code_identifier [] [] [] true).

Fixpoint read_unloaded (n : nat) (size_of_entry : Z) : reading O (list MinidumpUnloadedModule) :=
  match n with
  | 0%nat => done_with []
  | S n => let! m := UnloadedModule_Read size_of_entry in let! ms := read_unloaded n size_of_entry in done_with (m :: ms)
  end.

Fixpoint read_unloaded_names (ms : list MinidumpUnloadedModule) : reading O (list MinidumpUnloadedModule) :=
  match ms with
  | [] => done_with []
  | m :: ms => let! m := UnloadedModule_ReadAuxiliaryData m in let! ms := read_unloaded_names ms in done_with (m :: ms)
  end.

(** The sizes are added and multiplied in 32 bits. *)
Definition UnloadedModuleList_Read (expected_size : Z) : reading O MinidumpUnloadedModuleList :=
  let! raw_header := read_bytes 4 in
  let! raw_entry := read_bytes 4 in
  let! raw_count := read_bytes 4 in
  let! swap := asking get_swap in
  let size_of_header := member swap raw_header 0 4 in
  let size_of_entry := member swap raw_entry 0 4 in
  let number_of_entries := member swap raw_count 0 4 in
  skip_bytes (u32 (size_of_header - 12)) ;;;
  requires (expected_size =? u32 (size_of_header + u32 (size_of_entry * number_of_entries))) ;;;
  requires (number_of_entries <=? max_unloaded_modules_) ;;;
  let! ms := read_unloaded (Z.to_nat number_of_entries) size_of_entry in
  let! ms := read_unloaded_names ms in
  done_with (mkUnloadedList (store_unloaded 0 ms (SetEnableShrinkDown RangeMap_new true)) ms).

Definition GetUnloadedModuleList `{StreamObject MinidumpUnloadedModuleList O} : reading O MinidumpUnloadedModuleList :=
  GetStream MD_UNLOADED_MODULE_LIST_STREAM to_object of_object UnloadedModuleList_Read.
Definition GetAssertion `{StreamObject MinidumpAssertion O} : reading O MinidumpAssertion :=
  GetStream MD_ASSERTION_INFO_STREAM to_object of_object Assertion_Read.
End unloaded.

Definition ul_GetModuleAtIndex (l : MinidumpUnloadedModuleList) (index : Z) : option MinidumpUnloadedModule :=
  if Z.of_nat (length (unloaded_modules_ l)) <=? index then None else unloaded_modules_ l !! Z.to_nat index.
Definition ul_GetModuleForAddress (l : MinidumpUnloadedModuleList) (address : Z) : option MinidumpUnloadedModule :=
  x ← RetrieveRange 64 (unloaded_range_map_ l) address; ul_GetModuleAtIndex l (ret_entry x).
Definition ul_GetModuleAtSequence (l : MinidumpUnloadedModuleList) (sequence : Z) : option MinidumpUnloadedModule :=
  if Z.of_nat (length (unloaded_modules_ l)) <=? sequence then None
  else x ← RetrieveRangeAtIndex 64 (unloaded_range_map_ l) (s32 sequence); ul_GetModuleAtIndex l (ret_entry x).

(** ** Miscellaneous information *)

(** The members that each version adds, and the sizes up to them. *)
Definition time_zone_members : list raw_member :=
  [number 4; kept 64] ++ replicate 8 (number 2) ++ [number 4; kept 64] ++ replicate 8 (number 2) ++ [number 4].

Definition misc_version (version : nat) : list raw_member :=
  match version with
  | 1%nat => replicate 6 (number 4)
  | 2%nat => replicate 5 (number 4)
  | 3%nat => replicate 4 (number 4) ++ time_zone_members
  | 4%nat => [kept 520; kept 80]
  | _ => [number 4; number 4; number 8] ++ replicate 128 (number 4) ++ [number 4]
  end.

Definition MD_MISCINFO_SIZE : Z := Eval vm_compute in sizeof 0 (misc_version 1).
Definition MD_MISCINFO2_SIZE : Z := Eval vm_compute in MD_MISCINFO_SIZE + sizeof 0 (misc_version 2).
Definition MD_MISCINFO3_SIZE : Z := Eval vm_compute in MD_MISCINFO2_SIZE + sizeof 0 (misc_version 3).
Definition MD_MISCINFO4_SIZE : Z := Eval vm_compute in MD_MISCINFO3_SIZE + sizeof 0 (misc_version 4).
Definition MD_MISCINFO5_SIZE : Z := Eval vm_compute in MD_MISCINFO4_SIZE + sizeof 0 (misc_version 5).

(** The structure, and the strings of it. *)
Record MinidumpMiscInfo := mkMiscInfo {
  misc_info_ : list Z;
  standard_name_ : cstring;
  daylight_name_ : cstring;
  build_string_ : cstring;
  dbg_bld_str_ : cstring
}.

(** The members of a version from a position on, swapped when the structure is larger than the
    versions before it. *)
Definition swap_version (swap : bool) (version : nat) (raw : list Z) (offset : Z) (present : bool) : list Z :=
  swap_struct (swap && present) (misc_version version) raw offset.

Definition swap_misc_info (swap : bool) (raw : list Z) (size_of_info : Z) : list Z :=
  swap_version swap 1 raw 0 true ++ swap_version swap 2 raw MD_MISCINFO_SIZE (MD_MISCINFO_SIZE <? size_of_info) ++
  swap_version swap 3 raw MD_MISCINFO2_SIZE (MD_MISCINFO2_SIZE <? size_of_info) ++ swap_version swap 4 raw MD_MISCINFO3_SIZE (MD_MISCINFO3_SIZE <? size_of_info) ++
  swap_version swap 5 raw MD_MISCINFO4_SIZE (MD_MISCINFO4_SIZE <? size_of_info).

Section misc.
Context {O : Type}.

(** A size that is known, and how much of the stream is passed over; [None] for another. *)
Definition known_misc_size (expected_size : Z) : option (Z * Z) :=
  if existsb (Z.eqb expected_size) [MD_MISCINFO_SIZE; MD_MISCINFO2_SIZE; MD_MISCINFO3_SIZE; MD_MISCINFO4_SIZE; MD_MISCINFO5_SIZE] then Some (expected_size, 0)
  else if MD_MISCINFO5_SIZE <? expected_size then Some (MD_MISCINFO5_SIZE, expected_size - MD_MISCINFO5_SIZE)
  else None.

(** What is after the part that has been read is zero. *)
Definition MiscInfo_Read (expected_size : Z) : reading O MinidumpMiscInfo :=
  match known_misc_size expected_size with
  | None => failed
  | Some (size, padding) =>
      let! raw := read_bytes size in
      (if padding =? 0 then done_with ()
       else let! saved_position := asking Tell in requires (negb (saved_position =? -1)) ;;; seek_set (saved_position + padding)) ;;;
      let! swap := asking get_swap in
      let raw := raw ++ replicate (Z.to_nat (MD_MISCINFO5_SIZE - size)) 0 in
      let size_of_info := member swap raw 0 4 in
      requires (size + padding =? size_of_info) ;;;
      let string (offset bytes limit : Z) := if limit <? size_of_info then structure_string raw offset bytes swap else [] in
      done_with (mkMiscInfo (swap_misc_info swap raw size_of_info) (string 64 64 MD_MISCINFO2_SIZE) (string 148 64 MD_MISCINFO2_SIZE)
        (string 232 520 MD_MISCINFO3_SIZE) (string 752 80 MD_MISCINFO3_SIZE))
  end.

Definition GetMiscInfo `{StreamObject MinidumpMiscInfo O} : reading O MinidumpMiscInfo := GetStream MD_MISC_INFO_STREAM to_object of_object MiscInfo_Read.

(** ** Breakpad's own information *)

Record MDRawBreakpadInfo := mkBreakpadInfo { validity : Z; dump_thread_id : Z; requesting_thread_id : Z }.

Definition MD_BREAKPAD_INFO_VALID_DUMP_THREAD_ID := 1.
Definition MD_BREAKPAD_INFO_VALID_REQUESTING_THREAD_ID := 2.

Definition BreakpadInfo_Read (expected_size : Z) : reading O MDRawBreakpadInfo :=
  requires (expected_size =? 12) ;;;
  let! raw := read_bytes 12 in
  let! swap := asking get_swap in
  done_with (mkBreakpadInfo (member swap raw 0 4) (member swap raw 4 4) (member swap raw 8 4)).

Definition GetDumpThreadID (i : MDRawBreakpadInfo) : option Z :=
  if Z.land (validity i) MD_BREAKPAD_INFO_VALID_DUMP_THREAD_ID =? 0 then None else Some (dump_thread_id i).
Definition GetRequestingThreadID (i : MDRawBreakpadInfo) : option Z :=
  if Z.land (validity i) MD_BREAKPAD_INFO_VALID_REQUESTING_THREAD_ID =? 0 then None else Some (requesting_thread_id i).

Definition GetBreakpadInfo `{StreamObject MDRawBreakpadInfo O} : reading O MDRawBreakpadInfo :=
  GetStream MD_BREAKPAD_INFO_STREAM to_object of_object BreakpadInfo_Read.

(** ** Crashpad's information *)

(** A GUID, whose first three numbers are swapped. *)
Definition guid_members : list raw_member := [number 4; number 2; number 2; kept 8].

Record MinidumpCrashpadInfo := mkCrashpadInfo {
  crashpad_version : Z;
  report_id : list Z;
  client_id : list Z;
  module_crashpad_info_links_ : list Z;
  module_crashpad_info_ : list (Z * MDLocationDescriptor * MDLocationDescriptor);
  module_crashpad_info_list_annotations_ : list (list cstring);
  module_crashpad_info_simple_annotations_ : list (strmap cstring);
  simple_annotations_ : strmap cstring
}.

(** A dictionary or a list that is there only when it has a size. *)
Definition if_any {A} (empty : A) (l : MDLocationDescriptor) (read : Z -> reading O A) : reading O A := if data_size l =? 0 then done_with empty else read (rva l).

Definition module_info := (Z * MDLocationDescriptor * MDLocationDescriptor)%type.

Definition read_crashpad_module (location : MDLocationDescriptor) : reading O (module_info * list cstring * strmap cstring) :=
  seek_set (rva location) ;;;
  let! raw := read_bytes 20 in
  let! swap := asking get_swap in
  let list_annotations := location_read swap raw 4 in
  let simple_annotations := location_read swap raw 12 in
  let! l := if_any [] list_annotations ReadStringList in
  let! s := if_any [] simple_annotations ReadSimpleStringDictionary in
  done_with (member swap raw 0 4, list_annotations, simple_annotations, l, s).

Fixpoint read_crashpad_modules (links : list (Z * MDLocationDescriptor)) : reading O (list (Z * (module_info * list cstring * strmap cstring))) :=
  match links with
  | [] => done_with []
  | (index, location) :: links =>
      let! m := read_crashpad_module location in
      let! ms := read_crashpad_modules links in
      done_with ((index, m) :: ms)
  end.

(** The list of modules: their count and their links. *)
Definition read_crashpad_list (position : Z) : reading O (list (Z * (module_info * list cstring * strmap cstring))) :=
  seek_set position ;;;
  let! raw_count := read_bytes 4 in
  let! swap := asking get_swap in
  let count := member swap raw_count 0 4 in
  let! raw := read_bytes (12 * count) in
  read_crashpad_modules ((λ i, (member swap raw (12 * Z.of_nat i) 4, location_read swap raw (12 * Z.of_nat i + 4))) <$> seq 0 (Z.to_nat count)).

Definition CrashpadInfo_Read (expected_size : Z) : reading O MinidumpCrashpadInfo :=
  requires (expected_size =? 52) ;;;
  let! raw := read_bytes 52 in
  let! swap := asking get_swap in
  let! simple := if_any [] (location_read swap raw 36) ReadSimpleStringDictionary in
  let! modules := if_any [] (location_read swap raw 44) read_crashpad_list in
  done_with (mkCrashpadInfo (member swap raw 0 4) (swap_struct swap guid_members raw 4) (swap_struct swap guid_members raw 20)
    (modules.*1) ((λ m, m.2.1.1) <$> modules) ((λ m, m.2.1.2) <$> modules) ((λ m, m.2.2) <$> modules) simple).

Definition GetCrashpadInfo `{StreamObject MinidumpCrashpadInfo O} : reading O MinidumpCrashpadInfo :=
  GetStream MD_CRASHPAD_INFO_STREAM to_object of_object CrashpadInfo_Read.
End misc.

(** ** Miscellaneous information laid out in a dump *)

(** The members up to a version, and their size. *)
Definition misc_members (version : nat) : list raw_member := concat (misc_version <$> seq 1 version).
Definition misc_size (version : nat) : Z := sizeof 0 (misc_members version).

Lemma read_le_prefix a b offset n : offset + Z.of_nat n <= Z.of_nat (length a) -> 0 <= offset -> read_le (a ++ b) offset n = read_le a offset n.
Proof. intros H H0. unfold read_le, slice. rewrite drop_app_le by lia. rewrite take_app_le; [done|]. rewrite length_drop. lia. Qed.

Lemma misc_members_S version : (1 <= version)%nat -> misc_members (S version) = misc_members version ++ misc_version (S version).
Proof. intros H. unfold misc_members. rewrite seq_S, fmap_app, concat_app. cbn [fmap list_fmap concat]. by rewrite app_nil_r. Qed.

Lemma swap_members_S swap raw version :
  (1 <= version)%nat ->
  swap_struct swap (misc_members (S version)) raw 0 = swap_struct swap (misc_members version) raw 0 ++ swap_struct swap (misc_version (S version)) raw (misc_size version).
Proof. intros H. by rewrite misc_members_S, swap_struct_app by done. Qed.

Lemma swap_version_present swap version raw offset limit size :
  limit < size -> swap_version swap version raw offset (limit <? size) = swap_struct swap (misc_version version) raw offset.
Proof. intros H. unfold swap_version. by rewrite (proj2 (Z.ltb_lt _ _) H), andb_true_r. Qed.

(** The versions a structure has are in front of what [Swap] makes of it. *)
Lemma swap_misc_members swap raw version size :
  (1 <= version <= 5)%nat -> misc_size version <= size -> exists rest, swap_misc_info swap raw size = swap_struct swap (misc_members version) raw 0 ++ rest.
Proof.
  intros Hv Hs. unfold swap_misc_info.
  assert (H1: swap_version swap 1 raw 0 true = swap_struct swap (misc_members 1) raw 0) by (unfold swap_version; by rewrite andb_true_r).
  destruct version as [|[|[|[|[|[|version]]]]]]; try lia; rewrite H1, ?(swap_members_S swap raw 4), ?(swap_members_S swap raw 3),
    ?(swap_members_S swap raw 2), ?(swap_members_S swap raw 1) by lia.
  all: rewrite ?swap_version_present by (eapply Z.lt_le_trans; [|exact Hs]; vm_compute; reflexivity).
  - by eexists.
  - rewrite app_assoc. by eexists.
  - rewrite !app_assoc, <- app_assoc. by eexists.
  - rewrite !app_assoc. by eexists.
  - exists []. rewrite app_nil_r, !app_assoc. done.
Qed.

(** A version of the structure in a dump, with what a later one may have added to the last. *)
Record misc_laid_out (contents : list Z) (swap : bool) (p : Z) (version : nat) (added : Z) : Prop := {
  ml_version : (1 <= version <= 5)%nat /\ 0 <= added /\ (added = 0 \/ version = 5%nat);
  ml_bytes : Forall byte_ok contents;
  ml_size : 0 <= p /\ fits 32 (misc_size version + added) /\ p + misc_size version + added <= Z.of_nat (length contents);
  ml_size_of_info : holds contents p (order swap 4 (misc_size version + added))
}.

Lemma known_misc version added : (1 <= version <= 5)%nat -> 0 <= added -> added = 0 \/ version = 5%nat -> known_misc_size (misc_size version + added) = Some (misc_size version, added).
Proof.
  intros Hv Ha Hor. destruct (Z.eq_dec added 0) as [->|Hn].
  - rewrite Z.add_0_r. destruct version as [|[|[|[|[|[|version]]]]]]; try lia; reflexivity.
  - destruct Hor as [Hz|Hv5]; [done|subst version]. unfold known_misc_size. change (misc_size 5) with MD_MISCINFO5_SIZE.
    assert (Hno: existsb (Z.eqb (MD_MISCINFO5_SIZE + added)) [MD_MISCINFO_SIZE; MD_MISCINFO2_SIZE; MD_MISCINFO3_SIZE; MD_MISCINFO4_SIZE; MD_MISCINFO5_SIZE] = false).
    { cbn [existsb]. unfold MD_MISCINFO_SIZE, MD_MISCINFO2_SIZE, MD_MISCINFO3_SIZE, MD_MISCINFO4_SIZE, MD_MISCINFO5_SIZE.
      rewrite !(proj2 (Z.eqb_neq _ _)) by lia. done. }
    rewrite Hno, (proj2 (Z.ltb_lt _ _)) by lia. do 2 f_equal. lia.
Qed.

(** The miscellaneous information of any of its five versions is read from a dump in either
    byte order, whether or not a later version has made the last one longer: each number of the
    members that the version has, laid out in the byte order of the dump where the layout puts
    it, is where the layout puts it in the structure that is kept, in the order of the host. *)
Lemma misc_info_read {O} (contents : list Z) (swap : bool) p version added (f : DumpFile O) :
  dump_valid_ f = true -> misc_laid_out contents swap p version added ->
  exists i, MiscInfo_Read (misc_size version + added) (at_position contents swap p f) = (Some i, at_position contents swap (p + misc_size version + added) f) /\
    forall offset n v, member_at (misc_members version) offset = Some (number n) -> sizes_ok n -> fits (8 * Z.of_nat n) v ->
      holds contents (p + Z.of_nat offset) (order swap n v) -> read_le (misc_info_ i) (Z.of_nat offset) n = v.
Proof.
  intros Hvalid [(Hv & Ha & Hor) Hok (Hp & Hf & Hsize) Hinfo]. unfold MiscInfo_Read. rewrite known_misc by done.
  set (size := misc_size version) in *. assert (Hsz: 4 <= size) by (unfold size; destruct version as [|[|[|[|[|[|version]]]]]]; [lia|vm_compute; discriminate..|lia]).
  assert (Hsz': size = Z.of_nat (structure_size (misc_members version))) by done.
  pose proof (read_available contents swap p size f Hp ltac:(lia) ltac:(lia)) as Hr. rewrite (after_some _ _ _ _ _ Hr). cbv zeta. set (raw := slice contents p (Z.to_nat size)).
  assert (Hraw: length raw = Z.to_nat size) by (apply length_slice; lia).
  assert (Hskip: (if added =? 0 then done_with () else let! saved_position := asking Tell in requires (negb (saved_position =? -1)) ;;; seek_set (saved_position + added))
    (at_position contents swap (p + size) f) = (Some (), at_position contents swap (p + size + added) f)).
  { destruct (added =? 0) eqn:E0; [apply Z.eqb_eq in E0 as ->; by rewrite Z.add_0_r|]. unfold after at 1, asking.
    assert (Ht: Tell (at_position contents swap (p + size) f) = p + size) by (unfold Tell; by rewrite (Hvalid : dump_valid_ (at_position _ _ _ f) = true)).
    rewrite Ht. assert (Hm: negb (p + size =? -1) = true) by (apply negb_true_iff, Z.eqb_neq; lia).
    rewrite (after_some _ _ _ _ _ (requires_true _ _ Hm)). done. }
  rewrite (after_some _ _ _ _ _ Hskip). unfold after at 1, asking at 1. rewrite context_swap_at by done.
  set (full := raw ++ replicate (Z.to_nat (MD_MISCINFO5_SIZE - size)) 0).
  assert (Hmember: forall offset n v, Z.of_nat offset + Z.of_nat n <= size -> sizes_ok n -> fits (8 * Z.of_nat n) v ->
    holds contents (p + Z.of_nat offset) (order swap n v) -> member swap full (Z.of_nat offset) n = v).
  { intros offset n v Hb Hn Hfv Hh. replace (member swap full (Z.of_nat offset) n) with (member swap raw (Z.of_nat offset) n).
    - apply member_read; [done..|]. apply holds_slice; [done|lia|rewrite length_order; lia|done].
    - unfold member, full. by rewrite read_le_prefix by lia. }
  assert (Hsi: member swap full 0 4 = size + added).
  { apply (Hmember 0%nat 4%nat); [cbn; lia|by unfold sizes_ok; auto|done|]. by rewrite Z.add_0_r. }
  rewrite Hsi, (after_some _ _ _ _ _ (requires_true _ _ (Z.eqb_refl (size + added)))). eexists. split; [reflexivity|]. cbn [misc_info_].
  intros offset n v Hm Hn Hfv Hh. destruct (swap_misc_members swap full version (size + added) Hv ltac:(lia)) as [rest ->].
  assert (Hfull: Z.of_nat (structure_size (misc_members version)) <= Z.of_nat (length full)) by (unfold full; rewrite length_app, Hraw; lia).
  pose proof (member_at_bound _ _ _ Hm) as Hb. cbn [member_size] in Hb.
  rewrite read_le_prefix, member_of_struct; [|..]; try (done || lia).
  - rewrite Z.add_0_l. apply Hmember; try done. lia.
  - unfold full. apply Forall_app. split; [by apply slice_bytes_ok|]. apply Forall_replicate. by vm_compute.
  - rewrite length_swap_struct; lia.
Qed.

Definition demo_misc_dump : list Z := [0xaa; 0xbb] ++ order true 4 44 ++ concat (order true 4 <$> [1; 4321; 7; 8; 9; 2800; 1400; 2; 3; 4]).
Definition demo_misc_file : DumpFile () := with_valid true (with_swap true (Minidump_of_stream (mkStream demo_misc_dump 0 true))).

Lemma misc_info_read_witness :
  exists i : MinidumpMiscInfo, (MiscInfo_Read 44 (at_position demo_misc_dump true 2 demo_misc_file)).1 = Some i /\ read_le (misc_info_ i) 8 4 = 4321 /\ read_le (misc_info_ i) 24 4 = 2800.
Proof.
  destruct (misc_info_read demo_misc_dump true 2 2 0 demo_misc_file eq_refl) as (i & E & H).
  { split; [lia|by apply bytes_ok_of|unfold fits; split_and!; vm_compute; (discriminate || reflexivity)|split; [done|reflexivity]]. }
  exists i. split_and!; [exact (f_equal fst E)|apply (H 8%nat 4%nat)|apply (H 24%nat 4%nat)]; try reflexivity;
    first [unfold sizes_ok; by auto|unfold fits; cbn; lia|split; [done|reflexivity]].
Defined.
