(* ===== verification/DumpModule.v ===== *)
(** common/module.h, common/module.cc: [google_breakpad::Module], the symbols a
    dumper collects, and how it writes them as a symbol file.
    The [File] objects are shared between the module and the lines of its
    functions and are changed by [AssignSourceIds], so they live in a heap;
    functions, externs and frame entries are changed by nobody once they are in
    the module and are values.  A C++ stream is a text with the number of
    characters it still accepts. *)
From Stdlib Require Import Ascii.
From stdpp Require Import strings sorting list relations.
From S2P Require Import Prelude StdMap CStr StrMap SymbolFile SymbolLoad.

(** ** The module *)

(** [Module::File]. *)
Record MFile := mkMFile { file_name : cstring; source_id : Z }.

Definition set_source_id (id : Z) (f : MFile) : MFile := mkMFile (file_name f) id.

(** A pointer to a [File]. *)
Abbreviation file_ptr := nat.

(** [Module::Line]. *)
Record MLine := mkMLine { mline_address : Z; mline_size : Z; mline_file : file_ptr; mline_number : Z }.

(** [Module::Function]. *)
Record MFunction := mkMFunction {
  mfunc_name : cstring;
  mfunc_address : Z;
  mfunc_size : Z;
  mfunc_parameter_size : Z;
  mfunc_lines : list MLine
}.

Definition MFunction_new (name : cstring) (address : Z) : MFunction := mkMFunction name address 0 0 [].

(** [Module::StackFrameEntry]. *)
Record StackFrameEntry := mkStackFrameEntry {
  entry_address : Z;
  entry_size : Z;
  initial_rules : strmap cstring;
  rule_changes : smap (strmap cstring)
}.

Inductive SymbolData := ALL_SYMBOL_DATA | NO_CFI | ONLY_CFI.

Record DumpModule := mkDumpModule {
  mod_name : cstring;
  mod_os : cstring;
  mod_architecture : cstring;
  mod_id : cstring;
  mod_code_id : cstring;
  mod_load_address : Z;
  mod_files : strmap file_ptr;
  mod_file_heap : list MFile;
  mod_functions : list MFunction;
  mod_externs : smap cstring;
  mod_stack_frame_entries : list StackFrameEntry
}.

Definition DumpModule_new (name os architecture id code_id : cstring) : DumpModule :=
  mkDumpModule name os architecture id code_id 0 [] [] [] [] [].

Definition with_load_address (m : DumpModule) x := mkDumpModule (mod_name m) (mod_os m) (mod_architecture m) (mod_id m)
  (mod_code_id m) x (mod_files m) (mod_file_heap m) (mod_functions m) (mod_externs m) (mod_stack_frame_entries m).
Definition with_files (m : DumpModule) x h := mkDumpModule (mod_name m) (mod_os m) (mod_architecture m) (mod_id m)
  (mod_code_id m) (mod_load_address m) x h (mod_functions m) (mod_externs m) (mod_stack_frame_entries m).
Definition with_functions (m : DumpModule) x := mkDumpModule (mod_name m) (mod_os m) (mod_architecture m) (mod_id m)
  (mod_code_id m) (mod_load_address m) (mod_files m) (mod_file_heap m) x (mod_externs m) (mod_stack_frame_entries m).
Definition with_externs (m : DumpModule) x := mkDumpModule (mod_name m) (mod_os m) (mod_architecture m) (mod_id m)
  (mod_code_id m) (mod_load_address m) (mod_files m) (mod_file_heap m) (mod_functions m) x (mod_stack_frame_entries m).
Definition with_entries (m : DumpModule) x := mkDumpModule (mod_name m) (mod_os m) (mod_architecture m) (mod_id m)
  (mod_code_id m) (mod_load_address m) (mod_files m) (mod_file_heap m) (mod_functions m) (mod_externs m) x.

Definition SetLoadAddress (m : DumpModule) (address : Z) : DumpModule := with_load_address m address.

(** [FunctionCompare]. *)
Definition function_lt (lhs rhs : MFunction) : bool :=
  if mfunc_address lhs =? mfunc_address rhs then str_ltb (mfunc_name lhs) (mfunc_name rhs)
  else mfunc_address lhs <? mfunc_address rhs.

(** [std::set::insert] in that order. *)
Fixpoint insert_function (f : MFunction) (fs : list MFunction) : list MFunction :=
  match fs with
  | [] => [f]
  | g :: fs' => if function_lt g f then g :: insert_function f fs'
                else if function_lt f g then f :: fs
                else fs
  end.

(** The extern that a function at [address] replaces. *)
Definition find_extern (m : DumpModule) (address : Z) : nat :=
  let it_ext := find (mod_externs m) address in
  if (it_ext =? length (mod_externs m))%nat && str_eqb (mod_architecture m) (lit "arm") && (Z.land address 1 =? 0)
  then find (mod_externs m) (Z.lor address 1)
  else it_ext.

(** [AddFunction]; the name must not be empty. *)
Definition AddFunction (m : DumpModule) (f : MFunction) : outcome DumpModule :=
  match mfunc_name f with
  | [] => Undefined
  | _ =>
      let it_ext := find_extern m (mfunc_address f) in
      let m := if (it_ext =? length (mod_externs m))%nat then m else with_externs m (erase (mod_externs m) it_ext) in
      Ok (with_functions m (insert_function f (mod_functions m)))
  end.

Fixpoint AddFunctions (m : DumpModule) (fs : list MFunction) : outcome DumpModule :=
  match fs with
  | [] => Ok m
  | f :: fs => m ← AddFunction m f; AddFunctions m fs
  end.

Definition AddStackFrameEntry (m : DumpModule) (e : StackFrameEntry) : DumpModule :=
  with_entries m (mod_stack_frame_entries m ++ [e]).

Definition AddExtern (m : DumpModule) (address : Z) (name : cstring) : DumpModule :=
  with_externs m (insert (mod_externs m) address name).

(** [vec->insert(i, begin(), end())]. *)
Definition GetFunctions (m : DumpModule) (vec : list MFunction) (i : nat) : list MFunction :=
  take i vec ++ mod_functions m ++ drop i vec.
Definition GetExterns (m : DumpModule) (vec : list (Z * cstring)) (i : nat) : list (Z * cstring) :=
  take i vec ++ mod_externs m ++ drop i vec.

(** [FindFile]: the file of that name, created when there is none. *)
Definition FindFile (m : DumpModule) (name : cstring) : file_ptr * DumpModule :=
  match str_find (mod_files m) name with
  | Some p => (p, m)
  | None =>
      let p := length (mod_file_heap m) in
      (p, with_files m (str_assign (mod_files m) name p) (mod_file_heap m ++ [mkMFile name (-1)]))
  end.

Definition FindExistingFile (m : DumpModule) (name : cstring) : option file_ptr := str_find (mod_files m) name.

Definition GetFiles (m : DumpModule) : list file_ptr := snd <$> mod_files m.

Definition GetStackFrameEntries (m : DumpModule) : list StackFrameEntry := mod_stack_frame_entries m.

(** ** [AssignSourceIds] *)

Definition set_ids (id : Z) (ptrs : list file_ptr) (heap : list MFile) : list MFile :=
  foldl (λ heap p, alter (set_source_id id) p heap) heap ptrs.

(** The loop that numbers the marked files. *)
Fixpoint number_files (files : strmap file_ptr) (next_source_id : Z) (heap : list MFile) : list MFile :=
  match files with
  | [] => heap
  | (_, p) :: files =>
      match heap !! p with
      | Some f => if source_id f =? 0
                  then number_files files (next_source_id + 1) (alter (set_source_id next_source_id) p heap)
                  else number_files files next_source_id heap
      | None => number_files files next_source_id heap
      end
  end.

(** The files the lines cite. *)
Definition cited_files (m : DumpModule) : list file_ptr :=
  mod_functions m ≫= λ f, mline_file <$> mfunc_lines f.

Definition AssignSourceIds (m : DumpModule) : DumpModule :=
  let heap := set_ids (-1) (snd <$> mod_files m) (mod_file_heap m) in
  let heap := set_ids 0 (cited_files m) heap in
  with_files m (mod_files m) (number_files (mod_files m) 0 heap).

(** ** Writing *)

(** A stream: what was written, and how many characters more it accepts
    ([None]: any number).  A stream that refused a character stays bad. *)
Record ostream := mkOstream { written : cstring; room : option nat; good : bool }.

Definition put (s : cstring) (o : ostream) : ostream :=
  if negb (good o) then o
  else match room o with
       | None => mkOstream (written o ++ s) None true
       | Some n => if (length s <=? n)%nat then mkOstream (written o ++ s) (Some (n - length s)%nat) true
                   else mkOstream (written o ++ take n s) (Some O) false
       end.

(** Something that writes, and says whether to go on. *)
Definition writer := ostream -> outcome (bool * ostream).

Definition writes (s : cstring) : writer := λ o, Ok (true, put s o).

(** [if (!stream.good()) return ReportError();] *)
Definition check_good : writer := λ o, Ok (good o, o).

Definition then_write (w1 w2 : writer) : writer := λ o,
  '(ok, o) ← w1 o; if ok : bool then w2 o else Ok (false, o).

Definition done_writing : writer := λ o, Ok (true, o).

Definition for_each {A} (l : list A) (f : A -> writer) : writer := foldr (λ a w, then_write (f a) w) done_writing l.

Infix ";;;" := then_write (at level 62, right associativity).

(** [endl]. *)
Definition line_end : cstring := [LF].

(** The text of a rule map. *)
Definition rule_map_text (rule_map : strmap cstring) : cstring :=
  join ((λ r, r.1 ++ lit ": " ++ r.2) <$> rule_map).

(** [WriteRuleMap]: the space is written before every rule but the first. *)
Fixpoint WriteRules (first : bool) (rule_map : strmap cstring) : writer :=
  match rule_map with
  | [] => done_writing
  | (name, rule) :: rule_map =>
      writes ((if first then [] else [SP]) ++ name ++ lit ": " ++ rule) ;;; WriteRules false rule_map
  end.

Definition WriteRuleMap (rule_map : strmap cstring) : writer := WriteRules true rule_map ;;; check_good.

Definition relative (m : DumpModule) (address : Z) : cstring := print_hex (wrap 64 (address - mod_load_address m)).

(** A [FILE] record, of a file with a source id; a pointer to no file is undefined. *)
Definition WriteFile (m : DumpModule) (p : file_ptr) : writer :=
  match mod_file_heap m !! p with
  | None => λ _, Undefined
  | Some f =>
      if 0 <=? source_id f
      then writes (lit "FILE " ++ print_int (source_id f) ++ [SP] ++ file_name f ++ line_end) ;;; check_good
      else done_writing
  end.

Definition WriteLine (m : DumpModule) (l : MLine) : writer :=
  match mod_file_heap m !! mline_file l with
  | None => λ _, Undefined
  | Some f =>
      writes (relative m (mline_address l) ++ [SP] ++ print_hex (mline_size l) ++ [SP] ++
              print_int (mline_number l) ++ [SP] ++ print_int (source_id f) ++ line_end) ;;; check_good
  end.

Definition WriteFunction (m : DumpModule) (f : MFunction) : writer :=
  writes (lit "FUNC " ++ relative m (mfunc_address f) ++ [SP] ++ print_hex (mfunc_size f) ++ [SP] ++
          print_hex (mfunc_parameter_size f) ++ [SP] ++ mfunc_name f ++ line_end) ;;; check_good ;;;
  for_each (mfunc_lines f) (WriteLine m).

(** A PUBLIC record is not followed by a check of the stream. *)
Definition WriteExtern (m : DumpModule) (e : Z * cstring) : writer :=
  writes (lit "PUBLIC " ++ relative m e.1 ++ lit " 0 " ++ e.2 ++ line_end).

Definition WriteDelta (m : DumpModule) (d : Z * strmap cstring) : writer :=
  writes (lit "STACK CFI " ++ relative m d.1 ++ [SP]) ;;; check_good ;;; WriteRuleMap d.2 ;;; writes line_end.

Definition WriteEntry (m : DumpModule) (e : StackFrameEntry) : writer :=
  writes (lit "STACK CFI INIT " ++ relative m (entry_address e) ++ [SP] ++ print_hex (entry_size e) ++ [SP]) ;;;
  check_good ;;; WriteRuleMap (initial_rules e) ;;; writes line_end ;;;
  for_each (rule_changes e) (WriteDelta m).

Definition WriteHeader (m : DumpModule) : writer :=
  writes (lit "MODULE " ++ mod_os m ++ [SP] ++ mod_architecture m ++ [SP] ++ mod_id m ++ [SP] ++ mod_name m ++ line_end) ;;;
  check_good ;;;
  match mod_code_id m with [] => done_writing | code_id => writes (lit "INFO CODE_ID " ++ code_id ++ line_end) end.

Definition has_symbols (symbol_data : SymbolData) : bool := match symbol_data with ONLY_CFI => false | _ => true end.
Definition has_cfi (symbol_data : SymbolData) : bool := match symbol_data with NO_CFI => false | _ => true end.

(** The module that is written: the source ids are assigned when they are needed. *)
Definition numbered (m : DumpModule) (symbol_data : SymbolData) : DumpModule :=
  if has_symbols symbol_data then AssignSourceIds m else m.

Definition WriteSymbols (m : DumpModule) : writer :=
  for_each (snd <$> mod_files m) (WriteFile m) ;;;
  for_each (mod_functions m) (WriteFunction m) ;;;
  for_each (mod_externs m) (WriteExtern m).

(** [Write]: whether it succeeded, and the stream; the module afterwards is
    [numbered m symbol_data] when the header could be written. *)
Definition Write (m : DumpModule) (symbol_data : SymbolData) : writer :=
  WriteHeader m ;;;
  (if has_symbols symbol_data then WriteSymbols (AssignSourceIds m) else done_writing) ;;;
  (if has_cfi symbol_data then for_each (mod_stack_frame_entries m) (WriteEntry m) else done_writing).

(** ** What a client can make *)

(** The calls that build a module; the lines of a function cite files that
    [FindFile] gave. *)
Inductive build_step : DumpModule -> DumpModule -> Prop :=
| step_load_address m a : fits 64 a -> build_step m (SetLoadAddress m a)
| step_find_file m n : build_step m (FindFile m n).2
| step_add_function m f m' :
    (forall l, l ∈ mfunc_lines f -> exists n, FindExistingFile m n = Some (mline_file l)) ->
    AddFunction m f = Ok m' -> build_step m m'
| step_add_extern m a n : fits 64 a -> build_step m (AddExtern m a n)
| step_add_entry m e : build_step m (AddStackFrameEntry m e)
| step_assign m : build_step m (AssignSourceIds m).

Definition built (m : DumpModule) : Prop :=
  exists name os architecture id code_id, rtc build_step (DumpModule_new name os architecture id code_id) m.

(** ** The invariant *)

Record dump_ok (m : DumpModule) : Prop := {
  do_load : fits 64 (mod_load_address m);
  do_files : str_sorted (mod_files m);
  do_names : forall n p, (n, p) ∈ mod_files m -> exists f, mod_file_heap m !! p = Some f /\ file_name f = n;
  do_functions : StronglySorted (λ f g, function_lt f g = true) (mod_functions m);
  do_function_names : forall f, f ∈ mod_functions m -> mfunc_name f <> [];
  do_lines : forall f l, f ∈ mod_functions m -> l ∈ mfunc_lines f -> exists n, (n, mline_file l) ∈ mod_files m;
  do_externs : sorted (mod_externs m);
  do_extern_fits : forall a n, (a, n) ∈ mod_externs m -> fits 64 a
}.

Lemma function_lt_trans f g h : function_lt f g = true -> function_lt g h = true -> function_lt f h = true.
Proof.
  unfold function_lt. intros H1 H2.
  destruct (mfunc_address f =? mfunc_address g) eqn:E1, (mfunc_address g =? mfunc_address h) eqn:E2,
    (mfunc_address f =? mfunc_address h) eqn:E3; breflect; try lia; try apply Z.ltb_lt; try lia.
  by eapply str_ltb_trans.
Qed.

Lemma insert_function_elem f fs g : g ∈ insert_function f fs -> g = f \/ g ∈ fs.
Proof.
  induction fs as [|h fs IH]; simpl; [by intros ->%list_elem_of_singleton; left|].
  repeat dif; [|by intros [->|?]%elem_of_cons; [left|right]|by right].
  intros [->|Hin]%elem_of_cons; [right; left|]. destruct (IH Hin); [by left|right; by right].
Qed.

Lemma insert_function_sorted f fs :
  StronglySorted (λ f g, function_lt f g = true) fs ->
  StronglySorted (λ f g, function_lt f g = true) (insert_function f fs).
Proof.
  induction 1 as [|h fs Hs IH Hlt]; simpl; [repeat constructor|]. rewrite Forall_forall in Hlt. repeat dif.
  - constructor; [done|]. apply Forall_forall. intros g [->|Hg]%insert_function_elem; auto.
  - constructor; [constructor; [done|by apply Forall_forall]|]. apply Forall_forall.
    intros g [->|Hg]%elem_of_cons; [done|]. eapply function_lt_trans; eauto.
  - constructor; [done|by apply Forall_forall].
Qed.

(** Two entries of one file are the same. *)
Lemma file_name_unique m n n' p : dump_ok m -> (n, p) ∈ mod_files m -> (n', p) ∈ mod_files m -> n = n'.
Proof.
  intros [] H1 H2. destruct (do_names0 _ _ H1) as (f & Hf & <-), (do_names0 _ _ H2) as (f' & Hf' & <-). congruence.
Qed.

(** Changing source ids changes no name. *)
Definition same_names (h h' : list MFile) : Prop :=
  forall p f, h !! p = Some f -> exists f', h' !! p = Some f' /\ file_name f' = file_name f.

Lemma same_names_refl h : same_names h h.
Proof. intros p f Hf. by exists f. Qed.

Lemma same_names_trans h1 h2 h3 : same_names h1 h2 -> same_names h2 h3 -> same_names h1 h3.
Proof. intros H12 H23 p f Hf. destruct (H12 p f Hf) as (f2 & Hf2 & <-). by apply H23. Qed.

Lemma same_names_alter id p h : same_names h (alter (set_source_id id) p h).
Proof.
  intros q f Hf. destruct (decide (p = q)) as [->|Hne].
  - rewrite list_lookup_alter_eq, Hf. by eexists.
  - rewrite list_lookup_alter_ne by done. by exists f.
Qed.

Lemma same_names_set id ptrs : forall h, same_names h (set_ids id ptrs h).
Proof.
  induction ptrs as [|p ptrs IH]; intros h; [apply same_names_refl|].
  eapply same_names_trans; [apply (same_names_alter id p)|apply IH].
Qed.

Lemma same_names_number files : forall next h, same_names h (number_files files next h).
Proof.
  induction files as [|[n p] files IH]; intros next h; [apply same_names_refl|]. cbn [number_files].
  destruct (h !! p) as [f|]; [dif|]; try apply IH. eapply same_names_trans; [apply same_names_alter|apply IH].
Qed.

Lemma build_step_ok m m' : dump_ok m -> build_step m m' -> dump_ok m'.
Proof.
  intros Hok Hs. pose proof Hok as []. destruct Hs as [m a Ha|m n|m f m' Hl E|m a n Ha|m e|m].
  - by constructor.
  - unfold FindFile. destruct (str_find (mod_files m) n) as [p|] eqn:En; [done|].
    assert (Hold: forall n' p', (n', p') ∈ mod_files m -> (n', p') ∈ str_assign (mod_files m) n (length (mod_file_heap m))).
    { intros n' p' Hin. apply str_find_Some; [by apply str_sorted_assign|]. rewrite str_find_assign by done.
      apply str_find_Some in Hin; [|done]. destruct (str_eqb n n') eqn:E; [|done]. apply str_eqb_spec in E as ->. congruence. }
    constructor; simpl; try done.
    + by apply str_sorted_assign.
    + intros n' p' Hin. apply str_find_Some in Hin; [|by apply str_sorted_assign]. rewrite str_find_assign in Hin by done.
      destruct (str_eqb n n') eqn:E.
      * injection Hin as <-. apply str_eqb_spec in E as ->. exists (mkMFile n' (-1)). split; [by apply list_lookup_middle|done].
      * apply str_find_Some in Hin; [|done]. destruct (do_names0 _ _ Hin) as (g & Hg & ?). exists g.
        split; [by apply lookup_app_l_Some|done].
    + intros g l Hg Hgl. destruct (do_lines0 g l Hg Hgl) as [n' Hn']. exists n'. by apply Hold.
  - unfold AddFunction in E. destruct (mfunc_name f) as [|c cs] eqn:Ef; [done|]. injection E as <-.
    set (m1 := if (_ =? _)%nat then m else _).
    assert (Hm1: mod_load_address m1 = mod_load_address m /\ mod_files m1 = mod_files m /\
      mod_file_heap m1 = mod_file_heap m /\ mod_functions m1 = mod_functions m /\
      sorted (mod_externs m1) /\ forall a n, (a, n) ∈ mod_externs m1 -> (a, n) ∈ mod_externs m).
    { unfold m1. destruct (find_extern m _ =? _)%nat eqn:Ei; [done|]. breflect.
      destruct (mod_externs m !! find_extern m (mfunc_address f)) as [[k v]|] eqn:Ek.
      - split_and!; simpl; try done; [rewrite erase_erase_range; apply sorted_erase_range; [lia|done]|].
        intros a n Hin. by apply (elem_of_erase _ _ _ _ _ do_externs0 Ek) in Hin as [? _].
      - apply lookup_ge_None in Ek. unfold erase. cbn [mod_externs with_externs].
        rewrite take_ge, drop_ge, app_nil_r by lia. done. }
    destruct Hm1 as (E1 & E2 & E3 & E4 & E5 & E6). constructor; simpl; rewrite ?E1, ?E2, ?E3, ?E4; try done.
    + by apply insert_function_sorted.
    + intros g [->|Hg]%insert_function_elem; [congruence|auto].
    + intros g l [->|Hg]%insert_function_elem Hgl; [|eauto].
      destruct (Hl l Hgl) as [n Hn]. exists n. by apply str_find_Some.
    + intros a n Hin. eapply do_extern_fits0. by apply E6.
  - constructor; simpl; try done.
    + by apply sorted_insert.
    + intros a' n' Hin. destruct (lookup_key (mod_externs m) a) as [v|] eqn:El.
      * apply lookup_key_Some in El; [|done]. rewrite (insert_present _ _ _ v) in Hin by done. eauto.
      * rewrite lookup_key_None in El by done. apply elem_of_insert in Hin as [[= -> ->]|Hin]; eauto.
  - by constructor.
  - constructor; simpl; try done. intros n p Hin. destruct (do_names0 n p Hin) as (f & Hf & <-).
    assert (Hsn: same_names (mod_file_heap m) (number_files (mod_files m) 0
      (set_ids 0 (cited_files m) (set_ids (-1) (snd <$> mod_files m) (mod_file_heap m))))).
    { eapply same_names_trans; [apply same_names_set|]. eapply same_names_trans; [apply same_names_set|].
      apply same_names_number. }
    by apply Hsn.
Qed.

Lemma built_ok m : built m -> dump_ok m.
Proof.
  intros (n & o & a & i & c & Hr). assert (Hok: dump_ok (DumpModule_new n o a i c)).
  { constructor; simpl.
    - unfold fits. lia.
    - constructor.
    - by intros ? ? ?%not_elem_of_nil.
    - constructor.
    - by intros ? ?%not_elem_of_nil.
    - by intros ? ? ?%not_elem_of_nil.
    - constructor.
    - by intros ? ? ?%not_elem_of_nil. }
  revert Hok. induction Hr as [|m1 m2 m3 Hs _ IH]; [done|]. intros Hok. apply IH. by eapply build_step_ok.
Qed.

(** ** A module for the witnesses *)

Definition demo_function : MFunction :=
  mkMFunction (lit "main(int, char**)") 0x401000 0x20 8 [mkMLine 0x401000 0x10 0%nat 12; mkMLine 0x401010 0x10 0%nat 13].

(** Two files, of which one is cited; two externs, of which a function replaces one. *)
Definition demo_dump : outcome DumpModule :=
  let m := SetLoadAddress (DumpModule_new (lit "a.out") (lit "Linux") (lit "x86") (lit "ABCD") []) 0x400000 in
  let m := (FindFile m (lit "src/a b.c")).2 in
  let m := (FindFile m (lit "src/a b.h")).2 in
  let m := AddExtern m 0x401000 (lit "main") in
  let m := AddExtern m 0x402000 (lit "_start") in
  AddFunction m demo_function.

Definition demo_module : DumpModule := match demo_dump with Ok m => m | _ => DumpModule_new [] [] [] [] [] end.

Lemma demo_built : built demo_module.
Proof.
  exists (lit "a.out"), (lit "Linux"), (lit "x86"), (lit "ABCD"), [].
  eapply rtc_l; [apply (step_load_address _ 0x400000); done|].
  eapply rtc_l; [apply (step_find_file _ (lit "src/a b.c"))|].
  eapply rtc_l; [apply (step_find_file _ (lit "src/a b.h"))|].
  eapply rtc_l; [apply (step_add_extern _ 0x401000 (lit "main")); done|].
  eapply rtc_l; [apply (step_add_extern _ 0x402000 (lit "_start")); done|].
  apply rtc_once. apply (step_add_function _ demo_function); [|reflexivity].
  intros l Hl. exists (lit "src/a b.c"). repeat (apply elem_of_cons in Hl as [->|Hl]; [reflexivity|]). by apply not_elem_of_nil in Hl.
Qed.

Lemma demo_lines f l : f ∈ mod_functions demo_module -> l ∈ mfunc_lines f -> f = demo_function /\ 0 <= mline_number l < 2 ^ 31.
Proof.
  change (mod_functions demo_module) with [demo_function]. intros ->%list_elem_of_singleton Hl. split; [done|].
  repeat (apply elem_of_cons in Hl as [->|Hl]; [done|]). by apply not_elem_of_nil in Hl.
Qed.
