(* ===== verification/DumpWrite.v ===== *)
(** What [Module::Write] (DumpModule.v) writes: the source ids, the records of
    the symbol file, and what happens when the stream fails. *)
From Stdlib Require Import Ascii.
From stdpp Require Import strings sorting list.
From S2P Require Import Prelude StdMap CStr StrMap CfiFrameInfo SymbolFile SymbolLoad DumpModule.

(** ** Source ids *)

Lemma set_ids_lookup id ptrs : forall h p,
  set_ids id ptrs h !! p = if decide (p ∈ ptrs) then set_source_id id <$> h !! p else h !! p.
Proof.
  induction ptrs as [|q ptrs IH]; intros h p; [done|]. cbn [set_ids foldl]. fold (set_ids id ptrs).
  change (foldl _ ?h ptrs) with (set_ids id ptrs h). rewrite IH.
  destruct (decide (p = q)) as [->|Hne].
  - rewrite (decide_True (P := q ∈ q :: ptrs)) by left. rewrite list_lookup_alter_eq. case_decide; [|done].
    destruct (h !! q); [|done]. done.
  - rewrite list_lookup_alter_ne by done. apply decide_ext. rewrite elem_of_cons. tauto.
Qed.

(** The place of a cited file among the cited files before it. *)
Definition file_rank (cited : list file_ptr) (files : strmap file_ptr) (i : nat) : Z :=
  Z.of_nat (length (filter (.∈ cited) (take i (snd <$> files)))).

Lemma number_files_other files : forall next h p, p ∉ snd <$> files -> number_files files next h !! p = h !! p.
Proof.
  induction files as [|[n q] files IH]; intros next h p Hp; [done|]. cbn [number_files].
  cbn [fmap list_fmap snd] in Hp. apply not_elem_of_cons in Hp as [Hne Hp].
  destruct (h !! q) as [f|]; [dif|]; rewrite IH by done; [by rewrite list_lookup_alter_ne|done..].
Qed.

Lemma number_files_lookup (cited : list file_ptr) files : forall next h i n p,
  NoDup (snd <$> files) ->
  (forall n p, (n, p) ∈ files -> exists f, h !! p = Some f /\ source_id f = if decide (p ∈ cited) then 0 else -1) ->
  files !! i = Some (n, p) ->
  number_files files next h !! p =
  set_source_id (if decide (p ∈ cited) then next + file_rank cited files i else -1) <$> h !! p.
Proof.
  induction files as [|[n0 q] files IH]; intros next h i n p Hnd Hh Hi; [done|].
  cbn [fmap list_fmap snd] in Hnd. apply NoDup_cons in Hnd as [Hq Hnd].
  destruct (Hh n0 q ltac:(left)) as (f & Hf & Hid). cbn [number_files]. rewrite Hf, Hid.
  assert (Hrest: forall h' : list MFile, (forall p, p <> q -> h' !! p = h !! p) ->
    forall n p, (n, p) ∈ files -> exists f, h' !! p = Some f /\ source_id f = if decide (p ∈ cited) then 0 else -1).
  { intros h' Hh' n' p' Hin. destruct (Hh n' p' ltac:(by right)) as (f' & ? & ?). exists f'. split; [|done].
    rewrite Hh'; [done|]. intros ->. apply Hq, list_elem_of_fmap. by exists (n', q). }
  destruct i as [|i].
  - injection Hi as -> ->. rewrite Hf. unfold file_rank. cbn [take fmap list_fmap filter list_filter length].
    destruct (decide (p ∈ cited)); cbn [Z.eqb]; rewrite number_files_other by done.
    + rewrite list_lookup_alter_eq, Hf. cbn. by rewrite Z.add_0_r.
    + rewrite Hf. destruct f as [fn fid]. cbn in *. by rewrite Hid.
  - cbn in Hi. assert (Hpq: p <> q).
    { intros ->. apply Hq, list_elem_of_fmap. exists (n, q). split; [done|]. by apply list_elem_of_lookup; exists i. }
    unfold file_rank. cbn [fmap list_fmap snd take]. destruct (decide (q ∈ cited)) as [Hc|Hc]; cbn [Z.eqb].
    + rewrite (IH _ _ i n p) by (done || apply Hrest; intros; by apply list_lookup_alter_ne).
      rewrite list_lookup_alter_ne by done. rewrite filter_cons_True by done. cbn [length]. unfold file_rank.
      destruct (decide (p ∈ cited)); [|done]. do 2 f_equal. lia.
    + rewrite (IH _ _ i n p) by (done || by apply Hrest). by rewrite filter_cons_False.
Qed.

Lemma files_NoDup m : dump_ok m -> NoDup (snd <$> mod_files m).
Proof.
  intros Hok. pose proof Hok as []. apply NoDup_fmap_2_strong; [|].
  - intros [n p] [n' p'] H1 H2. cbn. intros ->. by rewrite (file_name_unique m n n' p').
  - clear -do_files. induction (mod_files m) as [|[n p] files IH]; [constructor|].
    apply str_sorted_cons in do_files as [Hlt Hs]. constructor; [|by apply IH].
    intros Hin. apply Hlt in Hin. by rewrite str_ltb_irrefl in Hin.
Qed.

Lemma AssignSourceIds_spec m i n p :
  dump_ok m -> mod_files m !! i = Some (n, p) ->
  mod_file_heap (AssignSourceIds m) !! p =
  Some (mkMFile n (if decide (p ∈ cited_files m) then file_rank (cited_files m) (mod_files m) i else -1)).
Proof.
  intros Hok Hi. pose proof Hok as []. assert (Hin: (n, p) ∈ mod_files m) by (apply list_elem_of_lookup; by exists i).
  destruct (do_names _ _ Hin) as (f & Hf & <-).
  assert (Hh: forall p, p ∈ snd <$> mod_files m ->
    set_ids 0 (cited_files m) (set_ids (-1) (snd <$> mod_files m) (mod_file_heap m)) !! p =
    set_source_id (if decide (p ∈ cited_files m) then 0 else -1) <$> mod_file_heap m !! p).
  { intros q Hq. rewrite !set_ids_lookup. rewrite (decide_True (P := q ∈ snd <$> mod_files m)) by done.
    case_decide; [|done]. by destruct (mod_file_heap m !! q). }
  assert (Hptr: forall n p, (n, p) ∈ mod_files m -> p ∈ snd <$> mod_files m)
    by (intros n' p' ?; apply list_elem_of_fmap; by exists (n', p')).
  cbn [AssignSourceIds mod_file_heap with_files].
  rewrite (number_files_lookup (cited_files m) _ 0 _ i (file_name f) p); [|by apply files_NoDup| |done].
  - rewrite Hh by eauto. by rewrite Hf.
  - intros n' p' Hin'. rewrite Hh by eauto. destruct (do_names _ _ Hin') as (f' & -> & _). by eexists.
Qed.

(** ** Streams *)

(** Writing to a bad stream changes nothing, so that writing a text in pieces is
    writing it at once. *)
Lemma put_app s t o : put t (put s o) = put (s ++ t) o.
Proof.
  unfold put. destruct (good o) eqn:Eg; cbn [negb]; [|by rewrite Eg].
  destruct (room o) as [n|]; cbn [good room written negb]; [|by rewrite (assoc_L (++))].
  rewrite length_app. destruct (length s <=? n)%nat eqn:E1; cbn [good room written negb]; breflect.
  - destruct (length t <=? n - length s)%nat eqn:E2, (length s + length t <=? n)%nat eqn:E3; breflect; try lia.
    + rewrite (assoc_L (++)). f_equal. f_equal. lia.
    + f_equal. rewrite take_app, (take_ge s) by lia. by rewrite (assoc_L (++)).
  - destruct (length s + length t <=? n)%nat eqn:E3; breflect; [lia|]. rewrite take_app.
    replace (n - length s)%nat with O by lia. by rewrite app_nil_r.
Qed.

Lemma put_nil o : put [] o = o.
Proof.
  unfold put. destruct o as [w r g]. cbn. destruct g; [|done]. cbn. destruct r as [n|]; [|by rewrite app_nil_r].
  by rewrite app_nil_r, Nat.sub_0_r.
Qed.

Lemma put_good s o : good (put s o) = true -> good o = true.
Proof. unfold put. by destruct (good o) eqn:E; cbn [negb]; [|rewrite E]. Qed.

(** What a stream holds afterwards. *)
Lemma put_written s o :
  exists t, written (put s o) = written o ++ t /\ t `prefix_of` s /\ (good (put s o) = true -> t = s).
Proof.
  unfold put. destruct (good o) eqn:Eg; cbn [negb].
  - destruct (room o) as [n|]; [|by exists s]. destruct (length s <=? n)%nat; [by exists s|].
    exists (take n s). split_and!; [done|apply prefix_take|done].
  - exists []. split_and!; [by rewrite app_nil_r|apply prefix_nil|by rewrite Eg].
Qed.

(** A writer that writes this text to any stream, and stops only when the
    stream is bad. *)
Definition emits (w : writer) (s : cstring) : Prop :=
  forall o, exists ok, w o = Ok (ok, put s o) /\ (good (put s o) = true -> ok = true).

Lemma emits_writes s : emits (writes s) s.
Proof. intros o. by exists true. Qed.

Lemma emits_check : emits check_good [].
Proof. intros o. exists (good o). by rewrite put_nil. Qed.

Lemma emits_done : emits done_writing [].
Proof. intros o. exists true. by rewrite put_nil. Qed.

Lemma emits_then w1 w2 s1 s2 : emits w1 s1 -> emits w2 s2 -> emits (w1 ;;; w2) (s1 ++ s2).
Proof.
  intros H1 H2 o. destruct (H1 o) as (ok1 & E1 & Hg1). unfold then_write. rewrite E1, bind_Ok. cbv beta iota.
  rewrite <- put_app. destruct ok1.
  - destruct (H2 (put s1 o)) as (ok2 & E2 & Hg2). by exists ok2.
  - destruct (good (put s1 o)) eqn:Hbad; [by specialize (Hg1 eq_refl)|].
    assert (Hput: put s2 (put s1 o) = put s1 o) by (unfold put at 1; by rewrite Hbad).
    rewrite Hput, Hbad. by exists false.
Qed.

Lemma emits_each {A} (f : A -> writer) (t : A -> cstring) l :
  (forall a, a ∈ l -> emits (f a) (t a)) -> emits (for_each l f) (concat (t <$> l)).
Proof.
  induction l as [|a l IH]; intros Hl; [apply emits_done|]. cbn [for_each foldr fmap list_fmap concat].
  apply emits_then; [apply Hl; left|]. apply IH. intros b Hb. apply Hl. by right.
Qed.

Lemma emits_eq w s s' : emits w s -> s = s' -> emits w s'.
Proof. by intros ? <-. Qed.

Lemma emits_rules m : emits (WriteRuleMap m) (rule_map_text m).
Proof.
  unfold WriteRuleMap. eapply emits_eq; [apply emits_then; [|apply emits_check]|by rewrite app_nil_r]. unfold rule_map_text.
  assert (Hgen: forall m first, emits (WriteRules first m)
    (match m with [] => [] | _ => (if first then [] else [SP]) ++ join ((λ r, r.1 ++ lit ": " ++ r.2) <$> m) end)).
  { clear m. induction m as [|[n r] m IH]; intros first; [apply emits_done|]. cbn [WriteRules].
    eapply emits_eq; [apply emits_then; [apply emits_writes|apply IH]|].
    rewrite <- (assoc_L (++)). f_equal. cbn [fmap list_fmap fst snd]. destruct m as [|r' m]; [by rewrite app_nil_r|].
    cbn [fmap list_fmap]. cbn [join]. by rewrite <- !(assoc_L (++)). }
  eapply emits_eq; [apply Hgen|]. by destruct m.
Qed.

(** ** The records of a module *)

Definition rel (m : DumpModule) (address : Z) : Z := wrap 64 (address - mod_load_address m).

Definition file_id (m : DumpModule) (p : file_ptr) : Z := match mod_file_heap m !! p with Some f => source_id f | None => -1 end.

Definition header_records (m : DumpModule) : list record :=
  ModuleRecord (mod_os m ++ [SP] ++ mod_architecture m ++ [SP] ++ mod_id m ++ [SP] ++ mod_name m) ::
  match mod_code_id m with [] => [] | code_id => [InfoRecord (lit "CODE_ID " ++ code_id)] end.

Definition file_records (m : DumpModule) (np : cstring * file_ptr) : list record :=
  if 0 <=? file_id m np.2 then [FileRecord (file_id m np.2) np.1] else [].

Definition line_record (m : DumpModule) (l : MLine) : record :=
  LineRecord (rel m (mline_address l)) (mline_size l) (mline_number l) (file_id m (mline_file l)).

Definition function_records (m : DumpModule) (f : MFunction) : list record :=
  FuncRecord (rel m (mfunc_address f)) (mfunc_size f) (mfunc_parameter_size f) (mfunc_name f) ::
  (line_record m <$> mfunc_lines f).

Definition extern_record (m : DumpModule) (e : Z * cstring) : record := PublicRecord (rel m e.1) 0 e.2.

Definition entry_records (m : DumpModule) (e : StackFrameEntry) : list record :=
  StackCfiInitRecord (rel m (entry_address e)) (entry_size e) (rule_map_text (initial_rules e)) ::
  ((λ d, StackCfiRecord (rel m d.1) (rule_map_text d.2)) <$> rule_changes e).

Definition symbol_records (m : DumpModule) : list record :=
  (mod_files m ≫= file_records m) ++ (mod_functions m ≫= function_records m) ++ (extern_record m <$> mod_externs m).

Definition cfi_records (m : DumpModule) : list record := mod_stack_frame_entries m ≫= entry_records m.

Definition module_records (m : DumpModule) (symbol_data : SymbolData) : list record :=
  header_records m ++ (if has_symbols symbol_data then symbol_records m else []) ++
  (if has_cfi symbol_data then cfi_records m else []).

Definition text_of (rs : list record) : cstring := render (print_record <$> rs).

Lemma text_of_app rs rs' : text_of (rs ++ rs') = text_of rs ++ text_of rs'.
Proof. unfold text_of, render. by rewrite !fmap_app, concat_app. Qed.

Lemma text_of_cons r rs : text_of (r :: rs) = (print_record r ++ [LF]) ++ text_of rs.
Proof. done. Qed.

Lemma text_of_bind {A} (f : A -> list record) l : text_of (l ≫= f) = concat ((λ a, text_of (f a)) <$> l).
Proof. induction l as [|a l IH]; [done|]. cbn [mbind list_bind fmap list_fmap concat]. by rewrite text_of_app, <- IH. Qed.

Lemma text_of_fmap {A} (f : A -> record) l : text_of (f <$> l) = concat ((λ a, print_record (f a) ++ [LF]) <$> l).
Proof. unfold text_of, render. by rewrite <- !list_fmap_compose. Qed.

(** Both sides of an equation between texts, as a sum of their pieces. *)
Ltac flat :=
  cbn [print_record app join]; unfold line_end, relative, rel;
  repeat (progress (rewrite <- ?(assoc_L (++)), ?app_nil_r; cbn [app])); try done.

Lemma print_int_nonneg z : 0 <= z -> print_int z = print_dec z.
Proof. intros. unfold print_int. by destruct (Z.ltb_spec z 0); [lia|]. Qed.

(** The files the lines cite have source ids. *)
Record numbered_ok (m : DumpModule) : Prop := {
  no_files : forall n p, (n, p) ∈ mod_files m -> exists f, mod_file_heap m !! p = Some f /\ file_name f = n;
  no_lines : forall f l, f ∈ mod_functions m -> l ∈ mfunc_lines f ->
    0 <= mline_number l /\ exists g, mod_file_heap m !! mline_file l = Some g /\ 0 <= source_id g
}.

Lemma emits_files m : numbered_ok m -> emits (for_each (snd <$> mod_files m) (WriteFile m)) (text_of (mod_files m ≫= file_records m)).
Proof.
  intros [Hf _]. rewrite text_of_bind.
  assert (Hgen: forall l, (forall n p, (n, p) ∈ l -> exists f, mod_file_heap m !! p = Some f /\ file_name f = n) ->
    emits (for_each (snd <$> l) (WriteFile m)) (concat ((λ a, text_of (file_records m a)) <$> l))); [|by apply Hgen].
  induction l as [|[n p] l IH]; intros Hl; [apply emits_done|]. cbn [fmap list_fmap for_each foldr concat snd].
  apply emits_then; [|apply IH; intros; apply Hl; by right].
  destruct (Hl n p ltac:(left)) as (f & Hp & <-). unfold WriteFile, file_records, file_id. cbn [fst snd]. rewrite Hp.
  destruct (0 <=? source_id f) eqn:E; [|apply emits_done]. breflect.
  eapply emits_eq; [apply emits_then; [apply emits_writes|apply emits_check]|].
  rewrite print_int_nonneg by done. rewrite text_of_cons. flat.
Qed.

Lemma emits_function m f : numbered_ok m -> f ∈ mod_functions m -> emits (WriteFunction m f) (text_of (function_records m f)).
Proof.
  intros [_ Hl] Hf. unfold WriteFunction, function_records. rewrite text_of_cons, text_of_fmap.
  apply emits_then; [eapply emits_eq; [apply emits_writes|]|].
  { flat. }
  eapply emits_eq; [apply emits_then; [apply emits_check|]|apply app_nil_l].
  apply emits_each. intros l Hin. destruct (Hl f l Hf Hin) as (Hn & g & Hg & Hid).
  unfold WriteLine, line_record, file_id. rewrite Hg.
  eapply emits_eq; [apply emits_then; [apply emits_writes|apply emits_check]|].
  rewrite !print_int_nonneg by done. flat.
Qed.

Lemma emits_symbols m : numbered_ok m -> emits (WriteSymbols m) (text_of (symbol_records m)).
Proof.
  intros Hm. unfold WriteSymbols, symbol_records. rewrite !text_of_app.
  apply emits_then; [by apply emits_files|]. apply emits_then.
  - rewrite text_of_bind. apply emits_each. intros f Hf. by apply emits_function.
  - rewrite text_of_fmap. apply emits_each. intros [a n] _. eapply emits_eq; [apply emits_writes|].
    change (lit " 0 ") with ([SP] ++ print_hex 0 ++ [SP]).
    unfold extern_record. cbn [fst snd]. flat.
Qed.

(** The end of a STACK CFI line. *)
Lemma emits_rule_line p rules w t :
  emits w t -> emits (writes p ;;; check_good ;;; WriteRuleMap rules ;;; w) (p ++ rule_map_text rules ++ t).
Proof.
  intros Hw. apply emits_then; [apply emits_writes|]. eapply emits_eq; [|apply app_nil_l].
  apply emits_then; [apply emits_check|]. by apply emits_then; [apply emits_rules|].
Qed.

Lemma emits_entry m e : emits (WriteEntry m e) (text_of (entry_records m e)).
Proof.
  unfold WriteEntry, entry_records. rewrite text_of_cons, text_of_fmap.
  eapply emits_eq; [apply emits_rule_line, emits_then; [apply emits_writes|]|].
  - apply emits_each. intros d _. eapply emits_eq; [apply emits_rule_line, emits_writes|].
    instantiate (1 := λ d, print_record (StackCfiRecord (rel m d.1) (rule_map_text d.2)) ++ [LF]).
    flat.
  - flat.
Qed.

Lemma emits_header m : emits (WriteHeader m) (text_of (header_records m)).
Proof.
  unfold WriteHeader, header_records. rewrite text_of_cons.
  eapply emits_eq; [apply emits_then; [apply emits_writes|apply emits_then; [apply emits_check|]]|].
  - instantiate (1 := match mod_code_id m with [] => [] | code_id => lit "INFO CODE_ID " ++ code_id ++ line_end end).
    destruct (mod_code_id m); [apply emits_done|apply emits_writes].
  - destruct (mod_code_id m); [|rewrite text_of_cons]; change (text_of []) with ([] : cstring); flat.
Qed.

(** ** Properties *)

Lemma AssignSourceIds_numbered m :
  dump_ok m -> (forall f l, f ∈ mod_functions m -> l ∈ mfunc_lines f -> 0 <= mline_number l) -> numbered_ok (AssignSourceIds m).
Proof.
  intros Hok Hl. split.
  - intros n p Hin. cbn [mod_files AssignSourceIds with_files] in Hin.
    apply list_elem_of_lookup in Hin as [i Hi]. rewrite (AssignSourceIds_spec m i n p) by done. by eexists.
  - intros f l Hf Hin. cbn [mod_functions AssignSourceIds with_files] in Hf. split; [by eapply Hl|].
    destruct (do_lines _ Hok f l Hf Hin) as [n Hn]. apply list_elem_of_lookup in Hn as [i Hi].
    rewrite (AssignSourceIds_spec m i n _) by done. eexists. split; [reflexivity|]. cbn [source_id].
    rewrite decide_True; [unfold file_rank; lia|]. unfold cited_files. apply list_elem_of_bind.
    exists f. split; [|done]. apply list_elem_of_fmap. by exists l.
Qed.

Lemma Write_emits m symbol_data :
  dump_ok m -> (forall f l, f ∈ mod_functions m -> l ∈ mfunc_lines f -> 0 <= mline_number l) ->
  emits (Write m symbol_data) (text_of (module_records (numbered m symbol_data) symbol_data)).
Proof.
  intros Hok Hl. unfold Write, module_records. rewrite !text_of_app.
  assert (Hrel: header_records (numbered m symbol_data) = header_records m /\ cfi_records (numbered m symbol_data) = cfi_records m)
    by (unfold numbered; by destruct (has_symbols symbol_data)).
  destruct Hrel as [-> ->]. apply emits_then; [|apply emits_then].
  - apply emits_header.
  - unfold numbered. destruct (has_symbols symbol_data); [|apply emits_done].
    by apply emits_symbols, AssignSourceIds_numbered.
  - destruct (has_cfi symbol_data); [|apply emits_done]. unfold cfi_records. rewrite text_of_bind.
    apply emits_each. intros e _. apply emits_entry.
Qed.

(** [AssignSourceIds] numbers the files that lines cite 0, 1, 2, ... in the order
    of their names, gives every other file the id -1, and changes no name. *)
Lemma assign_source_ids (m : DumpModule) i n p :
  dump_ok m -> mod_files m !! i = Some (n, p) ->
  mod_files (AssignSourceIds m) = mod_files m /\
  mod_file_heap (AssignSourceIds m) !! p =
  Some (mkMFile n (if decide (p ∈ cited_files m)
                   then Z.of_nat (length (filter (.∈ cited_files m) (take i (snd <$> mod_files m)))) else -1)).
Proof. intros Hok Hi. split; [done|]. by apply AssignSourceIds_spec. Qed.

(** [Write] puts on the stream the lines of the records of the module, in order,
    as far as the stream accepts them, and it reports failure only when the stream
    failed; on a stream that accepts everything it succeeds. *)
Lemma module_write (m : DumpModule) (symbol_data : SymbolData) (o : ostream) :
  built m -> (forall f l, f ∈ mod_functions m -> l ∈ mfunc_lines f -> 0 <= mline_number l) ->
  let text := render (print_record <$> module_records (numbered m symbol_data) symbol_data) in
  exists ok o' t, Write m symbol_data o = Ok (ok, o') /\ written o' = written o ++ t /\ t `prefix_of` text /\
    (good o' = true -> ok = true /\ t = text) /\
    (good o = true -> match room o with None => True | Some n => (length text <= n)%nat end -> good o' = true).
Proof.
  intros Hm Hl text. destruct (Write_emits m symbol_data (built_ok m Hm) Hl o) as (ok & E & Hg).
  destruct (put_written text o) as (t & Ht & Hp & Hgt). exists ok, (put text o), t. split_and!; try done.
  - intros Hgood. split; [by apply Hg|by apply Hgt].
  - intros Hgo Hr. unfold put. rewrite Hgo. cbn [negb]. destruct (room o); [|done]. by rewrite (proj2 (Nat.leb_le _ _)).
Qed.

Lemma emits_good w s o : emits w s -> good (put s o) = true -> w o = Ok (true, put s o).
Proof. intros Hw Hg. destruct (Hw o) as (ok & E & Hok). by rewrite E, (Hok Hg). Qed.

(** The PUBLIC records are written to any stream without an error. *)
Lemma externs_unchecked m es o :
  for_each es (WriteExtern m) o = Ok (true, put (text_of (extern_record m <$> es)) o).
Proof.
  revert o. induction es as [|[a n] es IH]; intros o; [unfold for_each; cbn; by rewrite put_nil|].
  change (for_each ((a, n) :: es) (WriteExtern m) o) with
    (for_each es (WriteExtern m) (put (lit "PUBLIC " ++ relative m a ++ lit " 0 " ++ n ++ line_end) o)).
  rewrite IH, put_app. do 3 f_equal. cbn [fmap list_fmap]. rewrite text_of_cons.
  f_equal. unfold extern_record. cbn [fst snd]. change (lit " 0 ") with ([SP] ++ print_hex 0 ++ [SP]). flat.
Qed.

Lemma put_room s o n : good o = true -> room o = Some n -> good (put s o) = (length s <=? n)%nat.
Proof. intros Hg Hr. unfold put. rewrite Hg, Hr. cbn [negb]. by destruct (length s <=? n)%nat. Qed.

(** C40: an error that [Write] does not report: without call frame information it
    succeeds on a stream that has no room for the last character of the last PUBLIC
    record, and leaves a truncated file. *)
Theorem write_unreported (m : DumpModule) (o : ostream) :
  built m -> (forall f l, f ∈ mod_functions m -> l ∈ mfunc_lines f -> 0 <= mline_number l) ->
  mod_externs m <> [] ->
  let text := render (print_record <$> module_records (numbered m NO_CFI) NO_CFI) in
  good o = true -> room o = Some (pred (length text)) ->
  exists o', Write m NO_CFI o = Ok (true, o') /\ good o' = false.
Proof.
  intros Hm Hl He text Hgo Hr. pose proof (built_ok m Hm) as Hok. pose proof (AssignSourceIds_numbered m Hok Hl) as Hn.
  set (m' := AssignSourceIds m) in *. set (A := text_of (header_records m)).
  set (B := text_of (mod_files m' ≫= file_records m')). set (D := text_of (mod_functions m' ≫= function_records m')).
  set (X := text_of (extern_record m' <$> mod_externs m')).
  assert (Htext: text = A ++ B ++ D ++ X).
  { unfold text. change (render (print_record <$> ?r)) with (text_of r). unfold module_records, symbol_records.
    cbn [numbered has_symbols has_cfi]. fold m'. rewrite !text_of_app. change (text_of []) with ([] : cstring).
    rewrite app_nil_r. done. }
  assert (HX: (0 < length X)%nat).
  { unfold X. change (mod_externs m') with (mod_externs m). destruct (mod_externs m) as [|e es]; [done|].
    cbn [fmap list_fmap]. rewrite text_of_cons, !length_app. simpl. lia. }
  assert (Hlen: (length A + length B + length D + length X = length text)%nat) by (rewrite Htext, !length_app; lia).
  assert (Hput: forall s, (length s < length text)%nat -> good (put s o) = true)
    by (intros s Hs; rewrite (put_room _ _ _ Hgo Hr); apply Nat.leb_le; lia).
  exists (put text o). split; [|rewrite (put_room _ _ _ Hgo Hr); apply Nat.leb_gt; lia].
  unfold Write. cbn [has_symbols has_cfi]. fold m'. unfold then_write at 1.
  rewrite (emits_good _ A); [|apply emits_header|apply Hput; lia]. rewrite bind_Ok. cbv beta iota.
  unfold then_write at 1, WriteSymbols. unfold then_write at 1.
  rewrite (emits_good _ B); [|by apply emits_files|rewrite put_app; apply Hput; rewrite length_app; lia].
  rewrite bind_Ok. cbv beta iota. unfold then_write at 1. rewrite put_app.
  rewrite (emits_good _ D); [|unfold D; rewrite text_of_bind; apply emits_each; intros; by apply emits_function
    |rewrite put_app; apply Hput; rewrite !length_app; lia].
  rewrite bind_Ok. cbv beta iota. rewrite externs_unchecked, put_app, bind_Ok. cbv beta iota. unfold done_writing.
  rewrite put_app. fold X. by rewrite Htext, <- !(assoc_L (++)).
Qed.

(** ** Witnesses *)

Lemma assign_source_ids_witness :
  source_id <$> mod_file_heap (AssignSourceIds demo_module) !! 0%nat = Some 0 /\
  source_id <$> mod_file_heap (AssignSourceIds demo_module) !! 1%nat = Some (-1).
Proof.
  destruct (assign_source_ids demo_module 0%nat (lit "src/a b.c") 0%nat (built_ok _ demo_built) ltac:(reflexivity)) as [_ ->].
  destruct (assign_source_ids demo_module 1%nat (lit "src/a b.h") 1%nat (built_ok _ demo_built) ltac:(reflexivity)) as [_ ->].
  split; reflexivity.
Defined.

Lemma module_write_witness :
  exists o', Write demo_module ALL_SYMBOL_DATA (mkOstream [] None true) = Ok (true, o') /\
    written o' = lit "MODULE Linux x86 ABCD a.out" ++ [LF] ++ lit "FILE 0 src/a b.c" ++ [LF] ++
      lit "FUNC 1000 20 8 main(int, char**)" ++ [LF] ++ lit "1000 10 12 0" ++ [LF] ++ lit "1010 10 13 0" ++ [LF] ++
      lit "PUBLIC 2000 0 _start" ++ [LF].
Proof.
  destruct (module_write demo_module ALL_SYMBOL_DATA (mkOstream [] None true) demo_built
    (λ f l Hf Hl, proj1 (proj2 (demo_lines f l Hf Hl)))) as (ok & o' & t & E & Hw & _ & Hgood & Hroom).
  destruct (Hgood (Hroom eq_refl I)) as [-> ->]. exists o'. split; [exact E|]. rewrite Hw. vm_compute. reflexivity.
Defined.

Lemma write_unreported_witness :
  let text := render (print_record <$> module_records (numbered demo_module NO_CFI) NO_CFI) in
  exists o', Write demo_module NO_CFI (mkOstream [] (Some (pred (length text))) true) = Ok (true, o') /\ good o' = false.
Proof.
  intros text. apply (write_unreported demo_module); [exact demo_built| | |reflexivity|reflexivity].
  - intros f l Hf Hl. apply (demo_lines f l Hf Hl).
  - intros E. vm_compute in E. discriminate E.
Defined.
