(* ===== verification/DumpLoad.v ===== *)
(** From the dumper to the processor: the symbol file that [Module::Write]
    (DumpWrite.v) produces, loaded by [BasicSourceLineResolver] (BasicResolver.v),
    gives back the functions, files and lines of the module. *)
From Stdlib Require Import Ascii.
From stdpp Require Import strings sorting list.
From S2P Require Import Prelude StdMap RangeMap AddressMap ContainedRangeMap CStr StrMap MemoryRegion PostfixEvaluator CfiFrameInfo SymbolFile BasicResolver BasicInvariant SymbolLoad ResolverLookup DumpModule DumpWrite.

(** ** Storing disjoint ranges *)

(** Address ranges, as base and size, that are not empty and have no address in common. *)
Definition proper_range (x : Z * Z) : Prop := 0 <= x.1 /\ 0 < x.2 < 2 ^ 64 /\ x.1 + x.2 <= 2 ^ 64.

Definition apart (x y : Z * Z) : Prop := x.1 + x.2 <= y.1 \/ y.1 + y.2 <= x.1.

Definition separate (l : list (Z * Z)) : Prop := Forall proper_range l /\ ForallOrdPairs apart l.

Section store_all.
Context {E : Type}.
Implicit Types (m : RangeMap E) (l : list (Z * Z * E)).

Definition store_all l m : RangeMap E := foldl (λ m '(b, s, e), (StoreRange 64 m b s e).2) m l.

Lemma store_all_spec l : forall m,
  rm_ok 64 m -> enable_shrink_down m = false -> separate l.*1 ->
  (forall h r b s e, (h, r) ∈ rmap m -> (b, s, e) ∈ l -> h < b \/ b + s <= rbase r) ->
  rm_ok 64 (store_all l m) /\ enable_shrink_down (store_all l m) = false /\
  forall h r, (h, r) ∈ rmap (store_all l m) <->
    (h, r) ∈ rmap m \/ exists b s e, (b, s, e) ∈ l /\ h = b + s - 1 /\ r = mkRange b 0 e.
Proof.
  induction l as [|[[b s] e] l IH]; intros m Hok Hsd [Hp Hd] Hfree.
  { split_and!; try done. intros h r. cbn. split; [by left|]. intros [?|(? & ? & ? & ?%not_elem_of_nil & _)]; done. }
  inversion Hp as [|? ? (Hb & Hs & Hend) Hp']; subst. inversion Hd as [|? ? Hd1 Hd']; subst. cbn in Hb, Hs, Hend.
  rewrite Forall_forall in Hd1. cbn [store_all foldl]. assert (Hfb: fits 64 b) by (unfold fits; lia). assert (Hfs: fits 64 s) by (unfold fits; lia).
  pose proof (StoreRange_ok 64 ltac:(lia) m b s e Hok Hfb Hfs) as Hok'.
  pose proof (StoreRange_shrink m b s e Hok Hsd Hfb Hfs) as Hsd'.
  assert (Hin: forall h r, (h, r) ∈ rmap (StoreRange 64 m b s e).2 <-> (h, r) ∈ rmap m \/ (h = b + s - 1 /\ r = mkRange b 0 e)).
  { intros h r. rewrite StoreRange_plain by (done || lia). rewrite decide_True.
    - cbn [snd rmap]. rewrite elem_of_insert.
      + split; [intros [[= -> ->]|?]; auto|]. intros [?|[-> ->]]; auto.
      + by apply (ok_sorted 64).
      + intros v Hv. pose proof (ok_range 64 _ Hok _ _ Hv) as (_ & ? & _).
        destruct (Hfree _ _ _ _ _ Hv ltac:(left)); lia.
    - split_and!; [lia|lia|]. intros h' r' Hin'. destruct (Hfree _ _ _ _ _ Hin' ltac:(left)); [by left|right; lia]. }
  destruct (IH _ Hok' Hsd' (conj Hp' Hd')) as (H1 & H2 & H3).
  { intros h r b' s' e' Hr Hl'. apply Hin in Hr as [Hr|[-> ->]]; [eapply Hfree; [done|by right]|].
    specialize (Hd1 (b', s') ltac:(apply list_elem_of_fmap; by exists (b', s', e'))). unfold apart in Hd1. cbn in Hd1. cbn [rbase]. lia. }
  split_and!; [done..|]. intros h r. etrans; [apply H3|]. rewrite Hin. split.
  - intros [[?|[-> ->]]|(b' & s' & e' & ? & ?)]; [by left|right; exists b, s, e; split; [left|done]|].
    right. exists b', s', e'. split; [by right|done].
  - intros [?|(b' & s' & e' & [[= -> -> ->]|?]%elem_of_cons & ?)]; [by left; left|by left; right|].
    right. by exists b', s', e'.
Qed.

(** From an empty map. *)
Lemma store_all_new l :
  separate l.*1 ->
  rm_ok 64 (store_all l RangeMap_new) /\
  forall h r, (h, r) ∈ rmap (store_all l RangeMap_new) <-> exists b s e, (b, s, e) ∈ l /\ h = b + s - 1 /\ r = mkRange b 0 e.
Proof.
  intros Hp. destruct (store_all_spec l RangeMap_new) as (? & _ & Hin); try done; [apply rm_ok_new|by intros ? ? ? ? ? ?%not_elem_of_nil|].
  split; [done|]. intros h r. rewrite Hin. split; [intros [?%not_elem_of_nil|?]; done|by right].
Qed.
End store_all.

(** ** The module the records build *)

Definition loaded_line (m : DumpModule) (l : MLine) : Line :=
  Line_new (rel m (mline_address l)) (mline_size l) (file_id m (mline_file l)) (mline_number l).

Definition line_range (m : DumpModule) (l : MLine) : Z * Z * Line := (rel m (mline_address l), mline_size l, loaded_line m l).

Definition loaded_func (m : DumpModule) (f : MFunction) : Func :=
  mkFunc (mfunc_name f) (rel m (mfunc_address f)) (mfunc_size f) (s32 (mfunc_parameter_size f))
    (store_all (line_range m <$> mfunc_lines f) RangeMap_new).

(** The functions with the pointers they get. *)
Fixpoint function_ranges (m : DumpModule) (p : func_ptr) (fs : list MFunction) : list (Z * Z * func_ptr) :=
  match fs with
  | [] => []
  | f :: fs => (rel m (mfunc_address f), mfunc_size f, p) :: function_ranges m (S p) fs
  end.

Lemma function_ranges_elem m fs : forall p b s q,
  (b, s, q) ∈ function_ranges m p fs <->
  exists i f, fs !! i = Some f /\ q = (p + i)%nat /\ b = rel m (mfunc_address f) /\ s = mfunc_size f.
Proof.
  induction fs as [|f fs IH]; intros p b s q; cbn [function_ranges].
  - split; [by intros ?%not_elem_of_nil|]. by intros (i & f & ? & _).
  - rewrite elem_of_cons, IH. split.
    + intros [[= -> -> ->]|(i & g & Hg & -> & -> & ->)].
      * exists O, f. split_and!; try done; lia.
      * exists (S i), g. split_and!; try done; lia.
    + intros (i & g & Hg & -> & -> & ->). destruct i as [|i].
      * injection Hg as ->. left. f_equal. lia.
      * right. exists i, g. split_and!; try done; lia.
Qed.

Lemma apply_records_step bm cur r rs bm' cur' :
  apply_record bm cur r = (bm', cur', false) -> apply_records bm cur 0 (r :: rs) = apply_records bm' cur' 0 rs.
Proof. intros E. cbn [apply_records]. rewrite E. done. Qed.

Lemma set_functions_same bm : set_functions bm (functions_ bm) (func_heap bm) = bm.
Proof. by destruct bm. Qed.

Lemma apply_lines m ls : forall bm f H rest,
  func_heap bm = H ++ [f] ->
  apply_records bm (Some (length H)) 0 ((line_record m <$> ls) ++ rest) =
  apply_records (set_functions bm (functions_ bm) (H ++ [set_lines f (store_all (line_range m <$> ls) (lines f))]))
    (Some (length H)) 0 rest.
Proof.
  induction ls as [|l ls IH]; intros bm f H rest Hh; cbn [fmap list_fmap app].
  - cbn [store_all foldl]. replace (set_lines f (lines f)) with f by (by destruct f). by rewrite <- Hh, set_functions_same.
  - rewrite (apply_records_step _ _ _ _ (add_line bm (length H) (loaded_line m l)) (Some (length H))) by done.
    erewrite (IH _ _ H rest).
    2: { cbn [func_heap add_line set_functions]. rewrite Hh, alter_app_r_alt, Nat.sub_diag by done. reflexivity. }
    done.
Qed.

Lemma apply_functions m fs : forall bm cur rest,
  exists cur', apply_records bm cur 0 ((fs ≫= function_records m) ++ rest) =
  apply_records (set_functions bm (store_all (function_ranges m (length (func_heap bm)) fs) (functions_ bm))
                   (func_heap bm ++ (loaded_func m <$> fs))) cur' 0 rest.
Proof.
  induction fs as [|f fs IH]; intros bm cur rest.
  - exists cur. cbn [mbind list_bind app fmap list_fmap function_ranges store_all foldl].
    by rewrite app_nil_r, set_functions_same.
  - cbn [mbind list_bind fmap list_fmap]. rewrite <- (assoc_L (++)). unfold function_records at 1. cbn [app].
    set (g := Func_new (mfunc_name f) (rel m (mfunc_address f)) (mfunc_size f) (mfunc_parameter_size f)).
    rewrite (apply_records_step _ _ _ _ (add_function bm g).1 (add_function bm g).2) by done.
    cbn [add_function fst snd].
    rewrite (apply_lines m (mfunc_lines f) _ g (func_heap bm)) by done.
    match goal with |- context [apply_records ?b ?c 0 _] => destruct (IH b c rest) as [cur' E] end.
    exists cur'. etrans; [exact E|]. f_equal. cbn [set_functions functions_ func_heap name_ files_ public_symbols_ is_corrupt_
      windows_frame_info_ cfi_initial_rules_ cfi_delta_rules_].
    rewrite length_app. cbn [length]. rewrite Nat.add_1_r. unfold set_functions at 1 2.
    cbn [name_ files_ public_symbols_ is_corrupt_ windows_frame_info_ cfi_initial_rules_ cfi_delta_rules_ functions_ func_heap].
    f_equal. rewrite <- (assoc_L (++)). done.
Qed.

(** The FILE records. *)
Definition loaded_files (m : DumpModule) (files : strmap file_ptr) (t : smap cstring) : smap cstring :=
  foldl (λ t np, if 0 <=? file_id m np.2 then insert t (s32 (file_id m np.2)) np.1 else t) t files.

Lemma set_files_same bm : set_files bm (files_ bm) = bm.
Proof. by destruct bm. Qed.

Lemma apply_files m files : forall bm cur rest,
  apply_records bm cur 0 ((files ≫= file_records m) ++ rest) =
  apply_records (set_files bm (loaded_files m files (files_ bm))) cur 0 rest.
Proof.
  induction files as [|[n p] files IH]; intros bm cur rest.
  - cbn [mbind list_bind app loaded_files foldl]. by rewrite set_files_same.
  - cbn [mbind list_bind]. rewrite <- (assoc_L (++)). unfold file_records at 1. cbn [fst snd].
    cbn [loaded_files foldl fst snd]. destruct (0 <=? file_id m p) eqn:Ep; cbn [app].
    + rewrite (apply_records_step _ _ _ _ (set_files bm (insert (files_ bm) (s32 (file_id m p)) n)) cur) by done.
      rewrite IH. done.
    + by rewrite IH.
Qed.

(** The PUBLIC records, none of which repeats an address. *)
Definition loaded_publics (m : DumpModule) (es : smap cstring) (t : AddressMap PublicSymbol) : AddressMap PublicSymbol :=
  foldl (λ t e, if rel m e.1 =? 0 then t else (Store t (rel m e.1) (PublicSymbol_new e.2 (rel m e.1) 0)).2) t es.

Lemma apply_publics m es : forall bm cur rest,
  sorted (amap (public_symbols_ bm)) -> NoDup ((λ e, rel m e.1) <$> es) ->
  (forall k p, (k, p) ∈ amap (public_symbols_ bm) -> k ∉ (λ e, rel m e.1) <$> es) ->
  exists cur', apply_records bm cur 0 ((extern_record m <$> es) ++ rest) =
  apply_records (set_publics bm (loaded_publics m es (public_symbols_ bm))) cur' 0 rest.
Proof.
  induction es as [|[a n] es IH]; intros bm cur rest Hs Hnd Hfree.
  - exists cur. cbn [fmap list_fmap app loaded_publics foldl]. by destruct bm.
  - cbn [fmap list_fmap fst] in Hnd. apply NoDup_cons in Hnd as [Hni Hnd]. cbn [fmap list_fmap app loaded_publics foldl fst snd].
    destruct (rel m a =? 0) eqn:E0.
    + rewrite (apply_records_step _ _ _ _ bm None) by (unfold extern_record; cbn [fst snd apply_record]; by rewrite E0).
      destruct (IH bm None rest Hs Hnd) as [cur' E]; [|by exists cur'].
      intros k p Hin Hk. apply (Hfree k p Hin). cbn. by right.
    + pose proof (Store_spec (public_symbols_ bm) (rel m a) (PublicSymbol_new n (rel m a) 0) Hs) as Hst.
      destruct (Store (public_symbols_ bm) (rel m a) (PublicSymbol_new n (rel m a) 0)) as [ok t] eqn:Et.
      destruct Hst as (Hs' & Hok & _ & Ht).
      assert (ok = true) as ->.
      { apply Hok. intros e Hin. apply (Hfree _ _ Hin). cbn. by left. }
      specialize (Ht eq_refl).
      rewrite (apply_records_step _ _ _ _ (set_publics bm t) None)
        by (unfold extern_record; cbn [fst snd apply_record]; by rewrite E0, Et).
      destruct (IH (set_publics bm t) None rest) as [cur' E]; try done.
      * cbn [public_symbols_ set_publics]. intros k p Hin Hk. apply Ht in Hin as [[= -> ->]|Hin]; [done|].
        apply (Hfree k p Hin). cbn. by right.
      * exists cur'. rewrite E. done.
Qed.

(** The modules whose symbol file the processor can read. *)
Definition clean (s : cstring) : Prop := all (λ c, negb (in_set CRLF c)) s /\ no_nul s.

Definition symbol_text_ok (s : cstring) : Prop := is_text s /\ no_nul s.

Record loadable (m : DumpModule) : Prop := {
  ld_header : Forall clean [mod_os m; mod_architecture m; mod_id m; mod_name m; mod_code_id m];
  ld_files : forall n p, (n, p) ∈ mod_files m -> symbol_text_ok n;
  ld_count : Z.of_nat (length (mod_files m)) < 2 ^ 31;
  ld_functions : forall f, f ∈ mod_functions m ->
    symbol_text_ok (mfunc_name f) /\ rel m (mfunc_address f) < ULLONG_MAX /\ 0 <= mfunc_size f < ULLONG_MAX /\
    0 <= mfunc_parameter_size f < LONG_MAX;
  ld_lines : forall f l, f ∈ mod_functions m -> l ∈ mfunc_lines f ->
    rel m (mline_address l) < ULLONG_MAX /\ 0 <= mline_size l < ULLONG_MAX /\ 0 <= mline_number l < 2 ^ 31;
  ld_externs : forall a n, (a, n) ∈ mod_externs m -> rel m a < ULLONG_MAX /\ symbol_text_ok n;
  ld_entries : forall e, e ∈ mod_stack_frame_entries m ->
    fits 64 (entry_size e) /\ symbol_text_ok (rule_map_text (initial_rules e)) /\
    forall d, d ∈ rule_changes e -> symbol_text_ok (rule_map_text d.2)
}.

(** *** The text of its records *)

Lemma no_nul_num base z : 2 <= base <= 16 -> 0 <= z -> no_nul (print_num base z).
Proof.
  intros Hb Hz. destruct (print_num_digits base z ltac:(lia) Hz) as (_ & Hall & _).
  eapply Forall_impl; [exact Hall|]. intros c Hc. unfold is_digit in Hc. destruct (digit_val base c) eqn:E; [|done].
  unfold digit_val in E. apply negb_true_iff, Z.eqb_neq. intros Ec. rewrite Ec in E. cbn in E.
  destruct (36 <? base) eqn:E2; breflect; [lia|done].
Qed.

Lemma no_nul_app a b : no_nul a -> no_nul b -> no_nul (a ++ b).
Proof. intros. by apply Forall_app_2. Qed.

Lemma no_nul_join ts : Forall no_nul ts -> no_nul (join ts).
Proof.
  induction 1 as [|t ts Ht _ IH]; [constructor|]. destruct ts as [|t' ts]; [done|].
  cbn [join]. apply no_nul_app; [done|]. by constructor.
Qed.

(** A record the module writes, with its texts. *)
Definition writable (r : record) : Prop :=
  record_ok r /\
  match r with
  | ModuleRecord t | InfoRecord t | FileRecord _ t | FuncRecord _ _ _ t | PublicRecord _ _ t
  | StackCfiInitRecord _ _ t | StackCfiRecord _ t => no_nul t
  | LineRecord _ _ _ _ => True
  | StackWinRecord _ _ _ => False
  end.

Lemma writable_no_nul r : writable r -> no_nul (print_record r).
Proof.
  assert (Hk: forall k t, forallb (λ c, negb (code c =? 0)) k = true -> no_nul t -> no_nul (k ++ t))
    by (intros k t Hk Ht; apply no_nul_app; [by apply all_forallb|done]).
  intros [Hr Ht]. destruct r; cbn [record_ok] in Hr; unfold fits in Hr; try done;
    try (apply Hk; [done|]); try done; apply no_nul_join;
    repeat (apply Forall_cons; split; [first [done|apply no_nul_num; lia]|]); apply Forall_nil_2.
Qed.

Lemma clean_app a b : clean a -> clean b -> clean (a ++ b).
Proof. intros [? ?] [? ?]. split; [by apply Forall_app_2|by apply no_nul_app]. Qed.

Lemma rel_range m a : 0 <= rel m a < 2 ^ 64.
Proof. by apply wrap_range. Qed.

Section loadable_proofs.
Context (m : DumpModule) (Hok : dump_ok m) (Hl : loadable m).

Lemma header_writable : Forall writable (header_records m).
Proof.
  pose proof (ld_header m Hl) as Hh. inversion Hh as [|? ? H1 Hh1]; subst. inversion Hh1 as [|? ? H2 Hh2]; subst.
  inversion Hh2 as [|? ? H3 Hh3]; subst. inversion Hh3 as [|? ? H4 Hh4]; subst. inversion Hh4 as [|? ? H5 _]; subst.
  assert (Hsp: clean [SP]) by (split; by apply all_forallb).
  assert (Hw: forall t, clean t -> record_ok (ModuleRecord t) /\ no_nul t) by (by intros t [? ?]).
  unfold header_records. apply Forall_cons. split; [apply Hw; repeat apply clean_app; done|].
  destruct (mod_code_id m) as [|c cs] eqn:Ec; [constructor|]. apply Forall_cons. split; [|constructor].
  apply Hw, clean_app; [split; by apply all_forallb|done].
Qed.

Lemma file_id_range i n p : mod_files m !! i = Some (n, p) -> -1 <= file_id (AssignSourceIds m) p < 2 ^ 31.
Proof.
  intros Hi. unfold file_id. rewrite (AssignSourceIds_spec m i n p) by done. cbn [source_id].
  case_decide; [|lia]. unfold file_rank. pose proof (ld_count m Hl).
  pose proof (length_filter (.∈ cited_files m) (take i (snd <$> mod_files m))) as Hf.
  rewrite length_take, length_fmap in Hf. lia.
Qed.

Lemma cited_id f l : f ∈ mod_functions m -> l ∈ mfunc_lines f -> 0 <= file_id (AssignSourceIds m) (mline_file l) < 2 ^ 31.
Proof.
  intros Hf Hin. destruct (do_lines _ Hok f l Hf Hin) as [n Hn]. apply list_elem_of_lookup in Hn as [i Hi].
  pose proof (file_id_range i n _ Hi) as Hr. revert Hr. unfold file_id. rewrite (AssignSourceIds_spec m i n _) by done.
  cbn [source_id]. rewrite decide_True; [unfold file_rank; lia|]. apply list_elem_of_bind. exists f. split; [|done].
  apply list_elem_of_fmap. by exists l.
Qed.

Lemma symbols_writable : Forall writable (symbol_records (AssignSourceIds m)).
Proof.
  unfold symbol_records. apply Forall_app_2; [|apply Forall_app_2]; apply Forall_forall.
  - intros r (np & Hr & Hin)%list_elem_of_bind. destruct np as [n p]. unfold file_records in Hr. cbn [fst snd] in Hr.
    apply list_elem_of_lookup in Hin as [i Hi]. pose proof (file_id_range i n p Hi) as Hid.
    destruct (0 <=? _) eqn:E; [|by apply not_elem_of_nil in Hr]. breflect. apply list_elem_of_singleton in Hr as ->.
    destruct (ld_files m Hl n p) as [Ht Hn]; [apply list_elem_of_lookup; by exists i|].
    split; [|done]. split; [unfold LONG_MAX; lia|done].
  - intros r (f & Hr & Hf)%list_elem_of_bind. cbn [mod_functions AssignSourceIds with_files] in Hf.
    destruct (ld_functions m Hl f Hf) as ([Ht Hn] & Ha & Hs & Hp). unfold function_records in Hr.
    apply elem_of_cons in Hr as [->|(l & -> & Hin)%list_elem_of_fmap].
    + split; [|done]. split; [split; [apply rel_range|exact Ha]|]. split; [exact Hs|]. by split.
    + destruct (ld_lines m Hl f l Hf Hin) as (Hla & Hls & Hln). pose proof (cited_id f l Hf Hin) as Hid.
      split; [|done]. unfold line_record. cbn [record_ok]. unfold LONG_MAX.
      split; [split; [apply rel_range|exact Hla]|]. split; [exact Hls|]. lia.
  - intros r ([a n] & -> & Hin)%list_elem_of_fmap. cbn [mod_externs AssignSourceIds with_files] in Hin.
    destruct (ld_externs m Hl a n Hin) as (Ha & Ht & Hn). split; [|done]. unfold extern_record. cbn [fst snd record_ok].
    unfold LONG_MAX. split; [split; [apply rel_range|exact Ha]|]. split; [lia|done].
Qed.

Lemma cfi_writable : Forall writable (cfi_records m).
Proof.
  apply Forall_forall. intros r (e & Hr & He)%list_elem_of_bind.
  destruct (ld_entries m Hl e He) as (Hs & [Ht Hn] & Hd). unfold entry_records in Hr.
  apply elem_of_cons in Hr as [->|(d & -> & Hin)%list_elem_of_fmap].
  - split; [|done]. split; [apply rel_range|by split].
  - destruct (Hd d Hin). split; [|done]. split; [apply rel_range|done].
Qed.

Lemma records_writable symbol_data : Forall writable (module_records (numbered m symbol_data) symbol_data).
Proof.
  assert (Hrel: header_records (numbered m symbol_data) = header_records m /\ cfi_records (numbered m symbol_data) = cfi_records m)
    by (unfold numbered; by destruct (has_symbols symbol_data)).
  unfold module_records. destruct Hrel as [-> ->]. apply Forall_app_2; [apply header_writable|]. apply Forall_app_2.
  - unfold numbered. destruct (has_symbols symbol_data); [apply symbols_writable|constructor].
  - destruct (has_cfi symbol_data); [apply cfi_writable|constructor].
Qed.
End loadable_proofs.

(** *** What the whole file builds *)

(** Header records change nothing. *)
Lemma apply_header m bm cur rest : apply_records bm cur 0 (header_records m ++ rest) = apply_records bm cur 0 rest.
Proof. unfold header_records. by destruct (mod_code_id m). Qed.

(** The CFI records. *)
Definition entry_range (m : DumpModule) (e : StackFrameEntry) : Z * Z * cstring :=
  (rel m (entry_address e), entry_size e, rule_map_text (initial_rules e)).

Definition loaded_deltas (m : DumpModule) (ds : smap (strmap cstring)) (t : smap cstring) : smap cstring :=
  foldl (λ t d, assign t (rel m d.1) (rule_map_text d.2)) t ds.

Lemma set_cfi_same bm : set_cfi bm (cfi_initial_rules_ bm) (cfi_delta_rules_ bm) = bm.
Proof. by destruct bm. Qed.

Lemma apply_deltas_records m ds : forall bm cur rest,
  apply_records bm cur 0 (((λ d, StackCfiRecord (rel m d.1) (rule_map_text d.2)) <$> ds) ++ rest) =
  apply_records (set_cfi bm (cfi_initial_rules_ bm) (loaded_deltas m ds (cfi_delta_rules_ bm))) cur 0 rest.
Proof.
  induction ds as [|d ds IH]; intros bm cur rest; [cbn [fmap list_fmap app loaded_deltas foldl]; by rewrite set_cfi_same|].
  cbn [fmap list_fmap app]. erewrite apply_records_step by reflexivity. by rewrite IH.
Qed.

Lemma apply_cfi m es : forall bm cur,
  apply_records bm cur 0 (es ≫= entry_records m) =
  (set_cfi bm (store_all (entry_range m <$> es) (cfi_initial_rules_ bm))
     (loaded_deltas m (es ≫= rule_changes) (cfi_delta_rules_ bm)), 0).
Proof.
  induction es as [|e es IH]; intros bm cur; [cbn; by rewrite set_cfi_same|].
  cbn [mbind list_bind]. unfold entry_records at 1. cbn [app]. erewrite apply_records_step by reflexivity.
  rewrite apply_deltas_records, IH. unfold loaded_deltas. rewrite foldl_app. done.
Qed.

(** Externs at distinct addresses have distinct relative addresses. *)
Lemma rel_inj m a b : fits 64 (mod_load_address m) -> fits 64 a -> fits 64 b -> rel m a = rel m b -> a = b.
Proof.
  intros Hl Ha Hb. unfold rel. unfold fits in *.
  destruct (wrap_sub_cases 64 a (mod_load_address m)) as [[-> ?]|[-> ?]]; try done;
    destruct (wrap_sub_cases 64 b (mod_load_address m)) as [[-> ?]|[-> ?]]; try done; lia.
Qed.

Lemma externs_NoDup m : dump_ok m -> NoDup ((λ e, rel m e.1) <$> mod_externs m).
Proof.
  intros []. apply NoDup_fmap_2_strong.
  - intros [a n] [b n'] H1 H2 E. cbn in E. apply rel_inj in E; eauto. subst b. f_equal. by eapply sorted_functional.
  - clear -do_externs. induction (mod_externs m) as [|[a n] es IH]; [constructor|].
    apply sorted_cons in do_externs as [Hlt Hs]. constructor; [|by apply IH]. intros Hin. apply Hlt in Hin. lia.
Qed.

(** Cited files have ids of their own. *)
Lemma file_rank_lt cited (files : strmap file_ptr) i j n p :
  (i < j)%nat -> files !! i = Some (n, p) -> p ∈ cited -> file_rank cited files i < file_rank cited files j.
Proof.
  intros Hij Hi Hc. unfold file_rank. rewrite <- !fmap_take.
  assert (Hs: take (S i) (take j files) = take i files ++ [(n, p)])
    by (rewrite take_take, Nat.min_l by lia; by apply take_S_r).
  rewrite <- (take_drop (S i) (take j files)), Hs.
  rewrite !fmap_app, !filter_app, !length_app. cbn [fmap list_fmap snd]. rewrite filter_cons_True by done. cbn. lia.
Qed.

Lemma file_id_inj m n p n' p' :
  dump_ok m -> (n, p) ∈ mod_files m -> (n', p') ∈ mod_files m ->
  let m' := AssignSourceIds m in
  0 <= file_id m' p -> file_id m' p' = file_id m' p -> n' = n.
Proof.
  intros Hok [i Hi]%list_elem_of_lookup [j Hj]%list_elem_of_lookup m'. unfold file_id, m'.
  rewrite (AssignSourceIds_spec m i n p), (AssignSourceIds_spec m j n' p') by done. cbn [source_id].
  repeat case_decide; try lia. intros _ E. destruct (Nat.lt_trichotomy i j) as [Hlt|[->|Hlt]].
  - pose proof (file_rank_lt (cited_files m) _ i j n p Hlt Hi ltac:(done)). lia.
  - congruence.
  - pose proof (file_rank_lt (cited_files m) _ j i n' p' Hlt Hj ltac:(done)). lia.
Qed.

Lemma loaded_files_kept m files : forall t k v,
  sorted t -> lookup_key t k = Some v -> lookup_key (loaded_files m files t) k = Some v.
Proof.
  induction files as [|[n p] files IH]; intros t k v Hs Hk; [done|]. cbn [loaded_files foldl fst snd].
  dif; [|by apply IH]. apply IH; [by apply sorted_insert|]. rewrite lookup_key_insert by done.
  dif; [subst; by rewrite Hk|done].
Qed.

Lemma loaded_files_find m n p files : forall t,
  sorted t -> (n, p) ∈ files -> 0 <= file_id m p -> lookup_key t (s32 (file_id m p)) = None ->
  (forall n' p', (n', p') ∈ files -> 0 <= file_id m p' -> s32 (file_id m p') = s32 (file_id m p) -> n' = n) ->
  lookup_key (loaded_files m files t) (s32 (file_id m p)) = Some n.
Proof.
  induction files as [|[n0 q] files IH]; intros t Hs Hin Hid Hk Hu; [by apply not_elem_of_nil in Hin|].
  cbn [loaded_files foldl fst snd]. destruct (0 <=? file_id m q) eqn:Eq; breflect.
  - destruct (decide (s32 (file_id m q) = s32 (file_id m p))) as [Es|Hne].
    + apply loaded_files_kept; [by apply sorted_insert|]. rewrite lookup_key_insert, Es, Z.eqb_refl, Hk by done.
      f_equal. apply (Hu n0 q); [left|done..].
    + apply elem_of_cons in Hin as [[= -> ->]|Hin]; [done|].
      apply IH; try done; [by apply sorted_insert| |intros; eapply Hu; [by right|done..]].
      rewrite lookup_key_insert by done. rewrite (proj2 (Z.eqb_neq _ _)) by done. done.
  - apply elem_of_cons in Hin as [[= -> ->]|Hin]; [lia|]. apply IH; try done. intros; eapply Hu; [by right|done..].
Qed.

(** The module that the file of [m] loads as. *)
Definition loaded_module (name : cstring) (m : DumpModule) (symbol_data : SymbolData) : BasicModule :=
  let m' := AssignSourceIds m in
  mkModule name (loaded_files m' (mod_files m) [])
    (store_all (function_ranges m' 0 (mod_functions m)) RangeMap_new)
    (loaded_publics m' (mod_externs m) AddressMap_new) false
    (windows_frame_info_ (BasicModule_new name))
    (if has_cfi symbol_data then store_all (entry_range m' <$> mod_stack_frame_entries m) RangeMap_new else RangeMap_new)
    (if has_cfi symbol_data then loaded_deltas m' (mod_stack_frame_entries m ≫= rule_changes) [] else [])
    (loaded_func m' <$> mod_functions m).

Lemma apply_module_records name m symbol_data :
  dump_ok m -> has_symbols symbol_data = true ->
  apply_records (BasicModule_new name) None 0 (module_records (numbered m symbol_data) symbol_data) =
  (loaded_module name m symbol_data, 0).
Proof.
  intros Hok Hsd. unfold module_records, numbered. rewrite Hsd, apply_header. unfold symbol_records.
  rewrite <- !(assoc_L (++)). rewrite apply_files.
  match goal with |- context [apply_records ?b ?c 0 ((_ ≫= function_records ?m') ++ ?r)] =>
    destruct (apply_functions m' (mod_functions m') b c r) as [cur1 ->] end.
  match goal with |- context [apply_records ?b ?c 0 ((extern_record ?m' <$> _) ++ ?r)] =>
    destruct (apply_publics m' (mod_externs m') b c r) as [cur2 ->] end.
  - constructor.
  - by apply (externs_NoDup m).
  - by intros k p ?%not_elem_of_nil.
  - unfold loaded_module. destruct (has_cfi symbol_data); [|done]. unfold cfi_records. by rewrite apply_cfi.
Qed.

Lemma loaded_module_load name m symbol_data :
  dump_ok m -> loadable m -> has_symbols symbol_data = true ->
  LoadMapFromMemory (BasicModule_new name) (text_of (module_records (numbered m symbol_data) symbol_data) ++ [NUL]) =
  Ok (true, loaded_module name m symbol_data).
Proof.
  intros Hok Hl Hsd. pose proof (records_writable m Hok Hl symbol_data) as Hw. unfold text_of.
  rewrite LoadMapFromMemory_records.
  - by rewrite apply_module_records.
  - eapply Forall_impl; [exact Hw|]. by intros r [? _].
  - eapply Forall_impl; [exact Hw|]. apply writable_no_nul.
Qed.

Lemma loaded_module_ok name m symbol_data :
  dump_ok m -> loadable m -> has_symbols symbol_data = true -> module_ok (loaded_module name m symbol_data).
Proof.
  intros Hok Hl Hsd.
  pose proof (LoadMapFromMemory_outcome name (text_of (module_records (numbered m symbol_data) symbol_data) ++ [NUL])) as H.
  rewrite loaded_module_load in H by done. apply H.
Qed.

(** *** What the lookup finds *)

(** The addresses of a range. *)
Definition within (a : Z) (x : Z * Z) : Prop := x.1 <= a < x.1 + x.2.

Definition function_range (m : DumpModule) (f : MFunction) : Z * Z := (rel m (mfunc_address f), mfunc_size f).

Lemma function_ranges_fst m fs : forall p, (function_ranges m p fs).*1 = function_range m <$> fs.
Proof. induction fs as [|f fs IH]; intros p; [done|]. cbn. by rewrite IH. Qed.

Lemma loaded_function_at name m symbol_data f a :
  separate (function_range m <$> mod_functions m) -> f ∈ mod_functions m -> within a (function_range m f) ->
  exists h r, function_at (loaded_module name m symbol_data) a h r (loaded_func (AssignSourceIds m) f).
Proof.
  intros Hsep Hf Hin. apply list_elem_of_lookup in Hf as [i Hi].
  destruct (store_all_new (function_ranges (AssignSourceIds m) 0 (mod_functions m))) as [_ Hel]; [by rewrite function_ranges_fst|].
  eexists _, _. split_and!; [|split|].
  - apply Hel. eexists _, _, i. split; [|split; reflexivity]. apply function_ranges_elem. by exists i, f.
  - cbn. apply Hin.
  - destruct Hin as [_ Hlt]. unfold function_range, rel in *. cbn [fst snd mod_load_address AssignSourceIds with_files] in *. lia.
  - cbn [rentry func_heap loaded_module]. by rewrite list_lookup_fmap, Hi.
Qed.

Definition line_extent (m : DumpModule) (l : MLine) : Z * Z := (rel m (mline_address l), mline_size l).

Lemma line_ranges_fst m ls : (line_range m <$> ls).*1 = line_extent m <$> ls.
Proof. by rewrite <- list_fmap_compose. Qed.

Lemma loaded_line_at m f l a :
  separate (line_extent m <$> mfunc_lines f) -> l ∈ mfunc_lines f -> within a (line_extent m l) ->
  exists y, RetrieveRange 64 (lines (loaded_func m f)) a = Some y /\ ret_entry y = loaded_line m l /\
    ret_base y = rel m (mline_address l).
Proof.
  intros Hsep Hl Hin. rewrite <- line_ranges_fst in Hsep. destruct (store_all_new _ Hsep) as [Hok Hel]. eexists. split.
  - apply RetrieveRange_Some; [exact Hok|]. eexists _, _. split; [|split; [|reflexivity]].
    + apply Hel. eexists _, _, _. split; [apply list_elem_of_fmap; by exists l|split; reflexivity].
    + unfold within in Hin. cbn in Hin. split; cbn; lia.
  - done.
Qed.

Lemma loaded_file m f l :
  dump_ok m -> loadable m -> f ∈ mod_functions m -> l ∈ mfunc_lines f ->
  exists file, (file, mline_file l) ∈ mod_files m /\
    lookup_key (loaded_files (AssignSourceIds m) (mod_files m) []) (source_file_id (loaded_line (AssignSourceIds m) l)) = Some file.
Proof.
  intros Hok Hl Hf Hin. destruct (do_lines m Hok f l Hf Hin) as [n Hn]. exists n. split; [done|].
  pose proof (cited_id m Hok Hl f l Hf Hin) as Hid. cbn [loaded_line Line_new source_file_id].
  apply loaded_files_find; try done; [constructor|lia|]. intros n' p' Hin' Hid' E.
  assert (Hr: -1 <= file_id (AssignSourceIds m) p' < 2 ^ 31)
    by (apply list_elem_of_lookup in Hin' as [i Hi]; by apply (file_id_range m Hok Hl i n')).
  unfold s32 in E. rewrite !swrap_small in E by lia. eapply file_id_inj; [done|exact Hn|exact Hin'|lia|exact E].
Qed.

(** What [Write] writes to a stream that accepts everything. *)
Lemma Write_all m symbol_data :
  dump_ok m -> loadable m ->
  Write m symbol_data (mkOstream [] None true) =
  Ok (true, mkOstream (text_of (module_records (numbered m symbol_data) symbol_data)) None true).
Proof.
  intros Hok Hl. change (mkOstream (text_of ?t) None true) with (put (text_of t) (mkOstream [] None true)).
  apply emits_good; [|done]. apply Write_emits; [done|].
  intros f l Hf Hin. apply (ld_lines m Hl f l Hf Hin).
Qed.

(** The file of a module, loaded and asked about an address in a function. *)
Lemma written_lookup (m : DumpModule) (symbol_data : SymbolData) (name : cstring) (module_base : Z)
    (frame : StackFrame) (f : MFunction) :
  built m -> loadable m -> has_symbols symbol_data = true ->
  separate (function_range m <$> mod_functions m) ->
  f ∈ mod_functions m -> separate (line_extent m <$> mfunc_lines f) ->
  let a := wrap 64 (instruction frame - module_base) in
  within a (function_range m f) ->
  exists o bm frame',
    Write m symbol_data (mkOstream [] None true) = Ok (true, o) /\
    LoadMapFromMemory (BasicModule_new name) (written o ++ [NUL]) = Ok (true, bm) /\ is_corrupt_ bm = false /\
    LookupAddress bm module_base frame = Ok frame' /\
    function_name frame' = mfunc_name f /\ function_base frame' = wrap 64 (module_base + rel m (mfunc_address f)) /\
    forall l, l ∈ mfunc_lines f -> within a (line_extent m l) ->
      (source_file_name frame', mline_file l) ∈ mod_files m /\ source_line frame' = mline_number l /\
      source_line_base frame' = wrap 64 (module_base + rel m (mline_address l)).
Proof.
  intros Hm Hl Hsd Hsep Hf Hsl a Ha. pose proof (built_ok m Hm) as Hok. set (bm := loaded_module name m symbol_data).
  destruct (loaded_function_at name m symbol_data f a Hsep Hf Ha) as (h & r & Hat). fold bm in Hat.
  pose proof (loaded_module_ok name m symbol_data Hok Hl Hsd) as Hbm. fold bm in Hbm.
  destruct (LookupAddress_cases bm module_base frame Hbm) as [(h' & r' & f' & Hat' & E)|[Hno _]]; fold a in Hat' || fold a in Hno;
    [|by apply Hno in Hat].
  destruct (function_at_unique bm a h r _ h' r' f' Hbm Hat Hat') as (-> & -> & ->).
  eexists _, bm, _. split; [by apply Write_all|]. split; [by apply loaded_module_load|]. split; [done|]. split; [exact E|].
  fold a. unfold with_function. split_and!.
  - by destruct (RetrieveRange _ _ _) as [y|]; [destruct (lookup_key _ _)|].
  - by destruct (RetrieveRange _ _ _) as [y|]; [destruct (lookup_key _ _)|].
  - intros l Hin Hal. destruct (loaded_line_at (AssignSourceIds m) f l a Hsl Hin Hal) as (y & -> & -> & ->).
    destruct (loaded_file m f l Hok Hl Hf Hin) as (file & Hfile & Hk). cbn [files_ bm loaded_module]. rewrite Hk.
    split; [done|]. split; [|done]. cbn. destruct (ld_lines m Hl f l Hf Hin) as (_ & _ & ?). apply swrap_small; lia.
Qed.

(** C2: the processor reads back what the dumper wrote.  The file that [Write] makes
    of a module with disjoint functions loads without an error, and looking up an
    address inside a function gives the name and the base of the function and, for an
    address inside one of its lines, the file name, the number and the base of the
    line. *)
Theorem dump_load (m : DumpModule) (symbol_data : SymbolData) (name : cstring) (module_base : Z)
    (frame : StackFrame) (f : MFunction) :
  built m -> loadable m -> has_symbols symbol_data = true ->
  separate (function_range m <$> mod_functions m) ->
  f ∈ mod_functions m -> separate (line_extent m <$> mfunc_lines f) ->
  let a := wrap 64 (instruction frame - module_base) in
  within a (function_range m f) ->
  exists o bm frame',
    Write m symbol_data (mkOstream [] None true) = Ok (true, o) /\
    LoadMapFromMemory (BasicModule_new name) (written o ++ [NUL]) = Ok (true, bm) /\ is_corrupt_ bm = false /\
    LookupAddress bm module_base frame = Ok frame' /\
    function_name frame' = mfunc_name f /\ function_base frame' = wrap 64 (module_base + rel m (mfunc_address f)) /\
    forall l, l ∈ mfunc_lines f -> within a (line_extent m l) ->
      (source_file_name frame', mline_file l) ∈ mod_files m /\ source_line frame' = mline_number l /\
      source_line_base frame' = wrap 64 (module_base + rel m (mline_address l)).
Proof. apply written_lookup. Qed.

Lemma demo_loadable : loadable demo_module.
Proof.
  assert (Ht: forall s, forallb (λ c, negb (in_set CRLF c)) s && forallb (λ c, negb (code c =? 0)) s && negb (bool_decide (s = [])) = true ->
    symbol_text_ok s).
  { intros s [[H1 H2]%andb_true_iff H3]%andb_true_iff. split; [split|by apply all_forallb].
    - intros ->. by rewrite bool_decide_eq_true_2 in H3.
    - by apply all_forallb. }
  constructor.
  - repeat (apply Forall_cons; split; [split; by apply all_forallb|]). apply Forall_nil_2.
  - intros n p Hin. repeat (apply elem_of_cons in Hin as [[= -> ->]|Hin]; [by apply Ht|]). by apply not_elem_of_nil in Hin.
  - done.
  - intros f ->%list_elem_of_singleton. split_and!; [by apply Ht|done..].
  - intros f l Hf Hl. destruct (demo_lines f l Hf Hl) as [-> _].
    repeat (apply elem_of_cons in Hl as [->|Hl]; [done|]). by apply not_elem_of_nil in Hl.
  - intros a n Hin. repeat (apply elem_of_cons in Hin as [[= -> ->]|Hin]; [split; [done|by apply Ht]|]).
    by apply not_elem_of_nil in Hin.
  - by intros e ?%not_elem_of_nil.
Qed.

Lemma dump_load_witness :
  exists o bm frame',
    Write demo_module ALL_SYMBOL_DATA (mkOstream [] None true) = Ok (true, o) /\
    LoadMapFromMemory (BasicModule_new (lit "a.out")) (written o ++ [NUL]) = Ok (true, bm) /\ is_corrupt_ bm = false /\
    LookupAddress bm 0x7f0000 (example_frame 0x7f1012) = Ok frame' /\ function_name frame' = lit "main(int, char**)" /\
    source_line frame' = 13 /\ source_line_base frame' = 0x7f1010.
Proof.
  destruct (dump_load demo_module ALL_SYMBOL_DATA (lit "a.out") 0x7f0000 (example_frame 0x7f1012) demo_function)
    as (o & bm & frame' & E1 & E2 & E3 & E4 & E5 & _ & Hline).
  - exact demo_built.
  - exact demo_loadable.
  - done.
  - split; repeat constructor; done.
  - by left.
  - split; repeat constructor; try done.
  - split; done.
  - exists o, bm, frame'. destruct (Hline (mkMLine 0x401010 0x10 0%nat 13)) as (_ & H2 & H3); [right; by left|by split|].
    by split_and!.
Defined.
