(* ===== verification/FastResolver.v ===== *)
(** processor/simple_serializer-inl.h, module_serializer.cc: a loaded module of
    the basic resolver (BasicResolver.v) written as one block of bytes;
    processor/fast_source_line_resolver.cc, fast_source_line_resolver_types.h:
    [FastSourceLineResolver::Module], which answers lookups from such a block in
    place.  A pointer into the block is an offset; the block, which the resolver
    keeps for the life of the module, is a field of the module. *)
From Stdlib Require Import Ascii.
From stdpp Require Import strings list gmap.
From S2P Require Import Prelude StdMap Memory RangeMap AddressMap ContainedRangeMap StaticMap MapSerializers StaticRangeMap CStr StrMap MemoryRegion PostfixEvaluator CfiFrameInfo SymbolFile BasicResolver BasicInvariant SymbolLoad ResolverLookup CodeModules ResolverBase.

(** ** The serializers of the items *)

(** Characters as bytes. *)
Definition bytes_of (s : cstring) : list Z := code <$> s.

Definition BoolSerializer : SimpleSerializer bool :=
  {| SizeOf := λ _ : bool, 1; image := λ b : bool, [if b then 255 else 0] |}.

(** [strcpy] stops at the first NUL, the announced size does not. *)
Definition StringSerializer : SimpleSerializer cstring :=
  {| SizeOf := λ str, Z.of_nat (length str) + 1; image := λ str, bytes_of (c_str str) ++ [0] |}.

Definition LineSerializer : SimpleSerializer Line :=
  {| SizeOf := λ _, 8 + 8 + 4 + 4;
     image := λ l, le_bytes 8 (line_address l) ++ le_bytes 8 (line_size l) ++ le_bytes 4 (source_file_id l) ++
                   le_bytes 4 (line l) |}.

Definition PublicSymbolSerializer : SimpleSerializer PublicSymbol :=
  {| SizeOf := λ p, @SizeOf _ StringSerializer (pub_name p) + 8 + 4;
     image := λ p, @image _ StringSerializer (pub_name p) ++ le_bytes 8 (pub_address p) ++
                   le_bytes 4 (pub_parameter_size p) |}.

(** A [linked_ptr]; nothing is written for a null pointer. *)
Definition WindowsFrameInfoSerializer : SimpleSerializer (option WindowsFrameInfo) :=
  {| SizeOf := λ wfi, match wfi with
                      | None => 0
                      | Some wfi => wrap 32 (4 * 8 + 1 + @SizeOf _ StringSerializer (program_string wfi))
                      end;
     image := λ wfi, match wfi with
                     | None => []
                     | Some wfi =>
                         le_bytes 4 (type_ wfi) ++ le_bytes 4 (valid wfi) ++ le_bytes 4 (prolog_size wfi) ++
                         le_bytes 4 (epilog_size wfi) ++ le_bytes 4 (parameter_size wfi) ++
                         le_bytes 4 (saved_register_size wfi) ++ le_bytes 4 (local_size wfi) ++
                         le_bytes 4 (max_stack_size wfi) ++ @image _ BoolSerializer (allocates_base_pointer wfi) ++
                         @image _ StringSerializer (program_string wfi)
                     end |}.

(** [SimpleSerializer<Function>]: the writer, and the bytes it puts into a block
    of the size announced. *)
Definition function_size (f : Func) : Z :=
  wrap 32 (@SizeOf _ StringSerializer (func_name f) + 8 + 8 + 4 + @RangeMap_SizeOf _ LineSerializer 8 (lines f)).

Definition function_write (f : Func) (mem : list Z) (dest : Z) : list Z * Z :=
  let '(mem, dest) := @simple_write _ StringSerializer (func_name f) mem dest in
  let '(mem, dest) := key_write 8 (func_address f) mem dest in
  let '(mem, dest) := key_write 8 (func_size f) mem dest in
  let '(mem, dest) := key_write 4 (func_parameter_size f) mem dest in
  @RangeMap_write _ LineSerializer 8 (lines f) mem dest.

(** The functions of a module are pointers into its heap. *)
Definition FunctionSerializer (heap : list Func) : SimpleSerializer func_ptr :=
  {| SizeOf := λ p, match heap !! p with Some f => function_size f | None => 0 end;
     image := λ p, match heap !! p with
                   | Some f => (function_write f (repeat 0 (Z.to_nat (function_size f))) 0).1
                   | None => []
                   end |}.

(** ** [ModuleSerializer] *)

Definition kNumberMaps_ : Z := 5 + STACK_INFO_LAST.

(** [map_sizes_], and the result of [SizeOf]. *)
Definition map_sizes (m : BasicModule) : list Z :=
  wrap 32 <$>
  [@StdMap_SizeOf _ StringSerializer 4 (files_ m);
   @RangeMap_SizeOf _ (FunctionSerializer (func_heap m)) 8 (functions_ m);
   @AddressMap_SizeOf _ PublicSymbolSerializer 8 (public_symbols_ m)] ++
  (@ContainedRangeMap_SizeOf _ WindowsFrameInfoSerializer 8 <$> windows_frame_info_ m) ++
  [@RangeMap_SizeOf _ StringSerializer 8 (cfi_initial_rules_ m);
   @StdMap_SizeOf _ StringSerializer 8 (cfi_delta_rules_ m)].

Definition Module_SizeOf (m : BasicModule) : Z :=
  1 + kNumberMaps_ * 4 + foldr Z.add 0 (map_sizes m) + 1.

(** The loop over [windows_frame_info_]. *)
Fixpoint windows_write (ws : list (ContainedRangeMap (option WindowsFrameInfo))) (mem : list Z) (dest : Z) : list Z * Z :=
  match ws with
  | [] => (mem, dest)
  | c :: ws => let '(mem, dest) := @ContainedRangeMap_write _ WindowsFrameInfoSerializer 8 c mem dest in
               windows_write ws mem dest
  end.

(** The [memcpy] of the header. *)
Definition header_write (m : BasicModule) (mem : list Z) (dest : Z) : list Z * Z :=
  (write_bytes mem dest (map_sizes m ≫= le_bytes 4), dest + kNumberMaps_ * 4).

Definition Module_Write (m : BasicModule) (mem : list Z) (dest : Z) : list Z * Z :=
  let '(mem, dest) := @simple_write _ BoolSerializer (is_corrupt_ m) mem dest in
  let '(mem, dest) := header_write m mem dest in
  let '(mem, dest) := @StdMap_write _ StringSerializer 4 (files_ m) mem dest in
  let '(mem, dest) := @RangeMap_write _ (FunctionSerializer (func_heap m)) 8 (functions_ m) mem dest in
  let '(mem, dest) := @StdMap_write _ PublicSymbolSerializer 8 (amap (public_symbols_ m)) mem dest in
  let '(mem, dest) := windows_write (windows_frame_info_ m) mem dest in
  let '(mem, dest) := @RangeMap_write _ StringSerializer 8 (cfi_initial_rules_ m) mem dest in
  let '(mem, dest) := @StdMap_write _ StringSerializer 8 (cfi_delta_rules_ m) mem dest in
  @simple_write _ (IntSerializer 1) 0 mem dest.

(** [Serialize]: the block and [*size].  A write that does not fill the block is
    logged only. *)
Definition Module_Serialize (alloc : Z -> option (list Z)) (m : BasicModule) : option (list Z * Z) :=
  serialize Module_SizeOf Module_Write alloc m.

Definition SerializeSymbolFileData (alloc : Z -> option (list Z)) (symbol_data : cstring)
  : outcome (option (list Z * Z)) :=
  '(ok, m) ← LoadMapFromMemory (BasicModule_new (lit "no name")) (symbol_data ++ [NUL]);
  Ok (if ok : bool then Module_Serialize alloc m else None).

(** ** [FastSourceLineResolver::Module] *)

Record FastModule := mkFastModule {
  fast_name : cstring;
  fast_buffer : list Z;
  fast_corrupt : bool;
  fast_files : StaticMap;
  fast_functions : StaticMap;
  fast_publics : StaticMap;
  fast_windows : list StaticContainedRangeMap;
  fast_cfi_initial : StaticMap;
  fast_cfi_delta : StaticMap
}.

Definition FastModule_new (name : cstring) : FastModule :=
  mkFastModule name [] false StaticMap_default StaticMap_default StaticMap_default [] StaticMap_default StaticMap_default.

(** [offsets[i + 1] = offsets[i] + map_sizes[i]], in 32 bits, for the maps from the [i]-th on. *)
Fixpoint map_offsets (mem : list Z) (map_sizes : Z) (n : nat) (offset : Z) : list Z :=
  match n with
  | O => []
  | S n => offset :: map_offsets mem (map_sizes + 4) n (wrap 32 (offset + read_u32 mem map_sizes))
  end.

(** [LoadMapFromMemory]; the buffer is not null. *)
Definition FastLoadMapFromMemory (m : FastModule) (memory_buffer : cstring) : outcome (bool * FastModule) :=
  let mem := bytes_of memory_buffer in
  let is_corrupt := negb (read_le mem 0 1 =? 0) in
  let mem_buffer := 1 in
  let offsets := map_offsets mem mem_buffer (Z.to_nat kNumberMaps_) (kNumberMaps_ * 4) in
  let at_ i := mem_buffer + default 0 (offsets !! i) in
  Ok (true, mkFastModule (fast_name m) mem is_corrupt
              (StaticMap_at mem (at_ 0%nat)) (StaticMap_at mem (at_ 1%nat)) (StaticMap_at mem (at_ 2%nat))
              ((λ i, StaticContainedRangeMap_at 8 mem (at_ i)) <$> seq 3 (Z.to_nat STACK_INFO_LAST))
              (StaticMap_at mem (at_ 8%nat)) (StaticMap_at mem (at_ 9%nat))).

(** *** Items in the block *)

Fixpoint until_nul (bs : list Z) : cstring :=
  match bs with
  | [] => []
  | b :: bs => if b =? 0 then [] else chr b :: until_nul bs
  end.

(** The C string at [p]. *)
Definition read_cstr (mem : list Z) (p : Z) : cstring := until_nul (drop (Z.to_nat p) mem).

(** [CopyFrom] of [Line], [Function] and [PublicSymbol]. *)
Definition line_CopyFrom (mem : list Z) (raw : Z) : Line :=
  mkLine (read_u64 mem raw) (read_u64 mem (raw + 8)) (read_s32 mem (raw + 16)) (read_s32 mem (raw + 20)).

Record FastFunction := mkFastFunction {
  fast_func_name : cstring;
  fast_func_address : Z;
  fast_func_size : Z;
  fast_func_parameter_size : Z;
  fast_func_lines : StaticMap
}.

Definition function_CopyFrom (mem : list Z) (raw : Z) : FastFunction :=
  let name := read_cstr mem raw in
  let name_size := Z.of_nat (length name) + 1 in
  mkFastFunction name (read_u64 mem (raw + name_size)) (read_u64 mem (raw + name_size + 8))
    (read_s32 mem (raw + name_size + 16)) (StaticMap_at mem (raw + name_size + 20)).

Definition public_CopyFrom (mem : list Z) (raw : Z) : PublicSymbol :=
  let name := read_cstr mem raw in
  let name_size := Z.of_nat (length name) + 1 in
  mkPublicSymbol name (read_u64 mem (raw + name_size)) (read_s32 mem (raw + name_size + 8)).

(** [CopyWFI]. *)
Definition CopyWFI (mem : list Z) (raw : Z) : WindowsFrameInfo :=
  WindowsFrameInfo_new (read_s32 mem raw) (read_u32 mem (raw + 8)) (read_u32 mem (raw + 12)) (read_u32 mem (raw + 16))
    (read_u32 mem (raw + 20)) (read_u32 mem (raw + 24)) (read_u32 mem (raw + 28))
    (read_le mem (raw + 32) 1) (read_cstr mem (raw + 33)).

(** *** Lookups *)

(** [files_.find(id)] and [GetValuePtr]; file ids are [int]s. *)
Definition fast_file (m : FastModule) (id : Z) : option cstring :=
  i ← sm_find 4 (swrap 32) (fast_buffer m) (fast_files m) id;
  it ← IteratorAtIndex (fast_buffer m) (fast_files m) i;
  end_ ← IteratorAtIndex (fast_buffer m) (fast_files m) (num_nodes_ (fast_files m));
  if iterator_eq it end_ then None
  else p ← GetValueRawPtr (fast_buffer m) it; Some (read_cstr (fast_buffer m) p).

Definition FastLookupAddress (m : FastModule) (module_base : Z) (frame : StackFrame) : StackFrame :=
  let mem := fast_buffer m in
  let address := wrap 64 (instruction frame - module_base) in
  let nearest := StaticRetrieveNearestRange 8 mem (fast_functions m) address in
  let public :=
    match StaticRetrieve 8 mem (fast_publics m) address with
    | Some (public_symbol_ptr, public_address) =>
        if match nearest with None => true | Some (_, function_base, _) => function_base <? public_address end
        then set_function frame (pub_name (public_CopyFrom mem public_symbol_ptr)) (wrap 64 (module_base + public_address))
        else frame
    | None => frame
    end in
  match nearest with
  | Some (func_ptr, function_base, function_size) =>
      if in_function address function_base function_size then
        let func := function_CopyFrom mem func_ptr in
        let frame := set_function frame (fast_func_name func) (wrap 64 (module_base + function_base)) in
        match StaticRetrieveRange 8 mem (fast_func_lines func) address with
        | Some (line_ptr, line_base, _) =>
            let l := line_CopyFrom mem line_ptr in
            let frame := match fast_file m (source_file_id l) with
                         | Some name => set_file_name frame name
                         | None => frame
                         end in
            set_line frame (line l) (wrap 64 (module_base + line_base))
        | None => frame
        end
      else public
  | None => public
  end.

(** The recursion in a static contained map goes down at least one byte at each level. *)
Definition retrieve_fast_windows (m : FastModule) (type address : Z) : option (option Z) :=
  match fast_windows m !! Z.to_nat type with
  | Some c => StaticRetrieveContained 8 (fast_buffer m) (S (length (fast_buffer m))) c address
  | None => None
  end.

Definition FastFindWindowsFrameInfo (m : FastModule) (module_base : Z) (frame : StackFrame)
  : outcome (option WindowsFrameInfo) :=
  let mem := fast_buffer m in
  let address := wrap 64 (instruction frame - module_base) in
  let result := WindowsFrameInfo_default in
  let frame_info := match retrieve_fast_windows m STACK_INFO_FRAME_DATA address with
                    | Some p => Some p
                    | None => retrieve_fast_windows m STACK_INFO_FPO address
                    end in
  match frame_info with
  | Some (Some p) => Ok (Some (CopyFrom result (CopyWFI mem p)))
  | Some None => Undefined
  | None =>
      match StaticRetrieveNearestRange 8 mem (fast_functions m) address with
      | Some (function_ptr, function_base, function_size) =>
          if in_function address function_base function_size
          then Ok (Some (set_parameter_size result (fast_func_parameter_size (function_CopyFrom mem function_ptr))))
          else Ok None
      | None => Ok None
      end
  end.

(** The loop over the delta rules; every node before the end has a key. *)
Fixpoint fast_deltas (fuel : nat) (m : FastModule) (address : Z) (delta : StaticMapIterator) (rules : CFIFrameInfo)
  : CFIFrameInfo :=
  match fuel with
  | O => rules
  | S fuel =>
      match IteratorAtIndex (fast_buffer m) (fast_cfi_delta m) (num_nodes_ (fast_cfi_delta m)) with
      | None => rules
      | Some end_ =>
          if iterator_eq delta end_ then rules
          else
            match GetKey 8 id (fast_buffer m) delta, GetValueRawPtr (fast_buffer m) delta with
            | Some key, Some p =>
                if key <=? address
                then fast_deltas fuel m address (increment delta)
                       (ParseCFIRuleSet (read_cstr (fast_buffer m) p) rules).2
                else rules
            | _, _ => rules
            end
      end
  end.

Definition FastFindCFIFrameInfo (m : FastModule) (module_base : Z) (frame : StackFrame) : option CFIFrameInfo :=
  let mem := fast_buffer m in
  let address := wrap 64 (instruction frame - module_base) in
  match StaticRetrieveRange 8 mem (fast_cfi_initial m) address with
  | None => None
  | Some (initial_rules, initial_base, _) =>
      let '(ok, rules) := ParseCFIRuleSet (read_cstr mem initial_rules) CFIFrameInfo_new in
      if negb ok then None
      else
        i ← sm_lower_bound 8 id mem (fast_cfi_delta m) initial_base;
        delta ← IteratorAtIndex mem (fast_cfi_delta m) i;
        Some (fast_deltas (S (Z.to_nat (num_nodes_ (fast_cfi_delta m)))) m address delta rules)
  end.

(** [FastModuleFactory] and [FastSourceLineResolver]: the buffer is kept. *)
#[export] Instance FastModuleFactory : SymbolModule FastModule := {|
  CreateModule := FastModule_new;
  LoadMap := FastLoadMapFromMemory;
  IsCorrupt := fast_corrupt;
  ModuleLookupAddress := λ m base frame, Ok (FastLookupAddress m base frame);
  ModuleFindWindowsFrameInfo := FastFindWindowsFrameInfo;
  ModuleFindCFIFrameInfo := λ m base frame, Ok (FastFindCFIFrameInfo m base frame);
  ShouldDeleteMemoryBufferAfterLoadModule := false
|}.

(** ** Converting loaded modules *)

(** Bytes as characters. *)
Definition string_of (bs : list Z) : cstring := chr <$> bs.

(** [SerializeModuleAndLoadIntoFastResolver]; [None] as allocator result fails. *)
Definition SerializeModuleAndLoadIntoFastResolver (alloc : Z -> option (list Z)) (iter : cstring * BasicModule)
    (fast_resolver : Resolver FastModule) : outcome (bool * Resolver FastModule) :=
  match Module_Serialize alloc iter.2 with
  | None => Ok (false, fast_resolver)
  | Some (symbol_data, size) =>
      LoadModuleUsingMapBuffer (Some (BasicCodeModule_new 0 0 iter.1 [] [] [] [] false))
        (string_of (take (Z.to_nat size) symbol_data)) fast_resolver
  end.

Fixpoint convert_modules (alloc : Z -> option (list Z)) (modules : strmap BasicModule)
    (fast_resolver : Resolver FastModule) : outcome (Resolver FastModule) :=
  match modules with
  | [] => Ok fast_resolver
  | iter :: modules =>
      '(_, fast_resolver) ← SerializeModuleAndLoadIntoFastResolver alloc iter fast_resolver;
      convert_modules alloc modules fast_resolver
  end.

(** [ConvertAllModules] and [ConvertOneModule]; [None] is a NULL resolver. *)
Definition ConvertAllModules (alloc : Z -> option (list Z)) (basic_resolver : option (Resolver BasicModule))
    (fast_resolver : Resolver FastModule) : outcome (Resolver FastModule) :=
  match basic_resolver with
  | None => Ok fast_resolver
  | Some b => convert_modules alloc (modules_ b) fast_resolver
  end.

Definition ConvertOneModule (alloc : Z -> option (list Z)) (moduleid : cstring)
    (basic_resolver : option (Resolver BasicModule)) (fast_resolver : Resolver FastModule)
  : outcome (bool * Resolver FastModule) :=
  match basic_resolver with
  | None => Ok (false, fast_resolver)
  | Some b =>
      match str_find (modules_ b) (c_str moduleid) with
      | None => Ok (false, fast_resolver)
      | Some m => SerializeModuleAndLoadIntoFastResolver alloc (c_str moduleid, m) fast_resolver
      end
  end.
