(* ===== verification/FastImage.v ===== *)
(** The block of bytes that [ModuleSerializer] (FastResolver.v) writes of a
    module: its layout, and what [CopyFrom] and [CopyWFI] read back from it. *)
From Stdlib Require Import Ascii.
From stdpp Require Import strings list gmap.
From S2P Require Import Prelude StdMap Memory RangeMap AddressMap ContainedRangeMap StaticMap MapSerializers StaticRangeMap CStr StrMap MemoryRegion PostfixEvaluator CfiFrameInfo SymbolFile BasicResolver BasicInvariant SymbolLoad ResolverLookup CodeModules ResolverBase FastResolver.

(** ** Strings *)

Lemma c_str_no_nul s : no_nul s -> c_str s = s.
Proof.
  induction 1 as [|c s Hc _ IH]; [done|]. cbn [c_str]. apply negb_true_iff in Hc.
  by rewrite Hc, IH.
Qed.

Lemma string_image s : no_nul s -> @image _ StringSerializer s = bytes_of s ++ [0].
Proof. intros Hs. cbn. by rewrite c_str_no_nul. Qed.

Lemma string_ser_ok s : no_nul s -> @ser_ok _ StringSerializer s.
Proof. intros Hs. unfold ser_ok. rewrite string_image by done. cbn. rewrite length_app. unfold bytes_of. rewrite length_fmap. cbn. lia. Qed.

Lemma until_nul_bytes s rest : no_nul s -> until_nul (bytes_of s ++ 0 :: rest) = s.
Proof.
  induction 1 as [|c s Hc _ IH]; [done|]. cbn [bytes_of fmap list_fmap app until_nul].
  apply negb_true_iff in Hc. rewrite Hc, chr_code. by f_equal.
Qed.

Lemma read_cstr_holds mem p s : no_nul s -> holds mem p (@image _ StringSerializer s) -> read_cstr mem p = s.
Proof.
  intros Hs [_ H]. rewrite string_image in H by done. unfold read_cstr, slice in *.
  rewrite <- (take_drop (length (bytes_of s ++ [0])) (drop (Z.to_nat p) mem)), H, <- (assoc_L (++)).
  by apply until_nul_bytes.
Qed.

Lemma length_string_image s : no_nul s -> Z.of_nat (length (@image _ StringSerializer s)) = Z.of_nat (length s) + 1.
Proof. intros Hs. apply (string_ser_ok s Hs). Qed.

(** ** Reading integers *)

Lemma holds_read_s32 mem p z : - 2 ^ 31 <= z < 2 ^ 31 -> holds mem p (le_bytes 4 z) -> read_s32 mem p = z.
Proof.
  intros Hz Hh. unfold read_s32. rewrite (holds_read_wrap _ _ _ _ Hh). unfold swrap, wrap.
  change (8 * Z.of_nat 4) with 32. rewrite Zplus_mod_idemp_l. apply swrap_small; lia.
Qed.

Lemma holds_read_u32 mem p z : fits 32 z -> holds mem p (le_bytes 4 z) -> read_u32 mem p = z.
Proof. intros Hz Hh. by apply holds_read. Qed.

Lemma line_CopyFrom_holds mem p l :
  - 2 ^ 31 <= source_file_id l < 2 ^ 31 -> - 2 ^ 31 <= line l < 2 ^ 31 -> holds mem p (@image _ LineSerializer l) ->
  source_file_id (line_CopyFrom mem p) = source_file_id l /\ line (line_CopyFrom mem p) = line l.
Proof.
  intros Hf Hl Hh. cbn in Hh. apply holds_app in Hh as [_ Hh]. apply holds_app in Hh as [_ Hh].
  apply holds_app in Hh as [H1 H2]. rewrite !length_le_bytes in H1, H2. cbn [line_CopyFrom source_file_id line].
  split; apply holds_read_s32; try done.
  - by replace (p + 16) with (p + Z.of_nat 8 + Z.of_nat 8) by lia.
  - by replace (p + 20) with (p + Z.of_nat 8 + Z.of_nat 8 + Z.of_nat 4) by lia.
Qed.

Lemma public_CopyFrom_holds mem p s :
  no_nul (pub_name s) -> holds mem p (@image _ PublicSymbolSerializer s) -> pub_name (public_CopyFrom mem p) = pub_name s.
Proof. intros Hs Hh. cbn [image PublicSymbolSerializer] in Hh. apply holds_app in Hh as [Hh _]. by apply read_cstr_holds. Qed.

Lemma CopyWFI_holds mem p wfi :
  win_ok wfi -> no_nul (program_string wfi) -> holds mem p (@image _ WindowsFrameInfoSerializer (Some wfi)) ->
  CopyWFI mem p = wfi.
Proof.
  intros (Ht & Hv & H1 & H2 & H3 & H4 & H5 & H6 & _ & Hp) Hs Hh. cbn [image WindowsFrameInfoSerializer] in Hh.
  unfold STACK_INFO_LAST in Ht.
  repeat match type of Hh with
  | holds _ _ (le_bytes 4 ?z ++ _) => let H := fresh "P" in apply holds_app in Hh as [H Hh]; rewrite length_le_bytes in Hh
  end.
  apply holds_app in Hh as [Pb Hh]. unfold CopyWFI, WindowsFrameInfo_new, u32.
  replace (read_s32 mem p) with (type_ wfi) by (symmetry; apply holds_read_s32; [lia|done]).
  assert (E: forall q' q z, fits 32 z -> holds mem q (le_bytes 4 z) -> q' = q -> wrap 32 (read_u32 mem q') = z).
  { intros q' q z Hz Hq ->. rewrite (holds_read_u32 mem q z) by done. by apply wrap_small. }
  assert (Hb: negb (read_le mem (p + 32) 1 =? 0) = allocates_base_pointer wfi).
  { replace (p + 32) with (p + Z.of_nat 4 + Z.of_nat 4 + Z.of_nat 4 + Z.of_nat 4 + Z.of_nat 4 + Z.of_nat 4 + Z.of_nat 4 + Z.of_nat 4)
      by lia.
    destruct (allocates_base_pointer wfi).
    - by rewrite (holds_read mem _ 1 255 Pb).
    - by rewrite (holds_read mem _ 1 0 Pb). }
  assert (Hprog: read_cstr mem (p + 33) = program_string wfi).
  { apply read_cstr_holds; [done|]. cbn [image BoolSerializer length] in Hh. revert Hh. cbn [image StringSerializer].
    match goal with |- holds _ ?q _ -> _ => by replace q with (p + 33) by lia end. }
  rewrite Hb, Hprog, (E (p + 8) _ _ H1 P1), (E (p + 12) _ _ H2 P2), (E (p + 16) _ _ H3 P3),
    (E (p + 20) _ _ H4 P4), (E (p + 24) _ _ H5 P5), (E (p + 28) _ _ H6 P6), <- Hv by lia.
  by destruct wfi.
Qed.

(** ** Writers one after the other *)

Lemma writes_then {V} (img1 img2 : V -> list Z) w1 w2 v :
  writes img1 w1 v -> writes img2 w2 v ->
  writes (λ v, img1 v ++ img2 v) (λ v mem dest, let '(mem, dest) := w1 v mem dest in w2 v mem dest) v.
Proof.
  intros H1 H2 a x c Hx. rewrite length_app in Hx. rewrite <- (take_drop (length (img1 v)) x), <- (assoc_L (++)).
  rewrite H1 by (rewrite length_take; lia). rewrite (assoc_L (++) a).
  replace (Z.of_nat (length a + length (img1 v))) with (Z.of_nat (length (a ++ img1 v))) by (by rewrite length_app).
  rewrite H2 by (rewrite length_drop; lia). rewrite <- !(assoc_L (++)), !length_app. f_equal. lia.
Qed.

(** The writer of one part of an object. *)
Lemma writes_part {V W} (f : V -> W) (img : W -> list Z) w v :
  writes img w (f v) -> writes (λ v, img (f v)) (λ v, w (f v)) v.
Proof. done. Qed.

Lemma writes_key (n : nat) z : writes (le_bytes n) (key_write n) z.
Proof. intros a x c Hx. rewrite length_le_bytes in *. by apply key_write_layout. Qed.

(** A whole block. *)
Lemma writes_whole {V} (img : V -> list Z) w v n :
  writes img w v -> n = length (img v) -> (w v (repeat 0 n) 0).1 = img v.
Proof.
  intros Hw ->. pose proof (Hw [] (repeat 0 (length (img v))) [] (repeat_length _ _)) as H.
  cbn [app length] in H. rewrite app_nil_r in H. change (Z.of_nat 0) with 0 in H. rewrite H. by rewrite app_nil_r.
Qed.

Lemma map_image_ext {V} n (img img' : V -> list Z) (m : smap V) :
  (forall v, v ∈ m.*2 -> img v = img' v) -> map_image n img m = map_image n img' m.
Proof.
  intros H. unfold map_image. do 2 f_equal.
  - generalize (values_start n m). induction m as [|[k v] m IH]; intros off; [done|]. cbn [offsets_image].
    rewrite (H v) by left. f_equal. apply IH. intros. apply H. by right.
  - f_equal. induction m as [|[k v] m IH]; [done|]. cbn [values_image]. rewrite (H v) by left. f_equal.
    apply IH. intros. apply H. by right.
Qed.

(** A value of a map is in the image of the map. *)
Lemma value_in_image {V} n (img : V -> list Z) (m : smap V) k v :
  (k, v) ∈ m -> (length (img v) <= length (map_image n img m))%nat.
Proof.
  intros Hin. pose proof (length_map_image n img m) as Hl. unfold values_start in Hl.
  assert (length (img v) <= length (values_image img m))%nat; [|lia].
  clear Hl. induction m as [|[k0 v0] m IH]; [by apply not_elem_of_nil in Hin|]. cbn [values_image]. rewrite length_app.
  apply elem_of_cons in Hin as [[= -> ->]|Hin]; [lia|]. specialize (IH Hin). lia.
Qed.

(** ** Functions *)

Definition lines_image (l : RangeMap Line) : list Z := map_image 8 (@range_image _ LineSerializer 8) (rmap l).

Definition function_image (f : Func) : list Z :=
  @image _ StringSerializer (func_name f) ++ le_bytes 8 (func_address f) ++ le_bytes 8 (func_size f) ++
  le_bytes 4 (func_parameter_size f) ++ lines_image (lines f).

Lemma line_ser_ok l : @ser_ok _ LineSerializer l.
Proof. unfold ser_ok. cbn. by rewrite !length_app, !length_le_bytes. Qed.

Lemma function_writes f : no_nul (func_name f) -> writes function_image function_write f.
Proof.
  intros Hs. unfold function_write.
  apply (writes_then (λ f, @image _ StringSerializer (func_name f)) _ (λ f, @simple_write _ StringSerializer (func_name f)) (λ f mem dest, _)).
  { apply writes_part, simple_writes, string_ser_ok, Hs. }
  apply (writes_then (λ f, le_bytes 8 (func_address f)) _ (λ f, key_write 8 (func_address f)) (λ f mem dest, _)).
  { apply (writes_part func_address), writes_key. }
  apply (writes_then (λ f, le_bytes 8 (func_size f)) _ (λ f, key_write 8 (func_size f)) (λ f mem dest, _)).
  { apply (writes_part func_size), writes_key. }
  apply (writes_then (λ f, le_bytes 4 (func_parameter_size f)) _ (λ f, key_write 4 (func_parameter_size f)) (λ f mem dest, _)).
  { apply (writes_part func_parameter_size), writes_key. }
  intros a x c Hx. apply write_map_layout; [|done]. intros r _. apply range_writes, line_ser_ok.
Qed.

Lemma function_image_size f :
  no_nul (func_name f) ->
  Z.of_nat (length (function_image f)) =
  @SizeOf _ StringSerializer (func_name f) + 8 + 8 + 4 + @RangeMap_SizeOf _ LineSerializer 8 (lines f).
Proof.
  intros Hs. unfold function_image. rewrite !length_app, !length_le_bytes, !Nat2Z.inj_add, (string_ser_ok _ Hs).
  unfold lines_image. rewrite <- (RangeMap_size 8 (lines f)) by (intros; apply line_ser_ok). lia.
Qed.

Lemma function_serialized heap p f :
  heap !! p = Some f -> no_nul (func_name f) -> Z.of_nat (length (function_image f)) < 2 ^ 32 ->
  @image _ (FunctionSerializer heap) p = function_image f /\ @ser_ok _ (FunctionSerializer heap) p.
Proof.
  intros Hp Hs Hlen. pose proof (function_image_size f Hs) as Hsz.
  assert (Hf: function_size f = Z.of_nat (length (function_image f)))
    by (unfold function_size; rewrite <- Hsz; apply wrap_small; unfold fits; lia).
  assert (Him: @image _ (FunctionSerializer heap) p = function_image f).
  { cbn [image FunctionSerializer]. rewrite Hp. apply (writes_whole function_image); [by apply function_writes|]. rewrite Hf. lia. }
  split; [done|]. unfold ser_ok. rewrite Him. cbn [SizeOf FunctionSerializer]. by rewrite Hp.
Qed.

(** ** Contained maps *)

Lemma entry_in_image {V} `{SimpleSerializer V} n (c : ContainedRangeMap V) :
  (length (image (centry c)) <= length (contained_image n c))%nat /\
  forall b h e, (b, h, e) ∈ ranges c -> (length (image e) <= length (contained_image n c))%nat.
Proof.
  induction c as [c IH] using contained_ind. destruct c as [b0 e0 om].
  assert (Hlen: (length (image e0) + length (map_image n (contained_image n) (kids (mkCRM b0 e0 om))) <=
    length (contained_image n (mkCRM b0 e0 om)))%nat) by (rewrite contained_image_eq, !length_app; lia).
  split; [cbn [centry]; lia|]. intros b h e Hin.
  assert (Hk: exists k c, (k, c) ∈ kids (mkCRM b0 e0 om) /\ ((b, h, e) = (cbase c, k, centry c) \/ (b, h, e) ∈ ranges c)).
  { destruct om as [l|]; [|by apply not_elem_of_nil in Hin]. cbn [ranges] in Hin.
    apply list_elem_of_In, in_flat_map in Hin as ([k c] & Hkc & Hin). exists k, c. split; [by apply list_elem_of_In|].
    destruct Hin as [<-|Hin]; [by left|right; by apply list_elem_of_In]. }
  destruct Hk as (k & c & Hkc & Hc). pose proof (value_in_image n (contained_image n) _ k c Hkc) as Hv.
  destruct (IH k c Hkc) as [He Hr]. destruct Hc as [[= -> -> ->]|Hc]; [lia|]. specialize (Hr _ _ _ Hc). lia.
Qed.

Lemma all_ser_ok_ranges {V} `{SimpleSerializer V} (c : ContainedRangeMap V) :
  ser_ok (centry c) -> (forall b h e, (b, h, e) ∈ ranges c -> ser_ok e) -> all_ser_ok c.
Proof.
  induction c as [c IH] using contained_ind. destruct c as [b0 e0 [l|]]; cbn [centry all_ser_ok]; [|done].
  intros He Hr. split; [done|]. unfold kids in IH. cbn [cmap] in IH. cbn [ranges] in Hr.
  induction l as [|[k c] l IHl]; [done|]. cbn [foldr flat_map] in *. split.
  - apply (IH k c); [left|..].
    + apply (Hr (cbase c) k). rewrite elem_of_app. left. left.
    + intros b h e Hin. apply (Hr b h). rewrite elem_of_app. left. by right.
  - apply IHl; [intros k' c' Hin; apply (IH k' c'); by right|]. intros b h e Hin. apply (Hr b h).
    rewrite elem_of_app. by right.
Qed.

(** The depth of the tree is less than the size of its image. *)
Lemma height_image {V} `{SimpleSerializer V} n (c : ContainedRangeMap V) : (height c < length (contained_image n c))%nat.
Proof.
  induction c as [c IH] using contained_ind. destruct c as [b0 e0 om].
  assert (Hlen: (length (map_image n (contained_image n) (kids (mkCRM b0 e0 om))) + 4 <=
    length (contained_image n (mkCRM b0 e0 om)))%nat) by (rewrite contained_image_eq, !length_app, !length_le_bytes; lia).
  destruct om as [l|]; [|cbn; unfold map_image in Hlen; rewrite length_app in Hlen; cbn in Hlen |- *; lia].
  assert (Hh: (height (mkCRM b0 e0 (Some l)) <= S (length (map_image n (contained_image n) l)))%nat); [|unfold kids in Hlen; cbn [cmap] in Hlen; lia].
  cbn [height]. apply le_n_S. unfold kids in IH. cbn [cmap] in IH.
  assert (Hall: forall k c, (k, c) ∈ l -> (height c <= length (map_image n (contained_image n) l))%nat).
  { intros k c Hin. pose proof (IH k c Hin). pose proof (value_in_image n (contained_image n) l k c Hin). lia. }
  clear -Hall. revert Hall. generalize (length (map_image n (contained_image n) l)) as b. intros b Hall.
  induction l as [|[k c] l IHl]; cbn [foldr snd]; [lia|]. pose proof (Hall k c ltac:(left)).
  assert (foldr (λ kc h, Nat.max (height kc.2) h) 0%nat l <= b)%nat; [|lia]. apply IHl. intros k' c' Hin. apply (Hall k'). by right.
Qed.

(** ** The whole module *)

(** The module is one that the format can hold: no text has a NUL inside and the
    [int] members are [int]s. *)
Definition int_ok (z : Z) : Prop := - 2 ^ 31 <= z < 2 ^ 31.

Record serializable (m : BasicModule) : Prop := {
  se_files : forall i n, (i, n) ∈ files_ m -> int_ok i /\ no_nul n;
  se_functions : forall p f, func_heap m !! p = Some f -> no_nul (func_name f) /\ int_ok (func_parameter_size f);
  se_lines : forall p f h r, func_heap m !! p = Some f -> (h, r) ∈ rmap (lines f) ->
    int_ok (source_file_id (rentry r)) /\ int_ok (line (rentry r));
  se_publics : forall k p, (k, p) ∈ amap (public_symbols_ m) -> no_nul (pub_name p);
  se_roots : forall i c, windows_frame_info_ m !! i = Some c -> cbase c = 0 /\ centry c = None;
  se_windows : forall i c b h fi, windows_frame_info_ m !! i = Some c -> (b, h, Some fi) ∈ ranges c -> no_nul (program_string fi);
  se_initial : forall h r, (h, r) ∈ rmap (cfi_initial_rules_ m) -> no_nul (rentry r);
  se_deltas : forall k d, (k, d) ∈ cfi_delta_rules_ m -> fits 64 k /\ no_nul d;
  se_public_keys : forall k p, (k, p) ∈ amap (public_symbols_ m) -> fits 64 k
}.

(** The images of the maps, in the order of the block. *)
Definition function_layout (heap : list Func) (p : func_ptr) : list Z :=
  match heap !! p with Some f => function_image f | None => [] end.

Definition files_image (m : BasicModule) := map_image 4 (@image _ StringSerializer) (files_ m).
Definition functions_image (m : BasicModule) :=
  map_image 8 (λ r, le_bytes 8 (rbase r) ++ function_layout (func_heap m) (rentry r)) (rmap (functions_ m)).
Definition publics_image (m : BasicModule) := map_image 8 (@image _ PublicSymbolSerializer) (amap (public_symbols_ m)).
Definition windows_image := @contained_image _ WindowsFrameInfoSerializer 8.
Definition initial_image (m : BasicModule) := map_image 8 (@range_image _ StringSerializer 8) (rmap (cfi_initial_rules_ m)).
Definition deltas_image (m : BasicModule) := map_image 8 (@image _ StringSerializer) (cfi_delta_rules_ m).

Definition map_images (m : BasicModule) : list (list Z) :=
  [files_image m; functions_image m; publics_image m] ++ (windows_image <$> windows_frame_info_ m) ++
  [initial_image m; deltas_image m].

Definition sizes_image (m : BasicModule) : list Z := map_sizes m ≫= le_bytes 4.

Definition module_image (m : BasicModule) : list Z :=
  [if is_corrupt_ m then 255 else 0] ++ sizes_image m ++ concat (map_images m) ++ [0].

(** The size of the block. *)
Definition module_size (m : BasicModule) : Z := Z.of_nat (length (module_image m)).

Section layout.
Context (m : BasicModule) (Hm : module_ok m) (Hs : serializable m) (Hsize : module_size m < 2 ^ 32).

Lemma map_image_small img : img ∈ map_images m -> Z.of_nat (length img) < 2 ^ 32.
Proof.
  intros Hin. unfold module_size, module_image in Hsize. rewrite !length_app in Hsize.
  assert (length img <= length (concat (map_images m)))%nat; [|lia].
  clear Hsize. induction (map_images m) as [|i l IH]; [by apply not_elem_of_nil in Hin|]. cbn [concat]. rewrite length_app.
  apply elem_of_cons in Hin as [->|Hin]; [lia|]. specialize (IH Hin). lia.
Qed.

Lemma in_images : files_image m ∈ map_images m /\ functions_image m ∈ map_images m /\ publics_image m ∈ map_images m /\
  initial_image m ∈ map_images m /\ deltas_image m ∈ map_images m /\
  forall i c, windows_frame_info_ m !! i = Some c -> windows_image c ∈ map_images m.
Proof.
  unfold map_images. split_and!; try (rewrite !elem_of_app, !elem_of_cons; tauto).
  intros i c Hc. rewrite !elem_of_app. right. left. apply list_elem_of_fmap. exists c. split; [done|].
  by apply list_elem_of_lookup_2 in Hc.
Qed.

(** Functions. *)
Lemma pointer_layout h r : (h, r) ∈ rmap (functions_ m) ->
  @image _ (FunctionSerializer (func_heap m)) (rentry r) = function_layout (func_heap m) (rentry r) /\
  @ser_ok _ (FunctionSerializer (func_heap m)) (rentry r).
Proof.
  intros Hin. destruct (mo_pointers m Hm h r Hin) as (f & Hf & _). unfold function_layout. rewrite Hf.
  apply function_serialized; [done|by eapply se_functions|].
  pose proof (value_in_image 8 (λ r, le_bytes 8 (rbase r) ++ function_layout (func_heap m) (rentry r)) _ h r Hin) as Hv.
  cbv beta in Hv. unfold function_layout at 1 in Hv. rewrite Hf, length_app in Hv.
  pose proof (map_image_small _ (proj1 (proj2 in_images))) as Hsm. unfold functions_image in Hsm. lia.
Qed.

Lemma functions_image_eq :
  functions_image m = map_image 8 (@range_image _ (FunctionSerializer (func_heap m)) 8) (rmap (functions_ m)).
Proof.
  apply map_image_ext. intros r ([h r'] & -> & Hin)%list_elem_of_fmap. cbn [snd]. unfold range_image.
  by rewrite (proj1 (pointer_layout h r' Hin)).
Qed.

(** STACK WIN records. *)
Lemma windows_ser_ok i c : windows_frame_info_ m !! i = Some c -> @all_ser_ok _ WindowsFrameInfoSerializer c.
Proof.
  intros Hc. destruct (se_roots m Hs i c Hc) as [_ Hroot]. apply all_ser_ok_ranges; [by rewrite Hroot|].
  intros b h e Hin. destruct (mo_window m Hm i c Hc) as [_ Hw]. destruct (Hw b h e Hin) as (fi & -> & _ & _).
  pose proof (se_windows m Hs i c b h fi Hc Hin) as Hn.
  pose proof (proj2 (@entry_in_image _ WindowsFrameInfoSerializer 8 c) b h (Some fi) Hin) as Hle.
  pose proof (map_image_small _ (proj2 (proj2 (proj2 (proj2 (proj2 in_images)))) i c Hc)) as Hsm.
  unfold windows_image in Hsm. unfold ser_ok. revert Hle. cbn [image SizeOf WindowsFrameInfoSerializer].
  pose proof (length_string_image _ Hn) as Hstr. rewrite !length_app, !length_le_bytes, !Nat2Z.inj_add.
  change (length (@image _ BoolSerializer (allocates_base_pointer fi))) with 1%nat. intros Hle.
  rewrite wrap_small; cbn [SizeOf StringSerializer]; unfold fits; lia.
Qed.

(** *** The sizes announced *)
Lemma publics_ser_ok k p : (k, p) ∈ amap (public_symbols_ m) -> @ser_ok _ PublicSymbolSerializer p.
Proof.
  intros Hin. pose proof (se_publics m Hs k p Hin) as Hn. unfold ser_ok. cbn [image SizeOf PublicSymbolSerializer].
  rewrite !length_app, !length_le_bytes, !Nat2Z.inj_add, (length_string_image _ Hn). cbn [SizeOf StringSerializer]. lia.
Qed.

Lemma map_sizes_eq : map_sizes m = (λ img, Z.of_nat (length img)) <$> map_images m.
Proof.
  unfold map_sizes, map_images. rewrite !fmap_app, <- list_fmap_compose. unfold compose.
  assert (Hw: forall z img, img ∈ map_images m -> z = Z.of_nat (length img) -> wrap 32 z = Z.of_nat (length img)).
  { intros z img Hin ->. apply wrap_small. pose proof (map_image_small img Hin). unfold fits. lia. }
  destruct in_images as (H1 & H2 & H3 & H4 & H5 & H6). f_equal; [|f_equal].
  - cbn [fmap list_fmap]. f_equal; [|f_equal; [|f_equal]].
    + apply Hw; [done|]. unfold files_image. apply (StdMap_size 4). intros k v Hin.
      by eapply string_ser_ok, (se_files m Hs).
    + apply Hw; [done|]. rewrite functions_image_eq. apply (RangeMap_size 8). intros k r Hin. by eapply pointer_layout.
    + apply Hw; [done|]. apply (StdMap_size 8). intros k p. apply publics_ser_ok.
  - rewrite <- list_fmap_compose. apply list_fmap_ext. intros i c Hc. unfold compose. apply Hw; [by eapply H6|].
    apply (Contained_size 8). by eapply windows_ser_ok.
  - cbn [fmap list_fmap]. f_equal; [|f_equal].
    + apply Hw; [done|]. apply (RangeMap_size 8). intros k r Hin. by eapply string_ser_ok, (se_initial m Hs).
    + apply Hw; [done|]. apply (StdMap_size 8). intros k v Hin. by eapply string_ser_ok, (se_deltas m Hs).
Qed.

Lemma length_map_images : length (map_images m) = 10%nat.
Proof. unfold map_images. rewrite !length_app, length_fmap, (mo_windows m Hm). done. Qed.

Lemma length_sizes_image : length (sizes_image m) = 40%nat.
Proof.
  assert (Hl: length (map_sizes m) = 10%nat) by (rewrite map_sizes_eq, length_fmap; apply length_map_images).
  unfold sizes_image. revert Hl. generalize (map_sizes m) as l. intros l Hl.
  assert (length (l ≫= le_bytes 4) = (4 * length l)%nat) as ->; [|lia].
  clear Hl. induction l as [|z l IH]; [done|]. cbn [mbind list_bind]. rewrite length_app, length_le_bytes, IH. cbn [length]. lia.
Qed.

Lemma Module_SizeOf_eq : Module_SizeOf m = module_size m.
Proof.
  unfold Module_SizeOf, module_size, module_image. rewrite !length_app, length_sizes_image, map_sizes_eq.
  assert (H: forall l : list (list Z), foldr Z.add 0 ((λ img, Z.of_nat (length img)) <$> l) = Z.of_nat (length (concat l)))
    by (induction l as [|i l IH]; [done|]; cbn [fmap list_fmap foldr concat]; rewrite IH, length_app; lia).
  rewrite H. cbn [length]. change (kNumberMaps_ * 4) with 40. lia.
Qed.

(** *** What is written *)
Lemma windows_writes ws :
  (forall c, c ∈ ws -> @all_ser_ok _ WindowsFrameInfoSerializer c) ->
  writes (λ ws, concat (windows_image <$> ws)) windows_write ws.
Proof.
  induction ws as [|c ws IH]; intros Hok a x z Hx.
  - cbn in *. destruct x; [|done]. f_equal. lia.
  - cbn [fmap list_fmap concat windows_write] in *.
    pose proof (writes_then (λ _ : unit, windows_image c) (λ _, concat (windows_image <$> ws))
      (λ _, @ContainedRangeMap_write _ WindowsFrameInfoSerializer 8 c) (λ _, windows_write ws) ()) as H.
    apply H; [|by apply IH; intros; apply Hok; right|done].
    intros a' x' c' Hx'. apply (contained_writes 8 c); [apply Hok; left|done].
Qed.

Lemma Module_writes : writes module_image Module_Write m.
Proof.
  assert (H: writes (λ _ : unit, [if is_corrupt_ m then 255 else 0] ++ sizes_image m ++ files_image m ++ functions_image m ++
    publics_image m ++ concat (windows_image <$> windows_frame_info_ m) ++ initial_image m ++ deltas_image m ++ [0])
    (λ _, Module_Write m) ()).
  { unfold Module_Write.
    apply (writes_then (λ _, [if is_corrupt_ m then 255 else 0]) _ (λ _, @simple_write _ BoolSerializer (is_corrupt_ m)) (λ _ mem dest, _)).
    { intros a x c Hx. by apply (@simple_writes _ BoolSerializer (is_corrupt_ m)). }
    apply (writes_then (λ _, sizes_image m) _ (λ _, header_write m) (λ _ mem dest, _)).
    { intros a x c Hx. unfold header_write. rewrite write_bytes_app by done. f_equal. rewrite length_sizes_image.
      change (kNumberMaps_ * 4) with 40. lia. }
    apply (writes_then (λ _, files_image m) _ (λ _, @StdMap_write _ StringSerializer 4 (files_ m)) (λ _ mem dest, _)).
    { intros a x c Hx. apply write_map_layout; [|done]. intros v ([k v'] & -> & Hin)%list_elem_of_fmap.
      by eapply simple_writes, string_ser_ok, (se_files m Hs). }
    apply (writes_then (λ _, functions_image m) _ (λ _, @RangeMap_write _ (FunctionSerializer (func_heap m)) 8 (functions_ m)) (λ _ mem dest, _)).
    { intros a x c Hx. rewrite functions_image_eq in *. apply write_map_layout; [|done].
      intros v ([k v'] & -> & Hin)%list_elem_of_fmap. by eapply range_writes, pointer_layout. }
    apply (writes_then (λ _, publics_image m) _ (λ _, @StdMap_write _ PublicSymbolSerializer 8 (amap (public_symbols_ m))) (λ _ mem dest, _)).
    { intros a x c Hx. apply write_map_layout; [|done]. intros v ([k v'] & -> & Hin)%list_elem_of_fmap.
      by eapply simple_writes, publics_ser_ok. }
    apply (writes_then (λ _, concat (windows_image <$> windows_frame_info_ m)) _ (λ _, windows_write (windows_frame_info_ m)) (λ _ mem dest, _)).
    { intros a x c Hx. apply windows_writes; [|done]. intros c' [i Hi]%list_elem_of_lookup. by eapply windows_ser_ok. }
    apply (writes_then (λ _, initial_image m) _ (λ _, @RangeMap_write _ StringSerializer 8 (cfi_initial_rules_ m)) (λ _ mem dest, _)).
    { intros a x c Hx. apply write_map_layout; [|done]. intros v ([k v'] & -> & Hin)%list_elem_of_fmap.
      by eapply range_writes, string_ser_ok, (se_initial m Hs). }
    apply (writes_then (λ _, deltas_image m) _ (λ _, @StdMap_write _ StringSerializer 8 (cfi_delta_rules_ m)) (λ _ mem dest, _)).
    { intros a x c Hx. apply write_map_layout; [|done]. intros v ([k v'] & -> & Hin)%list_elem_of_fmap.
      by eapply simple_writes, string_ser_ok, (se_deltas m Hs). }
    intros a x c Hx. by apply (@simple_writes _ (IntSerializer 1) 0). }
  assert (Himg: module_image m = [if is_corrupt_ m then 255 else 0] ++ sizes_image m ++ files_image m ++ functions_image m ++
    publics_image m ++ concat (windows_image <$> windows_frame_info_ m) ++ initial_image m ++ deltas_image m ++ [0]).
  { unfold module_image, map_images. rewrite !concat_app. cbn [concat app]. rewrite !app_nil_r, <- !(assoc_L (++)). done. }
  unfold writes. rewrite Himg. exact H.
Qed.

Lemma Module_Serialize_image alloc :
  alloc_ok alloc -> Module_Serialize alloc m = Some (module_image m, module_size m).
Proof.
  intros Ha. unfold Module_Serialize. rewrite <- Module_SizeOf_eq.
  apply (serialize_image Module_SizeOf Module_Write module_image alloc m Ha Module_writes).
  - by rewrite Module_SizeOf_eq.
  - by rewrite Module_SizeOf_eq.
Qed.
End layout.
