(* ===== verification/FastRefines.v ===== *)
(** [FastSourceLineResolver::Module] over the block that [ModuleSerializer] wrote
    (FastResolver.v, FastImage.v) answers every lookup as the module that was
    serialized. *)
From Stdlib Require Import Ascii.
From stdpp Require Import strings list gmap.
From S2P Require Import Prelude StdMap Memory RangeMap AddressMap ContainedRangeMap StaticMap MapSerializers StaticRangeMap CStr StrMap MemoryRegion PostfixEvaluator CfiFrameInfo SymbolFile BasicResolver BasicInvariant SymbolLoad ResolverLookup CodeModules ResolverBase FastResolver FastImage.

(** ** The header *)

Lemma holds_concat mem imgs : forall p i img,
  holds mem p (concat imgs) -> imgs !! i = Some img ->
  holds mem (p + Z.of_nat (length (concat (take i imgs)))) img.
Proof.
  induction imgs as [|img0 imgs IH]; intros p i img Hh Hi; [done|]. cbn [concat] in Hh. apply holds_app in Hh as [H1 H2].
  destruct i as [|i].
  - injection Hi as ->. cbn. by rewrite Z.add_0_r.
  - cbn [take concat]. rewrite length_app, Nat2Z.inj_add, Z.add_assoc. by apply IH.
Qed.

Lemma map_offsets_lookup mem (imgs : list (list Z)) : forall p off i,
  holds mem p (((λ img, Z.of_nat (length img)) <$> imgs) ≫= le_bytes 4) -> 0 <= off ->
  off + Z.of_nat (length (concat imgs)) < 2 ^ 32 -> (i < length imgs)%nat ->
  map_offsets mem p (length imgs) off !! i = Some (off + Z.of_nat (length (concat (take i imgs)))).
Proof.
  induction imgs as [|img imgs IH]; intros p off i Hh Hoff Hlen Hi; [cbn in Hi; lia|].
  cbn [fmap list_fmap mbind list_bind] in Hh. apply holds_app in Hh as [H1 H2]. rewrite length_le_bytes in H2.
  cbn [concat] in Hlen. rewrite length_app in Hlen. cbn [length map_offsets]. destruct i as [|i].
  - cbn. f_equal. lia.
  - cbn [lookup list_lookup take concat]. rewrite length_app.
    assert (E: read_u32 mem p = Z.of_nat (length img)) by (apply holds_read_u32; [unfold fits; lia|done]).
    rewrite E, wrap_small by (unfold fits; lia). rewrite (IH (p + 4)).
    + f_equal. lia.
    + exact H2.
    + lia.
    + lia.
    + cbn in Hi. lia.
Qed.

(** ** A loaded module *)

Section refines.
Context (m : BasicModule) (Hm : module_ok m) (Hs : serializable m) (Hsize : module_size m < 2 ^ 32).
Context (name buffer : cstring) (Hbuf : holds (bytes_of buffer) 0 (module_image m)).
Notation mem := (bytes_of buffer).

(** Where the [i]-th map begins. *)
Definition map_base (i : nat) : Z := 1 + (40 + Z.of_nat (length (concat (take i (map_images m))))).

Definition fast_module : FastModule :=
  mkFastModule name mem (is_corrupt_ m) (StaticMap_at mem (map_base 0)) (StaticMap_at mem (map_base 1))
    (StaticMap_at mem (map_base 2)) ((λ i, StaticContainedRangeMap_at 8 mem (map_base i)) <$> seq 3 5)
    (StaticMap_at mem (map_base 8)) (StaticMap_at mem (map_base 9)).

Lemma block_parts : holds mem 0 [if is_corrupt_ m then 255 else 0] /\ holds mem 1 (sizes_image m) /\
  holds mem 41 (concat (map_images m)).
Proof.
  pose proof Hbuf as H. unfold module_image in H. apply holds_app in H as [H1 H]. apply holds_app in H as [H2 H].
  apply holds_app in H as [H3 _]. rewrite (length_sizes_image m Hm Hs Hsize) in H3. by split_and!.
Qed.

Lemma FastLoad_eq : FastLoadMapFromMemory (FastModule_new name) buffer = Ok (true, fast_module).
Proof.
  destruct block_parts as (H1 & H2 & H3). unfold FastLoadMapFromMemory. cbv zeta.
  assert (Hc: negb (read_le mem 0 1 =? 0) = is_corrupt_ m).
  { destruct (is_corrupt_ m); [by rewrite (holds_read mem 0 1 255 H1)|by rewrite (holds_read mem 0 1 0 H1)]. }
  rewrite Hc. change (kNumberMaps_ * 4) with 40. change (Z.to_nat kNumberMaps_) with 10%nat. change (Z.to_nat STACK_INFO_LAST) with 5%nat.
  assert (Hat: forall i, (i < 10)%nat -> 1 + default 0 (map_offsets mem 1 10 40 !! i) = map_base i).
  { intros i Hi. unfold map_base. f_equal. rewrite <- (length_map_images m Hm).
    rewrite map_offsets_lookup; [done| |lia| |by rewrite (length_map_images m Hm)].
    - unfold sizes_image in H2. by rewrite (map_sizes_eq m Hm Hs Hsize) in H2.
    - pose proof (length_sizes_image m Hm Hs Hsize) as Hsz. pose proof Hsize as Hz. unfold module_size, module_image in Hz.
      rewrite !length_app, Hsz in Hz. cbn [length] in Hz. lia. }
  unfold fast_module. rewrite !Hat by lia. cbn [seq fmap list_fmap]. rewrite !Hat by lia. done.
Qed.

Lemma map_at i img : map_images m !! i = Some img -> holds mem (map_base i) img /\ Z.of_nat (length img) < 2 ^ 32.
Proof.
  intros Hi. destruct block_parts as (_ & _ & H3). split.
  - unfold map_base. rewrite Z.add_assoc. by apply holds_concat.
  - by apply (map_image_small m Hsize), list_elem_of_lookup_2 with i.
Qed.

Lemma files_described : describes 4 (swrap 32) (@image _ StringSerializer) mem (fast_files fast_module) (map_base 0) (files_ m).
Proof.
  destruct (map_at 0 (files_image m) eq_refl) as [Hh Hl]. apply map_image_describes; try done.
  - apply (mo_files m Hm).
  - intros i n Hin. destruct (se_files m Hs i n Hin) as [Hi _]. unfold int_ok in Hi. unfold swrap, wrap.
    change (8 * Z.of_nat 4) with 32. rewrite Zplus_mod_idemp_l. apply (swrap_small 32); lia.
  - by apply (nodes_of_size 4 (@image _ StringSerializer)).
Qed.

Lemma functions_described :
  describes 8 id (@range_image _ (FunctionSerializer (func_heap m)) 8) mem (fast_functions fast_module) (map_base 1) (rmap (functions_ m)).
Proof.
  destruct (map_at 1 (functions_image m) eq_refl) as [Hh Hl]. rewrite (functions_image_eq m Hm Hs Hsize) in Hh, Hl.
  apply map_image_describes_id; try done.
  - apply (mo_functions m Hm).
  - intros h r Hin. destruct (ok_range 64 _ (mo_functions m Hm) h r Hin). unfold fits. lia.
  - by eapply (nodes_of_size 8).
Qed.

Lemma publics_described :
  describes 8 id (@image _ PublicSymbolSerializer) mem (fast_publics fast_module) (map_base 2) (amap (public_symbols_ m)).
Proof.
  destruct (map_at 2 (publics_image m) eq_refl) as [Hh Hl]. apply map_image_describes_id; try done.
  - apply (mo_publics m Hm).
  - apply (se_public_keys m Hs).
  - by eapply (nodes_of_size 8).
Qed.

Lemma initial_described :
  describes 8 id (@range_image _ StringSerializer 8) mem (fast_cfi_initial fast_module) (map_base 8) (rmap (cfi_initial_rules_ m)).
Proof.
  destruct (map_at 8 (initial_image m)) as [Hh Hl].
  { unfold map_images. pose proof (mo_windows m Hm) as Hw. rewrite lookup_app_r by (cbn; lia).
    rewrite lookup_app_r by (rewrite length_fmap, Hw; cbn; lia). by rewrite length_fmap, Hw. }
  apply map_image_describes_id; try done.
  - apply (mo_cfi m Hm).
  - intros h r Hin. destruct (ok_range 64 _ (mo_cfi m Hm) h r Hin). unfold fits. lia.
  - by eapply (nodes_of_size 8).
Qed.

Lemma deltas_described :
  describes 8 id (@image _ StringSerializer) mem (fast_cfi_delta fast_module) (map_base 9) (cfi_delta_rules_ m).
Proof.
  destruct (map_at 9 (deltas_image m)) as [Hh Hl].
  { unfold map_images. pose proof (mo_windows m Hm) as Hw. rewrite lookup_app_r by (cbn; lia).
    rewrite lookup_app_r by (rewrite length_fmap, Hw; cbn; lia). by rewrite length_fmap, Hw. }
  apply map_image_describes_id; try done.
  - apply (mo_deltas m Hm).
  - intros k d Hin. by destruct (se_deltas m Hs k d Hin).
  - by eapply (nodes_of_size 8).
Qed.

(** ** The lookups *)

Lemma fast_file_eq id : fast_file fast_module id = lookup_key (files_ m) id.
Proof.
  pose proof files_described as Hd. unfold fast_file, lookup_key. cbn [fast_buffer fast_module].
  change (fast_files fast_module) with (StaticMap_at mem (map_base 0)) in *.
  rewrite (describes_find _ _ _ _ _ _ _ _ Hd). cbn [mbind option_bind].
  rewrite !(describes_iterator _ _ _ _ _ _ _ _ Hd). cbn [mbind option_bind].
  rewrite iterator_eq_at, (de_num _ _ _ _ _ _ _ Hd).
  destruct (Z.of_nat (find (files_ m) id) =? Z.of_nat (length (files_ m))) eqn:E; breflect.
  { by rewrite lookup_ge_None_2 by lia. }
  assert (Hle: (find (files_ m) id <= length (files_ m))%nat).
  { unfold find. pose proof (lower_bound_le (files_ m) id). destruct (files_ m !! _) as [[k v]|]; [|lia]. destruct (k =? id); lia. }
  destruct (lookup_lt_is_Some_2 (files_ m) (find (files_ m) id)) as [[k n] Hl]; [lia|]. rewrite Hl.
  destruct (describes_node _ _ _ _ _ _ _ _ _ _ Hd Hl) as (p & -> & _ & Hh). cbn. f_equal.
  apply read_cstr_holds; [|done]. by eapply (se_files m Hs), list_elem_of_lookup_2.
Qed.

(** A function in the block. *)
Lemma function_at_block p h r f :
  (h, r) ∈ rmap (functions_ m) -> func_heap m !! rentry r = Some f ->
  holds mem p (@image _ (FunctionSerializer (func_heap m)) (rentry r)) ->
  let g := function_CopyFrom mem p in
  fast_func_name g = func_name f /\ fast_func_parameter_size g = func_parameter_size f /\
  exists base, describes 8 id (@range_image _ LineSerializer 8) mem (fast_func_lines g) base (rmap (lines f)).
Proof.
  intros Hin Hf Hh. rewrite (proj1 (pointer_layout m Hm Hs Hsize h r Hin)) in Hh. unfold function_layout in Hh. rewrite Hf in Hh.
  destruct (se_functions m Hs _ _ Hf) as [Hn Hp]. destruct (mo_lines m Hm _ _ Hf) as (Hok & _ & _).
  assert (Hlen: Z.of_nat (length (lines_image (lines f))) < 2 ^ 32).
  { pose proof (value_in_image 8 (λ r, le_bytes 8 (rbase r) ++ function_layout (func_heap m) (rentry r)) _ h r Hin) as Hv.
    cbv beta in Hv. unfold function_layout at 1 in Hv. rewrite Hf in Hv. unfold function_image in Hv. rewrite !length_app in Hv.
    destruct (map_at 1 (functions_image m) eq_refl) as [_ Hsm]. unfold functions_image in Hsm. lia. }
  unfold function_image in Hh. apply holds_app in Hh as [H1 Hh]. pose proof (length_string_image _ Hn) as Hstr.
  apply holds_app in Hh as [_ Hh]. apply holds_app in Hh as [_ Hh]. apply holds_app in Hh as [H4 H5].
  rewrite !length_le_bytes in H4, H5. unfold function_CopyFrom. cbn [fast_func_name fast_func_parameter_size fast_func_lines].
  rewrite (read_cstr_holds _ _ _ Hn H1). split; [done|]. rewrite Hstr in H4, H5. split.
  - apply holds_read_s32; [done|]. by replace (p + (Z.of_nat (length (func_name f)) + 1) + 16)
      with (p + (Z.of_nat (length (func_name f)) + 1) + Z.of_nat 8 + Z.of_nat 8) by lia.
  - eexists. apply map_image_describes_id; [|apply Hok| |by eapply (nodes_of_size 8)|exact Hlen].
    + by replace (p + (Z.of_nat (length (func_name f)) + 1) + 20)
        with (p + (Z.of_nat (length (func_name f)) + 1) + Z.of_nat 8 + Z.of_nat 8 + Z.of_nat 4) by lia.
    + intros h' r' Hin'. destruct (ok_range 64 _ Hok h' r' Hin'). unfold fits. lia.
Qed.

Lemma line_at_block p f q h r :
  func_heap m !! q = Some f -> (h, r) ∈ rmap (lines f) -> holds mem p (@image _ LineSerializer (rentry r)) ->
  source_file_id (line_CopyFrom mem p) = source_file_id (rentry r) /\ line (line_CopyFrom mem p) = line (rentry r).
Proof. intros Hf Hin Hh. destruct (se_lines m Hs q f h r Hf Hin). by apply line_CopyFrom_holds. Qed.

(** The nearest function, in both. *)
Lemma nearest_agrees a :
  match RetrieveNearestRange 64 (functions_ m) a, StaticRetrieveNearestRange 8 mem (fast_functions fast_module) a with
  | Some x, Some (p, b, s) => b = ret_base x /\ s = ret_size x /\
      exists h r f, (h, r) ∈ rmap (functions_ m) /\ ret_entry x = rentry r /\ func_heap m !! rentry r = Some f /\
        holds mem p (@image _ (FunctionSerializer (func_heap m)) (rentry r))
  | None, None => True
  | _, _ => False
  end.
Proof.
  pose proof (@StaticRetrieveNearestRange_agrees _ (FunctionSerializer (func_heap m)) 8 ltac:(lia) mem _ _ (functions_ m) a
    (mo_functions m Hm) functions_described) as Ha.
  change (8 * Z.of_nat 8) with 64 in Ha. unfold agrees in Ha.
  pose proof (RetrieveNearestRange_spec 64 ltac:(lia) (functions_ m) a (mo_functions m Hm)) as Hn.
  destruct (RetrieveNearestRange 64 (functions_ m) a) as [x|]; [|by rewrite Ha].
  destruct Ha as (p & -> & Hh). destruct Hn as (h & r & Hin & -> & _). split; [done|]. split; [done|].
  destruct (mo_pointers m Hm h r Hin) as (f & Hf & _). by exists h, r, f.
Qed.

Lemma public_agrees a :
  match Retrieve (public_symbols_ m) a, StaticRetrieve 8 mem (fast_publics fast_module) a with
  | Some (s, k), Some (p, k') => k' = k /\ pub_name (public_CopyFrom mem p) = pub_name s
  | None, None => True
  | _, _ => False
  end.
Proof.
  pose proof (@StaticRetrieve_agrees _ PublicSymbolSerializer 8 ltac:(lia) mem _ _ (public_symbols_ m) a publics_described) as Ha.
  pose proof (λ s k, Retrieve_Some (public_symbols_ m) a s k (mo_publics m Hm)) as Hr.
  destruct (Retrieve (public_symbols_ m) a) as [[s k]|]; [|by rewrite Ha].
  destruct Ha as (p & -> & Hh). split; [done|]. apply public_CopyFrom_holds; [|done].
  destruct (proj1 (Hr s k) eq_refl) as [Hin _]. by eapply (se_publics m Hs).
Qed.

Lemma FastLookup_eq base frame : Ok (FastLookupAddress fast_module base frame) = LookupAddress m base frame.
Proof.
  unfold FastLookupAddress, LookupAddress. cbn [fast_buffer fast_module].
  set (a := wrap 64 (instruction frame - base)). pose proof (nearest_agrees a) as Hn. pose proof (public_agrees a) as Hp.
  change (fast_functions _) with (fast_functions fast_module). change (fast_publics _) with (fast_publics fast_module).
  destruct (RetrieveNearestRange 64 (functions_ m) a) as [x|],
    (StaticRetrieveNearestRange 8 mem (fast_functions fast_module) a) as [[[p b] s]|]; try done.
  2: { destruct (Retrieve (public_symbols_ m) a) as [[s k]|], (StaticRetrieve 8 mem (fast_publics fast_module) a) as [[p k']|];
       try done. destruct Hp as [-> ->]. done. }
  destruct Hn as (-> & -> & h & r & f & Hin & -> & Hf & Hh). rewrite Hf.
  destruct (in_function a (ret_base x) (ret_size x)).
  - destruct (function_at_block p h r f Hin Hf Hh) as (-> & _ & lb & Hd).
    destruct (mo_lines m Hm _ _ Hf) as (Hok & _ & _).
    pose proof (@StaticRetrieveRange_agrees _ LineSerializer 8 ltac:(lia) mem _ _ (lines f) a Hok Hd) as Ha.
    change (8 * Z.of_nat 8) with 64 in Ha. unfold agrees in Ha.
    destruct (RetrieveRange 64 (lines f) a) as [y|] eqn:Ey; [|by rewrite Ha].
    destruct Ha as (q & -> & Hq). apply RetrieveRange_Some in Ey as (lh & lr & Hl & _ & ->); [|done].
    destruct (line_at_block q f (rentry r) lh lr Hf Hl Hq) as [-> ->]. by rewrite fast_file_eq.
  - destruct (Retrieve (public_symbols_ m) a) as [[s k]|], (StaticRetrieve 8 mem (fast_publics fast_module) a) as [[q k']|];
      try done. destruct Hp as [-> ->]. by destruct (ret_base x <? k).
Qed.

(** STACK WIN records. *)
Lemma windows_at i c :
  windows_frame_info_ m !! i = Some c -> map_images m !! (3 + i)%nat = Some (windows_image c) /\
  fast_windows fast_module !! i = Some (StaticContainedRangeMap_at 8 mem (map_base (3 + i))).
Proof.
  intros Hc. pose proof (lookup_lt_Some _ _ _ Hc) as Hi. rewrite (mo_windows m Hm) in Hi. split.
  - unfold map_images. rewrite lookup_app_r by (cbn; lia). rewrite lookup_app_l by (rewrite length_fmap, (mo_windows m Hm); cbn; lia).
    cbn [length]. replace (3 + i - 3)%nat with i by lia. by rewrite list_lookup_fmap, Hc.
  - cbn [fast_windows fast_module]. by rewrite list_lookup_fmap, lookup_seq_lt by done.
Qed.

Lemma windows_agrees i c a :
  windows_frame_info_ m !! i = Some c ->
  match RetrieveContained c a with
  | Some e => exists fi q, e = Some fi /\ CopyWFI mem q = fi /\ retrieve_fast_windows fast_module (Z.of_nat i) a = Some (Some q)
  | None => retrieve_fast_windows fast_module (Z.of_nat i) a = None
  end.
Proof.
  intros Hc. destruct (windows_at i c Hc) as [Hi Hw]. destruct (map_at _ _ Hi) as [Hh Hl].
  destruct (mo_window m Hm i c Hc) as [Hok Hwin]. destruct (se_roots m Hs i c Hc) as [Hb _].
  assert (Hf: @fits_format _ WindowsFrameInfoSerializer 8 c).
  { eapply (@tree_fits_format _ WindowsFrameInfoSerializer 8); [exact Hok|done|lia| | |exact Hl].
    - rewrite Hb. done.
    - by apply (windows_ser_ok m Hm Hs Hsize i). }
  destruct (@StaticContained_at_image _ WindowsFrameInfoSerializer 8 ltac:(lia) mem _ c Hf Hh) as (_ & _ & base & Hd).
  assert (Hfuel: (height c < S (length mem))%nat).
  { pose proof (@height_image _ WindowsFrameInfoSerializer 8 c) as Hhi. destruct Hh as [_ Hh].
    apply (f_equal length) in Hh. unfold windows_image, slice in Hh. rewrite length_take, length_drop in Hh. lia. }
  pose proof (@StaticRetrieveContained_agrees _ WindowsFrameInfoSerializer 8 ltac:(lia) mem _ c _ base a Hf Hd Hfuel) as Ha.
  unfold retrieve_fast_windows. rewrite Nat2Z.id, Hw. cbn [fast_buffer fast_module].
  pose proof (RetrieveContained_spec 64 c a Hok) as Hr.
  destruct (RetrieveContained c a) as [e|]; [|done]. destruct Hr as (b & h & Hin & _).
  destruct (Hwin b h e Hin) as (fi & -> & _ & Hfi). pose proof (se_windows m Hs i c b h fi Hc Hin) as Hn.
  destruct (StaticRetrieveContained _ _ _ _ _) as [[q|]|]; [|done|done].
  exists fi, q. split; [done|]. split; [by apply CopyWFI_holds|done].
Qed.

Lemma FastFindWindows_eq base frame : FastFindWindowsFrameInfo fast_module base frame = FindWindowsFrameInfo m base frame.
Proof.
  unfold FastFindWindowsFrameInfo, FindWindowsFrameInfo. cbn [fast_buffer fast_module].
  set (a := wrap 64 (instruction frame - base)). pose proof (nearest_agrees a) as Hn.
  change (fast_functions _) with (fast_functions fast_module).
  assert (Hget: forall i, (i < 5)%nat -> exists c, windows_frame_info_ m !! i = Some c)
    by (intros i Hi; apply lookup_lt_is_Some; by rewrite (mo_windows m Hm)).
  destruct (Hget 4%nat ltac:(lia)) as [fd Hfd], (Hget 0%nat ltac:(lia)) as [fpo Hfpo].
  pose proof (windows_agrees 4 fd a Hfd) as H4. pose proof (windows_agrees 0 fpo a Hfpo) as H0.
  unfold retrieve_windows, STACK_INFO_FRAME_DATA, STACK_INFO_FPO. change (Z.to_nat 4) with 4%nat. change (Z.to_nat 0) with 0%nat.
  change (Z.of_nat 4) with 4 in H4. change (Z.of_nat 0) with 0 in H0. rewrite Hfd, Hfpo.
  fold fast_module. destruct (RetrieveContained fd a) as [e|].
  { destruct H4 as (fi & q & -> & Hq & ->). by rewrite Hq. }
  rewrite H4. destruct (RetrieveContained fpo a) as [e|].
  { destruct H0 as (fi & q & -> & Hq & ->). by rewrite Hq. }
  rewrite H0. destruct (RetrieveNearestRange 64 (functions_ m) a) as [x|],
    (StaticRetrieveNearestRange 8 mem (fast_functions fast_module) a) as [[[p b] s]|]; try done.
  destruct Hn as (-> & -> & h & r & f & Hin & -> & Hf & Hh). rewrite Hf.
  destruct (function_at_block p h r f Hin Hf Hh) as (_ & -> & _). done.
Qed.

(** STACK CFI records. *)
Lemma increment_iter sm base (l : smap cstring) (i : nat) :
  describes 8 id (@image _ StringSerializer) mem sm base l -> (i < length l)%nat ->
  increment (iter_at sm base (Z.of_nat i)) = iter_at sm base (Z.of_nat (S i)).
Proof.
  intros Hd Hi. pose proof (de_num _ _ _ _ _ _ _ Hd) as Hn. unfold increment, IsValid, iter_at, set_index. cbn [it_base it_index it_num_nodes it_offsets it_keys].
  rewrite (proj2 (Z.ltb_ge _ _)), (proj2 (Z.ltb_ge _ _)) by lia. cbn [orb negb].
  rewrite (proj2 (Z.ltb_ge _ _)) by lia. f_equal. lia.
Qed.

Lemma fast_deltas_eq a fuel : forall (i : nat) rules,
  (i <= length (cfi_delta_rules_ m))%nat -> (length (cfi_delta_rules_ m) - i < fuel)%nat ->
  fast_deltas fuel fast_module a (iter_at (fast_cfi_delta fast_module) (map_base 9) (Z.of_nat i)) rules =
  apply_deltas a (drop i (cfi_delta_rules_ m)) rules.
Proof.
  pose proof deltas_described as Hd. induction fuel as [|fuel IH]; intros i rules Hi Hfuel; [lia|]. cbn [fast_deltas].
  change (fast_buffer fast_module) with mem.
  rewrite !(describes_iterator _ _ _ _ _ _ _ _ Hd), iterator_eq_at, (de_num _ _ _ _ _ _ _ Hd).
  destruct (Z.of_nat i =? Z.of_nat (length (cfi_delta_rules_ m))) eqn:E; breflect; [by rewrite drop_ge by lia|].
  destruct (lookup_lt_is_Some_2 (cfi_delta_rules_ m) i) as [[k d] Hk]; [lia|].
  destruct (describes_node _ _ _ _ _ _ _ _ _ _ Hd Hk) as (p & -> & -> & Hh).
  rewrite (drop_S _ _ _ Hk). cbn [apply_deltas]. destruct (k <=? a); [|done].
  rewrite (increment_iter _ _ _ _ Hd) by lia. rewrite IH by lia. do 3 f_equal.
  apply read_cstr_holds; [|done]. by apply list_elem_of_lookup_2, (se_deltas m Hs) in Hk as [_ ?].
Qed.

Lemma FastFindCFI_eq base frame : FastFindCFIFrameInfo fast_module base frame = FindCFIFrameInfo m base frame.
Proof.
  unfold FastFindCFIFrameInfo, FindCFIFrameInfo. change (fast_buffer fast_module) with mem.
  set (a := wrap 64 (instruction frame - base)).
  pose proof (@StaticRetrieveRange_agrees _ StringSerializer 8 ltac:(lia) mem _ _ (cfi_initial_rules_ m) a (mo_cfi m Hm) initial_described) as Ha.
  change (8 * Z.of_nat 8) with 64 in Ha. unfold agrees in Ha.
  destruct (RetrieveRange 64 (cfi_initial_rules_ m) a) as [x|] eqn:Ex; [|by rewrite Ha].
  destruct Ha as (p & -> & Hh). apply RetrieveRange_Some in Ex as (h & r & Hin & _ & ->); [|apply (mo_cfi m Hm)].
  rewrite (read_cstr_holds _ _ _ (se_initial m Hs h r Hin) Hh).
  destruct (ParseCFIRuleSet _ _) as [[] rules]; cbn [negb]; [|done].
  pose proof deltas_described as Hd. rewrite (describes_lower_bound _ _ _ _ _ _ _ _ Hd). cbn [mbind option_bind].
  rewrite (describes_iterator _ _ _ _ _ _ _ _ Hd). cbn [mbind option_bind].
  rewrite fast_deltas_eq; [done|apply lower_bound_le|]. rewrite (de_num _ _ _ _ _ _ _ Hd). lia.
Qed.
End refines.
