(* ===== verification/FastLoad.v ===== *)
(** Every module that [BasicSourceLineResolver] loads from a text can be
    serialized, and [FastSourceLineResolver] over the serialized form answers as
    the basic resolver does over the text (FastResolver.v, FastRefines.v). *)
From Stdlib Require Import Ascii.
From stdpp Require Import strings list gmap.
From S2P Require Import Prelude StdMap Memory RangeMap AddressMap ContainedRangeMap StaticMap MapSerializers StaticRangeMap CStr StrMap MemoryRegion PostfixEvaluator CfiFrameInfo SymbolFile BasicResolver BasicInvariant SymbolLoad ResolverLookup CodeModules ResolverBase FastResolver FastImage FastRefines.

(** ** Texts without NULs *)

Lemma no_nul_nil : no_nul [].
Proof. constructor. Qed.

Lemma no_nul_app_inv a b : no_nul (a ++ b) -> no_nul a /\ no_nul b.
Proof. apply Forall_app. Qed.

Lemma no_nul_tail s : no_nul s -> no_nul (tail s).
Proof. intros H. destruct s; [apply no_nul_nil|]. by inversion H. Qed.

Lemma no_nul_drop n s : no_nul s -> no_nul (drop n s).
Proof. apply Forall_drop. Qed.

Lemma span_no_nul p s a b : span p s = (a, b) -> no_nul s -> no_nul a /\ no_nul b.
Proof. intros (-> & _ & _)%span_spec. apply no_nul_app_inv. Qed.

Lemma strtok_no_nul s delim t save : strtok_r s delim = (Some t, save) -> no_nul s -> no_nul t /\ no_nul save.
Proof.
  intros (gap & rest & -> & _ & _ & _ & _ & ->)%strtok_Some [_ [Ht Hr]%no_nul_app_inv]%no_nul_app_inv.
  split; [done|by apply no_nul_tail].
Qed.

Lemma tokens_no_nul seps n line ts : tokens_of seps n line ts -> no_nul line -> Forall no_nul ts.
Proof.
  induction 1 as [gap t rest|n gap t d rest ts _ _ _ _ _ IH]; intros [_ [Ht Hr]%no_nul_app_inv]%no_nul_app_inv.
  - by constructor.
  - inversion Hr; subst. constructor; [done|]. by apply IH.
Qed.

Lemma Tokenize_no_nul line seps n ts :
  (2 <= n)%nat -> Tokenize line seps n = Some ts -> no_nul line -> Forall no_nul ts.
Proof. intros Hn. rewrite Tokenize_fields by done. destruct n as [|n]; [lia|]. intros H%fields_tokens_of. by eapply tokens_no_nul. Qed.

Ltac last_token :=
  match goal with
  | E : Tokenize ?l _ _ = Some _, H : no_nul _ |- no_nul _ =>
      apply Tokenize_no_nul in E; [|lia|first [exact H|by apply no_nul_drop]];
      rewrite Forall_forall in E; apply E; rewrite ?elem_of_cons; tauto
  end.

Lemma ParseFile_no_nul l id name : ParseFile l = Some (id, name) -> no_nul l -> no_nul name.
Proof. unfold ParseFile. intros H Hl. parsed H. last_token. Qed.

Lemma ParseFunction_no_nul l a s p name : ParseFunction l = Some (a, s, p, name) -> no_nul l -> no_nul name.
Proof. unfold ParseFunction. intros H Hl. parsed H. all: last_token. Qed.

Lemma ParsePublicSymbol_no_nul l a p name : ParsePublicSymbol l = Some (a, p, name) -> no_nul l -> no_nul name.
Proof. unfold ParsePublicSymbol. intros H Hl. parsed H. all: last_token. Qed.

Lemma ParseFromString_no_nul s info type rva size :
  ParseFromString s = Some (info, type, rva, size) -> no_nul s -> no_nul (program_string info).
Proof.
  unfold ParseFromString. intros H Hs.
  destruct (Tokenize s kWhitespace 11) as [ts|] eqn:Etok; [|done].
  do 11 (destruct ts as [|? ts]; try done). destruct ts; [|done].
  dif_in H; [done|]. destruct (negb _); simplify_eq; [|apply no_nul_nil]. cbn [program_string WindowsFrameInfo_new]. last_token.
Qed.

(** ** Every record keeps the module serializable *)

Lemma int_ok_s32 z : int_ok (s32 z).
Proof. apply (swrap_range 32). lia. Qed.

Lemma insert_elem {V} (m : smap V) k v x : sorted m -> x ∈ insert m k v -> x = (k, v) \/ x ∈ m.
Proof.
  intros Hs. destruct (lookup_key m k) as [v'|] eqn:E.
  - rewrite (insert_present m k v v') by (done || by apply lookup_key_Some). by right.
  - intros Hin. apply elem_of_insert in Hin; [done|done|]. by apply lookup_key_None.
Qed.

Lemma StoreContained_root {E} (c : ContainedRangeMap E) b s e :
  cbase (StoreContained 64 c b s e).2 = cbase c /\ centry (StoreContained 64 c b s e).2 = centry c.
Proof.
  destruct c as [b0 e0 om]. cbn [StoreContained]. repeat (dif; try done). destruct om as [l|]; [|done].
  by destruct (at_child _ l _).
Qed.

Section records.
Context (m : BasicModule) (Hm : module_ok m) (Hs : serializable m).

Lemma serializable_files i n : no_nul n -> serializable (set_files m (insert (files_ m) (s32 i) n)).
Proof.
  intros Hn. destruct Hs. constructor; try done. cbn [files_ set_files]. intros i' n' Hin.
  apply insert_elem in Hin as [[= -> ->]|Hin]; [split; [apply int_ok_s32|done]|eauto|apply (mo_files m Hm)].
Qed.

Lemma serializable_function a s p n : no_nul n -> serializable (add_function m (Func_new n a s p)).1.
Proof.
  intros Hn. destruct Hs. constructor; try done; cbn [add_function fst func_heap set_functions].
  - intros q f Hq. apply lookup_app_Some in Hq as [Hq|[_ Hq]]; [eauto|].
    apply list_lookup_singleton_Some in Hq as [_ <-]. split; [done|apply int_ok_s32].
  - intros q f h r Hq Hin. apply lookup_app_Some in Hq as [Hq|[_ Hq]]; [eauto|].
    apply list_lookup_singleton_Some in Hq as [_ <-]. by apply not_elem_of_nil in Hin.
Qed.

Lemma serializable_line p a s f n : fits 64 a -> fits 64 s -> serializable (add_line m p (Line_new a s f n)).
Proof.
  intros Ha Hsz. destruct Hs. constructor; try done; cbn [add_line func_heap set_functions].
  - intros q g Hq. destruct (decide (p = q)) as [->|Hne]; [|rewrite list_lookup_alter_ne in Hq by done; eauto].
    rewrite list_lookup_alter_eq in Hq. destruct (func_heap m !! q) as [g'|] eqn:E; [|done]. injection Hq as <-. cbn. eauto.
  - intros q g h r Hq Hin. destruct (decide (p = q)) as [->|Hne]; [|rewrite list_lookup_alter_ne in Hq by done; eauto].
    rewrite list_lookup_alter_eq in Hq. destruct (func_heap m !! q) as [g'|] eqn:E; [|done]. injection Hq as <-.
    destruct (mo_lines m Hm q g' E) as (Hok & Hsd & _). cbn [lines set_lines line_address line_size Line_new] in Hin.
    apply StoreRange_elem in Hin as [Hin|[-> ->]]; try done; [eauto|]. split; apply int_ok_s32.
Qed.

Lemma serializable_publics a n p : no_nul n -> fits 64 a -> serializable (set_publics m (Store (public_symbols_ m) a (PublicSymbol_new n a p)).2).
Proof.
  intros Hn Ha. destruct Hs.
  assert (Hst: forall k s, (k, s) ∈ amap (Store (public_symbols_ m) a (PublicSymbol_new n a p)).2 ->
    (k, s) = (a, PublicSymbol_new n a p) \/ (k, s) ∈ amap (public_symbols_ m)).
  { intros k s. pose proof (Store_spec (public_symbols_ m) a (PublicSymbol_new n a p) (mo_publics m Hm)) as H.
    destruct (Store _ _ _) as [ok t]. destruct H as (_ & _ & Hf & Ht). cbn [snd].
    destruct ok; [by rewrite (Ht eq_refl)|rewrite (Hf eq_refl); by right]. }
  constructor; try done; cbn [public_symbols_ set_publics]; intros k s Hin; apply Hst in Hin as [[= -> ->]|Hin]; eauto.
Qed.

Lemma serializable_windows s : no_nul s -> serializable (ParseStackWin m s).2.
Proof.
  intros Hn. unfold ParseStackWin. destruct (ParseFromString s) as [[[[fi type] rva] size]|] eqn:Ep; [|done].
  pose proof (ParseFromString_no_nul _ _ _ _ _ Ep Hn) as Hp. apply ParseFromString_bounds in Ep as (-> & Hwin & Hr & Hsz).
  destruct (windows_frame_info_ m !! Z.to_nat (type_ fi)) as [c|] eqn:Ec; [|done].
  destruct (mo_window m Hm _ _ Ec) as [Hc _]. destruct Hs.
  pose proof (StoreContained_spec 64 ltac:(lia) c rva size (Some fi) Hc Hr Hsz) as Hst.
  pose proof (StoreContained_root c rva size (Some fi)) as Hroot.
  destruct (StoreContained 64 c rva size (Some fi)) as [ok c']. destruct Hst as (_ & _ & Ht & Hf).
  constructor; try done; cbn [windows_frame_info_ set_windows snd fst] in *.
  - intros i c1. rewrite list_lookup_insert. case_decide as Hd; [|eauto]. intros [= <-]. destruct Hd as [<- _].
    destruct Hroot as [-> ->]. eauto.
  - intros i c1 b h f. rewrite list_lookup_insert. case_decide as Hd; [|eauto]. intros [= <-]. destruct Hd as [<- _].
    destruct ok; [rewrite (Ht eq_refl)|rewrite (Hf eq_refl); eauto]. intros [[= -> -> ->]|Hin]%elem_of_cons; eauto.
Qed.

Lemma serializable_cfi s : no_nul s -> serializable (ParseCFIFrameInfo m s).2.
Proof.
  intros Hn. unfold ParseCFIFrameInfo. destruct (strtok_r s kWhitespace) as [[t|] c] eqn:E0; [|done].
  apply strtok_no_nul in E0 as [Ht Hc]; [|done]. destruct Hs. dif.
  - destruct (strtok_r c kWhitespace) as [[a|] c1] eqn:E1; [|done]. apply strtok_no_nul in E1 as [_ Hc1]; [|done].
    destruct (strtok_r c1 kWhitespace) as [[sz|] c2] eqn:E2; [|done]. apply strtok_no_nul in E2 as [_ Hc2]; [|done].
    destruct (strtok_r c2 CRLF) as [[r|] c3] eqn:E3; [|done]. apply strtok_no_nul in E3 as [Hr _]; [|done].
    constructor; try done. cbn [cfi_initial_rules_ set_cfi snd]. intros h x Hin.
    apply StoreRange_elem in Hin as [Hin|[-> ->]]; eauto; try apply (mo_cfi m Hm); try apply (mo_cfi_shrink m Hm);
      apply strtoull_range; lia.
  - destruct (strtok_r c CRLF) as [[r|] c3] eqn:E3; [|done]. apply strtok_no_nul in E3 as [Hr _]; [|done].
    constructor; try done. cbn [cfi_delta_rules_ set_cfi snd]. intros k d Hin.
    pose proof (assign_spec (cfi_delta_rules_ m) (strtoull t 16).1 r (mo_deltas m Hm)) as Ha.
    apply (proj2 Ha) in Hin. destruct Hin as [[= -> ->]|[Hin _]]; [|by apply se_deltas]. split; [apply strtoull_range; lia|done].
Qed.

Lemma serializable_stack l after save ok m' save' :
  no_nul l -> (forall t, after = Some t -> no_nul t) ->
  ParseStackInfo m l after save = Ok (ok, m', save') -> serializable m'.
Proof.
  intros Hl Ha. unfold ParseStackInfo. destruct (span _ (drop 6 l)) as [gap on] eqn:E1.
  apply span_no_nul in E1 as [_ Ho]; [|by apply no_nul_drop].
  destruct (span _ on) as [platform rest] eqn:E2. apply span_no_nul in E2 as [_ Hr]; [|done].
  assert (Hgen: forall text cut, no_nul text ->
    (if str_eqb platform (lit "WIN") then let '(ok, m0) := ParseStackWin m text in Ok (ok, m0, save)
     else if str_eqb platform (lit "CFI") then let '(ok, m0) := ParseCFIFrameInfo m text in Ok (ok, m0, cut)
     else Ok (false, m, save)) = Ok (ok, m', save') -> serializable m').
  { intros text cut Ht. pose proof (serializable_windows text Ht) as Hw. pose proof (serializable_cfi text Ht) as Hc.
    dif; [destruct (ParseStackWin m text); by intros [= <- <- <-]|].
    dif; [destruct (ParseCFIFrameInfo m text); by intros [= <- <- <-]|]. by intros [= <- <- <-]. }
  destruct rest as [|c text]; [destruct after as [text|]|].
  - apply Hgen. by apply Ha.
  - repeat (dif; try done). by intros [= <- <- <-].
  - apply Hgen. by inversion Hr.
Qed.

Lemma serializable_record cur l after save m' cur' e save' :
  no_nul l -> (forall t, after = Some t -> no_nul t) ->
  parse_record m cur l after save = Ok (m', cur', e, save') -> serializable m'.
Proof.
  intros Hl Ha. unfold parse_record. dif.
  { unfold Module_ParseFile. destruct (ParseFile l) as [[i n]|] eqn:Ep; intros [= <- <- <- <-]; [|done].
    apply serializable_files. by eapply ParseFile_no_nul. }
  dif.
  { destruct (ParseStackInfo m l after save) as [[[ok m1] s1]| |] eqn:Es; try done.
    intros [= <- <- <- <-]. by eapply serializable_stack. }
  dif.
  { unfold Module_ParseFunction. destruct (ParseFunction l) as [[[[a s] p] n]|] eqn:Ep; [|by intros [= <- <- <- <-]].
    pose proof (serializable_function a s p n (ParseFunction_no_nul _ _ _ _ _ Ep Hl)) as Haf.
    destruct (add_function m (Func_new n a s p)) as [m1 c1]. by intros [= <- <- <- <-]. }
  dif.
  { unfold Module_ParsePublicSymbol. destruct (ParsePublicSymbol l) as [[[a p] n]|] eqn:Ep; [|by intros [= <- <- <- <-]].
    dif; [by intros [= <- <- <- <-]|]. pose proof (ParsePublicSymbol_no_nul _ _ _ _ Ep Hl) as Hn.
    apply ParsePublicSymbol_bounds in Ep as (Hb & _). unfold ULLONG_MAX in Hb.
    pose proof (serializable_publics a n p Hn ltac:(unfold fits; lia)) as Hpo.
    destruct (Store _ _ _) as [ok q]. by intros [= <- <- <- <-]. }
  dif; [by intros [= <- <- <- <-]|]. dif; [by intros [= <- <- <- <-]|].
  destruct cur as [p|]; [|by intros [= <- <- <- <-]]. unfold Module_ParseLine.
  destruct (ParseLine l) as [[[[a s] n] f]|] eqn:Ep; [|by intros [= <- <- <- <-]].
  apply ParseLine_bounds in Ep as (Hb & Hsz & _). unfold ULLONG_MAX in *.
  intros [= <- <- <- <-]. apply serializable_line; unfold fits; lia.
Qed.
End records.

Lemma serializable_new name : serializable (BasicModule_new name).
Proof.
  constructor; cbn [BasicModule_new files_ func_heap public_symbols_ amap AddressMap_new windows_frame_info_ cfi_initial_rules_ rmap
    RangeMap_new cfi_delta_rules_]; try (by intros ? ? ?%not_elem_of_nil); try done.
  - intros i c Hc. change (replicate 5 (ContainedRangeMap_new (E := option WindowsFrameInfo) None) !! i = Some c) in Hc.
    by apply lookup_replicate in Hc as [-> _].
  - intros i c b h fi Hc Hin. change (replicate 5 (ContainedRangeMap_new (E := option WindowsFrameInfo) None) !! i = Some c) in Hc.
    apply lookup_replicate in Hc as [-> _]. by apply not_elem_of_nil in Hin.
Qed.

Lemma serializable_loop fuel pad : forall m cur errs save m' errs',
  (forall t, pad = Some t -> no_nul t) -> no_nul save -> module_ok m -> serializable m ->
  load_loop fuel pad m cur errs save = Ok (m', errs') -> serializable m'.
Proof.
  induction fuel as [|fuel IH]; intros m cur errs save m' errs' Hpad Hsave Hm Hs; cbn [load_loop]; [by intros [= <- <-]|].
  destruct (next_token save CRLF) as [[l rest]|] eqn:En; [|by intros [= <- <-]].
  apply next_token_spec in En as (gap & -> & _). apply no_nul_app_inv in Hsave as [_ [Hl Hr]%no_nul_app_inv].
  destruct (parse_record _ _ _ _ _) as [[[[m1 cur1] e] save1]| |] eqn:Ep; try done.
  assert (Hafter: forall t, match rest with [] => pad | _ :: text => Some text end = Some t -> no_nul t).
  { destruct rest; [done|]. intros t [= <-]. by inversion Hr. }
  assert (Hs1: no_nul save1).
  { pose proof (parse_record_cases m cur l (match rest with [] => pad | _ :: text => Some text end) (tail rest)) as Hc.
    rewrite Ep in Hc. apply no_nul_tail in Hr. destruct Hc as [->| ->]; [done|].
    destruct (first_token_only_spec (tail rest) kWhitespace) as (g & t & r & E & -> & _). rewrite E in Hr.
    apply no_nul_app_inv in Hr as [? [? _]%no_nul_app_inv]. by apply Forall_app_2. }
  pose proof (serializable_record m Hm Hs _ _ _ _ _ _ _ _ Hl Hafter Ep) as Hser. apply parse_record_ok in Ep; [|done].
  cbn [mbind outcome_bind]. dif; [by intros [= <- <-]|]. by apply IH.
Qed.

Lemma serializable_corrupt m b : serializable m -> serializable (set_corrupt m b).
Proof. by intros []. Qed.

(** What [LoadMapFromMemory] makes of a text can be serialized. *)
Lemma load_serializable name buffer ok m :
  LoadMapFromMemory (BasicModule_new name) buffer = Ok (ok, m) -> module_ok m /\ serializable m.
Proof.
  intros E. split.
  { pose proof (LoadMapFromMemory_outcome name buffer) as H. rewrite E in H. apply H. }
  revert E. unfold LoadMapFromMemory. dif; [intros [= _ <-]; apply serializable_new|]. cbv zeta.
  destruct (load_loop _ _ _ _ _ _) as [[m1 errs]| |] eqn:El; try done. cbn [mbind outcome_bind]. intros [= _ <-].
  apply serializable_corrupt. eapply serializable_loop; [| |apply module_ok_new|apply serializable_new|exact El].
  - intros t. dif; [|done]. intros [= <-]. apply no_nul_nil.
  - apply Forall_fmap, Forall_true. intros c. unfold compose. destruct (code c =? 0) eqn:Ec; [done|]. by rewrite Ec.
Qed.

(** ** The block as characters *)

Lemma bytes_of_string_of data : Forall byte_ok data -> bytes_of (string_of data) = data.
Proof.
  induction 1 as [|b data Hb _ IH]; [done|]. unfold bytes_of, string_of in *. cbn [fmap list_fmap]. f_equal; [|done].
  by apply code_chr.
Qed.

Lemma bytes_of_ok s : Forall byte_ok (bytes_of s).
Proof. apply Forall_fmap, Forall_true. intros c. apply code_range. Qed.

Lemma map_image_bytes {V} n (img : V -> list Z) (m : smap V) :
  (forall k v, (k, v) ∈ m -> Forall byte_ok (img v)) -> Forall byte_ok (map_image n img m).
Proof.
  intros Hv. unfold map_image. rewrite !Forall_app. split; [apply le_bytes_ok|]. split; [|split].
  - generalize (values_start n m). clear Hv. induction m as [|[k v] m IH]; intros off; cbn [offsets_image]; [done|].
    rewrite Forall_app. split; [apply le_bytes_ok|apply IH].
  - clear Hv. induction m as [|[k v] m IH]; cbn [keys_image]; [done|]. rewrite Forall_app. split; [apply le_bytes_ok|apply IH].
  - induction m as [|[k v] m IH]; cbn [values_image]; [done|]. rewrite Forall_app. split; [by apply (Hv k); left|].
    apply IH. intros k' v' Hin. apply (Hv k'). by right.
Qed.

Lemma contained_image_bytes {V} `{SimpleSerializer V} n (c : ContainedRangeMap V) :
  (forall v : V, Forall byte_ok (image v)) -> Forall byte_ok (contained_image n c).
Proof.
  intros Hv. induction c as [c IH] using contained_ind. destruct c as [b e om]. rewrite contained_image_eq, !Forall_app.
  split; [apply le_bytes_ok|]. split; [apply le_bytes_ok|]. split; [apply Hv|]. apply map_image_bytes. apply IH.
Qed.

Lemma string_image_bytes s : Forall byte_ok (@image _ StringSerializer s).
Proof. cbn [image StringSerializer]. rewrite Forall_app. split; [apply bytes_of_ok|]. by constructor. Qed.

Lemma windows_item_bytes wfi : Forall byte_ok (@image _ WindowsFrameInfoSerializer wfi).
Proof.
  destruct wfi as [wfi|]; [|done]. cbn [image WindowsFrameInfoSerializer]. rewrite !Forall_app.
  do 8 (split; [apply le_bytes_ok|]). split; [|apply string_image_bytes]. cbn. destruct (allocates_base_pointer wfi); by constructor.
Qed.

Lemma range_image_bytes {V} `{SimpleSerializer V} n (r : Range V) : Forall byte_ok (image (rentry r)) -> Forall byte_ok (range_image n r).
Proof. intros Hv. unfold range_image. rewrite Forall_app. split; [apply le_bytes_ok|done]. Qed.

Lemma function_layout_bytes heap p : Forall byte_ok (function_layout heap p).
Proof.
  unfold function_layout. destruct (heap !! p) as [f|]; [|done]. unfold function_image, lines_image. rewrite !Forall_app.
  split; [apply string_image_bytes|]. do 3 (split; [apply le_bytes_ok|]). apply map_image_bytes. intros k r _.
  apply range_image_bytes. cbn [image LineSerializer]. rewrite !Forall_app. repeat split; apply le_bytes_ok.
Qed.

Lemma module_image_bytes m : Forall byte_ok (module_image m).
Proof.
  assert (Hmaps: Forall (Forall byte_ok) (map_images m)).
  { unfold map_images. rewrite !Forall_app. split; [|split].
    - constructor; [apply map_image_bytes; intros; apply string_image_bytes|]. constructor; [|constructor; [|done]].
      + apply map_image_bytes. intros k r _. rewrite Forall_app. split; [apply le_bytes_ok|apply function_layout_bytes].
      + apply map_image_bytes. intros k p _. cbn [image PublicSymbolSerializer]. rewrite !Forall_app.
        split; [apply string_image_bytes|]. split; apply le_bytes_ok.
    - apply Forall_fmap, Forall_true. intros c. apply contained_image_bytes, windows_item_bytes.
    - constructor; [|constructor; [|done]]; apply map_image_bytes; intros;
        [apply range_image_bytes|]; apply string_image_bytes. }
  unfold module_image. rewrite !Forall_app. split; [destruct (is_corrupt_ m); by constructor|]. split; [|split].
  - unfold sizes_image. apply Forall_bind, Forall_true. intros z. apply le_bytes_ok.
  - induction Hmaps as [|img imgs Hi _ IH]; [done|]. cbn [concat]. by rewrite Forall_app.
  - by constructor.
Qed.

(** ** A fast module that answers as a basic one *)

Record same_answers (m : BasicModule) (fm : FastModule) : Prop := {
  sa_corrupt : fast_corrupt fm = is_corrupt_ m;
  sa_lookup : forall base frame, Ok (FastLookupAddress fm base frame) = LookupAddress m base frame;
  sa_windows : forall base frame, FastFindWindowsFrameInfo fm base frame = FindWindowsFrameInfo m base frame;
  sa_cfi : forall base frame, FastFindCFIFrameInfo fm base frame = FindCFIFrameInfo m base frame
}.

Lemma holds_string_of data rest : Forall byte_ok data -> holds (bytes_of (string_of data ++ rest)) 0 data.
Proof.
  intros Hd. unfold bytes_of. rewrite fmap_app. change (code <$> string_of data) with (bytes_of (string_of data)).
  rewrite bytes_of_string_of by done. split; [lia|]. unfold slice. rewrite drop_0. apply take_app_length.
Qed.

Lemma load_fast m name rest :
  module_ok m -> serializable m -> module_size m < 2 ^ 32 ->
  exists fm, FastLoadMapFromMemory (FastModule_new name) (string_of (module_image m) ++ rest) = Ok (true, fm) /\ same_answers m fm.
Proof.
  intros Hm Hs Hsize. pose proof (holds_string_of (module_image m) rest (module_image_bytes m)) as Hh.
  exists (fast_module m name (string_of (module_image m) ++ rest)). split; [by apply FastLoad_eq|]. constructor; [done| | |].
  - intros. by apply FastLookup_eq.
  - intros. by apply FastFindWindows_eq.
  - intros. by apply FastFindCFI_eq.
Qed.

(** C1: a module that the basic resolver loads from any text is serialized into a
    block of exactly the size announced, and a fast module over that block,
    whatever follows it in the buffer, loads, is corrupt when the basic one is, and
    gives every lookup the same answer. *)
Theorem fast_module_answers alloc name text ok (m : BasicModule) :
  alloc_ok alloc -> LoadMapFromMemory (BasicModule_new name) text = Ok (ok, m) -> module_size m < 2 ^ 32 ->
  exists data, Module_Serialize alloc m = Some (data, Z.of_nat (length data)) /\
    forall name' rest, exists fm : FastModule,
      LoadMap (CreateModule name') (string_of data ++ rest) = Ok (true, fm) /\ IsCorrupt fm = IsCorrupt m /\
      forall base frame,
        ModuleLookupAddress fm base frame = ModuleLookupAddress m base frame /\
        ModuleFindWindowsFrameInfo fm base frame = ModuleFindWindowsFrameInfo m base frame /\
        ModuleFindCFIFrameInfo fm base frame = ModuleFindCFIFrameInfo m base frame.
Proof.
  intros Ha [Hm Hs]%load_serializable Hsize. exists (module_image m). split; [by apply Module_Serialize_image|].
  intros name' rest. destruct (load_fast m name' rest Hm Hs Hsize) as (fm & E & []). exists fm. split; [exact E|].
  split; [done|]. intros base frame. split; [apply sa_lookup0|]. split; [apply sa_windows0|apply (f_equal Ok), sa_cfi0].
Qed.

Definition example_serialized : list Z :=
  match Module_Serialize demo_alloc example_module with Some (data, _) => data | None => [] end.

Lemma fast_module_answers_witness :
  exists fm : FastModule, LoadMap (CreateModule (lit "a.out")) (string_of example_serialized ++ [NUL]) = Ok (true, fm) /\
    ModuleLookupAddress fm 0x400000 (example_frame 0x401012) = ModuleLookupAddress example_module 0x400000 (example_frame 0x401012).
Proof.
  assert (El: LoadMapFromMemory (BasicModule_new (lit "a.out")) example_text = Ok (true, example_module)) by by vm_compute.
  destruct (fast_module_answers demo_alloc (lit "a.out") example_text true example_module demo_alloc_ok El ltac:(by vm_compute))
    as (data & E & H).
  assert (example_serialized = data) as -> by (unfold example_serialized; by rewrite E).
  destruct (H (lit "a.out") [NUL]) as (fm & Hf & _ & Hl). exists fm. split; [exact Hf|]. apply Hl.
Defined.
