(* ===== verification/FastConvert.v ===== *)
(** processor/module_serializer.cc: [ConvertAllModules] and [ConvertOneModule]
    (FastResolver.v) move the modules of a basic resolver into a fast resolver
    that answers as the basic one. *)
From Stdlib Require Import Ascii.
From stdpp Require Import strings list gmap.
From S2P Require Import Prelude StdMap Memory RangeMap AddressMap ContainedRangeMap StaticMap MapSerializers StaticRangeMap CStr StrMap MemoryRegion PostfixEvaluator CfiFrameInfo SymbolFile BasicResolver BasicInvariant SymbolLoad ResolverLookup CodeModules ResolverBase ResolverTable FastResolver FastImage FastRefines FastLoad.

(** ** The modules of a reachable basic resolver *)

Local Instance serializable_laws : SymbolModuleLaws BasicModule (λ m, module_ok m /\ serializable m).
Proof.
  constructor.
  - intros name buffer. pose proof (@load_loaded _ _ _ basic_module_laws name buffer) as H. revert H.
    cbn [LoadMap CreateModule IsCorrupt BasicModuleFactory].
    destruct (LoadMapFromMemory (BasicModule_new name) buffer) as [[ok m]| |] eqn:E; [|done..].
    intros [_ Hc]. split; [by eapply load_serializable|done].
  - intros m base frame [Hm _]. by apply (lookup_defined (loaded := module_ok)).
  - intros m base frame [Hm _]. by apply (windows_defined (loaded := module_ok)).
  - intros m base frame _. by eexists.
Qed.

Lemma c_str_c_str s : c_str (c_str s) = c_str s.
Proof. induction s as [|c s IH]; [done|]. cbn [c_str]. destruct (code c =? 0) eqn:E; [done|]. cbn [c_str]. by rewrite E, IH. Qed.

Lemma str_find_set {V} (l : strmap V) k v k' :
  str_sorted l -> str_find l k = None -> str_find (str_insert l k v) k' = if str_eqb k k' then Some v else str_find l k'.
Proof.
  intros Hs Hn. rewrite str_find_insert by done. destruct (str_eqb k k') eqn:E.
  - apply str_eqb_spec in E as <-. by rewrite Hn.
  - by destruct (str_find l k').
Qed.

(** ** What every resolver keeps, whatever its modules *)
Section tables.
Context {M : Type} `{SymbolModule M}.
Implicit Types (s : Resolver M).

Record tables_ok s : Prop := {
  to_modules : str_sorted (modules_ s);
  to_keys : forall k m, str_find (modules_ s) k = Some m -> c_str k = k;
  to_corrupt_sorted : str_sorted (corrupt_modules_ s);
  to_corrupt : forall k, is_Some (str_find (corrupt_modules_ s) k) <->
    exists m, str_find (modules_ s) k = Some m /\ IsCorrupt m = true
}.

Lemma tables_same s s' :
  modules_ s' = modules_ s -> corrupt_modules_ s' = corrupt_modules_ s -> tables_ok s -> tables_ok s'.
Proof. intros E1 E2 []. constructor; rewrite ?E1, ?E2; done. Qed.

(** A module put under a name that is not taken. *)
Lemma tables_insert s (module : CodeModule) m :
  tables_ok s -> str_find (modules_ s) (module_key module) = None ->
  tables_ok (set_modules s (str_insert (modules_ s) (module_key module) m)
    (if IsCorrupt m then str_insert (corrupt_modules_ s) (module_key module) () else corrupt_modules_ s)).
Proof.
  intros [] Hn.
  assert (Hc: str_find (corrupt_modules_ s) (module_key module) = None).
  { destruct (str_find (corrupt_modules_ s) (module_key module)) eqn:E; [|done].
    destruct (proj1 (to_corrupt0 (module_key module)) ltac:(by rewrite E)) as (x & Hx & _). by rewrite Hx in Hn. }
  constructor; cbn [set_modules modules_ corrupt_modules_].
  - by apply str_sorted_insert.
  - intros k x. rewrite str_find_set by done. destruct (str_eqb _ k) eqn:E; [|by apply to_keys0].
    apply str_eqb_spec in E as <-. intros _. apply c_str_c_str.
  - destruct (IsCorrupt m); [by apply str_sorted_insert|done].
  - intros k. rewrite (str_find_set (modules_ s)) by done. destruct (IsCorrupt m) eqn:Ec.
    + rewrite str_find_set by done. destruct (str_eqb _ k); [|done]. split; [intros _; by exists m|done].
    + destruct (str_eqb (module_key module) k) eqn:E; [|done]. apply str_eqb_spec in E as <-. rewrite Hc.
      split; [by intros []|]. intros (x & [= ->] & ?). congruence.
Qed.

Lemma tables_erase s k : tables_ok s -> tables_ok (set_modules s (str_erase (modules_ s) k) (str_erase (corrupt_modules_ s) k)).
Proof.
  intros []. constructor; cbn [set_modules modules_ corrupt_modules_]; try by apply str_sorted_erase.
  - intros k' x. rewrite str_find_erase by done. destruct (str_eqb k k'); [done|]. apply to_keys0.
  - intros k'. rewrite !str_find_erase by done. destruct (str_eqb k k'); [|done]. split; [by intros []|by intros (? & ? & _)].
Qed.

Lemma free_tables p s s' : free p s = Ok s' -> tables_ok s -> tables_ok s'.
Proof. unfold free. case_decide; [|done]. intros [= <-]. by apply tables_same. Qed.

Lemma load_memory_tables module b s r s' :
  LoadModuleUsingMemoryBuffer module b s = Ok (r, s') -> tables_ok s -> tables_ok s'.
Proof.
  intros E Hs. destruct module as [module|]; [|by injection E as <- <-]. unfold LoadModuleUsingMemoryBuffer in E.
  destruct (str_find (modules_ s) (module_key module)) as [x|] eqn:Ef; [by injection E as <- <-|].
  destruct (LoadMap _ _) as [[ok m]| |]; try done. cbn [mbind outcome_bind] in E. dif_in E; [done|].
  injection E as <- <-. by apply tables_insert.
Qed.

Lemma keep_tables module p r s r' s' : keep_or_free module p r s = Ok (r', s') -> tables_ok s -> tables_ok s'.
Proof.
  unfold keep_or_free. dif; [intros [= <- <-]; by apply tables_same|]. intros Hk Hs.
  destruct (free p s) as [s1| |] eqn:Ef; try done. injection Hk as <- <-. by eapply free_tables.
Qed.

Lemma load_owned_tables module b p s r s' :
  ('(load_result, s) ← LoadModuleUsingMemoryBuffer (Some module) b s; keep_or_free module p load_result s) = Ok (r, s') ->
  tables_ok s -> tables_ok s'.
Proof.
  intros E Hs. destruct (LoadModuleUsingMemoryBuffer _ _ _) as [[r1 s1]| |] eqn:El; try done.
  eapply keep_tables; [exact E|]. by eapply load_memory_tables.
Qed.

Lemma ReadSymbolFile_tables fs f s r s' : ReadSymbolFile fs f s = Ok (r, s') -> tables_ok s -> tables_ok s'.
Proof.
  unfold ReadSymbolFile. intros E Hs. destruct (st_size fs f); [|by injection E as <- <-].
  assert (Ha: tables_ok (alloc s).2) by (by eapply tables_same; [..|exact Hs]). destruct (alloc s) as [p s1]. cbn [snd] in Ha.
  assert (Hfree: forall r' : option (nat * cstring), (s ← free p s1; Ok (None, s)) = Ok (r', s') -> tables_ok s').
  { intros r' E'. destruct (free p s1) as [s2| |] eqn:Ef; try done. injection E' as _ <-. by eapply free_tables. }
  dif_in E; [by eapply Hfree|]. cbv zeta in E. dif_in E; [by eapply Hfree|]. by injection E as _ <-.
Qed.

Lemma tables_new : tables_ok Resolver_new.
Proof. constructor; cbn; [constructor|done|constructor|]. intros k. split; [by intros []|by intros (? & ? & _)]. Qed.

Lemma reachable_tables s : resolver_reachable s -> tables_ok s.
Proof.
  induction 1 as [|s c r s' _ IH E]; [apply tables_new|].
  destruct c as [fs module f|module b|module b|module]; cbn [run_call] in E.
  - destruct module as [module|]; [|by injection E as <- <-]. unfold LoadModule in E.
    destruct (str_find _ _); [by injection E as <- <-|].
    destruct (ReadSymbolFile fs f s) as [[o s1]| |] eqn:Er; try done. apply ReadSymbolFile_tables in Er; [|done].
    cbn [mbind outcome_bind] in E. destruct o as [[p b]|]; [by eapply load_owned_tables|by injection E as <- <-].
  - destruct module as [module|]; [|by injection E as <- <-]. unfold LoadModuleUsingMapBuffer in E.
    destruct (str_find _ _); [by injection E as <- <-|]. eapply load_owned_tables; [exact E|]. by eapply tables_same; [..|exact IH].
  - by eapply load_memory_tables.
  - destruct (UnloadModule module s) as [s1| |] eqn:Eu; try done. injection E as <- <-.
    destruct module as [module|]; [|by injection Eu as <-]. unfold UnloadModule in Eu. cbv zeta in Eu.
    assert (Ht: tables_ok (match str_find (modules_ s) (module_key module) with
      | Some _ => set_modules s (str_erase (modules_ s) (module_key module)) (str_erase (corrupt_modules_ s) (module_key module))
      | None => s end)) by (destruct (str_find _ _); [by apply tables_erase|done]).
    dif_in Eu; [by injection Eu as <-|]. destruct (str_find (memory_buffers_ _) _) as [p|]; [|by injection Eu as <-].
    destruct (free p _) as [s2| |] eqn:Ef; try done. injection Eu as <-. apply free_tables in Ef; [|done].
    by eapply tables_same; [..|exact Ef].
Qed.

Lemma IsModuleCorrupt_table s (md : CodeModule) : tables_ok s ->
  IsModuleCorrupt (Some md) s = match table s (module_key md) with Some m => IsCorrupt m | None => false end.
Proof.
  intros []. unfold IsModuleCorrupt, table. pose proof (to_corrupt0 (module_key md)) as Hc.
  destruct (str_find (corrupt_modules_ s) _) as [u|].
  - destruct (proj1 Hc ltac:(by eexists)) as (m & -> & ->). done.
  - destruct (str_find (modules_ s) _) as [m|] eqn:Em; [|done]. destruct (IsCorrupt m) eqn:Ec; [|done].
    destruct (proj2 Hc ltac:(by exists m)) as [? ?]. done.
Qed.
End tables.

(** ** One module *)

(** The module can be serialized and its block addressed with 32 bits. *)
Definition convertible (m : BasicModule) : Prop := module_ok m /\ serializable m /\ module_size m < 2 ^ 32.

Section convert.
Context (alloc : Z -> option (list Z)) (Halloc : alloc_ok alloc).
Implicit Types (f : Resolver FastModule).

Lemma convert_step k m f :
  tables_ok f -> c_str k = k -> convertible m ->
  match str_find (modules_ f) k with
  | Some _ => SerializeModuleAndLoadIntoFastResolver alloc (k, m) f = Ok (false, f)
  | None => exists f' fm, SerializeModuleAndLoadIntoFastResolver alloc (k, m) f = Ok (true, f') /\ tables_ok f' /\
      same_answers m fm /\ forall k', str_find (modules_ f') k' = if str_eqb k k' then Some fm else str_find (modules_ f) k'
  end.
Proof.
  intros Hf Hk (Hm & Hs & Hsize). unfold SerializeModuleAndLoadIntoFastResolver. cbn [fst snd].
  rewrite (Module_Serialize_image m Hm Hs Hsize alloc Halloc). 
  rewrite (take_ge (module_image m)) by (unfold module_size; lia).
  unfold LoadModuleUsingMapBuffer. set (md := BasicCodeModule_new 0 0 k [] [] [] [] false).
  assert (Hkey: module_key md = k) by exact Hk. rewrite Hkey.
  destruct (str_find (modules_ f) k) as [x|] eqn:Ef; [done|].
  destruct (load_fast m k [NUL] Hm Hs Hsize) as (fm & El & Hsame).
  unfold ResolverBase.alloc, LoadModuleUsingMemoryBuffer. cbn [modules_]. rewrite Hkey, Ef.
  change (LoadMap (CreateModule (code_file md))) with (FastLoadMapFromMemory (FastModule_new k)).
  rewrite El. cbn [mbind outcome_bind negb andb]. unfold keep_or_free. cbn [negb andb ShouldDeleteMemoryBufferAfterLoadModule FastModuleFactory].
  eexists _, fm. split; [done|]. split.
  - pose proof (tables_insert f md fm Hf) as Ht. rewrite Hkey in Ht. by eapply tables_same; [..|by apply Ht].
  - split; [done|]. intros k'. cbn [set_buffers set_modules modules_]. by apply str_find_set, Ef; apply Hf.
Qed.

Lemma convert_modules_spec l : forall f,
  tables_ok f -> str_sorted l -> (forall k m, (k, m) ∈ l -> c_str k = k /\ convertible m) ->
  exists f', convert_modules alloc l f = Ok f' /\ tables_ok f' /\
    forall k, match str_find (modules_ f) k, str_find l k with
              | None, Some m => exists fm, str_find (modules_ f') k = Some fm /\ same_answers m fm
              | o, _ => str_find (modules_ f') k = o
              end.
Proof.
  induction l as [|[k m] l IH]; intros f Hf Hsd Hl.
  { exists f. split; [done|]. split; [done|]. intros k. cbn [str_find]. by destruct (str_find _ _). }
  apply str_sorted_cons in Hsd as [Hlt Hsd]. destruct (Hl k m ltac:(left)) as [Hk Hm].
  assert (Hl': forall k' m', (k', m') ∈ l -> c_str k' = k' /\ convertible m') by (intros; apply Hl; by right).
  assert (Hnk: str_find l k = None).
  { destruct (str_find l k) as [x|] eqn:E; [|done]. apply str_find_Some in E; [|done]. apply Hlt in E. by rewrite str_ltb_irrefl in E. }
  cbn [convert_modules]. pose proof (convert_step k m f Hf Hk Hm) as Hst. destruct (str_find (modules_ f) k) as [x|] eqn:Ex.
  - rewrite Hst. cbn [mbind outcome_bind]. destruct (IH f Hf Hsd Hl') as (f' & E & Hf' & Ht). exists f'. split; [done|]. split; [done|].
    intros k'. specialize (Ht k'). cbn [str_find]. destruct (str_eqb k k') eqn:Ek; [|done].
    apply str_eqb_spec in Ek as <-. by rewrite Ex in *.
  - destruct Hst as (f1 & fm & -> & Hf1 & Hsame & Hfind). cbn [mbind outcome_bind].
    destruct (IH f1 Hf1 Hsd Hl') as (f' & E & Hf' & Ht). exists f'. split; [done|]. split; [done|].
    intros k'. specialize (Ht k'). rewrite Hfind in Ht. cbn [str_find]. destruct (str_eqb k k') eqn:Ek; [|done].
    apply str_eqb_spec in Ek as <-. rewrite Ex. by exists fm.
Qed.
End convert.

(** ** Resolvers that answer alike *)

(** For a module, and for any frame in it. *)
Record answers_as {M M'} `{SymbolModule M} `{SymbolModule M'} (md : CodeModule) (s : Resolver M) (s' : Resolver M') : Prop := {
  as_has : HasModule (Some md) s = HasModule (Some md) s';
  as_corrupt : IsModuleCorrupt (Some md) s = IsModuleCorrupt (Some md) s';
  as_lookup : forall frame, FillSourceLineInfo (Some md) frame s = FillSourceLineInfo (Some md) frame s';
  as_windows : forall frame, ResolverFindWindowsFrameInfo (Some md) frame s = ResolverFindWindowsFrameInfo (Some md) frame s';
  as_cfi : forall frame, ResolverFindCFIFrameInfo (Some md) frame s = ResolverFindCFIFrameInfo (Some md) frame s'
}.

Lemma answers_same {M} `{SymbolModule M} md (s s' : Resolver M) :
  tables_ok s -> tables_ok s' -> table s (module_key md) = table s' (module_key md) -> answers_as md s s'.
Proof.
  intros Hs Hs' E. constructor; [|by rewrite !IsModuleCorrupt_table, E|intros frame..];
    unfold table, HasModule, FillSourceLineInfo, ResolverFindWindowsFrameInfo, ResolverFindCFIFrameInfo in *; by rewrite E.
Qed.

Lemma answers_converted md (b : Resolver BasicModule) (f : Resolver FastModule) m fm :
  tables_ok b -> tables_ok f -> table b (module_key md) = Some m -> table f (module_key md) = Some fm ->
  same_answers m fm -> answers_as md f b.
Proof.
  intros Hb Hf Eb Ef [Hc Hl Hw Hi]. constructor; [|rewrite !IsModuleCorrupt_table, Eb, Ef by done; done|intros frame..];
    unfold table, HasModule, FillSourceLineInfo, ResolverFindWindowsFrameInfo, ResolverFindCFIFrameInfo in *; rewrite Eb, Ef; [done|..].
  - apply Hl.
  - apply Hw.
  - apply (f_equal Ok), Hi.
Qed.

Lemma answers_absent md (b : Resolver BasicModule) (f : Resolver FastModule) :
  tables_ok b -> tables_ok f -> table b (module_key md) = None -> table f (module_key md) = None -> answers_as md f b.
Proof.
  intros Hb Hf Eb Ef. constructor; [|by rewrite !IsModuleCorrupt_table, Eb, Ef|intros frame..];
    unfold table, HasModule, FillSourceLineInfo, ResolverFindWindowsFrameInfo, ResolverFindCFIFrameInfo in *; by rewrite Eb, Ef.
Qed.

(** The blocks of the modules of [b] can be addressed with 32 bits. *)
Definition small_modules (b : Resolver BasicModule) : Prop := forall k m, table b k = Some m -> module_size m < 2 ^ 32.

Lemma reachable_convertible b k m :
  resolver_reachable b -> small_modules b -> table b k = Some m -> convertible m.
Proof.
  intros Hb Hsm Hk. pose proof (ro_loaded _ _ _ (reachable_inv _ b Hb) k m Hk) as [Hm Hs].
  split; [done|]. split; [done|]. by eapply Hsm.
Qed.

(** C16: [ConvertAllModules] from a basic resolver into a fast one always succeeds,
    and then the fast resolver answers for each module as the basic one does, for
    every frame, except that a module it already had under the name is kept as it
    was; the resolvers are any that clients can have made. *)
Theorem convert_all alloc (b : Resolver BasicModule) (f : Resolver FastModule) :
  alloc_ok alloc -> resolver_reachable b -> resolver_reachable f -> small_modules b ->
  exists f', ConvertAllModules alloc (Some b) f = Ok f' /\
    forall md, if HasModule (Some md) f then answers_as md f' f else answers_as md f' b.
Proof.
  intros Ha Hb Hf Hsm. pose proof (reachable_tables b Hb) as Htb. pose proof (reachable_tables f Hf) as Htf.
  destruct (convert_modules_spec alloc Ha (modules_ b) f Htf (to_modules _ Htb)) as (f' & E & Htf' & Ht).
  { intros k m Hin%str_find_Some; [|apply Htb]. split; [by apply (to_keys b Htb k m)|by eapply reachable_convertible]. }
  exists f'. split; [exact E|]. intros md. specialize (Ht (module_key md)). unfold HasModule at 1.
  destruct (str_find (modules_ f) (module_key md)) as [x|] eqn:Ex.
  - apply answers_same; try done. unfold table. by rewrite Ht.
  - destruct (str_find (modules_ b) (module_key md)) as [m|] eqn:Em; [|by apply answers_absent].
    destruct Ht as (fm & Hfm & Hsame). by eapply answers_converted.
Qed.

(** [ConvertOneModule] succeeds exactly when the basic resolver has a module of
    that name and the fast one does not; the fast resolver then answers for it as
    the basic one does and for every other module as before, and otherwise it is
    not changed. *)
Lemma convert_one alloc (moduleid : cstring) (b : Resolver BasicModule) (f : Resolver FastModule) :
  alloc_ok alloc -> resolver_reachable b -> resolver_reachable f -> small_modules b ->
  exists r f', ConvertOneModule alloc moduleid (Some b) f = Ok (r, f') /\
    (r = true <-> is_Some (table b (c_str moduleid)) /\ table f (c_str moduleid) = None) /\
    (r = false -> f' = f) /\
    forall md, if r && str_eqb (c_str moduleid) (module_key md) then answers_as md f' b else answers_as md f' f.
Proof.
  intros Ha Hb Hf Hsm. pose proof (reachable_tables b Hb) as Htb. pose proof (reachable_tables f Hf) as Htf.
  unfold ConvertOneModule. change (str_find (modules_ b) (c_str moduleid)) with (table b (c_str moduleid)).
  destruct (table b (c_str moduleid)) as [m|] eqn:Em.
  2: { exists false, f. split; [done|]. split; [split; [done|by intros [[] _]]|]. split; [done|].
       intros md. by apply answers_same. }
  pose proof (convert_step alloc Ha (c_str moduleid) m f Htf (c_str_c_str _) ltac:(by eapply reachable_convertible)) as Hst.
  unfold table at 1. destruct (str_find (modules_ f) (c_str moduleid)) as [x|] eqn:Ex.
  - exists false, f. split; [done|]. split; [split; [done|by intros [_ ?]]|]. split; [done|].
    intros md. by apply answers_same.
  - destruct Hst as (f' & fm & E & Htf' & Hsame & Hfind). exists true, f'. split; [done|].
    split; [done|]. split; [done|]. intros md. cbn [andb].
    destruct (str_eqb _ (module_key md)) eqn:Ek.
    + apply str_eqb_spec in Ek. eapply answers_converted; try done; unfold table; rewrite <- Ek; [exact Em|].
      by rewrite Hfind, str_eqb_refl.
    + apply answers_same; try done. unfold table. by rewrite Hfind, Ek.
Qed.

(** ** Witnesses *)

Lemma demo_resolver_small : small_modules demo_resolver.
Proof.
  intros k m. unfold table. assert (H: forallb (λ km, module_size km.2 <? 2 ^ 32) (modules_ demo_resolver) = true) by by vm_compute.
  intros Hk%str_find_Some; [|apply reachable_tables, demo_resolver_reachable].
  rewrite forallb_forall in H. apply list_elem_of_In, H in Hk. by apply Z.ltb_lt in Hk.
Qed.

Lemma convert_all_witness :
  exists f', ConvertAllModules demo_alloc (Some demo_resolver) Resolver_new = Ok f' /\
    HasModule (Some demo_module) f' = true /\ answers_as demo_module f' demo_resolver.
Proof.
  destruct (convert_all demo_alloc demo_resolver Resolver_new demo_alloc_ok demo_resolver_reachable (reach_new) demo_resolver_small)
    as (f' & E & H).
  exists f'. split; [exact E|]. specialize (H demo_module). cbn [HasModule Resolver_new modules_ str_find] in H.
  split; [|exact H]. by rewrite (as_has _ _ _ H).
Defined.

Lemma convert_one_witness :
  exists f', ConvertOneModule demo_alloc (lit "a.out") (Some demo_resolver) Resolver_new = Ok (true, f') /\
    answers_as demo_module f' demo_resolver.
Proof.
  destruct (convert_one demo_alloc (lit "a.out") demo_resolver Resolver_new demo_alloc_ok demo_resolver_reachable (reach_new)
    demo_resolver_small) as (r & f' & E & Hr & _ & H).
  assert (r = true) as -> by (apply Hr; split; [by vm_compute; eexists|by vm_compute]). exists f'. split; [exact E|]. exact (H demo_module).
Defined.
