(* ===== verification/ByteReader.v ===== *)
(** common/dwarf/bytereader.h, bytereader-inl.h, bytereader.cc: [ByteReader], which reads
    numbers from a section of DWARF data.
    The section is a list of bytes and a pointer into it a position; reading outside it is
    undefined.  A failed [assert] and [abort] are undefined, too. *)
From stdpp Require Import list.
From S2P Require Import Prelude Memory.

Inductive Endianness := ENDIANNESS_BIG | ENDIANNESS_LITTLE.

(** A base address is [None] until it is set ([have_text_base_] and the like); the section
    base comes with the position it is the address of.  A size is 0 until it is set. *)
Record ByteReader := mkByteReader {
  endian_ : Endianness;
  address_size_ : Z;
  offset_size_ : Z;
  section_base_ : option (Z * Z);
  text_base_ : option Z;
  data_base_ : option Z;
  function_base_ : option Z
}.

Definition ByteReader_new (endian : Endianness) : ByteReader := mkByteReader endian 0 0 None None None None.

Definition with_address_size (r : ByteReader) x :=
  mkByteReader (endian_ r) x (offset_size_ r) (section_base_ r) (text_base_ r) (data_base_ r) (function_base_ r).
Definition with_offset_size (r : ByteReader) x :=
  mkByteReader (endian_ r) (address_size_ r) x (section_base_ r) (text_base_ r) (data_base_ r) (function_base_ r).
Definition with_bases (r : ByteReader) s t d f := mkByteReader (endian_ r) (address_size_ r) (offset_size_ r) s t d f.

Definition SetCFIDataBase (r : ByteReader) (section_base buffer_base : Z) : ByteReader :=
  with_bases r (Some (section_base, buffer_base)) (text_base_ r) (data_base_ r) (function_base_ r).
Definition SetTextBase (r : ByteReader) (text_base : Z) : ByteReader :=
  with_bases r (section_base_ r) (Some text_base) (data_base_ r) (function_base_ r).
Definition SetDataBase (r : ByteReader) (data_base : Z) : ByteReader :=
  with_bases r (section_base_ r) (text_base_ r) (Some data_base) (function_base_ r).
Definition SetFunctionBase (r : ByteReader) (function_base : Z) : ByteReader :=
  with_bases r (section_base_ r) (text_base_ r) (data_base_ r) (Some function_base).
Definition ClearFunctionBase (r : ByteReader) : ByteReader :=
  with_bases r (section_base_ r) (text_base_ r) (data_base_ r) None.

Definition SetOffsetSize (r : ByteReader) (size : Z) : outcome ByteReader :=
  if (size =? 4) || (size =? 8) then Ok (with_offset_size r size) else Undefined.
Definition SetAddressSize (r : ByteReader) (size : Z) : outcome ByteReader :=
  if (size =? 4) || (size =? 8) then Ok (with_address_size r size) else Undefined.

(** ** Numbers of a fixed size *)

(** The bytes [buffer[0]], ..., [buffer[n - 1]]. *)
Definition bytes_at (section : list Z) (buffer : Z) (n : nat) : outcome (list Z) :=
  if (0 <=? buffer) && (buffer + Z.of_nat n <=? Z.of_nat (length section)) then Ok (slice section buffer n) else Undefined.

(** [buffer0 | buffer1 << 8 | buffer2 << 16 | ...]. *)
Fixpoint or_shifted (shift : Z) (bs : list Z) : Z :=
  match bs with
  | [] => 0
  | b :: bs => Z.lor (Z.shiftl b shift) (or_shifted (shift + 8) bs)
  end.

Definition read_number (r : ByteReader) (section : list Z) (buffer : Z) (n : nat) : outcome Z :=
  bs ← bytes_at section buffer n;
  Ok (or_shifted 0 (match endian_ r with ENDIANNESS_LITTLE => bs | ENDIANNESS_BIG => reverse bs end)).

Definition ReadOneByte (r : ByteReader) (section : list Z) (buffer : Z) : outcome Z := read_number r section buffer 1.
Definition ReadTwoBytes (r : ByteReader) (section : list Z) (buffer : Z) : outcome Z := read_number r section buffer 2.
Definition ReadFourBytes (r : ByteReader) (section : list Z) (buffer : Z) : outcome Z := read_number r section buffer 4.
Definition ReadEightBytes (r : ByteReader) (section : list Z) (buffer : Z) : outcome Z := read_number r section buffer 8.

(** What [offset_reader_] or [address_reader_] points to for a size; NULL for 0. *)
Definition sized_reader (size : Z) (r : ByteReader) (section : list Z) (buffer : Z) : outcome Z :=
  if size =? 4 then ReadFourBytes r section buffer
  else if size =? 8 then ReadEightBytes r section buffer else Undefined.

Definition ReadOffset (r : ByteReader) (section : list Z) (buffer : Z) : outcome Z := sized_reader (offset_size_ r) r section buffer.
Definition ReadAddress (r : ByteReader) (section : list Z) (buffer : Z) : outcome Z := sized_reader (address_size_ r) r section buffer.

(** The length, [*len], and the reader with the offset size set. *)
Definition ReadInitialLength (r : ByteReader) (section : list Z) (start : Z) : outcome (Z * Z * ByteReader) :=
  initial_length ← ReadFourBytes r section start;
  if initial_length =? 0xffffffff then
    r ← SetOffsetSize r 8; length ← ReadOffset r section (start + 4); Ok (length, 12, r)
  else
    r ← SetOffsetSize r 4; Ok (initial_length, 4, r).

(** ** LEB128 *)

(** The loops read on while the high bit is set.  A shift by the width of the type or more
    is undefined. *)
Fixpoint leb128_loop (buffer : list Z) (result shift num_read : Z) : outcome (Z * Z * Z * Z) :=
  match buffer with
  | [] => Undefined
  | byte :: buffer =>
      if 64 <=? shift then Undefined
      else
        let result := Z.lor result (wrap 64 (Z.shiftl (Z.land byte 0x7f) shift)) in
        if Z.land byte 0x80 =? 0 then Ok (byte, result, shift + 7, num_read + 1)
        else leb128_loop buffer result (shift + 7) (num_read + 1)
  end.

(** The bytes from a position on. *)
Definition from (section : list Z) (buffer : Z) : list Z :=
  if buffer <? 0 then [] else drop (Z.to_nat buffer) section.

(** The number and [*len]. *)
Definition ReadUnsignedLEB128 (section : list Z) (buffer : Z) : outcome (Z * Z) :=
  '(_, result, _, num_read) ← leb128_loop (from section buffer) 0 0 0; Ok (result, num_read).

(** [-((int64) 1 << 63)] overflows. *)
Definition ReadSignedLEB128 (section : list Z) (buffer : Z) : outcome (Z * Z) :=
  '(byte, result, shift, num_read) ← leb128_loop (from section buffer) 0 0 0;
  if (shift <? 64) && negb (Z.land byte 0x40 =? 0) then
    if shift =? 63 then Undefined else Ok (s64 (Z.lor result (- 2 ^ shift)), num_read)
  else Ok (s64 result, num_read).

(** ** Encoded pointers *)

Definition DW_EH_PE_absptr := 0x00.
Definition DW_EH_PE_omit := 0xff.
Definition DW_EH_PE_uleb128 := 0x01.
Definition DW_EH_PE_udata2 := 0x02.
Definition DW_EH_PE_udata4 := 0x03.
Definition DW_EH_PE_udata8 := 0x04.
Definition DW_EH_PE_sleb128 := 0x09.
Definition DW_EH_PE_sdata2 := 0x0a.
Definition DW_EH_PE_sdata4 := 0x0b.
Definition DW_EH_PE_sdata8 := 0x0c.
Definition DW_EH_PE_pcrel := 0x10.
Definition DW_EH_PE_textrel := 0x20.
Definition DW_EH_PE_datarel := 0x30.
Definition DW_EH_PE_funcrel := 0x40.
Definition DW_EH_PE_aligned := 0x50.
Definition DW_EH_PE_indirect := 0x80.

Definition ValidEncoding (encoding : Z) : bool :=
  if encoding =? DW_EH_PE_omit then true
  else if encoding =? DW_EH_PE_aligned then true
  else if DW_EH_PE_udata8 <? Z.land encoding 0x7 then false
  else negb (DW_EH_PE_funcrel <? Z.land encoding 0x70).

Definition is_Some_b {A} (o : option A) : bool := match o with Some _ => true | None => false end.

Definition UsableEncoding (r : ByteReader) (encoding : Z) : bool :=
  let application := Z.land encoding 0x70 in
  if application =? DW_EH_PE_absptr then true
  else if application =? DW_EH_PE_pcrel then is_Some_b (section_base_ r)
  else if application =? DW_EH_PE_textrel then is_Some_b (text_base_ r)
  else if application =? DW_EH_PE_datarel then is_Some_b (data_base_ r)
  else if application =? DW_EH_PE_funcrel then is_Some_b (function_base_ r)
  else false.

Definition sign_extend (offset bit : Z) : Z := wrap 64 (Z.lxor offset bit - bit).

(** The first switch: the value and its length. *)
Definition read_pointer_value (r : ByteReader) (section : list Z) (buffer encoding : Z) : outcome (Z * Z) :=
  let format := Z.land encoding 0x0f in
  if format =? DW_EH_PE_absptr then offset ← ReadAddress r section buffer; Ok (offset, address_size_ r)
  else if format =? DW_EH_PE_uleb128 then ReadUnsignedLEB128 section buffer
  else if format =? DW_EH_PE_udata2 then offset ← ReadTwoBytes r section buffer; Ok (offset, 2)
  else if format =? DW_EH_PE_udata4 then offset ← ReadFourBytes r section buffer; Ok (offset, 4)
  else if format =? DW_EH_PE_udata8 then offset ← ReadEightBytes r section buffer; Ok (offset, 8)
  else if format =? DW_EH_PE_sleb128 then '(offset, len) ← ReadSignedLEB128 section buffer; Ok (u64 offset, len)
  else if format =? DW_EH_PE_sdata2 then offset ← ReadTwoBytes r section buffer; Ok (sign_extend offset 0x8000, 2)
  else if format =? DW_EH_PE_sdata4 then offset ← ReadFourBytes r section buffer; Ok (sign_extend offset 0x80000000, 4)
  else if format =? DW_EH_PE_sdata8 then offset ← ReadEightBytes r section buffer; Ok (offset, 8)
  else Undefined.

Definition of_base (base : option Z) : outcome Z := match base with Some base => Ok base | None => Undefined end.

(** The second switch. *)
Definition pointer_base (r : ByteReader) (buffer encoding : Z) : outcome Z :=
  let application := Z.land encoding 0x70 in
  if application =? DW_EH_PE_absptr then Ok 0
  else if application =? DW_EH_PE_pcrel then
    match section_base_ r with
    | Some (section_base, buffer_base) => Ok (u64 (section_base + (buffer - buffer_base)))
    | None => Undefined
    end
  else if application =? DW_EH_PE_textrel then of_base (text_base_ r)
  else if application =? DW_EH_PE_datarel then of_base (data_base_ r)
  else if application =? DW_EH_PE_funcrel then of_base (function_base_ r)
  else Undefined.

(** The pointer and [*len]. *)
Definition read_aligned_pointer (r : ByteReader) (section : list Z) (buffer : Z) : outcome (Z * Z) :=
  match section_base_ r with
  | None => Undefined
  | Some (section_base, buffer_base) =>
      let skew := Z.land section_base (u64 (address_size_ r - 1)) in
      let offset := u64 (skew + (buffer - buffer_base)) in
      let aligned := Z.land (u64 (offset + address_size_ r - 1)) (u64 (- address_size_ r)) in
      let aligned_buffer := buffer_base + s64 (aligned - skew) in
      address ← ReadAddress r section aligned_buffer;
      Ok (address, u64 (aligned_buffer - buffer + address_size_ r))
  end.

Definition ReadEncodedPointer (r : ByteReader) (section : list Z) (buffer encoding : Z) : outcome (Z * Z) :=
  if encoding =? DW_EH_PE_omit then Undefined
  else if encoding =? DW_EH_PE_aligned then read_aligned_pointer r section buffer
  else
    '(offset, len) ← read_pointer_value r section buffer encoding;
    base ← pointer_base r buffer encoding;
    let pointer := u64 (base + offset) in
    if address_size_ r =? 4 then Ok (Z.land pointer 0xffffffff, len)
    else if address_size_ r =? 8 then Ok (pointer, len)
    else Undefined.

(** ** What the format says

    The encodings of the comments in bytereader.h: a number of [n] bytes in the order of
    the reader, and LEB128: groups of seven bits, least significant first, with the high
    bit set on all but the last. *)
Definition bytes_of (e : Endianness) (n : nat) (v : Z) : list Z :=
  match e with ENDIANNESS_LITTLE => le_bytes n v | ENDIANNESS_BIG => reverse (le_bytes n v) end.

Fixpoint leb_bytes (groups : list Z) : list Z :=
  match groups with
  | [] => []
  | [g] => [g]
  | g :: groups => (128 + g) :: leb_bytes groups
  end.

Fixpoint unsigned_groups (k : nat) (n : Z) : list Z :=
  match k with
  | O => []
  | S k => if n <? 128 then [n] else n mod 128 :: unsigned_groups k (n / 128)
  end.

Fixpoint signed_groups (k : nat) (n : Z) : list Z :=
  match k with
  | O => []
  | S k => if (-64 <=? n) && (n <? 64) then [n mod 128] else n mod 128 :: signed_groups k (n / 128)
  end.

(** Ten groups hold a 64-bit number. *)
Definition uleb128 (n : Z) : list Z := leb_bytes (unsigned_groups 10 n).
Definition sleb128 (n : Z) : list Z := leb_bytes (signed_groups 10 n).
#[global] Arguments uleb128 : simpl never.
#[global] Arguments sleb128 : simpl never.
#[global] Arguments bytes_of : simpl never.

(** ** Lemmas on bits *)

Lemma land_disjoint a b k : 0 <= k -> 0 <= a < 2 ^ k -> Z.land a (b * 2 ^ k) = 0.
Proof.
  intros Hk Ha. apply Z.bits_inj_0. intros i. rewrite Z.land_spec. destruct (Z_lt_ge_dec i k).
  - destruct (Z_lt_ge_dec i 0); [by rewrite Z.testbit_neg_r by lia|]. by rewrite Z.mul_pow2_bits_low, andb_false_r by lia.
  - destruct (Z.eq_dec a 0) as [->|]; [by rewrite Z.bits_0|]. rewrite (Z.bits_above_log2 a i); [done|lia|].
    apply Z.lt_le_trans with k; [apply Z.log2_lt_pow2; lia|lia].
Qed.

Lemma lxor_bit u k : 0 <= k -> 0 <= u < 2 ^ (k + 1) -> Z.lxor u (2 ^ k) = if u <? 2 ^ k then u + 2 ^ k else u - 2 ^ k.
Proof.
  intros Hk Hu. rewrite Z.pow_add_r in Hu by lia. change (2 ^ 1) with 2 in Hu.
  assert (Hadd: forall a, 0 <= a < 2 ^ k -> Z.lxor a (2 ^ k) = a + 2 ^ k).
  { intros a Ha. pose proof (land_disjoint a 1 k Hk Ha) as E. rewrite Z.mul_1_l in E. by rewrite <- Z.add_nocarry_lxor. }
  dif; [by apply Hadd; lia|]. replace u with (u - 2 ^ k + 2 ^ k) at 1 by lia. rewrite <- Hadd by lia.
  by rewrite Z.lxor_assoc, Z.lxor_nilpotent, Z.lxor_0_r.
Qed.

Lemma or_shifted_val shift bs :
  0 <= shift -> Forall byte_ok bs -> or_shifted shift bs = 2 ^ shift * le_val bs.
Proof.
  intros Hs Hbs. revert shift Hs. induction Hbs as [|b bs Hb _ IH]; intros shift Hs; cbn [or_shifted le_val]; [by rewrite Z.mul_0_r|].
  unfold byte_ok, fits in Hb. pose proof (pow2_pos shift Hs).
  rewrite IH, Z.shiftl_mul_pow2 by lia. rewrite (Z.mul_comm (2 ^ (shift + 8))), lor_disjoint.
  - rewrite Z.pow_add_r by lia. change (2 ^ 8) with 256. change (le_val (b :: bs)) with (b + 256 * le_val bs). ring.
  - lia.
  - rewrite Z.pow_add_r by lia. change (2 ^ 8) with 256 in *. nia.
Qed.

(** The low bits of a sum are those of its parts, the lower part below [2 ^ t]. *)
Lemma wrap_split w t a b : 0 <= t <= w -> 0 <= a < 2 ^ t -> wrap w (a + 2 ^ t * b) = a + wrap w (2 ^ t * b).
Proof.
  intros Ht Ha. unfold wrap. replace w with (t + (w - t)) by lia. rewrite Z.pow_add_r by lia.
  pose proof (pow2_pos t) as ?. pose proof (pow2_pos (w - t)) as ?.
  pose proof (Z.mod_pos_bound b (2 ^ (w - t)) ltac:(lia)). rewrite Z.mul_mod_distr_l by lia.
  symmetry. apply (Z.mod_unique _ _ (b / 2 ^ (w - t))); [left; nia|].
  rewrite (Z.div_mod b (2 ^ (w - t))) at 1 by lia. lia.
Qed.

Lemma length_bytes_of e n v : length (bytes_of e n v) = n.
Proof. destruct e; unfold bytes_of; rewrite ?length_reverse; apply length_le_bytes. Qed.

Lemma holds_within section p bs : holds section p bs -> bs <> [] -> p + Z.of_nat (length bs) <= Z.of_nat (length section).
Proof.
  intros [Hp H] Hne. apply (f_equal length) in H. unfold slice in H. rewrite length_take, length_drop in H.
  destruct bs; [done|]. cbn [length] in *. lia.
Qed.

Lemma holds_from section p bs : holds section p bs -> exists rest, from section p = bs ++ rest.
Proof.
  intros [Hp H]. unfold from. rewrite (proj2 (Z.ltb_ge _ _) Hp). unfold slice in H.
  exists (drop (length bs) (drop (Z.to_nat p) section)). rewrite <- (take_drop (length bs) (drop (Z.to_nat p) section)) at 1. by rewrite H.
Qed.

Lemma bytes_at_holds section p bs : holds section p bs -> bs <> [] -> bytes_at section p (length bs) = Ok bs.
Proof.
  intros H Hne. pose proof (holds_within _ _ _ H Hne). destruct H as [Hp H]. unfold bytes_at.
  rewrite (proj2 (Z.leb_le _ _) Hp), (proj2 (Z.leb_le _ _)) by lia. cbn. by rewrite H.
Qed.

(** ** Reading back *)

Lemma read_number_bytes r section p n v :
  (0 < n)%nat -> holds section p (bytes_of (endian_ r) n v) -> read_number r section p n = Ok (wrap (8 * Z.of_nat n) v).
Proof.
  intros Hn H. unfold read_number. rewrite <- (length_bytes_of (endian_ r) n v) at 1.
  rewrite bytes_at_holds; [|done|intros E; apply (f_equal length) in E; rewrite length_bytes_of in E; cbn in E; lia].
  rewrite bind_Ok. f_equal. unfold bytes_of. destruct (endian_ r); rewrite ?reverse_involutive, or_shifted_val, le_val_bytes;
    try apply le_bytes_ok; try lia; unfold wrap; lia.
Qed.

Lemma sized_reader_bytes r section p size v :
  size = 4 \/ size = 8 -> holds section p (bytes_of (endian_ r) (Z.to_nat size) v) ->
  sized_reader size r section p = Ok (wrap (8 * size) v).
Proof.
  intros [-> | ->] H; unfold sized_reader, ReadFourBytes, ReadEightBytes; cbn [Z.eqb Pos.eqb];
    rewrite (read_number_bytes _ _ _ _ v); try done; cbn; lia.
Qed.

Fixpoint val128 (groups : list Z) : Z :=
  match groups with [] => 0 | g :: groups => g + 128 * val128 groups end.

Definition group_ok (g : Z) : Prop := 0 <= g < 128.

Lemma group_bits g : group_ok g ->
  Z.land g 0x7f = g /\ Z.land g 0x80 = 0 /\ Z.land (128 + g) 0x7f = g /\ (Z.land (128 + g) 0x80 =? 0) = false.
Proof.
  intros Hg. assert (Hall: forallb (λ k : nat, let g := Z.of_nat k in
    (Z.land g 0x7f =? g) && (Z.land g 0x80 =? 0) && (Z.land (128 + g) 0x7f =? g) && negb (Z.land (128 + g) 0x80 =? 0)) (seq 0 128) = true)
    by (vm_compute; reflexivity).
  rewrite forallb_forall in Hall. specialize (Hall (Z.to_nat g)). rewrite in_seq in Hall. unfold group_ok in Hg.
  specialize (Hall ltac:(lia)). cbv zeta in Hall. rewrite Z2Nat.id in Hall by lia. breflect. repeat split; try done. by apply Z.eqb_neq.
Qed.

Lemma length_leb_bytes gs : length (leb_bytes gs) = length gs.
Proof. induction gs as [|g [|g' gs] IH]; [done|done|]. cbn [leb_bytes length] in *. by rewrite IH. Qed.

(** The loop on the bytes of some groups. *)
Lemma leb128_loop_groups gs rest : forall result shift num_read,
  Forall group_ok gs -> gs <> [] -> 0 <= shift -> shift + 7 * Z.of_nat (length gs) <= 70 -> 0 <= result < 2 ^ shift ->
  exists g, last gs = Some g /\
    leb128_loop (leb_bytes gs ++ rest) result shift num_read =
      Ok (g, result + wrap 64 (2 ^ shift * val128 gs), shift + 7 * Z.of_nat (length gs), num_read + Z.of_nat (length gs)).
Proof.
  induction gs as [|g gs IH]; [done|]. intros result shift num_read Hok _ Hs Hlen Hr. cbn [length] in Hlen.
  apply Forall_cons in Hok as [Hg Hok]. destruct (group_bits g Hg) as (E1 & E2 & E3 & E4).
  pose proof (pow2_pos shift Hs). unfold group_ok in Hg.
  assert (Hlor: forall m, Z.lor result (wrap 64 (Z.shiftl m shift)) = result + wrap 64 (2 ^ shift * m)).
  { intros m. rewrite Z.shiftl_mul_pow2 by lia. rewrite (Z.mul_comm m). unfold wrap.
    replace 64 with (shift + (64 - shift)) by lia. rewrite Z.pow_add_r by lia. rewrite Z.mul_mod_distr_l
      by (pose proof (pow2_pos (64 - shift)); lia). rewrite (Z.mul_comm (2 ^ shift) (m mod _)). by apply lor_disjoint. }
  destruct gs as [|g' gs].
  - exists g. split; [done|]. cbn [leb_bytes app leb128_loop val128 length].
    rewrite (proj2 (Z.leb_gt _ _)) by lia. cbv zeta. rewrite E1, E2, Hlor. cbn [Z.eqb]. repeat f_equal; lia.
  - cbn [length] in Hlen. destruct (IH (result + 2 ^ shift * g) (shift + 7) (num_read + 1)) as (l & Hl & IH'); [done|done|lia|cbn [length]; lia|
      rewrite Z.pow_add_r by lia; change (2 ^ 7) with 128; nia|].
    exists l. split; [done|]. change (leb_bytes (g :: g' :: gs)) with ((128 + g) :: leb_bytes (g' :: gs)).
    cbn [app leb128_loop]. rewrite (proj2 (Z.leb_gt _ _)) by lia. cbv zeta. rewrite E3, E4, Hlor.
    rewrite (wrap_small 64 (2 ^ shift * g)).
    2:{ split; [nia|]. apply Z.lt_le_trans with (2 ^ (shift + 7)); [rewrite Z.pow_add_r by lia; change (2 ^ 7) with 128; nia|].
        apply Z.pow_le_mono_r; lia. }
    rewrite IH'. change (val128 (g :: g' :: gs)) with (g + 128 * val128 (g' :: gs)). cbn [length].
    replace (2 ^ shift * (g + 128 * val128 (g' :: gs))) with (2 ^ shift * g + 2 ^ (shift + 7) * val128 (g' :: gs))
      by (rewrite Z.pow_add_r by lia; change (2 ^ 7) with 128; lia).
    rewrite (wrap_split 64 (shift + 7)); [f_equal; repeat apply (f_equal2 pair); lia|lia|].
    rewrite Z.pow_add_r by lia. change (2 ^ 7) with 128. nia.
Qed.

Lemma unsigned_groups_spec k : forall n, (0 < k)%nat -> 0 <= n < 2 ^ (7 * Z.of_nat k) ->
  let gs := unsigned_groups k n in
  Forall group_ok gs /\ gs <> [] /\ (length gs <= k)%nat /\ val128 gs = n.
Proof.
  induction k as [|k IH]; [lia|]. intros n _ Hn. cbn [unsigned_groups]. cbv zeta. dif.
  - split_and!; [by repeat constructor; unfold group_ok; lia|done|cbn; lia|cbn; lia].
  - destruct k as [|k].
    { change (7 * Z.of_nat 1) with 7 in Hn. lia. }
    destruct (IH (n / 128)) as (H1 & H2 & H3 & H4); [lia| |].
    { replace (7 * Z.of_nat (S (S k))) with (7 + 7 * Z.of_nat (S k)) in Hn by lia. rewrite Z.pow_add_r in Hn by lia.
      change (2 ^ 7) with 128 in Hn. split; [apply Z.div_pos; lia|]. apply Z.div_lt_upper_bound; lia. }
    split_and!; [|done|cbn [length]; lia|].
    + constructor; [|done]. unfold group_ok. apply Z.mod_pos_bound. lia.
    + cbn [val128]. rewrite H4. pose proof (Z.div_mod n 128). lia.
Qed.

Definition in_bits (n : Z) (l : nat) : Prop := - 2 ^ (7 * Z.of_nat l - 1) <= n < 2 ^ (7 * Z.of_nat l - 1).

(** The groups of a signed number: as few as hold it, with its sign in the last. *)
Lemma signed_groups_spec k : forall n, (0 < k)%nat -> in_bits n k ->
  let gs := signed_groups k n in
  Forall group_ok gs /\ (0 < length gs <= k)%nat /\ val128 gs = n mod 2 ^ (7 * Z.of_nat (length gs)) /\
  in_bits n (length gs) /\ ((1 < length gs)%nat -> ~ in_bits n (length gs - 1)) /\
  (forall g, last gs = Some g -> (Z.land g 0x40 =? 0) = negb (n <? 0)).
Proof.
  induction k as [|k IH]; [lia|]. intros n _ Hn. cbn [signed_groups]. cbv zeta. dif.
  - cbn [length val128]. change (7 * Z.of_nat 1) with 7. change (2 ^ 7) with 128. unfold in_bits. change (2 ^ (7 * Z.of_nat 1 - 1)) with 64.
    split_and!; try lia.
    + repeat constructor; apply Z.mod_pos_bound; lia.
    + intros g [= <-]. assert (Hall: forallb (λ i : nat, let n := Z.of_nat i - 64 in
        Bool.eqb (Z.land (n mod 128) 0x40 =? 0) (negb (n <? 0))) (seq 0 128) = true) by (vm_compute; reflexivity).
      rewrite forallb_forall in Hall. specialize (Hall (Z.to_nat (n + 64))). rewrite in_seq in Hall. specialize (Hall ltac:(lia)).
      cbv zeta in Hall. rewrite Z2Nat.id in Hall by lia. replace (n + 64 - 64) with n in Hall by lia. by apply Bool.eqb_prop in Hall.
  - destruct k as [|k].
    { exfalso. unfold in_bits in Hn. change (2 ^ (7 * Z.of_nat 1 - 1)) with 64 in Hn. destruct E as [E|E]; breflect; lia. }
    assert (Hsh: forall l, (0 < l)%nat -> in_bits (n / 128) l <-> in_bits n (S l)).
    { intros l Hl. unfold in_bits. replace (7 * Z.of_nat (S l) - 1) with (7 + (7 * Z.of_nat l - 1)) by lia.
      rewrite Z.pow_add_r by lia. change (2 ^ 7) with 128. pose proof (Z.div_mod n 128). pose proof (Z.mod_pos_bound n 128).
      set (p := 2 ^ (7 * Z.of_nat l - 1)) in *. lia. }
    destruct (IH (n / 128)) as (H1 & H2 & H3 & H4 & H5 & H6); [lia|by apply Hsh; [lia|]|].
    set (gs := signed_groups (S k) (n / 128)) in *. cbn [length val128].
    split_and!; try lia.
    + constructor; [|done]. unfold group_ok. apply Z.mod_pos_bound. lia.
    + rewrite H3. replace (7 * Z.of_nat (S (length gs))) with (7 + 7 * Z.of_nat (length gs)) by lia.
      rewrite Z.pow_add_r by lia. change (2 ^ 7) with 128. rewrite Z.rem_mul_r; [done|lia|apply pow2_pos; lia].
    + by apply Hsh; [lia|].
    + intros _. replace (S (length gs) - 1)%nat with (length gs) by lia. destruct (length gs) as [|[|l]] eqn:El; [lia| |].
      * unfold in_bits. change (2 ^ (7 * Z.of_nat 1 - 1)) with 64. destruct E as [E|E]; breflect; lia.
      * rewrite <- Hsh by lia. replace (S (S l) - 1)%nat with (S l) in H5 by lia. apply H5. lia.
    + intros g Hg. destruct gs as [|g' gs'] eqn:Egs; [cbn in H2; lia|]. rewrite last_cons_cons in Hg. rewrite (H6 g Hg).
      f_equal. apply eq_true_iff_eq. rewrite !Z.ltb_lt. pose proof (Z.div_mod n 128). pose proof (Z.mod_pos_bound n 128). lia.
Qed.

Lemma leb_bytes_nonempty gs : gs <> [] -> leb_bytes gs <> [].
Proof. intros Hne E. apply (f_equal length) in E. rewrite length_leb_bytes in E. by destruct gs. Qed.

Lemma uleb128_read section p n :
  fits 64 n -> holds section p (uleb128 n) -> ReadUnsignedLEB128 section p = Ok (n, Z.of_nat (length (uleb128 n))).
Proof.
  intros Hn H. destruct (unsigned_groups_spec 10 n) as (Hok & Hne & Hlen & Hv); [lia| |].
  { unfold fits in Hn. change (7 * Z.of_nat 10) with 70. split; [lia|]. apply Z.lt_trans with (2 ^ 64); [lia|reflexivity]. }
  destruct (holds_from _ _ _ H) as [rest E]. unfold ReadUnsignedLEB128. rewrite E. unfold uleb128 in *.
  destruct (leb128_loop_groups (unsigned_groups 10 n) rest 0 0 0 Hok Hne) as (g & _ & ->); [lia|lia|lia|].
  rewrite bind_Ok, Hv, length_leb_bytes, Z.mul_1_l, wrap_small by done. by f_equal.
Qed.

(** The numbers whose nine bytes end in a sign bit. *)
Definition sleb128_overflows (n : Z) : bool := (- 2 ^ 62 <=? n) && (n <? - 2 ^ 55).

Lemma wrap_mod_pow w k n : 0 <= w <= k -> wrap w (n mod 2 ^ k) = wrap w n.
Proof.
  intros Hw. unfold wrap. replace k with (w + (k - w)) by lia. rewrite Z.pow_add_r by lia.
  pose proof (pow2_pos w). pose proof (pow2_pos (k - w)). rewrite Z.rem_mul_r by lia.
  rewrite (Z.mul_comm (2 ^ w)), Z_mod_plus_full. apply Z.mod_mod. lia.
Qed.

Lemma s64_wrap n : - 2 ^ 63 <= n < 2 ^ 63 -> s64 (wrap 64 n) = n.
Proof.
  intros Hn. unfold s64, swrap, wrap. change (64 - 1) with 63. rewrite Z.add_mod_idemp_l by done.
  rewrite Z.mod_small; [lia|]. change (2 ^ 64) with (2 ^ 63 + 2 ^ 63). lia.
Qed.

Lemma sleb128_read section p n :
  - 2 ^ 63 <= n < 2 ^ 63 -> holds section p (sleb128 n) ->
  ReadSignedLEB128 section p = if sleb128_overflows n then Undefined else Ok (n, Z.of_nat (length (sleb128 n))).
Proof.
  intros Hn H. destruct (signed_groups_spec 10 n) as (Hok & Hlen & Hv & Hin & Hmin & Hsign); [lia| |].
  { unfold in_bits. change (7 * Z.of_nat 10 - 1) with 69. split; [apply Z.le_trans with (- 2 ^ 63); [done|lia]|].
    apply Z.lt_trans with (2 ^ 63); [lia|done]. }
  destruct (holds_from _ _ _ H) as [rest E]. unfold ReadSignedLEB128. rewrite E. unfold sleb128 in *.
  set (gs := signed_groups 10 n) in *. assert (Hne: gs <> []) by (intros ->; cbn in Hlen; lia).
  destruct (leb128_loop_groups gs rest 0 0 0 Hok Hne) as (g & Hg & ->); [lia|lia|lia|].
  rewrite bind_Ok, length_leb_bytes, Hv, Z.mul_1_l, !Z.add_0_l, (Hsign g Hg), negb_involutive.
  assert (Hgap: sleb128_overflows n = true <-> length gs = 9%nat /\ n < 0).
  { unfold sleb128_overflows, in_bits in *. rewrite andb_true_iff, Z.leb_le, Z.ltb_lt. split.
    - intros Hg'. split; [|lia]. destruct (decide (length gs = 10%nat)) as [E10|].
      { rewrite E10 in Hmin. specialize (Hmin ltac:(lia)). change (7 * Z.of_nat (10 - 1) - 1) with 62 in Hmin. lia. }
      destruct (decide (length gs = 9%nat)); [done|]. exfalso.
      assert (2 ^ (7 * Z.of_nat (length gs) - 1) <= 2 ^ 55) by (apply Z.pow_le_mono_r; lia). lia.
    - intros [E9 Hneg]. rewrite E9 in Hin, Hmin. specialize (Hmin ltac:(lia)).
      change (7 * Z.of_nat 9 - 1) with 62 in Hin. change (7 * Z.of_nat (9 - 1) - 1) with 55 in Hmin. lia. }
  destruct (decide (length gs = 10%nat)) as [E10|Hn10].
  - rewrite E10. change (7 * Z.of_nat 10) with 70. cbn [Z.ltb Z.compare Pos.compare Pos.compare_cont andb].
    destruct (sleb128_overflows n) eqn:Ev; [exfalso; pose proof (proj1 Hgap eq_refl); lia|].
    by rewrite wrap_mod_pow, s64_wrap by lia.
  - rewrite (proj2 (Z.ltb_lt (7 * Z.of_nat (length gs)) 64)) by lia. cbn [andb].
    pose proof (pow2_pos (7 * Z.of_nat (length gs))). pose proof (Z.mod_pos_bound n (2 ^ (7 * Z.of_nat (length gs)))).
    assert (2 ^ (7 * Z.of_nat (length gs)) <= 2 ^ 63) by (apply Z.pow_le_mono_r; lia).
    assert (Htop: 2 ^ (7 * Z.of_nat (length gs)) = 2 * 2 ^ (7 * Z.of_nat (length gs) - 1)).
    { rewrite <- Z.pow_succ_r by lia. f_equal. lia. }
    unfold in_bits in Hin. rewrite (wrap_small 64) by (unfold fits; change (2 ^ 64) with (2 * 2 ^ 63); lia).
    destruct (n <? 0) eqn:Eneg; breflect.
    + destruct (decide (length gs = 9%nat)) as [E9|Hn9].
      { rewrite (proj2 Hgap) by lia. by rewrite E9. }
      rewrite (proj2 (Z.eqb_neq _ 63)) by lia.
      destruct (sleb128_overflows n) eqn:Ev; [exfalso; pose proof (proj1 Hgap eq_refl); lia|].
      assert (Em: n mod 2 ^ (7 * Z.of_nat (length gs)) = n + 2 ^ (7 * Z.of_nat (length gs)))
        by (symmetry; apply (Z.mod_unique _ _ (-1)); lia).
      replace (- 2 ^ (7 * Z.of_nat (length gs))) with ((-1) * 2 ^ (7 * Z.of_nat (length gs))) by lia.
      rewrite lor_disjoint by lia. rewrite Em. f_equal. f_equal.
      unfold s64. rewrite swrap_small by lia. lia.
    + destruct (sleb128_overflows n) eqn:Ev; [exfalso; pose proof (proj1 Hgap eq_refl); lia|].
      rewrite Z.mod_small by lia. f_equal. f_equal. unfold s64. apply swrap_small; lia.
Qed.

(** ** Encoded pointers *)

(** The fields of the formats of the low nibble: a value and its bytes. *)
Inductive pointer_field (r : ByteReader) : Z -> Z -> list Z -> Prop :=
| field_absptr v : fits (8 * address_size_ r) v ->
    pointer_field r DW_EH_PE_absptr v (bytes_of (endian_ r) (Z.to_nat (address_size_ r)) v)
| field_uleb128 v : fits 64 v -> pointer_field r DW_EH_PE_uleb128 v (uleb128 v)
| field_udata2 v : fits 16 v -> pointer_field r DW_EH_PE_udata2 v (bytes_of (endian_ r) 2 v)
| field_udata4 v : fits 32 v -> pointer_field r DW_EH_PE_udata4 v (bytes_of (endian_ r) 4 v)
| field_udata8 v : fits 64 v -> pointer_field r DW_EH_PE_udata8 v (bytes_of (endian_ r) 8 v)
| field_sleb128 v : - 2 ^ 63 <= v < 2 ^ 63 -> sleb128_overflows v = false -> pointer_field r DW_EH_PE_sleb128 v (sleb128 v)
| field_sdata2 v : - 2 ^ 15 <= v < 2 ^ 15 -> pointer_field r DW_EH_PE_sdata2 v (bytes_of (endian_ r) 2 v)
| field_sdata4 v : - 2 ^ 31 <= v < 2 ^ 31 -> pointer_field r DW_EH_PE_sdata4 v (bytes_of (endian_ r) 4 v)
| field_sdata8 v : - 2 ^ 63 <= v < 2 ^ 63 -> pointer_field r DW_EH_PE_sdata8 v (bytes_of (endian_ r) 8 v).

(** The address a pointer of an application is relative to, [buffer] its position. *)
Definition base_address (r : ByteReader) (buffer encoding : Z) : Z :=
  let application := Z.land encoding 0x70 in
  if application =? DW_EH_PE_pcrel then match section_base_ r with Some (base, start) => base + (buffer - start) | None => 0 end
  else if application =? DW_EH_PE_textrel then default 0 (text_base_ r)
  else if application =? DW_EH_PE_datarel then default 0 (data_base_ r)
  else if application =? DW_EH_PE_funcrel then default 0 (function_base_ r)
  else 0.

Lemma pointer_base_usable r buffer encoding :
  UsableEncoding r encoding = true ->
  exists base, pointer_base r buffer encoding = Ok base /\ u64 base = u64 (base_address r buffer encoding).
Proof.
  unfold UsableEncoding, pointer_base, base_address. cbv zeta.
  destruct (Z.land encoding 0x70 =? DW_EH_PE_absptr) eqn:E0.
  { apply Z.eqb_eq in E0 as ->. intros _. by exists 0. }
  destruct (Z.land encoding 0x70 =? DW_EH_PE_pcrel).
  { destruct (section_base_ r) as [[base start]|]; [|done]. intros _. eexists. split; [done|]. apply wrap_wrap. }
  destruct (Z.land encoding 0x70 =? DW_EH_PE_textrel); [destruct (text_base_ r); [by eexists|done]|].
  destruct (Z.land encoding 0x70 =? DW_EH_PE_datarel); [destruct (data_base_ r); [by eexists|done]|].
  destruct (Z.land encoding 0x70 =? DW_EH_PE_funcrel); [destruct (function_base_ r); [by eexists|done]|done].
Qed.

(** Sign extension gives the value back, modulo [2 ^ 64]. *)
Lemma sign_extend_wrap k v :
  0 <= k -> - 2 ^ k <= v < 2 ^ k -> sign_extend (wrap (k + 1) v) (2 ^ k) = u64 v.
Proof.
  intros Hk Hv. unfold sign_extend. pose proof (wrap_range (k + 1) v ltac:(lia)) as Hw. rewrite lxor_bit by lia.
  unfold wrap in *. rewrite Z.pow_add_r in * by lia. change (2 ^ 1) with 2 in *.
  destruct (Z_lt_ge_dec v 0).
  - assert (E: v mod (2 ^ k * 2) = v + 2 ^ k * 2) by (symmetry; apply (Z.mod_unique _ _ (-1)); lia). rewrite E.
    rewrite (proj2 (Z.ltb_ge _ _)) by lia. unfold u64, wrap. f_equal. lia.
  - rewrite (Z.mod_small v) by lia. rewrite (proj2 (Z.ltb_lt _ _)) by lia. unfold u64, wrap. f_equal. lia.
Qed.

Lemma read_bytes_of r section p n v :
  (0 < n)%nat -> holds section p (bytes_of (endian_ r) n v) ->
  read_number r section p n = Ok (wrap (8 * Z.of_nat n) v) /\ Z.of_nat (length (bytes_of (endian_ r) n v)) = Z.of_nat n.
Proof. intros Hn H. rewrite length_bytes_of. split; [by apply read_number_bytes|done]. Qed.

Lemma read_pointer_value_field r section p encoding v bytes :
  address_size_ r = 4 \/ address_size_ r = 8 -> pointer_field r (Z.land encoding 0x0f) v bytes -> holds section p bytes ->
  exists offset, read_pointer_value r section p encoding = Ok (offset, Z.of_nat (length bytes)) /\ u64 offset = u64 v.
Proof.
  intros Hs Hf H. unfold read_pointer_value, ReadTwoBytes, ReadFourBytes, ReadEightBytes. cbv zeta. remember (Z.land encoding 0x0f) as f eqn:Ef.
  clear Ef. destruct Hf as [v Hv|v Hv|v Hv|v Hv|v Hv|v Hv Ho|v Hv|v Hv|v Hv].
  all: cbn [Z.eqb Pos.eqb DW_EH_PE_absptr DW_EH_PE_uleb128 DW_EH_PE_udata2 DW_EH_PE_udata4 DW_EH_PE_udata8 DW_EH_PE_sleb128
    DW_EH_PE_sdata2 DW_EH_PE_sdata4 DW_EH_PE_sdata8].
  all: try (apply read_bytes_of in H as [-> ->]; [|lia]; rewrite bind_Ok; eexists; split; [reflexivity|]).
  - unfold ReadAddress. rewrite (sized_reader_bytes _ _ _ _ v Hs H), bind_Ok, length_bytes_of.
    exists v. rewrite wrap_small by done. split; [f_equal; f_equal; lia|done].
  - rewrite (uleb128_read _ _ v) by done. by eexists.
  - by rewrite wrap_small.
  - by rewrite wrap_small.
  - by rewrite wrap_small.
  - rewrite (sleb128_read _ _ v), Ho by done. rewrite bind_Ok. eexists. split; [done|]. apply wrap_wrap.
  - change (8 * Z.of_nat 2) with (15 + 1). change 0x8000 with (2 ^ 15). rewrite sign_extend_wrap by lia. apply wrap_wrap.
  - change (8 * Z.of_nat 4) with (31 + 1). change 0x80000000 with (2 ^ 31). rewrite sign_extend_wrap by lia. apply wrap_wrap.
  - apply wrap_wrap.
Qed.

Lemma pointer_read r section buffer encoding v bytes :
  address_size_ r = 4 \/ address_size_ r = 8 -> UsableEncoding r encoding = true ->
  pointer_field r (Z.land encoding 0x0f) v bytes -> holds section buffer bytes ->
  ReadEncodedPointer r section buffer encoding =
    Ok (wrap (8 * address_size_ r) (base_address r buffer encoding + v), Z.of_nat (length bytes)).
Proof.
  intros Hs Hus Hf H. assert (Ho: encoding =? DW_EH_PE_omit = false) by (apply Z.eqb_neq; by intros ->).
  assert (Ha: encoding =? DW_EH_PE_aligned = false) by (apply Z.eqb_neq; by intros ->).
  unfold ReadEncodedPointer. rewrite Ho, Ha.
  destruct (read_pointer_value_field _ _ _ _ _ _ Hs Hf H) as (offset & -> & Eo). rewrite bind_Ok.
  destruct (pointer_base_usable r buffer encoding Hus) as (base & -> & Eb). rewrite bind_Ok.
  assert (E: u64 (base + offset) = u64 (base_address r buffer encoding + v)).
  { unfold u64, wrap in *. by rewrite Z.add_mod, Eb, Eo, <- Z.add_mod by done. }
  rewrite E. destruct Hs as [-> | ->]; cbn [Z.eqb Pos.eqb]; [|done]. f_equal. f_equal.
  change 0xffffffff with (Z.ones 32). rewrite Z.land_ones by done. change (8 * 4) with 32. unfold u64.
  apply (wrap_mod_pow 32 64). lia.
Qed.

(** Encoded pointers.  For an encoding that [ValidEncoding] and [UsableEncoding] accept,
    [ReadEncodedPointer] of a field of its format gives the value of the field relative to
    the base of its application, modulo the size of an address, and the length of the
    field; but both accept the format 8, which is none, and there it aborts. *)
Lemma encoded_pointer (r : ByteReader) (section : list Z) (buffer encoding v : Z) (bytes : list Z) :
  address_size_ r = 4 \/ address_size_ r = 8 -> ValidEncoding encoding = true -> UsableEncoding r encoding = true ->
  (pointer_field r (Z.land encoding 0x0f) v bytes -> holds section buffer bytes ->
   ReadEncodedPointer r section buffer encoding =
     Ok (wrap (8 * address_size_ r) (base_address r buffer encoding + v), Z.of_nat (length bytes))) /\
  (Z.land encoding 0x0f = 8 -> ReadEncodedPointer r section buffer encoding = Undefined) /\
  (forall format, 0 <= format < 16 -> ValidEncoding format = true -> format <> 8 -> exists bytes, pointer_field r format 0 bytes).
Proof.
  intros Hs Hvalid Hus. split_and!.
  - intros Hf H. by apply pointer_read.
  - intros Hf. assert (Ho: encoding =? DW_EH_PE_omit = false) by (apply Z.eqb_neq; by intros ->).
    assert (Ha: encoding =? DW_EH_PE_aligned = false) by (apply Z.eqb_neq; by intros ->).
    unfold ReadEncodedPointer, read_pointer_value. by rewrite Ho, Ha, Hf.
  - intros f Hr Hv Hne. assert (Hin: f ∈ [0; 1; 2; 3; 4; 9; 10; 11; 12]).
    { assert (Hall: forallb (λ k : nat, let f := Z.of_nat k in negb (ValidEncoding f) || (f =? 8) || existsb (Z.eqb f) [0; 1; 2; 3; 4; 9; 10; 11; 12])
        (seq 0 16) = true) by (vm_compute; reflexivity).
      rewrite forallb_forall in Hall. specialize (Hall (Z.to_nat f)). rewrite in_seq in Hall. specialize (Hall ltac:(lia)). cbv zeta in Hall.
      rewrite Z2Nat.id, Hv, (proj2 (Z.eqb_neq f 8)) in Hall by lia. cbn [negb orb] in Hall. apply existsb_exists in Hall as (x & Hx & Ex%Z.eqb_eq).
      subst x. by apply list_elem_of_In. }
    assert (fits (8 * address_size_ r) 0) by (destruct Hs as [-> | ->]; by split).
    set_unfold in Hin. destruct Hin as [->|[->|[->|[->|[->|[->|[->|[->|[->|[]]]]]]]]]]; eexists; by constructor.
Qed.

Definition demo_reader : ByteReader := SetCFIDataBase (with_address_size (ByteReader_new ENDIANNESS_LITTLE) 8) 0x400000 0.

(** A "pc relative, four signed bytes" pointer at 0x400004. *)
Lemma encoded_pointer_witness :
  ReadEncodedPointer demo_reader [0; 0; 0; 0; 0xf0; 0xff; 0xff; 0xff; 0] 4 0x1b = Ok (0x3ffff4, 4).
Proof.
  destruct (encoded_pointer demo_reader [0; 0; 0; 0; 0xf0; 0xff; 0xff; 0xff; 0] 4 0x1b (-16) (bytes_of ENDIANNESS_LITTLE 4 (-16)))
    as (H & _ & _); [by right|reflexivity|reflexivity|].
  apply H; [|by split]. change (Z.land 27 15) with DW_EH_PE_sdata4. by apply (field_sdata4 demo_reader).
Defined.

(** LEB128.  Reading back what the comments describe gives the number and the length,
    for every unsigned and every signed 64-bit number; but for the negative numbers of nine
    bytes the sign extension of [ReadSignedLEB128] overflows. *)
Lemma leb128_roundtrip (section : list Z) (buffer n : Z) :
  (fits 64 n -> holds section buffer (uleb128 n) ->
   ReadUnsignedLEB128 section buffer = Ok (n, Z.of_nat (length (uleb128 n)))) /\
  (- 2 ^ 63 <= n < 2 ^ 63 -> holds section buffer (sleb128 n) ->
   ReadSignedLEB128 section buffer =
     if (- 2 ^ 62 <=? n) && (n <? - 2 ^ 55) then Undefined else Ok (n, Z.of_nat (length (sleb128 n)))).
Proof. split; intros; [by apply uleb128_read|by apply sleb128_read]. Qed.

(** The numbers -128 and -2^55 - 1. *)
Lemma leb128_roundtrip_witness :
  ReadSignedLEB128 [0x80; 0x7f; 0] 0 = Ok (-128, 2) /\
  ReadSignedLEB128 [0xff; 0xff; 0xff; 0xff; 0xff; 0xff; 0xff; 0xff; 0x7e] 0 <> Ok (0, 9) /\
  ReadSignedLEB128 (sleb128 (- 2 ^ 55 - 1)) 0 = Undefined.
Proof.
  split_and!; [|by vm_compute|].
  - refine (proj2 (leb128_roundtrip [0x80; 0x7f; 0] 0 (-128)) _ _); [by split|by split].
  - refine (proj2 (leb128_roundtrip (sleb128 (- 2 ^ 55 - 1)) 0 (- 2 ^ 55 - 1)) _ _); [by split|by split].
Defined.
