(* ===== verification/CallFrameInfo.v ===== *)
(** common/dwarf/dwarf2reader.h, dwarf2reader.cc: [CallFrameInfo], the parser of DWARF call
    frame information.
    Pointers into the buffer are positions in it; pointer arithmetic that leaves the buffer,
    reading outside it and a failed [assert] are undefined.  What the parser tells the
    reporter is a list. *)
From Stdlib Require Import Ascii.
From stdpp Require Import strings list.
From S2P Require Import Prelude StdMap Memory CStr ByteReader.

(** ** Computations

    A function that returns [false] after it changed a state: [None] is [false]. *)
Definition St (S A : Type) : Type := S -> outcome (option A * S).

#[export] Instance St_ret S : MRet (St S) := λ A a s, Ok (Some a, s).
#[export] Instance St_bind S : MBind (St S) := λ A B f m s,
  '(a, s) ← m s;
  match a with Some a => f a s | None => Ok (None, s) end.

Section computations.
Context {S : Type}.

Definition failing {A} : St S A := λ s, Ok (None, s).
Definition undefined {A} : St S A := λ s, Undefined.
Definition get : St S S := λ s, Ok (Some s, s).
Definition modify (f : S -> S) : St S unit := λ s, Ok (Some tt, f s).
Definition lift {A} (o : outcome A) : St S A := λ s, a ← o; Ok (Some a, s).

(** The result of [m] is not looked at. *)
Definition ignoring {A} (m : St S A) : St S unit := λ s, '(_, s) ← m s; Ok (Some tt, s).

(** [if (!m) { r; return false; }]. *)
Definition otherwise {A} (m : St S A) (r : St S A) : St S A := λ s,
  '(a, s) ← m s; match a with Some a => Ok (Some a, s) | None => r s end.
End computations.

(** ** Rules *)

Definition kCFARegister := -1.

Inductive Rule :=
| UndefinedRule
| SameValueRule
| OffsetRule (base_register_ offset_ : Z)
| ValOffsetRule (base_register_ offset_ : Z)
| RegisterRule (register_number_ : Z)
| ExpressionRule (expression_ : list Z)
| ValExpressionRule (expression_ : list Z).

#[export] Instance Rule_eq_dec : EqDecision Rule.
Proof. solve_decision. Defined.

(** [operator==]. *)
Definition rule_eqb (r1 r2 : Rule) : bool := bool_decide (r1 = r2).

Definition SetBaseRegister (reg : Z) (r : Rule) : Rule :=
  match r with ValOffsetRule _ offset => ValOffsetRule (s32 reg) offset | _ => r end.
Definition SetOffset (offset : Z) (r : Rule) : Rule :=
  match r with ValOffsetRule base _ => ValOffsetRule base offset | _ => r end.

(** [CallFrameInfo::Handler]: what the consumer of the information does.  A member function
    returns whether to go on. *)
Class CfiHandler (H : Type) := {
  Entry (offset address length version : Z) (augmentation : list Z) (return_address : Z) : H -> outcome (bool * H);
  HandleUndefined (address reg : Z) : H -> outcome (bool * H);
  HandleSameValue (address reg : Z) : H -> outcome (bool * H);
  HandleOffset (address reg base_register offset : Z) : H -> outcome (bool * H);
  HandleValOffset (address reg base_register offset : Z) : H -> outcome (bool * H);
  HandleRegister (address reg base_register : Z) : H -> outcome (bool * H);
  HandleExpression (address reg : Z) (expression : list Z) : H -> outcome (bool * H);
  HandleValExpression (address reg : Z) (expression : list Z) : H -> outcome (bool * H);
  PersonalityRoutine (address : Z) (indirect : bool) : H -> outcome (bool * H);
  LanguageSpecificDataArea (address : Z) (indirect : bool) : H -> outcome (bool * H);
  SignalHandler : H -> outcome (bool * H);
  End_ : H -> outcome (bool * H)
}.

(** [Handle]. *)
Definition Handle {H} `{CfiHandler H} (r : Rule) (address reg : Z) : H -> outcome (bool * H) :=
  match r with
  | UndefinedRule => HandleUndefined address reg
  | SameValueRule => HandleSameValue address reg
  | OffsetRule base offset => HandleOffset address reg base offset
  | ValOffsetRule base offset => HandleValOffset address reg base offset
  | RegisterRule number => HandleRegister address reg number
  | ExpressionRule expression => HandleExpression address reg expression
  | ValExpressionRule expression => HandleValExpression address reg expression
  end.

(** A map owns its rules, so that assigning a map copies them. *)
Record RuleMap := mkRuleMap { cfa_rule_ : option Rule; registers_ : smap Rule }.

Definition RuleMap_new : RuleMap := mkRuleMap None [].
Definition SetCFARule (m : RuleMap) (rule : Rule) : RuleMap := mkRuleMap (Some rule) (registers_ m).

Definition GetRegisterRule (m : RuleMap) (reg : Z) : outcome (option Rule) :=
  if reg =? kCFARegister then Undefined else Ok (lookup_key (registers_ m) reg).
Definition SetRegisterRule (m : RuleMap) (reg : Z) (rule : Rule) : outcome RuleMap :=
  if reg =? kCFARegister then Undefined else Ok (mkRuleMap (cfa_rule_ m) (assign (registers_ m) reg rule)).

(** ** Entries *)

Inductive EntryKind := kUnknown | kCIE | kFDE | kTerminator.

(** What the reporter is told. *)
Inductive CfiReport :=
| Incomplete (offset : Z) (kind : EntryKind)
| EarlyEHTerminator (offset : Z)
| CIEPointerOutOfRange (offset cie_offset : Z)
| BadCIEId (offset cie_offset : Z)
| UnexpectedAddressSize (offset address_size : Z)
| UnexpectedSegmentSize (offset segment_size : Z)
| UnrecognizedVersion (offset version : Z)
| UnrecognizedAugmentation (offset : Z) (augmentation : list Z)
| InvalidPointerEncoding (offset encoding : Z)
| UnusablePointerEncoding (offset encoding : Z)
| RestoreInCIE (offset insn_offset : Z)
| BadInstruction (offset : Z) (kind : EntryKind) (insn_offset : Z)
| NoCFARule (offset : Z) (kind : EntryKind) (insn_offset : Z)
| EmptyStateStack (offset : Z) (kind : EntryKind) (insn_offset : Z)
| ClearingCFARule (offset : Z) (kind : EntryKind) (insn_offset : Z).

(** [CallFrameInfo::Entry]; [start] is [e_offset], as the buffer starts at 0. *)
Record CfiEntry := mkEntry {
  e_offset : Z;
  e_kind : EntryKind;
  e_fields : Z;
  e_instructions : Z;
  e_end : option Z;
  e_id : Z
}.

Record CIE := mkCIE {
  cie_entry : CfiEntry;
  version : Z;
  augmentation : list Z;
  code_alignment_factor : Z;
  data_alignment_factor : Z;
  return_address_register : Z;
  has_z_augmentation : bool;
  has_z_lsda : bool;
  has_z_personality : bool;
  has_z_signal_frame : bool;
  lsda_encoding : Z;
  personality_encoding : Z;
  personality_address : Z;
  pointer_encoding : Z
}.

Record FDE := mkFDE { fde_entry : CfiEntry; fde_address : Z; fde_size : Z; lsda_address : Z }.

(** Moving a pointer forward. *)
Definition advance (section : list Z) (cursor n : Z) : outcome Z :=
  if cursor + n <=? Z.of_nat (length section) then Ok (cursor + n) else Undefined.

(** ** Interpreting instructions *)

(** [CallFrameInfo::State], but for what does not change in it. *)
Record CfiState (H : Type) := mkCfiState {
  handler_ : H;
  reported : list CfiReport;
  address_ : Z;
  cursor_ : Z;
  rules_ : RuleMap;
  cie_rules_ : RuleMap;
  saved_rules_ : list RuleMap
}.
Arguments mkCfiState {_} _ _ _ _ _ _ _.
Arguments handler_ {_} _.
Arguments reported {_} _.
Arguments address_ {_} _.
Arguments cursor_ {_} _.
Arguments rules_ {_} _.
Arguments cie_rules_ {_} _.
Arguments saved_rules_ {_} _.

Section state.
Context {H : Type}.
Implicit Types (s : CfiState H).

Definition set_handler (h : H) s := mkCfiState h (reported s) (address_ s) (cursor_ s) (rules_ s) (cie_rules_ s) (saved_rules_ s).
Definition add_report (r : CfiReport) s :=
  mkCfiState (handler_ s) (reported s ++ [r]) (address_ s) (cursor_ s) (rules_ s) (cie_rules_ s) (saved_rules_ s).
Definition set_address (a : Z) s := mkCfiState (handler_ s) (reported s) a (cursor_ s) (rules_ s) (cie_rules_ s) (saved_rules_ s).
Definition set_cursor (c : Z) s := mkCfiState (handler_ s) (reported s) (address_ s) c (rules_ s) (cie_rules_ s) (saved_rules_ s).
Definition set_rules (m : RuleMap) s := mkCfiState (handler_ s) (reported s) (address_ s) (cursor_ s) m (cie_rules_ s) (saved_rules_ s).
Definition set_cie_rules (m : RuleMap) s := mkCfiState (handler_ s) (reported s) (address_ s) (cursor_ s) (rules_ s) m (saved_rules_ s).
Definition set_saved (l : list RuleMap) s := mkCfiState (handler_ s) (reported s) (address_ s) (cursor_ s) (rules_ s) (cie_rules_ s) l.
End state.

(** [State::Operands]; the members start without a value. *)
Record Operands := mkOperands {
  register_number : option Z;
  op_offset : option Z;
  signed_offset : option Z;
  expression : option (list Z)
}.

Definition Operands_new : Operands := mkOperands None None None None.

(** Reading an operand that has no value is undefined. *)
Definition given {S A} (o : option A) : St S A := match o with Some a => mret a | None => undefined end.

(** [long] times [int], in [long]. *)
Definition mul_long (a b : Z) : outcome Z :=
  if (- 2 ^ 63 <=? a * b) && (a * b <? 2 ^ 63) then Ok (a * b) else Undefined.

Section interpreter.
Context {H : Type} `{CfiHandler H}.
Context (section : list Z) (reader_ : ByteReader) (entry_ : CfiEntry) (cie : CIE).
Abbreviation M := (St (CfiState H)).

Definition report {A} (r : CfiReport) : M A := modify (add_report r);; failing.

(** Call the handler; [false] is [false]. *)
Definition handled (f : H -> outcome (bool * H)) : M unit := λ s,
  '(ok, h) ← f (handler_ s);
  Ok (if (ok : bool) then Some tt else None, set_handler h s).

Definition ReportIncomplete {A} : M A := report (Incomplete (e_offset entry_) (e_kind entry_)).

(** [CursorOffset()]. *)
Definition with_cursor {A} (f : Z -> M A) : M A := s ← get; f (cursor_ s).

Definition entry_end : Z := default 0 (e_end entry_).
Definition bytes_left : M Z := s ← get; mret (u64 (entry_end - cursor_ s)).
Definition move (len : Z) : M unit := modify (λ s, set_cursor (cursor_ s + len) s).

(** A number and its length, which must be left in the entry. *)
Definition read_counted (read : Z -> outcome (Z * Z)) : M Z :=
  left ← bytes_left; s ← get;
  '(value, len) ← lift (read (cursor_ s));
  if left <? len then ReportIncomplete else move len;; mret value.

(** A number of [len] bytes. *)
Definition read_fixed (len : Z) (read : Z -> outcome Z) : M Z :=
  left ← bytes_left;
  if left <? len then ReportIncomplete
  else s ← get; value ← lift (read (cursor_ s)); move len;; mret value.

Definition read_block : M (list Z) :=
  left ← bytes_left; s ← get;
  '(expression_length, len) ← lift (ReadUnsignedLEB128 section (cursor_ s));
  if (left <? len) || (left - len <? expression_length) then ReportIncomplete
  else
    move len;; s ← get;
    bytes ← lift (bytes_at section (cursor_ s) (Z.to_nat expression_length));
    move expression_length;; mret bytes.

Definition ParseOperand (operand : ascii) (operands : Operands) : M Operands :=
  let '(mkOperands r o so e) := operands in
  let set_offset v := mkOperands r (Some v) so e in
  if Ascii.eqb operand "r" then v ← read_counted (ReadUnsignedLEB128 section); mret (mkOperands (Some (u32 v)) o so e)
  else if Ascii.eqb operand "o" then v ← read_counted (ReadUnsignedLEB128 section); mret (set_offset v)
  else if Ascii.eqb operand "s" then v ← read_counted (ReadSignedLEB128 section); mret (mkOperands r o (Some v) e)
  else if Ascii.eqb operand "a" then
    v ← read_counted (λ cursor, ReadEncodedPointer reader_ section cursor (pointer_encoding cie)); mret (set_offset v)
  else if Ascii.eqb operand "1" then v ← read_fixed 1 (ReadOneByte reader_ section); mret (set_offset v)
  else if Ascii.eqb operand "2" then v ← read_fixed 2 (ReadTwoBytes reader_ section); mret (set_offset v)
  else if Ascii.eqb operand "4" then v ← read_fixed 4 (ReadFourBytes reader_ section); mret (set_offset v)
  else if Ascii.eqb operand "8" then v ← read_fixed 8 (ReadEightBytes reader_ section); mret (set_offset v)
  else if Ascii.eqb operand "e" then v ← read_block; mret (mkOperands r o so (Some v))
  else undefined.

Fixpoint ParseOperands (format : cstring) (operands : Operands) : M Operands :=
  match format with
  | [] => mret operands
  | operand :: format => operands ← ParseOperand operand operands; ParseOperands format operands
  end.

(** Tell the handler of a rule at the current address. *)
Definition handle (rule : Rule) (reg : Z) : M unit := s ← get; handled (Handle rule (address_ s) reg).

Definition set_cfa_rule (rule : Rule) : M unit := modify (λ s, set_rules (SetCFARule (rules_ s) rule) s).

Definition no_cfa_rule {A} : M A := with_cursor (λ c, report (NoCFARule (e_offset entry_) (e_kind entry_) c)).

Definition DoDefCFA (base_register offset : Z) : M unit :=
  let rule := ValOffsetRule (s32 base_register) offset in
  set_cfa_rule rule;; handle rule kCFARegister.

Definition DoDefCFAOffset (offset : Z) : M unit :=
  s ← get;
  match cfa_rule_ (rules_ s) with
  | None => no_cfa_rule
  | Some cfa_rule => let rule := SetOffset offset cfa_rule in set_cfa_rule rule;; handle rule kCFARegister
  end.

Definition DoRule (reg : Z) (rule : Rule) : M unit :=
  s ← get;
  m ← lift (SetRegisterRule (rules_ s) (s32 reg) rule);
  modify (set_rules m);; handle rule (s32 reg).

(** [DoOffset] and [DoValOffset] need a rule for the CFA. *)
Definition with_cfa (m : M unit) : M unit :=
  s ← get; match cfa_rule_ (rules_ s) with None => no_cfa_rule | Some _ => m end.

Definition DoOffset (reg offset : Z) : M unit := with_cfa (DoRule reg (OffsetRule kCFARegister offset)).
Definition DoValOffset (reg offset : Z) : M unit := with_cfa (DoRule reg (ValOffsetRule kCFARegister offset)).

Definition DoRestore (reg : Z) : M unit :=
  match e_kind entry_ with
  | kCIE => with_cursor (λ c, report (RestoreInCIE (e_offset entry_) c))
  | _ =>
      s ← get;
      rule ← lift (GetRegisterRule (cie_rules_ s) (s32 reg));
      DoRule reg (default SameValueRule rule)
  end.

(** [RuleMap::HandleTransitionTo]. *)
Definition cfa_transition (address : Z) (old new : option Rule) : M unit :=
  match old, new with
  | Some rule, Some new_rule =>
      if rule_eqb rule new_rule then mret tt else handled (Handle new_rule address kCFARegister)
  | Some _, None => mret tt
  | None, Some _ => undefined
  | None, None => mret tt
  end.

Fixpoint register_transitions (address : Z) (old new : smap Rule) : M unit :=
  match old, new with
  | [], [] => mret tt
  | [], _ :: _ => undefined
  | (old_reg, _) :: old', [] => handled (HandleSameValue address old_reg);; register_transitions address old' []
  | (old_reg, old_rule) :: old', (new_reg, new_rule) :: new' =>
      if old_reg <? new_reg then handled (HandleSameValue address old_reg);; register_transitions address old' new
      else if new_reg <? old_reg then undefined
      else (if rule_eqb old_rule new_rule then mret tt else handled (Handle new_rule address new_reg));;
           register_transitions address old' new'
  end.

Definition HandleTransitionTo (old : RuleMap) (address : Z) (new_rules : RuleMap) : M unit :=
  cfa_transition address (cfa_rule_ old) (cfa_rule_ new_rules);;
  register_transitions address (registers_ old) (registers_ new_rules).

Definition RestoreState : M unit :=
  s ← get;
  match saved_rules_ s with
  | [] => with_cursor (λ c, report (EmptyStateStack (e_offset entry_) (e_kind entry_) c))
  | new_rules :: saved =>
      match cfa_rule_ (rules_ s), cfa_rule_ new_rules with
      | Some _, None => with_cursor (λ c, report (ClearingCFARule (e_offset entry_) (e_kind entry_) c))
      | _, _ =>
          ignoring (HandleTransitionTo (rules_ s) (address_ s) new_rules);;
          modify (set_rules new_rules);; modify (set_saved saved)
      end
  end.

Fixpoint do_rules (rules : list (Z * Rule)) : M unit :=
  match rules with
  | [] => mret tt
  | (reg, rule) :: rules => DoRule reg rule;; do_rules rules
  end.

(** %o0-%o7 are in %i0-%i7, %l0-%l7 and %i0-%i7 at the CFA. *)
Definition window_save : list (Z * Rule) :=
  ((λ i : nat, (Z.of_nat i, RegisterRule (Z.of_nat i + 16))) <$> seq 8 8) ++
  ((λ i : nat, (Z.of_nat i, OffsetRule kCFARegister ((Z.of_nat i - 16) * address_size_ reader_))) <$> seq 16 16).

Definition parse (format : string) : M Operands := ParseOperands (lit format) Operands_new.

Definition advance_loc (format : string) : M unit :=
  ops ← parse format; offset ← given (op_offset ops);
  modify (λ s, set_address (u64 (address_ s + offset * code_alignment_factor cie)) s).

(** Operands scaled by the data alignment factor, in [uint64] and in [long]. *)
Definition factored (offset : Z) : Z := s64 (offset * data_alignment_factor cie).

Definition parse_rs (use : Z -> Z -> M unit) : M unit :=
  ops ← parse "rs"; reg ← given (register_number ops); so ← given (signed_offset ops);
  offset ← lift (mul_long so (data_alignment_factor cie)); use reg offset.
Definition parse_ro (use : Z -> Z -> M unit) : M unit :=
  ops ← parse "ro"; reg ← given (register_number ops); offset ← given (op_offset ops); use reg offset.
Definition parse_r (use : Z -> M unit) : M unit :=
  ops ← parse "r"; reg ← given (register_number ops); use reg.
Definition parse_re (use : Z -> list Z -> M unit) : M unit :=
  ops ← parse "re"; reg ← given (register_number ops); e ← given (expression ops); use reg e.

Definition DW_CFA_advance_loc := 0x40.
Definition DW_CFA_offset := 0x80.
Definition DW_CFA_restore := 0xc0.

(** The instructions with an operand in the opcode. *)
Definition DoPacked (opcode : Z) : M unit :=
  let operand := Z.land opcode 0x3f in
  let kind := Z.land opcode 0xc0 in
  if kind =? DW_CFA_advance_loc then modify (λ s, set_address (u64 (address_ s + operand * code_alignment_factor cie)) s)
  else if kind =? DW_CFA_offset then
    ops ← parse "o"; offset ← given (op_offset ops); DoOffset operand (factored offset)
  else DoRestore operand.

(** DW_CFA_def_cfa_register without a rule for the CFA uses the offset that the operands
    do not have. *)
Definition DoDefCFARegister (reg : Z) (ops : Operands) : M unit :=
  s ← get;
  match cfa_rule_ (rules_ s) with
  | None => otherwise (offset ← given (op_offset ops); DoDefCFA reg (s64 offset)) no_cfa_rule
  | Some cfa_rule => let rule := SetBaseRegister reg cfa_rule in set_cfa_rule rule;; handle rule kCFARegister
  end.

Definition DoOpcode (opcode : Z) : M unit :=
  if opcode =? 0x00 (* DW_CFA_nop *) then mret tt
  else if opcode =? 0x01 (* DW_CFA_set_loc *) then
    ops ← parse "a"; offset ← given (op_offset ops); modify (set_address offset)
  else if opcode =? 0x02 (* DW_CFA_advance_loc1 *) then advance_loc "1"
  else if opcode =? 0x03 (* DW_CFA_advance_loc2 *) then advance_loc "2"
  else if opcode =? 0x04 (* DW_CFA_advance_loc4 *) then advance_loc "4"
  else if opcode =? 0x1d (* DW_CFA_MIPS_advance_loc8 *) then advance_loc "8"
  else if opcode =? 0x0c (* DW_CFA_def_cfa *) then parse_ro (λ reg offset, DoDefCFA reg (s64 offset))
  else if opcode =? 0x12 (* DW_CFA_def_cfa_sf *) then parse_rs DoDefCFA
  else if opcode =? 0x0d (* DW_CFA_def_cfa_register *) then
    ops ← parse "r"; reg ← given (register_number ops); DoDefCFARegister reg ops
  else if opcode =? 0x0e (* DW_CFA_def_cfa_offset *) then
    ops ← parse "o"; offset ← given (op_offset ops); DoDefCFAOffset (s64 offset)
  else if opcode =? 0x13 (* DW_CFA_def_cfa_offset_sf *) then
    ops ← parse "s"; so ← given (signed_offset ops);
    offset ← lift (mul_long so (data_alignment_factor cie)); DoDefCFAOffset offset
  else if opcode =? 0x0f (* DW_CFA_def_cfa_expression *) then
    ops ← parse "e"; e ← given (expression ops);
    set_cfa_rule (ValExpressionRule e);; handle (ValExpressionRule e) kCFARegister
  else if opcode =? 0x07 (* DW_CFA_undefined *) then parse_r (λ reg, DoRule reg UndefinedRule)
  else if opcode =? 0x08 (* DW_CFA_same_value *) then parse_r (λ reg, DoRule reg SameValueRule)
  else if opcode =? 0x05 (* DW_CFA_offset_extended *) then parse_ro (λ reg offset, DoOffset reg (factored offset))
  else if opcode =? 0x11 (* DW_CFA_offset_extended_sf *) then parse_rs DoOffset
  else if opcode =? 0x2f (* DW_CFA_GNU_negative_offset_extended *) then
    parse_ro (λ reg offset, DoOffset reg (factored (- offset)))
  else if opcode =? 0x14 (* DW_CFA_val_offset *) then parse_ro (λ reg offset, DoValOffset reg (factored offset))
  else if opcode =? 0x15 (* DW_CFA_val_offset_sf *) then parse_rs DoValOffset
  else if opcode =? 0x09 (* DW_CFA_register *) then parse_ro (λ reg offset, DoRule reg (RegisterRule (s32 offset)))
  else if opcode =? 0x10 (* DW_CFA_expression *) then parse_re (λ reg e, DoRule reg (ExpressionRule e))
  else if opcode =? 0x16 (* DW_CFA_val_expression *) then parse_re (λ reg e, DoRule reg (ValExpressionRule e))
  else if opcode =? 0x06 (* DW_CFA_restore_extended *) then parse_r DoRestore
  else if opcode =? 0x0a (* DW_CFA_remember_state *) then modify (λ s, set_saved (rules_ s :: saved_rules_ s) s)
  else if opcode =? 0x0b (* DW_CFA_restore_state *) then RestoreState
  else if opcode =? 0x2d (* DW_CFA_GNU_window_save *) then do_rules window_save
  else if opcode =? 0x2e (* DW_CFA_GNU_args_size *) then parse "o";; mret tt
  else with_cursor (λ c, report (BadInstruction (e_offset entry_) (e_kind entry_) c)).

Definition DoInstruction : M unit :=
  s ← get;
  opcode ← lift (ReadOneByte reader_ section (cursor_ s));
  move 1;;
  if Z.land opcode 0xc0 =? 0 then DoOpcode opcode else DoPacked opcode.

(** [while (cursor_ < entry_->end)]; an instruction takes a byte at least. *)
Fixpoint instruction_loop (fuel : nat) : M unit :=
  s ← get;
  if cursor_ s <? entry_end then
    match fuel with
    | O => undefined
    | S fuel => DoInstruction;; instruction_loop fuel
    end
  else mret tt.

Definition Interpret : M unit :=
  modify (set_cursor (e_instructions entry_));;
  instruction_loop (Z.to_nat (entry_end - e_instructions entry_)).
End interpreter.

Section parser.
Context {H : Type} `{CfiHandler H}.

Definition InterpretCIE (section : list Z) (reader : ByteReader) (cie : CIE) : St (CfiState H) unit :=
  Interpret section reader (cie_entry cie) cie;; modify (λ s, set_cie_rules (rules_ s) s).
Definition InterpretFDE (section : list Z) (reader : ByteReader) (fde : FDE) (cie : CIE) : St (CfiState H) unit :=
  Interpret section reader (fde_entry fde) cie.
End parser.

(** ** Parsing entries *)

(** What parsing changes: the reader, the handler, and what was reported. *)
Record CfiParser (H : Type) := mkCfiParser { p_reader : ByteReader; p_handler : H; p_reported : list CfiReport }.
Arguments mkCfiParser {_} _ _ _.
Arguments p_reader {_} _.
Arguments p_handler {_} _.
Arguments p_reported {_} _.

Definition IsIndirectEncoding (encoding : Z) : bool := negb (Z.land encoding DW_EH_PE_indirect =? 0).

(** [memchr(start, 0, n)]: the distance to a null byte. *)
Fixpoint find_null (bytes : list Z) : option nat :=
  match bytes with
  | [] => None
  | b :: bytes => if b =? 0 then Some O else S <$> find_null bytes
  end.

Section entries.
Context {H : Type} `{CfiHandler H}.
Context (buffer_ : list Z) (eh_frame_ : bool).
Abbreviation P := (St (CfiParser H)).

Definition buffer_length_ : Z := Z.of_nat (length buffer_).

Definition tell (r : CfiReport) : P unit := modify (λ p, mkCfiParser (p_reader p) (p_handler p) (p_reported p ++ [r])).
Definition refuse {A} (r : CfiReport) : P A := tell r;; failing.
Definition set_reader (r : ByteReader) : P unit := modify (λ p, mkCfiParser r (p_handler p) (p_reported p)).
Definition reader : P ByteReader := p ← get; mret (p_reader p).
Definition ask (f : H -> outcome (bool * H)) : P unit := λ p,
  '(ok, h) ← f (p_handler p);
  Ok (if (ok : bool) then Some tt else None, mkCfiParser (p_reader p) h (p_reported p)).
Definition incomplete {A} (entry : CfiEntry) : P A := refuse (Incomplete (e_offset entry) (e_kind entry)).

(** The entry and whether it could be read. *)
Definition ReadEntryPrologue (cursor : Z) : P (bool * CfiEntry) :=
  let entry k f e i := mkEntry cursor k f 0 e i in
  let unknown e := entry kUnknown 0 e 0 in
  let abandon e := tell (Incomplete cursor kUnknown);; mret (false, unknown e) in
  r ← reader;
  '(length, length_size, r) ← lift (ReadInitialLength r buffer_ cursor);
  set_reader r;;
  if u64 (buffer_length_ - cursor) <? length_size then abandon None
  else
    let start := cursor + length_size in
    if (length =? 0) && eh_frame_ then mret (true, entry kTerminator 0 (Some start) 0)
    else if u64 (buffer_length_ - start) <? length then abandon None
    else
      let the_end := start + length in
      let offset_size := offset_size_ r in
      if u64 (the_end - start) <? offset_size then abandon (Some the_end)
      else
        id ← lift (ReadOffset r buffer_ start);
        let '(kind, id) :=
          if eh_frame_ then if id =? 0 then (kCIE, id) else (kFDE, u64 (start - id))
          else if offset_size =? 4 then (if id =? 0xffffffff then kCIE else kFDE, id)
          else (if id =? 0xffffffffffffffff then kCIE else kFDE, id) in
        mret (true, entry kind (start + offset_size) (Some the_end) id).

(** A number and the position after it, or [Incomplete]. *)
Definition counted (entry : CfiEntry) (cursor : Z) (read : Z -> outcome (Z * Z)) : P (Z * Z) :=
  '(value, len) ← lift (read cursor);
  if u64 (default 0 (e_end entry) - cursor) <? len then incomplete entry else mret (value, cursor + len).

(** What the letters of a 'z' augmentation set. *)
Record ZAugmentation := mkZ {
  z_lsda : bool; z_personality : bool; z_signal : bool;
  z_lsda_encoding : Z; z_personality_encoding : Z; z_address : Z; z_pointer_encoding : Z
}.

Definition next_encoding (entry : CfiEntry) (data data_end : Z) : P (Z * Z) :=
  if data_end <=? data then incomplete entry
  else
    r ← reader; encoding ← lift (ReadOneByte r buffer_ data);
    if negb (ValidEncoding encoding) then refuse (InvalidPointerEncoding (e_offset entry) encoding)
    else mret (encoding, data + 1).

Definition check_usable (entry : CfiEntry) (encoding : Z) : P unit :=
  r ← reader;
  if negb (UsableEncoding r encoding) then refuse (UnusablePointerEncoding (e_offset entry) encoding) else mret tt.

(** The loop over the augmentation string; [whole] is all of it. *)
Fixpoint read_augmentation (entry : CfiEntry) (whole letters : list Z) (data data_end : Z) (z : ZAugmentation) : P ZAugmentation :=
  match letters with
  | [] => mret z
  | letter :: letters =>
      if letter =? 76 (* 'L' *) then
        '(encoding, data) ← next_encoding entry data data_end;
        read_augmentation entry whole letters data data_end
          (mkZ true (z_personality z) (z_signal z) encoding (z_personality_encoding z) (z_address z) (z_pointer_encoding z))
      else if letter =? 80 (* 'P' *) then
        '(encoding, data) ← next_encoding entry data data_end;
        check_usable entry encoding;;
        r ← reader;
        '(address, len) ← lift (ReadEncodedPointer r buffer_ data encoding);
        if u64 (data_end - data) <? len then incomplete entry
        else
          read_augmentation entry whole letters (data + len) data_end
            (mkZ (z_lsda z) true (z_signal z) (z_lsda_encoding z) encoding address (z_pointer_encoding z))
      else if letter =? 82 (* 'R' *) then
        '(encoding, data) ← next_encoding entry data data_end;
        check_usable entry encoding;;
        read_augmentation entry whole letters data data_end
          (mkZ (z_lsda z) (z_personality z) (z_signal z) (z_lsda_encoding z) (z_personality_encoding z) (z_address z) encoding)
      else if letter =? 83 (* 'S' *) then
        read_augmentation entry whole letters data data_end
          (mkZ (z_lsda z) (z_personality z) true (z_lsda_encoding z) (z_personality_encoding z) (z_address z) (z_pointer_encoding z))
      else refuse (UnrecognizedAugmentation (e_offset entry) whole)
  end.

(** The augmentation data and the position after it. *)
Definition z_augmentation_data (entry : CfiEntry) (augmentation : list Z) (cursor : Z) : P (ZAugmentation * Z) :=
  let none := mkZ false false false 0 0 0 DW_EH_PE_absptr in
  '(data_size, len) ← lift (ReadUnsignedLEB128 buffer_ cursor);
  if u64 (default 0 (e_end entry) - cursor) <? u64 (len + data_size) then incomplete entry
  else
    let data := cursor + len in
    data_end ← lift (advance buffer_ data data_size);
    z ← read_augmentation entry augmentation (tail augmentation) data data_end none;
    mret (z, data_end).

(** The sizes of version 4. *)
Definition check_sizes (entry : CfiEntry) (cursor : Z) : P Z :=
  r ← reader; address_size ← lift (ReadOneByte r buffer_ cursor);
  if negb (address_size =? 8) then refuse (UnexpectedAddressSize (e_offset entry) address_size)
  else
    segment_size ← lift (ReadOneByte r buffer_ (cursor + 1));
    if negb (segment_size =? 0) then refuse (UnexpectedSegmentSize (e_offset entry) segment_size)
    else mret (cursor + 2).

Definition return_address_column (entry : CfiEntry) (version cursor : Z) : P (Z * Z) :=
  if version =? 1 then
    if default 0 (e_end entry) <=? cursor then incomplete entry
    else r ← reader; b ← lift (ReadOneByte r buffer_ cursor); mret (b, cursor + 1)
  else '(v, cursor) ← counted entry cursor (ReadUnsignedLEB128 buffer_); mret (u32 v, cursor).

(** The augmentation string and the position after it. *)
Definition augmentation_string (entry : CfiEntry) (cursor : Z) : P (list Z * Z) :=
  let bytes := slice buffer_ cursor (Z.to_nat (default 0 (e_end entry) - cursor)) in
  match find_null bytes with
  | None => incomplete entry
  | Some n => mret (take n bytes, cursor + Z.of_nat n + 1)
  end.

Definition ReadCIEFields (entry : CfiEntry) : P CIE :=
  let cursor := e_fields entry in
  if default 0 (e_end entry) - cursor <? 1 then incomplete entry
  else
    r ← reader; version ← lift (ReadOneByte r buffer_ cursor);
    if (version <? 1) || (4 <? version) then refuse (UnrecognizedVersion (e_offset entry) version)
    else
      '(augmentation, cursor) ← augmentation_string entry (cursor + 1);
      let has_z := match augmentation with [] => false | c :: _ => c =? 122 (* 'z' *) end in
      if negb (bool_decide (augmentation = [])) && negb has_z then
        refuse (UnrecognizedAugmentation (e_offset entry) augmentation)
      else
        cursor ← (if 4 <=? version then check_sizes entry cursor else mret cursor);
        '(code_factor, cursor) ← counted entry cursor (ReadUnsignedLEB128 buffer_);
        '(data_factor, cursor) ← counted entry cursor (ReadSignedLEB128 buffer_);
        '(return_address, cursor) ← return_address_column entry version cursor;
        '(z, cursor) ← (if (has_z : bool) then z_augmentation_data entry augmentation cursor
                        else mret (mkZ false false false 0 0 0 DW_EH_PE_absptr, cursor));
        mret (mkCIE (mkEntry (e_offset entry) (e_kind entry) (e_fields entry) cursor (e_end entry) (e_id entry))
                version augmentation code_factor (s32 data_factor) return_address has_z (z_lsda z) (z_personality z)
                (z_signal z) (z_lsda_encoding z) (z_personality_encoding z) (z_address z) (z_pointer_encoding z)).

(** The augmentation data of an FDE: the address of the LSDA and the position after. *)
Definition fde_augmentation_data (entry : CfiEntry) (cie : CIE) (cursor : Z) : P (Z * Z) :=
  '(data_size, len) ← lift (ReadUnsignedLEB128 buffer_ cursor);
  if u64 (default 0 (e_end entry) - cursor) <? u64 (len + data_size) then incomplete entry
  else
    let cursor := cursor + len in
    lsda ← (if has_z_lsda cie then
              r ← reader;
              if negb (UsableEncoding r (lsda_encoding cie)) then
                refuse (UnusablePointerEncoding (e_offset (cie_entry cie)) (lsda_encoding cie))
              else
                '(lsda, len) ← lift (ReadEncodedPointer r buffer_ cursor (lsda_encoding cie));
                if data_size <? len then incomplete entry else mret lsda
            else mret 0);
    cursor ← lift (advance buffer_ cursor data_size);
    mret (lsda, cursor).

Definition ReadFDEFields (entry : CfiEntry) (cie : CIE) : P FDE :=
  r ← reader;
  '(address, cursor) ← counted entry (e_fields entry) (λ c, ReadEncodedPointer r buffer_ c (pointer_encoding cie));
  set_reader (SetFunctionBase r address);;
  r ← reader;
  '(size, cursor) ← counted entry cursor (λ c, ReadEncodedPointer r buffer_ c (Z.land (pointer_encoding cie) 0x0f));
  '(lsda, cursor) ← (if has_z_augmentation cie then fde_augmentation_data entry cie cursor else mret (0, cursor));
  mret (mkFDE (mkEntry (e_offset entry) (e_kind entry) (e_fields entry) cursor (e_end entry) (e_id entry)) address size lsda).

(** Run an interpreter from an FDE's address on; [false] is a result here. *)
Definition interpret (fde : FDE) (cie : CIE) : P bool := λ p,
  let s := mkCfiState (p_handler p) (p_reported p) (fde_address fde) 0 RuleMap_new RuleMap_new [] in
  '(ok, s) ← (InterpretCIE buffer_ (p_reader p) cie;; InterpretFDE buffer_ (p_reader p) fde cie) s;
  Ok (Some (is_Some_b ok), mkCfiParser (p_reader p) (handler_ s) (reported s)).

(** What an FDE that was read gives the handler; failing is [continue]. *)
Definition ask_z (cie : CIE) (fde : FDE) : P unit :=
  if has_z_augmentation cie then
    (if has_z_personality cie then ask (PersonalityRoutine (personality_address cie) (IsIndirectEncoding (personality_encoding cie)))
     else mret tt);;
    (if has_z_lsda cie then ask (LanguageSpecificDataArea (lsda_address fde) (IsIndirectEncoding (lsda_encoding cie)))
     else mret tt);;
    (if has_z_signal_frame cie then ask SignalHandler else mret tt)
  else mret tt.

(** The member function's result. *)
Definition asked (f : H -> outcome (bool * H)) : P bool := λ p,
  '(ok, h) ← f (p_handler p); Ok (Some ok, mkCfiParser (p_reader p) h (p_reported p)).

(** The body of the loop for an FDE; the result is [ok], failing leaves it false. *)
Definition process_fde (entry : CfiEntry) : P bool :=
  if buffer_length_ <? e_id entry then refuse (CIEPointerOutOfRange (e_offset entry) (e_id entry))
  else
    '(ok, cie_entry) ← ReadEntryPrologue (e_id entry);
    if negb ok then failing
    else
      match e_kind cie_entry with
      | kCIE =>
          cie ← ReadCIEFields cie_entry;
          fde ← ReadFDEFields entry cie;
          interested ← asked (Entry (e_offset entry) (fde_address fde) (fde_size fde) (version cie) (augmentation cie)
                                (return_address_register cie));
          if negb interested then mret true
          else
            ask_z cie fde;;
            ok ← interpret fde cie;
            p ← get; set_reader (ClearFunctionBase (p_reader p));;
            asked End_;; mret ok
      | _ => refuse (BadCIEId (e_offset entry) (e_id entry))
      end.

(** The loop of [Start]: [all_ok].  An entry takes four bytes at least. *)
Fixpoint entries_loop (fuel : nat) (cursor : Z) (all_ok : bool) : P bool :=
  if cursor <? buffer_length_ then
    match fuel with
    | O => undefined
    | S fuel =>
        '(ok, entry) ← ReadEntryPrologue cursor;
        if negb ok then
          match e_end entry with
          | None => mret false
          | Some entry_end => entries_loop fuel entry_end false
          end
        else
          let entry_end := default 0 (e_end entry) in
          match e_kind entry with
          | kTerminator =>
              (if entry_end <? buffer_length_ then tell (EarlyEHTerminator (e_offset entry)) else mret tt);; mret all_ok
          | kFDE =>
              ok ← otherwise (process_fde entry) (mret false);
              entries_loop fuel entry_end (all_ok && ok)
          | _ => entries_loop fuel entry_end all_ok
          end
    end
  else mret all_ok.

Definition Start : P bool := entries_loop (length buffer_) 0 true.
End entries.
