(* ===== verification/CfiActions.v ===== *)
(** What the call frame instructions do, apart from how they are written: every instruction
    is an action; the encodings of the DWARF standard (and the extensions) are decoded to
    their actions; an instruction that succeeds has performed one. *)
From Stdlib Require Import Ascii.
From stdpp Require Import strings list.
From S2P Require Import Prelude StdMap Memory CStr ByteReader CallFrameInfo.

(** Offsets are those after scaling, but for the code address. *)
Inductive CfaAction :=
| SetLoc (location : Z)
| AdvanceLoc (delta : Z)
| DefCFA (reg offset : Z)
| DefCFARegister (reg : Z)
| DefCFAOffset (offset : Z)
| DefCFAExpression (e : list Z)
| SetRule (reg : Z) (rule : Rule)
| SetRuleFromCFA (reg : Z) (rule : Rule)
| RestoreRule (reg : Z)
| RememberState
| RestoreSavedState
| WindowSave
| Nop.

(** ** Running computations *)

Lemma bind_runs {S A B} (m : St S A) (f : A -> St S B) {s s' a} : m s = Ok (Some a, s') -> (m ≫= f) s = f a s'.
Proof. intros E. unfold mbind, St_bind, mbind, outcome_bind. by rewrite E. Qed.

Lemma get_runs {S} (s : S) : get s = Ok (Some s, s).
Proof. reflexivity. Qed.

Lemma lift_runs {S A} (o : outcome A) (s : S) {a} : o = Ok a -> lift o s = Ok (Some a, s).
Proof. by intros ->. Qed.

Section actions.
Context {H : Type} `{CfiHandler H}.
Context (section : list Z) (reader : ByteReader) (entry : CfiEntry) (cie : CIE).
Implicit Types (s : CfiState H).
Abbreviation M := (St (CfiState H)).

(** An action by the functions of the interpreter. *)
Definition perform (act : CfaAction) : M unit :=
  match act with
  | SetLoc location => modify (set_address location)
  | AdvanceLoc delta => modify (λ s, set_address (u64 (address_ s + delta * code_alignment_factor cie)) s)
  | DefCFA reg offset => DoDefCFA reg offset
  | DefCFARegister reg => DoDefCFARegister entry reg Operands_new
  | DefCFAOffset offset => DoDefCFAOffset entry offset
  | DefCFAExpression e => set_cfa_rule (ValExpressionRule e);; handle (ValExpressionRule e) kCFARegister
  | SetRule reg rule => DoRule reg rule
  | SetRuleFromCFA reg rule => with_cfa entry (DoRule reg rule)
  | RestoreRule reg => DoRestore entry reg
  | RememberState => modify (λ s, set_saved (rules_ s :: saved_rules_ s) s)
  | RestoreSavedState => RestoreState entry
  | WindowSave => do_rules (window_save reader)
  | Nop => mret tt
  end.

(** ** Encodings *)

(** The operand of DW_CFA_set_loc at a position: the bytes and the address. *)
Definition location_operand (position : Z) (bytes : list Z) (location : Z) : Prop :=
  ValidEncoding (pointer_encoding cie) = true /\ UsableEncoding reader (pointer_encoding cie) = true /\
  exists v, pointer_field reader (Z.land (pointer_encoding cie) 0x0f) v bytes /\
    location = wrap (8 * address_size_ reader) (base_address reader position (pointer_encoding cie) + v).

Definition uleb_ok (v : Z) : Prop := fits 64 v.
Definition reg_ok (r : Z) : Prop := fits 32 r.
Definition sleb_ok (v : Z) : Prop := - 2 ^ 63 <= v < 2 ^ 63 /\ sleb128_overflows v = false.

(** A factored signed offset that [long] holds. *)
Definition sleb_factored (v : Z) : Prop := sleb_ok v /\ - 2 ^ 63 <= v * data_alignment_factor cie < 2 ^ 63.

Definition block (e : list Z) : list Z := uleb128 (Z.of_nat (length e)) ++ e.
Definition block_ok (e : list Z) : Prop := fits 64 (Z.of_nat (length e)).

Definition from_cfa (reg offset : Z) : CfaAction := SetRuleFromCFA reg (OffsetRule kCFARegister offset).
Definition cfa_plus (reg offset : Z) : CfaAction := SetRuleFromCFA reg (ValOffsetRule kCFARegister offset).

(** The bytes of an instruction, the position of its operands, and its action. *)
Inductive encodes (position : Z) : list Z -> CfaAction -> Prop :=
| enc_advance_loc n : 0 <= n < 64 -> encodes position [0x40 + n] (AdvanceLoc n)
| enc_offset r v : 0 <= r < 64 -> uleb_ok v -> encodes position (0x80 + r :: uleb128 v) (from_cfa r (factored cie v))
| enc_restore r : 0 <= r < 64 -> encodes position [0xc0 + r] (RestoreRule r)
| enc_nop : encodes position [0x00] Nop
| enc_set_loc bytes a : location_operand position bytes a -> encodes position (0x01 :: bytes) (SetLoc a)
| enc_advance_loc1 n : fits 8 n -> encodes position (0x02 :: bytes_of (endian_ reader) 1 n) (AdvanceLoc n)
| enc_advance_loc2 n : fits 16 n -> encodes position (0x03 :: bytes_of (endian_ reader) 2 n) (AdvanceLoc n)
| enc_advance_loc4 n : fits 32 n -> encodes position (0x04 :: bytes_of (endian_ reader) 4 n) (AdvanceLoc n)
| enc_advance_loc8 n : fits 64 n -> encodes position (0x1d :: bytes_of (endian_ reader) 8 n) (AdvanceLoc n)
| enc_def_cfa r v : reg_ok r -> uleb_ok v -> encodes position (0x0c :: uleb128 r ++ uleb128 v) (DefCFA r (s64 v))
| enc_def_cfa_sf r v : reg_ok r -> sleb_factored v ->
    encodes position (0x12 :: uleb128 r ++ sleb128 v) (DefCFA r (v * data_alignment_factor cie))
| enc_def_cfa_register r : reg_ok r -> encodes position (0x0d :: uleb128 r) (DefCFARegister r)
| enc_def_cfa_offset v : uleb_ok v -> encodes position (0x0e :: uleb128 v) (DefCFAOffset (s64 v))
| enc_def_cfa_offset_sf v : sleb_factored v -> encodes position (0x13 :: sleb128 v) (DefCFAOffset (v * data_alignment_factor cie))
| enc_def_cfa_expression e : block_ok e -> encodes position (0x0f :: block e) (DefCFAExpression e)
| enc_undefined r : reg_ok r -> encodes position (0x07 :: uleb128 r) (SetRule r UndefinedRule)
| enc_same_value r : reg_ok r -> encodes position (0x08 :: uleb128 r) (SetRule r SameValueRule)
| enc_offset_extended r v : reg_ok r -> uleb_ok v -> encodes position (0x05 :: uleb128 r ++ uleb128 v) (from_cfa r (factored cie v))
| enc_offset_extended_sf r v : reg_ok r -> sleb_factored v ->
    encodes position (0x11 :: uleb128 r ++ sleb128 v) (from_cfa r (v * data_alignment_factor cie))
| enc_negative_offset_extended r v : reg_ok r -> uleb_ok v ->
    encodes position (0x2f :: uleb128 r ++ uleb128 v) (from_cfa r (factored cie (- v)))
| enc_val_offset r v : reg_ok r -> uleb_ok v -> encodes position (0x14 :: uleb128 r ++ uleb128 v) (cfa_plus r (factored cie v))
| enc_val_offset_sf r v : reg_ok r -> sleb_factored v ->
    encodes position (0x15 :: uleb128 r ++ sleb128 v) (cfa_plus r (v * data_alignment_factor cie))
| enc_register r v : reg_ok r -> uleb_ok v -> encodes position (0x09 :: uleb128 r ++ uleb128 v) (SetRule r (RegisterRule (s32 v)))
| enc_expression r e : reg_ok r -> block_ok e -> encodes position (0x10 :: uleb128 r ++ block e) (SetRule r (ExpressionRule e))
| enc_val_expression r e : reg_ok r -> block_ok e -> encodes position (0x16 :: uleb128 r ++ block e) (SetRule r (ValExpressionRule e))
| enc_restore_extended r : reg_ok r -> encodes position (0x06 :: uleb128 r) (RestoreRule r)
| enc_remember_state : encodes position [0x0a] RememberState
| enc_restore_state : encodes position [0x0b] RestoreSavedState
| enc_window_save : encodes position [0x2d] WindowSave
| enc_args_size v : uleb_ok v -> encodes position (0x2e :: uleb128 v) Nop.

(** ** Decoding *)

(** Room for [bytes] at the cursor, in the entry. *)
Definition room (s : CfiState H) (bytes : list Z) : Prop :=
  holds section (cursor_ s) bytes /\ cursor_ s + Z.of_nat (length bytes) <= entry_end entry.

Definition skip (bytes : list Z) (s : CfiState H) : CfiState H := set_cursor (cursor_ s + Z.of_nat (length bytes)) s.

Context (Hsection : Z.of_nat (length section) < 2 ^ 64) (Hend : entry_end entry <= Z.of_nat (length section)).

Lemma skip_app bs bs' s : skip bs' (skip bs s) = skip (bs ++ bs') s.
Proof. unfold skip, set_cursor. cbn. f_equal. rewrite length_app. lia. Qed.

Lemma skip_cons b bs s : skip (b :: bs) s = skip bs (skip [b] s).
Proof. by rewrite skip_app. Qed.

Lemma room_app bs bs' s : room s (bs ++ bs') -> room s bs /\ room (skip bs s) bs'.
Proof.
  intros [Hh Hl]. rewrite length_app in Hl. apply holds_app in Hh as [H1 H2]. unfold room, skip. cbn.
  split; (split; [done|lia]).
Qed.

Lemma bytes_left_room s bs : room s bs -> exists left, bytes_left entry s = Ok (Some left, s) /\ Z.of_nat (length bs) <= left.
Proof.
  intros [[Hp Hh] Hl]. eexists. split; [reflexivity|]. unfold u64. rewrite wrap_small; [lia|]. unfold fits. lia.
Qed.

Lemma read_counted_room read s bs v :
  read (cursor_ s) = Ok (v, Z.of_nat (length bs)) -> room s bs -> read_counted entry read s = Ok (Some v, skip bs s).
Proof.
  intros Hr Hroom. destruct (bytes_left_room s bs Hroom) as (left & El & Hle). unfold read_counted.
  rewrite (bind_runs _ _ El), (bind_runs _ _ (get_runs s)). rewrite (bind_runs _ _ (lift_runs _ s Hr)). cbn.
  rewrite (proj2 (Z.ltb_ge _ _)) by lia. reflexivity.
Qed.

Lemma read_fixed_room read s bs v :
  read (cursor_ s) = Ok v -> room s bs -> read_fixed entry (Z.of_nat (length bs)) read s = Ok (Some v, skip bs s).
Proof.
  intros Hr Hroom. destruct (bytes_left_room s bs Hroom) as (left & El & Hle). unfold read_fixed.
  rewrite (bind_runs _ _ El). rewrite (proj2 (Z.ltb_ge _ _)) by lia.
  rewrite (bind_runs _ _ (get_runs s)). by rewrite (bind_runs _ _ (lift_runs _ s Hr)).
Qed.

Lemma read_block_room s e : block_ok e -> room s (block e) -> read_block section entry s = Ok (Some e, skip (block e) s).
Proof.
  intros He Hroom. destruct (bytes_left_room s _ Hroom) as (left & El & Hle). unfold read_block.
  pose proof Hroom as [Hr1 Hr2]%room_app. unfold block in Hle. rewrite length_app in Hle.
  rewrite (bind_runs _ _ El), (bind_runs _ _ (get_runs s)).
  rewrite (bind_runs _ _ (lift_runs _ s (uleb128_read _ _ _ He (proj1 Hr1)))). cbn.
  rewrite (proj2 (Z.ltb_ge left _)), (proj2 (Z.ltb_ge (left - _) _)) by lia. cbn [orb].
  rewrite (bind_runs (λ _, _) _ (s' := skip (uleb128 (Z.of_nat (length e))) s) (a := tt)) by done.
  rewrite (bind_runs _ _ (get_runs _)). rewrite Nat2Z.id.
  assert (Eb: bytes_at section (cursor_ (skip (uleb128 (Z.of_nat (length e))) s)) (length e) = Ok e).
  { destruct Hr2 as [[Hc Hs] Hl]. unfold bytes_at. rewrite (proj2 (Z.leb_le _ _) Hc), (proj2 (Z.leb_le _ _)) by lia. cbn. by f_equal. }
  rewrite (bind_runs _ _ (lift_runs _ _ Eb)). unfold block. by rewrite <- skip_app.
Qed.

Definition ParseOperand' := ParseOperand section reader entry cie (H := H).

Lemma operand_r ops s v : reg_ok v -> room s (uleb128 v) ->
  ParseOperand' "r" ops s = Ok (Some (mkOperands (Some v) (op_offset ops) (signed_offset ops) (expression ops)), skip (uleb128 v) s).
Proof.
  intros Hv Hr. destruct ops as [r o so e]. unfold ParseOperand', ParseOperand. cbn [Ascii.eqb Bool.eqb].
  assert (Hv': fits 64 v) by (unfold reg_ok, fits in *; split; [lia|apply Z.lt_trans with (2 ^ 32); [lia|done]]).
  rewrite (bind_runs _ _ (read_counted_room _ _ _ _ (uleb128_read _ _ _ Hv' (proj1 Hr)) Hr)). cbn.
  unfold u32. by rewrite wrap_small.
Qed.

Lemma operand_o ops s v : uleb_ok v -> room s (uleb128 v) ->
  ParseOperand' "o" ops s = Ok (Some (mkOperands (register_number ops) (Some v) (signed_offset ops) (expression ops)), skip (uleb128 v) s).
Proof.
  intros Hv Hr. destruct ops as [r o so e]. unfold ParseOperand', ParseOperand. cbn [Ascii.eqb Bool.eqb].
  by rewrite (bind_runs _ _ (read_counted_room _ _ _ _ (uleb128_read _ _ _ Hv (proj1 Hr)) Hr)).
Qed.

Lemma operand_s ops s v : sleb_ok v -> room s (sleb128 v) ->
  ParseOperand' "s" ops s = Ok (Some (mkOperands (register_number ops) (op_offset ops) (Some v) (expression ops)), skip (sleb128 v) s).
Proof.
  intros [Hv Ho] Hr. destruct ops as [r o so e]. unfold ParseOperand', ParseOperand. cbn [Ascii.eqb Bool.eqb].
  pose proof (sleb128_read section (cursor_ s) v Hv (proj1 Hr)) as E. rewrite Ho in E.
  by rewrite (bind_runs _ _ (read_counted_room _ _ _ _ E Hr)).
Qed.

Lemma operand_e ops s v : block_ok v -> room s (block v) ->
  ParseOperand' "e" ops s = Ok (Some (mkOperands (register_number ops) (op_offset ops) (signed_offset ops) (Some v)), skip (block v) s).
Proof.
  intros Hv Hr. destruct ops as [r o so e]. unfold ParseOperand', ParseOperand. cbn [Ascii.eqb Bool.eqb].
  by rewrite (bind_runs _ _ (read_block_room s v Hv Hr)).
Qed.

Definition fixed_char (n : nat) : ascii := chr (48 + Z.of_nat n).

Lemma operand_fixed n ops s v :
  n ∈ [1; 2; 4; 8]%nat -> fits (8 * Z.of_nat n) v -> room s (bytes_of (endian_ reader) n v) ->
  ParseOperand' (fixed_char n) ops s =
    Ok (Some (mkOperands (register_number ops) (Some v) (signed_offset ops) (expression ops)), skip (bytes_of (endian_ reader) n v) s).
Proof.
  intros Hn Hv Hr. destruct ops as [r o so e].
  assert (E: read_number reader section (cursor_ s) n = Ok v).
  { rewrite (read_number_bytes _ _ _ n v); [by rewrite wrap_small| |apply Hr]. set_unfold in Hn. lia. }
  pose proof (read_fixed_room (λ c, read_number reader section c n) _ _ v E Hr) as Ef. rewrite length_bytes_of in Ef.
  set_unfold in Hn. destruct Hn as [->|[->|[->|[->|[]]]]]; unfold ParseOperand', ParseOperand, fixed_char, ReadOneByte, ReadTwoBytes, ReadFourBytes, ReadEightBytes;
    cbn [Z.of_nat Pos.of_succ_nat Pos.succ] in *; (match goal with |- context [Ascii.eqb ?c _] => let c' := eval vm_compute in c in change c with c' end);
    cbn [Ascii.eqb Bool.eqb]; by rewrite (bind_runs _ _ Ef).
Qed.

Lemma operand_a ops s bytes a :
  address_size_ reader = 4 \/ address_size_ reader = 8 -> location_operand (cursor_ s) bytes a -> room s bytes ->
  ParseOperand' "a" ops s = Ok (Some (mkOperands (register_number ops) (Some a) (signed_offset ops) (expression ops)), skip bytes s).
Proof.
  intros Hs (Hvalid & Hus & v & Hf & ->) Hr. destruct ops as [r o so e]. unfold ParseOperand', ParseOperand. cbn [Ascii.eqb Bool.eqb].
  pose proof (pointer_read _ _ _ _ _ _ Hs Hus Hf (proj1 Hr)) as E.
  by rewrite (bind_runs _ _ (read_counted_room _ _ _ _ E Hr)).
Qed.

(** The instruction at the cursor, its opcode read. *)
Definition do_opcode (b : Z) : M unit :=
  if Z.land b 0xc0 =? 0 then DoOpcode section reader entry cie b else DoPacked section reader entry cie b.

Lemma DoInstruction_opcode s b bs :
  fits 8 b -> room s (b :: bs) -> DoInstruction section reader entry cie s = do_opcode b (skip [b] s) /\ room (skip [b] s) bs.
Proof.
  intros Hb Hr. change (b :: bs) with ([b] ++ bs) in Hr. apply room_app in Hr as [Hr1 Hr2]. split; [|done].
  unfold DoInstruction. rewrite (bind_runs _ _ (get_runs s)).
  assert (Eb: bytes_of (endian_ reader) 1 b = [b]).
  { assert (E8: le_bytes 1 b = [b]) by (change (le_bytes 1 b) with [b mod 256]; by rewrite Z.mod_small by apply Hb). unfold bytes_of. rewrite E8. by destruct (endian_ reader). }
  assert (E: ReadOneByte reader section (cursor_ s) = Ok b).
  { unfold ReadOneByte. rewrite (read_number_bytes _ _ _ 1 b); [|lia|by rewrite Eb; apply Hr1]. by rewrite wrap_small. }
  by rewrite (bind_runs _ _ (lift_runs _ s E)).
Qed.

Definition parse' := parse section reader entry cie (H := H).

Lemma parse_cons c f ops ops' s s' :
  ParseOperand' c ops s = Ok (Some ops', s') ->
  ParseOperands section reader entry cie (c :: f) ops s = ParseOperands section reader entry cie f ops' s'.
Proof. intros E. cbn [ParseOperands]. by rewrite (bind_runs _ _ E). Qed.

Lemma parse_one c ops s bs : ParseOperand' c Operands_new s = Ok (Some ops, skip bs s) -> parse' (String c EmptyString) s = Ok (Some ops, skip bs s).
Proof. intros E. unfold parse', parse. cbn [lit String.list_ascii_of_string]. by rewrite (parse_cons _ _ _ _ _ _ E). Qed.

Lemma parse_r_room s r : reg_ok r -> room s (uleb128 r) -> parse' "r" s = Ok (Some (mkOperands (Some r) None None None), skip (uleb128 r) s).
Proof. intros Hr Hs. apply parse_one. by apply (operand_r Operands_new). Qed.

Lemma parse_o_room s v : uleb_ok v -> room s (uleb128 v) -> parse' "o" s = Ok (Some (mkOperands None (Some v) None None), skip (uleb128 v) s).
Proof. intros Hr Hs. apply parse_one. by apply (operand_o Operands_new). Qed.

Lemma parse_s_room s v : sleb_ok v -> room s (sleb128 v) -> parse' "s" s = Ok (Some (mkOperands None None (Some v) None), skip (sleb128 v) s).
Proof. intros Hr Hs. apply parse_one. by apply (operand_s Operands_new). Qed.

Lemma parse_e_room s e : block_ok e -> room s (block e) -> parse' "e" s = Ok (Some (mkOperands None None None (Some e)), skip (block e) s).
Proof. intros Hr Hs. apply parse_one. by apply (operand_e Operands_new). Qed.

Lemma parse_second c s r bs ops :
  reg_ok r -> room s (uleb128 r ++ bs) ->
  (room (skip (uleb128 r) s) bs -> ParseOperand' c (mkOperands (Some r) None None None) (skip (uleb128 r) s) =
    Ok (Some ops, skip bs (skip (uleb128 r) s))) ->
  parse' (String "r" (String c EmptyString)) s = Ok (Some ops, skip (uleb128 r ++ bs) s).
Proof.
  intros Hr Hs Hc. apply room_app in Hs as [Hs1 Hs2]. unfold parse', parse. cbn [lit String.list_ascii_of_string].
  rewrite (parse_cons _ _ _ _ _ _ (operand_r Operands_new s r Hr Hs1)), (parse_cons _ _ _ _ _ _ (Hc Hs2)). by rewrite skip_app.
Qed.

Lemma parse_ro_room s r v use : reg_ok r -> uleb_ok v -> room s (uleb128 r ++ uleb128 v) ->
  parse_ro section reader entry cie use s = use r v (skip (uleb128 r ++ uleb128 v) s).
Proof.
  intros Hr Hv Hs. unfold parse_ro. change (parse _ _ _ _ ?f) with (parse' f).
  rewrite (bind_runs _ _ (parse_second "o" s r _ _ Hr Hs (operand_o _ _ _ Hv))). reflexivity.
Qed.

Lemma mul_long_factored v : - 2 ^ 63 <= v * data_alignment_factor cie < 2 ^ 63 ->
  mul_long v (data_alignment_factor cie) = Ok (v * data_alignment_factor cie).
Proof. intros Hm. unfold mul_long. by rewrite (proj2 (Z.leb_le _ _)), (proj2 (Z.ltb_lt _ _)) by lia. Qed.

Lemma parse_rs_room s r v use : reg_ok r -> sleb_factored v -> room s (uleb128 r ++ sleb128 v) ->
  parse_rs section reader entry cie use s = use r (v * data_alignment_factor cie) (skip (uleb128 r ++ sleb128 v) s).
Proof.
  intros Hr [Hv Hm] Hs. unfold parse_rs. change (parse _ _ _ _ ?f) with (parse' f).
  rewrite (bind_runs _ _ (parse_second "s" s r _ _ Hr Hs (operand_s _ _ _ Hv))).
  transitivity ((lift (mul_long v (data_alignment_factor cie)) ≫= use r) (skip (uleb128 r ++ sleb128 v) s)); [done|].
  by rewrite (bind_runs _ _ (lift_runs _ _ (mul_long_factored v Hm))).
Qed.

Lemma parse_re_room s r e use : reg_ok r -> block_ok e -> room s (uleb128 r ++ block e) ->
  parse_re section reader entry cie use s = use r e (skip (uleb128 r ++ block e) s).
Proof.
  intros Hr Hv Hs. unfold parse_re. change (parse _ _ _ _ ?f) with (parse' f).
  rewrite (bind_runs _ _ (parse_second "e" s r _ _ Hr Hs (operand_e _ _ _ Hv))). reflexivity.
Qed.

Lemma parse_r_use_room s r use : reg_ok r -> room s (uleb128 r) ->
  parse_r section reader entry cie use s = use r (skip (uleb128 r) s).
Proof.
  intros Hr Hs. unfold parse_r. change (parse _ _ _ _ ?f) with (parse' f). by rewrite (bind_runs _ _ (parse_r_room s r Hr Hs)).
Qed.

Lemma advance_loc_room s n v :
  n ∈ [1; 2; 4; 8]%nat -> fits (8 * Z.of_nat n) v -> room s (bytes_of (endian_ reader) n v) ->
  advance_loc section reader entry cie (String (fixed_char n) EmptyString) s = perform (AdvanceLoc v) (skip (bytes_of (endian_ reader) n v) s).
Proof.
  intros Hn Hv Hs. unfold advance_loc. change (parse _ _ _ _ ?f) with (parse' f).
  by rewrite (bind_runs _ _ (parse_one _ _ _ _ (operand_fixed n Operands_new s v Hn Hv Hs))).
Qed.

Lemma packed_bits k n : 0 <= n < 64 -> k ∈ [0x40; 0x80; 0xc0] -> fits 8 (k + n) /\ Z.land (k + n) 0xc0 = k /\ Z.land (k + n) 0x3f = n.
Proof.
  intros Hn Hk. assert (Hall: forallb (λ i : nat, let n := Z.of_nat i in forallb (λ k, (Z.land (k + n) 0xc0 =? k) && (Z.land (k + n) 0x3f =? n))
    [0x40; 0x80; 0xc0]) (seq 0 64) = true) by (vm_compute; reflexivity).
  rewrite forallb_forall in Hall. specialize (Hall (Z.to_nat n)). rewrite in_seq in Hall. specialize (Hall ltac:(lia)).
  cbv zeta in Hall. rewrite forallb_forall in Hall. specialize (Hall k). rewrite <- list_elem_of_In in Hall.
  rewrite Z2Nat.id in Hall by lia. specialize (Hall Hk). breflect. unfold fits. change (2 ^ 8) with 256. set_unfold in Hk. split_and!; lia.
Qed.

(** An encoded instruction does its action. *)
Lemma DoInstruction_encodes s bytes act :
  address_size_ reader = 4 \/ address_size_ reader = 8 ->
  encodes (cursor_ s + 1) bytes act -> room s bytes ->
  DoInstruction section reader entry cie s = perform act (skip bytes s).
Proof.
  intros Hsize He Hr.
  destruct He as [n Hn|r v Hn Hv|r Hn| |bs a Ha| | | | |r v Hreg Hv|r v Hreg Hv|r Hreg|v Hv|v Hv|e Hb|r Hreg|r Hreg|r v Hreg Hv|r v Hreg Hv
    |r v Hreg Hv|r v Hreg Hv|r v Hreg Hv|r v Hreg Hv|r e Hreg Hb|r e Hreg Hb|r Hreg| | | |v Hv];
    (match type of Hr with room s (?b :: ?bs) => apply (DoInstruction_opcode s b bs) in Hr as [-> Hr] end;
     [|first [by split|eapply proj1, packed_bits; [done|set_solver]]]);
    unfold do_opcode; try (match goal with |- context [skip (?b :: ?bs) s] => lazymatch bs with [] => fail | _ => rewrite (skip_cons b bs) end end).
  1: destruct (packed_bits 0x40 n Hn ltac:(set_solver)) as (_ & E1 & E2).
  2: destruct (packed_bits 0x80 r Hn ltac:(set_solver)) as (_ & E1 & E2).
  3: destruct (packed_bits 0xc0 r Hn ltac:(set_solver)) as (_ & E1 & E2).
  1,2,3: unfold DoPacked; rewrite E1, E2.
  1,3,4: reflexivity.
  - change (if 128 =? 0 then _ else ?x) with x. cbv zeta.
    change ((parse' "o" ≫= λ ops, given (op_offset ops) ≫= λ offset, DoOffset entry r (factored cie offset)) (skip [128 + r] s) =
            perform (from_cfa r (factored cie v)) (skip (uleb128 v) (skip [128 + r] s))).
    by rewrite (bind_runs _ _ (parse_o_room _ v Hv Hr)).
  - pose proof (parse_one "a" _ _ _ (operand_a Operands_new (skip [1] s) bs a Hsize Ha Hr)) as E.
    change ((parse' "a" ≫= λ ops, given (op_offset ops) ≫= λ offset, modify (set_address offset)) (skip [1] s) = perform (SetLoc a) (skip bs (skip [1] s))).
    by rewrite (bind_runs _ _ E).
  - apply (advance_loc_room _ 1); [set_solver|done|done].
  - apply (advance_loc_room _ 2); [set_solver|done|done].
  - apply (advance_loc_room _ 4); [set_solver|done|done].
  - apply (advance_loc_room _ 8); [set_solver|done|done].
  - exact (parse_ro_room _ r v (λ reg offset, DoDefCFA reg (s64 offset)) Hreg Hv Hr).
  - exact (parse_rs_room _ r v DoDefCFA Hreg Hv Hr).
  - change ((parse' "r" ≫= λ ops, given (register_number ops) ≫= λ reg, DoDefCFARegister entry reg ops) (skip [13] s) =
            perform (DefCFARegister r) (skip (uleb128 r) (skip [13] s))).
    by rewrite (bind_runs _ _ (parse_r_room _ r Hreg Hr)).
  - change ((parse' "o" ≫= λ ops, given (op_offset ops) ≫= λ offset, DoDefCFAOffset entry (s64 offset)) (skip [14] s) =
            perform (DefCFAOffset (s64 v)) (skip (uleb128 v) (skip [14] s))).
    by rewrite (bind_runs _ _ (parse_o_room _ v Hv Hr)).
  - destruct Hv as [Hv Hm].
    change ((parse' "s" ≫= λ ops, given (signed_offset ops) ≫= λ so, lift (mul_long so (data_alignment_factor cie)) ≫= λ offset,
      DoDefCFAOffset entry offset) (skip [19] s) = perform (DefCFAOffset (v * data_alignment_factor cie)) (skip (sleb128 v) (skip [19] s))).
    rewrite (bind_runs _ _ (parse_s_room _ v Hv Hr)).
    transitivity ((lift (mul_long v (data_alignment_factor cie)) ≫= λ offset, DoDefCFAOffset entry offset) (skip (sleb128 v) (skip [19] s))); [done|].
    by rewrite (bind_runs _ _ (lift_runs _ _ (mul_long_factored v Hm))).
  - change ((parse' "e" ≫= λ ops, given (expression ops) ≫= λ e, set_cfa_rule (ValExpressionRule e);; handle (ValExpressionRule e) kCFARegister) (skip [15] s) =
            perform (DefCFAExpression e) (skip (block e) (skip [15] s))).
    by rewrite (bind_runs _ _ (parse_e_room _ e Hb Hr)).
  - exact (parse_r_use_room _ r (λ reg, DoRule reg UndefinedRule) Hreg Hr).
  - exact (parse_r_use_room _ r (λ reg, DoRule reg SameValueRule) Hreg Hr).
  - exact (parse_ro_room _ r v (λ reg offset, DoOffset entry reg (factored cie offset)) Hreg Hv Hr).
  - exact (parse_rs_room _ r v (DoOffset entry) Hreg Hv Hr).
  - exact (parse_ro_room _ r v (λ reg offset, DoOffset entry reg (factored cie (- offset))) Hreg Hv Hr).
  - exact (parse_ro_room _ r v (λ reg offset, DoValOffset entry reg (factored cie offset)) Hreg Hv Hr).
  - exact (parse_rs_room _ r v (DoValOffset entry) Hreg Hv Hr).
  - exact (parse_ro_room _ r v (λ reg offset, DoRule reg (RegisterRule (s32 offset))) Hreg Hv Hr).
  - exact (parse_re_room _ r e (λ reg e, DoRule reg (ExpressionRule e)) Hreg Hb Hr).
  - exact (parse_re_room _ r e (λ reg e, DoRule reg (ValExpressionRule e)) Hreg Hb Hr).
  - exact (parse_r_use_room _ r (DoRestore entry) Hreg Hr).
  - reflexivity.
  - reflexivity.
  - reflexivity.
  - change ((parse' "o" ≫= λ _, mret tt) (skip [46] s) = perform Nop (skip (uleb128 v) (skip [46] s))).
    by rewrite (bind_runs _ _ (parse_o_room _ v Hv Hr)).
Qed.
End actions.

(** C21: reading a call frame instruction.  At the encoding of an instruction of DWARF, of
    .eh_frame or of the extensions, inside its entry, [DoInstruction] moves the cursor past
    it and does its action, whatever the rules, the handler and the byte order. *)
Theorem cfi_instruction {H : Type} `{CfiHandler H} (section : list Z) (reader : ByteReader) (entry : CfiEntry) (cie : CIE)
    (s : CfiState H) (bytes : list Z) (act : CfaAction) :
  Z.of_nat (length section) < 2 ^ 64 -> entry_end entry <= Z.of_nat (length section) ->
  address_size_ reader = 4 \/ address_size_ reader = 8 ->
  encodes reader cie (cursor_ s + 1) bytes act ->
  holds section (cursor_ s) bytes -> cursor_ s + Z.of_nat (length bytes) <= entry_end entry ->
  DoInstruction section reader entry cie s = perform reader entry cie act (set_cursor (cursor_ s + Z.of_nat (length bytes)) s).
Proof. intros Hs He Ha Hi Hh Hl. by apply DoInstruction_encodes. Qed.

(** A handler that goes on. *)
#[export] Instance idle_handler : CfiHandler unit := {
  Entry := λ _ _ _ _ _ _ h, Ok (true, h);
  HandleUndefined := λ _ _ h, Ok (true, h);
  HandleSameValue := λ _ _ h, Ok (true, h);
  HandleOffset := λ _ _ _ _ h, Ok (true, h);
  HandleValOffset := λ _ _ _ _ h, Ok (true, h);
  HandleRegister := λ _ _ _ h, Ok (true, h);
  HandleExpression := λ _ _ _ h, Ok (true, h);
  HandleValExpression := λ _ _ _ h, Ok (true, h);
  PersonalityRoutine := λ _ _ h, Ok (true, h);
  LanguageSpecificDataArea := λ _ _ h, Ok (true, h);
  SignalHandler := λ h, Ok (true, h);
  End_ := λ h, Ok (true, h)
}.

Definition demo_offset_cie : CIE := mkCIE (mkEntry 0 kCIE 0 0 None 0) 1 [] 1 (-8) 16 false false false false 0 0 0 0.
Definition demo_offset_state : CfiState unit := mkCfiState tt [] 0x1000 1 (mkRuleMap (Some (ValOffsetRule 7 8)) []) RuleMap_new [].

(** "offset_extended r130, 2" in an entry whose data alignment factor is -8. *)
Lemma cfi_instruction_witness :
  DoInstruction [0; 0x05; 0x82; 0x01; 0x02] demo_reader (mkEntry 0 kFDE 0 1 (Some 5) 0) demo_offset_cie demo_offset_state =
  with_cfa (mkEntry 0 kFDE 0 1 (Some 5) 0) (DoRule 130 (OffsetRule kCFARegister (-16))) (set_cursor 5 demo_offset_state).
Proof.
  refine (cfi_instruction [0; 0x05; 0x82; 0x01; 0x02] demo_reader (mkEntry 0 kFDE 0 1 (Some 5) 0) demo_offset_cie demo_offset_state
    [0x05; 0x82; 0x01; 0x02] (SetRuleFromCFA 130 (OffsetRule kCFARegister (-16))) _ _ _ _ _ _); [done|done|by right| |by split|done].
  refine (enc_offset_extended demo_reader demo_offset_cie 2 130 2 _ _); by split.
Defined.
