(* ===== verification/CfiInvariant.v ===== *)
(** What holds of the interpreter of call frame instructions whatever the bytes: it ends, an
    instruction that succeeds performs an action, and the assertions of
    DW_CFA_restore_state hold. *)
From Stdlib Require Import Ascii.
From stdpp Require Import strings list relations.
From S2P Require Import Prelude StdMap Memory CStr ByteReader CallFrameInfo CfiActions.

(** ** Computations that keep a relation of states *)

Lemma bind_inv {S A B} (m : St S A) (f : A -> St S B) s o s' :
  (m ≫= f) s = Ok (o, s') ->
  (o = None /\ m s = Ok (None, s')) \/ exists a s1, m s = Ok (Some a, s1) /\ f a s1 = Ok (o, s').
Proof.
  unfold mbind, St_bind, mbind, outcome_bind. destruct (m s) as [[[a|] s1]| |]; [|intros [= <- <-]|done|done].
  - intros E. right. by exists a, s1.
  - by left.
Qed.

Definition keeps {S A} (R : S -> S -> Prop) (m : St S A) : Prop := forall s o s', m s = Ok (o, s') -> R s s'.

Create HintDb keeps.

Section keeps.
Context {S : Type} (R : S -> S -> Prop) `{!PreOrder R}.

Lemma keeps_done {A} (a : A) : keeps R (mret a).
Proof. intros s o s' [= <- <-]. reflexivity. Qed.

Lemma keeps_then {A B} (m : St S A) (f : A -> St S B) : keeps R m -> (forall a, keeps R (f a)) -> keeps R (m ≫= f).
Proof.
  intros Hm Hf s o s' [[-> E]|(a & s1 & E1 & E2)]%bind_inv; [by eapply Hm|]. etrans; [by eapply Hm|by eapply Hf].
Qed.

(** A computation that starts by looking at the state. *)
Lemma keeps_get {A} (f : S -> St S A) : (forall s0, keeps R (f s0)) -> keeps R (get ≫= f).
Proof. intros Hf s o s' E. exact (Hf s s o s' E). Qed.

Lemma keeps_lifted {A} (o : outcome A) : keeps R (lift o).
Proof. intros s x s'. unfold lift, mbind, outcome_bind. destruct o; intros [= <- <-]. reflexivity. Qed.

Lemma keeps_lift_bind {A B} (o : outcome A) (f : A -> St S B) : (forall a, o = Ok a -> keeps R (f a)) -> keeps R (lift o ≫= f).
Proof.
  intros Hf s x s' [[-> E]|(a & s1 & E1 & E2)]%bind_inv.
  - unfold lift, mbind, outcome_bind in E. by destruct o.
  - unfold lift, mbind, outcome_bind in E1. destruct o as [b| |] eqn:Eo; [|done|done]. injection E1 as -> ->. by eapply Hf.
Qed.

Lemma keeps_modify (f : S -> S) : (forall s, R s (f s)) -> keeps R (modify f).
Proof. intros Hf s o s' [= <- <-]. apply Hf. Qed.

Lemma keeps_failing {A} : keeps R (failing (A := A)).
Proof. unfold failing. intros s o s' [= <- <-]. reflexivity. Qed.

Lemma keeps_undefined {A} : keeps R (undefined (A := A)).
Proof. by intros s o s'. Qed.

Lemma keeps_given {A} (o : option A) : keeps R (given o).
Proof. destruct o; [apply keeps_done|apply keeps_undefined]. Qed.

Lemma keeps_ignoring {A} (m : St S A) : keeps R m -> keeps R (ignoring m).
Proof.
  intros Hm s o s'. unfold ignoring, mbind, outcome_bind. destruct (m s) as [[x s1]| |] eqn:E; intros [= <- <-]. by eapply Hm.
Qed.

Lemma keeps_otherwise {A} (m r : St S A) : keeps R m -> keeps R r -> keeps R (otherwise m r).
Proof.
  intros Hm Hr s o s'. unfold otherwise, mbind, outcome_bind. destruct (m s) as [[[x|] s1]| |] eqn:E; [intros [= <- <-]; by eapply Hm| |done|done].
  intros E2. etrans; [by eapply Hm|by eapply Hr].
Qed.
End keeps.

(** Decompose a computation; what is left are the changes of the state. *)
Ltac keeps_step :=
  match goal with
  | |- keeps _ (mbind _ get) => apply keeps_get; intros ?
  | |- keeps _ (mbind _ (lift _)) => apply keeps_lift_bind; intros ? ?
  | |- keeps _ (mbind _ _) => apply keeps_then; [exact _| |intros ?]
  | |- keeps _ (mret _) => apply keeps_done; try exact _
  | |- keeps _ (lift _) => apply keeps_lifted; try exact _
  | |- keeps _ failing => apply keeps_failing; try exact _
  | |- keeps _ undefined => apply keeps_undefined; try exact _
  | |- keeps _ (given _) => apply keeps_given; try exact _
  | |- keeps _ (modify _) => apply keeps_modify; try exact _; intros ?
  | |- keeps _ (ignoring _) => apply keeps_ignoring; try exact _
  | |- keeps _ (otherwise _ _) => apply keeps_otherwise; try exact _
  | |- keeps _ (match ?x with _ => _ end) => destruct x
  | |- _ => solve [auto with keeps nocore]
  end.
Ltac keeps := repeat keeps_step.

Section invariant.
Context {H : Type} `{CfiHandler H}.
Context (section : list Z) (reader : ByteReader) (entry : CfiEntry) (cie : CIE).
Implicit Types (s : CfiState H).
Abbreviation M := (St (CfiState H)).

Section interpreter.
Context (R : CfiState H -> CfiState H -> Prop) `{!PreOrder R}.

(** What may change without notice: the handler and what was reported. *)
Hypothesis Rhandler : forall h s, R s (set_handler h s).
Hypothesis Rreport : forall r s, R s (add_report r s).

Lemma keeps_report {A} r : keeps R (report (A := A) r).
Proof. unfold report. keeps. Qed.

Lemma keeps_handled f : keeps R (handled f).
Proof.
  intros s o s'. unfold handled, mbind, outcome_bind. destruct (f (handler_ s)) as [[ok h]| |]; intros [= <- <-]. apply Rhandler.
Qed.

Lemma keeps_no_cfa_rule {A} : keeps R (no_cfa_rule entry (A := A)).
Proof. unfold no_cfa_rule, with_cursor. apply keeps_get. intros s. apply keeps_report. Qed.

Hint Resolve keeps_report keeps_handled keeps_no_cfa_rule : keeps.

Lemma keeps_register_transitions a old : forall new, keeps R (register_transitions a old new).
Proof.
  induction old as [|[r rule] old IH]; intros [|[r' rule'] new]; cbn [register_transitions]; keeps.
Qed.

Lemma keeps_transition old a new : keeps R (HandleTransitionTo old a new).
Proof.
  unfold HandleTransitionTo, cfa_transition. apply keeps_then; [done|keeps|]. intros []. apply keeps_register_transitions.
Qed.

Lemma keeps_handle rule reg : keeps R (handle rule reg).
Proof. unfold handle. keeps. Qed.

(** The actions, when their changes keep the relation. *)
Lemma keeps_DoRule reg rule :
  (forall m s, SetRegisterRule (rules_ s) (s32 reg) rule = Ok m -> R s (set_rules m s)) -> keeps R (DoRule reg rule).
Proof.
  intros HR s o s' E. unfold DoRule in E. apply bind_inv in E as [[_ E]|(s1 & s2 & E1 & E)]; [done|]. injection E1 as <- <-.
  apply bind_inv in E as [[_ E]|(m & s2 & E1 & E)]; [by eapply keeps_lifted; [exact _|]|].
  unfold lift, mbind, outcome_bind in E1. destruct (SetRegisterRule _ _ _) as [m'| |] eqn:Em; [|done|done]. injection E1 as -> <-.
  apply bind_inv in E as [[_ E]|([] & s2 & E1 & E)]; [done|]. injection E1 as <-.
  etrans; [by apply HR|]. by eapply keeps_handle.
Qed.
End interpreter.

(** ** Reading operands *)

(** Only the cursor moves, forward, and something may be reported. *)
Definition parsed (s s' : CfiState H) : Prop :=
  cursor_ s <= cursor_ s' /\
  s' = mkCfiState (handler_ s) (reported s') (address_ s) (cursor_ s') (rules_ s) (cie_rules_ s) (saved_rules_ s).

#[local] Instance parsed_preorder : PreOrder parsed.
Proof.
  split.
  - intros [] . by split.
  - intros s1 s2 s3 [H1 E1] [H2 E2]. split; [lia|]. rewrite E2, E1. reflexivity.
Qed.

Lemma parsed_cursor c s : cursor_ s <= c -> parsed s (set_cursor c s).
Proof. by split. Qed.

Lemma parsed_report {A} r : keeps parsed (report (H := H) (A := A) r).
Proof. unfold report. keeps. by split. Qed.

Lemma parsed_move len : 0 <= len -> keeps parsed (move (H := H) len).
Proof. intros Hl. unfold move. apply keeps_modify; try exact _. intros s. apply parsed_cursor. lia. Qed.

Hint Resolve parsed_report parsed_move : keeps.

Lemma leb128_loop_count buffer : forall result shift n b r sh m,
  leb128_loop buffer result shift n = Ok (b, r, sh, m) -> n < m.
Proof.
  induction buffer as [|byte buffer IH]; intros result shift n b r sh m; cbn [leb128_loop]; [done|].
  dif; [done|]. cbv zeta. dif; [intros [= <- <- <- <-]; lia|]. intros Hl%IH. lia.
Qed.

Lemma leb128_loop_nonneg buffer : forall result shift n b r sh m,
  0 <= result -> leb128_loop buffer result shift n = Ok (b, r, sh, m) -> 0 <= r.
Proof.
  induction buffer as [|byte buffer IH]; intros result shift n b r sh m Hr; cbn [leb128_loop]; [done|].
  assert (0 <= Z.lor result (wrap 64 (Z.shiftl (Z.land byte 127) shift))).
  { apply Z.lor_nonneg. split; [done|]. by apply wrap_range. }
  dif; [done|]. cbv zeta. dif; [by intros [= _ <- _ _]|]. by apply IH.
Qed.

Lemma uleb128_nonneg c v len : ReadUnsignedLEB128 section c = Ok (v, len) -> 0 <= v.
Proof.
  unfold ReadUnsignedLEB128. destruct (leb128_loop _ 0 0 0) as [[[[b r] sh] m]| |] eqn:E; [|done|done].
  cbn. intros [= <- <-]. by eapply leb128_loop_nonneg.
Qed.

Lemma uleb128_count c v len : ReadUnsignedLEB128 section c = Ok (v, len) -> 0 < len.
Proof.
  unfold ReadUnsignedLEB128. destruct (leb128_loop _ 0 0 0) as [[[[b r] sh] m]| |] eqn:E; [|done|done].
  cbn. intros [= <- <-]. by eapply leb128_loop_count.
Qed.

Lemma sleb128_count c v len : ReadSignedLEB128 section c = Ok (v, len) -> 0 < len.
Proof.
  unfold ReadSignedLEB128. destruct (leb128_loop _ 0 0 0) as [[[[b r] sh] m]| |] eqn:E; [|done|done].
  apply leb128_loop_count in E. rewrite bind_Ok. repeat dif; intros Hx; inversion Hx; subst; lia.
Qed.

Lemma sized_reader_size size r c v : sized_reader size r section c = Ok v -> size = 4 \/ size = 8.
Proof. unfold sized_reader. repeat dif; [by left|by right|done]. Qed.

Lemma encoded_pointer_count r c enc v len : ReadEncodedPointer r section c enc = Ok (v, len) -> 0 <= len.
Proof.
  unfold ReadEncodedPointer, read_aligned_pointer. dif; [done|]. dif.
  - destruct (section_base_ r) as [[base start]|]; [|done]. cbv zeta. destruct (ReadAddress _ _ _); [|done|done].
    rewrite bind_Ok. intros [= _ <-]. by apply wrap_range.
  - destruct (read_pointer_value r section c enc) as [[off l]| |] eqn:El; [|done|done]. rewrite bind_Ok.
    destruct (pointer_base r c enc); [|done|done]. rewrite bind_Ok. cbv zeta.
    assert (Hl: 0 <= l); [|repeat dif; intros Hx; inversion Hx; subst; done].
    unfold read_pointer_value, ReadAddress, ReadTwoBytes, ReadFourBytes, ReadEightBytes in El. cbv zeta in El.
    repeat dif_in El; try done.
    all: try (match type of El with (?o ≫= _) = _ => destruct o as [x| |] eqn:Eo; [|done|done]; cbn in El end).
    all: try (injection El as <- <-; lia).
    + apply sized_reader_size in Eo. injection El as <- <-. lia.
    + apply uleb128_count in El. lia.
    + destruct x as [y ly]. apply sleb128_count in Eo. injection El as <- <-. lia.
Qed.

Lemma parsed_read_counted read :
  (forall c v len, read c = Ok (v, len) -> 0 <= len) -> keeps parsed (read_counted entry read (H := H)).
Proof.
  intros Hlen. unfold read_counted, bytes_left, ReportIncomplete. keeps. apply parsed_move. by eapply Hlen.
Qed.

Lemma parsed_read_fixed len read : 0 <= len -> keeps parsed (read_fixed entry len read (H := H)).
Proof. intros Hlen. unfold read_fixed, bytes_left, ReportIncomplete. keeps. Qed.

Lemma parsed_read_block : keeps parsed (read_block section entry (H := H)).
Proof.
  unfold read_block, bytes_left, ReportIncomplete. keeps; apply parsed_move.
  - match goal with E : ReadUnsignedLEB128 _ _ = _ |- _ => apply uleb128_count in E end. lia.
  - match goal with E : ReadUnsignedLEB128 _ _ = _ |- _ => by apply uleb128_nonneg in E end.
Qed.

Hint Resolve uleb128_count sleb128_count encoded_pointer_count : keeps.

Lemma parsed_ParseOperand c ops : keeps parsed (ParseOperand section reader entry cie c ops (H := H)).
Proof.
  destruct ops as [r o so e]. unfold ParseOperand. cbv zeta. repeat keeps_step.
  all: try (apply parsed_read_fixed; lia). all: try apply parsed_read_block.
  all: apply parsed_read_counted; intros ? ? ? E.
  - apply uleb128_count in E. lia.
  - apply uleb128_count in E. lia.
  - apply sleb128_count in E. lia.
  - by apply encoded_pointer_count in E.
Qed.

Lemma parsed_parse f : keeps parsed (parse section reader entry cie f (H := H)).
Proof.
  unfold parse. generalize (lit f) Operands_new. intros fs. induction fs as [|c fs IH]; intros ops; cbn [ParseOperands]; keeps.
  apply parsed_ParseOperand.
Qed.

(** ** Actions and the instructions *)

(** Only what a handler or reporter sees changes, and the cursor does not. *)
Definition same_cursor (s s' : CfiState H) : Prop := cursor_ s' = cursor_ s.

#[local] Instance same_cursor_preorder : PreOrder same_cursor.
Proof. split; [intros s|intros s1 s2 s3]; unfold same_cursor; congruence. Qed.

Lemma same_cursor_DoRule reg rule : keeps same_cursor (DoRule reg rule (H := H)).
Proof. apply keeps_DoRule; first [exact _|done]. Qed.

Lemma same_cursor_handle rule reg : keeps same_cursor (handle rule reg (H := H)).
Proof. apply keeps_handle; first [exact _|done]. Qed.

Lemma same_cursor_no_cfa {A} : keeps same_cursor (no_cfa_rule entry (H := H) (A := A)).
Proof. apply keeps_no_cfa_rule; first [exact _|done]. Qed.

Lemma same_cursor_report {A} r : keeps same_cursor (report (H := H) (A := A) r).
Proof. apply keeps_report; first [exact _|done]. Qed.

Lemma same_cursor_transition old a new : keeps same_cursor (HandleTransitionTo old a new (H := H)).
Proof. apply keeps_transition; first [exact _|done]. Qed.

Lemma same_cursor_DoDefCFA r o : keeps same_cursor (DoDefCFA r o (H := H)).
Proof. unfold DoDefCFA, set_cfa_rule. keeps; [done|apply same_cursor_handle]. Qed.

Hint Resolve same_cursor_DoDefCFA same_cursor_DoRule same_cursor_handle same_cursor_no_cfa same_cursor_report same_cursor_transition : keeps.

Lemma perform_cursor act : keeps same_cursor (perform reader entry cie act (H := H)).
Proof.
  destruct act; cbn [perform]; unfold DoDefCFA, DoDefCFARegister, DoDefCFAOffset, DoRestore, RestoreState, set_cfa_rule, with_cfa, with_cursor; keeps; try done; try apply same_cursor_DoDefCFA.
  unfold window_save. generalize (((λ i : nat, (Z.of_nat i, RegisterRule (Z.of_nat i + 16))) <$> seq 8 8) ++
    ((λ i : nat, (Z.of_nat i, OffsetRule kCFARegister ((Z.of_nat i - 16) * address_size_ reader))) <$> seq 16 16)).
  intros l. induction l as [|[r0 rule0] l IH]; cbn [do_rules]; keeps.
Qed.


(** The opcodes: an instruction whose opcode is read performs an action after its operands
    are parsed, or fails. *)
Definition parses_then (m : M unit) : Prop :=
  forall s o s', m s = Ok (o, s') ->
    o = None /\ parsed s s' \/ exists act s1, parsed s s1 /\ perform reader entry cie act s1 = Ok (o, s').

Lemma then_action act (m : M unit) : (forall s, m s = perform reader entry cie act s) -> parses_then m.
Proof. intros Hm s o s' E. rewrite Hm in E. right. exists act, s. by split. Qed.

Lemma then_report r : parses_then (report r).
Proof. intros s o s' E. left. split; [|by eapply parsed_report]. unfold report in E. by injection E as <- _. Qed.

Lemma then_parse f (use : Operands -> M unit) : (forall ops, parses_then (use ops)) -> parses_then (parse section reader entry cie f ≫= use).
Proof.
  intros Hu s o s' [[-> E]|(ops & s1 & E1 & E2)]%bind_inv.
  - left. split; [done|]. by eapply parsed_parse.
  - apply parsed_parse in E1. destruct (Hu ops s1 o s' E2) as [[-> ?]|(act & s2 & ? & ?)].
    + left. split; [done|]. by etrans.
    + right. exists act, s2. split; [by etrans|done].
Qed.

Lemma then_given {A} (x : option A) (use : A -> M unit) : (forall a, parses_then (use a)) -> parses_then (given x ≫= use).
Proof. intros Hu. destruct x as [a|]; [|by intros s o s' E]. intros s o s' E. by apply (Hu a s o s'). Qed.

Lemma then_lift {A} (x : outcome A) (use : A -> M unit) : (forall a, parses_then (use a)) -> parses_then (lift x ≫= use).
Proof. intros Hu s o s' E. destruct x as [a| |]; [|done|done]. by apply (Hu a s o s'). Qed.

Ltac then_step :=
  match goal with
  | |- parses_then (if _ then _ else _) => dif
  | |- parses_then (mbind _ (parse _ _ _ _ _)) => apply then_parse; intros ?
  | |- parses_then (mbind _ (given _)) => apply then_given; intros ?
  | |- parses_then (mbind _ (lift _)) => apply then_lift; intros ?
  end.

Lemma parse_r_no_offset s ops s' : parse section reader entry cie "r" s = Ok (Some ops, s') -> op_offset ops = None.
Proof.
  unfold parse. intros E. apply bind_inv in E as [[? _]|(ops1 & s1 & E1 & E2)]; [done|]. injection E2 as <- <-.
  unfold ParseOperand in E1. cbn [Operands_new Ascii.eqb Bool.eqb] in E1. apply bind_inv in E1 as [[? _]|(v & s2 & E1 & E2)]; [done|].
  by injection E2 as <- <-.
Qed.

Lemma then_def_cfa_register :
  parses_then (ops ← parse section reader entry cie "r"; reg ← given (register_number ops); DoDefCFARegister entry reg ops).
Proof.
  intros s o s' [[-> E]|(ops & s1 & E1 & E2)]%bind_inv.
  - left. split; [done|]. by eapply parsed_parse.
  - pose proof (parse_r_no_offset _ _ _ E1) as Eo. apply parsed_parse in E1.
    destruct (register_number ops) as [r|]; [|done]. right. exists (DefCFARegister r), s1. split; [done|].
    rewrite <- E2. cbn [perform]. change ((given (Some r) ≫= λ reg, DoDefCFARegister entry reg ops) s1) with (DoDefCFARegister entry r ops s1).
    unfold DoDefCFARegister. by rewrite Eo.
Qed.

Lemma then_nop : parses_then (mret tt).
Proof. by apply (then_action Nop). Qed.

Ltac then_done :=
  first
    [ exact then_nop
    | exact then_def_cfa_register
    | eapply (then_action (SetLoc _)); reflexivity
    | eapply (then_action (AdvanceLoc _)); reflexivity
    | eapply (then_action (DefCFA _ _)); reflexivity
    | eapply (then_action (DefCFAOffset _)); reflexivity
    | eapply (then_action (DefCFAExpression _)); reflexivity
    | eapply (then_action (SetRuleFromCFA _ _)); reflexivity
    | eapply (then_action (SetRule _ _)); reflexivity
    | eapply (then_action (RestoreRule _)); reflexivity
    | eapply (then_action RememberState); reflexivity
    | eapply (then_action RestoreSavedState); reflexivity
    | eapply (then_action WindowSave); reflexivity ].

Lemma opcode_performs op : parses_then (DoOpcode section reader entry cie op).
Proof.
  unfold DoOpcode, advance_loc, parse_ro, parse_rs, parse_re, parse_r.
  repeat (first [then_done | then_step]).
  intros s o s' Hrun. apply then_report with (r := BadInstruction (e_offset entry) (e_kind entry) (cursor_ s)). exact Hrun.
Qed.

Lemma packed_performs op : parses_then (DoPacked section reader entry cie op).
Proof. unfold DoPacked. cbv zeta. repeat (first [then_done | then_step]). Qed.

(** An instruction that ends moves the cursor past its opcode; if it succeeds it performed
    an action on the state after its operands. *)
Lemma DoInstruction_performs s o s' :
  DoInstruction section reader entry cie s = Ok (o, s') ->
  cursor_ s < cursor_ s' /\
  (o = None /\ parsed s s' \/ exists act s1, parsed s s1 /\ perform reader entry cie act s1 = Ok (o, s')).
Proof.
  unfold DoInstruction. intros E. apply bind_inv in E as [[_ E]|(s0 & s1 & E1 & E)]; [done|]. injection E1 as <- <-.
  apply bind_inv in E as [[-> E]|(op & s1 & E1 & E)].
  { unfold lift, mbind, outcome_bind in E. by destruct (ReadOneByte _ _ _). }
  assert (s1 = s) as ->.
  { unfold lift, mbind, outcome_bind in E1. destruct (ReadOneByte _ _ _); [|done|done]. by injection E1. }
  apply bind_inv in E as [[_ E]|([] & s1 & E2 & E)]; [done|]. injection E2 as <-.
  assert (Hp: parsed s (set_cursor (cursor_ s + 1) s)) by (apply parsed_cursor; lia).
  assert (Hcases: forall s2, parsed (set_cursor (cursor_ s + 1) s) s2 -> parsed s s2 /\ cursor_ s < cursor_ s2).
  { intros s2 Hs2. split; [by etrans|]. destruct Hs2 as [Hc _]. cbn in Hc. lia. }
  assert (Hthen: parses_then (if Z.land op 0xc0 =? 0 then DoOpcode section reader entry cie op else DoPacked section reader entry cie op))
    by (destruct (_ =? 0); [apply opcode_performs|apply packed_performs]).
  destruct (Hthen _ _ _ E) as [[-> Hs']|(act & s2 & Hs2 & Ea)].
  - apply Hcases in Hs' as [? ?]. split; [done|]. by left.
  - apply Hcases in Hs2 as [? ?]. pose proof (perform_cursor act _ _ _ Ea) as Ec. unfold same_cursor in Ec.
    split; [lia|]. right. by exists act, s2.
Qed.

(** The loop ends: any two amounts of fuel that cover the entry give the same. *)
Lemma instruction_loop_fuel f : forall f' s,
  (Z.to_nat (entry_end entry - cursor_ s) <= f)%nat -> (Z.to_nat (entry_end entry - cursor_ s) <= f')%nat ->
  instruction_loop section reader entry cie f s = instruction_loop section reader entry cie f' s.
Proof.
  induction f as [|f IH]; intros [|f'] s Hf Hf'; [done|..]; cbn [instruction_loop];
    unfold mbind, St_bind; cbn [get mbind outcome_bind]; dif; try done; try lia.
  unfold mbind, outcome_bind. destruct (DoInstruction section reader entry cie s) as [[[[]|] s1]| |] eqn:Ed; [|done|done|done].
  apply DoInstruction_performs in Ed as [Hc _]. apply IH; lia.
Qed.
End invariant.

(** ** The saved rules are nested

    A map of rules only grows, apart from DW_CFA_restore_state, which goes back to a map
    that was saved before the growth. *)
Definition extends (m m' : RuleMap) : Prop :=
  (is_Some (cfa_rule_ m') -> is_Some (cfa_rule_ m)) /\
  forall reg, is_Some (lookup_key (registers_ m') reg) -> is_Some (lookup_key (registers_ m) reg).

Definition map_sorted (m : RuleMap) : Prop := sorted (registers_ m).

Fixpoint chained (m : RuleMap) (saved : list RuleMap) : Prop :=
  match saved with
  | [] => True
  | m' :: saved => extends m m' /\ chained m' saved
  end.

Record nested {H} (s : CfiState H) : Prop := {
  ne_rules : map_sorted (rules_ s);
  ne_cie : map_sorted (cie_rules_ s);
  ne_saved : Forall map_sorted (saved_rules_ s);
  ne_chain : chained (rules_ s) (saved_rules_ s)
}.

#[export] Instance extends_preorder : PreOrder extends.
Proof. split; [by split|]. intros m1 m2 m3 [H1 H2] [H3 H4]. split; auto. Qed.

Lemma chained_extends m m' saved : extends m m' -> chained m' saved -> chained m saved.
Proof. destruct saved as [|m2 saved]; [done|]. intros He [? ?]. split; [by etrans|done]. Qed.

Lemma extends_cfa m rule : extends (SetCFARule m rule) m.
Proof. by split. Qed.

Lemma extends_register m reg rule m' : map_sorted m -> SetRegisterRule m reg rule = Ok m' -> map_sorted m' /\ extends m' m.
Proof.
  unfold SetRegisterRule. dif; [done|]. intros Hs [= <-]. unfold map_sorted. cbn. split; [by apply sorted_assign|].
  split; [done|]. cbn. intros reg' Hr. rewrite lookup_key_assign by done. by case_match.
Qed.

Section nested.
Context {H : Type} `{CfiHandler H}.
Implicit Types (s : CfiState H).

Definition keeps_nested (s s' : CfiState H) : Prop := nested s -> nested s'.

#[local] Instance keeps_nested_preorder : PreOrder keeps_nested.
Proof. split; [intros s Hs; exact Hs|]. intros s1 s2 s3 H12 H23 Hs. exact (H23 (H12 Hs)). Qed.

Lemma nested_rules m s : map_sorted m -> extends m (rules_ s) -> keeps_nested s (set_rules m s).
Proof. intros Hm He [H1 H2 H3 H4]. split; try done. cbn. by eapply chained_extends. Qed.

Lemma nested_DoRule reg rule : keeps keeps_nested (DoRule reg rule (H := H)).
Proof.
  apply keeps_DoRule; try exact _; try (by intros ? ? []).
  intros m s Em Hn. destruct (extends_register _ _ _ _ (ne_rules _ Hn) Em). by apply nested_rules.
Qed.

Lemma nested_handle rule reg : keeps keeps_nested (handle rule reg (H := H)).
Proof. apply keeps_handle; try exact _. by intros ? ? []. Qed.

Lemma nested_report {A} r : keeps keeps_nested (report (H := H) (A := A) r).
Proof. apply keeps_report; try exact _. by intros ? ? []. Qed.

Lemma nested_no_cfa {A} entry : keeps keeps_nested (no_cfa_rule entry (H := H) (A := A)).
Proof. apply keeps_no_cfa_rule; try exact _. by intros ? ? []. Qed.

Lemma nested_cfa rule : keeps keeps_nested (set_cfa_rule rule (H := H)).
Proof. unfold set_cfa_rule. apply keeps_modify; try exact _. intros s Hn. apply nested_rules; [by apply (ne_rules s)|apply extends_cfa|done]. Qed.

Hint Resolve nested_DoRule nested_handle nested_report nested_no_cfa nested_cfa : keeps.

Lemma nested_transition old a new : keeps keeps_nested (HandleTransitionTo old a new (H := H)).
Proof. apply keeps_transition; try exact _. by intros ? ? []. Qed.

Definition same_rules s s' : Prop :=
  rules_ s' = rules_ s /\ cie_rules_ s' = cie_rules_ s /\ saved_rules_ s' = saved_rules_ s /\ address_ s' = address_ s /\ cursor_ s' = cursor_ s.

#[local] Instance same_rules_preorder : PreOrder same_rules.
Proof. unfold same_rules. split; [intros s; by split_and!|]. intros s1 s2 s3 (-> & -> & -> & -> & ->) (-> & -> & -> & -> & ->). by split_and!. Qed.

Lemma transition_same old a new : keeps same_rules (HandleTransitionTo old a new (H := H)).
Proof. by apply keeps_transition; try exact _. Qed.

Lemma nested_RestoreState entry : keeps keeps_nested (RestoreState entry (H := H)).
Proof.
  unfold RestoreState. intros s o s' E. apply bind_inv in E as [[_ E]|(s0 & s1 & E1 & E)]; [done|]. injection E1 as <- <-.
  destruct (saved_rules_ s) as [|m saved] eqn:Es.
  { apply bind_inv in E as [[_ E]|(s0 & s1 & E1 & E)]; [done|]. injection E1 as <- <-. by eapply nested_report. }
  intros Hn. assert (Hrest: forall t, same_rules s t -> nested (set_saved saved (set_rules m t))).
  { destruct Hn as [H1 H2 H3 H4]. intros t (Hr & Hc & Hs & _). rewrite Es in H3, H4. apply Forall_cons in H3 as [? ?].
    split; cbn; [done|by rewrite Hc|done|apply H4]. }
  assert (Hgo: ∀ x y, (ignoring (HandleTransitionTo x y m);; modify (set_rules m);; modify (set_saved saved)) s = Ok (o, s') → nested s').
  { intros x y E2. apply bind_inv in E2 as [[-> E2]|([] & t & E1 & E2)].
    - unfold ignoring, mbind, outcome_bind in E2. by destruct (HandleTransitionTo _ _ _ _) as [[? ?]| |].
    - injection E2 as <- <-. apply Hrest. by apply (keeps_ignoring same_rules (HandleTransitionTo x y m) (transition_same _ _ _) _ _ _ E1). }
  destruct (cfa_rule_ (rules_ s)), (cfa_rule_ m); try by eapply Hgo.
  apply bind_inv in E as [[_ E]|(s0 & s1 & E1 & E)]; [done|]. injection E1 as <- <-. by eapply nested_report.
Qed.

Lemma nested_window reader : keeps keeps_nested (do_rules (window_save reader) (H := H)).
Proof.
  unfold window_save. generalize (((λ i : nat, (Z.of_nat i, RegisterRule (Z.of_nat i + 16))) <$> seq 8 8) ++
    ((λ i : nat, (Z.of_nat i, OffsetRule kCFARegister ((Z.of_nat i - 16) * address_size_ reader))) <$> seq 16 16)).
  intros l. induction l as [|[r0 rule0] l IH]; cbn [do_rules]; keeps.
Qed.

Lemma nested_perform reader entry cie act : keeps keeps_nested (perform reader entry cie act (H := H)).
Proof.
  destruct act; cbn [perform]; unfold DoDefCFA, DoDefCFARegister, DoDefCFAOffset, DoRestore, with_cfa, with_cursor, DoDefCFA; keeps;
    try (by intros []); try apply nested_RestoreState; try apply nested_window.
  all: match goal with |- keeps_nested ?s (set_saved _ ?s) => intros [H1 H2 H3 H4]; split; cbn; try done; by constructor end.
Qed.

Lemma nested_DoInstruction section reader entry cie : keeps keeps_nested (DoInstruction section reader entry cie (H := H)).
Proof.
  intros s o s' E Hn. assert (Hp: forall t, parsed s t -> nested t) by (intros t [_ ->]; by destruct Hn).
  destruct (DoInstruction_performs _ _ _ _ _ _ _ E) as [_ [[_ Ht]|(act & t & Ht & Ea)]]; [by apply Hp|].
  apply Hp in Ht. by eapply nested_perform.
Qed.
End nested.

(** ** DW_CFA_restore_state *)

(** A computation that is undefined only where the handler is. *)
Definition handler_undefined {H} `{CfiHandler H} (address : Z) : Prop :=
  exists rule reg h, Handle rule address reg h = Undefined (A := bool * H).

Section restore.
Context {H : Type} `{CfiHandler H}.
Implicit Types (s : CfiState H).

Definition blames (address : Z) {A} (m : St (CfiState H) A) : Prop :=
  forall s, m s = Undefined -> handler_undefined (H := H) address.

Definition never_fails {A} (m : St (CfiState H) A) : Prop := forall s, m s <> Fail.

Lemma blames_bind address {A B} (m : St (CfiState H) A) (f : A -> St (CfiState H) B) :
  blames address m -> (forall a, blames address (f a)) -> blames address (m ≫= f).
Proof.
  intros Hm Hf s. unfold mbind, St_bind, mbind, outcome_bind. destruct (m s) as [[[a|] s1]| |] eqn:E; [apply Hf|done|done|].
  intros _. by eapply Hm.
Qed.

Lemma blames_ret address {A} (a : A) : blames address (mret a).
Proof. by intros s. Qed.

Lemma blames_handled address rule reg : blames address (handled (H := H) (Handle rule address reg)).
Proof.
  intros s. unfold handled, mbind, outcome_bind. destruct (Handle rule address reg (handler_ s)) as [[ok h]| |] eqn:E; [done|done|].
  intros _. by exists rule, reg, (handler_ s).
Qed.

Lemma lookup_key_head {V} r (v : V) m : lookup_key ((r, v) :: m) r = Some v.
Proof. unfold lookup_key, find. cbn. rewrite Z.ltb_irrefl. cbn. by rewrite Z.eqb_refl. Qed.

Lemma blames_transitions address old : forall new,
  sorted old -> sorted new -> (forall reg, is_Some (lookup_key new reg) -> is_Some (lookup_key old reg)) ->
  blames address (register_transitions (H := H) address old new).
Proof.
  assert (Hin: forall (m : smap Rule) r, sorted m -> is_Some (lookup_key m r) <-> exists v, (r, v) ∈ m).
  { intros m r Hm. split; intros [v Hv]; exists v; by apply (lookup_key_Some m r v Hm). }
  induction old as [|[r rule] old IH]; intros [|[r' rule'] new] Ho Hn Hsub; cbn [register_transitions].
  - apply blames_ret.
  - exfalso. destruct (Hsub r') as [v Hv]; [apply Hin; [done|eexists; by left]|]. done.
  - apply blames_bind; [apply (blames_handled address SameValueRule)|intros []]. apply IH; [by apply sorted_cons in Ho as [_ ?]|apply sorted_nil|].
    intros reg [v Hv]. done.
  - pose proof Ho as [Hlo Ho']%sorted_cons. pose proof Hn as [Hln Hn']%sorted_cons.
    assert (Hr: exists v, (r', v) ∈ (r, rule) :: old).
    { apply Hin; [done|]. apply Hsub, Hin; [done|]. eexists. by left. }
    assert (Htail: forall reg, reg <> r -> is_Some (lookup_key ((r, rule) :: old) reg) -> is_Some (lookup_key old reg)).
    { intros reg Hne. rewrite !Hin by done. intros [v [[= -> ->]|Hv]%elem_of_cons]; [done|]. by exists v. }
    dif; [|dif].
    + apply blames_bind; [apply (blames_handled address SameValueRule)|intros []]. apply IH; [done|done|].
      intros reg Hreg. apply Htail; [|by apply Hsub]. intros ->. rewrite Hin in Hreg by done.
      destruct Hreg as [v [[= -> ->]|Hv]%elem_of_cons]; [lia|]. apply Hln in Hv. lia.
    + exfalso. destruct Hr as [v [[= -> ->]|Hv]%elem_of_cons]; [lia|]. apply Hlo in Hv. lia.
    + assert (r = r') as <- by lia. apply blames_bind; [destruct (rule_eqb _ _); [apply blames_ret|apply blames_handled]|intros []].
      apply IH; [done|done|]. intros reg Hreg. apply Htail.
      * intros ->. rewrite Hin in Hreg by done. destruct Hreg as [v Hv]. apply Hln in Hv. lia.
      * apply Hsub. rewrite Hin in Hreg |- * by done. destruct Hreg as [v Hv]. exists v. by right.
Qed.

Lemma blames_transition old address new :
  map_sorted old -> map_sorted new -> extends old new -> blames address (HandleTransitionTo (H := H) old address new).
Proof.
  intros Ho Hn [Hc Hr]. unfold HandleTransitionTo, cfa_transition. apply blames_bind.
  - destruct (cfa_rule_ old), (cfa_rule_ new) eqn:En; try apply blames_ret.
    + destruct (rule_eqb _ _); [apply blames_ret|apply blames_handled].
    + destruct Hc as [? ?]; [by eexists|done].
  - intros []. by apply blames_transitions.
Qed.

Lemma restore_blames entry s : nested s -> RestoreState entry s = Undefined -> handler_undefined (H := H) (address_ s).
Proof.
  intros [H1 H2 H3 H4] E. assert (Hgo: forall m, map_sorted m -> extends (rules_ s) m ->
    (ignoring (HandleTransitionTo (rules_ s) (address_ s) m);; modify (set_rules m);; modify (set_saved (tail (saved_rules_ s)))) s = Undefined ->
    handler_undefined (H := H) (address_ s)).
  { intros m Hm He Eu. unfold mbind, St_bind, mbind, outcome_bind, ignoring, mbind, outcome_bind in Eu.
    destruct (HandleTransitionTo (rules_ s) (address_ s) m s) as [[? ?]| |] eqn:Et; [done|done|]. exact (blames_transition _ _ _ H1 Hm He _ Et). }
  unfold RestoreState in E. rewrite (bind_runs _ _ (get_runs s)) in E.
  destruct (saved_rules_ s) as [|m saved]; [done|]. apply Forall_cons in H3 as [Hm _]. destruct H4 as [He _].
  specialize (Hgo m Hm He). destruct (cfa_rule_ (rules_ s)), (cfa_rule_ m); try done; by apply Hgo.
Qed.

(** The states of a [State]: it starts without rules; a CIE's and then an FDE's instructions
    run in it. *)
Inductive reached : CfiState H -> Prop :=
| reached_new h reports address : reached (mkCfiState h reports address 0 RuleMap_new RuleMap_new [])
| reached_enter s cursor : reached s -> reached (set_cursor cursor s)
| reached_instruction section reader entry cie s o s' :
    reached s -> DoInstruction section reader entry cie s = Ok (o, s') -> reached s'
| reached_cie s : reached s -> reached (set_cie_rules (rules_ s) s).

Lemma reached_nested s : reached s -> nested s.
Proof.
  induction 1 as [h r a|s c _ [H1 H2 H3 H4]|sec rd en ci s o s' _ IH E|s _ [H1 H2 H3 H4]].
  - split; try done; apply sorted_nil.
  - by split.
  - by eapply nested_DoInstruction.
  - by split.
Qed.
End restore.

(** C24: the call frame interpreter.  In every state that running instructions reaches, the
    maps of rules are sorted and nested -- every saved map has rules for fewer registers than
    the one after it --, so that DW_CFA_restore_state meets no register that only the saved
    map has: its assertions hold, and it is undefined only where the handler is.  An
    instruction moves the cursor forward, so that the loop over an entry ends: more fuel than
    its bytes changes nothing. *)
Theorem cfi_interpreter {H : Type} `{CfiHandler H} (section : list Z) (reader : ByteReader) (entry : CfiEntry) (cie : CIE) (s : CfiState H) :
  reached s ->
  nested s /\
  (RestoreState entry s = Undefined -> handler_undefined (H := H) (address_ s)) /\
  (forall o s', DoInstruction section reader entry cie s = Ok (o, s') -> reached s' /\ cursor_ s < cursor_ s') /\
  (forall fuel, (Z.to_nat (entry_end entry - cursor_ s) <= fuel)%nat ->
     instruction_loop section reader entry cie fuel s =
     instruction_loop section reader entry cie (Z.to_nat (entry_end entry - cursor_ s)) s).
Proof.
  intros Hs. pose proof (reached_nested _ Hs) as Hn. split_and!; [done|by apply restore_blames| |].
  - intros o s' E. split; [by eapply reached_instruction|]. by apply DoInstruction_performs in E as [? _].
  - intros f Hf. by apply instruction_loop_fuel.
Qed.

Definition demo_entry (instructions end_ : Z) : CfiEntry := mkEntry 0 kFDE 0 instructions (Some end_) 0.
Definition demo_cie : CIE := mkCIE (demo_entry 0 0) 1 [] 1 (-8) 16 false false false false 0 0 0 0.
Definition demo_insns : list Z := [0x0c; 7; 8; 0x90; 1; 0x0a; 0x86; 2; 0x0b; 0].

(** The state after some of the instructions "def_cfa rsp 8; offset rip 1; remember_state;
    offset rbp 2; restore_state; nop". *)
Fixpoint demo_run (n : nat) : CfiState unit :=
  match n with
  | O => mkCfiState tt [] 0 0 RuleMap_new RuleMap_new []
  | S n => match DoInstruction demo_insns demo_reader (demo_entry 0 10) demo_cie (demo_run n) with
           | Ok (_, s) => s
           | _ => demo_run n
           end
  end.

Lemma demo_reached n : reached (demo_run n).
Proof.
  induction n as [|n IH]; cbn [demo_run]; [constructor|].
  destruct (DoInstruction _ _ _ _ (demo_run n)) as [[o s]| |] eqn:E; [by eapply reached_instruction|done|done].
Qed.

Lemma cfi_interpreter_witness :
  registers_ (rules_ (demo_run 4)) = [(6, OffsetRule kCFARegister (-16)); (16, OffsetRule kCFARegister (-8))] /\
  registers_ (rules_ (demo_run 5)) = [(16, OffsetRule kCFARegister (-8))] /\ nested (demo_run 4).
Proof.
  split; [reflexivity|]. split; [reflexivity|].
  exact (proj1 (cfi_interpreter demo_insns demo_reader (demo_entry 0 10) demo_cie (demo_run 4) (demo_reached 4))).
Defined.
