(* ===== verification/CfiToModule.v ===== *)
(** common/dwarf_cfi_to_module.h, dwarf_cfi_to_module.cc: [DwarfCFIToModule], the handler
    that turns DWARF call frame information into the STACK CFI records of a [Module]. *)
From Stdlib Require Import Ascii.
From stdpp Require Import strings list.
From S2P Require Import Prelude StdMap CStr StrMap Memory ByteReader CallFrameInfo SymbolFile SymbolLoad DumpModule.

(** ** The names of the registers

    [RegisterNames::I386()] and so on. *)
Definition RegisterNames_I386 : list cstring :=
  [lit "$eax"; lit "$ecx"; lit "$edx"; lit "$ebx"; lit "$esp"; lit "$ebp"; lit "$esi"; lit "$edi";
    lit "$eip"; lit "$eflags"; lit "$unused1"; lit "$st0"; lit "$st1"; lit "$st2"; lit "$st3"; lit "$st4";
    lit "$st5"; lit "$st6"; lit "$st7"; lit "$unused2"; lit "$unused3"; lit "$xmm0"; lit "$xmm1"; lit "$xmm2";
    lit "$xmm3"; lit "$xmm4"; lit "$xmm5"; lit "$xmm6"; lit "$xmm7"; lit "$mm0"; lit "$mm1"; lit "$mm2";
    lit "$mm3"; lit "$mm4"; lit "$mm5"; lit "$mm6"; lit "$mm7"; lit "$fcw"; lit "$fsw"; lit "$mxcsr";
    lit "$es"; lit "$cs"; lit "$ss"; lit "$ds"; lit "$fs"; lit "$gs"; lit "$unused4"; lit "$unused5";
    lit "$tr"; lit "$ldtr"].

Definition RegisterNames_X86_64 : list cstring :=
  [lit "$rax"; lit "$rdx"; lit "$rcx"; lit "$rbx"; lit "$rsi"; lit "$rdi"; lit "$rbp"; lit "$rsp";
    lit "$r8"; lit "$r9"; lit "$r10"; lit "$r11"; lit "$r12"; lit "$r13"; lit "$r14"; lit "$r15";
    lit "$rip"; lit "$xmm0"; lit "$xmm1"; lit "$xmm2"; lit "$xmm3"; lit "$xmm4"; lit "$xmm5"; lit "$xmm6";
    lit "$xmm7"; lit "$xmm8"; lit "$xmm9"; lit "$xmm10"; lit "$xmm11"; lit "$xmm12"; lit "$xmm13"; lit "$xmm14";
    lit "$xmm15"; lit "$st0"; lit "$st1"; lit "$st2"; lit "$st3"; lit "$st4"; lit "$st5"; lit "$st6";
    lit "$st7"; lit "$mm0"; lit "$mm1"; lit "$mm2"; lit "$mm3"; lit "$mm4"; lit "$mm5"; lit "$mm6";
    lit "$mm7"; lit "$rflags"; lit "$es"; lit "$cs"; lit "$ss"; lit "$ds"; lit "$fs"; lit "$gs";
    lit "$unused1"; lit "$unused2"; lit "$fs.base"; lit "$gs.base"; lit "$unused3"; lit "$unused4"; lit "$tr"; lit "$ldtr";
    lit "$mxcsr"; lit "$fcw"; lit "$fsw"].

Definition RegisterNames_ARM : list cstring :=
  [lit "r0"; lit "r1"; lit "r2"; lit "r3"; lit "r4"; lit "r5"; lit "r6"; lit "r7";
    lit "r8"; lit "r9"; lit "r10"; lit "r11"; lit "r12"; lit "sp"; lit "lr"; lit "pc";
    lit "f0"; lit "f1"; lit "f2"; lit "f3"; lit "f4"; lit "f5"; lit "f6"; lit "f7";
    lit "fps"; lit "cpsr"; []; []; []; []; []; [];
    []; []; []; []; []; []; []; [];
    []; []; []; []; []; []; []; [];
    []; []; []; []; []; []; []; [];
    []; []; []; []; []; []; []; [];
    lit "s0"; lit "s1"; lit "s2"; lit "s3"; lit "s4"; lit "s5"; lit "s6"; lit "s7";
    lit "s8"; lit "s9"; lit "s10"; lit "s11"; lit "s12"; lit "s13"; lit "s14"; lit "s15";
    lit "s16"; lit "s17"; lit "s18"; lit "s19"; lit "s20"; lit "s21"; lit "s22"; lit "s23";
    lit "s24"; lit "s25"; lit "s26"; lit "s27"; lit "s28"; lit "s29"; lit "s30"; lit "s31";
    lit "f0"; lit "f1"; lit "f2"; lit "f3"; lit "f4"; lit "f5"; lit "f6"; lit "f7"].

Definition RegisterNames_ARM64 : list cstring :=
  [lit "x0"; lit "x1"; lit "x2"; lit "x3"; lit "x4"; lit "x5"; lit "x6"; lit "x7";
    lit "x8"; lit "x9"; lit "x10"; lit "x11"; lit "x12"; lit "x13"; lit "x14"; lit "x15";
    lit "x16"; lit "x17"; lit "x18"; lit "x19"; lit "x20"; lit "x21"; lit "x22"; lit "x23";
    lit "x24"; lit "x25"; lit "x26"; lit "x27"; lit "x28"; lit "x29"; lit "x30"; lit "sp";
    []; []; []; []; []; []; []; [];
    []; []; []; []; []; []; []; [];
    []; []; []; []; []; []; []; [];
    []; []; []; []; []; []; []; [];
    lit "v0"; lit "v1"; lit "v2"; lit "v3"; lit "v4"; lit "v5"; lit "v6"; lit "v7";
    lit "v8"; lit "v9"; lit "v10"; lit "v11"; lit "v12"; lit "v13"; lit "v14"; lit "v15";
    lit "v16"; lit "v17"; lit "v18"; lit "v19"; lit "v20"; lit "v21"; lit "v22"; lit "v23";
    lit "v24"; lit "v25"; lit "v26"; lit "v27"; lit "v28"; lit "v29"; lit "v30"; lit "v31"].

Definition RegisterNames_MIPS : list cstring :=
  [lit "$zero"; lit "$at"; lit "$v0"; lit "$v1"; lit "$a0"; lit "$a1"; lit "$a2"; lit "$a3";
    lit "$t0"; lit "$t1"; lit "$t2"; lit "$t3"; lit "$t4"; lit "$t5"; lit "$t6"; lit "$t7";
    lit "$s0"; lit "$s1"; lit "$s2"; lit "$s3"; lit "$s4"; lit "$s5"; lit "$s6"; lit "$s7";
    lit "$t8"; lit "$t9"; lit "$k0"; lit "$k1"; lit "$gp"; lit "$sp"; lit "$fp"; lit "$ra";
    lit "$lo"; lit "$hi"; lit "$pc"; lit "$f0"; lit "$f2"; lit "$f3"; lit "$f4"; lit "$f5";
    lit "$f6"; lit "$f7"; lit "$f8"; lit "$f9"; lit "$f10"; lit "$f11"; lit "$f12"; lit "$f13";
    lit "$f14"; lit "$f15"; lit "$f16"; lit "$f17"; lit "$f18"; lit "$f19"; lit "$f20"; lit "$f21";
    lit "$f22"; lit "$f23"; lit "$f24"; lit "$f25"; lit "$f26"; lit "$f27"; lit "$f28"; lit "$f29";
    lit "$f30"; lit "$f31"; lit "$fcsr"; lit "$fir"].

(** ** The handler *)

(** What its reporter is told. *)
Inductive ModuleReport :=
| UnnamedRegister (offset reg : Z)
| UndefinedNotSupported (offset : Z) (reg : cstring)
| ExpressionsNotSupported (offset : Z) (reg : cstring).

Record DwarfCFIToModule := mkCFIToModule {
  module_ : DumpModule;
  register_names_ : list cstring;
  problems : list ModuleReport;
  current_entry : option StackFrameEntry;
  entry_offset_ : Z;
  return_address_ : Z;
  common_strings_ : strmap unit
}.

Definition cfa_name_ : cstring := lit ".cfa".
Definition ra_name_ : cstring := lit ".ra".

(** [return_address_] is unsigned. *)
Definition DwarfCFIToModule_new (module : DumpModule) (register_names : list cstring) : DwarfCFIToModule :=
  mkCFIToModule module register_names [] None 0 (u32 (-1)) [].

Implicit Types (h : DwarfCFIToModule).

Definition set_entry (e : option StackFrameEntry) h :=
  mkCFIToModule (module_ h) (register_names_ h) (problems h) e (entry_offset_ h) (return_address_ h) (common_strings_ h).
Definition add_problem (r : ModuleReport) h :=
  mkCFIToModule (module_ h) (register_names_ h) (problems h ++ [r]) (current_entry h) (entry_offset_ h) (return_address_ h) (common_strings_ h).

(** The name of a register whose number is not negative and is not the return address
    column; [None] when it has none. *)
Definition known_name h (reg : Z) : option cstring :=
  match register_names_ h !! Z.to_nat reg with
  | Some (c :: name) => Some (c :: name)
  | _ => None
  end.

Definition unnamed_register (reg : Z) : cstring := lit "unnamed_register" ++ print_dec reg.

Definition RegisterName (i : Z) h : outcome (cstring * DwarfCFIToModule) :=
  match current_entry h with
  | None => Undefined
  | Some _ =>
      if i <? 0 then if i =? kCFARegister then Ok (cfa_name_, h) else Undefined
      else if i =? return_address_ h then Ok (ra_name_, h)
      else match known_name h i with
           | Some name => Ok (name, h)
           | None => Ok (unnamed_register i, add_problem (UnnamedRegister (entry_offset_ h) i) h)
           end
  end.

(** [entry_->initial_rules[name] = rule] or [entry_->rule_changes[address][name] = rule]. *)
Definition record_rule (e : StackFrameEntry) (address : Z) (name rule : cstring) : StackFrameEntry :=
  if address =? entry_address e then
    mkStackFrameEntry (entry_address e) (entry_size e) (str_assign (initial_rules e) name rule) (rule_changes e)
  else
    mkStackFrameEntry (entry_address e) (entry_size e) (initial_rules e)
      (assign (rule_changes e) address (str_assign (default [] (lookup_key (rule_changes e) address)) name rule)).

(** [Record]; the string of the set is equal to [rule]. *)
Definition record (address reg : Z) (rule : cstring) h : outcome DwarfCFIToModule :=
  '(name, h) ← RegisterName reg h;
  match current_entry h with
  | None => Undefined
  | Some e =>
      Ok (mkCFIToModule (module_ h) (register_names_ h) (problems h) (Some (record_rule e address name rule))
            (entry_offset_ h) (return_address_ h) (str_insert (common_strings_ h) rule tt))
  end.

Definition EntryOf (offset address length version : Z) (augmentation : list Z) (return_address : Z) h : outcome (bool * DwarfCFIToModule) :=
  match current_entry h with
  | Some _ => Undefined
  | None =>
      let initial := match register_names_ h !! Z.to_nat return_address with
                     | Some name => str_assign [] ra_name_ name
                     | None => []
                     end in
      Ok (true, mkCFIToModule (module_ h) (register_names_ h) (problems h) (Some (mkStackFrameEntry address length initial []))
                  offset return_address (common_strings_ h))
  end.

Definition not_supported (report : Z -> cstring -> ModuleReport) (reg : Z) h : outcome (bool * DwarfCFIToModule) :=
  '(name, h) ← RegisterName reg h; Ok (true, add_problem (report (entry_offset_ h) name) h).

(** A rule that starts with the name of a base register. *)
Definition based_rule (address reg base_register : Z) (rest : cstring) h : outcome (bool * DwarfCFIToModule) :=
  '(name, h) ← RegisterName base_register h; h ← record address reg (name ++ rest) h; Ok (true, h).

Definition SameValueOf (address reg : Z) := based_rule address reg reg [].
Definition OffsetOf (address reg base_register offset : Z) :=
  based_rule address reg base_register (lit " " ++ print_int offset ++ lit " + ^").
Definition ValOffsetOf (address reg base_register offset : Z) :=
  based_rule address reg base_register (lit " " ++ print_int offset ++ lit " +").
Definition RegisterOf (address reg base_register : Z) := based_rule address reg base_register [].

Definition EndOf h : outcome (bool * DwarfCFIToModule) :=
  match current_entry h with
  | None => Undefined
  | Some e =>
      Ok (true, mkCFIToModule (AddStackFrameEntry (module_ h) e) (register_names_ h) (problems h) None
                  (entry_offset_ h) (return_address_ h) (common_strings_ h))
  end.

(** The functions of the base class say [true]. *)
#[export] Instance module_handler : CfiHandler DwarfCFIToModule := {
  Entry := EntryOf;
  HandleUndefined := λ _ reg, not_supported UndefinedNotSupported reg;
  HandleSameValue := SameValueOf;
  HandleOffset := OffsetOf;
  HandleValOffset := ValOffsetOf;
  HandleRegister := RegisterOf;
  HandleExpression := λ _ reg _, not_supported ExpressionsNotSupported reg;
  HandleValExpression := λ _ reg _, not_supported ExpressionsNotSupported reg;
  PersonalityRoutine := λ _ _ h, Ok (true, h);
  LanguageSpecificDataArea := λ _ _ h, Ok (true, h);
  SignalHandler := λ h, Ok (true, h);
  End_ := EndOf
}.

(** ** common/linux/dump_symbols.cc *)

Definition EM_386 := 3.
Definition EM_MIPS := 8.
Definition EM_ARM := 40.
Definition EM_X86_64 := 62.
Definition EM_AARCH64 := 183.

(** [DwarfCFIRegisterNames]: [None] is [false]. *)
Definition DwarfCFIRegisterNames (e_machine : Z) : option (list cstring) :=
  if e_machine =? EM_386 then Some RegisterNames_I386
  else if e_machine =? EM_ARM then Some RegisterNames_ARM
  else if e_machine =? EM_AARCH64 then Some RegisterNames_ARM64
  else if e_machine =? EM_MIPS then Some RegisterNames_MIPS
  else if e_machine =? EM_X86_64 then Some RegisterNames_X86_64
  else None.

(** [LoadDwarfCFI], from the bytes of the section and the addresses of the sections; what is
    reported is dropped. *)
Definition LoadDwarfCFI (e_machine addr_size : Z) (cfi : list Z) (sh_addr : Z) (eh_frame : bool) (got_section text_section : option Z)
    (big_endian : bool) (module : DumpModule) : outcome (bool * DumpModule) :=
  match DwarfCFIRegisterNames e_machine with
  | None => Ok (false, module)
  | Some register_names =>
      let byte_reader := ByteReader_new (if big_endian then ENDIANNESS_BIG else ENDIANNESS_LITTLE) in
      byte_reader ← SetAddressSize byte_reader addr_size;
      let byte_reader := SetCFIDataBase byte_reader sh_addr 0 in
      let byte_reader := match got_section with Some address => SetDataBase byte_reader address | None => byte_reader end in
      let byte_reader := match text_section with Some address => SetTextBase byte_reader address | None => byte_reader end in
      '(_, parser) ← Start cfi eh_frame (mkCfiParser byte_reader (DwarfCFIToModule_new module register_names) []);
      Ok (true, module_ (p_handler parser))
  end.
