(* ===== verification/CfiTable.v ===== *)
(** What [DwarfCFIToModule] makes of a description entry: the table of DWARF -- at every
    address the rules in force there -- is what the STACK CFI records say. *)
From Stdlib Require Import Ascii.
From stdpp Require Import strings list relations.
From S2P Require Import Prelude StdMap CStr StrMap Memory ByteReader CallFrameInfo CfiActions CfiInvariant SymbolFile SymbolLoad DumpModule CfiToModule.

(** ** Texts of rules *)

Definition name_of (h : DwarfCFIToModule) (reg : Z) : cstring :=
  if reg <? 0 then cfa_name_
  else if reg =? return_address_ h then ra_name_
  else default (unnamed_register reg) (known_name h reg).

(** The postfix expression of a rule; [None]: STACK CFI cannot express it. *)
Definition rule_text (h : DwarfCFIToModule) (reg : Z) (rule : Rule) : option cstring :=
  match rule with
  | SameValueRule => Some (name_of h reg)
  | OffsetRule base offset => Some (name_of h base ++ lit " " ++ print_int offset ++ lit " + ^")
  | ValOffsetRule base offset => Some (name_of h base ++ lit " " ++ print_int offset ++ lit " +")
  | RegisterRule number => Some (name_of h number)
  | UndefinedRule | ExpressionRule _ | ValExpressionRule _ => None
  end.

(** ** The rules in force at an address *)

Fixpoint changes_at (changes : smap (strmap cstring)) (a : Z) (name : cstring) (rule : option cstring) : option cstring :=
  match changes with
  | [] => rule
  | (address, rules) :: changes =>
      changes_at changes a name
        (if address <=? a then match str_find rules name with Some t => Some t | None => rule end else rule)
  end.

Definition rules_at (e : StackFrameEntry) (a : Z) (name : cstring) : option cstring :=
  changes_at (rule_changes e) a name (str_find (initial_rules e) name).

(** An entry all of whose changes are after its start and not after [here]. *)
Record entry_upto (here : Z) (e : StackFrameEntry) : Prop := {
  eu_initial : str_sorted (initial_rules e);
  eu_sorted : sorted (rule_changes e);
  eu_start : entry_address e <= here;
  eu_changes a m : (a, m) ∈ rule_changes e -> entry_address e < a <= here /\ str_sorted m
}.

Lemma changes_at_app c1 c2 a name rule : changes_at (c1 ++ c2) a name rule = changes_at c2 a name (changes_at c1 a name rule).
Proof. revert rule. induction c1 as [|[k m] c1 IH]; intros rule; [done|]. cbn. apply IH. Qed.

Lemma sorted_app_last {V} (m : smap V) k v : sorted m -> (forall k' v', (k', v') ∈ m -> k' < k) -> sorted (m ++ [(k, v)]).
Proof.
  intros Hm Hk. apply sorted_app. split_and!; [done|by repeat constructor|].
  intros k1 v1 k2 v2 H1 [= -> ->]%list_elem_of_singleton. by eapply Hk.
Qed.

(** Assigning at the last key, or after it. *)
Lemma assign_last {V} (m : smap V) k v :
  sorted m -> (forall k' v', (k', v') ∈ m -> k' <= k) ->
  exists pre, assign m k v = pre ++ [(k, v)] /\ (forall k' v', (k', v') ∈ pre -> k' < k) /\
    (m = pre /\ lookup_key m k = None \/ exists v0, m = pre ++ [(k, v0)] /\ lookup_key m k = Some v0).
Proof.
  intros Hm Hk.
  assert (Hcase: exists pre, (forall k' v', (k', v') ∈ pre -> k' < k) /\ sorted pre /\
    (m = pre /\ lookup_key m k = None \/ exists v0, m = pre ++ [(k, v0)] /\ lookup_key m k = Some v0)).
  { destruct m as [|x m'] using rev_ind; [exists []; split_and!; [by intros ? ? ?%not_elem_of_nil|apply sorted_nil|by left]|].
    clear IHm'. destruct x as [k0 v0]. pose proof Hm as (Hm' & _ & Hlt)%sorted_app.
    assert (Hpre: forall k' v', (k', v') ∈ m' -> k' < k0).
    { intros k' v' Hin. apply (Hlt k' v' k0 v0 Hin). by left. }
    assert (k0 <= k) by (eapply Hk, elem_of_app; right; by left).
    destruct (decide (k0 = k)) as [->|Hne].
    - exists m'. split_and!; [done|done|]. right. exists v0. split; [done|]. apply lookup_key_Some; [done|]. apply elem_of_app. right. by left.
    - exists (m' ++ [(k0, v0)]). split_and!; [|done|].
      + intros k' v' [Hin|[= -> ->]%list_elem_of_singleton]%elem_of_app; [apply Hpre in Hin; lia|lia].
      + left. split; [done|]. apply lookup_key_None; [done|]. intros v' [Hin|[= -> ->]%list_elem_of_singleton]%elem_of_app; [apply Hpre in Hin; lia|lia]. }
  destruct Hcase as (pre & Hpre & Hsp & Hm'). exists pre. split_and!; [|done|done].
  apply sorted_ext; [by apply sorted_assign|by apply sorted_app_last|].
  destruct (assign_spec m k v Hm) as [_ Hin]. intros [k1 v1]. rewrite Hin, elem_of_app, list_elem_of_singleton. cbn.
  destruct Hm' as [[-> _]|(v0 & -> & _)].
  - split; [intros [?|[? _]]; tauto|]. intros [Hx|Hx]; [|tauto]. right. split; [done|]. apply Hpre in Hx. lia.
  - rewrite elem_of_app, list_elem_of_singleton. split; [intros [?|[[?|[= -> ->]] ?]]; tauto|].
    intros [Hx|Hx]; [|tauto]. right. split; [by left|]. apply Hpre in Hx. lia.
Qed.

(** ** Recording a rule *)

Lemma str_sorted_assign_nil name rule : str_sorted (V := cstring) (str_assign [] name rule).
Proof. apply str_sorted_assign. constructor. Qed.

Lemma changes_at_before changes a name rule : (forall k m, (k, m) ∈ changes -> a < k) -> changes_at changes a name rule = rule.
Proof.
  revert rule. induction changes as [|[k m] changes IH]; intros rule Hk; [done|]. cbn. rewrite (proj2 (Z.leb_gt _ _)).
  - apply IH. intros k' m' Hin. apply (Hk k' m'). by right.
  - eapply Hk. by left.
Qed.

Lemma record_rule_upto here e name rule : entry_upto here e -> entry_upto here (record_rule e here name rule).
Proof.
  intros [H1 H2 H3 H4]. unfold record_rule. dif.
  - split; cbn; [by apply str_sorted_assign|done|lia|done].
  - split; cbn; [done|by apply sorted_assign|done|]. intros a m Hin.
    apply assign_spec in Hin as [[= -> ->]|[Hin _]]; [|by apply H4|done]. split; [lia|]. apply str_sorted_assign.
    destruct (lookup_key (rule_changes e) here) as [m|] eqn:El; [|constructor]. apply lookup_key_Some in El; [|done]. by apply H4 in El as [_ ?].
Qed.

Lemma record_rule_now here e name rule a name' :
  entry_upto here e -> here <= a ->
  rules_at (record_rule e here name rule) a name' = if str_eqb name name' then Some rule else rules_at e a name'.
Proof.
  intros [H1 H2 H3 H4] Ha. unfold rules_at, record_rule. dif; cbn [rule_changes initial_rules].
  - assert (rule_changes e = []) as ->.
    { destruct (rule_changes e) as [|[k m] l]; [done|]. destruct (H4 k m) as [? _]; [left|lia]. }
    cbn. by rewrite str_find_assign.
  - destruct (assign_last (rule_changes e) here (str_assign (default [] (lookup_key (rule_changes e) here)) name rule) H2)
      as (pre & -> & Hpre & Hm); [intros k m Hin; apply H4 in Hin; lia|].
    rewrite changes_at_app. cbn [changes_at]. rewrite (proj2 (Z.leb_le here a)) by lia.
    destruct Hm as [[-> ->]|(m0 & E0 & E1)]; cbn [default].
    + rewrite str_find_assign by constructor. by destruct (str_eqb name name').
    + rewrite E1. cbn. rewrite str_find_assign.
      * destruct (str_eqb name name'); [done|]. rewrite E0, changes_at_app. cbn [changes_at]. by rewrite (proj2 (Z.leb_le here a)) by lia.
      * apply (H4 here m0). rewrite E0. apply elem_of_app. right. by left.
Qed.

Lemma record_rule_past here e name rule a name' :
  entry_upto here e -> entry_address e <= a < here -> rules_at (record_rule e here name rule) a name' = rules_at e a name'.
Proof.
  intros [H1 H2 H3 H4] Ha. unfold rules_at, record_rule. dif; [lia|]. cbn [rule_changes initial_rules].
  destruct (assign_last (rule_changes e) here (str_assign (default [] (lookup_key (rule_changes e) here)) name rule) H2)
    as (pre & -> & Hpre & Hm); [intros k m Hin; apply H4 in Hin; lia|].
  rewrite changes_at_app. cbn [changes_at]. rewrite (proj2 (Z.leb_gt here a)) by lia.
  destruct Hm as [[-> _]|(m0 & -> & _)]; [done|]. rewrite changes_at_app. cbn [changes_at]. by rewrite (proj2 (Z.leb_gt here a)) by lia.
Qed.

(** ** What a call of the handler does *)

(** What stays while an entry is read. *)
Definition same_names (h h' : DwarfCFIToModule) : Prop :=
  register_names_ h' = register_names_ h /\ return_address_ h' = return_address_ h /\ module_ h' = module_ h.

#[export] Instance same_names_preorder : PreOrder same_names.
Proof.
  unfold same_names. split; [intros h; by split_and!|].
  intros h1 h2 h3 (-> & -> & ->) (-> & -> & ->). by split_and!.
Qed.

Lemma same_names_name h h' reg : same_names h h' -> name_of h' reg = name_of h reg.
Proof. intros (E1 & E2 & _). unfold name_of, known_name. by rewrite E1, E2. Qed.

Lemma same_names_text h h' reg rule : same_names h h' -> rule_text h' reg rule = rule_text h reg rule.
Proof. intros Hs. destruct rule; cbn; by rewrite ?(same_names_name h h'). Qed.

Definition is_register (reg : Z) : Prop := 0 <= reg \/ reg = kCFARegister.

Lemma RegisterName_spec i h name h' :
  RegisterName i h = Ok (name, h') -> name = name_of h i /\ same_names h h' /\ current_entry h' = current_entry h /\ is_register i.
Proof.
  unfold RegisterName, name_of, is_register. destruct (current_entry h) as [e|] eqn:Ee; [|done].
  repeat dif; try done; try (intros [= <- <-]; split_and!; first [done|auto]).
  destruct (known_name h i); intros [= <- <-]; cbn; split_and!; first [done|auto].
Qed.

Lemma record_spec address reg rule h h' :
  record address reg rule h = Ok h' ->
  same_names h h' /\ is_register reg /\ exists e, current_entry h = Some e /\ current_entry h' = Some (record_rule e address (name_of h reg) rule).
Proof.
  unfold record, mbind, outcome_bind. destruct (RegisterName reg h) as [[name h1]| |] eqn:En; [|done|done].
  apply RegisterName_spec in En as (-> & Hs & Ee & Hr). destruct (current_entry h1) as [e|] eqn:E1; [|done].
  intros [= <-]. split_and!; [destruct Hs as (? & ? & ?); by split_and!|done|]. by exists e.
Qed.

Lemma based_rule_spec address reg base rest h ok h' :
  based_rule address reg base rest h = Ok (ok, h') ->
  ok = true /\ same_names h h' /\ is_register reg /\
  exists e, current_entry h = Some e /\ current_entry h' = Some (record_rule e address (name_of h reg) (name_of h base ++ rest)).
Proof.
  unfold based_rule, mbind, outcome_bind. destruct (RegisterName base h) as [[name h1]| |] eqn:En; [|done|done].
  apply RegisterName_spec in En as (-> & Hs & Ee & Hb). destruct (record address reg _ h1) as [h2| |] eqn:Er; [|done|done].
  apply record_spec in Er as (Hs2 & Hr & e & E1 & E2). intros [= <- <-]. split_and!; [done|by etrans|done|].
  exists e. rewrite <- Ee, (same_names_name h h1 reg Hs) in *. by split.
Qed.

Lemma not_supported_spec report reg h ok h' :
  not_supported report reg h = Ok (ok, h') ->
  ok = true /\ same_names h h' /\ is_register reg /\ exists e, current_entry h = Some e /\ current_entry h' = Some e.
Proof.
  unfold not_supported, mbind, outcome_bind. destruct (RegisterName reg h) as [[name h1]| |] eqn:En; [|done|done].
  pose proof En as (_ & Hs & Ee & Hr)%RegisterName_spec. intros [= <- <-]. split_and!; [done|by destruct Hs as (? & ? & ?)|done|].
  unfold RegisterName in En. destruct (current_entry h) as [e|] eqn:E0; [|done]. exists e. by split.
Qed.

(** A call about a rule records its text, if it has one. *)
Lemma Handle_spec rule address reg h ok h' :
  Handle rule address reg h = Ok (ok, h') ->
  ok = true /\ same_names h h' /\ is_register reg /\
  exists e, current_entry h = Some e /\
    current_entry h' = Some (match rule_text h reg rule with Some t => record_rule e address (name_of h reg) t | None => e end).
Proof.
  destruct rule; cbn; intros E; try (by apply not_supported_spec in E);
    apply based_rule_spec in E as (? & ? & ? & e & ? & ?); split_and!; try done; exists e; split; try done.
  all: by rewrite ?app_nil_r in *.
Qed.

(** ** Steps at one address

    What a step at address [here] may do to the entry: record texts for the registers it
    touches. *)
Record evolves (here : Z) (touched : Z -> Prop) (h h' : DwarfCFIToModule) (e e' : StackFrameEntry) : Prop := {
  ev_before : current_entry h = Some e;
  ev_after : current_entry h' = Some e';
  ev_names : same_names h h';
  ev_start : entry_address e' = entry_address e /\ entry_size e' = entry_size e;
  ev_upto : entry_upto here e -> entry_upto here e';
  ev_past : entry_upto here e -> forall a name, entry_address e <= a < here -> rules_at e' a name = rules_at e a name;
  ev_other : entry_upto here e -> forall a name, here <= a -> (forall r, touched r -> name <> name_of h r) ->
    rules_at e' a name = rules_at e a name
}.

Lemma evolves_refl here touched h e : current_entry h = Some e -> evolves here touched h h e e.
Proof. by split. Qed.

Lemma evolves_trans here touched h1 h2 h3 e1 e2 e3 :
  evolves here touched h1 h2 e1 e2 -> evolves here touched h2 h3 e2 e3 -> evolves here touched h1 h3 e1 e3.
Proof.
  intros [A1 A2 A3 A4 A5 A6 A7] [B1 B2 B3 B4 B5 B6 B7]. split; try done; try (by etrans).
  - destruct A4, B4. split; congruence.
  - auto.
  - intros Hu a n Ha. destruct A4 as [A4 _]. rewrite B6, A6; [done|done|done|auto|by rewrite A4].
  - intros Hu a n Ha Hn. rewrite B7, A7; [done|done|done|done|auto|done|].
    intros r Hr. rewrite (same_names_name h1 h2) by done. by apply Hn.
Qed.

Lemma evolves_weaken here (touched touched' : Z -> Prop) h h' e e' :
  (forall r, touched r -> touched' r) -> evolves here touched h h' e e' -> evolves here touched' h h' e e'.
Proof. intros Ht [A1 A2 A3 A4 A5 A6 A7]. split; try done. intros Hu a n Ha Hn. apply A7; auto. Qed.

(** The text of the rule is then in force. *)
Definition in_force (here : Z) (h : DwarfCFIToModule) (e : StackFrameEntry) (reg : Z) (rule : Rule) : Prop :=
  forall t a, rule_text h reg rule = Some t -> here <= a -> rules_at e a (name_of h reg) = Some t.

Lemma Handle_evolves rule here reg h ok h' :
  Handle rule here reg h = Ok (ok, h') ->
  ok = true /\ is_register reg /\
  exists e e', evolves here (eq reg) h h' e e' /\ (entry_upto here e -> in_force here h e' reg rule).
Proof.
  intros (-> & Hs & Hr & e & E1 & E2)%Handle_spec. split_and!; [done|done|].
  exists e. eexists. split; [|].
  - split; [done|exact E2|done|..]; destruct (rule_text h reg rule) as [t|] eqn:Et; try done.
    + unfold record_rule. by case_match.
    + apply record_rule_upto.
    + intros Hu a n Ha. by apply record_rule_past.
    + intros Hu a n Ha Hn. rewrite record_rule_now by done. rewrite str_eqb_neq; [done|]. intros <-. by apply (Hn reg).
  - intros Hu t a Et Ha. rewrite Et. rewrite record_rule_now by done. by rewrite str_eqb_refl.
Qed.

(** ** States whose entry is up to date *)

Definition has_rule (m : RuleMap) (reg : Z) (rule : Rule) : Prop :=
  if reg =? kCFARegister then cfa_rule_ m = Some rule else lookup_key (registers_ m) reg = Some rule.

(** No two registers share a name. *)
Definition distinct_names (h : DwarfCFIToModule) : Prop :=
  forall r r', is_register r -> is_register r' -> name_of h r = name_of h r' -> r = r'.

Abbreviation state := (CfiState DwarfCFIToModule).
Implicit Types (s : state).

Record tracked s (e : StackFrameEntry) : Prop := {
  tk_entry : current_entry (handler_ s) = Some e;
  tk_upto : entry_upto (address_ s) e;
  tk_registers reg : is_Some (lookup_key (registers_ (rules_ s)) reg) -> 0 <= reg;
  tk_in_force reg rule : has_rule (rules_ s) reg rule -> in_force (address_ s) (handler_ s) e reg rule
}.

Lemma entry_upto_later here here' e : here <= here' -> entry_upto here e -> entry_upto here' e.
Proof. intros Hh [H1 H2 H3 H4]. split; [done|done|lia|]. intros a m Hin. apply H4 in Hin as [? ?]. split; [lia|done]. Qed.

Lemma in_force_names here h h' e reg rule : same_names h h' -> in_force here h' e reg rule <-> in_force here h e reg rule.
Proof.
  intros Hs. unfold in_force. rewrite (same_names_name h h' _ Hs). by setoid_rewrite (same_names_text h h' _ _ Hs).
Qed.

(** Another register's step leaves a rule in force. *)
Lemma in_force_other here (touched : Z -> Prop) h h' e e' reg rule :
  evolves here touched h h' e e' -> entry_upto here e -> distinct_names h -> is_register reg ->
  (forall r, touched r -> is_register r /\ r <> reg) -> in_force here h e reg rule -> in_force here h e' reg rule.
Proof.
  intros Hev Hu Hd Hr Ht Hf t a Et Ha. rewrite (ev_other _ _ _ _ _ _ Hev Hu a _ Ha); [by apply Hf|].
  intros r [Hr' Hne]%Ht Hn. apply Hne. symmetry. by apply Hd.
Qed.

Lemma tracked_register s e reg rule : tracked s e -> has_rule (rules_ s) reg rule -> is_register reg.
Proof.
  intros Ht. unfold has_rule, is_register. dif; [by right|]. intros Hl. left. apply (tk_registers _ _ Ht). by eexists.
Qed.

(** A change of the rules for one register. *)
Record changes_rule (m m' : RuleMap) (reg : Z) (rule : Rule) : Prop := {
  ch_rule r ru : has_rule m' r ru -> r = reg /\ ru = rule \/ r <> reg /\ has_rule m r ru;
  ch_register r : is_Some (lookup_key (registers_ m') r) -> is_Some (lookup_key (registers_ m) r) \/ r = reg /\ reg <> kCFARegister
}.

(** The rules change for one register, and the handler is told. *)
Lemma tracked_update s e m reg rule h' e' :
  tracked s e -> distinct_names (handler_ s) -> is_register reg ->
  evolves (address_ s) (eq reg) (handler_ s) h' e e' -> in_force (address_ s) (handler_ s) e' reg rule ->
  changes_rule (rules_ s) m reg rule -> tracked (set_handler h' (set_rules m s)) e'.
Proof.
  intros Ht Hd Hr Hev Hf Hm. pose proof Ht as [T1 T2 T3 T4]. pose proof (ev_names _ _ _ _ _ _ Hev) as Hs. split; cbn.
  - by apply (ev_after _ _ _ _ _ _ Hev).
  - by apply (ev_upto _ _ _ _ _ _ Hev).
  - intros r [?|[-> Hne]]%(ch_register _ _ _ _ Hm); [by apply T3|]. by destruct Hr.
  - intros r ru Hru. apply in_force_names with (h := handler_ s); [done|]. destruct (ch_rule _ _ _ _ Hm r ru Hru) as [[-> ->]|[Hne Ho]]; [done|].
    eapply in_force_other; [done|done|done|by eapply (tracked_register s e)| |by apply T4]. intros r' <-. by split.
Qed.

Lemma handled_runs f s o s' :
  handled f s = Ok (o, s') -> exists ok h', f (handler_ s) = Ok (ok, h') /\ s' = set_handler h' s /\ o = if (ok : bool) then Some tt else None.
Proof.
  unfold handled, mbind, outcome_bind. destruct (f (handler_ s)) as [[ok h']| |]; [|done|done]. intros [= <- <-]. by exists ok, h'.
Qed.

(** A step of the state: its entry stays what it was before the current address. *)
Record progress s s' (e e' : StackFrameEntry) : Prop := {
  pr_tracked : tracked s' e';
  pr_names : same_names (handler_ s) (handler_ s');
  pr_start : entry_address e' = entry_address e /\ entry_size e' = entry_size e;
  pr_past a name : entry_address e <= a < address_ s -> rules_at e' a name = rules_at e a name;
  pr_moved : address_ s < address_ s' -> e' = e
}.

Lemma tell_progress s e m reg rule s' :
  tracked s e -> distinct_names (handler_ s) ->
  handle rule reg (set_rules m s) = Ok (Some tt, s') ->
  changes_rule (rules_ s) m reg rule ->
  exists e', progress s s' e e'.
Proof.
  intros Ht Hd E Hm. apply handled_runs in E as (ok & h' & E & -> & _). cbn in E.
  apply Handle_evolves in E as (_ & Hr & e0 & e' & Hev & Hf).
  assert (e0 = e) as -> by (pose proof (ev_before _ _ _ _ _ _ Hev); pose proof (tk_entry _ _ Ht); congruence).
  specialize (Hf (tk_upto _ _ Ht)). exists e'. split; cbn.
  - by eapply tracked_update.
  - by apply (ev_names _ _ _ _ _ _ Hev).
  - by apply (ev_start _ _ _ _ _ _ Hev).
  - intros a n. by apply (ev_past _ _ _ _ _ _ Hev), (tk_upto _ _ Ht).
  - lia.
Qed.

Lemma changes_cfa m rule : changes_rule m (SetCFARule m rule) kCFARegister rule.
Proof. split; [|by left]. unfold has_rule. intros r ru. dif; [intros [= <-]; by left|]. intros ?. by right. Qed.

Lemma changes_register m reg rule m' : map_sorted m -> SetRegisterRule m reg rule = Ok m' -> changes_rule m m' reg rule.
Proof.
  intros Hs. unfold SetRegisterRule. dif; [done|]. intros [= <-]. split; unfold has_rule; cbn; intros r.
  - intros ru. dif; [intros ->; right; split; [congruence|done]|].
    rewrite lookup_key_assign by done. dif; [intros [= <-]; by left|]. by right.
  - rewrite lookup_key_assign by done. dif; [by right|by left].
Qed.

Lemma progress_cfa s e rule s' :
  tracked s e -> distinct_names (handler_ s) -> (set_cfa_rule rule;; handle rule kCFARegister) s = Ok (Some tt, s') -> exists e', progress s s' e e'.
Proof. intros Ht Hd E. eapply (tell_progress s e (SetCFARule (rules_ s) rule)); [done|done|exact E|apply changes_cfa]. Qed.

Lemma progress_DoRule s e reg rule s' :
  tracked s e -> nested s -> distinct_names (handler_ s) -> DoRule reg rule s = Ok (Some tt, s') -> exists e', progress s s' e e'.
Proof.
  intros Ht Hn Hd E. unfold DoRule in E. rewrite (bind_runs _ _ (get_runs s)) in E.
  apply bind_inv in E as [[? _]|(m & s1 & E1 & E)]; [done|]. unfold lift, mbind, outcome_bind in E1.
  destruct (SetRegisterRule _ _ _) as [m'| |] eqn:Em; [|done|done]. injection E1 as <- <-.
  eapply (tell_progress s e m'); [done|done|exact E|]. by apply changes_register; [apply ne_rules|].
Qed.

Lemma progress_trans s1 s2 s3 e1 e2 e3 :
  address_ s1 = address_ s2 -> progress s1 s2 e1 e2 -> progress s2 s3 e2 e3 -> address_ s2 = address_ s3 -> progress s1 s3 e1 e3.
Proof.
  intros E12 [A1 A2 A3 A4 A5] [B1 B2 B3 B4 B5] E23. split; [done|by etrans|destruct A3, B3; split; congruence| |lia].
  intros a n Ha. destruct A3 as [A3 _]. rewrite B4, A4; [done|done|lia].
Qed.

(** ** Restoring saved rules *)

Definition in_map (m : smap Rule) (r : Z) : Prop := exists ru, (r, ru) ∈ m.

Lemma handled_evolves here rule reg s o s' e :
  handled (Handle rule here reg) s = Ok (o, s') -> current_entry (handler_ s) = Some e ->
  o = Some tt /\ is_register reg /\ exists h' e', s' = set_handler h' s /\ evolves here (eq reg) (handler_ s) h' e e' /\
    (entry_upto here e -> in_force here (handler_ s) e' reg rule).
Proof.
  intros (ok & h' & E & -> & ->)%handled_runs He. apply Handle_evolves in E as (-> & Hr & e0 & e' & Hev & Hf).
  assert (e0 = e) as -> by (pose proof (ev_before _ _ _ _ _ _ Hev); congruence). split_and!; [done|done|]. by exists h', e'.
Qed.

(** What a merge of the rest of the two maps gives. *)
Definition merged (here : Z) (old new : smap Rule) s (o : option unit) s' (e : StackFrameEntry) : Prop :=
  o = Some tt /\ exists h' e', s' = set_handler h' s /\ evolves here (in_map old) (handler_ s) h' e e' /\
    forall r ru, (r, ru) ∈ new -> (forall ru', (r, ru') ∈ old -> in_force here (handler_ s) e r ru') -> in_force here (handler_ s) e' r ru.

(** A call for a register, and then the rest. *)
Lemma merged_step here reg rule rule0 old new new' s o s' s1 e :
  entry_upto here e -> distinct_names (handler_ s) -> current_entry (handler_ s) = Some e ->
  (forall r, in_map ((reg, rule0) :: old) r -> is_register r) -> (forall r, in_map old r -> reg < r) ->
  handled (Handle rule here reg) s = Ok (o, s1) ->
  (forall e1, current_entry (handler_ s1) = Some e1 -> entry_upto here e1 -> distinct_names (handler_ s1) -> merged here old new' s1 (Some tt) s' e1) ->
  (forall r ru, (r, ru) ∈ new -> r = reg /\ ru = rule \/ (r, ru) ∈ new' /\ reg < r) ->
  merged here ((reg, rule0) :: old) new s (Some tt) s' e.
Proof.
  intros Hu Hd He Hreg Hlt E Hrest Hnew. destruct (handled_evolves _ _ _ _ _ _ _ E He) as (_ & Hr & h1 & e1 & -> & Hev & Hf).
  specialize (Hf Hu). pose proof (ev_upto _ _ _ _ _ _ Hev Hu) as Hu1. pose proof (ev_names _ _ _ _ _ _ Hev) as Hn.
  assert (Hd1: distinct_names h1) by (intros r r' ? ?; rewrite !(same_names_name (handler_ s) h1) by done; by apply Hd).
  destruct (Hrest e1 (ev_after _ _ _ _ _ _ Hev) Hu1 Hd1) as (_ & h' & e' & -> & Hev' & Hf'). split; [done|]. exists h', e'.
  assert (Hin: forall r, in_map old r -> in_map ((reg, rule0) :: old) r) by (intros r [ru Hru]; exists ru; by right).
  split_and!; [done| |].
  - eapply evolves_trans; [eapply evolves_weaken; [|exact Hev]|eapply evolves_weaken; [|exact Hev']]; cbn; [|done].
    intros r <-. exists rule0. by left.
  - intros r ru Hru Hold. destruct (Hnew r ru Hru) as [[-> ->]|[Hru' Hlt']].
    + apply in_force_names with (h := h1) in Hf; [|by destruct Hn as (? & ? & ?)].
      apply in_force_names with (h := h1); [by destruct Hn as (? & ? & ?)|].
      eapply (in_force_other _ _ _ _ _ _ _ _ Hev'); try done. intros r' Hr'. split; [by apply Hreg, Hin|]. apply Hlt in Hr'. lia.
    + apply in_force_names with (h := h1); [by destruct Hn as (? & ? & ?)|]. apply Hf'; [done|]. intros ru' Hru0.
      apply in_force_names with (h := handler_ s); [done|]. eapply (in_force_other _ _ _ _ _ _ _ _ Hev); try done.
      * apply Hreg. exists ru'. by right.
      * intros r' <-. split; [done|lia].
      * apply Hold. by right.
Qed.

(** The call of the handler inside [ (call);; (rest) ] succeeds; what the rest starts from. *)
Lemma handled_next {B} here rule reg (rest : unit -> St state B) s o s' e :
  entry_upto here e -> distinct_names (handler_ s) -> current_entry (handler_ s) = Some e ->
  (handled (Handle rule here reg) ≫= rest) s = Ok (o, s') ->
  exists s1 e1, handled (Handle rule here reg) s = Ok (Some tt, s1) /\ rest tt s1 = Ok (o, s') /\
    current_entry (handler_ s1) = Some e1 /\ entry_upto here e1 /\ distinct_names (handler_ s1).
Proof.
  intros Hu Hd He [[-> E]|([] & s1 & E1 & E2)]%bind_inv; [by destruct (handled_evolves here rule _ _ _ _ _ E He)|].
  destruct (handled_evolves here rule _ _ _ _ _ E1 He) as (_ & _ & h1 & e1 & -> & Hev & _).
  exists (set_handler h1 s), e1. split_and!; [done|done|apply Hev|by apply (ev_upto _ _ _ _ _ _ Hev)|].
  intros x x' ? ?. cbn. rewrite !(same_names_name (handler_ s) h1) by apply Hev. by apply Hd.
Qed.

Lemma register_transitions_merged here old : forall new s o s' e,
  sorted old -> sorted new -> entry_upto here e -> distinct_names (handler_ s) -> current_entry (handler_ s) = Some e ->
  (forall r, in_map old r -> is_register r) ->
  register_transitions here old new s = Ok (o, s') -> merged here old new s o s' e.
Proof.
  induction old as [|[r rule] old IH]; intros [|[r' rule'] new] s o s' e Ho Hn Hu Hd He Hreg; cbn [register_transitions].
  - intros [= <- <-]. split; [done|]. exists (handler_ s), e. split_and!; [by destruct s|by apply evolves_refl|by intros ? ? ?%not_elem_of_nil].
  - done.
  - apply sorted_cons in Ho as [Hlo Ho].
    assert (Hlt: forall x, in_map old x -> r < x) by (intros x [ru Hru]; by eapply Hlo).
    assert (Hreg': forall x, in_map old x -> is_register x) by (intros x [ru Hru]; apply Hreg; exists ru; by right).
    intros (s1 & e1 & E1 & E2 & He1 & Hu1 & Hd1)%(handled_next here SameValueRule r _ _ _ _ e); [|done..].
    assert (o = Some tt) as -> by exact (proj1 (IH _ _ _ _ e1 Ho Hn Hu1 Hd1 He1 Hreg' E2)).
    eapply (merged_step here r SameValueRule rule old [] []); try done.
    + intros e2 He2 Hu2 Hd2. by apply IH.
    + by intros ? ? ?%not_elem_of_nil.
  - pose proof Ho as [Hlo Ho']%sorted_cons. pose proof Hn as [Hln Hn']%sorted_cons.
    assert (Hlt: forall x, in_map old x -> r < x) by (intros x [ru Hru]; by eapply Hlo).
    assert (Hreg': forall x, in_map old x -> is_register x) by (intros x [ru Hru]; apply Hreg; exists ru; by right).
    dif; [|dif; [done|]].
    + intros (s1 & e1 & E1 & E2 & He1 & Hu1 & Hd1)%(handled_next here SameValueRule r _ _ _ _ e); [|done..].
      assert (o = Some tt) as -> by exact (proj1 (IH _ _ _ _ e1 Ho' Hn Hu1 Hd1 He1 Hreg' E2)).
      eapply (merged_step here r SameValueRule rule old _ ((r', rule') :: new)); try done.
      * intros e2 He2 Hu2 Hd2. by apply IH.
      * intros x ru Hx. right. split; [done|]. apply elem_of_cons in Hx as [[= -> ->]|Hx]; [lia|]. apply Hln in Hx. lia.
    + assert (r = r') as <- by lia. destruct (rule_eqb rule rule') eqn:Eq.
      * apply bool_decide_eq_true in Eq as <-. intros [[_ ?]|([] & s1 & [= <-] & E2)]%bind_inv; [done|].
        destruct (IH _ _ _ _ e Ho' Hn' Hu Hd He Hreg' E2) as (-> & h' & e' & -> & Hev & Hf). split; [done|]. exists h', e'. split_and!; [done| |].
        -- eapply evolves_weaken; [|exact Hev]. intros x [ru Hru]. exists ru. by right.
        -- intros x ru [[= -> ->]|Hx]%elem_of_cons Hold.
           ++ eapply in_force_other; [exact Hev|done|done| | |by apply Hold; left].
              ** apply Hreg. exists rule. by left.
              ** intros x Hx. split; [by apply Hreg'|]. apply Hlt in Hx. lia.
           ++ apply Hf; [done|]. intros ru' Hru'. apply Hold. by right.
      * intros (s1 & e1 & E1 & E2 & He1 & Hu1 & Hd1)%(handled_next here rule' r _ _ _ _ e); [|done..].
        assert (o = Some tt) as -> by exact (proj1 (IH _ _ _ _ e1 Ho' Hn' Hu1 Hd1 He1 Hreg' E2)).
        eapply (merged_step here r rule' rule old _ new); try done.
        -- intros e2 He2 Hu2 Hd2. by apply IH.
        -- intros x ru [[= -> ->]|Hx]%elem_of_cons; [by left|]. right. split; [done|]. by eapply Hln.
Qed.

(** The rule of the CFA, before the registers. *)
Lemma cfa_transition_evolves here old new (rest : unit -> St state unit) s o s' e :
  entry_upto here e -> distinct_names (handler_ s) -> current_entry (handler_ s) = Some e ->
  (forall ru, old = Some ru -> in_force here (handler_ s) e kCFARegister ru) -> (is_Some old -> is_Some new) ->
  (cfa_transition here old new ≫= rest) s = Ok (o, s') ->
  exists h1 e1, rest tt (set_handler h1 s) = Ok (o, s') /\ evolves here (eq kCFARegister) (handler_ s) h1 e e1 /\
    forall ru, new = Some ru -> in_force here (handler_ s) e1 kCFARegister ru.
Proof.
  intros Hu Hd He Hold Hcfa E.
  assert (Hskip: new = old -> rest tt s = Ok (o, s') -> exists h1 e1, rest tt (set_handler h1 s) = Ok (o, s') /\
    evolves here (eq kCFARegister) (handler_ s) h1 e e1 /\ forall ru, new = Some ru -> in_force here (handler_ s) e1 kCFARegister ru).
  { intros -> Er. exists (handler_ s), e. split_and!; [by destruct s|by apply evolves_refl|done]. }
  unfold cfa_transition in E. destruct old as [c|], new as [c'|].
  - destruct (rule_eqb c c') eqn:Eq.
    + apply bool_decide_eq_true in Eq as <-. apply bind_inv in E as [[_ ?]|([] & s1 & [= <-] & E2)]; [done|]. by apply Hskip.
    + apply (handled_next here c' kCFARegister _ _ _ _ e) in E as (s1 & e1 & E1 & E2 & _); [|done..].
      destruct (handled_evolves here c' _ _ _ _ _ E1 He) as (_ & _ & h1 & e2 & -> & Hev & Hf). exists h1, e2. split_and!; [done|done|].
      intros ru [= <-]. by apply Hf.
  - by destruct Hcfa.
  - by apply bind_inv in E as [[_ ?]|([] & s1 & E1 & E2)].
  - apply bind_inv in E as [[_ ?]|([] & s1 & [= <-] & E2)]; [done|]. by apply Hskip.
Qed.

Lemma transition_progress s e m saved o s' :
  tracked s e -> nested s -> distinct_names (handler_ s) -> map_sorted m -> extends (rules_ s) m ->
  (is_Some (cfa_rule_ (rules_ s)) -> is_Some (cfa_rule_ m)) ->
  HandleTransitionTo (rules_ s) (address_ s) m s = Ok (o, s') ->
  exists e', progress s (set_saved saved (set_rules m s')) e e'.
Proof.
  intros Ht Hn Hd Hm [Hec Her] Hcfa Et. pose proof (tk_upto _ _ Ht) as Hu. pose proof (ne_rules _ Hn) as Hns.
  assert (Hold: forall r, in_map (registers_ (rules_ s)) r -> 0 <= r).
  { intros r [ru Hru]. apply (tk_registers _ _ Ht). exists ru. by apply lookup_key_Some. }
  apply (cfa_transition_evolves _ _ _ _ _ _ _ e) in Et as (h1 & e1 & Et & Hev1 & Hf1); [|done|done|apply Ht| |done].
  2:{ intros ru Hru. by apply (tk_in_force _ _ Ht). }
  pose proof (ev_names _ _ _ _ _ _ Hev1) as Hs1. pose proof (ev_upto _ _ _ _ _ _ Hev1 Hu) as Hu1.
  assert (Hd1: distinct_names (handler_ (set_handler h1 s))) by (intros x x' ? ?; cbn; rewrite !(same_names_name (handler_ s) h1) by done; by apply Hd).
  destruct (register_transitions_merged _ _ _ _ _ _ e1 Hns Hm Hu1 Hd1 (ev_after _ _ _ _ _ _ Hev1) ltac:(intros r Hr; left; by apply Hold) Et)
    as (_ & h2 & e2 & -> & Hev2 & Hf2). cbn in Hev2, Hf2, Hd1.
  pose proof (ev_names _ _ _ _ _ _ Hev2) as Hs2. assert (Hs: same_names (handler_ s) h2) by (by etrans).
  exists e2. split; cbn.
  - split; cbn; [apply Hev2|by apply (ev_upto _ _ _ _ _ _ Hev2)|intros r Hr; by apply (tk_registers _ _ Ht), Her|].
    intros r ru Hru. apply in_force_names with (h := h1); [done|]. unfold has_rule in Hru. destruct (r =? kCFARegister) eqn:Er; breflect.
    + subst r. eapply (in_force_other _ _ _ _ _ _ _ _ Hev2); [done|done|by right| |by apply (in_force_names _ _ _ _ _ _ Hs1), Hf1].
      intros r Hr%Hold. split; [by left|]. unfold kCFARegister. lia.
    + apply Hf2; [by apply lookup_key_Some|]. intros ru' Hru'. apply (in_force_names _ _ _ _ _ _ Hs1).
      assert (Hrule: has_rule (rules_ s) r ru') by (unfold has_rule; rewrite (proj2 (Z.eqb_neq _ _)) by done; by apply lookup_key_Some).
      eapply (in_force_other _ _ _ _ _ _ _ _ Hev1); [done|done|by eapply (tracked_register s e)| |by apply (tk_in_force _ _ Ht)].
      intros r' <-. split; [by right|done].
  - done.
  - destruct (ev_start _ _ _ _ _ _ Hev1), (ev_start _ _ _ _ _ _ Hev2). split; congruence.
  - intros a n Ha. destruct (ev_start _ _ _ _ _ _ Hev1) as [Es _].
    rewrite (ev_past _ _ _ _ _ _ Hev2), (ev_past _ _ _ _ _ _ Hev1); [done|done|done|done|by rewrite Es].
  - lia.
Qed.

Lemma progress_RestoreState entry s e s' :
  tracked s e -> nested s -> distinct_names (handler_ s) -> RestoreState entry s = Ok (Some tt, s') -> exists e', progress s s' e e'.
Proof.
  intros Ht Hn Hd E. unfold RestoreState in E. rewrite (bind_runs _ _ (get_runs s)) in E.
  pose proof Hn as [N1 _ N3 N4]. destruct (saved_rules_ s) as [|m saved]; [done|].
  apply Forall_cons in N3 as [Hm _]. destruct N4 as [He _].
  assert (Hgo: (ignoring (HandleTransitionTo (rules_ s) (address_ s) m);; modify (set_rules m);; modify (set_saved saved)) s = Ok (Some tt, s') ->
    (is_Some (cfa_rule_ (rules_ s)) -> is_Some (cfa_rule_ m)) -> exists e', progress s s' e e').
  2:{ destruct (cfa_rule_ (rules_ s)), (cfa_rule_ m); try done; apply Hgo; try done; by intros [? ?]. }
  clear E. intros E Hcfa. apply bind_inv in E as [[? _]|([] & s2 & E2 & E)]; [done|]. injection E as <-.
  unfold ignoring, mbind, outcome_bind in E2. destruct (HandleTransitionTo _ _ _ s) as [[o s3]| |] eqn:Et; [|done|done]. injection E2 as <-.
  by eapply transition_progress.
Qed.

(** ** Every action *)

Lemma progress_idle s e s' :
  tracked s e -> handler_ s' = handler_ s -> rules_ s' = rules_ s -> address_ s <= address_ s' -> progress s s' e e.
Proof.
  intros [T1 T2 T3 T4] Eh Er Ea. split; rewrite ?Eh; try done.
  split; rewrite ?Eh, ?Er; [done|by eapply entry_upto_later|done|]. intros r ru Hru t a Et Ha. apply (T4 r ru Hru); [done|lia].
Qed.

Lemma progress_self s e : tracked s e -> progress s s e e.
Proof. intros Ht. apply progress_idle; done || lia. Qed.

Lemma DoRule_address reg rule s o s' : DoRule reg rule s = Ok (o, s') -> address_ s' = address_ s.
Proof.
  intros E. symmetry. assert (Hpre: PreOrder (λ s s' : state, address_ s = address_ s')).
  { split; [intros x; reflexivity|]. intros x y z Hxy Hyz. congruence. }
  assert (Hk: keeps (λ s s' : state, address_ s = address_ s') (DoRule reg rule)) by (apply keeps_DoRule; first [exact _|done]).
  exact (Hk _ _ _ E).
Qed.

Lemma progress_do_rules rules : forall s e s',
  tracked s e -> nested s -> distinct_names (handler_ s) -> do_rules rules s = Ok (Some tt, s') ->
  exists e', progress s s' e e' /\ address_ s' = address_ s.
Proof.
  induction rules as [|[reg rule] rules IH]; intros s e s' Ht Hn Hd; cbn [do_rules].
  - intros [= <-]. exists e. split; [by apply progress_self|done].
  - intros [[? _]|([] & s1 & E1 & E2)]%bind_inv; [done|]. pose proof (DoRule_address _ _ _ _ _ E1) as Ea.
    destruct (progress_DoRule _ _ _ _ _ Ht Hn Hd E1) as (e1 & P1).
    assert (Hd1: distinct_names (handler_ s1)).
    { intros x x' ? ?. rewrite !(same_names_name (handler_ s) (handler_ s1)) by apply P1. by apply Hd. }
    destruct (IH s1 e1 s') as (e' & P2 & Ea2); [apply P1|by eapply nested_DoRule|done|done|].
    exists e'. split; [|congruence]. eapply progress_trans; [by symmetry|exact P1|exact P2|done].
Qed.

Lemma perform_progress reader entry cie act s e s' :
  tracked s e -> nested s -> distinct_names (handler_ s) -> address_ s <= address_ s' ->
  perform reader entry cie act s = Ok (Some tt, s') -> exists e', progress s s' e e'.
Proof.
  intros Ht Hn Hd Ha E. destruct act; cbn [perform] in E; unfold modify in E.
  - injection E as <-. exists e. by apply progress_idle.
  - injection E as <-. exists e. by apply progress_idle.
  - by eapply progress_cfa.
  - unfold DoDefCFARegister in E. rewrite (bind_runs _ _ (get_runs s)) in E. destruct (cfa_rule_ (rules_ s)); [by eapply progress_cfa|done].
  - unfold DoDefCFAOffset in E. rewrite (bind_runs _ _ (get_runs s)) in E. destruct (cfa_rule_ (rules_ s)); [by eapply progress_cfa|done].
  - by eapply progress_cfa.
  - by eapply progress_DoRule.
  - unfold with_cfa in E. rewrite (bind_runs _ _ (get_runs s)) in E. destruct (cfa_rule_ (rules_ s)); [by eapply progress_DoRule|done].
  - unfold DoRestore in E. destruct (e_kind entry); try done;
      rewrite (bind_runs _ _ (get_runs s)) in E; apply bind_inv in E as [[? _]|(ru & s1 & E1 & E)]; try done;
      unfold lift, mbind, outcome_bind in E1; destruct (GetRegisterRule _ _); try done; injection E1 as <- <-; by eapply progress_DoRule.
  - injection E as <-. exists e. by apply progress_idle.
  - by eapply progress_RestoreState.
  - destruct (progress_do_rules _ _ _ _ Ht Hn Hd E) as (e' & P & _). by exists e'.
  - injection E as <-. exists e. by apply progress_self.
Qed.

Lemma parsed_tracked s t e : parsed s t -> tracked s e -> tracked t e.
Proof. intros [_ ->] [T1 T2 T3 T4]. by split. Qed.

Lemma DoInstruction_progress section reader entry cie s e s' :
  tracked s e -> nested s -> distinct_names (handler_ s) -> address_ s <= address_ s' ->
  DoInstruction section reader entry cie s = Ok (Some tt, s') -> exists e', progress s s' e e'.
Proof.
  intros Ht Hn Hd Ha E. apply DoInstruction_performs in E as [_ [[? _]|(act & t & Hp & E)]]; [done|].
  pose proof (parsed_tracked _ _ _ Hp Ht) as Ht'. destruct Hp as [_ Et].
  assert (Hn': nested t) by (rewrite Et; by destruct Hn). assert (Eh: handler_ t = handler_ s) by (by rewrite Et).
  assert (Ea: address_ t = address_ s) by (by rewrite Et). rewrite <- Eh in Hd. rewrite <- Ea in Ha.
  destruct (perform_progress _ _ _ _ _ _ _ Ht' Hn' Hd Ha E) as (e' & [P1 P2 P3 P4 P5]). rewrite Eh in P2. rewrite Ea in P4, P5.
  exists e'. by split.
Qed.

(** ** The table *)

(** An instruction of a CIE or an FDE that succeeds and does not go back. *)
Inductive row_step : state -> state -> Prop :=
| step_instruction section reader entry cie s s' :
    DoInstruction section reader entry cie s = Ok (Some tt, s') -> address_ s <= address_ s' -> row_step s s'
| step_enter s cursor : row_step s (set_cursor cursor s)
| step_cie s : row_step s (set_cie_rules (rules_ s) s).

Lemma row_step_progress s e s' :
  row_step s s' -> tracked s e -> nested s -> distinct_names (handler_ s) ->
  nested s' /\ distinct_names (handler_ s') /\ address_ s <= address_ s' /\ exists e', progress s s' e e'.
Proof.
  intros Hst Ht Hn Hd. assert (Hsame: forall e', progress s s' e e' -> distinct_names (handler_ s')).
  { intros e' P x x' ? ?. rewrite !(same_names_name (handler_ s) (handler_ s')) by apply P. by apply Hd. }
  destruct Hst as [sec rd en ci s s' E Ha|s c|s].
  - destruct (DoInstruction_progress _ _ _ _ _ _ _ Ht Hn Hd Ha E) as (e' & P).
    split_and!; [by eapply nested_DoInstruction|by eapply Hsame|done|by exists e'].
  - assert (P: progress s (set_cursor c s) e e) by (apply progress_idle; done || (cbn; lia)).
    split_and!; [by destruct Hn|done|cbn; lia|by exists e].
  - assert (P: progress s (set_cie_rules (rules_ s) s) e e) by (apply progress_idle; done || (cbn; lia)).
    split_and!; [destruct Hn; by split|done|cbn; lia|by exists e].
Qed.

Lemma row_steps_progress s s' : rtc row_step s s' -> forall e,
  tracked s e -> nested s -> distinct_names (handler_ s) ->
  nested s' /\ distinct_names (handler_ s') /\ exists e', tracked s' e' /\ same_names (handler_ s) (handler_ s') /\
    entry_address e' = entry_address e /\ entry_size e' = entry_size e /\
    forall a name, entry_address e <= a < address_ s -> rules_at e' a name = rules_at e a name.
Proof.
  induction 1 as [s|s s1 s' Hst _ IH]; intros e Ht Hn Hd.
  - split_and!; [done|done|]. exists e. split_and!; done.
  - destruct (row_step_progress _ _ _ Hst Ht Hn Hd) as (Hn1 & Hd1 & Ha & e1 & [P1 P2 [P3 P3'] P4 P5]).
    destruct (IH e1 P1 Hn1 Hd1) as (Hn' & Hd' & e' & Ht' & Hs & E1 & E2 & Hp). split_and!; [done|done|].
    exists e'. split_and!; [done|by etrans|congruence|congruence|]. intros a n Han. rewrite Hp, P4; [done|lia|lia].
Qed.

(** The state in which an entry starts: the handler has just been told of it. *)
Definition starts (names : list cstring) (start size return_address : Z) s : Prop :=
  exists h offset version augmentation reports,
    register_names_ h = names /\ EntryOf offset start size version augmentation return_address h = Ok (true, handler_ s) /\
    s = mkCfiState (handler_ s) reports start 0 RuleMap_new RuleMap_new [].

Lemma starts_tracked names start size ra s :
  starts names start size ra s ->
  nested s /\ register_names_ (handler_ s) = names /\ return_address_ (handler_ s) = ra /\
  exists e, tracked s e /\ entry_address e = start /\ entry_size e = size.
Proof.
  intros (h & off & ver & aug & rep & En & E & Es). unfold EntryOf in E. destruct (current_entry h) as [e|]; [done|].
  injection E as E. rewrite Es. cbn. rewrite <- E. cbn. split_and!; [split; cbn; [apply sorted_nil|apply sorted_nil|constructor|done]|done|done|].
  refine (ex_intro _ (mkStackFrameEntry start size _ []) _). split_and!; [|done|done]. split; cbn; [reflexivity| |by intros r [? ?]|].
  - split; cbn; [|apply sorted_nil|lia|by intros ? ? ?%not_elem_of_nil].
    destruct (register_names_ h !! _); repeat constructor.
  - intros r ru Hru. unfold has_rule in Hru. cbn in Hru. by destruct (r =? kCFARegister).
Qed.

(** ** Register tables whose names are distinct *)

Definition good_name (name : cstring) : bool :=
  negb (starts_with (lit ".") name) && negb (starts_with (lit "unnamed_register") name).

Definition names_ok (names : list cstring) : bool :=
  let named := filter (λ n, n <> []) names in bool_decide (NoDup named) && forallb good_name named.

Lemma unnamed_register_inj r r' : 0 <= r -> 0 <= r' -> unnamed_register r = unnamed_register r' -> r = r'.
Proof.
  intros Hr Hr' E. apply app_inv_head in E.
  destruct (print_num_digits 10 r ltac:(lia) Hr) as (_ & _ & E1), (print_num_digits 10 r' ltac:(lia) Hr') as (_ & _ & E2).
  unfold print_dec in E. congruence.
Qed.

Lemma known_name_spec h reg name :
  known_name h reg = Some name -> register_names_ h !! Z.to_nat reg = Some name /\ name <> [].
Proof. unfold known_name. destruct (_ !! _) as [[|c n]|]; intros [= <-]. by split. Qed.

Lemma filter_lookup_inj (names : list cstring) i j name :
  NoDup (filter (λ n, n <> []) names) -> names !! i = Some name -> names !! j = Some name -> name <> [] -> i = j.
Proof.
  revert i j. induction names as [|n names IH]; [done|]. intros [|i] [|j] Hnd Hi Hj Hne; rewrite filter_cons in Hnd; cbn in Hi, Hj; try done.
  - exfalso. injection Hi as ->. rewrite decide_True in Hnd by done. apply NoDup_cons in Hnd as [Hn _]. apply Hn.
    apply list_elem_of_filter. split; [done|]. by eapply list_elem_of_lookup_2.
  - exfalso. injection Hj as ->. rewrite decide_True in Hnd by done. apply NoDup_cons in Hnd as [Hn _]. apply Hn.
    apply list_elem_of_filter. split; [done|]. by eapply list_elem_of_lookup_2.
  - f_equal. apply IH; [|done|done|done]. case_decide; [by apply NoDup_cons in Hnd as [_ ?]|done].
Qed.

Lemma good_known h reg name : names_ok (register_names_ h) = true -> known_name h reg = Some name -> good_name name = true.
Proof.
  intros [_ Hg]%andb_true_iff [Hl Hne]%known_name_spec. rewrite forallb_forall in Hg. apply Hg. apply list_elem_of_In.
  apply list_elem_of_filter. split; [done|]. by eapply list_elem_of_lookup_2.
Qed.

Lemma starts_with_prefix (p t : cstring) : starts_with p (p ++ t) = true.
Proof. induction p as [|c p IH]; [done|]. cbn. by rewrite Ascii.eqb_refl. Qed.

Lemma distinct_names_ok h : names_ok (register_names_ h) = true -> distinct_names h.
Proof.
  intros Hok. pose proof Hok as [Hnd _]%andb_true_iff. apply bool_decide_eq_true in Hnd.
  (* the names by where they come from *)
  assert (Hk: forall r name, known_name h r = Some name -> name <> cfa_name_ /\ name <> ra_name_ /\ forall r', name <> unnamed_register r').
  { intros r name Hn. apply good_known in Hn; [|done]. unfold good_name in Hn. apply andb_true_iff in Hn as [H1 H2].
    apply negb_true_iff in H1, H2. split_and!; [by intros ->|by intros ->|]. intros r' ->. unfold unnamed_register in H2. by rewrite starts_with_prefix in H2. }
  assert (Hu: forall r, unnamed_register r <> cfa_name_ /\ unnamed_register r <> ra_name_) by done.
  intros r r' Hr Hr'. unfold name_of.
  assert (Hneg: forall x, is_register x -> x <? 0 = true -> x = kCFARegister) by (intros x [?|?] ?; breflect; lia || done).
  destruct (r <? 0) eqn:E1, (r' <? 0) eqn:E2.
  - intros _. by rewrite (Hneg r Hr E1), (Hneg r' Hr' E2).
  - destruct (r' =? return_address_ h); [done|]. destruct (known_name h r') eqn:Ek; cbn; intros E; exfalso.
    + destruct (Hk _ _ Ek) as (Hn & _). by apply Hn.
    + by destruct (Hu r') as [Hn _]; apply Hn.
  - destruct (r =? return_address_ h); [done|]. destruct (known_name h r) eqn:Ek; cbn; intros E; exfalso.
    + destruct (Hk _ _ Ek) as (Hn & _). by apply Hn.
    + by destruct (Hu r) as [Hn _]; apply Hn.
  - breflect. destruct (r =? return_address_ h) eqn:F1, (r' =? return_address_ h) eqn:F2; breflect; [by subst| | |].
    + destruct (known_name h r') eqn:Ek; cbn; intros E; exfalso; [destruct (Hk _ _ Ek) as (_ & Hn & _); by apply Hn|].
      by destruct (Hu r') as [_ Hn]; apply Hn.
    + destruct (known_name h r) eqn:Ek; cbn; intros E; exfalso; [destruct (Hk _ _ Ek) as (_ & Hn & _); by apply Hn|].
      by destruct (Hu r) as [_ Hn]; apply Hn.
    + destruct (known_name h r) as [n|] eqn:K1, (known_name h r') as [n'|] eqn:K2; cbn; intros E.
      * subst n'. apply known_name_spec in K1 as [L1 Hne], K2 as [L2 _]. pose proof (filter_lookup_inj _ _ _ _ Hnd L1 L2 Hne). lia.
      * exfalso. destruct (Hk _ _ K1) as (_ & _ & Hn). by apply (Hn r').
      * exfalso. destruct (Hk _ _ K2) as (_ & _ & Hn). by apply (Hn r).
      * by apply unnamed_register_inj.
Qed.

(** Only the table for ARM has a name twice: registers 16-23 and 96-103 are f0-f7. *)
Lemma tables_ok :
  Forall (λ names, names_ok names = true) [RegisterNames_I386; RegisterNames_X86_64; RegisterNames_ARM64; RegisterNames_MIPS] /\
  names_ok RegisterNames_ARM = false.
Proof. split; [repeat constructor|]; vm_compute; reflexivity. Qed.

(** What is in force after some steps is what the entry has from there on. *)
Lemma row_recorded (names : list cstring) (start size return_address : Z) (s0 s1 s2 : CfiState DwarfCFIToModule) (a : Z) :
  starts names start size return_address s0 -> names_ok names = true ->
  rtc row_step s0 s1 -> address_ s1 <= a ->
  (s1 = s2 \/ exists s1', row_step s1 s1' /\ a < address_ s1' /\ rtc row_step s1' s2) ->
  exists e, current_entry (handler_ s2) = Some e /\ entry_address e = start /\ entry_size e = size /\
    forall reg rule, has_rule (rules_ s1) reg rule ->
      is_register reg /\ forall text, rule_text (handler_ s0) reg rule = Some text -> rules_at e a (name_of (handler_ s0) reg) = Some text.
Proof.
  intros Hst Hok H01 Ha H12. destruct (starts_tracked _ _ _ _ _ Hst) as (Hn0 & En & _ & e0 & Ht0 & Es & Ez).
  assert (Hd0: distinct_names (handler_ s0)) by (apply distinct_names_ok; by rewrite En).
  destruct (row_steps_progress _ _ H01 _ Ht0 Hn0 Hd0) as (Hn1 & Hd1 & e1 & Ht1 & Hs1 & Es1 & Ez1 & _).
  assert (Hnow: forall reg rule, has_rule (rules_ s1) reg rule ->
    is_register reg /\ forall text, rule_text (handler_ s0) reg rule = Some text -> rules_at e1 a (name_of (handler_ s0) reg) = Some text).
  { intros reg rule Hru. split; [by eapply (tracked_register s1 e1)|]. intros t Et. pose proof (tk_in_force _ _ Ht1 reg rule Hru) as Hf.
    apply (in_force_names _ (handler_ s0)) in Hf; [|done]. by apply Hf. }
  destruct H12 as [<- | (s1' & Hstep & Hlt & H12)].
  - exists e1. split_and!; [apply Ht1|congruence|congruence|done].
  - destruct (row_step_progress _ _ _ Hstep Ht1 Hn1 Hd1) as (Hn1' & Hd1' & _ & e1' & [Pt _ _ _ Pm]).
    rewrite Pm in Pt by lia. destruct (row_steps_progress _ _ H12 _ Pt Hn1' Hd1') as (_ & _ & e2 & Ht2 & _ & Es2 & Ez2 & Hp).
    exists e2. split_and!; [apply Ht2|congruence|congruence|]. intros reg rule Hru.
    destruct (Hnow reg rule Hru) as [Hr Ht]. split; [done|]. intros t Et. rewrite Hp; [by apply Ht|].
    pose proof (eu_start _ _ (tk_upto _ _ Ht1)). lia.
Qed.

(** C12: DWARF call frame information and STACK CFI records.  [DwarfCFIToModule] is told of a
    description entry, and instructions of its CIE and FDE succeed without going back in the
    code.  Then at every address [a] the records of the entry say, for the CFA and for every
    register, what the rules in force at [a] say: those after the last instruction that
    applies at [a].  Rules that STACK CFI cannot express (undefined, expressions) are
    excepted. *)
Theorem cfi_table (names : list cstring) (start size return_address : Z) (s0 s1 s2 : CfiState DwarfCFIToModule) (a : Z) :
  starts names start size return_address s0 -> names_ok names = true ->
  rtc row_step s0 s1 -> address_ s1 <= a ->
  (s1 = s2 \/ exists s1', row_step s1 s1' /\ a < address_ s1' /\ rtc row_step s1' s2) ->
  exists e, current_entry (handler_ s2) = Some e /\ entry_address e = start /\ entry_size e = size /\
    forall reg rule text, has_rule (rules_ s1) reg rule -> rule_text (handler_ s0) reg rule = Some text ->
      rules_at e a (name_of (handler_ s0) reg) = Some text.
Proof.
  intros Hst Hok H01 Ha H12. destruct (row_recorded names start size return_address s0 s1 s2 a Hst Hok H01 Ha H12) as (e & E1 & E2 & E3 & Hr).
  exists e. split_and!; [done..|]. intros reg rule t Hru. by apply Hr.
Qed.

(** ** Witness: a function that saves %rbp *)

Definition demo_fde : list Z := [0x0c; 7; 8; 0x90; 1; 0x41; 0x0e; 16; 0x86; 2; 0x43; 0x0d; 6].
Definition demo_started : CfiState DwarfCFIToModule :=
  mkCfiState (mkCFIToModule (DumpModule_new [] [] [] [] []) RegisterNames_X86_64 []
    (Some (mkStackFrameEntry 0x401000 0x10 [(ra_name_, lit "$rip")] [])) 0 16 []) [] 0x401000 0 RuleMap_new RuleMap_new [].

Fixpoint demo_rows (n : nat) : CfiState DwarfCFIToModule :=
  match n with
  | O => demo_started
  | S n => match DoInstruction demo_fde demo_reader (demo_entry 0 13) demo_cie (demo_rows n) with
           | Ok (Some _, s) => s
           | _ => demo_rows n
           end
  end.

Definition demo_forward (n : nat) : bool := forallb (λ k, address_ (demo_rows k) <=? address_ (demo_rows (S k))) (seq 0 n).

Lemma demo_rows_steps i n : demo_forward (i + n) = true -> rtc row_step (demo_rows i) (demo_rows (i + n)).
Proof.
  induction n as [|n IH]; [rewrite Nat.add_0_r; reflexivity|]. rewrite Nat.add_succ_r. unfold demo_forward. rewrite seq_S, forallb_app.
  intros [H1 H2]%andb_true_iff. etrans; [by apply IH|]. cbn [forallb] in H2. apply andb_true_iff in H2 as [H2 _]. apply Z.leb_le in H2. cbn in H2 |- *.
  destruct (DoInstruction _ _ _ _ (demo_rows (i + n))) as [[[[]|] s]| |] eqn:E; try reflexivity.
  apply rtc_once. by eapply step_instruction.
Qed.

(** After "def_cfa rsp 8; offset rip 1; advance 1; def_cfa_offset 16; offset rbp 2; advance 3;
    def_cfa_register rbp" the CFA at 0x401002 is "$rsp 16 +". *)
Lemma cfi_table_witness :
  exists e, current_entry (handler_ (demo_rows 7)) = Some e /\ rules_at e 0x401002 (lit ".cfa") = Some (lit "$rsp 16 +").
Proof.
  destruct (cfi_table RegisterNames_X86_64 0x401000 0x10 16 demo_started (demo_rows 5) (demo_rows 7) 0x401002) as (e & He & _ & _ & Hr).
  - exists (DwarfCFIToModule_new (DumpModule_new [] [] [] [] []) RegisterNames_X86_64), 0, 1, [], []. by split_and!.
  - vm_compute. reflexivity.
  - apply (demo_rows_steps 0 5). vm_compute. reflexivity.
  - vm_compute. discriminate.
  - right. exists (demo_rows 6). split_and!.
    + assert (E: DoInstruction demo_fde demo_reader (demo_entry 0 13) demo_cie (demo_rows 5) = Ok (Some tt, demo_rows 6)) by (vm_compute; reflexivity).
      eapply step_instruction; [exact E|vm_compute; discriminate].
    + vm_compute. reflexivity.
    + apply (demo_rows_steps 6 1). vm_compute. reflexivity.
  - exists e. split; [exact He|]. apply (Hr (-1) (ValOffsetRule 7 16)); vm_compute; reflexivity.
Defined.

(** ** The return address column

    A rule "same value" for the return address column says that the return address is
    itself, and a rule of another register that starts at the column cites [.ra]: STACK CFI
    gives neither a value. *)
Lemma same_value_of_return_address h : 0 <= return_address_ h ->
  rule_text h (return_address_ h) SameValueRule = Some (lit ".ra") /\ name_of h (return_address_ h) = lit ".ra".
Proof. intros Hr. unfold rule_text, name_of. by rewrite (proj2 (Z.ltb_ge _ _) Hr), Z.eqb_refl. Qed.
