(* ===== verification/DumpCfi.v ===== *)
(** From the dumper to the processor, STACK CFI records: the rules that
    [BasicSourceLineResolver] finds for an address are those the entry of the dumper's
    module has for it (common/module.cc, processor/basic_source_line_resolver.cc,
    cfi_frame_info.cc). *)
From Stdlib Require Import Ascii.
From stdpp Require Import strings sorting list.
From S2P Require Import Prelude StdMap RangeMap CStr StrMap MemoryRegion PostfixEvaluator CfiFrameInfo SymbolFile BasicResolver BasicInvariant SymbolLoad ResolverLookup DumpModule DumpWrite DumpLoad CfiTable.

(** ** The rules of a [CFIFrameInfo] by name *)

Definition nonempty (rule : cstring) : option cstring := match rule with [] => None | _ => Some rule end.

Definition info_rule (i : CFIFrameInfo) (name : cstring) : option cstring :=
  if str_eqb name (lit ".cfa") then nonempty (cfa_rule_ i)
  else if str_eqb name (lit ".ra") then nonempty (ra_rule_ i)
  else str_find (register_rules_ i) name.

Lemma is_rule_nonempty r : is_rule r -> r <> [].
Proof. intros (ws & Hne & Hws & ->). by apply join_nonempty. Qed.

Lemma str_eqb_sym a b : str_eqb a b = str_eqb b a.
Proof. unfold str_eqb. by apply bool_decide_ext. Qed.

Lemma info_rule_report i n r name :
  r <> [] -> str_sorted (register_rules_ i) ->
  str_sorted (register_rules_ (report1 i (n, r))) /\
  info_rule (report1 i (n, r)) name = if str_eqb n name then Some r else info_rule i name.
Proof.
  intros Hr Hs. assert (Hnr: nonempty r = Some r) by (by destruct r). unfold report1, info_rule. cbn [fst snd].
  destruct (str_eqb n (lit ".cfa")) eqn:E1; [apply str_eqb_spec in E1 as ->|destruct (str_eqb n (lit ".ra")) eqn:E2; [apply str_eqb_spec in E2 as ->|]].
  - split; [done|]. cbn [CFARule RARule RegisterRule CFIFrameInfoParseHandler SetCFARule SetRARule SetRegisterRule cfa_rule_ ra_rule_ register_rules_]. rewrite (str_eqb_sym name (lit ".cfa")). by destruct (str_eqb (lit ".cfa") name).
  - split; [done|]. cbn [CFARule RARule RegisterRule CFIFrameInfoParseHandler SetCFARule SetRARule SetRegisterRule cfa_rule_ ra_rule_ register_rules_]. rewrite (str_eqb_sym name (lit ".ra")).
    destruct (str_eqb (lit ".ra") name) eqn:E; [|done]. by apply str_eqb_spec in E as <-.
  - split; [by apply str_sorted_assign|]. cbn [CFARule RARule RegisterRule CFIFrameInfoParseHandler SetCFARule SetRARule SetRegisterRule cfa_rule_ ra_rule_ register_rules_]. rewrite str_find_assign by done.
    destruct (str_eqb n name) eqn:E; [|done]. apply str_eqb_spec in E as <-. by rewrite E1, E2.
Qed.

(** Rules that can be written and read. *)
Definition rules_ok (rules : strmap cstring) : Prop := rules <> [] /\ str_sorted rules /\ Forall rule_ok rules.

Lemma info_rule_reports rules : forall i,
  str_sorted rules -> Forall rule_ok rules -> str_sorted (register_rules_ i) ->
  str_sorted (register_rules_ (foldl report1 i rules)) /\
  forall name, info_rule (foldl report1 i rules) name =
    match str_find rules name with Some r => Some r | None => info_rule i name end.
Proof.
  induction rules as [|[n r] rules IH]; intros i Hs Hok Hi; [done|].
  apply str_sorted_cons in Hs as [Hlt Hs]. inversion Hok as [|? ? [_ Hr] Hok']; subst. cbn [snd] in Hr. cbn [foldl].
  pose proof (λ name, info_rule_report i n r name (is_rule_nonempty r Hr) Hi) as H1.
  destruct (IH (report1 i (n, r)) Hs Hok' (proj1 (H1 []))) as [H2 H3]. split; [done|].
  intros name. rewrite H3. destruct (H1 name) as [_ ->]. cbn [str_find].
  destruct (str_eqb n name) eqn:E; [|by destruct (str_find rules name)].
  apply str_eqb_spec in E as <-. destruct (str_find rules n) as [r'|] eqn:Ef; [|done].
  apply str_find_Some in Ef; [|done]. apply Hlt in Ef. by rewrite str_ltb_irrefl in Ef.
Qed.

(** The writer's text of a rule map is the text the parser's lemmas are about. *)
Lemma rule_map_text_join gs :
  Forall group_ok gs -> rule_map_text ((λ nr, (nr.1, join nr.2)) <$> gs) = join (rule_tokens gs).
Proof.
  unfold rule_map_text. induction 1 as [|[n ws] gs (Hn & Hne & Hws) Hgs IH]; [done|]. cbn [fst snd] in *.
  assert (E: n ++ lit ": " ++ join ws = join ((n ++ lit ":") :: ws)).
  { destruct ws as [|w ws]; [done|].
    change (join ((n ++ lit ":") :: w :: ws)) with ((n ++ lit ":") ++ SP :: join (w :: ws)). by rewrite <- app_assoc. }
  cbn [fmap list_fmap fst snd]. rewrite E. change (rule_tokens ((n, ws) :: gs)) with (((n ++ lit ":") :: ws) ++ rule_tokens gs).
  destruct gs as [|g gs]; [cbn; by rewrite app_nil_r|]. rewrite join_app by done. rewrite <- IH. done.
Qed.

Lemma parse_rule_map rules i :
  rules_ok rules -> str_sorted (register_rules_ i) ->
  exists i', Parse (rule_map_text rules) i = (true, i') /\ str_sorted (register_rules_ i') /\
    forall name, info_rule i' name = match str_find rules name with Some r => Some r | None => info_rule i name end.
Proof.
  intros (Hne & Hs & Hok) Hi. destruct (info_rule_reports rules i Hs Hok Hi) as [H1 H2].
  destruct (rules_groups rules Hok) as (gs & Hgs & E). eexists. split; [|split; [exact H1|exact H2]].
  rewrite E at 1. rewrite rule_map_text_join by done. rewrite Parse_groups; [by rewrite <- E|done|].
  intros ->. by rewrite E in Hne.
Qed.

(** ** Delta rules *)

Definition delta_text (m : DumpModule) (d : Z * strmap cstring) : Z * cstring := (rel m d.1, rule_map_text d.2).

Lemma apply_delta_rules m ds a : forall i name,
  Forall (λ d, rules_ok d.2) ds -> Forall (λ d, d.1 <= a) ds -> str_sorted (register_rules_ i) ->
  info_rule (foldl apply_delta i (delta_text m <$> ds)) name = changes_at ds a name (info_rule i name).
Proof.
  induction ds as [|[k rules] ds IH]; intros i name Hok Ha Hi; [done|].
  inversion Hok as [|? ? Hr Hok']; inversion Ha as [|? ? Hk Ha']; subst. cbn [fst snd] in *.
  destruct (parse_rule_map rules i Hr Hi) as (i' & E & Hi' & Hn). cbn [fmap list_fmap foldl].
  assert (apply_delta i (delta_text m (k, rules)) = i') as -> by (unfold apply_delta, ParseCFIRuleSet; cbn [snd delta_text]; by rewrite E).
  rewrite IH by done. cbn [changes_at]. rewrite (proj2 (Z.leb_le k a)) by done. by rewrite Hn.
Qed.

(** Changes after the address do not count. *)
Lemma changes_at_filter ds a name : forall r, changes_at (filter (λ d, d.1 <= a) ds) a name r = changes_at ds a name r.
Proof.
  induction ds as [|[k rules] ds IH]; intros r; [done|]. rewrite filter_cons. cbn [fst].
  case_decide; cbn [changes_at]; [by rewrite IH|]. rewrite IH. by rewrite (proj2 (Z.leb_gt k a)) by lia.
Qed.

(** *** The table of the loaded deltas *)

Lemma sorted_filter {V} (P : Z * V -> Prop) `{forall x, Decision (P x)} (l : smap V) : sorted l -> sorted (filter P l).
Proof.
  induction l as [|[k v] l IH]; intros Hs; [done|]. apply sorted_cons in Hs as [Hlt Hs]. rewrite filter_cons.
  case_decide; [|by apply IH]. apply sorted_cons. split; [|by apply IH].
  intros k' v' [_ Hin]%list_elem_of_filter. by eapply Hlt.
Qed.

Lemma sorted_deltas m (l : smap (strmap cstring)) :
  sorted l -> (forall d d', d ∈ l -> d' ∈ l -> d.1 < d'.1 -> rel m d.1 < rel m d'.1) -> sorted (delta_text m <$> l).
Proof.
  induction l as [|[k v] l IH]; intros Hs Hm; [constructor|]. apply sorted_cons in Hs as [Hlt Hs].
  cbn [fmap list_fmap]. apply sorted_cons. split.
  - intros k' v' (d & [= -> ->] & Hd)%list_elem_of_fmap. apply (Hm (k, v) d); [left|by right|]. destruct d. by eapply Hlt.
  - apply IH; [done|]. intros d d' Hd Hd'. apply Hm; by right.
Qed.

Lemma loaded_deltas_sorted m ds : forall t, sorted t -> sorted (loaded_deltas m ds t).
Proof. induction ds as [|d ds IH]; intros t Ht; [done|]. cbn [loaded_deltas foldl]. by apply IH, sorted_assign. Qed.

Lemma loaded_deltas_lookup m ds : forall t,
  sorted t -> (forall d d', d ∈ ds -> d' ∈ ds -> rel m d.1 = rel m d'.1 -> d.2 = d'.2) ->
  (forall d, d ∈ ds -> lookup_key (loaded_deltas m ds t) (rel m d.1) = Some (rule_map_text d.2)) /\
  (forall k, (forall d, d ∈ ds -> rel m d.1 <> k) -> lookup_key (loaded_deltas m ds t) k = lookup_key t k).
Proof.
  induction ds as [|d0 ds IH]; intros t Ht Hf; [split; [by intros d ?%not_elem_of_nil|done]|].
  change (loaded_deltas m (d0 :: ds) t) with (loaded_deltas m ds (assign t (rel m d0.1) (rule_map_text d0.2))).
  destruct (IH (assign t (rel m d0.1) (rule_map_text d0.2))) as [H1 H2].
  { by apply sorted_assign. }
  { intros d d' Hd Hd'. apply Hf; by right. }
  assert (Hk: forall k, lookup_key (assign t (rel m d0.1) (rule_map_text d0.2)) k =
    if k =? rel m d0.1 then Some (rule_map_text d0.2) else lookup_key t k) by (intros k; by apply lookup_key_assign).
  split.
  - intros d [->|Hd]%elem_of_cons; [|by apply H1].
    destruct (decide (Exists (λ d, rel m d.1 = rel m d0.1) ds)) as [(d & Hd & E)%Exists_exists|Hno].
    + pose proof (H1 d Hd) as L. rewrite E in L. rewrite L. f_equal. f_equal. apply Hf; [by right|left|done].
    + rewrite H2, Hk, Z.eqb_refl; [done|]. intros d Hd E. apply Hno, Exists_exists. by exists d.
  - intros k Hno. rewrite H2, Hk by (intros d Hd; apply Hno; by right).
    rewrite (proj2 (Z.eqb_neq _ _)); [done|]. intros ->. by apply (Hno d0); [left|].
Qed.

(** ** The entries of a module *)

Definition entry_extent (m : DumpModule) (e : StackFrameEntry) : Z * Z := (rel m (entry_address e), entry_size e).

(** An entry that can be written and read: its changes are inside the code it covers. *)
Record entry_ok (e : StackFrameEntry) : Prop := {
  eo_initial : rules_ok (initial_rules e);
  eo_sorted : sorted (rule_changes e);
  eo_changes a rules : (a, rules) ∈ rule_changes e -> entry_address e < a < entry_address e + entry_size e /\ rules_ok rules
}.

Lemma separate_unique {A} (f : A -> Z * Z) (l : list A) x y k :
  separate (f <$> l) -> x ∈ l -> y ∈ l -> within k (f x) -> within k (f y) -> x = y.
Proof.
  unfold within. intros [_ Hd]. induction l as [|z l IH]; [by intros ?%not_elem_of_nil|].
  cbn [fmap list_fmap] in Hd. inversion Hd as [|? ? Hz Hd']; subst. rewrite Forall_forall in Hz.
  assert (Hno: forall w, w ∈ l -> apart (f z) (f w)) by (intros w Hw; apply Hz, list_elem_of_fmap; by exists w).
  intros [->|Hx]%elem_of_cons [->|Hy]%elem_of_cons Hkx Hky; [done| | |by apply IH].
  - specialize (Hno y Hy). unfold apart in Hno. lia.
  - specialize (Hno x Hx). unfold apart in Hno. lia.
Qed.

Section entries.
Context (m : DumpModule) (Hsep : separate (entry_extent m <$> mod_stack_frame_entries m)).
Context (Hok : Forall entry_ok (mod_stack_frame_entries m)).

Lemma entry_proper e : e ∈ mod_stack_frame_entries m -> proper_range (entry_extent m e).
Proof. intros He. destruct Hsep as [Hp _]. rewrite Forall_forall in Hp. apply Hp, list_elem_of_fmap. by exists e. Qed.

(** An address in the code of an entry, relative to the module. *)
Lemma rel_inside e a :
  e ∈ mod_stack_frame_entries m -> entry_address e <= a < entry_address e + entry_size e ->
  rel m a = rel m (entry_address e) + (a - entry_address e).
Proof.
  intros He Ha. destruct (entry_proper e He) as (H1 & H2 & H3). cbn in H1, H2, H3. unfold rel in *.
  replace (a - mod_load_address m) with ((entry_address e - mod_load_address m) + (a - entry_address e)) by lia.
  unfold wrap in *. rewrite <- Zplus_mod_idemp_l. apply Z.mod_small. lia.
Qed.

Lemma delta_within e d : e ∈ mod_stack_frame_entries m -> d ∈ rule_changes e -> within (rel m d.1) (entry_extent m e).
Proof.
  intros He Hd. destruct d as [a rules]. rewrite Forall_forall in Hok. destruct (eo_changes e (Hok e He) a rules Hd) as [Ha _].
  unfold within. cbn [fst snd entry_extent]. rewrite (rel_inside e a He) by lia. lia.
Qed.

Lemma deltas_functional d d' :
  d ∈ mod_stack_frame_entries m ≫= rule_changes -> d' ∈ mod_stack_frame_entries m ≫= rule_changes ->
  rel m d.1 = rel m d'.1 -> d.2 = d'.2.
Proof.
  intros (e & Hd & He)%list_elem_of_bind (e' & Hd' & He')%list_elem_of_bind E.
  assert (e = e') as <-.
  { eapply (separate_unique (entry_extent m)); [done..|by apply delta_within|]. rewrite E. by apply delta_within. }
  destruct d as [a rs], d' as [a' rs']. cbn [fst snd] in *. rewrite Forall_forall in Hok. pose proof (Hok e He) as [_ Hs Hc].
  destruct (Hc a rs Hd) as [Ha _], (Hc a' rs' Hd') as [Ha' _].
  rewrite (rel_inside e a), (rel_inside e a') in E by (done || lia). assert (a' = a) as -> by lia.
  by eapply sorted_functional.
Qed.

(** The deltas from the start of an entry up to an address in it are its changes. *)
Lemma loaded_deltas_between e k (bm : BasicModule) :
  e ∈ mod_stack_frame_entries m -> within k (entry_extent m e) ->
  cfi_delta_rules_ bm = loaded_deltas m (mod_stack_frame_entries m ≫= rule_changes) [] ->
  deltas_between bm (rel m (entry_address e)) k =
  delta_text m <$> filter (λ d, d.1 <= entry_address e + (k - rel m (entry_address e))) (rule_changes e).
Proof.
  intros He [Hk1 Hk2] E. unfold deltas_between. rewrite E. cbn [fst snd entry_extent] in *.
  set (ds := mod_stack_frame_entries m ≫= rule_changes).
  destruct (loaded_deltas_lookup m ds [] ltac:(constructor) deltas_functional) as [L1 L2].
  assert (Hin: forall x, x ∈ loaded_deltas m ds [] <-> exists d, d ∈ ds /\ x = delta_text m d).
  { intros [c t]. rewrite <- lookup_key_Some by (by apply loaded_deltas_sorted, sorted_nil). split.
    - intros El. destruct (decide (Exists (λ d, rel m d.1 = c) ds)) as [(d & Hd & <-)%Exists_exists|Hno].
      + rewrite (L1 d Hd) in El. injection El as <-. by exists d.
      + rewrite L2 in El; [done|]. intros d Hd Ed. apply Hno, Exists_exists. by exists d.
    - intros (d & Hd & [= -> ->]). by apply L1. }
  pose proof (proj1 (Forall_forall _ _) Hok e He) as [_ Hs Hc].
  apply sorted_ext.
  - by apply sorted_filter, loaded_deltas_sorted, sorted_nil.
  - apply sorted_deltas; [by apply sorted_filter|]. intros [a rs] [a' rs'] [_ Hd]%list_elem_of_filter [_ Hd']%list_elem_of_filter Hlt.
    destruct (Hc a rs Hd) as [Ha _], (Hc a' rs' Hd') as [Ha' _]. cbn [fst] in *.
    rewrite (rel_inside e a), (rel_inside e a') by (done || lia). lia.
  - intros x. rewrite list_elem_of_filter, Hin. split.
    + intros [[Hb1 Hb2] (d & Hd & ->)]. cbn [fst delta_text] in Hb1, Hb2. apply list_elem_of_bind in Hd as (e' & Hd & He').
      assert (e' = e) as ->.
      { eapply (separate_unique (entry_extent m)); [done..|by apply delta_within|]. split; cbn; lia. }
      apply list_elem_of_fmap. exists d. split; [done|]. apply list_elem_of_filter. split; [|done].
      destruct d as [a rs]. destruct (Hc a rs Hd) as [Ha _]. cbn [fst] in *. rewrite (rel_inside e a) in Hb2 by (done || lia). lia.
    + intros (d & -> & [Ha Hd]%list_elem_of_filter)%list_elem_of_fmap. split.
      * destruct d as [a rs]. destruct (Hc a rs Hd) as [Ha' _]. cbn [fst delta_text] in *. rewrite (rel_inside e a) by (done || lia). lia.
      * exists d. split; [|done]. apply list_elem_of_bind. by exists e.
Qed.
End entries.

(** ** What the lookup finds *)

(** The rules of the last changes: the sorted table keeps its order. *)
Lemma foldl_delta_sorted ds m : forall i,
  Forall (λ d, rules_ok d.2) ds -> str_sorted (register_rules_ i) ->
  str_sorted (register_rules_ (foldl apply_delta i (delta_text m <$> ds))).
Proof.
  induction ds as [|[k rules] ds IH]; intros i Hok Hi; [done|]. inversion Hok as [|? ? Hr Hok']; subst. cbn [fst snd] in *.
  destruct (parse_rule_map rules i Hr Hi) as (i' & E & Hi' & _). cbn [fmap list_fmap foldl].
  assert (apply_delta i (delta_text m (k, rules)) = i') as -> by (unfold apply_delta, ParseCFIRuleSet; cbn [snd delta_text]; by rewrite E).
  by apply IH.
Qed.

Lemma FindCFIFrameInfo_covered (bm : BasicModule) module_base frame h r i :
  module_ok bm -> (h, r) ∈ rmap (cfi_initial_rules_ bm) ->
  covers h r (wrap 64 (instruction frame - module_base)) -> Parse (rentry r) CFIFrameInfo_new = (true, i) ->
  FindCFIFrameInfo bm module_base frame =
  Some (foldl apply_delta i (deltas_between bm (rbase r) (wrap 64 (instruction frame - module_base)))).
Proof.
  intros [] Hin Hc Hp. unfold FindCFIFrameInfo, ParseCFIRuleSet.
  assert (RetrieveRange 64 (cfi_initial_rules_ bm) (wrap 64 (instruction frame - module_base)) = Some (copy_out 64 (h, r))) as ->.
  { apply RetrieveRange_Some; [done|]. by exists h, r. }
  cbn [copy_out ret_entry ret_base]. rewrite Hp. cbn [negb].
  pose proof (sorted_erase_range (cfi_delta_rules_ bm) 0 (lower_bound (cfi_delta_rules_ bm) (rbase r)) ltac:(lia) mo_deltas) as Hs.
  cbn [erase_range take app] in Hs. rewrite apply_deltas_filter by done. unfold deltas_between. by rewrite filter_lower_bound.
Qed.

(** The address of the code at [a] of the loaded module, in the dumper's module. *)
Definition code_address (m : DumpModule) (e : StackFrameEntry) (a : Z) : Z := entry_address e + (a - rel m (entry_address e)).

Lemma FindCFIFrameInfo_entry name m module_base frame e :
  dump_ok m -> loadable m -> separate (entry_extent m <$> mod_stack_frame_entries m) ->
  Forall entry_ok (mod_stack_frame_entries m) -> e ∈ mod_stack_frame_entries m ->
  let a := wrap 64 (instruction frame - module_base) in
  within a (entry_extent m e) ->
  exists i, FindCFIFrameInfo (loaded_module name m ALL_SYMBOL_DATA) module_base frame = Some i /\
    str_sorted (register_rules_ i) /\ forall n, info_rule i n = rules_at e (code_address m e a) n.
Proof.
  intros Hm Hl Hsep Hok He a Ha. set (bm := loaded_module name m ALL_SYMBOL_DATA).
  pose proof (loaded_module_ok name m ALL_SYMBOL_DATA Hm Hl eq_refl) as Hbm. fold bm in Hbm.
  pose proof (proj1 (Forall_forall _ _) Hok e He) as [Hi Hs Hc].
  destruct (parse_rule_map (initial_rules e) CFIFrameInfo_new Hi ltac:(constructor)) as (i0 & Ep & Hi0 & Hn).
  assert (Hr: (rel m (entry_address e) + entry_size e - 1, mkRange (rel m (entry_address e)) 0 (rule_map_text (initial_rules e)))
              ∈ rmap (cfi_initial_rules_ bm)).
  { destruct (store_all_new (entry_range m <$> mod_stack_frame_entries m)) as [_ Hel].
    - by rewrite <- list_fmap_compose.
    - apply Hel. eexists _, _, _. split; [|by split]. apply list_elem_of_fmap. by exists e. }
  assert (Hchg: Forall (λ d, rules_ok d.2) (filter (λ d, d.1 <= code_address m e a) (rule_changes e))).
  { apply Forall_forall. intros [k rules] [_ Hin]%list_elem_of_filter. by apply (Hc k rules). }
  eexists. split.
  - eapply FindCFIFrameInfo_covered; [exact Hbm|exact Hr| |exact Ep]. fold a. unfold covers. cbn. unfold within in Ha. cbn in Ha. lia.
  - fold a. cbn [rbase]. rewrite (loaded_deltas_between m Hsep Hok e a bm He Ha eq_refl). fold (code_address m e a).
    split; [by apply foldl_delta_sorted|]. intros n. rewrite (apply_delta_rules _ _ (code_address m e a)), changes_at_filter, Hn.
    + unfold rules_at. f_equal. destruct (str_find (initial_rules e) n); [done|]. unfold info_rule. by repeat dif.
    + done.
    + apply Forall_forall. intros d [Hd _]%list_elem_of_filter. exact Hd.
    + done.
Qed.

(** C14: call frame information, from the dumper to the processor.  The file that [Write] makes
    of a module whose entries cover disjoint code and hold rules that can be written loads
    without an error, and for an address in the code of an entry the resolver finds, for
    every register, the rule that the entry has there: the last change at or before the
    address, else the initial rule, else none. *)
Theorem dump_cfi (m : DumpModule) (name : cstring) (module_base : Z) (frame : StackFrame) (e : StackFrameEntry) :
  built m -> loadable m -> separate (entry_extent m <$> mod_stack_frame_entries m) ->
  Forall entry_ok (mod_stack_frame_entries m) -> e ∈ mod_stack_frame_entries m ->
  let a := wrap 64 (instruction frame - module_base) in
  within a (entry_extent m e) ->
  exists o bm i,
    Write m ALL_SYMBOL_DATA (mkOstream [] None true) = Ok (true, o) /\
    LoadMapFromMemory (BasicModule_new name) (written o ++ [NUL]) = Ok (true, bm) /\
    FindCFIFrameInfo bm module_base frame = Some i /\
    forall n, info_rule i n = rules_at e (entry_address e + (a - rel m (entry_address e))) n.
Proof.
  intros Hm Hl Hsep Hok He a Ha. pose proof (built_ok m Hm) as Hdo.
  destruct (FindCFIFrameInfo_entry name m module_base frame e Hdo Hl Hsep Hok He Ha) as (i & Ei & _ & Hi).
  eexists _, _, i. split; [by apply Write_all|]. split; [by apply loaded_module_load|]. by split.
Qed.

(** ** Witness: a function that saves %rbp *)

Definition demo_cfi_entry : StackFrameEntry :=
  mkStackFrameEntry 0x401000 0x10
    [(lit ".cfa", lit "$rsp 8 +"); (lit ".ra", lit ".cfa -8 + ^")]
    [(0x401001, [(lit "$rbp", lit ".cfa -16 + ^"); (lit ".cfa", lit "$rsp 16 +")]);
     (0x401004, [(lit ".cfa", lit "$rbp 16 +")])].

Definition demo_cfi_module : DumpModule :=
  AddStackFrameEntry (SetLoadAddress (DumpModule_new (lit "a.out") (lit "Linux") (lit "x86_64") (lit "ABCD") []) 0x400000)
    demo_cfi_entry.

Lemma demo_cfi_built : built demo_cfi_module.
Proof.
  exists (lit "a.out"), (lit "Linux"), (lit "x86_64"), (lit "ABCD"), [].
  eapply rtc_l; [apply (step_load_address _ 0x400000); done|]. apply rtc_once, step_add_entry.
Qed.

(** Rule maps checked by computation. *)
Definition words_rule (t : cstring) : bool :=
  let ws := words t in
  negb (bool_decide (ws = [])) && forallb (λ w, forallb rule_char w && negb (bool_decide (w = [])) && negb (ends_colon w)) ws &&
  bool_decide (t = join ws).

Lemma words_rule_ok t : words_rule t = true -> is_rule t.
Proof.
  unfold words_rule. intros [[H1 H2]%andb_true_iff H3]%andb_true_iff. apply negb_true_iff, bool_decide_eq_false in H1.
  apply bool_decide_eq_true in H3. exists (words t). split_and!; [done| |done]. apply Forall_forall. intros w Hw.
  rewrite forallb_forall in H2. specialize (H2 w ltac:(by apply list_elem_of_In)).
  apply andb_true_iff in H2 as [[Hc Hn]%andb_true_iff He]. apply negb_true_iff in He. apply negb_true_iff, bool_decide_eq_false in Hn.
  split; [by apply rule_word_lit|done].
Qed.

Fixpoint keys_sorted (rules : strmap cstring) : bool :=
  match rules with
  | a :: rest => forallb (λ b, str_ltb a.1 b.1) rest && keys_sorted rest
  | [] => true
  end.

Definition rules_okb (rules : strmap cstring) : bool :=
  negb (bool_decide (rules = [])) && keys_sorted rules &&
  forallb (λ nr, forallb rule_char nr.1 && negb (bool_decide (nr.1 = [])) && words_rule nr.2) rules.

Lemma rules_okb_ok rules : rules_okb rules = true -> rules_ok rules.
Proof.
  unfold rules_okb. intros [[H1 H2]%andb_true_iff H3]%andb_true_iff. split; [by apply negb_true_iff, bool_decide_eq_false in H1|]. split.
  - clear H1 H3. induction rules as [|[n r] rules IH]; [constructor|]. apply andb_true_iff in H2 as [H2 H4].
    apply str_sorted_cons. split; [|by apply IH]. intros n' r' Hin. rewrite forallb_forall in H2.
    apply (H2 (n', r')). by apply list_elem_of_In.
  - apply Forall_forall. intros nr Hin. rewrite forallb_forall in H3. specialize (H3 nr ltac:(by apply list_elem_of_In)).
    apply andb_true_iff in H3 as [[H4 H5]%andb_true_iff H6]. apply negb_true_iff, bool_decide_eq_false in H5.
    split; [by apply rule_word_lit|by apply words_rule_ok].
Qed.

Lemma demo_cfi_entries_ok : Forall entry_ok (mod_stack_frame_entries demo_cfi_module).
Proof.
  apply Forall_cons. split; [|constructor]. constructor; cbn [initial_rules rule_changes entry_address entry_size demo_cfi_entry].
  - apply rules_okb_ok. vm_compute. reflexivity.
  - apply sorted_cons. split; [intros k v Hin; apply list_elem_of_singleton in Hin as [= -> ->]; lia|].
    apply sorted_cons. split; [intros k v Hin; by apply not_elem_of_nil in Hin|constructor].
  - intros a rules Hin. repeat (apply elem_of_cons in Hin as [[= -> ->]|Hin]; [split; [lia|apply rules_okb_ok; vm_compute; reflexivity]|]).
    by apply not_elem_of_nil in Hin.
Qed.

Lemma demo_cfi_loadable : loadable demo_cfi_module.
Proof.
  constructor; try (by intros * ?%not_elem_of_nil); try done.
  - repeat (apply Forall_cons; split; [split; by apply all_forallb|]). apply Forall_nil_2.
  - intros e ->%list_elem_of_singleton.
    assert (Ht: forall s, forallb (λ c, negb (in_set CRLF c) && negb (code c =? 0)) s && negb (bool_decide (s = [])) = true -> symbol_text_ok s).
    { intros s [H1 H2]%andb_true_iff. rewrite forallb_forall in H1. apply negb_true_iff, bool_decide_eq_false in H2.
      split; [split; [done|]|]; apply Forall_forall; intros c Hc%list_elem_of_In; apply H1, andb_true_iff in Hc; tauto. }
    split_and!; [done|apply Ht; vm_compute; reflexivity|].
    intros d Hin. repeat (apply elem_of_cons in Hin as [->|Hin]; [apply Ht; vm_compute; reflexivity|]). by apply not_elem_of_nil in Hin.
Qed.

Lemma demo_cfi_separate : separate (entry_extent demo_cfi_module <$> mod_stack_frame_entries demo_cfi_module).
Proof. split; repeat constructor; done. Qed.

(** After the push at 0x401001 the CFA is 16 above the stack pointer, and the return address
    is still where the initial rule says. *)
Lemma dump_cfi_witness :
  exists o bm i,
    Write demo_cfi_module ALL_SYMBOL_DATA (mkOstream [] None true) = Ok (true, o) /\
    LoadMapFromMemory (BasicModule_new (lit "a.out")) (written o ++ [NUL]) = Ok (true, bm) /\
    FindCFIFrameInfo bm 0x7f0000 (example_frame 0x7f1002) = Some i /\
    info_rule i (lit ".cfa") = Some (lit "$rsp 16 +") /\ info_rule i (lit ".ra") = Some (lit ".cfa -8 + ^") /\
    info_rule i (lit "$rbx") = None.
Proof.
  destruct (dump_cfi demo_cfi_module (lit "a.out") 0x7f0000 (example_frame 0x7f1002) demo_cfi_entry) as (o & bm & i & E1 & E2 & E3 & Hi).
  - exact demo_cfi_built.
  - exact demo_cfi_loadable.
  - exact demo_cfi_separate.
  - exact demo_cfi_entries_ok.
  - by left.
  - split; done.
  - exists o, bm, i. split_and!; [done..| | |]; rewrite Hi; vm_compute; reflexivity.
Defined.
