(* ===== verification/CfiUnwind.v ===== *)
(** From DWARF call frame information to the registers of the caller: the rules of a row of
    the table, written by the dumper, loaded by the processor and run by the evaluator
    (processor/cfi_frame_info.cc), give each register the value that DWARF gives it. *)
From Stdlib Require Import Ascii.
From stdpp Require Import strings sorting list relations gmap.
From S2P Require Import Prelude StdMap CStr StrMap MemoryRegion PostfixEvaluator CfiFrameInfo EvaluatorBounds SymbolFile BasicResolver SymbolLoad ResolverLookup DumpModule DumpWrite DumpLoad ByteReader CallFrameInfo CfiActions CfiInvariant CfiToModule CfiTable DumpCfi.

(** ** Names of registers, in rules *)

(** The names of a register table can stand in a rule. *)
Definition names_readable (w : Z) (names : list cstring) : bool :=
  forallb (λ n, match n with [] => true | _ => is_name w n end) names.

Lemma unnamed_name w r : 0 <= r -> is_name w (unnamed_register r) = true.
Proof.
  intros Hr. unfold unnamed_register. pose proof (print_dec_word r Hr) as [_ Hd]%is_word_inv.
  revert Hd. generalize (print_dec r) as t. intros t Ht. unfold is_name.
  assert (is_word (lit "unnamed_register" ++ t) = true) as -> by exact Ht.
  reflexivity.
Qed.

Lemma name_of_readable w h r : names_readable w (register_names_ h) = true -> is_name w (name_of h r) = true.
Proof.
  intros Hn. unfold name_of. destruct (r <? 0) eqn:E1; [reflexivity|]. dif; [reflexivity|]. breflect.
  destruct (known_name h r) as [n|] eqn:Ek; [|by apply unnamed_name]. cbn.
  apply known_name_spec in Ek as [El Hne]. unfold names_readable in Hn. rewrite forallb_forall in Hn.
  specialize (Hn n ltac:(apply list_elem_of_In; by eapply list_elem_of_lookup_2)). by destruct n.
Qed.

(** ** The value DWARF gives a register *)

Section unwind.
Context {R : Type} {intact : R -> Prop} `{MemoryRegionLaws R intact} (w : Z) (Hw : w = 32 \/ w = 64).

(** [value] is what the registers hold in the callee, and the canonical frame address. *)
Definition unwound (memory : R) (value : Z -> option Z) (reg : Z) (rule : Rule) : outcome Z :=
  match rule with
  | SameValueRule => of_option (value reg)
  | OffsetRule base offset => b ← of_option (value base); GetMemoryAtAddress (value_bytes w) memory (wrap w (b + offset))
  | ValOffsetRule base offset => b ← of_option (value base); Ok (wrap w (b + offset))
  | RegisterRule number => of_option (value number)
  | UndefinedRule | ExpressionRule _ | ValExpressionRule _ => Fail
  end.

(** Rules that STACK CFI expresses, with an offset of the word's size. *)
Definition expressible (rule : Rule) : Prop :=
  match rule with
  | SameValueRule | RegisterRule _ => True
  | OffsetRule _ offset | ValOffsetRule _ offset => - 2 ^ w < offset < 2 ^ w
  | UndefinedRule | ExpressionRule _ | ValExpressionRule _ => False
  end.

(** The expression a rule's text is the postfix form of. *)
Definition offset_expr (offset : Z) : expr := if offset <? 0 then NegLit (- offset) else Lit offset.

Definition rule_expr (h : DwarfCFIToModule) (reg : Z) (rule : Rule) : expr :=
  match rule with
  | OffsetRule base offset => Deref (Bin BINARY_OP_ADD (Var (name_of h base)) (offset_expr offset))
  | ValOffsetRule base offset => Bin BINARY_OP_ADD (Var (name_of h base)) (offset_expr offset)
  | RegisterRule number => Var (name_of h number)
  | _ => Var (name_of h reg)
  end.

Lemma offset_compile offset : compile (offset_expr offset) = [print_int offset].
Proof. unfold offset_expr, print_int. by destruct (offset <? 0). Qed.

Lemma rule_text_compile h reg rule text :
  expressible rule -> CfiTable.rule_text h reg rule = Some text -> text = join (compile (rule_expr h reg rule)).
Proof.
  intros He. destruct rule as [| |base offset|base offset|number|e|e]; try done; intros [= <-]; cbn [rule_expr compile]; try done;
    rewrite offset_compile; reflexivity.
Qed.

Lemma rule_expr_wf h reg rule :
  names_readable w (register_names_ h) = true -> expressible rule -> wf_expr w (rule_expr h reg rule).
Proof.
  intros Hn He. pose proof (name_of_readable w h) as Hname.
  assert (Ho: forall offset, - 2 ^ w < offset < 2 ^ w -> wf_expr w (offset_expr offset)).
  { intros offset Ho. unfold offset_expr. destruct (offset <? 0) eqn:E; breflect; cbn; unfold fits; lia. }
  destruct rule as [| |base offset|base offset|number|e|e]; cbn in He |- *; try done; try (by apply Hname);
    split_and!; try done; try (by apply Hname); by apply Ho.
Qed.

Lemma rule_expr_value h reg rule memory dict :
  expressible rule ->
  value_of w dict (Some memory) (rule_expr h reg rule) = unwound memory (λ r, dict !! name_of h r) reg rule.
Proof.
  intros He.
  assert (Ho: forall offset, - 2 ^ w < offset < 2 ^ w -> exists v, denote w dict (Some memory) (offset_expr offset) = Ok (Val v) /\
    forall b, wrap w (b + v) = wrap w (b + offset)).
  { intros offset Ho. unfold offset_expr. destruct (offset <? 0) eqn:E; cbn [denote]; eexists; (split; [reflexivity|]); [|done].
    intros b. unfold wrap. rewrite Zplus_mod_idemp_r. f_equal. lia. }
  destruct rule as [| |base offset|base offset|number|e|e]; cbn in He; try done; cbn [rule_expr unwound].
  - destruct (Ho offset He) as (v & Ev & Hv). unfold value_of. cbn [denote]. rewrite Ev. cbn [mbind outcome_bind mret outcome_ret resolve].
    destruct (dict !! name_of h base) as [b|]; [|done]. cbn [of_option mbind outcome_bind apply_binary resolve]. rewrite Hv. cbn [mbind outcome_bind mret outcome_ret resolve]. by destruct (GetMemoryAtAddress _ memory _).
  - destruct (Ho offset He) as (v & Ev & Hv). unfold value_of. cbn [denote]. rewrite Ev. cbn [mbind outcome_bind mret outcome_ret resolve].
    destruct (dict !! name_of h base) as [b|]; [|done]. cbn [of_option mbind outcome_bind apply_binary resolve]. by rewrite Hv.
Qed.

(** Running the text of a rule. *)
Lemma eval_rule_text h reg rule text memory dict :
  names_readable w (register_names_ h) = true -> expressible rule -> CfiTable.rule_text h reg rule = Some text ->
  intact memory -> dict_ok w dict ->
  eval_rule w memory dict text = unwound memory (λ r, dict !! name_of h r) reg rule.
Proof.
  intros Hn He Et Hv Hd. rewrite (rule_text_compile h reg rule text He Et). unfold eval_rule.
  rewrite (EvaluateForValue_expr w dict (Some memory) (rule_expr h reg rule)).
  - by apply rule_expr_value.
  - done.
  - done.
  - by intros m [= <-].
  - by apply rule_expr_wf.
  - done.
  - done.
  - done.
Qed.
End unwind.

(** The names are those the handler was given. *)
Lemma starts_names names start size ra s : starts names start size ra s -> register_names_ (handler_ s) = names.
Proof. intros Hs. by apply starts_tracked in Hs as (_ & ? & _). Qed.

(** ** The caller's registers *)

(** C9: unwinding.  [DwarfCFIToModule] makes an entry of a function's call frame information;
    the dumper's module with that entry is written, and the processor loads the file.  Then for
    an address in the function it finds STACK CFI rules, and when [FindCallerRegs] evaluates
    them in the registers of a callee, what it computes is what DWARF says of the row in
    force at the address: the canonical frame address is the value of the row's rule for it,
    and every register that has a rule there -- the return address among them -- is the
    memory word, the sum or the register that its rule names. *)
Theorem cfi_unwind {R : Type} {intact : R -> Prop} `{MemoryRegionLaws R intact} (w : Z)
    (names : list cstring) (start size return_address : Z) (s0 s1 s2 : CfiState DwarfCFIToModule)
    (m : DumpModule) (name : cstring) (module_base : Z) (frame : StackFrame) (e : StackFrameEntry) :
  (w = 32 \/ w = 64) -> starts names start size return_address s0 -> names_ok names = true -> names_readable w names = true ->
  built m -> loadable m -> separate (entry_extent m <$> mod_stack_frame_entries m) -> Forall entry_ok (mod_stack_frame_entries m) ->
  current_entry (handler_ s2) = Some e -> e ∈ mod_stack_frame_entries m ->
  let a := wrap 64 (instruction frame - module_base) in
  within a (entry_extent m e) ->
  let pc := start + (a - rel m start) in
  rtc row_step s0 s1 -> address_ s1 <= pc ->
  (s1 = s2 \/ exists s1', row_step s1 s1' /\ pc < address_ s1' /\ rtc row_step s1' s2) ->
  exists o bm i,
    Write m ALL_SYMBOL_DATA (mkOstream [] None true) = Ok (true, o) /\
    LoadMapFromMemory (BasicModule_new name) (written o ++ [NUL]) = Ok (true, bm) /\
    FindCFIFrameInfo bm module_base frame = Some i /\
    forall memory registers caller,
      intact memory -> dict_ok w registers -> FindCallerRegs w i registers memory = Ok caller ->
      exists cfa, caller !! lit ".cfa" = Some cfa /\
        let value (dict : gmap cstring Z) r := dict !! name_of (handler_ s0) r in
        (forall rule, cfa_rule_ (rules_ s1) = Some rule -> expressible w rule ->
          unwound w memory (value registers) kCFARegister rule = Ok cfa) /\
        (forall reg rule, reg <> kCFARegister -> lookup_key (registers_ (rules_ s1)) reg = Some rule -> expressible w rule ->
          exists v, unwound w memory (value (<[lit ".cfa" := cfa]> registers)) reg rule = Ok v /\
            caller !! name_of (handler_ s0) reg = Some v).
Proof.
  intros Hw Hst Hnames Hread Hm Hl Hsep Hok He Hin a Ha pc H01 Hpc H12. pose proof (built_ok m Hm) as Hdo.
  pose proof (starts_names _ _ _ _ _ Hst) as En.
  destruct (row_recorded names start size return_address s0 s1 s2 pc Hst Hnames H01 Hpc H12) as (e' & He' & Es & _ & Hrow).
  assert (e' = e) as -> by congruence.
  destruct (FindCFIFrameInfo_entry name m module_base frame e Hdo Hl Hsep Hok Hin Ha) as (i & Ei & Hsorted & Hi).
  eexists _, _, i. split; [by apply Write_all|]. split; [by apply loaded_module_load|]. split; [done|].
  intros memory registers caller Hmem Hregs Hfind.
  assert (Hread': names_readable w (register_names_ (handler_ s0)) = true) by (by rewrite En).
  assert (Hrule: forall reg rule, has_rule (rules_ s1) reg rule -> expressible w rule ->
    is_register reg /\ exists text, CfiTable.rule_text (handler_ s0) reg rule = Some text /\ info_rule i (name_of (handler_ s0) reg) = Some text).
  { intros reg rule Hru Hex. destruct (Hrow reg rule Hru) as [Hr Ht]. split; [done|].
    destruct (CfiTable.rule_text (handler_ s0) reg rule) as [text|] eqn:Et; [|by destruct rule]. exists text. split; [done|].
    rewrite Hi. unfold code_address. rewrite Es. by apply Ht. }
  destruct (cfi_find_caller_regs w i registers memory caller Hsorted Hfind) as (cfa & ra & Hc1 & Hr1 & Ecfa & Era & Hcfa & Hra & Hother).
  assert (Hd: dict_ok w (<[lit ".cfa" := cfa]> registers))
    by (apply dict_ok_insert; [done|by eapply (eval_rule_fits w Hw memory registers)]).
  assert (Hcfatext: forall text, nonempty (CfiFrameInfo.cfa_rule_ i) = Some text -> CfiFrameInfo.cfa_rule_ i = text) by (intros t; destruct (CfiFrameInfo.cfa_rule_ i); by intros [= <-]).
  assert (Hratext: forall text, nonempty (ra_rule_ i) = Some text -> ra_rule_ i = text) by (intros t; destruct (ra_rule_ i); by intros [= <-]).
  exists cfa. split; [done|]. split.
  - intros rule Hru Hex. destruct (Hrule kCFARegister rule Hru Hex) as (_ & text & Et & Ht).
    change (info_rule i (name_of (handler_ s0) kCFARegister)) with (nonempty (CfiFrameInfo.cfa_rule_ i)) in Ht. apply Hcfatext in Ht.
    rewrite <- (eval_rule_text w Hw (handler_ s0) kCFARegister rule text memory registers) by done. by rewrite <- Ht.
  - intros reg rule Hne Hru Hex.
    assert (Hhas: has_rule (rules_ s1) reg rule) by (unfold has_rule; by rewrite (proj2 (Z.eqb_neq _ _) Hne)).
    destruct (Hrule reg rule Hhas Hex) as (Hr & text & Et & Ht).
    rewrite <- (eval_rule_text w Hw (handler_ s0) reg rule text memory _) by done.
    assert (Hnc: name_of (handler_ s0) reg <> lit ".cfa").
    { intros E. apply Hne. apply (distinct_names_ok (handler_ s0)); [by rewrite En|done|by right|exact E]. }
    unfold info_rule in Ht. rewrite (str_eqb_neq _ _ Hnc) in Ht. destruct (str_eqb _ _) eqn:Era'.
    + apply str_eqb_spec in Era' as ->. apply Hratext in Ht. rewrite Ht in Era. exists ra. by split.
    + apply bool_decide_eq_false in Era'. specialize (Hother _ Hnc Era'). rewrite Ht in Hother. exact Hother.
Qed.

(** ** Witness: one push into the function that saves %rbp *)

Definition demo_stack : MicrodumpMemoryRegion :=
  MicrodumpMemoryRegion_Init 0x7000 [0x30; 0x70; 0; 0; 0; 0; 0; 0; 0x78; 0x56; 0x34; 0x12; 0; 0; 0; 0].

Definition demo_callee : gmap cstring Z := <[lit "$rsp" := 0x7000]> (<[lit "$rbp" := 0x7fff]> ∅).

Lemma demo_stack_ok : micro_ok demo_stack.
Proof.
  split; [|by vm_compute]. change (contents_ demo_stack) with [0x30; 0x70; 0; 0; 0; 0; 0; 0; 0x78; 0x56; 0x34; 0x12; 0; 0; 0; 0].
  repeat (apply Forall_cons; split; [by vm_compute|]). apply Forall_nil_2.
Qed.

Lemma demo_callee_ok : dict_ok 64 demo_callee.
Proof. repeat (apply dict_ok_insert; [|done]). by intros n v. Qed.

Lemma cfi_unwind_witness :
  exists o bm i caller,
    Write demo_cfi_module ALL_SYMBOL_DATA (mkOstream [] None true) = Ok (true, o) /\
    LoadMapFromMemory (BasicModule_new (lit "a.out")) (written o ++ [NUL]) = Ok (true, bm) /\
    FindCFIFrameInfo bm 0x7f0000 (example_frame 0x7f1002) = Some i /\
    FindCallerRegs 64 i demo_callee demo_stack = Ok caller /\
    caller !! lit ".cfa" = Some 0x7010 /\ caller !! lit ".ra" = Some 0x12345678 /\ caller !! lit "$rbp" = Some 0x7030.
Proof.
  destruct (cfi_unwind 64 RegisterNames_X86_64 0x401000 0x10 16 demo_started (demo_rows 5) (demo_rows 7)
              demo_cfi_module (lit "a.out") 0x7f0000 (example_frame 0x7f1002) demo_cfi_entry (R := MicrodumpMemoryRegion))
    as (o & bm & i & E1 & E2 & E3 & Hrun).
  - by right.
  - exists (DwarfCFIToModule_new (DumpModule_new [] [] [] [] []) RegisterNames_X86_64), 0, 1, [], []. by split_and!.
  - vm_compute. reflexivity.
  - vm_compute. reflexivity.
  - exact demo_cfi_built.
  - exact demo_cfi_loadable.
  - exact demo_cfi_separate.
  - exact demo_cfi_entries_ok.
  - vm_compute. reflexivity.
  - by left.
  - split; done.
  - apply (demo_rows_steps 0 5). vm_compute. reflexivity.
  - vm_compute. discriminate.
  - right. exists (demo_rows 6). split_and!.
    + assert (E: DoInstruction demo_fde demo_reader (demo_entry 0 13) demo_cie (demo_rows 5) = Ok (Some tt, demo_rows 6)) by (vm_compute; reflexivity).
      eapply step_instruction; [exact E|vm_compute; discriminate].
    + vm_compute. reflexivity.
    + apply (demo_rows_steps 6 1). vm_compute. reflexivity.
  - assert (Hf: exists caller, FindCallerRegs 64 i demo_callee demo_stack = Ok caller).
    { clear Hrun. vm_compute in E1. injection E1 as <-. vm_compute in E2. injection E2 as <-. vm_compute in E3. injection E3 as <-.
      eexists. vm_compute. reflexivity. }
    destruct Hf as [caller Ef].
    destruct (Hrun demo_stack demo_callee caller demo_stack_ok demo_callee_ok Ef) as (cfa & Hcfa & Hc & Hreg).
    specialize (Hc (ValOffsetRule 7 16) ltac:(vm_compute; reflexivity) ltac:(cbn; lia)). vm_compute in Hc. injection Hc as <-.
    destruct (Hreg 16 (OffsetRule kCFARegister (-8)) ltac:(done) ltac:(vm_compute; reflexivity) ltac:(cbn; lia)) as (ra & Hra & Ira).
    destruct (Hreg 6 (OffsetRule kCFARegister (-16)) ltac:(done) ltac:(vm_compute; reflexivity) ltac:(cbn; lia)) as (rbp & Hrbp & Irbp).
    vm_compute in Hra, Hrbp. injection Hra as <-. injection Hrbp as <-.
    exists o, bm, i, caller. split_and!; [exact E1|exact E2|exact E3|exact Ef|exact Hcfa|exact Ira|exact Irbp].
Defined.
