(* ===== verification/LineInfo.v ===== *)
(** common/dwarf/dwarf2reader.h, dwarf2reader.cc, line_state_machine.h: [LineInfo], which runs
    the line number program of a compilation unit and tells a [LineInfoHandler] the lines.
    The buffer is a list of bytes that starts with the unit's header, and pointers are
    positions in it.  Reading outside it, moving a pointer out of it and a failed assertion
    are undefined. *)
From Stdlib Require Import Ascii.
From stdpp Require Import list.
From S2P Require Import Prelude CStr Memory ByteReader CallFrameInfo.

(** ** The handler *)

(** [LineInfoHandler]. *)
Class LineInfoHandler (H : Type) := {
  DefineDir : forall (name : cstring) (dir_num : Z), H -> outcome H;
  DefineFile : forall (name : cstring) (file_num dir_num mod_time length : Z), H -> outcome H;
  AddLine : forall (address length file_num line_num column_num : Z), H -> outcome H
}.

(** ** Data *)

Record LineInfoHeader := mkLineInfoHeader {
  total_length : Z;
  header_version : Z;
  prologue_length : Z;
  min_insn_length : Z;
  default_is_stmt : bool;
  line_base : Z;
  line_range : Z;
  opcode_base : Z;
  std_opcode_lengths : list Z
}.

Record LineStateMachine := mkLineStateMachine {
  file_num : Z;
  lsm_address : Z;
  line_num : Z;
  column_num : Z;
  is_stmt : bool;
  basic_block : bool;
  end_sequence : bool
}.

Definition Reset (default_is_stmt : bool) : LineStateMachine := mkLineStateMachine 1 0 1 0 default_is_stmt false false.

Definition set_lsm_address x (l : LineStateMachine) :=
  mkLineStateMachine (file_num l) x (line_num l) (column_num l) (is_stmt l) (basic_block l) (end_sequence l).
Definition set_line_num x (l : LineStateMachine) :=
  mkLineStateMachine (file_num l) (lsm_address l) x (column_num l) (is_stmt l) (basic_block l) (end_sequence l).
Definition set_file_num x (l : LineStateMachine) :=
  mkLineStateMachine x (lsm_address l) (line_num l) (column_num l) (is_stmt l) (basic_block l) (end_sequence l).
Definition set_column_num x (l : LineStateMachine) :=
  mkLineStateMachine (file_num l) (lsm_address l) (line_num l) x (is_stmt l) (basic_block l) (end_sequence l).
Definition set_is_stmt x (l : LineStateMachine) :=
  mkLineStateMachine (file_num l) (lsm_address l) (line_num l) (column_num l) x (basic_block l) (end_sequence l).
Definition set_basic_block x (l : LineStateMachine) :=
  mkLineStateMachine (file_num l) (lsm_address l) (line_num l) (column_num l) (is_stmt l) x (end_sequence l).
Definition set_end_sequence x (l : LineStateMachine) :=
  mkLineStateMachine (file_num l) (lsm_address l) (line_num l) (column_num l) (is_stmt l) (basic_block l) x.

(** ** Bytes and strings *)

(** [*lineptr]. *)
Definition deref (section : list Z) (p : Z) : outcome Z :=
  if p <? 0 then Undefined
  else match section !! Z.to_nat p with Some b => Ok b | None => Undefined end.

(** The string at a pointer and the position after its NUL ([strlen(name) + 1]). *)
Definition read_string (section : list Z) (p : Z) : outcome (cstring * Z) :=
  let bytes := from section p in
  match find_null bytes with
  | Some n => Ok (chr <$> take n bytes, p + Z.of_nat n + 1)
  | None => Undefined
  end.

(** An 8-bit integer with a sign. *)
Definition s8 := swrap 8.

(** ** The header *)

(** The loop that fills [std_opcode_lengths]. *)
Fixpoint read_lengths (r : ByteReader) (section : list Z) (lineptr : Z) (n : nat) : outcome (list Z) :=
  match n with
  | O => Ok []
  | S n =>
      length ← ReadOneByte r section lineptr;
      lengths ← read_lengths r section (lineptr + 1) n;
      Ok (length :: lengths)
  end.

Section line_info.
Context {H : Type} `{LineInfoHandler H}.
Context (section : list Z).

(** The loops over the directories and the files; an entry takes two bytes at least. *)
Fixpoint read_dirs (fuel : nat) (lineptr dirindex : Z) (h : H) : outcome (Z * H) :=
  match fuel with
  | O => Undefined
  | S fuel =>
      b ← deref section lineptr;
      if b =? 0 then Ok (lineptr, h)
      else
        '(dirname, next) ← read_string section lineptr;
        h ← DefineDir dirname dirindex h;
        read_dirs fuel next (u32 (dirindex + 1)) h
  end.

Fixpoint read_files (fuel : nat) (lineptr fileindex : Z) (h : H) : outcome (Z * H) :=
  match fuel with
  | O => Undefined
  | S fuel =>
      b ← deref section lineptr;
      if b =? 0 then Ok (lineptr, h)
      else
        '(filename, lineptr) ← read_string section lineptr;
        '(dirindex, len) ← ReadUnsignedLEB128 section lineptr;
        let lineptr := lineptr + len in
        '(mod_time, len) ← ReadUnsignedLEB128 section lineptr;
        let lineptr := lineptr + len in
        '(filelength, len) ← ReadUnsignedLEB128 section lineptr;
        let lineptr := lineptr + len in
        h ← DefineFile filename (s32 fileindex) (u32 dirindex) mod_time filelength h;
        read_files fuel lineptr (u32 (fileindex + 1)) h
  end.

(** [ReadHeader]: the header, [after_header_], and the reader with the unit's offset size. *)
Definition ReadHeader (r : ByteReader) (h : H) : outcome (LineInfoHeader * Z * ByteReader * H) :=
  '(initial_length, lineptr, r) ← ReadInitialLength r section 0;
  if negb (lineptr + initial_length <=? Z.of_nat (length section)) || (address_size_ r =? 0) then Undefined
  else
    version ← ReadTwoBytes r section lineptr;
    let lineptr := lineptr + 2 in
    prologue_length ← ReadOffset r section lineptr;
    let lineptr := lineptr + offset_size_ r in
    min_insn_length ← ReadOneByte r section lineptr;
    let lineptr := lineptr + 1 in
    lineptr ← (if 4 <=? version then
                 max_ops_per_insn ← ReadOneByte r section lineptr;
                 if max_ops_per_insn =? 1 then Ok (lineptr + 1) else Undefined
               else Ok lineptr);
    default_is_stmt ← ReadOneByte r section lineptr;
    let lineptr := lineptr + 1 in
    line_base ← deref section lineptr;
    let lineptr := lineptr + 1 in
    line_range ← ReadOneByte r section lineptr;
    let lineptr := lineptr + 1 in
    opcode_base ← ReadOneByte r section lineptr;
    let lineptr := lineptr + 1 in
    let n := Z.to_nat (opcode_base - 1) in
    lengths ← read_lengths r section lineptr n;
    let lineptr := lineptr + Z.of_nat n in
    '(lineptr, h) ← read_dirs (length section) lineptr 1 h;
    '(lineptr, h) ← read_files (length section) (lineptr + 1) 1 h;
    Ok (mkLineInfoHeader initial_length version prologue_length min_insn_length (negb (default_is_stmt =? 0)) (s8 line_base)
          line_range opcode_base (0 :: lengths ++ (if opcode_base =? 0 then [] else [0])), lineptr + 1, r, h).

(** ** Opcodes *)

Section opcodes.
Context (r : ByteReader) (header : LineInfoHeader).

(** What [ProcessOneOpcode] gives back: whether it adds a row, the state machine, [*len],
    [*lsm_passes_pc] when there is one, and the handler. *)
Record OpResult := mkOpResult { add_row : bool; op_lsm : LineStateMachine; op_len : Z; op_passes : option bool; op_handler : H }.

Definition passes_if (cond : bool) (lsm_passes_pc : option bool) : option bool :=
  match lsm_passes_pc with Some passes => Some (passes || cond) | None => None end.

Definition in_advance (lsm : LineStateMachine) (pc advance_address : Z) : bool :=
  (lsm_address lsm <=? pc) && (pc <? u64 (lsm_address lsm + advance_address)).

Definition advance_lsm (advance_address : Z) (lsm : LineStateMachine) : LineStateMachine :=
  set_lsm_address (u64 (lsm_address lsm + advance_address)) lsm.

(** The arguments of an opcode that is not known. *)
Fixpoint skip_arguments (n : nat) (start oplen : Z) : outcome Z :=
  match n with
  | O => Ok oplen
  | S n => '(_, templen) ← ReadUnsignedLEB128 section start; skip_arguments n (start + templen) (u64 (oplen + templen))
  end.

Definition DW_LNS_extended_op := 0.
Definition DW_LNS_copy := 1.
Definition DW_LNS_advance_pc := 2.
Definition DW_LNS_advance_line := 3.
Definition DW_LNS_set_file := 4.
Definition DW_LNS_set_column := 5.
Definition DW_LNS_negate_stmt := 6.
Definition DW_LNS_set_basic_block := 7.
Definition DW_LNS_const_add_pc := 8.
Definition DW_LNS_fixed_advance_pc := 9.
Definition DW_LNE_end_sequence := 1.
Definition DW_LNE_set_address := 2.
Definition DW_LNE_define_file := 3.

(** An extended opcode; [start] is after the opcode, whose length so far is 1. *)
Definition extended_opcode (start : Z) (lsm : LineStateMachine) (passes : option bool) (h : H) : outcome OpResult :=
  '(extended_op_len, templen) ← ReadUnsignedLEB128 section start;
  let start := start + templen in
  let oplen := u64 (1 + templen + extended_op_len) in
  extended_op ← ReadOneByte r section start;
  let start := start + 1 in
  if extended_op =? DW_LNE_end_sequence then Ok (mkOpResult true (set_end_sequence true lsm) oplen passes h)
  else if extended_op =? DW_LNE_set_address then
    address ← ReadAddress r section start;
    Ok (mkOpResult false (set_lsm_address address lsm) oplen passes h)
  else if extended_op =? DW_LNE_define_file then
    '(filename, start) ← read_string section start;
    '(dirindex, templen) ← ReadUnsignedLEB128 section start;
    let oplen := u64 (oplen + templen) in
    '(mod_time, templen) ← ReadUnsignedLEB128 section start;
    let oplen := u64 (oplen + templen) in
    '(filelength, templen) ← ReadUnsignedLEB128 section start;
    let oplen := u64 (oplen + templen) in
    h ← DefineFile filename (-1) (u32 dirindex) mod_time filelength h;
    Ok (mkOpResult false lsm oplen passes h)
  else Ok (mkOpResult false lsm oplen passes h).

Definition ProcessOneOpcode (start : Z) (lsm : LineStateMachine) (pc : Z) (passes : option bool) (h : H) : outcome OpResult :=
  opcode ← ReadOneByte r section start;
  let start := start + 1 in
  let stay lsm oplen := Ok (mkOpResult false lsm oplen passes h) in
  if opcode_base header <=? opcode then
    if line_range header =? 0 then Undefined
    else
      let opcode := opcode - opcode_base header in
      let advance_address := opcode / line_range header * min_insn_length header in
      let advance_line := opcode mod line_range header + line_base header in
      Ok (mkOpResult true (set_basic_block true (set_line_num (u32 (line_num lsm + advance_line)) (advance_lsm advance_address lsm)))
            1 (passes_if (in_advance lsm pc advance_address) passes) h)
  else if opcode =? DW_LNS_copy then Ok (mkOpResult true (set_basic_block false lsm) 1 passes h)
  else if opcode =? DW_LNS_advance_pc then
    '(advance_address, templen) ← ReadUnsignedLEB128 section start;
    let advance_address := u64 (min_insn_length header * advance_address) in
    Ok (mkOpResult false (advance_lsm advance_address lsm) (1 + templen) (passes_if (in_advance lsm pc advance_address) passes) h)
  else if opcode =? DW_LNS_advance_line then
    '(advance_line, templen) ← ReadSignedLEB128 section start;
    Ok (mkOpResult false (set_line_num (u32 (line_num lsm + s32 advance_line)) lsm) (1 + templen)
          (passes_if (lsm_address lsm =? pc) passes) h)
  else if opcode =? DW_LNS_set_file then
    '(fileno, templen) ← ReadUnsignedLEB128 section start; stay (set_file_num (u32 fileno) lsm) (1 + templen)
  else if opcode =? DW_LNS_set_column then
    '(colno, templen) ← ReadUnsignedLEB128 section start; stay (set_column_num (u32 colno) lsm) (1 + templen)
  else if opcode =? DW_LNS_negate_stmt then stay (set_is_stmt (negb (is_stmt lsm)) lsm) 1
  else if opcode =? DW_LNS_set_basic_block then stay (set_basic_block true lsm) 1
  else if opcode =? DW_LNS_fixed_advance_pc then
    advance_address ← ReadTwoBytes r section start;
    Ok (mkOpResult false (advance_lsm advance_address lsm) 3 (passes_if (in_advance lsm pc advance_address) passes) h)
  else if opcode =? DW_LNS_const_add_pc then
    if line_range header =? 0 then Undefined
    else
      let advance_address := min_insn_length header * ((255 - opcode_base header) / line_range header) in
      Ok (mkOpResult false (advance_lsm advance_address lsm) 1 (passes_if (in_advance lsm pc advance_address) passes) h)
  else if opcode =? DW_LNS_extended_op then extended_opcode start lsm passes h
  else
    oplen ← skip_arguments (Z.to_nat (default 0 (std_opcode_lengths header !! Z.to_nat opcode))) start 1;
    stay lsm oplen.

(** ** The program *)

(** The line that waits for the address after it: [pending_address] and the like;
    [None]: [have_pending_line] is false. *)
Record PendingLine := mkPendingLine { pending_address : Z; pending_file_num : Z; pending_line_num : Z; pending_column_num : Z }.

(** What [ReadLines] does with the row an opcode adds: the state machine, the pending line
    and the handler after it. *)
Definition take_row (lsm : LineStateMachine) (pending : option PendingLine) (h : H) : outcome (LineStateMachine * option PendingLine * H) :=
  h ← match pending with
      | Some p => AddLine (pending_address p) (u64 (lsm_address lsm - pending_address p)) (pending_file_num p) (pending_line_num p)
                    (pending_column_num p) h
      | None => Ok h
      end;
  if end_sequence lsm then Ok (Reset (default_is_stmt header), None, h)
  else Ok (lsm, Some (mkPendingLine (lsm_address lsm) (file_num lsm) (line_num lsm) (column_num lsm)), h).

(** The loop of [ReadLines].  The fuel is the bytes that are left: an opcode whose length
    is 0, which only an extended opcode of nearly 2^64 bytes has, is run for ever. *)
Fixpoint lines_loop (fuel : nat) (lineptr line_end : Z) (lsm : LineStateMachine) (pending : option PendingLine) (h : H) : outcome H :=
  if lineptr <? line_end then
    match fuel with
    | O => Undefined
    | S fuel =>
        op ← ProcessOneOpcode lineptr lsm (2 ^ 64 - 1) None h;
        '(lsm, pending, h) ← (if add_row op then take_row (op_lsm op) pending (op_handler op) else Ok (op_lsm op, pending, op_handler op));
        lineptr ← advance section lineptr (op_len op);
        lines_loop fuel lineptr line_end lsm pending h
    end
  else Ok h.

Definition ReadLines (after_header : Z) (h : H) : outcome (Z * H) :=
  let lengthstart := if offset_size_ r =? 8 then 12 else 4 in
  let line_end := lengthstart + total_length header in
  h ← lines_loop (length section) after_header line_end (Reset (default_is_stmt header)) None h;
  Ok (line_end, h).
End opcodes.

(** [Start]: how many bytes the unit takes. *)
Definition LineInfo_Start (r : ByteReader) (h : H) : outcome (Z * ByteReader * H) :=
  '(header, after_header, r, h) ← ReadHeader r h;
  '(after_header, h) ← ReadLines r header after_header h;
  Ok (after_header, r, h).
End line_info.

Arguments OpResult : clear implicits.
