(* ===== verification/LineProgram.v ===== *)
(** What a line number program says: the rows that its opcodes add, in the encoding of the
    DWARF standard, and that [LineInfo] tells the handler the lines between them. *)
From Stdlib Require Import Ascii.
From stdpp Require Import list.
From S2P Require Import Prelude CStr Memory ByteReader CallFrameInfo LineInfo.

(** ** Opcodes *)

Inductive LineOp :=
| SpecialOp (opcode : Z)
| CopyRow
| AdvancePc (n : Z)
| AdvanceLine (n : Z)
| SetFile (n : Z)
| SetColumn (n : Z)
| NegateStmt
| SetBasicBlock
| ConstAddPc
| FixedAdvancePc (n : Z)
| EndSequence
| SetAddress (a : Z)
| OtherExtended (opcode : Z) (payload : list Z)
| OtherStandard (opcode : Z) (arguments : list Z).

Section program.
Context (r : ByteReader) (header : LineInfoHeader).

Definition op_bytes (op : LineOp) : list Z :=
  match op with
  | SpecialOp opcode => [opcode]
  | CopyRow => [1]
  | AdvancePc n => 2 :: uleb128 n
  | AdvanceLine n => 3 :: sleb128 n
  | SetFile n => 4 :: uleb128 n
  | SetColumn n => 5 :: uleb128 n
  | NegateStmt => [6]
  | SetBasicBlock => [7]
  | ConstAddPc => [8]
  | FixedAdvancePc n => 9 :: bytes_of (endian_ r) 2 n
  | EndSequence => 0 :: uleb128 1 ++ [1]
  | SetAddress a => 0 :: uleb128 (1 + address_size_ r) ++ 2 :: bytes_of (endian_ r) (Z.to_nat (address_size_ r)) a
  | OtherExtended opcode payload => 0 :: uleb128 (1 + Z.of_nat (length payload)) ++ opcode :: payload
  | OtherStandard opcode arguments => opcode :: concat (uleb128 <$> arguments)
  end.

(** The opcodes of a unit: a standard opcode is below [opcode_base], and its arguments fit. *)
Definition op_ok (op : LineOp) : Prop :=
  match op with
  | SpecialOp opcode => opcode_base header <= opcode < 256 /\ line_range header <> 0
  | CopyRow => 1 < opcode_base header
  | AdvancePc n => 2 < opcode_base header /\ fits 64 n
  | AdvanceLine n => 3 < opcode_base header /\ - 2 ^ 31 <= n < 2 ^ 31
  | SetFile n => 4 < opcode_base header /\ fits 32 n
  | SetColumn n => 5 < opcode_base header /\ fits 32 n
  | NegateStmt => 6 < opcode_base header
  | SetBasicBlock => 7 < opcode_base header
  | ConstAddPc => 8 < opcode_base header /\ line_range header <> 0
  | FixedAdvancePc n => 9 < opcode_base header /\ fits 16 n
  | EndSequence => 0 < opcode_base header
  | SetAddress a => 0 < opcode_base header /\ fits (8 * address_size_ r) a
  | OtherExtended opcode payload => 0 < opcode_base header /\ 3 < opcode < 256 /\ Z.of_nat (length payload) < 2 ^ 62
  | OtherStandard opcode arguments =>
      9 < opcode < opcode_base header /\ Forall (fits 64) arguments /\
      std_opcode_lengths header !! Z.to_nat opcode = Some (Z.of_nat (length arguments))
  end.

(** What an opcode does to the registers, and whether it then adds a row. *)
Definition op_effect (op : LineOp) (lsm : LineStateMachine) : LineStateMachine :=
  let advance n := set_lsm_address (u64 (lsm_address lsm + n)) lsm in
  match op with
  | SpecialOp opcode =>
      let adjusted := opcode - opcode_base header in
      set_basic_block true (set_line_num (u32 (line_num lsm + (line_base header + adjusted mod line_range header)))
        (advance (min_insn_length header * (adjusted / line_range header))))
  | CopyRow => set_basic_block false lsm
  | AdvancePc n => advance (min_insn_length header * n)
  | AdvanceLine n => set_line_num (u32 (line_num lsm + n)) lsm
  | SetFile n => set_file_num n lsm
  | SetColumn n => set_column_num n lsm
  | NegateStmt => set_is_stmt (negb (is_stmt lsm)) lsm
  | SetBasicBlock => set_basic_block true lsm
  | ConstAddPc => advance (min_insn_length header * ((255 - opcode_base header) / line_range header))
  | FixedAdvancePc n => advance n
  | EndSequence => set_end_sequence true lsm
  | SetAddress a => set_lsm_address a lsm
  | OtherExtended _ _ | OtherStandard _ _ => lsm
  end.

Definition op_adds_row (op : LineOp) : bool := match op with SpecialOp _ | CopyRow | EndSequence => true | _ => false end.

(** The rows of the table: the registers when a row is added; a sequence starts afresh. *)
Fixpoint rows (ops : list LineOp) (lsm : LineStateMachine) : list LineStateMachine :=
  match ops with
  | [] => []
  | op :: ops =>
      let lsm := op_effect op lsm in
      if op_adds_row op then lsm :: rows ops (if end_sequence lsm then Reset (default_is_stmt header) else lsm)
      else rows ops lsm
  end.

(** ** Decoding an opcode *)

Section decoding.
Context {H : Type} `{LineInfoHandler H} (section : list Z).
Implicit Types (h : H) (p : Z).
Context (Hsize : address_size_ r = 4 \/ address_size_ r = 8) (Hlength : Z.of_nat (length section) < 2 ^ 62).

Lemma holds_cons p b bs : holds section p (b :: bs) <-> holds section p [b] /\ holds section (p + 1) bs.
Proof. change (b :: bs) with ([b] ++ bs). by rewrite holds_app. Qed.

Lemma one_byte p b : holds section p [b] -> ReadOneByte r section p = Ok b.
Proof.
  intros Hb. unfold ReadOneByte, read_number. change 1%nat with (length [b]). rewrite bytes_at_holds by done.
  rewrite bind_Ok. f_equal. destruct (endian_ r); cbn; by rewrite Z.lor_0_r, Z.shiftl_0_r.
Qed.

Lemma skip_arguments_read arguments : forall p oplen,
  Forall (fits 64) arguments -> holds section p (concat (uleb128 <$> arguments)) ->
  0 <= oplen -> oplen + Z.of_nat (length (concat (uleb128 <$> arguments))) < 2 ^ 64 ->
  skip_arguments section (length arguments) p oplen = Ok (oplen + Z.of_nat (length (concat (uleb128 <$> arguments)))).
Proof.
  induction arguments as [|a arguments IH]; intros p oplen Hf Hb Hge Hl; [cbn; f_equal; lia|].
  inversion Hf as [|? ? Ha Hf']; subst. cbn [fmap list_fmap concat length skip_arguments] in *.
  apply holds_app in Hb as [Hb1 Hb2]. rewrite length_app in Hl |- *.
  rewrite (uleb128_read _ _ a Ha Hb1), bind_Ok. unfold u64. rewrite wrap_small by (unfold fits; lia).
  rewrite IH by (done || lia). f_equal. lia.
Qed.

Lemma wrap_add_wrap w a b : wrap w (a + wrap w b) = wrap w (a + b).
Proof. unfold wrap. apply Zplus_mod_idemp_r. Qed.

Lemma two_bytes p n : fits 16 n -> holds section p (bytes_of (endian_ r) 2 n) -> ReadTwoBytes r section p = Ok n.
Proof. intros Hn Hb. unfold ReadTwoBytes. rewrite (read_number_bytes _ _ _ 2 n) by (done || lia). by rewrite wrap_small. Qed.

Lemma sleb_small p n : - 2 ^ 31 <= n < 2 ^ 31 -> holds section p (sleb128 n) ->
  ReadSignedLEB128 section p = Ok (n, Z.of_nat (length (sleb128 n))).
Proof.
  intros Hn Hb. rewrite (sleb128_read _ _ n) by (done || lia).
  assert (sleb128_overflows n = false) as -> by (unfold sleb128_overflows; apply andb_false_iff; right; apply Z.ltb_ge; lia). done.
Qed.

Lemma uleb128_nonempty n : uleb128 n <> [].
Proof. unfold uleb128. apply leb_bytes_nonempty. cbn [unsigned_groups]. by dif. Qed.

(** The length and the opcode of an extended opcode are read. *)
Lemma extended_read p n opcode lsm h :
  holds section p (uleb128 n) -> holds section (p + Z.of_nat (length (uleb128 n))) [opcode] -> 0 <= n < 2 ^ 63 ->
  let oplen := 1 + Z.of_nat (length (uleb128 n)) + n in
  let start := p + Z.of_nat (length (uleb128 n)) + 1 in
  extended_opcode section r p lsm None h =
  if opcode =? 1 then Ok (mkOpResult true (set_end_sequence true lsm) oplen None h)
  else if opcode =? 2 then
    address ← ReadAddress r section start; Ok (mkOpResult false (set_lsm_address address lsm) oplen None h)
  else if opcode =? 3 then
    '(filename, start) ← read_string section start;
    '(dirindex, templen) ← ReadUnsignedLEB128 section start;
    let oplen := u64 (oplen + templen) in
    '(mod_time, templen) ← ReadUnsignedLEB128 section start;
    let oplen := u64 (oplen + templen) in
    '(filelength, templen) ← ReadUnsignedLEB128 section start;
    let oplen := u64 (oplen + templen) in
    h ← DefineFile filename (-1) (u32 dirindex) mod_time filelength h;
    Ok (mkOpResult false lsm oplen None h)
  else Ok (mkOpResult false lsm oplen None h).
Proof.
  intros Hb1 Hb2 Hn oplen start. unfold extended_opcode. rewrite (uleb128_read _ _ n) by (done || (unfold fits; lia)).
  rewrite bind_Ok, (one_byte _ _ Hb2), bind_Ok.
  pose proof (holds_within _ _ _ Hb1 (uleb128_nonempty n)) as Hw. assert (0 <= p) by apply Hb1.
  assert (u64 (1 + Z.of_nat (length (uleb128 n)) + n) = 1 + Z.of_nat (length (uleb128 n)) + n) as ->
    by (unfold u64; rewrite wrap_small; [done|unfold fits; lia]).
  done.
Qed.

(** The opcode byte of a standard opcode is read and recognised. *)
Ltac standard Hb :=
  lazymatch type of Hb with
  | holds _ ?p [?k] => rewrite (one_byte p k Hb)
  | holds _ ?p (?k :: _) => apply holds_cons in Hb as [Hb0 Hb]; rewrite (one_byte p k Hb0)
  end;
  rewrite bind_Ok; rewrite (proj2 (Z.leb_gt _ _)) by (destruct_and?; lia);
  unfold DW_LNS_extended_op, DW_LNS_copy, DW_LNS_advance_pc, DW_LNS_advance_line, DW_LNS_set_file, DW_LNS_set_column, DW_LNS_negate_stmt,
    DW_LNS_set_basic_block, DW_LNS_const_add_pc, DW_LNS_fixed_advance_pc;
  cbn [Z.eqb Pos.eqb].

(** An opcode in the buffer is run as what it means, and its length is that of its bytes. *)
Lemma ProcessOneOpcode_op p op lsm pc h :
  op_ok op -> holds section p (op_bytes op) ->
  ProcessOneOpcode section r header p lsm pc None h =
  Ok (mkOpResult (op_adds_row op) (op_effect op lsm) (Z.of_nat (length (op_bytes op))) None h).
Proof.
  intros Hok Hb. assert (Hp: 0 <= p) by apply Hb.
  assert (Hlen: p + Z.of_nat (length (op_bytes op)) <= Z.of_nat (length section)) by (apply (holds_within _ _ _ Hb); by destruct op).
  destruct op as [opcode| |n|n|n|n| | | |n| |a|opcode payload|opcode arguments]; cbn [op_bytes op_ok op_adds_row op_effect] in *;
    unfold ProcessOneOpcode.
  - destruct Hok as [Ho Hr]. rewrite (one_byte p _ Hb), bind_Ok, (proj2 (Z.leb_le _ _)), (proj2 (Z.eqb_neq _ _) Hr) by lia.
    cbn [passes_if length]. unfold advance_lsm. rewrite (Z.mul_comm (min_insn_length header)), (Z.add_comm (line_base header)). done.
  - standard Hb. done.
  - standard Hb. rewrite (uleb128_read _ _ n) by tauto. rewrite bind_Ok. unfold advance_lsm, u64.
    rewrite wrap_add_wrap. f_equal. f_equal. cbn [length]. lia.
  - standard Hb. rewrite (sleb_small _ n) by tauto. rewrite bind_Ok. unfold s32. rewrite swrap_small by lia. f_equal. f_equal. cbn [length]. lia.
  - standard Hb. rewrite (uleb128_read _ _ n) by (unfold fits in *; tauto || lia). rewrite bind_Ok. unfold u32. rewrite wrap_small by tauto. f_equal. f_equal. cbn [length]. lia.
  - standard Hb. rewrite (uleb128_read _ _ n) by (unfold fits in *; tauto || lia). rewrite bind_Ok. unfold u32. rewrite wrap_small by tauto. f_equal. f_equal. cbn [length]. lia.
  - standard Hb. done.
  - standard Hb. done.
  - standard Hb. rewrite (proj2 (Z.eqb_neq _ _)) by tauto. done.
  - standard Hb. rewrite (two_bytes _ n) by tauto. rewrite bind_Ok. cbn [length]. rewrite length_bytes_of. done.
  - standard Hb. apply holds_app in Hb as [Hb1 Hb2].
    by rewrite (extended_read _ 1 1 lsm h Hb1 Hb2 ltac:(lia)).
  - standard Hb. apply holds_app in Hb as [Hb1 Hb2]. destruct Hok as [Hbase Ha]. apply holds_cons in Hb2 as [Hb2 Hb3].
    assert (Hs: length (bytes_of (endian_ r) (Z.to_nat (address_size_ r)) a) = Z.to_nat (address_size_ r)) by apply length_bytes_of.
    rewrite (extended_read _ _ 2 lsm h Hb1 Hb2) by (destruct Hsize; lia). cbn [Z.eqb Pos.eqb].
    unfold ReadAddress. rewrite (sized_reader_bytes _ _ _ (address_size_ r) a Hsize Hb3), bind_Ok, wrap_small by done.
    f_equal. f_equal. cbn [length]. rewrite length_app. cbn [length]. lia.
  - standard Hb. apply holds_app in Hb as [Hb1 Hb2]. destruct Hok as (Hbase & Ho & Hpay). apply holds_cons in Hb2 as [Hb2 _].
    rewrite (extended_read _ _ opcode lsm h Hb1 Hb2) by lia.
    rewrite !(proj2 (Z.eqb_neq opcode _)) by lia. f_equal. f_equal. cbn [length]. rewrite length_app. cbn [length]. lia.
  - destruct Hok as (Ho & Ha & Hn). apply holds_cons in Hb as [Hb0 Hb]. rewrite (one_byte p _ Hb0), bind_Ok, (proj2 (Z.leb_gt _ _)) by lia.
    unfold DW_LNS_extended_op, DW_LNS_copy, DW_LNS_advance_pc, DW_LNS_advance_line, DW_LNS_set_file, DW_LNS_set_column, DW_LNS_negate_stmt,
      DW_LNS_set_basic_block, DW_LNS_const_add_pc, DW_LNS_fixed_advance_pc. rewrite !(proj2 (Z.eqb_neq opcode _)) by lia.
    rewrite Hn. cbn [from_option id]. rewrite Nat2Z.id. cbn [length] in Hlen.
    rewrite skip_arguments_read by (done || lia). rewrite bind_Ok. f_equal. f_equal. cbn [length]. lia.
Qed.

(** *** The lines between the rows *)

(** The line from a row up to the next: its address and length, file, line and column. *)
Definition line_between (r1 r2 : LineStateMachine) : Z * Z * Z * Z * Z :=
  (lsm_address r1, u64 (lsm_address r2 - lsm_address r1), file_num r1, line_num r1, column_num r1).

(** No line starts at the end of a sequence, nor at the last row. *)
Fixpoint row_lines (rs : list LineStateMachine) : list (Z * Z * Z * Z * Z) :=
  match rs with
  | r1 :: ((r2 :: _) as rest) => (if end_sequence r1 then [] else [line_between r1 r2]) ++ row_lines rest
  | _ => []
  end.

Fixpoint add_lines (ls : list (Z * Z * Z * Z * Z)) h : outcome H :=
  match ls with
  | [] => Ok h
  | (address, length, file, line, column) :: ls => h ← AddLine address length file line column h; add_lines ls h
  end.

Definition pending_of (row : LineStateMachine) : PendingLine :=
  mkPendingLine (lsm_address row) (file_num row) (line_num row) (column_num row).

Lemma lines_loop_ops ops : forall fuel p lsm prev h,
  Forall op_ok ops -> holds section p (concat (op_bytes <$> ops)) -> (length ops <= fuel)%nat ->
  (forall row, prev = Some row -> end_sequence row = false) ->
  lines_loop section r header fuel p (p + Z.of_nat (length (concat (op_bytes <$> ops)))) lsm (pending_of <$> prev) h =
  add_lines (row_lines (match prev with Some row => row :: rows ops lsm | None => rows ops lsm end)) h.
Proof.
  induction ops as [|op ops IH]; intros fuel p lsm prev h Hok Hb Hf Hprev.
  - cbn [fmap list_fmap concat length]. destruct fuel; cbn [lines_loop]; rewrite Z.add_0_r, Z.ltb_irrefl; by destruct prev.
  - inversion Hok as [|? ? Ho Hok']; subst. cbn [fmap list_fmap concat] in *. pose proof Hb as Hall. apply holds_app in Hb as [Hb1 Hb2].
    assert (Hne: op_bytes op <> []) by (by destruct op). assert (Hpos: (0 < length (op_bytes op))%nat) by (destruct (op_bytes op); [done|cbn; lia]).
    pose proof (holds_within _ _ _ Hb1 Hne) as Hin. rewrite length_app.
    destruct fuel as [|fuel]; [cbn in Hf; lia|]. cbn [length] in Hf. cbn [lines_loop]. rewrite (proj2 (Z.ltb_lt _ _)) by lia.
    rewrite (ProcessOneOpcode_op p op lsm _ h Ho Hb1), bind_Ok. cbn [add_row op_lsm op_handler op_len].
    assert (Hadv: advance section p (Z.of_nat (length (op_bytes op))) = Ok (p + Z.of_nat (length (op_bytes op))))
      by (unfold advance; by rewrite (proj2 (Z.leb_le _ _)) by lia).
    replace (p + Z.of_nat (length (op_bytes op) + length (concat (op_bytes <$> ops))))
      with (p + Z.of_nat (length (op_bytes op)) + Z.of_nat (length (concat (op_bytes <$> ops)))) by lia.
    cbn [rows]. set (lsm' := op_effect op lsm). destruct (op_adds_row op).
    + unfold take_row.
      assert (Hstep: forall h,
        ('(lsm, pending, h) ← (if end_sequence lsm' then Ok (Reset (default_is_stmt header), None, h)
                               else Ok (lsm', Some (pending_of lsm'), h));
         lineptr ← advance section p (Z.of_nat (length (op_bytes op)));
         lines_loop section r header fuel lineptr (p + Z.of_nat (length (op_bytes op)) + Z.of_nat (length (concat (op_bytes <$> ops)))) lsm pending h) =
        add_lines (row_lines (lsm' :: rows ops (if end_sequence lsm' then Reset (default_is_stmt header) else lsm'))) h).
      { intros h'. destruct (end_sequence lsm') eqn:Ee; rewrite bind_Ok, Hadv, bind_Ok.
        - rewrite (IH fuel _ _ None h' Hok' Hb2 ltac:(lia)) by done. cbn [row_lines]. rewrite Ee. by destruct (rows ops _).
        - rewrite (IH fuel _ _ (Some lsm') h' Hok' Hb2 ltac:(lia)) by (by intros ? [= <-]). done. }
      destruct prev as [row|]; cbn [fmap option_fmap option_map].
      * change (row_lines (row :: lsm' :: ?t)) with ((if end_sequence row then [] else [line_between row lsm']) ++ row_lines (lsm' :: t)).
        rewrite (Hprev row eq_refl). cbn [app add_lines line_between pending_of pending_address pending_file_num pending_line_num pending_column_num].
        destruct (AddLine _ _ _ _ _ h) as [h'| |]; [|done|done]. cbn [mbind outcome_bind]. apply Hstep.
      * apply Hstep.
    + rewrite bind_Ok, Hadv, bind_Ok. by rewrite (IH fuel _ _ prev h Hok' Hb2 ltac:(lia) Hprev).
Qed.
End decoding.
End program.

(** ** The header *)

Definition string_bytes (name : cstring) : list Z := (code <$> name) ++ [0].

Definition name_ok (name : cstring) : Prop := name <> [] /\ Forall (λ c, code c <> 0) name.

(** A file of the table: its name, directory, time and length. *)
Abbreviation LineFile := (cstring * Z * Z * Z)%type.

Definition file_bytes (f : LineFile) : list Z :=
  let '(name, dir, time, length) := f in string_bytes name ++ uleb128 dir ++ uleb128 time ++ uleb128 length.

Definition file_ok (f : LineFile) : Prop :=
  let '(name, dir, time, length) := f in name_ok name /\ fits 32 dir /\ fits 64 time /\ fits 64 length.

Lemma length_pieces {A} (f : A -> list Z) (l : list A) : (forall x, f x <> []) -> (length l <= length (concat (f <$> l)))%nat.
Proof.
  intros Hne. induction l as [|x l IH]; [done|]. rewrite fmap_cons. cbn [concat length]. rewrite length_app. specialize (Hne x).
  destruct (f x); [done|]. cbn [length]. lia.
Qed.

Lemma string_bytes_nonempty name : string_bytes name <> [].
Proof. unfold string_bytes. by destruct (code <$> name). Qed.

Lemma file_bytes_nonempty f : file_bytes f <> [].
Proof. destruct f as [[[n ?] ?] ?]. cbn [file_bytes]. pose proof (string_bytes_nonempty n). by destruct (string_bytes n). Qed.

Lemma holds_length (mem : list Z) p bs : holds mem p bs -> (length bs <= length mem)%nat.
Proof. intros [_ E]. rewrite <- E. unfold slice. rewrite length_take, length_drop. lia. Qed.

Section unit.
Context {H : Type} `{LineInfoHandler H}.
Implicit Types (h : H) (p : Z).

(** Telling the handler the directories and the files, numbered from [i] on. *)
Fixpoint define_dirs (i : Z) (dirs : list cstring) h : outcome H :=
  match dirs with
  | [] => Ok h
  | name :: dirs => h ← DefineDir name i h; define_dirs (i + 1) dirs h
  end.

Fixpoint define_files (i : Z) (files : list LineFile) h : outcome H :=
  match files with
  | [] => Ok h
  | (name, dir, time, length) :: files => h ← DefineFile name i dir time length h; define_files (i + 1) files h
  end.

(** The bytes of a header, up to the program. *)
Definition header_bytes (r : ByteReader) (dwarf64 : bool) (header : LineInfoHeader) (lengths : list Z) (dirs : list cstring)
    (files : list LineFile) : list Z :=
  let e := endian_ r in
  bytes_of e 2 (header_version header) ++ bytes_of e (if dwarf64 then 8%nat else 4%nat) (prologue_length header) ++ [min_insn_length header] ++
  (if 4 <=? header_version header then [1] else []) ++
  [if default_is_stmt header then 1 else 0; wrap 8 (line_base header); line_range header; opcode_base header] ++ lengths ++
  concat (string_bytes <$> dirs) ++ [0] ++ concat (file_bytes <$> files) ++ [0].

Definition length_bytes (r : ByteReader) (dwarf64 : bool) (n : Z) : list Z :=
  if dwarf64 then bytes_of (endian_ r) 4 0xffffffff ++ bytes_of (endian_ r) 8 n else bytes_of (endian_ r) 4 n.

(** The fields fit, and the unit's length is that of what follows it. *)
Record unit_ok (r : ByteReader) (dwarf64 : bool) (header : LineInfoHeader) (lengths : list Z) (dirs : list cstring)
    (files : list LineFile) (ops : list LineOp) : Prop := {
  uk_address : address_size_ r = 4 \/ address_size_ r = 8;
  uk_length : total_length header =
    Z.of_nat (length (header_bytes r dwarf64 header lengths dirs files) + length (concat (op_bytes r <$> ops)));
  uk_32 : dwarf64 = false -> total_length header < 0xffffffff;
  uk_version : fits 16 (header_version header);
  uk_prologue : fits (if dwarf64 then 64 else 32) (prologue_length header);
  uk_line_base : -128 <= line_base header < 128;
  uk_lengths : length lengths = Z.to_nat (opcode_base header - 1);
  uk_standard : std_opcode_lengths header = 0 :: lengths ++ (if opcode_base header =? 0 then [] else [0]);
  uk_dirs : Forall name_ok dirs;
  uk_files : Forall file_ok files;
  uk_ops : Forall (op_ok r header) ops
}.

Section reading.
Context (section : list Z) (Hsection : Z.of_nat (length section) < 2 ^ 31).

Lemma deref_holds p b : holds section p [b] -> deref section p = Ok b.
Proof.
  intros Hb. unfold deref. rewrite (proj2 (Z.ltb_ge _ _)) by apply Hb.
  pose proof (holds_lookup _ _ _ 0 b Hb eq_refl) as E. rewrite Nat.add_0_r in E. by rewrite E.
Qed.

Lemma find_null_string name rest : Forall (λ c, code c <> 0) name -> find_null ((code <$> name) ++ 0 :: rest) = Some (length name).
Proof.
  induction 1 as [|c name Hc _ IH]; [done|]. rewrite fmap_cons. cbn [app find_null length]. by rewrite (proj2 (Z.eqb_neq _ _) Hc), IH.
Qed.

Lemma read_string_holds p name :
  Forall (λ c, code c <> 0) name -> holds section p (string_bytes name) ->
  read_string section p = Ok (name, p + Z.of_nat (length (string_bytes name))).
Proof.
  intros Hn Hb. destruct (holds_from _ _ _ Hb) as [rest E]. unfold read_string. rewrite E. unfold string_bytes.
  rewrite <- app_assoc. cbn [app]. rewrite find_null_string by done. f_equal. f_equal.
  - rewrite take_app_length' by (by rewrite length_fmap). rewrite <- list_fmap_compose. rewrite <- (list_fmap_id name) at 2.
    apply list_fmap_ext. intros i c _. apply chr_code.
  - rewrite length_app, length_fmap. cbn [length]. lia.
Qed.

Lemma first_char p name bs : name_ok name -> holds section p (string_bytes name ++ bs) -> exists b, deref section p = Ok b /\ b <> 0.
Proof.
  intros [Hne Hc] Hb. destruct name as [|c name]; [done|]. exists (code c). inversion Hc; subst. split; [|done].
  apply deref_holds. change (string_bytes (c :: name) ++ bs) with ([code c] ++ string_bytes name ++ bs) in Hb. by apply holds_app in Hb as [? _].
Qed.

Lemma read_dirs_holds dirs : forall fuel p i h,
  Forall name_ok dirs -> holds section p (concat (string_bytes <$> dirs) ++ [0]) -> (length dirs < fuel)%nat ->
  0 <= i -> i + Z.of_nat (length dirs) < 2 ^ 32 ->
  read_dirs section fuel p i h = h ← define_dirs i dirs h; Ok (p + Z.of_nat (length (concat (string_bytes <$> dirs))), h).
Proof.
  induction dirs as [|name dirs IH]; intros fuel p i h Hok Hb Hf Hi Hn; (destruct fuel as [|fuel]; [cbn in Hf; lia|]); cbn [read_dirs].
  - cbn [fmap list_fmap concat app length] in *. rewrite (deref_holds _ _ Hb). cbn. by rewrite Z.add_0_r.
  - inversion Hok as [|? ? Hname Hok']; subst. cbn [fmap list_fmap concat length] in *. rewrite <- app_assoc in Hb.
    destruct (first_char _ _ _ Hname Hb) as (b & -> & Hz). rewrite bind_Ok, (proj2 (Z.eqb_neq _ _) Hz). apply holds_app in Hb as [Hb1 Hb2].
    rewrite (read_string_holds _ _ (proj2 Hname) Hb1), bind_Ok. cbn [define_dirs]. destruct (DefineDir name i h) as [h'| |]; [|done|done].
    cbn [mbind outcome_bind]. unfold u32. rewrite (wrap_small 32) by (unfold fits; lia). rewrite (IH fuel _ _ _ Hok' Hb2) by lia.
    rewrite length_app. destruct (define_dirs _ _ _) as [h''| |]; [|done|done]. cbn [mbind outcome_bind]. f_equal. f_equal. lia.
Qed.

Lemma read_files_holds files : forall fuel p i h,
  Forall file_ok files -> holds section p (concat (file_bytes <$> files) ++ [0]) -> (length files < fuel)%nat ->
  0 <= i -> i + Z.of_nat (length files) < 2 ^ 31 ->
  read_files section fuel p i h = h ← define_files i files h; Ok (p + Z.of_nat (length (concat (file_bytes <$> files))), h).
Proof.
  induction files as [|f files IH]; intros fuel p i h Hok Hb Hf Hi Hn; (destruct fuel as [|fuel]; [cbn in Hf; lia|]); cbn [read_files].
  - cbn [fmap list_fmap concat app length] in *. rewrite (deref_holds _ _ Hb). cbn. by rewrite Z.add_0_r.
  - inversion Hok as [|? ? Hfile Hok']; subst. cbn [fmap list_fmap concat length] in *. destruct f as [[[name dir] time] len].
    destruct Hfile as (Hname & Hdir & Htime & Hlen). cbn [file_bytes] in *. rewrite <- app_assoc in Hb. rewrite <- app_assoc in Hb.
    destruct (first_char _ _ _ Hname Hb) as (b & -> & Hz). rewrite bind_Ok, (proj2 (Z.eqb_neq _ _) Hz). apply holds_app in Hb as [Hb1 Hb2].
    rewrite (read_string_holds _ _ (proj2 Hname) Hb1), bind_Ok. rewrite <- app_assoc in Hb2. apply holds_app in Hb2 as [Hb2 Hb3].
    rewrite (uleb128_read _ _ dir) by (done || (unfold fits in *; lia)). rewrite bind_Ok.
    rewrite <- app_assoc in Hb3. apply holds_app in Hb3 as [Hb3 Hb4]. rewrite (uleb128_read _ _ time) by done. rewrite bind_Ok.
    apply holds_app in Hb4 as [Hb4 Hb5]. rewrite (uleb128_read _ _ len) by done. rewrite bind_Ok.
    cbn [define_files]. unfold u32, s32. rewrite (wrap_small 32 dir) by done. rewrite swrap_small by lia.
    destruct (DefineFile name i dir time len h) as [h'| |]; [|done|done].
    cbn [mbind outcome_bind]. rewrite (wrap_small 32) by (unfold fits; lia). rewrite (IH fuel _ _ _ Hok' Hb5) by lia.
    rewrite !length_app. destruct (define_files _ _ _) as [h''| |]; [|done|done]. cbn [mbind outcome_bind]. f_equal. f_equal. lia.
Qed.

Lemma read_lengths_holds r lengths : forall p,
  holds section p lengths -> read_lengths r section p (length lengths) = Ok lengths.
Proof.
  induction lengths as [|b lengths IH]; intros p Hb; [done|]. cbn [length read_lengths]. apply holds_cons in Hb as [Hb1 Hb2].
  by rewrite (one_byte r section p b Hb1), bind_Ok, (IH _ Hb2), bind_Ok.
Qed.

Definition unit_reader (r : ByteReader) (dwarf64 : bool) : ByteReader := with_offset_size r (if dwarf64 then 8 else 4).
Definition length_size (dwarf64 : bool) : Z := if dwarf64 then 12 else 4.

Lemma read_initial_length (r : ByteReader) (dwarf64 : bool) n :
  fits (if dwarf64 then 64 else 32) n -> (dwarf64 = false -> n < 0xffffffff) -> holds section 0 (length_bytes r dwarf64 n) ->
  ReadInitialLength r section 0 = Ok (n, length_size dwarf64, unit_reader r dwarf64).
Proof.
  intros Hn Hsmall Hb. unfold length_bytes in Hb. unfold ReadInitialLength, ReadFourBytes. cbn [Z.eqb] in *. destruct dwarf64.
  - apply holds_app in Hb as [Hb1 Hb2]. rewrite length_bytes_of in Hb2. rewrite (read_number_bytes r section 0 4 0xffffffff) by (done || lia).
    rewrite bind_Ok. change (ReadOffset (with_offset_size r 8) section 4) with (sized_reader 8 (unit_reader r true) section 4).
    change (wrap (8 * Z.of_nat 4) 0xffffffff =? 0xffffffff) with true. cbn match. change (SetOffsetSize r 8) with (Ok (unit_reader r true)). rewrite bind_Ok.
    unfold ReadOffset. cbn [unit_reader with_offset_size offset_size_].
    rewrite (sized_reader_bytes (unit_reader r true) section _ 8 n) by (by right || done). by rewrite bind_Ok, wrap_small.
  - rewrite (read_number_bytes r section 0 4 n) by (done || lia). rewrite bind_Ok, wrap_small, (proj2 (Z.eqb_neq n _)) by (done || (specialize (Hsmall eq_refl); lia)).
    done.
Qed.

Lemma length_length_bytes r dwarf64 n : Z.of_nat (length (length_bytes r dwarf64 n)) = length_size dwarf64.
Proof. unfold length_bytes. destruct dwarf64; rewrite ?length_app, !length_bytes_of; done. Qed.

(** A byte or a number at the pointer, and the pointer moved past it. *)
Ltac field Hb :=
  let Hf := fresh "Hf" in
  apply holds_app in Hb as [Hf Hb]; rewrite ?length_bytes_of in Hb; cbn [length] in Hb;
  try change (Z.of_nat 2) with 2 in Hb; try change (Z.of_nat 1) with 1 in Hb.

Lemma s8_wrap n : -128 <= n < 128 -> s8 (wrap 8 n) = n.
Proof. intros Hn. rewrite <- (swrap_small 8 n) at 2 by lia. unfold s8, swrap, wrap. f_equal. apply Zplus_mod_idemp_l. Qed.

Lemma ReadHeader_holds r dwarf64 header lengths dirs files ops h :
  unit_ok r dwarf64 header lengths dirs files ops ->
  holds section 0 (length_bytes r dwarf64 (total_length header) ++ header_bytes r dwarf64 header lengths dirs files ++ concat (op_bytes r <$> ops)) ->
  ReadHeader section r h =
  h ← define_dirs 1 dirs h; h ← define_files 1 files h;
  Ok (header, length_size dwarf64 + Z.of_nat (length (header_bytes r dwarf64 header lengths dirs files)), unit_reader r dwarf64, h).
Proof.
  intros [Hsize Hlen H32 Hversion Hpro Hbase Hlengths Hstd Hdirs Hfiles Hops] Hb.
  pose proof (holds_within _ _ _ Hb) as Hin. rewrite !length_app in Hin.
  assert (Hls: 0 < length_size dwarf64) by (by destruct dwarf64).
  pose proof (length_length_bytes r dwarf64 (total_length header)) as Hll.
  specialize (Hin ltac:(intros E; apply (f_equal length) in E; rewrite length_app in E; cbn in E; lia)).
  unfold ReadHeader. apply holds_app in Hb as [Hb0 Hb]. rewrite Hll, Z.add_0_l in Hb.
  assert (fits (if dwarf64 then 64 else 32) (total_length header)). 
    by (unfold fits; rewrite Hlen; destruct dwarf64; lia).
  rewrite (read_initial_length r dwarf64 _) by done. rewrite bind_Ok.
  rewrite (proj2 (Z.leb_le _ _)) by lia. assert (Hs0: (address_size_ r =? 0) = false) by (destruct Hsize as [E|E]; by rewrite E).
  change (address_size_ (unit_reader r dwarf64)) with (address_size_ r). rewrite Hs0. cbn [negb orb].
  apply holds_app in Hb as [Hb _]. unfold header_bytes in Hb.
  field Hb. rewrite (two_bytes (unit_reader r dwarf64) section _ (header_version header)) by done. rewrite bind_Ok.
  field Hb. unfold ReadOffset. change (offset_size_ (unit_reader r dwarf64)) with (if dwarf64 then 8 else 4).
  rewrite (sized_reader_bytes (unit_reader r dwarf64) section _ (if dwarf64 then 8 else 4) (prologue_length header))
    by (destruct dwarf64; auto). rewrite bind_Ok, wrap_small by (by destruct dwarf64).
  replace (Z.of_nat (if dwarf64 then 8%nat else 4%nat)) with (if dwarf64 then 8 else 4) in Hb by (by destruct dwarf64).
  field Hb. rewrite (one_byte (unit_reader r dwarf64) section _ _ Hf1), bind_Ok.
  field Hb.
  match goal with |- (lineptr ← ?e; _) = _ =>
    assert (e = Ok (length_size dwarf64 + 2 + (if dwarf64 then 8 else 4) + 1 + Z.of_nat (length (if 4 <=? header_version header then [1] else [])))) as ->
  end.
  { destruct (4 <=? header_version header); [|cbn; f_equal; lia]. by rewrite (one_byte (unit_reader r dwarf64) section _ _ Hf2). }
  rewrite bind_Ok.
  change ([?a; ?b; ?c; ?d] ++ ?rest) with ([a] ++ [b] ++ [c] ++ [d] ++ rest) in Hb.
  field Hb. rewrite (one_byte (unit_reader r dwarf64) section _ _ Hf3), bind_Ok.
  field Hb. rewrite (deref_holds _ _ Hf4), bind_Ok.
  field Hb. rewrite (one_byte (unit_reader r dwarf64) section _ _ Hf5), bind_Ok.
  field Hb. rewrite (one_byte (unit_reader r dwarf64) section _ _ Hf6), bind_Ok.
  rewrite <- Hlengths. field Hb. rewrite (read_lengths_holds (unit_reader r dwarf64) lengths _ Hf7), bind_Ok.
  rewrite (app_assoc (concat (string_bytes <$> dirs))) in Hb.
  pose proof (holds_within _ _ _ Hb) as Hin2. rewrite !length_app in Hin2. cbn [length] in Hin2.
  specialize (Hin2 ltac:(intros E; apply (f_equal length) in E; rewrite !length_app in E; cbn in E; lia)).
  pose proof (length_pieces _ dirs string_bytes_nonempty). pose proof (length_pieces _ files file_bytes_nonempty).
  pose proof (proj1 Hb) as Hge.
  field Hb. rewrite (read_dirs_holds dirs) by (done || lia).
  destruct (define_dirs 1 dirs h) as [h1| |]; [|done|done]. rewrite !bind_Ok.
  rewrite length_app, Nat2Z.inj_add, Z.add_assoc in Hb. change (Z.of_nat (length [0])) with 1 in Hb.
  rewrite (read_files_holds files) by (done || lia).
  destruct (define_files 1 files h1) as [h2| |]; [|done|done]. rewrite !bind_Ok.
  f_equal. f_equal. f_equal. f_equal.
  - rewrite <- Hstd. destruct header as [? ? ? ? stmt base]. cbn in Hbase |- *. rewrite (s8_wrap base) by done. by destruct stmt.
  - unfold header_bytes. rewrite !length_app, !length_bytes_of. cbn [length]. destruct dwarf64; lia.
Qed.

(** The program is read from the header's end to the unit's. *)
Lemma LineInfo_Start_holds r dwarf64 header lengths dirs files ops h :
  unit_ok r dwarf64 header lengths dirs files ops ->
  holds section 0 (length_bytes r dwarf64 (total_length header) ++ header_bytes r dwarf64 header lengths dirs files ++ concat (op_bytes r <$> ops)) ->
  LineInfo_Start section r h =
  h ← define_dirs 1 dirs h; h ← define_files 1 files h;
  h ← add_lines (row_lines (rows header ops (Reset (default_is_stmt header)))) h;
  Ok (length_size dwarf64 + total_length header, unit_reader r dwarf64, h).
Proof.
  intros Hu Hb. unfold LineInfo_Start. rewrite (ReadHeader_holds r dwarf64 header lengths dirs files ops h Hu Hb).
  destruct (define_dirs 1 dirs h) as [h1| |]; [|done|done]. cbn [mbind outcome_bind].
  destruct (define_files 1 files h1) as [h2| |]; [|done|done]. cbn [mbind outcome_bind].
  destruct Hu as [Hsize Hlen H32 Hversion Hpro Hbase Hlengths Hstd Hdirs Hfiles Hops].
  apply holds_app in Hb as [_ Hb]. rewrite length_length_bytes, Z.add_0_l in Hb. apply holds_app in Hb as [_ Hb].
  unfold ReadLines. change (offset_size_ (unit_reader r dwarf64)) with (if dwarf64 then 8 else 4).
  replace (if (if dwarf64 then 8 else 4) =? 8 then 12 else 4) with (length_size dwarf64) by (by destruct dwarf64).
  replace (length_size dwarf64 + total_length header) with
    (length_size dwarf64 + Z.of_nat (length (header_bytes r dwarf64 header lengths dirs files)) +
     Z.of_nat (length (concat (op_bytes r <$> ops)))) at 1 by lia.
  change (@op_bytes (unit_reader r dwarf64)) with (@op_bytes r).
  rewrite (lines_loop_ops (unit_reader r dwarf64) header section Hsize) with (prev := None); [| |done|done| |done].
  - cbn. by destruct (add_lines _ h2).
  - lia.
  - pose proof (length_pieces (op_bytes (unit_reader r dwarf64)) ops ltac:(by intros [])).
    apply holds_length in Hb. change (@op_bytes (unit_reader r dwarf64)) with (@op_bytes r) in *. lia.
Qed.
End reading.
End unit.

(** ** The unit *)

(** The bytes of a unit. *)
Definition unit_bytes (r : ByteReader) (dwarf64 : bool) (header : LineInfoHeader) (lengths : list Z) (dirs : list cstring)
    (files : list LineFile) (ops : list LineOp) : list Z :=
  length_bytes r dwarf64 (total_length header) ++ header_bytes r dwarf64 header lengths dirs files ++ concat (op_bytes r <$> ops).

(** C32: running the line number program of a unit -- 32-bit or 64-bit DWARF, either byte
    order, with anything after it -- tells the handler the directories and the files of the
    header, numbered from 1, and then the lines of the table that the opcodes build
    according to the standard: for every row that does not end a sequence, its address, the
    distance to the row after it, and its file, line and column.  It returns the size of
    the unit and leaves the reader with the unit's offset size. *)
Theorem line_program {H : Type} `{LineInfoHandler H} (section : list Z) (r : ByteReader) (dwarf64 : bool) (header : LineInfoHeader)
    (lengths : list Z) (dirs : list cstring) (files : list LineFile) (ops : list LineOp) (h : H) :
  Z.of_nat (length section) < 2 ^ 31 ->
  unit_ok r dwarf64 header lengths dirs files ops ->
  holds section 0 (unit_bytes r dwarf64 header lengths dirs files ops) ->
  LineInfo_Start section r h =
  h ← define_dirs 1 dirs h; h ← define_files 1 files h;
  h ← add_lines (row_lines (rows header ops (Reset (default_is_stmt header)))) h;
  Ok (Z.of_nat (length (unit_bytes r dwarf64 header lengths dirs files ops)), unit_reader r dwarf64, h).
Proof.
  intros Hs Hu Hb. rewrite (LineInfo_Start_holds section Hs r dwarf64 header lengths dirs files ops h Hu Hb).
  pose proof (length_length_bytes r dwarf64 (total_length header)) as Hl. apply uk_length in Hu.
  unfold unit_bytes. rewrite !length_app, !Nat2Z.inj_add, Hl. by replace (total_length header) with
    (Z.of_nat (length (header_bytes r dwarf64 header lengths dirs files)) + Z.of_nat (length (concat (op_bytes r <$> ops)))) by lia.
Qed.

(** A handler that keeps what it is told. *)
Inductive LineEvent :=
| DirEvent (name : cstring) (num : Z)
| FileEvent (name : cstring) (num dir time length : Z)
| LineEvent_ (address length file line column : Z).

#[export] Instance LineRecorder : LineInfoHandler (list LineEvent) := {|
  DefineDir name num events := Ok (events ++ [DirEvent name num]);
  DefineFile name num dir time length events := Ok (events ++ [FileEvent name num dir time length]);
  AddLine address length file line column events := Ok (events ++ [LineEvent_ address length file line column])
|}.

(** Two lines of a.c, from 0x1000 to 0x1008. *)
Definition demo_line_header : LineInfoHeader := mkLineInfoHeader 64 2 0 1 true (-5) 14 13 (0 :: [0; 1; 1; 1; 1; 0; 0; 0; 1; 0; 0; 1] ++ [0]).
Definition demo_line_lengths : list Z := [0; 1; 1; 1; 1; 0; 0; 0; 1; 0; 0; 1].
Definition demo_line_dirs : list cstring := [lit "/src"].
Definition demo_line_files : list LineFile := [(lit "a.c", 1, 0, 0)].
Definition demo_line_ops : list LineOp :=
  [SetAddress 0x1000; AdvanceLine 9; CopyRow; SpecialOp 75; OtherStandard 12 [5]; OtherExtended 128 [1; 2]; AdvancePc 4; EndSequence].
Definition demo_line_reader : ByteReader := with_address_size (ByteReader_new ENDIANNESS_LITTLE) 8.

Lemma demo_unit_ok : unit_ok demo_line_reader false demo_line_header demo_line_lengths demo_line_dirs demo_line_files demo_line_ops.
Proof.
  split.
  - by right.
  - vm_compute. reflexivity.
  - done.
  - done.
  - done.
  - done.
  - done.
  - done.
  - repeat constructor; done.
  - repeat constructor; done.
  - repeat constructor; done.
Qed.

Lemma line_program_witness :
  LineInfo_Start (unit_bytes demo_line_reader false demo_line_header demo_line_lengths demo_line_dirs demo_line_files demo_line_ops ++ [7; 7])
    demo_line_reader [] =
  Ok (68, with_offset_size demo_line_reader 4,
      [DirEvent (lit "/src") 1; FileEvent (lit "a.c") 1 1 0 0; LineEvent_ 0x1000 4 1 10 0; LineEvent_ 0x1004 4 1 11 0]).
Proof.
  rewrite (line_program _ demo_line_reader false demo_line_header demo_line_lengths demo_line_dirs demo_line_files demo_line_ops []).
  - vm_compute. reflexivity.
  - vm_compute. reflexivity.
  - exact demo_unit_ok.
  - split; [lia|]. vm_compute. reflexivity.
Defined.
