(* ===== verification/LineToModule.v ===== *)
(** common/dwarf_line_to_module.h, dwarf_line_to_module.cc: [DwarfLineToModule], the handler
    that collects the lines of a compilation unit for the functions of a [Module], and
    [DumperLineToModule::ReadProgram] of linux/dump_symbols.cc, which runs a line number
    program with it. *)
From Stdlib Require Import Ascii.
From stdpp Require Import strings list gmap.
From S2P Require Import Prelude StdMap CStr StrMap Memory ByteReader CallFrameInfo LineInfo LineProgram DumpModule.

(** ** Paths *)

Definition PathIsAbsolute (path : cstring) : bool := match path with c :: _ => Ascii.eqb c "/" | [] => false end.

Definition HasTrailingSlash (path : cstring) : bool := match last path with Some c => Ascii.eqb c "/" | None => false end.

Definition ExpandPath (path base : cstring) : cstring :=
  if PathIsAbsolute path || bool_decide (base = []) then path
  else base ++ (if HasTrailingSlash base then [] else lit "/") ++ path.

(** ** The handler *)

(** The tables are keyed by 32-bit numbers; a file that is looked up and is not there gets
    a null pointer. *)
Record DwarfLineToModule := mkLineToModule {
  lm_module : DumpModule;
  lm_compilation_dir : cstring;
  lm_lines : list MLine;
  lm_directories : gmap Z cstring;
  lm_files : gmap Z (option file_ptr);
  lm_highest_file_number : Z;
  lm_omitted_line_end : Z;
  lm_warned_bad_file_number : bool;
  lm_warned_bad_directory_number : bool
}.

Definition DwarfLineToModule_new (module : DumpModule) (compilation_dir : cstring) (lines : list MLine) : DwarfLineToModule :=
  mkLineToModule module compilation_dir lines ∅ ∅ (-1) 0 false false.

Implicit Types (h : DwarfLineToModule).

Definition set_directories x h := mkLineToModule (lm_module h) (lm_compilation_dir h) (lm_lines h) x (lm_files h)
  (lm_highest_file_number h) (lm_omitted_line_end h) (lm_warned_bad_file_number h) (lm_warned_bad_directory_number h).
Definition set_module_files m x h := mkLineToModule m (lm_compilation_dir h) (lm_lines h) (lm_directories h) x
  (lm_highest_file_number h) (lm_omitted_line_end h) (lm_warned_bad_file_number h) (lm_warned_bad_directory_number h).
Definition set_highest x h := mkLineToModule (lm_module h) (lm_compilation_dir h) (lm_lines h) (lm_directories h) (lm_files h)
  x (lm_omitted_line_end h) (lm_warned_bad_file_number h) (lm_warned_bad_directory_number h).
Definition set_omitted x h := mkLineToModule (lm_module h) (lm_compilation_dir h) (lm_lines h) (lm_directories h) (lm_files h)
  (lm_highest_file_number h) x (lm_warned_bad_file_number h) (lm_warned_bad_directory_number h).
Definition warn_file h := mkLineToModule (lm_module h) (lm_compilation_dir h) (lm_lines h) (lm_directories h) (lm_files h)
  (lm_highest_file_number h) (lm_omitted_line_end h) true (lm_warned_bad_directory_number h).
Definition warn_directory h := mkLineToModule (lm_module h) (lm_compilation_dir h) (lm_lines h) (lm_directories h) (lm_files h)
  (lm_highest_file_number h) (lm_omitted_line_end h) (lm_warned_bad_file_number h) true.
Definition push_line l h := mkLineToModule (lm_module h) (lm_compilation_dir h) (lm_lines h ++ [l]) (lm_directories h) (lm_files h)
  (lm_highest_file_number h) (lm_omitted_line_end h) (lm_warned_bad_file_number h) (lm_warned_bad_directory_number h).

Definition ToModule_DefineDir (name : cstring) (dir_num : Z) h : DwarfLineToModule :=
  if dir_num =? 0 then h
  else set_directories (<[dir_num := ExpandPath name (lm_compilation_dir h)]> (lm_directories h)) h.

(** The name of a directory, and the handler after the warning that there is none. *)
Definition directory_name (dir_num : Z) h : cstring * DwarfLineToModule :=
  if dir_num =? 0 then (lm_compilation_dir h, h)
  else match lm_directories h !! dir_num with
       | Some name => (name, h)
       | None => ([], warn_directory h)
       end.

(** The number a file gets; the highest one is an [int32]. *)
Definition number_file (file_num : Z) h : outcome (Z * DwarfLineToModule) :=
  if file_num =? -1 then
    if lm_highest_file_number h =? 2 ^ 31 - 1 then Undefined
    else let n := lm_highest_file_number h + 1 in Ok (n, set_highest n h)
  else if lm_highest_file_number h <? file_num then Ok (file_num, set_highest file_num h)
  else Ok (file_num, h).

Definition ToModule_DefineFile (name : cstring) (file_num dir_num : Z) h : outcome DwarfLineToModule :=
  '(file_num, h) ← number_file file_num h;
  let '(dir_name, h) := directory_name dir_num h in
  let full_name := ExpandPath name dir_name in
  let '(file, module) := FindFile (lm_module h) full_name in
  Ok (set_module_files module (<[u32 file_num := Some file]> (lm_files h)) h).

Definition ToModule_AddLine (address length file_num line_num : Z) h : DwarfLineToModule :=
  if length =? 0 then h
  else
    let length := if u64 (address + length) <? address then u64 (- address) else length in
    if (address =? 0) || (address =? lm_omitted_line_end h) then set_omitted (u64 (address + length)) h
    else
      let h := set_omitted 0 h in
      match lm_files h !! file_num with
      | Some (Some file) => push_line (mkMLine address length file (s32 line_num)) h
      | Some None => warn_file h
      | None => warn_file (set_module_files (lm_module h) (<[file_num := None]> (lm_files h)) h)
      end.

#[export] Instance LineToModuleHandler : LineInfoHandler DwarfLineToModule := {|
  DefineDir name dir_num h := Ok (ToModule_DefineDir name dir_num h);
  DefineFile name file_num dir_num _ _ h := ToModule_DefineFile name file_num dir_num h;
  AddLine address length file_num line_num _ h := Ok (ToModule_AddLine address length file_num line_num h)
|}.

(** [DumperLineToModule::ReadProgram]: the module, the lines and the reader after it. *)
Definition ReadProgram (byte_reader : ByteReader) (compilation_dir : cstring) (program : list Z) (module : DumpModule)
    (lines : list MLine) : outcome (DumpModule * list MLine * ByteReader) :=
  '(_, byte_reader, h) ← LineInfo_Start program byte_reader (DwarfLineToModule_new module compilation_dir lines);
  Ok (lm_module h, lm_lines h, byte_reader).

(** ** What the lines are

    The tables of the standard are numbered from 1. *)
Definition numbered_from {A} (i : Z) (l : list A) (k : Z) : option A := if k <? i then None else l !! Z.to_nat (k - i).

(** The path of a file: relative to its directory, which is relative to the compilation
    directory; directory 0 is that one. *)
Definition directory_path (compilation_dir : cstring) (dirs : list cstring) (dir : Z) : cstring :=
  if dir =? 0 then compilation_dir
  else match numbered_from 1 dirs dir with Some d => ExpandPath d compilation_dir | None => [] end.

Definition file_path (compilation_dir : cstring) (dirs : list cstring) (f : LineFile) : cstring :=
  let '(name, dir, _, _) := f in ExpandPath name (directory_path compilation_dir dirs dir).

(** The lines that are kept: those that are not empty, cut at the end of the address space,
    but not one at address 0 nor one where an omitted line ends. *)
Fixpoint kept_lines (omitted : Z) (ls : list (Z * Z * Z * Z * Z)) : list (Z * Z * Z * Z) :=
  match ls with
  | [] => []
  | (address, length, file, line, _) :: ls =>
      if length =? 0 then kept_lines omitted ls
      else
        let size := Z.min length (2 ^ 64 - address) in
        if (address =? 0) || (address =? omitted) then kept_lines (u64 (address + size)) ls
        else (address, size, file, line) :: kept_lines 0 ls
  end.

(** The line of the module for a kept line; there is none when its file is not defined. *)
Definition module_line (m : DumpModule) (compilation_dir : cstring) (dirs : list cstring) (files : list LineFile)
    (l : Z * Z * Z * Z) : option MLine :=
  let '(address, size, file, line) := l in
  f ← numbered_from 1 files file;
  p ← FindExistingFile m (file_path compilation_dir dirs f);
  Some (mkMLine address size p (s32 line)).

(** ** Lemmas *)

Lemma numbered_from_cons {A} i (x : A) l k : numbered_from i (x :: l) k = if k =? i then Some x else numbered_from (i + 1) l k.
Proof.
  unfold numbered_from. destruct (k <? i) eqn:E1, (k =? i) eqn:E2, (k <? i + 1) eqn:E3; breflect; try lia; try done.
  - by replace (Z.to_nat (k - i)) with O by lia.
  - by replace (Z.to_nat (k - i)) with (S (Z.to_nat (k - (i + 1)))) by lia.
Qed.

Lemma numbered_from_below {A} i (l : list A) k : k < i -> numbered_from i l k = None.
Proof. intros. unfold numbered_from. by rewrite (proj2 (Z.ltb_lt _ _)). Qed.

(** *** [FindFile] *)

Definition file_step (m m' : DumpModule) : Prop := exists n, m' = (FindFile m n).2.

Lemma FindFile_found m n : str_sorted (mod_files m) -> FindExistingFile (FindFile m n).2 n = Some (FindFile m n).1.
Proof.
  intros Hs. unfold FindFile, FindExistingFile. destruct (str_find (mod_files m) n) as [p|] eqn:E; [done|].
  cbn. rewrite str_find_assign by done. by rewrite (proj2 (str_eqb_spec n n)).
Qed.

Lemma FindFile_keeps m n n' p : str_sorted (mod_files m) -> FindExistingFile m n' = Some p -> FindExistingFile (FindFile m n).2 n' = Some p.
Proof.
  intros Hs Hp. unfold FindFile, FindExistingFile in *. destruct (str_find (mod_files m) n) as [q|] eqn:E; [done|].
  cbn. rewrite str_find_assign by done. destruct (str_eqb n n') eqn:En; [|done]. apply str_eqb_spec in En as ->. congruence.
Qed.

Lemma FindFile_sorted m n : str_sorted (mod_files m) -> str_sorted (mod_files (FindFile m n).2).
Proof. intros Hs. unfold FindFile. destruct (str_find _ _); [done|]. by apply str_sorted_assign. Qed.

Lemma file_steps_sorted m m' : rtc file_step m m' -> str_sorted (mod_files m) -> str_sorted (mod_files m').
Proof. induction 1 as [|m1 m2 m3 [n ->] _ IH]; [done|]. intros. by apply IH, FindFile_sorted. Qed.

Lemma file_steps_keep m m' n p :
  rtc file_step m m' -> str_sorted (mod_files m) -> FindExistingFile m n = Some p -> FindExistingFile m' n = Some p.
Proof. induction 1 as [|m1 m2 m3 [k ->] _ IH]; [done|]. intros. apply IH; [by apply FindFile_sorted|by apply FindFile_keeps]. Qed.

(** *** The directories and the files *)

Lemma define_dirs_spec dirs : forall i h, 0 < i ->
  exists D, define_dirs i dirs h = Ok (set_directories D h) /\
  forall k, D !! k = match numbered_from i dirs k with Some d => Some (ExpandPath d (lm_compilation_dir h)) | None => lm_directories h !! k end.
Proof.
  induction dirs as [|d dirs IH]; intros i h Hi.
  - exists (lm_directories h). split; [by destruct h|]. intros k. unfold numbered_from. by destruct (k <? i).
  - cbn [define_dirs]. change (DefineDir d i h) with (Ok (ToModule_DefineDir d i h)). rewrite bind_Ok.
    unfold ToModule_DefineDir. rewrite (proj2 (Z.eqb_neq _ _)) by lia.
    destruct (IH (i + 1) (set_directories (<[i:=ExpandPath d (lm_compilation_dir h)]> (lm_directories h)) h) ltac:(lia)) as (D & E & HD).
    exists D. split; [by rewrite E|]. intros k. rewrite HD, numbered_from_cons. cbn [lm_compilation_dir lm_directories set_directories].
    destruct (Z.eqb_spec k i) as [->|Hne].
    + by rewrite numbered_from_below, lookup_insert_eq by lia.
    + by rewrite lookup_insert_ne.
Qed.

(** The file of a number. *)
Definition file_at h (k : Z) : option file_ptr := mjoin (lm_files h !! k).

(** What the definition of a file does not change. *)
Definition same_context h h' : Prop :=
  lm_compilation_dir h' = lm_compilation_dir h /\ lm_lines h' = lm_lines h /\ lm_directories h' = lm_directories h /\
  lm_omitted_line_end h' = lm_omitted_line_end h.

Definition directory_of h (dir : Z) : cstring := (directory_name dir h).1.

Lemma DefineFile_spec name i dir h :
  0 < i < 2 ^ 31 ->
  let path := ExpandPath name (directory_of h dir) in
  exists h', ToModule_DefineFile name i dir h = Ok h' /\ same_context h h' /\ lm_module h' = (FindFile (lm_module h) path).2 /\
  forall k, file_at h' k = if k =? i then Some (FindFile (lm_module h) path).1 else file_at h k.
Proof.
  intros Hi path. unfold ToModule_DefineFile, number_file. rewrite (proj2 (Z.eqb_neq _ _)) by lia.
  assert (Hn: exists h1, (if lm_highest_file_number h <? i then Ok (i, set_highest i h) else Ok (i, h)) = Ok (i, h1) /\
    same_context h h1 /\ lm_module h1 = lm_module h /\ lm_files h1 = lm_files h)
    by (destruct (_ <? _); eexists; (split; [reflexivity|done])).
  destruct Hn as (h1 & -> & (Hc & Hl & Hd & Ho) & Hm & Hf). rewrite bind_Ok.
  assert (Hdir: exists h2, directory_name dir h1 = (directory_of h dir, h2) /\ same_context h h2 /\ lm_module h2 = lm_module h /\ lm_files h2 = lm_files h).
  { unfold directory_of, directory_name. rewrite Hc, Hd. destruct (dir =? 0); [by eexists|]. destruct (lm_directories h !! dir); by eexists. }
  destruct Hdir as (h2 & -> & Hctx & Hm2 & Hf2). rewrite Hm2. fold path. destruct (FindFile (lm_module h) path) as [p m'].
  eexists. split; [reflexivity|]. split; [done|]. split; [done|]. intros k. unfold file_at. cbn [set_module_files lm_files]. rewrite Hf2.
  unfold u32. rewrite wrap_small by (unfold fits; lia). destruct (Z.eqb_spec k i) as [->|Hne]; [by rewrite lookup_insert_eq|].
  by rewrite lookup_insert_ne.
Qed.

Definition path_in h (f : LineFile) : cstring := let '(name, dir, _, _) := f in ExpandPath name (directory_of h dir).

Lemma same_context_path h h' f : same_context h h' -> path_in h' f = path_in h f.
Proof.
  intros (Hc & _ & Hd & _). destruct f as [[[n dir] t] l]. cbn. f_equal. unfold directory_of, directory_name. rewrite Hc, Hd.
  destruct (dir =? 0); [done|]. by destruct (lm_directories h !! dir).
Qed.

Lemma define_files_spec files : forall i h, 0 < i -> i + Z.of_nat (length files) < 2 ^ 31 -> str_sorted (mod_files (lm_module h)) ->
  exists h', define_files i files h = Ok h' /\ same_context h h' /\ rtc file_step (lm_module h) (lm_module h') /\
  forall k, match numbered_from i files k with
            | Some f => file_at h' k = FindExistingFile (lm_module h') (path_in h f) /\ is_Some (file_at h' k)
            | None => file_at h' k = file_at h k
            end.
Proof.
  induction files as [|f files IH]; intros i h Hi Hn Hs.
  - exists h. split_and!; try done. intros k. unfold numbered_from. by destruct (k <? i).
  - destruct f as [[[name dir] time] len]. cbn [define_files length] in *.
    change (DefineFile name i dir time len h) with (ToModule_DefineFile name i dir h).
    destruct (DefineFile_spec name i dir h ltac:(lia)) as (h1 & -> & Hctx & Hm1 & Hf1). rewrite bind_Ok.
    change (ExpandPath name (directory_of h dir)) with (path_in h (name, dir, time, len)) in *.
    set (path := path_in h (name, dir, time, len)) in *.
    assert (Hs1: str_sorted (mod_files (lm_module h1))) by (rewrite Hm1; by apply FindFile_sorted).
    destruct (IH (i + 1) h1 ltac:(lia) ltac:(lia) Hs1) as (h' & E & Hctx' & Hr & Hk). exists h'. split; [done|].
    split; [destruct Hctx as (-> & -> & -> & ->) || (unfold same_context in *; destruct_and?; split_and!; congruence)|].
    split; [eapply rtc_l; [|exact Hr]; by exists path|]. intros k. specialize (Hk k). rewrite numbered_from_cons.
    destruct (Z.eqb_spec k i) as [->|Hne].
    + rewrite numbered_from_below in Hk by lia. rewrite Hk, (Hf1 i), Z.eqb_refl. split; [|by eexists]. fold path.
      symmetry. eapply file_steps_keep; [exact Hr|done|]. rewrite Hm1. by apply FindFile_found.
    + destruct (numbered_from (i + 1) files k) as [g|]; [by rewrite (same_context_path h h1) in Hk|].
      rewrite Hk, (Hf1 k). by rewrite (proj2 (Z.eqb_neq _ _)).
Qed.

(** *** The lines *)

(** The lines of a table whose addresses and lengths are 64-bit. *)
Definition line_fits (l : Z * Z * Z * Z * Z) : Prop := let '(address, length, _, _, _) := l in fits 64 address /\ fits 64 length.

Lemma clipped_size address length :
  fits 64 address -> fits 64 length -> length <> 0 ->
  (if u64 (address + length) <? address then u64 (- address) else length) = Z.min length (2 ^ 64 - address).
Proof.
  unfold fits, u64, wrap. intros Ha Hl Hnz. destruct (Z_lt_ge_dec (address + length) (2 ^ 64)).
  - rewrite Z.mod_small by lia. rewrite (proj2 (Z.ltb_ge _ _)); lia.
  - assert ((address + length) mod 2 ^ 64 = address + length - 2 ^ 64) as -> by (symmetry; apply (Z.mod_unique _ _ 1); lia).
    rewrite (proj2 (Z.ltb_lt _ _)) by lia. symmetry. rewrite Z.min_r by lia. apply (Z.mod_unique _ _ (-1)); lia.
Qed.

Section adding.
Context (table : Z -> option file_ptr).

(** The line that is pushed. *)
Definition table_line (l : Z * Z * Z * Z) : option MLine :=
  let '(address, size, file, line) := l in p ← table file; Some (mkMLine address size p (s32 line)).

Lemma AddLine_file h address length file line :
  (forall k, file_at h k = table k) -> address <> 0 -> address <> lm_omitted_line_end h ->
  fits 64 address -> fits 64 length -> length <> 0 ->
  let h' := ToModule_AddLine address length file line h in
  (forall k, file_at h' k = table k) /\ lm_module h' = lm_module h /\ lm_omitted_line_end h' = 0 /\
  lm_lines h' = lm_lines h ++ option_list (table_line (address, Z.min length (2 ^ 64 - address), file, line)).
Proof.
  intros Ht Ha Ho Hfa Hfl Hl. unfold ToModule_AddLine. rewrite (proj2 (Z.eqb_neq length _)), clipped_size by done.
  rewrite !(proj2 (Z.eqb_neq address _)) by done. cbn [orb table_line set_omitted lm_files].
  specialize (Ht file) as Hf. unfold file_at in Hf. destruct (lm_files h !! file) as [[p|]|] eqn:E; cbn in Hf; rewrite <- Hf; cbn.
  - done.
  - by rewrite app_nil_r.
  - rewrite app_nil_r. split; [|done]. intros k. rewrite <- Ht. unfold file_at. cbn.
    destruct (decide (k = file)) as [->|Hne]; [by rewrite lookup_insert_eq, E|by rewrite lookup_insert_ne].
Qed.

Lemma add_lines_spec ls : forall h,
  (forall k, file_at h k = table k) -> Forall line_fits ls ->
  exists h', add_lines ls h = Ok h' /\ lm_module h' = lm_module h /\
    lm_lines h' = lm_lines h ++ omap table_line (kept_lines (lm_omitted_line_end h) ls).
Proof.
  induction ls as [|[[[[address length] file] line] column] ls IH]; intros h Ht Hf; [exists h; by rewrite app_nil_r|].
  inversion Hf as [|? ? Hl0 Hf']; subst. cbn [add_lines kept_lines]. unfold line_fits in Hl0. destruct Hl0 as [Ha Hl].
  change (AddLine address length file line column h) with (Ok (ToModule_AddLine address length file line h)). rewrite bind_Ok.
  destruct (Z.eqb_spec length 0) as [->|Hne]; [by apply IH|].
  destruct ((address =? 0) || (address =? lm_omitted_line_end h)) eqn:Eo.
  - assert (Eh: ToModule_AddLine address length file line h = set_omitted (u64 (address + Z.min length (2 ^ 64 - address))) h)
      by (unfold ToModule_AddLine; by rewrite (proj2 (Z.eqb_neq _ _)), clipped_size, Eo by done).
    rewrite Eh. by apply IH.
  - apply orb_false_iff in Eo as [E1%Z.eqb_neq E2%Z.eqb_neq].
    destruct (AddLine_file h address length file line Ht E1 E2 Ha Hl Hne) as (Ht' & Hm & Ho & Hls).
    destruct (IH _ Ht' Hf') as (h' & -> & Hm' & Hls'). exists h'. split; [done|]. split; [congruence|].
    rewrite Hls', Hls, Ho, <- (assoc_L (++)). f_equal. cbn [omap list_omap]. by destruct (table_line _).
Qed.
End adding.

(** *** Rows *)

(** The addresses of the rows are 64-bit. *)
Lemma rows_fit r header ops : forall lsm,
  address_size_ r = 4 \/ address_size_ r = 8 ->
  Forall (op_ok r header) ops -> fits 64 (lsm_address lsm) -> Forall (λ row, fits 64 (lsm_address row)) (rows header ops lsm).
Proof.
  induction ops as [|op ops IH]; intros lsm Hs Hok Hf; [constructor|]. inversion Hok as [|? ? Ho Hok']; subst. cbn [rows].
  assert (Hf': fits 64 (lsm_address (op_effect header op lsm))).
  { destruct op; cbn [op_effect op_ok] in *; try done; try (by apply wrap_fits).
    destruct Ho as [_ Ho]. cbn. unfold fits in *. destruct Hs as [E|E]; rewrite E in Ho; lia. }
  destruct (op_adds_row op); [|by apply IH]. constructor; [done|]. apply IH; try done. by destruct (end_sequence _).
Qed.

Lemma row_lines_fit rs : Forall (λ row, fits 64 (lsm_address row)) rs -> Forall line_fits (row_lines rs).
Proof.
  induction rs as [|r1 rs IH]; intros Hf; [constructor|]. inversion Hf as [|? ? H1 Hf']; subst.
  destruct rs as [|r2 rs]; [constructor|]. change (row_lines (r1 :: r2 :: rs)) with ((if end_sequence r1 then [] else [line_between r1 r2]) ++ row_lines (r2 :: rs)).
  apply Forall_app. split; [|by apply IH]. destruct (end_sequence r1); [constructor|]. repeat constructor; [apply H1..|apply wrap_fits|apply wrap_fits]; lia.
Qed.

Lemma few_files section r dwarf64 header lengths dirs files ops :
  Z.of_nat (length section) < 2 ^ 31 -> holds section 0 (unit_bytes r dwarf64 header lengths dirs files ops) ->
  1 + Z.of_nat (length files) < 2 ^ 31.
Proof.
  intros Hs Hb%holds_length. unfold unit_bytes, header_bytes in Hb. rewrite !length_app in Hb. cbn [length] in Hb.
  pose proof (length_pieces _ files file_bytes_nonempty). lia.
Qed.

(** Reading the line number program of a compilation unit adds to the lines, for every
    line of the table that is kept, one with its address, its size and its number whose file
    is the module's file of the path that the header gives: the file's name, relative to its
    directory, which is relative to the compilation directory.  Every file of the header is
    in the module then, and nothing of the module but its files changes. *)
Lemma line_to_module (section : list Z) (r : ByteReader) (dwarf64 : bool) (header : LineInfoHeader) (lengths : list Z)
    (dirs : list cstring) (files : list LineFile) (ops : list LineOp) (compilation_dir : cstring) (m : DumpModule) (lines : list MLine) :
  Z.of_nat (length section) < 2 ^ 31 ->
  unit_ok r dwarf64 header lengths dirs files ops ->
  holds section 0 (unit_bytes r dwarf64 header lengths dirs files ops) ->
  str_sorted (mod_files m) ->
  exists m',
    ReadProgram r compilation_dir section m lines =
      Ok (m', lines ++ omap (module_line m' compilation_dir dirs files)
                          (kept_lines 0 (row_lines (rows header ops (Reset (default_is_stmt header))))), unit_reader r dwarf64) /\
    rtc file_step m m' /\
    Forall (λ f, is_Some (FindExistingFile m' (file_path compilation_dir dirs f))) files.
Proof.
  intros Hs Hu Hb Hm. unfold ReadProgram. rewrite (LineInfo_Start_holds section Hs r dwarf64 header lengths dirs files ops _ Hu Hb).
  set (h := DwarfLineToModule_new m compilation_dir lines).
  destruct (define_dirs_spec dirs 1 h ltac:(lia)) as (D & -> & HD). rewrite bind_Ok. set (h1 := set_directories D h).
  destruct (define_files_spec files 1 h1 ltac:(lia)) as (h2 & -> & (Hc & Hl & Hd & Ho) & Hr & Hf).
  { by eapply few_files. }
  { done. }
  rewrite bind_Ok. destruct (add_lines_spec (file_at h2) (row_lines (rows header ops (Reset (default_is_stmt header)))) h2)
    as (h3 & -> & Hm3 & Hl3).
  { done. }
  { apply row_lines_fit, (rows_fit r); [apply (uk_address _ _ _ _ _ _ _ Hu)|apply (uk_ops _ _ _ _ _ _ _ Hu)|by cbn]. }
  rewrite !bind_Ok. exists (lm_module h2). assert (Hpath: forall f, path_in h1 f = file_path compilation_dir dirs f).
  { intros [[[n dir] t] len]. cbn [path_in file_path]. f_equal. unfold directory_of, directory_name, directory_path. cbn [h1 set_directories lm_compilation_dir lm_directories].
    destruct (dir =? 0); [done|]. rewrite HD. by destruct (numbered_from 1 dirs dir). }
  split; [|split; [exact Hr|]].
  - rewrite Hm3, Hl3, Hl, Ho. cbn [h1 set_directories lm_lines lm_omitted_line_end h DwarfLineToModule_new]. f_equal. f_equal. f_equal. f_equal.
    apply list_omap_ext, Forall2_same_length_lookup_2; [done|]. intros i l l' Hi Hi'. assert (l = l') as <- by congruence.
    destruct l as [[[a s] f] n]. cbn [table_line module_line]. specialize (Hf f).
    destruct (numbered_from 1 files f) as [g|].
    + destruct Hf as [-> _]. by rewrite Hpath.
    + by rewrite Hf.
  - apply Forall_forall. intros f [i Hi]%list_elem_of_lookup. specialize (Hf (1 + Z.of_nat i)). unfold numbered_from in Hf.
    rewrite (proj2 (Z.ltb_ge _ _)) in Hf by lia. replace (Z.to_nat (1 + Z.of_nat i - 1)) with i in Hf by lia. rewrite Hi, Hpath in Hf.
    destruct Hf as [<- ?]. done.
Qed.

Definition empty_dump : DumpModule := DumpModule_new (lit "a.out") (lit "Linux") (lit "x86_64") (lit "000") [].

Example lines_of_program :
  exists m',
    ReadProgram demo_line_reader (lit "/home/b")
      (unit_bytes demo_line_reader false demo_line_header demo_line_lengths demo_line_dirs demo_line_files demo_line_ops) empty_dump [] =
      Ok (m', [mkMLine 0x1000 4 0%nat 10; mkMLine 0x1004 4 0%nat 11], with_offset_size demo_line_reader 4) /\
    FindExistingFile m' (lit "/src/a.c") = Some 0%nat.
Proof.
  destruct (line_to_module
    (unit_bytes demo_line_reader false demo_line_header demo_line_lengths demo_line_dirs demo_line_files demo_line_ops)
    demo_line_reader false demo_line_header demo_line_lengths demo_line_dirs demo_line_files demo_line_ops (lit "/home/b") empty_dump [])
    as (m' & E & _ & Hf).
  - vm_compute. reflexivity.
  - exact demo_unit_ok.
  - split; [lia|]. vm_compute. reflexivity.
  - constructor.
  - exists m'. inversion Hf as [|f fs Hp _]; subst. destruct Hp as [p Hp].
    change (file_path (lit "/home/b") demo_line_dirs (lit "a.c", 1, 0, 0)) with (lit "/src/a.c") in Hp.
    assert (Em: m' = (FindFile empty_dump (lit "/src/a.c")).2).
    { transitivity (lm_module (DwarfLineToModule_new m' [] [])); [done|]. revert E. vm_compute. congruence. }
    rewrite E. rewrite Em. split; vm_compute; reflexivity.
Defined.
