(* ===== verification/LineAssign.v ===== *)
(** common/dwarf_cu_to_module.cc: [DwarfCUToModule::AssignLinesToFunctions], which cuts the
    lines of a compilation unit to its functions.  Failed assertions are undefined. *)
From Stdlib Require Import Ascii.
From stdpp Require Import list sorting.
From S2P Require Import Prelude CStr SymbolFile DumpModule DumpLoad.

(** [std::sort] by an address: some permutation in the order of the addresses; which one of
    those that differ at equal addresses is not specified. *)
Class StdSort := {
  std_sort : forall {A : Type}, (A -> Z) -> list A -> list A;
  std_sort_perm : forall {A} (address : A -> Z) (l : list A), std_sort address l ≡ₚ l;
  std_sort_ordered : forall {A} (address : A -> Z) (l : list A), StronglySorted (λ x y, address x <= address y) (std_sort address l)
}.

(** ** The pass *)

(** What the [WarningReporter] is told. *)
Inductive CoverWarning :=
| UncoveredFunction (f : MFunction)
| UncoveredLine (l : MLine).

(** [within]. *)
Definition covers (address size a : Z) : bool := u64 (a - address) <? size.
Definition covers_func (f : MFunction) : Z -> bool := covers (mfunc_address f) (mfunc_size f).
Definition covers_line (l : MLine) : Z -> bool := covers (mline_address l) (mline_size l).

Definition with_lines (f : MFunction) (ls : list MLine) : MFunction :=
  mkMFunction (mfunc_name f) (mfunc_address f) (mfunc_size f) (mfunc_parameter_size f) (mfunc_lines f ++ ls).

(** The local variables.  [before_funcs] are the functions before [func_it] and [at_funcs]
    those from it on; [func] is the first of the latter.  Pointers to functions and lines
    are their indices. *)
Record AssignState := mkAssign {
  before_funcs : list MFunction;
  at_funcs : list MFunction;
  line_index : nat;
  at_lines : list MLine;
  current : Z;
  last_line_used : option nat;
  last_function_cited : option nat;
  last_line_cited : option nat;
  cover_warnings : list CoverWarning
}.

Implicit Types (s : AssignState).

Definition assign_func s : option MFunction := head (at_funcs s).
Definition assign_line s : option MLine := head (at_lines s).
Definition func_index s : nat := length (before_funcs s).

(** A piece of the line is pushed to the function; the line is used. *)
Definition push_piece (piece : MLine) s : AssignState :=
  mkAssign (before_funcs s) (alter (λ f, with_lines f [piece]) 0%nat (at_funcs s)) (line_index s) (at_lines s) (current s) (Some (line_index s))
    (last_function_cited s) (last_line_cited s) (cover_warnings s).
Definition cite_function (f : MFunction) s : AssignState :=
  mkAssign (before_funcs s) (at_funcs s) (line_index s) (at_lines s) (current s) (last_line_used s)
    (Some (func_index s)) (last_line_cited s) (cover_warnings s ++ [UncoveredFunction f]).
Definition cite_line (l : MLine) s : AssignState :=
  mkAssign (before_funcs s) (at_funcs s) (line_index s) (at_lines s) (current s) (last_line_used s)
    (last_function_cited s) (Some (line_index s)) (cover_warnings s ++ [UncoveredLine l]).
Definition set_current c s : AssignState :=
  mkAssign (before_funcs s) (at_funcs s) (line_index s) (at_lines s) c (last_line_used s)
    (last_function_cited s) (last_line_cited s) (cover_warnings s).

(** Whether the state is inside an item, and the address of an item that starts inside
    another. *)
Definition func_here s : option MFunction := f ← assign_func s; if mfunc_address f <=? current s then Some f else None.
Definition line_here s : option MLine := l ← assign_line s; if mline_address l <=? current s then Some l else None.

(** The state of the byte at [current]: what is done about it, and [next_transition]. *)
Definition transition s : Z * AssignState :=
  match func_here s, line_here s with
  | Some f, Some l =>
      let func_left := u64 (mfunc_size f - u64 (current s - mfunc_address f)) in
      let line_left := u64 (mline_size l - u64 (current s - mline_address l)) in
      let next := u64 (current s + Z.min func_left line_left) in
      (next, push_piece (mkMLine (current s) (u64 (next - current s)) (mline_file l) (mline_number l)) s)
  | Some f, None =>
      let s' := if bool_decide (last_function_cited s = Some (func_index s)) then s else cite_function f s in
      match assign_line s with
      | Some l => if covers_func f (mline_address l) then (mline_address l, s') else (u64 (mfunc_address f + mfunc_size f), s')
      | None => (u64 (mfunc_address f + mfunc_size f), s')
      end
  | None, Some l =>
      let padding := match assign_func s with
                     | Some f => bool_decide (last_line_used s = Some (line_index s)) && (u64 (mfunc_address f - mline_address l) =? mline_size l)
                     | None => false
                     end in
      let s' := if negb (bool_decide (last_line_cited s = Some (line_index s))) && negb padding then cite_line l s else s in
      match assign_func s with
      | Some f => if covers_line l (mfunc_address f) then (mfunc_address f, s') else (u64 (mline_address l + mline_size l), s')
      | None => (u64 (mline_address l + mline_size l), s')
      end
  | None, None =>
      match assign_func s, assign_line s with
      | Some f, Some l => (Z.min (mfunc_address f) (mline_address l), s)
      | Some f, None => (mfunc_address f, s)
      | None, Some l => (mline_address l, s)
      | None, None => (0, s)
      end
  end.

(** The loops that advance the iterators past what ends before the transition. *)
Fixpoint skip_funcs (next : Z) (before funcs : list MFunction) : list MFunction * list MFunction :=
  match funcs with
  | f :: fs => if (mfunc_address f <=? next) && negb (covers_func f next) then skip_funcs next (before ++ [f]) fs else (before, funcs)
  | [] => (before, [])
  end.

Fixpoint skip_lines (next : Z) (index : nat) (lines : list MLine) : nat * list MLine :=
  match lines with
  | l :: ls => if (mline_address l <=? next) && negb (covers_line l next) then skip_lines next (S index) ls else (index, lines)
  | [] => (index, [])
  end.

Definition advance_iterators (next : Z) s : AssignState :=
  let '(before, funcs) := skip_funcs next (before_funcs s) (at_funcs s) in
  let '(index, lines) := skip_lines next (line_index s) (at_lines s) in
  mkAssign before funcs index lines (current s) (last_line_used s) (last_function_cited s) (last_line_cited s) (cover_warnings s).

(** The first invariant: the item starts after the address or contains it. *)
Definition starts_or_covers (item : option (Z * Z)) (a : Z) : bool :=
  match item with Some (address, size) => (a <? address) || covers address size a | None => true end.
Definition func_extent (f : MFunction) : Z * Z := (mfunc_address f, mfunc_size f).
Definition mline_extent (l : MLine) : Z * Z := (mline_address l, mline_size l).

(** The loop; a transition that wraps to 0 ends it. *)
Fixpoint assign_loop (fuel : nat) s : outcome AssignState :=
  match assign_func s, assign_line s with
  | None, None => Ok s
  | _, _ =>
      match fuel with
      | O => Undefined
      | S fuel =>
          if starts_or_covers (func_extent <$> assign_func s) (current s) && starts_or_covers (mline_extent <$> assign_line s) (current s) then
            let '(next, s) := transition s in
            if next =? 0 then Ok s
            else
              let s := advance_iterators next s in
              if current s <? next then assign_loop fuel (set_current next s) else Undefined
          else Undefined
      end
  end.

(** Each round ends where a function or a line starts or ends. *)
Definition assign_fuel (functions : list MFunction) (lines : list MLine) : nat := S (2 * (length functions + length lines)).

(** From the sorted functions and lines. *)
Definition assign_sorted (functions : list MFunction) (lines : list MLine) : outcome (list MFunction * list CoverWarning) :=
  let start := match functions, lines with
               | f :: _, l :: _ => Some (Z.min (mfunc_address f) (mline_address l))
               | [], l :: _ => Some (mline_address l)
               | f :: _, [] => Some (mfunc_address f)
               | [], [] => None
               end in
  match start with
  | None => Ok ([], [])
  | Some c =>
      s ← assign_loop (assign_fuel functions lines) (mkAssign [] functions 0 lines c None None None []);
      Ok (before_funcs s ++ at_funcs s, cover_warnings s)
  end.

(** [AssignLinesToFunctions]: the functions and the lines are left sorted. *)
Definition AssignLinesToFunctions `{StdSort} (functions : list MFunction) (lines : list MLine) :
    outcome (list MFunction * list MLine * list CoverWarning) :=
  let functions := std_sort mfunc_address functions in
  let lines := std_sort mline_address lines in
  '(functions, warnings) ← assign_sorted functions lines;
  Ok (functions, lines, warnings).

(** ** The rounds of the loop *)

(** [proper_range]: not empty, and inside the address space. *)
Definition finish (x : Z * Z) : Z := x.1 + x.2.

Definition items_ok s : Prop := Forall proper_range (func_extent <$> at_funcs s) /\ Forall proper_range (mline_extent <$> at_lines s).

(** What the assertions need. *)
Record assign_ok s : Prop := {
  ao_items : items_ok s;
  ao_current : fits 64 (current s);
  ao_func : forall f, assign_func s = Some f -> current s < finish (func_extent f);
  ao_line : forall l, assign_line s = Some l -> current s < finish (mline_extent l)
}.

Definition bounds (x : Z * Z) : list Z := [x.1; finish x].

(** Where a round may end. *)
Definition transitions s : list Z := ((func_extent <$> at_funcs s) ++ (mline_extent <$> at_lines s)) ≫= bounds.

(** The parts of the state that a round without a piece does not change. *)
Definition same_items s s' : Prop :=
  before_funcs s' = before_funcs s /\ at_funcs s' = at_funcs s /\ line_index s' = line_index s /\ at_lines s' = at_lines s /\
  current s' = current s.

Inductive round s : Z -> AssignState -> Prop :=
| round_push f fs l ls :
    at_funcs s = f :: fs -> at_lines s = l :: ls -> mfunc_address f <= current s -> mline_address l <= current s ->
    let e := Z.min (finish (func_extent f)) (finish (mline_extent l)) in
    round s e (push_piece (mkMLine (current s) (e - current s) (mline_file l) (mline_number l)) s)
| round_quiet e s' :
    same_items s s' ->
    (forall f l, assign_func s = Some f -> assign_line s = Some l ->
       e <= Z.max (mfunc_address f) (mline_address l) \/
       Z.min (finish (func_extent f)) (finish (mline_extent l)) <= Z.max (mfunc_address f) (mline_address l)) ->
    round s e s'.

Record round_end s (e : Z) : Prop := {
  re_progress : current s < e <= 2 ^ 64;
  re_func : forall f, assign_func s = Some f -> e <= finish (func_extent f);
  re_line : forall l, assign_line s = Some l -> e <= finish (mline_extent l);
  re_transition : e ∈ transitions s
}.

Lemma covers_spec x a : proper_range x -> fits 64 a -> covers x.1 x.2 a = bool_decide (x.1 <= a < finish x).
Proof.
  unfold proper_range, fits, covers, finish, u64, wrap. intros Hx Ha. destruct (Z_le_gt_dec x.1 a).
  - rewrite Z.mod_small by lia. case_bool_decide; [apply Z.ltb_lt|apply Z.ltb_ge]; lia.
  - rewrite bool_decide_eq_false_2 by lia. apply Z.ltb_ge.
    assert ((a - x.1) mod 2 ^ 64 = a - x.1 + 2 ^ 64) as -> by (symmetry; apply (Z.mod_unique _ _ (-1)); lia). lia.
Qed.

Lemma covers_func_spec f a : proper_range (func_extent f) -> fits 64 a -> covers_func f a = bool_decide (mfunc_address f <= a < finish (func_extent f)).
Proof. intros Hf Ha. apply (covers_spec (func_extent f) a Hf Ha). Qed.
Lemma covers_line_spec l a : proper_range (mline_extent l) -> fits 64 a -> covers_line l a = bool_decide (mline_address l <= a < finish (mline_extent l)).
Proof. intros Hl Ha. apply (covers_spec (mline_extent l) a Hl Ha). Qed.

Lemma func_transitions s f : assign_func s = Some f -> mfunc_address f ∈ transitions s /\ finish (func_extent f) ∈ transitions s.
Proof.
  unfold assign_func, transitions. destruct (at_funcs s) as [|g fs]; [done|]. intros [= ->].
  cbn. split; [left|right; left].
Qed.

Lemma line_transitions s l : assign_line s = Some l -> mline_address l ∈ transitions s /\ finish (mline_extent l) ∈ transitions s.
Proof.
  unfold assign_line, transitions. destruct (at_lines s) as [|k ls]; [done|]. intros [= ->].
  assert (Hin: forall b, b ∈ bounds (mline_extent l) -> b ∈ (((func_extent <$> at_funcs s) ++ (mline_extent <$> (l :: ls))) ≫= bounds))
    by (intros b Hb; apply list_elem_of_bind; exists (mline_extent l); split; [done|]; apply elem_of_app; right; left).
  split; apply Hin; [left|right; left].
Qed.

Lemma func_proper s f : items_ok s -> assign_func s = Some f -> proper_range (func_extent f).
Proof. intros [H _]. unfold assign_func. destruct (at_funcs s); [done|]. intros [= ->]. by inversion H. Qed.
Lemma line_proper s l : items_ok s -> assign_line s = Some l -> proper_range (mline_extent l).
Proof. intros [_ H]. unfold assign_line. destruct (at_lines s); [done|]. intros [= ->]. by inversion H. Qed.

(** What is left of an item from an address in it. *)
Lemma left_of address size c :
  proper_range (address, size) -> address <= c < address + size -> u64 (size - u64 (c - address)) = address + size - c.
Proof. unfold proper_range. cbn. intros Hx Hc. unfold u64. rewrite (wrap_small 64 (c - address)) by (unfold fits; lia). rewrite wrap_small; unfold fits; lia. Qed.

(** A round without a piece. *)
Lemma quiet_round s s' e next f l :
  assign_func s = f -> assign_line s = l -> next = u64 e -> same_items s s' ->
  current s < e <= 2 ^ 64 -> e ∈ transitions s ->
  (forall f', f = Some f' -> e <= finish (func_extent f')) -> (forall l', l = Some l' -> e <= finish (mline_extent l')) ->
  (forall f' l', f = Some f' -> l = Some l' ->
    e <= Z.max (mfunc_address f') (mline_address l') \/
    Z.min (finish (func_extent f')) (finish (mline_extent l')) <= Z.max (mfunc_address f') (mline_address l')) ->
  exists e' s'', (next, s') = (u64 e', s'') /\ round s e' s'' /\ round_end s e'.
Proof.
  intros <- <- -> Hs Hp Ht Hf Hl Hq. exists e, s'. split; [done|]. split; [by apply round_quiet|]. by split.
Qed.

Lemma u64_transition e : 0 <= e < 2 ^ 64 -> e = u64 e.
Proof. intros. symmetry. by apply wrap_small. Qed.

(** Arithmetic on the extents of the function and the line at hand. *)
Ltac extents := unfold proper_range, finish, fits in *; cbn [func_extent mline_extent fst snd] in *; lia.

Lemma transition_spec s :
  assign_ok s -> (assign_func s, assign_line s) <> (None, None) ->
  exists e s', transition s = (u64 e, s') /\ round s e s' /\ round_end s e.
Proof.
  intros [Hok Hc Hf Hl] Hne. pose proof (func_proper s) as Hpf. pose proof (line_proper s) as Hpl.
  pose proof (func_transitions s) as Htf. pose proof (line_transitions s) as Htl.
  unfold transition, func_here, line_here.
  destruct (assign_func s) as [f|] eqn:Ef, (assign_line s) as [l|] eqn:El; cbn [mbind option_bind]; [| | |done];
    try specialize (Hpf f Hok eq_refl); try specialize (Hpl l Hok eq_refl);
    try (specialize (Htf f eq_refl); destruct Htf as [Htf1 Htf2]); try (specialize (Htl l eq_refl); destruct Htl as [Htl1 Htl2]);
    try specialize (Hf f eq_refl); try specialize (Hl l eq_refl).
  - destruct (mfunc_address f <=? current s) eqn:Hfc, (mline_address l <=? current s) eqn:Hlc; breflect.
    + rewrite (left_of _ _ (current s) Hpf), (left_of _ _ (current s) Hpl) by extents.
      set (e := Z.min (finish (func_extent f)) (finish (mline_extent l))).
      assert (He: current s + Z.min (mfunc_address f + mfunc_size f - current s) (mline_address l + mline_size l - current s) = e)
        by (unfold e; extents).
      rewrite He. assert (Hsize: u64 (u64 e - current s) = e - current s).
      { unfold u64, wrap. rewrite Zminus_mod_idemp_l. apply Z.mod_small. unfold e. extents. }
      rewrite Hsize. eexists e, _. split; [reflexivity|]. split.
      * unfold assign_func, assign_line in *. destruct (at_funcs s) as [|f' fs] eqn:Efs; [done|]. injection Ef as ->.
        destruct (at_lines s) as [|l' ls] eqn:Els; [done|]. injection El as ->. by eapply round_push.
      * split; [unfold e; extents|rewrite Ef; intros ? [= <-]; unfold e; lia|rewrite El; intros ? [= <-]; unfold e; lia|].
        unfold e. by destruct (Z.min_spec (finish (func_extent f)) (finish (mline_extent l))) as [[_ ->]|[_ ->]].
    + rewrite covers_func_spec by (done || extents). case_bool_decide.
      * eapply (quiet_round s _ (mline_address l)); try done; [apply u64_transition; extents|by destruct (bool_decide _)|extents|..];
          intros; simplify_eq; extents.
      * eapply (quiet_round s _ (finish (func_extent f))); try done; [by destruct (bool_decide _)|extents|..]; intros; simplify_eq; extents.
    + rewrite covers_line_spec by (done || extents). case_bool_decide.
      * eapply (quiet_round s _ (mfunc_address f)); try done; [apply u64_transition; extents|by destruct (_ && _)|extents|..];
          intros; simplify_eq; extents.
      * eapply (quiet_round s _ (finish (mline_extent l))); try done; [by destruct (_ && _)|extents|..]; intros; simplify_eq; extents.
    + eapply (quiet_round s _ (Z.min (mfunc_address f) (mline_address l))); try done; [apply u64_transition; extents|extents| |..].
      { by destruct (Z.min_spec (mfunc_address f) (mline_address l)) as [[_ ->]|[_ ->]]. }
      all: intros; simplify_eq; extents.
  - destruct (mfunc_address f <=? current s) eqn:Hfc; breflect.
    + eapply (quiet_round s _ (finish (func_extent f))); try done; [by destruct (bool_decide _)|extents|..]; intros; simplify_eq; extents.
    + eapply (quiet_round s _ (mfunc_address f)); try done; [apply u64_transition; extents|extents|..]; intros; simplify_eq; extents.
  - destruct (mline_address l <=? current s) eqn:Hlc; breflect.
    + eapply (quiet_round s _ (finish (mline_extent l))); try done; [by destruct (_ && _)|extents|..]; intros; simplify_eq; extents.
    + eapply (quiet_round s _ (mline_address l)); try done; [apply u64_transition; extents|extents|..]; intros; simplify_eq; extents.
Qed.

(** ** The loop *)

Lemma skip_funcs_spec next funcs : forall before, fits 64 next -> Forall proper_range (func_extent <$> funcs) ->
  exists gone rest, funcs = gone ++ rest /\ skip_funcs next before funcs = (before ++ gone, rest) /\
    Forall (λ f, finish (func_extent f) <= next) gone /\ forall f, head rest = Some f -> next < finish (func_extent f).
Proof.
  induction funcs as [|f fs IH]; intros before Hn Hp; cbn [skip_funcs]; [exists [], []; rewrite !app_nil_r; split_and!; try done; constructor|].
  inversion Hp as [|? ? Hf Hp']; subst. rewrite covers_func_spec by done. destruct (_ && _) eqn:E.
  - apply andb_true_iff in E as [E1 E2]. breflect. apply bool_decide_eq_false in E2.
    destruct (IH (before ++ [f]) Hn Hp') as (gone & rest & -> & -> & Hg & Hr). exists (f :: gone), rest.
    rewrite <- (assoc_L (++)). split_and!; [done..| |done]. constructor; [lia|done].
  - exists [], (f :: fs). rewrite app_nil_r. split_and!; [done..|constructor|]. intros g [= <-].
    apply andb_false_iff in E as [E|E]; breflect; [extents|]. apply bool_decide_eq_true in E. lia.
Qed.

Lemma skip_lines_spec next lines : forall index, fits 64 next -> Forall proper_range (mline_extent <$> lines) ->
  exists gone rest, lines = gone ++ rest /\ skip_lines next index lines = ((index + length gone)%nat, rest) /\
    Forall (λ l, finish (mline_extent l) <= next) gone /\ forall l, head rest = Some l -> next < finish (mline_extent l).
Proof.
  induction lines as [|l ls IH]; intros index Hn Hp; cbn [skip_lines]; [exists [], []; rewrite Nat.add_0_r; split_and!; try done; constructor|].
  inversion Hp as [|? ? Hl Hp']; subst. rewrite covers_line_spec by done. destruct (_ && _) eqn:E.
  - apply andb_true_iff in E as [E1 E2]. breflect. apply bool_decide_eq_false in E2.
    destruct (IH (S index) Hn Hp') as (gone & rest & -> & -> & Hg & Hr). exists (l :: gone), rest.
    cbn [length]. rewrite Nat.add_succ_r. split_and!; [done..| |done]. constructor; [lia|done].
  - exists [], (l :: ls). rewrite Nat.add_0_r. split_and!; [done..|constructor|]. intros g [= <-].
    apply andb_false_iff in E as [E|E]; breflect; [extents|]. apply bool_decide_eq_true in E. lia.
Qed.

(** A round changes no extent. *)
Lemma round_extents s e s' : round s e s' ->
  func_extent <$> at_funcs s' = func_extent <$> at_funcs s /\ at_lines s' = at_lines s /\ current s' = current s /\ before_funcs s' = before_funcs s.
Proof.
  intros [f fs l ls Ef El _ _|? s2 (Hb & Hf & _ & Hl & Hc) _].
  - cbn. rewrite Ef. done.
  - by rewrite Hf.
Qed.

(** The iterators advanced to a transition. *)
Definition at_transition s (e : Z) s2 : Prop :=
  exists gone_funcs gone_lines,
    at_funcs s = gone_funcs ++ at_funcs s2 /\ before_funcs s2 = before_funcs s ++ gone_funcs /\ at_lines s = gone_lines ++ at_lines s2 /\
    Forall (λ f, finish (func_extent f) <= e) gone_funcs /\ Forall (λ l, finish (mline_extent l) <= e) gone_lines /\ current s2 = e.

Lemma advance_spec s e :
  items_ok s -> fits 64 e ->
  let s2 := set_current e (advance_iterators e s) in at_transition s e s2 /\ assign_ok s2.
Proof.
  intros [Hf Hl] He. unfold advance_iterators.
  destruct (skip_funcs_spec e (at_funcs s) (before_funcs s) He Hf) as (gf & rf & Ef & -> & Hgf & Hrf).
  destruct (skip_lines_spec e (at_lines s) (line_index s) He Hl) as (gl & rl & El & -> & Hgl & Hrl). cbn zeta. split.
  - exists gf, gl. by split_and!.
  - rewrite Ef, fmap_app in Hf. rewrite El, fmap_app in Hl. apply Forall_app in Hf as [_ Hf]. apply Forall_app in Hl as [_ Hl]. by split.
Qed.

Lemma round_items_ok s e s' : items_ok s -> round s e s' -> items_ok s'.
Proof. intros [Hf Hl] Hr. apply round_extents in Hr as (Ef & El & _). split; [by rewrite Ef|by rewrite El]. Qed.

(** The transitions that are left. *)
Definition transitions_left s : nat := length (filter (λ b, current s < b) (transitions s)).

Lemma filter_above (l : list Z) c e : c < e -> e ∈ l -> (length (filter (λ b, e < b)%Z l) < length (filter (λ b, c < b)%Z l))%nat.
Proof.
  intros Hce. induction l as [|x l IH]; intros Hin; [by apply not_elem_of_nil in Hin|].
  assert (Hle: forall l, (length (filter (λ b, e < b)%Z l) <= length (filter (λ b, c < b)%Z l))%nat).
  { clear -Hce. induction l as [|x l IH]; [done|]. rewrite !filter_cons. repeat case_decide; cbn [length]; lia. }
  specialize (Hle l). rewrite !filter_cons. apply elem_of_cons in Hin as [<-|Hin].
  - rewrite decide_False, decide_True by lia. cbn [length]. lia.
  - specialize (IH Hin). repeat case_decide; cbn [length]; lia.
Qed.

Lemma transitions_decrease s e s' s2 :
  round s e s' -> round_end s e -> at_transition s' e s2 -> (transitions_left s2 < transitions_left s)%nat.
Proof.
  intros Hr [Hp _ _ Hin] (gf & gl & Ef & _ & El & _ & _ & Hc). apply round_extents in Hr as (Hf & Hl & _).
  unfold transitions_left. rewrite Hc. eapply Nat.le_lt_trans; [|apply (filter_above _ (current s) e); [lia|exact Hin]].
  unfold transitions. rewrite <- Hf, <- Hl, Ef, El, !fmap_app, !bind_app, !filter_app, !length_app. lia.
Qed.

(** A rule for the loop: an invariant that each round keeps, and that gives the result when
    there is nothing left or the address space ends. *)
Lemma assign_loop_rule (I Final : AssignState -> Prop) :
  (forall s, I s -> at_funcs s = [] -> at_lines s = [] -> Final s) ->
  (forall s e s', assign_ok s -> I s -> round s e s' -> round_end s e -> e = 2 ^ 64 -> Final s') ->
  (forall s e s' s2, assign_ok s -> I s -> round s e s' -> round_end s e -> at_transition s' e s2 -> I s2) ->
  forall fuel s, assign_ok s -> I s -> (transitions_left s < fuel)%nat -> exists s', assign_loop fuel s = Ok s' /\ Final s'.
Proof.
  intros Hdone Hend Hstep. induction fuel as [|fuel IH]; intros s Hok HI Hf; [lia|].
  cbn [assign_loop]. assert (Hcases: (assign_func s, assign_line s) = (None, None) \/ (assign_func s, assign_line s) <> (None, None))
    by (destruct (assign_func s), (assign_line s); by auto).
  destruct Hcases as [[= E1 E2]|Hne].
  { rewrite E1, E2. exists s. split; [done|]. unfold assign_func, assign_line in *. apply Hdone; [done|by destruct (at_funcs s)|by destruct (at_lines s)]. }
  destruct (transition_spec s Hok Hne) as (e & s' & Et & Hr & He). pose proof (re_progress _ _ He) as Hp.
  pose proof Hok as [Hitems Hc Hcf Hcl].
  assert (Hinv: starts_or_covers (func_extent <$> assign_func s) (current s) && starts_or_covers (mline_extent <$> assign_line s) (current s) = true).
  { pose proof (func_proper s) as Hpf. pose proof (line_proper s) as Hpl. unfold starts_or_covers.
    apply andb_true_iff. split.
    - destruct (assign_func s) as [f|]; [|done]. specialize (Hpf f Hitems eq_refl). specialize (Hcf f eq_refl). cbn.
      rewrite (covers_spec (func_extent f)) by done. apply orb_true_iff. destruct (Z_lt_ge_dec (current s) (mfunc_address f)); [left; lia|right].
      apply bool_decide_eq_true. extents.
    - destruct (assign_line s) as [l|]; [|done]. specialize (Hpl l Hitems eq_refl). specialize (Hcl l eq_refl). cbn.
      rewrite (covers_spec (mline_extent l)) by done. apply orb_true_iff. destruct (Z_lt_ge_dec (current s) (mline_address l)); [left; lia|right].
      apply bool_decide_eq_true. extents. }
  rewrite Hinv, Et. assert (Hmatch: forall A (x y : A), match assign_func s, assign_line s with None, None => x | _, _ => y end = y)
    by (intros; by destruct (assign_func s), (assign_line s)).
  rewrite Hmatch. destruct (Z.eq_dec e (2 ^ 64)) as [->|Hne2].
  - change (u64 (2 ^ 64) =? 0) with true. exists s'. split; [done|]. by eapply Hend.
  - unfold u64. rewrite (wrap_small 64 e) by (unfold fits in *; lia). rewrite (proj2 (Z.eqb_neq _ _)) by (unfold fits in *; lia).
    destruct (advance_spec s' e) as [Hat Hok2]; [by eapply round_items_ok|unfold fits in *; lia|].
    assert (Hcur: current (advance_iterators e s') = current s).
    { apply round_extents in Hr as (_ & _ & <- & _). unfold advance_iterators. destruct (skip_funcs _ _ _), (skip_lines _ _ _). done. }
    rewrite Hcur, (proj2 (Z.ltb_lt _ _)) by lia. apply IH; [done|by apply (Hstep s e s')|].
    pose proof (transitions_decrease s e s' _ Hr He Hat). lia.
Qed.

(** The pass, from its first address. *)
Lemma length_transitions s : length (transitions s) = (2 * (length (at_funcs s) + length (at_lines s)))%nat.
Proof.
  unfold transitions. transitivity (2 * length ((func_extent <$> at_funcs s) ++ (mline_extent <$> at_lines s)))%nat.
  - induction (_ ++ _) as [|x xs IH]; [done|]. cbn [mbind list_bind]. rewrite length_app. cbn [length bounds]. cbn in IH. lia.
  - rewrite length_app, !length_fmap. lia.
Qed.

Definition assign_start (functions : list MFunction) (lines : list MLine) (c : Z) : AssignState :=
  mkAssign [] functions 0 lines c None None None [].

(** The first address is that of the first function or line. *)
Definition starts_at (functions : list MFunction) (lines : list MLine) (c : Z) : Prop :=
  (forall f, head functions = Some f -> c <= mfunc_address f) /\ (forall l, head lines = Some l -> c <= mline_address l).

Lemma assign_sorted_rule (I Final : AssignState -> Prop) functions lines :
  Forall proper_range (func_extent <$> functions) -> Forall proper_range (mline_extent <$> lines) ->
  (forall c, starts_at functions lines c -> I (assign_start functions lines c)) ->
  (forall s, I s -> at_funcs s = [] -> at_lines s = [] -> Final s) ->
  (forall s e s', assign_ok s -> I s -> round s e s' -> round_end s e -> e = 2 ^ 64 -> Final s') ->
  (forall s e s' s2, assign_ok s -> I s -> round s e s' -> round_end s e -> at_transition s' e s2 -> I s2) ->
  exists s, assign_sorted functions lines = Ok (before_funcs s ++ at_funcs s, cover_warnings s) /\ Final s.
Proof.
  intros Hpf Hpl Hstart Hdone Hend Hstep. unfold assign_sorted.
  assert (Hrun: forall c, fits 64 c -> starts_at functions lines c ->
    exists s, (s ← assign_loop (assign_fuel functions lines) (assign_start functions lines c); Ok (before_funcs s ++ at_funcs s, cover_warnings s)) =
      Ok (before_funcs s ++ at_funcs s, cover_warnings s) /\ Final s).
  { intros c Hc [Hsf Hsl]. destruct (assign_loop_rule I Final Hdone Hend Hstep (assign_fuel functions lines) (assign_start functions lines c))
      as (s & -> & Hfin); [|by apply Hstart| |by exists s].
    - assert (Hitems: items_ok (assign_start functions lines c)) by (by split). split; [done|done|..]; cbn [assign_start current].
      + intros f Hf. pose proof (func_proper _ f Hitems Hf). specialize (Hsf f Hf). extents.
      + intros l Hl. pose proof (line_proper _ l Hitems Hl). specialize (Hsl l Hl). extents.
    - unfold transitions_left, assign_fuel. pose proof (length_filter (λ b, current (assign_start functions lines c) < b) (transitions (assign_start functions lines c))) as Hlen.
      rewrite length_transitions in Hlen. cbn in Hlen |- *. lia. }
  destruct functions as [|f fs], lines as [|l ls]; cbn in Hrun.
  - exists (assign_start [] [] 0). split; [done|]. apply Hdone; [|done..]. by apply Hstart.
  - inversion Hpl as [|? ? Hl]; subst. apply (Hrun (mline_address l)); [extents|]. split; [done|]. intros ? [= <-]. lia.
  - inversion Hpf as [|? ? Hf]; subst. apply (Hrun (mfunc_address f)); [extents|]. split; [|done]. intros ? [= <-]. lia.
  - inversion Hpl as [|? ? Hl]; inversion Hpf as [|? ? Hf]; subst. apply (Hrun (Z.min (mfunc_address f) (mline_address l))); [extents|].
    split; intros ? [= <-]; lia.
Qed.

(** ** What a function gets *)

(** A piece of a line in a function. *)
Definition piece_of (lines : list MLine) (f : MFunction) (p : MLine) : Prop :=
  0 < mline_size p /\ mfunc_address f <= mline_address p /\ finish (mline_extent p) <= finish (func_extent f) /\
  exists l, l ∈ lines /\ mline_address l <= mline_address p /\ finish (mline_extent p) <= finish (mline_extent l) /\
    mline_file p = mline_file l /\ mline_number p = mline_number l.

Definition before_piece (p q : MLine) : Prop := finish (mline_extent p) <= mline_address q.

(** A function with pieces up to an address, in order and apart. *)
Definition cut_to (lines : list MLine) (b : Z) (f f' : MFunction) : Prop :=
  exists ps, f' = with_lines f ps /\ Forall (piece_of lines f) ps /\ StronglySorted before_piece ps /\
    Forall (λ p, finish (mline_extent p) <= b) ps.

Lemma cut_to_mono lines b b' f f' : b <= b' -> cut_to lines b f f' -> cut_to lines b' f f'.
Proof.
  intros Hb (ps & -> & Hp & Hs & Hle). exists ps. split_and!; try done. eapply Forall_impl; [exact Hle|]. cbn. lia.
Qed.

Lemma with_lines_nil f : with_lines f [] = f.
Proof. destruct f. unfold with_lines. cbn. by rewrite app_nil_r. Qed.

Lemma with_lines_app f ps qs : with_lines (with_lines f ps) qs = with_lines f (ps ++ qs).
Proof. unfold with_lines. cbn. by rewrite (assoc_L (++)). Qed.

Lemma cut_to_start lines b f : cut_to lines b f f.
Proof. exists []. rewrite with_lines_nil. split_and!; constructor. Qed.

Lemma cut_to_push lines c f g p :
  cut_to lines c f g -> piece_of lines f p -> c <= mline_address p -> cut_to lines (finish (mline_extent p)) f (with_lines g [p]).
Proof.
  intros (ps & -> & Hp & Hs & Hle) Hpiece Hc. exists (ps ++ [p]). rewrite with_lines_app. split_and!; [done|..].
  - apply Forall_app. by split; [|constructor].
  - apply StronglySorted_app. split_and!; [|done|repeat constructor]. intros q p' Hq ->%list_elem_of_singleton. rewrite Forall_forall in Hle.
    specialize (Hle q Hq). unfold before_piece. lia.
  - apply Forall_app. split; [|by constructor]. eapply Forall_impl; [exact Hle|]. intros q Hq. cbn in Hq |- *.
    destruct Hpiece as (Hpos & _). unfold finish, mline_extent in *. cbn in *. lia.
Qed.

Section cutting.
Context (functions : list MFunction) (lines : list MLine).

(** What has been done up to [current]. *)
Definition cut_so_far s : Prop :=
  (exists done_funcs left_funcs, functions = done_funcs ++ left_funcs /\
     Forall2 (cut_to lines (2 ^ 64)) done_funcs (before_funcs s) /\ Forall2 (cut_to lines (current s)) left_funcs (at_funcs s)) /\
  forall l, l ∈ at_lines s -> l ∈ lines.

Definition all_cut s : Prop := Forall2 (cut_to lines (2 ^ 64)) functions (before_funcs s ++ at_funcs s).

Lemma cut_to_extent b f f' : cut_to lines b f f' -> func_extent f' = func_extent f.
Proof. by intros (ps & -> & _). Qed.

Lemma cut_so_far_end s : cut_so_far s -> current s <= 2 ^ 64 -> all_cut s.
Proof.
  intros [(df & lf & Hfs & Hd & Hl) _] Hc. unfold all_cut. rewrite Hfs. apply Forall2_app; [done|]. eapply Forall2_impl; [exact Hl|]. intros f f'. by apply cut_to_mono.
Qed.

(** A round cuts its piece. *)
Lemma cut_so_far_round s e s' :
  assign_ok s -> cut_so_far s -> round s e s' -> round_end s e ->
  (exists done_funcs left_funcs, functions = done_funcs ++ left_funcs /\
     Forall2 (cut_to lines (2 ^ 64)) done_funcs (before_funcs s') /\ Forall2 (cut_to lines e) left_funcs (at_funcs s')) /\
  forall l, l ∈ at_lines s' -> l ∈ lines.
Proof.
  intros Hok [(df & lf & Hfs & Hd & Hl) Hin] Hr He. pose proof (re_progress _ _ He) as Hp.
  assert (Hmono: Forall2 (cut_to lines e) lf (at_funcs s))
    by (eapply Forall2_impl; [exact Hl|]; intros f f'; apply cut_to_mono; lia).
  destruct Hr as [g gs l ls Ef El Hgc Hlc|e s' (Hb & Hf & _ & Hls & Hc) _].
  - split; [|done]. exists df, lf. split; [done|]. split; [done|]. cbn [push_piece at_funcs]. rewrite Ef in Hl, Hmono |- *.
    destruct lf as [|f lf]; [by inversion Hl|]. inversion Hl as [|? ? ? ? Hg _]; subst. inversion Hmono as [|? ? ? ? _ Hrest]; subst.
    cbn [alter list_alter]. constructor; [|done].
    assert (Hext: func_extent g = func_extent f) by (by eapply cut_to_extent).
    assert (Hgf: current s < finish (func_extent g)) by (apply (ao_func _ Hok); unfold assign_func; by rewrite Ef).
    assert (Hgl: current s < finish (mline_extent l)) by (apply (ao_line _ Hok); unfold assign_line; by rewrite El).
    assert (Hends: e <= finish (func_extent f) /\ e <= finish (mline_extent l)) by (unfold e; rewrite Hext; lia). clearbody e.
    set (piece := mkMLine (current s) _ _ _).
    assert (Hfin: finish (mline_extent piece) = e) by (unfold finish, piece; cbn; lia).
    rewrite <- Hfin. apply (cut_to_push _ (current s)); [done| |cbn; lia]. unfold piece_of. rewrite Hfin. cbn [piece mline_size mline_address].
    split_and!; [lia| |lia|].
    + assert (mfunc_address g = mfunc_address f) by (by injection Hext). lia.
    + exists l. split_and!; [apply Hin; rewrite El; left|lia|lia|done|done].
  - rewrite Hls, Hb, Hf. split; [|done]. by exists df, lf.
Qed.

Lemma cut_so_far_step s e s' s2 :
  assign_ok s -> cut_so_far s -> round s e s' -> round_end s e -> at_transition s' e s2 -> cut_so_far s2.
Proof.
  intros Hok Hs Hr He (gf & gl & Ef & Eb & El & _ & _ & Hc). destruct (cut_so_far_round s e s' Hok Hs Hr He) as [(df & lf & Hfs & Hd & Hl) Hin].
  split; [|intros l Hl'; apply Hin; rewrite El; apply elem_of_app; by right].
  rewrite Ef in Hl. apply Forall2_app_inv_r in Hl as (l1 & l2 & H1 & H2 & ->).
  exists (df ++ l1), l2. rewrite Hfs, (assoc_L (++)). split; [done|]. rewrite Eb, Hc. split; [|done].
  apply Forall2_app; [done|]. eapply Forall2_impl; [exact H1|]. intros f f'. apply cut_to_mono, He.
Qed.
End cutting.

(** The lists of a module's functions and lines. *)
Definition ranges_ok (functions : list MFunction) (lines : list MLine) : Prop :=
  Forall proper_range (func_extent <$> functions) /\ Forall proper_range (mline_extent <$> lines).

Lemma ranges_ok_perm functions functions' lines lines' :
  functions ≡ₚ functions' -> lines ≡ₚ lines' -> ranges_ok functions lines -> ranges_ok functions' lines'.
Proof. intros Hf Hl [? ?]. split; [by rewrite <- Hf|by rewrite <- Hl]. Qed.

Lemma assign_sorted_cut functions lines :
  ranges_ok functions lines -> exists s, assign_sorted functions lines = Ok (before_funcs s ++ at_funcs s, cover_warnings s) /\ all_cut functions lines s.
Proof.
  intros [Hf Hl]. apply (assign_sorted_rule (λ s, cut_so_far functions lines s /\ (at_funcs s = [] \/ current s <= 2 ^ 64))); try done.
  - intros c [Hsf Hsl]. split.
    + split; [|done]. exists [], functions. split; [done|]. split; [constructor|]. cbn. clear. induction functions; constructor; [apply cut_to_start|done].
    + destruct functions as [|f fs]; [by left|right]. specialize (Hsf f eq_refl). inversion Hf as [|? ? H]; subst. cbn. extents.
  - intros s [Hs _] Ef _. destruct Hs as [(df & lf & Hfs & Hd & Hll) _]. rewrite Ef in Hll. unfold all_cut. rewrite Ef, Hfs.
    apply Forall2_app; [done|]. inversion Hll. constructor.
  - intros s e s' Hok [Hs _] Hr He ->. destruct (cut_so_far_round functions lines s _ s' Hok Hs Hr He) as [(df & lf & Hfs & Hd & Hll) _].
    unfold all_cut. rewrite Hfs. by apply Forall2_app.
  - intros s e s' s2 Hok [Hs _] Hr He Ht. split; [by eapply cut_so_far_step|]. right. destruct Ht as (? & ? & _ & _ & _ & _ & _ & ->). apply He.
Qed.

Lemma assign_lines_cut_lemma `{StdSort} (functions : list MFunction) (lines : list MLine) :
  ranges_ok functions lines ->
  exists functions' lines' warnings,
    AssignLinesToFunctions functions lines = Ok (functions', lines', warnings) /\ lines' ≡ₚ lines /\
    exists sorted_functions, sorted_functions ≡ₚ functions /\ Forall2 (cut_to lines (2 ^ 64)) sorted_functions functions'.
Proof.
  intros Hok. unfold AssignLinesToFunctions. set (fs := std_sort mfunc_address functions). set (ls := std_sort mline_address lines).
  assert (Hfs: fs ≡ₚ functions) by apply std_sort_perm. assert (Hls: ls ≡ₚ lines) by apply std_sort_perm.
  destruct (assign_sorted_cut fs ls) as (s & -> & Hcut); [by eapply ranges_ok_perm|].
  eexists _, ls, _. split; [reflexivity|]. split; [done|]. exists fs. split; [done|]. eapply Forall2_impl; [exact Hcut|].
  intros f f' (ps & -> & Hp & Hrest). exists ps. split; [done|]. split; [|done]. eapply Forall_impl; [exact Hp|].
  intros p (? & ? & ? & l & Hl & ?). split_and!; try done. exists l. by rewrite <- Hls.
Qed.

(** C33: whatever functions and lines a compilation unit has, overlapping or not -- none empty
    or past the end of the address space -- the pass ends, no assertion fails, and no
    function or line is lost.  Each function keeps what it had and gets pieces in the order
    of their addresses that have no address in common: each lies in the function and in one
    of the lines, whose file and number it has. *)
Theorem assign_lines_cut `{StdSort} (functions : list MFunction) (lines : list MLine) :
  ranges_ok functions lines ->
  exists functions' lines' warnings,
    AssignLinesToFunctions functions lines = Ok (functions', lines', warnings) /\ lines' ≡ₚ lines /\
    exists sorted_functions, sorted_functions ≡ₚ functions /\ Forall2 (cut_to lines (2 ^ 64)) sorted_functions functions'.
Proof. apply assign_lines_cut_lemma. Qed.

(** ** Lines and functions that do not overlap *)

(** The part of a line in a function, from an address on. *)
Definition piece_from (c : Z) (f : MFunction) (l : MLine) : list MLine :=
  let a := Z.max (Z.max (mfunc_address f) (mline_address l)) c in
  let b := Z.min (finish (func_extent f)) (finish (mline_extent l)) in
  if a <? b then [mkMLine a (b - a) (mline_file l) (mline_number l)] else [].

Definition pieces_from (c : Z) (lines : list MLine) (f : MFunction) : list MLine := lines ≫= piece_from c f.

Definition with_pieces (c : Z) (lines : list MLine) (f : MFunction) : MFunction := with_lines f (pieces_from c lines f).

(** In order and apart. *)
Definition in_order (l : list (Z * Z)) : Prop := StronglySorted (λ x y, finish x <= y.1) l.

Lemma piece_from_skip c e f l :
  c <= e ->
  (e <= Z.max (mfunc_address f) (mline_address l) \/
   Z.min (finish (func_extent f)) (finish (mline_extent l)) <= Z.max (mfunc_address f) (mline_address l)) ->
  piece_from c f l = piece_from e f l.
Proof.
  intros Hce Hq. unfold piece_from. destruct Hq as [Hq|Hq].
  - by rewrite !(Z.max_l (Z.max _ _)) by lia.
  - by rewrite !(proj2 (Z.ltb_ge _ _)) by lia.
Qed.

Lemma piece_from_past c f l : finish (func_extent f) <= c \/ finish (mline_extent l) <= c -> piece_from c f l = [].
Proof. intros H. unfold piece_from. by rewrite (proj2 (Z.ltb_ge _ _)) by lia. Qed.

Lemma pieces_from_past c lines f : finish (func_extent f) <= c -> pieces_from c lines f = [].
Proof. intros H. unfold pieces_from. induction lines as [|l ls IH]; [done|]. cbn [mbind list_bind]. rewrite piece_from_past by auto. apply IH. Qed.

Lemma pieces_from_drop c gone rest f : Forall (λ l, finish (mline_extent l) <= c) gone -> pieces_from c (gone ++ rest) f = pieces_from c rest f.
Proof.
  intros Hg. unfold pieces_from. rewrite bind_app. induction Hg as [|l gone Hl _ IH]; [done|]. cbn [mbind list_bind].
  rewrite piece_from_past by auto. apply IH.
Qed.

Lemma pieces_from_skip c e lines f :
  (forall l, l ∈ lines -> piece_from c f l = piece_from e f l) -> pieces_from c lines f = pieces_from e lines f.
Proof.
  intros H. unfold pieces_from. induction lines as [|l ls IH]; [done|]. cbn [mbind list_bind].
  rewrite (H l) by left. rewrite IH; [done|]. intros k Hk. apply H. by right.
Qed.

Lemma with_pieces_past c lines fs : Forall (λ f, finish (func_extent f) <= c) fs -> with_pieces c lines <$> fs = fs.
Proof.
  induction 1 as [|f fs Hf _ IH]; [done|]. rewrite fmap_cons, IH. f_equal. unfold with_pieces. by rewrite pieces_from_past, with_lines_nil.
Qed.

(** The functions after the first start after it. *)
Lemma in_order_head {A} (extent : A -> Z * Z) x xs y : in_order (extent <$> x :: xs) -> y ∈ xs -> finish (extent x) <= (extent y).1.
Proof. intros [_ Hx]%StronglySorted_inv Hy. rewrite Forall_forall in Hx. apply Hx, list_elem_of_fmap. by exists y. Qed.

Lemma in_order_app_r l1 l2 : in_order (l1 ++ l2) -> in_order l2.
Proof. intros (_ & _ & H)%StronglySorted_app. done. Qed.

(** A round does all the pieces before its end. *)
Lemma round_pieces s e s' :
  assign_ok s -> in_order (func_extent <$> at_funcs s) -> in_order (mline_extent <$> at_lines s) -> round s e s' -> round_end s e ->
  with_pieces (current s) (at_lines s) <$> at_funcs s = with_pieces e (at_lines s) <$> at_funcs s'.
Proof.
  intros Hok Hof Hol Hr [Hp Hef Hel _].
  assert (Hskip: forall f l, f ∈ at_funcs s -> l ∈ at_lines s ->
    (Some f = assign_func s -> Some l = assign_line s -> piece_from (current s) f l = piece_from e f l) ->
    piece_from (current s) f l = piece_from e f l).
  { intros f l Hf Hl Hheads. unfold assign_func, assign_line in *.
    destruct (at_funcs s) as [|g gs]; [by apply not_elem_of_nil in Hf|]. destruct (at_lines s) as [|k ks]; [by apply not_elem_of_nil in Hl|].
    specialize (Hef g eq_refl). specialize (Hel k eq_refl).
    apply elem_of_cons in Hf as [->|Hf]; [apply elem_of_cons in Hl as [->|Hl]; [by apply Hheads|]|].
    - apply piece_from_skip; [lia|left]. pose proof (in_order_head mline_extent k ks l Hol Hl) as H. cbn [mline_extent fst] in H. lia.
    - apply piece_from_skip; [lia|left]. pose proof (in_order_head func_extent g gs f Hof Hf) as H. cbn [func_extent fst] in H. lia. }
  destruct Hr as [g gs l ls Ef El Hgc Hlc|e s' (_ & Hf & _ & Hl & _) Hq].
  - pose proof (ao_func _ Hok g) as Hg. pose proof (ao_line _ Hok l) as Hl. unfold assign_func, assign_line in *. rewrite Ef, El in *.
    specialize (Hg eq_refl). specialize (Hl eq_refl). cbn [push_piece at_funcs]. rewrite Ef. cbn [alter list_alter]. rewrite !fmap_cons. f_equal.
    + unfold with_pieces. rewrite with_lines_app. f_equal. unfold pieces_from. cbn [mbind list_bind].
      change (piece_from e (with_lines g ?p)) with (piece_from e g).
      assert (E1: piece_from (current s) g l = [mkMLine (current s) (e - current s) (mline_file l) (mline_number l)])
        by (unfold piece_from; rewrite Z.max_r by lia; by rewrite (proj2 (Z.ltb_lt _ _)) by lia).
      assert (E2: piece_from e g l = []) by (apply piece_from_past; unfold e; lia).
      rewrite E1, E2. f_equal. apply (pieces_from_skip (current s) e ls g). intros k Hk. apply Hskip; [left|by right|].
      intros _ [= ->]. apply piece_from_skip; [lia|]. pose proof (in_order_head mline_extent l ls l Hol Hk) as H. unfold finish in *. cbn in *. lia.
    + apply list_fmap_ext. intros i f Hi. unfold with_pieces. f_equal. apply pieces_from_skip. intros k Hk. apply list_elem_of_lookup_2 in Hi.
      apply Hskip; [by right|done|]. intros [= ->] _. apply piece_from_skip; [lia|left].
      pose proof (in_order_head func_extent g gs g Hof Hi) as H. unfold finish in *. cbn in *. lia.
  - rewrite Hf. apply list_fmap_ext. intros i f Hi. unfold with_pieces. f_equal. apply pieces_from_skip. intros k Hk.
    apply list_elem_of_lookup_2 in Hi. apply Hskip; [done|done|]. intros Ehf Ehl. apply piece_from_skip; [lia|]. by apply Hq.
Qed.

(** What is left to do. *)
Definition pieces_left (target : list MFunction) s : Prop :=
  in_order (func_extent <$> at_funcs s) /\ in_order (mline_extent <$> at_lines s) /\
  before_funcs s ++ (with_pieces (current s) (at_lines s) <$> at_funcs s) = target.

Lemma pieces_left_step target s e s' s2 :
  assign_ok s -> pieces_left target s -> round s e s' -> round_end s e -> at_transition s' e s2 -> pieces_left target s2.
Proof.
  intros Hok (Hof & Hol & Ht) Hr He (gf & gl & Ef & Eb & El & Hgf & Hgl & Hc).
  pose proof (round_pieces s e s' Hok Hof Hol Hr He) as Hp. apply round_extents in Hr as (Hfe & Hle & _ & Hbe).
  rewrite <- Hfe, Ef, fmap_app in Hof. pose proof Hol as Hol2. rewrite <- Hle, El, fmap_app in Hol2.
  split; [by eapply in_order_app_r|]. split; [by eapply in_order_app_r|].
  rewrite <- Ht, Hp, Eb, Hbe, Hc, Ef, fmap_app, <- (assoc_L (++)). f_equal. rewrite (with_pieces_past e _ gf) by done. f_equal.
  rewrite <- Hle, El. apply list_fmap_ext. intros i f _. unfold with_pieces. by rewrite pieces_from_drop.
Qed.

Lemma with_pieces_start c functions lines :
  starts_at functions lines c -> Forall proper_range (func_extent <$> functions) -> in_order (func_extent <$> functions) ->
  with_pieces c lines <$> functions = with_pieces 0 lines <$> functions.
Proof.
  intros [Hs _] Hp Ho. apply list_fmap_ext. intros i f Hi%list_elem_of_lookup_2. unfold with_pieces. f_equal. apply pieces_from_skip.
  intros l _. assert (Hc: c <= mfunc_address f /\ 0 <= mfunc_address f).
  { destruct functions as [|g gs]; [by apply not_elem_of_nil in Hi|]. specialize (Hs g eq_refl).
    rewrite fmap_cons in Hp. inversion Hp as [|? ? Hg Hgs]; subst. apply elem_of_cons in Hi as [->|Hi]; [extents|].
    pose proof (in_order_head func_extent g gs f Ho Hi). extents. }
  unfold piece_from. by rewrite !(Z.max_l (Z.max _ _)) by lia.
Qed.

Lemma assign_sorted_pieces functions lines :
  ranges_ok functions lines -> in_order (func_extent <$> functions) -> in_order (mline_extent <$> lines) ->
  exists warnings, assign_sorted functions lines = Ok (with_pieces 0 lines <$> functions, warnings).
Proof.
  intros [Hf Hl] Hof Hol. set (target := with_pieces 0 lines <$> functions).
  destruct (assign_sorted_rule (pieces_left target) (λ s, before_funcs s ++ at_funcs s = target) functions lines Hf Hl)
    as (s & -> & ->); [| | | |by eexists].
  - intros c Hc. split; [done|]. split; [done|]. cbn. by apply with_pieces_start.
  - intros s (_ & _ & <-) -> _. done.
  - intros s e s' Hok (Hof' & Hol' & <-) Hr He ->. rewrite (round_pieces s _ s' Hok Hof' Hol' Hr He). pose proof (round_extents _ _ _ Hr) as (Hfe & _ & _ & ->).
    f_equal. symmetry. apply with_pieces_past. apply Forall_forall. intros f Hin. destruct (ao_items _ Hok) as [Hp _]. rewrite <- Hfe in Hp.
    rewrite Forall_forall in Hp. specialize (Hp (func_extent f) ltac:(apply list_elem_of_fmap; by exists f)). extents.
  - intros s e s' s2. apply pieces_left_step.
Qed.

(** *** Sorting what does not overlap *)

Lemma apart_sym x y : apart x y -> apart y x.
Proof. unfold apart. tauto. Qed.

Lemma separate_perm l l' : l ≡ₚ l' -> separate l -> separate l'.
Proof.
  intros Hp [Hr Ho]. split; [by rewrite <- Hp|]. clear Hr. induction Hp as [|x l l' Hp IH|x y l|l1 l2 l3 _ IH1 _ IH2]; [done|..|by auto].
  - inversion Ho; subst. constructor; [by rewrite <- Hp|by apply IH].
  - inversion Ho as [|? ? Hy Ho']; subst. inversion Ho' as [|? ? Hx Ho'']; subst. inversion Hy as [|? ? Hyx Hyl]; subst.
    constructor; [constructor; [by apply apart_sym|done]|]. by constructor.
Qed.

Lemma separate_in_order {A} (extent : A -> Z * Z) (l : list A) :
  StronglySorted (λ x y, (extent x).1 <= (extent y).1) l -> separate (extent <$> l) -> in_order (extent <$> l).
Proof.
  intros Hs [Hr Ho]. induction Hs as [|x l Hs IH Hx]; [constructor|]. rewrite fmap_cons in *.
  inversion Hr as [|? ? Hpx Hpl]; subst. inversion Ho as [|? ? Hax Ho']; subst. constructor; [by apply IH|].
  apply Forall_fmap. rewrite Forall_fmap in Hax. rewrite Forall_fmap in Hpl. rewrite Forall_forall in Hx, Hax, Hpl. apply Forall_forall. intros y Hy.
  specialize (Hx y Hy). specialize (Hax y Hy). specialize (Hpl y Hy). unfold apart, proper_range, finish in *. cbn in *. lia.
Qed.

(** When the functions of a compilation unit have no address in common, nor the lines,
    the functions come out in the order of their addresses, and each gets, for every line in
    that order, its intersection with the line -- when it is not empty -- with the file and
    the number of the line.  How [std::sort] orders what is equal does not matter. *)
Lemma assign_lines_exact_lemma `{StdSort} (functions : list MFunction) (lines : list MLine) :
  separate (func_extent <$> functions) -> separate (mline_extent <$> lines) ->
  exists functions' lines' warnings,
    functions' ≡ₚ functions /\ in_order (func_extent <$> functions') /\ lines' ≡ₚ lines /\ in_order (mline_extent <$> lines') /\
    AssignLinesToFunctions functions lines = Ok (with_pieces 0 lines' <$> functions', lines', warnings).
Proof.
  intros Hf Hl. unfold AssignLinesToFunctions. set (fs := std_sort mfunc_address functions). set (ls := std_sort mline_address lines).
  assert (Hfs: fs ≡ₚ functions) by apply std_sort_perm. assert (Hls: ls ≡ₚ lines) by apply std_sort_perm.
  assert (Hsf: separate (func_extent <$> fs)) by (eapply separate_perm; [|exact Hf]; by rewrite Hfs).
  assert (Hsl: separate (mline_extent <$> ls)) by (eapply separate_perm; [|exact Hl]; by rewrite Hls).
  assert (Hof: in_order (func_extent <$> fs)) by (apply separate_in_order; [apply (std_sort_ordered mfunc_address functions)|done]).
  assert (Hol: in_order (mline_extent <$> ls)) by (apply separate_in_order; [apply (std_sort_ordered mline_address lines)|done]).
  destruct (assign_sorted_pieces fs ls) as [ws E]; [split; [apply Hsf|apply Hsl]|done|done|].
  exists fs, ls, ws. rewrite E. by split_and!.
Qed.

(** ** Witnesses *)

(** A sort that leaves equal elements as they are. *)
Fixpoint insert_by {A} (address : A -> Z) (x : A) (l : list A) : list A :=
  match l with [] => [x] | y :: ys => if address x <=? address y then x :: l else y :: insert_by address x ys end.
Definition insertion_sort {A} (address : A -> Z) (l : list A) : list A := foldr (insert_by address) [] l.

Lemma insert_by_perm {A} (address : A -> Z) x (l : list A) : insert_by address x l ≡ₚ x :: l.
Proof. induction l as [|y l IH]; [done|]. cbn. destruct (_ <=? _); [done|]. rewrite IH. apply perm_swap. Qed.

Lemma insertion_sort_perm {A} (address : A -> Z) (l : list A) : insertion_sort address l ≡ₚ l.
Proof. induction l as [|x l IH]; [done|]. cbn. rewrite insert_by_perm. by f_equiv. Qed.

Lemma insertion_sort_ordered {A} (address : A -> Z) (l : list A) : StronglySorted (λ x y, address x <= address y) (insertion_sort address l).
Proof.
  induction l as [|x l IH]; [constructor|]. cbn [insertion_sort foldr]. fold (insertion_sort address l).
  induction IH as [|y l' Hs IH Hy]; [repeat constructor|]. cbn [insert_by]. destruct (address x <=? address y) eqn:E; breflect.
  - constructor; [by constructor|]. constructor; [done|]. eapply Forall_impl; [exact Hy|]. cbn. lia.
  - constructor; [done|]. rewrite insert_by_perm. constructor; [lia|done].
Qed.

#[export] Instance InsertionSort : StdSort :=
  {| std_sort := @insertion_sort; std_sort_perm := @insertion_sort_perm; std_sort_ordered := @insertion_sort_ordered |}.

(** A line that runs over two functions and the gap between them, and one in the second. *)
Definition f_fun : MFunction := mkMFunction (lit "f()") 0x1000 0x10 0 [].
Definition g_fun : MFunction := mkMFunction (lit "g()") 0x1018 0x10 0 [].
Definition long_line : MLine := mkMLine 0x1004 0x1c 0%nat 7.
Definition short_line : MLine := mkMLine 0x1020 4 0%nat 8.

Example assigned_lines :
  exists warnings,
    AssignLinesToFunctions [g_fun; f_fun] [short_line; long_line] =
    Ok ([with_lines f_fun [mkMLine 0x1004 12 0%nat 7]; with_lines g_fun [mkMLine 0x1018 8 0%nat 7; mkMLine 0x1020 4 0%nat 8]],
        [long_line; short_line], warnings).
Proof.
  destruct (assign_lines_exact_lemma [g_fun; f_fun] [short_line; long_line]) as (fs & ls & ws & Hf & Hof & Hl & Hol & E).
  - split; repeat constructor; done || (by left) || (by right).
  - split; repeat constructor; done || (by left) || (by right).
  - exists ws. revert E. vm_compute. congruence.
Defined.

(** Functions and lines that overlap, up to the end of the address space. *)
Lemma assign_lines_cut_witness :
  exists functions' lines' warnings,
    AssignLinesToFunctions [mkMFunction (lit "f()") (2 ^ 64 - 16) 16 0 []; mkMFunction (lit "g()") (2 ^ 64 - 20) 12 0 []]
      [mkMLine (2 ^ 64 - 18) 10 0%nat 1; mkMLine (2 ^ 64 - 12) 12 0%nat 2] = Ok (functions', lines', warnings) /\
    length functions' = 2%nat.
Proof.
  destruct (assign_lines_cut [mkMFunction (lit "f()") (2 ^ 64 - 16) 16 0 []; mkMFunction (lit "g()") (2 ^ 64 - 20) 12 0 []]
    [mkMLine (2 ^ 64 - 18) 10 0%nat 1; mkMLine (2 ^ 64 - 12) 12 0%nat 2]) as (fs & ls & ws & E & _ & gs & Hg & Hc).
  - split; repeat constructor; done.
  - exists fs, ls, ws. split; [exact E|]. by rewrite <- (Forall2_length _ _ _ Hc), Hg.
Defined.
