(* ===== verification/LineBounds.v ===== *)
(** Whatever the bytes of a line number program, the lines it adds are not empty and end
    inside the address space. *)
From Stdlib Require Import Ascii.
From stdpp Require Import list gmap.
From S2P Require Import Prelude CStr StrMap Memory ByteReader CallFrameInfo LineInfo LineProgram DumpModule DumpLoad LineToModule LineAssign.

(** ** What an outcome ensures *)

Definition ensures {A} (o : outcome A) (P : A -> Prop) : Prop := forall a, o = Ok a -> P a.

Lemma ensures_Ok {A} (a : A) (P : A -> Prop) : P a -> ensures (Ok a) P.
Proof. by intros HP b [= <-]. Qed.

Lemma ensures_Undefined {A} (P : A -> Prop) : ensures Undefined P.
Proof. done. Qed.

Lemma ensures_bind {A B} (o : outcome A) (f : A -> outcome B) (P : A -> Prop) (Q : B -> Prop) :
  ensures o P -> (forall a, P a -> ensures (f a) Q) -> ensures (o ≫= f) Q.
Proof. intros Ho Hf b. destruct o as [a| |]; [|done|done]. rewrite bind_Ok. apply Hf, Ho. done. Qed.

Lemma ensures_weaken {A} (o : outcome A) (P Q : A -> Prop) : ensures o P -> (forall a, P a -> Q a) -> ensures o Q.
Proof. intros Ho HPQ a E. by apply HPQ, Ho. Qed.

(** What is read and thrown away. *)
Lemma ensures_any {A B} (o : outcome A) (f : A -> outcome B) (Q : B -> Prop) : (forall a, ensures (f a) Q) -> ensures (o ≫= f) Q.
Proof. intros Hf. by apply (ensures_bind o f (λ _, True)); [|intros a _]. Qed.

(** ** Numbers *)

Lemma read_number_fits r section p n : Forall byte_ok section -> ensures (read_number r section p n) (fits (8 * Z.of_nat n)).
Proof.
  intros Hb. unfold read_number, bytes_at. destruct (_ && _) eqn:E; [|done]. rewrite bind_Ok. apply ensures_Ok.
  apply andb_true_iff in E as [E1 E2]. breflect. assert (Hs: Forall byte_ok (slice section p n)) by (by apply Forall_take, Forall_drop).
  assert (Hl: length (slice section p n) = n) by (unfold slice; rewrite length_take, length_drop; lia).
  assert (Hbs: Forall byte_ok (match endian_ r with ENDIANNESS_LITTLE => slice section p n | ENDIANNESS_BIG => reverse (slice section p n) end))
    by (destruct (endian_ r); [by apply Forall_reverse|exact Hs]).
  rewrite or_shifted_val, Z.mul_1_l by (lia || exact Hbs).
  rewrite <- Hl at 1. destruct (endian_ r); [|by apply le_val_range]. rewrite <- length_reverse. by apply le_val_range, Forall_reverse.
Qed.

Lemma ReadAddress_fits r section p : Forall byte_ok section -> ensures (ReadAddress r section p) (fits 64).
Proof.
  intros Hb. unfold ReadAddress, sized_reader, ReadFourBytes, ReadEightBytes. destruct (_ =? 4); [|destruct (_ =? 8); [|done]].
  - eapply ensures_weaken; [by apply read_number_fits|]. intros n. unfold fits. change (Z.of_nat 4) with 4. change (Z.of_nat 8) with 8. lia.
  - eapply ensures_weaken; [by apply read_number_fits|]. intros n. unfold fits. change (Z.of_nat 4) with 4. change (Z.of_nat 8) with 8. lia.
Qed.

(** ** The interpreter of line number programs *)

(** One step through an outcome: a bind whose result does not matter, a test, a result. *)
Ltac ensures_step :=
  lazymatch goal with
  | |- ensures (Ok _) _ => apply ensures_Ok
  | |- ensures Undefined _ => apply ensures_Undefined
  | |- ensures (if ?b then _ else _) _ => destruct b
  | |- ensures (match ?x with Some _ => _ | None => _ end) _ => destruct x
  | |- ensures (let '(_, _) := ?p in _) _ => destruct p
  | |- ensures (_ ≫= _) _ => apply ensures_any; intros ?
  end; cbn beta iota.

Section bounds.
Context {H : Type} `{LineInfoHandler H}.
Context (P : H -> Prop) (section : list Z) (Hbytes : Forall byte_ok section).
Context (P_dir : forall name num h, P h -> ensures (DefineDir name num h) P).
Context (P_file : forall name num dir time length h, P h -> ensures (DefineFile name num dir time length h) P).
Context (P_line : forall address length file line column h, P h -> fits 64 address -> fits 64 length ->
  ensures (AddLine address length file line column h) P).

Definition op_fits (op : OpResult H) : Prop := P (op_handler op) /\ fits 64 (lsm_address (op_lsm op)).

Lemma u64_fits z : fits 64 (u64 z).
Proof. by apply wrap_fits. Qed.

Lemma extended_opcode_fits r start lsm passes h :
  P h -> fits 64 (lsm_address lsm) -> ensures (extended_opcode section r start lsm passes h) op_fits.
Proof.
  intros HP Hf. unfold extended_opcode. do 2 ensures_step. do 2 ensures_step.
  - by ensures_step.
  - ensures_step.
    + eapply ensures_bind; [by apply ReadAddress_fits|]. intros ? ?. by apply ensures_Ok.
    + repeat ((eapply ensures_bind; [by apply P_file|]; intros ? ?) || ensures_step); by split.
Qed.

Lemma ProcessOneOpcode_fits r header start lsm pc passes h :
  P h -> fits 64 (lsm_address lsm) -> ensures (ProcessOneOpcode section r header start lsm pc passes h) op_fits.
Proof.
  intros HP Hf. unfold ProcessOneOpcode. ensures_step.
  repeat (lazymatch goal with
    | |- ensures (extended_opcode _ _ _ _ _ _) _ => by apply extended_opcode_fits
    | |- _ => ensures_step
    end); split; cbn; done || apply u64_fits.
Qed.

Definition pending_fits (pending : option PendingLine) : Prop := forall l, pending = Some l -> fits 64 (pending_address l).

Lemma take_row_fits header lsm pending h :
  P h -> fits 64 (lsm_address lsm) -> pending_fits pending ->
  ensures (take_row header lsm pending h) (λ '(lsm, pending, h), fits 64 (lsm_address lsm) /\ pending_fits pending /\ P h).
Proof.
  intros HP Hf Hp. unfold take_row. apply (ensures_bind _ _ P).
  - destruct pending as [l|]; [|by apply ensures_Ok]. apply P_line; [done|by apply Hp|apply u64_fits].
  - intros h1 HP1. destruct (end_sequence lsm); apply ensures_Ok; (split; [by cbn|split; [|done]]); [done|by intros l [= <-]].
Qed.

Lemma lines_loop_fits r header fuel : forall lineptr line_end lsm pending h,
  P h -> fits 64 (lsm_address lsm) -> pending_fits pending ->
  ensures (lines_loop section r header fuel lineptr line_end lsm pending h) P.
Proof.
  induction fuel as [|fuel IH]; intros lineptr line_end lsm pending h HP Hf Hp; cbn [lines_loop]; (destruct (_ <? _); [|by apply ensures_Ok]); [done|].
  eapply ensures_bind; [by apply ProcessOneOpcode_fits|]. intros op [HPo Hfo].
  apply (ensures_bind _ _ (λ '(lsm, pending, h), fits 64 (lsm_address lsm) /\ pending_fits pending /\ P h)).
  - destruct (add_row op); [by apply take_row_fits|by apply ensures_Ok].
  - intros [[lsm1 pending1] h1] (? & ? & ?). apply ensures_any. intros lineptr1. by apply IH.
Qed.

Lemma read_dirs_fits fuel : forall lineptr dirindex h, P h -> ensures (read_dirs section fuel lineptr dirindex h) (λ '(_, h), P h).
Proof.
  induction fuel as [|fuel IH]; intros lineptr dirindex h HP; [done|]. cbn [read_dirs]. ensures_step. ensures_step; [by apply ensures_Ok|].
  repeat (lazymatch goal with |- ensures (DefineDir _ _ _ ≫= _) _ => fail | |- _ => ensures_step end).
  eapply ensures_bind; [by apply P_dir|]. intros h1 HP1. by apply IH.
Qed.

Lemma read_files_fits fuel : forall lineptr fileindex h, P h -> ensures (read_files section fuel lineptr fileindex h) (λ '(_, h), P h).
Proof.
  induction fuel as [|fuel IH]; intros lineptr fileindex h HP; [done|]. cbn [read_files]. ensures_step. ensures_step; [by apply ensures_Ok|].
  repeat (lazymatch goal with |- ensures (DefineFile _ _ _ _ _ _ ≫= _) _ => fail | |- _ => ensures_step end).
  eapply ensures_bind; [by apply P_file|]. intros h1 HP1. by apply IH.
Qed.

Lemma ReadHeader_fits r h : P h -> ensures (ReadHeader section r h) (λ '(_, _, _, h), P h).
Proof.
  intros HP. unfold ReadHeader.
  repeat (lazymatch goal with |- ensures (read_dirs _ _ _ _ _ ≫= _) _ => fail | |- _ => ensures_step end).
  eapply ensures_bind; [by apply read_dirs_fits|]. intros [? ?] HP1. eapply ensures_bind; [by apply read_files_fits|]. intros [? ?] HP2. by apply ensures_Ok.
Qed.

Lemma LineInfo_Start_fits r h : P h -> ensures (LineInfo_Start section r h) (λ '(_, _, h), P h).
Proof.
  intros HP. unfold LineInfo_Start. eapply ensures_bind; [by apply ReadHeader_fits|]. intros [[[header after] r1] h1] HP1.
  apply (ensures_bind _ _ (λ '(_, h), P h)).
  - unfold ReadLines. eapply ensures_bind; [by apply lines_loop_fits|]. intros h2 HP2. by apply ensures_Ok.
  - intros [? ?] HP2. by apply ensures_Ok.
Qed.
End bounds.

(** ** The module's lines *)

(** What [ReadProgram] keeps: the module grows by files, the lines are proper and name its
    files. *)
Definition lines_ok (m : DumpModule) (lines : list MLine) : Prop :=
  Forall proper_range (mline_extent <$> lines) /\ forall l, l ∈ lines -> exists n, FindExistingFile m n = Some (mline_file l).

Record lm_ok (m : DumpModule) (h : DwarfLineToModule) : Prop := {
  lo_steps : rtc file_step m (lm_module h);
  lo_sorted : str_sorted (mod_files (lm_module h));
  lo_lines : lines_ok (lm_module h) (lm_lines h);
  lo_files : forall k p, lm_files h !! k = Some (Some p) -> exists n, FindExistingFile (lm_module h) n = Some p
}.

Lemma ToModule_DefineFile_ok m name num dir h : lm_ok m h -> ensures (ToModule_DefineFile name num dir h) (lm_ok m).
Proof.
  intros Hok. unfold ToModule_DefineFile.
  apply (ensures_bind _ _ (λ '(_, h'), lm_ok m h')).
  { destruct Hok. unfold number_file. repeat (destruct (_ =? _)) || destruct (_ <? _); try (by apply ensures_Undefined); by apply ensures_Ok. }
  intros [k h1] [Hs Hso [Hpr Hcited] Hf].
  assert (Hdir: exists d h2, directory_name dir h1 = (d, h2) /\ lm_module h2 = lm_module h1 /\ lm_lines h2 = lm_lines h1 /\ lm_files h2 = lm_files h1)
    by (unfold directory_name; destruct (dir =? 0); [by do 2 eexists|]; destruct (lm_directories h1 !! dir); by do 2 eexists).
  destruct Hdir as (d & h2 & -> & Hm & Hl & Hfl). rewrite Hm. set (path := ExpandPath name d).
  pose proof (FindFile_found (lm_module h1) path Hso) as Hfound. pose proof (FindFile_sorted (lm_module h1) path Hso) as Hso2.
  pose proof (λ n p, FindFile_keeps (lm_module h1) path n p Hso) as Hkeep.
  destruct (FindFile (lm_module h1) path) as [p m2] eqn:E. cbn [fst snd] in *. apply ensures_Ok. split; cbn [lm_module lm_lines lm_files set_module_files].
  - eapply rtc_r; [exact Hs|]. exists path. by rewrite E.
  - done.
  - rewrite Hl. split; [done|]. intros l Hin. destruct (Hcited l Hin) as [n Hn]. exists n. by apply Hkeep.
  - intros k' p'. rewrite Hfl. destruct (decide (k' = u32 k)) as [->|Hne].
    + rewrite lookup_insert_eq. intros [= <-]. by exists path.
    + rewrite lookup_insert_ne by done. intros Hk. destruct (Hf _ _ Hk) as [n Hn]. exists n. by apply Hkeep.
Qed.

Lemma ToModule_AddLine_ok m address length file line h :
  lm_ok m h -> fits 64 address -> fits 64 length -> lm_ok m (ToModule_AddLine address length file line h).
Proof.
  intros Hok Ha Hl. pose proof Hok as [Hs Hso [Hpr Hcited] Hf]. unfold ToModule_AddLine. destruct (Z.eqb_spec length 0) as [->|Hne]; [done|].
  rewrite clipped_size by done. destruct ((address =? 0) || _) eqn:E0; [by split|]. apply orb_false_iff in E0 as [E0%Z.eqb_neq _].
  cbn [set_omitted lm_files]. destruct (lm_files h !! file) as [[p|]|] eqn:E.
  - split; cbn; [done|done| |done]. split.
    + rewrite fmap_app. apply Forall_app. split; [done|]. constructor; [|done]. unfold proper_range, mline_extent. cbn. unfold fits in *. lia.
    + intros l [Hin| ->%list_elem_of_singleton]%elem_of_app; [by apply Hcited|]. cbn. by apply (Hf file).
  - by split.
  - split; cbn; [done|done|done|]. intros k p. destruct (decide (k = file)) as [->|Hk]; [by rewrite lookup_insert_eq|]. rewrite lookup_insert_ne by done. apply Hf.
Qed.

(** Whatever the bytes of a line number program, when it is read without a failed
    assertion or a read outside the section, the lines it adds are not empty, end inside the
    address space and cite files of the module, and the module only got files. *)
Lemma ReadProgram_lines (r : ByteReader) (compilation_dir : cstring) (program : list Z) (m : DumpModule) (lines : list MLine) :
  Forall byte_ok program -> str_sorted (mod_files m) -> lines_ok m lines ->
  ensures (ReadProgram r compilation_dir program m lines) (λ '(m', lines', _), rtc file_step m m' /\ lines_ok m' lines').
Proof.
  intros Hb Hs Hl. unfold ReadProgram. eapply ensures_bind; [apply (LineInfo_Start_fits (lm_ok m) program Hb)|].
  - intros name num h Hok. apply ensures_Ok. destruct Hok. unfold ToModule_DefineDir. by destruct (num =? 0).
  - intros name num dir time length h Hok. by apply ToModule_DefineFile_ok.
  - intros address length file line column h Hok Ha Hlen. apply ensures_Ok. by apply ToModule_AddLine_ok.
  - by split.
  - intros [[n r1] h] [? ? ? ?]. by apply ensures_Ok.
Qed.
