(* ===== verification/DwarfEnums.v ===== *)
(** common/dwarf/dwarf2enums.h: the tags, forms, attributes and languages that the readers of
    compilation units and the handlers of their DIEs tell apart. *)
From S2P Require Import Prelude.

(** Tags. *)

Definition DW_TAG_class_type := 0x02.
Definition DW_TAG_compile_unit := 0x11.
Definition DW_TAG_structure_type := 0x13.
Definition DW_TAG_union_type := 0x17.
Definition DW_TAG_module := 0x1e.
Definition DW_TAG_subprogram := 0x2e.
Definition DW_TAG_namespace := 0x39.

(** Forms. *)

Definition DW_FORM_addr := 0x01.
Definition DW_FORM_block2 := 0x03.
Definition DW_FORM_block4 := 0x04.
Definition DW_FORM_data2 := 0x05.
Definition DW_FORM_data4 := 0x06.
Definition DW_FORM_data8 := 0x07.
Definition DW_FORM_string := 0x08.
Definition DW_FORM_block := 0x09.
Definition DW_FORM_block1 := 0x0a.
Definition DW_FORM_data1 := 0x0b.
Definition DW_FORM_flag := 0x0c.
Definition DW_FORM_sdata := 0x0d.
Definition DW_FORM_strp := 0x0e.
Definition DW_FORM_udata := 0x0f.
Definition DW_FORM_ref_addr := 0x10.
Definition DW_FORM_ref1 := 0x11.
Definition DW_FORM_ref2 := 0x12.
Definition DW_FORM_ref4 := 0x13.
Definition DW_FORM_ref8 := 0x14.
Definition DW_FORM_ref_udata := 0x15.
Definition DW_FORM_indirect := 0x16.
Definition DW_FORM_sec_offset := 0x17.
Definition DW_FORM_exprloc := 0x18.
Definition DW_FORM_flag_present := 0x19.
Definition DW_FORM_ref_sig8 := 0x20.
Definition DW_FORM_GNU_addr_index := 0x1f01.
Definition DW_FORM_GNU_str_index := 0x1f02.

(** Attributes. *)

Definition DW_AT_name := 0x03.
Definition DW_AT_stmt_list := 0x10.
Definition DW_AT_low_pc := 0x11.
Definition DW_AT_high_pc := 0x12.
Definition DW_AT_language := 0x13.
Definition DW_AT_comp_dir := 0x1b.
Definition DW_AT_inline := 0x20.
Definition DW_AT_abstract_origin := 0x31.
Definition DW_AT_declaration := 0x3c.
Definition DW_AT_specification := 0x47.
Definition DW_AT_ranges := 0x55.
Definition DW_AT_linkage_name := 0x6e.
Definition DW_AT_MIPS_linkage_name := 0x2007.
Definition DW_AT_GNU_dwo_name := 0x2130.
Definition DW_AT_GNU_dwo_id := 0x2131.
Definition DW_AT_GNU_ranges_base := 0x2132.
Definition DW_AT_GNU_addr_base := 0x2133.

(** Languages. *)

Definition DW_LANG_Java := 0x000b.
Definition DW_LANG_Rust := 0x001c.
Definition DW_LANG_Swift := 0x001e.
Definition DW_LANG_Mips_Assembler := 0x8001.
