(* ===== verification/DieHandler.v ===== *)
(** common/dwarf/dwarf2diehandler.h, dwarf2diehandler.cc: [DIEDispatcher], which turns the
    events of a compilation unit's parser into calls to one handler per debugging
    information entry (DIE), and the interface of those handlers. *)
From Stdlib Require Import Ascii.
From stdpp Require Import list.
From S2P Require Import Prelude CStr.

(** The value of an attribute: which [ProcessAttribute...] it is reported to, and the data. *)
Inductive AttrValue :=
| AttrUnsigned (data : Z)
| AttrSigned (data : Z)
| AttrReference (data : Z)
| AttrBuffer (data : list Z)
| AttrString (data : cstring)
| AttrSignature (signature : Z).

(** An attribute: its name, its form and its value. *)
Abbreviation Attribute := (Z * Z * AttrValue)%type.

(** [DIEHandler] and [RootDIEHandler]: handlers [H] that change a shared state [S]. *)
Class DIEHandler (H S : Type) := {
  ProcessAttribute : forall (attr form : Z) (value : AttrValue), H -> S -> H * S;
  EndAttributes : H -> S -> bool * H * S;
  FindChildHandler : forall (offset tag : Z), H -> S -> option H;
  FinishDIE : H -> S -> outcome S;
  StartRootDIE : forall (offset tag : Z), H -> S -> bool;
  StartCompilationUnit : forall (offset address_size offset_size cu_length dwarf_version : Z), H -> S -> bool
}.

(** [Dwarf2Handler]: what the parser calls. *)
Class Dwarf2Handler (D : Type) := {
  OnCompilationUnit : forall (offset address_size offset_size cu_length dwarf_version : Z), D -> bool;
  StartDIE : forall (offset tag : Z), D -> outcome (bool * D);
  OnAttribute : forall (offset attr form : Z) (value : AttrValue), D -> outcome D;
  EndDIE : forall (offset : Z), D -> outcome D
}.

Section dispatcher.
Context {H S : Type} `{DIEHandler H S}.

(** [HandlerStack]; [None] is the null handler. *)
Record HandlerEntry := mkHandlerEntry { entry_offset : Z; entry_handler : option H; reported_attributes_end : bool }.

(** [DIEDispatcher]; the top of the stack comes first. *)
Record DIEDispatcher := mkDispatcher { die_handlers : list HandlerEntry; root_handler : H; shared : S }.

Implicit Types (d : DIEDispatcher).

(** A handler for a new DIE is found and pushed, unless its parent has none. *)
Definition push_handler (offset tag : Z) d : bool * DIEDispatcher :=
  let handler := match die_handlers d with
                 | parent :: _ => h ← entry_handler parent; FindChildHandler offset tag h (shared d)
                 | [] => if StartRootDIE offset tag (root_handler d) (shared d) then Some (root_handler d) else None
                 end in
  let push := match handler, die_handlers d with
              | None, parent :: _ => match entry_handler parent with Some _ => true | None => false end
              | _, _ => true
              end in
  let stack := if push then mkHandlerEntry offset handler false :: die_handlers d else die_handlers d in
  (match handler with Some _ => true | None => false end, mkDispatcher stack (root_handler d) (shared d)).

Definition dispatch_StartDIE (offset tag : Z) d : outcome (bool * DIEDispatcher) :=
  match die_handlers d with
  | mkHandlerEntry o (Some h) false :: rest =>
      let '(visit, h, s) := EndAttributes h (shared d) in
      if visit then Ok (push_handler offset tag (mkDispatcher (mkHandlerEntry o (Some h) true :: rest) (root_handler d) s))
      else
        s ← FinishDIE h s;
        Ok (false, mkDispatcher (mkHandlerEntry o None true :: rest) (root_handler d) s)
  | _ => Ok (push_handler offset tag d)
  end.

Definition dispatch_EndDIE (offset : Z) d : outcome DIEDispatcher :=
  match die_handlers d with
  | [] => Undefined
  | mkHandlerEntry o (Some h) reported :: rest =>
      if o =? offset then
        let '(h, s) := if reported then (h, shared d) else let '(_, h, s) := EndAttributes h (shared d) in (h, s) in
        s ← FinishDIE h s;
        Ok (mkDispatcher rest (root_handler d) s)
      else Undefined
  | mkHandlerEntry o None _ :: rest => Ok (if o =? offset then mkDispatcher rest (root_handler d) (shared d) else d)
  end.

(** The six [ProcessAttribute...] functions. *)
Definition dispatch_Attribute (offset attr form : Z) (value : AttrValue) d : outcome DIEDispatcher :=
  match die_handlers d with
  | mkHandlerEntry o (Some h) reported :: rest =>
      if offset =? o then
        let '(h, s) := ProcessAttribute attr form value h (shared d) in
        Ok (mkDispatcher (mkHandlerEntry o (Some h) reported :: rest) (root_handler d) s)
      else Undefined
  | _ => Undefined
  end.

#[export] Instance DispatcherHandler : Dwarf2Handler DIEDispatcher := {|
  OnCompilationUnit offset address_size offset_size cu_length dwarf_version d :=
    StartCompilationUnit offset address_size offset_size cu_length dwarf_version (root_handler d) (shared d);
  StartDIE := dispatch_StartDIE;
  OnAttribute := dispatch_Attribute;
  EndDIE := dispatch_EndDIE
|}.
End dispatcher.
Arguments HandlerEntry : clear implicits.
Arguments DIEDispatcher : clear implicits.

(** ** Trees *)

(** A DIE with those below it. *)
Inductive DIE := mkDIE (offset tag : Z) (attributes : list Attribute) (children : list DIE).

(** The events of a tree, the way a parser reports them: the attributes of a DIE only when
    [StartDIE] asks for them, those of its children whatever it says. *)
Section events.
Context {D : Type} `{Dwarf2Handler D}.

Fixpoint report_attributes (offset : Z) (attributes : list Attribute) (d : D) : outcome D :=
  match attributes with
  | [] => Ok d
  | (attr, form, value) :: attributes => d ← OnAttribute offset attr form value d; report_attributes offset attributes d
  end.

Fixpoint report_die (die : DIE) (d : D) : outcome D :=
  let '(mkDIE offset tag attributes children) := die in
  '((wanted, d) : bool * D) ← StartDIE offset tag d;
  d ← (if wanted then report_attributes offset attributes d else Ok d);
  d ← (fix report_dies (dies : list DIE) (d : D) : outcome D :=
         match dies with [] => Ok d | die :: dies => d ← report_die die d; report_dies dies d end) children d;
  EndDIE offset d.

Fixpoint report_dies (dies : list DIE) (d : D) : outcome D :=
  match dies with [] => Ok d | die :: dies => d ← report_die die d; report_dies dies d end.
End events.

(** What the handlers are meant to see: a DIE that has a handler gets its attributes, then
    the end of them; when it wants its children each that it finds a handler for is visited;
    then it is finished.  Below a DIE without a handler nothing is visited. *)
Section visiting.
Context {H S : Type} `{DIEHandler H S}.

Fixpoint process_attributes (attributes : list Attribute) (h : H) (s : S) : H * S :=
  match attributes with
  | [] => (h, s)
  | (attr, form, value) :: attributes => let '(h, s) := ProcessAttribute attr form value h s in process_attributes attributes h s
  end.

Fixpoint visit (die : DIE) (handler : H) (s : S) : outcome S :=
  let '(mkDIE _ _ attributes children) := die in
  let '(handler, s) := process_attributes attributes handler s in
  let '(descend, handler, s) := EndAttributes handler s in
  s ← (if descend then
         (fix visit_children (dies : list DIE) (s : S) : outcome S :=
            match dies with
            | [] => Ok s
            | (mkDIE offset tag _ _) as die :: dies =>
                s ← match FindChildHandler offset tag handler s with Some h => visit die h s | None => Ok s end;
                visit_children dies s
            end) children s
       else Ok s);
  FinishDIE handler s.

Definition visit_child (handler : H) (die : DIE) (s : S) : outcome S :=
  let '(mkDIE offset tag _ _) := die in
  match FindChildHandler offset tag handler s with Some h => visit die h s | None => Ok s end.

Fixpoint visit_children (handler : H) (dies : list DIE) (s : S) : outcome S :=
  match dies with [] => Ok s | die :: dies => s ← visit_child handler die s; visit_children handler dies s end.

Definition visit_root (root : H) (die : DIE) (s : S) : outcome S :=
  let '(mkDIE offset tag _ _) := die in if StartRootDIE offset tag root s then visit die root s else Ok s.
End visiting.

(** ** Lemmas *)

(** The offsets of a tree. *)
Fixpoint die_offsets (die : DIE) : list Z := let '(mkDIE offset _ _ children) := die in offset :: (children ≫= die_offsets).

Lemma DIE_induction (P : DIE -> Prop) :
  (forall offset tag attributes children, Forall P children -> P (mkDIE offset tag attributes children)) -> forall die, P die.
Proof.
  intros Hstep. fix IH 1. intros [offset tag attributes children]. apply Hstep. induction children as [|die dies IHd]; constructor; [apply IH|apply IHd].
Qed.

Section unfold.
Context {D : Type} `{Dwarf2Handler D}.

Lemma report_die_eq offset tag attributes children d :
  report_die (mkDIE offset tag attributes children) d =
  '((wanted, d) : bool * D) ← StartDIE offset tag d;
  d ← (if wanted then report_attributes offset attributes d else Ok d);
  d ← report_dies children d;
  EndDIE offset d.
Proof.
  cbn [report_die]. destruct (StartDIE offset tag d) as [[wanted d1]| |]; [|done|done]. cbn [mbind outcome_bind].
  by destruct (if wanted then _ else _) as [d2| |].
Qed.
End unfold.

Section dispatching.
Context {H S : Type} `{DIEHandler H S}.
Implicit Types (s : S) (h : H).

Lemma visit_eq offset tag attributes children h s :
  visit (mkDIE offset tag attributes children) h s =
  let '(h, s) := process_attributes attributes h s in
  let '(descend, h, s) := EndAttributes h s in
  s ← (if descend then visit_children h children s else Ok s); FinishDIE h s.
Proof.
  cbn [visit]. destruct (process_attributes attributes h s) as [h1 s1]. destruct (EndAttributes h1 s1) as [[descend h2] s2].
  destruct descend; [|done]. f_equal. revert s2. induction children as [|[o t a c] dies IH]; intros s2; [done|].
  cbn [visit_children visit_child]. destruct (FindChildHandler o t h2 s2) as [h3|].
  - destruct (visit _ h3 s2); [|done|done]. apply IH.
  - apply IH.
Qed.

(** A DIE below one without a handler, whose offset is not its own. *)
Definition ignored (die : DIE) : Prop :=
  forall o reported rest root s, o ∉ die_offsets die ->
  report_die die (mkDispatcher (mkHandlerEntry o None reported :: rest) root s) = Ok (mkDispatcher (mkHandlerEntry o None reported :: rest) root s).

Lemma ignored_dies dies : Forall ignored dies -> forall o reported rest root s, o ∉ (dies ≫= die_offsets) ->
  report_dies dies (mkDispatcher (mkHandlerEntry o None reported :: rest) root s) = Ok (mkDispatcher (mkHandlerEntry o None reported :: rest) root s).
Proof.
  induction 1 as [|die dies Hd _ IH]; intros o reported rest root s Ho; [done|]. cbn [mbind list_bind] in Ho.
  apply not_elem_of_app in Ho as [Ho1 Ho2]. cbn [report_dies]. rewrite Hd by done. rewrite bind_Ok. by apply IH.
Qed.

Lemma all_ignored die : ignored die.
Proof.
  induction die as [offset tag attributes children IH] using DIE_induction. intros o reported rest root s Ho.
  cbn [die_offsets] in Ho. apply not_elem_of_cons in Ho as [Hne Ho]. rewrite report_die_eq.
  change (StartDIE offset tag ?d) with (dispatch_StartDIE offset tag d). cbn [dispatch_StartDIE die_handlers].
  unfold push_handler. cbn [die_handlers entry_handler mbind option_bind root_handler shared]. rewrite !bind_Ok.
  rewrite ignored_dies, bind_Ok by done.
  change (EndDIE offset ?d) with (dispatch_EndDIE offset d). cbn [dispatch_EndDIE die_handlers]. by rewrite (proj2 (Z.eqb_neq _ _)).
Qed.

(** The attributes go to the handler on top. *)
Lemma report_attributes_eq offset attributes : forall h reported rest root s,
  report_attributes offset attributes (mkDispatcher (mkHandlerEntry offset (Some h) reported :: rest) root s) =
  let '(h, s) := process_attributes attributes h s in Ok (mkDispatcher (mkHandlerEntry offset (Some h) reported :: rest) root s).
Proof.
  induction attributes as [|[[attr form] value] attributes IH]; intros h reported rest root s; [done|]. cbn [report_attributes process_attributes].
  change (OnAttribute offset attr form value ?d) with (dispatch_Attribute offset attr form value d). cbn [dispatch_Attribute die_handlers shared root_handler].
  rewrite Z.eqb_refl. destruct (ProcessAttribute attr form value h s) as [h1 s1]. rewrite bind_Ok. apply IH.
Qed.

(** The events after a DIE is pushed. *)
Definition report_rest (offset : Z) (attributes : list Attribute) (children : list DIE) (d : DIEDispatcher H S) : outcome (DIEDispatcher H S) :=
  d ← report_attributes offset attributes d; d ← report_dies children d; EndDIE offset d.

(** A DIE is visited when its events are reported to its parent's handler, and one of the
    handler's own, on top, when its remaining events are. *)
Definition visited (die : DIE) : Prop :=
  NoDup (die_offsets die) -> forall o h rest root s,
  report_die die (mkDispatcher (mkHandlerEntry o (Some h) true :: rest) root s) =
  s ← visit_child h die s; Ok (mkDispatcher (mkHandlerEntry o (Some h) true :: rest) root s).

Lemma visited_dies dies : Forall visited dies -> NoDup (dies ≫= die_offsets) -> forall o h rest root s,
  report_dies dies (mkDispatcher (mkHandlerEntry o (Some h) true :: rest) root s) =
  s ← visit_children h dies s; Ok (mkDispatcher (mkHandlerEntry o (Some h) true :: rest) root s).
Proof.
  induction 1 as [|die dies Hd _ IH]; intros Hnd o h rest root s; [done|]. cbn [mbind list_bind] in Hnd.
  apply NoDup_app in Hnd as (Hnd1 & _ & Hnd2). cbn [report_dies visit_children]. rewrite Hd by done.
  destruct (visit_child h die s) as [s1| |]; [|done|done]. rewrite !bind_Ok. by apply IH.
Qed.

(** The first child's [StartDIE] ends the attributes. *)
Lemma report_children offset children h rest root s :
  Forall visited children -> NoDup (children ≫= die_offsets) -> offset ∉ (children ≫= die_offsets) ->
  (d ← report_dies children (mkDispatcher (mkHandlerEntry offset (Some h) false :: rest) root s); EndDIE offset d) =
  (let '(descend, h, s) := EndAttributes h s in
   s ← (if descend then visit_children h children s else Ok s);
   s ← FinishDIE h s;
   Ok (mkDispatcher rest root s)).
Proof.
  intros Hv Hnd Ho. destruct children as [|[o tag attributes dies] children].
  - cbn [report_dies mbind outcome_bind visit_children]. change (EndDIE offset ?d) with (dispatch_EndDIE offset d).
    cbn [dispatch_EndDIE die_handlers shared]. rewrite Z.eqb_refl. destruct (EndAttributes h s) as [[descend h1] s1]. by destruct descend.
  - set (die := mkDIE o tag attributes dies) in *. destruct (EndAttributes h s) as [[descend h1] s1] eqn:Ea.
    assert (Hstart: forall A (k : bool * DIEDispatcher H S -> outcome A),
      (r ← StartDIE o tag (mkDispatcher (mkHandlerEntry offset (Some h) false :: rest) root s); k r) =
      (if descend then (r ← StartDIE o tag (mkDispatcher (mkHandlerEntry offset (Some h1) true :: rest) root s1); k r)
       else s ← FinishDIE h1 s1; r ← StartDIE o tag (mkDispatcher (mkHandlerEntry offset None true :: rest) root s); k r)).
    { intros A k. change (StartDIE o tag ?d) with (dispatch_StartDIE o tag d). cbn [dispatch_StartDIE die_handlers shared root_handler].
      rewrite Ea. destruct descend; [done|]. destruct (FinishDIE h1 s1); [|done|done]. done. }
    assert (Hfirst: report_dies (die :: children) (mkDispatcher (mkHandlerEntry offset (Some h) false :: rest) root s) =
      if descend then report_dies (die :: children) (mkDispatcher (mkHandlerEntry offset (Some h1) true :: rest) root s1)
      else s ← FinishDIE h1 s1; report_dies (die :: children) (mkDispatcher (mkHandlerEntry offset None true :: rest) root s)).
    { cbn [report_dies]. unfold die. rewrite !report_die_eq, Hstart. destruct descend; [done|]. destruct (FinishDIE h1 s1); done. }
    rewrite Hfirst. destruct descend.
    + rewrite visited_dies by done. destruct (visit_children h1 (die :: children) s1) as [s2| |]; [|done|done]. rewrite !bind_Ok.
      change (EndDIE offset ?d) with (dispatch_EndDIE offset d). cbn [dispatch_EndDIE die_handlers shared]. by rewrite Z.eqb_refl.
    + rewrite bind_Ok. destruct (FinishDIE h1 s1) as [s2| |]; [|done|done]. rewrite bind_Ok.
      rewrite ignored_dies, bind_Ok by (done || (apply Forall_forall; intros; apply all_ignored)).
      change (EndDIE offset ?d) with (dispatch_EndDIE offset d). cbn [dispatch_EndDIE die_handlers shared]. by rewrite Z.eqb_refl.
Qed.

(** From the push of a handler on. *)
Lemma report_pushed offset tag attributes children h rest root s :
  Forall visited children -> NoDup (die_offsets (mkDIE offset tag attributes children)) ->
  report_rest offset attributes children (mkDispatcher (mkHandlerEntry offset (Some h) false :: rest) root s) =
  s ← visit (mkDIE offset tag attributes children) h s; Ok (mkDispatcher rest root s).
Proof.
  intros Hv [Ho Hnd]%NoDup_cons. unfold report_rest. rewrite report_attributes_eq, visit_eq.
  destruct (process_attributes attributes h s) as [h1 s1]. rewrite bind_Ok, report_children by done.
  destruct (EndAttributes h1 s1) as [[descend h2] s2]. by destruct (if descend then _ else _).
Qed.

Lemma all_visited die : visited die.
Proof.
  induction die as [offset tag attributes children IH] using DIE_induction. intros Hnd o h rest root s.
  rewrite report_die_eq. change (StartDIE offset tag ?d) with (dispatch_StartDIE offset tag d). cbn [dispatch_StartDIE die_handlers].
  unfold push_handler. cbn [die_handlers entry_handler mbind option_bind root_handler shared visit_child]. rewrite bind_Ok.
  destruct (FindChildHandler offset tag h s) as [h1|].
  - change (report_rest offset attributes children (mkDispatcher (mkHandlerEntry offset (Some h1) false :: mkHandlerEntry o (Some h) true :: rest) root s) =
      s ← visit (mkDIE offset tag attributes children) h1 s; Ok (mkDispatcher (mkHandlerEntry o (Some h) true :: rest) root s)).
    by apply report_pushed.
  - cbn [die_offsets] in Hnd. apply NoDup_cons in Hnd as [Ho _]. rewrite !bind_Ok.
    rewrite ignored_dies, bind_Ok by (done || (apply Forall_forall; intros; apply all_ignored)).
    change (EndDIE offset ?d) with (dispatch_EndDIE offset d). cbn [dispatch_EndDIE die_handlers shared]. by rewrite Z.eqb_refl.
Qed.

Lemma report_root (die : DIE) (root : H) s :
  NoDup (die_offsets die) ->
  report_die die (mkDispatcher [] root s) = s ← visit_root root die s; Ok (mkDispatcher [] root s).
Proof.
  intros Hnd. destruct die as [offset tag attributes children]. rewrite report_die_eq.
  change (StartDIE offset tag ?d) with (dispatch_StartDIE offset tag d). cbn [dispatch_StartDIE die_handlers].
  unfold push_handler. cbn [die_handlers root_handler shared visit_root]. rewrite bind_Ok.
  destruct (StartRootDIE offset tag root s).
  - change (report_rest offset attributes children (mkDispatcher [mkHandlerEntry offset (Some root) false] root s) =
      s ← visit (mkDIE offset tag attributes children) root s; Ok (mkDispatcher [] root s)).
    apply report_pushed; [|done]. apply Forall_forall. intros. apply all_visited.
  - cbn [die_offsets] in Hnd. apply NoDup_cons in Hnd as [Ho _]. rewrite !bind_Ok.
    rewrite ignored_dies, bind_Ok by (done || (apply Forall_forall; intros; apply all_ignored)).
    change (EndDIE offset ?d) with (dispatch_EndDIE offset d). cbn [dispatch_EndDIE die_handlers shared]. by rewrite Z.eqb_refl.
Qed.

(** C35: reporting the events of a unit's tree of DIEs, whose offsets are different, to a
    dispatcher that has just been made gives what visiting the tree with the root handler
    gives: each DIE that its parent's handler finds a handler for gets exactly its own
    attributes, the end of them before its first child, its children only if it wants them,
    and [Finish] at last; nothing else is called, and the stack is empty again. *)
Theorem die_dispatch (die : DIE) (root : H) s :
  NoDup (die_offsets die) ->
  report_die die (mkDispatcher [] root s) = s ← visit_root root die s; Ok (mkDispatcher [] root s).
Proof. apply report_root. Qed.
End dispatching.

(** A handler that keeps what it is told: its state is the offset of its DIE. *)
Inductive DieEvent :=
| AttributeEvent (offset attr : Z)
| EndAttributesEvent (offset : Z)
| FinishEvent (offset : Z).

(** It wants no children of a DIE at an odd offset, and no DIE of tag 0. *)
#[export] Instance DieRecorder : DIEHandler Z (list DieEvent) := {|
  ProcessAttribute attr form value h events := (h, events ++ [AttributeEvent h attr]);
  EndAttributes h events := (Z.even h, h, events ++ [EndAttributesEvent h]);
  FindChildHandler offset tag h events := if tag =? 0 then None else Some offset;
  FinishDIE h events := Ok (events ++ [FinishEvent h]);
  StartRootDIE offset tag h events := true;
  StartCompilationUnit offset address_size offset_size cu_length dwarf_version h events := true
|}.

Definition demo_die : DIE :=
  mkDIE 0 1 [(3, 8, AttrUnsigned 7)] [mkDIE 2 0 [(4, 8, AttrUnsigned 1)] [mkDIE 4 1 [] []]; mkDIE 5 1 [(6, 8, AttrUnsigned 2)] [mkDIE 6 1 [] []]].

Lemma die_dispatch_witness :
  report_die demo_die (mkDispatcher [] 0 []) =
  Ok (mkDispatcher [] 0 [AttributeEvent 0 3; EndAttributesEvent 0; AttributeEvent 5 6; EndAttributesEvent 5; FinishEvent 5; FinishEvent 0]).
Proof.
  rewrite (die_dispatch demo_die 0 []).
  - reflexivity.
  - cbn. repeat constructor; by rewrite ?elem_of_cons, ?elem_of_nil; lia.
Defined.
