(* ===== verification/CompilationUnit.v ===== *)
(** common/dwarf/dwarf2reader.h, dwarf2reader.cc: [CompilationUnit], which reads the header,
    the abbreviations and the DIEs of a compilation unit and reports the DIEs to a
    [Dwarf2Handler].
    The buffer is the .debug_info section from the unit on, and a pointer into it a position,
    [None] when it is null.  Reading outside a section or through a null pointer, moving a
    pointer out of its section, an index that [at] rejects and a failed assertion are
    undefined; the assertions that a pointer is inside the abbreviations are implied by the
    reads that follow them.
    The [ByteReader] is an object that the unit shares with the handler, so it is part of the
    handler's state. *)
From Stdlib Require Import Ascii.
From stdpp Require Import list.
From S2P Require Import Prelude CStr StrMap Memory ByteReader CallFrameInfo LineInfo DwarfEnums DieHandler.

(** ** Data *)

(** The byte reader in the state. *)
Class ReaderStore (D : Type) := {
  reader_of : D -> ByteReader;
  set_reader : ByteReader -> D -> D;
  reader_of_set : forall r d, reader_of (set_reader r d) = r
}.

Record Abbrev := mkAbbrev {
  abbrev_number : Z;
  abbrev_tag : Z;
  has_children : bool;
  abbrev_attributes : list (Z * Z)
}.

(** The default constructor's, which fills the unused index 0. *)
Definition Abbrev_default : Abbrev := mkAbbrev 0 0 false [].

Record UnitHeader := mkUnitHeader {
  unit_length : Z;
  unit_version : Z;
  abbrev_offset : Z;
  unit_address_size : Z
}.

(** A buffer and its length are a section, [None] when there is none. *)
Record CompilationUnit := mkUnit {
  offset_from_section_start_ : Z;
  buffer_ : list Z;
  header_ : UnitHeader;
  after_header_ : Z;
  abbrevs_ : option (list Abbrev);
  string_buffer_ : option (list Z);
  str_offsets_buffer_ : option (list Z);
  addr_buffer_ : option (list Z);
  is_split_dwarf_ : bool;
  dwo_id_ : Z;
  dwo_name_ : option cstring;
  skeleton_dwo_id_ : Z;
  ranges_base_ : Z;
  addr_base_ : Z
}.

Implicit Types (u : CompilationUnit).

Definition CompilationUnit_new (offset : Z) : CompilationUnit :=
  mkUnit offset [] (mkUnitHeader 0 0 0 0) 0 None None None None false 0 None 0 0 0.

Definition SetSplitDwarf (addr_buffer : option (list Z)) (addr_base ranges_base dwo_id : Z) u : CompilationUnit :=
  mkUnit (offset_from_section_start_ u) (buffer_ u) (header_ u) (after_header_ u) (abbrevs_ u) (string_buffer_ u) (str_offsets_buffer_ u)
    addr_buffer true (dwo_id_ u) (dwo_name_ u) dwo_id ranges_base addr_base.

Definition with_buffer x u : CompilationUnit :=
  mkUnit (offset_from_section_start_ u) x (header_ u) (after_header_ u) (abbrevs_ u) (string_buffer_ u) (str_offsets_buffer_ u)
    (addr_buffer_ u) (is_split_dwarf_ u) (dwo_id_ u) (dwo_name_ u) (skeleton_dwo_id_ u) (ranges_base_ u) (addr_base_ u).
Definition with_header x after u : CompilationUnit :=
  mkUnit (offset_from_section_start_ u) (buffer_ u) x after (abbrevs_ u) (string_buffer_ u) (str_offsets_buffer_ u)
    (addr_buffer_ u) (is_split_dwarf_ u) (dwo_id_ u) (dwo_name_ u) (skeleton_dwo_id_ u) (ranges_base_ u) (addr_base_ u).
Definition with_abbrevs x u : CompilationUnit :=
  mkUnit (offset_from_section_start_ u) (buffer_ u) (header_ u) (after_header_ u) x (string_buffer_ u) (str_offsets_buffer_ u)
    (addr_buffer_ u) (is_split_dwarf_ u) (dwo_id_ u) (dwo_name_ u) (skeleton_dwo_id_ u) (ranges_base_ u) (addr_base_ u).
Definition with_buffers string_buffer str_offsets_buffer addr_buffer u : CompilationUnit :=
  mkUnit (offset_from_section_start_ u) (buffer_ u) (header_ u) (after_header_ u) (abbrevs_ u) string_buffer str_offsets_buffer
    addr_buffer (is_split_dwarf_ u) (dwo_id_ u) (dwo_name_ u) (skeleton_dwo_id_ u) (ranges_base_ u) (addr_base_ u).
Definition with_dwo_id x u : CompilationUnit :=
  mkUnit (offset_from_section_start_ u) (buffer_ u) (header_ u) (after_header_ u) (abbrevs_ u) (string_buffer_ u) (str_offsets_buffer_ u)
    (addr_buffer_ u) (is_split_dwarf_ u) x (dwo_name_ u) (skeleton_dwo_id_ u) (ranges_base_ u) (addr_base_ u).
Definition with_dwo_name x u : CompilationUnit :=
  mkUnit (offset_from_section_start_ u) (buffer_ u) (header_ u) (after_header_ u) (abbrevs_ u) (string_buffer_ u) (str_offsets_buffer_ u)
    (addr_buffer_ u) (is_split_dwarf_ u) (dwo_id_ u) x (skeleton_dwo_id_ u) (ranges_base_ u) (addr_base_ u).
Definition with_ranges_base x u : CompilationUnit :=
  mkUnit (offset_from_section_start_ u) (buffer_ u) (header_ u) (after_header_ u) (abbrevs_ u) (string_buffer_ u) (str_offsets_buffer_ u)
    (addr_buffer_ u) (is_split_dwarf_ u) (dwo_id_ u) (dwo_name_ u) (skeleton_dwo_id_ u) x (addr_base_ u).
Definition with_addr_base x u : CompilationUnit :=
  mkUnit (offset_from_section_start_ u) (buffer_ u) (header_ u) (after_header_ u) (abbrevs_ u) (string_buffer_ u) (str_offsets_buffer_ u)
    (addr_buffer_ u) (is_split_dwarf_ u) (dwo_id_ u) (dwo_name_ u) (skeleton_dwo_id_ u) (ranges_base_ u) x.

(** What a pointer points to. *)
Definition non_null {A} (p : option A) : outcome A := match p with Some x => Ok x | None => Undefined end.

(** ** Abbreviations *)

(** An enumeration is kept in an [unsigned int]. *)
Definition enum_of (n : Z) : Z := u32 n.

(** The loop over the attributes and forms of an abbreviation; each pair takes some bytes. *)
Fixpoint read_attributes (fuel : nat) (section : list Z) (abbrevptr : Z) (attributes : list (Z * Z)) : outcome (list (Z * Z) * Z) :=
  match fuel with
  | O => Undefined
  | S fuel =>
      '(nametemp, len) ← ReadUnsignedLEB128 section abbrevptr;
      let abbrevptr := abbrevptr + len in
      '(formtemp, len) ← ReadUnsignedLEB128 section abbrevptr;
      let abbrevptr := abbrevptr + len in
      if (nametemp =? 0) && (formtemp =? 0) then Ok (attributes, abbrevptr)
      else read_attributes fuel section abbrevptr (attributes ++ [(enum_of nametemp, enum_of formtemp)])
  end.

Fixpoint abbrevs_loop (fuel : nat) (r : ByteReader) (section : list Z) (abbrevptr : Z) (abbrevs : list Abbrev) : outcome (list Abbrev) :=
  match fuel with
  | O => Undefined
  | S fuel =>
      '(number, len) ← ReadUnsignedLEB128 section abbrevptr;
      if number =? 0 then Ok abbrevs
      else
        let abbrevptr := abbrevptr + len in
        '(tag, len) ← ReadUnsignedLEB128 section abbrevptr;
        let abbrevptr := abbrevptr + len in
        children ← ReadOneByte r section abbrevptr;
        let abbrevptr := abbrevptr + 1 in
        '(attributes, abbrevptr) ← read_attributes (length section) section abbrevptr [];
        if number =? Z.of_nat (length abbrevs) then
          abbrevs_loop fuel r section abbrevptr (abbrevs ++ [mkAbbrev number (enum_of tag) (negb (children =? 0)) attributes])
        else Undefined
  end.

(** The section of a name, or of the name it has on Mac OS X. *)
Definition section_named (sections : strmap (list Z)) (name mac_name : cstring) : option (list Z) :=
  match str_find sections name with Some section => Some section | None => str_find sections mac_name end.

Definition ReadAbbrevs (r : ByteReader) (sections : strmap (list Z)) u : outcome CompilationUnit :=
  match abbrevs_ u with
  | Some _ => Ok u
  | None =>
      section ← non_null (section_named sections (lit ".debug_abbrev") (lit "__debug_abbrev"));
      abbrevs ← abbrevs_loop (S (length section)) r section (abbrev_offset (header_ u)) [Abbrev_default];
      Ok (with_abbrevs (Some abbrevs) u)
  end.

(** ** Attributes *)

Section attributes.
Context {D : Type} `{Dwarf2Handler D} `{ReaderStore D}.
Implicit Types (d : D).

Definition move (section : list Z) (start : option Z) (n : Z) : outcome (option Z) :=
  p ← non_null start; p ← advance section p n; Ok (Some p).

(** [form] is one of some forms. *)
Definition one_of (form : Z) (forms : list Z) : bool := existsb (Z.eqb form) forms.

(** The bytes of a block and the position after it, from its length and where it starts. *)
Definition read_block (section : list Z) (p datalen : Z) : outcome (list Z * option Z) :=
  next ← advance section p datalen; Ok (slice section p (Z.to_nat datalen), Some next).

(** The forms whose data follows. *)
Definition skip_direct u (r : ByteReader) (start : option Z) (form : Z) : outcome (option Z) :=
  let section := buffer_ u in
  if form =? DW_FORM_flag_present then Ok start
  else if one_of form [DW_FORM_data1; DW_FORM_flag; DW_FORM_ref1] then move section start 1
  else if one_of form [DW_FORM_ref2; DW_FORM_data2] then move section start 2
  else if one_of form [DW_FORM_ref4; DW_FORM_data4] then move section start 4
  else if one_of form [DW_FORM_ref8; DW_FORM_data8; DW_FORM_ref_sig8] then move section start 8
  else if form =? DW_FORM_string then p ← non_null start; '(_, next) ← read_string section p; Ok (Some next)
  else if one_of form [DW_FORM_udata; DW_FORM_ref_udata; DW_FORM_GNU_str_index; DW_FORM_GNU_addr_index] then
    p ← non_null start; '(_, len) ← ReadUnsignedLEB128 section p; Ok (Some (p + len))
  else if form =? DW_FORM_sdata then p ← non_null start; '(_, len) ← ReadSignedLEB128 section p; Ok (Some (p + len))
  else if form =? DW_FORM_addr then move section start (address_size_ r)
  else if form =? DW_FORM_ref_addr then
    if unit_version (header_ u) <? 2 then Undefined
    else if unit_version (header_ u) =? 2 then move section start (address_size_ r)
    else move section start (offset_size_ r)
  else if form =? DW_FORM_block1 then p ← non_null start; n ← ReadOneByte r section p; move section start (1 + n)
  else if form =? DW_FORM_block2 then p ← non_null start; n ← ReadTwoBytes r section p; move section start (2 + n)
  else if form =? DW_FORM_block4 then p ← non_null start; n ← ReadFourBytes r section p; move section start (4 + n)
  else if one_of form [DW_FORM_block; DW_FORM_exprloc] then
    p ← non_null start; '(size, len) ← ReadUnsignedLEB128 section p; move section start (size + len)
  else if one_of form [DW_FORM_strp; DW_FORM_sec_offset] then move section start (offset_size_ r)
  else Ok None.

(** With [DW_FORM_indirect] the number of another form comes first. *)
Fixpoint SkipAttribute (fuel : nat) u (r : ByteReader) (start : option Z) (form : Z) : outcome (option Z) :=
  if form =? DW_FORM_indirect then
    p ← non_null start;
    '(form, len) ← ReadUnsignedLEB128 (buffer_ u) p;
    match fuel with
    | O => Undefined
    | S fuel => SkipAttribute fuel u r (Some (p + len)) (enum_of form)
    end
  else skip_direct u r start form.

Fixpoint SkipDIE (fuel : nat) u (r : ByteReader) (start : option Z) (attributes : list (Z * Z)) : outcome (option Z) :=
  match attributes with
  | [] => Ok start
  | (_, form) :: attributes => start ← SkipAttribute fuel u r start form; SkipDIE fuel u r start attributes
  end.

(** The member functions [ProcessAttributeUnsigned] and [ProcessAttributeString]. *)
Definition unit_unsigned (dieoffset attr form data : Z) u d : outcome (CompilationUnit * D) :=
  let '(u, data) :=
    if attr =? DW_AT_GNU_dwo_id then (with_dwo_id data u, data)
    else if attr =? DW_AT_GNU_addr_base then (with_addr_base data u, data)
    else if attr =? DW_AT_GNU_ranges_base then (with_ranges_base data u, data)
    else if (attr =? DW_AT_ranges) && is_split_dwarf_ u then (u, u64 (data + ranges_base_ u))
    else (u, data) in
  d ← OnAttribute dieoffset attr form (AttrUnsigned data) d;
  Ok (u, d).

Definition unit_string (dieoffset attr form : Z) (data : cstring) u d : outcome (CompilationUnit * D) :=
  let u := if attr =? DW_AT_GNU_dwo_name then with_dwo_name (Some data) u else u in
  d ← OnAttribute dieoffset attr form (AttrString data) d;
  Ok (u, d).

(** A reference inside the unit is one inside the section. *)
Definition unit_reference (dieoffset attr form data : Z) u d : outcome (CompilationUnit * D) :=
  d ← OnAttribute dieoffset attr form (AttrReference (u64 (data + offset_from_section_start_ u))) d; Ok (u, d).

(** The result of reading a value: the position after it, the unit and the handler. *)
Definition then_move (section : list Z) (p n : Z) (x : outcome (CompilationUnit * D)) : outcome (option Z * CompilationUnit * D) :=
  '(u, d) ← x; p ← advance section p n; Ok (Some p, u, d).

Definition then_at (p : option Z) (x : outcome (CompilationUnit * D)) : outcome (option Z * CompilationUnit * D) :=
  '(u, d) ← x; Ok (p, u, d).

(** A value of the size of an address or an offset: the size is looked up again after the
    handler has run. *)
Definition then_sized (size : ByteReader -> Z) (section : list Z) (p : Z) (x : outcome (CompilationUnit * D)) :
    outcome (option Z * CompilationUnit * D) :=
  '(u, d) ← x; p ← advance section p (size (reader_of d)); Ok (Some p, u, d).

Definition report (dieoffset attr form : Z) (value : AttrValue) u d : outcome (CompilationUnit * D) :=
  d ← OnAttribute dieoffset attr form value d; Ok (u, d).

Definition read_direct (dieoffset : Z) (start : option Z) (attr form : Z) u d : outcome (option Z * CompilationUnit * D) :=
  let section := buffer_ u in
  let r := reader_of d in
  if form =? DW_FORM_flag_present then then_at start (unit_unsigned dieoffset attr form 1 u d)
  else if one_of form [DW_FORM_data1; DW_FORM_flag] then
    p ← non_null start; n ← ReadOneByte r section p; then_move section p 1 (unit_unsigned dieoffset attr form n u d)
  else if form =? DW_FORM_data2 then
    p ← non_null start; n ← ReadTwoBytes r section p; then_move section p 2 (unit_unsigned dieoffset attr form n u d)
  else if form =? DW_FORM_data4 then
    p ← non_null start; n ← ReadFourBytes r section p; then_move section p 4 (unit_unsigned dieoffset attr form n u d)
  else if form =? DW_FORM_data8 then
    p ← non_null start; n ← ReadEightBytes r section p; then_move section p 8 (unit_unsigned dieoffset attr form n u d)
  else if form =? DW_FORM_string then
    p ← non_null start; '(str, next) ← read_string section p; then_at (Some next) (unit_string dieoffset attr form str u d)
  else if form =? DW_FORM_udata then
    p ← non_null start; '(n, len) ← ReadUnsignedLEB128 section p; then_at (Some (p + len)) (unit_unsigned dieoffset attr form n u d)
  else if form =? DW_FORM_sdata then
    p ← non_null start; '(n, len) ← ReadSignedLEB128 section p; then_at (Some (p + len)) (report dieoffset attr form (AttrSigned n) u d)
  else if form =? DW_FORM_addr then
    p ← non_null start; n ← ReadAddress r section p; then_sized address_size_ section p (unit_unsigned dieoffset attr form n u d)
  else if form =? DW_FORM_sec_offset then
    p ← non_null start; n ← ReadOffset r section p; then_sized offset_size_ section p (unit_unsigned dieoffset attr form n u d)
  else if form =? DW_FORM_ref1 then
    p ← non_null start; n ← ReadOneByte r section p; then_move section p 1 (unit_reference dieoffset attr form n u d)
  else if form =? DW_FORM_ref2 then
    p ← non_null start; n ← ReadTwoBytes r section p; then_move section p 2 (unit_reference dieoffset attr form n u d)
  else if form =? DW_FORM_ref4 then
    p ← non_null start; n ← ReadFourBytes r section p; then_move section p 4 (unit_reference dieoffset attr form n u d)
  else if form =? DW_FORM_ref8 then
    p ← non_null start; n ← ReadEightBytes r section p; then_move section p 8 (unit_reference dieoffset attr form n u d)
  else if form =? DW_FORM_ref_udata then
    p ← non_null start; '(n, len) ← ReadUnsignedLEB128 section p; then_at (Some (p + len)) (unit_reference dieoffset attr form n u d)
  else if form =? DW_FORM_ref_addr then
    if unit_version (header_ u) <? 2 then Undefined
    else if unit_version (header_ u) =? 2 then
      p ← non_null start; n ← ReadAddress r section p; then_sized address_size_ section p (report dieoffset attr form (AttrReference n) u d)
    else
      p ← non_null start; n ← ReadOffset r section p; then_sized offset_size_ section p (report dieoffset attr form (AttrReference n) u d)
  else if form =? DW_FORM_ref_sig8 then
    p ← non_null start; n ← ReadEightBytes r section p; then_move section p 8 (report dieoffset attr form (AttrSignature n) u d)
  else if form =? DW_FORM_block1 then
    p ← non_null start; n ← ReadOneByte r section p;
    '(data, next) ← read_block section (p + 1) n; then_at next (report dieoffset attr form (AttrBuffer data) u d)
  else if form =? DW_FORM_block2 then
    p ← non_null start; n ← ReadTwoBytes r section p;
    '(data, next) ← read_block section (p + 2) n; then_at next (report dieoffset attr form (AttrBuffer data) u d)
  else if form =? DW_FORM_block4 then
    p ← non_null start; n ← ReadFourBytes r section p;
    '(data, next) ← read_block section (p + 4) n; then_at next (report dieoffset attr form (AttrBuffer data) u d)
  else if one_of form [DW_FORM_block; DW_FORM_exprloc] then
    p ← non_null start; '(n, len) ← ReadUnsignedLEB128 section p;
    '(data, next) ← read_block section (p + len) n; then_at next (report dieoffset attr form (AttrBuffer data) u d)
  else if form =? DW_FORM_strp then
    p ← non_null start;
    strings ← non_null (string_buffer_ u);
    offset ← ReadOffset r section p;
    if offset <? Z.of_nat (length strings) then
      '(str, _) ← read_string strings offset; then_sized offset_size_ section p (unit_string dieoffset attr form str u d)
    else Undefined
  else if form =? DW_FORM_GNU_str_index then
    p ← non_null start; '(str_index, len) ← ReadUnsignedLEB128 section p;
    offsets ← non_null (str_offsets_buffer_ u);
    offset ← ReadOffset r offsets (u64 (str_index * offset_size_ r));
    let strings := default [] (string_buffer_ u) in
    if Z.of_nat (length strings) <=? offset then Ok (None, u, d)
    else '(str, _) ← read_string strings offset; then_at (Some (p + len)) (unit_string dieoffset attr form str u d)
  else if form =? DW_FORM_GNU_addr_index then
    p ← non_null start; '(addr_index, len) ← ReadUnsignedLEB128 section p;
    addresses ← non_null (addr_buffer_ u);
    n ← ReadAddress r addresses (addr_base_ u + u64 (addr_index * address_size_ r));
    then_at (Some (p + len)) (unit_unsigned dieoffset attr form n u d)
  else Ok (None, u, d).

(** [ProcessAttribute]. *)
Fixpoint ReadAttribute (fuel : nat) (dieoffset : Z) (start : option Z) (attr form : Z) u d : outcome (option Z * CompilationUnit * D) :=
  if form =? DW_FORM_indirect then
    p ← non_null start;
    '(form, len) ← ReadUnsignedLEB128 (buffer_ u) p;
    match fuel with
    | O => Undefined
    | S fuel => ReadAttribute fuel dieoffset (Some (p + len)) attr (enum_of form) u d
    end
  else read_direct dieoffset start attr form u d.

Fixpoint read_die_attributes (fuel : nat) (dieoffset : Z) (start : option Z) (attributes : list (Z * Z)) u d :
    outcome (option Z * CompilationUnit * D) :=
  match attributes with
  | [] => Ok (start, u, d)
  | (attr, form) :: attributes =>
      '(start, u, d) ← ReadAttribute fuel dieoffset start attr form u d;
      read_die_attributes fuel dieoffset start attributes u d
  end.

(** [ProcessDIE]: a unit of a split file that is not the one looked for is given up. *)
Definition ProcessDIE (fuel : nat) (dieoffset : Z) (start : option Z) (abbrev : Abbrev) u d : outcome (option Z * CompilationUnit * D) :=
  '(start, u, d) ← read_die_attributes fuel dieoffset start (abbrev_attributes abbrev) u d;
  if (abbrev_tag abbrev =? DW_TAG_compile_unit) && is_split_dwarf_ u && negb (dwo_id_ u =? skeleton_dwo_id_ u) then Ok (None, u, d)
  else Ok (start, u, d).

(** ** DIEs *)

(** A null pointer is before the end. *)
Definition before_end (dieptr : option Z) (unit_end : Z) : bool := match dieptr with Some p => p <? unit_end | None => true end.

Fixpoint dies_loop (fuel : nat) (dieptr : option Z) (unit_end : Z) (die_stack : list Z) u d : outcome (CompilationUnit * D) :=
  if before_end dieptr unit_end then
    match fuel with
    | O => Undefined
    | S fuel =>
        p ← non_null dieptr;
        let absolute_offset := u64 (p + offset_from_section_start_ u) in
        '(abbrev_num, len) ← ReadUnsignedLEB128 (buffer_ u) p;
        let dieptr := Some (p + len) in
        if abbrev_num =? 0 then
          match die_stack with
          | [] => Ok (u, d)
          | offset :: die_stack => d ← EndDIE offset d; dies_loop fuel dieptr unit_end die_stack u d
          end
        else
          abbrevs ← non_null (abbrevs_ u);
          abbrev ← non_null (abbrevs !! Z.to_nat abbrev_num);
          '((wanted, d) : bool * D) ← StartDIE absolute_offset (abbrev_tag abbrev) d;
          '(dieptr, u, d) ← (if wanted then ProcessDIE (length (buffer_ u)) absolute_offset dieptr abbrev u d
                             else dieptr ← SkipDIE (length (buffer_ u)) u (reader_of d) dieptr (abbrev_attributes abbrev); Ok (dieptr, u, d));
          if has_children abbrev then dies_loop fuel dieptr unit_end (absolute_offset :: die_stack) u d
          else d ← EndDIE absolute_offset d; dies_loop fuel dieptr unit_end die_stack u d
    end
  else Ok (u, d).

Definition ProcessDIEs u d : outcome (CompilationUnit * D) :=
  let lengthstart := if offset_size_ (reader_of d) =? 8 then 12 else 4 in
  dies_loop (S (length (buffer_ u))) (Some (after_header_ u)) (lengthstart + unit_length (header_ u)) [] u d.

(** ** The unit *)

Definition UnitReadHeader u d : outcome (CompilationUnit * D) :=
  let section := buffer_ u in
  let buffer_length := Z.of_nat (length section) in
  if negb (4 <? buffer_length) then Undefined
  else
    '(initial_length, headerptr, r) ← ReadInitialLength (reader_of d) section 0;
    let initial_length_size := headerptr in
    if negb (headerptr + 2 <? buffer_length) then Undefined
    else
      version ← ReadTwoBytes r section headerptr;
      let headerptr := headerptr + 2 in
      if negb (headerptr + offset_size_ r <? buffer_length) then Undefined
      else
        abbrev_offset ← ReadOffset r section headerptr;
        let headerptr := headerptr + offset_size_ r in
        address_size ← ReadOneByte r section headerptr;
        r ← SetAddressSize r address_size;
        let headerptr := headerptr + 1 in
        if initial_length_size + initial_length <=? buffer_length then
          Ok (with_header (mkUnitHeader initial_length version abbrev_offset address_size) headerptr u, set_reader r d)
        else Undefined.

(** [Start] of a unit: the bytes it takes; [ProcessSplitDwarf] finds the rest of a unit whose
    debugging information is in another file. *)
Definition Start (NeedSplitDebugInfo : D -> bool) (ProcessSplitDwarf : CompilationUnit -> D -> outcome D) (sections : strmap (list Z)) u d :
    outcome (Z * D) :=
  info ← non_null (section_named sections (lit ".debug_info") (lit "__debug_info"));
  buffer_start ← advance info 0 (offset_from_section_start_ u);
  '(u, d) ← UnitReadHeader (with_buffer (from info buffer_start) u) d;
  let r := reader_of d in
  let ourlength := u64 (unit_length (header_ u) + (if offset_size_ r =? 8 then 12 else 4)) in
  if negb (OnCompilationUnit (offset_from_section_start_ u) (address_size_ r) (offset_size_ r) (unit_length (header_ u)) (wrap 8 (unit_version (header_ u))) d)
  then Ok (ourlength, d)
  else
    u ← ReadAbbrevs r sections u;
    let or_else new old := match new with Some _ => new | None => old end in
    let u := with_buffers (or_else (section_named sections (lit ".debug_str") (lit "__debug_str")) (string_buffer_ u))
               (or_else (str_find sections (lit ".debug_str_offsets")) (str_offsets_buffer_ u))
               (or_else (str_find sections (lit ".debug_addr")) (addr_buffer_ u)) u in
    '(u, d) ← ProcessDIEs u d;
    d ← (if negb (is_split_dwarf_ u) && is_Some_b (dwo_name_ u) && NeedSplitDebugInfo d then ProcessSplitDwarf u d else Ok d);
    Ok (ourlength, d).
End attributes.

(** A unit that [ProcessDIE] gave up is read on through the null pointer, which is before any
    other. *)
Lemma null_unit_read {D : Type} `{Dwarf2Handler D} `{ReaderStore D} fuel unit_end die_stack u (d : D) :
  dies_loop fuel None unit_end die_stack u d = Undefined.
Proof. by destruct fuel. Qed.
