(* ===== verification/DwpReader.v ===== *)
(** common/dwarf/dwarf2reader.h, dwarf2reader.cc: [DwpReader], which finds the sections of a
    compilation unit in the index of a .dwp file, and [ProcessSplitDwarf], which reads the
    rest of a unit from there or from a .dwo file.
    A pointer into the index is a position in it; a pointer to a section that the file does
    not have is null.  A null section and the empty one in a [SectionMap] cannot be told
    apart, since nothing is read from either. *)
From Stdlib Require Import Ascii Znumtheory Zpow_facts.
From stdpp Require Import list.
From S2P Require Import Prelude CStr StrMap Memory ByteReader CallFrameInfo LineInfo DwarfEnums DieHandler CompilationUnit.

(** ** The files *)

(** [ElfReader]: what is asked of an ELF file; a section that is not there is [None]. *)
Record ElfReader := mkElfReader {
  IsElf32File : bool;
  IsElf64File : bool;
  GetSectionByName : cstring -> option (list Z);
  GetSectionName : Z -> option cstring;
  GetSectionByIndex : Z -> option (list Z)
}.

(** Whether [stat] succeeds, and an [ElfReader] for a path. *)
Class Files := { stat : cstring -> bool; open_elf : cstring -> ElfReader }.

Definition GetElfWidth (elf : ElfReader) : Z := if IsElf32File elf then 4 else if IsElf64File elf then 8 else 0.

Definition SectionMap := strmap (list Z).

(** ** The index *)

Record DwpReader := mkDwpReader {
  elf_reader_ : ElfReader;
  byte_reader_ : ByteReader;
  cu_index_ : option (list Z);
  dwp_string_buffer_ : option (list Z);
  version_ : Z;
  ncolumns_ : Z;
  nunits_ : Z;
  nslots_ : Z;
  phash_ : Z;
  pindex_ : Z;
  shndx_pool_ : Z;
  offset_table_ : Z;
  size_table_ : Z;
  abbrev_data_ : option (list Z);
  info_data_ : option (list Z);
  str_offsets_data_ : option (list Z)
}.

Implicit Types (d : DwpReader).

Definition DwpReader_new (byte_reader : ByteReader) (elf_reader : ElfReader) : DwpReader :=
  mkDwpReader elf_reader byte_reader None None 0 0 0 0 0 0 0 0 0 None None None.

Definition set_version (version : Z) d : DwpReader :=
  mkDwpReader (elf_reader_ d) (byte_reader_ d) (cu_index_ d) (dwp_string_buffer_ d) version (ncolumns_ d) (nunits_ d) (nslots_ d) (phash_ d) (pindex_ d)
    (shndx_pool_ d) (offset_table_ d) (size_table_ d) (abbrev_data_ d) (info_data_ d) (str_offsets_data_ d).

Definition Initialize d : outcome DwpReader :=
  let elf := elf_reader_ d in
  let r := byte_reader_ d in
  match GetSectionByName elf (lit ".debug_cu_index") with
  | None => Ok (mkDwpReader elf r None (dwp_string_buffer_ d) (version_ d) (ncolumns_ d) (nunits_ d) (nslots_ d) (phash_ d) (pindex_ d)
                  (shndx_pool_ d) (offset_table_ d) (size_table_ d) (abbrev_data_ d) (info_data_ d) (str_offsets_data_ d))
  | Some index =>
      let string_buffer := GetSectionByName elf (lit ".debug_str.dwo") in
      let cu_index_size := Z.of_nat (length index) in
      version ← ReadFourBytes r index 0;
      if version =? 1 then
        nslots ← ReadFourBytes r index 12;
        let phash := 16 in
        let pindex := phash + nslots * 8 in
        let shndx_pool := pindex + nslots * 4 in
        Ok (mkDwpReader elf r (Some index) string_buffer (if cu_index_size <=? shndx_pool then 0 else version) (ncolumns_ d) (nunits_ d) nslots phash pindex
              shndx_pool (offset_table_ d) (size_table_ d) (abbrev_data_ d) (info_data_ d) (str_offsets_data_ d))
      else if version =? 2 then
        ncolumns ← ReadFourBytes r index 4;
        nunits ← ReadFourBytes r index 8;
        nslots ← ReadFourBytes r index 12;
        let phash := 16 in
        let pindex := phash + nslots * 8 in
        let offset_table := pindex + nslots * 4 in
        let size_table := offset_table + u32 (ncolumns * u32 (nunits + 1)) * 4 in
        Ok (mkDwpReader elf r (Some index) string_buffer (if cu_index_size <=? size_table then 0 else version) ncolumns nunits nslots phash pindex
              (shndx_pool_ d) offset_table size_table
              (GetSectionByName elf (lit ".debug_abbrev.dwo")) (GetSectionByName elf (lit ".debug_info.dwo"))
              (GetSectionByName elf (lit ".debug_str_offsets.dwo")))
      else
        Ok (mkDwpReader elf r (Some index) string_buffer (s32 version) (ncolumns_ d) (nunits_ d) (nslots_ d) (phash_ d) (pindex_ d)
              (shndx_pool_ d) (offset_table_ d) (size_table_ d) (abbrev_data_ d) (info_data_ d) (str_offsets_data_ d))
  end.

(** ** The hash table *)

Definition probe_at d (slot : Z) : outcome Z :=
  index ← non_null (cu_index_ d); ReadEightBytes (byte_reader_ d) index (phash_ d + slot * 8).
Definition index_at d (slot : Z) : outcome Z :=
  index ← non_null (cu_index_ d); ReadFourBytes (byte_reader_ d) index (pindex_ d + slot * 4).

Definition first_slot (nslots dwo_id : Z) : Z := Z.land (u32 dwo_id) (u32 (nslots - 1)).
Definition secondary_hash (nslots dwo_id : Z) : Z := Z.lor (Z.land (u32 (Z.shiftr dwo_id 32)) (u32 (nslots - 1))) 1.
Definition next_slot (nslots slot secondary : Z) : Z := Z.land (u32 (slot + secondary)) (u32 (nslots - 1)).

(** The loop of both lookups: on to the next slot until one ends the search. *)
Fixpoint probe_loop (fuel : nat) (ends : Z -> outcome bool) (nslots slot secondary : Z) : outcome Z :=
  match fuel with
  | O => Undefined
  | S fuel =>
      let slot := next_slot nslots slot secondary in
      found ← ends slot;
      if found : bool then Ok slot else probe_loop fuel ends nslots slot secondary
  end.

Definition probe (ends : Z -> outcome bool) (fuel : nat) (nslots dwo_id : Z) : outcome Z :=
  let slot := first_slot nslots dwo_id in
  found ← ends slot;
  if found : bool then Ok slot else probe_loop fuel ends nslots slot (secondary_hash nslots dwo_id).

(** A search looks at each slot of a table once at most, and the table is in the index. *)
Definition probe_fuel d : nat := length (default [] (cu_index_ d)).

Definition LookupCU (dwo_id : Z) d : outcome Z :=
  slot ← probe (λ slot, p ← probe_at d slot; Ok ((p =? 0) || (p =? dwo_id))) (probe_fuel d) (nslots_ d) dwo_id;
  p ← probe_at d slot;
  Ok (if p =? 0 then -1 else s32 slot).

Definition LookupCUv2 (dwo_id : Z) d : outcome Z :=
  slot ← probe (λ slot, p ← probe_at d slot; index ← index_at d slot; Ok ((index =? 0) || (p =? dwo_id))) (probe_fuel d) (nslots_ d) dwo_id;
  index_at d slot.

(** ** The sections of a unit *)

Definition DW_SECT_INFO := 1.
Definition DW_SECT_ABBREV := 3.
Definition DW_SECT_STR_OFFSETS := 6.

(** [sections->insert]; a null pointer to a section is an empty one. *)
Definition insert_section (sections : SectionMap) (name : cstring) (contents : option (list Z)) : SectionMap :=
  str_insert sections name (default [] contents).

(** A section of a list of sections in the pool is added under its normal name if it is one of
    three; its size is not set when it cannot be found. *)
Definition pool_section d (shndx : Z) (sections : SectionMap) : outcome SectionMap :=
  section_name ← non_null (GetSectionName (elf_reader_ d) (s32 shndx));
  let add name := contents ← non_null (GetSectionByIndex (elf_reader_ d) (s32 shndx)); Ok (insert_section sections name (Some contents)) in
  if starts_with (lit ".debug_abbrev") section_name then add (lit ".debug_abbrev")
  else if starts_with (lit ".debug_info") section_name then add (lit ".debug_info")
  else if starts_with (lit ".debug_str_offsets") section_name then add (lit ".debug_str_offsets")
  else Ok sections.

(** The loop over the list; each turn reads four bytes of the index.  [None] is its [return]. *)
Fixpoint pool_loop (fuel : nat) d (index : list Z) (shndx_list : Z) (sections : SectionMap) : outcome (SectionMap * bool) :=
  match fuel with
  | O => Undefined
  | S fuel =>
      if Z.of_nat (length index) <=? shndx_list then Ok (sections, false)
      else
        shndx ← ReadFourBytes (byte_reader_ d) index shndx_list;
        let shndx_list := shndx_list + 4 in
        if shndx =? 0 then Ok (sections, true)
        else sections ← pool_section d shndx sections; pool_loop fuel d index shndx_list sections
  end.

(** What a row of the tables says of a section: a part of the file's. *)
Definition contribution (data : option (list Z)) (offset size : Z) : outcome (list Z) :=
  let data := default [] data in start ← advance data 0 offset; Ok (slice data start (Z.to_nat size)).

Fixpoint columns_loop (n : nat) d (index : list Z) (id_row offset_row size_row col : Z) (sections : SectionMap) : outcome SectionMap :=
  match n with
  | O => Ok sections
  | S n =>
      section_id ← ReadFourBytes (byte_reader_ d) index (id_row + col * 4);
      offset ← ReadFourBytes (byte_reader_ d) index (offset_row + col * 4);
      size ← ReadFourBytes (byte_reader_ d) index (size_row + col * 4);
      sections ← (let add name data := contents ← contribution data offset size; Ok (insert_section sections name (Some contents)) in
                  if section_id =? DW_SECT_ABBREV then add (lit ".debug_abbrev") (abbrev_data_ d)
                  else if section_id =? DW_SECT_INFO then add (lit ".debug_info") (info_data_ d)
                  else if section_id =? DW_SECT_STR_OFFSETS then add (lit ".debug_str_offsets") (str_offsets_data_ d)
                  else Ok sections);
      columns_loop n d index id_row offset_row size_row (col + 1) sections
  end.

Definition ReadDebugSectionsForCU (dwo_id : Z) d (sections : SectionMap) : outcome (DwpReader * SectionMap) :=
  if version_ d =? 1 then
    slot ← LookupCU dwo_id d;
    if slot =? -1 then Ok (d, sections)
    else
      i ← index_at d slot;
      index ← non_null (cu_index_ d);
      '((sections, all) : SectionMap * bool) ← pool_loop (S (length index)) d index (shndx_pool_ d + s32 i * 4) sections;
      if all then Ok (d, insert_section sections (lit ".debug_str") (dwp_string_buffer_ d)) else Ok (set_version 0 d, sections)
  else if version_ d =? 2 then
    i ← LookupCUv2 dwo_id d;
    if i =? 0 then Ok (d, sections)
    else
      index ← non_null (cu_index_ d);
      let id_row := offset_table_ d in
      let offset_row := offset_table_ d + u32 (i * ncolumns_ d) * 4 in
      let size_row := size_table_ d + u32 ((i - 1) * ncolumns_ d) * 4 in
      if Z.of_nat (length index) <? size_row + ncolumns_ d * 4 then Ok (set_version 0 d, sections)
      else
        sections ← columns_loop (Z.to_nat (ncolumns_ d)) d index id_row offset_row size_row 0 sections;
        Ok (d, insert_section sections (lit ".debug_str") (dwp_string_buffer_ d))
  else Ok (d, sections).

(** ** The rest of a unit *)

(** [path.rfind(suffix)]: the last position where it starts. *)
Fixpoint str_rfind (sub path : cstring) : option nat :=
  match path with
  | [] => if starts_with sub [] then Some O else None
  | _ :: path' => match str_rfind sub path' with Some i => Some (S i) | None => if starts_with sub path then Some O else None end
  end.

(** [npos] is the largest [size_t]. *)
Definition npos : Z := 2 ^ 64 - 1.

(** The .dwp file next to the .debug file of a path.  [replace] at a position past the end
    throws. *)
Definition debug_dwp_path (path : cstring) : outcome cstring :=
  let found := match str_rfind (lit ".debug") path with Some i => Z.of_nat i | None => npos end in
  if u64 (found + 6) =? Z.of_nat (length path) then
    if Z.of_nat (length path) <? found then Undefined
    else Ok (take (Z.to_nat found) path ++ lit ".dwp" ++ drop (Z.to_nat found + 6) path)
  else Ok path.

(** The members of [CompilationUnit] that are only for this; [dwp_reader_] shares the byte
    reader, of which it uses the byte order alone. *)
Record SplitState := mkSplitState {
  have_checked_for_dwp_ : bool;
  dwp_path_ : cstring;
  dwp_byte_reader_ : ByteReader;
  dwp_reader_ : option DwpReader
}.
Definition SplitState_new : SplitState := mkSplitState false [] (ByteReader_new ENDIANNESS_LITTLE) None.

(** A handler, and a byte reader that is not the one it has. *)
Record OwnReader (D : Type) := mkOwnReader { own_reader : ByteReader; told : D }.
Arguments mkOwnReader {_} _ _.
Arguments own_reader {_} _.
Arguments told {_} _.

Section split.
Context `{Files} {D : Type} `{Dwarf2Handler D} `{ReaderStore D}.

#[export] Instance OwnReaderStore : ReaderStore (OwnReader D) := {|
  reader_of o := own_reader o;
  set_reader r o := mkOwnReader r (told o);
  reader_of_set r o := eq_refl
|}.

#[export] Instance OwnReaderHandler : Dwarf2Handler (OwnReader D) := {|
  OnCompilationUnit offset address_size offset_size cu_length dwarf_version o :=
    OnCompilationUnit offset address_size offset_size cu_length dwarf_version (told o);
  StartDIE offset tag o := '(b, d) ← StartDIE offset tag (told o); Ok (b, mkOwnReader (own_reader o) d);
  OnAttribute offset attr form value o := d ← OnAttribute offset attr form value (told o); Ok (mkOwnReader (own_reader o) d);
  EndDIE offset o := d ← EndDIE offset (told o); Ok (mkOwnReader (own_reader o) d)
|}.

(** The unit of a split file is read with another byte reader into the same handler; it is not
    a skeleton itself. *)
Definition read_split_unit (r : ByteReader) (sections : SectionMap) (u : CompilationUnit) (d : D) : outcome (ByteReader * D) :=
  '(_, o) ← Start (λ _, false) (λ _, Ok) sections
              (SetSplitDwarf (addr_buffer_ u) (addr_base_ u) (ranges_base_ u) (dwo_id_ u) (CompilationUnit_new 0)) (mkOwnReader r d);
  Ok (own_reader o, told o).

Definition ReadDebugSectionsFromDwo (elf : ElfReader) (sections : SectionMap) : SectionMap :=
  foldl (λ sections base_name,
           match GetSectionByName elf (base_name ++ lit ".dwo") with
           | Some section_data => str_insert sections base_name section_data
           | None => sections
           end)
    sections [lit ".debug_abbrev"; lit ".debug_info"; lit ".debug_str_offsets"; lit ".debug_str"].

(** The first half of [ProcessSplitDwarf]: look for a .dwp file, once. *)
Definition look_for_dwp (path : cstring) (r : ByteReader) (s : SplitState) : outcome SplitState :=
  if have_checked_for_dwp_ s then Ok s
  else
    dwp_path ← (if stat (path ++ lit ".dwp") then Ok (path ++ lit ".dwp") else debug_dwp_path path);
    if stat dwp_path then
      let elf := open_elf dwp_path in
      let width := GetElfWidth elf in
      if width =? 0 then Ok (mkSplitState true dwp_path (dwp_byte_reader_ s) (dwp_reader_ s))
      else
        byte_reader ← SetAddressSize (ByteReader_new (endian_ r)) width;
        reader ← Initialize (DwpReader_new byte_reader elf);
        Ok (mkSplitState true dwp_path byte_reader (Some reader))
    else Ok (mkSplitState true dwp_path (dwp_byte_reader_ s) (dwp_reader_ s)).

(** Reading the unit from the .dwp file, and whether it is there. *)
Definition read_from_dwp (s : SplitState) (u : CompilationUnit) (d : D) : outcome (bool * SplitState * D) :=
  match dwp_reader_ s with
  | None => Ok (false, s, d)
  | Some reader =>
      '((reader, sections) : DwpReader * SectionMap) ← ReadDebugSectionsForCU (dwo_id_ u) reader [];
      match sections with
      | [] => Ok (false, mkSplitState (have_checked_for_dwp_ s) (dwp_path_ s) (dwp_byte_reader_ s) (Some reader), d)
      | _ :: _ =>
          '(r, d) ← read_split_unit (dwp_byte_reader_ s) sections u d;
          Ok (true, mkSplitState (have_checked_for_dwp_ s) (dwp_path_ s) r (Some reader), d)
      end
  end.

(** Reading it from the .dwo file. *)
Definition read_from_dwo (u : CompilationUnit) (d : D) : outcome D :=
  dwo_name ← non_null (dwo_name_ u);
  if stat dwo_name then
    let elf := open_elf dwo_name in
    let width := GetElfWidth elf in
    if width =? 0 then Ok d
    else
      reader ← SetAddressSize (ByteReader_new ENDIANNESS_LITTLE) width;
      '(_, d) ← read_split_unit reader (ReadDebugSectionsFromDwo elf []) u d;
      Ok d
  else Ok d.

Definition ProcessSplitDwarf (path : cstring) (s : SplitState) (u : CompilationUnit) (d : D) : outcome (SplitState * D) :=
  s ← look_for_dwp path (reader_of d) s;
  '(found_in_dwp, s, d) ← read_from_dwp s u d;
  if found_in_dwp : bool then Ok (s, d) else d ← read_from_dwo u d; Ok (s, d).

(** [Start] calls it once for a unit, whose members are new. *)
Definition split_dwarf (path : cstring) (u : CompilationUnit) (d : D) : outcome D :=
  '(_, d) ← ProcessSplitDwarf path SplitState_new u d; Ok d.
End split.

(** ** Searches *)

(** The slots a search looks at, in order. *)
Definition slot_at (nslots dwo_id i : Z) : Z := (first_slot nslots dwo_id + i * secondary_hash nslots dwo_id) mod nslots.

Section probing.
Context (k : Z) (Hk : 0 <= k <= 31) (dwo_id : Z).
Notation nslots := (2 ^ k).

Lemma nslots_bounds : 0 < nslots <= 2 ^ 31.
Proof. split; [apply Z.pow_pos_nonneg; lia|]. apply Z.pow_le_mono_r; lia. Qed.

Lemma land_mask x : Z.land x (u32 (nslots - 1)) = x mod nslots.
Proof.
  pose proof nslots_bounds. unfold u32. rewrite wrap_small by (unfold fits; lia).
  rewrite Z.sub_1_r, <- Z.ones_equiv. apply Z.land_ones. lia.
Qed.

Lemma u32_mod x : u32 x mod nslots = x mod nslots.
Proof.
  unfold u32, wrap. symmetry. replace 32 with (k + (32 - k)) by lia. rewrite Z.pow_add_r by lia.
  pose proof nslots_bounds. pose proof (Z.pow_pos_nonneg 2 (32 - k) ltac:(lia) ltac:(lia)).
  rewrite Z.rem_mul_r by lia. rewrite (Z.mul_comm nslots), Z_mod_plus_full, Zmod_mod. done.
Qed.

Lemma slot_at_0 : slot_at nslots dwo_id 0 = first_slot nslots dwo_id.
Proof.
  pose proof nslots_bounds. unfold slot_at. rewrite Z.mul_0_l, Z.add_0_r. unfold first_slot. rewrite land_mask. apply Zmod_mod.
Qed.

Lemma slot_at_next i : next_slot nslots (slot_at nslots dwo_id i) (secondary_hash nslots dwo_id) = slot_at nslots dwo_id (i + 1).
Proof.
  pose proof nslots_bounds. unfold next_slot, slot_at. rewrite land_mask, u32_mod, Zplus_mod_idemp_l. f_equal. lia.
Qed.

Lemma slot_at_range i : 0 <= slot_at nslots dwo_id i < nslots.
Proof. pose proof nslots_bounds. apply Z.mod_pos_bound. lia. Qed.

(** The step is odd, so its multiples are all the numbers modulo the power of two. *)
Lemma secondary_prime : rel_prime (secondary_hash nslots dwo_id) nslots.
Proof.
  assert (Hodd: Z.odd (secondary_hash nslots dwo_id) = true).
  { unfold secondary_hash. rewrite <- Z.bit0_odd, Z.lor_spec. apply orb_true_r. }
  apply rel_prime_Zpower_r; [lia|]. apply rel_prime_sym.
  apply prime_rel_prime; [apply prime_2|]. intros Hd%Zdivide_mod. rewrite Zmod_odd, Hodd in Hd. done.
Qed.

Lemma slots_reached s : 0 <= s < nslots -> exists i, 0 <= i < nslots /\ slot_at nslots dwo_id i = s.
Proof.
  intros Hs. pose proof nslots_bounds. destruct (rel_prime_bezout _ _ secondary_prime) as [x y Hxy].
  set (h := first_slot nslots dwo_id). set (t := secondary_hash nslots dwo_id) in *.
  exists ((x * (s - h)) mod nslots). split; [apply Z.mod_pos_bound; lia|]. unfold slot_at. fold h t.
  rewrite <- Zplus_mod_idemp_r, Zmult_mod_idemp_l, Zplus_mod_idemp_r.
  replace (h + x * (s - h) * t) with (s + - y * (s - h) * nslots).
  - rewrite Z_mod_plus_full. apply Z.mod_small. lia.
  - assert (x * t = 1 - y * nslots) as E by lia. replace (x * (s - h) * t) with ((s - h) * (x * t)) by ring. rewrite E. ring.
Qed.

Context (ends : Z -> outcome bool) (g : Z -> bool) (Hends : forall s, 0 <= s < nslots -> ends s = Ok (g s)).

Lemma probe_loop_spec j fuel : forall i,
  0 <= i < j -> (forall i', i < i' < j -> g (slot_at nslots dwo_id i') = false) -> g (slot_at nslots dwo_id j) = true -> j - i <= Z.of_nat fuel ->
  probe_loop fuel ends nslots (slot_at nslots dwo_id i) (secondary_hash nslots dwo_id) = Ok (slot_at nslots dwo_id j).
Proof.
  induction fuel as [|fuel IH]; intros i Hi Hno Hj Hf; [lia|]. cbn [probe_loop]. cbv zeta.
  rewrite slot_at_next, Hends by apply slot_at_range. cbn [mbind outcome_bind]. destruct (Z.eq_dec (i + 1) j) as [->|].
  - by rewrite Hj.
  - rewrite Hno by lia. apply IH; [lia| |done|lia]. intros i' Hi'. apply Hno. lia.
Qed.

Lemma probe_spec j fuel :
  0 <= j <= Z.of_nat fuel -> (forall i, 0 <= i < j -> g (slot_at nslots dwo_id i) = false) -> g (slot_at nslots dwo_id j) = true ->
  probe ends fuel nslots dwo_id = Ok (slot_at nslots dwo_id j).
Proof.
  intros Hf Hno Hj. unfold probe. cbv zeta. rewrite <- slot_at_0, Hends by apply slot_at_range. cbn [mbind outcome_bind].
  destruct (Z.eq_dec j 0) as [->|]; [by rewrite Hj|]. rewrite Hno by lia. apply probe_loop_spec; [lia| |done|lia]. intros i' Hi'. apply Hno. lia.
Qed.

(** The least turn at which a slot ends the search. *)
Lemma probe_first s : 0 <= s < nslots -> g s = true ->
  exists j, 0 <= j < nslots /\ (forall i, 0 <= i < j -> g (slot_at nslots dwo_id i) = false) /\ g (slot_at nslots dwo_id j) = true.
Proof.
  intros Hs Hg. destruct (slots_reached s Hs) as (i0 & Hi0 & E). rewrite <- E in Hg. clear E Hs.
  induction i0 as [i IH] using (well_founded_induction (Z.lt_wf 0)). rename Hi0 into Hi.
  destruct (existsb (λ n, g (slot_at nslots dwo_id (Z.of_nat n))) (seq 0 (Z.to_nat i))) eqn:Ex.
  - apply existsb_exists in Ex as (n & Hn%in_seq & Hgn). apply (IH (Z.of_nat n)); [lia|done|lia].
  - exists i. split; [lia|]. split; [|done]. intros i' Hi'. apply not_true_is_false. intros Hg'.
    rewrite <- not_true_iff_false in Ex. apply Ex, existsb_exists. exists (Z.to_nat i'). rewrite in_seq, Z2Nat.id by lia. split; [lia|done].
Qed.

Lemma probe_never fuel : (forall s, 0 <= s < nslots -> g s = false) -> probe ends fuel nslots dwo_id = Undefined.
Proof.
  intros Hno. unfold probe. cbv zeta. rewrite <- slot_at_0, Hends, Hno by apply slot_at_range. cbn [mbind outcome_bind].
  generalize 0. induction fuel as [|fuel IH]; intros i; [done|]. cbn [probe_loop]. cbv zeta.
  rewrite slot_at_next, Hends, Hno by apply slot_at_range. apply IH.
Qed.
End probing.

(** C37: a search in a table of a power of two of slots looks at every slot before it comes to
    one again, so that it ends, within as many turns as there are slots, at the first slot of
    its sequence that ends it, if any slot does; when none does -- a table without a free
    slot, for a unit that is not in it -- it never ends, however long it goes on. *)
Theorem probe_ends (k dwo_id : Z) (ends : Z -> outcome bool) (g : Z -> bool) :
  0 <= k <= 31 -> (forall s, 0 <= s < 2 ^ k -> ends s = Ok (g s)) ->
  (forall s, 0 <= s < 2 ^ k -> g s = true ->
     exists j, 0 <= j < 2 ^ k /\ (forall i, 0 <= i < j -> g (slot_at (2 ^ k) dwo_id i) = false) /\ g (slot_at (2 ^ k) dwo_id j) = true /\
       forall fuel, 2 ^ k <= Z.of_nat fuel -> probe ends fuel (2 ^ k) dwo_id = Ok (slot_at (2 ^ k) dwo_id j)) /\
  ((forall s, 0 <= s < 2 ^ k -> g s = false) -> forall fuel, probe ends fuel (2 ^ k) dwo_id = Undefined).
Proof.
  intros Hk Hends. split.
  - intros s Hs Hg. destruct (probe_first k Hk dwo_id g s Hs Hg) as (j & Hj & Hno & Hgj). exists j. split_and!; [lia|lia|done|done|].
    intros fuel Hf. apply (probe_spec k Hk dwo_id ends g Hends); [lia|done|done].
  - intros Hno fuel. by apply (probe_never k Hk dwo_id ends g Hends).
Qed.

Lemma probe_ends_witness :
  let g s := s =? 2 in
  probe (λ s, Ok (g s)) 4 4 0x100000003 = Ok 2 /\
  exists j, 0 <= j < 2 ^ 2 /\ (forall i, 0 <= i < j -> g (slot_at (2 ^ 2) 0x100000003 i) = false) /\ g (slot_at (2 ^ 2) 0x100000003 j) = true /\
    forall fuel, 2 ^ 2 <= Z.of_nat fuel -> probe (λ s, Ok (g s)) fuel (2 ^ 2) 0x100000003 = Ok (slot_at (2 ^ 2) 0x100000003 j).
Proof.
  intros g. split; [reflexivity|]. apply (proj1 (probe_ends 2 0x100000003 (λ s, Ok (g s)) g ltac:(lia) (λ _ _, eq_refl)) 2); [lia|reflexivity].
Defined.

(** ** An index and its layout *)

(** The sections of the columns; for each unit the offset and the size of its part of each; and
    the hash table, of identifiers and rows, 0 in a free slot. *)
Record CuIndex := mkCuIndex { columns : list Z; rows : list (list (Z * Z)); slots : list (Z * Z) }.

Definition numbers (e : Endianness) (n : nat) (l : list Z) : list Z := concat (bytes_of e n <$> l).

Definition index_header (ix : CuIndex) : list Z :=
  [2; Z.of_nat (length (columns ix)); Z.of_nat (length (rows ix)); Z.of_nat (length (slots ix))].

Definition index_bytes (e : Endianness) (ix : CuIndex) : list Z :=
  numbers e 4 (index_header ix) ++ numbers e 8 (slots ix).*1 ++ numbers e 4 (slots ix).*2 ++
  numbers e 4 (columns ix) ++ numbers e 4 (concat (rows ix)).*1 ++ numbers e 4 (concat (rows ix)).*2.

(** The row of a unit. *)
Definition row_of (ix : CuIndex) (dwo_id : Z) : Z :=
  match filter (λ x : Z * Z, x.1 = dwo_id /\ x.2 <> 0) (slots ix) with x :: _ => x.2 | [] => 0 end.

Definition slot (ix : CuIndex) (i : Z) : Z * Z := slots ix !!! Z.to_nat i.

(** [k]: the logarithm of the number of slots.  Some slot is free, and every unit is found from
    its identifier past slots of others. *)
Record index_ok (k : Z) (ix : CuIndex) : Prop := {
  ix_slots : 0 <= k <= 31 /\ Z.of_nat (length (slots ix)) = 2 ^ k;
  ix_numbers : Forall (λ x, fits 64 x.1 /\ 0 <= x.2 <= Z.of_nat (length (rows ix))) (slots ix);
  ix_free : exists i, 0 <= i < 2 ^ k /\ (slot ix i).2 = 0;
  ix_found : forall i, 0 <= i < 2 ^ k -> (slot ix i).2 <> 0 ->
    exists j, 0 <= j /\ slot_at (2 ^ k) (slot ix i).1 j = i /\
      forall j', 0 <= j' < j -> (slot ix (slot_at (2 ^ k) (slot ix i).1 j')).2 <> 0 /\ (slot ix (slot_at (2 ^ k) (slot ix i).1 j')).1 <> (slot ix i).1;
  ix_table : columns ix <> [] /\ rows ix <> [] /\ Z.of_nat (length (columns ix)) * (Z.of_nat (length (rows ix)) + 1) < 2 ^ 32;
  ix_rows : Forall (λ row, length row = length (columns ix) /\ Forall (λ x, fits 32 x.1 /\ fits 32 x.2) row) (rows ix);
  ix_columns : Forall (fits 32) (columns ix)
}.

(** The sections a row stands for. *)
Definition section_of (elf : ElfReader) (section_id : Z) : option (cstring * list Z) :=
  if section_id =? DW_SECT_ABBREV then Some (lit ".debug_abbrev", default [] (GetSectionByName elf (lit ".debug_abbrev.dwo")))
  else if section_id =? DW_SECT_INFO then Some (lit ".debug_info", default [] (GetSectionByName elf (lit ".debug_info.dwo")))
  else if section_id =? DW_SECT_STR_OFFSETS then Some (lit ".debug_str_offsets", default [] (GetSectionByName elf (lit ".debug_str_offsets.dwo")))
  else None.

Fixpoint row_sections (elf : ElfReader) (cells : list (Z * (Z * Z))) (sections : SectionMap) : outcome SectionMap :=
  match cells with
  | [] => Ok sections
  | (section_id, (offset, size)) :: cells =>
      match section_of elf section_id with
      | None => row_sections elf cells sections
      | Some (name, data) =>
          if offset <=? Z.of_nat (length data) then row_sections elf cells (str_insert sections name (slice data offset (Z.to_nat size)))
          else Undefined
      end
  end.

(** ** Reading it *)

Lemma length_numbers e n l : length (numbers e n l) = (n * length l)%nat.
Proof. induction l as [|x l IH]; [cbn; lia|]. unfold numbers in *. cbn [fmap list_fmap concat length]. rewrite length_app, length_bytes_of, IH. lia. Qed.

Lemma number_at e n l mem p i v :
  holds mem p (numbers e n l) -> l !! i = Some v -> holds mem (p + Z.of_nat i * Z.of_nat n) (bytes_of e n v).
Proof.
  revert p i. induction l as [|x l IH]; intros p i H Hi; [done|]. unfold numbers in *. cbn [fmap list_fmap concat] in H.
  apply holds_app in H as [H1 H2]. rewrite length_bytes_of in H2. destruct i as [|i]; cbn [lookup list_lookup] in Hi.
  - simplify_eq. by rewrite Z.mul_0_l, Z.add_0_r.
  - replace (p + Z.of_nat (S i) * Z.of_nat n) with (p + Z.of_nat n + Z.of_nat i * Z.of_nat n) by lia. by apply IH.
Qed.

Lemma read_at (n : nat) r mem p l i v :
  (0 < n)%nat -> holds mem p (numbers (endian_ r) n l) -> l !! i = Some v -> fits (8 * Z.of_nat n) v ->
  read_number r mem (p + Z.of_nat i * Z.of_nat n) n = Ok v.
Proof. intros Hn H Hi Hv. rewrite (read_number_bytes _ _ _ _ v Hn (number_at _ _ _ _ _ _ _ H Hi)). by rewrite wrap_small. Qed.

Lemma concat_at {A} (c : nat) (l : list (list A)) i j row x :
  Forall (λ row, length row = c) l -> l !! i = Some row -> row !! j = Some x -> concat l !! (i * c + j)%nat = Some x.
Proof.
  revert i. induction l as [|y l IH]; intros i Hl Hi Hj; [done|]. apply Forall_cons in Hl as [Hy Hl]. cbn [concat].
  destruct i as [|i]; cbn [lookup list_lookup] in Hi.
  - simplify_eq. rewrite lookup_app_l by (apply lookup_lt_Some in Hj; lia). done.
  - rewrite lookup_app_r by lia. replace (S i * c + j - length y)%nat with (i * c + j)%nat by lia. by apply IH.
Qed.

Section index.
Context (r : ByteReader) (elf : ElfReader) (k : Z) (ix : CuIndex) (Hix : index_ok k ix).
Context (Helf : GetSectionByName elf (lit ".debug_cu_index") = Some (index_bytes (endian_ r) ix)).
Notation index := (index_bytes (endian_ r) ix).
Notation ncolumns := (Z.of_nat (length (columns ix))).
Notation nunits := (Z.of_nat (length (rows ix))).
Notation nslots := (2 ^ k).

Definition offset_start : Z := 16 + nslots * 8 + nslots * 4.
Definition size_start : Z := offset_start + ncolumns * (nunits + 1) * 4.

(** The reader when the index has been read. *)
Definition index_reader : DwpReader :=
  mkDwpReader elf r (Some index) (GetSectionByName elf (lit ".debug_str.dwo")) 2 ncolumns nunits nslots 16 (16 + nslots * 8) 0 offset_start size_start
    (GetSectionByName elf (lit ".debug_abbrev.dwo")) (GetSectionByName elf (lit ".debug_info.dwo")) (GetSectionByName elf (lit ".debug_str_offsets.dwo")).

Lemma length_cells : length (concat (rows ix)) = (length (columns ix) * length (rows ix))%nat.
Proof.
  pose proof (ix_rows _ _ Hix) as Hr. induction Hr as [|row l [Hrow _] _ IH]; [cbn; lia|]. cbn [concat length]. rewrite length_app, IH, Hrow. lia.
Qed.

Lemma index_parts :
  holds index 0 (numbers (endian_ r) 4 (index_header ix)) /\ holds index 16 (numbers (endian_ r) 8 (slots ix).*1) /\
  holds index (16 + nslots * 8) (numbers (endian_ r) 4 (slots ix).*2) /\ holds index offset_start (numbers (endian_ r) 4 (columns ix)) /\
  holds index (offset_start + ncolumns * 4) (numbers (endian_ r) 4 (concat (rows ix)).*1) /\
  holds index size_start (numbers (endian_ r) 4 (concat (rows ix)).*2) /\
  Z.of_nat (length index) = size_start + ncolumns * nunits * 4.
Proof.
  destruct (ix_slots _ _ Hix) as [_ Hn]. pose proof (holds_here [] index []) as H. rewrite app_nil_l, app_nil_r in H. cbn [length] in H.
  assert (Hlen: Z.of_nat (length index) = size_start + ncolumns * nunits * 4).
  { unfold index_bytes, size_start, offset_start. rewrite !length_app, !length_numbers, !length_fmap, length_cells. cbn [index_header length]. lia. }
  unfold index_bytes in H at 2. do 5 (rewrite holds_app in H; destruct H as [? H]). rewrite !length_numbers, !length_fmap in *.
  rewrite length_cells in H. cbn [index_header length] in *. rewrite <- Hn in *.
  unfold size_start, offset_start in *. rewrite <- Hn in *.
  split_and!; try done; match goal with H : holds _ ?p ?bs |- holds _ ?q ?bs => replace q with p by lia; exact H end.
Qed.

Lemma header_read i v : index_header ix !! i = Some v -> fits 32 v -> ReadFourBytes r index (Z.of_nat i * 4) = Ok v.
Proof. intros Hi Hv. destruct index_parts as (H & _). exact (read_at 4 r index 0 _ i v ltac:(lia) H Hi Hv). Qed.

Lemma index_sizes : 0 < ncolumns /\ 0 < nunits /\ fits 32 ncolumns /\ fits 32 nunits /\ fits 32 nslots /\ ncolumns * (nunits + 1) < 2 ^ 32.
Proof.
  destruct (ix_table _ _ Hix) as (Hc & Hr & Hm). destruct (ix_slots _ _ Hix) as [Hk _]. pose proof (nslots_bounds k Hk).
  destruct (columns ix), (rows ix); [done..|]. cbn [length] in *. change (2 ^ 32) with (2 * 2 ^ 31) in *. unfold fits. change (2 ^ 32) with (2 * 2 ^ 31). split_and!; nia.
Qed.

Lemma Initialize_holds : Initialize (DwpReader_new r elf) = Ok index_reader.
Proof.
  destruct index_sizes as (H1 & H2 & Hc & Hu & Hs & Hm). destruct (ix_slots _ _ Hix) as [_ Hn]. destruct index_parts as (_ & _ & _ & _ & _ & _ & Hlen).
  unfold Initialize, DwpReader_new. cbn [elf_reader_ byte_reader_]. rewrite Helf. cbv zeta.
  rewrite (header_read 0 2 eq_refl ltac:(done) : ReadFourBytes r index 0 = _). cbn [mbind outcome_bind Z.eqb Pos.eqb].
  rewrite (header_read 1 _ eq_refl Hc : ReadFourBytes r index 4 = _), (header_read 2 _ eq_refl Hu : ReadFourBytes r index 8 = _). cbn [mbind outcome_bind].
  rewrite <- Hn in Hs. rewrite (header_read 3 _ eq_refl Hs : ReadFourBytes r index 12 = _). cbn [mbind outcome_bind]. rewrite Hn.
  assert (u32 (ncolumns * u32 (nunits + 1)) = ncolumns * (nunits + 1)) as ->.
  { unfold u32. rewrite (wrap_small 32 (nunits + 1)) by (unfold fits; nia). apply wrap_small. unfold fits. nia. }
  fold offset_start. fold size_start. rewrite (proj2 (Z.leb_gt _ _)) by nia. done.
Qed.

(** ** The search *)

Lemma slot_lookup i : 0 <= i < nslots -> slots ix !! Z.to_nat i = Some (slot ix i).
Proof. intros Hi. destruct (ix_slots _ _ Hix) as [_ Hn]. unfold slot. apply list_lookup_lookup_total_lt. lia. Qed.

Lemma slot_fits i : 0 <= i < nslots -> fits 64 (slot ix i).1 /\ 0 <= (slot ix i).2 <= nunits.
Proof. intros Hi. pose proof (ix_numbers _ _ Hix) as Hn. by apply (Forall_lookup_1 _ _ _ _ Hn (slot_lookup i Hi)). Qed.

Lemma probe_at_holds i : 0 <= i < nslots -> probe_at index_reader i = Ok (slot ix i).1.
Proof.
  intros Hi. destruct index_parts as (_ & H & _). unfold probe_at. cbn [cu_index_ index_reader non_null mbind outcome_bind byte_reader_ phash_].
  rewrite <- (Z2Nat.id i) at 1 by lia. apply (read_at 8 r index _ (slots ix).*1 (Z.to_nat i) _ ltac:(lia) H).
  - by rewrite list_lookup_fmap, slot_lookup.
  - by apply slot_fits.
Qed.

Lemma index_at_holds i : 0 <= i < nslots -> index_at index_reader i = Ok (slot ix i).2.
Proof.
  intros Hi. destruct index_parts as (_ & _ & H & _). destruct index_sizes as (_ & _ & _ & Hu & _). unfold index_at.
  cbn [cu_index_ index_reader non_null mbind outcome_bind byte_reader_ pindex_].
  rewrite <- (Z2Nat.id i) at 1 by lia. apply (read_at 4 r index _ (slots ix).*2 (Z.to_nat i) _ ltac:(lia) H).
  - by rewrite list_lookup_fmap, slot_lookup.
  - pose proof (slot_fits i Hi) as [_ Hf]. unfold fits in *. change (8 * Z.of_nat 4) with 32. lia.
Qed.

(** The slot of a unit holds its row; there is one for the units that have a row. *)
Lemma row_of_slot i : 0 <= i < nslots -> (slot ix i).2 <> 0 -> row_of ix (slot ix i).1 = (slot ix i).2.
Proof.
  intros Hi Hne. unfold row_of. destruct (filter _ (slots ix)) as [|x l] eqn:E.
  - assert (slot ix i ∈ filter (λ x : Z * Z, x.1 = (slot ix i).1 /\ x.2 <> 0) (slots ix)) as H.
    { apply list_elem_of_filter. split; [done|]. by eapply list_elem_of_lookup_2, slot_lookup. }
    rewrite E in H. by apply elem_of_nil in H.
  - assert (x ∈ filter (λ x : Z * Z, x.1 = (slot ix i).1 /\ x.2 <> 0) (slots ix)) as Hx by (rewrite E; apply elem_of_cons; by left).
    apply list_elem_of_filter in Hx as [[Hx1 Hx2] Hx]. apply list_elem_of_lookup in Hx as [n Hn].
    destruct (ix_slots _ _ Hix) as [Hk Hlen]. pose proof (lookup_lt_Some _ _ _ Hn) as Hlt.
    assert (Hnr: 0 <= Z.of_nat n < nslots) by lia. assert (x = slot ix (Z.of_nat n)) as ->.
    { pose proof (slot_lookup _ Hnr) as H. rewrite Nat2Z.id in H. congruence. }
    destruct (ix_found _ _ Hix i Hi Hne) as (j & Hj & Ej & Hno). destruct (ix_found _ _ Hix _ Hnr Hx2) as (j' & Hj' & Ej' & Hno').
    rewrite Hx1 in *. destruct (Z.lt_trichotomy j j') as [Hlt'|[->|Hlt']].
    + destruct (Hno' j ltac:(lia)) as [_ Hd]. by rewrite Ej in Hd.
    + by rewrite <- Ej', Ej.
    + destruct (Hno j' ltac:(lia)) as [_ Hd]. by rewrite Ej', Hx1 in Hd.
Qed.

Lemma row_of_fits dwo_id : 0 <= row_of ix dwo_id <= nunits.
Proof.
  unfold row_of. destruct (filter _ (slots ix)) as [|x l] eqn:E; [lia|].
  assert (x ∈ filter (λ x : Z * Z, x.1 = dwo_id /\ x.2 <> 0) (slots ix)) as Hx by (rewrite E; apply elem_of_cons; by left).
  apply list_elem_of_filter in Hx as [_ Hx]. pose proof (ix_numbers _ _ Hix) as Hn. rewrite Forall_forall in Hn. by apply Hn.
Qed.

Lemma row_of_absent dwo_id : (forall i, 0 <= i < nslots -> (slot ix i).2 <> 0 -> (slot ix i).1 <> dwo_id) -> row_of ix dwo_id = 0.
Proof.
  intros Hno. unfold row_of. destruct (filter _ (slots ix)) as [|x l] eqn:E; [done|].
  assert (x ∈ filter (λ x : Z * Z, x.1 = dwo_id /\ x.2 <> 0) (slots ix)) as Hx by (rewrite E; apply elem_of_cons; by left).
  apply list_elem_of_filter in Hx as [[Hx1 Hx2] Hx]. apply list_elem_of_lookup in Hx as [n Hn]. pose proof (lookup_lt_Some _ _ _ Hn).
  destruct (ix_slots _ _ Hix) as [_ Hlen]. assert (Hnr: 0 <= Z.of_nat n < nslots) by lia.
  pose proof (slot_lookup _ Hnr) as Hs. rewrite Nat2Z.id, Hn in Hs. simplify_eq. by destruct (Hno _ Hnr Hx2).
Qed.

Lemma LookupCUv2_holds dwo_id : LookupCUv2 dwo_id index_reader = Ok (row_of ix dwo_id).
Proof.
  destruct (ix_slots _ _ Hix) as [Hk Hlen]. destruct (ix_free _ _ Hix) as (f & Hf & Hfree).
  set (g i := ((slot ix i).2 =? 0) || ((slot ix i).1 =? dwo_id)).
  assert (Hends: forall i, 0 <= i < nslots ->
    (p ← probe_at index_reader i; index ← index_at index_reader i; Ok ((index =? 0) || (p =? dwo_id))) = Ok (g i)).
  { intros i Hi. by rewrite probe_at_holds, index_at_holds. }
  destruct (probe_first k Hk dwo_id g f Hf) as (j & Hj & Hno & Hgj); [unfold g; by rewrite Hfree|].
  assert (Hfuel: nslots <= Z.of_nat (probe_fuel index_reader)).
  { unfold probe_fuel. cbn [cu_index_ index_reader default from_option id]. destruct index_parts as (_ & _ & _ & _ & _ & _ & ->).
    pose proof (nslots_bounds k Hk). destruct index_sizes as (? & ? & _). unfold size_start, offset_start. nia. }
  unfold LookupCUv2. change (nslots_ index_reader) with nslots. rewrite (probe_spec k Hk dwo_id _ g Hends j (probe_fuel index_reader) ltac:(lia) Hno Hgj).
  cbn [mbind outcome_bind]. pose proof (slot_at_range k Hk dwo_id j) as Hrange. rewrite index_at_holds by done. f_equal.
  unfold g in Hgj. destruct (Z.eq_dec (slot ix (slot_at nslots dwo_id j)).2 0) as [E0|Hne].
  - rewrite E0. symmetry. apply row_of_absent. intros i Hi Hne <-. destruct (ix_found _ _ Hix i Hi Hne) as (j' & Hj' & Ej' & Hno').
    destruct (Z.lt_trichotomy j j') as [Hlt|[->|Hlt]].
    + by destruct (Hno' j ltac:(lia)) as [Hd _].
    + by rewrite Ej' in E0.
    + specialize (Hno j' ltac:(lia)). unfold g in Hno. by rewrite Ej', Z.eqb_refl, orb_true_r in Hno.
  - rewrite (proj2 (Z.eqb_neq _ _) Hne) in Hgj. apply Z.eqb_eq in Hgj. rewrite <- Hgj at 2. symmetry. by apply row_of_slot.
Qed.

(** ** The row *)

(** The cells of the tables. *)
Lemma cells_lookup i row c (x : Z * Z) :
  rows ix !! i = Some row -> row !! c = Some x -> concat (rows ix) !! (i * length (columns ix) + c)%nat = Some x.
Proof. intros Hi Hc. apply (concat_at _ _ _ _ row); [|done|done]. eapply Forall_impl; [exact (ix_rows _ _ Hix)|]. by intros ? [? _]. Qed.

Section row.
Context (i : nat) (row : list (Z * Z)) (Hrow : rows ix !! i = Some row).

Lemma row_ok : length row = length (columns ix) /\ Forall (λ x, fits 32 x.1 /\ fits 32 x.2) row.
Proof. exact (Forall_lookup_1 _ _ _ _ (ix_rows _ _ Hix) Hrow). Qed.

Lemma column_read c section_id : columns ix !! c = Some section_id -> ReadFourBytes r index (offset_start + Z.of_nat c * 4) = Ok section_id.
Proof.
  intros Hc. destruct index_parts as (_ & _ & _ & H & _). apply (read_at 4 r index _ _ c _ ltac:(lia) H Hc).
  exact (Forall_lookup_1 _ _ _ _ (ix_columns _ _ Hix) Hc).
Qed.

Lemma cell_read c x : row !! c = Some x ->
  ReadFourBytes r index (offset_start + (Z.of_nat i + 1) * ncolumns * 4 + Z.of_nat c * 4) = Ok x.1 /\ ReadFourBytes r index (size_start + Z.of_nat i * ncolumns * 4 + Z.of_nat c * 4) = Ok x.2.
Proof.
  intros Hc. destruct index_parts as (_ & _ & _ & _ & H1 & H2 & _). pose proof (cells_lookup _ _ _ _ Hrow Hc) as Hx.
  destruct row_ok as [_ Hf]. pose proof (Forall_lookup_1 _ _ _ _ Hf Hc) as [Hx1 Hx2]. split.
  - replace (offset_start + _ + _) with (offset_start + ncolumns * 4 + Z.of_nat (i * length (columns ix) + c) * 4) by lia.
    apply (read_at 4 r index _ _ _ _ ltac:(lia) H1); [by rewrite list_lookup_fmap, Hx|done].
  - replace (size_start + _ + _) with (size_start + Z.of_nat (i * length (columns ix) + c) * 4) by lia.
    apply (read_at 4 r index _ _ _ _ ltac:(lia) H2); [by rewrite list_lookup_fmap, Hx|done].
Qed.

Lemma columns_loop_holds n : forall c sections, (n + c = length (columns ix))%nat ->
  columns_loop n index_reader index offset_start (offset_start + (Z.of_nat i + 1) * ncolumns * 4) (size_start + Z.of_nat i * ncolumns * 4) (Z.of_nat c) sections
  = row_sections elf (drop c (zip (columns ix) row)) sections.
Proof.
  destruct row_ok as [Hl _]. induction n as [|n IH]; intros c sections Hn.
  - rewrite drop_ge by (rewrite length_zip_with; lia). done.
  - destruct (lookup_lt_is_Some_2 (columns ix) c ltac:(lia)) as [section_id Hid]. destruct (lookup_lt_is_Some_2 row c ltac:(lia)) as [[offset size] Hx].
    assert (zip (columns ix) row !! c = Some (section_id, (offset, size))) as Hz by (apply lookup_zip_with_Some; eauto).
    rewrite (drop_S _ _ _ Hz). cbn [columns_loop row_sections byte_reader_ index_reader]. rewrite (column_read c section_id Hid).
    destruct (cell_read c _ Hx) as [-> ->]. cbn [mbind outcome_bind fst snd].
    replace (Z.of_nat c + 1) with (Z.of_nat (S c)) by lia. unfold section_of, contribution, insert_section, advance.
    cbn [abbrev_data_ info_data_ str_offsets_data_ index_reader].
    destruct (section_id =? DW_SECT_ABBREV); [|destruct (section_id =? DW_SECT_INFO); [|destruct (section_id =? DW_SECT_STR_OFFSETS)]];
      cbn [mbind outcome_bind]; rewrite ?Z.add_0_l; try (apply IH; lia); destruct (_ <=? _); cbn [mbind outcome_bind default from_option id]; try done; apply IH; lia.
Qed.
End row.
End index.


Definition demo_index : CuIndex := mkCuIndex [DW_SECT_INFO; DW_SECT_ABBREV; 2; DW_SECT_STR_OFFSETS]
  [[(4, 3); (0, 2); (9, 9); (1, 1)]; [(0, 4); (2, 1); (9, 9); (0, 1)]] [(0, 0); (9, 2); (5, 1); (0, 0)].

Definition demo_elf : ElfReader := mkElfReader false true
  (λ name, if str_eqb name (lit ".debug_cu_index") then Some (index_bytes ENDIANNESS_BIG demo_index)
           else if str_eqb name (lit ".debug_info.dwo") then Some [1; 2; 3; 4; 5; 6; 7]
           else if str_eqb name (lit ".debug_abbrev.dwo") then Some [11; 12; 13]
           else if str_eqb name (lit ".debug_str_offsets.dwo") then Some [21; 22]
           else if str_eqb name (lit ".debug_str.dwo") then Some [0; 31] else None)
  (λ _, None) (λ _, None).

Lemma demo_index_ok : index_ok 2 demo_index.
Proof.
  split.
  - split; [lia|reflexivity].
  - unfold fits; repeat first [apply Forall_cons_2|apply Forall_nil_2|split]; cbn; lia.
  - by exists 0.
  - intros i Hi Hne. assert (i = 1 \/ i = 2) as [-> | ->].
    { destruct (Z.eq_dec i 0) as [->|]; [by destruct Hne|]. destruct (Z.eq_dec i 3) as [->|]; [by destruct Hne|]. change (2 ^ 2) with 4 in Hi. lia. }
    + exists 0. split; [lia|]. split; [reflexivity|]. intros j'. lia.
    + exists 1. split; [lia|]. split; [reflexivity|]. intros j' Hj'. assert (j' = 0) as -> by lia. vm_compute. split; discriminate.
  - split; [done|]. split; [done|]. reflexivity.
  - unfold fits; repeat first [apply Forall_cons_2|apply Forall_nil_2|split]; cbn; lia.
  - unfold fits; repeat first [apply Forall_cons_2|apply Forall_nil_2|split]; unfold DW_SECT_INFO, DW_SECT_ABBREV, DW_SECT_STR_OFFSETS; cbn; lia.
Qed.


(** A path of five characters, as a.out: when there is no .dwp file next to it, the suffix that
    [rfind] does not find is taken to be at its end, and [replace] throws. *)
Lemma five_characters `{Files} {D : Type} `{Dwarf2Handler D} `{ReaderStore D} u (d : D) :
  stat (lit "a.out.dwp") = false -> ProcessSplitDwarf (lit "a.out") SplitState_new u d = Undefined.
Proof. intros Hs. unfold ProcessSplitDwarf, look_for_dwp. cbn [have_checked_for_dwp_ SplitState_new]. change (lit "a.out" ++ lit ".dwp") with (lit "a.out.dwp"). by rewrite Hs. Qed.
