(* ===== verification/UnitTree.v ===== *)
(** What a compilation unit says: its DIEs in the encoding of the DWARF standard, and that
    [CompilationUnit] reports exactly them. *)
From Stdlib Require Import Ascii.
From stdpp Require Import list.
From S2P Require Import Prelude CStr StrMap Memory ByteReader CallFrameInfo LineInfo LineProgram DwarfEnums DieHandler CompilationUnit.

(** ** Values *)

(** The value of an attribute in a form: a number of the form's size, an unsigned LEB128
    number, and so on; a string of the string section and of its index, and an address of
    the address section; and a form that gives another one. *)
Inductive Field :=
| NumberField (form n : Z)
| UlebField (form n : Z)
| SdataField (n : Z)
| FlagPresentField
| BlockField (form : Z) (data : list Z)
| StringField (str : cstring)
| StrpField (offset : Z) (str : cstring)
| StrIndexField (index offset : Z) (str : cstring)
| AddrIndexField (index n : Z)
| IndirectField (f : Field).

Fixpoint field_form (f : Field) : Z :=
  match f with
  | NumberField form _ | UlebField form _ | BlockField form _ => form
  | SdataField _ => DW_FORM_sdata
  | FlagPresentField => DW_FORM_flag_present
  | StringField _ => DW_FORM_string
  | StrpField _ _ => DW_FORM_strp
  | StrIndexField _ _ _ => DW_FORM_GNU_str_index
  | AddrIndexField _ _ => DW_FORM_GNU_addr_index
  | IndirectField _ => DW_FORM_indirect
  end.

(** The form that is reported. *)
Fixpoint reported_form (f : Field) : Z := match f with IndirectField f => reported_form f | _ => field_form f end.

Fixpoint field_depth (f : Field) : nat := match f with IndirectField f => S (field_depth f) | _ => O end.

Section layout.
Context (r : ByteReader) (u : CompilationUnit).

(** The size of the numbers of a form, and what they mean. *)
Definition number_size (form : Z) : option Z :=
  if one_of form [DW_FORM_data1; DW_FORM_flag; DW_FORM_ref1] then Some 1
  else if one_of form [DW_FORM_data2; DW_FORM_ref2] then Some 2
  else if one_of form [DW_FORM_data4; DW_FORM_ref4] then Some 4
  else if one_of form [DW_FORM_data8; DW_FORM_ref8; DW_FORM_ref_sig8] then Some 8
  else if form =? DW_FORM_addr then Some (address_size_ r)
  else if form =? DW_FORM_sec_offset then Some (offset_size_ r)
  else if form =? DW_FORM_ref_addr then Some (if unit_version (header_ u) =? 2 then address_size_ r else offset_size_ r)
  else None.

Definition number_value (form n : Z) : AttrValue :=
  if one_of form [DW_FORM_ref1; DW_FORM_ref2; DW_FORM_ref4; DW_FORM_ref8; DW_FORM_ref_udata]
  then AttrReference (u64 (n + offset_from_section_start_ u))
  else if form =? DW_FORM_ref_addr then AttrReference n
  else if form =? DW_FORM_ref_sig8 then AttrSignature n
  else AttrUnsigned n.

Fixpoint field_value (f : Field) : AttrValue :=
  match f with
  | NumberField form n | UlebField form n => number_value form n
  | SdataField n => AttrSigned n
  | FlagPresentField => AttrUnsigned 1
  | BlockField _ data => AttrBuffer data
  | StringField str | StrpField _ str | StrIndexField _ _ str => AttrString str
  | AddrIndexField _ n => AttrUnsigned n
  | IndirectField f => field_value f
  end.

(** The size of a block's length, none for a LEB128 number. *)
Definition block_size (form : Z) : option nat :=
  if form =? DW_FORM_block1 then Some 1%nat else if form =? DW_FORM_block2 then Some 2%nat
  else if form =? DW_FORM_block4 then Some 4%nat else None.

Fixpoint field_bytes (f : Field) : list Z :=
  match f with
  | NumberField form n => bytes_of (endian_ r) (Z.to_nat (default 0 (number_size form))) n
  | UlebField _ n => uleb128 n
  | SdataField n => sleb128 n
  | FlagPresentField => []
  | BlockField form data =>
      match block_size form with
      | Some k => bytes_of (endian_ r) k (Z.of_nat (length data))
      | None => uleb128 (Z.of_nat (length data))
      end ++ data
  | StringField str => string_bytes str
  | StrpField offset _ => bytes_of (endian_ r) (Z.to_nat (offset_size_ r)) offset
  | StrIndexField index _ _ | AddrIndexField index _ => uleb128 index
  | IndirectField f => uleb128 (field_form f) ++ field_bytes f
  end.

Definition no_null (str : cstring) : Prop := Forall (λ c, code c <> 0) str.

(** The values fit their forms; the other sections hold what the values refer to. *)
Fixpoint field_ok (f : Field) : Prop :=
  match f with
  | NumberField form n => exists k, number_size form = Some k /\ fits (8 * k) n
  | UlebField form n => one_of form [DW_FORM_udata; DW_FORM_ref_udata] = true /\ fits 64 n
  | SdataField n => - 2 ^ 63 <= n < 2 ^ 63 /\ sleb128_overflows n = false
  | FlagPresentField => True
  | BlockField form data =>
      one_of form [DW_FORM_block1; DW_FORM_block2; DW_FORM_block4; DW_FORM_block; DW_FORM_exprloc] = true /\
      fits (match block_size form with Some k => 8 * Z.of_nat k | None => 64 end) (Z.of_nat (length data))
  | StringField str => no_null str
  | StrpField offset str =>
      no_null str /\ fits (8 * offset_size_ r) offset /\ exists strings, string_buffer_ u = Some strings /\ holds strings offset (string_bytes str)
  | StrIndexField index offset str =>
      no_null str /\ fits 64 index /\ fits 64 (index * offset_size_ r) /\ fits (8 * offset_size_ r) offset /\
      (exists strings, string_buffer_ u = Some strings /\ holds strings offset (string_bytes str)) /\
      exists offsets, str_offsets_buffer_ u = Some offsets /\
        holds offsets (index * offset_size_ r) (bytes_of (endian_ r) (Z.to_nat (offset_size_ r)) offset)
  | AddrIndexField index n =>
      fits 64 index /\ fits 64 (index * address_size_ r) /\ fits (8 * address_size_ r) n /\
      exists addresses, addr_buffer_ u = Some addresses /\
        holds addresses (addr_base_ u + index * address_size_ r) (bytes_of (endian_ r) (Z.to_nat (address_size_ r)) n)
  | IndirectField f => field_ok f
  end.

(** ** Trees *)

(** A DIE: the number of its abbreviation, the abbreviation, the values and the children. *)
Inductive UnitDie := mkUnitDie (number : Z) (abbrev : Abbrev) (fields : list Field) (children : list UnitDie).

Definition fields_bytes (fields : list Field) : list Z := concat (field_bytes <$> fields).

Fixpoint die_bytes (die : UnitDie) : list Z :=
  let '(mkUnitDie number abbrev fields children) := die in
  uleb128 number ++ fields_bytes fields ++ (if has_children abbrev then concat (die_bytes <$> children) ++ [0] else []).

Definition dies_bytes (dies : list UnitDie) : list Z := concat (die_bytes <$> dies).

(** The attributes that a DIE has. *)
Definition die_attributes (abbrev : Abbrev) (fields : list Field) : list Attribute :=
  zip_with (λ '(attr, _) f, (attr, reported_form f, field_value f)) (abbrev_attributes abbrev) fields.

(** The tree when it starts at a position of the unit. *)
Fixpoint die_at (p : Z) (die : UnitDie) : DIE :=
  let '(mkUnitDie number abbrev fields children) := die in
  mkDIE (p + offset_from_section_start_ u) (abbrev_tag abbrev) (die_attributes abbrev fields)
    ((fix dies_at (p : Z) (dies : list UnitDie) : list DIE :=
        match dies with
        | [] => []
        | die :: dies => die_at p die :: dies_at (p + Z.of_nat (length (die_bytes die))) dies
        end) (p + Z.of_nat (length (uleb128 number)) + Z.of_nat (length (fields_bytes fields))) children).

Fixpoint dies_at (p : Z) (dies : list UnitDie) : list DIE :=
  match dies with
  | [] => []
  | die :: dies => die_at p die :: dies_at (p + Z.of_nat (length (die_bytes die))) dies
  end.

(** How many abbreviation numbers a tree is read with, those that end children included. *)
Fixpoint die_entries (die : UnitDie) : nat :=
  let '(mkUnitDie _ abbrev _ children) := die in
  S (if has_children abbrev then S (sum_list_with die_entries children) else 0).

(** An attribute that says nothing about another file. *)
Definition plain_attribute (attr : Z) : Prop :=
  one_of attr [DW_AT_GNU_dwo_id; DW_AT_GNU_addr_base; DW_AT_GNU_ranges_base; DW_AT_GNU_dwo_name] = false.

Definition field_of (a : Z * Z) (f : Field) : Prop := plain_attribute a.1 /\ a.2 = field_form f /\ field_ok f.

Inductive unit_die_ok (abbrevs : list Abbrev) : UnitDie -> Prop :=
| unit_die_ok_intro number abbrev fields children :
    fits 64 number -> number <> 0 -> abbrevs !! Z.to_nat number = Some abbrev ->
    Forall2 field_of (abbrev_attributes abbrev) fields ->
    (has_children abbrev = false -> children = []) ->
    Forall (unit_die_ok abbrevs) children ->
    unit_die_ok abbrevs (mkUnitDie number abbrev fields children).

Lemma UnitDie_induction (P : UnitDie -> Prop) :
  (forall number abbrev fields children, Forall P children -> P (mkUnitDie number abbrev fields children)) -> forall die, P die.
Proof.
  intros Hstep. fix IH 1. intros [number abbrev fields children]. apply Hstep. induction children; constructor; [apply IH|assumption].
Qed.

Lemma die_at_eq p number abbrev fields children :
  die_at p (mkUnitDie number abbrev fields children) =
  mkDIE (p + offset_from_section_start_ u) (abbrev_tag abbrev) (die_attributes abbrev fields)
    (dies_at (p + Z.of_nat (length (uleb128 number)) + Z.of_nat (length (fields_bytes fields))) children).
Proof. reflexivity. Qed.
End layout.

(** ** Reading a value *)

Section reading.
Context {D : Type} `{Dwarf2Handler D} `{ReaderStore D}.
Context (r : ByteReader) (u : CompilationUnit).
Context (Haddress : address_size_ r = 4 \/ address_size_ r = 8) (Hoffset : offset_size_ r = 4 \/ offset_size_ r = 8).
Context (Hversion : 2 <= unit_version (header_ u)) (Hsplit : is_split_dwarf_ u = false).
Implicit Types (d : D) (p : Z).

(** What the handler must keep while the unit is read: a property of its state by which the
    reader it shares is the unit's, and that every event but the end of one DIE keeps. *)
Record keeps_reader (root : Z) (keeps : D -> Prop) : Prop := {
  kr_reader : forall d, keeps d -> reader_of d = r;
  kr_start : forall offset tag d b d', keeps d -> StartDIE offset tag d = Ok (b, d') -> keeps d';
  kr_attribute : forall offset attr form value d d', keeps d -> OnAttribute offset attr form value d = Ok d' -> keeps d';
  kr_end : forall offset d d', keeps d -> offset <> root -> EndDIE offset d = Ok d' -> keeps d'
}.

Context (root : Z) (keeps : D -> Prop) (Hkeeps : keeps_reader root keeps).

Lemma number_size_cases form k :
  number_size r u form = Some k -> k ∈ [1; 2; 4; 8].
Proof.
  clear Hversion Hsplit Hkeeps. unfold number_size. intros E. repeat case_match; simplify_eq; set_unfold; try lia; destruct Haddress, Hoffset; lia.
Qed.

Lemma moved p bs k : holds (buffer_ u) p bs -> bs <> [] -> k = Z.of_nat (length bs) -> move (buffer_ u) (Some p) k = Ok (Some (p + k)).
Proof.
  intros Hb Hne ->. unfold move, advance. cbn. rewrite (proj2 (Z.leb_le _ _)); [done|]. by apply holds_within.
Qed.

(** A number of a size is read. *)
Lemma number_read section p k n :
  k ∈ [1; 2; 4; 8] -> fits (8 * k) n -> holds section p (bytes_of (endian_ r) (Z.to_nat k) n) ->
  read_number r section p (Z.to_nat k) = Ok n.
Proof.
  intros Hk Hn Hb. assert (0 < k) by (set_unfold; lia). rewrite (read_number_bytes r section p (Z.to_nat k) n) by (done || lia).
  by rewrite wrap_small by (by rewrite Z2Nat.id by lia).
Qed.

Lemma sized_read section p k n :
  k = 4 \/ k = 8 -> fits (8 * k) n -> holds section p (bytes_of (endian_ r) (Z.to_nat k) n) -> sized_reader k r section p = Ok n.
Proof. intros Hk Hn Hb. by rewrite (sized_reader_bytes r section p k n Hk Hb), wrap_small. Qed.

Lemma one_of_true form forms : one_of form forms = true -> form ∈ forms.
Proof. unfold one_of. rewrite existsb_exists. intros (x & Hx & ->%Z.eqb_eq). by apply list_elem_of_In. Qed.

Ltac forms := unfold DW_FORM_addr, DW_FORM_block2, DW_FORM_block4, DW_FORM_data2, DW_FORM_data4, DW_FORM_data8, DW_FORM_string, DW_FORM_block,
  DW_FORM_block1, DW_FORM_data1, DW_FORM_flag, DW_FORM_sdata, DW_FORM_strp, DW_FORM_udata, DW_FORM_ref_addr, DW_FORM_ref1, DW_FORM_ref2,
  DW_FORM_ref4, DW_FORM_ref8, DW_FORM_ref_udata, DW_FORM_indirect, DW_FORM_sec_offset, DW_FORM_exprloc, DW_FORM_flag_present, DW_FORM_ref_sig8,
  DW_FORM_GNU_addr_index, DW_FORM_GNU_str_index in *.

(** The forms of numbers. *)
Definition number_forms : list Z :=
  [DW_FORM_data1; DW_FORM_flag; DW_FORM_ref1; DW_FORM_data2; DW_FORM_ref2; DW_FORM_data4; DW_FORM_ref4; DW_FORM_data8; DW_FORM_ref8;
   DW_FORM_ref_sig8; DW_FORM_addr; DW_FORM_sec_offset; DW_FORM_ref_addr].

Lemma number_form form k : number_size r u form = Some k -> form ∈ number_forms.
Proof.
  unfold number_size, number_forms. intros E. repeat case_match; simplify_eq;
    repeat match goal with H : one_of _ _ = true |- _ => apply one_of_true in H | H : (_ =? _) = true |- _ => apply Z.eqb_eq in H end; set_solver.
Qed.

Ltac reduce_forms := forms; unfold one_of; cbn [existsb Z.eqb Pos.eqb orb].
Ltac reduce_forms_in E := forms; unfold one_of in E; cbn [existsb Z.eqb Pos.eqb orb] in E.

Definition direct (f : Field) : Prop := match f with IndirectField _ => False | _ => True end.

(** Each form of a list in turn. *)
Ltac each_form Hin := repeat (apply elem_of_cons in Hin as [->|Hin]); [..|by apply not_elem_of_nil in Hin].

Ltac each_number Hok :=
  let k := fresh "k" in let E := fresh "E" in let Hf := fresh "Hf" in let Hin := fresh "Hin" in
  destruct Hok as (k & E & Hf); pose proof (number_form _ _ E) as Hin; unfold number_forms in Hin;
  repeat (apply elem_of_cons in Hin as [->|Hin]); [..|by apply not_elem_of_nil in Hin].

Ltac reduce_all := forms; unfold one_of in *; cbn [existsb Z.eqb Pos.eqb orb] in *.

Lemma bytes_nonempty e k n : (0 < k)%nat -> bytes_of e k n <> [].
Proof. intros Hk E. apply (f_equal length) in E. rewrite length_bytes_of in E. cbn in E. lia. Qed.

Lemma nonempty_length (bs : list Z) n : length bs = n -> (0 < n)%nat -> bs <> [].
Proof. intros <- Hn ->. cbn in Hn. lia. Qed.

Lemma skip_direct_field f p :
  direct f -> field_ok r u f -> holds (buffer_ u) p (field_bytes r u f) ->
  skip_direct u r (Some p) (field_form f) = Ok (Some (p + Z.of_nat (length (field_bytes r u f)))).
Proof.
  intros Hd Hok Hb. destruct f as [form n|form n|n| |form data|str|offset str|index offset str|index n|f]; cbn [field_form field_bytes field_ok direct] in *.
  - assert (Hne: bytes_of (endian_ r) (Z.to_nat (default 0 (number_size r u form))) n <> []).
    { destruct Hok as (k & E & _). pose proof (number_size_cases _ _ E) as Hk. rewrite E. cbn.
      eapply nonempty_length; [apply length_bytes_of|]. set_unfold; lia. }
    assert (Hm: forall k, number_size r u form = Some k -> move (buffer_ u) (Some p) k =
      Ok (Some (p + Z.of_nat (length (bytes_of (endian_ r) (Z.to_nat (default 0 (number_size r u form))) n))))).
    { intros k E. pose proof (number_size_cases _ _ E) as Hk. rewrite (moved p _ k Hb Hne) by (rewrite length_bytes_of, E; cbn; set_unfold; lia).
      rewrite length_bytes_of, E. cbn. rewrite Z2Nat.id by (set_unfold; lia). done. }
    each_number Hok; unfold skip_direct; reduce_forms; try (by apply Hm).
    pose proof (Hm _ E) as Hm'. unfold number_size in E. reduce_forms_in E. rewrite (proj2 (Z.ltb_ge _ _) Hversion).
    destruct (unit_version (header_ u) =? 2); injection E as <-; exact Hm'.
  - destruct Hok as [Hform Hn]. pose proof (uleb128_read _ _ n Hn Hb) as Hread. apply one_of_true in Hform.
    each_form Hform; unfold skip_direct; reduce_forms;
      cbn [non_null mbind outcome_bind]; by rewrite Hread.
  - destruct Hok as [Hn Ho]. unfold skip_direct; reduce_forms. cbn [non_null mbind outcome_bind]. rewrite (sleb128_read _ _ n Hn Hb), Ho. done.
  - unfold skip_direct; reduce_forms. cbn. by rewrite Z.add_0_r.
  - destruct Hok as [Hform Hlen]. apply one_of_true in Hform. pose proof Hb as Hall. apply holds_app in Hb as [Hb1 Hb2].
    assert (Hmove: forall k n, n = Z.of_nat (length k) -> k <> [] -> holds (buffer_ u) p (k ++ data) ->
      move (buffer_ u) (Some p) (n + Z.of_nat (length data)) = Ok (Some (p + Z.of_nat (length (k ++ data))))).
    { intros k n -> Hk Hb. rewrite (moved p _ (Z.of_nat (length k) + Z.of_nat (length data)) Hb); rewrite ?length_app; [do 2 f_equal; lia|by destruct k|lia]. }
    each_form Hform; unfold skip_direct, block_size in *; reduce_all;
      cbn [non_null mbind outcome_bind]; unfold ReadOneByte, ReadTwoBytes, ReadFourBytes.
    + rewrite (number_read _ p 1 (Z.of_nat (length data))) by (done || set_solver). apply Hmove; [by rewrite length_bytes_of|apply bytes_nonempty; lia|done].
    + rewrite (number_read _ p 2 (Z.of_nat (length data))) by (done || set_solver). apply Hmove; [by rewrite length_bytes_of|apply bytes_nonempty; lia|done].
    + rewrite (number_read _ p 4 (Z.of_nat (length data))) by (done || set_solver). apply Hmove; [by rewrite length_bytes_of|apply bytes_nonempty; lia|done].
    + rewrite (uleb128_read _ p _ Hlen Hb1). cbn [mbind outcome_bind]. rewrite Z.add_comm. apply Hmove; [done|apply uleb128_nonempty|done].
    + rewrite (uleb128_read _ p _ Hlen Hb1). cbn [mbind outcome_bind]. rewrite Z.add_comm. apply Hmove; [done|apply uleb128_nonempty|done].
  - unfold skip_direct; reduce_forms. cbn [non_null mbind outcome_bind]. by rewrite (read_string_holds _ p str Hok Hb).
  - destruct Hok as (_ & Ho & _). unfold skip_direct; reduce_forms.
    rewrite (moved p _ (offset_size_ r) Hb); rewrite ?length_bytes_of; [by rewrite Z2Nat.id by lia|apply bytes_nonempty; lia|lia].
  - destruct Hok as (_ & Hi & _). unfold skip_direct; reduce_forms. cbn [non_null mbind outcome_bind]. by rewrite (uleb128_read _ p index Hi Hb).
  - destruct Hok as (Hi & _). unfold skip_direct; reduce_forms. cbn [non_null mbind outcome_bind]. by rewrite (uleb128_read _ p index Hi Hb).
  - done.
Qed.

(** The event of an attribute whose value ends at a position. *)
Definition told (offset attr form : Z) (value : AttrValue) (p : Z) d : outcome (option Z * CompilationUnit * D) :=
  d ← OnAttribute offset attr form value d; Ok (Some p, u, d).

Lemma unit_unsigned_plain offset attr form n d :
  plain_attribute attr -> unit_unsigned offset attr form n u d = d ← OnAttribute offset attr form (AttrUnsigned n) d; Ok (u, d).
Proof.
  unfold plain_attribute, one_of, unit_unsigned. cbn [existsb]. rewrite !orb_false_iff. intros (-> & -> & -> & _ & _).
  by rewrite Hsplit, andb_false_r.
Qed.

Lemma unit_string_plain offset attr form str d :
  plain_attribute attr -> unit_string offset attr form str u d = d ← OnAttribute offset attr form (AttrString str) d; Ok (u, d).
Proof. unfold plain_attribute, one_of, unit_string. cbn [existsb]. rewrite !orb_false_iff. intros (_ & _ & _ & E & _). cbv zeta. by rewrite E. Qed.

Lemma then_move_told offset attr form value p bs k d :
  holds (buffer_ u) p bs -> bs <> [] -> k = Z.of_nat (length bs) ->
  then_move (buffer_ u) p k (d ← OnAttribute offset attr form value d; Ok (u, d)) = told offset attr form value (p + k) d.
Proof.
  intros Hb Hne ->. unfold then_move, told. destruct (OnAttribute offset attr form value d) as [d'| |]; [|done|done]. cbn [mbind outcome_bind].
  unfold advance. by rewrite (proj2 (Z.leb_le _ _)) by (by apply holds_within).
Qed.

Lemma then_sized_told offset attr form value p bs (size : ByteReader -> Z) d :
  keeps d -> holds (buffer_ u) p bs -> bs <> [] -> size r = Z.of_nat (length bs) ->
  then_sized size (buffer_ u) p (d ← OnAttribute offset attr form value d; Ok (u, d)) = told offset attr form value (p + size r) d.
Proof.
  intros Hd Hb Hne Hs. unfold then_sized, told. destruct (OnAttribute offset attr form value d) as [d'| |] eqn:E; [|done|done]. cbn [mbind outcome_bind].
  rewrite (kr_reader _ _ Hkeeps d') by (by eapply kr_attribute). unfold advance. by rewrite (proj2 (Z.leb_le _ _)) by (rewrite Hs; by apply holds_within).
Qed.

Lemma then_at_told offset attr form value p d :
  then_at (Some p) (d ← OnAttribute offset attr form value d; Ok (u, d)) = told offset attr form value p d.
Proof. unfold then_at, told. by destruct (OnAttribute offset attr form value d). Qed.

Lemma read_block_holds p (data : list Z) :
  holds (buffer_ u) p data -> p + Z.of_nat (length data) <= Z.of_nat (length (buffer_ u)) ->
  read_block (buffer_ u) p (Z.of_nat (length data)) = Ok (data, Some (p + Z.of_nat (length data))).
Proof.
  intros [Hp Hb] Hin. unfold read_block, advance. rewrite (proj2 (Z.leb_le _ _) Hin). cbn [mbind outcome_bind]. by rewrite Nat2Z.id, Hb.
Qed.

(** A number is read, the event is told, and the pointer moves past the number. *)
Lemma number_told offset attr form value k n p (g : Z -> outcome (CompilationUnit * D)) d :
  k ∈ [1; 2; 4; 8] -> fits (8 * k) n -> holds (buffer_ u) p (bytes_of (endian_ r) (Z.to_nat k) n) ->
  g n = (d ← OnAttribute offset attr form value d; Ok (u, d)) ->
  read_number r (buffer_ u) p (Z.to_nat k) ≫= (λ n, then_move (buffer_ u) p k (g n)) = told offset attr form value (p + k) d.
Proof.
  intros Hk Hn Hb Hg. assert (0 < k) by (set_unfold; lia). rewrite (number_read _ p k n Hk Hn Hb). cbn [mbind outcome_bind]. rewrite Hg.
  apply (then_move_told _ _ _ _ _ _ _ _ Hb); [apply bytes_nonempty; lia|rewrite length_bytes_of; lia].
Qed.

Lemma sized_told offset attr form value (size : ByteReader -> Z) n p (g : Z -> outcome (CompilationUnit * D)) d :
  size r = 4 \/ size r = 8 -> keeps d -> fits (8 * size r) n -> holds (buffer_ u) p (bytes_of (endian_ r) (Z.to_nat (size r)) n) ->
  g n = (d ← OnAttribute offset attr form value d; Ok (u, d)) ->
  sized_reader (size r) r (buffer_ u) p ≫= (λ n, then_sized size (buffer_ u) p (g n)) = told offset attr form value (p + size r) d.
Proof.
  intros Hs Hd Hn Hb Hg. rewrite (sized_read _ p (size r) n Hs Hn Hb). cbn [mbind outcome_bind]. rewrite Hg.
  apply (then_sized_told _ _ _ _ _ _ size d Hd Hb); [apply bytes_nonempty; lia|rewrite length_bytes_of; lia].
Qed.

Lemma read_number_field form n p offset attr d :
  plain_attribute attr -> field_ok r u (NumberField form n) -> holds (buffer_ u) p (field_bytes r u (NumberField form n)) -> keeps d ->
  read_direct offset (Some p) attr form u d = told offset attr form (number_value u form n) (p + default 0 (number_size r u form)) d.
Proof.
  intros Ha Hok Hb Hd. cbn [field_bytes field_ok] in *. pose proof (kr_reader _ _ Hkeeps d Hd) as Er.
  pose proof (unit_unsigned_plain offset attr) as Hplain.
  each_number Hok; pose proof (number_size_cases _ _ E) as Hk; unfold read_direct, number_value; rewrite E in Hb |- *;
    cbn [default from_option id] in Hb |- *; unfold number_size in E; reduce_all; rewrite Er; cbn [non_null mbind outcome_bind].
  1-10: injection E as <-; (eapply number_told; [done|exact Hf|exact Hb|]); first [by apply Hplain|reflexivity].
  - injection E as <-. eapply (sized_told _ _ _ _ address_size_); [done..|by apply Hplain].
  - injection E as <-. eapply (sized_told _ _ _ _ offset_size_); [done..|by apply Hplain].
  - rewrite (proj2 (Z.ltb_ge _ _) Hversion). destruct (unit_version (header_ u) =? 2); injection E as <-.
    + by eapply (sized_told _ _ _ _ address_size_).
    + by eapply (sized_told _ _ _ _ offset_size_).
Qed.

Lemma read_block_field form data p offset attr d :
  field_ok r u (BlockField form data) -> holds (buffer_ u) p (field_bytes r u (BlockField form data)) -> keeps d ->
  read_direct offset (Some p) attr form u d =
  told offset attr form (AttrBuffer data) (p + Z.of_nat (length (field_bytes r u (BlockField form data)))) d.
Proof.
  intros Hok Hb Hd. cbn [field_bytes field_ok] in *. pose proof (kr_reader _ _ Hkeeps d Hd) as Er.
  destruct Hok as [Hform Hlen]. apply one_of_true in Hform. pose proof Hb as Hall. apply holds_app in Hb as [Hb1 Hb2].
  assert (Hblock: forall k n form, n = Z.of_nat (length k) -> k <> [] -> holds (buffer_ u) p (k ++ data) -> holds (buffer_ u) (p + Z.of_nat (length k)) data ->
    ('(data, next) ← read_block (buffer_ u) (p + n) (Z.of_nat (length data)); then_at next (report offset attr form (AttrBuffer data) u d)) =
    told offset attr form (AttrBuffer data) (p + Z.of_nat (length (k ++ data))) d).
  { intros k n form' -> Hk Hb Hb'. pose proof (holds_within _ _ _ Hb) as Hin. rewrite length_app in Hin.
    rewrite (read_block_holds _ data Hb') by (rewrite Nat2Z.inj_add in Hin; specialize (Hin ltac:(by destruct k)); lia).
    cbn [mbind outcome_bind]. unfold report. rewrite then_at_told. f_equal. rewrite length_app. lia. }
  each_form Hform; unfold read_direct, block_size in *; reduce_all;
    rewrite ?Er; cbn [non_null mbind outcome_bind]; unfold ReadOneByte, ReadTwoBytes, ReadFourBytes.
  - rewrite (number_read _ p 1 (Z.of_nat (length data))) by (done || set_solver). apply Hblock; [by rewrite length_bytes_of|apply bytes_nonempty; lia|done..].
  - rewrite (number_read _ p 2 (Z.of_nat (length data))) by (done || set_solver). apply Hblock; [by rewrite length_bytes_of|apply bytes_nonempty; lia|done..].
  - rewrite (number_read _ p 4 (Z.of_nat (length data))) by (done || set_solver). apply Hblock; [by rewrite length_bytes_of|apply bytes_nonempty; lia|done..].
  - rewrite (uleb128_read _ p _ Hlen Hb1). apply Hblock; [done|apply uleb128_nonempty|done..].
  - rewrite (uleb128_read _ p _ Hlen Hb1). apply Hblock; [done|apply uleb128_nonempty|done..].
Qed.

Lemma string_bytes_within section p str : holds section p (string_bytes str) -> p < Z.of_nat (length section).
Proof.
  intros Hb. pose proof (holds_within _ _ _ Hb (string_bytes_nonempty str)) as Hin. pose proof (string_bytes_nonempty str) as Hne.
  destruct (string_bytes str); [done|]. cbn [length] in Hin. lia.
Qed.

Lemma read_direct_field f p offset attr d :
  direct f -> plain_attribute attr -> field_ok r u f -> holds (buffer_ u) p (field_bytes r u f) -> keeps d ->
  read_direct offset (Some p) attr (field_form f) u d = told offset attr (field_form f) (field_value u f) (p + Z.of_nat (length (field_bytes r u f))) d.
Proof.
  intros Hdir Ha Hok Hb Hd. pose proof (kr_reader _ _ Hkeeps d Hd) as Er.
  destruct f as [form n|form n|n| |form data|str|o str|index o str|index n|f]; cbn [field_form field_value direct] in *.
  - rewrite (read_number_field form n) by done. f_equal. cbn [field_bytes field_ok] in *. destruct Hok as (k & E & _). rewrite E. cbn.
    rewrite length_bytes_of. pose proof (number_size_cases _ _ E). rewrite Z2Nat.id by (set_unfold; lia). done.
  - cbn [field_bytes field_ok] in *. destruct Hok as [Hform Hn]. apply one_of_true in Hform. pose proof (uleb128_read _ _ n Hn Hb) as Hread.
    each_form Hform; unfold read_direct, number_value; reduce_all;
      cbn [non_null mbind outcome_bind]; rewrite Hread; cbn [mbind outcome_bind].
    + by rewrite unit_unsigned_plain, then_at_told.
    + unfold unit_reference. by rewrite then_at_told.
  - cbn [field_bytes field_ok] in *. destruct Hok as [Hn Ho]. unfold read_direct; reduce_all. cbn [non_null mbind outcome_bind].
    rewrite (sleb128_read _ _ n Hn Hb), Ho. cbn [mbind outcome_bind]. unfold report. by rewrite then_at_told.
  - cbn [field_bytes length]. unfold read_direct; reduce_all. rewrite unit_unsigned_plain, then_at_told by done. by rewrite Z.add_0_r.
  - by apply read_block_field.
  - cbn [field_bytes field_ok] in *. unfold read_direct; reduce_all. cbn [non_null mbind outcome_bind].
    rewrite (read_string_holds _ p str Hok Hb). cbn [mbind outcome_bind]. by rewrite unit_string_plain, then_at_told.
  - cbn [field_bytes field_ok] in *. destruct Hok as (Hs & Ho & strings & Es & Hb').
    unfold read_direct; reduce_all. rewrite Er, Es. unfold ReadOffset. cbn [non_null mbind outcome_bind]. rewrite (sized_read _ p _ o Hoffset Ho Hb). cbn [mbind outcome_bind].
    rewrite (proj2 (Z.ltb_lt _ _)) by (by eapply string_bytes_within). rewrite (read_string_holds _ o str Hs Hb'). cbn [mbind outcome_bind].
    rewrite unit_string_plain by done. rewrite (then_sized_told _ _ _ _ p _ offset_size_ d Hd Hb); [|apply bytes_nonempty; lia|rewrite length_bytes_of; lia].
    by rewrite length_bytes_of, Z2Nat.id by lia.
  - cbn [field_bytes field_ok] in *. destruct Hok as (Hs & Hi & Him & Ho & (strings & Es & Hb') & offsets & Eo & Hb'').
    unfold read_direct; reduce_all. rewrite Er. cbn [non_null mbind outcome_bind]. rewrite (uleb128_read _ p index Hi Hb). cbn [mbind outcome_bind].
    rewrite Eo. cbn [non_null mbind outcome_bind]. unfold u64. rewrite wrap_small by done. unfold ReadOffset.
    rewrite (sized_read _ _ _ o Hoffset Ho Hb''). cbn [mbind outcome_bind]. rewrite Es. cbn [default from_option id].
    rewrite (proj2 (Z.leb_gt _ _)) by (by eapply string_bytes_within). rewrite (read_string_holds _ o str Hs Hb'). cbn [mbind outcome_bind].
    by rewrite unit_string_plain, then_at_told.
  - cbn [field_bytes field_ok] in *. destruct Hok as (Hi & Him & Hn & addresses & Ea & Hb').
    unfold read_direct; reduce_all. rewrite Er. cbn [non_null mbind outcome_bind]. rewrite (uleb128_read _ p index Hi Hb). cbn [mbind outcome_bind].
    rewrite Ea. cbn [non_null mbind outcome_bind]. unfold u64. rewrite wrap_small by done. unfold ReadAddress.
    rewrite (sized_read _ _ _ n Haddress Hn Hb'). cbn [mbind outcome_bind]. by rewrite unit_unsigned_plain, then_at_told.
  - done.
Qed.

(** *** Indirect forms *)

Definition value_forms : list Z :=
  number_forms ++ [DW_FORM_udata; DW_FORM_ref_udata; DW_FORM_block1; DW_FORM_block2; DW_FORM_block4; DW_FORM_block; DW_FORM_exprloc; DW_FORM_sdata;
                   DW_FORM_flag_present; DW_FORM_string; DW_FORM_strp; DW_FORM_GNU_str_index; DW_FORM_GNU_addr_index].

Lemma direct_form f : direct f -> field_ok r u f -> field_form f ∈ value_forms.
Proof.
  unfold value_forms. rewrite elem_of_app. destruct f; cbn [field_form field_ok direct]; intros Hd Hok; try done; try (right; set_solver).
  - left. destruct Hok as (k & E & _). by eapply number_form.
  - right. destruct Hok as [Hin%one_of_true _]. set_solver.
  - right. destruct Hok as [Hin%one_of_true _]. set_solver.
Qed.

Lemma direct_not_indirect f : direct f -> field_ok r u f -> (field_form f =? DW_FORM_indirect) = false.
Proof. intros Hd Hok. pose proof (direct_form f Hd Hok) as Hin. unfold value_forms, number_forms in Hin. cbn [app] in Hin. revert Hin. generalize (field_form f). intros form Hin. by each_form Hin. Qed.

Lemma form_fits f : field_ok r u f -> fits 32 (field_form f).
Proof.
  intros Hok. destruct f as [| | | | | | | | |g]; [..|done];
    (match type of Hok with field_ok _ _ ?f => pose proof (direct_form f I Hok) as Hin end; unfold value_forms, number_forms in Hin; cbn [app] in Hin; revert Hin;
     match goal with |- ?x ∈ _ -> _ => generalize x end; intros x Hin; by each_form Hin).
Qed.

Lemma direct_reported f : direct f -> reported_form f = field_form f.
Proof. by destruct f. Qed.

Lemma skip_field f : forall fuel p,
  field_ok r u f -> holds (buffer_ u) p (field_bytes r u f) -> (field_depth f <= fuel)%nat ->
  SkipAttribute fuel u r (Some p) (field_form f) = Ok (Some (p + Z.of_nat (length (field_bytes r u f)))).
Proof.
  assert (Hd: forall f fuel p, direct f -> field_ok r u f -> holds (buffer_ u) p (field_bytes r u f) ->
    SkipAttribute fuel u r (Some p) (field_form f) = Ok (Some (p + Z.of_nat (length (field_bytes r u f))))).
  { intros g fuel p Hdir Hok Hb. rewrite <- skip_direct_field by done. destruct fuel; cbn [SkipAttribute]; by rewrite direct_not_indirect. }
  induction f as [| | | | | | | | |f IH]; try (intros; by apply Hd). intros fuel p Hok Hb Hf. cbn [field_depth field_ok field_bytes field_form] in *.
  destruct fuel as [|fuel]; [lia|]. cbn [SkipAttribute]. rewrite Z.eqb_refl. cbn [non_null mbind outcome_bind]. apply holds_app in Hb as [Hb1 Hb2].
  pose proof (form_fits f Hok) as Hff. rewrite (uleb128_read _ p (field_form f)) by (done || (unfold fits in *; lia)). cbn [mbind outcome_bind].
  unfold enum_of, u32. rewrite wrap_small by done. rewrite IH by (done || lia). rewrite length_app. do 2 f_equal. lia.
Qed.

Lemma read_field f : forall fuel p offset attr d,
  plain_attribute attr -> field_ok r u f -> holds (buffer_ u) p (field_bytes r u f) -> (field_depth f <= fuel)%nat -> keeps d ->
  ReadAttribute fuel offset (Some p) attr (field_form f) u d =
  told offset attr (reported_form f) (field_value u f) (p + Z.of_nat (length (field_bytes r u f))) d.
Proof.
  assert (Hd: forall f fuel p offset attr d, direct f -> plain_attribute attr -> field_ok r u f -> holds (buffer_ u) p (field_bytes r u f) -> keeps d ->
    ReadAttribute fuel offset (Some p) attr (field_form f) u d =
    told offset attr (reported_form f) (field_value u f) (p + Z.of_nat (length (field_bytes r u f))) d).
  { intros g fuel p offset attr d Hdir Ha Hok Hb Hd. rewrite direct_reported, <- read_direct_field by done.
    destruct fuel; cbn [ReadAttribute]; by rewrite direct_not_indirect. }
  induction f as [| | | | | | | | |f IH]; try (intros; by apply Hd). intros fuel p offset attr d Ha Hok Hb Hf Hk. cbn [field_depth field_ok field_bytes field_form] in *.
  destruct fuel as [|fuel]; [lia|]. cbn [ReadAttribute]. rewrite Z.eqb_refl. cbn [non_null mbind outcome_bind]. apply holds_app in Hb as [Hb1 Hb2].
  pose proof (form_fits f Hok) as Hff. rewrite (uleb128_read _ p (field_form f)) by (done || (unfold fits in *; lia)). cbn [mbind outcome_bind].
  unfold enum_of, u32. rewrite wrap_small by done. rewrite IH by (done || lia). cbn [reported_form field_value]. rewrite length_app. f_equal. lia.
Qed.

(** *** The values of a DIE *)

Lemma field_depth_length f : (field_depth f <= length (field_bytes r u f))%nat.
Proof.
  induction f; cbn [field_depth field_bytes]; try lia. rewrite length_app. pose proof (uleb128_nonempty (field_form f)). destruct (uleb128 (field_form f)); [done|].
  cbn [length]. lia.
Qed.

Lemma deep_enough f p : holds (buffer_ u) p (field_bytes r u f) -> (field_depth f <= length (buffer_ u))%nat.
Proof. intros Hb. apply holds_length in Hb. pose proof (field_depth_length f). lia. Qed.

Lemma skip_fields attributes fields : Forall2 (field_of r u) attributes fields -> forall p,
  holds (buffer_ u) p (fields_bytes r u fields) ->
  SkipDIE (length (buffer_ u)) u r (Some p) attributes = Ok (Some (p + Z.of_nat (length (fields_bytes r u fields)))).
Proof.
  induction 1 as [|[attr form] f attributes fields (Ha & Hform & Hok) Hall IH]; intros p Hb; [cbn; by rewrite Z.add_0_r|].
  cbn [snd] in Hform. subst form. unfold fields_bytes in *. rewrite fmap_cons in *. cbn [concat SkipDIE] in *. apply holds_app in Hb as [Hb1 Hb2].
  rewrite (skip_field f _ p Hok Hb1) by (by eapply deep_enough). cbn [mbind outcome_bind]. rewrite (IH _ Hb2), length_app. do 2 f_equal. lia.
Qed.

Lemma read_fields attributes fields : Forall2 (field_of r u) attributes fields -> forall p offset d,
  holds (buffer_ u) p (fields_bytes r u fields) -> keeps d ->
  read_die_attributes (length (buffer_ u)) offset (Some p) attributes u d =
  d ← report_attributes offset (zip_with (λ '(attr, _) f, (attr, reported_form f, field_value u f)) attributes fields) d;
  Ok (Some (p + Z.of_nat (length (fields_bytes r u fields))), u, d).
Proof.
  induction 1 as [|[attr form] f attributes fields (Ha & Hform & Hok) Hall IH]; intros p offset d Hb Hd; [cbn; by rewrite Z.add_0_r|].
  cbn [snd] in Hform. subst form. unfold fields_bytes in *. rewrite fmap_cons in *. cbn [concat read_die_attributes zip_with report_attributes] in *.
  apply holds_app in Hb as [Hb1 Hb2]. rewrite (read_field f _ p offset attr d Ha Hok Hb1) by (done || by eapply deep_enough). unfold told.
  destruct (OnAttribute offset attr (reported_form f) (field_value u f) d) as [d'| |] eqn:E; [|done|done]. cbn [mbind outcome_bind].
  rewrite (IH _ offset d' Hb2) by (by eapply kr_attribute). rewrite length_app.
  destruct (report_attributes _ _ d') as [d''| |]; [|done|done]. cbn [mbind outcome_bind]. do 4 f_equal. lia.
Qed.

Lemma report_attributes_keeps offset attributes : forall d d', keeps d -> report_attributes offset attributes d = Ok d' -> keeps d'.
Proof.
  induction attributes as [|[[attr form] value] attributes IH]; intros d d' Hd; cbn [report_attributes]; [by intros [= <-]|].
  destruct (OnAttribute offset attr form value d) as [d1| |] eqn:E; [|done|done]. cbn [mbind outcome_bind]. apply IH. by eapply kr_attribute.
Qed.

(** Whether the handler wants them or not, the pointer moves past them. *)
Lemma die_fields number abbrev fields children p offset wanted d :
  unit_die_ok r u (default [] (abbrevs_ u)) (mkUnitDie number abbrev fields children) -> holds (buffer_ u) p (fields_bytes r u fields) -> keeps d ->
  (if (wanted : bool) then ProcessDIE (length (buffer_ u)) offset (Some p) abbrev u d
   else dieptr ← SkipDIE (length (buffer_ u)) u (reader_of d) (Some p) (abbrev_attributes abbrev); Ok (dieptr, u, d)) =
  d ← (if wanted then report_attributes offset (die_attributes u abbrev fields) d else Ok d);
  Ok (Some (p + Z.of_nat (length (fields_bytes r u fields))), u, d).
Proof.
  intros Hok Hb Hd. inversion Hok as [? ? ? ? _ _ _ Hf _ _]; subst. destruct wanted.
  - unfold ProcessDIE. rewrite (read_fields _ _ Hf p offset d Hb Hd). unfold die_attributes. destruct (report_attributes _ _ d); [|done|done].
    cbn [mbind outcome_bind]. by rewrite Hsplit, andb_false_r.
  - rewrite (kr_reader _ _ Hkeeps d Hd), (skip_fields _ _ Hf p Hb). done.
Qed.

(** *** The tree *)

Lemma report_die_keeps die : forall d d', keeps d -> root ∉ die_offsets die -> report_die die d = Ok d' -> keeps d'.
Proof.
  induction die as [offset tag attributes children IH] using DIE_induction. intros d d' Hd Hr. cbn [die_offsets] in Hr.
  apply not_elem_of_cons in Hr as [Hne Hr]. rewrite report_die_eq.
  destruct (StartDIE offset tag d) as [[wanted d1]| |] eqn:E1; [|done|done]. cbn [mbind outcome_bind].
  assert (Hd1: keeps d1) by (by eapply kr_start).
  destruct (if wanted then _ else _) as [d2| |] eqn:E2; [|done|done]. cbn [mbind outcome_bind].
  assert (Hd2: keeps d2) by (destruct wanted; [by eapply report_attributes_keeps|by injection E2 as <-]).
  destruct (report_dies children d2) as [d3| |] eqn:E3; [|done|done]. cbn [mbind outcome_bind]. intros E4.
  eapply (kr_end _ _ Hkeeps offset); [|done|exact E4]. clear E4 E2 E1. revert d2 d3 Hd2 E3.
  induction IH as [|die dies Hdie _ IHd]; intros d2 d3 Hd2; cbn [report_dies]; [by intros [= <-]|].
  cbn [mbind list_bind] in Hr. apply not_elem_of_app in Hr as [Hr1 Hr2].
  destruct (report_die die d2) as [d4| |] eqn:E; [|done|done]. cbn [mbind outcome_bind]. apply IHd; [done|]. by eapply Hdie.
Qed.

Context (abbrevs : list Abbrev) (Habbrevs : abbrevs_ u = Some abbrevs).
Context (Hfits : 0 <= offset_from_section_start_ u /\ offset_from_section_start_ u + Z.of_nat (length (buffer_ u)) < 2 ^ 64).
Context (unit_end : Z).

Definition die_size (die : UnitDie) : Z := Z.of_nat (length (die_bytes r u die)).

(** The entries of a DIE are read and its events reported. *)
Definition die_read (die : UnitDie) : Prop := forall p fuel stack d,
  unit_die_ok r u abbrevs die -> holds (buffer_ u) p (die_bytes r u die) -> p + die_size die <= unit_end ->
  (let '(mkDIE offset tag _ children) := die_at r u p die in
   (forall b d', StartDIE offset tag d = Ok (b, d') -> keeps d') /\ root ∉ (children ≫= die_offsets)) ->
  dies_loop (die_entries die + fuel) (Some p) unit_end stack u d =
  d ← report_die (die_at r u p die) d; dies_loop fuel (Some (p + die_size die)) unit_end stack u d.

Lemma dies_read dies : Forall die_read dies -> forall p fuel stack d,
  Forall (unit_die_ok r u abbrevs) dies -> holds (buffer_ u) p (dies_bytes r u dies) -> p + Z.of_nat (length (dies_bytes r u dies)) <= unit_end ->
  keeps d -> root ∉ (dies_at r u p dies ≫= die_offsets) ->
  dies_loop (sum_list_with die_entries dies + fuel) (Some p) unit_end stack u d =
  d ← report_dies (dies_at r u p dies) d; dies_loop fuel (Some (p + Z.of_nat (length (dies_bytes r u dies)))) unit_end stack u d.
Proof.
  induction 1 as [|die dies Hdie _ IH]; intros p fuel stack d Hok Hb Hend Hd Hr; [cbn; by rewrite Z.add_0_r|].
  inversion Hok as [|? ? Hok1 Hok2]; subst. unfold dies_bytes in *. rewrite fmap_cons in *. cbn [concat] in *. rewrite length_app in Hend |- *.
  apply holds_app in Hb as [Hb1 Hb2]. cbn [dies_at mbind list_bind sum_list_with report_dies] in *. apply not_elem_of_app in Hr as [Hr1 Hr2].
  rewrite <- Nat.add_assoc. rewrite (Hdie p _ stack d Hok1 Hb1); unfold die_size.
  - destruct (report_die (die_at r u p die) d) as [d1| |] eqn:E; [|done|done]. cbn [mbind outcome_bind].
    rewrite IH by (done || lia || by eapply report_die_keeps).
    destruct (report_dies _ d1); [|done|done]. cbn [mbind outcome_bind]. do 2 f_equal. lia.
  - lia.
  - destruct die as [number abbrev fields children]. rewrite die_at_eq in *. cbn [die_offsets] in Hr1. apply not_elem_of_cons in Hr1 as [_ Hr1].
    split; [|done]. intros b d' E. by eapply kr_start.
Qed.

Lemma all_read die : die_read die.
Proof.
  induction die as [number abbrev fields children IH] using UnitDie_induction. intros p fuel stack d Hok Hb Hend Hs.
  inversion Hok as [? ? ? ? Hn Hnz Hab Hf Hnone Hch]; subst. unfold die_size in *. cbn [die_bytes] in *. rewrite die_at_eq in *. destruct Hs as [Hs Hr].
  apply holds_app in Hb as [Hb1 Hb2]. apply holds_app in Hb2 as [Hb2 Hb3]. rewrite report_die_eq.
  pose proof (uleb128_nonempty number) as Hne. pose proof (holds_within _ _ _ Hb1 Hne) as Hin. assert (Hp: 0 <= p) by apply Hb1.
  assert (Hlen: (0 < length (uleb128 number))%nat) by (destruct (uleb128 number); [done|cbn; lia]).
  rewrite !length_app in Hend |- *. cbn [die_entries Nat.add dies_loop before_end]. rewrite (proj2 (Z.ltb_lt _ _)) by lia.
  cbn [non_null mbind outcome_bind]. rewrite (uleb128_read _ p number Hn Hb1). cbn [mbind outcome_bind].
  rewrite (proj2 (Z.eqb_neq _ _) Hnz), Habbrevs. cbn [non_null mbind outcome_bind]. rewrite Hab. cbn [non_null mbind outcome_bind].
  unfold u64. rewrite wrap_small by (unfold fits; lia). set (offset := p + offset_from_section_start_ u) in *.
  destruct (StartDIE offset (abbrev_tag abbrev) d) as [[wanted d1]| |] eqn:E1; [|done|done]. cbn [mbind outcome_bind].
  assert (Hd1: keeps d1) by (by eapply Hs).
  rewrite (die_fields number abbrev fields children _ offset wanted d1) by (done || by rewrite Habbrevs).
  destruct (if wanted then report_attributes _ _ d1 else Ok d1) as [d2| |] eqn:E2; [|done|done]. cbn [mbind outcome_bind].
  assert (Hd2: keeps d2) by (destruct wanted; [by eapply report_attributes_keeps|by injection E2 as <-]).
  destruct (has_children abbrev) eqn:Ec.
  - apply holds_app in Hb3 as [Hb3 Hb4]. rewrite length_app in Hend |- *. cbn [length] in Hend |- *.
    replace (S (sum_list_with die_entries children) + fuel)%nat with (sum_list_with die_entries children + S fuel)%nat by lia.
    rewrite (dies_read children IH) by (done || (unfold dies_bytes; lia)). unfold dies_bytes.
    destruct (report_dies _ d2) as [d3| |]; [|done|done]. cbn [mbind outcome_bind dies_loop before_end].
    rewrite (proj2 (Z.ltb_lt _ _)) by lia. cbn [non_null mbind outcome_bind].
    rewrite (uleb128_read _ _ 0) by done. cbn [mbind outcome_bind Z.eqb]. change (Z.of_nat (length (uleb128 0))) with 1.
    destruct (EndDIE offset d3) as [d4| |]; [|done|done]. cbn [mbind outcome_bind]. do 2 f_equal. lia.
  - rewrite (Hnone eq_refl). cbn [dies_at report_dies mbind outcome_bind length Nat.add].
    destruct (EndDIE offset d2) as [d3| |]; [|done|done]. cbn [mbind outcome_bind]. do 2 f_equal. lia.
Qed.
End reading.
