(* ===== verification/UnitRead.v ===== *)
(** The whole of a compilation unit in the encoding of the DWARF standard -- its
    abbreviations, its header, its tree of DIEs -- and that [Start] reports the tree. *)
From Stdlib Require Import Ascii.
From stdpp Require Import list.
From S2P Require Import Prelude CStr StrMap Memory ByteReader CallFrameInfo LineInfo LineProgram DwarfEnums DieHandler CompilationUnit UnitTree.

(** ** Offsets *)

Section offsets.
Context (r : ByteReader) (u : CompilationUnit).

Lemma die_bytes_length die : 0 < die_size r u die.
Proof.
  destruct die as [number abbrev fields children]. unfold die_size. cbn [die_bytes]. rewrite length_app. pose proof (uleb128_nonempty number).
  destruct (uleb128 number); [done|]. cbn [length]. lia.
Qed.

(** The offsets of the DIEs are those of their bytes. *)
Definition inside (p : Z) (die : UnitDie) : Prop :=
  NoDup (die_offsets (die_at r u p die)) /\
  forall o, o ∈ die_offsets (die_at r u p die) -> p + offset_from_section_start_ u <= o < p + offset_from_section_start_ u + die_size r u die.

Lemma dies_inside dies : Forall (λ die, forall p, inside p die) dies -> forall p,
  NoDup (dies_at r u p dies ≫= die_offsets) /\
  forall o, o ∈ (dies_at r u p dies ≫= die_offsets) ->
    p + offset_from_section_start_ u <= o < p + offset_from_section_start_ u + Z.of_nat (length (dies_bytes r u dies)).
Proof.
  induction 1 as [|die dies Hdie _ IH]; intros p; [cbn; split; [constructor|by intros o ?%not_elem_of_nil]|].
  unfold dies_bytes in *. rewrite fmap_cons. cbn [dies_at mbind list_bind concat]. rewrite length_app.
  destruct (Hdie p) as [Hn1 Hi1]. destruct (IH (p + Z.of_nat (length (die_bytes r u die)))) as [Hn2 Hi2]. unfold die_size in *. split.
  - apply NoDup_app. split; [done|]. split; [|done]. intros o H1 H2. specialize (Hi1 o H1). specialize (Hi2 o H2). lia.
  - intros o [H1|H2]%elem_of_app; [specialize (Hi1 o H1)|specialize (Hi2 o H2)]; lia.
Qed.

Lemma die_inside abbrevs die : unit_die_ok r u abbrevs die -> forall p, inside p die.
Proof.
  induction die as [number abbrev fields children IH] using UnitDie_induction. intros Hok p.
  inversion Hok as [? ? ? ? _ _ _ _ Hnone Hch]; subst. unfold inside. rewrite die_at_eq. cbn [die_offsets].
  set (q := p + Z.of_nat (length (uleb128 number)) + Z.of_nat (length (fields_bytes r u fields))).
  assert (Hall: Forall (λ die, forall p, inside p die) children) by (eapply Forall_impl; [apply Forall_and; split; [exact IH|exact Hch]|]; by intros x [HI Hx]; apply HI).
  destruct (dies_inside children Hall q) as [Hn Hi]. pose proof (uleb128_nonempty number) as Hne.
  assert (Hlen: (0 < length (uleb128 number))%nat) by (destruct (uleb128 number); [done|cbn; lia]).
  assert (Hsize: q + Z.of_nat (length (dies_bytes r u children)) <= p + die_size r u (mkUnitDie number abbrev fields children)).
  { unfold die_size, dies_bytes in *. cbn [die_bytes]. rewrite !length_app. destruct (has_children abbrev); [rewrite length_app; lia|].
    rewrite (Hnone eq_refl). cbn [fmap list_fmap concat length]. lia. }
  split.
  - apply NoDup_cons. split; [|done]. intros Ho. specialize (Hi _ Ho). lia.
  - intros o [->|Ho]%elem_of_cons; [|specialize (Hi o Ho)]; lia.
Qed.
End offsets.

(** ** Abbreviations *)

Definition pair_bytes (a : Z * Z) : list Z := uleb128 a.1 ++ uleb128 a.2.

Definition abbrev_bytes (a : Abbrev) : list Z :=
  uleb128 (abbrev_number a) ++ uleb128 (abbrev_tag a) ++ [if has_children a then 1 else 0] ++ concat (pair_bytes <$> abbrev_attributes a) ++ [0; 0].

(** The table of the abbreviations of a unit ends with a 0. *)
Definition table_bytes (table : list Abbrev) : list Z := concat (abbrev_bytes <$> table) ++ [0].

Definition abbrev_ok (a : Abbrev) : Prop :=
  fits 64 (abbrev_number a) /\ fits 32 (abbrev_tag a) /\
  Forall (λ x : Z * Z, fits 32 x.1 /\ fits 32 x.2 /\ x <> (0, 0)) (abbrev_attributes a).

(** The abbreviations are numbered in their order, from some number on. *)
Fixpoint numbered (i : Z) (table : list Abbrev) : Prop :=
  match table with [] => True | a :: table => abbrev_number a = i /\ numbered (i + 1) table end.

Section abbrevs.
Context (r : ByteReader) (section : list Z).

Lemma read_attributes_holds attributes : forall fuel p acc,
  Forall (λ x : Z * Z, fits 32 x.1 /\ fits 32 x.2 /\ x <> (0, 0)) attributes -> holds section p (concat (pair_bytes <$> attributes) ++ [0; 0]) ->
  (length attributes < fuel)%nat ->
  read_attributes fuel section p acc = Ok (acc ++ attributes, p + Z.of_nat (length (concat (pair_bytes <$> attributes) ++ [0; 0]))).
Proof.
  induction attributes as [|[name form] attributes IH]; intros fuel p acc Hok Hb Hf; (destruct fuel as [|fuel]; [cbn in Hf; lia|]); cbn [read_attributes].
  - cbn [fmap list_fmap concat app length] in *. apply holds_cons in Hb as [Hb1 Hb2].
    rewrite (uleb128_read _ p 0) by done. cbn [mbind outcome_bind]. change (Z.of_nat (length (uleb128 0))) with 1.
    rewrite (uleb128_read _ (p + 1) 0) by done. cbn [mbind outcome_bind Z.eqb andb]. change (Z.of_nat (length (uleb128 0))) with 1.
    rewrite app_nil_r. do 2 f_equal. lia.
  - inversion Hok as [|? ? (Hn & Hfo & Hnz) Hok']; subst. cbn [fst snd] in Hn, Hfo. rewrite fmap_cons in *. cbn [concat fst snd] in *. unfold pair_bytes in Hb at 1.
    rewrite <- !app_assoc in Hb. cbn [fst snd] in Hb. apply holds_app in Hb as [Hb1 Hb2]. apply holds_app in Hb2 as [Hb2 Hb3].
    rewrite (uleb128_read _ p name) by (done || (unfold fits in *; lia)). cbn [mbind outcome_bind].
    rewrite (uleb128_read _ _ form) by (done || (unfold fits in *; lia)). cbn [mbind outcome_bind].
    assert ((name =? 0) && (form =? 0) = false) as ->.
    { apply andb_false_iff. destruct (Z.eqb_spec name 0), (Z.eqb_spec form 0); auto. subst. done. }
    rewrite IH by (done || (cbn in Hf; lia)). unfold enum_of, u32. rewrite !wrap_small by done. rewrite <- app_assoc. cbn [app].
    change (pair_bytes (name, form)) with (uleb128 name ++ uleb128 form). rewrite !length_app. do 2 f_equal. lia.
Qed.

Lemma abbrevs_loop_holds table : forall fuel p acc,
  Forall abbrev_ok table -> numbered (Z.of_nat (length acc)) table -> (0 < length acc)%nat -> holds section p (table_bytes table) -> (length table < fuel)%nat ->
  abbrevs_loop fuel r section p acc = Ok (acc ++ table).
Proof.
  induction table as [|a table IH]; intros fuel p acc Hok Hnum Hacc Hb Hf; (destruct fuel as [|fuel]; [cbn in Hf; lia|]); cbn [abbrevs_loop].
  - rewrite (uleb128_read _ p 0) by done. cbn [mbind outcome_bind Z.eqb]. by rewrite app_nil_r.
  - inversion Hok as [|? ? (Hn & Ht & Ha) Hok']; subst. destruct Hnum as [Hi Hnum]. unfold table_bytes in Hb. rewrite fmap_cons in Hb. cbn [concat] in Hb.
    unfold abbrev_bytes in Hb at 1. rewrite <- !app_assoc in Hb. apply holds_app in Hb as [Hb1 Hb]. apply holds_app in Hb as [Hb2 Hb].
    apply holds_app in Hb as [Hb3 Hb]. rewrite (app_assoc _ [0; 0]) in Hb. apply holds_app in Hb as [Hb4 Hb].
    rewrite (uleb128_read _ p _ Hn Hb1). cbn [mbind outcome_bind]. rewrite (proj2 (Z.eqb_neq _ _)) by lia.
    rewrite (uleb128_read _ _ (abbrev_tag a)) by (done || (unfold fits in *; lia)). cbn [mbind outcome_bind].
    rewrite (one_byte r section _ _ Hb3). cbn [mbind outcome_bind]. cbn [length] in Hb4. change (Z.of_nat 1) with 1 in Hb4.
    pose proof (length_pieces pair_bytes (abbrev_attributes a) ltac:(by intros [x y]; unfold pair_bytes; cbn; pose proof (uleb128_nonempty x); destruct (uleb128 x))) as Hl.
    pose proof (holds_length _ _ _ Hb4) as Hl'. rewrite length_app in Hl'. cbn [length] in Hl'.
    rewrite (read_attributes_holds (abbrev_attributes a)) by (done || lia). cbn [mbind outcome_bind app]. rewrite (proj2 (Z.eqb_eq _ _) Hi).
    rewrite IH; [|done| |rewrite length_app; cbn; lia|exact Hb|cbn in Hf; lia].
    + unfold enum_of, u32. rewrite wrap_small by done. rewrite <- app_assoc. cbn [app]. do 3 f_equal. destruct a as [? ? c ?]. cbn. by destruct c.
    + rewrite length_app. cbn [length]. by replace (Z.of_nat (length acc + 1)) with (Z.of_nat (length acc) + 1) by lia.
Qed.
End abbrevs.

(** ** The unit *)

(** The bytes of the header. *)
Definition unit_header_bytes (r : ByteReader) (dwarf64 : bool) (h : UnitHeader) : list Z :=
  length_bytes r dwarf64 (unit_length h) ++ bytes_of (endian_ r) 2 (unit_version h) ++
  bytes_of (endian_ r) (if dwarf64 then 8%nat else 4%nat) (abbrev_offset h) ++ [unit_address_size h].

Definition header_size (dwarf64 : bool) : Z := if dwarf64 then 23 else 11.

(** The unit at an offset of the sections, once its header and abbreviations are read, and
    the reader with its sizes. *)
Definition unit_of (sections : strmap (list Z)) (offset : Z) (dwarf64 : bool) (h : UnitHeader) (table : list Abbrev) : CompilationUnit :=
  mkUnit offset (from (default [] (section_named sections (lit ".debug_info") (lit "__debug_info"))) offset) h (header_size dwarf64)
    (Some (Abbrev_default :: table)) (section_named sections (lit ".debug_str") (lit "__debug_str")) (str_find sections (lit ".debug_str_offsets"))
    (str_find sections (lit ".debug_addr")) false 0 None 0 0 0.

Definition reader_for (r : ByteReader) (dwarf64 : bool) (h : UnitHeader) : ByteReader := with_address_size (unit_reader r dwarf64) (unit_address_size h).

(** The bytes of a unit: after its DIEs there may be padding. *)
Definition whole_unit (r : ByteReader) (u : CompilationUnit) (dwarf64 : bool) (die : UnitDie) (padding : nat) : list Z :=
  unit_header_bytes r dwarf64 (header_ u) ++ die_bytes r u die ++ replicate padding 0.

(** What the sections hold of a unit. *)
Record unit_laid_out (sections : strmap (list Z)) (offset : Z) (r : ByteReader) (dwarf64 : bool) (h : UnitHeader) (table : list Abbrev)
    (die : UnitDie) (padding : nat) : Prop := {
  lo_info : exists info, section_named sections (lit ".debug_info") (lit "__debug_info") = Some info /\
    Z.of_nat (length info) < 2 ^ 63 /\
    holds info offset (whole_unit (reader_for r dwarf64 h) (unit_of sections offset dwarf64 h table) dwarf64 die padding);
  lo_length : unit_length h = header_size dwarf64 - length_size dwarf64 +
    die_size (reader_for r dwarf64 h) (unit_of sections offset dwarf64 h table) die + Z.of_nat padding;
  lo_32 : dwarf64 = false -> unit_length h < 0xffffffff;
  lo_version : 2 <= unit_version h /\ fits 16 (unit_version h);
  lo_address : unit_address_size h = 4 \/ unit_address_size h = 8;
  lo_offset : fits (if dwarf64 then 64 else 32) (abbrev_offset h);
  lo_table : exists section, section_named sections (lit ".debug_abbrev") (lit "__debug_abbrev") = Some section /\
    holds section (abbrev_offset h) (table_bytes table) /\ Forall abbrev_ok table /\ numbered 1 table;
  lo_die : unit_die_ok (reader_for r dwarf64 h) (unit_of sections offset dwarf64 h table) (Abbrev_default :: table) die
}.

Lemma holds_from_start section offset bs : holds section offset bs -> holds (from section offset) 0 bs.
Proof.
  intros [Ho Hb]. split; [done|]. unfold from. rewrite (proj2 (Z.ltb_ge _ _) Ho). unfold slice in *. cbn [Z.to_nat]. rewrite drop_0. exact Hb.
Qed.

Lemma length_header r dwarf64 h : Z.of_nat (length (unit_header_bytes r dwarf64 h)) = header_size dwarf64.
Proof. unfold unit_header_bytes. rewrite !length_app, !length_bytes_of, !Nat2Z.inj_add, length_length_bytes. by destruct dwarf64. Qed.

Section start.
Context {D : Type} `{Dwarf2Handler D} `{ReaderStore D}.
Implicit Types (d : D).

Context (sections : strmap (list Z)) (offset : Z) (r : ByteReader) (dwarf64 : bool) (h : UnitHeader) (table : list Abbrev) (die : UnitDie) (padding : nat).
Context (Hlo : unit_laid_out sections offset r dwarf64 h table die padding).

Let u := unit_of sections offset dwarf64 h table.
Let r' := reader_for r dwarf64 h.

Lemma UnitReadHeader_holds d :
  reader_of d = r ->
  UnitReadHeader (with_buffer (buffer_ u) (CompilationUnit_new offset)) d =
  Ok (with_header h (header_size dwarf64) (with_buffer (buffer_ u) (CompilationUnit_new offset)), set_reader r' d).
Proof.
  intros Er. pose proof Hlo as [(info & Ei & Hlen & Hb) Hl H32 [Hv Hv16] Ha Hao _ _]. apply holds_from_start in Hb.
  assert (Ebuf: buffer_ u = from info offset) by (unfold u, unit_of; cbn [buffer_]; by rewrite Ei). fold u in Hb, Hl. fold r' in Hb, Hl.
  unfold UnitReadHeader. cbn [buffer_ with_buffer]. rewrite Ebuf, Er.
  pose proof (holds_within _ _ _ Hb) as Hin. unfold whole_unit in Hb, Hin. change (unit_header_bytes r' dwarf64 (header_ u)) with (unit_header_bytes r dwarf64 h) in *.
  rewrite !length_app, !Nat2Z.inj_add, length_header, length_replicate in Hin. unfold die_size in Hl.
  specialize (Hin ltac:(intros E; apply (f_equal length) in E; rewrite length_app in E; pose proof (length_header r dwarf64 h); cbn in E; destruct dwarf64; cbn in *; lia)).
  pose proof (die_bytes_length r' u die) as Hpos. unfold die_size in Hpos.
  apply holds_app in Hb as [Hb _]. unfold unit_header_bytes in Hb. apply holds_app in Hb as [Hb1 Hb2]. rewrite length_length_bytes, Z.add_0_l in Hb2.
  assert (Hbig: 11 <= header_size dwarf64) by (by destruct dwarf64). rewrite (proj2 (Z.ltb_lt 4 _)) by lia. cbn [negb].
  assert (Hfl: fits (if dwarf64 then 64 else 32) (unit_length h)).
  { unfold fits. rewrite Hl. assert (Z.of_nat (length (from info offset)) <= Z.of_nat (length info)) by (unfold from; dif; [cbn|rewrite length_drop]; lia).
    destruct dwarf64; cbn in *; lia. }
  rewrite (read_initial_length (from info offset) r dwarf64 (unit_length h) Hfl H32 Hb1). cbn [mbind outcome_bind].
  apply holds_app in Hb2 as [Hb2 Hb3]. rewrite length_bytes_of in Hb3. change (Z.of_nat 2) with 2 in Hb3. apply holds_app in Hb3 as [Hb3 Hb4].
  rewrite length_bytes_of in Hb4. replace (Z.of_nat (if dwarf64 then 8%nat else 4%nat)) with (if dwarf64 then 8 else 4) in Hb4 by (by destruct dwarf64).
  assert (Hsize: header_size dwarf64 = length_size dwarf64 + 2 + (if dwarf64 then 8 else 4) + 1) by (by destruct dwarf64).
  assert (0 < length_size dwarf64) by (by destruct dwarf64).
  rewrite (proj2 (Z.ltb_lt (length_size dwarf64 + 2) _)) by (destruct dwarf64; lia). cbn [negb].
  rewrite (two_bytes (unit_reader r dwarf64) _ _ (unit_version h) Hv16) by exact Hb2. cbn [mbind outcome_bind].
  change (offset_size_ (unit_reader r dwarf64)) with (if dwarf64 then 8 else 4).
  rewrite (proj2 (Z.ltb_lt (length_size dwarf64 + 2 + _) _)) by lia. cbn [negb]. unfold ReadOffset.
  change (offset_size_ (unit_reader r dwarf64)) with (if dwarf64 then 8 else 4).
  rewrite (sized_reader_bytes (unit_reader r dwarf64) _ _ (if dwarf64 then 8 else 4) (abbrev_offset h)) by (destruct dwarf64; auto).
  cbn [mbind outcome_bind]. rewrite (one_byte (unit_reader r dwarf64) _ _ _ Hb4). cbn [mbind outcome_bind].
  assert (SetAddressSize (unit_reader r dwarf64) (unit_address_size h) = Ok r') as ->
    by (unfold SetAddressSize, r', reader_for; destruct Ha as [E|E]; by rewrite E).
  cbn [mbind outcome_bind]. rewrite (proj2 (Z.leb_le _ _)) by (rewrite Hl; lia). rewrite wrap_small by (by destruct dwarf64).
  rewrite <- Hsize. by destruct h.
Qed.

Let root := header_size dwarf64 + offset.
Let d0 d := set_reader r' d.

Context (keeps : D -> Prop) (Hkeeps : keeps_reader r' root keeps).
Context (split : CompilationUnit -> D -> outcome D) (NeedSplitDebugInfo : D -> bool).

Lemma unit_end_length : length_size dwarf64 + unit_length h = header_size dwarf64 + die_size r' u die + Z.of_nat padding.
Proof. rewrite (lo_length _ _ _ _ _ _ _ _ Hlo). fold r' u. lia. Qed.

(** After the tree there is nothing, or padding. *)
Lemma padding_read fuel d :
  dies_loop (S fuel) (Some (header_size dwarf64 + die_size r' u die)) (length_size dwarf64 + unit_length h) [] u d = Ok (u, d).
Proof.
  rewrite unit_end_length. destruct padding as [|n] eqn:En.
  - cbn [dies_loop before_end]. rewrite (proj2 (Z.ltb_ge _ _)) by lia. done.
  - cbn [dies_loop before_end]. rewrite (proj2 (Z.ltb_lt _ _)) by lia. cbn [non_null mbind outcome_bind].
    pose proof Hlo as [(info & Ei & Hlen & Hb) _ _ _ _ _ _ _]. apply holds_from_start in Hb. fold r' u in Hb.
    assert (Ebuf: buffer_ u = from info offset) by (unfold u, unit_of; cbn [buffer_]; by rewrite Ei).
    unfold whole_unit in Hb. apply holds_app in Hb as [_ Hb]. change (unit_header_bytes r' dwarf64 (header_ u)) with (unit_header_bytes r dwarf64 h) in Hb.
    rewrite length_header in Hb. apply holds_app in Hb as [_ Hb]. rewrite ?En in Hb. cbn [replicate] in Hb. apply holds_cons in Hb as [Hb _].
    rewrite Ebuf. rewrite (uleb128_read _ _ 0) by done. done.
Qed.

Lemma die_entries_length x : (die_entries x <= length (die_bytes r' u x))%nat.
Proof.
  induction x as [number abbrev fields children IH] using UnitDie_induction. cbn [die_entries die_bytes]. rewrite !length_app.
  pose proof (uleb128_nonempty number). destruct (uleb128 number) as [|b bs]; [done|]. cbn [length].
  destruct (has_children abbrev); [|cbn; lia]. rewrite length_app. cbn [length].
  assert (sum_list_with die_entries children <= length (concat (die_bytes r' u <$> children)))%nat; [|lia].
  induction IH as [|y ys Hy _ IHy]; [done|]. rewrite fmap_cons. cbn [concat sum_list_with]. rewrite length_app. lia.
Qed.

Lemma ProcessDIEs_holds d :
  (forall b d', StartDIE root (let '(mkUnitDie _ abbrev _ _) := die in abbrev_tag abbrev) d = Ok (b, d') -> keeps d') -> reader_of d = r' ->
  ProcessDIEs u d = d ← report_die (die_at r' u (header_size dwarf64) die) d; Ok (u, d).
Proof.
  intros Hroot Er. pose proof Hlo as [(info & Ei & Hlen & Hb) _ _ [Hv _] Ha _ _ Hok]. apply holds_from_start in Hb. fold r' u in Hb, Hok.
  assert (Ebuf: buffer_ u = from info offset) by (unfold u, unit_of; cbn [buffer_]; by rewrite Ei). rewrite <- Ebuf in Hb.
  pose proof (holds_length _ _ _ Hb) as Hl. unfold whole_unit in Hb, Hl. change (unit_header_bytes r' dwarf64 (header_ u)) with (unit_header_bytes r dwarf64 h) in *.
  rewrite !length_app in Hl. apply holds_app in Hb as [_ Hb]. rewrite length_header, Z.add_0_l in Hb. apply holds_app in Hb as [Hb _].
  assert (Hoffset: 0 <= offset /\ offset + Z.of_nat (length (buffer_ u)) < 2 ^ 64).
  { pose proof Hlo as [(info' & Ei' & _ & Hb') _ _ _ _ _ _ _]. rewrite Ei in Ei'. injection Ei' as <-. assert (0 <= offset) by apply Hb'.
    assert (Hne: whole_unit (reader_for r dwarf64 h) (unit_of sections offset dwarf64 h table) dwarf64 die padding <> []).
    { unfold whole_unit. intros E. apply (f_equal length) in E. rewrite length_app in E. pose proof (length_header r dwarf64 h). cbn in E. destruct dwarf64; cbn in *; lia. }
    pose proof (holds_within _ _ _ Hb' Hne). split; [done|]. rewrite Ebuf. unfold from. dif; [lia|]. rewrite length_drop. lia. }
  unfold ProcessDIEs. rewrite Er. change (offset_size_ r') with (if dwarf64 then 8 else 4).
  replace (if (if dwarf64 then 8 else 4) =? 8 then 12 else 4) with (length_size dwarf64) by (by destruct dwarf64).
  change (after_header_ u) with (header_size dwarf64). change (unit_length (header_ u)) with (unit_length h).
  pose proof (die_entries_length die) as He.
  replace (S (length (buffer_ u))) with (die_entries die + S (length (buffer_ u) - die_entries die))%nat by lia.
  assert (Hosz: offset_size_ r' = 4 \/ offset_size_ r' = 8) by (destruct dwarf64; [by right|by left]).
  rewrite (all_read r' u Ha Hosz Hv eq_refl root keeps Hkeeps (Abbrev_default :: table) eq_refl Hoffset (length_size dwarf64 + unit_length h) die
    (header_size dwarf64) _ [] d Hok Hb).
  - destruct (report_die _ d) as [d'| |]; [|done|done]. cbn [mbind outcome_bind]. apply padding_read.
  - rewrite unit_end_length. lia.
  - pose proof (die_inside r' u _ die Hok (header_size dwarf64)) as [Hn _]. destruct die as [number abbrev fields children]. rewrite die_at_eq in *.
    cbn [die_offsets] in Hn. apply NoDup_cons in Hn as [Hn _]. split; [exact Hroot|exact Hn].
Qed.

Lemma or_else_none {A} (x : option A) : match x with Some _ => x | None => None end = x.
Proof. by destruct x. Qed.

Lemma ReadAbbrevs_holds :
  ReadAbbrevs r' sections (with_header h (header_size dwarf64) (with_buffer (buffer_ u) (CompilationUnit_new offset))) =
  Ok (with_abbrevs (Some (Abbrev_default :: table)) (with_header h (header_size dwarf64) (with_buffer (buffer_ u) (CompilationUnit_new offset)))).
Proof.
  pose proof Hlo as [_ _ _ _ _ _ (section & Es & Hb & Hok & Hn) _]. unfold ReadAbbrevs. cbn [abbrevs_ with_header with_buffer CompilationUnit_new header_].
  rewrite Es. cbn [non_null mbind outcome_bind]. rewrite (abbrevs_loop_holds r' section table); [done|done|done|cbn; lia|done|].
  pose proof (holds_length _ _ _ Hb) as Hl. unfold table_bytes in Hl. rewrite length_app in Hl. cbn [length] in Hl.
  pose proof (length_pieces abbrev_bytes table ltac:(by intros x; unfold abbrev_bytes; pose proof (uleb128_nonempty (abbrev_number x)); destruct (uleb128 _))). lia.
Qed.

Lemma whole_length : Z.of_nat (length (whole_unit r' u dwarf64 die padding)) = length_size dwarf64 + unit_length h.
Proof.
  rewrite unit_end_length. unfold whole_unit, die_size. change (unit_header_bytes r' dwarf64 (header_ u)) with (unit_header_bytes r dwarf64 h).
  rewrite !length_app, !Nat2Z.inj_add, length_header, length_replicate. lia.
Qed.

Lemma Start_holds d :
  reader_of d = r ->
  (forall b d', StartDIE root (let '(mkUnitDie _ abbrev _ _) := die in abbrev_tag abbrev) (set_reader r' d) = Ok (b, d') -> keeps d') ->
  Start NeedSplitDebugInfo split sections (CompilationUnit_new offset) d =
  (let size := Z.of_nat (length (whole_unit r' u dwarf64 die padding)) in
   if OnCompilationUnit offset (unit_address_size h) (if dwarf64 then 8 else 4) (unit_length h) (wrap 8 (unit_version h)) (set_reader r' d)
   then d ← report_die (die_at r' u (header_size dwarf64) die) (set_reader r' d); Ok (size, d)
   else Ok (size, set_reader r' d)).
Proof.
  intros Er Hroot. cbv zeta. pose proof Hlo as [(info & Ei & Hlen & Hb) _ _ _ _ _ _ _]. rewrite whole_length.
  assert (Hne: whole_unit (reader_for r dwarf64 h) (unit_of sections offset dwarf64 h table) dwarf64 die padding <> []).
  { intros E. apply (f_equal length) in E. unfold whole_unit in E. rewrite length_app in E. pose proof (length_header r dwarf64 h). cbn in E. destruct dwarf64; cbn in *; lia. }
  pose proof (holds_within _ _ _ Hb Hne) as Hin. fold r' u in Hin. rewrite whole_length in Hin. assert (0 <= offset) by apply Hb.
  assert (Hend: 0 < length_size dwarf64 + unit_length h < 2 ^ 63).
  { rewrite unit_end_length in *. pose proof (die_bytes_length r' u die). destruct dwarf64; cbn [header_size] in *; lia. }
  assert (Ebuf: buffer_ u = from info offset) by (unfold u, unit_of; cbn [buffer_]; by rewrite Ei).
  unfold Start. rewrite Ei. cbn [non_null mbind outcome_bind offset_from_section_start_ CompilationUnit_new].
  unfold advance. rewrite (proj2 (Z.leb_le _ _)) by lia. cbn [mbind outcome_bind]. rewrite Z.add_0_l, <- Ebuf.
  change (mkUnit offset _ _ _ _ _ _ _ _ _ _ _ _ _) with (CompilationUnit_new offset).
  rewrite (UnitReadHeader_holds d Er). cbn [mbind outcome_bind]. rewrite reader_of_set.
  cbn [header_ with_header offset_from_section_start_ with_buffer CompilationUnit_new unit_length].
  change (address_size_ r') with (unit_address_size h). change (offset_size_ r') with (if dwarf64 then 8 else 4).
  assert (u64 (unit_length h + (if (if dwarf64 then 8 else 4) =? 8 then 12 else 4)) = length_size dwarf64 + unit_length h) as ->.
  { unfold u64. rewrite wrap_small; [destruct dwarf64; cbn; lia|unfold fits; destruct dwarf64; cbn in *; lia]. }
  destruct (OnCompilationUnit _ _ _ _ _ _); cbn [negb]; [|done].
  change (mkUnit offset (buffer_ u) h _ None None None None false 0 None 0 0 0)
    with (with_header h (header_size dwarf64) (with_buffer (buffer_ u) (CompilationUnit_new offset))).
  rewrite ReadAbbrevs_holds. cbn [mbind outcome_bind].
  match goal with |- ('(_, _) ← ProcessDIEs ?x _; _) = _ => assert (x = u) as -> end.
  { unfold u, unit_of. cbn [string_buffer_ str_offsets_buffer_ addr_buffer_ with_abbrevs with_header with_buffer CompilationUnit_new with_buffers
      offset_from_section_start_ buffer_ header_ after_header_ abbrevs_ is_split_dwarf_ dwo_id_ dwo_name_ skeleton_dwo_id_ ranges_base_ addr_base_].
    by rewrite !or_else_none. }
  rewrite (ProcessDIEs_holds (set_reader r' d) Hroot (reader_of_set _ _)).
  destruct (report_die _ _) as [d'| |]; [|done|done]. cbn [mbind outcome_bind]. done.
Qed.
End start.

(** C34: reading a compilation unit laid out in its sections -- 32-bit or 64-bit DWARF, either
    byte order, every form of value, any abbreviations -- reports to the handler exactly the
    events of its tree of DIEs, each at its offset in the section, skipping the values of
    those it does not want, and returns the size of the unit.  The handler may use and even
    change the byte reader they share, but not before the root DIE ends. *)
Theorem compilation_unit {D : Type} `{Dwarf2Handler D} `{ReaderStore D} (sections : strmap (list Z)) (offset : Z) (r : ByteReader) (dwarf64 : bool)
    (h : UnitHeader) (table : list Abbrev) (die : UnitDie) (padding : nat) (keeps : D -> Prop)
    (NeedSplitDebugInfo : D -> bool) (ProcessSplitDwarf : CompilationUnit -> D -> outcome D) (d : D) :
  let u := unit_of sections offset dwarf64 h table in
  let r' := reader_for r dwarf64 h in
  let root := header_size dwarf64 + offset in
  unit_laid_out sections offset r dwarf64 h table die padding ->
  reader_of d = r -> keeps_reader r' root keeps ->
  (forall b d', StartDIE root (let '(mkUnitDie _ abbrev _ _) := die in abbrev_tag abbrev) (set_reader r' d) = Ok (b, d') -> keeps d') ->
  Start NeedSplitDebugInfo ProcessSplitDwarf sections (CompilationUnit_new offset) d =
  (let size := Z.of_nat (length (whole_unit r' u dwarf64 die padding)) in
   if OnCompilationUnit offset (unit_address_size h) (if dwarf64 then 8 else 4) (unit_length h) (wrap 8 (unit_version h)) (set_reader r' d)
   then d ← report_die (die_at r' u (header_size dwarf64) die) (set_reader r' d); Ok (size, d)
   else Ok (size, set_reader r' d)).
Proof. intros u r' root Hlo Er Hkeeps Hroot. by apply (Start_holds sections offset r dwarf64 h table die padding Hlo keeps Hkeeps). Qed.

(** A handler that keeps what it is told, and wants no DIE of tag 1. *)
Inductive UnitEvent :=
| StartEvent (offset tag : Z)
| ValueEvent (offset attr form : Z) (value : AttrValue)
| EndEvent (offset : Z).

#[export] Instance UnitRecorder : Dwarf2Handler (ByteReader * list UnitEvent) := {|
  OnCompilationUnit offset address_size offset_size cu_length dwarf_version d := true;
  StartDIE offset tag d := Ok (negb (tag =? 1), (d.1, d.2 ++ [StartEvent offset tag]));
  OnAttribute offset attr form value d := Ok (d.1, d.2 ++ [ValueEvent offset attr form value]);
  EndDIE offset d := Ok (d.1, d.2 ++ [EndEvent offset])
|}.

#[export] Instance RecorderStore : ReaderStore (ByteReader * list UnitEvent) := {|
  reader_of d := d.1;
  set_reader r d := (r, d.2);
  reader_of_set r d := eq_refl
|}.

(** The unit a.cc with void f() {} at 0x1000. *)
Definition demo_table : list Abbrev :=
  [mkAbbrev 1 DW_TAG_compile_unit true [(DW_AT_name, DW_FORM_string)];
   mkAbbrev 2 DW_TAG_subprogram false [(DW_AT_name, DW_FORM_indirect); (DW_AT_low_pc, DW_FORM_addr); (DW_AT_high_pc, DW_FORM_data1)];
   mkAbbrev 3 1 false [(DW_AT_inline, DW_FORM_udata)]].

Definition demo_tree : UnitDie :=
  mkUnitDie 1 (mkAbbrev 1 DW_TAG_compile_unit true [(DW_AT_name, DW_FORM_string)]) [StringField (lit "a.cc")]
    [mkUnitDie 3 (mkAbbrev 3 1 false [(DW_AT_inline, DW_FORM_udata)]) [UlebField DW_FORM_udata 300] [];
     mkUnitDie 2 (mkAbbrev 2 DW_TAG_subprogram false [(DW_AT_name, DW_FORM_indirect); (DW_AT_low_pc, DW_FORM_addr); (DW_AT_high_pc, DW_FORM_data1)])
       [IndirectField (StringField (lit "f")); NumberField DW_FORM_addr 0x1000; NumberField DW_FORM_data1 0x20] []].

Definition demo_unit_header : UnitHeader := mkUnitHeader 31 4 0 8.
Definition little : ByteReader := ByteReader_new ENDIANNESS_LITTLE.

Definition demo_info : list Z :=
  unit_header_bytes little false demo_unit_header ++
  die_bytes (reader_for little false demo_unit_header) (unit_of [] 0 false demo_unit_header demo_table) demo_tree ++ [0].

Definition demo_sections : strmap (list Z) := [(lit ".debug_abbrev", table_bytes demo_table); (lit ".debug_info", demo_info)].

Lemma demo_laid_out : unit_laid_out demo_sections 0 little false demo_unit_header demo_table demo_tree 1.
Proof.
  split.
  - exists demo_info. split; [reflexivity|]. split; [vm_compute; reflexivity|]. split; [done|]. vm_compute. reflexivity.
  - vm_compute. reflexivity.
  - done.
  - by split.
  - by right.
  - by split.
  - exists (table_bytes demo_table). split; [reflexivity|]. split; [split; [done|vm_compute; reflexivity]|].
    split; [repeat constructor; done|done].
  - repeat first [apply unit_die_ok_intro|apply Forall2_cons_2|apply Forall2_nil_2|apply Forall_cons_2|apply Forall_nil_2|split];
      try reflexivity; try discriminate; try done; try exact I; try (by exists 8); try (by exists 1); by repeat constructor.
Qed.

Lemma compilation_unit_witness :
  Start (λ _, true) (λ _, Ok) demo_sections (CompilationUnit_new 0) (little, []) =
  Ok (35, (reader_for little false demo_unit_header,
    [StartEvent 11 DW_TAG_compile_unit; ValueEvent 11 DW_AT_name DW_FORM_string (AttrString (lit "a.cc"));
     StartEvent 17 1; EndEvent 17;
     StartEvent 20 DW_TAG_subprogram; ValueEvent 20 DW_AT_name DW_FORM_string (AttrString (lit "f"));
     ValueEvent 20 DW_AT_low_pc DW_FORM_addr (AttrUnsigned 0x1000); ValueEvent 20 DW_AT_high_pc DW_FORM_data1 (AttrUnsigned 0x20);
     EndEvent 20; EndEvent 11])).
Proof.
  rewrite (compilation_unit demo_sections 0 little false demo_unit_header demo_table demo_tree 1 (λ d, d.1 = reader_for little false demo_unit_header)).
  - vm_compute. reflexivity.
  - exact demo_laid_out.
  - reflexivity.
  - split; [done|intros offset tag d b d' E [= <- <-]; exact E|intros offset attr form value d d' E [= <-]; exact E|intros offset d d' E _ [= <-]; exact E].
  - intros b d' [= <- <-]. reflexivity.
Defined.
