(* ===== verification/CuToModule.v ===== *)
(** common/dwarf_cu_to_module.h, dwarf_cu_to_module.cc, language.cc: [DwarfCUToModule], the
    handlers that turn the DIEs of a compilation unit into the functions of a [Module] and
    give them their source lines. *)
From Stdlib Require Import Ascii.
From stdpp Require Import strings list gmap.
From S2P Require Import Prelude StdMap CStr StrMap Memory ByteReader CallFrameInfo LineInfo LineProgram SymbolFile DumpModule DumpLoad LineToModule LineAssign DwarfEnums DieHandler.

(** ** Languages *)

Inductive Language := CPlusPlus | Java | Swift | Rust | Assembler.

(** [abi::__cxa_demangle]: the demangled name when the status is 0. *)
Class Demangler := { cxa_demangle : cstring -> option cstring }.

Inductive DemangleResult := DontDemangle | DemangleSuccess (demangled : cstring) | DemangleFailure.

Definition HasFunctions (language : Language) : bool := match language with Assembler => false | _ => true end.

Definition MakeQualifiedNameWithSeparator (parent_name separator name : cstring) : cstring :=
  match parent_name with [] => name | _ => parent_name ++ separator ++ name end.

Definition MakeQualifiedName (language : Language) (parent_name name : cstring) : cstring :=
  match language with
  | CPlusPlus => MakeQualifiedNameWithSeparator parent_name (lit "::") name
  | Java | Swift | Rust => MakeQualifiedNameWithSeparator parent_name (lit ".") name
  | Assembler => name
  end.

(** On a host with [__cxa_demangle] and without [rust_demangle]. *)
Definition DemangleName `{Demangler} (language : Language) (mangled : cstring) : DemangleResult :=
  match language with
  | CPlusPlus => match cxa_demangle mangled with Some demangled => DemangleSuccess demangled | None => DemangleFailure end
  | Swift | Rust => DemangleSuccess mangled
  | Java | Assembler => DontDemangle
  end.

(** ** State *)

(** [Specification]. *)
Record Specification := mkSpecification { spec_qualified_name : cstring; spec_enclosing_name : cstring; spec_unqualified_name : cstring }.

(** What the [WarningReporter] is told. *)
Inductive CuWarning :=
| UnknownSpecification (offset target : Z)
| UnknownAbstractOrigin (offset target : Z)
| MissingSection (name : cstring)
| BadLineInfoOffset (offset : Z)
| Uncovered (w : CoverWarning)
| UnnamedFunction (offset : Z)
| DemangleError (input : cstring)
| UnhandledInterCUReference (offset target : Z).

(** [FileContext] with its [FilePrivate], the [CUContext], the warning reporter and the line
    reader of dump_symbols.cc. *)
Record CuState := mkCuState {
  fc_module : DumpModule;
  fc_handle_inter_cu_refs : bool;
  fc_section_map : strmap (list Z);
  fc_common_strings : strmap unit;
  fc_specifications : gmap Z Specification;
  fc_origins : gmap Z cstring;
  cu_language : Language;
  cu_functions : list MFunction;
  cu_offset : Z;
  cu_name : cstring;
  cu_warnings : list CuWarning;
  line_compilation_dir : cstring;
  line_byte_reader : ByteReader
}.

Implicit Types (s : CuState).

Definition with_module x s := mkCuState x (fc_handle_inter_cu_refs s) (fc_section_map s) (fc_common_strings s) (fc_specifications s)
  (fc_origins s) (cu_language s) (cu_functions s) (cu_offset s) (cu_name s) (cu_warnings s) (line_compilation_dir s) (line_byte_reader s).
Definition with_common_strings x s := mkCuState (fc_module s) (fc_handle_inter_cu_refs s) (fc_section_map s) x (fc_specifications s)
  (fc_origins s) (cu_language s) (cu_functions s) (cu_offset s) (cu_name s) (cu_warnings s) (line_compilation_dir s) (line_byte_reader s).
Definition with_specifications x s := mkCuState (fc_module s) (fc_handle_inter_cu_refs s) (fc_section_map s) (fc_common_strings s) x
  (fc_origins s) (cu_language s) (cu_functions s) (cu_offset s) (cu_name s) (cu_warnings s) (line_compilation_dir s) (line_byte_reader s).
Definition with_origins x s := mkCuState (fc_module s) (fc_handle_inter_cu_refs s) (fc_section_map s) (fc_common_strings s) (fc_specifications s)
  x (cu_language s) (cu_functions s) (cu_offset s) (cu_name s) (cu_warnings s) (line_compilation_dir s) (line_byte_reader s).
Definition with_language x s := mkCuState (fc_module s) (fc_handle_inter_cu_refs s) (fc_section_map s) (fc_common_strings s) (fc_specifications s)
  (fc_origins s) x (cu_functions s) (cu_offset s) (cu_name s) (cu_warnings s) (line_compilation_dir s) (line_byte_reader s).
Definition with_cu_functions x s := mkCuState (fc_module s) (fc_handle_inter_cu_refs s) (fc_section_map s) (fc_common_strings s) (fc_specifications s)
  (fc_origins s) (cu_language s) x (cu_offset s) (cu_name s) (cu_warnings s) (line_compilation_dir s) (line_byte_reader s).
Definition with_cu_name x s := mkCuState (fc_module s) (fc_handle_inter_cu_refs s) (fc_section_map s) (fc_common_strings s) (fc_specifications s)
  (fc_origins s) (cu_language s) (cu_functions s) (cu_offset s) x (cu_warnings s) (line_compilation_dir s) (line_byte_reader s).
Definition warn w s := mkCuState (fc_module s) (fc_handle_inter_cu_refs s) (fc_section_map s) (fc_common_strings s) (fc_specifications s)
  (fc_origins s) (cu_language s) (cu_functions s) (cu_offset s) (cu_name s) (cu_warnings s ++ w) (line_compilation_dir s) (line_byte_reader s).
Definition with_compilation_dir x s := mkCuState (fc_module s) (fc_handle_inter_cu_refs s) (fc_section_map s) (fc_common_strings s) (fc_specifications s)
  (fc_origins s) (cu_language s) (cu_functions s) (cu_offset s) (cu_name s) (cu_warnings s) x (line_byte_reader s).
Definition with_byte_reader x s := mkCuState (fc_module s) (fc_handle_inter_cu_refs s) (fc_section_map s) (fc_common_strings s) (fc_specifications s)
  (fc_origins s) (cu_language s) (cu_functions s) (cu_offset s) (cu_name s) (cu_warnings s) (line_compilation_dir s) x.

Definition ClearSpecifications s : CuState := if fc_handle_inter_cu_refs s then s else with_specifications ∅ s.

Definition IsUnhandledInterCUReference s (offset compilation_unit_start : Z) : bool :=
  if fc_handle_inter_cu_refs s then false else offset <? compilation_unit_start.

(** ** [GenericDIEHandler]

    A [DIEContext] is the name of the enclosing scope. *)
Record GenericDIE := mkGenericDIE {
  parent_context : cstring;
  generic_offset : Z;
  declaration_ : bool;
  specification_ : option Specification;
  name_attribute_ : cstring;
  demangled_name_ : cstring
}.

Implicit Types (g : GenericDIE).

Definition GenericDIE_new (parent : cstring) (offset : Z) : GenericDIE := mkGenericDIE parent offset false None [] [].

Definition set_declaration x g := mkGenericDIE (parent_context g) (generic_offset g) x (specification_ g) (name_attribute_ g) (demangled_name_ g).
Definition set_specification x g := mkGenericDIE (parent_context g) (generic_offset g) (declaration_ g) x (name_attribute_ g) (demangled_name_ g).
Definition set_name_attribute x g := mkGenericDIE (parent_context g) (generic_offset g) (declaration_ g) (specification_ g) x (demangled_name_ g).
Definition set_demangled_name x g := mkGenericDIE (parent_context g) (generic_offset g) (declaration_ g) (specification_ g) (name_attribute_ g) x.

Definition Generic_ProcessAttributeUnsigned (attr data : Z) g : GenericDIE :=
  if attr =? DW_AT_declaration then set_declaration (negb (data =? 0)) g else g.

Definition Generic_ProcessAttributeReference (attr data : Z) g s : GenericDIE * CuState :=
  if attr =? DW_AT_specification then
    if IsUnhandledInterCUReference s data (cu_offset s) then (g, warn [UnhandledInterCUReference (generic_offset g) data] s)
    else match fc_specifications s !! data with
         | Some spec => (set_specification (Some spec) g, s)
         | None => (g, warn [UnknownSpecification (generic_offset g) data] s)
         end
  else (g, s).

Definition AddStringToPool (str : cstring) s : CuState := with_common_strings (str_insert (fc_common_strings s) str tt) s.

Section handlers.
Context `{Demangler} `{StdSort}.

Definition Generic_ProcessAttributeString (attr : Z) (data : cstring) g s : GenericDIE * CuState :=
  if attr =? DW_AT_name then (set_name_attribute data g, AddStringToPool data s)
  else if (attr =? DW_AT_MIPS_linkage_name) || (attr =? DW_AT_linkage_name) then
    match DemangleName (cu_language s) data with
    | DemangleSuccess demangled => (set_demangled_name demangled g, AddStringToPool demangled s)
    | DemangleFailure => (set_demangled_name [] g, warn [DemangleError data] s)
    | DontDemangle => (set_demangled_name [] g, s)
    end
  else (g, s).

(** The name that a DIE, or the declaration it completes, was given in full. *)
Definition full_name g : option cstring :=
  match demangled_name_ g with
  | [] => match specification_ g with
          | Some spec => match spec_qualified_name spec with [] => None | name => Some name end
          | None => None
          end
  | name => Some name
  end.

Definition unqualified_name g : option cstring :=
  match name_attribute_ g with
  | [] => match specification_ g with Some spec => Some (spec_unqualified_name spec) | None => None end
  | name => Some name
  end.

Definition enclosing_name g : cstring :=
  match specification_ g with Some spec => spec_enclosing_name spec | None => parent_context g end.

Definition ComputeQualifiedName g s : cstring * CuState :=
  match full_name g with
  | Some name =>
      (name, if declaration_ g then with_specifications (<[generic_offset g := mkSpecification name [] []]> (fc_specifications s)) s else s)
  | None =>
      match unqualified_name g with
      | Some name =>
          (MakeQualifiedName (cu_language s) (enclosing_name g) name,
           with_specifications (<[generic_offset g := mkSpecification [] (enclosing_name g) name]> (fc_specifications s)) s)
      | None => ([], s)
      end
  end.

(** ** The handlers *)

(** [DwarfCUToModule], [FuncHandler] and [NamedScopeHandler]. *)
Inductive Handler :=
| CuHandler (has_source_line_info : bool) (source_line_offset : Z)
| FuncHandler (g : GenericDIE) (name : cstring) (low_pc high_pc high_pc_form : Z) (abstract_origin : option cstring) (inline : bool)
| NamedScopeHandler (g : GenericDIE) (child_context : cstring).

Definition CuHandler_new : Handler := CuHandler false 0.
Definition FuncHandler_new (parent : cstring) (offset : Z) : Handler :=
  FuncHandler (GenericDIE_new parent offset) [] 0 0 DW_FORM_addr None false.
Definition NamedScopeHandler_new (parent : cstring) (offset : Z) : Handler := NamedScopeHandler (GenericDIE_new parent offset) [].

Definition SetLanguage (language : Z) s : CuState :=
  with_language
    (if language =? DW_LANG_Java then Java
     else if language =? DW_LANG_Swift then Swift
     else if language =? DW_LANG_Rust then Rust
     else if language =? DW_LANG_Mips_Assembler then Assembler
     else CPlusPlus) s.

Definition Cu_ProcessAttribute (attr : Z) (value : AttrValue) (has_source_line_info : bool) (source_line_offset : Z) s : Handler * CuState :=
  let same := CuHandler has_source_line_info source_line_offset in
  match value with
  | AttrSigned data => (same, if attr =? DW_AT_language then SetLanguage data s else s)
  | AttrUnsigned data =>
      if attr =? DW_AT_stmt_list then (CuHandler true data, s)
      else (same, if attr =? DW_AT_language then SetLanguage data s else s)
  | AttrString data =>
      (same, if attr =? DW_AT_name then with_cu_name data s
             else if attr =? DW_AT_comp_dir then with_compilation_dir data s else s)
  | _ => (same, s)
  end.

Definition Func_ProcessAttribute (attr form : Z) (value : AttrValue) g (name : cstring) (low_pc high_pc high_pc_form : Z)
    (abstract_origin : option cstring) (inline : bool) s : Handler * CuState :=
  let same g := FuncHandler g name low_pc high_pc high_pc_form abstract_origin inline in
  match value with
  | AttrUnsigned data =>
      if attr =? DW_AT_inline then (FuncHandler g name low_pc high_pc high_pc_form abstract_origin true, s)
      else if attr =? DW_AT_low_pc then (FuncHandler g name data high_pc high_pc_form abstract_origin inline, s)
      else if attr =? DW_AT_high_pc then (FuncHandler g name low_pc data form abstract_origin inline, s)
      else (same (Generic_ProcessAttributeUnsigned attr data g), s)
  | AttrSigned data =>
      (if attr =? DW_AT_inline then FuncHandler g name low_pc high_pc high_pc_form abstract_origin true else same g, s)
  | AttrReference data =>
      if attr =? DW_AT_abstract_origin then
        match fc_origins s !! data with
        | Some origin => (FuncHandler g name low_pc high_pc high_pc_form (Some origin) inline, s)
        | None => (same g, warn [UnknownAbstractOrigin (generic_offset g) data] s)
        end
      else let '(g, s) := Generic_ProcessAttributeReference attr data g s in (same g, s)
  | AttrString data => let '(g, s) := Generic_ProcessAttributeString attr data g s in (same g, s)
  | _ => (same g, s)
  end.

Definition Scope_ProcessAttribute (attr : Z) (value : AttrValue) g (child_context : cstring) s : Handler * CuState :=
  match value with
  | AttrUnsigned data => (NamedScopeHandler (Generic_ProcessAttributeUnsigned attr data g) child_context, s)
  | AttrReference data => let '(g, s) := Generic_ProcessAttributeReference attr data g s in (NamedScopeHandler g child_context, s)
  | AttrString data => let '(g, s) := Generic_ProcessAttributeString attr data g s in (NamedScopeHandler g child_context, s)
  | _ => (NamedScopeHandler g child_context, s)
  end.

Definition Func_EndAttributes g (low_pc high_pc high_pc_form : Z) (abstract_origin : option cstring) (inline : bool) s : bool * Handler * CuState :=
  let '(name, s) := ComputeQualifiedName g s in
  let name := match name, abstract_origin with [], Some origin => origin | _, _ => name end in
  (true, FuncHandler g name low_pc high_pc high_pc_form abstract_origin inline, s).

Definition Scope_EndAttributes g s : bool * Handler * CuState :=
  let '(name, s) := ComputeQualifiedName g s in (true, NamedScopeHandler g name, s).

(** A function of a scope, or a scope in it; a module is only one in the unit itself. *)
Definition find_child (context : cstring) (in_unit : bool) (offset tag : Z) : option Handler :=
  if tag =? DW_TAG_subprogram then Some (FuncHandler_new context offset)
  else if (tag =? DW_TAG_namespace) || (tag =? DW_TAG_class_type) || (tag =? DW_TAG_structure_type) || (tag =? DW_TAG_union_type)
    || (in_unit && (tag =? DW_TAG_module))
  then Some (NamedScopeHandler_new context offset)
  else None.

(** The function of a DIE; one at address 0 is discarded. *)
Definition Func_Finish g (name : cstring) (low_pc high_pc high_pc_form : Z) (inline : bool) s : CuState :=
  let high_pc := if high_pc_form =? DW_FORM_addr then high_pc else u64 (high_pc + low_pc) in
  if low_pc <? high_pc then
    let '(name, s) := match name with
                      | [] => (lit "<name omitted>", warn [UnnamedFunction (generic_offset g)] s)
                      | _ => (name, s)
                      end in
    let func := mkMFunction name low_pc (high_pc - low_pc) 0 [] in
    if low_pc =? 0 then s else with_cu_functions (cu_functions s ++ [func]) s
  else if inline then with_origins (<[generic_offset g := name]> (fc_origins s)) s
  else s.

(** ** The end of the unit *)

Definition find_section s (name mac_name : cstring) : option (list Z) :=
  match str_find (fc_section_map s) name with
  | Some section => Some section
  | None => str_find (fc_section_map s) mac_name
  end.

(** [ReadSourceLines]: the lines, from none. *)
Definition ReadSourceLines (offset : Z) s : outcome (list MLine * CuState) :=
  match find_section s (lit ".debug_line") (lit "__debug_line") with
  | None => Ok ([], warn [MissingSection (lit ".debug_line")] s)
  | Some section =>
      if Z.of_nat (length section) <=? offset then Ok ([], warn [BadLineInfoOffset offset] s)
      else
        '(module, lines, reader) ← ReadProgram (line_byte_reader s) (line_compilation_dir s) (from section offset) (fc_module s) [];
        Ok (lines, with_byte_reader reader (with_module module s))
  end.

Definition Cu_Finish (has_source_line_info : bool) (source_line_offset : Z) s : outcome CuState :=
  if negb (HasFunctions (cu_language s)) then Ok s
  else
    '(lines, s) ← (if has_source_line_info then ReadSourceLines source_line_offset s else Ok ([], s));
    '(functions, _, warnings) ← AssignLinesToFunctions (cu_functions s) lines;
    let s := warn (Uncovered <$> warnings) s in
    module ← AddFunctions (fc_module s) functions;
    Ok (ClearSpecifications (with_cu_functions [] (with_module module s))).

#[export] Instance CuToModule : DIEHandler Handler CuState := {|
  ProcessAttribute attr form value h s :=
    match h with
    | CuHandler has_lines offset => Cu_ProcessAttribute attr value has_lines offset s
    | FuncHandler g name low high high_form origin inline => Func_ProcessAttribute attr form value g name low high high_form origin inline s
    | NamedScopeHandler g context => Scope_ProcessAttribute attr value g context s
    end;
  EndAttributes h s :=
    match h with
    | CuHandler _ _ => (true, h, s)
    | FuncHandler g _ low high high_form origin inline => Func_EndAttributes g low high high_form origin inline s
    | NamedScopeHandler g _ => Scope_EndAttributes g s
    end;
  FindChildHandler offset tag h s :=
    match h with
    | CuHandler _ _ => find_child [] true offset tag
    | FuncHandler _ _ _ _ _ _ _ => None
    | NamedScopeHandler _ context => find_child context false offset tag
    end;
  FinishDIE h s :=
    match h with
    | CuHandler has_lines offset => Cu_Finish has_lines offset s
    | FuncHandler g name low high high_form origin inline => Ok (Func_Finish g name low high high_form inline s)
    | NamedScopeHandler _ _ => Ok s
    end;
  StartRootDIE offset tag h s := tag =? DW_TAG_compile_unit;
  StartCompilationUnit offset address_size offset_size cu_length dwarf_version h s := 2 <=? dwarf_version
|}.
End handlers.
