(* ===== verification/CuFunctions.v ===== *)
(** The functions that the DIEs of a compilation unit give: what is true of them all, that
    the unit's module can be built from them, and their names. *)
From Stdlib Require Import Ascii.
From stdpp Require Import strings list gmap relations.
From S2P Require Import Prelude StdMap CStr StrMap Memory ByteReader CallFrameInfo LineInfo LineProgram SymbolFile DumpModule DumpLoad LineToModule LineAssign LineBounds DwarfEnums DieHandler CuToModule.

(** ** The invariant *)

(** A function with a name, not at address 0, not empty and inside the address space, that
    has no lines yet. *)
Definition func_ok (f : MFunction) : Prop :=
  mfunc_name f <> [] /\ mfunc_address f <> 0 /\ proper_range (func_extent f) /\ mfunc_lines f = [].

Definition attr_fits (a : Attribute) : Prop := match a.2 with AttrUnsigned data => fits 64 data | _ => True end.

(** The unsigned attributes of a tree are 64-bit. *)
Inductive die_fits : DIE -> Prop :=
| die_fits_intro offset tag attributes children :
    Forall attr_fits attributes -> Forall die_fits children -> die_fits (mkDIE offset tag attributes children).

Definition handler_fits (h : Handler) : Prop :=
  match h with FuncHandler _ _ low_pc high_pc _ _ _ => fits 64 low_pc /\ fits 64 high_pc | _ => True end.

Definition is_root (h : Handler) : Prop := match h with CuHandler _ _ => True | _ => False end.

(** What a handler does not change. *)
Record same_unit (s s' : CuState) : Prop := {
  su_module : fc_module s' = fc_module s;
  su_sections : fc_section_map s' = fc_section_map s;
  su_refs : fc_handle_inter_cu_refs s' = fc_handle_inter_cu_refs s;
  su_reader : line_byte_reader s' = line_byte_reader s;
  su_functions : exists fs, cu_functions s' = cu_functions s ++ fs /\ Forall func_ok fs
}.

(** What the handlers of DIEs other than the root do not change either. *)
Record same_language (s s' : CuState) : Prop := {
  sl_language : cu_language s' = cu_language s;
  sl_dir : line_compilation_dir s' = line_compilation_dir s
}.

#[export] Instance same_unit_preorder : PreOrder same_unit.
Proof.
  split.
  - intros s. split; try done. exists []. by rewrite app_nil_r.
  - intros s1 s2 s3 [E1 E2 E3 E4 (fs & E5 & Hf)] [E1' E2' E3' E4' (gs & E5' & Hg)]. split; try congruence.
    exists (fs ++ gs). rewrite E5', E5, (assoc_L (++)). split; [done|]. by apply Forall_app.
Qed.

#[export] Instance same_language_preorder : PreOrder same_language.
Proof. split; [done|]. intros s1 s2 s3 [] []. split; congruence. Qed.

Section invariant.
Context `{Demangler} `{StdSort}.

(** A change that leaves the functions alone. *)
Ltac same := split; try done; exists []; by rewrite app_nil_r.

Lemma same_unit_warn w s : same_unit s (warn w s).
Proof. same. Qed.
Lemma same_unit_specifications x s : same_unit s (with_specifications x s).
Proof. same. Qed.
Lemma same_unit_origins x s : same_unit s (with_origins x s).
Proof. same. Qed.
Lemma same_unit_pool x s : same_unit s (AddStringToPool x s).
Proof. same. Qed.
Lemma same_unit_language x s : same_unit s (SetLanguage x s).
Proof. same. Qed.
Lemma same_unit_cu_name x s : same_unit s (with_cu_name x s).
Proof. same. Qed.
Lemma same_unit_dir x s : same_unit s (with_compilation_dir x s).
Proof. same. Qed.

Create HintDb unit.
Hint Resolve same_unit_warn same_unit_specifications same_unit_origins same_unit_pool same_unit_language same_unit_cu_name same_unit_dir : unit.
Hint Extern 0 (same_unit ?s ?s) => reflexivity : unit.
Hint Extern 0 (same_language ?s ?s) => reflexivity : unit.
Hint Extern 1 (same_language _ _) => split; reflexivity : unit.

Lemma reference_same attr data g s : let '(_, s') := Generic_ProcessAttributeReference attr data g s in same_unit s s' /\ same_language s s'.
Proof.
  unfold Generic_ProcessAttributeReference. destruct (attr =? _); [|auto with unit]. destruct (IsUnhandledInterCUReference _ _ _); [auto with unit|].
  destruct (_ !! data); auto with unit.
Qed.

Lemma string_same attr data g s : let '(_, s') := Generic_ProcessAttributeString attr data g s in same_unit s s' /\ same_language s s'.
Proof.
  unfold Generic_ProcessAttributeString. destruct (attr =? _); [auto with unit|]. destruct (_ || _); [|auto with unit].
  destruct (DemangleName _ _); auto with unit.
Qed.

Lemma ComputeQualifiedName_same g s : let '(_, s') := ComputeQualifiedName g s in same_unit s s' /\ same_language s s'.
Proof.
  unfold ComputeQualifiedName. destruct (full_name g); [destruct (declaration_ g); auto with unit|].
  destruct (unqualified_name g); auto with unit.
Qed.

(** The four parts of what a handler keeps. *)
Ltac unit_done Hs :=
  split; [first [done|assumption]|split; [first [apply Hs|auto with unit]|split; [done|intros _; first [apply Hs|auto with unit]]]].

(** A handler gets an attribute. *)
Lemma ProcessAttribute_same attr form value h s :
  attr_fits (attr, form, value) -> handler_fits h ->
  let '(h', s') := ProcessAttribute attr form value h s in
  handler_fits h' /\ same_unit s s' /\ (is_root h <-> is_root h') /\ (~ is_root h -> same_language s s').
Proof.
  intros Ha Hh. destruct h as [has off|g name low high hform origin inline|g ctx]; cbn [ProcessAttribute CuToModule].
  - unfold Cu_ProcessAttribute. destruct value; repeat dif; (split; [done|split; [auto with unit|split; [done|intros []; done]]]).
  - unfold Func_ProcessAttribute. destruct value as [data|data|data|data|data|data]; cbn in Ha, Hh.
    + repeat dif; (split; [done || (split; tauto)|split; [auto with unit|split; [done|auto with unit]]]).
    + split; [by dif|split; [auto with unit|split; [by dif|auto with unit]]].
    + dif.
      * destruct (fc_origins s !! data); (split; [done|split; [auto with unit|split; [done|auto with unit]]]).
      * pose proof (reference_same attr data g s) as Hs. destruct (Generic_ProcessAttributeReference attr data g s) as [g' s']. unit_done Hs.
    + unit_done I.
    + pose proof (string_same attr data g s) as Hs. destruct (Generic_ProcessAttributeString attr data g s) as [g' s']. unit_done Hs.
    + unit_done I.
  - unfold Scope_ProcessAttribute. destruct value as [data|data|data|data|data|data]; try (unit_done I).
    + pose proof (reference_same attr data g s) as Hs. destruct (Generic_ProcessAttributeReference attr data g s) as [g' s']. unit_done Hs.
    + pose proof (string_same attr data g s) as Hs. destruct (Generic_ProcessAttributeString attr data g s) as [g' s']. unit_done Hs.
Qed.

Lemma process_attributes_same attributes : forall h s,
  Forall attr_fits attributes -> handler_fits h ->
  let '(h', s') := process_attributes attributes h s in
  handler_fits h' /\ same_unit s s' /\ (is_root h <-> is_root h') /\ (~ is_root h -> same_language s s').
Proof.
  induction attributes as [|[[attr form] value] attributes IH]; intros h s Ha Hh; [unit_done I|].
  inversion Ha as [|? ? Ha1 Ha2]; subst. cbn [process_attributes]. pose proof (ProcessAttribute_same attr form value h s Ha1 Hh) as H1.
  destruct (ProcessAttribute attr form value h s) as [h1 s1]. destruct H1 as (Hf1 & Hs1 & Hr1 & Hl1). specialize (IH h1 s1 Ha2 Hf1).
  destruct (process_attributes attributes h1 s1) as [h2 s2]. destruct IH as (Hf2 & Hs2 & Hr2 & Hl2).
  split; [done|]. split; [by etrans|]. split; [tauto|]. intros Hr. etrans; [by apply Hl1|]. apply Hl2. tauto.
Qed.

Lemma EndAttributes_same h s :
  handler_fits h -> ~ is_root h ->
  let '(descend, h', s') := EndAttributes h s in handler_fits h' /\ ~ is_root h' /\ same_unit s s' /\ same_language s s'.
Proof.
  intros Hh Hr. destruct h as [has off|g name low high hform origin inline|g ctx]; [by destruct Hr| |]; cbn [EndAttributes CuToModule].
  - unfold Func_EndAttributes. pose proof (ComputeQualifiedName_same g s) as Hs. destruct (ComputeQualifiedName g s) as [n s']. destruct Hs. by split_and!.
  - unfold Scope_EndAttributes. pose proof (ComputeQualifiedName_same g s) as Hs. destruct (ComputeQualifiedName g s) as [n s']. destruct Hs. by split_and!.
Qed.

Lemma FindChildHandler_fits offset tag h s h' : FindChildHandler offset tag h s = Some h' -> handler_fits h' /\ ~ is_root h'.
Proof.
  assert (Hf: forall ctx b, find_child ctx b offset tag = Some h' -> handler_fits h' /\ ~ is_root h').
  { intros ctx b. unfold find_child. repeat dif; intros [= <-]; (split; [|by intros []]); cbn; unfold fits; lia || done. }
  destruct h; cbn [FindChildHandler CuToModule]; [apply Hf|done|apply Hf].
Qed.

Lemma FinishDIE_same h s :
  handler_fits h -> ~ is_root h -> exists s', FinishDIE h s = Ok s' /\ same_unit s s' /\ same_language s s'.
Proof.
  intros Hh Hr. destruct h as [has off|g name low high hform origin inline|g ctx]; [by destruct Hr| |]; cbn [FinishDIE CuToModule];
    [|by eexists]. destruct Hh as [Hlow Hhigh]. eexists. split; [reflexivity|]. unfold Func_Finish.
  set (high' := if hform =? DW_FORM_addr then high else u64 (high + low)).
  assert (Hh': fits 64 high') by (unfold high'; destruct (hform =? _); [done|apply u64_fits]). clearbody high'.
  destruct (low <? high') eqn:E; breflect.
  - assert (Hadd: forall n s, n <> [] -> low <> 0 ->
      same_unit s (with_cu_functions (cu_functions s ++ [mkMFunction n low (high' - low) 0 []]) s)).
    { intros n s0 Hn Hl. split; try done. eexists. split; [reflexivity|]. constructor; [|done]. unfold func_ok, proper_range, fits in *. cbn. split_and!; try done; lia. }
    destruct name as [|c name]; destruct (Z.eqb_spec low 0) as [|Hne]; (split; [|done || (split; reflexivity)]); auto with unit.
    all: try (by apply Hadd). etrans; [apply (same_unit_warn [UnnamedFunction (generic_offset g)])|]. by apply Hadd.
  - destruct inline; auto with unit.
Qed.

(** *** Trees *)

Lemma visit_children_same h dies : 
  handler_fits h ->
  Forall (λ die, forall h s, handler_fits h -> ~ is_root h -> exists s', visit die h s = Ok s' /\ same_unit s s' /\ same_language s s') dies ->
  forall s, exists s', visit_children h dies s = Ok s' /\ same_unit s s' /\ same_language s s'.
Proof.
  intros Hh. induction 1 as [|[offset tag attributes children] dies Hd _ IH]; intros s; [exists s; split; [done|]; split; reflexivity|].
  cbn [visit_children visit_child]. destruct (FindChildHandler offset tag h s) as [h'|] eqn:E.
  - destruct (FindChildHandler_fits _ _ _ _ _ E) as [Hf Hr]. destruct (Hd h' s Hf Hr) as (s1 & -> & Hs1 & Hl1). rewrite bind_Ok.
    destruct (IH s1) as (s2 & -> & Hs2 & Hl2). exists s2. split; [done|]. split; by etrans.
  - rewrite bind_Ok. apply IH.
Qed.

Lemma visit_same die : die_fits die -> forall h s, handler_fits h -> ~ is_root h ->
  exists s', visit die h s = Ok s' /\ same_unit s s' /\ same_language s s'.
Proof.
  induction die as [offset tag attributes children IH] using DIE_induction. intros Hd h s Hh Hr.
  inversion Hd as [? ? ? ? Ha Hc]; subst. rewrite visit_eq.
  pose proof (process_attributes_same attributes h s Ha Hh) as H1. destruct (process_attributes attributes h s) as [h1 s1].
  destruct H1 as (Hf1 & Hs1 & Hr1 & Hl1). assert (Hr1': ~ is_root h1) by tauto.
  pose proof (EndAttributes_same h1 s1 Hf1 Hr1') as H2. destruct (EndAttributes h1 s1) as [[descend h2] s2]. destruct H2 as (Hf2 & Hr2 & Hs2 & Hl2).
  assert (Hkids: exists s3, (if descend then visit_children h2 children s2 else Ok s2) = Ok s3 /\ same_unit s2 s3 /\ same_language s2 s3).
  { destruct descend; [|exists s2; split; [done|]; split; reflexivity]. apply visit_children_same; [done|].
    rewrite Forall_forall in IH, Hc. apply Forall_forall. intros die Hin. apply IH; [done|by apply Hc]. }
  destruct Hkids as (s3 & -> & Hs3 & Hl3). rewrite bind_Ok. destruct (FinishDIE_same h2 s3 Hf2 Hr2) as (s4 & -> & Hs4 & Hl4).
  exists s4. split; [done|]. split; repeat (etrans; [eassumption || (by apply Hl1)|]); done.
Qed.

(** The children of the root. *)
Lemma visit_unit_children has_lines offset children s :
  Forall die_fits children -> exists s', visit_children (CuHandler has_lines offset) children s = Ok s' /\ same_unit s s' /\ same_language s s'.
Proof.
  intros Hc. apply visit_children_same; [done|]. eapply Forall_impl; [exact Hc|]. intros die Hd. by apply visit_same.
Qed.

(** *** The module *)

Lemma AddFunctions_built fs : forall m,
  Forall (λ f, mfunc_name f <> [] /\ forall l, l ∈ mfunc_lines f -> exists n, FindExistingFile m n = Some (mline_file l)) fs ->
  exists m', AddFunctions m fs = Ok m' /\ rtc build_step m m' /\ mod_files m' = mod_files m.
Proof.
  induction fs as [|f fs IH]; intros m Hf; [exists m; by split_and!|]. inversion Hf as [|? ? [Hn Hl] Hf']; subst. cbn [AddFunctions].
  destruct (AddFunction m f) as [m1| |] eqn:E; [|by unfold AddFunction in E; destruct (mfunc_name f)..].
  assert (Hfiles: mod_files m1 = mod_files m) by (unfold AddFunction in E; destruct (mfunc_name f); [done|]; injection E as <-; cbn; by dif).
  rewrite bind_Ok. destruct (IH m1) as (m' & E' & Hr & Hfiles').
  - eapply Forall_impl; [exact Hf'|]. intros g [Hg Hgl]. split; [done|]. unfold FindExistingFile. by rewrite Hfiles.
  - exists m'. split; [done|]. split; [|by rewrite Hfiles']. eapply rtc_l; [|exact Hr]. by eapply step_add_function.
Qed.

Lemma file_steps_built m m' : rtc file_step m m' -> rtc build_step m m'.
Proof. induction 1 as [|m1 m2 m3 [n ->] _ IH]; [done|]. eapply rtc_l; [apply step_find_file|done]. Qed.

(** What the end of a unit needs of the lines it reads. *)
Definition source_lines_read (has_lines : bool) (offset : Z) (s : CuState) : Prop :=
  has_lines = true -> exists x, ReadSourceLines offset s = Ok x.

Definition sections_ok (s : CuState) : Prop := forall name section, str_find (fc_section_map s) name = Some section -> Forall byte_ok section.

Lemma ReadSourceLines_ok offset s lines s' :
  sections_ok s -> str_sorted (mod_files (fc_module s)) -> ReadSourceLines offset s = Ok (lines, s') ->
  rtc file_step (fc_module s) (fc_module s') /\ lines_ok (fc_module s') lines /\ cu_functions s' = cu_functions s.
Proof.
  intros Hb Hs. unfold ReadSourceLines. assert (Hnil: forall m, lines_ok m []) by (split; [constructor|by intros l ?%not_elem_of_nil]).
  destruct (find_section s _ _) as [section|] eqn:E; [|intros [= <- <-]; by split_and!]. dif; [intros [= <- <-]; by split_and!|].
  assert (Hsec: Forall byte_ok (from section offset)).
  { assert (Forall byte_ok section) by (unfold find_section in E; destruct (str_find _ (lit ".debug_line")) as [x|] eqn:E1; [injection E as ->|]; by eapply Hb).
    unfold from. destruct (offset <? 0); [constructor|by apply Forall_drop]. }
  pose proof (ReadProgram_lines (line_byte_reader s) (line_compilation_dir s) (from section offset) (fc_module s) [] Hsec Hs (Hnil _)) as Hr.
  destruct (ReadProgram _ _ _ _ _) as [[[m ls] rd]| |]; [|done|done]. rewrite bind_Ok. intros [= <- <-].
  destruct (Hr _ eq_refl). by split_and!.
Qed.

Lemma cut_to_ok m lines b f f' :
  lines_ok m lines -> func_ok f -> cut_to lines b f f' ->
  mfunc_name f' <> [] /\ forall l, l ∈ mfunc_lines f' -> exists n, FindExistingFile m n = Some (mline_file l).
Proof.
  intros [_ Hcited] (Hn & _ & _ & Hl) (ps & -> & Hp & _). split; [done|]. cbn. rewrite Hl. cbn. intros l Hin. rewrite Forall_forall in Hp.
  destruct (Hp l Hin) as (_ & _ & _ & k & Hk & _ & _ & -> & _). by apply Hcited.
Qed.

(** The end of the unit. *)
Lemma Cu_Finish_built has_lines offset s :
  sections_ok s -> str_sorted (mod_files (fc_module s)) -> Forall func_ok (cu_functions s) -> source_lines_read has_lines offset s ->
  exists s', Cu_Finish has_lines offset s = Ok s' /\ rtc build_step (fc_module s) (fc_module s').
Proof.
  intros Hb Hs Hf Hread. unfold Cu_Finish. destruct (negb _); [by exists s|].
  assert (Hlines: exists lines s1, (if has_lines then ReadSourceLines offset s else Ok ([], s)) = Ok (lines, s1) /\
    rtc file_step (fc_module s) (fc_module s1) /\ lines_ok (fc_module s1) lines /\ cu_functions s1 = cu_functions s).
  { destruct has_lines.
    - destruct (Hread eq_refl) as [[lines s1] E]. exists lines, s1. split; [done|]. by apply (ReadSourceLines_ok offset).
    - exists [], s. split_and!; try done. split; [constructor|by intros l ?%not_elem_of_nil]. }
  destruct Hlines as (lines & s1 & -> & Hsteps & Hl & Hfs). rewrite bind_Ok, Hfs.
  destruct (assign_lines_cut_lemma (cu_functions s) lines) as (fs & ls & ws & -> & _ & gs & Hg & Hcut).
  { split; [|apply Hl]. apply Forall_fmap. eapply Forall_impl; [exact Hf|]. by intros f (_ & _ & ? & _). }
  rewrite bind_Ok. cbn [fc_module warn]. destruct (AddFunctions_built fs (fc_module s1)) as (m' & -> & Hr & _).
  { rewrite <- Hg in Hf. clear -Hf Hl Hcut. induction Hcut as [|f f' fs fs' Hc _ IH]; [constructor|]. inversion Hf; subst.
    constructor; [by eapply cut_to_ok|by apply IH]. }
  rewrite bind_Ok. eexists. split; [reflexivity|]. etrans; [by apply file_steps_built|].
  unfold ClearSpecifications. by destruct (fc_handle_inter_cu_refs _).
Qed.

(** The root's handler and the state when its attributes and children have been visited. *)
Definition before_finish (die : DIE) (s : CuState) : outcome (Handler * CuState) :=
  let '(mkDIE _ _ attributes children) := die in
  let '(h, s) := process_attributes attributes CuHandler_new s in
  s ← visit_children h children s; Ok (h, s).

Lemma before_finish_same die s :
  die_fits die -> exists has_lines offset s2, before_finish die s = Ok (CuHandler has_lines offset, s2) /\ same_unit s s2 /\
    visit die CuHandler_new s = Cu_Finish has_lines offset s2.
Proof.
  intros Hd. destruct die as [o tag attributes children]. inversion Hd as [? ? ? ? Ha Hc]; subst. rewrite visit_eq. unfold before_finish.
  pose proof (process_attributes_same attributes CuHandler_new s Ha I) as H1. destruct (process_attributes attributes CuHandler_new s) as [h1 s1].
  destruct H1 as (_ & Hs1 & Hr1 & _). destruct h1 as [has off| |]; [|by destruct (proj1 Hr1 I)..]. cbn [EndAttributes CuToModule].
  destruct (visit_unit_children has off children s1 Hc) as (s2 & -> & Hs2 & _). exists has, off, s2. rewrite !bind_Ok. split_and!; [done|by etrans|done].
Qed.

(** Visiting the DIEs of a compilation unit, whatever they are and whatever the sections
    hold, ends without a failed assertion -- when the unit's line number program, if it has
    one, can be read -- and what it does to the module are calls that a client of [Module]
    may make: the files and the functions it adds keep the module's invariants. *)
Lemma unit_built (die : DIE) (s : CuState) :
  die_fits die -> sections_ok s -> built (fc_module s) -> cu_functions s = [] ->
  exists has_lines offset s2,
    before_finish die s = Ok (CuHandler has_lines offset, s2) /\
    (source_lines_read has_lines offset s2 -> exists s', visit_root CuHandler_new die s = Ok s' /\ built (fc_module s')).
Proof.
  intros Hd Hb Hm Hf. destruct (before_finish_same die s Hd) as (has & off & s2 & E & Hsu & Ev). exists has, off, s2. split; [done|]. intros Hread.
  destruct die as [o tag attributes children]. unfold visit_root. destruct (StartRootDIE o tag CuHandler_new s); [rewrite Ev|by exists s].
  pose proof Hsu as [Em Es _ _ (fs & Efs & Hfs)]. rewrite Hf in Efs. cbn in Efs.
  destruct (Cu_Finish_built has off s2) as (s3 & -> & Hr).
  - unfold sections_ok. by rewrite Es.
  - rewrite Em. apply (do_files _ (built_ok _ Hm)).
  - by rewrite Efs.
  - done.
  - exists s3. split; [done|]. destruct Hm as (n & os & a & i & c & Hm). exists n, os, a, i, c. etrans; [exact Hm|]. by rewrite <- Em.
Qed.
End invariant.

(** No name can be demangled. *)
#[export] Instance NoDemangler : Demangler := {| cxa_demangle _ := None |}.

Definition demo_cu_state : CuState :=
  mkCuState (DumpModule_new (lit "a.out") (lit "Linux") (lit "x86_64") (lit "000") []) true [] [] ∅ ∅ CPlusPlus [] 0 [] [] [] (ByteReader_new ENDIANNESS_LITTLE).

(** void f() {} in a unit without line numbers. *)
Definition demo_unit_die : DIE :=
  mkDIE 0x0b DW_TAG_compile_unit [(DW_AT_name, DW_FORM_string, AttrString (lit "a.cc"))]
    [mkDIE 0x10 DW_TAG_subprogram
       [(DW_AT_name, DW_FORM_string, AttrString (lit "f")); (DW_AT_low_pc, DW_FORM_addr, AttrUnsigned 0x1000);
        (DW_AT_high_pc, DW_FORM_addr, AttrUnsigned 0x1020)] []].

Lemma unit_built_witness :
  exists s', visit_root CuHandler_new demo_unit_die demo_cu_state = Ok s' /\ built (fc_module s') /\
    mod_functions (fc_module s') = [mkMFunction (lit "f") 0x1000 0x20 0 []].
Proof.
  destruct (unit_built demo_unit_die demo_cu_state) as (has & off & s2 & E & Hb).
  - repeat first [apply die_fits_intro|apply Forall_cons_2|apply Forall_nil_2]; try exact I; by split.
  - intros name section Hs. discriminate Hs.
  - do 5 eexists. apply rtc_refl.
  - reflexivity.
  - destruct Hb as (s' & E' & Hm).
    + assert (has = false) as -> by (vm_compute in E; by injection E). discriminate.
    + exists s'. split_and!; [exact E'|exact Hm|]. clear Hm. vm_compute in E'. injection E' as <-. reflexivity.
Defined.
