(* ===== verification/DwarfFile.v ===== *)
(** common/linux/dump_symbols.cc: [LoadDwarf], which reads every compilation unit of a
    .debug_info section into a [Module]; and that it visits the DIEs of each. *)
From Stdlib Require Import Ascii.
From stdpp Require Import strings list gmap relations.
From S2P Require Import Prelude StdMap CStr StrMap Memory ByteReader CallFrameInfo LineInfo LineProgram SymbolFile DumpModule DumpLoad LineToModule LineAssign LineBounds DwarfEnums DieHandler CompilationUnit DwpReader UnitTree UnitRead CuToModule CuFunctions.

(** ** [LoadDwarf] *)

Abbreviation CuDispatcher := (DIEDispatcher Handler CuState).

(** The byte reader is the one that reads the lines. *)
#[export] Instance DispatcherStore : ReaderStore CuDispatcher := {|
  reader_of d := line_byte_reader (shared d);
  set_reader r d := mkDispatcher (die_handlers d) (root_handler d) (with_byte_reader r (shared d));
  reader_of_set r d := eq_refl
|}.

(** A new [WarningReporter] and [DwarfCUToModule] for the unit at an offset; the line reader,
    and with it the compilation directory, are the file's. *)
Definition new_unit (offset : Z) (s : CuState) : CuState :=
  mkCuState (fc_module s) (fc_handle_inter_cu_refs s) (fc_section_map s) (fc_common_strings s) (fc_specifications s) (fc_origins s) CPlusPlus [] offset []
    (cu_warnings s) (line_compilation_dir s) (line_byte_reader s).

Section load.
Context `{Demangler} `{StdSort}.
Context `{Files} (dwarf_filename : cstring).

Definition read_unit (offset : Z) (s : CuState) : outcome (Z * CuState) :=
  '(size, d) ← Start (λ _, true) (split_dwarf dwarf_filename) (fc_section_map s) (CompilationUnit_new offset) (mkDispatcher [] CuHandler_new (new_unit offset s));
  Ok (size, shared d).

(** The loop over the units; each takes some bytes. *)
Fixpoint units_loop (fuel : nat) (offset debug_info_length : Z) (s : CuState) : outcome CuState :=
  if offset <? debug_info_length then
    match fuel with
    | O => Undefined
    | S fuel => '(size, s) ← read_unit offset s; units_loop fuel (u64 (offset + size)) debug_info_length s
    end
  else Ok s.

(** The [ByteReader], the [FileContext] and the line reader of a file. *)
Definition file_reader (big_endian : bool) : ByteReader := ByteReader_new (if big_endian then ENDIANNESS_BIG else ENDIANNESS_LITTLE).
Definition file_state (big_endian : bool) (sections : strmap (list Z)) (handle_inter_cu_refs : bool) (module : DumpModule) : CuState :=
  mkCuState module handle_inter_cu_refs sections [] ∅ ∅ CPlusPlus [] 0 [] [] [] (file_reader big_endian).

Definition LoadDwarf (big_endian : bool) (sections : strmap (list Z)) (handle_inter_cu_refs : bool) (module : DumpModule) : outcome CuState :=
  debug_info ← non_null (str_find sections (lit ".debug_info"));
  units_loop (length debug_info) 0 (Z.of_nat (length debug_info)) (file_state big_endian sections handle_inter_cu_refs module).

(** ** The byte reader *)

(** The same reader, with other sizes. *)
Definition resized (r r' : ByteReader) : Prop := exists address_size offset_size, r' = with_address_size (with_offset_size r offset_size) address_size.

#[export] Instance resized_preorder : PreOrder resized.
Proof.
  split.
  - intros r. exists (address_size_ r), (offset_size_ r). by destruct r.
  - intros r1 r2 r3 (a & o & ->) (a' & o' & ->). by exists a', o'.
Qed.

Lemma resized_offset r size : resized r (with_offset_size r size).
Proof. exists (address_size_ r), size. by destruct r. Qed.

Lemma reader_for_resized r r' dwarf64 h : resized r r' -> reader_for r' dwarf64 h = reader_for r dwarf64 h.
Proof. by intros (a & o & ->). Qed.

Lemma ReadInitialLength_resized r section p : ensures (ReadInitialLength r section p) (λ '(_, _, r'), resized r r').
Proof.
  unfold ReadInitialLength. ensures_step. destruct (_ =? _).
  - change (SetOffsetSize r 8) with (Ok (with_offset_size r 8)). rewrite bind_Ok. ensures_step. apply ensures_Ok, resized_offset.
  - change (SetOffsetSize r 4) with (Ok (with_offset_size r 4)). rewrite bind_Ok. apply ensures_Ok, resized_offset.
Qed.

Lemma ReadHeader_resized {T} `{LineInfoHandler T} section r (h : T) : ensures (ReadHeader section r h) (λ '(_, _, r', _), resized r r').
Proof.
  unfold ReadHeader. eapply ensures_bind; [apply ReadInitialLength_resized|]. intros [[n p] r'] Hr. cbn beta iota.
  destruct (_ || _); [done|]. repeat ensures_step. exact Hr.
Qed.

Lemma ReadProgram_resized r dir program m lines : ensures (ReadProgram r dir program m lines) (λ '(_, _, r'), resized r r').
Proof.
  unfold ReadProgram, LineInfo_Start. eapply (ensures_bind _ _ (λ '(_, r', _), resized r r')).
  - eapply ensures_bind; [apply ReadHeader_resized|]. intros [[[h a] r'] x] Hr. cbn beta iota. ensures_step. ensures_step. by apply ensures_Ok.
  - intros [[n r'] h] Hr. by apply ensures_Ok.
Qed.

Lemma Cu_Finish_reader has_lines offset s : ensures (Cu_Finish has_lines offset s) (λ s', resized (line_byte_reader s) (line_byte_reader s')).
Proof.
  unfold Cu_Finish. destruct (negb _); [apply ensures_Ok; reflexivity|].
  eapply (ensures_bind _ _ (λ '(_, s'), resized (line_byte_reader s) (line_byte_reader s'))).
  - destruct has_lines; [|apply ensures_Ok; reflexivity]. unfold ReadSourceLines.
    destruct (find_section _ _ _) as [section|]; [|apply ensures_Ok; reflexivity]. dif; [apply ensures_Ok; reflexivity|].
    eapply ensures_bind; [apply ReadProgram_resized|]. intros [[m ls] r'] Hr. by apply ensures_Ok.
  - intros [ls s1] Hr. cbn beta iota. do 2 ensures_step. ensures_step. ensures_step. apply ensures_Ok.
    unfold ClearSpecifications. by destruct (fc_handle_inter_cu_refs _).
Qed.

(** ** What the dispatcher keeps *)

Lemma ProcessAttribute_reader attr form value h s :
  let '(h', s') := ProcessAttribute attr form value h s in line_byte_reader s' = line_byte_reader s /\ (is_root h <-> is_root h').
Proof.
  destruct h as [has off|g name low high hform origin inline|g ctx]; cbn [ProcessAttribute CuToModule].
  - unfold Cu_ProcessAttribute. by destruct value; repeat dif.
  - unfold Func_ProcessAttribute. destruct value as [data|data|data|data|data|data]; repeat dif; try done.
    + by destruct (fc_origins s !! data).
    + pose proof (reference_same attr data g s) as Hs. destruct (Generic_ProcessAttributeReference attr data g s) as [g' s']. destruct Hs as [[] _]. done.
    + pose proof (string_same attr data g s) as Hs. destruct (Generic_ProcessAttributeString attr data g s) as [g' s']. destruct Hs as [[] _]. done.
  - unfold Scope_ProcessAttribute. destruct value as [data|data|data|data|data|data]; try done.
    + pose proof (reference_same attr data g s) as Hs. destruct (Generic_ProcessAttributeReference attr data g s) as [g' s']. destruct Hs as [[] _]. done.
    + pose proof (string_same attr data g s) as Hs. destruct (Generic_ProcessAttributeString attr data g s) as [g' s']. destruct Hs as [[] _]. done.
Qed.

Lemma EndAttributes_reader h s :
  let '(descend, h', s') := EndAttributes h s in descend = true /\ line_byte_reader s' = line_byte_reader s /\ (is_root h <-> is_root h').
Proof.
  destruct h as [has off|g name low high hform origin inline|g ctx]; cbn [EndAttributes CuToModule]; [done| |].
  - unfold Func_EndAttributes. pose proof (ComputeQualifiedName_same g s) as Hs. destruct (ComputeQualifiedName g s) as [n s']. destruct Hs as [[] _]. done.
  - unfold Scope_EndAttributes. pose proof (ComputeQualifiedName_same g s) as Hs. destruct (ComputeQualifiedName g s) as [n s']. destruct Hs as [[] _]. done.
Qed.

Lemma FinishDIE_reader h s : ~ is_root h -> ensures (FinishDIE h s) (λ s', line_byte_reader s' = line_byte_reader s).
Proof.
  intros Hr. destruct h as [has off|g name low high hform origin inline|g ctx]; [by destruct Hr| |]; cbn [FinishDIE CuToModule]; apply ensures_Ok; [|done].
  unfold Func_Finish. destruct (_ <? _); [|by dif]. destruct name as [|c name]; by dif.
Qed.

(** The root's entry is at the bottom of the stack, and no other handler is a unit's. *)
Definition inner (e : HandlerEntry Handler) : Prop := match entry_handler e with Some h => ~ is_root h | None => True end.

Definition reading (r : ByteReader) (root : Z) (d : CuDispatcher) : Prop :=
  (exists l h reported, die_handlers d = l ++ [mkHandlerEntry root h reported] /\ Forall inner l) /\ line_byte_reader (shared d) = r.

Lemma Ok_inj {A} (a b : A) : Ok a = Ok b -> a = b.
Proof. congruence. Qed.

Lemma push_reading r root offset tag l h reported rt s b d :
  Forall inner l -> line_byte_reader s = r ->
  Ok (push_handler offset tag (mkDispatcher (l ++ [mkHandlerEntry root h reported]) rt s)) = Ok (b, d) -> reading r root d.
Proof.
  intros Hl Hr E%Ok_inj. apply (f_equal snd) in E. cbn [snd] in E. subst d. unfold push_handler, reading. cbn [die_handlers root_handler shared snd]. split; [|done].
  assert (Hparent: exists p rest, l ++ [mkHandlerEntry root h reported] = p :: rest) by (destruct l as [|p l]; eexists _, _; reflexivity).
  destruct Hparent as (p & rest & E). rewrite E.
  destruct (h' ← entry_handler p; FindChildHandler offset tag h' s) as [h1|] eqn:Ef.
  - exists (mkHandlerEntry offset (Some h1) false :: l), h, reported. split; [by rewrite <- E|]. constructor; [|done].
    destruct (entry_handler p) as [h0|]; [|done]. by apply FindChildHandler_fits in Ef as [_ ?].
  - destruct (entry_handler p); [|by exists l, h, reported; rewrite <- E].
    exists (mkHandlerEntry offset None false :: l), h, reported. split; [by rewrite <- E|]. by constructor.
Qed.

Lemma start_reading r root offset tag d b d' : reading r root d -> dispatch_StartDIE offset tag d = Ok (b, d') -> reading r root d'.
Proof.
  intros [(l & h & reported & El & Hl) Hr]. destruct d as [stack rt s]. cbn [die_handlers shared] in *. subst stack.
  unfold dispatch_StartDIE. cbn [die_handlers shared root_handler]. destruct l as [|[o [h1|] rep] l]; cbn [app] in *.
  - destruct h as [h1|]; [|by apply (push_reading r root offset tag [])]. destruct reported; [by apply (push_reading r root offset tag [])|].
    pose proof (EndAttributes_reader h1 s) as He. destruct (EndAttributes h1 s) as [[descend h2] s2]. destruct He as (-> & Hr2 & Hroot).
    apply (push_reading r root offset tag []); [done|congruence].
  - destruct rep; [by apply (push_reading r root offset tag (mkHandlerEntry o (Some h1) true :: l))|].
    pose proof (EndAttributes_reader h1 s) as He. destruct (EndAttributes h1 s) as [[descend h2] s2]. destruct He as (-> & Hr2 & Hroot).
    inversion Hl as [|? ? Hi Hl']; subst. apply (push_reading _ root offset tag (mkHandlerEntry o (Some h2) true :: l)); [|congruence].
    constructor; [|done]. unfold inner in *. cbn [entry_handler] in *. tauto.
  - by apply (push_reading r root offset tag (mkHandlerEntry o None rep :: l)).
Qed.

Lemma attribute_reading r root offset attr form value d d' : reading r root d -> dispatch_Attribute offset attr form value d = Ok d' -> reading r root d'.
Proof.
  intros [(l & h & reported & El & Hl) Hr]. destruct d as [stack rt s]. cbn [die_handlers shared] in *. subst stack.
  unfold dispatch_Attribute. cbn [die_handlers shared root_handler]. destruct l as [|[o [h1|] rep] l]; cbn [app] in *; [destruct h as [h1|]; [|done]| |done];
    (destruct (_ =? _); [|done]); pose proof (ProcessAttribute_reader attr form value h1 s) as Hp;
    destruct (ProcessAttribute attr form value h1 s) as [h2 s2]; destruct Hp as [Hr2 Hroot]; intros <-%Ok_inj; unfold reading; cbn [die_handlers shared].
  - split; [|congruence]. by exists [], (Some h2), reported.
  - inversion Hl as [|? ? Hi Hl']; subst. split; [|done]. exists (mkHandlerEntry o (Some h2) rep :: l), h, reported. split; [done|].
    constructor; [|done]. unfold inner in *. cbn [entry_handler] in *. tauto.
Qed.

Lemma end_reading r root offset d d' : reading r root d -> offset <> root -> dispatch_EndDIE offset d = Ok d' -> reading r root d'.
Proof.
  intros [(l & h & reported & El & Hl) Hr] Hne. destruct d as [stack rt s]. cbn [die_handlers shared] in *. subst stack.
  unfold dispatch_EndDIE. cbn [die_handlers shared root_handler]. destruct l as [|[o [h1|] rep] l]; cbn [app].
  - rewrite (proj2 (Z.eqb_neq root offset)) by congruence. destruct h; [done|]. intros <-%Ok_inj. split; [|done]. by exists [], None, reported.
  - inversion Hl as [|? ? Hi Hl']; subst. destruct (o =? offset); [|done]. unfold inner in Hi. cbn [entry_handler] in Hi.
    destruct (if rep then (h1, s) else let '(_, h, s) := EndAttributes h1 s in (h, s)) as [h2 s2] eqn:E.
    assert (H2: line_byte_reader s2 = line_byte_reader s /\ ~ is_root h2).
    { destruct rep; [by injection E as <- <-|]. pose proof (EndAttributes_reader h1 s) as He. destruct (EndAttributes h1 s) as [[descend h3] s3].
      injection E as <- <-. destruct He as (_ & ? & ?). tauto. }
    destruct H2 as [Hr2 Hi2]. pose proof (FinishDIE_reader h2 s2 Hi2) as Hfin. destruct (FinishDIE h2 s2) as [s3| |]; [|done|done]. rewrite bind_Ok.
    specialize (Hfin s3 eq_refl). cbn beta in Hfin. intros <-%Ok_inj. split; [|cbn; congruence]. by exists l, h, reported.
  - inversion Hl as [|? ? Hi Hl']; subst. intros <-%Ok_inj. destruct (o =? offset); (split; [|done]).
    + by exists l, h, reported.
    + by exists (mkHandlerEntry o None rep :: l), h, reported.
Qed.

Lemma dispatcher_keeps r root : keeps_reader r root (reading r root).
Proof.
  split.
  - by intros d [_ Hr].
  - intros offset tag d b d'. apply start_reading.
  - intros offset attr form value d d'. apply attribute_reading.
  - intros offset d d'. apply end_reading.
Qed.

(** ** A unit *)

(** The values of a tree fit. *)
Lemma field_fits r u f :
  (address_size_ r = 4 \/ address_size_ r = 8) -> (offset_size_ r = 4 \/ offset_size_ r = 8) ->
  field_ok r u f -> match field_value u f with AttrUnsigned n => fits 64 n | _ => True end.
Proof.
  intros Ha Ho. assert (Hn: forall form n, fits 64 n -> match number_value u form n with AttrUnsigned n => fits 64 n | _ => True end)
    by (intros form n Hn; unfold number_value; by repeat dif).
  induction f as [form n|form n|n| |form data|str|o str|index o str|index n|f IH]; cbn [field_value field_ok]; try done.
  - intros (k & E & Hf). apply Hn. pose proof (number_size_cases r u Ha Ho form k E) as Hk. unfold fits in *.
    assert (8 * k <= 64) by (set_unfold; lia). assert (0 <= 8 * k) by (set_unfold; lia).
    pose proof (Z.pow_le_mono_r 2 (8 * k) 64). lia.
  - intros [_ Hf]. by apply Hn.
  - intros (_ & _ & Hf & _). unfold fits in *. destruct Ha as [E|E]; rewrite E in Hf; lia.
Qed.

Lemma attributes_fit r u attributes fields :
  (address_size_ r = 4 \/ address_size_ r = 8) -> (offset_size_ r = 4 \/ offset_size_ r = 8) ->
  Forall2 (field_of r u) attributes fields ->
  Forall attr_fits (zip_with (λ '(attr, _) f, (attr, reported_form f, field_value u f)) attributes fields).
Proof.
  intros Ha Ho. induction 1 as [|[attr form] f attributes fields (_ & _ & Hok) _ IH]; [constructor|]. cbn [zip_with]. constructor; [|done].
  unfold attr_fits. cbn [snd]. pose proof (field_fits r u f Ha Ho Hok). by destruct (field_value u f).
Qed.

Lemma dies_fit r u dies : Forall (λ die, forall p, die_fits (die_at r u p die)) dies -> forall p, Forall die_fits (dies_at r u p dies).
Proof. induction 1 as [|die dies Hd _ IH]; intros p; [constructor|]. cbn [dies_at]. by constructor. Qed.

Lemma tree_fits r u abbrevs die :
  (address_size_ r = 4 \/ address_size_ r = 8) -> (offset_size_ r = 4 \/ offset_size_ r = 8) ->
  unit_die_ok r u abbrevs die -> forall p, die_fits (die_at r u p die).
Proof.
  intros Ha Ho. induction die as [number abbrev fields children IH] using UnitDie_induction. intros Hok p.
  inversion Hok as [? ? ? ? _ _ _ Hf _ Hch]; subst. rewrite die_at_eq. constructor; [by eapply attributes_fit|].
  apply dies_fit. rewrite Forall_forall in IH, Hch. apply Forall_forall. intros x Hx q. by apply IH, Hch.
Qed.

(** The reader and the sections after a unit. *)
Definition same_file (s s' : CuState) : Prop := resized (line_byte_reader s) (line_byte_reader s') /\ fc_section_map s' = fc_section_map s.

Lemma Cu_Finish_sections has_lines offset s : ensures (Cu_Finish has_lines offset s) (λ s', fc_section_map s' = fc_section_map s).
Proof.
  unfold Cu_Finish. destruct (negb _); [by apply ensures_Ok|].
  eapply (ensures_bind _ _ (λ '(_, s'), fc_section_map s' = fc_section_map s)).
  - destruct has_lines; [|by apply ensures_Ok]. unfold ReadSourceLines.
    destruct (find_section _ _ _) as [section|]; [|by apply ensures_Ok]. dif; [by apply ensures_Ok|].
    eapply ensures_any. intros [[m ls] r']. by apply ensures_Ok.
  - intros [ls s1] Hr. cbn beta iota. do 2 ensures_step. ensures_step. ensures_step. apply ensures_Ok.
    unfold ClearSpecifications. by destruct (fc_handle_inter_cu_refs _).
Qed.

Lemma visit_root_file die s : die_fits die -> ensures (visit_root CuHandler_new die s) (same_file s).
Proof.
  intros Hd. destruct (before_finish_same die s Hd) as (has & off & s2 & _ & Hs & Ev). destruct die as [o tag attributes children].
  unfold visit_root. destruct (StartRootDIE o tag CuHandler_new s); [|by apply ensures_Ok]. rewrite Ev. intros s' E.
  pose proof (Cu_Finish_reader has off s2 s' E) as Hr. pose proof (Cu_Finish_sections has off s2 s' E) as Hm. cbn beta in Hr, Hm.
  destruct Hs as [_ Hsec _ Hrd _]. split; [by rewrite <- Hrd|congruence].
Qed.

(** A unit of the file. *)
Record FileUnit := mkFileUnit { fu_dwarf64 : bool; fu_header : UnitHeader; fu_table : list Abbrev; fu_die : UnitDie; fu_padding : nat }.

Section units.
Context (sections : strmap (list Z)) (r : ByteReader).

Definition fu_reader (f : FileUnit) : ByteReader := reader_for r (fu_dwarf64 f) (fu_header f).
Definition fu_unit (offset : Z) (f : FileUnit) : CompilationUnit := unit_of sections offset (fu_dwarf64 f) (fu_header f) (fu_table f).
Definition fu_size (offset : Z) (f : FileUnit) : Z := Z.of_nat (length (whole_unit (fu_reader f) (fu_unit offset f) (fu_dwarf64 f) (fu_die f) (fu_padding f))).
Definition fu_tree (offset : Z) (f : FileUnit) : DIE := die_at (fu_reader f) (fu_unit offset f) (header_size (fu_dwarf64 f)) (fu_die f).
Definition fu_laid_out (offset : Z) (f : FileUnit) : Prop :=
  unit_laid_out sections offset r (fu_dwarf64 f) (fu_header f) (fu_table f) (fu_die f) (fu_padding f).

(** Visiting its tree with a new root handler; a unit of DWARF 1 is not looked at. *)
Definition visit_unit (offset : Z) (f : FileUnit) (s : CuState) : outcome CuState :=
  let s := with_byte_reader (fu_reader f) (new_unit offset s) in
  if 2 <=? wrap 8 (unit_version (fu_header f)) then visit_root CuHandler_new (fu_tree offset f) s else Ok s.

(** The units one after the other, from an offset to the end of the section. *)
Fixpoint units_at (offset : Z) (fs : list FileUnit) (section_end : Z) : Prop :=
  match fs with
  | [] => offset = section_end
  | f :: fs => fu_laid_out offset f /\ units_at (offset + fu_size offset f) fs section_end
  end.

Fixpoint visit_units (offset : Z) (fs : list FileUnit) (s : CuState) : outcome CuState :=
  match fs with
  | [] => Ok s
  | f :: fs => s ← visit_unit offset f s; visit_units (offset + fu_size offset f) fs s
  end.
End units.

Lemma read_unit_holds offset f s :
  fu_laid_out (fc_section_map s) (line_byte_reader s) offset f ->
  read_unit offset s =
  s' ← visit_unit (fc_section_map s) (line_byte_reader s) offset f s; Ok (fu_size (fc_section_map s) (line_byte_reader s) offset f, s').
Proof.
  intros Hlo. unfold read_unit. set (d := mkDispatcher [] CuHandler_new (new_unit offset s)).
  pose proof (die_inside _ _ _ _ (lo_die _ _ _ _ _ _ _ _ Hlo) (header_size (fu_dwarf64 f))) as [Hnd _].
  rewrite (Start_holds (fc_section_map s) offset (line_byte_reader s) _ _ _ _ _ Hlo (reading (fu_reader (line_byte_reader s) f) (header_size (fu_dwarf64 f) + offset))).
  - change (OnCompilationUnit offset ?a ?b ?c ?v ?x) with (2 <=? v). unfold visit_unit, fu_size, fu_unit, fu_reader.
    destruct (2 <=? wrap 8 (unit_version (fu_header f))); [|done].
    change (set_reader ?x d) with (mkDispatcher [] CuHandler_new (with_byte_reader x (new_unit offset s))).
    rewrite (report_root _ CuHandler_new _ Hnd). unfold fu_tree, fu_unit, fu_reader. by destruct (visit_root _ _ _).
  - apply dispatcher_keeps.
  - done.
  - intros b d' E%Ok_inj. apply (f_equal snd) in E. cbn [snd] in E. subst d'. unfold push_handler. cbn. split; [|done].
    destruct (_ =? _); by eexists [], _, _.
Qed.

Lemma visit_unit_file offset f s :
  fu_laid_out (fc_section_map s) (line_byte_reader s) offset f ->
  ensures (visit_unit (fc_section_map s) (line_byte_reader s) offset f s) (same_file s).
Proof.
  intros Hlo. unfold visit_unit. assert (Hnew: same_file s (with_byte_reader (fu_reader (line_byte_reader s) f) (new_unit offset s))).
  { split; [|done]. cbn [line_byte_reader with_byte_reader]. eexists _, _. reflexivity. }
  destruct (2 <=? _); [|by apply ensures_Ok]. eapply ensures_weaken; [apply visit_root_file|].
  - destruct Hlo as [_ _ _ _ Ha _ _ Hok]. apply (tree_fits (fu_reader (line_byte_reader s) f) _ (Abbrev_default :: fu_table f)); [exact Ha| |exact Hok].
    unfold fu_reader. destruct (fu_dwarf64 f); [by right|by left].
  - intros s' [Hr Hm]. destruct Hnew as [Hr0 Hm0]. split; [by etrans|congruence].
Qed.

(** Only the sizes of the reader change. *)
Lemma laid_out_resized sections r r' offset f : resized r r' -> fu_laid_out sections r offset f -> fu_laid_out sections r' offset f.
Proof.
  intros Hr [(info & Hi) Hl H32 Hv Ha Ho Ht Hd]. pose proof (reader_for_resized r r' (fu_dwarf64 f) (fu_header f) Hr) as E.
  split; rewrite ?E; try assumption. by exists info.
Qed.

Lemma units_at_resized sections r r' fs : resized r r' -> forall offset e, units_at sections r offset fs e -> units_at sections r' offset fs e.
Proof.
  intros Hr. induction fs as [|f fs IH]; intros offset e; [done|]. cbn [units_at]. intros [Hlo Hfs]. split; [by eapply laid_out_resized|].
  unfold fu_size, fu_reader in *. rewrite (reader_for_resized r r' _ _ Hr). by apply IH.
Qed.

Lemma visit_units_resized sections r r' fs : resized r r' -> forall offset s, visit_units sections r' offset fs s = visit_units sections r offset fs s.
Proof.
  intros Hr. induction fs as [|f fs IH]; intros offset s; [done|]. cbn [visit_units]. unfold visit_unit, fu_tree, fu_size, fu_reader.
  rewrite (reader_for_resized r r' _ _ Hr). destruct (if _ <=? _ then _ else _); [|done|done]. cbn [mbind outcome_bind]. apply IH.
Qed.

Lemma fu_size_pos sections r offset f : fu_laid_out sections r offset f -> 0 < fu_size sections r offset f.
Proof.
  intros Hlo. unfold fu_size, fu_unit, fu_reader. rewrite (whole_length _ _ _ _ _ _ _ _ Hlo), (unit_end_length _ _ _ _ _ _ _ _ Hlo).
  match goal with |- context[die_size ?x ?y ?z] => pose proof (die_bytes_length x y z) end. destruct (fu_dwarf64 f); cbn [header_size]; lia.
Qed.

Lemma units_at_end sections r fs : forall offset e, units_at sections r offset fs e -> offset + Z.of_nat (length fs) <= e.
Proof.
  induction fs as [|f fs IH]; intros offset e; cbn [units_at length]; [lia|]. intros [Hlo Hfs]. pose proof (fu_size_pos _ _ _ _ Hlo). specialize (IH _ _ Hfs). lia.
Qed.

Lemma units_loop_holds sections r fs : forall fuel offset e s,
  units_at sections r offset fs e -> 0 <= offset -> e < 2 ^ 63 -> (length fs <= fuel)%nat -> fc_section_map s = sections -> resized r (line_byte_reader s) ->
  units_loop fuel offset e s = visit_units sections r offset fs s.
Proof.
  induction fs as [|f fs IH]; intros fuel offset e s Hat Ho He Hf Hs Hr.
  - cbn [units_at visit_units] in *. subst e. destruct fuel; cbn [units_loop]; by rewrite Z.ltb_irrefl.
  - destruct fuel as [|fuel]; [cbn in Hf; lia|]. cbn [units_at visit_units units_loop] in *. destruct Hat as [Hlo Hat].
    pose proof (fu_size_pos _ _ _ _ Hlo) as Hpos. pose proof (units_at_end _ _ _ _ _ Hat) as Hend. rewrite (proj2 (Z.ltb_lt _ _)) by lia.
    assert (Hlo': fu_laid_out (fc_section_map s) (line_byte_reader s) offset f) by (rewrite Hs; by eapply laid_out_resized).
    rewrite (read_unit_holds offset f s Hlo'). pose proof (visit_unit_file offset f s Hlo') as Hfile. rewrite Hs in *.
    assert (Ev: visit_unit sections (line_byte_reader s) offset f s = visit_unit sections r offset f s)
      by (unfold visit_unit, fu_tree, fu_reader; by rewrite (reader_for_resized r _ _ _ Hr)).
    assert (Es: fu_size sections (line_byte_reader s) offset f = fu_size sections r offset f)
      by (unfold fu_size, fu_reader; by rewrite (reader_for_resized r _ _ _ Hr)).
    rewrite Ev, Es in *. destruct (visit_unit sections r offset f s) as [s'| |]; [|done|done]. cbn [mbind outcome_bind].
    destruct (Hfile s' eq_refl) as [Hr' Hs']. unfold u64. rewrite wrap_small by (unfold fits; lia).
    apply IH; [done|lia|lia|cbn in Hf; lia|congruence|by etrans].
Qed.

(** ** The module *)

Lemma Cu_Finish_module has_lines offset s :
  sections_ok s -> built (fc_module s) -> Forall func_ok (cu_functions s) -> ensures (Cu_Finish has_lines offset s) (λ s', built (fc_module s')).
Proof.
  intros Hb Hm Hf s' E. destruct (HasFunctions (cu_language s)) eqn:El; [|unfold Cu_Finish in E; rewrite El in E; by injection E as <-].
  assert (Hread: source_lines_read has_lines offset s).
  { intros ->. unfold Cu_Finish in E. rewrite El in E. cbn [negb] in E. destruct (ReadSourceLines offset s) as [x| |]; [by exists x|done|done]. }
  destruct (Cu_Finish_built has_lines offset s Hb (do_files _ (built_ok _ Hm)) Hf Hread) as (s2 & E2 & Hr). rewrite E in E2. injection E2 as <-.
  destruct Hm as (n & os & a & i & c & Hm). exists n, os, a, i, c. by etrans.
Qed.

Lemma visit_root_module die s :
  die_fits die -> sections_ok s -> built (fc_module s) -> cu_functions s = [] -> ensures (visit_root CuHandler_new die s) (λ s', built (fc_module s')).
Proof.
  intros Hd Hb Hm Hf. destruct (before_finish_same die s Hd) as (has & off & s2 & _ & [Em Es _ _ (fs & Efs & Hfs)] & Ev). destruct die as [o tag attributes children].
  unfold visit_root. destruct (StartRootDIE o tag CuHandler_new s); [|by apply ensures_Ok]. rewrite Ev. apply Cu_Finish_module.
  - unfold sections_ok. by rewrite Es.
  - by rewrite Em.
  - by rewrite Efs, Hf.
Qed.

Lemma visit_units_module sections r fs : forall offset e s,
  units_at sections r offset fs e -> fc_section_map s = sections -> sections_ok s -> built (fc_module s) ->
  ensures (visit_units sections r offset fs s) (λ s', built (fc_module s')).
Proof.
  induction fs as [|f fs IH]; intros offset e s Hat Hs Hb Hm; [by apply ensures_Ok|]. cbn [units_at visit_units] in *. destruct Hat as [Hlo Hat].
  assert (Hfit: die_fits (fu_tree sections r offset f)).
  { pose proof Hlo as [_ _ _ _ Ha _ _ Hok]. apply (tree_fits (fu_reader r f) _ (Abbrev_default :: fu_table f)); [exact Ha| |exact Hok].
    unfold fu_reader. destruct (fu_dwarf64 f); [by right|by left]. }
  eapply (ensures_bind _ _ (λ s', fc_section_map s' = sections /\ built (fc_module s'))).
  - unfold visit_unit. destruct (2 <=? _); [|by apply ensures_Ok]. intros s' E. split.
    + pose proof (visit_root_file _ _ Hfit s' E) as [_ Hm']. by rewrite Hm'.
    + by apply (visit_root_module _ _ Hfit) in E.
  - intros s' [Hs' Hm']. apply (IH _ e); [done|done| |done]. unfold sections_ok in *. by rewrite Hs', <- Hs.
Qed.

(** C13: reading the DWARF of a file whose .debug_info section is made of compilation units one
    after the other, in either byte order, is visiting the tree of each in turn with a new
    root handler: no unit is missed or read twice, and none disturbs the reading of the next
    by what its line numbers do to the byte reader they share.  And whatever the units say,
    when it succeeds the module is one a client of [Module] could have built. *)
Theorem load_dwarf (big_endian : bool) (sections : strmap (list Z)) (handle_inter_cu_refs : bool) (module : DumpModule) (info : list Z)
    (fs : list FileUnit) :
  str_find sections (lit ".debug_info") = Some info -> Z.of_nat (length info) < 2 ^ 63 ->
  units_at sections (file_reader big_endian) 0 fs (Z.of_nat (length info)) ->
  LoadDwarf big_endian sections handle_inter_cu_refs module =
    visit_units sections (file_reader big_endian) 0 fs (file_state big_endian sections handle_inter_cu_refs module) /\
  ((forall name section, str_find sections name = Some section -> Forall byte_ok section) -> built module ->
   forall s, LoadDwarf big_endian sections handle_inter_cu_refs module = Ok s -> built (fc_module s)).
Proof.
  intros Ei Hlen Hat. assert (E: LoadDwarf big_endian sections handle_inter_cu_refs module =
    visit_units sections (file_reader big_endian) 0 fs (file_state big_endian sections handle_inter_cu_refs module)).
  { unfold LoadDwarf. rewrite Ei. cbn [non_null mbind outcome_bind].
    pose proof (units_at_end _ _ _ _ _ Hat). apply units_loop_holds; [exact Hat|lia|done|lia|done|reflexivity]. }
  split; [exact E|]. intros Hb Hm s. rewrite E. by apply (visit_units_module sections _ fs 0 _ _ Hat).
Qed.
End load.

(** ** A file of two units

    void f() {} in a.c, which has two lines, and in 64-bit DWARF void g() {} in a unit that
    has none. *)
(** There are no other files. *)
#[local] Instance no_files : Files := {| stat _ := false; open_elf _ := mkElfReader false false (λ _, None) (λ _, None) (λ _, None) |}.

Definition file_table : list Abbrev :=
  [mkAbbrev 1 DW_TAG_compile_unit true [(DW_AT_stmt_list, DW_FORM_sec_offset); (DW_AT_comp_dir, DW_FORM_string)];
   mkAbbrev 2 DW_TAG_subprogram false [(DW_AT_name, DW_FORM_strp); (DW_AT_low_pc, DW_FORM_addr); (DW_AT_high_pc, DW_FORM_data1)];
   mkAbbrev 3 DW_TAG_compile_unit true []].

Definition file_strings : list Z := 0 :: string_bytes (lit "f") ++ string_bytes (lit "g").

Definition f_unit : FileUnit :=
  mkFileUnit false (mkUnitHeader 35 4 0 8) file_table
    (mkUnitDie 1 (mkAbbrev 1 DW_TAG_compile_unit true [(DW_AT_stmt_list, DW_FORM_sec_offset); (DW_AT_comp_dir, DW_FORM_string)])
       [NumberField DW_FORM_sec_offset 0; StringField (lit "/home/b")]
       [mkUnitDie 2 (mkAbbrev 2 DW_TAG_subprogram false [(DW_AT_name, DW_FORM_strp); (DW_AT_low_pc, DW_FORM_addr); (DW_AT_high_pc, DW_FORM_data1)])
          [StrpField 1 (lit "f"); NumberField DW_FORM_addr 0x1000; NumberField DW_FORM_data1 8] []]) 0.

Definition g_unit : FileUnit :=
  mkFileUnit true (mkUnitHeader 31 3 0 8) file_table
    (mkUnitDie 3 (mkAbbrev 3 DW_TAG_compile_unit true [])
       []
       [mkUnitDie 2 (mkAbbrev 2 DW_TAG_subprogram false [(DW_AT_name, DW_FORM_strp); (DW_AT_low_pc, DW_FORM_addr); (DW_AT_high_pc, DW_FORM_data1)])
          [StrpField 3 (lit "g"); NumberField DW_FORM_addr 0x2000; NumberField DW_FORM_data1 16] []]) 0.

Definition file_info : list Z :=
  let bytes f := whole_unit (reader_for little (fu_dwarf64 f) (fu_header f)) (unit_of [] 0 (fu_dwarf64 f) (fu_header f) (fu_table f)) (fu_dwarf64 f) (fu_die f) (fu_padding f) in
  bytes f_unit ++ bytes g_unit.

Definition file_sections : strmap (list Z) :=
  [(lit ".debug_abbrev", table_bytes file_table); (lit ".debug_info", file_info);
   (lit ".debug_line", unit_bytes demo_line_reader false demo_line_header demo_line_lengths demo_line_dirs demo_line_files demo_line_ops);
   (lit ".debug_str", file_strings)].

Ltac laid_out_unit :=
  split; [eexists; split; [reflexivity|]; split; [vm_compute; reflexivity|]; split; [discriminate|vm_compute; reflexivity]|vm_compute; reflexivity
    |done|by split|by right|by split
    |eexists; split; [reflexivity|]; split; [split; [done|vm_compute; reflexivity]|]; split; [repeat constructor; done|done]
    |repeat first [apply unit_die_ok_intro|apply Forall2_cons_2|apply Forall2_nil_2|apply Forall_cons_2|apply Forall_nil_2|split];
       try reflexivity; try discriminate; try done; try exact I; try (by exists 8); try (by exists 4); try (by exists 1); try (by repeat constructor)].

Lemma file_units : units_at file_sections (file_reader false) 0 [f_unit; g_unit] (Z.of_nat (length file_info)).
Proof.
  split; [laid_out_unit; eexists; split; [reflexivity|]; by split|]. split; [|vm_compute; reflexivity].
  change (0 + fu_size file_sections (file_reader false) 0 f_unit) with 39. laid_out_unit; eexists; split; [reflexivity|]; by split.
Qed.

Lemma str_find_value {A} (P : A -> Prop) (m : strmap A) k v : Forall (λ x, P x.2) m -> str_find m k = Some v -> P v.
Proof. induction 1 as [|[k' v'] m Hv _ IH]; cbn [str_find]; [done|]. destruct (str_eqb _ _); [by intros [= <-]|exact IH]. Qed.

Lemma file_loaded :
  match LoadDwarf (lit "a.o") false file_sections true empty_dump with
  | Ok s => Some (mod_files (fc_module s), mod_functions (fc_module s))
  | _ => None
  end =
  Some ([(lit "/src/a.c", 0%nat)],
        [mkMFunction (lit "f") 0x1000 8 0 [mkMLine 0x1000 4 0 10; mkMLine 0x1004 4 0 11]; mkMFunction (lit "g") 0x2000 16 0 []]).
Proof. vm_compute. reflexivity. Qed.

Lemma file_bytes_ok name section : str_find file_sections name = Some section -> Forall byte_ok section.
Proof.
  apply str_find_value. apply (Forall_impl (λ x, forallb (λ b, (0 <=? b) && (b <? 256)) x.2 = true)).
  - apply Forall_forall. intros x Hx. assert (Hall: forallb (λ x, forallb (λ b, (0 <=? b) && (b <? 256)) x.2) file_sections = true) by (vm_compute; reflexivity).
    rewrite forallb_forall in Hall. apply Hall. by apply list_elem_of_In.
  - intros x Hx. apply Forall_forall. intros b Hin. rewrite forallb_forall in Hx. specialize (Hx b (proj1 (list_elem_of_In _ _) Hin)). breflect. by unfold byte_ok, fits.
Qed.

Lemma file_info_short : Z.of_nat (length file_info) < 2 ^ 63.
Proof. vm_compute. reflexivity. Qed.

Lemma file_info_found : str_find file_sections (lit ".debug_info") = Some file_info.
Proof. reflexivity. Qed.

Lemma load_dwarf_witness :
  exists s, LoadDwarf (lit "a.o") false file_sections true empty_dump = Ok s /\ built (fc_module s) /\
    mod_files (fc_module s) = [(lit "/src/a.c", 0%nat)] /\
    mod_functions (fc_module s) =
      [mkMFunction (lit "f") 0x1000 8 0 [mkMLine 0x1000 4 0 10; mkMLine 0x1004 4 0 11]; mkMFunction (lit "g") 0x2000 16 0 []].
Proof.
  destruct (load_dwarf (lit "a.o") false file_sections true empty_dump file_info [f_unit; g_unit] file_info_found file_info_short file_units) as [_ Hb].
  pose proof file_loaded as Hparts. revert Hb Hparts. generalize (LoadDwarf (lit "a.o") false file_sections true empty_dump).
  intros [s| |] Hb Hparts; [|discriminate Hparts..]. exists s. split; [reflexivity|].
  split; [|injection Hparts as Hfiles Hfunctions; split; [exact Hfiles|exact Hfunctions]].
  apply (Hb file_bytes_ok); [by exists (lit "a.out"), (lit "Linux"), (lit "x86_64"), (lit "000"), []|reflexivity].
Defined.
