(* ===== verification/CuNames.v ===== *)
(** The names of the functions of a compilation unit: those of namespaces, classes and the
    like, and of members that are defined out of their class, are qualified. *)
From Stdlib Require Import Ascii.
From stdpp Require Import strings list gmap.
From S2P Require Import Prelude StdMap CStr StrMap Memory ByteReader SymbolFile DumpModule DumpLoad LineAssign DwarfEnums DieHandler CuToModule CuFunctions.

(** ** Declarations *)

(** Where a function's code is: its address and size, and whether DW_AT_high_pc gives its
    size or the address of its end. *)
Record CodeRange := mkCodeRange { code_low : Z; code_size : Z; size_given : bool }.

(** What a unit declares, each with the offset of its DIE: a function, a member function
    that is only declared, the definition of one declared at another DIE, and a scope. *)
Inductive Decl :=
| FunctionDecl (offset : Z) (name : cstring) (code : CodeRange)
| MemberDecl (offset : Z) (name : cstring)
| MemberDefinition (offset target : Z) (code : CodeRange)
| ScopeDecl (offset tag : Z) (name : cstring) (members : list Decl).

Definition code_attributes (c : CodeRange) : list Attribute :=
  [(DW_AT_low_pc, DW_FORM_addr, AttrUnsigned (code_low c));
   (if size_given c then (DW_AT_high_pc, DW_FORM_data8, AttrUnsigned (code_size c))
    else (DW_AT_high_pc, DW_FORM_addr, AttrUnsigned (code_low c + code_size c)))].

(** The DIEs of declarations. *)
Fixpoint decl_die (d : Decl) : DIE :=
  match d with
  | FunctionDecl offset name c => mkDIE offset DW_TAG_subprogram ((DW_AT_name, DW_FORM_string, AttrString name) :: code_attributes c) []
  | MemberDecl offset name =>
      mkDIE offset DW_TAG_subprogram [(DW_AT_name, DW_FORM_string, AttrString name); (DW_AT_declaration, DW_FORM_flag, AttrUnsigned 1)] []
  | MemberDefinition offset target c => mkDIE offset DW_TAG_subprogram ((DW_AT_specification, DW_FORM_ref4, AttrReference target) :: code_attributes c) []
  | ScopeDecl offset tag name members => mkDIE offset tag [(DW_AT_name, DW_FORM_string, AttrString name)] (decl_die <$> members)
  end.

Definition code_ok (c : CodeRange) : Prop := 0 <= code_low c /\ 0 < code_size c /\ code_low c + code_size c < 2 ^ 64.

Definition scope_tag (tag : Z) : Prop := tag = DW_TAG_namespace \/ tag = DW_TAG_class_type \/ tag = DW_TAG_structure_type \/ tag = DW_TAG_union_type.

(** Names are not empty; a definition refers to a DIE that is not of another unit, unless
    such references are handled. *)
Inductive decl_ok (s : CuState) : Decl -> Prop :=
| function_ok offset name c : name <> [] -> code_ok c -> decl_ok s (FunctionDecl offset name c)
| member_ok offset name : name <> [] -> decl_ok s (MemberDecl offset name)
| definition_ok offset target c : IsUnhandledInterCUReference s target (cu_offset s) = false -> code_ok c -> decl_ok s (MemberDefinition offset target c)
| scope_ok offset tag name members : name <> [] -> scope_tag tag -> Forall (decl_ok s) members -> decl_ok s (ScopeDecl offset tag name members).

(** ** What they mean *)

Section meaning.
Context (language : Language).

(** The function of a code range; none at address 0. *)
Definition code_function (name : cstring) (c : CodeRange) : list MFunction :=
  if code_low c =? 0 then []
  else [mkMFunction (match name with [] => lit "<name omitted>" | _ => name end) (code_low c) (code_size c) 0 []].

(** The name of what a DIE declared. *)
Definition declared_name (spec : Specification) : cstring :=
  match spec_qualified_name spec with
  | [] => MakeQualifiedName language (spec_enclosing_name spec) (spec_unqualified_name spec)
  | name => name
  end.

(** The functions of a declaration in a scope, in order, and the declarations known after
    it, by the offsets of their DIEs. *)
Fixpoint decl_functions (scope : cstring) (d : Decl) (specs : gmap Z Specification) : list MFunction * gmap Z Specification :=
  match d with
  | FunctionDecl offset name c => (code_function (MakeQualifiedName language scope name) c, <[offset := mkSpecification [] scope name]> specs)
  | MemberDecl offset name => ([], <[offset := mkSpecification [] scope name]> specs)
  | MemberDefinition offset target c =>
      match specs !! target with
      | None => (code_function [] c, specs)
      | Some spec =>
          (code_function (declared_name spec) c,
           match spec_qualified_name spec with
           | [] => <[offset := mkSpecification [] (spec_enclosing_name spec) (spec_unqualified_name spec)]> specs
           | _ => specs
           end)
      end
  | ScopeDecl offset _ name members =>
      (fix all (ds : list Decl) (specs : gmap Z Specification) : list MFunction * gmap Z Specification :=
         match ds with
         | [] => ([], specs)
         | d :: ds =>
             let '(fs, specs) := decl_functions (MakeQualifiedName language scope name) d specs in
             let '(gs, specs) := all ds specs in (fs ++ gs, specs)
         end) members (<[offset := mkSpecification [] scope name]> specs)
  end.

Fixpoint decls_functions (scope : cstring) (ds : list Decl) (specs : gmap Z Specification) : list MFunction * gmap Z Specification :=
  match ds with
  | [] => ([], specs)
  | d :: ds =>
      let '(fs, specs) := decl_functions scope d specs in
      let '(gs, specs) := decls_functions scope ds specs in (fs ++ gs, specs)
  end.

Lemma decl_functions_scope scope offset tag name members specs :
  decl_functions scope (ScopeDecl offset tag name members) specs =
  decls_functions (MakeQualifiedName language scope name) members (<[offset := mkSpecification [] scope name]> specs).
Proof.
  cbn [decl_functions]. generalize (<[offset := mkSpecification [] scope name]> specs). induction members as [|d ds IH]; intros specs'; [done|].
  cbn [decls_functions]. destruct (decl_functions _ d specs') as [fs specs1]. by rewrite IH.
Qed.
End meaning.

Lemma Decl_induction (P : Decl -> Prop) :
  (forall offset name c, P (FunctionDecl offset name c)) -> (forall offset name, P (MemberDecl offset name)) ->
  (forall offset target c, P (MemberDefinition offset target c)) ->
  (forall offset tag name members, Forall P members -> P (ScopeDecl offset tag name members)) -> forall d, P d.
Proof.
  intros H1 H2 H3 H4. fix IH 1. intros [offset name c|offset name|offset target c|offset tag name members]; [apply H1|apply H2|apply H3|].
  apply H4. induction members as [|d ds IHd]; constructor; [apply IH|apply IHd].
Qed.

(** ** The handlers find them *)

Section naming.
Context `{Demangler} `{StdSort}.

(** The handlers of scopes and of the unit. *)
Definition scope_of (h : Handler) : option cstring :=
  match h with CuHandler _ _ => Some [] | NamedScopeHandler _ scope => Some scope | _ => None end.

(** What the names depend on. *)
Definition same_setting (s s' : CuState) : Prop :=
  cu_language s' = cu_language s /\ fc_handle_inter_cu_refs s' = fc_handle_inter_cu_refs s /\ cu_offset s' = cu_offset s.

Lemma decl_ok_setting s s' d : same_setting s s' -> decl_ok s d -> decl_ok s' d.
Proof.
  intros (_ & Hr & Ho). induction d as [offset name c|offset name|offset target c|offset tag name members IH] using Decl_induction; intros Hd; inversion Hd; subst.
  - by constructor.
  - by constructor.
  - constructor; [|done]. unfold IsUnhandledInterCUReference in *. by rewrite Hr, Ho.
  - constructor; [done..|]. rewrite Forall_forall in IH. apply Forall_forall. intros d Hin. apply IH; [done|]. by eapply Forall_forall.
Qed.

(** What a declaration adds. *)
Definition finds (h : Handler) (s : CuState) (o : outcome CuState) (r : list MFunction * gmap Z Specification) : Prop :=
  exists s', o = Ok s' /\ cu_functions s' = cu_functions s ++ r.1 /\ fc_specifications s' = r.2 /\ same_setting s s'.

Definition found (d : Decl) : Prop := forall h scope s,
  scope_of h = Some scope -> decl_ok s d -> finds h s (visit_child h (decl_die d) s) (decl_functions (cu_language s) scope d (fc_specifications s)).

Lemma found_all ds : Forall found ds -> forall h scope s,
  scope_of h = Some scope -> Forall (decl_ok s) ds ->
  finds h s (visit_children h (decl_die <$> ds) s) (decls_functions (cu_language s) scope ds (fc_specifications s)).
Proof.
  induction 1 as [|d ds Hd _ IH]; intros h scope s Hh Hok; [exists s; by rewrite app_nil_r|]. inversion Hok as [|? ? Hok1 Hok2]; subst.
  rewrite fmap_cons. cbn [visit_children decls_functions]. destruct (Hd h scope s Hh Hok1) as (s1 & -> & Hf1 & Hs1 & Hset1).
  destruct (decl_functions (cu_language s) scope d (fc_specifications s)) as [fs specs1]. cbn [fst snd] in *. rewrite bind_Ok.
  destruct (IH h scope s1 Hh) as (s2 & -> & Hf2 & Hs2 & Hset2); [eapply Forall_impl; [exact Hok2|]; intros; by eapply decl_ok_setting|].
  rewrite Hs1, (proj1 Hset1) in Hf2, Hs2. destruct (decls_functions (cu_language s) scope ds specs1) as [gs specs2]. cbn [fst snd] in *.
  exists s2. split_and!; [done|by rewrite Hf2, Hf1, <- app_assoc|done|]. destruct Hset1 as (-> & -> & ->) || (unfold same_setting in *; destruct_and?; split_and!; congruence).
Qed.

(** A function is pushed when it is finished. *)
Lemma Func_Finish_code g name c inline s :
  code_ok c ->
  let '(high, form) := if size_given c then (code_size c, DW_FORM_data8) else (code_low c + code_size c, DW_FORM_addr) in
  let s' := Func_Finish g name (code_low c) high form inline s in
  cu_functions s' = cu_functions s ++ code_function name c /\ fc_specifications s' = fc_specifications s /\ same_setting s s'.
Proof.
  intros (Hl & Hs & Hend).
  assert (Hgo: forall high form, (if form =? DW_FORM_addr then high else u64 (high + code_low c)) = code_low c + code_size c ->
    let s' := Func_Finish g name (code_low c) high form inline s in
    cu_functions s' = cu_functions s ++ code_function name c /\ fc_specifications s' = fc_specifications s /\ same_setting s s').
  { intros high form E. unfold Func_Finish. rewrite E, (proj2 (Z.ltb_lt _ _)) by lia.
    replace (code_low c + code_size c - code_low c) with (code_size c) by lia. unfold code_function.
    destruct name as [|ch name]; destruct (code_low c =? 0); cbn; by rewrite ?app_nil_r. }
  destruct (size_given c); apply Hgo; [|done]. cbn. unfold u64. rewrite wrap_small by (unfold fits; lia). lia.
Qed.

Definition code_high (c : CodeRange) : Z := if size_given c then code_size c else code_low c + code_size c.
Definition code_form (c : CodeRange) : Z := if size_given c then DW_FORM_data8 else DW_FORM_addr.

Lemma process_code c g name low high form origin inline s :
  process_attributes (code_attributes c) (FuncHandler g name low high form origin inline) s =
  (FuncHandler g name (code_low c) (code_high c) (code_form c) origin inline, s).
Proof. unfold code_attributes, code_high, code_form. by destruct (size_given c). Qed.

Lemma find_function h scope offset s : scope_of h = Some scope -> FindChildHandler offset DW_TAG_subprogram h s = Some (FuncHandler_new scope offset).
Proof. destruct h; intros [= <-]; done. Qed.

Lemma find_scope h scope offset tag s : scope_of h = Some scope -> scope_tag tag -> FindChildHandler offset tag h s = Some (NamedScopeHandler_new scope offset).
Proof. intros Hh Ht. destruct h; cbn in Hh; simplify_eq; by destruct Ht as [-> |[-> |[-> | ->]]]. Qed.

(** A function with code, from when its name is known. *)
Lemma finish_code g origin inline c s name s1 :
  code_ok c -> ComputeQualifiedName g s = (name, s1) -> origin = None -> inline = false -> same_setting s s1 -> cu_functions s1 = cu_functions s ->
  forall h0, finds h0 s
    (let '(_, h, s) := EndAttributes (FuncHandler g [] (code_low c) (code_high c) (code_form c) origin inline) s in FinishDIE h s)
    (code_function name c, fc_specifications s1).
Proof.
  intros Hc Hn -> -> (E1 & E2 & E3) Ef h0. cbn [EndAttributes CuToModule]. unfold Func_EndAttributes. rewrite Hn.
  assert (Hname: match name with [] => name | _ :: _ => name end = name) by (by destruct name).
  replace (match name with [] => match None with Some origin => origin | None => name end | _ :: _ => name end) with name by (by destruct name).
  cbn [FinishDIE CuToModule]. eexists. split; [reflexivity|].
  pose proof (Func_Finish_code g name c false s1 Hc) as H1. unfold code_high, code_form.
  destruct (size_given c); destruct H1 as (H1 & H2 & H3 & H4 & H5); (split; [by rewrite H1, Ef|split; [done|split_and!; congruence]]).
Qed.

Lemma MakeQualifiedName_name language scope name : name <> [] -> MakeQualifiedName language scope name <> [].
Proof. intros Hn. destruct language; cbn; unfold MakeQualifiedNameWithSeparator; destruct scope; try done; by destruct name. Qed.

Lemma all_found d : found d.
Proof.
  induction d as [offset name c|offset name|offset target c|offset tag name members IH] using Decl_induction; intros h scope s Hh Hok; inversion Hok; subst;
    cbn [decl_die visit_child].
  - rewrite (find_function h scope) by done. rewrite visit_eq. cbn [process_attributes].
    change (ProcessAttribute DW_AT_name DW_FORM_string (AttrString name) (FuncHandler_new scope offset) s)
      with (FuncHandler (set_name_attribute name (GenericDIE_new scope offset)) [] 0 0 DW_FORM_addr None false, AddStringToPool name s).
    cbn beta iota. rewrite process_code. set (g := set_name_attribute name (GenericDIE_new scope offset)). set (s1 := AddStringToPool name s).
    destruct (finish_code g None false c s1 (MakeQualifiedName (cu_language s) scope name)
      (with_specifications (<[offset := mkSpecification [] scope name]> (fc_specifications s)) s1)) as (s' & E & Hf & Hs & Hset);
      try done; [by destruct name|].
    exists s'. split; [|by split_and!]. rewrite <- E. by destruct (EndAttributes _ s1) as [[[] ?] ?].
  - rewrite (find_function h scope) by done. rewrite visit_eq. destruct name as [|c name]; [done|]. eexists. split; [reflexivity|].
    cbn [fst snd]. by rewrite app_nil_r.
  - rewrite (find_function h scope) by done. rewrite visit_eq. cbn [process_attributes].
    set (g := GenericDIE_new scope offset).
    assert (Hp: ProcessAttribute DW_AT_specification DW_FORM_ref4 (AttrReference target) (FuncHandler_new scope offset) s =
      match fc_specifications s !! target with
      | Some spec => (FuncHandler (set_specification (Some spec) g) [] 0 0 DW_FORM_addr None false, s)
      | None => (FuncHandler g [] 0 0 DW_FORM_addr None false, warn [UnknownSpecification offset target] s)
      end).
    { cbn [ProcessAttribute CuToModule FuncHandler_new]. unfold Func_ProcessAttribute. change (DW_AT_specification =? DW_AT_abstract_origin) with false. cbn iota.
      unfold Generic_ProcessAttributeReference. change (DW_AT_specification =? DW_AT_specification) with true. cbn iota.
      match goal with H : IsUnhandledInterCUReference _ _ _ = false |- _ => rewrite H end. by destruct (fc_specifications s !! target). }
    rewrite Hp. clear Hp. cbn [decl_functions].
    assert (Hgo: forall g s1 name s2, ComputeQualifiedName g s1 = (name, s2) -> same_setting s s2 -> same_setting s1 s2 ->
      cu_functions s2 = cu_functions s1 -> cu_functions s1 = cu_functions s ->
      finds h s (let '(h, s) := process_attributes (code_attributes c) (FuncHandler g [] 0 0 DW_FORM_addr None false) s1 in
                 let '(descend, h, s) := EndAttributes h s in
                 s ← (if descend then visit_children h [] s else Ok s); FinishDIE h s)
        (code_function name c, fc_specifications s2)).
    { intros g1 s1 name s2 Hn Hset1 Hset2 Hf2 Hf1. rewrite process_code.
      destruct (finish_code g1 None false c s1 name s2 ltac:(assumption) Hn eq_refl eq_refl Hset2 Hf2 h) as (s' & E & Hf & Hs & Hset).
      exists s'. split; [rewrite <- E; by destruct (EndAttributes _ s1) as [[[] ?] ?]|]. rewrite Hf, Hf1. split; [done|]. split; [done|].
      unfold same_setting in *. destruct_and?. split_and!; congruence. }
    destruct (fc_specifications s !! target) as [spec|] eqn:Es.
    + destruct (ComputeQualifiedName (set_specification (Some spec) g) s) as [name s2] eqn:En.
      assert (Hres: name = declared_name (cu_language s) spec /\ fc_specifications s2 = match spec_qualified_name spec with
         | [] => <[offset := mkSpecification [] (spec_enclosing_name spec) (spec_unqualified_name spec)]> (fc_specifications s) | _ => fc_specifications s end /\
         same_setting s s2 /\ cu_functions s2 = cu_functions s).
      { revert En. unfold ComputeQualifiedName, full_name, unqualified_name, enclosing_name, declared_name. cbn.
        destruct (spec_qualified_name spec); intros [= <- <-]; done. }
      destruct Hres as (-> & <- & Hset & Hf). by apply (Hgo _ s).
    + apply (Hgo g (warn [UnknownSpecification offset target] s) [] (warn [UnknownSpecification offset target] s)); done.
  - rewrite (find_scope h scope) by done. rewrite visit_eq, decl_functions_scope. destruct name as [|c name]; [done|]. set (n := c :: name) in *.
    cbn [process_attributes]. set (g := set_name_attribute n (GenericDIE_new scope offset)). set (s1 := AddStringToPool n s).
    change (ProcessAttribute DW_AT_name DW_FORM_string (AttrString n) (NamedScopeHandler_new scope offset) s) with (NamedScopeHandler g [], s1).
    cbn beta iota. set (s2 := with_specifications (<[offset := mkSpecification [] scope n]> (fc_specifications s)) s1).
    change (EndAttributes (NamedScopeHandler g []) s1) with (true, NamedScopeHandler g (MakeQualifiedName (cu_language s) scope n), s2). cbn beta iota.
    destruct (found_all members IH (NamedScopeHandler g (MakeQualifiedName (cu_language s) scope n)) (MakeQualifiedName (cu_language s) scope n) s2 eq_refl)
      as (s3 & -> & Hf & Hs & Hset).
    { match goal with H : Forall (decl_ok s) members |- _ => eapply Forall_impl; [exact H|] end. intros d Hd. by apply (decl_ok_setting s). }
    exists s3. by split_and!.
Qed.

(** C38: the functions a compilation unit is found to have are those of its declarations, in
    their order: a function in scopes has their names before its own, joined the way the
    unit's language does; a member function that is defined out of its class has the name of
    its declaration; and a function gets the range of its code, whether DWARF gives its size
    or its end. *)
Theorem unit_functions (has_lines : bool) (offset : Z) (ds : list Decl) (s : CuState) :
  Forall (decl_ok s) ds ->
  exists s',
    visit_children (CuHandler has_lines offset) (decl_die <$> ds) s = Ok s' /\
    cu_functions s' = cu_functions s ++ (decls_functions (cu_language s) [] ds (fc_specifications s)).1 /\
    cu_language s' = cu_language s.
Proof.
  intros Hok. destruct (found_all ds ltac:(apply Forall_forall; intros; apply all_found) (CuHandler has_lines offset) [] s eq_refl Hok)
    as (s' & E & Hf & _ & Hl & _). by exists s'.
Qed.
End naming.

(** namespace ns { class C { void f(); }; void g() {} }  void ns::C::f() {} *)
Definition demo_decls : list Decl :=
  [ScopeDecl 0x10 DW_TAG_namespace (lit "ns")
     [ScopeDecl 0x20 DW_TAG_class_type (lit "C") [MemberDecl 0x30 (lit "f")]; FunctionDecl 0x40 (lit "g") (mkCodeRange 0x1000 0x20 true)];
   MemberDefinition 0x50 0x30 (mkCodeRange 0x1020 0x10 false)].

Lemma unit_functions_witness :
  exists s',
    visit_children (CuHandler true 0) (decl_die <$> demo_decls) demo_cu_state = Ok s' /\
    cu_functions s' = [mkMFunction (lit "ns::g") 0x1000 0x20 0 []; mkMFunction (lit "ns::C::f") 0x1020 0x10 0 []].
Proof.
  destruct (unit_functions true 0 demo_decls demo_cu_state) as (s' & E & Hf & _).
  - repeat first [apply Forall_nil_2|apply Forall_cons_2|apply scope_ok|apply member_ok|apply function_ok|apply definition_ok]; try done; try by (left + (right; left)).
  - exists s'. split; [exact E|]. rewrite Hf. vm_compute. reflexivity.
Defined.
