(* ===== verification/DwarfLines.v ===== *)
(** From DWARF line numbers to the processor: the functions and the line number program of a
    compilation unit, assembled into a module (CuToModule.v), written (DumpWrite.v), loaded
    and looked up (DumpLoad.v), give the source line of an address. *)
From Stdlib Require Import Ascii.
From stdpp Require Import strings list gmap relations sorting.
From S2P Require Import Prelude StdMap RangeMap CStr StrMap Memory MemoryRegion PostfixEvaluator CfiFrameInfo ByteReader CallFrameInfo LineInfo LineProgram SymbolFile BasicResolver BasicInvariant SymbolLoad ResolverLookup DumpModule DumpWrite DumpLoad LineToModule LineAssign LineBounds DwarfEnums DieHandler CuToModule CuFunctions CuNames.

(** ** Functions into the module *)

Lemma insert_function_perm f fs : (forall g, g ∈ fs -> mfunc_address g <> mfunc_address f) -> insert_function f fs ≡ₚ f :: fs.
Proof.
  induction fs as [|g fs IH]; intros Hne; [done|]. cbn [insert_function].
  assert (Hg: mfunc_address g <> mfunc_address f) by (apply Hne; left). unfold function_lt.
  rewrite (proj2 (Z.eqb_neq _ _) Hg), (proj2 (Z.eqb_neq (mfunc_address f) _)) by done.
  destruct (mfunc_address g <? mfunc_address f) eqn:E1.
  - rewrite IH by (intros k Hk; apply Hne; by right). apply perm_swap.
  - destruct (mfunc_address f <? mfunc_address g) eqn:E2; [done|]. breflect. lia.
Qed.

Lemma AddFunctions_perm fs : forall m m',
  AddFunctions m fs = Ok m' -> separate (func_extent <$> fs ++ mod_functions m) ->
  mod_functions m' ≡ₚ fs ++ mod_functions m /\ mod_load_address m' = mod_load_address m.
Proof.
  induction fs as [|f fs IH]; intros m m' E Hsep; [by injection E as <-|]. cbn [AddFunctions app] in *.
  destruct (AddFunction m f) as [m1| |] eqn:E1; [|done|done]. rewrite bind_Ok in E.
  assert (Hm1: mod_functions m1 = insert_function f (mod_functions m) /\ mod_load_address m1 = mod_load_address m)
    by (unfold AddFunction in E1; destruct (mfunc_name f); [done|]; injection E1 as <-; cbn; by dif).
  destruct Hm1 as [Hfs Hla]. rewrite fmap_cons in Hsep. destruct Hsep as [Hp Ho]. inversion Hp as [|? ? Hpf Hp']; subst. inversion Ho as [|? ? Haf Ho']; subst.
  assert (Hins: insert_function f (mod_functions m) ≡ₚ f :: mod_functions m).
  { apply insert_function_perm. intros g Hg Heq. rewrite Forall_forall in Haf, Hp'.
    assert (Hin: func_extent g ∈ func_extent <$> fs ++ mod_functions m) by (apply list_elem_of_fmap; exists g; split; [done|]; apply elem_of_app; by right).
    specialize (Haf _ Hin). specialize (Hp' _ Hin). unfold apart, proper_range in *. cbn in *. lia. }
  destruct (IH m1 m' E) as [Hperm Hla'].
  - eapply separate_perm; [|split; [exact Hp|exact Ho]]. rewrite <- fmap_cons. apply fmap_Permutation. rewrite Hfs, Hins. apply Permutation_middle.
  - split; [|congruence]. rewrite Hperm, Hfs, Hins. symmetry. apply Permutation_middle.
Qed.

(** ** Relative addresses *)

Lemma rel_above m a : mod_load_address m <= a < 2 ^ 64 -> 0 <= mod_load_address m -> rel m a = a - mod_load_address m.
Proof. intros Ha Hl. unfold rel. apply wrap_small. unfold fits. lia. Qed.

Lemma separate_shift (l l' : list (Z * Z)) d :
  Forall2 (λ x y, y.1 = x.1 - d /\ y.2 = x.2) l l' -> (forall x, x ∈ l -> d <= x.1) -> 0 <= d -> separate l -> separate l'.
Proof.
  intros Hl Hd H0 [Hp Ho]. split.
  - clear Ho. induction Hl as [|x y l l' [E1 E2] Hl IH]; [constructor|]. inversion Hp as [|? ? (? & ? & ?) Hp']; subst.
    constructor; [|apply IH; [intros; apply Hd; by right|done]]. specialize (Hd x ltac:(left)). unfold proper_range. lia.
  - clear Hp. induction Hl as [|x y l l' [E1 E2] Hl IH]; [constructor|]. inversion Ho as [|? ? Hx Ho']; subst.
    constructor; [|apply IH; [intros; apply Hd; by right|done]]. clear IH Ho Ho' Hd. induction Hl as [|x' y' l l' [E1' E2'] _ IH]; [constructor|].
    inversion Hx as [|? ? Hx1 Hx2]; subst. constructor; [|by apply IH]. unfold apart in *. lia.
Qed.

(** *** The extents that the symbol file has *)

Lemma function_ranges_separate m fs :
  0 <= mod_load_address m -> (forall f, f ∈ fs -> mod_load_address m <= mfunc_address f) ->
  separate (func_extent <$> fs) -> separate (function_range m <$> fs).
Proof.
  intros H0 Hla Hs. eapply (separate_shift _ _ (mod_load_address m)); [| |done|exact Hs].
  - apply Forall2_fmap, Forall_Forall2_diag, Forall_forall. intros f Hf. unfold function_range, func_extent. cbn.
    split; [|done]. apply rel_above; [|done]. split; [by apply Hla|]. destruct Hs as [Hp _]. rewrite Forall_fmap, Forall_forall in Hp.
    destruct (Hp f Hf) as (? & ? & ?). cbn in *. lia.
  - intros x (f & -> & Hf)%list_elem_of_fmap. by apply Hla.
Qed.

Lemma pieces_separate m lines b f ps :
  0 <= mod_load_address m <= mfunc_address f -> proper_range (func_extent f) ->
  Forall (piece_of lines f) ps -> StronglySorted before_piece ps -> Forall (λ p, finish (mline_extent p) <= b) ps ->
  separate (line_extent m <$> ps).
Proof.
  intros Hla Hpf Hp Hs _. destruct Hpf as (Hf1 & Hf2 & Hf3). cbn in Hf1, Hf2, Hf3.
  assert (Hps: forall p, p ∈ ps -> mod_load_address m <= mline_address p /\ proper_range (mline_extent p)).
  { intros p Hin. rewrite Forall_forall in Hp. destruct (Hp p Hin) as (H1 & H2 & H3 & _). unfold proper_range, finish, func_extent, mline_extent in *. cbn in *. lia. }
  eapply (separate_shift (mline_extent <$> ps) _ (mod_load_address m)).
  - apply Forall2_fmap, Forall_Forall2_diag, Forall_forall. intros p Hin. destruct (Hps p Hin) as (? & ? & ? & ?). unfold line_extent, mline_extent in *. cbn in *.
    split; [|done]. apply rel_above; lia.
  - intros x (p & -> & Hin)%list_elem_of_fmap. by apply Hps.
  - lia.
  - split; [apply Forall_fmap, Forall_forall; intros p Hin; by apply Hps|]. clear -Hs. induction Hs as [|p ps Hs IH Hb]; [constructor|].
    rewrite fmap_cons. constructor; [|done]. apply Forall_fmap. eapply Forall_impl; [exact Hb|]. intros q Hq. left. exact Hq.
Qed.

(** *** Lines of a table *)

Definition kept_extent (l : Z * Z * Z * Z) : Z * Z := let '(address, size, _, _) := l in (address, size).

Lemma separate_omap {A} (g : A -> option MLine) (extent : A -> Z * Z) (l : list A) :
  (forall x y, g x = Some y -> mline_extent y = extent x) -> separate (extent <$> l) -> separate (mline_extent <$> omap g l).
Proof.
  intros Hg [Hp Ho]. induction l as [|x l IH]; [split; constructor|]. rewrite fmap_cons in *. inversion Hp as [|? ? Hpx Hp']; subst.
  inversion Ho as [|? ? Hx Ho']; subst. destruct (IH Hp' Ho') as [IHp IHo]. cbn [omap list_omap]. destruct (g x) as [y|] eqn:E; [|done].
  rewrite fmap_cons. rewrite <- (Hg _ _ E) in Hpx, Hx. split; constructor; try done.
  rewrite Forall_forall in Hx. apply Forall_forall. intros e (z & -> & (x' & Hin & Ex')%list_elem_of_omap)%list_elem_of_fmap.
  rewrite (Hg _ _ Ex'). apply Hx, list_elem_of_fmap. by exists x'.
Qed.

Lemma piece_covers f l x :
  mfunc_address f <= x < finish (func_extent f) -> mline_address l <= x < finish (mline_extent l) -> 0 <= x ->
  exists p, piece_from 0 f l = [p] /\ mline_address p <= x < finish (mline_extent p) /\ mline_file p = mline_file l /\ mline_number p = mline_number l.
Proof.
  intros Hf Hl Hx. unfold piece_from. rewrite (proj2 (Z.ltb_lt _ _)) by lia. eexists. split; [reflexivity|]. unfold finish at 3. cbn. lia.
Qed.

(** ** The unit *)

Section unit.
Context `{Demangler} `{StdSort}.
Context (s : CuState) (offset : Z) (section : list Z).
Context (dwarf64 : bool) (header : LineInfoHeader) (lengths : list Z) (dirs : list cstring) (files : list LineFile) (ops : list LineOp).

(** The lines of the unit's table. *)
Definition unit_lines : list (Z * Z * Z * Z) := kept_lines 0 (row_lines (rows header ops (Reset (default_is_stmt header)))).

(** A unit that can be read, whose functions and lines do not overlap. *)
Record unit_readable : Prop := {
  ur_built : built (fc_module s);
  ur_functions : HasFunctions (cu_language s) = true;
  ur_bytes : sections_ok s;
  ur_section : str_find (fc_section_map s) (lit ".debug_line") = Some section;
  ur_offset : 0 <= offset < Z.of_nat (length section);
  ur_length : Z.of_nat (length section) < 2 ^ 31;
  ur_unit : unit_ok (line_byte_reader s) dwarf64 header lengths dirs files ops;
  ur_program : holds (from section offset) 0 (unit_bytes (line_byte_reader s) dwarf64 header lengths dirs files ops);
  ur_func_ok : Forall func_ok (cu_functions s);
  ur_separate : separate (func_extent <$> cu_functions s ++ mod_functions (fc_module s));
  ur_lines : separate (kept_extent <$> unit_lines);
  ur_load : forall f, f ∈ cu_functions s ++ mod_functions (fc_module s) -> mod_load_address (fc_module s) <= mfunc_address f
}.

Context (Hu : unit_readable).

Lemma unit_lines_read :
  exists m1 s1, ReadSourceLines offset s = Ok (omap (module_line m1 (line_compilation_dir s) dirs files) unit_lines, s1) /\
    fc_module s1 = m1 /\ cu_functions s1 = cu_functions s /\ rtc file_step (fc_module s) m1 /\
    Forall (λ f, is_Some (FindExistingFile m1 (file_path (line_compilation_dir s) dirs f))) files.
Proof.
  destruct Hu. pose proof (do_files _ (built_ok _ ur_built0)) as Hs.
  destruct (line_to_module (from section offset) (line_byte_reader s) dwarf64 header lengths dirs files ops (line_compilation_dir s) (fc_module s) [])
    as (m1 & E & Hr & Hf); try done.
  { unfold from. dif; [cbn; lia|]. rewrite length_drop. lia. }
  unfold ReadSourceLines, find_section. rewrite ur_section0, (proj2 (Z.leb_gt _ _)) by lia. rewrite E, bind_Ok. by eexists m1, _.
Qed.

Lemma file_steps_rest m m' : rtc file_step m m' -> mod_functions m' = mod_functions m /\ mod_load_address m' = mod_load_address m.
Proof. induction 1 as [|m1 m2 m3 [n ->] _ IH]; [done|]. destruct IH as [-> ->]. unfold FindFile. by destruct (str_find _ _). Qed.

Lemma separate_app_l l1 l2 : separate (l1 ++ l2) -> separate l1.
Proof.
  intros [Hp Ho]. split; [by apply Forall_app in Hp as [? _]|]. clear Hp. induction l1 as [|x l1 IH]; [constructor|].
  cbn in Ho. inversion Ho as [|? ? Hx Ho']; subst. constructor; [by apply Forall_app in Hx as [? _]|by apply IH].
Qed.

(** What the end of the unit gives. *)
Lemma unit_finished :
  exists s' ls fs, Cu_Finish true offset s = Ok s' /\ built (fc_module s') /\ mod_load_address (fc_module s') = mod_load_address (fc_module s) /\
    fs ≡ₚ cu_functions s /\ mod_functions (fc_module s') ≡ₚ (with_pieces 0 ls <$> fs) ++ mod_functions (fc_module s) /\
    (forall f, f ∈ fs -> exists g, g ∈ cu_functions s /\ cut_to ls (2 ^ 64) g (with_pieces 0 ls f)) /\
    ls ≡ₚ omap (module_line (fc_module s') (line_compilation_dir s) dirs files) unit_lines /\
    Forall (λ f, is_Some (FindExistingFile (fc_module s') (file_path (line_compilation_dir s) dirs f))) files.
Proof.
  destruct unit_lines_read as (m1 & s1 & Er & Em1 & Ef1 & Hsteps & Hfiles). pose proof Hu as [].
  pose proof (do_files _ (built_ok _ ur_built0)) as Hs.
  destruct (Cu_Finish_built true offset s ur_bytes0 Hs ur_func_ok0 ltac:(intros _; rewrite Er; by eexists)) as (s' & E & Hr).
  pose proof E as Efin. unfold Cu_Finish in E. rewrite ur_functions0 in E. cbn [negb] in E. rewrite Er, bind_Ok, Ef1 in E.
  set (lines := omap (module_line m1 (line_compilation_dir s) dirs files) unit_lines) in *.
  assert (Hls: separate (mline_extent <$> lines)).
  { apply (separate_omap _ kept_extent); [|done]. intros [[[a size] f] n] l. cbn. destruct (numbered_from 1 files f) as [g|]; [|done]. cbn.
    destruct (FindExistingFile _ _); [|done]. by intros [= <-]. }
  assert (Hfs: separate (func_extent <$> cu_functions s)) by (rewrite fmap_app in ur_separate0; by eapply separate_app_l).
  destruct (assign_lines_exact_lemma (cu_functions s) lines Hfs Hls) as (fs & ls & ws & Hpf & _ & Hpl & _ & Ea).
  destruct (assign_lines_cut_lemma (cu_functions s) lines) as (fs2 & ls2 & ws2 & Ea2 & _ & gs & Hpg & Hcut); [split; [apply Hfs|apply Hls]|].
  rewrite Ea in Ea2. injection Ea2 as <- <- <-. rewrite Ea, bind_Ok in E. cbn [fc_module warn] in E. rewrite Em1 in E.
  destruct (AddFunctions m1 (with_pieces 0 ls <$> fs)) as [m'| |] eqn:Eadd; [|done|done]. rewrite bind_Ok in E. injection E as E.
  assert (Em': fc_module s' = m') by (rewrite <- E; unfold ClearSpecifications; by destruct (fc_handle_inter_cu_refs _)).
  destruct (file_steps_rest _ _ Hsteps) as [Hmf Hml].
  assert (Hext: func_extent <$> (with_pieces 0 ls <$> fs) = func_extent <$> fs) by (by rewrite <- list_fmap_compose).
  destruct (AddFunctions_perm _ _ _ Eadd) as [Hperm Hla].
  { rewrite fmap_app, Hext, <- fmap_app, Hmf. eapply separate_perm; [|exact ur_separate0]. apply fmap_Permutation. by rewrite Hpf. }
  assert (Hmfiles: mod_files m' = mod_files m1).
  { clear -Eadd. revert m1 Eadd. induction (with_pieces 0 ls <$> fs) as [|f gs IH]; intros m1 E; [by injection E as <-|]. cbn [AddFunctions] in E.
    destruct (AddFunction m1 f) as [m2| |] eqn:E1; [|done|done]. rewrite bind_Ok in E. rewrite (IH _ E).
    unfold AddFunction in E1. destruct (mfunc_name f); [done|]. injection E1 as <-. cbn. by dif. }
  assert (Hfind: forall n, FindExistingFile (fc_module s') n = FindExistingFile m1 n) by (intros n; unfold FindExistingFile; by rewrite Em', Hmfiles).
  exists s', ls, fs. split; [done|]. split; [|split; [by rewrite Em', Hla, Hml|split; [done|split; [by rewrite Em', Hperm, Hmf|split; [|split]]]]].
  - destruct ur_built0 as (n & os & a & i & c & Hm). exists n, os, a, i, c. by etrans.
  - intros f Hf. assert (Hin: with_pieces 0 ls f ∈ with_pieces 0 ls <$> fs) by (apply list_elem_of_fmap; by exists f).
    apply list_elem_of_lookup in Hin as [i Hi]. destruct (Forall2_lookup_r _ _ _ _ _ Hcut Hi) as (g & Hg & Hc). exists g.
    split; [rewrite <- Hpg; by eapply list_elem_of_lookup_2|]. destruct Hc as (ps & Eps & Hp & Hrest). exists ps. split; [done|]. split; [|done].
    eapply Forall_impl; [exact Hp|]. intros p (? & ? & ? & l & Hl & ?). split_and!; try done. exists l. by rewrite Hpl.
  - rewrite Hpl. unfold lines.
    assert (Eo: omap (module_line m1 (line_compilation_dir s) dirs files) unit_lines = omap (module_line (fc_module s') (line_compilation_dir s) dirs files) unit_lines); [|by rewrite Eo].
    apply list_omap_ext, Forall2_same_length_lookup_2; [done|]. intros i l l' Hi Hi'.
    assert (l = l') as <- by congruence. destruct l as [[[a size] f] n]. cbn. destruct (numbered_from 1 files f); [|done]. cbn. by rewrite Hfind.
  - eapply Forall_impl; [exact Hfiles|]. intros f. by rewrite Hfind.
Qed.

(** A kept line of a file of the header is a line of the module. *)
Lemma kept_line m' address size file number lf :
  (address, size, file, number) ∈ unit_lines -> numbered_from 1 files file = Some lf ->
  Forall (λ f, is_Some (FindExistingFile m' (file_path (line_compilation_dir s) dirs f))) files ->
  exists p, FindExistingFile m' (file_path (line_compilation_dir s) dirs lf) = Some p /\
    mkMLine address size p (s32 number) ∈ omap (module_line m' (line_compilation_dir s) dirs files) unit_lines.
Proof.
  intros Hin Hlf Hf. rewrite Forall_forall in Hf.
  assert (Hlf2: lf ∈ files) by (unfold numbered_from in Hlf; destruct (file <? 1); [done|]; by eapply list_elem_of_lookup_2).
  destruct (Hf lf Hlf2) as [p Hp]. exists p. split; [done|]. apply list_elem_of_omap. exists (address, size, file, number).
  split; [done|]. unfold module_line. rewrite Hlf. cbn [mbind option_bind]. by rewrite Hp.
Qed.
End unit.

(** C10: from DWARF to source lines.  When the functions of a compilation unit and the lines
    of its line number program do not overlap, finishing the unit gives a module whose
    symbol file, loaded by the processor, answers for every address in a function and in a
    line of the program: the name of the function, the path of the line's file -- from the
    tables of the program's header and the compilation directory -- and its number. *)
Theorem dwarf_lines `{Demangler} `{StdSort} (s : CuState) (offset : Z) (section : list Z) (dwarf64 : bool) (header : LineInfoHeader)
    (lengths : list Z) (dirs : list cstring) (files : list LineFile) (ops : list LineOp) :
  unit_readable s offset section dwarf64 header lengths dirs files ops ->
  exists s', Cu_Finish true offset s = Ok s' /\
  forall f address size file number lf x symbol_data name module_base frame,
    f ∈ cu_functions s -> mfunc_address f <= x < mfunc_address f + mfunc_size f ->
    (address, size, file, number) ∈ unit_lines header ops -> address <= x < address + size ->
    numbered_from 1 files file = Some lf -> 0 <= number < 2 ^ 31 ->
    loadable (fc_module s') -> has_symbols symbol_data = true ->
    wrap 64 (instruction frame - module_base) = x - mod_load_address (fc_module s) ->
    exists o bm frame',
      Write (fc_module s') symbol_data (mkOstream [] None true) = Ok (true, o) /\
      LoadMapFromMemory (BasicModule_new name) (written o ++ [NUL]) = Ok (true, bm) /\
      LookupAddress bm module_base frame = Ok frame' /\
      function_name frame' = mfunc_name f /\
      source_file_name frame' = file_path (line_compilation_dir s) dirs lf /\ source_line frame' = number.
Proof.
  intros Hu. destruct (unit_finished s offset section dwarf64 header lengths dirs files ops Hu)
    as (s' & ls & fs & E & Hb & Hla & Hfs & Hmf & Hcut & Hls & Hfiles).
  exists s'. split; [done|]. intros f address size file number lf x symbol_data name module_base frame Hf Hx Hline Hxl Hlf Hn Hload Hsd Ha.
  destruct Hu. assert (Hla0: 0 <= mod_load_address (fc_module s)) by apply (do_load _ (built_ok _ ur_built0)).
  destruct (kept_line s header dirs files ops (fc_module s') address size file number lf Hline Hlf Hfiles) as (p & Hp & Hin).
  rewrite <- Hls in Hin. set (l := mkMLine address size p (s32 number)) in *.
  destruct (piece_covers f l x Hx Hxl ltac:(rewrite Forall_forall in ur_func_ok0; destruct (ur_func_ok0 f Hf) as (_ & _ & (? & _) & _); cbn in *; lia))
    as (piece & Epiece & Hxp & Hpf & Hpn).
  set (f' := with_pieces 0 ls f). assert (Hnil: mfunc_lines f = []) by (rewrite Forall_forall in ur_func_ok0; apply (ur_func_ok0 f Hf)).
  assert (Hpin: piece ∈ mfunc_lines f').
  { unfold f', with_pieces. cbn. rewrite Hnil. cbn. apply list_elem_of_bind. exists l. split; [rewrite Epiece; left|done]. }
  assert (Hff: f ∈ fs) by (by rewrite Hfs).
  assert (Hf': f' ∈ mod_functions (fc_module s')) by (rewrite Hmf; apply elem_of_app; left; apply list_elem_of_fmap; by exists f).
  assert (Hle: mod_load_address (fc_module s) <= mfunc_address f) by (apply ur_load0, elem_of_app; by left).
  assert (Hproper: proper_range (func_extent f)) by (rewrite Forall_forall in ur_func_ok0; apply (ur_func_ok0 f Hf)).
  destruct (Hcut f Hff) as (g & Hg & ps & Eps & Hpieces & Hsorted & Hfin).
  assert (Hgf: func_extent g = func_extent f) by (change (func_extent (with_lines g ps) = func_extent f'); by rewrite <- Eps).
  assert (Hlines: mfunc_lines f' = ps).
  { unfold f'. rewrite Eps. cbn. rewrite Forall_forall in ur_func_ok0. destruct (ur_func_ok0 g Hg) as (_ & _ & _ & ->). done. }
  assert (Hrange: forall k, k ∈ mod_functions (fc_module s') -> mod_load_address (fc_module s') <= mfunc_address k).
  { rewrite Hla. intros k Hk. rewrite Hmf in Hk. apply elem_of_app in Hk as [(k' & -> & Hk')%list_elem_of_fmap|Hk].
    - apply (ur_load0 k'), elem_of_app. left. by rewrite <- Hfs.
    - apply ur_load0, elem_of_app. by right. }
  assert (Hrelx: wrap 64 (instruction frame - module_base) = x - mod_load_address (fc_module s')) by (by rewrite Hla).
  destruct (written_lookup (fc_module s') symbol_data name module_base frame f') as (o & bm & frame' & Hw & Hl & _ & Hlook & Hname & _ & Hlinesof);
    try done.
  - apply function_ranges_separate; [by rewrite Hla|done|]. eapply separate_perm; [|exact ur_separate0].
    etrans; [|apply fmap_Permutation; symmetry; exact Hmf]. rewrite !fmap_app. apply Permutation_app_tail.
    rewrite <- list_fmap_compose. apply (fmap_Permutation func_extent). by symmetry.
  - rewrite Hlines. eapply (pieces_separate _ ls _ g); try done; [|by rewrite Hgf]. rewrite Hla. by injection Hgf as -> _.
  - rewrite Hrelx. unfold within, function_range. cbn [fst snd]. rewrite rel_above; [|destruct Hproper as (? & ? & ?); rewrite Hla; cbn in *; lia|by rewrite Hla].
    cbn. lia.
  - destruct (Hlinesof piece Hpin) as (Hfile & Hnum & _).
    { rewrite Hrelx. unfold within, line_extent. cbn [fst snd].
      assert (mfunc_address f <= mline_address piece < 2 ^ 64).
      { rewrite Forall_forall in Hpieces. rewrite Hlines in Hpin. destruct (Hpieces piece Hpin) as (? & ? & ? & _). injection Hgf as Hga Hgs.
        destruct Hproper as (? & ? & ?). unfold finish in *. cbn in *. lia. }
      rewrite rel_above by (rewrite Hla; lia). unfold finish in Hxp. cbn in Hxp. lia. }
    exists o, bm, frame'. split_and!; try done.
    + apply str_find_Some in Hp; [|apply (do_files _ (built_ok _ Hb))]. rewrite Hpf in Hfile. by apply (file_name_unique (fc_module s') _ _ p (built_ok _ Hb)).
    + rewrite Hnum, Hpn. cbn. unfold s32. apply swrap_small; lia.
Qed.

(** ** A unit *)

Definition demo_line_section : list Z :=
  unit_bytes demo_line_reader false demo_line_header demo_line_lengths demo_line_dirs demo_line_files demo_line_ops.

Definition demo_unit : CuState :=
  mkCuState empty_dump true [(lit ".debug_line", demo_line_section)] [] ∅ ∅ CPlusPlus [mkMFunction (lit "f()") 0x1000 8 0 []] 0 (lit "a.c") []
    (lit "/home/b") demo_line_reader.

Definition demo_finished : CuState := match Cu_Finish true 0 demo_unit with Ok s => s | _ => demo_unit end.

Lemma demo_unit_readable :
  unit_readable demo_unit 0 demo_line_section false demo_line_header demo_line_lengths demo_line_dirs demo_line_files demo_line_ops.
Proof.
  split.
  - by exists (lit "a.out"), (lit "Linux"), (lit "x86_64"), (lit "000"), [].
  - done.
  - intros name sec E. assert (sec = demo_line_section) as -> by (cbn in E; destruct (str_eqb _ _); [by injection E|done]).
    apply (Forall_impl (λ b, ((0 <=? b) && (b <? 256)) = true)); [|intros b Hb; breflect; unfold byte_ok, fits; lia].
    apply Forall_forall. intros b Hb. assert (Hall: forallb (λ b, (0 <=? b) && (b <? 256)) demo_line_section = true) by (by vm_compute).
    rewrite forallb_forall in Hall. apply Hall. by apply list_elem_of_In.
  - done.
  - split; [done|]. by vm_compute.
  - by vm_compute.
  - exact demo_unit_ok.
  - split; [lia|]. vm_compute. reflexivity.
  - repeat constructor; done.
  - split; repeat constructor; done.
  - assert (kept_extent <$> unit_lines demo_line_header demo_line_ops = [(0x1000, 4); (0x1004, 4)]) as -> by (by vm_compute).
    split; repeat constructor; done.
  - intros f ->%list_elem_of_singleton. done.
Qed.

(** The module it leaves. *)
Definition demo_unit_module : DumpModule :=
  mkDumpModule (lit "a.out") (lit "Linux") (lit "x86_64") (lit "000") [] 0 [(lit "/src/a.c", 0%nat)] [mkMFile (lit "/src/a.c") (-1)]
    [mkMFunction (lit "f()") 0x1000 8 0 [mkMLine 0x1000 4 0%nat 10; mkMLine 0x1004 4 0%nat 11]] [] [].

Lemma demo_finished_module : fc_module demo_finished = demo_unit_module.
Proof. vm_compute. reflexivity. Qed.

Lemma demo_finished_loadable : loadable (fc_module demo_finished).
Proof.
  assert (Ht: forall s, forallb (λ c, negb (in_set CRLF c)) s && forallb (λ c, negb (code c =? 0)) s && negb (bool_decide (s = [])) = true ->
    symbol_text_ok s).
  { intros s [[H1 H2]%andb_true_iff H3]%andb_true_iff. split; [split|by apply all_forallb].
    - intros ->. by rewrite bool_decide_eq_true_2 in H3.
    - by apply all_forallb. }
  rewrite demo_finished_module. constructor.
  - repeat (apply Forall_cons; split; [split; by apply all_forallb|]). apply Forall_nil_2.
  - intros n p [= -> ->]%list_elem_of_singleton. by apply Ht.
  - done.
  - intros f ->%list_elem_of_singleton. split_and!; [by apply Ht|done..].
  - intros f l ->%list_elem_of_singleton Hl. repeat (apply elem_of_cons in Hl as [->|Hl]; [done|]). by apply not_elem_of_nil in Hl.
  - by intros a n ?%not_elem_of_nil.
  - by intros e ?%not_elem_of_nil.
Qed.

Lemma dwarf_lines_witness :
  exists o bm frame',
    Write (fc_module demo_finished) ALL_SYMBOL_DATA (mkOstream [] None true) = Ok (true, o) /\
    LoadMapFromMemory (BasicModule_new (lit "a.out")) (written o ++ [NUL]) = Ok (true, bm) /\
    LookupAddress bm 0x400000 (example_frame 0x401005) = Ok frame' /\
    function_name frame' = lit "f()" /\ source_file_name frame' = lit "/src/a.c" /\ source_line frame' = 11.
Proof.
  destruct (dwarf_lines demo_unit 0 demo_line_section false demo_line_header demo_line_lengths demo_line_dirs demo_line_files demo_line_ops)
    as (s' & E & Hlook); [exact demo_unit_readable|].
  assert (s' = demo_finished) as -> by (unfold demo_finished; by rewrite E). clear E.
  apply (Hlook (mkMFunction (lit "f()") 0x1000 8 0 []) 0x1004 4 1 11 (lit "a.c", 1, 0, 0) 0x1005 ALL_SYMBOL_DATA (lit "a.out") 0x400000 (example_frame 0x401005)).
  - left.
  - split; [discriminate|reflexivity].
  - assert (unit_lines demo_line_header demo_line_ops = [(0x1000, 4, 1, 10); (0x1004, 4, 1, 11)]) as -> by (vm_compute; reflexivity). right. left.
  - split; [discriminate|reflexivity].
  - reflexivity.
  - split; [discriminate|reflexivity].
  - exact demo_finished_loadable.
  - reflexivity.
  - vm_compute. reflexivity.
Defined.
